(* ===== verification/_CoqProject ===== *)
-Q . S2P
Prelude.v
Collections.v
Bytes.v
Framing.v
StrOps.v
Crypto.v
F32.v
Governance.v
MlsGroup.v
Identity.v
DeviceSet.v
ContentKeys.v
DeliveryError.v
Delivery.v
TextEnvelope.v
Abuse.v
TextSend.v
TextReceive.v
TextHistory.v
Ranking.v
Topology.v
ReplayWindow.v
Redelivery.v
Integrity.v
Gossip.v
Capability.v
StoreForward.v
Manager.v
Transport.v
Session.v
DataFrames.v
Timeline.v
DataChannel.v
IcePolicy.v
ConnPolicy.v
NegotiationSeal.v
Negotiation.v
RouteGraph.v
ControlLane.v
SignalingBus.v
ProviderPlan.v
ProviderRooms.v
PeerOverlay.v
OverlayRouting.v
Invites.v
Admission.v
SFrame.v
LocalStore.v
AppDbSchema.v
Keychain.v
AppDb.v
AccountBackup.v
AppService.v
HistorySync.v
Push.v
VoiceFanout.v
VoiceAudio.v
JitterBuffer.v
VoicePipeline.v
DeskState.v
DeskGroups.v
DeskDelivery.v
DeskAdmission.v
DeskVoice.v
DeskCommands.v
DeskFrames.v
LaneManager.v
DeskInvites.v
DeskJoin.v
