(* ===== verification/Prelude.v ===== *)
(** * Discrypt: a verification library for the Rust workspace

    Discrypt is a serverless group messenger. A room is an MLS group whose members
    deliver commits and encrypted text to each other over a peer-to-peer relay
    overlay; there is no server that orders, stores or authorises anything, so each
    peer decides locally what to accept. This library models the crates under [src/crates]
    that make those decisions and the backend of the desktop application
    ([src/apps/desktop/src-tauri]) that composes them, and proves what the decisions guarantee.

    ** The parts and how they interact

    - Governance ([mls-core/src/governance.rs], file [Governance]) keeps roles, bans,
      revoked invites, retention settings and member devices of a room. They change
      only through signed events bound to an epoch, in a canonical order.
    - The local group ([mls-core/src/group.rs], [exporter.rs], file [MlsGroup]) keeps the
      member leaves and the epoch secret that services export keys from; the devices of
      an account ([device_set.rs], file [DeviceSet]) are paired, removed and rotated, and
      identities ([identity.rs], file [Identity]) exchange friend codes.
    - Commit delivery ([mls-delivery/src/lib.rs], file [Delivery], errors in
      [DeliveryError]) accepts MLS commits in epoch order, detects forks from epoch
      summaries and repairs them with explicit plans.
    - Text messages ([mls-delivery/src/lib.rs]): [TextEnvelope] has the signed
      envelope and the delivery receipt with their byte transcripts; [TextSend] the
      outbound pipeline (encrypt, sign, persist, report, send); [TextReceive] the
      inbound pipeline (verify, epoch and membership guards, replay slot, persist,
      render or lock, report); [TextHistory] the merge of replicated author logs and
      the bounded recipient cache.
    - Abuse controls ([abuse/src/lib.rs], file [Abuse]) gate sending: backoff, rate
      limiters, relay contribution. [TextSend] calls them through
      [send_with_abuse_controls], [Manager] through the contribution weights.
    - Content keys ([content-keys/src/lib.rs], file [ContentKeys]): retention windows,
      the state of a content key and its policy transitions, cross-device shredding, and
      the live-key oracle, which is built from the state of [MlsGroup] and [Governance].
    - The relay overlay ([relay-overlay/src]): [Ranking] orders relays by a float
      score ([F32] is IEEE binary32); [Topology] has the fanout-bounded graph, the
      breadth-first route search and failover; [Redelivery] the replay window;
      [Integrity] the packets relays forward; [Gossip] the anti-entropy round;
      [Capability] the advertisements; [StoreForward] the queue a relay holds for
      offline members; [Manager] the stateful owner of topology, observations,
      advertisements and failed peers, which composes the others.
    - Admission ([admission/src/lib.rs]): [Invites] has the signed invite descriptors and
      the store that issues, revokes and consumes them; [Admission] the password and
      helper gates in front of an admission.
    - Transport ([transport/src]): [Transport] has endpoints, errors and the fallback
      planner; [Session] the session state machine with reconnect backoff; [IcePolicy] and
      [ConnPolicy] the endpoint and connectivity policies; [RouteGraph] the pairwise routes
      of a room; [ControlLane] the encrypted control frames over a broker; [PeerOverlay]
      and [OverlayRouting] the peer-assisted overlay (frames, relay authority, revocation,
      ranking; route selection, forwarding, failover); [HistorySync] the hand-over of author
      logs along overlay routes into the local store.
    - Storage ([storage/src/lib.rs]): [LocalStore] has author logs, recipient cache and
      tombstones, [AccountBackup] export and restore of an account.
    - Media ([media/src]): [SFrame] protects and opens frames per sender; [VoiceFanout]
      delivers one protected frame over the routes of [OverlayRouting]; [VoiceAudio] has
      formats, volumes, levels and voice activity, [JitterBuffer] the playback order,
      [VoicePipeline] the capture and receive pipelines that compose them with [SFrame].
    - Push ([push/src/lib.rs], file [Push]) builds content-free wake-ups.
    - WebRTC ([transport/src/webrtc_negotiation.rs]): [DataFrames] cuts frames into chunks and
      puts them together, [Timeline] keeps the redacted diagnostics, [DataChannel] the hub of one
      connection's channels, [NegotiationSeal] seals descriptions and candidates, [Negotiation]
      has the negotiator over the WebRTC stack.
    - Signalling ([transport/src/signaling.rs], [provider_adapters.rs]): [SignalingBus] is the
      in-process bus, [ProviderPlan] chooses an adapter and reports on it, [ProviderRooms] has the
      MQTT, Nostr and IPFS rooms with their inboxes.
    - The application's storage ([storage/src/appdb.rs], [lib.rs]): [AppDbSchema] has the schema
      and its migrations, [Keychain] the stores of the wrapping key, [AppDb] the stores of the
      state over any keychain; [AppService] ([core/src/lib.rs]) the service on top of any store.
    - The desktop backend ([apps/desktop/src-tauri/src/lib.rs], [connection.rs]): [DeskState] has
      the persisted rows, redaction, the event log, the rate limiter and the signed payloads;
      [DeskGroups] applies governance and presence; [DeskDelivery] keeps the outbox, the receipts
      and the reception of texts; [DeskAdmission] the handshake that admits a member; [DeskVoice]
      the peers of a runtime and voice signalling; [DeskCommands] the commands that issue
      governance and presence; [DeskFrames] the dispatcher of received frames, which calls all of
      them; [DeskInvites] links, labels and connectivity policies on top of [Invites]; [DeskJoin]
      the commands that create groups, channels and direct messages, issue invites and use them;
      [LaneManager] the threads that drive a session's control lane.

    ** How the model corresponds to the code

    A struct is a [Record] (fields carry a short prefix), an enum an [Inductive] with
    the source's constructors, a method a [Definition] of the source's name, prefixed
    by its type where two types have a method of that name. [Result] is [result], an
    operation on [&mut self] returns the new state beside its result, so that an
    error path shows which changes happened before it. [None] stands for a panic of
    the source (a [chrono] addition out of range) or for an exhausted fuel. [BTreeMap]
    and [BTreeSet] are [gmap] and [gset] iterated in key order through
    [Collections.entries] and [sorted_elements]; sorts are stable. Unsigned integers
    are [N] with saturation, truncation and wrap-around written out; [usize] counters
    are [nat]; bytes are lists of [N].

    The files [Collections], [Bytes] and [StrOps] hold what the source uses of Rust's
    standard library: ordered containers and sorts, byte transcripts, string parsing.
    Third-party code ([sha2], [ed25519-dalek], [aes-gcm], [chrono], [hex], [uuid]) is a
    class of operations in [Crypto]; what one file uses is a class or record beside it:
    [serde_json] on one type ([ControlLane.EnvelopeJson], [AccountBackup.ExportJson],
    [NegotiationSeal.NegotiationJson], [Keychain.VaultJson], [AppDb.DbEnvelopeJson],
    [AppService.AppStateJson], [ProviderRooms.WireJson], [DeskState.FrameJson],
    [DeskInvites.InviteJson]), codecs and engines ([VoicePipeline.OpusCodec],
    [Negotiation.PeerConnection], [ProviderRooms.Base64NoPad], [ProviderRooms.Multiaddrs],
    [DeskDelivery.MlsEngine], [DeskJoin.GroupFounder]), the machine ([Keychain.Keyring],
    [Keychain.Argon2Kdf], [Keychain.OsRng], [DeskInvites.AppEnvironment],
    [ProviderPlan.CargoFeatures]) and texts of library errors ([DeskState.ErrorTexts]). A second
    class has the documented laws a theorem may assume: lengths, decoding undoes encoding, a signature made with a key
    verifies under it, decryption undoes encryption. No theorem assumes that SHA-256 is
    collision free or that signatures cannot be forged; "binding" theorems say that the
    hashed or signed byte string determines its fields. [Crypto.Toy] instantiates every class, so each law can hold
    and every definition runs. The source's own traits (author log, event sink,
    transport, receive store) are classes as well, with the in-memory implementations
    of the source as instances: the pipelines are proved against the classes.

    ** What the theorems show

    - Governance: [ban_is_permanent], [role_change_authority] and
      [resolve_order_independent] say over all runs that a banned leaf never acts or
      regains a role, who may change roles, and that a batch resolves to one state
      whatever the arrival order; [governance_signature_binds] that a signature covers
      every field; [unauthorized_ban_silences_owner] exhibits the batch resolver
      honouring the eviction of a ban it then refuses.
    - Delivery: [delivery_no_gap_no_replay] (over any sequence of commits and repairs
      the epoch moves by one and accepted events survive), [fork_repair_converges],
      [order_events_arrival_independent], with three theorems that exhibit where the
      event hash, the winner selection and the repair fall short.
    - Group and devices: [group_admits_exactly_members] and [rotation_retires_the_leaf]
      for the group, [transparency_log_is_complete] (the emitted events determine the
      device set), [retired_device_stays_retired], [pairing_round_trip] and
      [pairing_needs_the_account_signature] for the device set,
      [friend_codes_agree_on_safety_number] for identities,
      [exporter_separates_services] for the exporter.
    - Content keys: [live_key_release_is_gated] and [local_oracle_serves_current_members]
      say exactly when an archived key is released; [policy_change_semantics],
      [retention_is_exact] and [window_label_roundtrip] cover retention,
      [shred_reaches_online_devices] shredding, [content_key_binds] and
      [membership_proof_binds] the byte formats; [shortening_resurrects_a_locked_key] and
      [oversized_window_never_caches] exhibit where retention falls short.
    - Text: [send_then_receive] is the round trip through both pipelines;
      [receive_at_most_once], [send_is_write_ahead], [send_effects_in_memory],
      [text_transcripts_bind], [receipt_justifies_delivery] are its safety side;
      [history_merges_are_append_only], [author_merge_is_idempotent] and
      [eviction_drops_the_oldest] cover the replicated history.
    - Abuse: [rate_limit_is_exact] (an attempt passes exactly when fewer than the limit
      passed in the window), [backoff_is_capped_geometric], [retry_after_ms_is_early].
    - Overlay: [route_search_is_complete] (the search returns a shortest legal route
      exactly when one exists), [topology_fanout_bounded],
      [failover_avoids_failed_peer], [replay_window_is_exact],
      [drain_delivers_exactly_once], [store_forward_holds_policy],
      [gossip_round_converges], [capability_book_is_monotone], [relay_hops_bounded],
      [rank_is_deterministic], and for the manager [constructed_route_has_capacity],
      [planned_changes_are_spaced] with two theorems on its limits.
    - Admission: [invite_uses_are_bounded], [canonical_invite_admits_max_uses] and
      [invite_signature_binds] for invites, [admission_is_gated] and
      [helper_attempts_are_limited] for the gates; [any_key_passes_the_helper_gate] exhibits
      that a helper's proof names its own key.
    - Transport: [planner_is_fail_closed], [conformance_is_ciphertext_only]; for sessions
      [session_route_is_typed], [session_refines_lifecycle], [reconnect_budget_is_respected],
      [session_can_always_reconnect] and [persistent_outage_fails]; the policy theorems
      [ice_resolve_precedence], [issued_credential_lifetime],
      [policy_resolution_is_most_specific], [derived_names_are_commitments];
      [route_graph_covers_admitted]; [control_lane_delivers_in_order]; for the peer overlay
      [revoked_peers_take_no_part], [relay_ranking_is_canonical],
      [route_selection_takes_the_preferred], [forwarding_plan_is_a_simple_path],
      [failover_avoids_failed_relays], [failover_attempts_are_bounded];
      [history_sync_delivers_the_log], [sync_drain_respects_policy], [sync_queue_is_bounded].
    - Storage: [author_logs_converge], [atomic_merge_is_exact],
      [shredded_message_stays_unreadable], [tombstones_refine_earliest_times];
      [backup_round_trip] and [restore_paths_are_gated].
    - Media: [media_frames_open_at_most_once], [media_round_trip] and
      [sender_counters_are_consecutive]; [voice_fanout_delivers_only_the_frame] and
      [selected_routes_are_delivered] (fan-out accepts what the overlay's selector selects);
      [vad_speech_is_exact], [playback_volume_is_bounded]; [jitter_push_releases_a_run] and
      [in_order_stream_plays_completely]; [voice_leaves_only_sealed] and
      [captured_voice_is_played], the round trip from the microphone to playback.
    - Push: [wake_envelope_is_content_free].

    Where the code falls short of its documentation or its purpose, a theorem shows it:
    [fanout_ack_silences_other_destinations], [late_frame_silences_the_speaker],
    [rotation_to_same_epoch_restarts], [failed_drain_forgets_plans],
    [bad_broadcast_drops_the_batch], [restore_ignores_the_sealed_key] and the ones named above.

    - WebRTC and signalling: [data_frames_round_trip], [sent_frames_are_received],
      [data_channel_hub_invariant], [timeline_is_exact], [sealed_negotiation_round_trip],
      [remote_candidates_reach_the_stack], [candidate_wait_ends]; [signals_are_delivered_once] and
      [presence_is_exact] for the bus, [fallback_plan_is_exact] for the plan,
      [signals_are_taken_exactly_once] and [sent_signal_reaches_its_addressee] for the rooms.
    - Application storage: [creation_plan_builds_the_manifest], [production_store_is_read_back],
      [stores_refine_a_register] (every store is a register that may refuse),
      [encrypted_state_round_trip], [app_state_stays_well_formed],
      [answered_command_survives_restart].
    - Desktop: [frames_only_extend_the_record] and [no_frame_panics] hold for every sequence of
      received frames; [role_changes_need_the_owner], [presence_keeps_routes_unambiguous],
      [channel_schemas_move_forward] for governance; [outbox_stays_coherent] and
      [delivery_needs_every_receipt] for texts; [welcome_handshake_agrees],
      [automatic_admission_is_authorized] and [decision_is_applied_once] for admission;
      [promotion_replicates], [removal_commit_replicates], [published_presence_is_accepted] and
      [created_channel_replicates] say that what a command queues is accepted by the peers;
      [both_ends_attach_with_opposite_roles] and [published_signal_is_received] concern voice.
      [invited_member_reaches_the_group] and [contact_invite_opens_the_scope] follow an invite
      from the issuer's command through the link ([invite_link_round_trip],
      [policy_survives_the_invite]) to the invitee's state, [created_group_is_owned] what they
      start from. [one_manager_drives_a_session] and [managers_are_paced] hold for every
      interleaving of manager threads and commands.

    On the desktop the theorems that show a shortcoming are [refusal_does_not_stop_automatic_admission],
    [bare_notice_revokes_the_receiver], [second_request_cannot_join],
    [unlisted_key_passes_as_a_member], [provider_frames_are_offered_once], [repaired_seed_is_public],
    [any_link_rewires_the_group], [issued_invites_are_never_used_up],
    [name_collision_blocks_admission], [expiry_labels_read_the_unit],
    [refused_start_loses_the_manager], [explicit_stop_is_never_reported]; elsewhere
    [magic_prefixed_frame_is_lost], [refused_candidate_discards_the_queue],
    [broadcasts_are_never_read], [accepted_publication_can_fail], [control_inbox_never_shrinks],
    [guard_passes_one_invalid_byte], [refused_key_is_shadowed], [empty_key_id_is_write_only],
    [refused_message_is_kept].

    Theorems about runs quantify over a list of calls (the [Call...] types) folded
    over the initial state, so they speak of every reachable state.

    ** Fuel

    [Topology.search] is the [while let] loop over a queue of paths; its fuel
    [search_fuel] is one more than the number of known peers. Each peer enters the
    queue at most once, so the fuel suffices: [search_spec] proves that the search
    answers on every well-formed topology. [TextHistory.evict_loop] runs with the size of the cache as
    fuel; each round removes an entry, and [evict_loop_spec] shows that the loop ends
    within the capacity. [Bytes.strip_while] ([str::trim]) and [StrOps.chunks] have the length of their
    list as fuel and shorten it in every round ([strip_while_done]). [JitterBuffer.pop_loop] has one
    round more than there are buffered frames; each round removes one, and [pop_loop_spec]
    shows that it stops where the [while] does. [Timeline.split_whitespace_fuel] and the
    lossy reading of UTF-8 in [DeskDelivery] have the length of their text as fuel and consume a
    byte in every round. Deadlines of asynchronous code ([Negotiation.snapshot_rounds], the takes
    of [ProviderRooms]) are numbers of events or rounds that fit before them.

    ** Conventions of the desktop files

    An operation reads the clock once, where the source reads it several times in a row. Commands
    are modelled for states that have a profile, presence commands once the transport session was
    found attached. The application lock is held for a whole command; the manager threads of
    [LaneManager] interleave between commands.

    ** What is not modelled

    The OpenMLS engine ([mls-core/src/openmls_engine.rs]) calls an external library that holds
    the protocol; the clients of MQTT brokers, Nostr relays, IPFS and the WebRTC stack are
    external too, and the supervisor and answerer loops of [provider_adapters.rs] around them are
    network I/O. The service boundary traits ([core/src/services.rs]) declare interfaces and wrap
    the engine. Of the desktop application the profile and settings commands, provider attachment,
    the native voice runtime, diagnostics and the views for the user interface are left out; the
    test harnesses are scripted scenarios. [GovernanceEvent::signed] draws a random key, as does
    [Identity::generate]; [run_abuse_soak] is a scripted scenario that prints a report.
    serde derives are not modelled: the byte strings here are the ones the source
    builds by hand. *)

From stdpp Require Export prelude gmap strings list sorting pretty.
From Stdlib Require Export NArith.

(** ** Results and the error monad

    Rust's [Result<A, E>]; [let*] is the [?] operator, [check] an early return
    guarded by a condition of the source. *)

Inductive result (A E : Type) : Type :=
| Ok (a : A)
| Err (e : E).
Arguments Ok {A E} a.
Arguments Err {A E} e.

Declare Scope discrypt_scope.
Delimit Scope discrypt_scope with discrypt.

Definition rbind {A B E} (m : result A E) (f : A → result B E) : result B E :=
  match m with Ok a => f a | Err e => Err e end.

Definition rmap {A B E} (f : A → B) (m : result A E) : result B E :=
  match m with Ok a => Ok (f a) | Err e => Err e end.

Definition map_err {A E F} (f : E → F) (m : result A E) : result A F :=
  match m with Ok a => Ok a | Err e => Err (f e) end.

Definition is_ok {A E} (m : result A E) : bool :=
  match m with Ok _ => true | Err _ => false end.

Definition ok_or {A E} (o : option A) (e : E) : result A E :=
  match o with Some a => Ok a | None => Err e end.

(** [if fails { return Err(e) }] *)
Definition reject_if {E} (fails : bool) (e : E) : result unit E :=
  if fails then Err e else Ok tt.

Notation "'let*' x := m 'in' k" := (rbind m (λ x, k))
  (at level 10, x name, m at level 100, k at level 200) : discrypt_scope.
Notation "'check' m 'in' k" := (rbind m (λ _, k))
  (at level 10, m at level 100, k at level 200) : discrypt_scope.

Open Scope discrypt_scope.

#[export] Instance result_eq_dec {A E} `{EqDecision A, EqDecision E} :
  EqDecision (result A E).
Proof. solve_decision. Defined.

(** ** Machine integers

    Unsigned integers are [N]; the width shows where the source saturates,
    truncates or serialises. [usize] counters are [nat]. *)

Open Scope N_scope.

Definition u8_max : N := 2 ^ 8 - 1.
Definition u16_max : N := 2 ^ 16 - 1.
Definition u32_max : N := 2 ^ 32 - 1.
Definition u64_max : N := 2 ^ 64 - 1.
Definition u128_max : N := 2 ^ 128 - 1.

(** [a.saturating_add(b)] on a type whose greatest value is [top]. *)
Definition sat_add (top a b : N) : N := N.min (a + b) top.

(** [a.saturating_mul(b)]. *)
Definition sat_mul (top a b : N) : N := N.min (a * b) top.

(** [a.saturating_sub(b)] is [N.sub]; [x.div_ceil(y)]. *)
Definition div_ceil (x y : N) : N := (x + y - 1) / y.

(** ** Orderings *)

(** [Ordering::then_with] *)
Definition then_with (c d : comparison) : comparison :=
  match c with Eq => d | _ => c end.

Definition cmp_by {A B} (f : A → B) (cmp : B → B → comparison) : A → A → comparison :=
  λ x y, cmp (f x) (f y).

Definition cmp_lex {A} (c1 c2 : A → A → comparison) : A → A → comparison :=
  λ x y, then_with (c1 x y) (c2 x y).

(** Derived [Ord] on sequences: slices and [Vec]s compare lexicographically. *)
Fixpoint cmp_list {A} (cmp : A → A → comparison) (l k : list A) : comparison :=
  match l, k with
  | [], [] => Eq
  | [], _ :: _ => Lt
  | _ :: _, [] => Gt
  | x :: l', y :: k' => then_with (cmp x y) (cmp_list cmp l' k')
  end.

(** Derived [Ord] on [Option]: [None] is the least. *)
Definition cmp_option {A} (cmp : A → A → comparison) (o p : option A) : comparison :=
  match o, p with
  | None, None => Eq
  | None, Some _ => Lt
  | Some _, None => Gt
  | Some x, Some y => cmp x y
  end.

Class CmpLaws {A} (cmp : A → A → comparison) : Prop := {
  cmp_antisym x y : cmp x y = CompOpp (cmp y x);
  cmp_le_trans x y z : cmp x y ≠ Gt → cmp y z ≠ Gt → cmp x z ≠ Gt
}.

Arguments cmp_antisym {A} cmp {_} x y.
Arguments cmp_le_trans {A} cmp {_} x y z.

(** [Ord] agrees with [Eq]. *)
Class CmpEq {A} (cmp : A → A → comparison) : Prop :=
  cmp_eq x y : cmp x y = Eq → x = y.

Definition cmp_le {A} (cmp : A → A → comparison) : relation A := λ x y, cmp x y ≠ Gt.

Section cmp_facts.
Context {A : Type} (cmp : A → A → comparison) `{!CmpLaws cmp}.

Lemma cmp_refl x : cmp x x = Eq.
Proof. pose proof (cmp_antisym cmp x x) as H. by destruct (cmp x x). Qed.

Lemma cmp_eq_l x y z : cmp x y = Eq → cmp x z = cmp y z.
Proof.
  intros Hxy. assert (cmp y x = Eq) as Hyx by (by rewrite (cmp_antisym cmp), Hxy).
  assert (cmp y z ≠ Gt → cmp x z ≠ Gt) as H1 by (apply (cmp_le_trans cmp); congruence).
  assert (cmp x z ≠ Gt → cmp y z ≠ Gt) as H2 by (apply (cmp_le_trans cmp); congruence).
  assert (cmp z y ≠ Gt → cmp z x ≠ Gt) as H3
    by (intros ?; apply (cmp_le_trans cmp z y x); congruence).
  assert (cmp z x ≠ Gt → cmp z y ≠ Gt) as H4
    by (intros ?; apply (cmp_le_trans cmp z x y); congruence).
  rewrite (cmp_antisym cmp z x), (cmp_antisym cmp z y) in H3, H4.
  destruct (cmp x z), (cmp y z); simpl in *; try done; exfalso;
    first [by apply H1 | by apply H2 | by apply H3 | by apply H4].
Qed.

Lemma cmp_eq_r x y z : cmp x y = Eq → cmp z x = cmp z y.
Proof.
  intros H. rewrite (cmp_antisym cmp z x), (cmp_antisym cmp z y). f_equal. by apply cmp_eq_l.
Qed.

Lemma cmp_lt_trans x y z : cmp x y = Lt → cmp y z = Lt → cmp x z = Lt.
Proof.
  intros Hxy Hyz.
  assert (cmp x z ≠ Gt) by (apply (cmp_le_trans cmp x y z); congruence).
  destruct (cmp x z) eqn:Hxz; try done.
  rewrite (cmp_eq_l _ _ _ Hxz), (cmp_antisym cmp), Hyz in Hxy. done.
Qed.

#[export] Instance cmp_le_transitive : Transitive (cmp_le cmp).
Proof. intros x y z. apply (cmp_le_trans cmp). Qed.

#[export] Instance cmp_le_total : Total (cmp_le cmp).
Proof.
  intros x y. unfold cmp_le. rewrite (cmp_antisym cmp y x).
  destruct (cmp x y); simpl; auto.
Qed.
End cmp_facts.

(** *** Instances: the orders the source derives *)

#[export] Instance N_compare_laws : CmpLaws N.compare.
Proof.
  split.
  - intros x y. apply N.compare_antisym.
  - intros x y z. apply N.le_trans.
Qed.

#[export] Instance N_compare_eq : CmpEq N.compare.
Proof. intros x y. apply N.compare_eq. Qed.

#[export] Instance string_compare_laws : CmpLaws String.compare.
Proof.
  split.
  - intros x y. apply String.compare_antisym.
  - assert (∀ s t, String.compare s t ≠ Gt ↔ String.le s t) as Hle.
    { intros s t. unfold String.le, String.leb. by destruct (String.compare s t). }
    intros x y z. rewrite !Hle. apply transitivity.
Qed.

#[export] Instance string_compare_eq : CmpEq String.compare.
Proof. intros x y. apply String.compare_eq_iff. Qed.

#[export] Instance cmp_by_laws {A B} (f : A → B) cmp `{!CmpLaws cmp} :
  CmpLaws (cmp_by f cmp).
Proof.
  split; unfold cmp_by.
  - intros x y. apply (cmp_antisym cmp).
  - intros x y z. apply (cmp_le_trans cmp).
Qed.

#[export] Instance cmp_by_eq {A B} (f : A → B) cmp `{!CmpEq cmp, !Inj (=) (=) f} :
  CmpEq (cmp_by f cmp).
Proof. intros x y H. by apply (inj f), (cmp_eq (cmp := cmp)). Qed.

#[export] Instance cmp_lex_laws {A} (c1 c2 : A → A → comparison)
  `{!CmpLaws c1, !CmpLaws c2} : CmpLaws (cmp_lex c1 c2).
Proof.
  split; unfold cmp_lex.
  - intros x y. rewrite (cmp_antisym c1 x y), (cmp_antisym c2 x y).
    by destruct (c1 y x), (c2 y x).
  - intros x y z Hxy Hyz.
    destruct (c1 x y) eqn:E1; simpl in Hxy; [| |done].
    + rewrite (cmp_eq_l c1 _ _ _ E1).
      destruct (c1 y z) eqn:E2; simpl in *; [|done..].
      by apply (cmp_le_trans c2 x y z).
    + destruct (c1 y z) eqn:E2; simpl in Hyz; [| |done].
      * by rewrite <- (cmp_eq_r c1 _ _ _ E2), E1.
      * by rewrite (cmp_lt_trans c1 _ _ _ E1 E2).
Qed.

#[export] Instance cmp_list_laws {A} (cmp : A → A → comparison) `{!CmpLaws cmp} :
  CmpLaws (cmp_list cmp).
Proof.
  split.
  - intros l. induction l as [|x l IH]; intros [|y k]; simpl; [done..|].
    rewrite (cmp_antisym cmp x y), IH.
    by destruct (cmp y x), (cmp_list cmp k l).
  - intros l. induction l as [|x l IH]; intros [|y k] [|z m]; simpl; try done.
    intros Hxy Hyz.
    destruct (cmp x y) eqn:E1; simpl in Hxy; [| |done].
    + rewrite (cmp_eq_l cmp _ _ _ E1).
      destruct (cmp y z) eqn:E2; simpl in *; [|done..].
      by apply (IH k m).
    + destruct (cmp y z) eqn:E2; simpl in Hyz; [| |done].
      * by rewrite <- (cmp_eq_r cmp _ _ _ E2), E1.
      * by rewrite (cmp_lt_trans cmp _ _ _ E1 E2).
Qed.

#[export] Instance cmp_list_eq {A} (cmp : A → A → comparison) `{!CmpEq cmp} :
  CmpEq (cmp_list cmp).
Proof.
  intros l. induction l as [|x l IH]; intros [|y k]; simpl; try done.
  destruct (cmp x y) eqn:E; simpl; try done.
  intros H. f_equal; [by apply (cmp_eq (cmp := cmp))|by apply IH].
Qed.

#[export] Instance cmp_option_laws {A} (cmp : A → A → comparison) `{!CmpLaws cmp} :
  CmpLaws (cmp_option cmp).
Proof.
  split.
  - intros [x|] [y|]; simpl; try done. apply (cmp_antisym cmp).
  - intros [x|] [y|] [z|]; simpl; try done. apply (cmp_le_trans cmp).
Qed.

Lemma cmp_lex_eq_inv {A} (c1 c2 : A → A → comparison) x y :
  cmp_lex c1 c2 x y = Eq → c1 x y = Eq ∧ c2 x y = Eq.
Proof. unfold cmp_lex. by destruct (c1 x y), (c2 x y). Qed.

(** ** Proof automation *)

(** Split the nested [match]es and [if]s the model inherits from the source. *)
Ltac case_all := repeat (case_match; simplify_eq/=; try done).

(** Unfold the error monad. *)
Ltac unfold_result :=
  unfold rbind, rmap, map_err, reject_if, ok_or, is_ok in *.

Ltac result_cases := unfold_result; repeat (case_match; simplify_eq/=).

(** Success of a sequence is success of its steps. *)
Lemma rbind_ok {A B E} (m : result A E) (f : A → result B E) b :
  rbind m f = Ok b ↔ ∃ a, m = Ok a ∧ f a = Ok b.
Proof. destruct m; simpl; naive_solver. Qed.

Lemma check_ok {B E} (m : result unit E) (k : result B E) b :
  (check m in k) = Ok b ↔ m = Ok tt ∧ k = Ok b.
Proof. destruct m as [[]|]; simpl; naive_solver. Qed.

Lemma reject_if_ok {E} (fails : bool) (e : E) u : reject_if fails e = Ok u ↔ fails = false.
Proof. destruct fails, u; naive_solver. Qed.

Lemma ok_or_ok {A E} (o : option A) (e : E) a : ok_or o e = Ok a ↔ o = Some a.
Proof. destruct o; naive_solver. Qed.

Lemma map_err_ok {A E F} (f : E → F) (m : result A E) a : map_err f m = Ok a ↔ m = Ok a.
Proof. destruct m; simpl; naive_solver. Qed.

Create HintDb discrypt.

#[export] Hint Resolve N.le_refl N.min_le_iff : discrypt.
#[export] Hint Resolve cmp_refl : discrypt.
