(* ===== verification/Collections.v ===== *)
(** * Sorting and ordered containers

    [sort_by] is Rust's stable [slice::sort_by] (any stable sort gives the same
    list, [sort_by_stable] with [sort_by_perm] and [sort_by_sorted] pin it down),
    [max_by] and [min_by] are the [Iterator] adaptors with their tie rules, and
    [entries] and [sorted_elements] are the iteration orders of [BTreeMap] and
    [BTreeSet], which the model keeps as [gmap] and [gset]. *)

From S2P Require Import Prelude.

(** ** Stable sorting *)

Fixpoint insert_by {A} (cmp : A → A → comparison) (x : A) (l : list A) : list A :=
  match l with
  | [] => [x]
  | y :: l' => match cmp x y with Gt => y :: insert_by cmp x l' | _ => x :: y :: l' end
  end.

Definition sort_by {A} (cmp : A → A → comparison) (l : list A) : list A :=
  foldr (insert_by cmp) [] l.

(** [Iterator::max_by]: the last of the greatest elements. *)
Definition max_by {A} (cmp : A → A → comparison) (l : list A) : option A :=
  match l with
  | [] => None
  | x :: l' => Some (foldl (λ a y, match cmp a y with Gt => a | _ => y end) x l')
  end.

(** [Iterator::min_by]: the first of the least elements. *)
Definition min_by {A} (cmp : A → A → comparison) (l : list A) : option A :=
  match l with
  | [] => None
  | x :: l' => Some (foldl (λ a y, match cmp a y with Gt => y | _ => a end) x l')
  end.

Section sort.
Context {A : Type} (cmp : A → A → comparison).

Lemma insert_by_perm x l : insert_by cmp x l ≡ₚ x :: l.
Proof.
  induction l as [|y l IH]; simpl; [done|].
  destruct (cmp x y); [done..|]. rewrite IH. apply Permutation_swap.
Qed.

Lemma sort_by_perm l : sort_by cmp l ≡ₚ l.
Proof.
  induction l as [|x l IH]; simpl; [done|]. by rewrite insert_by_perm, IH.
Qed.

Lemma elem_of_sort_by x l : x ∈ sort_by cmp l ↔ x ∈ l.
Proof. by rewrite sort_by_perm. Qed.

Lemma length_sort_by l : length (sort_by cmp l) = length l.
Proof. by rewrite sort_by_perm. Qed.

Context `{!CmpLaws cmp}.

Lemma insert_by_sorted x l :
  StronglySorted (cmp_le cmp) l → StronglySorted (cmp_le cmp) (insert_by cmp x l).
Proof.
  induction l as [|y l IH]; simpl; intros Hl; [repeat constructor|].
  apply StronglySorted_inv in Hl as [Hl Hy].
  destruct (cmp x y) eqn:E.
  - constructor; [by constructor|]. constructor; [unfold cmp_le; congruence|].
    eapply Forall_impl; [done|]. intros z. apply (cmp_le_trans cmp). congruence.
  - constructor; [by constructor|]. constructor; [unfold cmp_le; congruence|].
    eapply Forall_impl; [done|]. intros z. apply (cmp_le_trans cmp). congruence.
  - constructor; [by apply IH|]. rewrite insert_by_perm. constructor; [|done].
    unfold cmp_le. by rewrite (cmp_antisym cmp), E.
Qed.

Lemma sort_by_sorted l : StronglySorted (cmp_le cmp) (sort_by cmp l).
Proof. induction l; simpl; [constructor|by apply insert_by_sorted]. Qed.

Lemma insert_by_stable x y l :
  StronglySorted (cmp_le cmp) l →
  filter (λ z, cmp y z = Eq) (insert_by cmp x l) = filter (λ z, cmp y z = Eq) (x :: l).
Proof.
  induction l as [|z l IH]; intros Hl; [done|]. simpl insert_by.
  apply StronglySorted_inv in Hl as [Hl Hz].
  destruct (cmp x z) eqn:E; [done..|].
  rewrite (filter_cons _ z), IH, !filter_cons by done.
  repeat case_decide; try done.
  assert (cmp x z = Eq); [|congruence].
  by rewrite <- (cmp_eq_l cmp y x z).
Qed.

(** Elements that compare equal keep their relative order. *)
Lemma sort_by_stable y l :
  filter (λ z, cmp y z = Eq) (sort_by cmp l) = filter (λ z, cmp y z = Eq) l.
Proof.
  induction l as [|x l IH]; [done|]. simpl sort_by.
  rewrite insert_by_stable by apply sort_by_sorted.
  rewrite !filter_cons. by rewrite IH.
Qed.

(** Sorting does not depend on the arrival order when distinct elements have
    distinct keys. *)
Lemma sort_by_unique l k :
  l ≡ₚ k → (∀ x y, x ∈ l → y ∈ l → cmp x y = Eq → x = y) →
  sort_by cmp l = sort_by cmp k.
Proof.
  intros Hp Hinj. apply (StronglySorted_unique_strong (cmp_le cmp)).
  - intros x y Hx Hy Hxy Hyx. apply Hinj.
    + by rewrite elem_of_sort_by in Hx.
    + rewrite elem_of_sort_by in Hy. by rewrite Hp.
    + unfold cmp_le in *. rewrite (cmp_antisym cmp y x) in Hyx.
      by destruct (cmp x y).
  - apply sort_by_sorted.
  - apply sort_by_sorted.
  - by rewrite !sort_by_perm.
Qed.

Lemma sort_by_id l : StronglySorted (cmp_le cmp) l → sort_by cmp l = l.
Proof.
  induction 1 as [|x l _ IH Hx]; simpl; [done|]. rewrite IH.
  destruct l as [|y l]; simpl; [done|].
  apply Forall_cons in Hx as [Hx _]. unfold cmp_le in Hx. by destruct (cmp x y).
Qed.

Lemma sort_by_idemp l : sort_by cmp (sort_by cmp l) = sort_by cmp l.
Proof. apply sort_by_id, sort_by_sorted. Qed.
End sort.

(** A fold that keeps the better of two candidates finds a best element. *)
Lemma foldl_best {A} (R : relation A) (pick : A → A → A) `{!PreOrder R} :
  (∀ a y, (pick a y = a ∨ pick a y = y) ∧ R a (pick a y) ∧ R y (pick a y)) →
  ∀ l x, foldl pick x l ∈ x :: l ∧ ∀ y, y ∈ x :: l → R y (foldl pick x l).
Proof.
  intros Hpick l. induction l as [|z l IH]; intros x; simpl.
  - split; [by left|]. by intros y ->%list_elem_of_singleton.
  - destruct (IH (pick x z)) as [Hin Hbest], (Hpick x z) as (Hor & Hx & Hz).
    pose proof (Hbest _ (list_elem_of_here _ _)) as Hhd. split.
    + apply elem_of_cons in Hin as [->|Hin]; [|by right; right].
      destruct Hor as [->| ->]; [left|right; left].
    + intros y [->|[->|Hy]%elem_of_cons]%elem_of_cons.
      * by transitivity (pick x z).
      * by transitivity (pick x z).
      * apply Hbest. by right.
Qed.

Section extrema.
Context {A : Type} (cmp : A → A → comparison) `{!CmpLaws cmp}.

#[local] Instance cmp_le_preorder : PreOrder (cmp_le cmp).
Proof. split; [|apply _]. intros x. unfold cmp_le. by rewrite (cmp_refl cmp). Qed.

Lemma max_by_spec l m :
  max_by cmp l = Some m → m ∈ l ∧ ∀ y, y ∈ l → cmp y m ≠ Gt.
Proof.
  destruct l as [|x l]; [done|]. injection 1 as <-.
  refine (foldl_best (cmp_le cmp) _ _ l x). intros a y. unfold cmp_le.
  destruct (cmp a y) eqn:E; rewrite ?(cmp_refl cmp), ?(cmp_antisym cmp y a), ?E;
    naive_solver.
Qed.

Lemma min_by_spec l m :
  min_by cmp l = Some m → m ∈ l ∧ ∀ y, y ∈ l → cmp m y ≠ Gt.
Proof.
  destruct l as [|x l]; [done|]. injection 1 as <-.
  refine (foldl_best (flip (cmp_le cmp)) _ _ l x). intros a y. unfold cmp_le; simpl.
  destruct (cmp a y) eqn:E; rewrite ?(cmp_refl cmp), ?(cmp_antisym cmp y a), ?E;
    naive_solver.
Qed.

(** Two lists with the same elements have the same greatest one, when equal
    keys mean equal elements. *)
Lemma max_by_perm l k :
  l ≡ₚ k → (∀ x y, x ∈ l → y ∈ l → cmp x y = Eq → x = y) →
  max_by cmp l = max_by cmp k.
Proof.
  intros Hp Hinj.
  destruct (max_by cmp l) as [m|] eqn:El, (max_by cmp k) as [n|] eqn:Ek; [|..|done].
  - apply max_by_spec in El as [Hm Hmax], Ek as [Hn Hnax]. f_equal.
    rewrite <- Hp in Hn. apply Hinj; [done..|].
    assert (cmp m n ≠ Gt) by (apply Hnax; by rewrite <- Hp).
    pose proof (Hmax n Hn) as H2. rewrite (cmp_antisym cmp n m) in H2.
    by destruct (cmp m n).
  - destruct k; [|done]. apply Permutation_nil_r in Hp. by subst.
  - destruct l; [|done]. symmetry in Hp. apply Permutation_nil_r in Hp. by subst.
Qed.
End extrema.

(** A key without duplicates tells the elements of a list apart. *)
Lemma NoDup_fmap_inj_elem {A B} (f : A → B) (l : list A) x y :
  NoDup (f <$> l) → x ∈ l → y ∈ l → f x = f y → x = y.
Proof.
  induction l as [|z l IH]; csimpl; [by intros _ []%not_elem_of_nil|].
  intros [Hz Hl]%NoDup_cons Hx Hy Hf.
  assert (∀ u, u ∈ l → f u ≠ f z) as Hne
    by (intros u Hu Heq; apply Hz; rewrite <- Heq; by apply list_elem_of_fmap_2).
  apply elem_of_cons in Hx as [->|Hx], Hy as [->|Hy]; [done|..].
  - by destruct (Hne y Hy).
  - by destruct (Hne x Hx).
  - by apply IH.
Qed.

(** Only the comparisons between elements of the list matter. *)
Lemma sort_by_ext {A} (c1 c2 : A → A → comparison) l :
  (∀ x y, x ∈ l → y ∈ l → c1 x y = c2 x y) → sort_by c1 l = sort_by c2 l.
Proof.
  induction l as [|x l IH]; intros Hc; simpl; [done|].
  rewrite IH by (intros; apply Hc; by right).
  assert (∀ y, y ∈ sort_by c2 l → c1 x y = c2 x y) as Hx.
  { intros y Hy. apply Hc; [by left|]. right. by rewrite elem_of_sort_by in Hy. }
  revert Hx. generalize (sort_by c2 l) as k. induction k as [|y k IHk]; intros Hx; simpl; [done|].
  rewrite (Hx y) by (by left). destruct (c2 x y); [done..|]. f_equal.
  apply IHk. intros z Hz. apply Hx. by right.
Qed.

(** The first element of a sorted list that passes a test is the least that does. *)
Lemma head_filter_sorted {A} (R : relation A) (P : A → Prop) `{∀ x, Decision (P x)} l m :
  Reflexive R → StronglySorted R l → head (filter P l) = Some m →
  m ∈ l ∧ P m ∧ ∀ y, y ∈ l → P y → R m y.
Proof.
  intros HR. induction 1 as [|x l Hs IH Hx]; [done|]. rewrite filter_cons. case_decide as Hp.
  - intros [= <-]. split_and!; [by left|done|].
    intros y [->|Hy]%elem_of_cons _; [done|]. rewrite Forall_forall in Hx. by apply Hx.
  - intros Hh. destruct (IH Hh) as (Hm & HPm & Hall). split_and!; [by right|done|].
    intros y [->|Hy]%elem_of_cons HPy; [done|by apply Hall].
Qed.

(** ** Ordered keys and B-tree iteration *)

Class OrdKey (K : Type) := key_cmp : K → K → comparison.

Class OrdKeyLaws (K : Type) `{OrdKey K} : Prop := {
  ord_key_laws :: CmpLaws (key_cmp (K := K));
  ord_key_eq :: CmpEq (key_cmp (K := K))
}.

#[export] Instance N_ord_key : OrdKey N := N.compare.
#[export] Instance N_ord_key_laws : OrdKeyLaws N.
Proof. split; unfold key_cmp, N_ord_key; apply _. Qed.

#[export] Instance string_ord_key : OrdKey string := String.compare.
#[export] Instance string_ord_key_laws : OrdKeyLaws string.
Proof. split; unfold key_cmp, string_ord_key; apply _. Qed.

#[export] Instance list_ord_key {K} `{OrdKey K} : OrdKey (list K) := cmp_list key_cmp.
#[export] Instance list_ord_key_laws {K} `{OrdKeyLaws K} : OrdKeyLaws (list K).
Proof. split; unfold key_cmp, list_ord_key; apply _. Qed.

#[export] Instance prod_ord_key {K L} `{OrdKey K, OrdKey L} : OrdKey (K * L) :=
  cmp_lex (cmp_by fst key_cmp) (cmp_by snd key_cmp).
#[export] Instance prod_ord_key_laws {K L} `{OrdKeyLaws K, OrdKeyLaws L} :
  OrdKeyLaws (K * L).
Proof.
  split; unfold key_cmp at 1, prod_ord_key; [apply _|].
  intros [k1 l1] [k2 l2] [Hk Hl]%cmp_lex_eq_inv. unfold cmp_by in *; simpl in *.
  f_equal; by apply (cmp_eq (cmp := key_cmp)).
Qed.

(** [BTreeMap::iter] and [BTreeMap::values] *)
Definition entries {K V} `{Countable K, OrdKey K} (m : gmap K V) : list (K * V) :=
  sort_by (cmp_by fst key_cmp) (map_to_list m).

Definition values {K V} `{Countable K, OrdKey K} (m : gmap K V) : list V :=
  (entries m).*2.

(** [BTreeSet::iter] *)
Definition sorted_elements {K} `{Countable K, OrdKey K} (X : gset K) : list K :=
  sort_by key_cmp (elements X).

Section btree.
Context {K V : Type} `{Countable K} `{!OrdKey K}.
Implicit Types (m : gmap K V) (X : gset K).

Lemma entries_perm m : entries m ≡ₚ map_to_list m.
Proof. apply sort_by_perm. Qed.

Lemma elem_of_entries m k v : (k, v) ∈ entries m ↔ m !! k = Some v.
Proof. by rewrite entries_perm, elem_of_map_to_list. Qed.

Lemma elem_of_values m v : v ∈ values m ↔ ∃ k, m !! k = Some v.
Proof.
  unfold values. rewrite list_elem_of_fmap. split.
  - intros ([k w] & -> & Hin). exists k. by rewrite elem_of_entries in Hin.
  - intros [k Hk]. exists (k, v). by rewrite elem_of_entries.
Qed.

Lemma NoDup_entries_keys m : NoDup (entries m).*1.
Proof. rewrite entries_perm. apply NoDup_fst_map_to_list. Qed.

Lemma length_entries m : length (entries m) = size m.
Proof. rewrite entries_perm. by rewrite length_map_to_list. Qed.

Lemma length_values m : length (values m) = size m.
Proof. unfold values. by rewrite length_fmap, length_entries. Qed.

Lemma elem_of_sorted_elements X k : k ∈ sorted_elements X ↔ k ∈ X.
Proof. unfold sorted_elements. by rewrite elem_of_sort_by, elem_of_elements. Qed.

Lemma length_sorted_elements X : length (sorted_elements X) = size X.
Proof. unfold sorted_elements. by rewrite length_sort_by. Qed.

Lemma NoDup_sorted_elements X : NoDup (sorted_elements X).
Proof. unfold sorted_elements. rewrite sort_by_perm. apply NoDup_elements. Qed.

Lemma entries_sorted `{!OrdKeyLaws K} m :
  StronglySorted (cmp_le (cmp_by fst key_cmp)) (entries m).
Proof. apply sort_by_sorted, _. Qed.

Lemma list_to_map_entries m : list_to_map (entries m) = m.
Proof.
  rewrite <- (list_to_map_to_list m) at 2.
  apply list_to_map_proper; [apply NoDup_entries_keys|apply entries_perm].
Qed.
End btree.

#[export] Hint Rewrite @elem_of_entries @elem_of_values @elem_of_sorted_elements
  @length_entries @length_values @length_sorted_elements : discrypt.
