(* ===== verification/Bytes.v ===== *)
(** * Byte strings

    [Vec<u8>] is a list of [N]; fixed-width integers serialise with [be_bytes]
    ([to_be_bytes]) and [le_bytes] ([to_le_bytes]). The framing lemmas say when
    a concatenation of fields determines its fields: they carry every proof that
    a signed or hashed transcript binds the values it was built from. *)

From Stdlib Require Import Ascii.
From S2P Require Import Prelude Collections.

Abbreviation bytes := (list N).

Fixpoint be_bytes (n : nat) (x : N) : bytes :=
  match n with
  | O => []
  | S n' => be_bytes n' (x / 256) ++ [x mod 256]
  end.

Fixpoint le_bytes (n : nat) (x : N) : bytes :=
  match n with
  | O => []
  | S n' => (x mod 256) :: le_bytes n' (x / 256)
  end.

Abbreviation be_u16 := (be_bytes 2).
Abbreviation be_u32 := (be_bytes 4).
Abbreviation be_u64 := (be_bytes 8).
Abbreviation le_u32 := (le_bytes 4).
Abbreviation le_u64 := (le_bytes 8).

Definition len (b : bytes) : N := N.of_nat (length b).

(** [str::as_bytes] *)
Fixpoint as_bytes (s : string) : bytes :=
  match s with
  | EmptyString => []
  | String c s' => N_of_ascii c :: as_bytes s'
  end.

(** [str::len], in bytes. *)
Definition str_len (s : string) : N := N.of_nat (String.length s).

(** The length-prefixed field writer [push_bytes] of mls-delivery. *)
Definition push_bytes (value : bytes) : bytes := be_u64 (len value) ++ value.

(** [haystack.windows(needle.len()).any(|w| w == needle)] *)
Fixpoint has_window (needle haystack : bytes) : bool :=
  bool_decide (needle `prefix_of` haystack) ||
  match haystack with
  | [] => false
  | _ :: haystack' => has_window needle haystack'
  end.

(** ** [str::trim]

    The code points with the Unicode property White_Space, as UTF-8. *)

Definition ascii_is_space (b : N) : bool := ((9 <=? b) && (b <=? 13)) || (b =? 32).

(** Drop one leading white-space code point. *)
Definition strip_space (b : bytes) : option bytes :=
  match b with
  | 194 :: 133 :: r | 194 :: 160 :: r => Some r
  | 225 :: 154 :: 128 :: r => Some r
  | 226 :: 128 :: x :: r =>
      if ((128 <=? x) && (x <=? 138)) || (x =? 168) || (x =? 169) || (x =? 175)
      then Some r else None
  | 226 :: 129 :: 159 :: r => Some r
  | 227 :: 128 :: 128 :: r => Some r
  | x :: r => if ascii_is_space x then Some r else None
  | [] => None
  end.

(** Drop one trailing white-space code point from the reversed bytes. *)
Definition strip_space_rev (b : bytes) : option bytes :=
  match b with
  | 133 :: 194 :: r | 160 :: 194 :: r => Some r
  | 128 :: 154 :: 225 :: r => Some r
  | 159 :: 129 :: 226 :: r => Some r
  | 128 :: 128 :: 227 :: r => Some r
  | x :: 128 :: 226 :: r =>
      if ((128 <=? x) && (x <=? 138)) || (x =? 168) || (x =? 169) || (x =? 175)
      then Some r else None
  | x :: r => if ascii_is_space x then Some r else None
  | [] => None
  end.

Fixpoint strip_while (strip : bytes → option bytes) (fuel : nat) (b : bytes) : bytes :=
  match fuel with
  | O => b
  | S fuel' => match strip b with Some r => strip_while strip fuel' r | None => b end
  end.

Definition trim_bytes (b : bytes) : bytes :=
  let s := strip_while strip_space (length b) b in
  rev (strip_while strip_space_rev (length s) (rev s)).

Fixpoint string_of_bytes (b : bytes) : string :=
  match b with [] => "" | x :: r => String (ascii_of_N x) (string_of_bytes r) end.

Definition trim (s : string) : string := string_of_bytes (trim_bytes (as_bytes s)).

(** [s.trim().is_empty()] *)
Definition is_blank (s : string) : bool := bool_decide (trim s = "").

(** ** Lengths *)

Lemma length_be_bytes n x : length (be_bytes n x) = n.
Proof.
  revert x. induction n as [|n IH]; intros x; simpl; [done|].
  rewrite length_app, IH; simpl; lia.
Qed.

Lemma length_le_bytes n x : length (le_bytes n x) = n.
Proof. revert x. induction n; intros x; simpl; auto. Qed.

Lemma be_bytes_u8 n x : Forall (λ b, b < 256) (be_bytes n x).
Proof.
  revert x. induction n as [|n IH]; intros x; simpl; [done|].
  apply Forall_app. split; [apply IH|]. constructor; [apply N.mod_lt; lia|done].
Qed.

Lemma length_as_bytes s : length (as_bytes s) = String.length s.
Proof. induction s; simpl; auto. Qed.

Lemma len_as_bytes s : len (as_bytes s) = str_len s.
Proof. unfold len, str_len. by rewrite length_as_bytes. Qed.

#[export] Instance as_bytes_inj : Inj (=) (=) as_bytes.
Proof.
  intros s. induction s as [|c s IH]; intros [|d t]; simpl; try done.
  intros [= Hc Hs]. f_equal; [|by apply IH].
  by rewrite <- (ascii_N_embedding c), <- (ascii_N_embedding d), Hc.
Qed.

(** Proofs treat an encoded integer as an opaque field. *)
#[global] Arguments be_bytes : simpl never.
#[global] Arguments le_bytes : simpl never.

#[export] Hint Rewrite length_be_bytes length_le_bytes length_as_bytes length_app : bytes.

(** ** Framing

    Each lemma peels one field off two equal concatenations. *)

Lemma fixed_app_inj {A} (a b r s : list A) :
  length a = length b → a ++ r = b ++ s → a = b ∧ r = s.
Proof. intros Hl H. by apply app_inj_1 in H. Qed.

Lemma cons_app_inj {A} (x y : A) (r s : list A) : x :: r = y :: s → x = y ∧ r = s.
Proof. by intros [= -> ->]. Qed.

(** A field that does not hold the separator that ends it. *)
Lemma sep_app_inj {A} (c : A) (a b r s : list A) :
  c ∉ a → c ∉ b → a ++ c :: r = b ++ c :: s → a = b ∧ r = s.
Proof.
  revert b. induction a as [|x a IH]; intros [|y b]; simpl; intros Ha Hb Heq; simplify_eq; try set_solver.
  destruct (IH b) as [-> ->]; set_solver.
Qed.

(** The same from the end. *)
Lemma app_sep_inj {A} (c : A) (a b r s : list A) :
  c ∉ a → c ∉ b → r ++ c :: a = s ++ c :: b → a = b ∧ r = s.
Proof.
  intros Ha Hb Heq. apply (f_equal reverse) in Heq. rewrite !reverse_app, !reverse_cons in Heq.
  rewrite <- !(assoc (++)) in Heq. cbn [app] in Heq.
  apply sep_app_inj in Heq as [Ha' Hr]; [|by rewrite elem_of_reverse..].
  split; [by apply (inj reverse)|by apply (inj reverse)].
Qed.

Lemma be_bytes_inj n x y :
  x < 256 ^ N.of_nat n → y < 256 ^ N.of_nat n → be_bytes n x = be_bytes n y → x = y.
Proof.
  revert x y. induction n as [|n IH]; intros x y Hx Hy; cbn [be_bytes].
  - change (256 ^ N.of_nat 0) with 1 in *. lia.
  - rewrite Nat2N.inj_succ, N.pow_succ_r' in Hx, Hy.
    intros [Hd [= Hm]]%app_inj_2; [|done].
    apply IH in Hd; [|apply N.Div0.div_lt_upper_bound; lia..].
    rewrite (N.div_mod' x 256), (N.div_mod' y 256). congruence.
Qed.

Lemma le_bytes_inj n x y :
  x < 256 ^ N.of_nat n → y < 256 ^ N.of_nat n → le_bytes n x = le_bytes n y → x = y.
Proof.
  revert x y. induction n as [|n IH]; intros x y Hx Hy; cbn [le_bytes].
  - change (256 ^ N.of_nat 0) with 1 in *. lia.
  - rewrite Nat2N.inj_succ, N.pow_succ_r' in Hx, Hy.
    intros [= Hm Hd].
    apply IH in Hd; [|apply N.Div0.div_lt_upper_bound; lia..].
    rewrite (N.div_mod' x 256), (N.div_mod' y 256). congruence.
Qed.

Lemma be_bytes_app_inj n x y (r s : bytes) :
  x < 256 ^ N.of_nat n → y < 256 ^ N.of_nat n →
  be_bytes n x ++ r = be_bytes n y ++ s → x = y ∧ r = s.
Proof.
  intros Hx Hy [H ->]%fixed_app_inj; [|by rewrite !length_be_bytes].
  split; [|done]. by eapply be_bytes_inj.
Qed.

Lemma le_bytes_app_inj n x y (r s : bytes) :
  x < 256 ^ N.of_nat n → y < 256 ^ N.of_nat n →
  le_bytes n x ++ r = le_bytes n y ++ s → x = y ∧ r = s.
Proof.
  intros Hx Hy [H ->]%fixed_app_inj; [|by rewrite !length_le_bytes].
  split; [|done]. by eapply le_bytes_inj.
Qed.

(** A length written by the [be] or the [le] writer determines the field that
    follows it. *)
Lemma be_framed_app_inj (a b r s : bytes) :
  len a < 2 ^ 64 → len b < 2 ^ 64 →
  be_u64 (len a) ++ a ++ r = be_u64 (len b) ++ b ++ s → a = b ∧ r = s.
Proof.
  intros Ha Hb [Hl H]%be_bytes_app_inj; [|done..].
  apply fixed_app_inj in H; [done|]. unfold len in Hl. lia.
Qed.

Lemma le_framed_app_inj (a b r s : bytes) :
  len a < 2 ^ 64 → len b < 2 ^ 64 →
  le_u64 (len a) ++ a ++ r = le_u64 (len b) ++ b ++ s → a = b ∧ r = s.
Proof.
  intros Ha Hb [Hl H]%le_bytes_app_inj; [|done..].
  apply fixed_app_inj in H; [done|]. unfold len in Hl. lia.
Qed.

Lemma push_bytes_app_inj (a b r s : bytes) :
  len a < 2 ^ 64 → len b < 2 ^ 64 →
  push_bytes a ++ r = push_bytes b ++ s → a = b ∧ r = s.
Proof. unfold push_bytes. rewrite <- !(assoc (++)). apply be_framed_app_inj. Qed.

Lemma push_str_app_inj (a b : string) (r s : bytes) :
  str_len a < 2 ^ 64 → str_len b < 2 ^ 64 →
  push_bytes (as_bytes a) ++ r = push_bytes (as_bytes b) ++ s → a = b ∧ r = s.
Proof.
  rewrite <- !len_as_bytes. intros Ha Hb [H ->]%push_bytes_app_inj; [|done..].
  split; [|done]. by apply (inj as_bytes).
Qed.

(** ** Windows *)

Lemma has_window_spec needle haystack :
  has_window needle haystack = true ↔
  ∃ before after, haystack = before ++ needle ++ after.
Proof.
  induction haystack as [|x h IH]; simpl.
  - rewrite orb_false_r, bool_decide_eq_true. split.
    + intros [k Hk]. by exists [], k.
    + intros (b & a & Hba). destruct b, needle; simplify_eq/=; by exists [].
  - rewrite orb_true_iff, bool_decide_eq_true, IH. split.
    + intros [[k ->]|(b & a & ->)]; [by exists [], k|by exists (x :: b), a].
    + intros ([|y b] & a & Hba); simplify_eq/=.
      * left. by exists a.
      * right. eauto.
Qed.
