(* ===== verification/Framing.v ===== *)
(** * Self-delimiting encoders

    The signed descriptors of the admission, transport and media crates concatenate many
    fields. An encoder is self-delimiting on a domain when an encoded value at the front
    of a byte string determines the value and the rest; the combinators below mirror the
    writers of the source (integers, framed strings, optional fields, counted lists), and
    [peel] strips one field from an equation between two transcripts. *)

From S2P Require Import Prelude Collections Bytes.

Class SelfDelim {A} (ok : A → Prop) (enc : A → bytes) : Prop :=
  sd_app_inj a b r s : ok a → ok b → enc a ++ r = enc b ++ s → a = b ∧ r = s.

(** [append_signed_str], [push_string]: a length, then the bytes. *)
Definition framed_str (s : string) : bytes := le_u64 (str_len s) ++ as_bytes s.

(** The same for a byte slice. *)
Definition framed_bytes (b : bytes) : bytes := le_u64 (len b) ++ b.

(** [u8::from(flag)] *)
Definition flag_byte (b : bool) : bytes := [if b then 1 else 0].

(** [Some(v) => { push(1); .. } None => push(0)] *)
Definition optional {A} (enc : A → bytes) (o : option A) : bytes :=
  match o with Some a => [1] ++ enc a | None => [0] end.

(** A count, then the elements. *)
Definition counted_list {A} (enc : A → bytes) (l : list A) : bytes :=
  le_u64 (N.of_nat (length l)) ++ (l ≫= enc).

(** [i64::to_le_bytes]: two's complement. *)
Definition le_i64 (z : Z) : bytes := le_u64 (Z.to_N (z mod 2 ^ 64)).

(** ** Domains *)

Definition fits (n : nat) (x : N) : Prop := x < 256 ^ N.of_nat n.
Definition str_fits (s : string) : Prop := str_len s < 2 ^ 64.
Definition bytes_fit (b : bytes) : Prop := len b < 2 ^ 64.
Definition opt_fits {A} (ok : A → Prop) (o : option A) : Prop :=
  match o with Some a => ok a | None => True end.
Definition list_fits {A} (ok : A → Prop) (l : list A) : Prop :=
  N.of_nat (length l) < 2 ^ 64 ∧ Forall ok l.
Definition i64_fits (z : Z) : Prop := (- 2 ^ 63 ≤ z < 2 ^ 63)%Z.

(** ** The combinators are self-delimiting *)

#[export] Instance sd_le n : SelfDelim (fits n) (le_bytes n).
Proof. intros a b r s Ha Hb. by apply le_bytes_app_inj. Qed.

#[export] Instance sd_str : SelfDelim str_fits framed_str.
Proof.
  intros a b r s Ha Hb. unfold framed_str. rewrite <- !(assoc (++)), <- !len_as_bytes.
  intros [H ->]%le_framed_app_inj; [|by rewrite len_as_bytes..].
  split; [|done]. by apply (inj as_bytes).
Qed.

#[export] Instance sd_bytes : SelfDelim bytes_fit framed_bytes.
Proof.
  intros a b r s Ha Hb. unfold framed_bytes. rewrite <- !(assoc (++)). by apply le_framed_app_inj.
Qed.

#[export] Instance sd_flag : SelfDelim (λ _, True) flag_byte.
Proof. by intros [] [] r s _ _ [=]. Qed.

#[export] Instance sd_fixed n : SelfDelim (λ b : bytes, length b = n) id.
Proof. intros a b r s Ha Hb. apply fixed_app_inj. congruence. Qed.

#[export] Instance sd_optional {A} ok (enc : A → bytes) `{!SelfDelim ok enc} :
  SelfDelim (opt_fits ok) (optional enc).
Proof.
  intros [a|] [b|] r s Ha Hb; simpl in *; intros Heq; simplify_eq; [|done].
  apply sd_app_inj in Heq as [-> ->]; done.
Qed.

Lemma sd_bind_inj {A} ok (enc : A → bytes) `{!SelfDelim ok enc} (l k : list A) r s :
  Forall ok l → Forall ok k → length l = length k →
  (l ≫= enc) ++ r = (k ≫= enc) ++ s → l = k ∧ r = s.
Proof.
  intros Hl. revert k. induction Hl as [|a l Ha Hl IH]; intros [|b k] Hk; try done.
  apply Forall_cons in Hk as [Hb Hk]. intros [= Hlen]. rewrite !bind_cons, <- !(assoc (++)).
  intros [-> Heq]%sd_app_inj; [|done..]. apply IH in Heq as [-> ->]; done.
Qed.

#[export] Instance sd_list {A} ok (enc : A → bytes) `{!SelfDelim ok enc} :
  SelfDelim (list_fits ok) (counted_list enc).
Proof.
  intros l k r s [Hl Hl'] [Hk Hk']. unfold counted_list. rewrite <- !(assoc (++)).
  intros [Hlen Heq]%le_bytes_app_inj; [|done..].
  apply (sd_bind_inj ok) in Heq as [-> ->]; [done..|lia].
Qed.

#[export] Instance sd_i64 : SelfDelim i64_fits le_i64.
Proof.
  intros a b r s Ha Hb. unfold le_i64, i64_fits in *.
  pose proof (Z.mod_pos_bound a (2 ^ 64)). pose proof (Z.mod_pos_bound b (2 ^ 64)).
  intros [Heq ->]%le_bytes_app_inj; [|change (256 ^ N.of_nat 8) with (2 ^ 64); lia..].
  split; [|done]. apply Z2N.inj in Heq; [|lia..].
  pose proof (Z.div_mod a (2 ^ 64)). pose proof (Z.div_mod b (2 ^ 64)). lia.
Qed.

(** An encoder followed by another, and a record through its fields. *)
#[export] Instance sd_pair {A B} ok1 ok2 (e1 : A → bytes) (e2 : B → bytes)
    `{!SelfDelim ok1 e1, !SelfDelim ok2 e2} :
  SelfDelim (λ p, ok1 p.1 ∧ ok2 p.2) (λ p, e1 p.1 ++ e2 p.2).
Proof.
  intros [a1 a2] [b1 b2] r s [Ha1 Ha2] [Hb1 Hb2]. simpl. rewrite <- !(assoc (++)).
  intros [-> [-> ->]%sd_app_inj]%sd_app_inj; done.
Qed.

Lemma sd_inj {A} ok (enc : A → bytes) `{!SelfDelim ok enc} a b :
  ok a → ok b → enc a = enc b → a = b.
Proof. intros Ha Hb Heq. by eapply (sd_app_inj a b [] []); rewrite ?app_nil_r. Qed.

(** A transcript inside a transcript. *)
#[export] Instance sd_framed {A} ok (enc : A → bytes) `{!SelfDelim ok enc} :
  SelfDelim (λ a, ok a ∧ bytes_fit (enc a)) (λ a, framed_bytes (enc a)).
Proof.
  intros a b r s [Ha Ha'] [Hb Hb'] [Heq ->]%sd_app_inj; [|done..].
  split; [by eapply sd_inj|done].
Qed.

Lemma sd_ext {A} ok (e e' : A → bytes) :
  (∀ a, e a = e' a) → SelfDelim ok e' → SelfDelim ok e.
Proof. intros He Hsd a b r s Ha Hb. rewrite !He. by apply Hsd. Qed.

(** An encoder of names that tells their values apart. *)
Lemma sd_name {A} (name : A → string) :
  Inj (=) (=) name → (∀ a, str_fits (name a)) → SelfDelim (λ _, True) (λ a, framed_str (name a)).
Proof. intros Hinj Hf a b r s _ _ [Heq ->]%sd_app_inj; [|done..]. split; [by apply Hinj|done]. Qed.

(** ** Decoding *)

(** [uN::from_be_bytes] *)
Definition from_be (b : bytes) : N := foldl (λ acc x, acc * 256 + x) 0 b.

Lemma from_be_bytes n x : x < 256 ^ N.of_nat n → from_be (be_bytes n x) = x.
Proof.
  revert x. induction n as [|n IH]; intros x Hx.
  - change (256 ^ N.of_nat 0) with 1 in Hx. assert (x = 0) as -> by lia. done.
  - change (be_bytes (S n) x) with (be_bytes n (x / 256) ++ [x mod 256]).
    unfold from_be in *. rewrite foldl_app. cbn [foldl]. rewrite IH.
    + rewrite N.mul_comm. symmetry. apply N.div_mod'.
    + rewrite Nat2N.inj_succ, N.pow_succ_r' in Hx. apply N.Div0.div_lt_upper_bound. lia.
Qed.

(** ** Peeling *)

(** [peel H] strips the first field of [H : e1 a ++ r = e2 b ++ s], substituting the value
    it determines. *)
Ltac peel H :=
  rewrite <- ?(assoc (++)) in H;
  let Hx := fresh "Hx" in
  lazymatch type of H with
  | le_bytes ?n _ ++ _ = _ => apply (sd_app_inj (enc := le_bytes n)) in H as [Hx H]; [|done..]
  | framed_str _ ++ _ = _ => apply (sd_app_inj (enc := framed_str)) in H as [Hx H]; [|done..]
  | framed_bytes _ ++ _ = _ => apply (sd_app_inj (enc := framed_bytes)) in H as [Hx H]; [|done..]
  | flag_byte _ ++ _ = _ => apply (sd_app_inj (enc := flag_byte)) in H as [Hx H]; [|done..]
  | le_i64 _ ++ _ = _ => apply (sd_app_inj (enc := le_i64)) in H as [Hx H]; [|done..]
  | optional ?e _ ++ _ = _ => apply (sd_app_inj (enc := optional e)) in H as [Hx H]; [|done..]
  | counted_list ?e _ ++ _ = _ =>
      apply (sd_app_inj (enc := counted_list e)) in H as [Hx H]; [|done..]
  | ?a ++ _ = ?b ++ _ => apply (fixed_app_inj a b) in H as [Hx H]; [|done || congruence]
  end;
  try subst.
