(* ===== verification/StrOps.v ===== *)
(** * String operations of the Rust standard library

    The parts of [str] the source uses to parse what it printed: ASCII lower case,
    prefix and suffix stripping and [str::parse::<u64>], with the lemmas that undo
    [format!]. Strings are UTF-8 byte strings, as in [Bytes]. *)

From Stdlib Require Import Ascii.
From S2P Require Import Prelude Collections Bytes.

(** [u8::to_ascii_lowercase] and [str::to_ascii_lowercase] *)
Definition byte_to_lower (b : N) : N := if (65 <=? b) && (b <=? 90) then b + 32 else b.

Definition to_ascii_lowercase (s : string) : string :=
  string_of_bytes (byte_to_lower <$> as_bytes s).

Fixpoint strip_prefix (p s : string) : option string :=
  match p, s with
  | EmptyString, _ => Some s
  | String a p', String b s' => if Ascii.eqb a b then strip_prefix p' s' else None
  | String _ _, EmptyString => None
  end.

(** [s.strip_suffix(p)]: the bytes before a final [p]. *)
Definition strip_suffix (p s : string) : option string :=
  let '(before, last) := (take (String.length s - String.length p) (as_bytes s),
                          drop (String.length s - String.length p) (as_bytes s)) in
  if bool_decide (last = as_bytes p) then Some (string_of_bytes before) else None.

(** The value of an ASCII digit. *)
Definition digit_value (b : N) : option N :=
  if (48 <=? b) && (b <=? 57) then Some (b - 48) else None.

(** The loop of [from_str_radix(_, 10)] with its [checked_mul] and [checked_add]. *)
Fixpoint parse_digits (top acc : N) (b : bytes) : option N :=
  match b with
  | [] => Some acc
  | x :: r =>
      match digit_value x with
      | Some d => if top <? acc * 10 + d then None else parse_digits top (acc * 10 + d) r
      | None => None
      end
  end.

(** [s.parse()] at an unsigned type whose greatest value is [top]: at least one digit,
    after an optional plus sign. *)
Definition parse_unsigned (top : N) (s : string) : option N :=
  match as_bytes s with
  | [] | [43] | [45] => None
  | 43 :: r => parse_digits top 0 r
  | b => parse_digits top 0 b
  end.

Definition parse_u64 : string → option N := parse_unsigned u64_max.

(** [s.starts_with(p)] *)
Definition starts_with (p s : string) : bool := bool_decide (is_Some (strip_prefix p s)).

(** [s.contains(p)] *)
Definition str_contains (p s : string) : bool := has_window (as_bytes p) (as_bytes s).

(** [s.chars().any(char::is_whitespace)]: a white-space sequence starts somewhere; in UTF-8
    such a sequence only matches at the start of a character. *)
Fixpoint contains_space (b : bytes) : bool :=
  match b with
  | [] => false
  | _ :: r => bool_decide (is_Some (strip_space b)) || contains_space r
  end.

(** [chars().take(n)] on a UTF-8 string: a character starts at every byte that is not a
    continuation byte. *)
Definition is_continuation (b : N) : bool := (128 <=? b) && (b <=? 191).

Fixpoint take_chars (n : nat) (b : bytes) : bytes :=
  match b with
  | [] => []
  | x :: rest =>
      if is_continuation x then x :: take_chars n rest
      else match n with O => [] | S m => x :: take_chars m rest end
  end.

(** [str::from_utf8] succeeds: the well-formed sequences of the Unicode standard. *)
Fixpoint valid_utf8 (b : bytes) : bool :=
  match b with
  | [] => true
  | b0 :: r0 =>
      if b0 <? 128 then valid_utf8 r0
      else match r0 with
      | [] => false
      | b1 :: r1 =>
          if (194 <=? b0) && (b0 <=? 223) then is_continuation b1 && valid_utf8 r1
          else match r1 with
          | [] => false
          | b2 :: r2 =>
              if ((b0 =? 224) && (160 <=? b1) && (b1 <=? 191)
                  || ((225 <=? b0) && (b0 <=? 236) || (b0 =? 238) || (b0 =? 239))
                     && is_continuation b1
                  || (b0 =? 237) && (128 <=? b1) && (b1 <=? 159))
              then is_continuation b2 && valid_utf8 r2
              else match r2 with
              | [] => false
              | b3 :: r3 =>
                  ((b0 =? 240) && (144 <=? b1) && (b1 <=? 191)
                   || (241 <=? b0) && (b0 <=? 243) && is_continuation b1
                   || (b0 =? 244) && (128 <=? b1) && (b1 <=? 143))
                  && is_continuation b2 && is_continuation b3 && valid_utf8 r3
              end
          end
      end
  end.

Definition is_ascii_digit (x : N) : bool := (48 <=? x) && (x <=? 57).

Definition is_ascii_alphabetic (x : N) : bool :=
  ((65 <=? x) && (x <=? 90)) || ((97 <=? x) && (x <=? 122)).

Definition is_ascii_alphanumeric (x : N) : bool := is_ascii_digit x || is_ascii_alphabetic x.

Definition is_ascii_hexdigit (x : N) : bool :=
  is_ascii_digit x || ((65 <=? x) && (x <=? 70)) || ((97 <=? x) && (x <=? 102)).

(** [s.split_once(pat)]: around the first occurrence of a non-empty pattern. *)
Fixpoint split_once_bytes (pat b : bytes) : option (bytes * bytes) :=
  if bool_decide (pat `prefix_of` b) then Some ([], drop (length pat) b)
  else match b with
  | [] => None
  | x :: r => prod_map (cons x) id <$> split_once_bytes pat r
  end.

Definition split_once (pat s : string) : option (string * string) :=
  prod_map string_of_bytes string_of_bytes <$> split_once_bytes (as_bytes pat) (as_bytes s).

(** [s.split(c)] for an ASCII character: the pieces between the separators. *)
Fixpoint split_bytes (c : N) (b : bytes) : list bytes :=
  match b with
  | [] => [[]]
  | x :: r =>
      if x =? c then [] :: split_bytes c r
      else match split_bytes c r with
      | piece :: rest => (x :: piece) :: rest
      | [] => [[x]]
      end
  end.

(** [pieces.join(sep)] for a one-byte separator. *)
Fixpoint join_bytes (sep : N) (pieces : list bytes) : bytes :=
  match pieces with
  | [] => []
  | [piece] => piece
  | piece :: rest => piece ++ sep :: join_bytes sep rest
  end.

(** [b.chunks(n)], the last one possibly shorter. *)
Fixpoint chunks_fuel (fuel n : nat) (b : bytes) : list bytes :=
  match fuel, b with
  | S fuel', _ :: _ => take n b :: chunks_fuel fuel' n (drop n b)
  | _, _ => []
  end.

Definition chunks (n : nat) (b : bytes) : list bytes := chunks_fuel (length b) n b.

(** ** Bytes and strings *)

Lemma string_of_as_bytes s : string_of_bytes (as_bytes s) = s.
Proof. induction s as [|c s IH]; simpl; [done|]. by rewrite ascii_N_embedding, IH. Qed.

Lemma as_string_bytes b : Forall (λ x, x < 256) b → as_bytes (string_of_bytes b) = b.
Proof. induction 1 as [|x r Hx _ IH]; simpl; [done|]. by rewrite N_ascii_embedding, IH. Qed.

Lemma as_bytes_u8 s : Forall (λ x, x < 256) (as_bytes s).
Proof. induction s; simpl; constructor; [apply N_ascii_bounded|done]. Qed.

Lemma as_bytes_app s t : as_bytes (s +:+ t) = as_bytes s ++ as_bytes t.
Proof. induction s as [|c s IH]; simpl; [done|]. by rewrite IH. Qed.

Lemma string_length_app s t : String.length (s +:+ t) = (String.length s + String.length t)%nat.
Proof. rewrite <- !length_as_bytes, as_bytes_app. apply length_app. Qed.

Lemma strip_prefix_app p s : strip_prefix p (p +:+ s) = Some s.
Proof. induction p as [|c p IH]; simpl; [done|]. by rewrite Ascii.eqb_refl. Qed.

Lemma strip_suffix_app p s : strip_suffix p (s +:+ p) = Some s.
Proof.
  unfold strip_suffix. rewrite string_length_app, Nat.add_sub, as_bytes_app.
  rewrite <- (length_as_bytes s), take_app_length, drop_app_length.
  by rewrite bool_decide_eq_true_2, string_of_as_bytes.
Qed.

Lemma string_of_bytes_app b c :
  string_of_bytes (b ++ c) = string_of_bytes b +:+ string_of_bytes c.
Proof. induction b as [|x r IH]; simpl; [done|]. by rewrite IH. Qed.

Lemma to_ascii_lowercase_app s t :
  to_ascii_lowercase (s +:+ t) = to_ascii_lowercase s +:+ to_ascii_lowercase t.
Proof. unfold to_ascii_lowercase. by rewrite as_bytes_app, fmap_app, string_of_bytes_app. Qed.

(** ** Trimming *)

Lemma strip_while_none strip fuel b : strip b = None → strip_while strip fuel b = b.
Proof. intros Hs. destruct fuel; simpl; [done|]. by rewrite Hs. Qed.

Lemma trim_id s :
  strip_space (as_bytes s) = None → strip_space_rev (rev (as_bytes s)) = None → trim s = s.
Proof.
  intros H1 H2. unfold trim, trim_bytes. rewrite !strip_while_none by
    (rewrite ?strip_while_none by done; done).
  by rewrite rev_involutive, string_of_as_bytes.
Qed.

(** Printable ASCII. *)
Definition printable (x : N) : Prop := 33 ≤ x ≤ 126.

Lemma space_not_printable x : ascii_is_space x = true → ¬ printable x.
Proof.
  unfold ascii_is_space, printable. rewrite orb_true_iff, andb_true_iff, !N.leb_le, N.eqb_eq. lia.
Qed.

Lemma wide_space_not_printable x :
  ((128 <=? x) && (x <=? 138)) || (x =? 168) || (x =? 169) || (x =? 175) = true → ¬ printable x.
Proof.
  unfold printable. rewrite !orb_true_iff, andb_true_iff, !N.leb_le, !N.eqb_eq. lia.
Qed.

Ltac stripped_witness :=
  split; [done|]; split; [reflexivity|];
  repeat (constructor;
    [first [by apply space_not_printable | by apply wide_space_not_printable
           | unfold printable; lia]|]); constructor.

(** Stripping ends: each step removes at least one byte, and never a printable one. *)
Lemma strip_space_stripped b r :
  strip_space b = Some r → ∃ p, p ≠ [] ∧ b = p ++ r ∧ Forall (λ y, ¬ printable y) p.
Proof.
  unfold strip_space. intros Hs. repeat (case_match; simplify_eq);
    solve [eexists [_]; stripped_witness | eexists [_; _]; stripped_witness
          | eexists [_; _; _]; stripped_witness].
Qed.

Lemma strip_space_rev_stripped b r :
  strip_space_rev b = Some r → ∃ p, p ≠ [] ∧ b = p ++ r ∧ Forall (λ y, ¬ printable y) p.
Proof.
  unfold strip_space_rev. intros Hs. repeat (case_match; simplify_eq);
    solve [eexists [_]; stripped_witness | eexists [_; _]; stripped_witness
          | eexists [_; _; _]; stripped_witness].
Qed.

Lemma strip_space_shorter b r : strip_space b = Some r → ∃ p, p ≠ [] ∧ b = p ++ r.
Proof. intros (p & ? & ? & _)%strip_space_stripped. eauto. Qed.

Lemma strip_space_rev_shorter b r : strip_space_rev b = Some r → ∃ p, p ≠ [] ∧ b = p ++ r.
Proof. intros (p & ? & ? & _)%strip_space_rev_stripped. eauto. Qed.

(** Whether a string starts with white space does not depend on how it goes on. *)
Lemma strip_space_app b r t : strip_space b = Some r → strip_space (b ++ t) = Some (r ++ t).
Proof.
  unfold strip_space. intros Hs. repeat (case_match; simplify_eq/=); done.
Qed.

Lemma strip_while_done strip fuel b :
  (∀ b r, strip b = Some r → ∃ p, p ≠ [] ∧ b = p ++ r) → (length b ≤ fuel)%nat →
  strip (strip_while strip fuel b) = None ∧ ∃ p, b = p ++ strip_while strip fuel b.
Proof.
  intros Hstrip. revert b. induction fuel as [|fuel IH]; intros b Hf; simpl.
  - destruct b; [|simpl in Hf; lia]. split; [|by exists []].
    destruct (strip []) eqn:E; [|done]. by apply Hstrip in E as ([] & ? & [=]).
  - destruct (strip b) as [r|] eqn:E; [|split; [done|by exists []]].
    apply Hstrip in E as (p & Hp & ->). destruct (IH r) as (H1 & q & Hq).
    { rewrite length_app in Hf. destruct p; [done|simpl in Hf; lia]. }
    split; [done|]. exists (p ++ q). by rewrite <- (assoc (++)), <- Hq.
Qed.

Lemma trim_bytes_stripped b :
  strip_space (trim_bytes b) = None ∧ strip_space_rev (rev (trim_bytes b)) = None ∧
  ∃ p q, b = p ++ trim_bytes b ++ q.
Proof.
  unfold trim_bytes. set (s := strip_while strip_space _ b).
  destruct (strip_while_done strip_space (length b) b strip_space_shorter) as (H1 & p & Hp); [done|].
  fold s in H1, Hp.
  destruct (strip_while_done strip_space_rev (length s) (rev s) strip_space_rev_shorter)
    as (H2 & q & Hq); [by rewrite length_rev|].
  set (t := strip_while strip_space_rev (length s) (rev s)) in *.
  apply (f_equal (@rev N)) in Hq. rewrite rev_involutive, rev_app_distr in Hq.
  rewrite rev_involutive. split_and!; [|done|].
  - destruct (strip_space (rev t)) as [r|] eqn:E; [|done].
    apply (strip_space_app _ _ (rev q)) in E. rewrite <- Hq in E. congruence.
  - exists p, (rev q). by rewrite <- Hq.
Qed.

Lemma trim_idemp s : trim (trim s) = trim s.
Proof.
  destruct (trim_bytes_stripped (as_bytes s)) as (H1 & H2 & p & q & Hs).
  assert (as_bytes (trim s) = trim_bytes (as_bytes s)) as Ht.
  { unfold trim. apply as_string_bytes. pose proof (as_bytes_u8 s) as Hu. rewrite Hs in Hu.
    apply Forall_app in Hu as [_ [Hu _]%Forall_app]. done. }
  apply trim_id; by rewrite Ht.
Qed.

(** Printable ASCII has nothing to trim. *)
Lemma strip_space_printable b : Forall printable b → strip_space b = None ∧ strip_space_rev b = None.
Proof.
  intros Hb. split.
  - destruct (strip_space b) eqn:E; [|done]. exfalso.
    apply strip_space_stripped in E as ([|x p] & ? & -> & Hp); [done|].
    by apply Forall_cons in Hb as [? _], Hp as [? _].
  - destruct (strip_space_rev b) eqn:E; [|done]. exfalso.
    apply strip_space_rev_stripped in E as ([|x p] & ? & -> & Hp); [done|].
    by apply Forall_cons in Hb as [? _], Hp as [? _].
Qed.

Lemma trim_printable s : Forall printable (as_bytes s) → trim s = s.
Proof.
  intros Hs. apply trim_id; [by apply strip_space_printable|].
  apply strip_space_printable, Forall_forall. intros x Hx%list_elem_of_In%in_rev%list_elem_of_In.
  by apply (proj1 (Forall_forall _ _) Hs).
Qed.

(** A string with a printable character is not blank. *)
Lemma strip_while_stripped strip fuel b :
  (∀ c r, strip c = Some r → ∃ p, p ≠ [] ∧ c = p ++ r ∧ Forall (λ y, ¬ printable y) p) →
  ∃ p, b = p ++ strip_while strip fuel b ∧ Forall (λ y, ¬ printable y) p.
Proof.
  intros Hstrip. revert b. induction fuel as [|fuel IH]; intros b; simpl; [by exists []|].
  destruct (strip b) as [r|] eqn:E; [|by exists []].
  apply Hstrip in E as (p & _ & -> & Hp). destruct (IH r) as (q & Hq & Hq').
  exists (p ++ q). rewrite <- (assoc (++)), <- Hq. split; [done|]. by apply Forall_app.
Qed.

Lemma not_blank_printable s x : x ∈ as_bytes s → printable x → is_blank s = false.
Proof.
  intros Hx Hp. apply bool_decide_eq_false. intros Hs. apply (f_equal as_bytes) in Hs.
  assert (trim_bytes (as_bytes s) = []) as Ht.
  { unfold trim in Hs. by destruct (trim_bytes (as_bytes s)). }
  unfold trim_bytes in Ht.
  destruct (strip_while_stripped strip_space (length (as_bytes s)) (as_bytes s)) as (p & Hb & Hnp);
    [apply strip_space_stripped|].
  set (b := strip_while strip_space (length (as_bytes s)) (as_bytes s)) in *.
  destruct (strip_while_stripped strip_space_rev (length b) (rev b)) as (q & Hr & Hnq);
    [apply strip_space_rev_stripped|].
  apply (f_equal (@rev N)) in Ht. rewrite rev_involutive in Ht. rewrite Ht, app_nil_r in Hr.
  rewrite Hb in Hx. apply elem_of_app in Hx as [Hx|Hx].
  - by apply (proj1 (Forall_forall _ _) Hnp x).
  - apply (proj1 (Forall_forall _ _) Hnq x); [|done]. rewrite <- Hr.
    by apply list_elem_of_In, in_rev; rewrite rev_involutive; apply list_elem_of_In.
Qed.

Lemma contains_space_printable b : Forall printable b → contains_space b = false.
Proof.
  induction 1 as [|x b Hx Hb IH]; [done|]. cbn [contains_space]. rewrite IH, orb_false_r.
  apply bool_decide_eq_false. rewrite (proj1 (strip_space_printable (x :: b) ltac:(by constructor))).
  by intros [].
Qed.

(** ** Decimal printing *)

(** Every character [pretty] prints for a number is a digit. *)
Lemma pretty_digit x : x < 10 → digit_value (N_of_ascii (pretty_N_char x)) = Some x.
Proof.
  intros Hx. assert (x ∈ [0;1;2;3;4;5;6;7;8;9]) as Hin.
  { rewrite !elem_of_cons. lia. }
  repeat (apply elem_of_cons in Hin as [->|Hin]; [done|]). set_solver.
Qed.

Lemma pretty_N_go_parse top x s :
  x ≤ top →
  parse_digits top 0 (as_bytes (pretty_N_go x s)) = parse_digits top x (as_bytes s).
Proof.
  revert s. induction (N.lt_wf_0 x) as [x _ IH]; intros s Hx.
  destruct (decide (x = 0)) as [->|Hne]; [by rewrite pretty_N_go_0|].
  rewrite pretty_N_go_step by lia.
  pose proof (N.div_mod' x 10) as Hdm. pose proof (N.mod_lt x 10 ltac:(lia)) as Hm.
  rewrite IH by (first [apply N.div_lt; lia | apply N.Div0.div_le_upper_bound; lia]).
  simpl. rewrite pretty_digit by done.
  replace (x / 10 * 10 + x mod 10) with x by lia.
  by rewrite (proj2 (N.ltb_ge top x)).
Qed.

Definition all_digits (s : string) : Prop :=
  Forall (λ b, is_Some (digit_value b)) (as_bytes s).

Lemma pretty_N_go_digits x s : all_digits s → all_digits (pretty_N_go x s).
Proof.
  revert s. induction (N.lt_wf_0 x) as [x _ IH]; intros s Hs.
  destruct (decide (x = 0)) as [->|Hne]; [by rewrite pretty_N_go_0|].
  rewrite pretty_N_go_step by lia. apply IH; [apply N.div_lt; lia|].
  constructor; [|done]. rewrite pretty_digit by (apply N.mod_lt; lia). eauto.
Qed.

Lemma pretty_digits (x : N) : all_digits (pretty x).
Proof.
  unfold pretty, pretty_N. case_decide; [|apply pretty_N_go_digits; constructor].
  repeat constructor. eauto.
Qed.

Lemma pretty_parse_digits top (x : N) :
  x ≤ top → parse_digits top 0 (as_bytes (pretty x)) = Some x.
Proof.
  intros Hx. unfold pretty, pretty_N. case_decide; subst.
  - simpl. by destruct top.
  - by rewrite pretty_N_go_parse.
Qed.

Lemma pretty_nonempty (x : N) : as_bytes (pretty x) ≠ [].
Proof.
  unfold pretty, pretty_N. case_decide; [done|]. rewrite pretty_N_go_step by lia.
  generalize (x `div` 10), (pretty_N_char (x `mod` 10)), "". clear.
  intros x. induction (N.lt_wf_0 x) as [x _ IH]; intros c s.
  destruct (decide (x = 0)) as [->|Hne]; [by rewrite pretty_N_go_0|].
  rewrite pretty_N_go_step by lia. apply IH, N.div_lt; lia.
Qed.

(** A digit is neither a sign nor an upper-case letter. *)
Lemma digit_value_bounds b : is_Some (digit_value b) → 48 ≤ b ≤ 57.
Proof.
  unfold digit_value. intros [d Hd]. case_match eqn:Hb; [|done].
  apply andb_true_iff in Hb as [?%N.leb_le ?%N.leb_le]. lia.
Qed.

Lemma parse_unsigned_digits top s :
  as_bytes s ≠ [] → all_digits s → parse_unsigned top s = parse_digits top 0 (as_bytes s).
Proof.
  unfold parse_unsigned, all_digits. destruct (as_bytes s) as [|x r]; [done|].
  intros _ [Hx%digit_value_bounds _]%Forall_cons.
  assert (x ≠ 43 ∧ x ≠ 45) as [H1 H2] by lia. by repeat (case_match; simplify_eq).
Qed.

(** [format!("{x}").parse() == Ok(x)] *)
Lemma parse_pretty top (x : N) : x ≤ top → parse_unsigned top (pretty x) = Some x.
Proof.
  intros Hx. rewrite parse_unsigned_digits by auto using pretty_nonempty, pretty_digits.
  by apply pretty_parse_digits.
Qed.

Lemma to_ascii_lowercase_digits s : all_digits s → to_ascii_lowercase s = s.
Proof.
  intros Hs. unfold to_ascii_lowercase. rewrite <- (string_of_as_bytes s) at 2. f_equal.
  unfold all_digits in Hs. induction Hs as [|x r Hx%digit_value_bounds _ IH]; [done|].
  rewrite fmap_cons, IH. f_equal. unfold byte_to_lower. by rewrite (proj2 (N.leb_gt 65 x)) by lia.
Qed.

(** ** Splitting *)

Lemma split_once_bytes_app pat (a b : bytes) :
  pat ≠ [] →
  (∀ x, x ∈ a → head pat ≠ Some x) →
  split_once_bytes pat (a ++ pat ++ b) = Some (a, b).
Proof.
  intros Hp Ha. induction a as [|x a IH].
  - destruct pat as [|y pat]; [done|]. cbn [app split_once_bytes].
    rewrite bool_decide_eq_true_2 by (by exists b). simpl. by rewrite drop_app_length.
  - cbn [app split_once_bytes]. rewrite bool_decide_eq_false_2.
    + rewrite IH by set_solver. done.
    + destruct pat as [|y pat]; [done|]. intros [k [= -> _]].
      apply (Ha y); [set_solver|done].
Qed.

Lemma split_bytes_nonempty c b : split_bytes c b ≠ [].
Proof. destruct b; simpl; repeat case_match; done. Qed.

Lemma split_bytes_piece c b piece : piece ∈ split_bytes c b → c ∉ piece.
Proof.
  revert piece. induction b as [|x r IH]; intros piece; simpl.
  - intros ->%list_elem_of_singleton. apply not_elem_of_nil.
  - destruct (N.eqb_spec x c) as [->|Hx].
    + intros [->|Hin]%elem_of_cons; [apply not_elem_of_nil|auto].
    + destruct (split_bytes c r) as [|q rest] eqn:E; [by destruct (split_bytes_nonempty c r)|].
      intros [->|Hin]%elem_of_cons.
      * apply not_elem_of_cons. split; [done|]. apply IH. by left.
      * apply IH. by right.
Qed.

Lemma split_bytes_subset c b piece x : piece ∈ split_bytes c b → x ∈ piece → x ∈ b.
Proof.
  revert piece. induction b as [|y r IH]; intros piece; simpl.
  - intros ->%list_elem_of_singleton []%not_elem_of_nil.
  - destruct (y =? c).
    + intros [->|Hin]%elem_of_cons Hx; [by apply not_elem_of_nil in Hx|]. right. eauto.
    + destruct (split_bytes c r) as [|q rest] eqn:E; [by destruct (split_bytes_nonempty c r)|].
      intros [->|Hin]%elem_of_cons Hx.
      * apply elem_of_cons in Hx as [->|Hx]; [by left|]. right. eapply IH; [by left|done].
      * right. eapply IH; [by right|done].
Qed.

(** The first piece of a string that starts without the separator. *)
Lemma split_bytes_head c a b :
  c ∉ a → head (split_bytes c (a ++ c :: b)) = Some a.
Proof.
  induction a as [|x a IH]; intros Ha; simpl.
  - by rewrite N.eqb_refl.
  - apply not_elem_of_cons in Ha as [Hx Ha].
    destruct (N.eqb_spec x c) as [->|_]; [done|].
    specialize (IH Ha). destruct (split_bytes c (a ++ c :: b)); simplify_eq/=. done.
Qed.

Lemma elem_of_join_bytes sep pieces x :
  x ∈ join_bytes sep pieces → x = sep ∨ ∃ piece, piece ∈ pieces ∧ x ∈ piece.
Proof.
  induction pieces as [|p rest IH]; simpl; [set_solver|].
  destruct rest as [|q rest]; [set_solver|].
  rewrite elem_of_app, elem_of_cons. intros [Hx|[->|Hx]]; [set_solver|by left|].
  apply IH in Hx as [->|(piece & ? & ?)]; [by left|]. right. exists piece. set_solver.
Qed.
