(* ===== verification/Crypto.v ===== *)
(** * Interfaces to third-party code

    The cryptographic crates ([sha2], [ed25519-dalek], [aes-gcm]), the calendar
    crate ([chrono]), [hex], [uuid], [hmac], [base64] and [argon2] are not part of the
    repository. Each is a class of
    operations with a second class for the documented behaviour the source relies
    on; the components are stated over the operations and only the theorems that
    need a law assume it. [Module Toy] gives concrete operations that satisfy every
    law, so the laws can be met and the model can be run. *)

From Stdlib Require Import Ascii.
From S2P Require Import Prelude Collections Bytes StrOps.

(** ** sha2 *)

Class Sha256 := sha256 : bytes → bytes.

Class Sha256Laws `{Sha256} : Prop :=
  sha256_length (b : bytes) : length (sha256 b) = 32%nat.

(** The digest is an array of [u8]. *)
Class Sha256Octets `{Sha256} : Prop :=
  sha256_u8 (b : bytes) : Forall (λ x, x < 256) (sha256 b).

(** ** ed25519-dalek *)

Class Ed25519 := {
  signing_key : Type;
  verifying_key : Type;
  signature : Type;
  vk_of : signing_key → verifying_key;
  vk_to_bytes : verifying_key → bytes;
  (** [VerifyingKey::from_bytes(&[u8; 32])] *)
  vk_from_bytes : bytes → option verifying_key;
  sign : signing_key → bytes → signature;
  sig_to_bytes : signature → bytes;
  (** [Signature::from_slice(&[u8])] *)
  sig_from_slice : bytes → option signature;
  (** [Signature::from_bytes(&[u8; 64])] *)
  sig_from_bytes : bytes → signature;
  (** [verifying_key.verify(message, signature).is_ok()] *)
  vk_verify : verifying_key → bytes → signature → bool
}.

Class Ed25519Laws `{Ed25519} : Prop := {
  vk_to_bytes_length v : length (vk_to_bytes v) = 32%nat;
  vk_to_bytes_u8 v : Forall (λ x, x < 256) (vk_to_bytes v);
  vk_from_to_bytes v : vk_from_bytes (vk_to_bytes v) = Some v;
  sig_to_bytes_length s : length (sig_to_bytes s) = 64%nat;
  sig_to_bytes_u8 s : Forall (λ x, x < 256) (sig_to_bytes s);
  sig_from_slice_to_bytes s : sig_from_slice (sig_to_bytes s) = Some s;
  sig_from_bytes_to_bytes s : sig_from_bytes (sig_to_bytes s) = s;
  vk_verify_sign k m : vk_verify (vk_of k) m (sign k m) = true
}.

(** ** aes-gcm *)

Class Aes256Gcm := {
  gcm_cipher : Type;
  (** [Aes256Gcm::new_from_slice(key)] *)
  gcm_new : bytes → option gcm_cipher;
  gcm_encrypt : gcm_cipher → bytes → bytes → bytes → option bytes;
  gcm_decrypt : gcm_cipher → bytes → bytes → bytes → option bytes
}.

Class Aes256GcmLaws `{Aes256Gcm} : Prop := {
  gcm_new_32 key : length key = 32%nat → is_Some (gcm_new key);
  gcm_decrypt_encrypt c nonce aad msg ct :
    gcm_encrypt c nonce aad msg = Some ct → gcm_decrypt c nonce aad ct = Some msg;
  (** The authentication tag makes every ciphertext non-empty. *)
  gcm_encrypt_nonempty c nonce aad msg ct :
    gcm_encrypt c nonce aad msg = Some ct → ct ≠ []
}.

(** Ciphertexts are bytes. *)
Class Aes256GcmOctets `{Aes256Gcm} : Prop :=
  gcm_encrypt_u8 c nonce aad msg ct :
    gcm_encrypt c nonce aad msg = Some ct → Forall (λ x, x < 256) msg → Forall (λ x, x < 256) ct.

(** ** chrono

    [DateTime<Utc>] and [TimeDelta] (alias [Duration]) are observed through their
    number of nanoseconds. [TimeDelta::seconds] and [DateTime + TimeDelta] are
    documented to panic when the result is out of range, which is [None] here. *)

Class Chrono := {
  datetime : Type;
  timedelta : Type;
  dt_nanos : datetime → Z;
  td_nanos : timedelta → Z;
  td_seconds : Z → option timedelta;
  td_num_milliseconds : timedelta → Z;
  dt_since : datetime → datetime → timedelta;
  dt_add : datetime → timedelta → option datetime;
  (** [timestamp_millis()] and [timestamp()]: whole units since the epoch. *)
  dt_timestamp_millis : datetime → Z;
  dt_timestamp : datetime → Z
}.

Definition i64_max : Z := (2 ^ 63 - 1)%Z.

Class ChronoLaws `{Chrono} : Prop := {
  td_seconds_some s d : td_seconds s = Some d → td_nanos d = (s * 1000000000)%Z;
  td_seconds_range s :
    is_Some (td_seconds s) ↔ (- (i64_max / 1000) ≤ s ≤ i64_max / 1000)%Z;
  td_num_milliseconds_spec d :
    td_num_milliseconds d = Z.quot (td_nanos d) 1000000;
  dt_since_nanos a b : td_nanos (dt_since a b) = (dt_nanos a - dt_nanos b)%Z;
  dt_add_nanos a d a' : dt_add a d = Some a' → dt_nanos a' = (dt_nanos a + td_nanos d)%Z;
  dt_timestamp_millis_spec a : dt_timestamp_millis a = (dt_nanos a / 1000000)%Z;
  dt_timestamp_spec a : dt_timestamp a = (dt_nanos a / 1000000000)%Z
}.

(** Comparisons on [DateTime] and [TimeDelta] compare the instants. *)
Definition dt_le `{Chrono} (a b : datetime) : bool := (dt_nanos a <=? dt_nanos b)%Z.
Definition dt_lt `{Chrono} (a b : datetime) : bool := (dt_nanos a <? dt_nanos b)%Z.
Definition td_le `{Chrono} (a b : timedelta) : bool := (td_nanos a <=? td_nanos b)%Z.

(** [to_rfc3339] and [parse_from_rfc3339(..).with_timezone(&Utc)]; the text has four-digit
    years. *)
Class Rfc3339 `{Chrono} := {
  dt_to_rfc3339 : datetime → string;
  dt_parse_rfc3339 : string → option datetime
}.

Definition four_digit_year `{Chrono} (a : datetime) : Prop :=
  (- 62167219200 * 1000000000 ≤ dt_nanos a < 253402300800 * 1000000000)%Z.

Class Rfc3339Laws `{Rfc3339} : Prop :=
  dt_parse_to_rfc3339 a :
    four_digit_year a → ∃ b, dt_parse_rfc3339 (dt_to_rfc3339 a) = Some b ∧ dt_nanos b = dt_nanos a.

(** ** hmac with SHA-1; [new_from_slice] takes keys of any length *)

Class HmacSha1 := hmac_sha1 : bytes → bytes → option bytes.

Class HmacSha1Laws `{HmacSha1} : Prop :=
  hmac_sha1_some key m : ∃ tag, hmac_sha1 key m = Some tag ∧ length tag = 20%nat.

(** ** base64: the standard engine, and the URL-safe one without padding *)

Class Base64 := {
  b64_encode : bytes → string;
  b64_url_encode : bytes → string;
  b64_url_decode : string → result bytes string
}.

Class Base64Laws `{Base64} : Prop := {
  (** Printable ASCII only, so no character is white space. *)
  b64_encode_ascii b x : x ∈ as_bytes (b64_encode b) → 33 ≤ x ≤ 126;
  b64_encode_nonempty b : b ≠ [] → b64_encode b ≠ ""%string;
  b64_url_decode_encode b : Forall (λ x, x < 256) b → b64_url_decode (b64_url_encode b) = Ok b
}.

(** ** argon2: PHC strings *)

Class Argon2 := {
  phc : Type;
  (** [hash_password(password, salt)], printed *)
  argon2_hash : bytes → string → option string;
  phc_parse : string → option phc;
  argon2_verify : bytes → phc → bool
}.

Class Argon2Laws `{Argon2} : Prop :=
  argon2_verify_hash password salt h :
    argon2_hash password salt = Some h →
    ∃ p, phc_parse h = Some p ∧ argon2_verify password p = true.

(** ** hex *)

Class Hex := {
  hex_encode : bytes → string;
  (** [hex::decode], with the text of its error. *)
  hex_decode : string → result bytes string
}.

Class HexLaws `{Hex} : Prop := {
  hex_decode_encode b : Forall (λ x, x < 256) b → hex_decode (hex_encode b) = Ok b;
  hex_encode_length b : String.length (hex_encode b) = (2 * length b)%nat;
  (** Lower-case digits. *)
  hex_encode_digits b x :
    x ∈ as_bytes (hex_encode b) → 48 ≤ x ≤ 57 ∨ 97 ≤ x ≤ 102;
  hex_decode_length s b : hex_decode s = Ok b → String.length s = (2 * length b)%nat
}.

(** ** uuid: the hyphenated text of a [Uuid], which is its 128-bit value *)

Class UuidText := uuid_to_string : N → string.

Class UuidTextLaws `{UuidText} : Prop := {
  uuid_to_string_length u : String.length (uuid_to_string u) = 36%nat;
  uuid_to_string_inj u v :
    u < 2 ^ 128 → v < 2 ^ 128 → uuid_to_string u = uuid_to_string v → u = v
}.

(** ** Concrete operations that satisfy the laws *)

Module Toy.

(** A polynomial checksum in place of SHA-256. *)
Definition toy_sha : Sha256 := λ b,
  be_bytes 32 (foldl (λ acc x, (acc * 257 + x + 1) mod 2 ^ 256) 7 b).

Lemma toy_sha_laws : @Sha256Laws toy_sha.
Proof. intros b. apply length_be_bytes. Qed.

Lemma toy_sha_octets : @Sha256Octets toy_sha.
Proof. intros b. apply be_bytes_u8. Qed.

Definition key_bytes (k : bool) : bytes := replicate 32 (if k then 1 else 0).

(** A 32-bit checksum, as four bytes. *)
Definition checksum (m : bytes) : ascii * ascii * ascii * ascii :=
  let c := foldl (λ acc x, (acc * 257 + x + 1) mod 2 ^ 128) 3 m in
  (ascii_of_N (c mod 256), ascii_of_N (c / 2 ^ 8 mod 256),
   ascii_of_N (c / 2 ^ 16 mod 256), ascii_of_N (c / 2 ^ 24 mod 256)).

(** Two key pairs; a signature is the key and a checksum of the message. *)
Definition toy_ed : Ed25519 := {|
  signing_key := bool;
  verifying_key := bool;
  signature := bool * (ascii * ascii * ascii * ascii);
  vk_of k := k;
  vk_to_bytes k := key_bytes k;
  vk_from_bytes b :=
    if decide (b = key_bytes true) then Some true
    else if decide (b = key_bytes false) then Some false else None;
  sign k m := (k, checksum m);
  sig_to_bytes s :=
    let '(k, (c0, c1, c2, c3)) := s in
    (if k then 1 else 0) :: N_of_ascii c0 :: N_of_ascii c1 :: N_of_ascii c2 ::
    N_of_ascii c3 :: replicate 59 0;
  sig_from_slice b :=
    match b with
    | k :: c0 :: c1 :: c2 :: c3 :: r =>
        if decide (length r = 59%nat)
        then Some (k =? 1, (ascii_of_N c0, ascii_of_N c1, ascii_of_N c2, ascii_of_N c3))
        else None
    | _ => None
    end;
  sig_from_bytes b :=
    match b with
    | k :: c0 :: c1 :: c2 :: c3 :: _ =>
        (k =? 1, (ascii_of_N c0, ascii_of_N c1, ascii_of_N c2, ascii_of_N c3))
    | _ => (false, checksum [])
    end;
  vk_verify k m s := bool_decide (s = (k, checksum m))
|}.

Lemma toy_ed_laws : @Ed25519Laws toy_ed.
Proof.
  split.
  - by intros [].
  - intros []; apply Forall_replicate; done.
  - by intros [].
  - by intros [[] [[[]]]].
  - intros [k [[[c0 c1] c2] c3]]. simpl.
    do 5 (constructor; [first [by destruct k | apply N_ascii_bounded]|]).
    apply (Forall_replicate _ 59). done.
  - intros [[] [[[]]]]; simpl; by rewrite !ascii_N_embedding.
  - intros [[] [[[]]]]; simpl; by rewrite !ascii_N_embedding.
  - intros k m. simpl. by apply bool_decide_eq_true.
Qed.

Definition alice : @signing_key toy_ed := true.
Definition bob : @signing_key toy_ed := false.

(** The cipher prepends a one-byte tag. *)
Definition toy_aead : Aes256Gcm := {|
  gcm_cipher := bytes;
  gcm_new key := if decide (length key = 32%nat) then Some key else None;
  gcm_encrypt _ _ _ msg := Some (1 :: msg);
  gcm_decrypt _ _ _ ct := match ct with [] => None | _ :: msg => Some msg end
|}.

Lemma toy_aead_laws : @Aes256GcmLaws toy_aead.
Proof.
  split; simpl.
  - intros key Hk. rewrite decide_True by done. eauto.
  - by intros ????? [= <-].
  - by intros ????? [= <-].
Qed.

Lemma toy_aead_octets : @Aes256GcmOctets toy_aead.
Proof. intros c nonce aad msg ct. simpl. intros [= <-] Hm. by constructor. Qed.

(** Instants and spans are integers of nanoseconds. *)
Definition toy_chrono : Chrono := {|
  datetime := Z;
  timedelta := Z;
  dt_nanos t := t;
  td_nanos d := d;
  td_seconds s :=
    if ((- (i64_max / 1000) <=? s) && (s <=? i64_max / 1000))%Z
    then Some (s * 1000000000)%Z else None;
  td_num_milliseconds d := Z.quot d 1000000;
  dt_since a b := (a - b)%Z;
  dt_add a d := Some (a + d)%Z;
  dt_timestamp_millis t := (t / 1000000)%Z;
  dt_timestamp t := (t / 1000000000)%Z
|}.

Lemma toy_chrono_laws : @ChronoLaws toy_chrono.
Proof.
  split; simpl.
  - intros s d. case_match; congruence.
  - intros s. rewrite <- not_eq_None_Some.
    destruct (Z.leb_spec (- (i64_max / 1000)) s), (Z.leb_spec s (i64_max / 1000)); simpl;
      split; done || lia.
  - done.
  - done.
  - by intros ??? [= <-].
  - done.
  - done.
Qed.

(** The nanoseconds since the year 0, in decimal. *)
Definition year_zero : Z := (62167219200 * 1000000000)%Z.

Definition toy_rfc3339 : @Rfc3339 toy_chrono := {|
  dt_to_rfc3339 (t : @datetime toy_chrono) := pretty (Z.to_N (t + year_zero));
  dt_parse_rfc3339 s :=
    (λ n, (Z.of_N n - year_zero)%Z : @datetime toy_chrono) <$> parse_unsigned (2 ^ 80) s
|}.

Lemma toy_rfc3339_laws : @Rfc3339Laws toy_chrono toy_rfc3339.
Proof.
  intros a. unfold four_digit_year. simpl. intros Ha. unfold year_zero.
  rewrite parse_pretty by lia. simpl. eexists. split; [done|]. lia.
Qed.

(** Two lower-case digits per byte. *)
Definition hex_digit (x : N) : N := if x <? 10 then 48 + x else 87 + x.
Definition hex_value (x : N) : option N :=
  if (48 <=? x) && (x <=? 57) then Some (x - 48)
  else if (97 <=? x) && (x <=? 102) then Some (x - 87) else None.

Fixpoint unhex (b : bytes) : option bytes :=
  match b with
  | [] => Some []
  | h :: l :: r =>
      h ← hex_value h; l ← hex_value l; r ← unhex r; Some (16 * h + l :: r)
  | [_] => None
  end.

Definition hex_bytes (b : bytes) : bytes :=
  b ≫= λ x, [hex_digit (x / 16 mod 16); hex_digit (x mod 16)].

Definition toy_hex : Hex := {|
  hex_encode b := string_of_bytes (hex_bytes b);
  hex_decode s := ok_or (unhex (as_bytes s)) "invalid hex"
|}.

Lemma hex_digit_bounds x : x < 16 → 48 ≤ hex_digit x ≤ 57 ∨ 97 ≤ hex_digit x ≤ 102.
Proof. unfold hex_digit. destruct (N.ltb_spec x 10); lia. Qed.

Lemma hex_value_digit x : x < 16 → hex_value (hex_digit x) = Some x.
Proof.
  intros Hx. unfold hex_value, hex_digit. destruct (N.ltb_spec x 10).
  - rewrite !(proj2 (N.leb_le _ _)) by lia. simpl. f_equal. lia.
  - rewrite (proj2 (N.leb_gt (87 + x) 57)), andb_false_r by lia.
    rewrite !(proj2 (N.leb_le _ _)) by lia. simpl. f_equal. lia.
Qed.

Lemma elem_of_hex_bytes b x : x ∈ hex_bytes b → 48 ≤ x ≤ 57 ∨ 97 ≤ x ≤ 102.
Proof.
  intros (y & Hx & _)%list_elem_of_bind.
  apply elem_of_cons in Hx as [->|Hx%list_elem_of_singleton]; [|subst x];
    apply hex_digit_bounds, N.mod_lt; lia.
Qed.

Lemma as_hex_encode b : as_bytes (string_of_bytes (hex_bytes b)) = hex_bytes b.
Proof. apply as_string_bytes, Forall_forall. intros x Hx%elem_of_hex_bytes. lia. Qed.

Lemma unhex_hex_bytes b : Forall (λ x, x < 256) b → unhex (hex_bytes b) = Some b.
Proof.
  induction 1 as [|x r Hx _ IH]; [done|]. unfold hex_bytes in *. rewrite bind_cons.
  cbn [app unhex]. rewrite !hex_value_digit by (apply N.mod_lt; lia). simpl. rewrite IH. simpl.
  do 2 f_equal. rewrite (N.mod_small (x / 16)) by (apply N.Div0.div_lt_upper_bound; lia).
  symmetry. apply N.div_mod'.
Qed.

Lemma length_hex_bytes b : length (hex_bytes b) = (2 * length b)%nat.
Proof.
  unfold hex_bytes. induction b as [|x r IH]; [done|].
  rewrite bind_cons, length_app, IH. simpl. lia.
Qed.

Lemma unhex_length n b r :
  (length b ≤ n)%nat → unhex b = Some r → length b = (2 * length r)%nat.
Proof.
  revert b r. induction n as [|n IH]; intros [|h [|l b]] r Hn; simpl in *; try lia; try done;
    try by intros [= <-].
  destruct (hex_value h), (hex_value l), (unhex b) as [r'|] eqn:E; simpl; try done.
  intros [= <-]. apply IH in E; simpl; lia.
Qed.

Lemma toy_hex_laws : @HexLaws toy_hex.
Proof.
  split; simpl.
  - intros b Hb. rewrite as_hex_encode, unhex_hex_bytes by done. done.
  - intros b. by rewrite <- length_as_bytes, as_hex_encode, length_hex_bytes.
  - intros b x. rewrite as_hex_encode. apply elem_of_hex_bytes.
  - intros s b. rewrite <- length_as_bytes. destruct (unhex (as_bytes s)) eqn:E; [|done].
    intros [= <-]. by eapply unhex_length.
Qed.

Definition toy_uuid : UuidText := λ u, string_of_bytes (hex_bytes (be_bytes 16 u)) +:+ "----".

Lemma toy_uuid_laws : @UuidTextLaws toy_uuid.
Proof.
  split; unfold uuid_to_string, toy_uuid.
  - intros u. rewrite string_length_app, <- length_as_bytes, as_hex_encode, length_hex_bytes.
    by rewrite length_be_bytes.
  - intros u v Hu Hv Heq. apply (f_equal as_bytes) in Heq.
    rewrite !as_bytes_app, !as_hex_encode in Heq. apply app_inv_tail in Heq.
    apply (f_equal unhex) in Heq. rewrite !unhex_hex_bytes in Heq by apply be_bytes_u8.
    apply (be_bytes_inj 16); [done..|congruence].
Qed.

(** A checksum in place of the MAC. *)
Definition toy_hmac : HmacSha1 := λ key m, Some (take 20 (toy_sha (key ++ m))).

Lemma toy_hmac_laws : @HmacSha1Laws toy_hmac.
Proof.
  intros key m. eexists. split; [done|]. rewrite length_take.
  change (toy_sha (key ++ m)) with (@sha256 toy_sha (key ++ m)). by rewrite (toy_sha_laws _).
Qed.

(** Hexadecimal digits in place of the base-64 ones. *)
Definition toy_b64 : Base64 := {|
  b64_encode := @hex_encode toy_hex;
  b64_url_encode := @hex_encode toy_hex;
  b64_url_decode := @hex_decode toy_hex
|}.

Lemma toy_b64_laws : @Base64Laws toy_b64.
Proof.
  split.
  - intros b x Hx%(@hex_encode_digits toy_hex toy_hex_laws). lia.
  - intros [|x b] Hb Heq; [done|].
    apply (f_equal String.length) in Heq. change (@b64_encode toy_b64) with (@hex_encode toy_hex) in Heq.
    rewrite (@hex_encode_length toy_hex toy_hex_laws) in Heq. simpl in Heq. lia.
  - intros b. apply (@hex_decode_encode toy_hex toy_hex_laws).
Qed.

(** The hash is the password behind a marker. *)
Definition toy_argon2 : Argon2 := {|
  phc := bytes;
  argon2_hash password salt := Some (String "$" (string_of_bytes (hex_bytes password)));
  phc_parse s :=
    match s with String "$" r => unhex (as_bytes r) | _ => None end;
  argon2_verify password p := bool_decide (hex_bytes password = hex_bytes p)
|}.

Lemma unhex_hex_mod b : ∃ c, unhex (hex_bytes b) = Some c ∧ hex_bytes c = hex_bytes b.
Proof.
  assert (hex_bytes b = hex_bytes ((λ x, x mod 256) <$> b)) as Hb.
  { unfold hex_bytes. induction b as [|x b IH]; [done|]. rewrite fmap_cons, !bind_cons, IH.
    f_equal. assert (x mod 256 / 16 mod 16 = x / 16 mod 16 ∧ x mod 256 mod 16 = x mod 16) as [-> ->];
      [|done]. change 256 with (16 * 16). rewrite N.Div0.mod_mul_r. split.
    - rewrite N.add_comm, N.mul_comm, N.div_add_l by done.
      rewrite (N.div_small (x mod 16)), N.add_0_r by (apply N.mod_lt; done).
      by rewrite N.Div0.mod_mod.
    - rewrite N.mul_comm, N.Div0.mod_add. by rewrite N.Div0.mod_mod. }
  exists ((λ x, x mod 256) <$> b). split; [rewrite Hb|done].
  apply unhex_hex_bytes, Forall_fmap, Forall_true. intros x. by apply N.mod_lt.
Qed.

Lemma toy_argon2_laws : @Argon2Laws toy_argon2.
Proof.
  intros password salt h. simpl. intros [= <-]. rewrite as_hex_encode.
  destruct (unhex_hex_mod password) as (c & -> & Hc). exists c. split; [done|].
  by apply bool_decide_eq_true.
Qed.

End Toy.
