(* ===== verification/F32.v ===== *)
(** * [f32]

    IEEE 754 binary32 as specified by the Standard Library's [SpecFloat]: 24 bits of
    precision, exponents below 128, round to nearest even. A float that is not a NaN
    is compared through [f32_key], which makes the order total. *)

From Stdlib Require Import SpecFloat.
From S2P Require Import Prelude.

Abbreviation f32 := spec_float.

(** [n as f32] *)
Definition f32_of_N (n : N) : f32 := binary_normalize 24 128 (Z.of_N n) 0 false.

Definition f32_add : f32 → f32 → f32 := SFadd 24 128.
Definition f32_sub : f32 → f32 → f32 := SFsub 24 128.
Definition f32_div : f32 → f32 → f32 := SFdiv 24 128.
Definition f32_is_nan (x : f32) : bool := match x with S754_nan => true | _ => false end.

(** [partial_cmp] *)
Definition f32_compare : f32 → f32 → option comparison := SFcompare.

(** [x.min(y)] and [x.max(y)]: a NaN loses to the other operand. *)
Definition f32_min (x y : f32) : f32 :=
  match f32_compare x y with
  | Some Gt => y
  | Some _ => x
  | None => if f32_is_nan x then y else x
  end.

Definition f32_max (x y : f32) : f32 :=
  match f32_compare x y with
  | Some Lt => y
  | Some _ => x
  | None => if f32_is_nan x then y else x
  end.

(** [x.clamp(lo, hi)] *)
Definition f32_clamp (x lo hi : f32) : f32 :=
  let y := match f32_compare x lo with Some Lt => lo | _ => x end in
  match f32_compare y hi with Some Gt => hi | _ => y end.

(** [x as u64]: truncation, saturating; a NaN is 0. *)
Definition f32_as_u64 (x : f32) : N :=
  match x with
  | S754_infinity false => u64_max
  | S754_finite false m e =>
      let v := if (0 <=? e)%Z then Npos m * 2 ^ Z.to_N e else Npos m / 2 ^ Z.to_N (- e) in
      N.min v u64_max
  | _ => 0
  end.

(** ** The order on floats that are not NaN

    A float is compared as the triple of its class, exponent and mantissa, the last
    two negated for a negative number. *)

Definition f32_key (x : f32) : Z * (Z * Z) :=
  match x with
  | S754_infinity true => (-2, (0, 0))
  | S754_finite true m e => (-1, (- e, - Zpos m))
  | S754_zero _ | S754_nan => (0, (0, 0))
  | S754_finite false m e => (1, (e, Zpos m))
  | S754_infinity false => (2, (0, 0))
  end%Z.

#[export] Instance Z_compare_laws : CmpLaws Z.compare.
Proof.
  split.
  - intros x y. apply Z.compare_antisym.
  - intros x y z. apply Z.le_trans.
Qed.

Definition f32_key_cmp : Z * (Z * Z) → Z * (Z * Z) → comparison :=
  cmp_lex (cmp_by fst Z.compare)
    (cmp_lex (cmp_by (λ k, k.2.1) Z.compare) (cmp_by (λ k, k.2.2) Z.compare)).

#[export] Instance f32_key_cmp_laws : CmpLaws f32_key_cmp.
Proof. unfold f32_key_cmp. apply _. Qed.

Lemma f32_compare_key x y :
  f32_is_nan x = false → f32_is_nan y = false →
  f32_compare x y = Some (f32_key_cmp (f32_key x) (f32_key y)).
Proof.
  unfold f32_key_cmp, cmp_lex, cmp_by.
  destruct x as [[]|[]| |[] mx ex], y as [[]|[]| |[] my ey]; try done; intros _ _; simpl;
    rewrite ?Z.compare_refl; try done; f_equal.
  - rewrite Z.compare_opp, (Z.compare_antisym ex ey). by destruct (ex ?= ey)%Z.
  - by destruct (ex ?= ey)%Z.
Qed.
