(* ===== verification/Governance.v ===== *)
(** * Signed governance (crates/mls-core/src/governance.rs)

    Room roles, bans, invite revocations, per-author retention and member devices
    change only through signed, epoch-bound events. The file models the event
    transcript and its signature, the canonical order, the log, and the resolved
    state with its authority rules; the theorems cover the well-formedness
    invariant over every reachable state, who may change a role, that the batch
    resolver does not depend on arrival order, and that the signed transcript
    determines the event. *)

From S2P Require Import Prelude Collections Bytes Crypto.

Abbreviation LeafIndex := N.

Inductive Role := Owner | Admin | Member.

Inductive GovernanceAction :=
| SetRole (target : LeafIndex) (role : Role)
| RevokeInvite (invite_id : string)
| SetRetentionSeconds (author : LeafIndex) (seconds : option N)
| Ban (target : LeafIndex)
| AddDevice (owner : LeafIndex) (device_id : string)
| RemoveDevice (owner : LeafIndex) (device_id : string).

Inductive GovernanceError :=
| InvalidSignature
| OutOfEpoch
| Unauthorized
| EvictedCommitter.

#[export] Instance Role_eq_dec : EqDecision Role.
Proof. solve_decision. Defined.
#[export] Instance GovernanceAction_eq_dec : EqDecision GovernanceAction.
Proof. solve_decision. Defined.
#[export] Instance GovernanceError_eq_dec : EqDecision GovernanceError.
Proof. solve_decision. Defined.

Record GovernanceEvent := {
  ge_epoch : N;
  ge_committer : LeafIndex;
  ge_action : GovernanceAction;
  ge_signer_public_key : bytes;
  ge_signature : bytes
}.

(** ** The signed transcript *)

Definition role_byte (r : Role) : N :=
  match r with Owner => 0 | Admin => 1 | Member => 2 end.

Definition append_governance_action_bytes (b : bytes) (action : GovernanceAction) : bytes :=
  match action with
  | SetRole target role => b ++ [0] ++ le_u32 target ++ [role_byte role]
  | RevokeInvite invite_id =>
      b ++ [1] ++ le_u64 (str_len invite_id) ++ as_bytes invite_id
  | SetRetentionSeconds author seconds =>
      b ++ [2] ++ le_u32 author ++
      match seconds with Some s => [1] ++ le_u64 s | None => [0] end
  | Ban target => b ++ [3] ++ le_u32 target
  | AddDevice owner device_id =>
      b ++ [4] ++ le_u32 owner ++ le_u64 (str_len device_id) ++ as_bytes device_id
  | RemoveDevice owner device_id =>
      b ++ [5] ++ le_u32 owner ++ le_u64 (str_len device_id) ++ as_bytes device_id
  end.

Definition canonical_signing_bytes (epoch : N) (committer : LeafIndex)
    (action : GovernanceAction) (signer_public_key : bytes) : bytes :=
  append_governance_action_bytes
    (as_bytes "discrypt-governance-event" ++ [1] ++ le_u64 epoch ++ le_u32 committer ++
     le_u64 (len signer_public_key) ++ signer_public_key)
    action.

Definition signing_bytes (ev : GovernanceEvent) : bytes :=
  canonical_signing_bytes (ge_epoch ev) (ge_committer ev) (ge_action ev)
    (ge_signer_public_key ev).

Section crypto.
Context `{Sha256, Ed25519}.

Definition signed_by (epoch : N) (committer : LeafIndex) (action : GovernanceAction)
    (k : signing_key) : GovernanceEvent :=
  let signer_public_key := vk_to_bytes (vk_of k) in
  {| ge_epoch := epoch;
     ge_committer := committer;
     ge_action := action;
     ge_signer_public_key := signer_public_key;
     ge_signature := sig_to_bytes
       (sign k (canonical_signing_bytes epoch committer action signer_public_key)) |}.

Definition content_hash (ev : GovernanceEvent) : bytes := sha256 (signing_bytes ev).

Definition verify_signature (ev : GovernanceEvent) : result unit GovernanceError :=
  check reject_if (negb (length (ge_signer_public_key ev) =? 32)%nat) InvalidSignature in
  let* vk := ok_or (vk_from_bytes (ge_signer_public_key ev)) InvalidSignature in
  let* s := ok_or (sig_from_slice (ge_signature ev)) InvalidSignature in
  reject_if (negb (vk_verify vk (signing_bytes ev) s)) InvalidSignature.

Definition signature_valid (ev : GovernanceEvent) : bool := is_ok (verify_signature ev).

(** ** Canonical order *)

Record CanonicalEventRef := {
  cr_epoch : N;
  cr_committer : LeafIndex;
  cr_content_hash : bytes
}.

Definition canonical_ref (ev : GovernanceEvent) : CanonicalEventRef :=
  {| cr_epoch := ge_epoch ev;
     cr_committer := ge_committer ev;
     cr_content_hash := content_hash ev |}.

Definition canonical_ref_cmp : CanonicalEventRef → CanonicalEventRef → comparison :=
  cmp_lex (cmp_by cr_epoch N.compare)
    (cmp_lex (cmp_by cr_committer N.compare)
       (cmp_by cr_content_hash (cmp_list N.compare))).

Definition order_governance_events (events : list GovernanceEvent) : list GovernanceEvent :=
  sort_by (cmp_by canonical_ref canonical_ref_cmp) events.

Record GovernanceLog := { gl_events : list GovernanceEvent }.

Definition GovernanceLog_append (log : GovernanceLog) (ev : GovernanceEvent) : GovernanceLog :=
  {| gl_events := order_governance_events (gl_events log ++ [ev]) |}.

(** ** Resolved state *)

Record GovernanceState := {
  gs_epoch : N;
  gs_roles : gmap LeafIndex Role;
  gs_banned : gset LeafIndex;
  gs_revoked_invites : gset string;
  gs_retention_seconds : gmap LeafIndex (option N);
  gs_member_devices : gmap LeafIndex (gset string)
}.

Definition GovernanceState_new (epoch : N) (owner : LeafIndex) : GovernanceState :=
  {| gs_epoch := epoch;
     gs_roles := {[owner := Owner]};
     gs_banned := ∅;
     gs_revoked_invites := ∅;
     gs_retention_seconds := ∅;
     gs_member_devices := ∅ |}.

Definition role (st : GovernanceState) (leaf : LeafIndex) : option Role :=
  gs_roles st !! leaf.

Definition is_banned (st : GovernanceState) (leaf : LeafIndex) : bool :=
  bool_decide (leaf ∈ gs_banned st).

Definition invite_revoked (st : GovernanceState) (invite_id : string) : bool :=
  bool_decide (invite_id ∈ gs_revoked_invites st).

Definition retention_seconds (st : GovernanceState) (author : LeafIndex) : option (option N) :=
  gs_retention_seconds st !! author.

Definition device_active (st : GovernanceState) (owner : LeafIndex) (device_id : string) : bool :=
  match gs_member_devices st !! owner with
  | Some devices => bool_decide (device_id ∈ devices)
  | None => false
  end.

Definition target_leaf (action : GovernanceAction) : LeafIndex :=
  match action with
  | SetRole target _ | Ban target => target
  | SetRetentionSeconds author _ | AddDevice author _ | RemoveDevice author _ => author
  | RevokeInvite _ => u32_max
  end.

Definition admin_authorized (st : GovernanceState) (committer : LeafIndex)
    (action : GovernanceAction) : bool :=
  match action with
  | SetRole _ _ => false
  | RevokeInvite _ => true
  | SetRetentionSeconds author _ =>
      (author =? committer) || bool_decide (role st author = Some Member)
  | Ban target => bool_decide (role st target = Some Member)
  | AddDevice owner _ | RemoveDevice owner _ =>
      (owner =? committer) || bool_decide (role st owner = Some Member)
  end.

Definition member_authorized (committer : LeafIndex) (action : GovernanceAction) : bool :=
  match action with
  | SetRetentionSeconds author _ => author =? committer
  | AddDevice owner _ | RemoveDevice owner _ => owner =? committer
  | SetRole _ _ | RevokeInvite _ | Ban _ => false
  end.

Definition authorized (st : GovernanceState) (committer : LeafIndex)
    (action : GovernanceAction) : bool :=
  if is_banned st (target_leaf action) then false
  else match role st committer with
       | Some Owner => true
       | Some Admin => admin_authorized st committer action
       | Some Member => member_authorized committer action
       | None => false
       end.

(** The state change of an accepted action. *)
Definition apply_action (st : GovernanceState) (action : GovernanceAction) : GovernanceState :=
  let '{| gs_epoch := e; gs_roles := roles; gs_banned := banned;
          gs_revoked_invites := revoked; gs_retention_seconds := retention;
          gs_member_devices := devices |} := st in
  match action with
  | SetRole target r =>
      Build_GovernanceState e (<[target := r]> roles) banned revoked retention devices
  | RevokeInvite invite_id =>
      Build_GovernanceState e roles banned ({[invite_id]} ∪ revoked) retention devices
  | SetRetentionSeconds author seconds =>
      Build_GovernanceState e roles banned revoked (<[author := seconds]> retention) devices
  | Ban target =>
      Build_GovernanceState e (delete target roles) ({[target]} ∪ banned) revoked retention
        (delete target devices)
  | AddDevice owner device_id =>
      Build_GovernanceState e roles banned revoked retention
        (<[owner := {[device_id]} ∪ default ∅ (devices !! owner)]> devices)
  | RemoveDevice owner device_id =>
      Build_GovernanceState e roles banned revoked retention
        (match devices !! owner with
         | Some ds => <[owner := ds ∖ {[device_id]}]> devices
         | None => devices
         end)
  end.

Definition apply_event_with_evicted_set (st : GovernanceState) (ev : GovernanceEvent)
    (evicted_this_epoch : gset LeafIndex) : GovernanceState * result unit GovernanceError :=
  match verify_signature ev with
  | Err e => (st, Err e)
  | Ok _ =>
      if negb (ge_epoch ev =? gs_epoch st) then (st, Err OutOfEpoch)
      else if is_banned st (ge_committer ev)
              || bool_decide (ge_committer ev ∈ evicted_this_epoch)
      then (st, Err EvictedCommitter)
      else if negb (authorized st (ge_committer ev) (ge_action ev))
      then (st, Err Unauthorized)
      else (apply_action st (ge_action ev), Ok tt)
  end.

Definition apply_event (st : GovernanceState) (ev : GovernanceEvent) :
    GovernanceState * result unit GovernanceError :=
  apply_event_with_evicted_set st ev ∅.

(** The [map] over the ordered events, threading [&mut self]. *)
Fixpoint apply_ordered (evicted : gset LeafIndex) (st : GovernanceState)
    (events : list GovernanceEvent) : GovernanceState * list (result unit GovernanceError) :=
  match events with
  | [] => (st, [])
  | ev :: rest =>
      let '(st1, r) := apply_event_with_evicted_set st ev evicted in
      let '(st2, rs) := apply_ordered evicted st1 rest in
      (st2, r :: rs)
  end.

Definition ban_target_in_epoch (epoch : N) (ev : GovernanceEvent) : option LeafIndex :=
  match ge_action ev with
  | Ban target => if ge_epoch ev =? epoch then Some target else None
  | _ => None
  end.

Definition resolve_epoch_events (st : GovernanceState) (events : list GovernanceEvent) :
    GovernanceState * list (result unit GovernanceError) :=
  let events := order_governance_events events in
  let evicted_this_epoch : gset LeafIndex :=
    list_to_set (omap (ban_target_in_epoch (gs_epoch st)) events) in
  apply_ordered evicted_this_epoch st events.
End crypto.

(** ** Lemmas on one event *)

Section proofs.
Context `{Sha256, Ed25519}.
Implicit Types (st : GovernanceState) (ev : GovernanceEvent).

(** The guards an accepted event passed. *)
Definition accepted st ev (evicted : gset LeafIndex) : Prop :=
  verify_signature ev = Ok tt ∧ ge_epoch ev = gs_epoch st ∧
  ge_committer ev ∉ gs_banned st ∧ ge_committer ev ∉ evicted ∧
  authorized st (ge_committer ev) (ge_action ev) = true.

Lemma apply_event_ok_inv st ev evicted st' :
  apply_event_with_evicted_set st ev evicted = (st', Ok tt) →
  accepted st ev evicted ∧ st' = apply_action st (ge_action ev).
Proof.
  unfold apply_event_with_evicted_set, accepted, is_banned.
  destruct (verify_signature ev) as [[]|]; [|done].
  case_all; intros; simplify_eq.
  rewrite negb_false_iff, N.eqb_eq in *.
  rewrite orb_false_iff, !bool_decide_eq_false in *. naive_solver.
Qed.

Lemma apply_event_err_inv st ev evicted st' e :
  apply_event_with_evicted_set st ev evicted = (st', Err e) → st' = st.
Proof. unfold apply_event_with_evicted_set. case_all; intros; by simplify_eq. Qed.

Lemma apply_event_cases st ev evicted :
  (apply_event_with_evicted_set st ev evicted =
     (apply_action st (ge_action ev), Ok tt) ∧ accepted st ev evicted) ∨
  ∃ e, apply_event_with_evicted_set st ev evicted = (st, Err e).
Proof.
  destruct (apply_event_with_evicted_set st ev evicted) as [st' [[]|e]] eqn:E.
  - left. apply apply_event_ok_inv in E as HE. destruct HE as [? ->]. done.
  - right. exists e. by apply apply_event_err_inv in E as ->.
Qed.

Lemma authorized_target_not_banned st committer action :
  authorized st committer action = true → target_leaf action ∉ gs_banned st.
Proof.
  unfold authorized, is_banned. case_bool_decide; [done|]. done.
Qed.

Lemma authorized_has_role st committer action :
  authorized st committer action = true → is_Some (role st committer).
Proof. unfold authorized. case_all; eauto. Qed.

(** ** The invariant: a banned leaf holds no role and no device *)

Definition governance_wf st : Prop :=
  ∀ leaf, leaf ∈ gs_banned st →
    gs_roles st !! leaf = None ∧ gs_member_devices st !! leaf = None.

Lemma GovernanceState_new_wf epoch owner : governance_wf (GovernanceState_new epoch owner).
Proof. intros leaf. set_solver. Qed.

Lemma apply_action_wf st committer action :
  governance_wf st → authorized st committer action = true →
  governance_wf (apply_action st action).
Proof.
  intros Hwf Hauth%authorized_target_not_banned.
  destruct st as [e roles banned revoked retention devices]; simpl in *.
  intros leaf Hleaf. pose proof (Hwf leaf) as Hl. simpl in *.
  destruct action; simpl in *; rewrite ?lookup_insert_ne by set_solver; auto.
  - destruct (decide (leaf = target)) as [->|].
    + by rewrite !lookup_delete_eq.
    + rewrite !lookup_delete_ne by done. apply Hl. set_solver.
  - case_match; rewrite ?lookup_insert_ne by set_solver; auto.
Qed.

Lemma apply_event_wf st ev evicted :
  governance_wf st → governance_wf (apply_event_with_evicted_set st ev evicted).1.
Proof.
  intros Hwf. destruct (apply_event_cases st ev evicted) as [[-> Hacc]|[e ->]]; [|done].
  eapply apply_action_wf; [done|apply Hacc].
Qed.

Lemma apply_ordered_ind (P : GovernanceState → Prop) evicted st events :
  (∀ st ev, P st → P (apply_event_with_evicted_set st ev evicted).1) →
  P st → P (apply_ordered evicted st events).1.
Proof.
  intros Hstep. revert st. induction events as [|ev rest IH]; intros st HP; simpl; [done|].
  specialize (Hstep st ev HP).
  destruct (apply_event_with_evicted_set st ev evicted) as [st1 r] eqn:E1.
  specialize (IH st1 Hstep). by destruct (apply_ordered evicted st1 rest).
Qed.

(** ** Monotonicity *)

(** What every later state keeps: the epoch, the bans, the revocations. *)
Definition gov_extends st st' : Prop :=
  gs_epoch st' = gs_epoch st ∧ gs_banned st ⊆ gs_banned st' ∧
  gs_revoked_invites st ⊆ gs_revoked_invites st'.

#[export] Instance gov_extends_preorder : PreOrder gov_extends.
Proof.
  split; unfold gov_extends; [done|].
  intros x y z (He & Hb & Hr) (He' & Hb' & Hr').
  split_and!; [congruence|by etransitivity..].
Qed.

Lemma apply_action_extends st action : gov_extends st (apply_action st action).
Proof. destruct st, action; unfold gov_extends; simpl; split_and!; set_solver. Qed.

Lemma apply_event_extends st ev evicted :
  gov_extends st (apply_event_with_evicted_set st ev evicted).1.
Proof.
  destruct (apply_event_cases st ev evicted) as [[-> _]|[e ->]]; simpl; [|done].
  apply apply_action_extends.
Qed.

Lemma apply_ordered_extends evicted st events :
  gov_extends st (apply_ordered evicted st events).1.
Proof.
  apply (apply_ordered_ind (gov_extends st)); [|done].
  intros st1 ev Hext. etransitivity; [done|apply apply_event_extends].
Qed.

(** ** Reachable states

    A state evolves by applying one event, resolving a batch, or moving to the
    next accepted epoch (the public [epoch] field is written by the owner of the
    state when an MLS commit is accepted). *)

Definition with_epoch (e : N) st : GovernanceState :=
  Build_GovernanceState e (gs_roles st) (gs_banned st) (gs_revoked_invites st)
    (gs_retention_seconds st) (gs_member_devices st).

Inductive gov_step : GovernanceState → GovernanceState → Prop :=
| step_apply st ev : gov_step st (apply_event st ev).1
| step_resolve st events : gov_step st (resolve_epoch_events st events).1
| step_epoch st e : gov_step st (with_epoch e st).

Lemma gov_step_wf st st' : gov_step st st' → governance_wf st → governance_wf st'.
Proof.
  intros [s ev|s events|s e] Hwf.
  - by apply apply_event_wf.
  - apply (apply_ordered_ind governance_wf); [|done]. intros; by apply apply_event_wf.
  - exact Hwf.
Qed.

Lemma gov_step_banned st st' : gov_step st st' → gs_banned st ⊆ gs_banned st'.
Proof.
  intros [s ev|s events|s e].
  - apply apply_event_extends.
  - apply apply_ordered_extends.
  - done.
Qed.

Lemma gov_steps_wf st st' :
  rtc gov_step st st' → governance_wf st → governance_wf st'.
Proof. induction 1; eauto using gov_step_wf. Qed.

Lemma gov_steps_banned st st' : rtc gov_step st st' → gs_banned st ⊆ gs_banned st'.
Proof.
  induction 1 as [|st1 st2 st3 Hstep _ IH]; [done|].
  etransitivity; [by apply gov_step_banned|done].
Qed.
End proofs.

(** ** The transcript determines the event *)

Section transcript.

(** The values fit their machine types. *)
Definition action_in_range (action : GovernanceAction) : Prop :=
  match action with
  | SetRole target _ | Ban target => target < 2 ^ 32
  | RevokeInvite invite_id => str_len invite_id < 2 ^ 64
  | SetRetentionSeconds author seconds =>
      author < 2 ^ 32 ∧ ∀ s, seconds = Some s → s < 2 ^ 64
  | AddDevice owner device_id | RemoveDevice owner device_id =>
      owner < 2 ^ 32 ∧ str_len device_id < 2 ^ 64
  end.

Definition event_in_range (ev : GovernanceEvent) : Prop :=
  ge_epoch ev < 2 ^ 64 ∧ ge_committer ev < 2 ^ 32 ∧
  len (ge_signer_public_key ev) < 2 ^ 64 ∧ action_in_range (ge_action ev).

Lemma append_action_app (b : bytes) action :
  append_governance_action_bytes b action =
  b ++ append_governance_action_bytes [] action.
Proof. by destruct action. Qed.

#[export] Instance role_byte_inj : Inj (=) (=) role_byte.
Proof. by intros [] []. Qed.

Lemma le_framed_str_inj (s t : string) :
  str_len s < 2 ^ 64 → str_len t < 2 ^ 64 →
  le_u64 (str_len s) ++ as_bytes s = le_u64 (str_len t) ++ as_bytes t → s = t.
Proof.
  intros Hs Ht [_ H]%le_bytes_app_inj; [|done..]. by apply (inj as_bytes).
Qed.

Lemma action_bytes_inj a b :
  action_in_range a → action_in_range b →
  append_governance_action_bytes [] a = append_governance_action_bytes [] b → a = b.
Proof.
  destruct a, b; cbn [append_governance_action_bytes app action_in_range];
    intros Ha Hb Heq; try discriminate; apply cons_app_inj in Heq as [_ Heq].
  - apply le_bytes_app_inj in Heq as [-> [= Hr]]; [|done..].
    f_equal. by apply (inj role_byte).
  - f_equal. by apply le_framed_str_inj.
  - destruct Ha as [Ha Hsa], Hb as [Hb Hsb].
    apply le_bytes_app_inj in Heq as [-> Heq]; [|done..]. f_equal.
    destruct seconds as [s|], seconds0 as [t|]; try discriminate; [|done].
    apply cons_app_inj in Heq as [_ Heq]. f_equal.
    apply (le_bytes_inj 8); [by apply Hsa|by apply Hsb|done].
  - f_equal. by apply (le_bytes_inj 4).
  - destruct Ha, Hb. apply le_bytes_app_inj in Heq as [-> Heq]; [|done..].
    f_equal. by apply le_framed_str_inj.
  - destruct Ha, Hb. apply le_bytes_app_inj in Heq as [-> Heq]; [|done..].
    f_equal. by apply le_framed_str_inj.
Qed.

Lemma signing_bytes_inj e1 c1 a1 k1 e2 c2 a2 k2 :
  e1 < 2 ^ 64 → e2 < 2 ^ 64 → c1 < 2 ^ 32 → c2 < 2 ^ 32 →
  len k1 < 2 ^ 64 → len k2 < 2 ^ 64 → action_in_range a1 → action_in_range a2 →
  canonical_signing_bytes e1 c1 a1 k1 = canonical_signing_bytes e2 c2 a2 k2 →
  e1 = e2 ∧ c1 = c2 ∧ a1 = a2 ∧ k1 = k2.
Proof.
  intros He1 He2 Hc1 Hc2 Hk1 Hk2 Ha1 Ha2. unfold canonical_signing_bytes.
  rewrite (append_action_app _ a1), (append_action_app _ a2), <- !(assoc (++)).
  intros [_ Heq]%fixed_app_inj; [|done]. apply fixed_app_inj in Heq as [_ Heq]; [|done].
  apply le_bytes_app_inj in Heq as [-> Heq]; [|done..].
  apply le_bytes_app_inj in Heq as [-> Heq]; [|done..].
  apply le_framed_app_inj in Heq as [-> Heq]; [|done..].
  split_and!; try done. by apply action_bytes_inj.
Qed.
End transcript.

(** ** Properties *)

Section properties.
Context `{Sha256, Ed25519}.
Implicit Types (st : GovernanceState) (ev : GovernanceEvent).

#[local] Instance canonical_ref_cmp_laws : CmpLaws canonical_ref_cmp.
Proof. unfold canonical_ref_cmp. apply _. Qed.

Lemma canonical_ref_cmp_eq r1 r2 : canonical_ref_cmp r1 r2 = Eq → r1 = r2.
Proof.
  intros [H1 [H2 H3]%cmp_lex_eq_inv]%cmp_lex_eq_inv. destruct r1, r2.
  unfold cmp_by in *; simpl in *. f_equal.
  - by apply N.compare_eq.
  - by apply N.compare_eq.
  - by apply (cmp_eq (cmp := cmp_list N.compare)).
Qed.

(** No two events of the batch share a canonical reference. *)
Definition distinct_refs (events : list GovernanceEvent) : Prop :=
  ∀ x y, x ∈ events → y ∈ events → canonical_ref x = canonical_ref y → x = y.

Lemma order_governance_events_perm l k :
  l ≡ₚ k → distinct_refs l → order_governance_events l = order_governance_events k.
Proof.
  intros Hp Hd. apply sort_by_unique; [apply _|done|].
  intros x y Hx Hy Hxy. apply Hd; [done..|]. by apply canonical_ref_cmp_eq.
Qed.

Lemma resolve_perm st l k :
  l ≡ₚ k → distinct_refs l → resolve_epoch_events st l = resolve_epoch_events st k.
Proof.
  intros Hp Hd. unfold resolve_epoch_events. by rewrite (order_governance_events_perm l k).
Qed.

Lemma apply_event_banned_committer st ev :
  ge_committer ev ∈ gs_banned st → ∃ e, apply_event st ev = (st, Err e).
Proof.
  intros Hb. destruct (apply_event_cases st ev ∅) as [[_ Hacc]|He]; [|done].
  by destruct Hacc as (_ & _ & Hn & _).
Qed.

Lemma ban_target_evicted st events target b :
  b ∈ events → ge_action b = Ban target → ge_epoch b = gs_epoch st →
  target ∈ (list_to_set (omap (ban_target_in_epoch (gs_epoch st))
    (order_governance_events events)) : gset LeafIndex).
Proof.
  intros Hb Hact Hep. rewrite elem_of_list_to_set, list_elem_of_omap.
  exists b. split; [by apply elem_of_sort_by|].
  unfold ban_target_in_epoch. by rewrite Hact, Hep, N.eqb_refl.
Qed.

(** Every result of a batch, with the state it was computed in. *)
Lemma apply_ordered_results evicted st events ev r :
  (ev, r) ∈ zip events (apply_ordered evicted st events).2 →
  ∃ st1, gov_extends st st1 ∧ (apply_event_with_evicted_set st1 ev evicted).2 = r.
Proof.
  revert st. induction events as [|ev1 rest IH]; intros st; simpl; [set_solver|].
  destruct (apply_event_with_evicted_set st ev1 evicted) as [st1 r1] eqn:E1.
  specialize (IH st1). pose proof (apply_event_extends st ev1 evicted) as Hext.
  rewrite E1 in Hext; simpl in Hext.
  destruct (apply_ordered evicted st1 rest) as [st2 rs]; simpl in *.
  intros [[= -> ->]|Hin]%elem_of_cons.
  - exists st. by rewrite E1.
  - destruct (IH Hin) as (st3 & ? & ?). exists st3. split; [by etransitivity|done].
Qed.

Lemma apply_ordered_all_rejected evicted st events :
  (∀ ev, ev ∈ events → ∃ e, apply_event_with_evicted_set st ev evicted = (st, Err e)) →
  (apply_ordered evicted st events).1 = st ∧
  Forall (λ r, is_ok r = false) (apply_ordered evicted st events).2.
Proof.
  induction events as [|ev rest IH]; intros Hrej; simpl; [done|].
  destruct (Hrej ev) as [e ->]; [set_solver|].
  destruct IH as [IH1 IH2]; [set_solver|].
  destruct (apply_ordered evicted st rest) as [st2 rs]; simpl in *. by split; [|constructor].
Qed.

Lemma evicted_rejected st ev evicted :
  ge_committer ev ∈ evicted → ∃ e, apply_event_with_evicted_set st ev evicted = (st, Err e).
Proof.
  intros Hin. destruct (apply_event_cases st ev evicted) as [[_ Hacc]|He]; [|done].
  by destruct Hacc as (_ & _ & _ & Hn & _).
Qed.

Lemma unauthorized_rejected st ev evicted :
  authorized st (ge_committer ev) (ge_action ev) = false →
  ∃ e, apply_event_with_evicted_set st ev evicted = (st, Err e).
Proof.
  intros Ha. destruct (apply_event_cases st ev evicted) as [[_ Hacc]|He]; [|done].
  destruct Hacc as (_ & _ & _ & _ & Hn). congruence.
Qed.

Lemma verify_signed_by `{!Ed25519Laws} epoch committer action k :
  verify_signature (signed_by epoch committer action k) = Ok tt.
Proof.
  unfold verify_signature, signed_by; simpl.
  rewrite vk_to_bytes_length, vk_from_to_bytes; simpl.
  rewrite sig_from_slice_to_bytes; simpl.
  unfold signing_bytes; simpl. by rewrite vk_verify_sign.
Qed.

Lemma apply_signed_by `{!Ed25519Laws} st committer action k :
  committer ∉ gs_banned st →
  apply_event st (signed_by (gs_epoch st) committer action k) =
    if authorized st committer action then (apply_action st action, Ok tt)
    else (st, Err Unauthorized).
Proof.
  intros Hb. unfold apply_event, apply_event_with_evicted_set, is_banned.
  rewrite verify_signed_by; simpl. rewrite N.eqb_refl; simpl.
  rewrite !bool_decide_eq_false_2 by set_solver; simpl.
  by destruct (authorized _ _ _).
Qed.
End properties.

(** ** Claims *)

Section claims.
Context `{Sha256, Ed25519}.
Implicit Types (st : GovernanceState) (ev : GovernanceEvent).

(** C1. A ban is permanent. Take any state reachable from a fresh room by applying
    events, resolving batches and changing epoch; if a leaf is banned in it, then in
    every state reachable from there the leaf is still banned, has no role and no
    active device, and every event it commits is rejected without changing the
    state. *)
Theorem ban_is_permanent epoch owner st st' leaf :
  rtc gov_step (GovernanceState_new epoch owner) st →
  leaf ∈ gs_banned st →
  rtc gov_step st st' →
  is_banned st' leaf = true ∧ role st' leaf = None ∧
  (∀ d, device_active st' leaf d = false) ∧
  ∀ ev, ge_committer ev = leaf → ∃ e, apply_event st' ev = (st', Err e).
Proof.
  intros H1 Hb H2.
  assert (leaf ∈ gs_banned st') as Hb' by (by eapply gov_steps_banned).
  assert (governance_wf st') as Hwf.
  { eapply gov_steps_wf; [done|]. eapply gov_steps_wf; [done|]. apply GovernanceState_new_wf. }
  destruct (Hwf leaf Hb') as [Hr Hd]. split_and!.
  - by apply bool_decide_eq_true.
  - done.
  - intros d. unfold device_active. by rewrite Hd.
  - intros ev <-. by apply apply_event_banned_committer.
Qed.

(** C2. Who may change a role: if an accepted event changes the role of [leaf], then
    either it is a [SetRole] of [leaf] committed by an owner, or it is a [Ban] of
    [leaf] committed by an owner or, when [leaf] is a plain member, by an admin; the
    committer is not banned and the event carries a valid signature for the current
    epoch. *)
Theorem role_change_authority st ev st' leaf :
  apply_event st ev = (st', Ok tt) →
  role st' leaf ≠ role st leaf →
  verify_signature ev = Ok tt ∧ ge_epoch ev = gs_epoch st ∧
  is_banned st (ge_committer ev) = false ∧
  ((∃ r, ge_action ev = SetRole leaf r ∧ role st' leaf = Some r ∧
         role st (ge_committer ev) = Some Owner) ∨
   (ge_action ev = Ban leaf ∧ role st' leaf = None ∧
     (role st (ge_committer ev) = Some Owner ∨
      (role st (ge_committer ev) = Some Admin ∧ role st leaf = Some Member)))).
Proof.
  intros [(Hs & He & Hb & _ & Ha) ->]%apply_event_ok_inv Hne.
  split_and!; [done..|by apply bool_decide_eq_false|].
  unfold authorized in Ha. destruct (is_banned st _); [done|].
  destruct st as [e roles banned revoked retention devices], (ge_action ev);
    unfold role in *; simpl in *; try done.
  - destruct (decide (target = leaf)) as [->|]; [|by rewrite lookup_insert_ne in Hne].
    left. exists role0. rewrite lookup_insert_eq. by case_all.
  - destruct (decide (target = leaf)) as [->|]; [|by rewrite lookup_delete_ne in Hne].
    right. rewrite lookup_delete_eq. split_and!; [done..|].
    case_all; [by left|]. right. by rewrite bool_decide_eq_true in Ha.
Qed.

(** C31. Batch resolution is independent of arrival order: two batches with the same
    events, no two of which share a canonical reference, give the same state and the
    same results. *)
Theorem resolve_order_independent st events events' :
  events ≡ₚ events' →
  distinct_refs events →
  resolve_epoch_events st events = resolve_epoch_events st events'.
Proof. apply resolve_perm. Qed.

(** The signed transcript binds the event: an event built by [signed_by] verifies,
    and any event whose transcript equals its transcript has the same epoch,
    committer, action and signer key. *)
Theorem governance_signature_binds `{!Ed25519Laws} epoch committer action k ev :
  event_in_range (signed_by epoch committer action k) →
  event_in_range ev →
  signing_bytes ev = signing_bytes (signed_by epoch committer action k) →
  verify_signature (signed_by epoch committer action k) = Ok tt ∧
  ge_epoch ev = epoch ∧ ge_committer ev = committer ∧ ge_action ev = action ∧
  ge_signer_public_key ev = vk_to_bytes (vk_of k).
Proof.
  intros (He & Hc & Hk & Ha) (He' & Hc' & Hk' & Ha') Heq.
  split; [apply verify_signed_by|].
  by apply signing_bytes_inj in Heq.
Qed.

(** The batch resolver collects ban targets before any check, so a ban that is
    itself rejected still evicts: an owner's event that is accepted on its own is
    rejected when the batch also holds a plain member's (unauthorized) ban of the
    owner, and the batch leaves the state unchanged. *)
Theorem unauthorized_ban_silences_owner `{!Ed25519Laws} st owner member action k k' :
  role st owner = Some Owner →
  role st member = Some Member →
  owner ∉ gs_banned st →
  member ∉ gs_banned st →
  authorized st owner action = true →
  let o := signed_by (gs_epoch st) owner action k in
  let b := signed_by (gs_epoch st) member (Ban owner) k' in
  (apply_event st o).2 = Ok tt ∧
  (apply_event st b).2 = Err Unauthorized ∧
  (resolve_epoch_events st [o; b]).1 = st ∧
  Forall (λ r, is_ok r = false) (resolve_epoch_events st [o; b]).2.
Proof.
  intros Ho Hm Hbo Hbm Ha o b.
  assert (authorized st member (Ban owner) = false) as Hab.
  { unfold authorized, is_banned; simpl. by rewrite bool_decide_eq_false_2, Hm. }
  assert (∀ ev, ev ∈ order_governance_events [o; b] → ∃ e,
    apply_event_with_evicted_set st ev
      (list_to_set (omap (ban_target_in_epoch (gs_epoch st))
        (order_governance_events [o; b]))) = (st, Err e)) as Hrej.
  { intros ev Hev. apply elem_of_sort_by in Hev.
    apply elem_of_cons in Hev as [->|[->|Hev]%elem_of_cons]; [| |set_solver].
    - apply evicted_rejected. apply (ban_target_evicted st [o; b] owner b); [|done..].
      by right; left.
    - by apply unauthorized_rejected. }
  destruct (apply_ordered_all_rejected _ _ _ Hrej) as [Hst Hres].
  split_and!; [| |done..].
  - unfold o. by rewrite apply_signed_by, Ha.
  - unfold b. by rewrite apply_signed_by, Hab.
Qed.
End claims.

(** ** Witnesses: the claims at concrete rooms *)

Section witnesses.
#[local] Existing Instance Toy.toy_sha.
#[local] Existing Instance Toy.toy_ed.
#[local] Existing Instance Toy.toy_ed_laws.

(** A room owned by leaf 1, with leaf 2 a member and leaf 3 banned. *)
Definition room0 : GovernanceState := GovernanceState_new 5 1.
Definition set_role_2 : GovernanceEvent := signed_by 5 1 (SetRole 2 Member) Toy.alice.
Definition room1 : GovernanceState := (apply_event room0 set_role_2).1.
Definition ban_3 : GovernanceEvent := signed_by 5 1 (Ban 3) Toy.alice.
Definition room2 : GovernanceState := (apply_event room1 ban_3).1.

Lemma ban_is_permanent_witness :
  rtc gov_step room0 room2 ∧ is_banned room2 3 = true ∧ role room2 3 = None.
Proof.
  assert (rtc gov_step room0 room2) as Hr.
  { exact (rtc_l _ room0 room1 room2 (step_apply room0 set_role_2)
      (rtc_once room1 room2 (step_apply room1 ban_3))). }
  assert (3 ∈ gs_banned room2) as Hb by (apply (bool_decide_unpack _); vm_compute; exact I).
  pose proof (ban_is_permanent 5 1 room2 room2 3 Hr Hb (rtc_refl _ _)) as (H1 & H2 & _).
  split; [exact Hr|]. split; [exact H1|exact H2].
Defined.

Lemma role_change_authority_witness :
  role room1 2 = Some Member ∧ role room0 1 = Some Owner.
Proof.
  assert (apply_event room0 set_role_2 = (room1, Ok tt)) as Hok
    by (vm_compute; reflexivity).
  assert (role room1 2 ≠ role room0 2) as Hne by (vm_compute; discriminate).
  destruct (role_change_authority _ _ _ _ Hok Hne)
    as (_ & _ & _ & [(r & [= <-] & Hrole & Ho)|([=] & _)]).
  split; [exact Hrole|exact Ho].
Defined.

Lemma resolve_order_independent_witness :
  let a := signed_by 5 1 (SetRole 7 Admin) Toy.alice in
  let b := signed_by 5 2 (SetRetentionSeconds 2 (Some 60)) Toy.bob in
  resolve_epoch_events room1 [a; b] = resolve_epoch_events room1 [b; a].
Proof.
  intros a b. apply (resolve_order_independent room1 [a; b] [b; a]).
  - apply perm_swap.
  - intros x y [->|[->|[]%not_elem_of_nil]%elem_of_cons]%elem_of_cons
      [->|[->|[]%not_elem_of_nil]%elem_of_cons]%elem_of_cons; vm_compute; congruence.
Defined.

Lemma governance_signature_binds_witness :
  verify_signature (signed_by 5 1 (RevokeInvite "inv") Toy.alice) = Ok tt.
Proof.
  apply (governance_signature_binds 5 1 (RevokeInvite "inv") Toy.alice
    (signed_by 5 1 (RevokeInvite "inv") Toy.alice));
    [split_and!; vm_compute; reflexivity..|reflexivity].
Defined.

Lemma unauthorized_ban_silences_owner_witness :
  let o := signed_by (gs_epoch room1) 1 (SetRole 7 Admin) Toy.alice in
  let b := signed_by (gs_epoch room1) 2 (Ban 1) Toy.bob in
  (resolve_epoch_events room1 [o; b]).1 = room1.
Proof.
  intros o b.
  refine (proj1 (proj2 (proj2 (unauthorized_ban_silences_owner room1 1 2
    (SetRole 7 Admin) Toy.alice Toy.bob _ _ _ _ _)))).
  - vm_compute; reflexivity.
  - vm_compute; reflexivity.
  - apply (bool_decide_unpack _); vm_compute; exact I.
  - apply (bool_decide_unpack _); vm_compute; exact I.
  - vm_compute; reflexivity.
Defined.
End witnesses.
