(* ===== verification/MlsGroup.v ===== *)
(** * The local group (crates/mls-core/src/exporter.rs, group.rs, device_set.rs)

    The exporter that derives service secrets from the epoch secret, and the group
    wrapper that keeps the member leaves, advances the epoch and the epoch secret on
    every change, and decides whose sends are accepted. The device leaf and its
    status are the records of device_set.rs that a group stores. *)

From S2P Require Import Prelude Collections Bytes Crypto Governance.

(** ** The exporter *)

Inductive ExportLabel := ExportText | ExportMedia | ExportContentKey.

Definition label_as_str (label : ExportLabel) : string :=
  match label with
  | ExportText => "discrypt/v1/text"
  | ExportMedia => "discrypt/v1/media"
  | ExportContentKey => "discrypt/v1/content-key"
  end.

Definition label_as_bytes (label : ExportLabel) : bytes := as_bytes (label_as_str label).

(** What [derive_epoch_secret] feeds to the hash. *)
Definition exporter_input (epoch_secret : bytes) (label : ExportLabel) (context : bytes) : bytes :=
  as_bytes "discrypt-exporter-v1" ++ label_as_bytes label ++ be_u64 (len context) ++
  context ++ epoch_secret.

Definition derive_epoch_secret `{Sha256} (epoch_secret : bytes) (label : ExportLabel)
    (context : bytes) : bytes :=
  sha256 (exporter_input epoch_secret label context).

(** ** Device leaves *)

Inductive DeviceStatus := Active | Removed | Compromised.

#[export] Instance DeviceStatus_eq_dec : EqDecision DeviceStatus.
Proof. solve_decision. Defined.

(** A [Uuid] is its 128-bit value. *)
Abbreviation Uuid := N.

Record DeviceLeaf := {
  dl_device_id : Uuid;
  dl_leaf_index : LeafIndex;
  dl_identity_key : bytes;
  dl_device_key : bytes;
  dl_label : string;
  dl_status : DeviceStatus;
  dl_added_at_epoch : N;
  dl_removed_at_epoch : option N
}.

#[export] Instance DeviceLeaf_eq_dec : EqDecision DeviceLeaf.
Proof. solve_decision. Defined.

Definition is_active (d : DeviceLeaf) : bool := bool_decide (dl_status d = Active).

(** ** The group *)

Inductive MlsCoreError :=
| LeafAlreadyExists (leaf : LeafIndex)
| LeafNotFound (leaf : LeafIndex)
| InactiveLeaf (leaf : LeafIndex)
| SenderNotAuthorized (leaf : LeafIndex)
| StaleSenderEpoch (current attempted : N).

Record GroupState := {
  gr_group_id : string;
  gr_epoch : N;
  gr_members : gmap LeafIndex DeviceLeaf;
  gr_epoch_secret : bytes
}.

Section group.
Context `{Sha256}.

Definition GroupState_new (group_id : string) : GroupState :=
  {| gr_group_id := group_id; gr_epoch := 0; gr_members := ∅;
     gr_epoch_secret := sha256 (as_bytes group_id) |}.

Definition advance_epoch (g : GroupState) (reason : string) : GroupState :=
  let epoch := sat_add u64_max (gr_epoch g) 1 in
  {| gr_group_id := gr_group_id g; gr_epoch := epoch; gr_members := gr_members g;
     gr_epoch_secret := sha256 (gr_epoch_secret g ++ be_u64 epoch ++ as_bytes reason) |}.

Definition with_members (g : GroupState) (members : gmap LeafIndex DeviceLeaf) : GroupState :=
  {| gr_group_id := gr_group_id g; gr_epoch := gr_epoch g; gr_members := members;
     gr_epoch_secret := gr_epoch_secret g |}.

Definition add_leaf (g : GroupState) (leaf : DeviceLeaf) :
    GroupState * result unit MlsCoreError :=
  if negb (is_active leaf) then (g, Err (InactiveLeaf (dl_leaf_index leaf)))
  else if bool_decide (is_Some (gr_members g !! dl_leaf_index leaf)) then
    (g, Err (LeafAlreadyExists (dl_leaf_index leaf)))
  else
    (advance_epoch (with_members g (<[dl_leaf_index leaf := leaf]> (gr_members g))) "add", Ok tt).

Definition remove_leaf (g : GroupState) (leaf : LeafIndex) :
    GroupState * result unit MlsCoreError :=
  match gr_members g !! leaf with
  | None => (g, Err (LeafNotFound leaf))
  | Some _ => (advance_epoch (with_members g (delete leaf (gr_members g))) "remove", Ok tt)
  end.

Definition rotate_leaf (g : GroupState) (compromised_leaf : LeafIndex)
    (replacement : DeviceLeaf) : GroupState * result unit MlsCoreError :=
  if bool_decide (gr_members g !! compromised_leaf = None) then
    (g, Err (LeafNotFound compromised_leaf))
  else if negb (is_active replacement) then
    (g, Err (InactiveLeaf (dl_leaf_index replacement)))
  else if bool_decide (is_Some (gr_members g !! dl_leaf_index replacement)) then
    (g, Err (LeafAlreadyExists (dl_leaf_index replacement)))
  else
    let g1 := advance_epoch (with_members g (delete compromised_leaf (gr_members g)))
                "remove-compromised" in
    (advance_epoch
       (with_members g1 (<[dl_leaf_index replacement := replacement]> (gr_members g1)))
       "add-rotation-replacement", Ok tt).

Definition sender_may_send (g : GroupState) (leaf : LeafIndex) (epoch : N) : bool :=
  (epoch =? gr_epoch g) &&
  match gr_members g !! leaf with Some device => is_active device | None => false end.

Definition validate_sender (g : GroupState) (leaf : LeafIndex) (epoch : N) :
    result unit MlsCoreError :=
  check reject_if (negb (epoch =? gr_epoch g)) (StaleSenderEpoch (gr_epoch g) epoch) in
  reject_if (negb (sender_may_send g leaf epoch)) (SenderNotAuthorized leaf).

Definition group_export (g : GroupState) (label : ExportLabel) (context : bytes) : bytes :=
  derive_epoch_secret (gr_epoch_secret g) label context.

(** ** Runs *)

Inductive CallGroup :=
| CallAddLeaf (leaf : DeviceLeaf)
| CallRemoveLeaf (leaf : LeafIndex)
| CallRotateLeaf (compromised_leaf : LeafIndex) (replacement : DeviceLeaf).

Definition group_call (g : GroupState) (c : CallGroup) : GroupState * result unit MlsCoreError :=
  match c with
  | CallAddLeaf leaf => add_leaf g leaf
  | CallRemoveLeaf leaf => remove_leaf g leaf
  | CallRotateLeaf leaf replacement => rotate_leaf g leaf replacement
  end.

Fixpoint group_run (g : GroupState) (calls : list CallGroup) :
    GroupState * list (result unit MlsCoreError) :=
  match calls with
  | [] => (g, [])
  | c :: rest =>
      let '(g1, r) := group_call g c in
      let '(g2, rs) := group_run g1 rest in
      (g2, r :: rs)
  end.

(** The reasons an accepted call hashes into the epoch secret, in order. *)
Definition call_reasons (c : CallGroup) : list string :=
  match c with
  | CallAddLeaf _ => ["add"]
  | CallRemoveLeaf _ => ["remove"]
  | CallRotateLeaf _ _ => ["remove-compromised"; "add-rotation-replacement"]
  end.

Fixpoint accepted_reasons (calls : list CallGroup) (rs : list (result unit MlsCoreError)) :
    list string :=
  match calls, rs with
  | c :: calls', Ok _ :: rs' => call_reasons c ++ accepted_reasons calls' rs'
  | _ :: calls', Err _ :: rs' => accepted_reasons calls' rs'
  | _, _ => []
  end.

(** The epoch and the epoch secret after a sequence of epoch changes. *)
Definition key_schedule (start : N * bytes) (reasons : list string) : N * bytes :=
  foldl (λ '(e, s) reason,
    let e' := sat_add u64_max e 1 in (e', sha256 (s ++ be_u64 e' ++ as_bytes reason)))
    start reasons.
End group.

(** ** The exporter separates its inputs *)

Lemma label_app_inj l l' (r s : bytes) :
  label_as_bytes l ++ r = label_as_bytes l' ++ s → l = l' ∧ r = s.
Proof.
  destruct l, l'; intros Heq; try discriminate Heq; (split; [done|]); revert Heq; apply app_inv_head.
Qed.

Lemma exporter_input_inj s l c s' l' c' :
  len c < 2 ^ 64 → len c' < 2 ^ 64 →
  exporter_input s l c = exporter_input s' l' c' → s = s' ∧ l = l' ∧ c = c'.
Proof.
  intros Hc Hc' [_ [-> [-> ->]%be_framed_app_inj]%label_app_inj]%fixed_app_inj; done.
Qed.

(** ** Invariants of a run *)

Section proofs.
Context `{Sha256}.
Implicit Types (g : GroupState) (c : CallGroup).

(** Every member is active and stored under its own leaf index. *)
Definition group_wf g : Prop :=
  ∀ i d, gr_members g !! i = Some d → dl_leaf_index d = i ∧ is_active d = true.

(** A step from [g] to [g'] that hashed [reasons] into the epoch secret. *)
Definition advanced g g' (reasons : list string) : Prop :=
  gr_group_id g' = gr_group_id g ∧
  (gr_epoch g', gr_epoch_secret g') =
    key_schedule (gr_epoch g, gr_epoch_secret g) reasons.

Lemma advanced_nil g : advanced g g [].
Proof. by split. Qed.

Lemma advanced_trans g1 g2 g3 r1 r2 :
  advanced g1 g2 r1 → advanced g2 g3 r2 → advanced g1 g3 (r1 ++ r2).
Proof.
  intros [Hi1 H1] [Hi2 H2]. split; [congruence|].
  unfold key_schedule in *. by rewrite foldl_app, <- H1.
Qed.

Lemma insert_member_wf g leaf :
  group_wf g → is_active leaf = true →
  group_wf (with_members g (<[dl_leaf_index leaf := leaf]> (gr_members g))).
Proof.
  intros Hwf Ha i d. simpl. intros [[<- <-]|[_ Hd]]%lookup_insert_Some; [done|by apply Hwf].
Qed.

Lemma delete_member_wf g i : group_wf g → group_wf (with_members g (delete i (gr_members g))).
Proof. intros Hwf j d. simpl. intros [_ Hd]%lookup_delete_Some. by apply Hwf. Qed.

(** What a call does: it is refused and changes nothing, or it changes the members,
    keeps the invariant and advances the key schedule by its reasons. *)
Lemma group_call_cases g c :
  (∃ e, group_call g c = (g, Err e)) ∨
  (∃ g', group_call g c = (g', Ok tt) ∧ advanced g g' (call_reasons c) ∧
    (group_wf g → group_wf g')).
Proof.
  destruct c as [leaf|i|i leaf]; simpl.
  - unfold add_leaf. destruct (is_active leaf) eqn:Ha; simpl; [|by left; eauto].
    case_bool_decide; [by left; eauto|]. right. eexists. split_and!; [done..|].
    intros Hwf. exact (insert_member_wf g leaf Hwf Ha).
  - unfold remove_leaf. destruct (gr_members g !! i); [|by left; eauto].
    right. eexists. split_and!; [done..|]. intros Hwf. exact (delete_member_wf g i Hwf).
  - unfold rotate_leaf. case_bool_decide; [by left; eauto|].
    destruct (is_active leaf) eqn:Ha; simpl; [|by left; eauto].
    case_bool_decide; [by left; eauto|]. right. eexists. split_and!; [done..|].
    intros Hwf. exact (insert_member_wf _ leaf (delete_member_wf g i Hwf) Ha).
Qed.

Lemma group_run_spec g calls :
  let '(g', rs) := group_run g calls in
  length rs = length calls ∧
  advanced g g' (accepted_reasons calls rs) ∧ (group_wf g → group_wf g').
Proof.
  revert g. induction calls as [|c rest IH]; intros g; simpl.
  - split_and!; [done|apply advanced_nil|done].
  - destruct (group_call_cases g c) as [[e ->]|(g1 & -> & Hadv & Hwf)].
    + specialize (IH g). destruct (group_run g rest) as [g2 rs]. simpl.
      destruct IH as (? & ? & ?). split_and!; [lia|done..].
    + specialize (IH g1). destruct (group_run g1 rest) as [g2 rs]. simpl.
      destruct IH as (? & ? & ?). split_and!; [lia| |tauto]. by eapply advanced_trans.
Qed.

Lemma GroupState_new_wf group_id : group_wf (GroupState_new group_id).
Proof. intros i d. simpl. by rewrite lookup_empty. Qed.

Lemma key_schedule_cons e s r rest :
  key_schedule (e, s) (r :: rest) =
  key_schedule (sat_add u64_max e 1,
    sha256 (s ++ be_u64 (sat_add u64_max e 1) ++ as_bytes r)) rest.
Proof. done. Qed.

Lemma key_schedule_epoch e s reasons :
  e ≤ u64_max →
  (key_schedule (e, s) reasons).1 = N.min (e + N.of_nat (length reasons)) u64_max.
Proof.
  revert e s. induction reasons as [|r rest IH]; intros e s He; [simpl; lia|].
  rewrite key_schedule_cons, IH; unfold sat_add; simpl; lia.
Qed.

Lemma sender_may_send_iff g leaf epoch :
  group_wf g →
  sender_may_send g leaf epoch = true ↔ epoch = gr_epoch g ∧ is_Some (gr_members g !! leaf).
Proof.
  intros Hwf. unfold sender_may_send. rewrite andb_true_iff, N.eqb_eq.
  destruct (gr_members g !! leaf) as [d|] eqn:Hd.
  - destruct (Hwf _ _ Hd) as [_ ->]. naive_solver.
  - split; [by intros []|by intros [_ [? ?]]].
Qed.

Lemma validate_sender_eq g leaf epoch :
  validate_sender g leaf epoch =
    if negb (epoch =? gr_epoch g) then Err (StaleSenderEpoch (gr_epoch g) epoch)
    else if sender_may_send g leaf epoch then Ok tt else Err (SenderNotAuthorized leaf).
Proof.
  unfold validate_sender. destruct (epoch =? gr_epoch g); simpl; [|done].
  by destruct (sender_may_send g leaf epoch).
Qed.

Lemma validate_sender_ok g leaf epoch :
  group_wf g →
  validate_sender g leaf epoch = Ok tt ↔
  epoch = gr_epoch g ∧ is_Some (gr_members g !! leaf).
Proof.
  intros Hwf. rewrite <- sender_may_send_iff by done. rewrite validate_sender_eq.
  unfold sender_may_send. destruct (epoch =? gr_epoch g); simpl; [|done]. by case_match.
Qed.
End proofs.

(** ** Claims *)

Section claims.
Context `{Sha256}.

(** Exporter secrets are bound to their service and context: the hash inputs of two
    derivations are equal only when the epoch secret, the service label and the context
    are, so a secret exported for text, media or content keys is never the secret of
    another service or context unless SHA-256 itself collides on those inputs. *)
Theorem exporter_separates_services s l c s' l' c' :
  len c < 2 ^ 64 → len c' < 2 ^ 64 →
  derive_epoch_secret s l c = derive_epoch_secret s' l' c' →
  (s = s' ∧ l = l' ∧ c = c') ∨
  (exporter_input s l c ≠ exporter_input s' l' c' ∧
   sha256 (exporter_input s l c) = sha256 (exporter_input s' l' c')).
Proof.
  intros Hc Hc' Heq.
  destruct (decide (exporter_input s l c = exporter_input s' l' c')) as [Hi|Hi].
  - left. by apply exporter_input_inj.
  - by right.
Qed.

(** The group admits exactly its members in the current epoch. After any sequence of
    adds, removals and rotations on a new group: a send is accepted exactly when it
    carries the current epoch and comes from a member leaf; every member is active and
    filed under its own index; the epoch counts the accepted changes (a rotation counts
    twice) up to saturation; and the epoch secret is the key schedule of those changes,
    so a refused call changes neither. *)
Theorem group_admits_exactly_members group_id calls :
  let '(g, rs) := group_run (GroupState_new group_id) calls in
  (∀ leaf epoch, validate_sender g leaf epoch = Ok tt ↔
     epoch = gr_epoch g ∧ is_Some (gr_members g !! leaf)) ∧
  (∀ i d, gr_members g !! i = Some d → dl_leaf_index d = i ∧ dl_status d = Active) ∧
  gr_epoch g = N.min (N.of_nat (length (accepted_reasons calls rs))) u64_max ∧
  (gr_epoch g, gr_epoch_secret g) =
    key_schedule (0, sha256 (as_bytes group_id)) (accepted_reasons calls rs).
Proof.
  pose proof (group_run_spec (GroupState_new group_id) calls) as Hrun.
  destruct (group_run _ calls) as [g rs]. destruct Hrun as (_ & [_ Hk] & Hwf).
  specialize (Hwf (GroupState_new_wf group_id)). simpl in Hk. split_and!.
  - intros leaf epoch. by apply validate_sender_ok.
  - intros i d [Hi Ha%bool_decide_eq_true]%Hwf. done.
  - change (gr_epoch g) with (gr_epoch g, gr_epoch_secret g).1.
    rewrite Hk, key_schedule_epoch by done. f_equal.
  - done.
Qed.

(** Rotating out a compromised leaf: on any reachable group with room for two more
    epochs an accepted rotation leaves the compromised leaf unable to send in every
    epoch, lets the replacement send in the new epoch, keeps every other leaf as it was,
    and moves two epochs on, so every send of the old epoch is refused as stale. *)
Theorem rotation_retires_the_leaf group_id calls compromised replacement g' :
  let g := (group_run (GroupState_new group_id) calls).1 in
  gr_epoch g + 2 ≤ u64_max →
  rotate_leaf g compromised replacement = (g', Ok tt) →
  gr_epoch g' = gr_epoch g + 2 ∧
  (∀ epoch, sender_may_send g' compromised epoch = false) ∧
  validate_sender g' (dl_leaf_index replacement) (gr_epoch g') = Ok tt ∧
  (∀ leaf, leaf ≠ compromised → leaf ≠ dl_leaf_index replacement →
     gr_members g' !! leaf = gr_members g !! leaf) ∧
  (∀ leaf, validate_sender g' leaf (gr_epoch g) = Err (StaleSenderEpoch (gr_epoch g') (gr_epoch g))).
Proof.
  intros g He Hrot.
  assert (group_wf g) as Hwf.
  { pose proof (group_run_spec (GroupState_new group_id) calls) as Hrun.
    subst g. destruct (group_run _ calls). apply Hrun, GroupState_new_wf. }
  assert (group_wf g') as Hwf'.
  { destruct (group_call_cases g (CallRotateLeaf compromised replacement))
      as [[e Hc]|(g1 & Hc & _ & Hk)]; simpl in Hc; rewrite Hrot in Hc; simplify_eq. auto. }
  unfold rotate_leaf in Hrot.
  case_bool_decide as Hm; [done|]. destruct (is_active replacement) eqn:Ha; simpl in Hrot; [|done].
  case_bool_decide as Hr; [done|].
  assert (gr_epoch g' = gr_epoch g + 2) as He'.
  { injection Hrot as <-. simpl. unfold sat_add. lia. }
  assert (gr_members g' = <[dl_leaf_index replacement := replacement]>
    (delete compromised (gr_members g))) as Hg' by (by injection Hrot as <-).
  clear Hrot. assert (compromised ≠ dl_leaf_index replacement) as Hne.
  { intros Heq. apply Hr. rewrite <- Heq. by apply not_eq_None_Some. }
  split_and!; [done|..].
  - intros epoch. apply not_true_iff_false. intros [_ Hs]%sender_may_send_iff; [|done].
    rewrite Hg', lookup_insert_ne, lookup_delete_eq in Hs by done. by destruct Hs.
  - apply validate_sender_ok; [done|]. rewrite Hg', lookup_insert_eq. eauto.
  - intros leaf Hl1 Hl2. by rewrite Hg', lookup_insert_ne, lookup_delete_ne by done.
  - intros leaf. rewrite validate_sender_eq.
    rewrite (proj2 (N.eqb_neq (gr_epoch g) (gr_epoch g'))) by lia. done.
Qed.
End claims.

(** ** Witnesses *)

Section witnesses.
#[local] Existing Instance Toy.toy_sha.

Definition leaf_of (i : LeafIndex) : DeviceLeaf :=
  {| dl_device_id := 100 + i; dl_leaf_index := i; dl_identity_key := Toy.key_bytes true;
     dl_device_key := Toy.key_bytes true; dl_label := "laptop"; dl_status := Active;
     dl_added_at_epoch := 0; dl_removed_at_epoch := None |}.

(** The labels and the context really reach the hash. *)
Lemma exporter_separates_services_witness :
  derive_epoch_secret [7] ExportMedia (as_bytes "room") ≠
  derive_epoch_secret [7] ExportContentKey (as_bytes "room").
Proof.
  intros Heq.
  destruct (exporter_separates_services [7] ExportMedia (as_bytes "room")
    [7] ExportContentKey (as_bytes "room") eq_refl eq_refl Heq) as [(_ & Hl & _)|[_ Hc]].
  - discriminate Hl.
  - vm_compute in Hc. discriminate Hc.
Defined.

Lemma rotation_retires_the_leaf_witness :
  let g := (group_run (GroupState_new "room") [CallAddLeaf (leaf_of 1); CallAddLeaf (leaf_of 2)]).1 in
  let g' := (rotate_leaf g 1 (leaf_of 3)).1 in
  gr_epoch g' = 4 ∧ sender_may_send g' 1 4 = false.
Proof.
  intros g g'.
  destruct (rotation_retires_the_leaf "room" [CallAddLeaf (leaf_of 1); CallAddLeaf (leaf_of 2)]
    1 (leaf_of 3) g') as (He & Hs & _).
  - apply N.leb_le. reflexivity.
  - reflexivity.
  - split; [reflexivity|apply (Hs 4)].
Defined.
End witnesses.
