(* ===== verification/Identity.v ===== *)
(** * Identities (crates/mls-core/src/identity.rs)

    Friend codes carry a public identity key out of band; the safety number of two
    identities is what their owners compare. Generating a key pair and moving secret
    key bytes to and from sealed storage are left to the caller: an [Identity] is built
    from its signing key. *)

From S2P Require Import Prelude Collections Bytes StrOps Crypto.

(** ** [slugify] *)

(** What a character of the label becomes; the continuation bytes of a UTF-8 sequence
    belong to the character before them. *)
Definition slug_char (b : N) : option N :=
  if (128 <=? b) && (b <=? 191) then None
  else if ((48 <=? b) && (b <=? 57)) || ((97 <=? b) && (b <=? 122)) ||
          ((65 <=? b) && (b <=? 90)) then Some (byte_to_lower b)
  else if (b =? 45) || (b =? 95) then Some b
  else Some 45.

Definition slugify (label : string) : string :=
  let slug := join_bytes 45 (filter (λ part, part ≠ [])
    (split_bytes 45 (omap slug_char (as_bytes (trim label))))) in
  if bool_decide (slug = []) then "contact" else string_of_bytes slug.

(** ** Friend codes and safety numbers *)

Record FriendCode := { fc_payload : string }.

Record SafetyNumber := { sn_text : string }.

#[export] Instance SafetyNumber_eq_dec : EqDecision SafetyNumber.
Proof. solve_decision. Defined.

Record Identity `{Ed25519} := {
  id_display_name : string;
  id_signing_key : signing_key
}.

Section identity.
Context `{Sha256, Ed25519, Hex}.

(** [hex::decode(..)] into [[u8; 32]] into a key. *)
Definition verifying_key_from_hex (identity_key_hex : string) : option verifying_key :=
  match hex_decode identity_key_hex with
  | Ok decoded => if (length decoded =? 32)%nat then vk_from_bytes decoded else None
  | Err _ => None
  end.

Definition friend_code_verifying_key (code : FriendCode) : option verifying_key :=
  '(_, tail) ← split_once "?ik=" (fc_payload code);
  identity_key_hex ← head (split_bytes 38 (as_bytes tail));
  verifying_key_from_hex (string_of_bytes identity_key_hex).

Definition friend_code_from_verifying_key (display_name : string) (v : verifying_key) :
    FriendCode :=
  let public_key := hex_encode (vk_to_bytes v) in
  let fingerprint := sha256 (vk_to_bytes v) in
  {| fc_payload := "discrypt://friend/v1/" +:+ slugify display_name +:+ "?ik=" +:+ public_key +:+
       "&fp=" +:+ hex_encode (take 10 fingerprint) |}.

Definition from_identity_keys (ours peer : verifying_key) : SafetyNumber :=
  let keys := sort_by (cmp_list N.compare) [vk_to_bytes ours; vk_to_bytes peer] in
  let digest := hex_encode (sha256 (concat keys)) in
  {| sn_text := string_of_bytes (join_bytes 32 (take 12 (chunks 4 (as_bytes digest)))) |}.

Definition identity_verifying_key (i : Identity) : verifying_key := vk_of (id_signing_key i).

Definition sign_pairing_authorization (i : Identity) (message : bytes) : bytes :=
  sig_to_bytes (sign (id_signing_key i) message).

Definition friend_code (i : Identity) : FriendCode :=
  friend_code_from_verifying_key (id_display_name i) (identity_verifying_key i).

Definition safety_number (i : Identity) (peer : verifying_key) : SafetyNumber :=
  from_identity_keys (identity_verifying_key i) peer.

Definition safety_number_from_friend_code (i : Identity) (peer : FriendCode) :
    option SafetyNumber :=
  peer_key ← friend_code_verifying_key peer;
  Some (safety_number i peer_key).
End identity.

(** ** A slug has no character that is special in a friend code *)

Definition slug_byte (x : N) : Prop :=
  48 ≤ x ≤ 57 ∨ 97 ≤ x ≤ 122 ∨ x = 45 ∨ x = 95.

Lemma slug_char_byte b x : slug_char b = Some x → slug_byte x.
Proof.
  unfold slug_char, byte_to_lower, slug_byte.
  destruct (N.leb_spec 128 b), (N.leb_spec b 191), (N.leb_spec 48 b), (N.leb_spec b 57),
    (N.leb_spec 97 b), (N.leb_spec b 122), (N.leb_spec 65 b), (N.leb_spec b 90),
    (N.eqb_spec b 45), (N.eqb_spec b 95); simpl; intros Heq; simplify_eq; lia.
Qed.

Lemma slugify_bytes label x : x ∈ as_bytes (slugify label) → slug_byte x.
Proof.
  unfold slugify. set (slug := join_bytes _ _).
  assert (∀ x, x ∈ slug → slug_byte x) as Hslug.
  { intros y [->|(piece & [_ Hp]%list_elem_of_filter & Hy)]%elem_of_join_bytes;
      [unfold slug_byte; lia|].
    eapply split_bytes_subset in Hy; [|done].
    apply list_elem_of_omap in Hy as (b & _ & Hb). by eapply slug_char_byte. }
  case_bool_decide.
  - simpl. unfold slug_byte. rewrite !elem_of_cons, elem_of_nil. lia.
  - rewrite as_string_bytes; [by apply Hslug|]. apply Forall_forall. intros y Hy%Hslug.
    unfold slug_byte in Hy. lia.
Qed.

Section proofs.
Context `{Sha256, Ed25519Laws, HexLaws}.

Lemma verifying_key_from_hex_encode v :
  verifying_key_from_hex (hex_encode (vk_to_bytes v)) = Some v.
Proof.
  unfold verifying_key_from_hex. rewrite hex_decode_encode by apply vk_to_bytes_u8.
  by rewrite vk_to_bytes_length, vk_from_to_bytes.
Qed.

Lemma friend_code_key name v :
  friend_code_verifying_key (friend_code_from_verifying_key name v) = Some v.
Proof.
  unfold friend_code_verifying_key, friend_code_from_verifying_key, split_once; simpl fc_payload.
  set (key := hex_encode (vk_to_bytes v)). set (fp := "&fp=" +:+ _).
  replace (as_bytes ("discrypt://friend/v1/" +:+ slugify name +:+ "?ik=" +:+ key +:+ fp))
    with ((as_bytes "discrypt://friend/v1/" ++ as_bytes (slugify name)) ++ as_bytes "?ik=" ++
          as_bytes (key +:+ fp)) by (rewrite <- (assoc (++)); by rewrite !as_bytes_app).
  rewrite split_once_bytes_app; [|done|].
  2:{ intros x [Hx|Hx%slugify_bytes]%elem_of_app [= <-]; [|unfold slug_byte in Hx; lia].
      revert Hx. apply (bool_decide_unpack _). reflexivity. }
  cbn [fmap option_fmap option_map prod_map fst snd mbind option_bind].
  rewrite string_of_as_bytes, as_bytes_app. unfold fp. rewrite as_bytes_app.
  change (as_bytes "&fp=") with (38 :: as_bytes "fp="). cbn [app].
  rewrite split_bytes_head.
  - simpl. rewrite string_of_as_bytes. apply verifying_key_from_hex_encode.
  - intros Hx%hex_encode_digits. lia.
Qed.

Lemma from_identity_keys_sym v w : from_identity_keys v w = from_identity_keys w v.
Proof.
  unfold from_identity_keys.
  rewrite (sort_by_unique (cmp_list N.compare) [vk_to_bytes v; vk_to_bytes w]
    [vk_to_bytes w; vk_to_bytes v]); [done|apply perm_swap|].
  intros x y _ _. apply (cmp_eq (cmp := cmp_list N.compare)).
Qed.

(** Friend codes carry the identity key, and both sides see the same safety number:
    the code of an identity decodes to its key whatever the display name, and two people
    who scan each other's codes compute the same number, which is the number of the two
    real keys. *)
Theorem friend_codes_agree_on_safety_number (alice bob : Identity) :
  friend_code_verifying_key (friend_code alice) = Some (identity_verifying_key alice) ∧
  safety_number_from_friend_code alice (friend_code bob) =
    safety_number_from_friend_code bob (friend_code alice) ∧
  safety_number_from_friend_code alice (friend_code bob) =
    Some (safety_number alice (identity_verifying_key bob)).
Proof.
  unfold safety_number_from_friend_code, friend_code, safety_number.
  rewrite !friend_code_key. split_and!; [done| |done]. simpl. f_equal. apply from_identity_keys_sym.
Qed.
End proofs.

(** ** Witness *)

Section witnesses.
#[local] Existing Instance Toy.toy_sha.
#[local] Existing Instance Toy.toy_ed.
#[local] Existing Instance Toy.toy_ed_laws.
#[local] Existing Instance Toy.toy_hex.
#[local] Existing Instance Toy.toy_hex_laws.

Lemma friend_codes_agree_on_safety_number_witness :
  let alice := {| id_display_name := " Ada ?ik=Lovelace "; id_signing_key := Toy.alice |} in
  let bob := {| id_display_name := ""; id_signing_key := Toy.bob |} in
  slugify (id_display_name alice) = "ada-ik-lovelace" ∧
  friend_code_verifying_key (friend_code alice) = Some (identity_verifying_key alice) ∧
  safety_number_from_friend_code alice (friend_code bob) =
    safety_number_from_friend_code bob (friend_code alice).
Proof.
  intros alice bob. split; [vm_compute; reflexivity|].
  destruct (friend_codes_agree_on_safety_number alice bob) as (H1 & H2 & _).
  split; [exact H1|exact H2].
Defined.
End witnesses.
