(* ===== verification/DeviceSet.v ===== *)
(** * The device set of an account (crates/mls-core/src/device_set.rs)

    Device leaves are added, paired through a signed payload, removed, or rotated out
    when compromised; each change emits a transparency event. [Uuid::new_v4] draws a
    fresh id, which is an argument here; [serde_json] on the pairing payload and the
    text of a signature parse error are parameters. *)

From Stdlib Require Import Ascii.
From S2P Require Import Prelude Collections Bytes StrOps Crypto Governance MlsGroup Identity.

Definition PAIRING_PAYLOAD_VERSION : N := 1.

Inductive DeviceSetError :=
| DeviceNotFound (device_id : Uuid)
| DeviceAlreadyRetired (device_id : Uuid).

Record DeviceRotation := {
  dr_retired : DeviceLeaf;
  dr_replacement : DeviceLeaf
}.

Record TransparencyEvent := {
  ev_device_id : Uuid;
  ev_kind : string;
  ev_epoch : N
}.

Record DevicePairingPayload := {
  pp_version : N;
  pp_authorizing_device_id : Uuid;
  pp_identity_key : string;
  pp_requested_label : string;
  pp_challenge : Uuid;
  pp_expires_epoch : N;
  pp_signature : string
}.

Inductive DevicePairingError :=
| UnauthorizedAuthorizingDevice
| InvalidPayload (what : string)
| PairingIdentityMismatch
| PairingExpired
| SignatureVerificationFailed
| DuplicateDeviceKey.

Record DeviceSet := {
  dv_next_leaf : N;
  dv_devices : gmap Uuid DeviceLeaf;
  dv_transparency : list TransparencyEvent
}.

Definition DeviceSet_new : DeviceSet :=
  {| dv_next_leaf := 0; dv_devices := ∅; dv_transparency := [] |}.

(** [serde_json::to_string] and [from_str] at the payload, with the text of their errors,
    and the text of [ed25519_dalek]'s signature error. *)
Class PairingJson := {
  payload_to_json : DevicePairingPayload → result string string;
  payload_from_json : string → result DevicePairingPayload string;
  signature_error_text : string
}.

Class PairingJsonLaws `{PairingJson} : Prop := {
  payload_to_json_ok p : ∃ s, payload_to_json p = Ok s;
  payload_from_to_json p s : payload_to_json p = Ok s → payload_from_json s = Ok p
}.

Definition normalize_device_label (label : string) : string :=
  let trimmed := trim label in
  if bool_decide (trimmed = "") then "paired device" else trimmed.

Definition canonical_pairing_message `{UuidText} (version : N) (authorizing_device_id : Uuid)
    (identity_key requested_label : string) (challenge : Uuid) (expires_epoch : N) : string :=
  "discrypt-device-pairing-v" +:+ pretty version +:+
  "|authorizer=" +:+ uuid_to_string authorizing_device_id +:+
  "|identity=" +:+ identity_key +:+
  "|label=" +:+ requested_label +:+
  "|challenge=" +:+ uuid_to_string challenge +:+
  "|expires_epoch=" +:+ pretty expires_epoch.

(** ** Operations without cryptography *)

Definition push_event (s : DeviceSet) (e : TransparencyEvent) : DeviceSet :=
  {| dv_next_leaf := dv_next_leaf s; dv_devices := dv_devices s;
     dv_transparency := dv_transparency s ++ [e] |}.

Definition retire_device (s : DeviceSet) (device_id : Uuid) (status : DeviceStatus)
    (kind : string) (epoch : N) : DeviceSet * result DeviceLeaf DeviceSetError :=
  match dv_devices s !! device_id with
  | None => (s, Err (DeviceNotFound device_id))
  | Some device =>
      if negb (is_active device) then (s, Err (DeviceAlreadyRetired device_id))
      else
        let retired :=
          {| dl_device_id := dl_device_id device; dl_leaf_index := dl_leaf_index device;
             dl_identity_key := dl_identity_key device; dl_device_key := dl_device_key device;
             dl_label := dl_label device; dl_status := status;
             dl_added_at_epoch := dl_added_at_epoch device;
             dl_removed_at_epoch := Some epoch |} in
        (push_event
           {| dv_next_leaf := dv_next_leaf s;
              dv_devices := <[device_id := retired]> (dv_devices s);
              dv_transparency := dv_transparency s |}
           {| ev_device_id := device_id; ev_kind := kind; ev_epoch := epoch |},
         Ok retired)
  end.

Definition remove_device (s : DeviceSet) (device_id : Uuid) (epoch : N) : DeviceSet * bool :=
  let '(s', r) := retire_device s device_id Removed "device-removed" epoch in (s', is_ok r).

Definition compromise_device (s : DeviceSet) (device_id : Uuid) (epoch : N) :
    DeviceSet * result DeviceLeaf DeviceSetError :=
  retire_device s device_id Compromised "device-compromised-removed" epoch.

Definition device_may_send (s : DeviceSet) (device_id : Uuid) : bool :=
  match dv_devices s !! device_id with Some device => is_active device | None => false end.

Definition active_devices (s : DeviceSet) : list DeviceLeaf :=
  filter (λ d, is_active d = true) (values (dv_devices s)).

Section pairing.
Context `{Ed25519, Hex, UuidText, PairingJson}.

Definition insert_authorized_device (s : DeviceSet) (device_id : Uuid) (identity : Identity)
    (device_key : verifying_key) (label : string) (epoch : N) (event_kind : string) :
    DeviceSet * DeviceLeaf :=
  let leaf :=
    {| dl_device_id := device_id; dl_leaf_index := dv_next_leaf s;
       dl_identity_key := vk_to_bytes (identity_verifying_key identity);
       dl_device_key := vk_to_bytes device_key; dl_label := normalize_device_label label;
       dl_status := Active; dl_added_at_epoch := epoch; dl_removed_at_epoch := None |} in
  ({| dv_next_leaf := sat_add u32_max (dv_next_leaf s) 1;
      dv_devices := <[device_id := leaf]> (dv_devices s);
      dv_transparency := dv_transparency s ++
        [{| ev_device_id := device_id; ev_kind := event_kind; ev_epoch := epoch |}] |}, leaf).

Definition add_authorized_device (s : DeviceSet) (device_id : Uuid) (identity : Identity)
    (device_key : verifying_key) (label : string) (epoch : N) : DeviceSet * DeviceLeaf :=
  insert_authorized_device s device_id identity device_key label epoch "device-added".

Definition rotate_compromised_device (s : DeviceSet) (replacement_id : Uuid)
    (identity : Identity) (compromised_device_id : Uuid) (replacement_key : verifying_key)
    (replacement_label : string) (removal_epoch replacement_epoch : N) :
    DeviceSet * result DeviceRotation DeviceSetError :=
  match compromise_device s compromised_device_id removal_epoch with
  | (s1, Err e) => (s1, Err e)
  | (s1, Ok retired) =>
      let '(s2, replacement) := add_authorized_device s1 replacement_id identity
        replacement_key replacement_label replacement_epoch in
      (push_event s2 {| ev_device_id := dl_device_id replacement;
                        ev_kind := "device-rotation-replacement";
                        ev_epoch := replacement_epoch |},
       Ok {| dr_retired := retired; dr_replacement := replacement |})
  end.

Definition require_authorizing_device (s : DeviceSet) (identity : Identity)
    (authorizing_device_id : Uuid) : result DeviceLeaf DevicePairingError :=
  let expected_identity := vk_to_bytes (identity_verifying_key identity) in
  match dv_devices s !! authorizing_device_id with
  | Some device =>
      if is_active device && bool_decide (dl_identity_key device = expected_identity)
      then Ok device else Err UnauthorizedAuthorizingDevice
  | None => Err UnauthorizedAuthorizingDevice
  end.

Definition decode_32_byte_hex (value : string) : result bytes DevicePairingError :=
  let* decoded := map_err InvalidPayload (hex_decode value) in
  if (length decoded =? 32)%nat then Ok decoded else Err (InvalidPayload "expected 32-byte key").

Definition decode_signature (value : string) : result signature DevicePairingError :=
  let* decoded := map_err InvalidPayload (hex_decode value) in
  ok_or (sig_from_slice decoded) (InvalidPayload signature_error_text).

Definition create_pairing_payload (s : DeviceSet) (challenge : Uuid) (identity : Identity)
    (authorizing_device_id : Uuid) (requested_label : string)
    (current_epoch valid_for_epochs : N) : result string DevicePairingError :=
  check require_authorizing_device s identity authorizing_device_id in
  let requested_label := normalize_device_label requested_label in
  let identity_key := hex_encode (vk_to_bytes (identity_verifying_key identity)) in
  let expires_epoch := sat_add u64_max current_epoch (N.max valid_for_epochs 1) in
  let message := canonical_pairing_message PAIRING_PAYLOAD_VERSION authorizing_device_id
    identity_key requested_label challenge expires_epoch in
  let signature := hex_encode (sign_pairing_authorization identity (as_bytes message)) in
  map_err InvalidPayload (payload_to_json
    {| pp_version := PAIRING_PAYLOAD_VERSION;
       pp_authorizing_device_id := authorizing_device_id;
       pp_identity_key := identity_key;
       pp_requested_label := requested_label;
       pp_challenge := challenge;
       pp_expires_epoch := expires_epoch;
       pp_signature := signature |}).

(** [self.devices.values().any(|device| active && device.device_key == key)] *)
Definition device_key_active (s : DeviceSet) (key : bytes) : bool :=
  existsb (λ device, is_active device && bool_decide (dl_device_key device = key))
    (values (dv_devices s)).

(** The checks of [add_device_from_pairing_payload], in its order. *)
Definition check_pairing_payload (s : DeviceSet) (identity : Identity)
    (payload : DevicePairingPayload) (new_device_key : verifying_key) (current_epoch : N) :
    result unit DevicePairingError :=
  check reject_if (negb (pp_version payload =? PAIRING_PAYLOAD_VERSION))
    (InvalidPayload ("unsupported version " +:+ pretty (pp_version payload))) in
  check reject_if (pp_expires_epoch payload <? current_epoch) PairingExpired in
  let identity_key := vk_to_bytes (identity_verifying_key identity) in
  let* payload_identity := decode_32_byte_hex (pp_identity_key payload) in
  check reject_if (negb (bool_decide (payload_identity = identity_key)))
    PairingIdentityMismatch in
  check require_authorizing_device s identity (pp_authorizing_device_id payload) in
  check reject_if (device_key_active s (vk_to_bytes new_device_key)) DuplicateDeviceKey in
  let message := canonical_pairing_message (pp_version payload)
    (pp_authorizing_device_id payload) (pp_identity_key payload) (pp_requested_label payload)
    (pp_challenge payload) (pp_expires_epoch payload) in
  let* signature := decode_signature (pp_signature payload) in
  reject_if (negb (vk_verify (identity_verifying_key identity) (as_bytes message) signature))
    SignatureVerificationFailed.

Definition add_device_from_pairing_payload (s : DeviceSet) (device_id : Uuid)
    (identity : Identity) (text : string) (new_device_key : verifying_key) (current_epoch : N) :
    DeviceSet * result DeviceLeaf DevicePairingError :=
  match map_err InvalidPayload (payload_from_json text) with
  | Err e => (s, Err e)
  | Ok payload =>
      match check_pairing_payload s identity payload new_device_key current_epoch with
      | Err e => (s, Err e)
      | Ok _ =>
          let '(s', leaf) := insert_authorized_device s device_id identity new_device_key
            (pp_requested_label payload) current_epoch "device-paired" in
          (s', Ok leaf)
      end
  end.
End pairing.

(** ** The signed message determines the authorization *)

Section message.
Context `{UuidTextLaws}.

Lemma no_sep_in_pretty (c : N) (x : N) : ¬ 48 ≤ c ≤ 57 → c ∉ as_bytes (pretty x).
Proof.
  intros Hc Hin. pose proof (pretty_digits x) as Hd. unfold all_digits in Hd.
  rewrite Forall_forall in Hd. by apply Hd, digit_value_bounds in Hin.
Qed.

Lemma canonical_pairing_message_inj v a i l c e v' a' i' l' c' e' :
  a < 2 ^ 128 → a' < 2 ^ 128 → c < 2 ^ 128 → c' < 2 ^ 128 →
  String.length i = String.length i' →
  canonical_pairing_message v a i l c e = canonical_pairing_message v' a' i' l' c' e' →
  v = v' ∧ a = a' ∧ i = i' ∧ l = l' ∧ c = c' ∧ e = e'.
Proof.
  intros Ha Ha' Hc Hc' Hi Heq. apply (f_equal as_bytes) in Heq. unfold canonical_pairing_message in Heq.
  rewrite !as_bytes_app in Heq. apply fixed_app_inj in Heq as [_ Heq]; [|done].
  change (as_bytes "|authorizer=") with (124 :: as_bytes "authorizer=") in Heq. cbn [app] in Heq.
  apply sep_app_inj in Heq as [Hv Heq]; [|apply no_sep_in_pretty; lia..].
  apply (inj as_bytes), (inj pretty) in Hv.
  apply fixed_app_inj in Heq as [_ Heq]; [|done].
  apply fixed_app_inj in Heq as [Hau Heq]; [|by rewrite !length_as_bytes, !uuid_to_string_length].
  apply (inj as_bytes), uuid_to_string_inj in Hau; [|done..].
  apply fixed_app_inj in Heq as [_ Heq]; [|done].
  apply fixed_app_inj in Heq as [Hid Heq]; [|by rewrite !length_as_bytes].
  apply (inj as_bytes) in Hid. apply fixed_app_inj in Heq as [_ Heq]; [|done].
  change (as_bytes "|expires_epoch=") with (as_bytes "|expires_epoch" ++ [61]) in Heq.
  rewrite !(assoc (++)) in Heq. rewrite <- !(assoc (++) _ [61]) in Heq. cbn [app] in Heq.
  apply app_sep_inj in Heq as [He Heq]; [|apply no_sep_in_pretty; lia..].
  apply (inj as_bytes), (inj pretty) in He. apply app_inv_tail in Heq.
  apply app_inj_2 in Heq as [Heq Hch]; [|by rewrite !length_as_bytes, !uuid_to_string_length].
  apply (inj as_bytes), uuid_to_string_inj in Hch; [|done..].
  apply app_inv_tail, (inj as_bytes) in Heq. done.
Qed.
End message.

(** ** Runs *)

Section runs.
Context `{Ed25519, Hex, UuidText, PairingJson}.
Implicit Types (s : DeviceSet).

(** The calls that change a device set, with the id each draws. *)
Inductive CallDevice :=
| CallAdd (id : Uuid) (identity : Identity) (key : verifying_key) (label : string) (epoch : N)
| CallPair (id : Uuid) (identity : Identity) (text : string) (key : verifying_key) (epoch : N)
| CallRemove (id : Uuid) (epoch : N)
| CallCompromise (id : Uuid) (epoch : N)
| CallRotate (new_id : Uuid) (identity : Identity) (id : Uuid) (key : verifying_key)
    (label : string) (removal_epoch replacement_epoch : N).

Definition device_call s (c : CallDevice) : DeviceSet :=
  match c with
  | CallAdd id identity key label epoch => (add_authorized_device s id identity key label epoch).1
  | CallPair id identity text key epoch =>
      (add_device_from_pairing_payload s id identity text key epoch).1
  | CallRemove id epoch => (remove_device s id epoch).1
  | CallCompromise id epoch => (compromise_device s id epoch).1
  | CallRotate new_id identity id key label e1 e2 =>
      (rotate_compromised_device s new_id identity id key label e1 e2).1
  end.

Definition device_run : DeviceSet → list CallDevice → DeviceSet := foldl device_call.

Definition drawn_id (c : CallDevice) : option Uuid :=
  match c with
  | CallAdd id _ _ _ _ | CallPair id _ _ _ _ | CallRotate id _ _ _ _ _ _ => Some id
  | _ => None
  end.

End runs.

(** A peer that only reads the transparency stream: which devices it takes for active. *)
Definition read_event (seen : gmap Uuid bool) (e : TransparencyEvent) : gmap Uuid bool :=
  if existsb (String.eqb (ev_kind e)) ["device-added"; "device-paired"]
  then <[ev_device_id e := true]> seen
  else if existsb (String.eqb (ev_kind e)) ["device-removed"; "device-compromised-removed"]
  then <[ev_device_id e := false]> seen
  else seen.

Definition read_transparency : list TransparencyEvent → gmap Uuid bool := foldl read_event ∅.

(** ** The invariant *)

Record device_wf (s : DeviceSet) : Prop := {
  dw_log : read_transparency (dv_transparency s) = is_active <$> dv_devices s;
  dw_id i d : dv_devices s !! i = Some d → dl_device_id d = i;
  dw_retired i d : dv_devices s !! i = Some d →
    is_active d = true ↔ dl_removed_at_epoch d = None;
  dw_leaf i d : dv_next_leaf s < u32_max → dv_devices s !! i = Some d →
    dl_leaf_index d < dv_next_leaf s;
  dw_leaf_inj i d j d' : dv_next_leaf s < u32_max →
    dv_devices s !! i = Some d → dv_devices s !! j = Some d' →
    dl_leaf_index d = dl_leaf_index d' → i = j
}.

Lemma read_transparency_snoc log e :
  read_transparency (log ++ [e]) = read_event (read_transparency log) e.
Proof. unfold read_transparency. by rewrite foldl_app. Qed.

Lemma DeviceSet_new_wf : device_wf DeviceSet_new.
Proof.
  split; simpl; [by rewrite fmap_empty|intros *; by rewrite lookup_empty..|].
  intros * _. by rewrite lookup_empty.
Qed.

Section invariant.
Context `{Ed25519, Hex, UuidText, PairingJson}.
Implicit Types (s : DeviceSet).

Lemma insert_device_wf s id identity key label epoch kind :
  device_wf s → existsb (String.eqb kind) ["device-added"; "device-paired"] = true →
  device_wf (insert_authorized_device s id identity key label epoch kind).1.
Proof.
  intros [Hlog Hid Hret Hleaf Hinj] Hk. unfold insert_authorized_device.
  split; cbn [fst dv_transparency dv_devices dv_next_leaf].
  - rewrite read_transparency_snoc, Hlog, fmap_insert. unfold read_event; cbn [ev_kind ev_device_id].
    by rewrite Hk.
  - intros i d [[<- <-]|[_ Hd]]%lookup_insert_Some; [done|by apply Hid].
  - intros i d [[<- <-]|[_ Hd]]%lookup_insert_Some; [done|by eapply Hret].
  - unfold sat_add. intros i d Hn [[<- <-]|[_ Hd]]%lookup_insert_Some; [simpl; lia|].
    apply Hleaf in Hd; lia.
  - unfold sat_add. intros i d j d' Hn Hd Hd' Heq.
    assert (dv_next_leaf s < u32_max) as Hn' by lia.
    apply lookup_insert_Some in Hd as [[<- <-]|[_ Hd]];
      apply lookup_insert_Some in Hd' as [[<- <-]|[_ Hd']]; simpl in Heq; [done| | |by eapply Hinj].
    + apply Hleaf in Hd'; [lia|done].
    + apply Hleaf in Hd; [lia|done].
Qed.

Lemma retire_device_wf s id status kind epoch :
  device_wf s → status ≠ Active →
  existsb (String.eqb kind) ["device-added"; "device-paired"] = false →
  existsb (String.eqb kind) ["device-removed"; "device-compromised-removed"] = true →
  device_wf (retire_device s id status kind epoch).1.
Proof.
  intros Hwf Hst Hk1 Hk2. unfold retire_device.
  destruct (dv_devices s !! id) as [d0|] eqn:Hd0; [|done].
  destruct (is_active d0); [|done]. destruct Hwf as [Hlog Hid Hret Hleaf Hinj].
  split; cbn [negb fst push_event dv_transparency dv_devices dv_next_leaf].
  - rewrite read_transparency_snoc, Hlog, fmap_insert. unfold read_event; cbn [ev_kind ev_device_id].
    rewrite Hk1, Hk2. f_equal. unfold is_active; simpl. by rewrite bool_decide_eq_false_2.
  - intros i d [[<- <-]|[_ Hd]]%lookup_insert_Some; [simpl|]; by eapply Hid.
  - intros i d [[<- <-]|[_ Hd]]%lookup_insert_Some; [|by eapply Hret].
    simpl. unfold is_active; simpl. by rewrite bool_decide_eq_false_2.
  - intros i d Hn [[<- <-]|[_ Hd]]%lookup_insert_Some; [simpl|]; by eapply Hleaf.
  - intros i d j d' Hn Hd Hd' Heq.
    apply lookup_insert_Some in Hd as [[<- <-]|[_ Hd]];
      apply lookup_insert_Some in Hd' as [[<- <-]|[_ Hd']]; simpl in Heq; [done|by eapply Hinj..].
Qed.

Lemma push_other_wf s e :
  device_wf s →
  existsb (String.eqb (ev_kind e)) ["device-added"; "device-paired"] = false →
  existsb (String.eqb (ev_kind e)) ["device-removed"; "device-compromised-removed"] = false →
  device_wf (push_event s e).
Proof.
  intros [Hlog Hid Hret Hleaf Hinj] Hk1 Hk2. split; [|done..].
  simpl. rewrite read_transparency_snoc, Hlog. unfold read_event. by rewrite Hk1, Hk2.
Qed.

Lemma device_call_wf s c : device_wf s → device_wf (device_call s c).
Proof.
  intros Hwf. destruct c; simpl.
  - by apply insert_device_wf.
  - unfold add_device_from_pairing_payload. destruct (map_err _ _) as [payload|e]; [|done].
    destruct (check_pairing_payload _ _ _ _ _); [|done]. by apply (insert_device_wf s).
  - unfold remove_device. pose proof (retire_device_wf s id Removed "device-removed" epoch Hwf) as Hr.
    destruct (retire_device _ _ _ _ _). by apply Hr.
  - by apply retire_device_wf.
  - unfold rotate_compromised_device.
    pose proof (retire_device_wf s id Compromised "device-compromised-removed" removal_epoch Hwf)
      as Hr. unfold compromise_device. destruct (retire_device _ _ _ _ _) as [s1 [retired|e]].
    + apply push_other_wf; [|done..]. apply (insert_device_wf s1); [|done]. by apply Hr.
    + by apply Hr.
Qed.

Lemma device_run_wf s calls : device_wf s → device_wf (device_run s calls).
Proof.
  revert s. induction calls as [|c rest IH]; intros s Hwf; simpl; [done|].
  apply IH. by apply device_call_wf.
Qed.

(** A known device that is not active. *)
Definition retired_in s (id : Uuid) : Prop :=
  ∃ d, dv_devices s !! id = Some d ∧ is_active d = false.

Lemma retire_device_retired s id status kind epoch i :
  status ≠ Active → retired_in s i → retired_in (retire_device s id status kind epoch).1 i.
Proof.
  intros Hst (d & Hd & Ha). unfold retire_device.
  destruct (dv_devices s !! id) as [d0|] eqn:Hd0; [|by exists d].
  destruct (is_active d0) eqn:Ha0; [|by exists d]. exists d. split; [|done]. simpl.
  rewrite lookup_insert_ne; [done|]. intros ->. congruence.
Qed.

Lemma device_call_retired s c i :
  drawn_id c ≠ Some i → retired_in s i → retired_in (device_call s c) i.
Proof.
  intros Hne Hi.
  assert (∀ s id identity key label epoch kind, id ≠ i → retired_in s i →
    retired_in (insert_authorized_device s id identity key label epoch kind).1 i) as Hins.
  { intros s0 id identity key label epoch kind Hid (d & Hd & Ha). exists d. split; [|done].
    simpl. by rewrite lookup_insert_ne. }
  destruct c; simpl in *.
  - apply Hins; congruence.
  - unfold add_device_from_pairing_payload. destruct (map_err _ _) as [payload|e]; [|done].
    destruct (check_pairing_payload _ _ _ _ _); [|done]. apply (Hins s); congruence.
  - unfold remove_device. pose proof (retire_device_retired s id Removed "device-removed" epoch i) as Hr.
    destruct (retire_device _ _ _ _ _). by apply Hr.
  - by apply retire_device_retired.
  - unfold rotate_compromised_device, compromise_device.
    pose proof (retire_device_retired s id Compromised "device-compromised-removed" removal_epoch i)
      as Hr. destruct (retire_device _ _ _ _ _) as [s1 [retired|e]]; [|by apply Hr].
    destruct (Hins s1 new_id identity key label replacement_epoch "device-added")
      as (d & Hd & Ha); [congruence|by apply Hr|]. by exists d.
Qed.

Lemma device_run_retired s calls i :
  Some i ∉ (drawn_id <$> calls) → retired_in s i → retired_in (device_run s calls) i.
Proof.
  revert s. induction calls as [|c rest IH]; intros s Hne Hi; simpl; [done|].
  rewrite fmap_cons in Hne. apply not_elem_of_cons in Hne as [Hc Hrest].
  apply IH; [done|]. apply device_call_retired; [congruence|done].
Qed.
End invariant.

(** ** Pairing *)

Section pairing_proofs.
Context `{Ed25519Laws, HexLaws, UuidText, PairingJsonLaws}.
Implicit Types (s : DeviceSet).

Lemma normalize_device_label_idemp label :
  normalize_device_label (normalize_device_label label) = normalize_device_label label.
Proof.
  unfold normalize_device_label at 2 3. case_bool_decide as Ht; [done|].
  unfold normalize_device_label. rewrite trim_idemp. by rewrite bool_decide_eq_false_2.
Qed.

Lemma decode_signature_encode sig : decode_signature (hex_encode (sig_to_bytes sig)) = Ok sig.
Proof.
  unfold decode_signature. rewrite hex_decode_encode by apply sig_to_bytes_u8. simpl.
  by rewrite sig_from_slice_to_bytes.
Qed.

Lemma decode_key_encode v : decode_32_byte_hex (hex_encode (vk_to_bytes v)) = Ok (vk_to_bytes v).
Proof.
  unfold decode_32_byte_hex. rewrite hex_decode_encode by apply vk_to_bytes_u8. simpl.
  by rewrite vk_to_bytes_length.
Qed.

(** The payload an existing device signs. *)
Definition signed_payload (challenge : Uuid) (identity : Identity) (authorizer : Uuid)
    (label : string) (expires : N) : DevicePairingPayload :=
  let identity_key := hex_encode (vk_to_bytes (identity_verifying_key identity)) in
  {| pp_version := PAIRING_PAYLOAD_VERSION;
     pp_authorizing_device_id := authorizer;
     pp_identity_key := identity_key;
     pp_requested_label := normalize_device_label label;
     pp_challenge := challenge;
     pp_expires_epoch := expires;
     pp_signature := hex_encode (sign_pairing_authorization identity
       (as_bytes (canonical_pairing_message PAIRING_PAYLOAD_VERSION authorizer identity_key
         (normalize_device_label label) challenge expires))) |}.

Lemma create_pairing_payload_ok s challenge identity authorizer label now valid text :
  create_pairing_payload s challenge identity authorizer label now valid = Ok text →
  is_ok (require_authorizing_device s identity authorizer) = true ∧
  payload_from_json text = Ok (signed_payload challenge identity authorizer label
    (sat_add u64_max now (N.max valid 1))).
Proof.
  unfold create_pairing_payload.
  destruct (require_authorizing_device s identity authorizer) as [d|e]; simpl; [|done].
  intros Ht. split; [done|]. apply payload_from_to_json.
  unfold map_err in Ht. by destruct (payload_to_json _); simplify_eq.
Qed.

(** The checks on a signed payload, in any device set. *)
Lemma check_signed_payload s challenge identity authorizer label expires key now :
  check_pairing_payload s identity (signed_payload challenge identity authorizer label expires)
    key now =
  if expires <? now then Err PairingExpired
  else if negb (is_ok (require_authorizing_device s identity authorizer))
  then Err UnauthorizedAuthorizingDevice
  else if device_key_active s (vk_to_bytes key) then Err DuplicateDeviceKey
  else Ok tt.
Proof.
  unfold check_pairing_payload, signed_payload; simpl.
  destruct (expires <? now); simpl; [done|]. rewrite decode_key_encode; simpl.
  rewrite bool_decide_eq_true_2 by done; simpl.
  unfold require_authorizing_device.
  destruct (dv_devices s !! authorizer) as [d|]; simpl; [|done].
  destruct (_ && _); simpl; [|done].
  destruct (device_key_active s _); simpl; [done|].
  unfold sign_pairing_authorization. rewrite decode_signature_encode; simpl.
  unfold identity_verifying_key. by rewrite vk_verify_sign.
Qed.
End pairing_proofs.

(** ** Claims *)

Section claims.
Context `{Ed25519Laws, HexLaws, UuidText, PairingJsonLaws}.

(** The transparency stream tells peers the truth. After any sequence of additions,
    pairings, removals, compromises and rotations, a peer that only replays the emitted
    events knows exactly the account's devices and which of them are active; each device
    is filed under its own id, has a removal epoch exactly when it is retired, and, short
    of exhausting the 32-bit counter, no two devices share a leaf index. *)
Theorem transparency_log_is_complete calls :
  let s := device_run DeviceSet_new calls in
  read_transparency (dv_transparency s) = is_active <$> dv_devices s ∧
  (∀ id d, dv_devices s !! id = Some d →
     dl_device_id d = id ∧ (is_active d = true ↔ dl_removed_at_epoch d = None)) ∧
  (dv_next_leaf s < u32_max → ∀ i d j d',
     dv_devices s !! i = Some d → dv_devices s !! j = Some d' →
     dl_leaf_index d = dl_leaf_index d' → i = j).
Proof.
  intros s. destruct (device_run_wf DeviceSet_new calls DeviceSet_new_wf) as [Hlog Hid Hret _ Hinj].
  split_and!; [done| |].
  - intros id d Hd. split; [by eapply Hid|by eapply Hret].
  - intros Hn i d j d'. by apply Hinj.
Qed.

(** A retired device stays retired: once a device of a reachable set was removed or
    compromised, no later call that does not draw its id again makes it able to send, and
    it is never accepted as the authorizer of a pairing. *)
Theorem retired_device_stays_retired calls later id :
  let s := device_run DeviceSet_new calls in
  let s' := device_run s later in
  is_Some (dv_devices s !! id) →
  device_may_send s id = false →
  Some id ∉ (drawn_id <$> later) →
  device_may_send s' id = false ∧
  (∀ identity, require_authorizing_device s' identity id = Err UnauthorizedAuthorizingDevice).
Proof.
  intros s s' [d Hd] Hs Hfresh.
  assert (retired_in s id) as Hr.
  { exists d. split; [done|]. unfold device_may_send in Hs. by rewrite Hd in Hs. }
  apply (device_run_retired s later id Hfresh) in Hr as (d' & Hd' & Ha). fold s' in Hd'.
  unfold device_may_send, require_authorizing_device. rewrite Hd', Ha. done.
Qed.

(** Pairing round trip: a payload created by an active device of the identity, used on
    any later device set, is refused as expired after its last epoch, refused when the
    authorizing device is no longer active, refused for a device key that is active
    already, and otherwise adds the new device, active, under the same identity, with the
    requested label and the next leaf index. *)
Theorem pairing_round_trip s0 challenge identity authorizer label created valid text s id key now :
  create_pairing_payload s0 challenge identity authorizer label created valid = Ok text →
  let expires := sat_add u64_max created (N.max valid 1) in
  let r := add_device_from_pairing_payload s id identity text key now in
  (expires < now → r = (s, Err PairingExpired)) ∧
  (now ≤ expires → device_may_send s authorizer = false →
     r = (s, Err UnauthorizedAuthorizingDevice)) ∧
  (now ≤ expires → is_ok (require_authorizing_device s identity authorizer) = true →
     if device_key_active s (vk_to_bytes key) then r = (s, Err DuplicateDeviceKey)
     else ∃ leaf, r.2 = Ok leaf ∧ dv_devices r.1 = <[id := leaf]> (dv_devices s) ∧
       dl_leaf_index leaf = dv_next_leaf s ∧ dl_status leaf = Active ∧
       dl_identity_key leaf = vk_to_bytes (identity_verifying_key identity) ∧
       dl_device_key leaf = vk_to_bytes key ∧ dl_label leaf = normalize_device_label label).
Proof.
  intros [_ Hjson]%create_pairing_payload_ok expires r. fold expires in Hjson.
  unfold r, add_device_from_pairing_payload. rewrite Hjson. cbn [map_err].
  rewrite check_signed_payload. split_and!.
  - intros Hexp. by rewrite (proj2 (N.ltb_lt _ _)).
  - intros Hexp Hs. rewrite (proj2 (N.ltb_ge _ _)) by done.
    unfold device_may_send in Hs. unfold require_authorizing_device.
    destruct (dv_devices s !! authorizer) as [d|]; [|done]. by rewrite Hs.
  - intros Hexp Hok. rewrite (proj2 (N.ltb_ge _ _)), Hok by done. simpl.
    destruct (device_key_active s (vk_to_bytes key)); [done|].
    eexists. split_and!; [done..|]. simpl. apply normalize_device_label_idemp.
Qed.

(** No device joins without the account's signature over exactly this authorization:
    when a payload admits a device, it is unexpired, its authorizer is an active device of
    the identity, the device key was not active, and the identity key verifies a signature
    over the canonical message; and any payload with that message has the same version,
    authorizer, identity, label, challenge and expiry. *)
Theorem pairing_needs_the_account_signature `{!UuidTextLaws} s id identity text key now leaf p q :
  payload_from_json text = Ok p →
  (add_device_from_pairing_payload s id identity text key now).2 = Ok leaf →
  let message p := canonical_pairing_message (pp_version p) (pp_authorizing_device_id p)
    (pp_identity_key p) (pp_requested_label p) (pp_challenge p) (pp_expires_epoch p) in
  now ≤ pp_expires_epoch p ∧ device_may_send s (pp_authorizing_device_id p) = true ∧
  device_key_active s (vk_to_bytes key) = false ∧
  (∃ sig, decode_signature (pp_signature p) = Ok sig ∧
     vk_verify (identity_verifying_key identity) (as_bytes (message p)) sig = true) ∧
  (pp_authorizing_device_id p < 2 ^ 128 → pp_challenge p < 2 ^ 128 →
   pp_authorizing_device_id q < 2 ^ 128 → pp_challenge q < 2 ^ 128 →
   String.length (pp_identity_key q) = 64%nat → message q = message p →
   pp_version q = pp_version p ∧ pp_authorizing_device_id q = pp_authorizing_device_id p ∧
   pp_identity_key q = pp_identity_key p ∧ pp_requested_label q = pp_requested_label p ∧
   pp_challenge q = pp_challenge p ∧ pp_expires_epoch q = pp_expires_epoch p).
Proof.
  intros Hjson Hadd message. unfold add_device_from_pairing_payload in Hadd.
  rewrite Hjson in Hadd. cbn [map_err] in Hadd.
  destruct (check_pairing_payload s identity p key now) as [[]|e] eqn:Hchk; [|done]. clear Hadd.
  unfold check_pairing_payload in Hchk.
  destruct (negb (pp_version p =? _)); [done|]. destruct (N.ltb_spec (pp_expires_epoch p) now); [done|].
  unfold decode_32_byte_hex in Hchk. cbn [reject_if rbind] in Hchk.
  destruct (hex_decode (pp_identity_key p)) as [b|] eqn:Hhex; [|done]. cbn [map_err rbind] in Hchk.
  destruct (Nat.eqb_spec (length b) 32) as [Hlen|]; [|done]. cbn [rbind] in Hchk.
  destruct (negb (bool_decide _)); [done|]. cbn [reject_if rbind] in Hchk.
  unfold require_authorizing_device in Hchk.
  destruct (dv_devices s !! pp_authorizing_device_id p) as [d|] eqn:Hd; [|done].
  destruct (is_active d) eqn:Ha; [|done]. destruct (bool_decide _); [|done]. cbn [andb rbind] in Hchk.
  destruct (device_key_active s _) eqn:Hk; [done|]. cbn [reject_if rbind] in Hchk.
  destruct (decode_signature (pp_signature p)) as [sig|] eqn:Hsig; [|done]. cbn [rbind] in Hchk.
  destruct (vk_verify _ _ sig) eqn:Hv; [|done]. split_and!; [done| |done|by eauto|].
  - unfold device_may_send. by rewrite Hd.
  - intros Ha1 Hc1 Ha2 Hc2 Hl. apply canonical_pairing_message_inj; [done..|].
    apply hex_decode_length in Hhex. lia.
Qed.
End claims.

(** ** Witnesses *)

Section witnesses.
#[local] Existing Instance Toy.toy_ed.
#[local] Existing Instance Toy.toy_ed_laws.
#[local] Existing Instance Toy.toy_hex.
#[local] Existing Instance Toy.toy_hex_laws.
#[local] Existing Instance Toy.toy_uuid.
#[local] Existing Instance Toy.toy_uuid_laws.

#[local] Instance DevicePairingPayload_eq_dec : EqDecision DevicePairingPayload.
Proof. solve_decision. Defined.
#[local] Instance DevicePairingPayload_countable : Countable DevicePairingPayload.
Proof.
  apply (inj_countable'
    (λ p, (pp_version p, pp_authorizing_device_id p, pp_identity_key p, pp_requested_label p,
           pp_challenge p, pp_expires_epoch p, pp_signature p))
    (λ '(v, a, i, l, c, e, s), Build_DevicePairingPayload v a i l c e s)).
  by intros [].
Defined.

(** A serialization in place of JSON: the bits of the payload's number. *)
Fixpoint bits_of_pos (p : positive) : string :=
  match p with
  | xH => ""
  | xO q => String "0"%char (bits_of_pos q)
  | xI q => String "1"%char (bits_of_pos q)
  end.

Fixpoint pos_of_bits (s : string) : positive :=
  match s with
  | EmptyString => xH
  | String c r => if Ascii.eqb c "0"%char then xO (pos_of_bits r) else xI (pos_of_bits r)
  end.

#[local] Instance toy_json : PairingJson := {|
  payload_to_json p := Ok (bits_of_pos (encode p));
  payload_from_json s := ok_or (decode (pos_of_bits s)) "invalid payload";
  signature_error_text := "signature error"
|}.

#[local] Instance toy_json_laws : PairingJsonLaws.
Proof.
  split; [by eauto|]. intros p s. simpl. intros [= <-].
  assert (∀ n, pos_of_bits (bits_of_pos n) = n) as -> by (induction n; simpl; congruence).
  by rewrite decode_encode.
Qed.

Definition ada : Identity := {| id_display_name := "ada"; id_signing_key := Toy.alice |}.
Definition laptop_set : DeviceSet :=
  device_run DeviceSet_new [CallAdd 7 ada Toy.alice "laptop" 1].
Definition phone_payload : DevicePairingPayload := signed_payload 9 ada 7 " phone " 4.
Definition phone_text : string := bits_of_pos (encode phone_payload).

Lemma retired_device_stays_retired_witness :
  device_may_send (device_run (device_run DeviceSet_new
    [CallAdd 7 ada Toy.alice "laptop" 1; CallRemove 7 2]) [CallAdd 8 ada Toy.bob "phone" 3]) 7 = false.
Proof.
  apply (retired_device_stays_retired [CallAdd 7 ada Toy.alice "laptop" 1; CallRemove 7 2]
    [CallAdd 8 ada Toy.bob "phone" 3] 7).
  - eexists. reflexivity.
  - reflexivity.
  - apply (bool_decide_unpack _). reflexivity.
Defined.

Lemma pairing_round_trip_witness :
  ∃ leaf, (add_device_from_pairing_payload laptop_set 8 ada phone_text Toy.bob 2).2 = Ok leaf ∧
    dl_label leaf = "phone" ∧ dl_leaf_index leaf = 1.
Proof.
  destruct (pairing_round_trip laptop_set 9 ada 7 " phone " 1 3 phone_text laptop_set 8 Toy.bob 2)
    as (_ & _ & H3); [reflexivity|].
  destruct H3 as (leaf & H1 & _ & H2 & _ & _ & _ & H4); [vm_compute; discriminate|reflexivity|].
  exists leaf. split; [exact H1|]. split; [exact H4|exact H2].
Defined.

Lemma pairing_needs_the_account_signature_witness :
  device_may_send laptop_set 7 = true ∧ device_key_active laptop_set (Toy.key_bytes false) = false.
Proof.
  destruct (add_device_from_pairing_payload laptop_set 8 ada phone_text Toy.bob 2).2
    as [leaf|e] eqn:Hadd; [|vm_compute in Hadd; discriminate Hadd].
  destruct (pairing_needs_the_account_signature laptop_set 8 ada phone_text Toy.bob 2 leaf
    phone_payload phone_payload) as (_ & H2 & H3 & _); [|exact Hadd|].
  - vm_compute. reflexivity.
  - split; [exact H2|exact H3].
Defined.
End witnesses.
