(* ===== verification/ContentKeys.v ===== *)
(** * Content keys (crates/content-keys/src/lib.rs)

    Retention windows and the key state they give a message, policy transitions,
    cooperative shredding across the devices of an account, and the oracle that
    releases archived keys to members who prove their membership. Instants come from
    [chrono]; [Duration::seconds] panics out of its range, which is [None] here. *)

From S2P Require Import Prelude Collections Bytes StrOps Crypto Governance MlsGroup.

(** ** Retention windows *)

Inductive RetentionWindow :=
| Hours1
| Hours24
| Days7
| Days30
| Days90
| CustomSeconds (seconds : N)
| UnlimitedWarned.

#[export] Instance RetentionWindow_eq_dec : EqDecision RetentionWindow.
Proof. solve_decision. Defined.

Definition window_presets : list RetentionWindow := [Hours1; Hours24; Days7; Days30; Days90].

Definition window_label (w : RetentionWindow) : string :=
  match w with
  | Hours1 => "1 hour"
  | Hours24 => "24 hours"
  | Days7 => "7 days"
  | Days30 => "30 days"
  | Days90 => "90 days"
  | CustomSeconds seconds => "custom " +:+ pretty seconds +:+ " seconds"
  | UnlimitedWarned => "warned unlimited / never-lock"
  end.

Definition window_seconds (w : RetentionWindow) : option N :=
  match w with
  | Hours1 => Some 3600
  | Hours24 => Some 86400
  | Days7 => Some 604800
  | Days30 => Some 2592000
  | Days90 => Some 7776000
  | CustomSeconds s => Some s
  | UnlimitedWarned => None
  end.

Definition one_of (s : string) (alternatives : list string) : bool :=
  existsb (String.eqb s) alternatives.

Definition window_from_label (label : string) : option RetentionWindow :=
  let normalized := to_ascii_lowercase (trim label) in
  if one_of normalized ["1 hour"; "1h"; "hour"] then Some Hours1
  else if one_of normalized ["24 hours"; "24h"; "1 day"] then Some Hours24
  else if one_of normalized ["7 days"; "7d"; "7 day default"] then Some Days7
  else if one_of normalized ["30 days"; "30d"] then Some Days30
  else if one_of normalized ["90 days"; "90d"] then Some Days90
  else if one_of normalized ["unlimited"; "never-lock"; "warned unlimited / never-lock"]
  then Some UnlimitedWarned
  else
    rest ← strip_prefix "custom " normalized;
    seconds ← strip_suffix " seconds" rest;
    CustomSeconds <$> parse_u64 seconds.

Inductive RetentionPolicySource := SourceUserDefault | SourceGovernance | SourceChannel.

Record RetentionPolicy := {
  rp_window : RetentionWindow;
  rp_source : RetentionPolicySource
}.

Definition policy_user_default (w : RetentionWindow) : RetentionPolicy :=
  {| rp_window := w; rp_source := SourceUserDefault |}.

Definition RetentionPolicy_default : RetentionPolicy := policy_user_default Days7.

(** ** Key states *)

Inductive KeyState :=
| KeyCached (key : bytes)
| KeyLocked
| KeyShredded
| KeyDecoy (key : bytes)
| KeyRateLimited
| KeyUnavailable.

#[export] Instance KeyState_eq_dec : EqDecision KeyState.
Proof. solve_decision. Defined.

Definition content_key_context (author : LeafIndex) (message_id : string) : bytes :=
  be_u32 author ++ be_u64 (str_len message_id) ++ as_bytes message_id.

Definition derive_content_key `{Sha256} (author : LeafIndex) (message_id : string)
    (epoch_secret : bytes) : bytes :=
  derive_epoch_secret epoch_secret ExportContentKey (content_key_context author message_id).

(** [s as i64] *)
Definition as_i64 (s : N) : Z :=
  if s <? 2 ^ 63 then Z.of_N s else (Z.of_N s - 2 ^ 64)%Z.

Record RetentionTransition `{Chrono} := {
  tr_old_window : RetentionWindow;
  tr_new_window : RetentionWindow;
  tr_changed_at : datetime
}.

Section retention.
Context `{Chrono}.

Definition key_state (now sent_at : datetime) (window : RetentionWindow) (key : bytes)
    (tombstoned : bool) : option KeyState :=
  if tombstoned then Some KeyShredded
  else match window_seconds window with
  | None => Some (KeyCached key)
  | Some s =>
      limit ← td_seconds (as_i64 s);
      if td_le (dt_since now sent_at) limit then Some (KeyCached key) else Some KeyLocked
  end.

Definition is_shorter (new_window old_window : RetentionWindow) : bool :=
  match window_seconds new_window, window_seconds old_window with
  | Some new, Some old => new <? old
  | Some _, None => true
  | None, _ => false
  end.

Definition state_for_message (tr : RetentionTransition) (now sent_at : datetime) (key : bytes)
    (tombstoned : bool) : option KeyState :=
  if tombstoned then Some KeyShredded
  else if is_shorter (tr_new_window tr) (tr_old_window tr) then
    key_state now sent_at (tr_new_window tr) key false
  else if dt_lt sent_at (tr_changed_at tr) then
    key_state now sent_at (tr_old_window tr) key false
  else key_state now sent_at (tr_new_window tr) key false.

Definition transition_key_state (now sent_at : datetime) (current_state : KeyState)
    (tr : RetentionTransition) (key : bytes) : option KeyState :=
  match current_state with
  | KeyShredded => Some KeyShredded
  | KeyLocked =>
      if negb (is_shorter (tr_new_window tr) (tr_old_window tr)) then Some KeyLocked
      else state_for_message tr now sent_at key false
  | _ => state_for_message tr now sent_at key false
  end.
End retention.

(** ** Shredding across devices *)

Record Tombstones := { tb_ids : gset string }.

Definition tombstones_shred (t : Tombstones) (id : string) : Tombstones :=
  {| tb_ids := {[id]} ∪ tb_ids t |}.
Definition tombstones_contains (t : Tombstones) (id : string) : bool :=
  bool_decide (id ∈ tb_ids t).
Definition tombstones_ids (t : Tombstones) : list string := sorted_elements (tb_ids t).

Record DeviceShredStatus := {
  sd_device_id : string;
  sd_online : bool;
  sd_seen_tombstones : Tombstones
}.

Record CrossDeviceShredState := {
  cd_global_tombstones : Tombstones;
  cd_devices : gmap string DeviceShredStatus
}.

Definition CrossDeviceShredState_default : CrossDeviceShredState :=
  {| cd_global_tombstones := {| tb_ids := ∅ |}; cd_devices := ∅ |}.

(** [for id in ids { seen.shred(id) }] *)
Definition shred_all (t : Tombstones) (ids : list string) : Tombstones :=
  foldl tombstones_shred t ids.

Definition see_tombstones (d : DeviceShredStatus) (seen : Tombstones) : DeviceShredStatus :=
  {| sd_device_id := sd_device_id d; sd_online := sd_online d; sd_seen_tombstones := seen |}.

(** [for device in self.devices.values_mut().filter(|device| device.online)] *)
Definition for_online (f : Tombstones → Tombstones) (ds : gmap string DeviceShredStatus) :
    gmap string DeviceShredStatus :=
  (λ d, if sd_online d then see_tombstones d (f (sd_seen_tombstones d)) else d) <$> ds.

Definition register_device (st : CrossDeviceShredState) (device_id : string) (online : bool) :
    CrossDeviceShredState :=
  let seen := if online
              then shred_all {| tb_ids := ∅ |} (tombstones_ids (cd_global_tombstones st))
              else {| tb_ids := ∅ |} in
  {| cd_global_tombstones := cd_global_tombstones st;
     cd_devices := <[device_id := {| sd_device_id := device_id; sd_online := online;
                                     sd_seen_tombstones := seen |}]> (cd_devices st) |}.

Definition shred_message (st : CrossDeviceShredState) (message_id : string) :
    CrossDeviceShredState :=
  {| cd_global_tombstones := tombstones_shred (cd_global_tombstones st) message_id;
     cd_devices := for_online (λ t, tombstones_shred t message_id) (cd_devices st) |}.

Definition merge_tombstones (st : CrossDeviceShredState) (message_ids : list string) :
    CrossDeviceShredState :=
  let global := shred_all (cd_global_tombstones st) message_ids in
  {| cd_global_tombstones := global;
     cd_devices := for_online (λ t, shred_all t (tombstones_ids global)) (cd_devices st) |}.

Definition tombstone_ids (st : CrossDeviceShredState) : list string :=
  tombstones_ids (cd_global_tombstones st).

Definition set_online (st : CrossDeviceShredState) (device_id : string) (online : bool) :
    CrossDeviceShredState :=
  match cd_devices st !! device_id with
  | None => st
  | Some d =>
      let seen := if online
                  then shred_all (sd_seen_tombstones d) (tombstones_ids (cd_global_tombstones st))
                  else sd_seen_tombstones d in
      {| cd_global_tombstones := cd_global_tombstones st;
         cd_devices := <[device_id := {| sd_device_id := sd_device_id d; sd_online := online;
                                         sd_seen_tombstones := seen |}]> (cd_devices st) |}
  end.

Definition pending_on_device (st : CrossDeviceShredState) (device_id message_id : string) : bool :=
  match cd_devices st !! device_id with
  | None => false
  | Some d => tombstones_contains (cd_global_tombstones st) message_id &&
              negb (tombstones_contains (sd_seen_tombstones d) message_id)
  end.

Definition device_may_serve (st : CrossDeviceShredState) (device_id message_id : string) : bool :=
  match cd_devices st !! device_id with
  | None => false
  | Some d => negb (tombstones_contains (sd_seen_tombstones d) message_id)
  end.

(** ** Membership proofs *)

Inductive MembershipProofError :=
| ProofInvalidVerifierKey
| ProofInvalidSignatureBytes
| ProofInvalidSignature
| GroupCommitmentMismatch.

Record MembershipProof := {
  mp_requester_leaf : LeafIndex;
  mp_epoch : N;
  mp_group_id : string;
  mp_group_commitment : bytes;
  mp_device_public_key : bytes;
  mp_signature : bytes
}.

Definition membership_proof_transcript (requester_leaf : LeafIndex) (epoch : N)
    (group_id : string) (group_commitment device_public_key : bytes) : bytes :=
  as_bytes "discrypt-live-key-membership-proof-v1" ++ be_u32 requester_leaf ++ be_u64 epoch ++
  be_u64 (str_len group_id) ++ as_bytes group_id ++ group_commitment ++ device_public_key.

(** The transcript a proof carries a signature of. *)
Definition proof_transcript (p : MembershipProof) : bytes :=
  membership_proof_transcript (mp_requester_leaf p) (mp_epoch p) (mp_group_id p)
    (mp_group_commitment p) (mp_device_public_key p).

(** What [derive_membership_group_commitment] hashes. *)
Definition group_commitment_input (epoch : N) (members : gset LeafIndex) : bytes :=
  as_bytes "discrypt-live-key-epoch-group-commitment-v1" ++ be_u64 epoch ++
  be_u64 (N.of_nat (size members)) ++ (sorted_elements members ≫= be_u32).

Section proof_ops.
Context `{Sha256, Ed25519}.

Definition MembershipProof_sign (requester_leaf : LeafIndex) (epoch : N) (group_id : string)
    (group_commitment : bytes) (k : signing_key) : MembershipProof :=
  let device_public_key := vk_to_bytes (vk_of k) in
  {| mp_requester_leaf := requester_leaf;
     mp_epoch := epoch;
     mp_group_id := group_id;
     mp_group_commitment := group_commitment;
     mp_device_public_key := device_public_key;
     mp_signature := sig_to_bytes (sign k (membership_proof_transcript requester_leaf epoch
                       group_id group_commitment device_public_key)) |}.

Definition proof_verify_signature (p : MembershipProof) (expected_group_commitment : bytes) :
    result unit MembershipProofError :=
  check reject_if (negb (bool_decide (mp_group_commitment p = expected_group_commitment)))
    GroupCommitmentMismatch in
  let* verifier := ok_or (vk_from_bytes (mp_device_public_key p)) ProofInvalidVerifierKey in
  let* s := ok_or (sig_from_slice (mp_signature p)) ProofInvalidSignatureBytes in
  reject_if (negb (vk_verify verifier (proof_transcript p) s)) ProofInvalidSignature.

Definition derive_membership_group_commitment (epoch : N) (members : gset LeafIndex) : bytes :=
  sha256 (group_commitment_input epoch members).
End proof_ops.

(** ** The live-key oracle *)

Record LiveKeyResponse := {
  lr_state : KeyState;
  lr_authorized : bool
}.

Inductive LiveKeyFailureResponseMode := ModeDecoyKey | ModeUniformUnavailable.

Inductive LocalMembershipStateError :=
| EpochMismatch (group_epoch governance_epoch : N)
| InvalidDeviceKey (leaf : LeafIndex).

Record LiveKeyRequestScope := {
  sc_author_leaf : option LeafIndex;
  sc_network_identity_hash : option bytes
}.

Definition scope_new : LiveKeyRequestScope :=
  {| sc_author_leaf := None; sc_network_identity_hash := None |}.

Definition scope_for_author (author_leaf : LeafIndex) : LiveKeyRequestScope :=
  {| sc_author_leaf := Some author_leaf; sc_network_identity_hash := None |}.

Record LiveKeyRateLimitKey := {
  rk_requester_leaf : LeafIndex;
  rk_epoch : N;
  rk_author_leaf : option LeafIndex;
  rk_network_identity_hash : option bytes
}.

#[export] Instance LiveKeyRateLimitKey_eq_dec : EqDecision LiveKeyRateLimitKey.
Proof. solve_decision. Defined.
#[export] Instance LiveKeyRateLimitKey_countable : Countable LiveKeyRateLimitKey.
Proof.
  apply (inj_countable'
    (λ k, (rk_requester_leaf k, rk_epoch k, rk_author_leaf k, rk_network_identity_hash k))
    (λ '(l, e, a, n), Build_LiveKeyRateLimitKey l e a n)).
  by intros [].
Defined.

Definition from_proof_scope (p : MembershipProof) (scope : LiveKeyRequestScope) :
    LiveKeyRateLimitKey :=
  {| rk_requester_leaf := mp_requester_leaf p; rk_epoch := mp_epoch p;
     rk_author_leaf := sc_author_leaf scope;
     rk_network_identity_hash := sc_network_identity_hash scope |}.

Record LiveKeyOracle := {
  lo_members_by_epoch : gmap N (gset LeafIndex);
  lo_group_commitments_by_epoch : gmap N bytes;
  lo_authorized_device_keys : gmap (N * LeafIndex) (gset bytes);
  lo_requests_by_rate_key : gmap LiveKeyRateLimitKey N;
  lo_max_requests : N;
  lo_decoy_key : bytes;
  lo_failure_response_mode : LiveKeyFailureResponseMode
}.

Section oracle.
Context `{Sha256, Ed25519}.

Definition with_network_identity (scope : LiveKeyRequestScope) (network_identity : bytes) :
    LiveKeyRequestScope :=
  {| sc_author_leaf := sc_author_leaf scope;
     sc_network_identity_hash := Some (sha256
       (as_bytes "discrypt-live-key-rate-limit-network-identity-v1" ++ network_identity)) |}.

Definition LiveKeyOracle_new (members_by_epoch : gmap N (gset LeafIndex)) (max_requests : N) :
    LiveKeyOracle :=
  {| lo_members_by_epoch := members_by_epoch;
     lo_group_commitments_by_epoch :=
       map_imap (λ epoch members, Some (derive_membership_group_commitment epoch members))
         members_by_epoch;
     lo_authorized_device_keys := ∅;
     lo_requests_by_rate_key := ∅;
     lo_max_requests := N.max max_requests 1;
     lo_decoy_key := replicate 32 13;
     lo_failure_response_mode := ModeDecoyKey |}.

Definition epoch_group_commitment (o : LiveKeyOracle) (epoch : N) : option bytes :=
  lo_group_commitments_by_epoch o !! epoch.

(** [members_by_epoch.get(&epoch).is_some_and(|members| members.contains(&leaf))] *)
Definition is_epoch_member (o : LiveKeyOracle) (epoch : N) (leaf : LeafIndex) : bool :=
  match lo_members_by_epoch o !! epoch with
  | Some members => bool_decide (leaf ∈ members)
  | None => false
  end.

Definition set_device_keys (o : LiveKeyOracle) (keys : gmap (N * LeafIndex) (gset bytes)) :
    LiveKeyOracle :=
  {| lo_members_by_epoch := lo_members_by_epoch o;
     lo_group_commitments_by_epoch := lo_group_commitments_by_epoch o;
     lo_authorized_device_keys := keys;
     lo_requests_by_rate_key := lo_requests_by_rate_key o;
     lo_max_requests := lo_max_requests o;
     lo_decoy_key := lo_decoy_key o;
     lo_failure_response_mode := lo_failure_response_mode o |}.

Definition set_requests (o : LiveKeyOracle) (requests : gmap LiveKeyRateLimitKey N) :
    LiveKeyOracle :=
  {| lo_members_by_epoch := lo_members_by_epoch o;
     lo_group_commitments_by_epoch := lo_group_commitments_by_epoch o;
     lo_authorized_device_keys := lo_authorized_device_keys o;
     lo_requests_by_rate_key := requests;
     lo_max_requests := lo_max_requests o;
     lo_decoy_key := lo_decoy_key o;
     lo_failure_response_mode := lo_failure_response_mode o |}.

Definition authorize_member_device (o : LiveKeyOracle) (epoch : N) (requester_leaf : LeafIndex)
    (verifier : verifying_key) : LiveKeyOracle * bool :=
  if negb (is_epoch_member o epoch requester_leaf) then (o, false)
  else
    let keys := default ∅ (lo_authorized_device_keys o !! (epoch, requester_leaf)) in
    (set_device_keys o (<[(epoch, requester_leaf) := {[vk_to_bytes verifier]} ∪ keys]>
       (lo_authorized_device_keys o)), true).

Definition with_failure_response_mode (o : LiveKeyOracle) (mode : LiveKeyFailureResponseMode) :
    LiveKeyOracle :=
  {| lo_members_by_epoch := lo_members_by_epoch o;
     lo_group_commitments_by_epoch := lo_group_commitments_by_epoch o;
     lo_authorized_device_keys := lo_authorized_device_keys o;
     lo_requests_by_rate_key := lo_requests_by_rate_key o;
     lo_max_requests := lo_max_requests o;
     lo_decoy_key := lo_decoy_key o;
     lo_failure_response_mode := mode |}.

Definition failure_response (o : LiveKeyOracle) (rate_limited : bool) : LiveKeyResponse :=
  match lo_failure_response_mode o with
  | ModeDecoyKey =>
      if rate_limited then {| lr_state := KeyRateLimited; lr_authorized := false |}
      else {| lr_state := KeyDecoy (lo_decoy_key o); lr_authorized := false |}
  | ModeUniformUnavailable => {| lr_state := KeyUnavailable; lr_authorized := false |}
  end.

Definition generic_failure_response (o : LiveKeyOracle) : LiveKeyResponse :=
  failure_response o false.

Definition proof_authorized (o : LiveKeyOracle) (p : MembershipProof) : bool :=
  match lo_members_by_epoch o !! mp_epoch p with
  | None => false
  | Some members =>
      if negb (bool_decide (mp_requester_leaf p ∈ members)) then false
      else match lo_group_commitments_by_epoch o !! mp_epoch p with
      | None => false
      | Some expected_commitment =>
          if negb (is_ok (proof_verify_signature p expected_commitment)) then false
          else match lo_authorized_device_keys o !! (mp_epoch p, mp_requester_leaf p) with
          | Some keys => bool_decide (mp_device_public_key p ∈ keys)
          | None => false
          end
      end
  end.

Definition request_key_scoped (o : LiveKeyOracle) (p : MembershipProof)
    (scope : LiveKeyRequestScope) (key : bytes) : LiveKeyOracle * LiveKeyResponse :=
  if negb (proof_authorized o p) then (o, failure_response o false)
  else
    let rate_key := from_proof_scope p scope in
    let counter :=
      sat_add u64_max (default 0 (lo_requests_by_rate_key o !! rate_key)) 1 in
    let o' := set_requests o (<[rate_key := counter]> (lo_requests_by_rate_key o)) in
    if lo_max_requests o' <? counter then (o', failure_response o' true)
    else (o', {| lr_state := KeyCached key; lr_authorized := true |}).

Definition request_key (o : LiveKeyOracle) (p : MembershipProof) (key : bytes) :
    LiveKeyOracle * LiveKeyResponse :=
  request_key_scoped o p scope_new key.

Definition request_key_for_author (o : LiveKeyOracle) (p : MembershipProof)
    (author_leaf : LeafIndex) (network_identity : option string) (key : bytes) :
    LiveKeyOracle * LiveKeyResponse :=
  let scope := scope_for_author author_leaf in
  let scope := match network_identity with
               | Some network_identity => with_network_identity scope (as_bytes network_identity)
               | None => scope
               end in
  request_key_scoped o p scope key.

(** The leaves a local oracle serves: active members with a role and no ban. *)
Definition serves_leaf (governance : GovernanceState) (leaf : LeafIndex) (member : DeviceLeaf) :
    bool :=
  is_active member && bool_decide (is_Some (role governance leaf)) &&
  negb (is_banned governance leaf).

(** The second loop of [from_local_mls_governance_state]. *)
Fixpoint register_members (o : LiveKeyOracle) (epoch : N)
    (members : list (LeafIndex * DeviceLeaf)) :
    result LiveKeyOracle LocalMembershipStateError :=
  match members with
  | [] => Ok o
  | (leaf, member) :: rest =>
      if negb (is_epoch_member o epoch leaf) then register_members o epoch rest
      else
        let* verifier := ok_or (vk_from_bytes (dl_device_key member)) (InvalidDeviceKey leaf) in
        register_members (authorize_member_device o epoch leaf verifier).1 epoch rest
  end.

Definition from_local_mls_governance_state (group : GroupState) (governance : GovernanceState)
    (max_requests : N) : result LiveKeyOracle LocalMembershipStateError :=
  check reject_if (negb (gr_epoch group =? gs_epoch governance))
    (EpochMismatch (gr_epoch group) (gs_epoch governance)) in
  let active_members : gset LeafIndex :=
    list_to_set (omap (λ '(leaf, member),
      if serves_leaf governance leaf member then Some leaf else None)
      (entries (gr_members group))) in
  register_members (LiveKeyOracle_new {[gr_epoch group := active_members]} max_requests)
    (gr_epoch group) (entries (gr_members group)).
End oracle.

(** ** Retention: lemmas *)

Section retention_proofs.
Context `{ChronoLaws}.

Definition nanos_per_second : Z := 1000000000.

(** The age of a message at [now]. *)
Definition age (now sent_at : datetime) : Z := (dt_nanos now - dt_nanos sent_at)%Z.

(** [Duration::seconds] accepts the window. *)
Definition window_fits (w : RetentionWindow) : bool :=
  match window_seconds w with
  | None => true
  | Some s => (Z.of_N s <=? i64_max / 1000)%Z
  end.

(** What a retention window means: the age is within it. *)
Definition within (w : RetentionWindow) (age : Z) : bool :=
  match window_seconds w with
  | None => true
  | Some s => (age <=? Z.of_N s * nanos_per_second)%Z
  end.

Lemma i64_max_seconds : (i64_max / 1000 = 9223372036854775)%Z.
Proof. reflexivity. Qed.

Lemma as_i64_small s : (Z.of_N s ≤ i64_max / 1000)%Z → as_i64 s = Z.of_N s.
Proof.
  rewrite i64_max_seconds. intros Hs. unfold as_i64.
  by rewrite (proj2 (N.ltb_lt s (2 ^ 63))) by lia.
Qed.

Lemma key_state_eq now sent w key :
  window_fits w = true →
  key_state now sent w key false =
    Some (if within w (age now sent) then KeyCached key else KeyLocked).
Proof.
  unfold window_fits, within, key_state, age, nanos_per_second. destruct (window_seconds w) as [s|]; [|done].
  intros Hs%Z.leb_le. rewrite as_i64_small by done.
  destruct (proj2 (td_seconds_range (Z.of_N s))) as [d Hd]; [rewrite i64_max_seconds in *; lia|].
  rewrite Hd; simpl. unfold td_le. rewrite dt_since_nanos, (td_seconds_some _ _ Hd).
  by destruct (_ <=? _)%Z.
Qed.

Lemma within_mono w a a' : (a ≤ a')%Z → within w a' = true → within w a = true.
Proof. unfold within. destruct (window_seconds w); [|done]. rewrite !Z.leb_le. lia. Qed.

Lemma shorter_within new old a :
  is_shorter new old = true → within new a = true → within old a = true.
Proof.
  unfold is_shorter, within, nanos_per_second. destruct (window_seconds new) as [n|], (window_seconds old) as [o|];
    try done. rewrite N.ltb_lt, !Z.leb_le. lia.
Qed.

(** The window a transition judges a message by. *)
Definition judging_window (tr : RetentionTransition) (sent : datetime) : RetentionWindow :=
  if is_shorter (tr_new_window tr) (tr_old_window tr) then tr_new_window tr
  else if dt_lt sent (tr_changed_at tr) then tr_old_window tr else tr_new_window tr.

Lemma state_for_message_eq tr now sent key :
  window_fits (tr_old_window tr) = true → window_fits (tr_new_window tr) = true →
  state_for_message tr now sent key false =
    Some (if within (judging_window tr sent) (age now sent) then KeyCached key else KeyLocked).
Proof.
  intros Ho Hn. unfold state_for_message, judging_window.
  rewrite !key_state_eq by done. by repeat case_match.
Qed.
End retention_proofs.

Section retention_claims.
Context `{ChronoLaws}.

(** A window the clock can represent is honoured exactly: the key of a message that
    was not shredded is cached while its age is within the window and locked from then
    on for ever, a shredded one is shredded, and the key handed out is the message's. *)
Theorem retention_is_exact now later sent w key tombstoned :
  window_fits w = true →
  (dt_nanos now ≤ dt_nanos later)%Z →
  key_state now sent w key tombstoned =
    Some (if tombstoned then KeyShredded
          else if within w (age now sent) then KeyCached key else KeyLocked) ∧
  (key_state now sent w key tombstoned = Some KeyLocked →
   key_state later sent w key tombstoned = Some KeyLocked).
Proof.
  intros Hw Hl. destruct tombstoned; [by split|]. rewrite !key_state_eq by done. split; [done|].
  destruct (within w (age now sent)) eqn:E; [done|]. intros _.
  destruct (within w (age later sent)) eqn:E'; [|done].
  rewrite (within_mono w (age now sent) (age later sent)) in E; [done| |done].
  unfold age. lia.
Qed.

(** A policy change acts on the past only to shorten. For windows the clock can
    represent: a shredded key stays shredded; shortening judges every message by the new
    window; lengthening keeps a locked key locked, judges a message sent before the
    change by the old window and a later one by the new; and a key that the old window
    had locked at any earlier moment is locked after the change. *)
Theorem policy_change_semantics now before sent tr key current :
  window_fits (tr_old_window tr) = true →
  window_fits (tr_new_window tr) = true →
  (dt_nanos before ≤ dt_nanos now)%Z →
  let shorter := is_shorter (tr_new_window tr) (tr_old_window tr) in
  let judged w := Some (if within w (age now sent) then KeyCached key else KeyLocked) in
  transition_key_state now sent KeyShredded tr key = Some KeyShredded ∧
  (shorter = true → current ≠ KeyShredded →
     transition_key_state now sent current tr key = judged (tr_new_window tr)) ∧
  (shorter = false → transition_key_state now sent KeyLocked tr key = Some KeyLocked) ∧
  (shorter = false → current ≠ KeyShredded → current ≠ KeyLocked →
     transition_key_state now sent current tr key =
       judged (if dt_lt sent (tr_changed_at tr) then tr_old_window tr else tr_new_window tr)) ∧
  (key_state before sent (tr_old_window tr) key false = Some KeyLocked →
     transition_key_state now sent KeyLocked tr key = Some KeyLocked).
Proof.
  intros Ho Hn Hb shorter judged.
  pose proof (state_for_message_eq tr now sent key Ho Hn) as Hst.
  unfold judging_window in Hst. fold shorter in Hst.
  unfold transition_key_state. fold shorter. rewrite Hst. unfold judged.
  split_and!; [done| | | |].
  - intros -> Hc. by destruct current.
  - by intros ->.
  - intros -> H1 H2. by destruct current.
  - rewrite key_state_eq by done. intros Hk. destruct shorter eqn:Hs; [|done]. simpl.
    destruct (within (tr_new_window tr) (age now sent)) eqn:E; [|done].
    apply (shorter_within _ _ _ Hs) in E.
    rewrite (within_mono _ (age before sent) (age now sent)) in Hk; [done|unfold age; lia|done].
Qed.

(** [transition_key_state] is documented not to resurrect locked keys, and a sequence
    of two changes does: a key locked under the one-hour window stays locked when the
    window is lengthened to seven days, and shortening that to 24 hours hands the key out
    again while the message is less than a day old. *)
Theorem shortening_resurrects_a_locked_key sent t1 t2 key :
  (3600 * nanos_per_second < age t1 sent)%Z →
  (age t2 sent ≤ 86400 * nanos_per_second)%Z →
  let lengthen := {| tr_old_window := Hours1; tr_new_window := Days7; tr_changed_at := t1 |} in
  let shorten := {| tr_old_window := Days7; tr_new_window := Hours24; tr_changed_at := t2 |} in
  key_state t1 sent Hours1 key false = Some KeyLocked ∧
  transition_key_state t1 sent KeyLocked lengthen key = Some KeyLocked ∧
  transition_key_state t2 sent KeyLocked shorten key = Some (KeyCached key).
Proof.
  intros H1 H2 lengthen shorten. split_and!; [|done|].
  - rewrite key_state_eq by done. unfold within; simpl.
    by rewrite (proj2 (Z.leb_gt (age t1 sent) _)) by lia.
  - change (state_for_message shorten t2 sent key false = Some (KeyCached key)).
    rewrite state_for_message_eq by done. unfold within; simpl.
    by rewrite (proj2 (Z.leb_le (age t2 sent) _)) by lia.
Qed.

(** A custom window above what [Duration::seconds] accepts is not a long retention:
    the [u64] is cast to [i64], so the check panics or, from 2^64 - (2^63 - 1)/1000
    seconds on, the limit is negative and a message is locked as soon as it is sent. *)
Theorem oversized_window_never_caches now sent s key :
  s < 2 ^ 64 →
  window_fits (CustomSeconds s) = false →
  (dt_nanos sent ≤ dt_nanos now)%Z →
  key_state now sent (CustomSeconds s) key false =
    if (2 ^ 64 - i64_max / 1000 <=? Z.of_N s)%Z then Some KeyLocked else None.
Proof.
  intros Hs Hw%Z.leb_gt Hn. unfold key_state; simpl.
  pose proof (td_seconds_range (as_i64 s)) as Hr. rewrite i64_max_seconds in *.
  unfold as_i64 in *. destruct (N.ltb_spec s (2 ^ 63)).
  - rewrite (proj2 (Z.leb_gt _ _)) by lia.
    destruct (td_seconds _) as [d|]; [|done]. exfalso.
    assert (is_Some (Some d)) as Hd by eauto. apply Hr in Hd. lia.
  - destruct (Z.leb_spec (2 ^ 64 - 9223372036854775) (Z.of_N s)) as [Hb|Hb].
    + destruct (td_seconds _) as [d|] eqn:Hd; simpl.
      * unfold td_le. rewrite dt_since_nanos, (td_seconds_some _ _ Hd).
        by rewrite (proj2 (Z.leb_gt _ _)) by lia.
      * exfalso. assert (is_Some (@None timedelta)) as [? ?]; [|done]. apply Hr. lia.
    + destruct (td_seconds _) as [d|]; [|done]. exfalso.
      assert (is_Some (Some d)) as Hd by eauto. apply Hr in Hd. lia.
Qed.
End retention_claims.

(** ** Labels *)

Lemma custom_label_trim s : trim ("custom " +:+ s +:+ " seconds") = "custom " +:+ s +:+ " seconds".
Proof.
  apply trim_id; [by rewrite as_bytes_app|].
  by rewrite !as_bytes_app, !rev_app_distr, <- (assoc (++)).
Qed.

(** The literals of [window_from_label] do not start with [custom]. *)
Lemma custom_not_one_of s l :
  forallb (λ a, negb (String.prefix "custom " a)) l = true → one_of ("custom " +:+ s) l = false.
Proof.
  unfold one_of. intros Hl. apply not_true_iff_false. intros [a [Ha Heq]]%existsb_exists.
  apply forallb_forall with (x := a) in Hl; [|done]. apply String.eqb_eq in Heq as <-.
  apply negb_true_iff in Hl. destruct s; discriminate Hl.
Qed.

Lemma window_from_custom_label s :
  to_ascii_lowercase s = s →
  window_from_label ("custom " +:+ s +:+ " seconds") = CustomSeconds <$> parse_u64 s.
Proof.
  intros Hs. unfold window_from_label. rewrite custom_label_trim.
  rewrite !to_ascii_lowercase_app, Hs.
  change (to_ascii_lowercase "custom ") with "custom ".
  change (to_ascii_lowercase " seconds") with " seconds".
  rewrite !custom_not_one_of by done. by rewrite strip_prefix_app; simpl; rewrite strip_suffix_app.
Qed.

(** The label of a retention window parses back to the window: the text the backend
    shows for a policy, stored and read again, selects the same policy. *)
Theorem window_label_roundtrip w :
  match w with CustomSeconds s => s ≤ u64_max | _ => True end →
  window_from_label (window_label w) = Some w.
Proof.
  destruct w as [| | | | |s|]; intros Hs; try reflexivity. unfold window_label.
  rewrite window_from_custom_label by apply to_ascii_lowercase_digits, pretty_digits.
  unfold parse_u64. by rewrite parse_pretty.
Qed.

(** ** Content keys *)

Lemma content_key_context_inj a m a' m' :
  a < 2 ^ 32 → a' < 2 ^ 32 → str_len m < 2 ^ 64 → str_len m' < 2 ^ 64 →
  content_key_context a m = content_key_context a' m' → a = a' ∧ m = m'.
Proof.
  intros Ha Ha' Hm Hm' [-> Heq]%be_bytes_app_inj; [|done..]. split; [done|].
  apply be_bytes_app_inj in Heq as [_ Heq]; [|done..]. by apply (inj as_bytes).
Qed.

Lemma len_content_key_context a m :
  len (content_key_context a m) = 12 + str_len m.
Proof.
  unfold content_key_context, len. autorewrite with bytes. unfold str_len. lia.
Qed.

(** A content key belongs to one message: two derivations agree only for the same
    author, message id and epoch secret, or where SHA-256 collides on the two (distinct)
    exporter inputs. *)
Theorem content_key_binds `{Sha256} a m s a' m' s' :
  a < 2 ^ 32 → a' < 2 ^ 32 → str_len m < 2 ^ 32 → str_len m' < 2 ^ 32 →
  derive_content_key a m s = derive_content_key a' m' s' →
  let input a m s := exporter_input s ExportContentKey (content_key_context a m) in
  (a = a' ∧ m = m' ∧ s = s') ∨
  (input a m s ≠ input a' m' s' ∧ sha256 (input a m s) = sha256 (input a' m' s')).
Proof.
  intros Ha Ha' Hm Hm' Heq input.
  destruct (decide (input a m s = input a' m' s')) as [Hi|Hi]; [left|by right].
  apply exporter_input_inj in Hi as (-> & _ & Hc); [|rewrite len_content_key_context; lia..].
  apply content_key_context_inj in Hc as [-> ->]; [done|done|done|lia|lia].
Qed.

(** ** Shredding *)

Section shred.
Implicit Types (st : CrossDeviceShredState) (t : Tombstones).

Inductive CallShred :=
| CallRegister (device_id : string) (online : bool)
| CallShredMessage (message_id : string)
| CallMerge (message_ids : list string)
| CallSetOnline (device_id : string) (online : bool).

Definition shred_call st (c : CallShred) : CrossDeviceShredState :=
  match c with
  | CallRegister d online => register_device st d online
  | CallShredMessage m => shred_message st m
  | CallMerge ms => merge_tombstones st ms
  | CallSetOnline d online => set_online st d online
  end.

Definition shred_run : CrossDeviceShredState → list CallShred → CrossDeviceShredState :=
  foldl shred_call.

(** The message ids the calls asked to shred. *)
Definition shredded_by (calls : list CallShred) : list string :=
  calls ≫= λ c, match c with
                | CallShredMessage m => [m]
                | CallMerge ms => ms
                | _ => []
                end.

Lemma elem_of_shred_all t ids m : m ∈ tb_ids (shred_all t ids) ↔ m ∈ tb_ids t ∨ m ∈ ids.
Proof.
  unfold shred_all. revert t. induction ids as [|i rest IH]; intros t; [set_solver|].
  cbn [foldl]. rewrite IH. simpl. set_solver.
Qed.

Lemma elem_of_tombstones_ids t m : m ∈ tombstones_ids t ↔ m ∈ tb_ids t.
Proof. apply elem_of_sorted_elements. Qed.

(** A device has seen only global tombstones, and all of them while it is online. *)
Definition shred_wf st : Prop :=
  ∀ i d, cd_devices st !! i = Some d →
    tb_ids (sd_seen_tombstones d) ⊆ tb_ids (cd_global_tombstones st) ∧
    (sd_online d = true → tb_ids (cd_global_tombstones st) ⊆ tb_ids (sd_seen_tombstones d)).

Lemma for_online_wf st f (global : Tombstones) :
  shred_wf st →
  tb_ids (cd_global_tombstones st) ⊆ tb_ids global →
  (∀ t, tb_ids t ⊆ tb_ids (cd_global_tombstones st) → tb_ids (f t) ⊆ tb_ids global) →
  (∀ t, tb_ids (cd_global_tombstones st) ⊆ tb_ids t → tb_ids global ⊆ tb_ids (f t)) →
  shred_wf {| cd_global_tombstones := global; cd_devices := for_online f (cd_devices st) |}.
Proof.
  intros Hwf Hg H1 H2 i d. simpl. unfold for_online. rewrite lookup_fmap.
  intros (d0 & Hd0 & ->)%fmap_Some. destruct (Hwf _ _ Hd0) as [Hs Ho].
  destruct (sd_online d0) eqn:E; simpl.
  - split; [auto|]. intros _. auto.
  - split; [set_solver|]. by rewrite E.
Qed.

Lemma shred_call_wf st c : shred_wf st → shred_wf (shred_call st c).
Proof.
  intros Hwf. destruct c as [dev online|m|ms|dev online]; simpl.
  - intros i d. simpl. intros [[<- <-]|[_ Hd]]%lookup_insert_Some; [|by apply (Hwf i)].
    simpl. destruct online; simpl; [|set_solver].
    split; [|intros _]; intros m; rewrite elem_of_shred_all, elem_of_tombstones_ids; set_solver.
  - apply for_online_wf; simpl; [done|set_solver..].
  - apply for_online_wf; [done|..]; intros t;
      try intros Ht m; rewrite ?elem_of_shred_all, ?elem_of_tombstones_ids, ?elem_of_shred_all;
      set_solver.
  - unfold set_online. destruct (cd_devices st !! dev) as [d0|] eqn:Hd0; [|done].
    destruct (Hwf _ _ Hd0) as [Hs Ho].
    intros i d. simpl. intros [[<- <-]|[_ Hd]]%lookup_insert_Some; [|by apply (Hwf i)].
    simpl. destruct online; simpl; [|by split].
    split; [|intros _]; intros m; rewrite elem_of_shred_all, elem_of_tombstones_ids; set_solver.
Qed.

Lemma shred_call_global st c m :
  m ∈ tb_ids (cd_global_tombstones (shred_call st c)) ↔
  m ∈ tb_ids (cd_global_tombstones st) ∨ m ∈ shredded_by [c].
Proof.
  unfold shredded_by. simpl. rewrite app_nil_r. destruct c as [dev online|m'|ms|dev online]; simpl.
  - set_solver.
  - set_solver.
  - rewrite elem_of_shred_all. set_solver.
  - unfold set_online. case_match; set_solver.
Qed.

Lemma shred_run_wf calls : shred_wf (shred_run CrossDeviceShredState_default calls).
Proof.
  unfold shred_run. induction calls as [|c calls IH] using rev_ind.
  - intros i d. simpl. by rewrite lookup_empty.
  - rewrite foldl_app. simpl. by apply shred_call_wf.
Qed.

Lemma shred_run_global calls m :
  m ∈ tb_ids (cd_global_tombstones (shred_run CrossDeviceShredState_default calls)) ↔
  m ∈ shredded_by calls.
Proof.
  unfold shred_run. induction calls as [|c calls IH] using rev_ind; [set_solver|].
  rewrite foldl_app. cbn [foldl]. rewrite shred_call_global, IH.
  unfold shredded_by. rewrite bind_app. set_solver.
Qed.

(** A shredded message is served by no device that is online. After any sequence of
    registrations, shreds, merges and connectivity changes the tombstones are exactly the
    ids that were shredded or merged; an online device serves exactly the messages that
    have no tombstone and has nothing pending; an offline device that comes online
    serves none of them from then on; and a device never refuses a message that was not
    shredded. *)
Theorem shred_reaches_online_devices calls dev d message :
  let st := shred_run CrossDeviceShredState_default calls in
  cd_devices st !! dev = Some d →
  (message ∈ tombstone_ids st ↔ message ∈ shredded_by calls) ∧
  (sd_online d = true →
     (device_may_serve st dev message = true ↔ message ∉ shredded_by calls) ∧
     pending_on_device st dev message = false) ∧
  (message ∈ shredded_by calls →
     device_may_serve (set_online st dev true) dev message = false) ∧
  (device_may_serve st dev message = false → message ∈ shredded_by calls).
Proof.
  intros st Hd. destruct (shred_run_wf calls dev d Hd) as [Hs Ho]. fold st in Hs, Ho.
  pose proof (shred_run_global calls message) as Hg. fold st in Hg.
  assert (device_may_serve st dev message = true ↔ message ∉ tb_ids (sd_seen_tombstones d)) as Hm.
  { unfold device_may_serve. rewrite Hd. unfold tombstones_contains.
    by rewrite negb_true_iff, bool_decide_eq_false. }
  split_and!.
  - unfold tombstone_ids. by rewrite elem_of_tombstones_ids.
  - intros Hon. specialize (Ho Hon). rewrite Hm. split; [set_solver|].
    unfold pending_on_device, tombstones_contains. rewrite Hd.
    do 2 case_bool_decide; set_solver.
  - intros Hsh. unfold device_may_serve, set_online. rewrite Hd. simpl. rewrite lookup_insert_eq.
    unfold tombstones_contains. simpl. rewrite bool_decide_eq_true_2; [done|].
    rewrite elem_of_shred_all, elem_of_tombstones_ids. set_solver.
  - destruct (device_may_serve st dev message) eqn:E; [done|]. intros _.
    apply Hg, Hs. destruct (decide (message ∈ tb_ids (sd_seen_tombstones d))) as [|Hn]; [done|].
    by apply Hm in Hn.
Qed.
End shred.

(** ** The oracle: runs and invariants *)

Section oracle_proofs.
Context `{Sha256, Ed25519}.
Implicit Types (o : LiveKeyOracle) (p : MembershipProof).

Inductive CallOracle :=
| CallAuthorize (epoch : N) (leaf : LeafIndex) (verifier : verifying_key)
| CallRequest (p : MembershipProof) (scope : LiveKeyRequestScope) (key : bytes)
| CallFailureMode (mode : LiveKeyFailureResponseMode).

Definition oracle_call o (c : CallOracle) : LiveKeyOracle :=
  match c with
  | CallAuthorize epoch leaf verifier => (authorize_member_device o epoch leaf verifier).1
  | CallRequest p scope key => (request_key_scoped o p scope key).1
  | CallFailureMode mode => with_failure_response_mode o mode
  end.

Definition oracle_run : LiveKeyOracle → list CallOracle → LiveKeyOracle := foldl oracle_call.

(** Is the call a request under [rk] whose proof the oracle accepts? *)
Definition counts o (c : CallOracle) (rk : LiveKeyRateLimitKey) : N :=
  match c with
  | CallRequest p scope _ =>
      if proof_authorized o p && bool_decide (from_proof_scope p scope = rk) then 1 else 0
  | _ => 0
  end.

(** How many accepted requests under [rk] the calls made. *)
Fixpoint counted o (calls : list CallOracle) (rk : LiveKeyRateLimitKey) : N :=
  match calls with
  | [] => 0
  | c :: rest => counts o c rk + counted (oracle_call o c) rest rk
  end.

(** The members and commitments an oracle was made with, and its limit. *)
Definition same_rules o o' : Prop :=
  lo_members_by_epoch o' = lo_members_by_epoch o ∧
  lo_group_commitments_by_epoch o' = lo_group_commitments_by_epoch o ∧
  lo_max_requests o' = lo_max_requests o.

#[global] Instance same_rules_preorder : PreOrder same_rules.
Proof.
  split; [done|]. intros o1 o2 o3 (?&?&?) (?&?&?). split_and!; congruence.
Qed.

Definition request_count o (rk : LiveKeyRateLimitKey) : N :=
  default 0 (lo_requests_by_rate_key o !! rk).

Lemma oracle_call_rules o c : same_rules o (oracle_call o c).
Proof.
  destruct c; simpl.
  - unfold authorize_member_device. by destruct (negb _).
  - unfold request_key_scoped. destruct (negb _); [done|]. by destruct (_ <? _).
  - done.
Qed.

Lemma oracle_run_rules o calls : same_rules o (oracle_run o calls).
Proof.
  revert o. induction calls as [|c rest IH]; intros o; simpl; [done|].
  etransitivity; [apply oracle_call_rules|apply IH].
Qed.

Lemma request_key_scoped_state o p scope key :
  (request_key_scoped o p scope key).1 =
    if proof_authorized o p
    then set_requests o (<[from_proof_scope p scope :=
           N.min (request_count o (from_proof_scope p scope) + 1) u64_max]>
           (lo_requests_by_rate_key o))
    else o.
Proof. unfold request_key_scoped. destruct (proof_authorized o p); [|done]. by destruct (_ <? _). Qed.

Lemma oracle_call_count o c rk :
  request_count o rk ≤ u64_max →
  request_count (oracle_call o c) rk = N.min (request_count o rk + counts o c rk) u64_max.
Proof.
  intros Hle. destruct c as [e l v|p scope key|mode]; simpl.
  - unfold authorize_member_device, request_count in *. case_match; simpl; lia.
  - rewrite request_key_scoped_state. destruct (proof_authorized o p); simpl; [|lia].
    unfold request_count in *. simpl. case_bool_decide as Hk.
    + by rewrite Hk, lookup_insert_eq.
    + rewrite lookup_insert_ne by done. lia.
  - unfold request_count in *; simpl; lia.
Qed.

Lemma oracle_run_count o calls rk :
  request_count o rk ≤ u64_max →
  request_count (oracle_run o calls) rk = N.min (request_count o rk + counted o calls rk) u64_max.
Proof.
  revert o. induction calls as [|c rest IH]; intros o Hle; [simpl; lia|].
  change (oracle_run o (c :: rest)) with (oracle_run (oracle_call o c) rest). simpl.
  rewrite IH; rewrite oracle_call_count; lia.
Qed.

(** The device keys of an oracle come from the initial one or from an authorization. *)
Definition device_authorized o (epoch : N) (leaf : LeafIndex) (key : bytes) : Prop :=
  ∃ keys, lo_authorized_device_keys o !! (epoch, leaf) = Some keys ∧ key ∈ keys.

Lemma authorize_device o epoch leaf v e l key :
  device_authorized (authorize_member_device o epoch leaf v).1 e l key ↔
  device_authorized o e l key ∨
  (is_epoch_member o epoch leaf = true ∧ e = epoch ∧ l = leaf ∧ key = vk_to_bytes v).
Proof.
  unfold authorize_member_device, device_authorized.
  destruct (is_epoch_member o epoch leaf); simpl; [|naive_solver].
  destruct (decide ((epoch, leaf) = (e, l))) as [[= -> ->]|Hne].
  - rewrite lookup_insert_eq. split.
    + intros (? & [= <-] & [Hk%elem_of_singleton|Hk]%elem_of_union); [by right; split_and!|].
      destruct (lo_authorized_device_keys o !! (e, l)); [left; eauto|set_solver].
    + intros [(keys & -> & Hk)|(_ & _ & _ & ->)]; eexists; (split; [done|]); simpl; set_solver.
  - rewrite lookup_insert_ne by done. naive_solver.
Qed.

Lemma oracle_call_device o c e l key :
  device_authorized (oracle_call o c) e l key ↔
  device_authorized o e l key ∨
  ∃ v, c = CallAuthorize e l v ∧ is_epoch_member o e l = true ∧ key = vk_to_bytes v.
Proof.
  destruct c as [e' l' v|p scope k|mode]; simpl.
  - rewrite authorize_device. naive_solver.
  - unfold request_key_scoped. repeat case_match; unfold device_authorized; simpl; naive_solver.
  - unfold device_authorized; simpl. naive_solver.
Qed.

Lemma oracle_run_device o calls e l key :
  device_authorized (oracle_run o calls) e l key →
  device_authorized o e l key ∨ ∃ v, CallAuthorize e l v ∈ calls ∧ key = vk_to_bytes v.
Proof.
  revert o. induction calls as [|c rest IH]; intros o; simpl; [by left|].
  intros [Hd|(v & Hv & ->)]%IH; [|right; exists v; set_solver].
  apply oracle_call_device in Hd as [Hd|(v & -> & _ & ->)]; [by left|]. right. exists v. set_solver.
Qed.

Lemma oracle_run_device_mono o calls e l key :
  device_authorized o e l key → device_authorized (oracle_run o calls) e l key.
Proof.
  revert o. induction calls as [|c rest IH]; intros o Hd; simpl; [done|].
  apply IH, oracle_call_device. by left.
Qed.

(** Every epoch has the commitment of its members. *)
Definition commitments_wf o : Prop :=
  ∀ e, lo_group_commitments_by_epoch o !! e =
    derive_membership_group_commitment e <$> lo_members_by_epoch o !! e.

Lemma LiveKeyOracle_new_wf members max : commitments_wf (LiveKeyOracle_new members max).
Proof. intros e. simpl. rewrite map_lookup_imap. by destruct (members !! e). Qed.

Lemma same_rules_wf o o' : same_rules o o' → commitments_wf o → commitments_wf o'.
Proof. intros (Hm & Hc & _) Hwf e. rewrite Hc, Hm. apply Hwf. Qed.

Lemma proof_authorized_iff o p :
  commitments_wf o →
  proof_authorized o p = true ↔
  ∃ members, lo_members_by_epoch o !! mp_epoch p = Some members ∧
    mp_requester_leaf p ∈ members ∧
    proof_verify_signature p (derive_membership_group_commitment (mp_epoch p) members) = Ok tt ∧
    device_authorized o (mp_epoch p) (mp_requester_leaf p) (mp_device_public_key p).
Proof.
  intros Hwf. unfold proof_authorized, device_authorized. rewrite Hwf.
  destruct (lo_members_by_epoch o !! mp_epoch p) as [ms|]; simpl; [|naive_solver].
  destruct (decide (mp_requester_leaf p ∈ ms)) as [Hin|Hin].
  2:{ rewrite bool_decide_eq_false_2 by done. naive_solver. }
  rewrite bool_decide_eq_true_2 by done. simpl.
  destruct (proof_verify_signature p _) as [[]|e] eqn:E; simpl.
  - destruct (lo_authorized_device_keys o !! _) as [ks|]; [rewrite bool_decide_eq_true|]; naive_solver.
  - split; [done|]. intros (ms' & [= <-] & _ & He & _). congruence.
Qed.

Lemma failure_not_authorized o limited : lr_authorized (failure_response o limited) = false.
Proof. unfold failure_response. by repeat case_match. Qed.

Lemma failure_no_key o limited k : lr_state (failure_response o limited) ≠ KeyCached k.
Proof. unfold failure_response. by repeat case_match. Qed.

(** The answer of a request. *)
Lemma request_key_scoped_answer o p scope key :
  let rk := from_proof_scope p scope in
  let released := proof_authorized o p &&
    (N.min (request_count o rk + 1) u64_max <=? lo_max_requests o) in
  let r := (request_key_scoped o p scope key).2 in
  (released = true → r = {| lr_state := KeyCached key; lr_authorized := true |}) ∧
  (released = false → ∃ limited, r = failure_response o limited).
Proof.
  intros rk released r. subst released r. unfold request_key_scoped. fold rk.
  destruct (proof_authorized o p); cbn [negb andb]; [|split; [done|eauto]].
  change (lo_max_requests (set_requests o _)) with (lo_max_requests o).
  change (sat_add u64_max (default 0 (lo_requests_by_rate_key o !! rk)) 1)
    with (N.min (request_count o rk + 1) u64_max).
  destruct (N.ltb_spec (lo_max_requests o) (N.min (request_count o rk + 1) u64_max)) as [Hlt|Hle].
  - rewrite (proj2 (N.leb_gt _ _)) by done. split; [done|]. intros _. by exists true.
  - rewrite (proj2 (N.leb_le _ _)) by done. done.
Qed.
End oracle_proofs.

(** ** The oracle of a local group *)

Section local_oracle.
Context `{Sha256, Ed25519}.
Implicit Types (o : LiveKeyOracle) (p : MembershipProof).

Lemma same_rules_member o o' e l :
  same_rules o o' → is_epoch_member o' e l = is_epoch_member o e l.
Proof. intros (Hm & _). unfold is_epoch_member. by rewrite Hm. Qed.

Lemma register_members_spec o e ms o' :
  register_members o e ms = Ok o' →
  same_rules o o' ∧ lo_requests_by_rate_key o' = lo_requests_by_rate_key o ∧
  ∀ e' l key, device_authorized o' e' l key ↔
    device_authorized o e' l key ∨
    (e' = e ∧ is_epoch_member o e l = true ∧
     ∃ d v, (l, d) ∈ ms ∧ vk_from_bytes (dl_device_key d) = Some v ∧ key = vk_to_bytes v).
Proof.
  revert o. induction ms as [|[leaf d] rest IH]; intros o; simpl.
  - intros [= <-]. split_and!; [done..|]. set_solver.
  - destruct (is_epoch_member o e leaf) eqn:Hm; simpl.
    + destruct (vk_from_bytes (dl_device_key d)) as [v|] eqn:Hv; simpl; [|done].
      intros (Hr & Hq & Hd)%IH.
      assert (same_rules o (authorize_member_device o e leaf v).1) as Hr1
        by apply (oracle_call_rules o (CallAuthorize e leaf v)).
      split_and!; [by etransitivity| |].
      { rewrite Hq. unfold authorize_member_device. by destruct (negb _). }
      intros e' l key. rewrite Hd, authorize_device, (same_rules_member _ _ _ _ Hr1), Hm.
      split.
      * intros [[?|(_ & -> & -> & ->)]|(-> & Hl & d' & v' & ? & ? & ->)].
        -- by left.
        -- right. split_and!; [done..|]. exists d, v. split_and!; [by left|done..].
        -- right. split_and!; [done..|]. exists d', v'. split_and!; [by right|done..].
      * intros [?|(-> & Hl & d' & v' & [[= -> ->]|?]%elem_of_cons & Hv' & ->)]; [by left; left| |].
        -- left. right. split_and!; [done..|]. congruence.
        -- right. split_and!; [done..|]. eauto 10.
    + intros (Hr & Hq & Hd)%IH. split_and!; [done..|]. intros e' l key. rewrite Hd.
      split; [|by intros [?|(-> & Hl & d' & v' & [[= -> ->]|?]%elem_of_cons & ?)];
        [left|congruence|right; eauto 10]].
      intros [?|(-> & Hl & d' & v' & ? & ? & ->)]; [by left|]. right.
      split_and!; [done..|]. exists d', v'. split_and!; [by right|done..].
Qed.

(** The served leaves are the group's active members with a role and no ban. *)
Lemma elem_of_served governance (members : gmap LeafIndex DeviceLeaf) leaf :
  leaf ∈ (list_to_set (omap (λ '(leaf, member),
    if serves_leaf governance leaf member then Some leaf else None) (entries members))
      : gset LeafIndex) ↔
  ∃ d, members !! leaf = Some d ∧ serves_leaf governance leaf d = true.
Proof.
  rewrite elem_of_list_to_set, list_elem_of_omap. split.
  - intros ([l d] & Hin%elem_of_entries & Hs). destruct (serves_leaf governance l d) eqn:E; [|done].
    simplify_eq. eauto.
  - intros (d & Hd & Hs). exists (leaf, d). rewrite Hs. split; [by apply elem_of_entries|done].
Qed.

Lemma from_local_spec group governance max o :
  from_local_mls_governance_state group governance max = Ok o →
  gr_epoch group = gs_epoch governance ∧ commitments_wf o ∧
  lo_max_requests o = N.max max 1 ∧ lo_requests_by_rate_key o = ∅ ∧
  (∀ e, e ≠ gr_epoch group → lo_members_by_epoch o !! e = None) ∧
  (∃ ms, lo_members_by_epoch o !! gr_epoch group = Some ms ∧
     ∀ leaf, leaf ∈ ms ↔
       ∃ d, gr_members group !! leaf = Some d ∧ serves_leaf governance leaf d = true) ∧
  (∀ e leaf key, device_authorized o e leaf key ↔
     e = gr_epoch group ∧ ∃ d v, gr_members group !! leaf = Some d ∧
       serves_leaf governance leaf d = true ∧
       vk_from_bytes (dl_device_key d) = Some v ∧ key = vk_to_bytes v).
Proof.
  unfold from_local_mls_governance_state. destruct (N.eqb_spec (gr_epoch group) (gs_epoch governance))
    as [He|He]; simpl; [|done].
  set (served := list_to_set _). intros (Hr & Hq & Hd)%register_members_spec.
  split; [done|]. split; [eapply same_rules_wf; [done|apply LiveKeyOracle_new_wf]|].
  assert (∀ leaf, leaf ∈ served ↔ ∃ d, gr_members group !! leaf = Some d ∧
    serves_leaf governance leaf d = true) as Hs by (intros leaf; apply elem_of_served).
  assert (∀ leaf, is_epoch_member (LiveKeyOracle_new {[gr_epoch group := served]} max)
    (gr_epoch group) leaf = true ↔ leaf ∈ served) as Hm.
  { intros leaf. unfold is_epoch_member. simpl. rewrite lookup_singleton_eq.
    apply bool_decide_eq_true. }
  destruct Hr as (Hmem & _ & Hmax). split_and!; [done|done| | |].
  - intros e Hne. rewrite Hmem. simpl. by rewrite lookup_singleton_ne.
  - exists served. rewrite Hmem. simpl. by rewrite lookup_singleton_eq.
  - intros e leaf key. rewrite Hd, Hm, Hs. split.
    + intros [(ks & Hks & _)|(-> & (d & Hg & Hsv) & d' & v & Hin%elem_of_entries & Hv & ->)].
      * simpl in Hks. by rewrite lookup_empty in Hks.
      * simplify_eq. split; [done|]. by exists d, v.
    + intros (-> & d & v & Hg & Hsv & Hv & ->). right. split_and!; [done|by eauto|].
      exists d, v. split_and!; [by apply elem_of_entries|done..].
Qed.

Lemma proof_verify_sign `{!Ed25519Laws} leaf epoch group_id commitment k :
  proof_verify_signature (MembershipProof_sign leaf epoch group_id commitment k) commitment = Ok tt.
Proof.
  unfold proof_verify_signature, MembershipProof_sign; simpl.
  rewrite bool_decide_eq_true_2 by done; simpl.
  rewrite vk_from_to_bytes; simpl. rewrite sig_from_slice_to_bytes; simpl.
  unfold proof_transcript; simpl. by rewrite vk_verify_sign.
Qed.

(** Proofs whose fields have the widths of the source. *)
Definition proof_in_range p : Prop :=
  mp_requester_leaf p < 2 ^ 32 ∧ mp_epoch p < 2 ^ 64 ∧ str_len (mp_group_id p) < 2 ^ 64 ∧
  length (mp_group_commitment p) = 32%nat ∧ length (mp_device_public_key p) = 32%nat.

Lemma proof_transcript_inj p p' :
  proof_in_range p → proof_in_range p' → proof_transcript p = proof_transcript p' →
  mp_requester_leaf p = mp_requester_leaf p' ∧ mp_epoch p = mp_epoch p' ∧
  mp_group_id p = mp_group_id p' ∧ mp_group_commitment p = mp_group_commitment p' ∧
  mp_device_public_key p = mp_device_public_key p'.
Proof.
  intros (Hl & He & Hg & Hc & Hk) (Hl' & He' & Hg' & Hc' & Hk').
  unfold proof_transcript, membership_proof_transcript.
  intros [_ [-> [-> Heq]%be_bytes_app_inj]%be_bytes_app_inj]%fixed_app_inj; [|done..].
  rewrite <- !len_as_bytes in Heq. apply be_framed_app_inj in Heq as [Hid Heq];
    [|by rewrite len_as_bytes..].
  apply (inj as_bytes) in Hid. apply fixed_app_inj in Heq as [-> ->]; [done|congruence].
Qed.

Lemma be_u32_bind_inj (l k : list N) :
  Forall (λ x, x < 2 ^ 32) l → Forall (λ x, x < 2 ^ 32) k → length l = length k →
  l ≫= be_u32 = k ≫= be_u32 → l = k.
Proof.
  intros Hl. revert k. induction Hl as [|x l Hx Hl IH]; intros [|y k]; try done.
  intros [Hy Hk]%Forall_cons [= Hlen]. rewrite !bind_cons.
  intros [-> Heq]%be_bytes_app_inj; [|done..]. f_equal. by apply IH.
Qed.

(** The commitment names the epoch and the set of members. *)
Lemma group_commitment_input_inj e ms e' ms' :
  e < 2 ^ 64 → e' < 2 ^ 64 →
  N.of_nat (size ms) < 2 ^ 64 → N.of_nat (size ms') < 2 ^ 64 →
  (∀ x, x ∈ ms → x < 2 ^ 32) → (∀ x, x ∈ ms' → x < 2 ^ 32) →
  group_commitment_input e ms = group_commitment_input e' ms' → e = e' ∧ ms = ms'.
Proof.
  intros He He' Hs Hs' Hm Hm'. unfold group_commitment_input.
  intros [_ [-> [Hsz Heq]%be_bytes_app_inj]%be_bytes_app_inj]%fixed_app_inj; [|done..].
  split; [done|]. apply be_u32_bind_inj in Heq.
  - apply set_eq. intros x. by rewrite <- !elem_of_sorted_elements, Heq.
  - apply Forall_forall. intros x Hx%elem_of_sorted_elements. auto.
  - apply Forall_forall. intros x Hx%elem_of_sorted_elements. auto.
  - rewrite !length_sorted_elements. lia.
Qed.
End local_oracle.

(** ** Oracle claims *)

Section oracle_claims.
Context `{Sha256, Ed25519}.

(** C25. An archived key is released only to a proven member and only up to the limit.
    After any sequence of authorizations, requests and changes of the failure mode, a
    request is answered with the key exactly when its proof is accepted and, counting it,
    at most [max_requests] accepted requests were made under its rate key; then the
    requester is a member of the claimed epoch, the proof carries a valid signature over
    the commitment to that epoch's members, and its device key was authorized for that
    leaf and epoch. Every other answer holds no real key, and in the uniform mode it is
    the same answer whatever the reason. *)
Theorem live_key_release_is_gated members max calls p scope key :
  let o0 := LiveKeyOracle_new members max in
  let o := oracle_run o0 calls in
  let r := (request_key_scoped o p scope key).2 in
  let seen := counted o0 calls (from_proof_scope p scope) in
  (lr_authorized r = true ↔
     proof_authorized o p = true ∧ N.min (seen + 1) u64_max ≤ N.max max 1) ∧
  (lr_authorized r = true →
     lr_state r = KeyCached key ∧
     (∃ ms, members !! mp_epoch p = Some ms ∧ mp_requester_leaf p ∈ ms ∧
        proof_verify_signature p (derive_membership_group_commitment (mp_epoch p) ms) = Ok tt) ∧
     ∃ v, CallAuthorize (mp_epoch p) (mp_requester_leaf p) v ∈ calls ∧
        mp_device_public_key p = vk_to_bytes v) ∧
  (lr_authorized r = false →
     (∀ k, lr_state r ≠ KeyCached k) ∧
     (lo_failure_response_mode o = ModeUniformUnavailable → r = generic_failure_response o)).
Proof.
  intros o0 o r seen.
  pose proof (oracle_run_rules o0 calls) as Hr. fold o in Hr.
  assert (commitments_wf o) as Hwf
    by exact (same_rules_wf _ _ Hr (LiveKeyOracle_new_wf members max)).
  destruct Hr as (Hmem & _ & Hmax).
  assert (request_count o (from_proof_scope p scope) = N.min seen u64_max) as Hcnt
    by (exact (oracle_run_count o0 calls _ (N.le_0_l u64_max))).
  pose proof (request_key_scoped_answer o p scope key) as [Hyes Hno]. fold r in Hyes, Hno.
  rewrite Hcnt, Hmax in Hyes, Hno.
  change (lo_max_requests o0) with (N.max max 1) in *.
  replace (N.min (N.min seen u64_max + 1) u64_max) with (N.min (seen + 1) u64_max) in *
    by (unfold u64_max; lia).
  destruct (proof_authorized o p) eqn:Hp, (N.leb_spec (N.min (seen + 1) u64_max) (N.max max 1))
    as [Hle|Hgt]; simpl in Hyes, Hno.
  1:{ specialize (Hyes eq_refl). rewrite Hyes. simpl. split; [done|]. split; [|done]. intros _.
      apply proof_authorized_iff in Hp as (ms & Hms & Hin & Hsig & Hdev); [|done].
      rewrite Hmem in Hms. split; [done|]. split; [by eauto|].
      apply oracle_run_device in Hdev as [(ks & Hks & _)|Hv]; [|done].
      simpl in Hks. by rewrite lookup_empty in Hks. }
  all: destruct (Hno eq_refl) as [limited Hlim]; rewrite Hlim; rewrite failure_not_authorized;
    split; [split; [done|intros []; done || lia]|]; split; [done|]; intros _;
    split; [by intros k; apply failure_no_key|]; intros Hmode;
    unfold generic_failure_response, failure_response; by rewrite Hmode.
Qed.

(** The oracle built from the local group and governance serves exactly the current
    members. It is built only when both agree on the epoch; whatever happens to it
    afterwards, a released key went to a leaf that is an active member of the group, has a
    role, is not banned and asked for the current epoch; and such a member's first request
    with a proof signed by its device key is answered with the key. *)
Theorem local_oracle_serves_current_members `{!Ed25519Laws} group governance max o :
  from_local_mls_governance_state group governance max = Ok o →
  gr_epoch group = gs_epoch governance ∧
  (∀ calls p scope key,
     lr_authorized (request_key_scoped (oracle_run o calls) p scope key).2 = true →
     mp_epoch p = gr_epoch group ∧
     is_banned governance (mp_requester_leaf p) = false ∧
     is_Some (role governance (mp_requester_leaf p)) ∧
     ∃ d, gr_members group !! mp_requester_leaf p = Some d ∧ dl_status d = Active) ∧
  (∀ leaf d k group_id commitment scope key,
     gr_members group !! leaf = Some d → serves_leaf governance leaf d = true →
     dl_device_key d = vk_to_bytes (vk_of k) →
     epoch_group_commitment o (gr_epoch group) = Some commitment →
     (request_key_scoped o
        (MembershipProof_sign leaf (gr_epoch group) group_id commitment k) scope key).2 =
     {| lr_state := KeyCached key; lr_authorized := true |}).
Proof.
  intros (He & Hwf & Hmax & Hreq & Hother & (ms & Hms & Hin) & Hdev)%from_local_spec.
  split; [done|]. split.
  - intros calls p scope key Ha.
    pose proof (oracle_run_rules o calls) as Hr.
    destruct (proof_authorized (oracle_run o calls) p) eqn:Hp.
    2:{ unfold request_key_scoped in Ha. rewrite Hp in Ha. simpl in Ha.
        by rewrite failure_not_authorized in Ha. }
    apply proof_authorized_iff in Hp as (ms' & Hms' & Hin' & _); [|by eapply same_rules_wf].
    destruct Hr as (Hmem & _). rewrite Hmem in Hms'.
    assert (mp_epoch p = gr_epoch group) as Hep.
    { destruct (decide (mp_epoch p = gr_epoch group)) as [|Hne]; [done|].
      by rewrite Hother in Hms'. }
    rewrite Hep, Hms in Hms'. injection Hms' as <-.
    apply Hin in Hin' as (d & Hd & [[Hact%bool_decide_eq_true Hrole%bool_decide_eq_true]%andb_true_iff
      Hban%negb_true_iff]%andb_true_iff).
    split_and!; [done..|]. by exists d.
  - intros leaf d k group_id commitment scope key Hd Hs Hk Hc.
    apply (request_key_scoped_answer o).
    unfold epoch_group_commitment in Hc. rewrite Hwf, Hms in Hc. injection Hc as <-.
    apply andb_true_iff. split.
    + apply proof_authorized_iff; [done|]. exists ms. simpl. split_and!; [done| | |].
      * apply Hin. eauto.
      * apply proof_verify_sign.
      * apply Hdev. split; [done|]. exists d, (vk_of k). rewrite Hk.
        split_and!; [done..|apply vk_from_to_bytes|done].
    + apply N.leb_le. unfold request_count. rewrite Hreq, lookup_empty, Hmax. simpl.
      unfold u64_max. lia.
Qed.

(** A membership proof cannot be moved: a proof made by [MembershipProof_sign]
    verifies against its commitment, and any proof with the same signed transcript has the
    same leaf, epoch, group, commitment and device key; the input of the commitment in turn
    determines the epoch and the set of members. *)
Theorem membership_proof_binds `{!Ed25519Laws, !Sha256Laws} leaf e ms group_id k p e' ms' :
  let signed := MembershipProof_sign leaf e group_id
                  (derive_membership_group_commitment e ms) k in
  leaf < 2 ^ 32 → e < 2 ^ 64 → str_len group_id < 2 ^ 64 →
  N.of_nat (size ms) < 2 ^ 64 → (∀ x, x ∈ ms → x < 2 ^ 32) →
  proof_in_range p → e' < 2 ^ 64 → N.of_nat (size ms') < 2 ^ 64 → (∀ x, x ∈ ms' → x < 2 ^ 32) →
  proof_verify_signature signed (derive_membership_group_commitment e ms) = Ok tt ∧
  (proof_transcript p = proof_transcript signed →
     mp_requester_leaf p = leaf ∧ mp_epoch p = e ∧ mp_group_id p = group_id ∧
     mp_group_commitment p = derive_membership_group_commitment e ms ∧
     mp_device_public_key p = vk_to_bytes (vk_of k)) ∧
  (group_commitment_input e' ms' = group_commitment_input e ms → e' = e ∧ ms' = ms).
Proof.
  intros signed Hl He Hg Hsz Hm Hp He' Hsz' Hm'. split; [apply proof_verify_sign|]. split.
  - intros Heq%proof_transcript_inj; [done..|]. split_and!; simpl;
      [done..|apply sha256_length|apply vk_to_bytes_length].
  - by apply group_commitment_input_inj.
Qed.
End oracle_claims.

(** ** Witnesses *)

Section witnesses.
#[local] Existing Instance Toy.toy_sha.
#[local] Existing Instance Toy.toy_sha_laws.
#[local] Existing Instance Toy.toy_ed.
#[local] Existing Instance Toy.toy_ed_laws.
#[local] Existing Instance Toy.toy_chrono.
#[local] Existing Instance Toy.toy_chrono_laws.

(** Hours since the first instant, as a toy [DateTime]. *)
Definition at_hour (h : Z) : datetime := (h * 3600 * nanos_per_second)%Z.

Definition lengthening : RetentionTransition :=
  {| tr_old_window := Hours1; tr_new_window := Hours24; tr_changed_at := at_hour 2 |}.

Lemma retention_is_exact_witness :
  key_state (at_hour 2) (at_hour 0) Hours1 [7] false = Some KeyLocked ∧
  key_state (at_hour 9) (at_hour 0) Hours1 [7] false = Some KeyLocked.
Proof.
  destruct (retention_is_exact (at_hour 2) (at_hour 9) (at_hour 0) Hours1 [7] false)
    as [H1 H2]; [reflexivity|vm_compute; discriminate|].
  split; [exact H1|apply H2, H1].
Defined.

Lemma policy_change_semantics_witness :
  transition_key_state (at_hour 3) (at_hour 0) KeyLocked lengthening [7] = Some KeyLocked ∧
  key_state (at_hour 2) (at_hour 0) Hours1 [7] false = Some KeyLocked.
Proof.
  destruct (policy_change_semantics (at_hour 3) (at_hour 2) (at_hour 0) lengthening [7] KeyLocked)
    as (_ & _ & _ & _ & H5); [reflexivity..|vm_compute; discriminate|].
  split; [apply H5|]; reflexivity.
Defined.

Lemma shortening_resurrects_a_locked_key_witness :
  transition_key_state (at_hour 3) (at_hour 0) KeyLocked
    {| tr_old_window := Days7; tr_new_window := Hours24; tr_changed_at := at_hour 3 |} [7] =
  Some (KeyCached [7]).
Proof.
  apply (shortening_resurrects_a_locked_key (at_hour 0) (at_hour 2) (at_hour 3) [7]);
    [vm_compute; reflexivity|vm_compute; discriminate].
Defined.

Lemma oversized_window_never_caches_witness :
  key_state (at_hour 0) (at_hour 0) (CustomSeconds (2 ^ 64 - 1)) [7] false = Some KeyLocked ∧
  key_state (at_hour 0) (at_hour 0) (CustomSeconds (2 ^ 62)) [7] false = None.
Proof.
  split.
  - exact (oversized_window_never_caches (at_hour 0) (at_hour 0) (2 ^ 64 - 1) [7]
      eq_refl eq_refl (Z.le_refl _)).
  - exact (oversized_window_never_caches (at_hour 0) (at_hour 0) (2 ^ 62) [7]
      eq_refl eq_refl (Z.le_refl _)).
Defined.

Lemma window_label_roundtrip_witness :
  window_from_label "custom 7200 seconds" = Some (CustomSeconds 7200).
Proof. apply (window_label_roundtrip (CustomSeconds 7200)). vm_compute. discriminate. Defined.

Lemma content_key_binds_witness :
  derive_content_key 1 "m1" [7] ≠ derive_content_key 2 "m1" [7].
Proof.
  intros Heq.
  destruct (content_key_binds 1 "m1" [7] 2 "m1" [7] eq_refl eq_refl eq_refl eq_refl Heq)
    as [(Ha & _)|[_ Hc]].
  - discriminate Ha.
  - vm_compute in Hc. discriminate Hc.
Defined.

Definition shred_calls : list CallShred :=
  [CallRegister "laptop" true; CallRegister "phone" false; CallShredMessage "m1"].

Lemma shred_reaches_online_devices_witness :
  let st := shred_run CrossDeviceShredState_default shred_calls in
  device_may_serve st "phone" "m1" = true ∧
  device_may_serve (set_online st "phone" true) "phone" "m1" = false.
Proof.
  intros st. split; [reflexivity|].
  destruct (cd_devices st !! "phone") as [d|] eqn:Hd; [|discriminate Hd].
  refine (proj1 (proj2 (proj2 (shred_reaches_online_devices shred_calls "phone" d "m1" Hd))) _).
  by left.
Defined.

(** Leaf 1 owns the room and is a member of the group, both at epoch 1. *)
Definition live_group : GroupState := (add_leaf (GroupState_new "room") (leaf_of 1)).1.
Definition live_governance : GovernanceState := GovernanceState_new 1 1.
Definition live_oracle : LiveKeyOracle :=
  match from_local_mls_governance_state live_group live_governance 2 with
  | Ok o => o
  | Err _ => LiveKeyOracle_new ∅ 0
  end.
Definition live_commitment : bytes := derive_membership_group_commitment 1 {[1]}.

Lemma local_oracle_serves_current_members_witness :
  (request_key_scoped live_oracle
    (MembershipProof_sign 1 1 "room" live_commitment Toy.alice) scope_new [9]).2 =
  {| lr_state := KeyCached [9]; lr_authorized := true |}.
Proof.
  assert (from_local_mls_governance_state live_group live_governance 2 = Ok live_oracle) as Ho
    by reflexivity.
  destruct (local_oracle_serves_current_members _ _ _ _ Ho) as (_ & _ & Hserve).
  apply (Hserve 1 (leaf_of 1) Toy.alice); reflexivity.
Defined.

Lemma membership_proof_binds_witness :
  proof_verify_signature (MembershipProof_sign 1 1 "room" live_commitment Toy.alice)
    live_commitment = Ok tt.
Proof.
  refine (proj1 (membership_proof_binds 1 1 {[1]} "room" Toy.alice
    (MembershipProof_sign 1 1 "room" live_commitment Toy.alice) 1 {[1]}
    eq_refl eq_refl eq_refl eq_refl _ _ eq_refl eq_refl _)).
  - by intros x ->%elem_of_singleton.
  - split_and!; reflexivity.
  - by intros x ->%elem_of_singleton.
Defined.
End witnesses.
