(* ===== verification/DeliveryError.v ===== *)
(** * Errors of the delivery layer (crates/mls-delivery/src/lib.rs, [DeliveryError])

    The error type shared by the text envelopes, the pipelines, the history merge
    and the commit delivery, with the text its [Display] derives, which the
    pipelines put into the lifecycle events. *)

From S2P Require Import Prelude.

Inductive DeliveryError :=
| DivergentTree (epoch : N)
| DowngradeOrReplay (epoch : N)
| WelcomeExpired
| DivergentCommitReplay
| StaleRepairTarget (local target : N)
| InvalidTextMessageEnvelope (why : string)
| TextMessageSignatureVerificationFailed
| InvalidTextDeliveryReceipt (why : string)
| TextDeliveryReceiptSignatureVerificationFailed
| TextMessageEncryptionFailed
| TextOutboundRouteNotCiphertextOnly
| TextOutboundAdapter (why : string)
| TextSendRateLimited (key : string)
| TextReceiveUnauthorizedSender (leaf : N)
| TextReceiveReplay (sender_leaf sequence : N)
| TextReceiveDowngrade (current_epoch envelope_epoch : N)
| TextReceiveFork (current_epoch envelope_epoch : N)
| TextMessageDecryptionFailed
| TextHistoryDivergence (why : string).

#[export] Instance DeliveryError_eq_dec : EqDecision DeliveryError.
Proof. solve_decision. Defined.

#[local] Open Scope string_scope.

Definition DeliveryError_to_string (e : DeliveryError) : string :=
  match e with
  | DivergentTree n => "divergent tree hash at epoch " +:+ pretty n
  | DowngradeOrReplay n => "downgrade or replay at epoch " +:+ pretty n
  | WelcomeExpired => "welcome expired"
  | DivergentCommitReplay => "repair attempted to replay divergent MLS commits"
  | StaleRepairTarget local target =>
      "repair target epoch " +:+ pretty target +:+ " is older than local epoch " +:+
      pretty local
  | InvalidTextMessageEnvelope why => "invalid text message envelope: " +:+ why
  | TextMessageSignatureVerificationFailed =>
      "text message envelope signature verification failed"
  | InvalidTextDeliveryReceipt why => "invalid text delivery receipt: " +:+ why
  | TextDeliveryReceiptSignatureVerificationFailed =>
      "text delivery receipt signature verification failed"
  | TextMessageEncryptionFailed => "text message encryption failed"
  | TextOutboundRouteNotCiphertextOnly => "text outbound route is not ciphertext-only"
  | TextOutboundAdapter why => "text outbound adapter failed: " +:+ why
  | TextSendRateLimited key => "text send rate-limited for " +:+ key
  | TextReceiveUnauthorizedSender leaf =>
      "text receive sender leaf " +:+ pretty leaf +:+
      " is not a member of the current epoch"
  | TextReceiveReplay sender_leaf sequence =>
      "text receive replay for sender " +:+ pretty sender_leaf +:+ " sequence " +:+
      pretty sequence
  | TextReceiveDowngrade c v =>
      "text receive downgrade from current epoch " +:+ pretty c +:+ " to " +:+ pretty v
  | TextReceiveFork c v =>
      "text receive fork from current epoch " +:+ pretty c +:+ " to " +:+ pretty v
  | TextMessageDecryptionFailed => "text message decryption failed"
  | TextHistoryDivergence why => "text history divergence requires repair: " +:+ why
  end.
