(* ===== verification/Delivery.v ===== *)
(** * Ordered commit delivery and fork repair (crates/mls-delivery/src/lib.rs)

    Epoch summaries and fork detection, the canonical order of application events
    and commits, the delivery state that accepts commits, Welcome and catch-up
    packages, and the explicit repair plans for forks. *)

From S2P Require Import Prelude Collections Bytes Crypto DeliveryError.

(** ** Summaries and fork detection *)

Record EpochSummary := {
  es_epoch : N;
  es_tree_hash : bytes;
  es_confirmation_tag : bytes
}.

#[export] Instance EpochSummary_eq_dec : EqDecision EpochSummary.
Proof. solve_decision. Defined.

(** The derived [Ord]: fields in declaration order. *)
Definition summary_cmp : EpochSummary → EpochSummary → comparison :=
  cmp_lex (cmp_by es_epoch N.compare)
    (cmp_lex (cmp_by es_tree_hash (cmp_list N.compare))
       (cmp_by es_confirmation_tag (cmp_list N.compare))).

Definition needs_repair (local remote : EpochSummary) : bool :=
  (es_epoch local =? es_epoch remote) &&
  (negb (bool_decide (es_tree_hash local = es_tree_hash remote)) ||
   negb (bool_decide (es_confirmation_tag local = es_confirmation_tag remote))).

Record ForkEvidence := { fe_local : EpochSummary; fe_remote : EpochSummary }.

Inductive ForkStatus :=
| InSync
| NeedsCatchUp (remote_epoch : N)
| StatusDowngradeOrReplay (remote_epoch : N)
| Diverged (evidence : ForkEvidence).

Definition detect_fork_or_replay (local remote : EpochSummary) : ForkStatus :=
  match es_epoch remote ?= es_epoch local with
  | Gt => NeedsCatchUp (es_epoch remote)
  | Lt => StatusDowngradeOrReplay (es_epoch remote)
  | Eq => if needs_repair local remote
          then Diverged {| fe_local := local; fe_remote := remote |}
          else InSync
  end.

(** ** Application events *)

Record ApplicationEvent := {
  ae_epoch : N;
  ae_leaf_index : N;
  ae_event_id : string;
  ae_payload : bytes
}.

#[export] Instance ApplicationEvent_eq_dec : EqDecision ApplicationEvent.
Proof. solve_decision. Defined.

Record CanonicalEventKey := {
  ck_epoch : N;
  ck_leaf_index : N;
  ck_content_hash : bytes
}.

#[export] Instance CanonicalEventKey_eq_dec : EqDecision CanonicalEventKey.
Proof. solve_decision. Defined.

Definition key_tuple (k : CanonicalEventKey) : N * (N * bytes) :=
  (ck_epoch k, (ck_leaf_index k, ck_content_hash k)).

#[export] Instance key_tuple_inj : Inj (=) (=) key_tuple.
Proof. intros [] []; unfold key_tuple; simpl. by intros [= -> -> ->]. Qed.

#[export] Instance CanonicalEventKey_countable : Countable CanonicalEventKey :=
  inj_countable' key_tuple (λ t, Build_CanonicalEventKey t.1 t.2.1 t.2.2)
    (λ k, match k with Build_CanonicalEventKey _ _ _ => eq_refl end).

#[export] Instance CanonicalEventKey_ord : OrdKey CanonicalEventKey :=
  cmp_by key_tuple key_cmp.

#[export] Instance CanonicalEventKey_ord_laws : OrdKeyLaws CanonicalEventKey.
Proof. split; unfold key_cmp at 1, CanonicalEventKey_ord; apply _. Qed.

Section model.
Context `{Sha256}.

Definition event_content_hash (ev : ApplicationEvent) : bytes :=
  sha256 (as_bytes (ae_event_id ev) ++ ae_payload ev).

Definition canonical_key (ev : ApplicationEvent) : CanonicalEventKey :=
  {| ck_epoch := ae_epoch ev;
     ck_leaf_index := ae_leaf_index ev;
     ck_content_hash := event_content_hash ev |}.

Definition event_cmp : ApplicationEvent → ApplicationEvent → comparison :=
  cmp_lex (cmp_by canonical_key key_cmp) (cmp_by ae_event_id String.compare).

Definition order_application_events (events : list ApplicationEvent) :
    list ApplicationEvent := sort_by event_cmp events.

(** ** Commits and histories *)

Record CommitOrderKey := {
  co_epoch : N;
  co_committer_leaf : N;
  co_content_hash : bytes
}.

Record CommitEnvelope := {
  ce_summary : EpochSummary;
  ce_committer_leaf : N;
  ce_application_events : list ApplicationEvent
}.

Definition CommitEnvelope_new (summary : EpochSummary) (committer_leaf : N)
    (application_events : list ApplicationEvent) : CommitEnvelope :=
  {| ce_summary := summary;
     ce_committer_leaf := committer_leaf;
     ce_application_events := order_application_events application_events |}.

Definition event_ref_bytes (ev : ApplicationEvent) : bytes :=
  let key := canonical_key ev in
  be_u64 (ck_epoch key) ++ be_u32 (ck_leaf_index key) ++ ck_content_hash key ++
  push_bytes (as_bytes (ae_event_id ev)).

Definition commit_content_hash (c : CommitEnvelope) : bytes :=
  sha256 (as_bytes "discrypt-mls-delivery-commit-v1" ++
    be_u64 (es_epoch (ce_summary c)) ++ es_tree_hash (ce_summary c) ++
    es_confirmation_tag (ce_summary c) ++ be_u32 (ce_committer_leaf c) ++
    concat (event_ref_bytes <$> ce_application_events c)).

Definition order_key (c : CommitEnvelope) : CommitOrderKey :=
  {| co_epoch := es_epoch (ce_summary c);
     co_committer_leaf := ce_committer_leaf c;
     co_content_hash := commit_content_hash c |}.

Definition commit_key_cmp : CommitOrderKey → CommitOrderKey → comparison :=
  cmp_lex (cmp_by co_epoch N.compare)
    (cmp_lex (cmp_by co_committer_leaf N.compare)
       (cmp_by co_content_hash (cmp_list N.compare))).

Definition order_commits (commits : list CommitEnvelope) : list CommitEnvelope :=
  sort_by (cmp_by order_key commit_key_cmp) commits.

Record DeliveryHistory := {
  dh_summary : EpochSummary;
  dh_commits : list CommitEnvelope
}.

Definition DeliveryHistory_new (summary : EpochSummary) (commits : list CommitEnvelope) :
    DeliveryHistory :=
  {| dh_summary := summary; dh_commits := order_commits commits |}.

(** [DeliveryHistoryKey::from_commits] *)
Definition history_key (h : DeliveryHistory) : list CommitOrderKey :=
  order_key <$> dh_commits h.

Definition history_cmp : DeliveryHistory → DeliveryHistory → comparison :=
  cmp_lex (cmp_by history_key (cmp_list commit_key_cmp)) (cmp_by dh_summary summary_cmp).

Definition comparator_maximal_history (histories : list DeliveryHistory) :
    option DeliveryHistory := max_by history_cmp histories.

(** ** Delivery state *)

Record DeliveryState := {
  ds_summary : EpochSummary;
  ds_accepted_events : gmap CanonicalEventKey ApplicationEvent
}.

Definition DeliveryState_new (summary : EpochSummary) : DeliveryState :=
  {| ds_summary := summary; ds_accepted_events := ∅ |}.

Definition accepted_events (st : DeliveryState) : list ApplicationEvent :=
  values (ds_accepted_events st).

(** The insertion loop of [apply_commit] and [apply_repair_plan]. *)
Definition insert_events (m : gmap CanonicalEventKey ApplicationEvent)
    (events : list ApplicationEvent) : gmap CanonicalEventKey ApplicationEvent :=
  foldl (λ acc ev, <[canonical_key ev := ev]> acc) m events.

Definition apply_commit (st : DeliveryState) (commit : CommitEnvelope) :
    DeliveryState * result unit DeliveryError :=
  match detect_fork_or_replay (ds_summary st) (ce_summary commit) with
  | NeedsCatchUp remote_epoch =>
      if es_epoch (ce_summary commit) =? sat_add u64_max (es_epoch (ds_summary st)) 1 then
        match head (filter (λ ev, ae_epoch ev ≠ es_epoch (ce_summary commit))
                      (ce_application_events commit)) with
        | Some ev => (st, Err (DowngradeOrReplay (ae_epoch ev)))
        | None =>
            ({| ds_summary := ce_summary commit;
                ds_accepted_events :=
                  insert_events (ds_accepted_events st) (ce_application_events commit) |},
             Ok tt)
        end
      else (st, Err (DowngradeOrReplay remote_epoch))
  | InSync => (st, Err (DowngradeOrReplay (es_epoch (ce_summary commit))))
  | StatusDowngradeOrReplay remote_epoch => (st, Err (DowngradeOrReplay remote_epoch))
  | Diverged evidence => (st, Err (DivergentTree (es_epoch (fe_local evidence))))
  end.

(** ** Welcome and catch-up *)

Record WelcomePackage := {
  wp_room_id : string;
  wp_new_leaf : N;
  wp_summary : EpochSummary;
  wp_expires_at_ms : N
}.

Definition WelcomePackage_validate (w : WelcomePackage) (now_ms : N) :
    result unit DeliveryError :=
  if now_ms <=? wp_expires_at_ms w then Ok tt else Err WelcomeExpired.

Record CatchUpBundle := {
  cb_summary : EpochSummary;
  cb_commits : list CommitEnvelope;
  cb_application_events : list ApplicationEvent
}.

Definition CatchUpBundle_new (summary : EpochSummary) (commits : list CommitEnvelope)
    (application_events : list ApplicationEvent) : CatchUpBundle :=
  {| cb_summary := summary;
     cb_commits := order_commits commits;
     cb_application_events := order_application_events application_events |}.

(** ** Repair *)

Inductive RepairAction :=
| RepairNone
| RejoinAndReproposal (coordinator_leaf : N).

Record RepairPlan := {
  rp_action : RepairAction;
  rp_winner : EpochSummary;
  rp_reproposed_events : list ApplicationEvent;
  rp_replays_divergent_mls_commits : bool
}.

(** [leaves.iter().copied().max().unwrap_or_default()] *)
Definition select_repair_action (diverged : bool) (leaves : list N) : RepairAction :=
  if negb diverged then RepairNone
  else RejoinAndReproposal (default 0 (max_by N.compare leaves)).

Definition plan_repair (evidence : ForkEvidence) (last_common_leaves : list N)
    (still_valid_events : list ApplicationEvent) : RepairPlan :=
  let winner := match summary_cmp (fe_remote evidence) (fe_local evidence) with
                | Gt => fe_remote evidence
                | _ => fe_local evidence
                end in
  {| rp_action := select_repair_action true last_common_leaves;
     rp_winner := winner;
     rp_reproposed_events := order_application_events
       (filter (λ ev, ae_epoch ev = es_epoch winner) still_valid_events);
     rp_replays_divergent_mls_commits := false |}.

Definition plan_repair_from_histories (histories : list DeliveryHistory)
    (last_common_leaves : list N) (still_valid_events : list ApplicationEvent) :
    option RepairPlan :=
  winner ← comparator_maximal_history histories;
  Some {| rp_action :=
            select_repair_action (1 <? length histories)%nat last_common_leaves;
          rp_winner := dh_summary winner;
          rp_reproposed_events := order_application_events
            (filter (λ ev, ae_epoch ev = es_epoch (dh_summary winner)) still_valid_events);
          rp_replays_divergent_mls_commits := false |}.

Definition apply_repair_plan (st : DeliveryState) (plan : RepairPlan) :
    DeliveryState * result unit DeliveryError :=
  if rp_replays_divergent_mls_commits plan then (st, Err DivergentCommitReplay)
  else if es_epoch (rp_winner plan) <? es_epoch (ds_summary st) then
    (st, Err (StaleRepairTarget (es_epoch (ds_summary st)) (es_epoch (rp_winner plan))))
  else match rp_action plan with
  | RepairNone => (st, Ok tt)
  | RejoinAndReproposal _ =>
      match head (filter (λ ev, ae_epoch ev ≠ es_epoch (rp_winner plan))
                    (rp_reproposed_events plan)) with
      | Some ev => (st, Err (DowngradeOrReplay (ae_epoch ev)))
      | None =>
          ({| ds_summary := rp_winner plan;
              ds_accepted_events :=
                insert_events (ds_accepted_events st) (rp_reproposed_events plan) |},
           Ok tt)
      end
  end.

Definition repair_to_winner (participants : nat) (plan : RepairPlan) : list EpochSummary :=
  replicate participants (rp_winner plan).

Definition equal_confirmation_tags (summaries : list EpochSummary) : bool :=
  match summaries with
  | [] => true
  | first :: _ =>
      forallb (λ s, bool_decide (es_confirmation_tag s = es_confirmation_tag first)) summaries
  end.

Definition event_ids (events : list ApplicationEvent) : gset string :=
  list_to_set (ae_event_id <$> events).

(** [summary(epoch, tree_byte, confirmation_byte)] *)
Definition summary (epoch tree_byte confirmation_byte : N) : EpochSummary :=
  {| es_epoch := epoch;
     es_tree_hash := replicate 32 tree_byte;
     es_confirmation_tag := replicate 32 confirmation_byte |}.
End model.

(** ** Lemmas *)

#[export] Instance summary_cmp_laws : CmpLaws summary_cmp.
Proof. unfold summary_cmp. apply _. Qed.

#[export] Instance summary_cmp_eq : CmpEq summary_cmp.
Proof.
  intros [] [] [H1 [H2 H3]%cmp_lex_eq_inv]%cmp_lex_eq_inv. unfold cmp_by in *; simpl in *.
  f_equal; [by apply N.compare_eq|by apply (cmp_eq (cmp := cmp_list N.compare))..].
Qed.

#[export] Instance commit_key_cmp_laws : CmpLaws commit_key_cmp.
Proof. unfold commit_key_cmp. apply _. Qed.

#[export] Instance commit_key_cmp_eq : CmpEq commit_key_cmp.
Proof.
  intros [] [] [H1 [H2 H3]%cmp_lex_eq_inv]%cmp_lex_eq_inv. unfold cmp_by in *; simpl in *.
  f_equal; [by apply N.compare_eq..|by apply (cmp_eq (cmp := cmp_list N.compare))].
Qed.

Lemma head_filter_None {A} (P : A → Prop) `{∀ x, Decision (P x)} (l : list A) :
  head (filter (λ x, ¬ P x) l) = None ↔ Forall P l.
Proof.
  rewrite Forall_forall. destruct (filter _ l) as [|y k] eqn:E; simpl.
  - split; [|done]. intros _ x Hx.
    destruct (decide (P x)) as [|HP]; [done|]. exfalso.
    assert (x ∈ filter (λ x, ¬ P x) l) as Hin by (by apply list_elem_of_filter).
    rewrite E in Hin. set_solver.
  - split; [done|]. intros Hall.
    assert (y ∈ filter (λ x, ¬ P x) l) as Hy by (rewrite E; left).
    apply list_elem_of_filter in Hy as [HP Hy]. by apply Hall in Hy.
Qed.

Section lemmas.
Context `{Sha256}.
Implicit Types (st : DeliveryState) (c : CommitEnvelope) (ev : ApplicationEvent).

#[export] Instance event_cmp_laws : CmpLaws event_cmp.
Proof. unfold event_cmp. apply _. Qed.

#[export] Instance history_cmp_laws : CmpLaws history_cmp.
Proof. unfold history_cmp. apply _. Qed.

Lemma insert_events_lookup m events k ev :
  insert_events m events !! k = Some ev →
  (ev ∈ events ∧ canonical_key ev = k) ∨ m !! k = Some ev.
Proof.
  revert m. induction events as [|e rest IH]; intros m; simpl; [by right|].
  intros [[? ?]|Hm]%IH; [left; set_solver|].
  destruct (decide (canonical_key e = k)) as [<-|Hne].
  - rewrite lookup_insert_eq in Hm. simplify_eq. left. set_solver.
  - rewrite lookup_insert_ne in Hm by done. by right.
Qed.

Lemma insert_events_fresh m events k :
  (∀ ev, ev ∈ events → canonical_key ev ≠ k) → insert_events m events !! k = m !! k.
Proof.
  revert m. induction events as [|e rest IH]; intros m Hne; simpl; [done|].
  rewrite IH by set_solver. apply lookup_insert_ne. set_solver.
Qed.

Lemma insert_events_is_Some m events k :
  is_Some (m !! k) ∨ (∃ ev, ev ∈ events ∧ canonical_key ev = k) →
  is_Some (insert_events m events !! k).
Proof.
  revert m. induction events as [|e rest IH]; intros m; simpl; [set_solver|].
  intros Hor. apply IH. destruct (decide (canonical_key e = k)) as [<-|Hne].
  - left. rewrite lookup_insert_eq. eauto.
  - rewrite lookup_insert_ne by done. set_solver.
Qed.

(** Accepted events are stored under their own key, from epochs up to the current. *)
Definition delivery_wf st : Prop :=
  ∀ k ev, ds_accepted_events st !! k = Some ev →
    k = canonical_key ev ∧ ae_epoch ev ≤ es_epoch (ds_summary st).

Lemma apply_commit_ok_inv st c st' :
  apply_commit st c = (st', Ok tt) →
  es_epoch (ce_summary c) = es_epoch (ds_summary st) + 1 ∧
  Forall (λ ev, ae_epoch ev = es_epoch (ce_summary c)) (ce_application_events c) ∧
  st' = {| ds_summary := ce_summary c;
           ds_accepted_events :=
             insert_events (ds_accepted_events st) (ce_application_events c) |}.
Proof.
  unfold apply_commit, detect_fork_or_replay.
  destruct (N.compare_spec (es_epoch (ce_summary c)) (es_epoch (ds_summary st)));
    [by destruct (needs_repair _ _)|done|].
  case_match eqn:Hep; [|done]. apply N.eqb_eq in Hep. unfold sat_add in Hep.
  destruct (head _) eqn:Hf; [done|]. apply head_filter_None in Hf.
  intros [= <-]. split_and!; [lia|done..].
Qed.

Lemma apply_commit_err_inv st c st' e : apply_commit st c = (st', Err e) → st' = st.
Proof. unfold apply_commit. case_all; intros; by simplify_eq. Qed.

Lemma apply_commit_old st c :
  es_epoch (ce_summary c) ≤ es_epoch (ds_summary st) →
  ∃ e, apply_commit st c = (st, Err e).
Proof.
  intros Hle. destruct (apply_commit st c) as [st' [[]|e]] eqn:E.
  - apply apply_commit_ok_inv in E. lia.
  - apply apply_commit_err_inv in E as ->. eauto.
Qed.

Lemma apply_commit_wf st c :
  delivery_wf st → delivery_wf (apply_commit st c).1.
Proof.
  intros Hwf. destruct (apply_commit st c) as [st' [[]|e]] eqn:E; simpl.
  - apply apply_commit_ok_inv in E as (Hep & Hall & ->).
    intros k ev Hk; simpl in *. rewrite Hep.
    apply insert_events_lookup in Hk as [[Hin <-]|Hk].
    + split; [done|]. rewrite Forall_forall in Hall. rewrite (Hall ev) by done. lia.
    + apply Hwf in Hk as [-> Hle]. split; [done|lia].
  - by apply apply_commit_err_inv in E as ->.
Qed.

(** Deliver a sequence of commits, skipping the rejected ones; the accepted commits
    come out in order. *)
Fixpoint deliver st (commits : list CommitEnvelope) :
    DeliveryState * list CommitEnvelope :=
  match commits with
  | [] => (st, [])
  | c :: rest =>
      match apply_commit st c with
      | (st1, Ok _) => let '(st2, acc) := deliver st1 rest in (st2, c :: acc)
      | (st1, Err _) => deliver st1 rest
      end
  end.

Lemma deliver_spec st commits :
  let '(st', acc) := deliver st commits in
  (delivery_wf st → delivery_wf st') ∧
  es_epoch (ds_summary st') = es_epoch (ds_summary st) + N.of_nat (length acc) ∧
  ∀ i c, acc !! i = Some c →
    es_epoch (ce_summary c) = es_epoch (ds_summary st) + 1 + N.of_nat i.
Proof.
  revert st. induction commits as [|c rest IH]; intros st; simpl.
  { split_and!; [done|lia|done]. }
  pose proof (apply_commit_wf st c) as Hwf.
  destruct (apply_commit st c) as [st1 [[]|e]] eqn:E; simpl in *.
  - apply apply_commit_ok_inv in E as (Hep & _ & ->). specialize (IH
      {| ds_summary := ce_summary c;
         ds_accepted_events :=
           insert_events (ds_accepted_events st) (ce_application_events c) |}).
    destruct (deliver _ rest) as [st2 acc]; simpl in *.
    destruct IH as (Hw & He & Hi). split_and!; [auto|lia|].
    intros [|i] c' Hc'; simpl in Hc'; [simplify_eq; lia|]. apply Hi in Hc'. lia.
  - apply apply_commit_err_inv in E as ->. apply IH.
Qed.

Lemma diverged_inv a b evidence :
  detect_fork_or_replay a b = Diverged evidence →
  evidence = {| fe_local := a; fe_remote := b |} ∧ es_epoch a = es_epoch b ∧ a ≠ b.
Proof.
  unfold detect_fork_or_replay, needs_repair.
  destruct (N.compare_spec (es_epoch b) (es_epoch a)) as [Heq|?|?]; [|done..].
  case_match eqn:Hr; [|done]. intros [= <-]. split_and!; [done..|].
  intros ->. rewrite !bool_decide_eq_true_2 in Hr by done. by rewrite andb_false_r in Hr.
Qed.

Lemma plan_winner_epoch a b leaves events :
  es_epoch a = es_epoch b →
  es_epoch (rp_winner (plan_repair {| fe_local := a; fe_remote := b |} leaves events)) =
  es_epoch a.
Proof. intros Heq. simpl. by case_match. Qed.

Lemma plan_winner_sym a b leaves events leaves' events' :
  rp_winner (plan_repair {| fe_local := a; fe_remote := b |} leaves events) =
  rp_winner (plan_repair {| fe_local := b; fe_remote := a |} leaves' events').
Proof.
  simpl. rewrite (cmp_antisym summary_cmp a b).
  destruct (summary_cmp b a) eqn:E; simpl; [|done..].
  by apply (cmp_eq (cmp := summary_cmp)) in E.
Qed.

Lemma apply_plan_repair st evidence leaves events :
  es_epoch (rp_winner (plan_repair evidence leaves events)) = es_epoch (ds_summary st) →
  apply_repair_plan st (plan_repair evidence leaves events) =
    ({| ds_summary := rp_winner (plan_repair evidence leaves events);
        ds_accepted_events := insert_events (ds_accepted_events st)
          (rp_reproposed_events (plan_repair evidence leaves events)) |}, Ok tt).
Proof.
  intros Hep. unfold apply_repair_plan. rewrite Hep, N.ltb_irrefl. simpl rp_action.
  rewrite <- Hep.
  assert (Forall (λ ev, ae_epoch ev = es_epoch (rp_winner (plan_repair evidence leaves events)))
    (rp_reproposed_events (plan_repair evidence leaves events))) as Hall.
  { apply Forall_forall. intros ev Hev. simpl in Hev. unfold order_application_events in Hev.
    apply elem_of_sort_by, list_elem_of_filter in Hev as [Hev _]. exact Hev. }
  rewrite <- head_filter_None in Hall. by rewrite Hall.
Qed.

Lemma apply_repair_plan_err_inv st plan st' e :
  apply_repair_plan st plan = (st', Err e) → st' = st.
Proof. unfold apply_repair_plan. case_all; intros; by simplify_eq. Qed.
End lemmas.

(** ** Claims *)

Section claims.
Context `{Sha256}.
Implicit Types (st : DeliveryState) (c : CommitEnvelope) (ev : ApplicationEvent).

(** C3. Commit delivery has no gap, no replay and no downgrade: whatever sequence of
    commits a member is offered, the accepted ones carry the consecutive epochs that
    follow the starting epoch, the final epoch is the starting epoch plus their
    number, every stored event is filed under its own key with an epoch not above the
    current one, and offering an accepted commit again is an error that changes
    nothing. *)
Theorem delivery_no_gap_no_replay summary commits :
  let '(st', acc) := deliver (DeliveryState_new summary) commits in
  delivery_wf st' ∧
  es_epoch (ds_summary st') = es_epoch summary + N.of_nat (length acc) ∧
  (∀ i c, acc !! i = Some c → es_epoch (ce_summary c) = es_epoch summary + 1 + N.of_nat i) ∧
  ∀ c, c ∈ acc → ∃ e, apply_commit st' c = (st', Err e).
Proof.
  pose proof (deliver_spec (DeliveryState_new summary) commits) as Hspec.
  destruct (deliver _ commits) as [st' acc]. destruct Hspec as (Hwf & Hep & Hi).
  simpl in *. split_and!; [|done..|].
  - apply Hwf. intros k ev. simpl. by rewrite lookup_empty.
  - intros c [i Hc]%list_elem_of_lookup. apply apply_commit_old.
    apply lookup_lt_Some in Hc as Hlt. apply Hi in Hc. lia.
Qed.

(** C30. Fork repair converges: when two members at the same epoch hold different
    cryptographic state, each one's plan (built from its own evidence, its own leaf
    list and its own event list) is accepted, both plans elect the same winner, which
    is one of the two summaries, and afterwards the members are in sync. *)
Theorem fork_repair_converges (a b : DeliveryState) ev_a ev_b leaves_a leaves_b events_a events_b :
  detect_fork_or_replay (ds_summary a) (ds_summary b) = Diverged ev_a →
  detect_fork_or_replay (ds_summary b) (ds_summary a) = Diverged ev_b →
  ∃ a' b',
    apply_repair_plan a (plan_repair ev_a leaves_a events_a) = (a', Ok tt) ∧
    apply_repair_plan b (plan_repair ev_b leaves_b events_b) = (b', Ok tt) ∧
    ds_summary a' = ds_summary b' ∧
    (ds_summary a' = ds_summary a ∨ ds_summary a' = ds_summary b) ∧
    detect_fork_or_replay (ds_summary a') (ds_summary b') = InSync.
Proof.
  intros (-> & Hep & _)%diverged_inv (-> & _)%diverged_inv.
  do 2 eexists. split_and!.
  - apply apply_plan_repair. by apply plan_winner_epoch.
  - apply apply_plan_repair. by apply plan_winner_epoch.
  - cbn [ds_summary]. apply plan_winner_sym.
  - cbn [ds_summary]. simpl. case_match; auto.
  - cbn [ds_summary]. rewrite (plan_winner_sym (ds_summary b) _ _ _ leaves_a events_a).
    unfold detect_fork_or_replay, needs_repair.
    by rewrite N.compare_refl, !bool_decide_eq_true_2, andb_false_r.
Qed.

(** SHA-256 has no collision among the given events' hashed bytes. *)
Definition event_hash_collision_free (events : list ApplicationEvent) : Prop :=
  ∀ x y, x ∈ events → y ∈ events → event_content_hash x = event_content_hash y →
    as_bytes (ae_event_id x) ++ ae_payload x = as_bytes (ae_event_id y) ++ ae_payload y.

(** The canonical order of application events is a function of the set of
    events: any arrival order of the same events gives the same sorted list, provided
    SHA-256 does not collide on them. *)
Theorem order_events_arrival_independent events events' :
  events ≡ₚ events' →
  event_hash_collision_free events →
  order_application_events events = order_application_events events' ∧
  order_application_events events ≡ₚ events ∧
  StronglySorted (cmp_le event_cmp) (order_application_events events).
Proof.
  intros Hp Hcf. split_and!; [|apply sort_by_perm|apply sort_by_sorted, _].
  apply sort_by_unique; [apply _|done|].
  intros x y Hx Hy [Hk Hid]%cmp_lex_eq_inv.
  unfold cmp_by in Hk, Hid. apply (cmp_eq (cmp := key_cmp)) in Hk.
  apply (cmp_eq (cmp := String.compare)) in Hid.
  destruct x as [e l i p], y as [e' l' i' p']; simpl in *.
  injection Hk as -> -> Hh. subst i'. f_equal.
  eapply Hcf in Hh; [|done..]. simpl in Hh. by simplify_list_eq.
Qed.

(** The comparator-maximal history does not depend on the order in which the
    candidates were received, and no candidate compares above it. *)
Theorem history_winner_order_independent histories histories' :
  histories ≡ₚ histories' →
  (∀ x y, x ∈ histories → y ∈ histories →
    history_key x = history_key y → dh_summary x = dh_summary y → x = y) →
  comparator_maximal_history histories = comparator_maximal_history histories' ∧
  ∀ w, comparator_maximal_history histories = Some w →
    w ∈ histories ∧ ∀ h, h ∈ histories → history_cmp h w ≠ Gt.
Proof.
  intros Hp Hinj. split; [|intros w; apply max_by_spec, _].
  apply max_by_perm; [apply _|done|].
  intros x y Hx Hy [Hk Hs]%cmp_lex_eq_inv. apply Hinj; [done..| |].
  - by apply (cmp_eq (cmp := cmp_list commit_key_cmp)) in Hk.
  - by apply (cmp_eq (cmp := summary_cmp)) in Hs.
Qed.

(** The event hash does not separate the event id from the payload, so two
    different events of one author and epoch whose id and payload concatenate to the
    same bytes share a canonical key: a commit that carries both is accepted, and
    only one of the two events is kept. *)
Theorem unframed_event_hash_drops_an_event s0 sm leaf (x y : ApplicationEvent) :
  es_epoch sm = es_epoch s0 + 1 → es_epoch sm ≤ u64_max →
  ae_epoch x = es_epoch sm → ae_epoch y = es_epoch sm →
  ae_leaf_index x = ae_leaf_index y → x ≠ y →
  as_bytes (ae_event_id x) ++ ae_payload x = as_bytes (ae_event_id y) ++ ae_payload y →
  ∃ st', apply_commit (DeliveryState_new s0) (CommitEnvelope_new sm leaf [x; y]) =
           (st', Ok tt) ∧
         length (accepted_events st') = 1%nat.
Proof.
  intros Hsm Hmax Hx Hy Hl Hne Hb.
  assert (canonical_key x = canonical_key y) as Hk.
  { unfold canonical_key, event_content_hash. by rewrite Hx, Hy, Hl, Hb. }
  eexists. split.
  - unfold apply_commit, detect_fork_or_replay; simpl.
    rewrite (proj2 (N.compare_gt_iff _ _)) by lia. unfold sat_add.
    rewrite (proj2 (N.eqb_eq _ _)) by lia.
    replace (head _) with (@None ApplicationEvent); [reflexivity|]. symmetry.
    apply head_filter_None. rewrite Forall_forall. intros ev.
    destruct (event_cmp x y); set_solver.
  - unfold accepted_events. rewrite length_values. simpl.
    unfold order_application_events; simpl. destruct (event_cmp x y); simpl;
      rewrite Hk, insert_insert_eq, insert_empty; apply map_size_singleton.
Qed.

(** Winner selection compares histories commit by commit, so a shorter branch
    can win over a longer one; the members on the longer branch then refuse the
    repair plan as stale and stay forked. *)
Theorem history_winner_can_be_stale sA sB1 sB2 leafA leafB e leaves events :
  es_epoch sA = e + 1 → es_epoch sB1 = e + 1 → es_epoch sB2 = e + 2 →
  leafB < leafA →
  let hA := DeliveryHistory_new sA [CommitEnvelope_new sA leafA []] in
  let hB := DeliveryHistory_new sB2
    [CommitEnvelope_new sB1 leafB []; CommitEnvelope_new sB2 leafB []] in
  ∃ plan,
    plan_repair_from_histories [hA; hB] leaves events = Some plan ∧
    rp_winner plan = sA ∧
    ∀ st, ds_summary st = sB2 →
      apply_repair_plan st plan = (st, Err (StaleRepairTarget (e + 2) (e + 1))).
Proof.
  intros HA HB1 HB2 Hlt hA hB.
  assert (history_cmp hA hB = Gt) as Hcmp.
  { unfold history_cmp, cmp_lex, cmp_by, hA, hB, history_key; simpl.
    unfold cmp_by at 1, commit_key_cmp at 1, cmp_lex, cmp_by, order_key; simpl.
    rewrite HB1, HB2. rewrite (proj2 (N.compare_lt_iff (e + 1) (e + 2))) by lia. simpl.
    unfold commit_key_cmp, cmp_lex, cmp_by, order_key; simpl.
    rewrite HA, HB1, N.compare_refl. simpl.
    by rewrite (proj2 (N.compare_gt_iff leafA leafB) Hlt). }
  eexists. split_and!.
  - unfold plan_repair_from_histories, comparator_maximal_history, max_by; simpl.
    rewrite Hcmp. reflexivity.
  - done.
  - intros st Hst. unfold apply_repair_plan; simpl. rewrite Hst, HA, HB2.
    by rewrite (proj2 (N.ltb_lt (e + 1) (e + 2))) by lia.
Qed.

(** Repair does not retract: an event that one member accepted on its own branch
    stays accepted after both members applied the same repair plan, so the two
    members end with the same summary and different accepted events. *)
Theorem repair_keeps_losing_branch_events (a b : DeliveryState) evidence leaves events x :
  detect_fork_or_replay (ds_summary a) (ds_summary b) = Diverged evidence →
  delivery_wf b →
  ds_accepted_events a !! canonical_key x = Some x →
  ds_accepted_events b !! canonical_key x = None →
  (∀ y, y ∈ events → canonical_key y ≠ canonical_key x) →
  let plan := plan_repair evidence leaves events in
  ∃ a' b',
    apply_repair_plan a plan = (a', Ok tt) ∧ apply_repair_plan b plan = (b', Ok tt) ∧
    ds_summary a' = ds_summary b' ∧
    x ∈ accepted_events a' ∧ x ∉ accepted_events b'.
Proof.
  intros (-> & Hep & _)%diverged_inv Hwf Ha Hb Hfresh plan.
  assert (∀ y, y ∈ rp_reproposed_events plan → canonical_key y ≠ canonical_key x) as Hf.
  { intros y Hy. simpl in Hy. apply elem_of_sort_by, list_elem_of_filter in Hy as [_ Hy].
    by apply Hfresh. }
  do 2 eexists. split_and!.
  - apply apply_plan_repair. by apply plan_winner_epoch.
  - apply apply_plan_repair. rewrite plan_winner_epoch; done.
  - done.
  - apply elem_of_values. exists (canonical_key x). cbn [ds_accepted_events].
    by rewrite insert_events_fresh.
  - intros [k Hk]%elem_of_values. cbn [ds_accepted_events] in Hk.
    apply insert_events_lookup in Hk as [[Hin <-]|Hk]; [by eapply Hf|].
    apply Hwf in Hk as Hk'. destruct Hk' as [-> _]. congruence.
Qed.
End claims.

(** ** Witnesses *)

Section witnesses.
#[local] Existing Instance Toy.toy_sha.

(** Two members forked at epoch 4; the first accepted event [e1] on its branch. *)
Definition e1 : ApplicationEvent := Build_ApplicationEvent 4 2 "e1" [1].
Definition e2 : ApplicationEvent := Build_ApplicationEvent 4 3 "e2" [2].
Definition fork_a : DeliveryState :=
  {| ds_summary := summary 4 7 7;
     ds_accepted_events := {[canonical_key e1 := e1]} |}.
Definition fork_b : DeliveryState := DeliveryState_new (summary 4 9 9).

Lemma fork_repair_converges_witness :
  ∃ a' b', ds_summary a' = ds_summary b' ∧
    detect_fork_or_replay (ds_summary a') (ds_summary b') = InSync.
Proof.
  destruct (fork_repair_converges fork_a fork_b
    {| fe_local := summary 4 7 7; fe_remote := summary 4 9 9 |}
    {| fe_local := summary 4 9 9; fe_remote := summary 4 7 7 |} [1; 2] [2; 1] [e2] [])
    as (a' & b' & _ & _ & Hs & _ & Hd); [vm_compute; reflexivity..|].
  exists a', b'. split; [exact Hs|exact Hd].
Defined.

Lemma order_events_arrival_independent_witness :
  order_application_events [e1; e2] = order_application_events [e2; e1].
Proof.
  apply (order_events_arrival_independent [e1; e2] [e2; e1]); [apply perm_swap|].
  intros x y [->|[->|[]%not_elem_of_nil]%elem_of_cons]%elem_of_cons
    [->|[->|[]%not_elem_of_nil]%elem_of_cons]%elem_of_cons; vm_compute; congruence.
Defined.

Definition short_history : DeliveryHistory :=
  DeliveryHistory_new (summary 1 1 1) [CommitEnvelope_new (summary 1 1 1) 9 []].
Definition long_history : DeliveryHistory :=
  DeliveryHistory_new (summary 2 3 3)
    [CommitEnvelope_new (summary 1 2 2) 3 []; CommitEnvelope_new (summary 2 3 3) 3 []].

Lemma history_winner_order_independent_witness :
  comparator_maximal_history [short_history; long_history] =
  comparator_maximal_history [long_history; short_history].
Proof.
  apply (history_winner_order_independent [short_history; long_history]
    [long_history; short_history]); [apply perm_swap|].
  intros x y [->|[->|[]%not_elem_of_nil]%elem_of_cons]%elem_of_cons
    [->|[->|[]%not_elem_of_nil]%elem_of_cons]%elem_of_cons _; vm_compute; congruence.
Defined.

(** The ids ["ab"] and ["a"] with payloads ["c"] and ["bc"]. *)
Lemma unframed_event_hash_drops_an_event_witness :
  ∃ st', apply_commit (DeliveryState_new (summary 0 0 0))
      (CommitEnvelope_new (summary 1 1 1) 0
        [Build_ApplicationEvent 1 5 "ab" [99]; Build_ApplicationEvent 1 5 "a" [98; 99]]) =
      (st', Ok tt) ∧ length (accepted_events st') = 1%nat.
Proof.
  apply (unframed_event_hash_drops_an_event (summary 0 0 0) (summary 1 1 1) 0
    (Build_ApplicationEvent 1 5 "ab" [99]) (Build_ApplicationEvent 1 5 "a" [98; 99]));
    vm_compute; congruence.
Defined.

Lemma history_winner_can_be_stale_witness :
  ∃ plan, plan_repair_from_histories [short_history; long_history] [] [] = Some plan ∧
    apply_repair_plan (DeliveryState_new (summary 2 3 3)) plan =
      (DeliveryState_new (summary 2 3 3), Err (StaleRepairTarget 2 1)).
Proof.
  destruct (history_winner_can_be_stale (summary 1 1 1) (summary 1 2 2) (summary 2 3 3)
    9 3 0 [] []) as (plan & Hp & _ & Hs); [vm_compute; reflexivity..|].
  exists plan. split; [exact Hp|]. apply Hs. reflexivity.
Defined.

Lemma repair_keeps_losing_branch_events_witness :
  ∃ a' b', ds_summary a' = ds_summary b' ∧ e1 ∈ accepted_events a' ∧
    e1 ∉ accepted_events b'.
Proof.
  destruct (repair_keeps_losing_branch_events fork_a fork_b
    {| fe_local := summary 4 7 7; fe_remote := summary 4 9 9 |} [1; 2] [e2] e1)
    as (a' & b' & _ & _ & Hs & Ha & Hb).
  - vm_compute; reflexivity.
  - intros k ev. simpl. rewrite lookup_empty. discriminate.
  - apply lookup_singleton_eq.
  - apply lookup_empty.
  - intros y ->%list_elem_of_singleton. vm_compute. congruence.
  - exists a', b'. split; [exact Hs|]. split; [exact Ha|exact Hb].
Defined.
End witnesses.
