(* ===== verification/TextEnvelope.v ===== *)
(** * Signed text envelopes and delivery receipts (crates/mls-delivery/src/lib.rs)

    The envelope that carries an encrypted text message, its retention metadata,
    the receipt a recipient signs, and their canonical byte transcripts. *)

From S2P Require Import Prelude Collections Bytes Crypto DeliveryError.

Definition TEXT_MESSAGE_ENVELOPE_VERSION : N := 1.

Record TextRetentionMetadata := {
  rm_policy : string;
  rm_created_at_ms : N;
  rm_expires_at_ms : option N;
  rm_delete_after_read : bool
}.

#[export] Instance TextRetentionMetadata_eq_dec : EqDecision TextRetentionMetadata.
Proof. solve_decision. Defined.

Definition retention_validate (r : TextRetentionMetadata) : result unit DeliveryError :=
  check reject_if (is_blank (rm_policy r))
    (InvalidTextMessageEnvelope "retention policy is required") in
  reject_if
    match rm_expires_at_ms r with
    | Some expires_at_ms => expires_at_ms <? rm_created_at_ms r
    | None => false
    end
    (InvalidTextMessageEnvelope "retention expiry is before creation").

Record TextMessageEnvelopeInput := {
  ti_epoch : N;
  ti_sender_leaf : N;
  ti_sender_device_id : string;
  ti_sequence : N;
  ti_message_id : string;
  ti_retention : TextRetentionMetadata;
  ti_content_ciphertext : bytes
}.

Record TextMessageEnvelope := {
  te_version : N;
  te_group_id_commitment : bytes;
  te_epoch : N;
  te_sender_leaf : N;
  te_sender_device_id : string;
  te_sequence : N;
  te_message_id : string;
  te_retention : TextRetentionMetadata;
  te_content_ciphertext : bytes;
  te_signature : bytes
}.

#[export] Instance TextMessageEnvelope_eq_dec : EqDecision TextMessageEnvelope.
Proof. solve_decision. Defined.

Record TextDeliveryReceiptInput := {
  ri_message_id : string;
  ri_recipient_leaf : N;
  ri_recipient_device_id : string;
  ri_received_at_ms : N;
  ri_envelope_ciphertext_hash : bytes
}.

Record TextDeliveryReceipt := {
  tr_group_id_commitment : bytes;
  tr_message_id : string;
  tr_recipient_leaf : N;
  tr_recipient_device_id : string;
  tr_received_at_ms : N;
  tr_envelope_ciphertext_hash : bytes;
  tr_signature : bytes
}.

(** [[0; 32]] *)
Definition zero32 : bytes := replicate 32 0.

(** ** Canonical bytes *)

Definition retention_bytes (r : TextRetentionMetadata) : bytes :=
  push_bytes (as_bytes (rm_policy r)) ++ be_u64 (rm_created_at_ms r) ++
  match rm_expires_at_ms r with
  | Some expires_at_ms => [1] ++ be_u64 expires_at_ms
  | None => [0]
  end ++
  [if rm_delete_after_read r then 1 else 0].

Definition envelope_unsigned_bytes (e : TextMessageEnvelope) : bytes :=
  push_bytes (as_bytes "discrypt-text-message-envelope-v1") ++
  [te_version e] ++
  te_group_id_commitment e ++
  be_u64 (te_epoch e) ++
  be_u32 (te_sender_leaf e) ++
  push_bytes (as_bytes (te_sender_device_id e)) ++
  be_u64 (te_sequence e) ++
  push_bytes (as_bytes (te_message_id e)) ++
  retention_bytes (te_retention e) ++
  push_bytes (te_content_ciphertext e).

Definition canonical_signed_bytes (e : TextMessageEnvelope) : bytes :=
  envelope_unsigned_bytes e ++ push_bytes (te_signature e).

Definition receipt_unsigned_bytes (r : TextDeliveryReceipt) : bytes :=
  push_bytes (as_bytes "discrypt-text-delivery-receipt-v1") ++
  tr_group_id_commitment r ++
  push_bytes (as_bytes (tr_message_id r)) ++
  be_u32 (tr_recipient_leaf r) ++
  push_bytes (as_bytes (tr_recipient_device_id r)) ++
  be_u64 (tr_received_at_ms r) ++
  tr_envelope_ciphertext_hash r.

(** ** Validation *)

Definition envelope_validate_unsigned (e : TextMessageEnvelope) : result unit DeliveryError :=
  check reject_if (negb (te_version e =? TEXT_MESSAGE_ENVELOPE_VERSION))
    (InvalidTextMessageEnvelope ("unsupported version " +:+ pretty (te_version e))) in
  check reject_if (bool_decide (te_group_id_commitment e = zero32))
    (InvalidTextMessageEnvelope "group commitment is required") in
  check reject_if (is_blank (te_sender_device_id e))
    (InvalidTextMessageEnvelope "sender device id is required") in
  check reject_if (is_blank (te_message_id e))
    (InvalidTextMessageEnvelope "message id is required") in
  check reject_if (bool_decide (te_content_ciphertext e = []))
    (InvalidTextMessageEnvelope "content ciphertext is required") in
  retention_validate (te_retention e).

Definition receipt_validate_unsigned (r : TextDeliveryReceipt) : result unit DeliveryError :=
  check reject_if (bool_decide (tr_group_id_commitment r = zero32))
    (InvalidTextDeliveryReceipt "group commitment is required") in
  check reject_if (is_blank (tr_message_id r))
    (InvalidTextDeliveryReceipt "message id is required") in
  check reject_if (is_blank (tr_recipient_device_id r))
    (InvalidTextDeliveryReceipt "recipient device id is required") in
  reject_if (bool_decide (tr_envelope_ciphertext_hash r = zero32))
    (InvalidTextDeliveryReceipt "ciphertext hash is required").

(** [contains_plaintext_sample] *)
Definition contains_plaintext_sample (e : TextMessageEnvelope) (plaintext : bytes) : bool :=
  if bool_decide (plaintext = []) ||
     (length (te_content_ciphertext e) <? length plaintext)%nat
  then false else has_window plaintext (te_content_ciphertext e).

Section crypto.
Context `{Sha256, Ed25519}.

Definition group_id_commitment (group_id : string) : result bytes DeliveryError :=
  check reject_if (is_blank group_id) (InvalidTextMessageEnvelope "group id is required") in
  Ok (sha256 (as_bytes "discrypt-text-group-id-v1" ++ be_u64 (str_len group_id) ++
              as_bytes group_id)).

Definition ciphertext_hash (e : TextMessageEnvelope) : bytes :=
  sha256 (te_content_ciphertext e).

Definition with_signature (e : TextMessageEnvelope) (s : bytes) : TextMessageEnvelope :=
  {| te_version := te_version e;
     te_group_id_commitment := te_group_id_commitment e;
     te_epoch := te_epoch e;
     te_sender_leaf := te_sender_leaf e;
     te_sender_device_id := te_sender_device_id e;
     te_sequence := te_sequence e;
     te_message_id := te_message_id e;
     te_retention := te_retention e;
     te_content_ciphertext := te_content_ciphertext e;
     te_signature := s |}.

Definition envelope_sign (group_id : string) (input : TextMessageEnvelopeInput)
    (k : signing_key) : result TextMessageEnvelope DeliveryError :=
  let* commitment := group_id_commitment group_id in
  let envelope :=
    {| te_version := TEXT_MESSAGE_ENVELOPE_VERSION;
       te_group_id_commitment := commitment;
       te_epoch := ti_epoch input;
       te_sender_leaf := ti_sender_leaf input;
       te_sender_device_id := ti_sender_device_id input;
       te_sequence := ti_sequence input;
       te_message_id := ti_message_id input;
       te_retention := ti_retention input;
       te_content_ciphertext := ti_content_ciphertext input;
       te_signature := [] |} in
  check envelope_validate_unsigned envelope in
  Ok (with_signature envelope
        (sig_to_bytes (sign k (envelope_unsigned_bytes envelope)))).

Definition envelope_verify (e : TextMessageEnvelope) (group_id : string)
    (vk : verifying_key) : result unit DeliveryError :=
  check envelope_validate_unsigned e in
  let* commitment := group_id_commitment group_id in
  check reject_if (negb (bool_decide (te_group_id_commitment e = commitment)))
    (InvalidTextMessageEnvelope "group commitment mismatch") in
  check reject_if (negb (length (te_signature e) =? 64)%nat)
    (InvalidTextMessageEnvelope "signature must be 64 bytes") in
  reject_if (negb (vk_verify vk (envelope_unsigned_bytes e) (sig_from_bytes (te_signature e))))
    TextMessageSignatureVerificationFailed.

Definition with_receipt_signature (r : TextDeliveryReceipt) (s : bytes) : TextDeliveryReceipt :=
  {| tr_group_id_commitment := tr_group_id_commitment r;
     tr_message_id := tr_message_id r;
     tr_recipient_leaf := tr_recipient_leaf r;
     tr_recipient_device_id := tr_recipient_device_id r;
     tr_received_at_ms := tr_received_at_ms r;
     tr_envelope_ciphertext_hash := tr_envelope_ciphertext_hash r;
     tr_signature := s |}.

Definition receipt_sign (group_id : string) (input : TextDeliveryReceiptInput)
    (k : signing_key) : result TextDeliveryReceipt DeliveryError :=
  let* commitment := group_id_commitment group_id in
  let receipt :=
    {| tr_group_id_commitment := commitment;
       tr_message_id := ri_message_id input;
       tr_recipient_leaf := ri_recipient_leaf input;
       tr_recipient_device_id := ri_recipient_device_id input;
       tr_received_at_ms := ri_received_at_ms input;
       tr_envelope_ciphertext_hash := ri_envelope_ciphertext_hash input;
       tr_signature := [] |} in
  check receipt_validate_unsigned receipt in
  Ok (with_receipt_signature receipt
        (sig_to_bytes (sign k (receipt_unsigned_bytes receipt)))).

Definition receipt_verify (r : TextDeliveryReceipt) (group_id : string)
    (envelope : TextMessageEnvelope) (vk : verifying_key) : result unit DeliveryError :=
  check receipt_validate_unsigned r in
  let* commitment := group_id_commitment group_id in
  check reject_if (negb (bool_decide (tr_group_id_commitment r = commitment)))
    (InvalidTextDeliveryReceipt "group commitment mismatch") in
  check reject_if (negb (bool_decide (tr_message_id r = te_message_id envelope)))
    (InvalidTextDeliveryReceipt "message id mismatch") in
  check reject_if
    (negb (bool_decide (tr_envelope_ciphertext_hash r = ciphertext_hash envelope)))
    (InvalidTextDeliveryReceipt "ciphertext hash mismatch") in
  check reject_if (negb (length (tr_signature r) =? 64)%nat)
    (InvalidTextDeliveryReceipt "signature must be 64 bytes") in
  reject_if (negb (vk_verify vk (receipt_unsigned_bytes r) (sig_from_bytes (tr_signature r))))
    TextDeliveryReceiptSignatureVerificationFailed.
End crypto.

(** ** The transcripts determine what was signed

    Values of the Rust types: the integers fit their width, a string or vector is
    shorter than 2^64 bytes and the commitment is a [[u8; 32]]. *)

Definition retention_in_range (r : TextRetentionMetadata) : bool :=
  (str_len (rm_policy r) <? 2 ^ 64) && (rm_created_at_ms r <? 2 ^ 64) &&
  match rm_expires_at_ms r with Some t => t <? 2 ^ 64 | None => true end.

Definition envelope_in_range (e : TextMessageEnvelope) : bool :=
  (length (te_group_id_commitment e) =? 32)%nat &&
  (te_epoch e <? 2 ^ 64) && (te_sender_leaf e <? 2 ^ 32) &&
  (str_len (te_sender_device_id e) <? 2 ^ 64) && (te_sequence e <? 2 ^ 64) &&
  (str_len (te_message_id e) <? 2 ^ 64) && retention_in_range (te_retention e) &&
  (len (te_content_ciphertext e) <? 2 ^ 64) && (len (te_signature e) <? 2 ^ 64).

Definition receipt_in_range (r : TextDeliveryReceipt) : bool :=
  (length (tr_group_id_commitment r) =? 32)%nat &&
  (str_len (tr_message_id r) <? 2 ^ 64) && (tr_recipient_leaf r <? 2 ^ 32) &&
  (str_len (tr_recipient_device_id r) <? 2 ^ 64) && (tr_received_at_ms r <? 2 ^ 64).

Ltac split_range :=
  repeat match goal with
  | H : (_ && _) = true |- _ => apply andb_true_iff in H as [? ?]
  | H : (_ <? _) = true |- _ => apply N.ltb_lt in H
  | H : (_ =? _)%nat = true |- _ => apply Nat.eqb_eq in H
  end.

(** Peel the fields of two equal transcripts off one after the other. *)
Ltac peel H :=
  let E := fresh "E" in
  lazymatch type of H with
  | push_bytes (as_bytes _) ++ _ = _ => apply push_str_app_inj in H as [E H]; [|assumption..]
  | push_bytes _ ++ _ = _ => apply push_bytes_app_inj in H as [E H]; [|assumption..]
  | be_bytes _ _ ++ _ = _ => apply be_bytes_app_inj in H as [E H]; [|assumption..]
  | _ => apply fixed_app_inj in H as [E H]; [|simpl; congruence]
  end.

Lemma retention_bytes_app_inj r1 r2 (x y : bytes) :
  retention_in_range r1 = true → retention_in_range r2 = true →
  retention_bytes r1 ++ x = retention_bytes r2 ++ y → r1 = r2 ∧ x = y.
Proof.
  destruct r1 as [p1 c1 o1 d1], r2 as [p2 c2 o2 d2].
  unfold retention_in_range, retention_bytes; simpl rm_policy; simpl rm_created_at_ms;
    simpl rm_expires_at_ms; simpl rm_delete_after_read.
  intros R1 R2 H. split_range. rewrite <- !(assoc (++)) in H. do 2 peel H.
  subst. destruct o1 as [t1|], o2 as [t2|]; rewrite <- ?(assoc (++)) in H;
    (apply (fixed_app_inj [_] [_]) in H as [E H]; [|done]); try discriminate E; split_range.
  - peel H. destruct d1, d2; simplify_eq/=; auto.
  - destruct d1, d2; simplify_eq/=; auto.
Qed.

Lemma envelope_unsigned_app_inj e1 e2 (x y : bytes) :
  envelope_in_range e1 = true → envelope_in_range e2 = true →
  envelope_unsigned_bytes e1 ++ x = envelope_unsigned_bytes e2 ++ y →
  with_signature e1 [] = with_signature e2 [] ∧ x = y.
Proof.
  unfold envelope_in_range, envelope_unsigned_bytes, with_signature.
  intros R1 R2 H. split_range. rewrite <- !(assoc (++)) in H.
  apply app_inj_1 in H as [_ H]; [|done]. do 7 peel H.
  apply retention_bytes_app_inj in H as [? H]; [|assumption..]. peel H.
  simplify_eq. split; [f_equal; congruence|done].
Qed.

Lemma receipt_unsigned_inj r1 r2 :
  receipt_in_range r1 = true → receipt_in_range r2 = true →
  receipt_unsigned_bytes r1 = receipt_unsigned_bytes r2 →
  with_receipt_signature r1 [] = with_receipt_signature r2 [].
Proof.
  unfold receipt_in_range, receipt_unsigned_bytes, with_receipt_signature.
  intros R1 R2 H. split_range. apply app_inj_1 in H as [_ H]; [|done]. do 5 peel H.
  f_equal; congruence.
Qed.

Lemma transcript_tags_differ e r (x y : bytes) :
  envelope_unsigned_bytes e ++ x ≠ receipt_unsigned_bytes r ++ y.
Proof.
  unfold envelope_unsigned_bytes, receipt_unsigned_bytes. rewrite <- !(assoc (++)).
  intros H. apply app_inj_1 in H as [H _]; [|done]. vm_compute in H. discriminate.
Qed.

(** ** Signing and verifying *)

Section sign_verify.
Context `{Sha256, Ed25519, !Ed25519Laws}.

Lemma with_signature_eta e : e = with_signature (with_signature e []) (te_signature e).
Proof. by destruct e. Qed.

Lemma envelope_validate_with_signature e s :
  envelope_validate_unsigned (with_signature e s) = envelope_validate_unsigned e.
Proof. done. Qed.

Lemma envelope_sign_ok group_id input k e :
  envelope_sign group_id input k = Ok e →
  ∃ commitment,
    group_id_commitment group_id = Ok commitment ∧
    e = with_signature e (sig_to_bytes (sign k (envelope_unsigned_bytes e))) ∧
    envelope_validate_unsigned e = Ok tt ∧
    te_group_id_commitment e = commitment ∧ te_epoch e = ti_epoch input ∧
    te_sender_leaf e = ti_sender_leaf input ∧
    te_sender_device_id e = ti_sender_device_id input ∧
    te_sequence e = ti_sequence input ∧ te_message_id e = ti_message_id input ∧
    te_retention e = ti_retention input ∧
    te_content_ciphertext e = ti_content_ciphertext input.
Proof.
  unfold envelope_sign. intros Hs.
  destruct (group_id_commitment group_id) as [c|] eqn:Hc; simpl in Hs; [|done].
  destruct (envelope_validate_unsigned _) as [[]|] eqn:Hv in Hs; simpl in Hs; [|done].
  injection Hs as <-. exists c. rewrite envelope_validate_with_signature, Hv.
  repeat split.
Qed.

Lemma envelope_verify_ok e group_id vk :
  envelope_verify e group_id vk = Ok tt ↔
  envelope_validate_unsigned e = Ok tt ∧
  group_id_commitment group_id = Ok (te_group_id_commitment e) ∧
  length (te_signature e) = 64%nat ∧
  vk_verify vk (envelope_unsigned_bytes e) (sig_from_bytes (te_signature e)) = true.
Proof.
  unfold envelope_verify. destruct (envelope_validate_unsigned e) as [[]|]; simpl; [|naive_solver].
  destruct (group_id_commitment group_id) as [c|]; simpl; [|naive_solver].
  unfold reject_if. case_bool_decide; simpl; [|naive_solver].
  destruct (Nat.eqb_spec (length (te_signature e)) 64); simpl; [|naive_solver].
  destruct (vk_verify _ _ _); simpl; naive_solver.
Qed.

Lemma envelope_sign_verify group_id input k e :
  envelope_sign group_id input k = Ok e → envelope_verify e group_id (vk_of k) = Ok tt.
Proof.
  intros (c & Hc & He & Hv & Hg & _)%envelope_sign_ok.
  apply envelope_verify_ok. rewrite He; simpl.
  rewrite sig_to_bytes_length, sig_from_bytes_to_bytes, Hg, Hc.
  repeat split; [done|]. apply vk_verify_sign.
Qed.

Lemma receipt_sign_verify group_id input k r e :
  receipt_sign group_id input k = Ok r →
  ri_message_id input = te_message_id e →
  ri_envelope_ciphertext_hash input = ciphertext_hash e →
  receipt_verify r group_id e (vk_of k) = Ok tt.
Proof.
  unfold receipt_sign. intros Hs Hid Hh.
  destruct (group_id_commitment group_id) as [c|] eqn:Hc; simpl in Hs; [|done].
  destruct (receipt_validate_unsigned _) as [[]|] eqn:Hv in Hs; simpl in Hs; [|done].
  injection Hs as <-. unfold receipt_verify.
  change (receipt_validate_unsigned (with_receipt_signature ?a ?b))
    with (receipt_validate_unsigned a).
  change (receipt_unsigned_bytes (with_receipt_signature ?a ?b)) with (receipt_unsigned_bytes a).
  rewrite Hv, Hc; simpl. rewrite !bool_decide_eq_true_2 by done; simpl.
  rewrite sig_to_bytes_length, sig_from_bytes_to_bytes, vk_verify_sign. done.
Qed.

Lemma receipt_verify_ok r group_id e vk :
  receipt_verify r group_id e vk = Ok tt →
  receipt_validate_unsigned r = Ok tt ∧
  group_id_commitment group_id = Ok (tr_group_id_commitment r) ∧
  tr_message_id r = te_message_id e ∧
  tr_envelope_ciphertext_hash r = ciphertext_hash e ∧
  vk_verify vk (receipt_unsigned_bytes r) (sig_from_bytes (tr_signature r)) = true.
Proof.
  unfold receipt_verify. destruct (receipt_validate_unsigned r) as [[]|]; simpl; [|done].
  destruct (group_id_commitment group_id) as [c|]; simpl; [|done].
  unfold reject_if.
  repeat (case_bool_decide; simpl; [|done]). destruct (_ =? _)%nat; simpl; [|done].
  destruct (vk_verify _ _ _); naive_solver.
Qed.
End sign_verify.

(** ** Claims *)

(** What is signed or sent determines the message: two envelopes with equal
    canonical signed bytes are equal; equal unsigned bytes force every field but the
    signature to be equal, and the same holds of receipts; and no receipt transcript is
    an envelope transcript or a prefix or extension of one, so a signature on one kind
    is never a signature on the other. *)
Theorem text_transcripts_bind e1 e2 r1 r2 :
  envelope_in_range e1 = true → envelope_in_range e2 = true →
  receipt_in_range r1 = true → receipt_in_range r2 = true →
  (canonical_signed_bytes e1 = canonical_signed_bytes e2 → e1 = e2) ∧
  (envelope_unsigned_bytes e1 = envelope_unsigned_bytes e2 →
    with_signature e1 [] = with_signature e2 []) ∧
  (receipt_unsigned_bytes r1 = receipt_unsigned_bytes r2 →
    with_receipt_signature r1 [] = with_receipt_signature r2 []) ∧
  (∀ x y, envelope_unsigned_bytes e1 ++ x ≠ receipt_unsigned_bytes r1 ++ y).
Proof.
  intros Re1 Re2 Rr1 Rr2. split_and!.
  - unfold canonical_signed_bytes. intros Hb.
    apply envelope_unsigned_app_inj in Hb as [He Hs]; [|done..].
    unfold envelope_in_range in *. split_range.
    apply (f_equal (λ b, b ++ [])) in Hs. apply push_bytes_app_inj in Hs as [Hs _]; [|done..].
    by rewrite (with_signature_eta e1), (with_signature_eta e2), He, Hs.
  - intros Hb. refine (proj1 (envelope_unsigned_app_inj e1 e2 [] [] _ _ _)); [done..|by rewrite Hb].
  - by apply receipt_unsigned_inj.
  - apply transcript_tags_differ.
Qed.

(** A receipt justifies "delivered". The receipt a recipient signs for a verified
    envelope (same message id, hash of its ciphertext) verifies against that envelope under
    the recipient's key; and any receipt that verifies against an envelope names its message
    id, carries the hash of its ciphertext and the commitment of the group, so a receipt for
    another message, another ciphertext or another group is rejected. *)
Theorem receipt_justifies_delivery `{Sha256, Ed25519, !Ed25519Laws} group_id input k r e :
  receipt_sign group_id input k = Ok r →
  ri_message_id input = te_message_id e →
  ri_envelope_ciphertext_hash input = ciphertext_hash e →
  receipt_verify r group_id e (vk_of k) = Ok tt ∧
  (∀ group_id' e' vk', receipt_verify r group_id' e' vk' = Ok tt →
    te_message_id e' = te_message_id e ∧ ciphertext_hash e' = ciphertext_hash e ∧
    group_id_commitment group_id' = group_id_commitment group_id).
Proof.
  intros Hs Hid Hh. pose proof (receipt_sign_verify _ _ _ _ _ Hs Hid Hh) as Hv.
  split; [done|]. intros group_id' e' vk' Hv'.
  apply receipt_verify_ok in Hv as (_ & Hg & Hm & Hc & _).
  apply receipt_verify_ok in Hv' as (_ & Hg' & Hm' & Hc' & _). by repeat split; congruence.
Qed.

Section witnesses.
#[local] Existing Instance Toy.toy_sha.
#[local] Existing Instance Toy.toy_ed.
#[local] Existing Instance Toy.toy_ed_laws.

Definition a_retention : TextRetentionMetadata :=
  {| rm_policy := "30d"; rm_created_at_ms := 5; rm_expires_at_ms := Some 9;
     rm_delete_after_read := false |}.
Definition an_envelope : TextMessageEnvelope :=
  {| te_version := 1; te_group_id_commitment := replicate 32 7; te_epoch := 3;
     te_sender_leaf := 2; te_sender_device_id := "dev"; te_sequence := 1;
     te_message_id := "m1"; te_retention := a_retention; te_content_ciphertext := [1; 2];
     te_signature := [] |}.
Definition a_receipt : TextDeliveryReceipt :=
  {| tr_group_id_commitment := replicate 32 7; tr_message_id := "m1";
     tr_recipient_leaf := 4; tr_recipient_device_id := "dev2"; tr_received_at_ms := 8;
     tr_envelope_ciphertext_hash := ciphertext_hash an_envelope; tr_signature := [] |}.

Lemma text_transcripts_bind_witness :
  envelope_unsigned_bytes an_envelope ≠ receipt_unsigned_bytes a_receipt.
Proof.
  destruct (text_transcripts_bind an_envelope an_envelope a_receipt a_receipt)
    as (_ & _ & _ & Hd); [vm_compute; reflexivity..|].
  intros Heq. apply (Hd [] []). rewrite Heq. reflexivity.
Defined.

Definition a_receipt_input : TextDeliveryReceiptInput :=
  {| ri_message_id := "m1"; ri_recipient_leaf := 4; ri_recipient_device_id := "dev2";
     ri_received_at_ms := 8; ri_envelope_ciphertext_hash := ciphertext_hash an_envelope |}.

Lemma receipt_justifies_delivery_witness :
  ∃ r, receipt_sign "group" a_receipt_input Toy.bob = Ok r ∧
    receipt_verify r "group" an_envelope Toy.bob = Ok tt.
Proof.
  eexists. split; [vm_compute; reflexivity|].
  apply (receipt_justifies_delivery "group" a_receipt_input Toy.bob _ an_envelope);
    vm_compute; reflexivity.
Defined.
End witnesses.
