(* ===== verification/Abuse.v ===== *)
(** * Abuse controls (crates/abuse/src/lib.rs)

    Retry backoff, the per-key rate limiter, relay contribution accounting and the
    combined controls. Instants come from [chrono]; an addition that leaves its
    range panics in the source and is [None] here. *)

From S2P Require Import Prelude Collections Bytes Crypto F32.

Inductive AbuseError :=
| InvalidBackoffPolicy
| InvalidSoakClock
| ReportSerialization.

Inductive AbuseDecision :=
| Allowed
| RateLimited (retry_after_ms : N)
| Backoff (attempt delay_ms : N)
| Deprioritized (penalty_units : N)
| FailClosed (reason : string).

#[export] Instance AbuseDecision_eq_dec : EqDecision AbuseDecision.
Proof. solve_decision. Defined.

Definition decision_allowed (d : AbuseDecision) : bool :=
  match d with Allowed => true | _ => false end.

Definition blocks_success_claim (d : AbuseDecision) : bool :=
  match d with RateLimited _ | Backoff _ _ | FailClosed _ => true | _ => false end.

(** ** Backoff *)

Record AbuseBackoffPolicy := {
  bp_initial_ms : N;
  bp_max_ms : N;
  bp_multiplier : N;
  bp_max_attempts : N
}.

Definition backoff_validate (p : AbuseBackoffPolicy) : result unit AbuseError :=
  if (bp_initial_ms p =? 0) || (bp_max_ms p <? bp_initial_ms p) ||
     (bp_multiplier p <? 1) || (bp_max_attempts p =? 0)
  then Err InvalidBackoffPolicy else Ok tt.

Definition AbuseBackoffPolicy_new (initial_ms max_ms multiplier max_attempts : N) :
    result AbuseBackoffPolicy AbuseError :=
  let policy := {| bp_initial_ms := initial_ms; bp_max_ms := max_ms;
                   bp_multiplier := multiplier; bp_max_attempts := max_attempts |} in
  check backoff_validate policy in Ok policy.

(** The body of [for _ in 0..exponent]. *)
Definition backoff_step (p : AbuseBackoffPolicy) (delay : N) : N :=
  N.min (sat_mul u64_max delay (bp_multiplier p)) (bp_max_ms p).

Definition decision_for_attempt (p : AbuseBackoffPolicy) (attempt : N) :
    result AbuseDecision AbuseError :=
  check backoff_validate p in
  if (attempt =? 0) || (bp_max_attempts p <? attempt)
  then Ok (FailClosed "retry_attempts_exhausted")
  else
    let exponent := attempt - 1 in
    let delay := Nat.iter (N.to_nat exponent) (backoff_step p) (bp_initial_ms p) in
    Ok (Backoff attempt (N.min delay (bp_max_ms p))).

(** ** Relay contribution *)

Record RelayContribution := {
  relayed_for_others : N;
  consumed_from_others : N
}.

Definition RelayContribution_default : RelayContribution :=
  {| relayed_for_others := 0; consumed_from_others := 0 |}.

Definition freeload_penalty (c : RelayContribution) : f32 :=
  f32_of_N (consumed_from_others c - relayed_for_others c).

Record AbuseMetricsSnapshot := {
  invite_allowed_total : N;
  invite_rate_limited_total : N;
  message_allowed_total : N;
  message_rate_limited_total : N;
  relay_peers_tracked : nat;
  relay_total_relayed_for_others : N;
  relay_total_consumed_from_others : N;
  relay_freeload_penalty_total : N
}.

Definition AbuseMetricsSnapshot_default : AbuseMetricsSnapshot :=
  {| invite_allowed_total := 0; invite_rate_limited_total := 0;
     message_allowed_total := 0; message_rate_limited_total := 0;
     relay_peers_tracked := 0; relay_total_relayed_for_others := 0;
     relay_total_consumed_from_others := 0; relay_freeload_penalty_total := 0 |}.

Section limiter.
Context `{Chrono}.

(** ** The rate limiter *)

Record RateLimiter := {
  rl_limit : N;
  rl_window : timedelta;
  rl_hits : gmap string (list datetime)
}.

Definition RateLimiter_new (limit : N) (window : timedelta) : RateLimiter :=
  {| rl_limit := N.max limit 1; rl_window := window; rl_hits := ∅ |}.

(** [hits.retain(|t| *t + window >= now)] *)
Fixpoint retain_hits (window : timedelta) (now : datetime) (hits : list datetime) :
    option (list datetime) :=
  match hits with
  | [] => Some []
  | t :: hits' =>
      expiry ← dt_add t window;
      kept ← retain_hits window now hits';
      Some (if dt_le now expiry then t :: kept else kept)
  end.

Definition with_hits (l : RateLimiter) (key : string) (hits : list datetime) : RateLimiter :=
  {| rl_limit := rl_limit l; rl_window := rl_window l;
     rl_hits := <[key := hits]> (rl_hits l) |}.

Definition retry_after (window : timedelta) (now : datetime) (hits : list datetime) : option N :=
  match hits with
  | oldest :: _ =>
      expiry ← dt_add oldest window;
      Some (Z.to_N (Z.max (td_num_milliseconds (dt_since expiry now)) 1))
  | [] => Some 1
  end.

Definition limiter_decision (l : RateLimiter) (key : string) (now : datetime) :
    option (RateLimiter * AbuseDecision) :=
  hits ← retain_hits (rl_window l) now (default [] (rl_hits l !! key));
  if rl_limit l <=? N.of_nat (length hits) mod 2 ^ 32
  then
    retry_after_ms ← retry_after (rl_window l) now hits;
    Some (with_hits l key hits, RateLimited retry_after_ms)
  else Some (with_hits l key (hits ++ [now]), Allowed).

Definition limiter_allow (l : RateLimiter) (key : string) (now : datetime) :
    option (RateLimiter * bool) :=
  '(l', d) ← limiter_decision l key now; Some (l', decision_allowed d).

(** ** Combined controls *)

Record AbuseControls := {
  invite_limiter : RateLimiter;
  spam_limiter : RateLimiter;
  relay_contribution : gmap string RelayContribution;
  ac_metrics : AbuseMetricsSnapshot
}.

Definition AbuseControls_new (invite_limit spam_limit : N) (window : timedelta) : AbuseControls :=
  {| invite_limiter := RateLimiter_new invite_limit window;
     spam_limiter := RateLimiter_new spam_limit window;
     relay_contribution := ∅;
     ac_metrics := AbuseMetricsSnapshot_default |}.

Definition count_invite (m : AbuseMetricsSnapshot) (allowed : bool) : AbuseMetricsSnapshot :=
  {| invite_allowed_total := invite_allowed_total m + (if allowed then 1 else 0);
     invite_rate_limited_total := invite_rate_limited_total m + (if allowed then 0 else 1);
     message_allowed_total := message_allowed_total m;
     message_rate_limited_total := message_rate_limited_total m;
     relay_peers_tracked := relay_peers_tracked m;
     relay_total_relayed_for_others := relay_total_relayed_for_others m;
     relay_total_consumed_from_others := relay_total_consumed_from_others m;
     relay_freeload_penalty_total := relay_freeload_penalty_total m |}.

Definition count_message (m : AbuseMetricsSnapshot) (allowed : bool) : AbuseMetricsSnapshot :=
  {| invite_allowed_total := invite_allowed_total m;
     invite_rate_limited_total := invite_rate_limited_total m;
     message_allowed_total := message_allowed_total m + (if allowed then 1 else 0);
     message_rate_limited_total := message_rate_limited_total m + (if allowed then 0 else 1);
     relay_peers_tracked := relay_peers_tracked m;
     relay_total_relayed_for_others := relay_total_relayed_for_others m;
     relay_total_consumed_from_others := relay_total_consumed_from_others m;
     relay_freeload_penalty_total := relay_freeload_penalty_total m |}.

Definition invite_decision (c : AbuseControls) (actor : string) (now : datetime) :
    option (AbuseControls * AbuseDecision) :=
  '(l, d) ← limiter_decision (invite_limiter c) actor now;
  Some ({| invite_limiter := l; spam_limiter := spam_limiter c;
           relay_contribution := relay_contribution c;
           ac_metrics := count_invite (ac_metrics c) (decision_allowed d) |}, d).

Definition allow_invite (c : AbuseControls) (actor : string) (now : datetime) :
    option (AbuseControls * bool) :=
  '(c', d) ← invite_decision c actor now; Some (c', decision_allowed d).

Definition message_decision (c : AbuseControls) (actor : string) (now : datetime) :
    option (AbuseControls * AbuseDecision) :=
  '(l, d) ← limiter_decision (spam_limiter c) actor now;
  Some ({| invite_limiter := invite_limiter c; spam_limiter := l;
           relay_contribution := relay_contribution c;
           ac_metrics := count_message (ac_metrics c) (decision_allowed d) |}, d).

Definition allow_message (c : AbuseControls) (actor : string) (now : datetime) :
    option (AbuseControls * bool) :=
  '(c', d) ← message_decision c actor now; Some (c', decision_allowed d).

Definition record_relay (c : AbuseControls) (peer : string) (relayed consumed : N) : AbuseControls :=
  {| invite_limiter := invite_limiter c; spam_limiter := spam_limiter c;
     relay_contribution :=
       <[peer := {| relayed_for_others := relayed; consumed_from_others := consumed |}]>
         (relay_contribution c);
     ac_metrics := ac_metrics c |}.

Definition controls_freeload_penalty (c : AbuseControls) (peer : string) : f32 :=
  freeload_penalty (default RelayContribution_default (relay_contribution c !! peer)).

Definition relay_decision (c : AbuseControls) (peer : string) : AbuseDecision :=
  let penalty := f32_as_u64 (f32_max (controls_freeload_penalty c peer) (f32_of_N 0)) in
  if penalty =? 0 then Allowed else Deprioritized penalty.

(** Sum of a [u64] iterator; [None] on overflow, which panics in checked builds. *)
Definition sum_u64 (l : list N) : option N :=
  foldl (λ acc x, s ← acc; if s + x <=? u64_max then Some (s + x) else None) (Some 0) l.

Definition metrics_snapshot (c : AbuseControls) : option AbuseMetricsSnapshot :=
  let peers := values (relay_contribution c) in
  relayed ← sum_u64 (relayed_for_others <$> peers);
  consumed ← sum_u64 (consumed_from_others <$> peers);
  penalties ← sum_u64 ((λ p, f32_as_u64 (freeload_penalty p)) <$> peers);
  Some {| invite_allowed_total := invite_allowed_total (ac_metrics c);
          invite_rate_limited_total := invite_rate_limited_total (ac_metrics c);
          message_allowed_total := message_allowed_total (ac_metrics c);
          message_rate_limited_total := message_rate_limited_total (ac_metrics c);
          relay_peers_tracked := size (relay_contribution c);
          relay_total_relayed_for_others := relayed;
          relay_total_consumed_from_others := consumed;
          relay_freeload_penalty_total := penalties |}.
End limiter.

(** ** Backoff: closed form *)

Lemma backoff_iter p n :
  bp_max_ms p ≤ u64_max → bp_initial_ms p ≤ bp_max_ms p → 1 ≤ bp_multiplier p →
  Nat.iter n (backoff_step p) (bp_initial_ms p) =
  N.min (bp_initial_ms p * bp_multiplier p ^ N.of_nat n) (bp_max_ms p).
Proof.
  intros Hm Hi Hk. induction n as [|n IH]; simpl Nat.iter.
  - change (N.of_nat 0) with 0. rewrite N.pow_0_r. lia.
  - rewrite IH, Nat2N.inj_succ, N.pow_succ_r'. unfold backoff_step, sat_mul.
    set (a := bp_initial_ms p * bp_multiplier p ^ N.of_nat n).
    replace (bp_initial_ms p * (bp_multiplier p * bp_multiplier p ^ N.of_nat n))
      with (a * bp_multiplier p) by (unfold a; lia).
    destruct (N.le_ge_cases a (bp_max_ms p)).
    + rewrite (N.min_l a) by done. lia.
    + rewrite (N.min_r a) by done. rewrite !N.min_r by nia. done.
Qed.

Lemma backoff_validate_ok p :
  backoff_validate p = Ok tt ↔
  0 < bp_initial_ms p ∧ bp_initial_ms p ≤ bp_max_ms p ∧ 1 ≤ bp_multiplier p ∧
  0 < bp_max_attempts p.
Proof.
  unfold backoff_validate.
  destruct (N.eqb_spec (bp_initial_ms p) 0), (N.ltb_spec (bp_max_ms p) (bp_initial_ms p)),
    (N.ltb_spec (bp_multiplier p) 1), (N.eqb_spec (bp_max_attempts p) 0); simpl;
    split; intros ?; try done; lia.
Qed.

(** ** The limiter against a history of admitted calls *)

Section limiter_proofs.
Context `{Chrono, !ChronoLaws}.

(** Run the limiter over a sequence of calls, collecting the ones it allows. *)
Fixpoint limiter_run (l : RateLimiter) (calls : list (string * datetime)) :
    option (RateLimiter * list (string * datetime)) :=
  match calls with
  | [] => Some (l, [])
  | (key, now) :: calls' =>
      '(l1, d) ← limiter_decision l key now;
      '(l2, admitted) ← limiter_run l1 calls';
      Some (l2, if decision_allowed d then (key, now) :: admitted else admitted)
  end.

Definition times_of (key : string) (h : list (string * datetime)) : list datetime :=
  (filter (λ c, c.1 = key) h).*2.

Definition in_span (lo hi : Z) (ts : list datetime) : list datetime :=
  filter (λ t, lo ≤ dt_nanos t ≤ hi)%Z ts.

(** How many calls of [key] were admitted with an instant in [lo..hi]. *)
Definition admitted_in (h : list (string * datetime)) (key : string) (lo hi : Z) : nat :=
  length (in_span lo hi (times_of key h)).

(** The instants still inside the window at [now]. *)
Definition live (w now : Z) (ts : list datetime) : list datetime :=
  filter (λ t, now ≤ dt_nanos t + w)%Z ts.

Lemma retain_hits_spec w now hits kept :
  retain_hits w now hits = Some kept → kept = live (td_nanos w) (dt_nanos now) hits.
Proof.
  revert kept. induction hits as [|t hits IH]; intros kept; simpl; [by intros [= <-]|].
  destruct (dt_add t w) as [e|] eqn:He; simpl; [|done].
  destruct (retain_hits w now hits) as [k|]; simpl; [|done].
  intros [= <-]. rewrite (IH k eq_refl). unfold live. rewrite filter_cons.
  unfold dt_le. rewrite (dt_add_nanos _ _ _ He).
  destruct (Z.leb_spec (dt_nanos now) (dt_nanos t + td_nanos w)); case_decide; done || lia.
Qed.

Lemma retain_hits_some w now hits kept t :
  retain_hits w now hits = Some kept → t ∈ kept → is_Some (dt_add t w).
Proof.
  revert kept. induction hits as [|u hits IH]; intros kept; simpl;
    [by intros [= <-] []%not_elem_of_nil|].
  destruct (dt_add u w) as [e|] eqn:He; simpl; [|done].
  destruct (retain_hits w now hits) as [k|]; simpl; [|done].
  intros [= <-] Ht. destruct (dt_le now e); [|by eapply IH].
  apply elem_of_cons in Ht as [->|Ht]; [by eexists|by eapply IH].
Qed.

Lemma retain_hits_all w now hits :
  (∀ t, t ∈ hits → is_Some (dt_add t w)) →
  (∀ t, t ∈ hits → dt_nanos now ≤ dt_nanos t + td_nanos w)%Z →
  retain_hits w now hits = Some hits.
Proof.
  induction hits as [|t hits IH]; intros Hs Hle; simpl; [done|].
  destruct (Hs t (list_elem_of_here _ _)) as [e He]. rewrite He. simpl.
  rewrite IH by (intros; (apply Hs || apply Hle); by right). simpl.
  unfold dt_le. rewrite (dt_add_nanos _ _ _ He).
  by rewrite (proj2 (Z.leb_le _ _) (Hle t (list_elem_of_here _ _))).
Qed.

Lemma live_live w n n' ts : (n ≤ n')%Z → live w n' (live w n ts) = live w n' ts.
Proof.
  intros Hn. unfold live. rewrite list_filter_filter.
  apply list_filter_iff. intros t. lia.
Qed.

Lemma length_live w n ts : (length (live w n ts) ≤ length ts)%nat.
Proof. apply length_filter. Qed.

Definition hits_of (l : RateLimiter) (key : string) : list datetime :=
  default [] (rl_hits l !! key).

(** What the limiter remembers at instant [now] of the admitted history [h]. *)
Record limiter_inv (l : RateLimiter) (now : Z) (h : list (string * datetime)) : Prop := {
  li_limit : 1 ≤ rl_limit l < 2 ^ 32;
  li_live k : live (td_nanos (rl_window l)) now (hits_of l k) =
              live (td_nanos (rl_window l)) now (times_of k h);
  li_len k : N.of_nat (length (hits_of l k)) ≤ rl_limit l;
  li_past k t : t ∈ times_of k h → (dt_nanos t ≤ now)%Z;
  li_bound k s :
    N.of_nat (admitted_in h k s (s + td_nanos (rl_window l))) ≤ rl_limit l
}.

Lemma limiter_inv_init limit w now :
  limit < 2 ^ 32 → limiter_inv (RateLimiter_new limit w) now [].
Proof.
  intros Hl. unfold RateLimiter_new. split; simpl rl_limit; simpl rl_window; [lia|..].
  - intros k. unfold hits_of. simpl rl_hits. by rewrite lookup_empty.
  - intros k. unfold hits_of. simpl rl_hits. rewrite lookup_empty. simpl; lia.
  - intros k t []%not_elem_of_nil.
  - intros k s. unfold admitted_in. simpl. lia.
Qed.

Lemma limiter_inv_live l now h now' k :
  limiter_inv l now h → (now ≤ now')%Z →
  live (td_nanos (rl_window l)) now' (hits_of l k) =
  live (td_nanos (rl_window l)) now' (times_of k h).
Proof.
  intros HI Hn. rewrite <- (live_live _ now now' (hits_of l k)) by done.
  rewrite (li_live _ _ _ HI). by apply live_live.
Qed.

Lemma hits_of_with_hits l k v k' :
  hits_of (with_hits l k v) k' = if decide (k = k') then v else hits_of l k'.
Proof.
  unfold hits_of, with_hits; simpl rl_hits. case_decide as E.
  - subst. by rewrite lookup_insert_eq.
  - by rewrite lookup_insert_ne.
Qed.

Lemma times_of_snoc k key t h :
  times_of k (h ++ [(key, t)]) =
  if decide (key = k) then times_of k h ++ [t] else times_of k h.
Proof.
  unfold times_of. rewrite filter_app, fmap_app, filter_cons, filter_nil. simpl.
  destruct (decide (key = k)); simpl; [done|by rewrite app_nil_r].
Qed.

Lemma live_app w n a b : live w n (a ++ b) = live w n a ++ live w n b.
Proof. apply filter_app. Qed.

(** The instants of a window that ends no earlier than [now] are all live. *)
Lemma in_span_live w n s ts :
  (n ≤ s + w)%Z → (length (in_span s (s + w) ts) ≤ length (live w n ts))%nat.
Proof.
  intros Hn. unfold in_span, live.
  induction ts as [|t ts IH]; [done|]. rewrite !filter_cons.
  repeat case_decide; simpl; lia.
Qed.

Lemma limiter_decision_inv l now h key t l' d :
  limiter_inv l now h → (now ≤ dt_nanos t)%Z → limiter_decision l key t = Some (l', d) →
  let kept := live (td_nanos (rl_window l)) (dt_nanos t) (times_of key h) in
  rl_limit l' = rl_limit l ∧ rl_window l' = rl_window l ∧
  ((d = Allowed ∧ N.of_nat (length kept) < rl_limit l ∧ l' = with_hits l key (kept ++ [t])) ∨
   (∃ r, d = RateLimited r ∧ rl_limit l ≤ N.of_nat (length kept) ∧ l' = with_hits l key kept)).
Proof.
  intros HI Hn. unfold limiter_decision. fold (hits_of l key).
  destruct (retain_hits _ _ _) as [kept|] eqn:Hk; simpl; [|done].
  apply retain_hits_spec in Hk. rewrite (limiter_inv_live _ _ _ _ _ HI Hn) in Hk. subst kept.
  assert (N.of_nat (length (live (td_nanos (rl_window l)) (dt_nanos t) (times_of key h)))
          < 2 ^ 32) as Hlen.
  { rewrite <- (limiter_inv_live _ _ _ _ _ HI Hn).
    pose proof (length_live (td_nanos (rl_window l)) (dt_nanos t) (hits_of l key)).
    pose proof (li_len _ _ _ HI key). pose proof (li_limit _ _ _ HI). lia. }
  rewrite N.mod_small by done. destruct (N.leb_spec (rl_limit l)
    (N.of_nat (length (live (td_nanos (rl_window l)) (dt_nanos t) (times_of key h))))).
  - destruct (retry_after _ _ _) as [r|]; simpl; [|done]. intros [= <- <-].
    split_and!; [done..|]. right. by exists r.
  - intros [= <- <-]. split_and!; [done..|]. by left.
Qed.

Lemma limiter_inv_step l now h key t l' d :
  limiter_inv l now h → (now ≤ dt_nanos t)%Z → limiter_decision l key t = Some (l', d) →
  limiter_inv l' (dt_nanos t) (if decision_allowed d then h ++ [(key, t)] else h).
Proof.
  intros HI Hn Hd. pose proof (limiter_decision_inv _ _ _ _ _ _ _ HI Hn Hd) as (Hl & Hw & Hc).
  set (w := td_nanos (rl_window l)) in *.
  set (kept := live w (dt_nanos t) (times_of key h)) in *.
  assert (kept = live w (dt_nanos t) (hits_of l key)) as Hkept
    by (symmetry; by eapply limiter_inv_live).
  pose proof (li_limit _ _ _ HI) as Hlim.
  assert (length kept ≤ length (hits_of l key))%nat as Hkl
    by (rewrite Hkept; apply length_live).
  destruct Hc as [(-> & Hlt & ->)|(r & -> & Hge & ->)]; simpl decision_allowed;
    split; rewrite ?Hl, ?Hw; try done; fold w.
  - intros k. rewrite hits_of_with_hits, times_of_snoc. case_decide.
    + subst k. rewrite !live_app. f_equal. unfold kept. by apply live_live.
    + by eapply limiter_inv_live.
  - intros k. rewrite hits_of_with_hits. case_decide; [|apply (li_len _ _ _ HI)].
    rewrite length_app; simpl. lia.
  - intros k x. rewrite times_of_snoc. intros Hx. case_decide.
    + apply elem_of_app in Hx as [Hx| ->%list_elem_of_singleton]; [|lia].
      pose proof (li_past _ _ _ HI _ _ Hx). lia.
    + pose proof (li_past _ _ _ HI _ _ Hx). lia.
  - intros k s. unfold admitted_in. rewrite times_of_snoc. pose proof (li_bound _ _ _ HI k s) as Hb.
    unfold admitted_in in Hb. fold w in Hb. case_decide; [|done]. subst k. unfold in_span. rewrite filter_app, length_app.
    fold (in_span s (s + w) (times_of key h)). rewrite filter_cons, filter_nil.
    case_decide; simpl; [|lia].
    pose proof (in_span_live w (dt_nanos t) s (times_of key h)) as Hs. fold kept in Hs. lia.
  - intros k. rewrite hits_of_with_hits. case_decide; [|by eapply limiter_inv_live].
    subst k. unfold kept. by apply live_live.
  - intros k. rewrite hits_of_with_hits. pose proof (li_len _ _ _ HI k) as Hk.
    case_decide; [|done]. subst k. lia.
  - intros k x Hx. pose proof (li_past _ _ _ HI _ _ Hx). lia.
  - intros k s. apply (li_bound _ _ _ HI k s).
Qed.

(** The instants of the calls do not go back, from [start] on. *)
Fixpoint nondecreasing (start : Z) (calls : list (string * datetime)) : bool :=
  match calls with
  | [] => true
  | (_, t) :: calls' => (start <=? dt_nanos t)%Z && nondecreasing (dt_nanos t) calls'
  end.

Lemma limiter_run_inv l now h calls key t l' admitted :
  limiter_inv l now h → nondecreasing now (calls ++ [(key, t)]) = true →
  limiter_run l calls = Some (l', admitted) →
  ∃ now', limiter_inv l' now' (h ++ admitted) ∧ (now' ≤ dt_nanos t)%Z ∧
    rl_limit l' = rl_limit l ∧ rl_window l' = rl_window l.
Proof.
  revert l now h admitted. induction calls as [|[k u] calls IH]; intros l now h admitted HI; simpl.
  - intros [Hle _]%andb_true_iff [= <- <-]. exists now. rewrite app_nil_r.
    apply Z.leb_le in Hle. done.
  - intros [Hle Hs]%andb_true_iff. apply Z.leb_le in Hle.
    destruct (limiter_decision l k u) as [[l1 d]|] eqn:Hd; simpl; [|done].
    destruct (limiter_run l1 calls) as [[l2 adm]|] eqn:Hr; simpl; [|done].
    intros [= <- <-].
    pose proof (limiter_inv_step _ _ _ _ _ _ _ HI Hle Hd) as HI1.
    pose proof (limiter_decision_inv _ _ _ _ _ _ _ HI Hle Hd) as (Hl & Hw & _).
    destruct (IH _ _ _ _ HI1 Hs Hr) as (now' & HI2 & Hn & Hl2 & Hw2).
    exists now'. split; [|split_and!; congruence]. destruct (decision_allowed d); [|done].
    by rewrite <- (assoc (++)) in HI2.
Qed.

(** Live hits of a history that ends by [n] are those of the window before [n]. *)
Lemma live_in_span w n ts :
  (∀ t, t ∈ ts → (dt_nanos t ≤ n)%Z) → live w n ts = in_span (n - w) n ts.
Proof.
  intros Hp. unfold live, in_span. induction ts as [|t ts IH]; [done|].
  rewrite !filter_cons, IH by (intros; apply Hp; by right).
  pose proof (Hp t (list_elem_of_here _ _)). repeat case_decide; done || lia.
Qed.
End limiter_proofs.

(** ** Claims *)

(** The retry delay is the capped geometric series: for a valid policy attempt [n]
    waits [min (initial * multiplier^(n-1)) max], whatever the saturating arithmetic does in
    between; it never decreases, stays between the first delay and the cap, and attempt 0 or
    one past the last fails closed. An invalid policy answers no attempt at all. *)
Theorem backoff_is_capped_geometric p attempt :
  bp_max_ms p ≤ u64_max →
  match backoff_validate p with
  | Err e => decision_for_attempt p attempt = Err e
  | Ok _ =>
      if (1 <=? attempt) && (attempt <=? bp_max_attempts p) then
        let delay n := N.min (bp_initial_ms p * bp_multiplier p ^ (n - 1)) (bp_max_ms p) in
        decision_for_attempt p attempt = Ok (Backoff attempt (delay attempt)) ∧
        0 < bp_initial_ms p ≤ delay attempt ∧
        ∀ later, attempt ≤ later → delay attempt ≤ delay later
      else decision_for_attempt p attempt = Ok (FailClosed "retry_attempts_exhausted")
  end.
Proof.
  intros Hm. unfold decision_for_attempt.
  destruct (backoff_validate p) as [[]|e] eqn:Hv; [|done]. simpl rbind.
  apply backoff_validate_ok in Hv as (Hi & Him & Hk & Ha).
  destruct (N.leb_spec 1 attempt), (N.leb_spec attempt (bp_max_attempts p)); simpl andb; cbv iota.
  - rewrite (proj2 (N.eqb_neq attempt 0)), (proj2 (N.ltb_ge _ _)) by lia. simpl orb. cbv iota.
    rewrite backoff_iter, N2Nat.id, <- N.min_assoc, N.min_id by done. split_and!; [done..| |].
    + assert (bp_multiplier p ^ (attempt - 1) ≠ 0) by (apply N.pow_nonzero; lia). nia.
    + intros later Hl. apply N.min_le_compat_r, N.mul_le_mono_l, N.pow_le_mono_r; lia.
  - by rewrite (proj2 (N.ltb_lt (bp_max_attempts p) attempt)), orb_true_r.
  - by replace (attempt =? 0) with true by (symmetry; apply N.eqb_eq; lia).
  - by replace (attempt =? 0) with true by (symmetry; apply N.eqb_eq; lia).
Qed.

(** The limiter enforces its budget and no more. After any run of calls at
    non-decreasing instants over any keys, no window of the configured length holds more
    than [max limit 1] admitted calls of a key; and the next call of a key is allowed exactly
    when fewer than that many of its calls were admitted in the window that ends now. *)
Theorem rate_limit_is_exact `{Chrono, !ChronoLaws} limit w start calls key now l admitted :
  limit < 2 ^ 32 →
  nondecreasing start (calls ++ [(key, now)]) = true →
  limiter_run (RateLimiter_new limit w) calls = Some (l, admitted) →
  (∀ k s, N.of_nat (admitted_in admitted k s (s + td_nanos w)) ≤ N.max limit 1) ∧
  (∀ l' d, limiter_decision l key now = Some (l', d) →
    (d = Allowed ↔
     N.of_nat (admitted_in admitted key (dt_nanos now - td_nanos w) (dt_nanos now))
       < N.max limit 1)).
Proof.
  intros Hl Hs Hr.
  destruct (limiter_run_inv _ _ _ _ _ _ _ _ (limiter_inv_init limit w start Hl) Hs Hr)
    as (now' & HI & Hn & Hlim & Hw). simpl in HI, Hlim, Hw. split.
  - intros k s. rewrite <- Hlim, <- Hw. apply (li_bound _ _ _ HI).
  - intros l' d Hd. destruct (limiter_decision_inv _ _ _ _ _ _ _ HI Hn Hd) as (_ & _ & Hc).
    rewrite live_in_span in Hc.
    + rewrite Hw, Hlim in Hc. unfold admitted_in.
      destruct Hc as [(-> & ? & _)|(r & -> & ? & _)]; split; done || lia.
    + intros t Ht. pose proof (li_past _ _ _ HI _ _ Ht). lia.
Qed.

(** The advertised retry delay is too short by one step. A caller that is limited at
    [now] and waits exactly the [retry_after_ms] it was given (a whole number of
    milliseconds until the oldest hit's window ends) is limited again: the window keeps a hit
    at its closing instant, so the hit leaves only after the advertised delay. *)
Theorem retry_after_ms_is_early `{Chrono, !ChronoLaws} l key now l' r oldest rest now' :
  limiter_decision l key now = Some (l', RateLimited r) →
  hits_of l' key = oldest :: rest →
  (∀ t, t ∈ rest → (dt_nanos oldest ≤ dt_nanos t)%Z) →
  (dt_nanos oldest + td_nanos (rl_window l) - dt_nanos now = Z.of_N r * 1000000)%Z →
  (dt_nanos now' = dt_nanos now + Z.of_N r * 1000000)%Z →
  ∃ l'', limiter_decision l' key now' = Some (l'', RateLimited 1).
Proof.
  unfold limiter_decision at 1. fold (hits_of l key). intros Hd Hh Hord He Hn.
  destruct (retain_hits _ _ _) as [kept|] eqn:Hk in Hd; simpl in Hd; [|done].
  destruct (N.leb_spec (rl_limit l) (N.of_nat (length kept) mod 2 ^ 32)); [|done].
  destruct (retry_after _ _ _) as [r'|] eqn:Hr in Hd; simpl in Hd; [|done].
  injection Hd as <- <-. rewrite hits_of_with_hits, decide_True in Hh by done. subst kept.
  assert (retain_hits (rl_window l) now' (oldest :: rest) = Some (oldest :: rest)) as Hk'.
  { assert (∀ t, t ∈ oldest :: rest → is_Some (dt_add t (rl_window l))) as Hs
      by (intros t Ht; by apply (retain_hits_some _ _ _ _ _ Hk)).
    assert (∀ t, t ∈ oldest :: rest → (dt_nanos oldest ≤ dt_nanos t)%Z) as Ho
      by (intros t [->|Ht]%elem_of_cons; [lia|by apply Hord]).
    apply retain_hits_all; [done|]. intros t Ht. specialize (Ho t Ht). lia. }
  exists (with_hits (with_hits l key (oldest :: rest)) key (oldest :: rest)).
  unfold limiter_decision. fold (hits_of (with_hits l key (oldest :: rest)) key).
  rewrite hits_of_with_hits, decide_True by done. simpl rl_window. rewrite Hk'.
  cbn [mbind option_bind]. simpl rl_limit. rewrite (proj2 (N.leb_le _ _)) by done.
  unfold retry_after in *. destruct (dt_add oldest (rl_window l)) as [e|] eqn:Ha; [|done].
  apply dt_add_nanos in Ha. cbn [mbind option_bind].
  rewrite td_num_milliseconds_spec, dt_since_nanos, Ha.
  replace (dt_nanos oldest + td_nanos (rl_window l) - dt_nanos now')%Z with 0%Z by lia. done.
Qed.

Section witnesses.
#[local] Existing Instance Toy.toy_chrono.
#[local] Existing Instance Toy.toy_chrono_laws.

Lemma backoff_is_capped_geometric_witness :
  decision_for_attempt
    {| bp_initial_ms := 125; bp_max_ms := 1000; bp_multiplier := 2; bp_max_attempts := 4 |} 3 =
  Ok (Backoff 3 500).
Proof.
  refine (proj1 (backoff_is_capped_geometric
    {| bp_initial_ms := 125; bp_max_ms := 1000; bp_multiplier := 2; bp_max_attempts := 4 |} 3 _)).
  vm_compute. discriminate.
Defined.

(** One second, two hits. *)
Definition one_second : @timedelta Toy.toy_chrono := 1000000000%Z.
Definition two_hits : list (string * @datetime Toy.toy_chrono) :=
  [("a", 0%Z); ("a", 400000000%Z)].

Definition ran : RateLimiter * list (string * datetime) :=
  default (RateLimiter_new 2 one_second, []) (limiter_run (RateLimiter_new 2 one_second) two_hits).
Definition third : RateLimiter * AbuseDecision :=
  default (ran.1, Allowed) (limiter_decision ran.1 "a" 900000000%Z).

Lemma rate_limit_is_exact_witness :
  third.2 = RateLimited 100 ∧
  (third.2 = Allowed ↔ N.of_nat (admitted_in ran.2 "a" (-100000000) 900000000) < 2).
Proof.
  split; [reflexivity|].
  destruct (rate_limit_is_exact 2 one_second 0 two_hits "a" 900000000%Z ran.1 ran.2)
    as [_ Hx]; [reflexivity..|].
  exact (Hx third.1 third.2 eq_refl).
Defined.

Lemma retry_after_ms_is_early_witness :
  ∃ l'', limiter_decision
    (with_hits (RateLimiter_new 1 one_second) "a" [0%Z]) "a" 1000000000%Z =
    Some (l'', RateLimited 1).
Proof.
  apply (retry_after_ms_is_early (with_hits (RateLimiter_new 1 one_second) "a" [0%Z]) "a"
    900000000%Z (with_hits (RateLimiter_new 1 one_second) "a" [0%Z]) 100 0%Z [] 1000000000%Z);
    try reflexivity.
  intros t []%not_elem_of_nil.
Defined.
End witnesses.
