(* ===== verification/TextSend.v ===== *)
(** * The outbound text pipeline (crates/mls-delivery/src/lib.rs)

    Encrypt, sign, persist, queue, send: [TextOutboundPipeline] over its adapter
    traits, which are classes here, with the in-memory adapters as instances. An
    operation returns the new pipeline with its result, so that an error path shows
    which effects happened before it. *)

From S2P Require Import Prelude Collections Bytes Crypto DeliveryError TextEnvelope Abuse.

Section requests.
Context `{Chrono}.

Record TextOutboundRequest := {
  or_group_id : string;
  or_channel_id : string;
  or_epoch : N;
  or_sender_leaf : N;
  or_sender_device_id : string;
  or_sequence : N;
  or_message_id : string;
  or_retention : TextRetentionMetadata;
  or_plaintext : bytes;
  or_sent_at_ms : N;
  or_now : datetime
}.
End requests.

Record TextSelectedRoute := {
  sr_session_id : string;
  sr_route_label : string;
  sr_overlay_hops : N;
  sr_ciphertext_only : bool
}.

Record TextAuthorLogEnvelope := {
  al_channel_id : string;
  al_envelope : TextMessageEnvelope;
  al_sent_at_ms : N
}.

Record TextOutboundFrame := {
  of_session_id : string;
  of_route_label : string;
  of_payload : bytes
}.

Inductive TextSendEventKind :=
| SendPending
| SendTransportAccepted
| SendReceiptVerified
| SendError.

Record TextSendEvent := {
  se_message_id : string;
  se_kind : TextSendEventKind;
  se_error : option string
}.

Definition send_event_pending (message_id : string) : TextSendEvent :=
  {| se_message_id := message_id; se_kind := SendPending; se_error := None |}.

Definition send_event_transport_accepted (message_id : string) : TextSendEvent :=
  {| se_message_id := message_id; se_kind := SendTransportAccepted; se_error := None |}.

Definition send_event_error (message_id : string) (e : DeliveryError) : TextSendEvent :=
  {| se_message_id := message_id; se_kind := SendError;
     se_error := Some (DeliveryError_to_string e) |}.

Record TextSendReceipt := {
  sr_message_id : string;
  sr_envelope : TextMessageEnvelope;
  sr_route : TextSelectedRoute
}.

(** ** Adapter traits *)

Class TextAuthorLogStore (L : Type) :=
  append_author_log : L → TextAuthorLogEnvelope → L * result unit DeliveryError.

Class TextOutboundTransport (T : Type) :=
  send_text_frame : T → TextSelectedRoute → TextOutboundFrame → T * result unit DeliveryError.

Class TextSendEventSink (E : Type) :=
  emit_text_send_event : E → TextSendEvent → E * result unit DeliveryError.

(** [None] when the gate panics. *)
Class TextSendAbuseGate `{Chrono} (G : Type) :=
  allow_text_send : G → string → string → datetime → option (G * bool).

#[export] Instance AbuseControls_gate `{Chrono} : TextSendAbuseGate AbuseControls :=
  λ controls sender_device_id conversation_id now,
    allow_message controls (sender_device_id +:+ ":" +:+ conversation_id) now.

(** *** In-memory adapters *)

Record InMemoryTextAuthorLog := { ma_entries : list TextAuthorLogEnvelope }.

#[export] Instance InMemoryTextAuthorLog_store : TextAuthorLogStore InMemoryTextAuthorLog :=
  λ l entry, ({| ma_entries := ma_entries l ++ [entry] |}, Ok tt).

Record InMemoryTextTransport := {
  mt_frames : list TextOutboundFrame;
  mt_fail_next : bool
}.

#[export] Instance InMemoryTextTransport_transport :
  TextOutboundTransport InMemoryTextTransport :=
  λ t route frame,
    if negb (sr_ciphertext_only route) then (t, Err TextOutboundRouteNotCiphertextOnly)
    else if mt_fail_next t then
      ({| mt_frames := mt_frames t; mt_fail_next := false |},
       Err (TextOutboundAdapter "transport send failed"))
    else ({| mt_frames := mt_frames t ++ [frame]; mt_fail_next := mt_fail_next t |}, Ok tt).

Record InMemoryTextSendEvents := { me_events : list TextSendEvent }.

#[export] Instance InMemoryTextSendEvents_sink : TextSendEventSink InMemoryTextSendEvents :=
  λ s event, ({| me_events := me_events s ++ [event] |}, Ok tt).

(** ** Content encryption *)

Section encryption.
Context `{Sha256, Aes256Gcm, Chrono}.

(** [push_str_for_hash] writes what [push_str] writes. *)
Definition derive_text_message_content_key (text_exporter_secret : bytes)
    (request : TextOutboundRequest) : bytes :=
  sha256 (as_bytes "discrypt-text-message-content-key-v1" ++
          push_bytes (as_bytes (or_group_id request)) ++
          be_u64 (or_epoch request) ++
          be_u32 (or_sender_leaf request) ++
          push_bytes (as_bytes (or_sender_device_id request)) ++
          be_u64 (or_sequence request) ++
          push_bytes (as_bytes (or_message_id request)) ++
          be_u64 (len text_exporter_secret) ++ text_exporter_secret).

Definition text_message_encryption_aad (request : TextOutboundRequest) :
    result bytes DeliveryError :=
  let* commitment := group_id_commitment (or_group_id request) in
  Ok (push_bytes (as_bytes "discrypt-text-message-aad-v1") ++
      commitment ++
      be_u64 (or_epoch request) ++
      be_u32 (or_sender_leaf request) ++
      push_bytes (as_bytes (or_sender_device_id request)) ++
      be_u64 (or_sequence request) ++
      push_bytes (as_bytes (or_message_id request)) ++
      retention_bytes (or_retention request)).

Definition text_message_nonce (content_key : bytes) (message_id : string) (sequence : N) : bytes :=
  firstn 12 (sha256 (as_bytes "discrypt-text-message-nonce-v1" ++ content_key ++
                     be_u64 sequence ++ push_bytes (as_bytes message_id))).

Definition encrypt_text_plaintext (content_key nonce aad plaintext : bytes) :
    result bytes DeliveryError :=
  let* cipher := ok_or (gcm_new content_key) TextMessageEncryptionFailed in
  ok_or (gcm_encrypt cipher nonce aad plaintext) TextMessageEncryptionFailed.

Definition decrypt_text_ciphertext (content_key nonce aad ciphertext : bytes) :
    result bytes DeliveryError :=
  let* cipher := ok_or (gcm_new content_key) TextMessageDecryptionFailed in
  ok_or (gcm_decrypt cipher nonce aad ciphertext) TextMessageDecryptionFailed.

(** [clock] is [Utc::now()]; nothing depends on it. *)
Definition decrypt_text_envelope (clock : datetime) (group_id : string)
    (text_exporter_secret : bytes) (envelope : TextMessageEnvelope) :
    result bytes DeliveryError :=
  let request :=
    {| or_group_id := group_id; or_channel_id := ""; or_epoch := te_epoch envelope;
       or_sender_leaf := te_sender_leaf envelope;
       or_sender_device_id := te_sender_device_id envelope;
       or_sequence := te_sequence envelope; or_message_id := te_message_id envelope;
       or_retention := te_retention envelope; or_plaintext := []; or_sent_at_ms := 0;
       or_now := clock |} in
  let* aad := text_message_encryption_aad request in
  let content_key := derive_text_message_content_key text_exporter_secret request in
  let nonce := text_message_nonce content_key (te_message_id envelope) (te_sequence envelope) in
  decrypt_text_ciphertext content_key nonce aad (te_content_ciphertext envelope).
End encryption.

(** ** The pipeline *)

Section outbound.
Context `{Sha256, Ed25519, Aes256Gcm, Chrono}.
Context {L T E : Type} `{!TextAuthorLogStore L, !TextOutboundTransport T, !TextSendEventSink E}.

Record TextOutboundPipeline := {
  op_author_log : L;
  op_transport : T;
  op_events : E
}.

Definition set_author_log (p : TextOutboundPipeline) (l : L) : TextOutboundPipeline :=
  {| op_author_log := l; op_transport := op_transport p; op_events := op_events p |}.
Definition set_transport (p : TextOutboundPipeline) (t : T) : TextOutboundPipeline :=
  {| op_author_log := op_author_log p; op_transport := t; op_events := op_events p |}.
Definition set_send_events (p : TextOutboundPipeline) (e : E) : TextOutboundPipeline :=
  {| op_author_log := op_author_log p; op_transport := op_transport p; op_events := e |}.

(** The part of [send_inner] that touches no adapter: the route guard, the
    encryption and the signature. *)
Definition seal (request : TextOutboundRequest) (route : TextSelectedRoute)
    (text_exporter_secret : bytes) (k : signing_key) :
    result TextMessageEnvelope DeliveryError :=
  check reject_if (negb (sr_ciphertext_only route)) TextOutboundRouteNotCiphertextOnly in
  let* aad := text_message_encryption_aad request in
  let content_key := derive_text_message_content_key text_exporter_secret request in
  let nonce := text_message_nonce content_key (or_message_id request) (or_sequence request) in
  let* content_ciphertext :=
    encrypt_text_plaintext content_key nonce aad (or_plaintext request) in
  envelope_sign (or_group_id request)
    {| ti_epoch := or_epoch request;
       ti_sender_leaf := or_sender_leaf request;
       ti_sender_device_id := or_sender_device_id request;
       ti_sequence := or_sequence request;
       ti_message_id := or_message_id request;
       ti_retention := or_retention request;
       ti_content_ciphertext := content_ciphertext |} k.

Definition send_inner (p : TextOutboundPipeline) (request : TextOutboundRequest)
    (route : TextSelectedRoute) (text_exporter_secret : bytes) (k : signing_key) :
    TextOutboundPipeline * result TextSendReceipt DeliveryError :=
  match seal request route text_exporter_secret k with
  | Err e => (p, Err e)
  | Ok envelope =>
      let '(log, r1) := append_author_log (op_author_log p)
        {| al_channel_id := or_channel_id request; al_envelope := envelope;
           al_sent_at_ms := or_sent_at_ms request |} in
      let p1 := set_author_log p log in
      match r1 with
      | Err e => (p1, Err e)
      | Ok _ =>
          let '(ev, r2) := emit_text_send_event (op_events p1)
            (send_event_pending (or_message_id request)) in
          let p2 := set_send_events p1 ev in
          match r2 with
          | Err e => (p2, Err e)
          | Ok _ =>
              let '(tr, r3) := send_text_frame (op_transport p2) route
                {| of_session_id := sr_session_id route;
                   of_route_label := sr_route_label route;
                   of_payload := canonical_signed_bytes envelope |} in
              let p3 := set_transport p2 tr in
              match r3 with
              | Err e => (p3, Err e)
              | Ok _ =>
                  let '(ev', r4) := emit_text_send_event (op_events p3)
                    (send_event_transport_accepted (or_message_id request)) in
                  let p4 := set_send_events p3 ev' in
                  match r4 with
                  | Err e => (p4, Err e)
                  | Ok _ =>
                      (p4, Ok {| sr_message_id := or_message_id request;
                                 sr_envelope := envelope; sr_route := route |})
                  end
              end
          end
      end
  end.

Definition send (p : TextOutboundPipeline) (request : TextOutboundRequest)
    (route : TextSelectedRoute) (text_exporter_secret : bytes) (k : signing_key) :
    TextOutboundPipeline * result TextSendReceipt DeliveryError :=
  match send_inner p request route text_exporter_secret k with
  | (p', Ok receipt) => (p', Ok receipt)
  | (p', Err error) =>
      let '(ev, _) := emit_text_send_event (op_events p')
        (send_event_error (or_message_id request) error) in
      (set_send_events p' ev, Err error)
  end.

Definition send_with_abuse_gate {G} `{!TextSendAbuseGate G} (p : TextOutboundPipeline)
    (request : TextOutboundRequest) (route : TextSelectedRoute) (text_exporter_secret : bytes)
    (k : signing_key) (gate : G) :
    option (TextOutboundPipeline * G * result TextSendReceipt DeliveryError) :=
  let abuse_key := or_group_id request +:+ ":" +:+ or_channel_id request in
  '(gate', allowed) ← allow_text_send gate (or_sender_device_id request) abuse_key (or_now request);
  if negb allowed then
    let error := TextSendRateLimited abuse_key in
    let '(ev, _) := emit_text_send_event (op_events p)
      (send_event_error (or_message_id request) error) in
    Some (set_send_events p ev, gate', Err error)
  else
    let '(p', r) := send p request route text_exporter_secret k in
    Some (p', gate', r).
End outbound.

Arguments TextOutboundPipeline L T E : clear implicits.

(** ** Facts about the pipeline *)

Section outbound_facts.
Context `{Sha256, Ed25519, Aes256Gcm, Chrono}.

Lemma seal_route request route secret k e :
  seal request route secret k = Ok e → sr_ciphertext_only route = true.
Proof. unfold seal. by destruct (sr_ciphertext_only route). Qed.

(** The log entry and the frame of a sealed request. *)
Definition log_entry (request : TextOutboundRequest) (e : TextMessageEnvelope) :
    TextAuthorLogEnvelope :=
  {| al_channel_id := or_channel_id request; al_envelope := e;
     al_sent_at_ms := or_sent_at_ms request |}.

Definition wire_frame (route : TextSelectedRoute) (e : TextMessageEnvelope) : TextOutboundFrame :=
  {| of_session_id := sr_session_id route; of_route_label := sr_route_label route;
     of_payload := canonical_signed_bytes e |}.

Section generic.
Context {L T E : Type} `{!TextAuthorLogStore L, !TextOutboundTransport T, !TextSendEventSink E}.
Implicit Types p : TextOutboundPipeline L T E.

(** How far [send_inner] got, read off the adapters' answers. *)
Lemma send_inner_log_transport p request route secret k :
  let p' := (send_inner p request route secret k).1 in
  match seal request route secret k with
  | Err _ => p' = p
  | Ok e =>
      let step := append_author_log (op_author_log p) (log_entry request e) in
      op_author_log p' = step.1 ∧
      (op_transport p' = op_transport p ∨
       step.2 = Ok tt ∧
       op_transport p' = (send_text_frame (op_transport p) route (wire_frame route e)).1)
  end.
Proof.
  unfold send_inner. destruct (seal request route secret k) as [e|err]; [|done].
  fold (log_entry request e). simpl.
  destruct (append_author_log _ _) as [log [[]|]] eqn:Hlog; simpl; [|auto].
  destruct (emit_text_send_event _ _) as [ev [[]|]]; simpl; [|auto].
  fold (wire_frame route e).
  destruct (send_text_frame _ _ _) as [tr [[]|]] eqn:Htr; simpl; [|auto].
  destruct (emit_text_send_event ev _) as [ev' [[]|]]; simpl; auto.
Qed.

Lemma send_inner_ok p request route secret k p' receipt :
  send_inner p request route secret k = (p', Ok receipt) →
  seal request route secret k = Ok (sr_envelope receipt).
Proof.
  unfold send_inner. destruct (seal request route secret k) as [e|err]; [|done].
  destruct (append_author_log _ _) as [log [[]|]]; [|done]. simpl.
  destruct (emit_text_send_event _ _) as [ev [[]|]]; [|done]. simpl.
  destruct (send_text_frame _ _ _) as [tr [[]|]]; [|done]. simpl.
  destruct (emit_text_send_event ev _) as [ev' [[]|]]; naive_solver.
Qed.

Lemma send_log_transport p request route secret k :
  op_author_log (send p request route secret k).1 =
    op_author_log (send_inner p request route secret k).1 ∧
  op_transport (send p request route secret k).1 =
    op_transport (send_inner p request route secret k).1 ∧
  (send p request route secret k).2 = (send_inner p request route secret k).2.
Proof.
  unfold send. destruct (send_inner _ _ _ _ _) as [p' [m|err]]; simpl; [done|].
  by destruct (emit_text_send_event _ _).
Qed.
End generic.
End outbound_facts.

(** ** Claims *)

(** Write-ahead: over any author log, transport, event sink and abuse gate, the
    transport is touched only for a frame that carries the canonical bytes of an envelope
    sealed over a ciphertext-only route, and only after the log accepted that same envelope;
    a send the gate refuses reaches neither the log nor the transport. *)
Theorem send_is_write_ahead `{Sha256, Ed25519, Aes256Gcm, Chrono} {L T E G : Type}
    `{!TextAuthorLogStore L, !TextOutboundTransport T, !TextSendEventSink E,
      !TextSendAbuseGate G}
    (p : TextOutboundPipeline L T E) request route secret k (gate : G) p' gate' r :
  send_with_abuse_gate p request route secret k gate = Some (p', gate', r) →
  (op_transport p' ≠ op_transport p →
    ∃ e, seal request route secret k = Ok e ∧ sr_ciphertext_only route = true ∧
      append_author_log (op_author_log p) (log_entry request e) = (op_author_log p', Ok tt) ∧
      op_transport p' = (send_text_frame (op_transport p) route (wire_frame route e)).1) ∧
  (∀ gate1, allow_text_send gate (or_sender_device_id request)
      (or_group_id request +:+ ":" +:+ or_channel_id request) (or_now request) =
      Some (gate1, false) →
    op_author_log p' = op_author_log p ∧ op_transport p' = op_transport p ∧
    r = Err (TextSendRateLimited (or_group_id request +:+ ":" +:+ or_channel_id request))).
Proof.
  unfold send_with_abuse_gate. intros Hs.
  destruct (allow_text_send _ _ _ _) as [[g a]|]; simpl in Hs; [|done]. destruct a; simpl in Hs.
  - destruct (send_log_transport p request route secret k) as (Hl & Ht & _).
    destruct (send p request route secret k) as [p1 r1]. injection Hs as <- <- <-. simpl in *.
    rewrite Hl, Ht. split; [|done]. intros Hne.
    pose proof (send_inner_log_transport p request route secret k) as Hi. simpl in Hi.
    destruct (seal request route secret k) as [e|] eqn:He; [|by rewrite Hi in Hne].
    destruct Hi as [Hlog [?|[Hok Htr]]]; [done|]. exists e.
    split_and!; [done|by eapply seal_route| |done].
    rewrite Hlog, <- Hok. by destruct (append_author_log _ _).
  - destruct (emit_text_send_event _ _) as [ev r2]. injection Hs as <- <- <-. naive_solver.
Qed.

(** The effects of a send over the in-memory adapters, on every branch. When
    sealing fails nothing is logged or sent and one error event is reported. Otherwise the
    envelope is logged and announced as pending; then either the frame with that envelope's
    bytes is queued and acceptance announced, or the armed transport fault consumes its flag,
    no frame is queued, and the error event follows the pending one. *)
Theorem send_effects_in_memory `{Sha256, Ed25519, Aes256Gcm, Chrono}
    (p : TextOutboundPipeline InMemoryTextAuthorLog InMemoryTextTransport InMemoryTextSendEvents)
    request route secret k :
  let id := or_message_id request in
  let '(p', r) := send p request route secret k in
  let events := me_events (op_events p) in
  match seal request route secret k with
  | Err e =>
      r = Err e ∧ op_author_log p' = op_author_log p ∧ op_transport p' = op_transport p ∧
      me_events (op_events p') = events ++ [send_event_error id e]
  | Ok e =>
      ma_entries (op_author_log p') = ma_entries (op_author_log p) ++ [log_entry request e] ∧
      mt_fail_next (op_transport p') = false ∧
      if mt_fail_next (op_transport p) then
        r = Err (TextOutboundAdapter "transport send failed") ∧
        mt_frames (op_transport p') = mt_frames (op_transport p) ∧
        me_events (op_events p') = events ++
          [send_event_pending id;
           send_event_error id (TextOutboundAdapter "transport send failed")]
      else
        r = Ok {| sr_message_id := id; sr_envelope := e; sr_route := route |} ∧
        mt_frames (op_transport p') = mt_frames (op_transport p) ++ [wire_frame route e] ∧
        me_events (op_events p') = events ++
          [send_event_pending id; send_event_transport_accepted id]
  end.
Proof.
  unfold send, send_inner. destruct (seal request route secret k) as [e|err] eqn:Hs; [|done].
  apply seal_route in Hs.
  unfold append_author_log, emit_text_send_event, send_text_frame,
    InMemoryTextAuthorLog_store, InMemoryTextSendEvents_sink, InMemoryTextTransport_transport.
  simpl. rewrite Hs; simpl. destruct (mt_fail_next (op_transport p)); simpl;
    rewrite <- !(assoc (++)); done.
Qed.

Section witnesses.
#[local] Existing Instance Toy.toy_sha.
#[local] Existing Instance Toy.toy_ed.
#[local] Existing Instance Toy.toy_aead.
#[local] Existing Instance Toy.toy_chrono.

Definition a_request : TextOutboundRequest :=
  {| or_group_id := "g"; or_channel_id := "c"; or_epoch := 3; or_sender_leaf := 2;
     or_sender_device_id := "dev"; or_sequence := 1; or_message_id := "m1";
     or_retention := a_retention; or_plaintext := [104; 105]; or_sent_at_ms := 5;
     or_now := 0%Z |}.
Definition a_route : TextSelectedRoute :=
  {| sr_session_id := "s"; sr_route_label := "direct"; sr_overlay_hops := 0;
     sr_ciphertext_only := true |}.
Definition idle : TextOutboundPipeline InMemoryTextAuthorLog InMemoryTextTransport
    InMemoryTextSendEvents :=
  {| op_author_log := {| ma_entries := [] |};
     op_transport := {| mt_frames := []; mt_fail_next := false |};
     op_events := {| me_events := [] |} |}.
Definition a_gate : AbuseControls := AbuseControls_new 1 1 one_second.

Definition gated := send_with_abuse_gate idle a_request a_route [9] Toy.alice a_gate.

Lemma send_is_write_ahead_witness :
  ∃ p' gate' r, gated = Some (p', gate', r) ∧
    ∃ e, seal a_request a_route [9] Toy.alice = Ok e ∧
      append_author_log (op_author_log idle) (log_entry a_request e) = (op_author_log p', Ok tt).
Proof.
  assert ((λ x, length (mt_frames (op_transport x.1.1))) <$> gated = Some 1%nat) as Hn
    by (vm_compute; reflexivity).
  destruct gated as [[[p' gate'] r]|] eqn:Hg; [|discriminate Hn].
  exists p', gate', r. split; [reflexivity|]. injection Hn as Hn.
  unfold gated in Hg. apply send_is_write_ahead in Hg as [Hw _].
  destruct Hw as (e & He & _ & Hl & _).
  - intros Heq. simpl in Hn. rewrite Heq in Hn. discriminate Hn.
  - exists e. split; [exact He|exact Hl].
Defined.
End witnesses.
