(* ===== verification/TextReceive.v ===== *)
(** * The inbound text pipeline (crates/mls-delivery/src/lib.rs)

    Verify, check epoch and membership, record the replay slot, persist, decrypt or
    lock, report: [TextInboundPipeline] over its adapter traits, and the replay state
    of a channel. *)

From S2P Require Import Prelude Collections Bytes Crypto DeliveryError TextEnvelope TextSend.

Record TextReceivedEnvelope := {
  rv_channel_id : string;
  rv_envelope : TextMessageEnvelope;
  rv_received_at_ms : N
}.

Inductive TextRenderState :=
| Decrypted (plaintext : bytes)
| Locked (reason : string).

Record TextRenderableMessage := {
  rd_message_id : string;
  rd_sender_leaf : N;
  rd_sequence : N;
  rd_state : TextRenderState
}.

Inductive TextReceiveEventKind :=
| ReceiveUpdated
| ReceiveError.

Record TextReceiveEvent := {
  re_message_id : string;
  re_kind : TextReceiveEventKind;
  re_error : option string
}.

Definition receive_event_updated (message_id : string) : TextReceiveEvent :=
  {| re_message_id := message_id; re_kind := ReceiveUpdated; re_error := None |}.

Definition receive_event_error (message_id : string) (e : DeliveryError) : TextReceiveEvent :=
  {| re_message_id := message_id; re_kind := ReceiveError;
     re_error := Some (DeliveryError_to_string e) |}.

Record TextInboundRequest := {
  ir_group_id : string;
  ir_channel_id : string;
  ir_current_epoch : N;
  ir_authorized_sender_leaves : gset N;
  ir_envelope : TextMessageEnvelope;
  ir_received_at_ms : N;
  ir_retention_allows_decrypt : bool
}.

(** ** Adapter traits *)

Class TextRecipientStore (S : Type) :=
  persist_received : S → TextReceivedEnvelope → S * result unit DeliveryError.

Class TextReceiveEventSink (E : Type) :=
  emit_text_receive_event : E → TextReceiveEvent → E * result unit DeliveryError.

Record InMemoryTextRecipientStore := { ms_entries : list TextReceivedEnvelope }.

#[export] Instance InMemoryTextRecipientStore_store :
  TextRecipientStore InMemoryTextRecipientStore :=
  λ s entry, ({| ms_entries := ms_entries s ++ [entry] |}, Ok tt).

Record InMemoryTextReceiveEvents := { mr_events : list TextReceiveEvent }.

#[export] Instance InMemoryTextReceiveEvents_sink :
  TextReceiveEventSink InMemoryTextReceiveEvents :=
  λ s event, ({| mr_events := mr_events s ++ [event] |}, Ok tt).

(** ** Replay state *)

Definition TextReceiveState : Type := gset (N * N * string).

(** [seen.range(start..).next()] *)
Definition first_from (start : N * N * string) (seen : TextReceiveState) :
    option (N * N * string) :=
  head (filter (λ k, key_cmp k start ≠ Lt) (sorted_elements seen)).

Definition accept (seen : TextReceiveState) (e : TextMessageEnvelope) :
    TextReceiveState * result unit DeliveryError :=
  let key := (te_sender_leaf e, te_sequence e, te_message_id e) in
  let range_start := (te_sender_leaf e, te_sequence e, "") in
  if match first_from range_start seen with
     | Some (sender_leaf, sequence, _) =>
         (sender_leaf =? te_sender_leaf e) && (sequence =? te_sequence e)
     | None => false
     end
  then (seen, Err (TextReceiveReplay (te_sender_leaf e) (te_sequence e)))
  else ({[key]} ∪ seen, Ok tt).

(** ** The pipeline *)

Section inbound.
Context `{Sha256, Ed25519, Aes256Gcm, Chrono}.
Context {S E : Type} `{!TextRecipientStore S, !TextReceiveEventSink E}.

Record TextInboundPipeline := {
  ip_state : TextReceiveState;
  ip_store : S;
  ip_events : E
}.

(** The guards [receive_inner] runs before it changes anything. *)
Definition admit_envelope (request : TextInboundRequest) (vk : verifying_key) :
    result unit DeliveryError :=
  let envelope := ir_envelope request in
  check envelope_verify envelope (ir_group_id request) vk in
  check reject_if (te_epoch envelope <? ir_current_epoch request)
    (TextReceiveDowngrade (ir_current_epoch request) (te_epoch envelope)) in
  check reject_if (ir_current_epoch request <? te_epoch envelope)
    (TextReceiveFork (ir_current_epoch request) (te_epoch envelope)) in
  reject_if (negb (bool_decide (te_sender_leaf envelope ∈ ir_authorized_sender_leaves request)))
    (TextReceiveUnauthorizedSender (te_sender_leaf envelope)).

Definition render (clock : datetime) (request : TextInboundRequest)
    (text_exporter_secret : bytes) : result TextRenderState DeliveryError :=
  if ir_retention_allows_decrypt request then
    rmap Decrypted (decrypt_text_envelope clock (ir_group_id request) text_exporter_secret
                      (ir_envelope request))
  else Ok (Locked "retention policy requires live key before plaintext render").

Definition receive_inner (clock : datetime) (p : TextInboundPipeline)
    (request : TextInboundRequest) (text_exporter_secret : bytes) (vk : verifying_key) :
    TextInboundPipeline * result TextRenderableMessage DeliveryError :=
  let envelope := ir_envelope request in
  match admit_envelope request vk with
  | Err e => (p, Err e)
  | Ok _ =>
      let '(seen, r1) := accept (ip_state p) envelope in
      let p1 := {| ip_state := seen; ip_store := ip_store p; ip_events := ip_events p |} in
      match r1 with
      | Err e => (p1, Err e)
      | Ok _ =>
          let '(store, r2) := persist_received (ip_store p1)
            {| rv_channel_id := ir_channel_id request; rv_envelope := envelope;
               rv_received_at_ms := ir_received_at_ms request |} in
          let p2 := {| ip_state := seen; ip_store := store; ip_events := ip_events p1 |} in
          match r2 with
          | Err e => (p2, Err e)
          | Ok _ =>
              match render clock request text_exporter_secret with
              | Err e => (p2, Err e)
              | Ok state =>
                  let '(ev, r3) := emit_text_receive_event (ip_events p2)
                    (receive_event_updated (te_message_id envelope)) in
                  let p3 := {| ip_state := seen; ip_store := store; ip_events := ev |} in
                  match r3 with
                  | Err e => (p3, Err e)
                  | Ok _ =>
                      (p3, Ok {| rd_message_id := te_message_id envelope;
                                 rd_sender_leaf := te_sender_leaf envelope;
                                 rd_sequence := te_sequence envelope;
                                 rd_state := state |})
                  end
              end
          end
      end
  end.

Definition receive (clock : datetime) (p : TextInboundPipeline)
    (request : TextInboundRequest) (text_exporter_secret : bytes) (vk : verifying_key) :
    TextInboundPipeline * result TextRenderableMessage DeliveryError :=
  match receive_inner clock p request text_exporter_secret vk with
  | (p', Ok renderable) => (p', Ok renderable)
  | (p', Err error) =>
      let '(ev, _) := emit_text_receive_event (ip_events p')
        (receive_event_error (te_message_id (ir_envelope request)) error) in
      ({| ip_state := ip_state p'; ip_store := ip_store p'; ip_events := ev |}, Err error)
  end.
End inbound.

Arguments TextInboundPipeline S E : clear implicits.

(** ** The replay state *)

Lemma slot_cmp_start (leaf seq : N) (id : string) :
  key_cmp (leaf, seq, id) (leaf, seq, "") ≠ Lt.
Proof.
  unfold key_cmp, prod_ord_key, cmp_lex, cmp_by; simpl.
  unfold key_cmp, N_ord_key, string_ord_key. rewrite !N.compare_refl; simpl.
  by destruct id.
Qed.

(** Keys between two keys of one slot are keys of that slot. *)
Lemma slot_between (k : N * N * string) (slot : N * N) (a b : string) :
  key_cmp k (slot, a) ≠ Lt → key_cmp k (slot, b) ≠ Gt → k.1 = slot.
Proof.
  destruct k as [slot' id]. unfold key_cmp at 1 2, prod_ord_key at 1 3, cmp_lex, cmp_by; simpl.
  intros Hlo Hhi. apply (cmp_eq (cmp := key_cmp)).
  by destruct (key_cmp slot' slot).
Qed.

Lemma first_from_slot (leaf seq : N) (seen : TextReceiveState) :
  match first_from (leaf, seq, "") seen with
  | Some (l, s, _) => (l =? leaf) && (s =? seq)
  | None => false
  end = true ↔ ∃ id, (leaf, seq, id) ∈ seen.
Proof.
  unfold first_from. split.
  - destruct (head _) as [[[l s] id]|] eqn:Hh; [|done].
    intros [->%N.eqb_eq ->%N.eqb_eq]%andb_true_iff. exists id.
    apply head_Some_elem_of in Hh. apply list_elem_of_filter in Hh as [_ Hin].
    by rewrite elem_of_sorted_elements in Hin.
  - intros [id Hid]. pose proof (slot_cmp_start leaf seq id) as Hge.
    assert ((leaf, seq, id) ∈ filter (λ k, key_cmp k (leaf, seq, "") ≠ Lt) (sorted_elements seen))
      as Hf by (apply list_elem_of_filter; by rewrite elem_of_sorted_elements).
    destruct (head _) as [[[l s] id']|] eqn:Hh.
    + apply (head_filter_sorted (cmp_le key_cmp)) in Hh as (_ & Hlo & Hmin).
      * assert (cmp_le key_cmp (l, s, id') (leaf, seq, id)) as Hle
          by (apply Hmin; by rewrite ?elem_of_sorted_elements).
        pose proof (slot_between (l, s, id') (leaf, seq) "" id Hlo Hle) as [= -> ->].
        by rewrite !N.eqb_refl.
      * intros x. unfold cmp_le. by rewrite (cmp_refl key_cmp).
      * apply sort_by_sorted, _.
    + destruct (filter _ _); [by apply not_elem_of_nil in Hf|done].
Qed.

Definition slot_seen (seen : TextReceiveState) (leaf seq : N) : Prop :=
  ∃ id, (leaf, seq, id) ∈ seen.

Lemma accept_cases seen e :
  (slot_seen seen (te_sender_leaf e) (te_sequence e) ∧
   accept seen e = (seen, Err (TextReceiveReplay (te_sender_leaf e) (te_sequence e)))) ∨
  (¬ slot_seen seen (te_sender_leaf e) (te_sequence e) ∧
   accept seen e =
     ({[(te_sender_leaf e, te_sequence e, te_message_id e)]} ∪ seen, Ok tt)).
Proof.
  unfold accept, slot_seen. rewrite <- first_from_slot.
  match goal with |- context [if ?b then _ else _] => destruct b end; auto.
Qed.

Lemma slot_seen_insert seen leaf seq id :
  slot_seen ({[(leaf, seq, id)]} ∪ seen) leaf seq.
Proof. exists id. set_solver. Qed.

(** ** One receive *)

Section receive_facts.
Context `{Sha256, Ed25519, Aes256Gcm, Chrono}.
Context {S E : Type} `{!TextRecipientStore S, !TextReceiveEventSink E}.
Implicit Types p : TextInboundPipeline S E.

Lemma admit_envelope_ok request vk :
  admit_envelope request vk = Ok tt ↔
  envelope_verify (ir_envelope request) (ir_group_id request) vk = Ok tt ∧
  te_epoch (ir_envelope request) = ir_current_epoch request ∧
  te_sender_leaf (ir_envelope request) ∈ ir_authorized_sender_leaves request.
Proof.
  unfold admit_envelope. destruct (envelope_verify _ _ _) as [[]|]; simpl; [|naive_solver].
  unfold reject_if.
  destruct (N.ltb_spec (te_epoch (ir_envelope request)) (ir_current_epoch request)); simpl;
    [split; intros; [done|lia]|].
  destruct (N.ltb_spec (ir_current_epoch request) (te_epoch (ir_envelope request))); simpl;
    [split; intros; [done|lia]|].
  case_bool_decide; simpl; split; intros; try done; [|naive_solver].
  split_and!; [done|lia|done].
Qed.

(** What a receive does to the replay state: nothing when a guard or the replay check
    rejects, otherwise the slot is recorded, whatever happens afterwards. *)
Lemma receive_inner_state clock p request secret vk p' r :
  receive_inner clock p request secret vk = (p', r) →
  let e := ir_envelope request in
  (p' = p ∧ ∃ err, r = Err err ∧ admit_envelope request vk = Err err) ∨
  (p' = p ∧ admit_envelope request vk = Ok tt ∧
    slot_seen (ip_state p) (te_sender_leaf e) (te_sequence e) ∧
    r = Err (TextReceiveReplay (te_sender_leaf e) (te_sequence e))) ∨
  (admit_envelope request vk = Ok tt ∧
    ¬ slot_seen (ip_state p) (te_sender_leaf e) (te_sequence e) ∧
    ip_state p' = {[(te_sender_leaf e, te_sequence e, te_message_id e)]} ∪ ip_state p ∧
    ip_store p' =
      (persist_received (ip_store p)
        {| rv_channel_id := ir_channel_id request; rv_envelope := e;
           rv_received_at_ms := ir_received_at_ms request |}).1 ∧
    ∀ m, r = Ok m → rd_sender_leaf m = te_sender_leaf e ∧ rd_sequence m = te_sequence e).
Proof.
  unfold receive_inner. intros Hr. simpl.
  destruct (admit_envelope request vk) as [[]|err] eqn:Ha; [|left; naive_solver].
  right. destruct (accept_cases (ip_state p) (ir_envelope request)) as [[Hs Hacc]|[Hs Hacc]];
    rewrite Hacc in Hr; simpl in Hr.
  - left. destruct p; simpl in *. naive_solver.
  - right. destruct (persist_received _ _) as [store [[]|]]; simplify_eq/=; [|naive_solver].
    destruct (render _ _ _); simplify_eq/=; [|naive_solver].
    destruct (emit_text_receive_event _ _) as [ev [[]|]]; naive_solver.
Qed.

Lemma receive_result clock p request secret vk :
  (receive clock p request secret vk).2 = (receive_inner clock p request secret vk).2 ∧
  ip_state (receive clock p request secret vk).1 =
    ip_state (receive_inner clock p request secret vk).1 ∧
  ip_store (receive clock p request secret vk).1 =
    ip_store (receive_inner clock p request secret vk).1.
Proof.
  unfold receive. destruct (receive_inner _ _ _ _ _) as [p' [m|err]]; simpl; [done|].
  by destruct (emit_text_receive_event _ _).
Qed.

Lemma receive_fresh clock p request secret vk store' ev' state :
  let e := ir_envelope request in
  let entry := {| rv_channel_id := ir_channel_id request; rv_envelope := e;
                  rv_received_at_ms := ir_received_at_ms request |} in
  admit_envelope request vk = Ok tt →
  ¬ slot_seen (ip_state p) (te_sender_leaf e) (te_sequence e) →
  persist_received (ip_store p) entry = (store', Ok tt) →
  render clock request secret = Ok state →
  emit_text_receive_event (ip_events p) (receive_event_updated (te_message_id e)) = (ev', Ok tt) →
  receive clock p request secret vk =
    ({| ip_state := {[(te_sender_leaf e, te_sequence e, te_message_id e)]} ∪ ip_state p;
        ip_store := store'; ip_events := ev' |},
     Ok {| rd_message_id := te_message_id e; rd_sender_leaf := te_sender_leaf e;
           rd_sequence := te_sequence e; rd_state := state |}).
Proof.
  intros e entry Ha Hs Hp Hr He. unfold receive, receive_inner. fold e. rewrite Ha.
  destruct (accept_cases (ip_state p) e) as [[? _]|[_ Hacc]]; [done|]. rewrite Hacc; simpl.
  fold entry. rewrite Hp, Hr; simpl. by rewrite He.
Qed.
End receive_facts.

(** ** Opening what was sealed *)

Section seal_open.
Context `{Sha256, Ed25519, !Ed25519Laws, Aes256Gcm, !Aes256GcmLaws, Chrono}.

Lemma decrypt_encrypt key nonce aad plaintext ct :
  encrypt_text_plaintext key nonce aad plaintext = Ok ct →
  decrypt_text_ciphertext key nonce aad ct = Ok plaintext.
Proof.
  unfold encrypt_text_plaintext, decrypt_text_ciphertext.
  destruct (gcm_new key) as [c|]; simpl; [|done].
  destruct (gcm_encrypt c nonce aad plaintext) as [ct'|] eqn:He; simpl; [|done].
  intros [= <-]. by rewrite (gcm_decrypt_encrypt _ _ _ _ _ He).
Qed.

Lemma seal_open clock request route secret k e :
  seal request route secret k = Ok e →
  envelope_verify e (or_group_id request) (vk_of k) = Ok tt ∧
  te_epoch e = or_epoch request ∧ te_sender_leaf e = or_sender_leaf request ∧
  te_sequence e = or_sequence request ∧ te_message_id e = or_message_id request ∧
  decrypt_text_envelope clock (or_group_id request) secret e = Ok (or_plaintext request).
Proof.
  unfold seal. intros Hs.
  destruct (reject_if _ _) in Hs; simpl in Hs; [|done].
  destruct (text_message_encryption_aad request) as [aad|] eqn:Haad; simpl in Hs; [|done].
  destruct (encrypt_text_plaintext _ _ _ _) as [ct|] eqn:Hct; simpl in Hs; [|done].
  pose proof (envelope_sign_verify _ _ _ _ Hs) as Hv.
  apply envelope_sign_ok in Hs
    as (c & Hc & _ & _ & Hg & Hep & Hl & Hd & Hq & Hm & Hr & Hx); simpl in *.
  split_and!; [done..|]. unfold decrypt_text_envelope.
  rewrite Hep, Hl, Hd, Hq, Hm, Hr, Hx.
  unfold text_message_encryption_aad in *; simpl in *. rewrite Hc in *; simpl in *.
  injection Haad as <-. by apply decrypt_encrypt.
Qed.
End seal_open.

(** ** Sequences of receives *)

Section receive_runs.
Context `{Sha256, Ed25519, Aes256Gcm, Chrono}.
Context {S E : Type} `{!TextRecipientStore S, !TextReceiveEventSink E}.

(** One call: the clock, the request, the exporter secret and the sender's key. *)
Record ReceiveCall := {
  rc_clock : datetime;
  rc_request : TextInboundRequest;
  rc_secret : bytes;
  rc_key : verifying_key
}.

(** Run the calls in order and collect the rendered messages. *)
Fixpoint receive_all (p : TextInboundPipeline S E) (calls : list ReceiveCall) :
    TextInboundPipeline S E * list TextRenderableMessage :=
  match calls with
  | [] => (p, [])
  | c :: calls' =>
      let '(p1, r) := receive (rc_clock c) p (rc_request c) (rc_secret c) (rc_key c) in
      let '(p2, ms) := receive_all p1 calls' in
      (p2, match r with Ok m => m :: ms | Err _ => ms end)
  end.

Definition message_slot (m : TextRenderableMessage) : N * N := (rd_sender_leaf m, rd_sequence m).

(** A receive never forgets a slot, and renders only a slot it had not recorded. *)
Lemma receive_slots clock p request secret vk p' r :
  receive clock p request secret vk = (p', r) →
  (∀ leaf seq, slot_seen (ip_state p) leaf seq → slot_seen (ip_state p') leaf seq) ∧
  (∀ m, r = Ok m → ¬ slot_seen (ip_state p) (rd_sender_leaf m) (rd_sequence m) ∧
                   slot_seen (ip_state p') (rd_sender_leaf m) (rd_sequence m)).
Proof.
  intros Hr. destruct (receive_result clock p request secret vk) as (Hres & Hst & _).
  rewrite Hr in Hres, Hst; simpl in Hres, Hst. rewrite Hst. subst r.
  destruct (receive_inner clock p request secret vk) as [p1 r1] eqn:Hi; simpl.
  apply receive_inner_state in Hi; simpl in Hi.
  destruct Hi as [(-> & err & -> & _)|[(-> & _ & _ & ->)|(_ & Hf & -> & _ & Hm)]];
    [done..|]. split.
  - intros leaf seq [id Hid]. exists id. set_solver.
  - intros m Hm1. destruct (Hm m Hm1) as [-> ->]. split; [done|]. apply slot_seen_insert.
Qed.

Lemma receive_all_fresh p calls p' ms :
  receive_all p calls = (p', ms) →
  NoDup (message_slot <$> ms) ∧
  (∀ m, m ∈ ms → ¬ slot_seen (ip_state p) (rd_sender_leaf m) (rd_sequence m)).
Proof.
  revert p ms. induction calls as [|c calls IH]; intros p ms; simpl.
  - intros [= <- <-]. split; [constructor|]. intros m []%not_elem_of_nil.
  - destruct (receive _ _ _ _ _) as [p1 r] eqn:Hr.
    destruct (receive_all p1 calls) as [p2 ms'] eqn:Hall. intros [= <- <-].
    apply receive_slots in Hr as [Hkeep Hnew]. apply IH in Hall as [Hnd Hfresh].
    assert (∀ m, m ∈ ms' → ¬ slot_seen (ip_state p) (rd_sender_leaf m) (rd_sequence m))
      as Hold by (intros m Hm Hs; by apply (Hfresh m Hm), Hkeep).
    destruct r as [m|err]; [|done]. destruct (Hnew m eq_refl) as [Hm1 Hm2]. split.
    + csimpl. constructor; [|done]. intros (m' & Heq & Hm')%list_elem_of_fmap.
      apply (Hfresh m' Hm'). unfold message_slot in Heq. injection Heq as <- <-. done.
    + intros m' [->|Hm']%elem_of_cons; [done|by apply Hold].
Qed.
End receive_runs.

(** ** Claims *)

(** C4. End to end: the plaintext of a sent message is what its recipient renders.
    Over any adapters, if a send succeeds, then a recipient of the same group and epoch
    who holds the exporter secret and the sender's key, counts the sender as a member, has
    not seen the slot and is allowed to decrypt, renders exactly the sent plaintext under
    its id and slot, and from then on every envelope for that slot is refused as a replay. *)
Theorem send_then_receive `{Sha256, Ed25519, !Ed25519Laws, Aes256Gcm, !Aes256GcmLaws, Chrono}
    {L T E S F : Type} `{!TextAuthorLogStore L, !TextOutboundTransport T, !TextSendEventSink E,
      !TextRecipientStore S, !TextReceiveEventSink F}
    (p : TextOutboundPipeline L T E) request route secret k p' receipt
    clock (q : TextInboundPipeline S F) channel members at_ms store' ev' :
  send p request route secret k = (p', Ok receipt) →
  or_sender_leaf request ∈ members →
  ¬ slot_seen (ip_state q) (or_sender_leaf request) (or_sequence request) →
  let e := sr_envelope receipt in
  let inbound := {| ir_group_id := or_group_id request; ir_channel_id := channel;
                    ir_current_epoch := or_epoch request;
                    ir_authorized_sender_leaves := members; ir_envelope := e;
                    ir_received_at_ms := at_ms; ir_retention_allows_decrypt := true |} in
  persist_received (ip_store q)
    {| rv_channel_id := channel; rv_envelope := e; rv_received_at_ms := at_ms |} =
    (store', Ok tt) →
  emit_text_receive_event (ip_events q) (receive_event_updated (or_message_id request)) =
    (ev', Ok tt) →
  ∃ q', receive clock q inbound secret (vk_of k) =
      (q', Ok {| rd_message_id := or_message_id request;
                 rd_sender_leaf := or_sender_leaf request; rd_sequence := or_sequence request;
                 rd_state := Decrypted (or_plaintext request) |}) ∧
    ∀ e', te_sender_leaf e' = or_sender_leaf request → te_sequence e' = or_sequence request →
      (accept (ip_state q') e').2 =
        Err (TextReceiveReplay (or_sender_leaf request) (or_sequence request)).
Proof.
  intros Hsend Hmem Hfresh e inbound Hper Hemit.
  destruct (send_log_transport p request route secret k) as (_ & _ & Hres).
  rewrite Hsend in Hres. destruct (send_inner _ _ _ _ _) as [p1 r1] eqn:Hi.
  simpl in Hres. subst r1. apply send_inner_ok in Hi.
  destruct (seal_open clock _ _ _ _ _ Hi) as (Hv & Hep & Hl & Hq & Hm & Hd).
  fold e in Hv, Hep, Hl, Hq, Hm, Hd.
  pose proof (receive_fresh clock q inbound secret (vk_of k) store' ev'
    (Decrypted (or_plaintext request))) as Hr. cbv zeta in Hr.
  change (ir_envelope inbound) with e in Hr. rewrite Hl, Hq, Hm in Hr.
  eexists. split.
  - apply Hr; [|done|done| |done]; clear Hr.
    + apply admit_envelope_ok; simpl. by rewrite Hl.
    + unfold render. simpl. by rewrite Hd.
  - intros e' Hl' Hq'. destruct (accept_cases
      ({[(or_sender_leaf request, or_sequence request, or_message_id request)]} ∪ ip_state q) e')
      as [[_ Ha]|[Hn _]]; rewrite Hl', Hq' in *; [by apply (f_equal snd) in Ha|].
    destruct Hn. apply slot_seen_insert.
Qed.

(** C5. At most once: however calls interleave, retry or repeat, and whatever the store,
    the sink and the keys do, no two messages rendered by one inbound pipeline share a
    sender leaf and sequence, and none reuses a slot recorded before. *)
Theorem receive_at_most_once `{Sha256, Ed25519, Aes256Gcm, Chrono} {S E : Type}
    `{!TextRecipientStore S, !TextReceiveEventSink E} (p : TextInboundPipeline S E) calls :
  NoDup (message_slot <$> (receive_all p calls).2) ∧
  (∀ m, m ∈ (receive_all p calls).2 →
    ¬ slot_seen (ip_state p) (rd_sender_leaf m) (rd_sequence m)).
Proof.
  destruct (receive_all p calls) as [p' ms] eqn:Hr. by apply (receive_all_fresh p calls p').
Qed.

(** A failed write loses the message. When an admissible fresh envelope cannot be
    persisted, the receive reports the store's error but has already recorded the slot, so
    redelivering the same envelope, even to a working store, is refused as a replay. *)
Theorem persist_failure_burns_the_slot `{Sha256, Ed25519, Aes256Gcm, Chrono} {S E : Type}
    `{!TextRecipientStore S, !TextReceiveEventSink E} clock (p : TextInboundPipeline S E)
    request secret vk store' err :
  let e := ir_envelope request in
  admit_envelope request vk = Ok tt →
  ¬ slot_seen (ip_state p) (te_sender_leaf e) (te_sequence e) →
  persist_received (ip_store p)
    {| rv_channel_id := ir_channel_id request; rv_envelope := e;
       rv_received_at_ms := ir_received_at_ms request |} = (store', Err err) →
  ∃ p', receive clock p request secret vk = (p', Err err) ∧
    ∀ clock' working events,
      (receive clock' {| ip_state := ip_state p'; ip_store := working; ip_events := events |}
         request secret vk).2 =
      Err (TextReceiveReplay (te_sender_leaf e) (te_sequence e)).
Proof.
  intros e Ha Hf Hp. unfold receive at 1, receive_inner. fold e. rewrite Ha.
  destruct (accept_cases (ip_state p) e) as [[? _]|[_ Hacc]]; [done|].
  rewrite Hacc; simpl. rewrite Hp; simpl.
  destruct (emit_text_receive_event _ _) as [ev rr].
  eexists. split; [done|]. intros clock' working events. simpl.
  destruct (receive_result clock'
    {| ip_state := {[(te_sender_leaf e, te_sequence e, te_message_id e)]} ∪ ip_state p;
       ip_store := working; ip_events := events |} request secret vk) as [-> _].
  destruct (receive_inner _ _ _ _ _) as [p' r] eqn:Hi.
  apply receive_inner_state in Hi; simpl in Hi. fold e in Hi.
  destruct Hi as [(_ & err' & _ & Ha')|[(_ & _ & _ & ->)|(_ & Hn & _)]]; [congruence|done|].
  destruct Hn. apply slot_seen_insert.
Qed.

Section witnesses.
#[local] Existing Instance Toy.toy_sha.
#[local] Existing Instance Toy.toy_ed.
#[local] Existing Instance Toy.toy_ed_laws.
#[local] Existing Instance Toy.toy_aead.
#[local] Existing Instance Toy.toy_aead_laws.
#[local] Existing Instance Toy.toy_chrono.

Definition t0 : @datetime Toy.toy_chrono := 0%Z.

Definition empty_inbox : TextInboundPipeline InMemoryTextRecipientStore InMemoryTextReceiveEvents :=
  {| ip_state := ∅; ip_store := {| ms_entries := [] |}; ip_events := {| mr_events := [] |} |}.

Lemma slot_seen_empty leaf seq : ¬ slot_seen ∅ leaf seq.
Proof. intros [id []%not_elem_of_empty]. Qed.

Definition sent := send idle a_request a_route [9] Toy.alice.
Definition sent_envelope : TextMessageEnvelope :=
  match sent.2 with Ok receipt => sr_envelope receipt | Err _ => an_envelope end.

Lemma send_then_receive_witness :
  ∃ p' receipt q' inbound, send idle a_request a_route [9] Toy.alice = (p', Ok receipt) ∧
    receive t0 empty_inbox inbound [9] Toy.alice =
      (q', Ok {| rd_message_id := "m1"; rd_sender_leaf := 2; rd_sequence := 1;
                 rd_state := Decrypted [104; 105] |}).
Proof.
  assert (is_ok sent.2 = true) as Hok by (vm_compute; reflexivity).
  unfold sent in Hok. destruct (send idle a_request a_route [9] Toy.alice)
    as [p' [receipt|]] eqn:Hs; [|discriminate Hok].
  destruct (send_then_receive idle a_request a_route [9] Toy.alice p' receipt t0 empty_inbox
    "c" {[2]} 7 {| ms_entries := [{| rv_channel_id := "c"; rv_envelope := sr_envelope receipt;
      rv_received_at_ms := 7 |}] |} {| mr_events := [receive_event_updated "m1"] |} Hs)
    as (q' & Hq & _).
  - apply elem_of_singleton. reflexivity.
  - apply slot_seen_empty.
  - reflexivity.
  - reflexivity.
  - eexists p', receipt, q', _. split; [reflexivity|exact Hq].
Defined.

(** A store that is full. *)
Definition full_store : TextRecipientStore unit :=
  λ s _, (s, Err (TextOutboundAdapter "disk full")).
#[local] Existing Instance full_store.

Definition a_inbound : TextInboundRequest :=
  {| ir_group_id := "g"; ir_channel_id := "c"; ir_current_epoch := 3;
     ir_authorized_sender_leaves := {[2]}; ir_envelope := sent_envelope; ir_received_at_ms := 7;
     ir_retention_allows_decrypt := true |}.

Lemma persist_failure_burns_the_slot_witness :
  ∃ p', receive t0
      {| ip_state := ∅; ip_store := tt; ip_events := {| mr_events := [] |} |} a_inbound [9]
      Toy.alice = (p', Err (TextOutboundAdapter "disk full")) ∧
    ∀ clock' working events,
      (receive clock' {| ip_state := ip_state p'; ip_store := working; ip_events := events |}
         a_inbound [9] Toy.alice).2 =
      Err (TextReceiveReplay (te_sender_leaf sent_envelope) (te_sequence sent_envelope)).
Proof.
  apply (persist_failure_burns_the_slot t0
    {| ip_state := ∅; ip_store := tt; ip_events := {| mr_events := [] |} |} a_inbound [9]
    (vk_of Toy.alice) tt (TextOutboundAdapter "disk full")).
  - vm_compute. reflexivity.
  - apply slot_seen_empty.
  - reflexivity.
Defined.
End witnesses.
