(* ===== verification/TextHistory.v ===== *)
(** * Merging replicated text history (crates/mls-delivery/src/lib.rs)

    [TextHistoryMergeState]: the author log keyed by (leaf, sequence), its message
    index, and the bounded cache of received ciphertexts. *)

From S2P Require Import Prelude Collections Bytes TextEnvelope TextSend TextReceive.

Record TextAuthorLogSlot := { sl_sender_leaf : N; sl_sequence : N }.

Definition slot_pair (s : TextAuthorLogSlot) : N * N := (sl_sender_leaf s, sl_sequence s).

#[export] Instance TextAuthorLogSlot_eq_dec : EqDecision TextAuthorLogSlot.
Proof. solve_decision. Defined.
#[export] Instance TextAuthorLogSlot_countable : Countable TextAuthorLogSlot.
Proof.
  refine (inj_countable' slot_pair (λ p, {| sl_sender_leaf := p.1; sl_sequence := p.2 |}) _).
  by intros [].
Defined.

(** The derived [Ord]: fields in order. *)
#[export] Instance TextAuthorLogSlot_ord_key : OrdKey TextAuthorLogSlot :=
  cmp_by slot_pair key_cmp.

Definition slot_of (e : TextMessageEnvelope) : TextAuthorLogSlot :=
  {| sl_sender_leaf := te_sender_leaf e; sl_sequence := te_sequence e |}.

Inductive TextHistoryMergeEventKind :=
| Inserted
| DuplicateSuppressed
| RepairRequested
| RecipientCacheEvicted.

Record TextHistoryMergeEvent := {
  he_kind : TextHistoryMergeEventKind;
  he_message_id : string;
  he_sender_leaf : N;
  he_sequence : N;
  he_detail : string
}.

Definition history_event (kind : TextHistoryMergeEventKind) (e : TextMessageEnvelope)
    (detail : string) : TextHistoryMergeEvent :=
  {| he_kind := kind; he_message_id := te_message_id e; he_sender_leaf := te_sender_leaf e;
     he_sequence := te_sequence e; he_detail := detail |}.

Definition event_inserted (e : TextMessageEnvelope) : TextHistoryMergeEvent :=
  history_event Inserted e "accepted into causal history".

Definition event_duplicate (e : TextMessageEnvelope) : TextHistoryMergeEvent :=
  history_event DuplicateSuppressed e "exact signed envelope duplicate suppressed".

Definition event_repair (e : TextMessageEnvelope) (detail : string) : TextHistoryMergeEvent :=
  history_event RepairRequested e detail.

Definition event_evicted (entry : TextReceivedEnvelope) : TextHistoryMergeEvent :=
  history_event RecipientCacheEvicted (rv_envelope entry)
    "evicted oldest recipient ciphertext cache entry".

Record TextHistoryMergeReport := {
  hr_inserted : nat;
  hr_duplicates_suppressed : nat;
  hr_repair_events : nat;
  hr_evicted_from_recipient_cache : nat;
  hr_events : list TextHistoryMergeEvent
}.

Definition report_default : TextHistoryMergeReport :=
  {| hr_inserted := 0; hr_duplicates_suppressed := 0; hr_repair_events := 0;
     hr_evicted_from_recipient_cache := 0; hr_events := [] |}.

Definition report_push (r : TextHistoryMergeReport) (e : TextHistoryMergeEvent) :
    TextHistoryMergeReport :=
  let bump (k : TextHistoryMergeEventKind) (n : nat) :=
    match k, he_kind e with
    | Inserted, Inserted | DuplicateSuppressed, DuplicateSuppressed
    | RepairRequested, RepairRequested | RecipientCacheEvicted, RecipientCacheEvicted => S n
    | _, _ => n
    end in
  {| hr_inserted := bump Inserted (hr_inserted r);
     hr_duplicates_suppressed := bump DuplicateSuppressed (hr_duplicates_suppressed r);
     hr_repair_events := bump RepairRequested (hr_repair_events r);
     hr_evicted_from_recipient_cache :=
       bump RecipientCacheEvicted (hr_evicted_from_recipient_cache r);
     hr_events := hr_events r ++ [e] |}.

Record TextHistoryMergeState := {
  hs_author_log : gmap TextAuthorLogSlot TextAuthorLogEnvelope;
  hs_message_index : gmap string TextAuthorLogSlot;
  hs_recipient_cache_capacity : nat;
  hs_recipient_cache : gmap string TextReceivedEnvelope
}.

Definition with_recipient_cache_capacity (capacity : nat) : TextHistoryMergeState :=
  {| hs_author_log := ∅; hs_message_index := ∅;
     hs_recipient_cache_capacity := capacity `max` 1; hs_recipient_cache := ∅ |}.

Definition TextHistoryMergeState_default : TextHistoryMergeState :=
  with_recipient_cache_capacity 256.

(** ** Author log *)

Definition author_entry_cmp : TextAuthorLogEnvelope → TextAuthorLogEnvelope → comparison :=
  cmp_lex (cmp_by (λ x, slot_of (al_envelope x)) key_cmp)
    (cmp_lex (cmp_by (λ x, te_epoch (al_envelope x)) N.compare)
             (cmp_by (λ x, te_message_id (al_envelope x)) String.compare)).

Definition same_signed_bytes (a b : TextMessageEnvelope) : bool :=
  bool_decide (canonical_signed_bytes a = canonical_signed_bytes b).

Definition merge_one_author_entry (st : TextHistoryMergeState) (report : TextHistoryMergeReport)
    (entry : TextAuthorLogEnvelope) : TextHistoryMergeState * TextHistoryMergeReport :=
  let e := al_envelope entry in
  let slot := slot_of e in
  match hs_author_log st !! slot with
  | Some existing =>
      if same_signed_bytes (al_envelope existing) e
      then (st, report_push report (event_duplicate e))
      else (st, report_push report (event_repair e
        ("author slot fork at leaf " +:+ pretty (sl_sender_leaf slot) +:+ " sequence " +:+ pretty (sl_sequence slot) +:+
         "; kept " +:+ te_message_id (al_envelope existing) +:+ ", rejected " +:+
         te_message_id e)))
  | None =>
      match hs_message_index st !! te_message_id e with
      | Some existing_slot =>
          (st, report_push report (event_repair e
            ("message id reused in slot " +:+ pretty (sl_sender_leaf existing_slot) +:+ ":" +:+
             pretty (sl_sequence existing_slot) +:+ ", rejected slot " +:+ pretty (sl_sender_leaf slot) +:+ ":" +:+
             pretty (sl_sequence slot))))
      | None =>
          ({| hs_author_log := <[slot := entry]> (hs_author_log st);
              hs_message_index := <[te_message_id e := slot]> (hs_message_index st);
              hs_recipient_cache_capacity := hs_recipient_cache_capacity st;
              hs_recipient_cache := hs_recipient_cache st |},
           report_push report (event_inserted e))
      end
  end.

(** [for entry in entries { self.step(entry, &mut report) }] *)
Definition fold_entries {X}
    (step : TextHistoryMergeState → TextHistoryMergeReport → X →
            TextHistoryMergeState * TextHistoryMergeReport)
    (st : TextHistoryMergeState) (report : TextHistoryMergeReport) (entries : list X) :
    TextHistoryMergeState * TextHistoryMergeReport :=
  foldl (λ acc entry, step acc.1 acc.2 entry) (st, report) entries.

Definition merge_author_log (st : TextHistoryMergeState) (entries : list TextAuthorLogEnvelope) :
    TextHistoryMergeState * TextHistoryMergeReport :=
  fold_entries merge_one_author_entry st report_default (sort_by author_entry_cmp entries).

(** ** Recipient cache *)

(** The key [(received_at_ms, message_id)]. *)
Definition received_cmp : TextReceivedEnvelope → TextReceivedEnvelope → comparison :=
  cmp_by (λ x, (rv_received_at_ms x, te_message_id (rv_envelope x))) key_cmp.

Definition with_cache (st : TextHistoryMergeState) (cache : gmap string TextReceivedEnvelope) :
    TextHistoryMergeState :=
  {| hs_author_log := hs_author_log st; hs_message_index := hs_message_index st;
     hs_recipient_cache_capacity := hs_recipient_cache_capacity st;
     hs_recipient_cache := cache |}.

(** The [while] loop, for at most [fuel] rounds. *)
Fixpoint evict_loop (fuel capacity : nat) (cache : gmap string TextReceivedEnvelope)
    (report : TextHistoryMergeReport) :
    gmap string TextReceivedEnvelope * TextHistoryMergeReport :=
  match fuel with
  | O => (cache, report)
  | S fuel' =>
      if (capacity <? size cache)%nat then
        match min_by received_cmp (values cache) with
        | None => (cache, report)
        | Some oldest =>
            let evict_id := te_message_id (rv_envelope oldest) in
            match cache !! evict_id with
            | Some evicted =>
                evict_loop fuel' capacity (delete evict_id cache)
                  (report_push report (event_evicted evicted))
            | None => evict_loop fuel' capacity cache report
            end
        end
      else (cache, report)
  end.

Definition evict_recipient_cache (st : TextHistoryMergeState) (report : TextHistoryMergeReport) :
    TextHistoryMergeState * TextHistoryMergeReport :=
  let '(cache, report') :=
    evict_loop (size (hs_recipient_cache st)) (hs_recipient_cache_capacity st)
      (hs_recipient_cache st) report in
  (with_cache st cache, report').

Definition cache_one_received (st : TextHistoryMergeState) (report : TextHistoryMergeReport)
    (entry : TextReceivedEnvelope) : TextHistoryMergeState * TextHistoryMergeReport :=
  let e := rv_envelope entry in
  match hs_recipient_cache st !! te_message_id e with
  | Some existing =>
      if same_signed_bytes (rv_envelope existing) e
      then (st, report_push report (event_duplicate e))
      else (st, report_push report
        (event_repair e "recipient cache message-id fork; kept existing ciphertext"))
  | None =>
      evict_recipient_cache
        (with_cache st (<[te_message_id e := entry]> (hs_recipient_cache st)))
        (report_push report (event_inserted e))
  end.

Definition merge_received_cache (st : TextHistoryMergeState) (entries : list TextReceivedEnvelope) :
    TextHistoryMergeState * TextHistoryMergeReport :=
  fold_entries cache_one_received st report_default (sort_by received_cmp entries).

Definition author_log_snapshot (st : TextHistoryMergeState) : list TextAuthorLogEnvelope :=
  values (hs_author_log st).

Definition recipient_cache_snapshot (st : TextHistoryMergeState) : list TextReceivedEnvelope :=
  sort_by received_cmp (values (hs_recipient_cache st)).

(** ** Well-formed states *)

Record history_wf (st : TextHistoryMergeState) : Prop := {
  hw_log slot x : hs_author_log st !! slot = Some x →
    slot_of (al_envelope x) = slot ∧
    hs_message_index st !! te_message_id (al_envelope x) = Some slot;
  hw_index id slot : hs_message_index st !! id = Some slot →
    ∃ x, hs_author_log st !! slot = Some x ∧ te_message_id (al_envelope x) = id;
  hw_cache id x : hs_recipient_cache st !! id = Some x → te_message_id (rv_envelope x) = id;
  hw_capacity : (1 ≤ hs_recipient_cache_capacity st)%nat;
  hw_bound : (size (hs_recipient_cache st) ≤ hs_recipient_cache_capacity st)%nat
}.

Lemma history_wf_init capacity : history_wf (with_recipient_cache_capacity capacity).
Proof.
  split; simpl; try lia; try (intros ??; rewrite lookup_empty; done).
  rewrite map_size_empty. lia.
Qed.

Lemma merge_one_wf st report x :
  history_wf st → history_wf (merge_one_author_entry st report x).1.
Proof.
  intros Hw. unfold merge_one_author_entry.
  destruct (hs_author_log st !! _) as [y|] eqn:Hl; [by case_match|].
  destruct (hs_message_index st !! _) as [s|] eqn:Hi; [done|]. simpl.
  split; simpl; [| |apply Hw..].
  - intros slot z [[<- <-]|[Hne Hz]]%lookup_insert_Some; [by rewrite lookup_insert_eq|].
    destruct (hw_log _ Hw _ _ Hz) as [-> Hz']. split; [done|].
    rewrite lookup_insert_ne; [done|]. intros Heq. rewrite Heq in Hi. by rewrite Hi in Hz'.
  - intros id slot [[<- <-]|[Hne Hs]]%lookup_insert_Some.
    + exists x. by rewrite lookup_insert_eq.
    + destruct (hw_index _ Hw _ _ Hs) as (z & Hz & Hid). exists z. split; [|done].
      rewrite lookup_insert_ne; [done|]. intros Heq. rewrite Heq in Hl. by rewrite Hl in Hz.
Qed.

(** *** Eviction *)

Lemma received_cmp_time x y :
  received_cmp x y ≠ Gt → rv_received_at_ms x ≤ rv_received_at_ms y.
Proof.
  unfold received_cmp, cmp_by, key_cmp, prod_ord_key, cmp_lex, cmp_by; simpl.
  unfold key_cmp, N_ord_key. destruct (N.compare_spec (rv_received_at_ms x) (rv_received_at_ms y));
    simpl; intros ?; done || lia.
Qed.

Definition cache_wf (cache : gmap string TextReceivedEnvelope) : Prop :=
  ∀ id x, cache !! id = Some x → te_message_id (rv_envelope x) = id.

Lemma evict_loop_spec fuel capacity cache report cache' report' :
  cache_wf cache → (size cache - capacity ≤ fuel)%nat →
  evict_loop fuel capacity cache report = (cache', report') →
  cache' ⊆ cache ∧ size cache' = (size cache `min` capacity)%nat ∧
  (∀ id x y, cache !! id = Some x → cache' !! id = None → y ∈ values cache' →
     received_cmp x y ≠ Gt).
Proof.
  revert cache report. induction fuel as [|fuel IH]; intros cache report Hw Hf; simpl.
  - intros [= <- <-]. split_and!; [done|lia|]. intros id x y Hx Hn. congruence.
  - destruct (Nat.ltb_spec capacity (size cache)) as [Hlt|Hge]; simpl.
    2:{ intros [= <- <-]. split_and!; [done|lia|]. intros id x y Hx Hn. congruence. }
    destruct (min_by received_cmp (values cache)) as [m|] eqn:Hm.
    2:{ destruct (values cache) eqn:Hv; [|done].
        pose proof (length_values cache) as Hlen. rewrite Hv in Hlen. simpl in Hlen. lia. }
    apply min_by_spec in Hm as [Hin Hmin]; [|unfold received_cmp; apply _].
    apply elem_of_values in Hin as [id0 Hid0]. rewrite (Hw _ _ Hid0), Hid0.
    intros Hr. pose proof (map_size_delete_Some id0 cache (ex_intro _ m Hid0)) as Hsz.
    apply IH in Hr as (Hsub & Hsize & Hold).
    + split_and!; [etrans; [done|apply delete_subseteq]|lia|].
      intros id x y Hx Hn Hy. destruct (decide (id = id0)) as [->|Hne].
      * assert (x = m) as -> by congruence. apply Hmin.
        apply elem_of_values in Hy as [id' Hid']. apply elem_of_values. exists id'.
        eapply lookup_weaken; [exact Hid'|]. etrans; [exact Hsub|apply delete_subseteq].
      * apply (Hold id x y); [by rewrite lookup_delete_ne|done..].
    + intros id x [_ Hx]%lookup_delete_Some. by apply Hw.
    + lia.
Qed.

Lemma cache_one_wf st report x :
  history_wf st → history_wf (cache_one_received st report x).1.
Proof.
  intros Hw. unfold cache_one_received.
  destruct (hs_recipient_cache st !! _) as [y|] eqn:Hc; [by case_match|].
  unfold evict_recipient_cache. simpl hs_recipient_cache. simpl hs_recipient_cache_capacity.
  set (cache := <[_ := x]> (hs_recipient_cache st)).
  assert (cache_wf cache) as Hcw.
  { intros id z [[<- <-]|[_ Hz]]%lookup_insert_Some; [done|by apply (hw_cache _ Hw)]. }
  destruct (evict_loop _ _ _ _) as [cache' report'] eqn:He.
  apply evict_loop_spec in He as (Hsub & Hsize & _); [|done|lia].
  split; simpl; [apply Hw..| |apply Hw|].
  - intros id z Hz. apply Hcw. by eapply lookup_weaken.
  - lia.
Qed.

Lemma fold_entries_inv {X} (step : _ → _ → X → TextHistoryMergeState * TextHistoryMergeReport)
    (P : TextHistoryMergeState → Prop) st report l :
  (∀ s r x, P s → P (step s r x).1) → P st → P (fold_entries step st report l).1.
Proof.
  intros Hstep. unfold fold_entries. revert st report.
  induction l as [|x l IH]; intros st report Hp; simpl; [done|].
  destruct (step st report x) as [st' report'] eqn:E.
  apply IH. change st' with (st', report').1. rewrite <- E. by apply Hstep.
Qed.

(** ** Author-log merges only add *)

Definition log_le (s t : TextHistoryMergeState) : Prop :=
  hs_author_log s ⊆ hs_author_log t ∧ hs_message_index s ⊆ hs_message_index t.

#[export] Instance log_le_preorder : PreOrder log_le.
Proof.
  split.
  - intros s. by split.
  - intros s t u [H1 H2] [H3 H4]. split; by etrans.
Qed.

Lemma merge_one_grows st report x : log_le st (merge_one_author_entry st report x).1.
Proof.
  unfold merge_one_author_entry.
  destruct (hs_author_log st !! _) as [y|] eqn:Hl; [by case_match|].
  destruct (hs_message_index st !! _) as [s|] eqn:Hi; [done|].
  split; simpl; by apply insert_subseteq.
Qed.

Lemma cache_one_keeps_log st report x :
  hs_author_log (cache_one_received st report x).1 = hs_author_log st ∧
  hs_message_index (cache_one_received st report x).1 = hs_message_index st.
Proof.
  unfold cache_one_received, evict_recipient_cache.
  destruct (hs_recipient_cache st !! _) as [y|]; [by case_match|].
  by destruct (evict_loop _ _ _ _).
Qed.

Lemma merge_author_log_grows st l : log_le st (merge_author_log st l).1.
Proof.
  apply (fold_entries_inv _ (log_le st)); [|done].
  intros s r x Hs. etrans; [exact Hs|apply merge_one_grows].
Qed.

Lemma merge_received_cache_keeps_log st l : log_le st (merge_received_cache st l).1.
Proof.
  apply (fold_entries_inv _ (log_le st)); [|done].
  intros s r x [H1 H2]. destruct (cache_one_keeps_log s r x) as [E1 E2].
  split; by rewrite ?E1, ?E2.
Qed.

(** An entry that a merge would not insert. *)
Definition settled (st : TextHistoryMergeState) (x : TextAuthorLogEnvelope) : Prop :=
  is_Some (hs_author_log st !! slot_of (al_envelope x)) ∨
  is_Some (hs_message_index st !! te_message_id (al_envelope x)).

Lemma settled_mono s t x : log_le s t → settled s x → settled t x.
Proof.
  intros [H1 H2] [[y Hy]|[y Hy]]; [left|right]; exists y; by eapply lookup_weaken.
Qed.

Lemma merge_one_settles st report x : settled (merge_one_author_entry st report x).1 x.
Proof.
  unfold merge_one_author_entry, settled.
  destruct (hs_author_log st !! _) as [y|] eqn:Hl.
  { left. case_match; simpl; rewrite Hl; eauto. }
  destruct (hs_message_index st !! _) as [s|] eqn:Hi; simpl.
  - right. rewrite Hi. eauto.
  - left. rewrite lookup_insert_eq. eauto.
Qed.

Lemma merge_one_settled st report x :
  settled st x →
  ∃ report', merge_one_author_entry st report x = (st, report') ∧
    hr_inserted report' = hr_inserted report.
Proof.
  unfold merge_one_author_entry, settled. intros Hs.
  destruct (hs_author_log st !! _) as [y|] eqn:Hl; [case_match; eauto|].
  destruct (hs_message_index st !! _) as [s|] eqn:Hi; [eauto|].
  destruct Hs as [[? [=]]|[? [=]]].
Qed.

Definition report_total (r : TextHistoryMergeReport) : nat :=
  hr_inserted r + hr_duplicates_suppressed r + hr_repair_events r.

(** Each entry is counted once, and the log grows by the inserted ones. *)
Lemma merge_one_counts st report x :
  let '(st', report') := merge_one_author_entry st report x in
  report_total report' = S (report_total report) ∧
  (size (hs_author_log st') + hr_inserted report =
   size (hs_author_log st) + hr_inserted report')%nat.
Proof.
  unfold merge_one_author_entry, report_total.
  destruct (hs_author_log st !! _) as [y|] eqn:Hl; [destruct (same_signed_bytes _ _); simpl; lia|].
  destruct (hs_message_index st !! _) as [s|] eqn:Hi; simpl; [lia|].
  rewrite map_size_insert_None by done. lia.
Qed.

Lemma fold_merge_counts st report l :
  let '(st', report') := fold_entries merge_one_author_entry st report l in
  report_total report' = (length l + report_total report)%nat ∧
  (size (hs_author_log st') + hr_inserted report =
   size (hs_author_log st) + hr_inserted report')%nat ∧
  ∀ x, x ∈ l → settled st' x.
Proof.
  unfold fold_entries. revert st report. induction l as [|x l IH]; intros st report; simpl.
  - split_and!; [done..|]. intros x []%not_elem_of_nil.
  - pose proof (merge_one_counts st report x) as Hc.
    pose proof (merge_one_settles st report x) as Hx.
    destruct (merge_one_author_entry st report x) as [st1 report1].
    specialize (IH st1 report1).
    pose proof (fold_entries_inv merge_one_author_entry (log_le st1) st1 report1 l) as Hg.
    unfold fold_entries in Hg.
    destruct (foldl _ (st1, report1) l) as [st2 report2] eqn:E.
    destruct IH as (H1 & H2 & H3). split_and!; [lia..|].
    intros y [->|Hy]%elem_of_cons; [|by apply H3].
    eapply settled_mono; [|exact Hx]. apply Hg; [|done].
    intros s r z Hs. etrans; [exact Hs|apply merge_one_grows].
Qed.

Lemma fold_merge_settled st report l :
  (∀ x, x ∈ l → settled st x) →
  ∃ report', fold_entries merge_one_author_entry st report l = (st, report') ∧
    hr_inserted report' = hr_inserted report.
Proof.
  unfold fold_entries. revert report. induction l as [|x l IH]; intros report Hs; simpl; [eauto|].
  destruct (merge_one_settled st report x) as (r1 & E & Hr); [apply Hs; by left|]. rewrite E.
  destruct (IH r1) as (r2 & E2 & Hr2); [intros; apply Hs; by right|].
  exists r2. split; [done|congruence].
Qed.

(** ** Runs of the merge service *)

Inductive MergeCall :=
| CallMergeAuthorLog (entries : list TextAuthorLogEnvelope)
| CallMergeReceivedCache (entries : list TextReceivedEnvelope).

Definition merge_call (st : TextHistoryMergeState) (c : MergeCall) : TextHistoryMergeState :=
  match c with
  | CallMergeAuthorLog l => (merge_author_log st l).1
  | CallMergeReceivedCache l => (merge_received_cache st l).1
  end.

Lemma merge_call_wf st c : history_wf st → history_wf (merge_call st c).
Proof.
  intros Hw. destruct c; simpl; unfold merge_author_log, merge_received_cache;
    apply (fold_entries_inv _ history_wf); auto using merge_one_wf, cache_one_wf.
Qed.

Lemma merge_call_grows st c : log_le st (merge_call st c).
Proof. destruct c; [apply merge_author_log_grows|apply merge_received_cache_keeps_log]. Qed.

(** ** Claims *)

(** After any sequence of merges of any batches the history is well formed: every
    logged envelope sits in its own (leaf, sequence) slot, the message index and the log
    name each other one to one, cached ciphertexts sit under their message id and never
    exceed the capacity. Later merges never replace or drop what is in the author log. *)
Theorem history_merges_are_append_only capacity calls later :
  let st := foldl merge_call (with_recipient_cache_capacity capacity) calls in
  let st' := foldl merge_call st later in
  history_wf st ∧ hs_author_log st ⊆ hs_author_log st'.
Proof.
  intros st st'. split.
  - unfold st. clear. induction calls as [|c calls IH] using rev_ind.
    + apply history_wf_init.
    + rewrite foldl_app. by apply merge_call_wf.
  - unfold st'. clear. generalize st. induction later as [|c later IH]; intros s; simpl; [done|].
    etrans; [apply (merge_call_grows s c)|apply IH].
Qed.

(** Gossip may repeat itself: merging a batch counts every entry exactly once as
    inserted, duplicate or in need of repair, the log grows by the inserted ones, and
    merging the same batch again changes nothing and inserts nothing. *)
Theorem author_merge_is_idempotent st l :
  let '(st1, r1) := merge_author_log st l in
  let '(st2, r2) := merge_author_log st1 l in
  (hr_inserted r1 + hr_duplicates_suppressed r1 + hr_repair_events r1 = length l)%nat ∧
  size (hs_author_log st1) = (size (hs_author_log st) + hr_inserted r1)%nat ∧
  st2 = st1 ∧ hr_inserted r2 = 0%nat ∧
  (hr_duplicates_suppressed r2 + hr_repair_events r2 = length l)%nat.
Proof.
  unfold merge_author_log.
  pose proof (fold_merge_counts st report_default (sort_by author_entry_cmp l)) as H1.
  destruct (fold_entries _ st _ _) as [st1 r1]. destruct H1 as (Ht & Hs & Hset).
  pose proof (fold_merge_counts st1 report_default (sort_by author_entry_cmp l)) as H2.
  destruct (fold_merge_settled st1 report_default _ Hset) as (r2 & E & Hr2).
  rewrite E in *. destruct H2 as (Ht2 & _).
  rewrite length_sort_by in Ht, Ht2. unfold report_total in *. simpl in *. split_and!; done || lia.
Qed.

(** The eviction loop ends with the cache at its bound and drops the oldest: caching
    a new ciphertext into a well-formed state leaves [min (size + 1) capacity] entries, all
    of them from the old cache or the new entry, and whatever was dropped was received no
    later than everything kept. *)
Theorem eviction_drops_the_oldest st report x :
  history_wf st →
  hs_recipient_cache st !! te_message_id (rv_envelope x) = None →
  let before := <[te_message_id (rv_envelope x) := x]> (hs_recipient_cache st) in
  let after := hs_recipient_cache (cache_one_received st report x).1 in
  after ⊆ before ∧
  size after = (S (size (hs_recipient_cache st)) `min` hs_recipient_cache_capacity st)%nat ∧
  ∀ id dropped kept, before !! id = Some dropped → after !! id = None → kept ∈ values after →
    rv_received_at_ms dropped ≤ rv_received_at_ms kept.
Proof.
  intros Hw Hn before after. unfold after, cache_one_received. rewrite Hn.
  unfold evict_recipient_cache. simpl hs_recipient_cache. simpl hs_recipient_cache_capacity.
  fold before. destruct (evict_loop _ _ _ _) as [cache report'] eqn:He. simpl.
  apply evict_loop_spec in He as (Hsub & Hsize & Hold).
  - split_and!; [done| |].
    + rewrite Hsize. unfold before. by rewrite map_size_insert_None.
    + intros id d k Hd Hnone Hk. specialize (Hold id d k Hd Hnone Hk).
      by apply received_cmp_time.
  - intros id z [[<- <-]|[_ Hz]]%lookup_insert_Some; [done|by apply (hw_cache _ Hw)].
  - lia.
Qed.

Section witnesses.
Definition small_history : TextHistoryMergeState := with_recipient_cache_capacity 1.
Definition a_received : TextReceivedEnvelope :=
  {| rv_channel_id := "c"; rv_envelope := an_envelope; rv_received_at_ms := 4 |}.

Lemma eviction_drops_the_oldest_witness :
  size (hs_recipient_cache (cache_one_received small_history report_default a_received).1) = 1%nat.
Proof.
  destruct (eviction_drops_the_oldest small_history report_default a_received) as (_ & Hs & _).
  - apply history_wf_init.
  - reflexivity.
  - rewrite Hs. reflexivity.
Defined.
End witnesses.
