(* ===== verification/Ranking.v ===== *)
(** * Relay ranking (crates/relay-overlay/src/ranking.rs)

    [slice::sort_by] is only specified for a total order, so statements about [rank]
    ask that no score is a NaN. *)

From S2P Require Import Prelude Collections F32.

Record RelayMetrics := {
  m_peer_id : string;
  m_latency_ms : N;
  m_stability : f32;
  m_battery_cost : f32;
  m_freeload_penalty : f32
}.

(** [(1000.0 / latency.max(1) as f32) + stability - battery_cost - freeload_penalty] *)
Definition score (m : RelayMetrics) : f32 :=
  f32_sub
    (f32_sub
      (f32_add (f32_div (f32_of_N 1000) (f32_of_N (N.max (m_latency_ms m) 1)))
               (m_stability m))
      (m_battery_cost m))
    (m_freeload_penalty m).

Definition compare_metrics (a b : RelayMetrics) : comparison :=
  then_with (default Eq (f32_compare (score b) (score a)))
            (String.compare (m_peer_id a) (m_peer_id b)).

Definition rank (peers : list RelayMetrics) : list RelayMetrics :=
  sort_by compare_metrics peers.

(** ** Ranking with comparable scores *)

Definition ranked_cmp : RelayMetrics → RelayMetrics → comparison :=
  cmp_lex (λ a b, f32_key_cmp (f32_key (score b)) (f32_key (score a)))
          (cmp_by m_peer_id String.compare).

#[export] Instance ranked_cmp_laws : CmpLaws ranked_cmp.
Proof.
  apply cmp_lex_laws; [|apply _]. split.
  - intros x y. apply (cmp_antisym f32_key_cmp).
  - intros x y z Hxy Hyz. by eapply (cmp_le_trans f32_key_cmp).
Qed.

Definition comparable (peers : list RelayMetrics) : bool :=
  forallb (λ m, negb (f32_is_nan (score m))) peers.

Lemma compare_metrics_ranked a b :
  f32_is_nan (score a) = false → f32_is_nan (score b) = false →
  compare_metrics a b = ranked_cmp a b.
Proof. intros Ha Hb. unfold compare_metrics. by rewrite f32_compare_key. Qed.

Lemma comparable_spec peers :
  comparable peers = true ↔ ∀ m, m ∈ peers → f32_is_nan (score m) = false.
Proof.
  unfold comparable. rewrite <- Is_true_true, forallb_True, Forall_forall.
  apply forall_proper; intros m. by destruct (f32_is_nan (score m)); naive_solver.
Qed.

Lemma comparable_elem peers m :
  comparable peers = true → m ∈ peers → f32_is_nan (score m) = false.
Proof. rewrite comparable_spec. auto. Qed.

Lemma rank_ranked peers : comparable peers = true → rank peers = sort_by ranked_cmp peers.
Proof.
  intros Hc. apply sort_by_ext. intros x y Hx Hy.
  apply compare_metrics_ranked; by eapply comparable_elem.
Qed.

Lemma elem_of_rank m peers : m ∈ rank peers ↔ m ∈ peers.
Proof. apply elem_of_sort_by. Qed.

(** ** Claims *)

(** The relay order is a function of the set of candidates: with distinct peer ids
    and no NaN score, any order of arrival gives the same ranking, in which the scores never
    increase and equal scores are ordered by peer id. *)
Theorem rank_is_deterministic peers peers' :
  peers ≡ₚ peers' → comparable peers = true → NoDup (m_peer_id <$> peers) →
  rank peers = rank peers' ∧ StronglySorted (cmp_le ranked_cmp) (rank peers) ∧
  (∀ a b, a ∈ peers → b ∈ peers → ranked_cmp a b ≠ Gt →
     f32_compare (score a) (score b) ≠ Some Lt ∧
     (f32_compare (score a) (score b) = Some Eq →
        String.compare (m_peer_id a) (m_peer_id b) ≠ Gt)).
Proof.
  intros Hp Hc Hnd.
  assert (comparable peers' = true) as Hc'
    by (apply comparable_spec; intros m; rewrite <- Hp; by apply comparable_elem).
  rewrite !rank_ranked by done. split_and!.
  - apply sort_by_unique; [apply _|done|].
    intros x y Hx Hy [_ Hid]%cmp_lex_eq_inv.
    apply (cmp_eq (cmp := String.compare)) in Hid. by eapply NoDup_fmap_inj_elem.
  - apply sort_by_sorted, _.
  - intros a b Ha Hb Hle. rewrite f32_compare_key by (by apply (comparable_elem peers)).
    unfold ranked_cmp, cmp_lex, cmp_by in Hle.
    rewrite (cmp_antisym f32_key_cmp (f32_key (score a))).
    destruct (f32_key_cmp (f32_key (score b)) (f32_key (score a))); simpl in *; done.
Qed.

Section witnesses.
Definition relay (id : string) (latency : N) : RelayMetrics :=
  {| m_peer_id := id; m_latency_ms := latency; m_stability := f32_of_N 1;
     m_battery_cost := f32_of_N 0; m_freeload_penalty := f32_of_N 0 |}.

Lemma rank_is_deterministic_witness :
  rank [relay "b" 20; relay "a" 20] = rank [relay "a" 20; relay "b" 20] ∧
  m_peer_id <$> rank [relay "b" 20; relay "a" 20] = ["a"; "b"].
Proof.
  split; [|vm_compute; reflexivity].
  apply (rank_is_deterministic [relay "b" 20; relay "a" 20] [relay "a" 20; relay "b" 20]).
  - apply perm_swap.
  - vm_compute. reflexivity.
  - apply (bool_decide_unpack _). vm_compute. exact I.
Defined.
End witnesses.
