(* ===== verification/Topology.v ===== *)
(** * Relay topology and routing (crates/relay-overlay/src/topology.rs, failover.rs)

    The local overlay graph with its fanout cap, the breadth-first route search with
    its hop cap, and rerouting around a failed peer. *)

From S2P Require Import Prelude Collections Ranking.

Definition MAX_RELAY_HOPS : nat := 3.
Definition DEFAULT_MAX_FANOUT : nat := 8.

Record RelayRoute := { rt_path : list string }.

Definition hop_count (r : RelayRoute) : nat := length (rt_path r) - 1.

Definition hop_limit_ok (hops : nat) : bool := (hops <=? MAX_RELAY_HOPS)%nat.

Definition within_hop_limit (r : RelayRoute) : bool := hop_limit_ok (hop_count r).

Definition contains_peer (r : RelayRoute) (peer_id : string) : bool :=
  bool_decide (peer_id ∈ rt_path r).

Inductive TopologyError :=
| UnknownPeer (peer : string)
| FanoutLimit (peer : string)
| NoRoute.

Record RelayTopology := {
  tp_max_hops : nat;
  tp_max_fanout : nat;
  tp_metrics : gmap string RelayMetrics;
  tp_links : gmap string (gset string)
}.

Definition RelayTopology_new (max_hops max_fanout : nat) : RelayTopology :=
  {| tp_max_hops := max_hops; tp_max_fanout := max_fanout `max` 1;
     tp_metrics := ∅; tp_links := ∅ |}.

Definition RelayTopology_default : RelayTopology :=
  RelayTopology_new MAX_RELAY_HOPS DEFAULT_MAX_FANOUT.

(** [links.get(peer)], where a missing entry has no neighbours. *)
Definition neighbors (t : RelayTopology) (peer_id : string) : gset string :=
  default ∅ (tp_links t !! peer_id).

Definition upsert_peer (t : RelayTopology) (m : RelayMetrics) : RelayTopology :=
  {| tp_max_hops := tp_max_hops t; tp_max_fanout := tp_max_fanout t;
     tp_metrics := <[m_peer_id m := m]> (tp_metrics t);
     tp_links := <[m_peer_id m := neighbors t (m_peer_id m)]> (tp_links t) |}.

Definition ensure_peer (t : RelayTopology) (peer_id : string) : result unit TopologyError :=
  if decide (is_Some (tp_metrics t !! peer_id)) then Ok tt else Err (UnknownPeer peer_id).

Definition ensure_fanout (t : RelayTopology) (peer_id other : string) : result unit TopologyError :=
  let current := size (neighbors t peer_id) in
  let already_connected := bool_decide (other ∈ neighbors t peer_id) in
  if already_connected || (current <? tp_max_fanout t)%nat
  then Ok tt else Err (FanoutLimit peer_id).

(** [links.entry(a).or_default().insert(b)] *)
Definition add_link (t : RelayTopology) (a b : string) : RelayTopology :=
  {| tp_max_hops := tp_max_hops t; tp_max_fanout := tp_max_fanout t;
     tp_metrics := tp_metrics t;
     tp_links := <[a := {[b]} ∪ neighbors t a]> (tp_links t) |}.

Definition connect (t : RelayTopology) (a b : string) :
    RelayTopology * result unit TopologyError :=
  match
    check ensure_peer t a in
    check ensure_peer t b in
    check ensure_fanout t a b in
    ensure_fanout t b a
  with
  | Err e => (t, Err e)
  | Ok _ => (add_link (add_link t a b) b a, Ok tt)
  end.

Definition peer_degree (t : RelayTopology) (peer_id : string) : option nat :=
  size <$> tp_links t !! peer_id.

Definition ranked_neighbors (t : RelayTopology) (peer_id : string) : list RelayMetrics :=
  match tp_links t !! peer_id with
  | None => []
  | Some ns => rank (omap (λ n, tp_metrics t !! n) (sorted_elements ns))
  end.

(** ** Route search *)

(** The [for neighbor in ...] loop: the route when the destination is reached,
    otherwise the extended queue and visited set. *)
Fixpoint expand (destination : string) (avoided : gset string) (path : list string)
    (ns : list RelayMetrics) (queue : list (list string)) (visited : gset string) :
    RelayRoute + (list (list string) * gset string) :=
  match ns with
  | [] => inr (queue, visited)
  | n :: ns' =>
      let id := m_peer_id n in
      if bool_decide (id ∈ avoided) || bool_decide (id ∈ visited)
      then expand destination avoided path ns' queue visited
      else
        let next_path := path ++ [id] in
        if bool_decide (id = destination) then inl {| rt_path := next_path |}
        else expand destination avoided path ns' (queue ++ [next_path]) ({[id]} ∪ visited)
  end.

(** The [while let Some(path) = queue.pop_front()] loop, for at most [fuel] rounds;
    [None] when the fuel runs out before the queue does. *)
Fixpoint search (fuel : nat) (t : RelayTopology) (destination : string) (avoided : gset string)
    (queue : list (list string)) (visited : gset string) :
    option (result RelayRoute TopologyError) :=
  match queue with
  | [] => Some (Err NoRoute)
  | path :: queue' =>
      match fuel with
      | O => None
      | S fuel' =>
          match last path with
          | None => search fuel' t destination avoided queue' visited
          | Some node =>
              if (tp_max_hops t <=? length path - 1)%nat
              then search fuel' t destination avoided queue' visited
              else
                match expand destination avoided path (ranked_neighbors t node) queue' visited with
                | inl route => Some (Ok route)
                | inr (queue'', visited') =>
                    search fuel' t destination avoided queue'' visited'
                end
          end
      end
  end.

(** Each peer is queued at most once. *)
Definition search_fuel (t : RelayTopology) : nat := S (size (tp_metrics t)).

Definition route_avoiding (t : RelayTopology) (source destination : string)
    (avoided : gset string) : option (result RelayRoute TopologyError) :=
  match check ensure_peer t source in ensure_peer t destination with
  | Err e => Some (Err e)
  | Ok _ =>
      if bool_decide (source ∈ avoided) || bool_decide (destination ∈ avoided)
      then Some (Err NoRoute)
      else if bool_decide (source = destination) then Some (Ok {| rt_path := [source] |})
      else search (search_fuel t) t destination avoided [[source]] {[source]}
  end.

Definition route (t : RelayTopology) (source destination : string) :
    option (result RelayRoute TopologyError) :=
  route_avoiding t source destination ∅.

(** ** Failover *)

Record FailoverDecision := {
  fd_previous : RelayRoute;
  fd_replacement : RelayRoute;
  fd_failed_peer : string;
  fd_convergence_ms : N
}.

Definition converged_within_phase2_gate (d : FailoverDecision) : bool :=
  fd_convergence_ms d <=? 3000.

Definition reroute_after_failure (t : RelayTopology) (previous : RelayRoute)
    (failed_peer : string) (convergence_ms : N) :
    option (result FailoverDecision TopologyError) :=
  match head (rt_path previous), last (rt_path previous) with
  | Some source, Some destination =>
      r ← route_avoiding t source destination {[failed_peer]};
      Some (rmap (λ replacement,
        {| fd_previous := previous; fd_replacement := replacement;
           fd_failed_peer := failed_peer; fd_convergence_ms := convergence_ms |}) r)
  | _, _ => Some (Err NoRoute)
  end.

(** ** The graph invariant *)

Record topology_wf (t : RelayTopology) : Prop := {
  tw_id id m : tp_metrics t !! id = Some m → m_peer_id m = id;
  tw_sym a b : b ∈ neighbors t a → a ∈ neighbors t b;
  tw_known a b : b ∈ neighbors t a → is_Some (tp_metrics t !! b);
  tw_fanout : (1 ≤ tp_max_fanout t)%nat;
  tw_degree a : (size (neighbors t a) ≤ tp_max_fanout t)%nat
}.

Lemma neighbors_new hops fanout a : neighbors (RelayTopology_new hops fanout) a = ∅.
Proof. unfold neighbors. simpl. by rewrite lookup_empty. Qed.

Lemma topology_wf_new hops fanout : topology_wf (RelayTopology_new hops fanout).
Proof.
  split; try (intros *; rewrite neighbors_new; set_solver).
  - intros id m. simpl. by rewrite lookup_empty.
  - simpl. lia.
  - intros a. rewrite neighbors_new, size_empty. lia.
Qed.

Lemma neighbors_upsert t m a : neighbors (upsert_peer t m) a = neighbors t a.
Proof.
  unfold neighbors at 1. simpl. destruct (decide (m_peer_id m = a)) as [->|].
  - by rewrite lookup_insert_eq.
  - by rewrite lookup_insert_ne.
Qed.

Lemma upsert_peer_wf t m : topology_wf t → topology_wf (upsert_peer t m).
Proof.
  intros Hw. split; try (intros *; rewrite !neighbors_upsert); simpl; try apply Hw.
  - intros id x [[<- <-]|[_ Hx]]%lookup_insert_Some; [done|by apply (tw_id _ Hw)].
  - intros Hb. destruct (decide (m_peer_id m = b)) as [<-|].
    + rewrite lookup_insert_eq. eauto.
    + rewrite lookup_insert_ne by done. by apply (tw_known _ Hw a).
Qed.

Lemma neighbors_add_link t a b x :
  neighbors (add_link t a b) x = if decide (x = a) then {[b]} ∪ neighbors t a else neighbors t x.
Proof.
  unfold neighbors at 1. simpl. case_decide.
  - subst. by rewrite lookup_insert_eq.
  - by rewrite lookup_insert_ne.
Qed.

Lemma elem_of_add_links t a b x y :
  y ∈ neighbors (add_link (add_link t a b) b a) x ↔
  y ∈ neighbors t x ∨ (x = a ∧ y = b) ∨ (x = b ∧ y = a).
Proof. rewrite neighbors_add_link. repeat case_decide; subst; rewrite ?neighbors_add_link;
  repeat case_decide; subst; set_solver. Qed.

Lemma ensure_peer_ok t a : ensure_peer t a = Ok tt ↔ is_Some (tp_metrics t !! a).
Proof. unfold ensure_peer. by case_decide. Qed.

Lemma ensure_fanout_ok t a b :
  ensure_fanout t a b = Ok tt →
  (size (neighbors t a) ≤ tp_max_fanout t)%nat →
  (size ({[b]} ∪ neighbors t a) ≤ tp_max_fanout t)%nat.
Proof.
  unfold ensure_fanout. intros Hf Hd. case_bool_decide as Hin; simpl in Hf.
  - by replace ({[b]} ∪ neighbors t a) with (neighbors t a) by set_solver.
  - destruct (Nat.ltb_spec (size (neighbors t a)) (tp_max_fanout t)); [|done].
    rewrite size_union by set_solver. rewrite size_singleton. lia.
Qed.

Lemma connect_ok t a b :
  (connect t a b).2 = Ok tt →
  is_Some (tp_metrics t !! a) ∧ is_Some (tp_metrics t !! b) ∧
  ensure_fanout t a b = Ok tt ∧ ensure_fanout t b a = Ok tt ∧
  (connect t a b).1 = add_link (add_link t a b) b a.
Proof.
  unfold connect. rewrite <- !ensure_peer_ok.
  destruct (ensure_peer t a) as [[]|]; [|done]. destruct (ensure_peer t b) as [[]|]; [|done].
  simpl. destruct (ensure_fanout t a b) as [[]|]; [|done].
  by destruct (ensure_fanout t b a) as [[]|].
Qed.

Lemma connect_err t a b e : (connect t a b).2 = Err e → (connect t a b).1 = t.
Proof. unfold connect. by destruct (rbind _ _). Qed.

Lemma connect_wf t a b : topology_wf t → topology_wf (connect t a b).1.
Proof.
  intros Hw. destruct (connect t a b).2 as [[]|e] eqn:Hr.
  2:{ by rewrite (connect_err _ _ _ _ Hr). }
  destruct (connect_ok _ _ _ Hr) as (Ha & Hb & Hfa & Hfb & ->).
  split; try apply Hw.
  - intros x y. rewrite !elem_of_add_links. pose proof (tw_sym _ Hw x y). naive_solver.
  - intros x y. rewrite elem_of_add_links. simpl.
    intros [?|[[-> ->]|[-> ->]]]; [by apply (tw_known _ Hw x)|done..].
  - intros x. change (tp_max_fanout _) with (tp_max_fanout t).
    pose proof (tw_degree _ Hw) as Hd.
    assert (neighbors (add_link (add_link t a b) b a) x =
      if decide (x = b) then {[a]} ∪ neighbors t b
      else if decide (x = a) then {[b]} ∪ neighbors t a else neighbors t x) as ->.
    { apply set_eq. intros y. rewrite elem_of_add_links. repeat case_decide; set_solver. }
    repeat case_decide; [by apply ensure_fanout_ok..|done].
Qed.

(** ** Paths *)

Fixpoint chain (R : relation string) (p : list string) : Prop :=
  match p with
  | x :: ((y :: _) as p') => R x y ∧ chain R p'
  | _ => True
  end.

Lemma chain_snoc R p u v :
  chain R p → last p = Some u → R u v → chain R (p ++ [v]).
Proof.
  induction p as [|x p IH]; [done|]. destruct p as [|y p]; simpl.
  - intros _ [= ->] HR. by split.
  - intros [HR Hc] Hl Huv. split; [done|]. by apply IH.
Qed.

Lemma chain_snoc_inv R p v :
  chain R (p ++ [v]) → chain R p ∧ ∀ u, last p = Some u → R u v.
Proof.
  induction p as [|x p IH]; [done|]. destruct p as [|y p]; simpl.
  - intros [HR _]. split; [done|]. by intros u [= <-].
  - intros [HR Hc]. destruct (IH Hc) as [Hc' Hl]. split; [by split|]. apply Hl.
Qed.

Lemma head_snoc {A} (p : list A) x y : head p = Some x → head (p ++ [y]) = Some x.
Proof. by destruct p. Qed.

(** An edge the search may use: a link to a known peer that is not avoided. *)
Definition edge (t : RelayTopology) (avoided : gset string) (u v : string) : Prop :=
  v ∈ neighbors t u ∧ is_Some (tp_metrics t !! v) ∧ v ∉ avoided.

Definition walk (t : RelayTopology) (avoided : gset string) (s d : string) (p : list string) :
    Prop :=
  head p = Some s ∧ last p = Some d ∧ chain (edge t avoided) p.

Lemma elem_of_ranked_neighbors t u id :
  topology_wf t →
  (∃ n, n ∈ ranked_neighbors t u ∧ m_peer_id n = id) ↔
  id ∈ neighbors t u ∧ is_Some (tp_metrics t !! id).
Proof.
  intros Hw. unfold ranked_neighbors, neighbors. destruct (tp_links t !! u) as [ns|]; simpl.
  2:{ split; [by intros (n & []%not_elem_of_nil & _)|set_solver]. }
  split.
  - intros (n & Hn & Hid). rewrite elem_of_rank, list_elem_of_omap in Hn.
    destruct Hn as (x & Hx & Hm). rewrite elem_of_sorted_elements in Hx.
    rewrite (tw_id _ Hw _ _ Hm) in Hid. subst. eauto.
  - intros [Hin [m Hm]]. exists m. rewrite elem_of_rank, list_elem_of_omap.
    split; [|by apply (tw_id _ Hw)]. exists id. by rewrite elem_of_sorted_elements.
Qed.

(** ** Breadth-first search

    [depth] records at which distance each visited peer was queued. A visited peer is
    still queued, at the hop cap, being expanded ([cur]), or all its edges lead to
    peers visited at most one level deeper. *)

Section bfs.
Context (t : RelayTopology) (Hw : topology_wf t) (avoided : gset string) (s dest : string).

Definition expanded (depth : gmap string nat) (v : string) (k : nat) : Prop :=
  ∀ w, edge t avoided v w → ∃ k', depth !! w = Some k' ∧ (k' ≤ S k)%nat.

Record queued (depth : gmap string nat) (level : nat) (p : list string) : Prop := {
  qp_head : head p = Some s;
  qp_chain : chain (edge t avoided) p;
  qp_nodup : NoDup p;
  qp_visited x : x ∈ p → is_Some (depth !! x);
  qp_depth : ∃ v, last p = Some v ∧ depth !! v = Some (length p - 1)%nat;
  qp_level : (S level ≤ length p ≤ S (S level))%nat
}.

Record bfs_inv (cur : option string) (level : nat) (depth : gmap string nat)
    (queue : list (list string)) : Prop := {
  bi_source : depth !! s = Some 0%nat;
  bi_dest : depth !! dest = None;
  bi_known v : is_Some (depth !! v) → is_Some (tp_metrics t !! v);
  bi_queue p : p ∈ queue → queued depth level p;
  bi_sorted : StronglySorted (λ p q : list string, length p ≤ length q)%nat queue;
  bi_level v k : depth !! v = Some k → (k ≤ S level)%nat;
  bi_closed v k : depth !! v = Some k →
    cur = Some v ∨ (∃ p, p ∈ queue ∧ last p = Some v) ∨ (tp_max_hops t ≤ k)%nat ∨
    expanded depth v k
}.

Lemma queued_mono depth depth' level p :
  depth ⊆ depth' → queued depth level p → queued depth' level p.
Proof.
  intros Hs [H1 H2 H3 H4 (v & Hv & Hd) H6]. split; try done.
  - intros x Hx. destruct (H4 x Hx) as [k Hk]. exists k. by eapply lookup_weaken.
  - exists v. split; [done|]. by eapply lookup_weaken.
Qed.

Lemma expanded_mono depth depth' v k :
  depth ⊆ depth' → expanded depth v k → expanded depth' v k.
Proof.
  intros Hs He w Hvw. destruct (He w Hvw) as (k' & Hk' & Hle). exists k'.
  split; [by eapply lookup_weaken|done].
Qed.

(** Visit a new peer from the end of the current path. *)
Lemma bfs_inv_visit p u level depth queue id :
  bfs_inv (Some u) level depth queue → queued depth level p → last p = Some u →
  length p = S level → depth !! id = None → id ≠ dest → edge t avoided u id →
  bfs_inv (Some u) level (<[id := S level]> depth) (queue ++ [p ++ [id]]).
Proof.
  intros HI Hp Hu Hl Hid Hne He.
  assert (depth ⊆ <[id := S level]> depth) as Hsub by by apply insert_subseteq.
  split.
  - rewrite lookup_insert_ne; [apply HI|]. intros ->. by rewrite (bi_source _ _ _ _ HI) in Hid.
  - rewrite lookup_insert_ne by done. apply HI.
  - intros v. rewrite lookup_insert_is_Some'. intros [<-|Hv]; [apply He|by apply HI].
  - intros q [Hq| ->%list_elem_of_singleton]%elem_of_app.
    { eapply queued_mono; [done|]. by apply (bi_queue _ _ _ _ HI). }
    split.
    + apply head_snoc, Hp.
    + eapply chain_snoc; [apply Hp|done..].
    + apply NoDup_app. split_and!; [apply Hp| |apply NoDup_singleton].
      intros x Hx ->%list_elem_of_singleton. destruct (qp_visited _ _ _ Hp _ Hx). congruence.
    + intros x [Hx| ->%list_elem_of_singleton]%elem_of_app.
      * destruct (qp_visited _ _ _ Hp _ Hx) as [k Hk]. exists k. by eapply lookup_weaken.
      * rewrite lookup_insert_eq. eauto.
    + exists id. rewrite last_snoc, lookup_insert_eq, length_app, Hl. simpl. split; [done|].
      f_equal. lia.
    + rewrite length_app, Hl. simpl. lia.
  - apply StronglySorted_app_2; [|apply (bi_sorted _ _ _ _ HI)|repeat constructor].
    intros q r Hq ->%list_elem_of_singleton. rewrite length_app, Hl. simpl.
    pose proof (qp_level _ _ _ (bi_queue _ _ _ _ HI _ Hq)). lia.
  - intros v k [[_ <-]|[_ Hv]]%lookup_insert_Some; [lia|by apply (bi_level _ _ _ _ HI v)].
  - intros v k [[<- <-]|[_ Hv]]%lookup_insert_Some.
    + right; left. exists (p ++ [id]). rewrite last_snoc. set_solver.
    + destruct (bi_closed _ _ _ _ HI _ _ Hv) as [?|[(q & Hq & Hqv)|[?|?]]]; [by left|..].
      * right; left. exists q. set_solver.
      * right; right; by left.
      * right; right; right. by eapply expanded_mono.
Qed.

Lemma expand_spec p u level ns queue depth :
  bfs_inv (Some u) level depth queue → queued depth level p → last p = Some u →
  length p = S level →
  (∀ n, n ∈ ns → m_peer_id n ∈ neighbors t u ∧ is_Some (tp_metrics t !! m_peer_id n)) →
  match expand dest avoided p ns queue (dom depth) with
  | inl r => rt_path r = p ++ [dest] ∧ edge t avoided u dest
  | inr (queue', visited') => ∃ depth', visited' = dom depth' ∧
      bfs_inv (Some u) level depth' queue' ∧ depth ⊆ depth' ∧
      (∀ n, n ∈ ns → m_peer_id n ∉ avoided → is_Some (depth' !! m_peer_id n)) ∧
      (size depth' + length queue = size depth + length queue')%nat
  end.
Proof.
  revert queue depth. induction ns as [|n ns IH]; intros queue depth HI Hp Hu Hl Hns; simpl.
  { exists depth. split_and!; try done. by intros n []%not_elem_of_nil. }
  destruct (Hns n (list_elem_of_here _ _)) as [Hn1 Hn2].
  assert (∀ m, m ∈ ns → m_peer_id m ∈ neighbors t u ∧ is_Some (tp_metrics t !! m_peer_id m))
    as Hns' by (intros m Hm; apply Hns; by right).
  destruct (bool_decide (m_peer_id n ∈ avoided)) eqn:Ha;
    [|destruct (bool_decide (m_peer_id n ∈ dom depth)) eqn:Hv]; simpl.
  - apply bool_decide_eq_true in Ha. specialize (IH queue depth HI Hp Hu Hl Hns').
    destruct (expand _ _ _ _ _ _) as [r|[q' v']]; [done|].
    destruct IH as (depth' & ? & ? & ? & Hall & ?). exists depth'. split_and!; try done.
    intros m [->|Hm]%elem_of_cons; [done|by apply Hall].
  - apply bool_decide_eq_true, elem_of_dom in Hv. specialize (IH queue depth HI Hp Hu Hl Hns').
    destruct (expand _ _ _ _ _ _) as [r|[q' v']]; [done|].
    destruct IH as (depth' & ? & ? & Hsub & Hall & ?). exists depth'. split_and!; try done.
    intros m [->|Hm]%elem_of_cons; [|by apply Hall].
    intros _. destruct Hv as [k Hk]. exists k. by eapply lookup_weaken.
  - apply bool_decide_eq_false in Ha, Hv. apply not_elem_of_dom in Hv.
    assert (edge t avoided u (m_peer_id n)) as He by done.
    case_bool_decide as Hd; simpl; [by rewrite Hd in *|].
    rewrite <- (dom_insert_L depth (m_peer_id n) (S level)).
    pose proof (bfs_inv_visit _ _ _ _ _ _ HI Hp Hu Hl Hv Hd He) as HI'.
    assert (depth ⊆ <[m_peer_id n := S level]> depth) as Hsub by by apply insert_subseteq.
    specialize (IH _ _ HI' (queued_mono _ _ _ _ Hsub Hp) Hu Hl Hns').
    destruct (expand _ _ _ _ _ _) as [r|[q' v']]; [done|].
    destruct IH as (depth' & -> & ? & Hsub' & Hall & Hsz). exists depth'.
    rewrite map_size_insert_None, length_app in Hsz by done. simpl in Hsz.
    split_and!; [done|done|by etrans| |lia].
    intros m [->|Hm]%elem_of_cons; [|by apply Hall]. intros _.
    exists (S level). eapply lookup_weaken; [apply lookup_insert_eq|done].
Qed.

(** When every peer above level [bound] is expanded, a walk of at most [bound] hops
    ends at a peer visited no deeper than its length. *)
Lemma walk_depth depth bound x p :
  (∀ v k, depth !! v = Some k → (k < bound)%nat → expanded depth v k) →
  depth !! s = Some 0%nat → walk t avoided s x p → (length p ≤ S bound)%nat →
  ∃ k, depth !! x = Some k ∧ (S k ≤ length p)%nat.
Proof.
  intros Hex Hs. revert x. induction p as [|v p IH] using rev_ind; intros x (Hh & Hl & Hc) Hlen;
    [done|]. rewrite last_snoc in Hl. injection Hl as <-. rewrite length_app in *; simpl in *.
  destruct (last p) as [u|] eqn:Hu.
  - apply chain_snoc_inv in Hc as [Hc He].
    destruct (IH u) as (k & Hk & Hle).
    { split_and!; [by destruct p|done..]. }
    { lia. }
    destruct (Hex u k Hk ltac:(lia) v (He u Hu)) as (k' & Hk' & Hle').
    exists k'. split; [done|lia].
  - apply last_None in Hu as ->. injection Hh as ->. exists 0%nat. split; [done|lia].
Qed.

(** Move the level to that of the front of the queue. *)
Lemma bfs_inv_relevel level depth p queue :
  bfs_inv None level depth (p :: queue) →
  bfs_inv None (length p - 1) depth (p :: queue) ∧ length p = S (length p - 1).
Proof.
  intros HI. pose proof (bi_queue _ _ _ _ HI p (list_elem_of_here _ _)) as Hp.
  pose proof (qp_level _ _ _ Hp) as Hlev. split; [|lia].
  pose proof (bi_sorted _ _ _ _ HI) as [_ Hfirst]%StronglySorted_inv.
  rewrite Forall_forall in Hfirst. split; try apply HI.
  - intros q Hq. pose proof (bi_queue _ _ _ _ HI q Hq) as [H1 H2 H3 H4 H5 H6].
    split; try done. apply elem_of_cons in Hq as [->|Hq]; [lia|]. specialize (Hfirst q Hq). lia.
  - intros v k Hv. pose proof (bi_level _ _ _ _ HI v k Hv). lia.
Qed.

(** Take the front off the queue while its end is expanded. *)
Lemma bfs_inv_pop level depth p u queue :
  bfs_inv None level depth (p :: queue) → last p = Some u → bfs_inv (Some u) level depth queue.
Proof.
  intros HI Hu. split; try apply HI.
  - intros q Hq. apply (bi_queue _ _ _ _ HI). by right.
  - by apply bi_sorted, StronglySorted_inv in HI as [? _].
  - intros v k Hv. destruct (bi_closed _ _ _ _ HI v k Hv) as [?|[(q & Hq & Hqv)|?]]; [done| |auto].
    apply elem_of_cons in Hq as [->|Hq]; [left; congruence|right; left; eauto].
Qed.

Lemma bfs_inv_close u level depth queue :
  bfs_inv (Some u) level depth queue →
  (∀ k, depth !! u = Some k → (tp_max_hops t ≤ k)%nat ∨ expanded depth u k) →
  bfs_inv None level depth queue.
Proof.
  intros HI Hu. split; try apply HI.
  intros v k Hv. destruct (bi_closed _ _ _ _ HI v k Hv) as [[= <-]|?]; [|auto].
  destruct (Hu k Hv); auto.
Qed.

Definition search_result (r : result RelayRoute TopologyError) : Prop :=
  match r with
  | Ok route =>
      walk t avoided s dest (rt_path route) ∧ NoDup (rt_path route) ∧
      (hop_count route ≤ tp_max_hops t)%nat ∧
      ∀ p, walk t avoided s dest p → (length (rt_path route) ≤ length p)%nat
  | Err e => e = NoRoute ∧ ∀ p, walk t avoided s dest p → (S (tp_max_hops t) < length p)%nat
  end.

(** Reaching the destination from a front path of the least level. *)
Lemma found_result p u level depth queue r :
  bfs_inv (Some u) level depth queue → queued depth level p → last p = Some u →
  length p = S level → depth !! u = Some level → (level < tp_max_hops t)%nat →
  rt_path r = p ++ [dest] → edge t avoided u dest → search_result (Ok r).
Proof.
  intros HI Hp Hu Hl Hdu Hlev Hr He. unfold search_result, hop_count. rewrite Hr. split_and!.
  - split_and!; [apply head_snoc, Hp|by rewrite last_snoc|].
    eapply chain_snoc; [apply Hp|done..].
  - apply NoDup_app. split_and!; [apply Hp| |apply NoDup_singleton].
    intros x Hx ->%list_elem_of_singleton. destruct (qp_visited _ _ _ Hp _ Hx) as [k Hk].
    by rewrite (bi_dest _ _ _ _ HI) in Hk.
  - rewrite length_app; simpl. lia.
  - intros q Hq. rewrite length_app, Hl; simpl.
    destruct (decide (length q ≤ S level)%nat) as [Hle|]; [|lia]. exfalso.
    destruct (walk_depth depth level dest q) as (k & Hk & _); [|apply HI|done..|].
    + intros v k Hv Hlt. destruct (bi_closed _ _ _ _ HI v k Hv) as [[= <-]|[(x & Hx & Hxv)|[?|?]]];
        [rewrite Hdu in Hv; simplify_eq; lia| |lia|done].
      destruct (bi_queue _ _ _ _ HI x Hx) as [_ _ _ _ (v' & Hv' & Hdv) Hlx].
      simplify_eq. lia.
    + by rewrite (bi_dest _ _ _ _ HI) in Hk.
Qed.

Lemma empty_result level depth : bfs_inv None level depth [] → search_result (Err NoRoute).
Proof.
  intros HI. split; [done|]. intros p Hp.
  destruct (decide (length p ≤ S (tp_max_hops t))%nat) as [Hle|]; [|lia]. exfalso.
  destruct (walk_depth depth (tp_max_hops t) dest p) as (k & Hk & _); [|apply HI|done..|].
  - intros v k Hv Hlt.
    destruct (bi_closed _ _ _ _ HI v k Hv) as [?|[(x & []%not_elem_of_nil & _)|[?|?]]];
      [done|lia|done].
  - by rewrite (bi_dest _ _ _ _ HI) in Hk.
Qed.

Lemma bfs_size cur level depth queue :
  bfs_inv cur level depth queue → (size depth ≤ size (tp_metrics t))%nat.
Proof.
  intros HI. rewrite <- !(size_dom (D := gset string)). apply subseteq_size.
  intros v. rewrite !elem_of_dom. apply (bi_known _ _ _ _ HI).
Qed.

Lemma search_spec fuel level depth queue :
  bfs_inv None level depth queue →
  (length queue + (size (tp_metrics t) - size depth) ≤ fuel)%nat →
  ∃ r, search fuel t dest avoided queue (dom depth) = Some r ∧ search_result r.
Proof.
  revert level depth queue. induction fuel as [|fuel IH]; intros level depth [|p queue] HI Hf.
  - simpl. eexists. split; [done|]. by eapply empty_result.
  - simpl in Hf. lia.
  - simpl. eexists. split; [done|]. by eapply empty_result.
  - apply bfs_inv_relevel in HI as [HI Hl]. set (d := (length p - 1)%nat) in *. simpl.
    pose proof (bi_queue _ _ _ _ HI p (list_elem_of_here _ _)) as Hp.
    destruct (qp_depth _ _ _ Hp) as (u & Hu & Hdu). rewrite Hu. fold d in Hdu |- *.
    pose proof (bfs_inv_pop _ _ _ _ _ HI Hu) as HIu. simpl in Hf.
    destruct (Nat.leb_spec (tp_max_hops t) d) as [Hmax|Hmax].
    + apply (IH d); [|lia]. apply (bfs_inv_close u); [done|].
      intros k Hk. left. congruence.
    + pose proof (expand_spec p u d (ranked_neighbors t u) queue depth HIu Hp Hu Hl) as Hx.
      destruct (expand _ _ _ _ _ _) as [r|[queue' visited']].
      * eexists. split; [done|]. destruct Hx as [Hr He].
        { intros n Hn. apply (elem_of_ranked_neighbors _ _ _ Hw). eauto. }
        by eapply (found_result p u d).
      * destruct Hx as (depth' & -> & HI' & Hsub & Hall & Hsz).
        { intros n Hn. apply (elem_of_ranked_neighbors _ _ _ Hw). eauto. }
        assert (depth' !! u = Some d) as Hdu' by by eapply lookup_weaken.
        apply (IH d).
        -- apply (bfs_inv_close u); [done|]. intros k Hk. right. intros w (Hn & Hm & Ha).
           destruct (proj2 (elem_of_ranked_neighbors t u w Hw) (conj Hn Hm)) as (n & Hin & <-).
           destruct (Hall n Hin Ha) as [k' Hk']. exists k'. split; [done|].
           pose proof (bi_level _ _ _ _ HI' _ _ Hk'). simplify_eq. lia.
        -- pose proof (bfs_size _ _ _ _ HI'). pose proof (bfs_size _ _ _ _ HI). lia.
Qed.
End bfs.

(** ** From the empty search to the route *)

Lemma bfs_inv_init t avoided s dest :
  is_Some (tp_metrics t !! s) → s ≠ dest →
  bfs_inv t avoided s dest None 0 {[s := 0%nat]} [[s]].
Proof.
  intros Hs Hne. split.
  - apply lookup_singleton_eq.
  - by apply lookup_singleton_ne.
  - intros v [k [<- _]%lookup_singleton_Some]. done.
  - intros p ->%list_elem_of_singleton. split; simpl; [done..|apply NoDup_singleton| | |lia].
    + intros x ->%list_elem_of_singleton. rewrite lookup_singleton_eq. eauto.
    + exists s. by rewrite lookup_singleton_eq.
  - repeat constructor.
  - intros v k [_ <-]%lookup_singleton_Some. lia.
  - intros v k [<- <-]%lookup_singleton_Some. right; left. exists [s]. set_solver.
Qed.

Lemma walk_avoids t avoided s d p x :
  walk t avoided s d p → s ∉ avoided → x ∈ p → x ∉ avoided.
Proof.
  intros (Hh & _ & Hc) Hs. destruct p as [|y p]; [done|]. injection Hh as ->.
  revert s Hs Hc. induction p as [|z p IH]; intros s Hs Hc.
  - by intros ->%list_elem_of_singleton.
  - destruct Hc as [(_ & _ & Hz) Hc]. intros [->|Hx]%elem_of_cons; [done|by apply (IH z)].
Qed.

Lemma walk_end_avoided t avoided s d p : walk t avoided s d p → s ∉ avoided → d ∉ avoided.
Proof.
  intros Hp Hs. eapply walk_avoids; [done..|]. destruct Hp as (_ & Hl & _).
  by apply last_Some_elem_of.
Qed.

(** What [route_avoiding] answers on a well-formed topology. *)
Definition route_answer (t : RelayTopology) (avoided : gset string) (s d : string)
    (r : result RelayRoute TopologyError) : Prop :=
  match r with
  | Ok rt =>
      walk t avoided s d (rt_path rt) ∧ NoDup (rt_path rt) ∧
      (hop_count rt ≤ tp_max_hops t)%nat ∧
      (∀ x, x ∈ rt_path rt → x ∉ avoided) ∧
      ∀ p, walk t avoided s d p → (hop_count rt ≤ length p - 1)%nat
  | Err (UnknownPeer x) => (x = s ∨ x = d) ∧ tp_metrics t !! x = None
  | Err NoRoute =>
      ∀ p, s ∉ avoided → walk t avoided s d p → (tp_max_hops t < length p - 1)%nat
  | Err (FanoutLimit _) => False
  end.

Lemma ensure_peer_err t a e :
  ensure_peer t a = Err e → e = UnknownPeer a ∧ tp_metrics t !! a = None.
Proof.
  unfold ensure_peer. case_decide as Hd; [done|]. intros [= <-]. split; [done|].
  by apply eq_None_not_Some.
Qed.

Lemma route_avoiding_answer t avoided s d :
  topology_wf t → ∃ r, route_avoiding t s d avoided = Some r ∧ route_answer t avoided s d r.
Proof.
  intros Hw. unfold route_avoiding.
  destruct (ensure_peer t s) as [[]|e] eqn:Hs; simpl.
  2:{ eexists. split; [done|]. apply ensure_peer_err in Hs as [-> ?]. simpl. auto. }
  destruct (ensure_peer t d) as [[]|e] eqn:Hd; simpl.
  2:{ eexists. split; [done|]. apply ensure_peer_err in Hd as [-> ?]. simpl. auto. }
  apply ensure_peer_ok in Hs, Hd.
  case_bool_decide as Has; simpl; [eexists; split; [done|]; by intros p ?|].
  case_bool_decide as Had; simpl.
  { eexists. split; [done|]. intros p _ Hp. by destruct (walk_end_avoided _ _ _ _ _ Hp). }
  case_bool_decide as Hsd.
  - subst d. eexists. split; [done|]. unfold route_answer, hop_count, walk. simpl.
    split_and!; try done.
    + apply NoDup_singleton.
    + lia.
    + by intros x ->%list_elem_of_singleton.
    + intros; lia.
  - pose proof (bfs_inv_init t avoided s d Hs Hsd) as HI.
    rewrite <- (dom_singleton_L (M := gmap string) s 0%nat).
    destruct (search_spec t Hw avoided s d (search_fuel t) 0 _ _ HI) as (r & Hr & Hres).
    { unfold search_fuel. simpl. lia. }
    exists r. split; [done|]. destruct r as [rt|e]; simpl in *.
    + destruct Hres as (Hwk & Hnd & Hh & Hmin). split_and!; [done..| |].
      * intros x. by eapply walk_avoids.
      * intros p Hp. unfold hop_count. specialize (Hmin p Hp). lia.
    + destruct Hres as [-> Hno]. intros p _ Hp. specialize (Hno p Hp). lia.
Qed.

(** ** Topologies built by the public operations *)

Inductive TopologyCall :=
| CallUpsertPeer (m : RelayMetrics)
| CallConnect (a b : string).

Definition topology_call (t : RelayTopology) (c : TopologyCall) : RelayTopology :=
  match c with
  | CallUpsertPeer m => upsert_peer t m
  | CallConnect a b => (connect t a b).1
  end.

Definition built (hops fanout : nat) (calls : list TopologyCall) : RelayTopology :=
  foldl topology_call (RelayTopology_new hops fanout) calls.

Lemma built_wf hops fanout calls : topology_wf (built hops fanout calls).
Proof.
  unfold built. induction calls as [|c calls IH] using rev_ind; [apply topology_wf_new|].
  rewrite foldl_app. destruct c; [by apply upsert_peer_wf|by apply connect_wf].
Qed.

Lemma built_caps hops fanout calls :
  tp_max_hops (built hops fanout calls) = hops ∧
  tp_max_fanout (built hops fanout calls) = (fanout `max` 1)%nat.
Proof.
  unfold built. induction calls as [|c calls IH] using rev_ind; [done|].
  rewrite foldl_app. destruct c; [done|]. simpl. unfold connect.
  by destruct (rbind _ _).
Qed.

(** ** Claims *)

(** The overlay graph stays bounded and symmetric: after any sequence of peer
    updates and connection attempts, successful or refused, no peer has more neighbours than
    the fanout cap, every link is known from both ends and leads to a known peer. *)
Theorem topology_fanout_bounded hops fanout calls a b :
  let t := built hops fanout calls in
  (size (neighbors t a) ≤ fanout `max` 1)%nat ∧
  (b ∈ neighbors t a → a ∈ neighbors t b ∧ is_Some (tp_metrics t !! b)).
Proof.
  intros t. pose proof (built_wf hops fanout calls) as Hw. fold t in Hw.
  destruct (built_caps hops fanout calls) as [_ Hf]. fold t in Hf. split.
  - rewrite <- Hf. apply (tw_degree _ Hw).
  - intros Hb. split; [by apply (tw_sym _ Hw)|by apply (tw_known _ Hw a)].
Qed.

(** C40. Route search terminates with the right answer on every topology the public
    operations can build. A route starts at the source, ends at the destination, follows
    links between known peers, visits no peer twice and no avoided peer, stays within the
    hop cap and is a shortest such path; "unknown peer" means an endpoint is not known; and
    "no route" is answered only when no path within the hop cap avoids those peers. *)
Theorem route_search_is_complete hops fanout calls s d avoided :
  let t := built hops fanout calls in
  ∃ r, route_avoiding t s d avoided = Some r ∧ route_answer t avoided s d r.
Proof. apply route_avoiding_answer, built_wf. Qed.

(** Failover routes around the failed peer: rerouting a route always answers; a
    decision keeps the route's endpoints, its replacement never touches the failed peer and
    respects the hop cap; and it fails only when an endpoint itself failed or became
    unknown, or no path within the hop cap avoids the failed peer. *)
Theorem failover_avoids_failed_peer hops fanout calls previous failed ms s d :
  let t := built hops fanout calls in
  head (rt_path previous) = Some s → last (rt_path previous) = Some d →
  ∃ r, reroute_after_failure t previous failed ms = Some r ∧
  match r with
  | Ok dec =>
      fd_previous dec = previous ∧ fd_failed_peer dec = failed ∧
      walk t {[failed]} s d (rt_path (fd_replacement dec)) ∧
      contains_peer (fd_replacement dec) failed = false ∧
      (hop_count (fd_replacement dec) ≤ hops)%nat
  | Err e =>
      e = UnknownPeer s ∨ e = UnknownPeer d ∨
      e = NoRoute ∧ (s = failed ∨ ∀ p, walk t {[failed]} s d p → (hops < length p - 1)%nat)
  end.
Proof.
  intros t Hs Hd. unfold reroute_after_failure. rewrite Hs, Hd.
  destruct (route_avoiding_answer t {[failed]} s d (built_wf _ _ _)) as (r & -> & Hr). simpl.
  destruct (built_caps hops fanout calls) as [Hh _]. fold t in Hh. rewrite <- Hh.
  eexists. split; [done|]. destruct r as [rt|[x|x|]]; simpl in *.
  - destruct Hr as (Hw & _ & Hc & Ha & _). split_and!; [done..| |done].
    apply bool_decide_eq_false. intros Hin. by apply (Ha failed Hin), elem_of_singleton.
  - destruct Hr as [[->| ->] _]; auto.
  - done.
  - right; right. split; [done|]. destruct (decide (s = failed)) as [?|Hne]; [by left|].
    right. intros p Hp. apply Hr; [|done]. by rewrite elem_of_singleton.
Qed.

Section witnesses.
Definition diamond : list TopologyCall :=
  [CallUpsertPeer (relay "a" 10); CallUpsertPeer (relay "b" 10);
   CallUpsertPeer (relay "c" 20); CallUpsertPeer (relay "d" 10);
   CallConnect "a" "b"; CallConnect "b" "d"; CallConnect "a" "c"; CallConnect "c" "d"].

Example diamond_route :
  route (built 3 8 diamond) "a" "d" = Some (Ok {| rt_path := ["a"; "b"; "d"] |}).
Proof. vm_compute. reflexivity. Qed.

Lemma failover_avoids_failed_peer_witness :
  ∃ dec, reroute_after_failure (built 3 8 diamond) {| rt_path := ["a"; "b"; "d"] |} "b" 900 =
      Some (Ok dec) ∧ rt_path (fd_replacement dec) = ["a"; "c"; "d"] ∧
    contains_peer (fd_replacement dec) "b" = false.
Proof.
  destruct (failover_avoids_failed_peer 3 8 diamond {| rt_path := ["a"; "b"; "d"] |} "b" 900
    "a" "d" eq_refl eq_refl) as (r & Hr & Hx).
  assert (reroute_after_failure (built 3 8 diamond) {| rt_path := ["a"; "b"; "d"] |} "b" 900 =
    Some (Ok {| fd_previous := {| rt_path := ["a"; "b"; "d"] |};
                fd_replacement := {| rt_path := ["a"; "c"; "d"] |};
                fd_failed_peer := "b"; fd_convergence_ms := 900 |})) as E
    by (vm_compute; reflexivity).
  rewrite E in Hr. injection Hr as <-. destruct Hx as (_ & _ & _ & Hc & _).
  eexists. split; [exact E|]. split; [reflexivity|exact Hc].
Defined.
End witnesses.
