(* ===== verification/ReplayWindow.v ===== *)
(** * Sliding replay windows

    The relay overlay ([redelivery.rs], per sender) and the media receiver ([sframe.rs], per
    key id) keep the same structure: for each key the greatest number accepted and the numbers
    accepted within a window below it. This file holds the shared state, the acceptance rule
    over any key type, and its account against the history of accepted numbers; the two
    components prove their own code equal to the rule. *)

From S2P Require Import Prelude Collections.

Record ReplayState := { rs_max_seen : N; rs_seen : gset N }.

(** [max_seen.saturating_sub(window_size.saturating_sub(1))] *)
Definition window_floor (window_size max_seen : N) : N := max_seen - (window_size - 1).

(** What a key's state remembers of the numbers [h] accepted under it. *)
Record sender_inv (w : N) (st : ReplayState) (h : list N) : Prop := {
  si_past s : s ∈ h → s ≤ rs_max_seen st;
  si_seen s : s ∈ rs_seen st ↔ s ∈ h ∧ window_floor w (rs_max_seen st) ≤ s
}.

(** Accepting a sequence above the floor that was not seen keeps the key's memory. *)
Lemma sender_inv_accept w st h s :
  sender_inv w st h → window_floor w (rs_max_seen st) ≤ s →
  let max_seen := if rs_max_seen st <? s then s else rs_max_seen st in
  1 ≤ w →
  sender_inv w
    {| rs_max_seen := max_seen;
       rs_seen := {[s]} ∪ filter (λ x, window_floor w max_seen ≤ x) (rs_seen st) |} (h ++ [s]).
Proof.
  intros [Hp Hs] Hf max_seen Hw.
  assert (rs_max_seen st ≤ max_seen ∧ s ≤ max_seen ∧ (max_seen = s ∨ max_seen = rs_max_seen st))
    as (Hm1 & Hm2 & Hm3).
  { unfold max_seen. destruct (N.ltb_spec (rs_max_seen st) s); split_and!; auto; lia. }
  split; simpl.
  - intros x [Hx| ->%list_elem_of_singleton]%elem_of_app; [|done]. specialize (Hp x Hx). lia.
  - intros x. rewrite elem_of_union, elem_of_singleton, elem_of_filter, Hs, elem_of_app,
      list_elem_of_singleton. unfold window_floor in *.
    split; [intros [->|(? & ? & ?)]|intros [[?| ->] ?]]; auto.
    + split; [by right|]. destruct Hm3 as [->|Hm3]; lia.
    + right. split_and!; [done..|lia].
Qed.

(** The greatest of a list of sequence numbers. *)
Definition greatest (l : list N) : N := foldr N.max 0 l.

Lemma greatest_spec l : (∀ s, s ∈ l → s ≤ greatest l) ∧ (l ≠ [] → greatest l ∈ l).
Proof.
  induction l as [|x l [IH1 IH2]]; simpl; [split; [by intros s []%not_elem_of_nil|done]|].
  split.
  - intros s [->|Hs]%elem_of_cons; [lia|]. specialize (IH1 s Hs). lia.
  - intros _. destruct l as [|y l]; [simpl; rewrite N.max_0_r; by left|].
    destruct (N.max_spec x (greatest (y :: l))) as [[_ ->]|[_ ->]]; [|by left].
    right. by apply IH2.
Qed.

Lemma size_range (X : gset N) lo n :
  (∀ x, x ∈ X → lo ≤ x < lo + N.of_nat n) → (size X ≤ n)%nat.
Proof.
  intros HX.
  assert (X ⊆ list_to_set ((λ i, lo + N.of_nat i) <$> seq 0 n)) as Hsub.
  { intros x Hx. specialize (HX x Hx). apply elem_of_list_to_set, list_elem_of_fmap.
    exists (N.to_nat (x - lo)). split; [lia|]. apply elem_of_seq. lia. }
  apply subseteq_size in Hsub. etrans; [exact Hsub|].
  rewrite size_list_to_set by (apply NoDup_fmap_2_strong; [lia|apply NoDup_seq]).
  by rewrite length_fmap, length_seq.
Qed.

Lemma sender_inv_size w st h :
  1 ≤ w → sender_inv w st h → (size (rs_seen st) ≤ N.to_nat w)%nat.
Proof.
  intros Hw [Hp Hs]. apply (size_range _ (window_floor w (rs_max_seen st))).
  intros x Hx. apply Hs in Hx as [Hx Hf]. specialize (Hp x Hx). unfold window_floor in *. lia.
Qed.

Section replay.
Context {K : Type} `{Countable K}.

(** The state an arriving number is checked against. *)
Definition replay_state (m : gmap K ReplayState) (k : K) (n : N) : ReplayState :=
  default {| rs_max_seen := n; rs_seen := ∅ |} (m !! k).

(** Refuse a number below the window or seen before; otherwise move the window and remember
    it. The entry is created either way. *)
Definition replay_accept (w : N) (m : gmap K ReplayState) (k : K) (n : N) :
    gmap K ReplayState * bool :=
  let st := replay_state m k n in
  if (n <? window_floor w (rs_max_seen st)) || bool_decide (n ∈ rs_seen st)
  then (<[k := st]> m, false)
  else
    let max_seen := if rs_max_seen st <? n then n else rs_max_seen st in
    let seen := filter (λ s, window_floor w max_seen ≤ s) (rs_seen st) in
    (<[k := {| rs_max_seen := max_seen; rs_seen := {[n]} ∪ seen |}]> m, true).

(** The numbers of a history accepted under a key. *)
Definition numbers_of (k : K) (h : list (K * N)) : list N :=
  (filter (λ p, p.1 = k) h).*2.

(** A map of states agrees with the history it accepted. *)
Definition window_inv (w : N) (m : gmap K ReplayState) (h : list (K * N)) : Prop :=
  NoDup h ∧
  ∀ k,
    match m !! k with
    | Some st => sender_inv w st (numbers_of k h) ∧ rs_max_seen st ∈ numbers_of k h
    | None => numbers_of k h = []
    end.

Lemma elem_of_numbers_of n k h : n ∈ numbers_of k h ↔ (k, n) ∈ h.
Proof.
  unfold numbers_of. rewrite list_elem_of_fmap. split.
  - intros ([x y] & -> & [Hx Hin]%list_elem_of_filter). simpl in *. by subst.
  - intros Hin. exists (k, n). split; [done|]. by apply list_elem_of_filter.
Qed.

Lemma numbers_of_snoc k h p :
  numbers_of k (h ++ [p]) = if decide (p.1 = k) then numbers_of k h ++ [p.2] else numbers_of k h.
Proof.
  unfold numbers_of. rewrite filter_app, fmap_app, filter_cons, filter_nil.
  case_decide; simpl; [done|by rewrite app_nil_r].
Qed.

Lemma window_inv_empty w : window_inv w ∅ [].
Proof. split; [constructor|]. intros k. by rewrite lookup_empty. Qed.

Lemma replay_state_inv w m h k n :
  window_inv w m h → sender_inv w (replay_state m k n) (numbers_of k h).
Proof.
  intros [_ HI]. specialize (HI k). unfold replay_state.
  destruct (m !! k); simpl; [apply HI|]. rewrite HI.
  split; simpl; [by intros s []%not_elem_of_nil|].
  intros s. rewrite elem_of_empty, elem_of_nil. naive_solver.
Qed.

(** The state's maximum is the greatest number of the history, when there is one. *)
Lemma replay_state_greatest w m h k n :
  window_inv w m h → numbers_of k h ≠ [] →
  rs_max_seen (replay_state m k n) ∈ numbers_of k h ∧
  greatest (numbers_of k h) = rs_max_seen (replay_state m k n).
Proof.
  intros HW Hne. pose proof (replay_state_inv w m h k n HW) as Hst.
  assert (rs_max_seen (replay_state m k n) ∈ numbers_of k h) as Hmax.
  { destruct HW as [_ HI]. specialize (HI k). unfold replay_state.
    destruct (m !! k); [apply HI|done]. }
  split; [done|]. destruct (greatest_spec (numbers_of k h)) as [G1 G2].
  pose proof (G1 _ Hmax). pose proof (si_past _ _ _ Hst _ (G2 Hne)). lia.
Qed.

(** A key nothing was accepted under refuses nothing. *)
Lemma replay_state_fresh w m h k n :
  window_inv w m h →
  n < window_floor w (rs_max_seen (replay_state m k n)) ∨ n ∈ rs_seen (replay_state m k n) →
  numbers_of k h ≠ [].
Proof.
  intros [_ HI]. specialize (HI k). unfold replay_state. destruct (m !! k); simpl.
  - intros _ E. destruct HI as [_ HI]. rewrite E in HI. by apply not_elem_of_nil in HI.
  - unfold window_floor. intros [?|?]; [lia|set_solver].
Qed.

Lemma window_inv_set w m h h' k st' :
  window_inv w m h → NoDup h' →
  (∀ x, x ≠ k → numbers_of x h' = numbers_of x h) →
  sender_inv w st' (numbers_of k h') → rs_max_seen st' ∈ numbers_of k h' →
  window_inv w (<[k := st']> m) h'.
Proof.
  intros [_ HI] Hnd' Hx Hs' Hm. split; [done|]. intros x.
  destruct (decide (x = k)) as [->|Hne].
  - by rewrite lookup_insert_eq.
  - rewrite lookup_insert_ne, Hx by done. apply HI.
Qed.

(** A number is refused exactly when it was accepted before or is below the window of its
    key; either way the states keep their account of the history. *)
Lemma replay_accept_spec w m h k n :
  window_inv w m h → 1 ≤ w →
  let '(m', ok) := replay_accept w m k n in
  if ok then
    (k, n) ∉ h ∧ window_inv w m' (h ++ [(k, n)]) ∧
    (numbers_of k h ≠ [] → window_floor w (greatest (numbers_of k h)) ≤ n)
  else
    window_inv w m' h ∧
    ((k, n) ∈ h ∨
     numbers_of k h ≠ [] ∧ n < window_floor w (greatest (numbers_of k h))).
Proof.
  intros HW Hw. pose proof (replay_state_inv w m h k n HW) as Hst.
  pose proof (replay_state_greatest w m h k n HW) as Hg.
  pose proof (replay_state_fresh w m h k n HW) as Hne.
  unfold replay_accept. cbv zeta. set (st := replay_state m k n) in *.
  destruct (N.ltb_spec n (window_floor w (rs_max_seen st))) as [Hlt|Hge]; simpl.
  { destruct (Hg (Hne (or_introl Hlt))) as [Hm Hg']. split; [|right; rewrite Hg'; auto].
    eapply window_inv_set; try done; apply HW. }
  case_bool_decide as Hin.
  { destruct (Hg (Hne (or_intror Hin))) as [Hm Hg']. split.
    - eapply window_inv_set; try done; apply HW.
    - left. apply (si_seen _ _ _ Hst) in Hin as [Hin _]. by apply elem_of_numbers_of. }
  assert ((k, n) ∉ h) as Hfresh.
  { intros Hp. apply Hin, (si_seen _ _ _ Hst). split; [|done]. by apply elem_of_numbers_of. }
  split; [done|]. split; [|intros Hn; destruct (Hg Hn) as [_ ->]; done].
  eapply window_inv_set; [done|..].
  - apply NoDup_app. split_and!; [apply HW| |apply NoDup_singleton].
    by intros x Hx ->%list_elem_of_singleton.
  - intros x Hx. by rewrite numbers_of_snoc, decide_False by (simpl; congruence).
  - rewrite numbers_of_snoc, decide_True by done. by apply sender_inv_accept.
  - rewrite numbers_of_snoc, decide_True by done. simpl. apply elem_of_app.
    case_match eqn:E; [right; by left|]. apply N.ltb_ge in E.
    destruct (decide (numbers_of k h = [])) as [E0|E0]; [|left; by apply Hg].
    right. subst st. unfold replay_state in *. destruct HW as [_ HI]. specialize (HI k).
    destruct (m !! k); simpl; [|by left].
    destruct HI as [_ HI]. rewrite E0 in HI. by apply not_elem_of_nil in HI.
Qed.

(** The states and the accepted numbers after a sequence of arrivals. *)
Fixpoint replay_run (w : N) (m : gmap K ReplayState) (l : list (K * N)) :
    gmap K ReplayState * list (K * N) :=
  match l with
  | [] => (m, [])
  | (k, n) :: l' =>
      let '(m1, ok) := replay_accept w m k n in
      let '(m2, acc) := replay_run w m1 l' in
      (m2, if ok then (k, n) :: acc else acc)
  end.

Lemma replay_run_inv w m h l :
  window_inv w m h → 1 ≤ w →
  window_inv w (replay_run w m l).1 (h ++ (replay_run w m l).2).
Proof.
  revert m h. induction l as [|[k n] l IH]; intros m h HI Hw; simpl.
  { by rewrite app_nil_r. }
  pose proof (replay_accept_spec w m h k n HI Hw) as Ha.
  destruct (replay_accept w m k n) as [m1 []].
  - destruct Ha as (_ & Ha & _). specialize (IH _ _ Ha Hw).
    destruct (replay_run w m1 l) as [m2 acc]. simpl in *. by rewrite <- (assoc (++)) in IH.
  - destruct Ha as [Ha _]. specialize (IH _ _ Ha Hw). by destruct (replay_run w m1 l).
Qed.

(** The exact rule: a number is accepted when it is new and within the window. *)
Lemma replay_accept_exact w m h k n :
  window_inv w m h → 1 ≤ w →
  ((replay_accept w m k n).2 = true ↔
   (k, n) ∉ h ∧
   (numbers_of k h = [] ∨ greatest (numbers_of k h) - (w - 1) ≤ n)).
Proof.
  intros HW Hw. pose proof (replay_accept_spec w m h k n HW Hw) as Ha.
  unfold window_floor in Ha. destruct (replay_accept w m k n) as [m' []]; simpl.
  - destruct Ha as (Hn & _ & Ho). split; [|done]. intros _. split; [done|].
    destruct (decide (numbers_of k h = [])); auto.
  - destruct Ha as (_ & Ho). split; [done|]. intros [Hp [?|Hle]]; destruct Ho as [?|[? Hlt]];
      try done. lia.
Qed.

(** At most [w] numbers are remembered per key. *)
Lemma window_inv_size w m h k st :
  window_inv w m h → 1 ≤ w → m !! k = Some st → (size (rs_seen st) ≤ N.to_nat w)%nat.
Proof.
  intros [_ HI] Hw Hk. specialize (HI k). rewrite Hk in HI.
  eapply sender_inv_size; [done|apply HI].
Qed.

End replay.
