(* ===== verification/Redelivery.v ===== *)
(** * Replay window and redelivery (crates/relay-overlay/src/redelivery.rs)

    [RedeliveryTracker]: per sender a sliding window of accepted sequence numbers,
    per packet the bounded set of relays asked to resend it. *)

From S2P Require Import Prelude Collections ReplayWindow.

Record PacketId := { pk_sender_id : string; pk_sequence : N }.

Definition packet_pair (p : PacketId) : string * N := (pk_sender_id p, pk_sequence p).

#[export] Instance PacketId_eq_dec : EqDecision PacketId.
Proof. solve_decision. Defined.
#[export] Instance PacketId_countable : Countable PacketId.
Proof.
  refine (inj_countable' packet_pair (λ p, {| pk_sender_id := p.1; pk_sequence := p.2 |}) _).
  by intros [].
Defined.

Inductive RedeliveryError :=
| Replay
| FanoutExhausted.

Record RedeliveryTracker := {
  rd_window_size : N;
  rd_max_fanout : nat;
  rd_accepted : gmap string ReplayState;
  rd_requested_redeliveries : gmap PacketId (gset string)
}.

Definition RedeliveryTracker_new (window_size : N) (max_fanout : nat) : RedeliveryTracker :=
  {| rd_window_size := N.max window_size 1; rd_max_fanout := max_fanout `max` 1;
     rd_accepted := ∅; rd_requested_redeliveries := ∅ |}.

Definition RedeliveryTracker_default : RedeliveryTracker := RedeliveryTracker_new 64 8.

Definition set_sender (r : RedeliveryTracker) (sender : string) (st : ReplayState) :
    RedeliveryTracker :=
  {| rd_window_size := rd_window_size r; rd_max_fanout := rd_max_fanout r;
     rd_accepted := <[sender := st]> (rd_accepted r);
     rd_requested_redeliveries := rd_requested_redeliveries r |}.

Definition accept_packet (r : RedeliveryTracker) (packet : PacketId) :
    RedeliveryTracker * result unit RedeliveryError :=
  let sender := pk_sender_id packet in
  let sequence := pk_sequence packet in
  let st := default {| rs_max_seen := sequence; rs_seen := ∅ |} (rd_accepted r !! sender) in
  let floor := window_floor (rd_window_size r) (rs_max_seen st) in
  if (sequence <? floor) || bool_decide (sequence ∈ rs_seen st)
  then (set_sender r sender st, Err Replay)
  else
    let max_seen := if rs_max_seen st <? sequence then sequence else rs_max_seen st in
    let new_floor := window_floor (rd_window_size r) max_seen in
    let seen := filter (λ s, new_floor ≤ s) (rs_seen st) in
    (set_sender r sender {| rs_max_seen := max_seen; rs_seen := {[sequence]} ∪ seen |}, Ok tt).

Definition request_redelivery (r : RedeliveryTracker) (packet : PacketId) (relay_peer : string) :
    RedeliveryTracker * result unit RedeliveryError :=
  let peers := default ∅ (rd_requested_redeliveries r !! packet) in
  let put ps :=
    {| rd_window_size := rd_window_size r; rd_max_fanout := rd_max_fanout r;
       rd_accepted := rd_accepted r;
       rd_requested_redeliveries := <[packet := ps]> (rd_requested_redeliveries r) |} in
  if bool_decide (relay_peer ∈ peers) || (size peers <? rd_max_fanout r)%nat
  then (put ({[relay_peer]} ∪ peers), Ok tt)
  else (put peers, Err FanoutExhausted).

Definition redelivery_fanout (r : RedeliveryTracker) (packet : PacketId) : nat :=
  match rd_requested_redeliveries r !! packet with Some peers => size peers | None => 0 end.

(** ** The tracker against the packets it accepted *)

(** The code follows the shared acceptance rule. *)
Lemma accept_packet_rule r p :
  accept_packet r p =
  let '(m, ok) :=
    replay_accept (rd_window_size r) (rd_accepted r) (pk_sender_id p) (pk_sequence p) in
  ({| rd_window_size := rd_window_size r; rd_max_fanout := rd_max_fanout r;
      rd_accepted := m; rd_requested_redeliveries := rd_requested_redeliveries r |},
   if ok then Ok tt else Err Replay).
Proof. unfold accept_packet, replay_accept, replay_state. cbv zeta. by case_match. Qed.

Definition sequences_of (sender : string) (h : list PacketId) : list N :=
  pk_sequence <$> filter (λ p, pk_sender_id p = sender) h.

Lemma sequences_of_numbers sender h : sequences_of sender h = numbers_of sender (packet_pair <$> h).
Proof.
  unfold sequences_of, numbers_of. induction h as [|p h IH]; [done|].
  rewrite fmap_cons, !filter_cons. cbn [packet_pair fst].
  case_decide; [rewrite !fmap_cons; by f_equal|done].
Qed.

#[export] Instance packet_pair_inj : Inj (=) (=) packet_pair.
Proof. by intros [] [] [= -> ->]. Qed.

Definition tracker_inv (r : RedeliveryTracker) (h : list PacketId) : Prop :=
  window_inv (rd_window_size r) (rd_accepted r) (packet_pair <$> h).

Lemma tracker_inv_new w f : tracker_inv (RedeliveryTracker_new w f) [].
Proof. apply window_inv_empty. Qed.

Lemma accept_packet_window r p :
  rd_window_size (accept_packet r p).1 = rd_window_size r.
Proof. unfold accept_packet. by case_match. Qed.

Lemma tracker_inv_accept r h p :
  tracker_inv r h → 1 ≤ rd_window_size r →
  let '(r', res) := accept_packet r p in
  (res = Err Replay ∧ tracker_inv r' h) ∨ (res = Ok tt ∧ tracker_inv r' (h ++ [p])).
Proof.
  intros HT Hw. rewrite accept_packet_rule.
  pose proof (replay_accept_spec _ _ _ (pk_sender_id p) (pk_sequence p) HT Hw) as Ha.
  destruct (replay_accept _ _ _ _) as [m []]; unfold tracker_inv; simpl.
  - right. split; [done|]. rewrite fmap_app. apply Ha.
  - left. split; [done|apply Ha].
Qed.

(** Run the tracker over packets as they arrive, collecting the accepted ones. *)
Fixpoint accept_all (r : RedeliveryTracker) (packets : list PacketId) :
    RedeliveryTracker * list PacketId :=
  match packets with
  | [] => (r, [])
  | p :: packets' =>
      let '(r1, res) := accept_packet r p in
      let '(r2, acc) := accept_all r1 packets' in
      (r2, if is_ok res then p :: acc else acc)
  end.

Lemma accept_all_inv r h packets :
  tracker_inv r h → 1 ≤ rd_window_size r →
  let '(r', acc) := accept_all r packets in
  tracker_inv r' (h ++ acc) ∧ rd_window_size r' = rd_window_size r.
Proof.
  revert r h. induction packets as [|p packets IH]; intros r h HI Hw; simpl.
  { by rewrite app_nil_r. }
  pose proof (tracker_inv_accept r h p HI Hw) as Ha.
  pose proof (accept_packet_window r p) as Hsz.
  destruct (accept_packet r p) as [r1 res]. simpl in Hsz.
  destruct Ha as [[-> HI1]|[-> HI1]].
  - specialize (IH r1 h HI1). rewrite Hsz in IH. specialize (IH Hw).
    by destruct (accept_all r1 packets).
  - specialize (IH r1 (h ++ [p]) HI1). rewrite Hsz in IH. specialize (IH Hw).
    destruct (accept_all r1 packets) as [r2 acc]. simpl. by rewrite <- (assoc (++)) in IH.
Qed.


(** ** Bounds *)

Definition fanout_inv (r : RedeliveryTracker) : Prop :=
  (1 ≤ rd_max_fanout r)%nat ∧
  ∀ packet peers, rd_requested_redeliveries r !! packet = Some peers →
    (size peers ≤ rd_max_fanout r)%nat.

Lemma request_redelivery_inv r packet peer :
  fanout_inv r → fanout_inv (request_redelivery r packet peer).1.
Proof.
  intros [H1 HI]. unfold request_redelivery.
  set (peers := default ∅ (rd_requested_redeliveries r !! packet)).
  assert (size peers ≤ rd_max_fanout r)%nat as Hp.
  { unfold peers. destruct (rd_requested_redeliveries r !! packet) as [ps|] eqn:E;
      [by eapply HI|]. change (size (∅ : gset string) ≤ rd_max_fanout r)%nat.
    rewrite size_empty. lia. }
  case_bool_decide as Hin; simpl; [|destruct (Nat.ltb_spec (size peers) (rd_max_fanout r))];
    simpl; (split; simpl; [done|]); intros k ps [[<- <-]|[_ Hk]]%lookup_insert_Some;
    try (by eapply HI); try done.
  - by replace ({[peer]} ∪ peers) with peers by set_solver.
  - rewrite size_union by set_solver. rewrite size_singleton. lia.
Qed.

Lemma accept_packet_fanout r p :
  rd_requested_redeliveries (accept_packet r p).1 = rd_requested_redeliveries r ∧
  rd_max_fanout (accept_packet r p).1 = rd_max_fanout r.
Proof. unfold accept_packet. by case_match. Qed.

(** ** Runs of the public operations *)

Inductive TrackerCall :=
| CallAccept (p : PacketId)
| CallRequestRedelivery (p : PacketId) (peer : string).

Definition tracker_call (r : RedeliveryTracker) (c : TrackerCall) : RedeliveryTracker :=
  match c with
  | CallAccept p => (accept_packet r p).1
  | CallRequestRedelivery p peer => (request_redelivery r p peer).1
  end.

Definition tracker_run (w : N) (f : nat) (calls : list TrackerCall) : RedeliveryTracker :=
  foldl tracker_call (RedeliveryTracker_new w f) calls.

Lemma tracker_inv_request r h p peer :
  tracker_inv r h → tracker_inv (request_redelivery r p peer).1 h.
Proof. intros HI. unfold request_redelivery. by case_match. Qed.

Lemma tracker_call_caps r c :
  rd_window_size (tracker_call r c) = rd_window_size r ∧
  rd_max_fanout (tracker_call r c) = rd_max_fanout r.
Proof. destruct c; simpl; unfold accept_packet, request_redelivery; by case_match. Qed.

Lemma tracker_run_inv w f calls :
  let r := tracker_run w f calls in
  (∃ h, tracker_inv r h) ∧ fanout_inv r ∧
  rd_window_size r = N.max w 1 ∧ rd_max_fanout r = (f `max` 1)%nat.
Proof.
  unfold tracker_run. induction calls as [|c calls (IH1 & IH2 & IH3 & IH4)] using rev_ind.
  - split_and!; [exists []; apply tracker_inv_new| |done..].
    split; simpl; [lia|]. intros k ps. by rewrite lookup_empty.
  - rewrite foldl_app. simpl. set (r := foldl _ _ calls) in *.
    destruct (tracker_call_caps r c) as [-> ->]. split_and!; [| |done..].
    + destruct IH1 as [h HI]. destruct c as [p|p peer]; simpl.
      * pose proof (tracker_inv_accept r h p HI) as Ha.
        destruct (accept_packet r p) as [r' res]. simpl.
        destruct Ha as [[_ ?]|[_ ?]]; [lia|eauto..].
      * exists h. by apply tracker_inv_request.
    + destruct c as [p|p peer]; simpl; [|by apply request_redelivery_inv].
      destruct (accept_packet_fanout r p) as [E1 E2]. unfold fanout_inv. by rewrite E1, E2.
Qed.

(** ** Claims *)

(** The replay window is exact: whatever packets arrive in whatever order, no packet
    is accepted twice, and the next one is accepted precisely when it was not accepted before
    and its sequence is within the window below the greatest sequence accepted from its
    sender (a sender never heard of is always accepted). *)
Theorem replay_window_is_exact w f packets p :
  let '(r, acc) := accept_all (RedeliveryTracker_new w f) packets in
  NoDup acc ∧
  ((accept_packet r p).2 = Ok tt ↔
   p ∉ acc ∧
   (sequences_of (pk_sender_id p) acc = [] ∨
    greatest (sequences_of (pk_sender_id p) acc) - (N.max w 1 - 1) ≤ pk_sequence p)).
Proof.
  pose proof (accept_all_inv _ [] packets (tracker_inv_new w f)) as HI.
  destruct (accept_all (RedeliveryTracker_new w f) packets) as [r acc].
  simpl in HI. destruct HI as [HI Hw]; [lia|]. split.
  { destruct HI as [HI _]. by apply NoDup_fmap_1 in HI. }
  rewrite accept_packet_rule, sequences_of_numbers. rewrite Hw.
  pose proof (replay_accept_exact _ _ _ (pk_sender_id p) (pk_sequence p) HI) as He.
  rewrite Hw in He. change (pk_sender_id p, pk_sequence p) with (packet_pair p) in He.
  rewrite (list_elem_of_fmap_inj packet_pair) in He. rewrite <- He by lia.
  by destruct (replay_accept _ _ _ _) as [m []].
Qed.

(** The tracker's memory is bounded: after any sequence of packets and redelivery
    requests, at most [window_size] sequence numbers are remembered per sender and at most
    [max_fanout] relays are asked to resend a packet. *)
Theorem tracker_memory_bounded w f calls sender packet :
  let r := tracker_run w f calls in
  match rd_accepted r !! sender with
  | Some st => (size (rs_seen st) ≤ N.to_nat (N.max w 1))%nat
  | None => True
  end ∧ (redelivery_fanout r packet ≤ f `max` 1)%nat.
Proof.
  intros r. destruct (tracker_run_inv w f calls) as ([h HI] & [_ HF] & Hw & Hf).
  fold r in HI, HF, Hw, Hf. split.
  - destruct (rd_accepted r !! sender) eqn:E; [|done]. rewrite <- Hw.
    eapply window_inv_size; [apply HI|lia|done].
  - unfold redelivery_fanout. destruct (rd_requested_redeliveries r !! packet) eqn:E; [|lia].
    rewrite <- Hf. by eapply HF.
Qed.
