(* ===== verification/Integrity.v ===== *)
(** * Relay-visible packets (crates/relay-overlay/src/integrity.rs)

    The protected envelope a relay carries, the bounded forwarding of a packet, and
    the commitment to the associated data. *)

From S2P Require Import Prelude Collections Bytes Crypto Topology.

Inductive RelayIntegrityError :=
| HopLimitExceeded
| EmptyCiphertext
| MissingProtectedMetadata.

Inductive RelayPayloadKind :=
| Media
| TextControl
| StoreForward.

Record RelayProtectedEnvelope := {
  pe_kind : RelayPayloadKind;
  pe_kid : bytes;
  pe_counter : N;
  pe_aad_commitment : bytes;
  pe_ciphertext : bytes
}.

Record RelayPacket := {
  rp_next_hop : string;
  rp_envelope : RelayProtectedEnvelope;
  rp_hop_count : N
}.

Definition kind_tag (k : RelayPayloadKind) : bytes :=
  as_bytes match k with
           | Media => "media"
           | TextControl => "text_control"
           | StoreForward => "store_forward"
           end.

(** The bytes hashed by [aad_commitment]. *)
Definition aad_preimage (kind : RelayPayloadKind) (kid : bytes) (counter : N)
    (aad_metadata : bytes) : bytes :=
  as_bytes "discrypt-relay-protected-aad-v1" ++ kind_tag kind ++
  be_u64 (len kid) ++ kid ++ be_u64 counter ++
  be_u64 (len aad_metadata) ++ aad_metadata.

Section hashing.
Context `{Sha256}.

Definition aad_commitment (kind : RelayPayloadKind) (kid : bytes) (counter : N)
    (aad_metadata : bytes) : bytes := sha256 (aad_preimage kind kid counter aad_metadata).

Definition RelayProtectedEnvelope_new (kind : RelayPayloadKind) (kid : bytes) (counter : N)
    (aad_metadata ciphertext : bytes) : result RelayProtectedEnvelope RelayIntegrityError :=
  check reject_if (bool_decide (kid = []) || bool_decide (aad_metadata = []))
    MissingProtectedMetadata in
  check reject_if (bool_decide (ciphertext = [])) EmptyCiphertext in
  Ok {| pe_kind := kind; pe_kid := kid; pe_counter := counter;
        pe_aad_commitment := aad_commitment kind kid counter aad_metadata;
        pe_ciphertext := ciphertext |}.
End hashing.

Definition visible_bytes (e : RelayProtectedEnvelope) : bytes :=
  kind_tag (pe_kind e) ++ be_u64 (len (pe_kid e)) ++ pe_kid e ++ be_u64 (pe_counter e) ++
  pe_aad_commitment e ++ pe_ciphertext e.

Definition protected_validate (e : RelayProtectedEnvelope) : result unit RelayIntegrityError :=
  check reject_if (bool_decide (pe_kid e = [])) MissingProtectedMetadata in
  reject_if (bool_decide (pe_ciphertext e = [])) EmptyCiphertext.

Definition from_envelope (next_hop : string) (e : RelayProtectedEnvelope) : RelayPacket :=
  {| rp_next_hop := next_hop; rp_envelope := e; rp_hop_count := 0 |}.

Definition validate_ciphertext_only (p : RelayPacket) : result unit RelayIntegrityError :=
  check protected_validate (rp_envelope p) in
  reject_if (N.of_nat MAX_RELAY_HOPS <? rp_hop_count p) HopLimitExceeded.

Definition forward (p : RelayPacket) (next_hop : string) : RelayPacket :=
  {| rp_next_hop := next_hop; rp_envelope := rp_envelope p;
     rp_hop_count := sat_add u8_max (rp_hop_count p) 1 |}.

Definition forward_checked (p : RelayPacket) (next_hop : string) :
    result RelayPacket RelayIntegrityError :=
  check validate_ciphertext_only p in
  let forwarded := forward p next_hop in
  check validate_ciphertext_only forwarded in
  Ok forwarded.

(** [tamper]: flip the top bit of the first ciphertext byte. *)
Definition tamper (p : RelayPacket) : RelayPacket :=
  let e := rp_envelope p in
  {| rp_next_hop := rp_next_hop p;
     rp_envelope :=
       {| pe_kind := pe_kind e; pe_kid := pe_kid e; pe_counter := pe_counter e;
          pe_aad_commitment := pe_aad_commitment e;
          pe_ciphertext :=
            match pe_ciphertext e with [] => [] | b :: r => N.lxor b 128 :: r end |};
     rp_hop_count := rp_hop_count p |}.

Definition contains_plaintext (p : RelayPacket) (plaintext : bytes) : bool :=
  negb (bool_decide (plaintext = [])) && has_window plaintext (visible_bytes (rp_envelope p)).

(** ** Facts *)

#[export] Instance kind_tag_inj : Inj (=) (=) kind_tag.
Proof. intros [] []; done || (vm_compute; discriminate). Qed.

(** The tags need no length: no tag is a prefix of another. *)
Lemma kind_tag_app_inj k1 k2 (r s : bytes) :
  kind_tag k1 ++ r = kind_tag k2 ++ s → k1 = k2 ∧ r = s.
Proof.
  destruct k1, k2; try (by intros ?%(app_inv_head _); auto); intros H;
    apply (f_equal head) in H; vm_compute in H; discriminate.
Qed.

Lemma aad_preimage_inj k1 k2 kid1 kid2 c1 c2 a1 a2 :
  len kid1 < 2 ^ 64 → len kid2 < 2 ^ 64 → c1 < 2 ^ 64 → c2 < 2 ^ 64 →
  len a1 < 2 ^ 64 → len a2 < 2 ^ 64 →
  aad_preimage k1 kid1 c1 a1 = aad_preimage k2 kid2 c2 a2 →
  k1 = k2 ∧ kid1 = kid2 ∧ c1 = c2 ∧ a1 = a2.
Proof.
  intros ?????? H. unfold aad_preimage in H.
  apply app_inv_head, kind_tag_app_inj in H as [-> H].
  apply be_framed_app_inj in H as [-> H]; [|done..].
  apply be_bytes_app_inj in H as [-> H]; [|done..].
  apply (f_equal (λ b, b ++ [])) in H. rewrite <- !(assoc (++)) in H.
  by apply be_framed_app_inj in H as [-> _].
Qed.

Definition forward_chain (p : RelayPacket) (hops : list string) :
    result RelayPacket RelayIntegrityError :=
  foldl (λ acc hop, let* q := acc in forward_checked q hop) (Ok p) hops.

Lemma forward_checked_spec p hop :
  protected_validate (rp_envelope p) = Ok tt → rp_hop_count p ≤ 255 →
  forward_checked p hop =
    if rp_hop_count p <? 3 then
      Ok {| rp_next_hop := hop; rp_envelope := rp_envelope p; rp_hop_count := rp_hop_count p + 1 |}
    else Err HopLimitExceeded.
Proof.
  intros Hv Hc. unfold forward_checked, validate_ciphertext_only, forward, reject_if.
  cbn [rp_envelope rp_hop_count]. rewrite Hv. cbn [rbind].
  change (N.of_nat MAX_RELAY_HOPS) with 3. unfold sat_add, u8_max. change (2 ^ 8 - 1) with 255.
  destruct (N.ltb_spec 3 (rp_hop_count p)), (N.ltb_spec (rp_hop_count p) 3),
    (N.ltb_spec 3 (N.min (rp_hop_count p + 1) 255)); cbn [rbind]; try lia; try done.
  repeat f_equal. lia.
Qed.

Lemma forward_chain_err hops e :
  foldl (λ acc hop, let* q := acc in forward_checked q hop) (Err e) hops = Err e.
Proof. induction hops; done. Qed.

(** ** Claims *)

(** A relayed packet travels at most three hops and arrives as it left: forwarding a
    packet with a valid envelope along a list of hops succeeds exactly when there are at
    most three, and then the envelope is unchanged, the hop count is the number of hops and
    the next hop is the last of them; a longer list fails with the hop limit. A packet whose
    envelope lacks a key id or a ciphertext is not forwarded at all. *)
Theorem relay_hops_bounded from e hops :
  match protected_validate e with
  | Ok _ =>
      forward_chain (from_envelope from e) hops =
        if (length hops <=? 3)%nat then
          Ok {| rp_next_hop := default from (last hops); rp_envelope := e;
                rp_hop_count := N.of_nat (length hops) |}
        else Err HopLimitExceeded
  | Err err =>
      hops ≠ [] → forward_chain (from_envelope from e) hops = Err err
  end.
Proof.
  unfold forward_chain. destruct (protected_validate e) as [[]|err] eqn:Hv.
  - induction hops as [|hop hops IH] using rev_ind; [done|].
    rewrite foldl_app, IH, length_app, last_snoc. simpl.
    destruct (Nat.leb_spec (length hops) 3); simpl.
    + rewrite forward_checked_spec by (simpl; lia || done). simpl.
      destruct (N.ltb_spec (N.of_nat (length hops)) 3), (Nat.leb_spec (length hops + 1) 3);
        try lia; [|done]. repeat f_equal. lia.
    + by rewrite (proj2 (Nat.leb_gt (length hops + 1) 3)) by lia.
  - destruct hops as [|hop hops]; [done|]. intros _. simpl.
    unfold forward_checked at 2, validate_ciphertext_only. simpl. rewrite Hv. simpl.
    apply forward_chain_err.
Qed.
