(* ===== verification/Gossip.v ===== *)
(** * Gossip convergence (crates/relay-overlay/src/gossip.rs)

    Peers hold sets of content-blind items; a round gives every peer the union. *)

From S2P Require Import Prelude Collections Bytes Crypto.

Record GossipItem := {
  gi_author_leaf : N;
  gi_sequence : N;
  gi_message_id : string;
  gi_ciphertext_hash : bytes
}.

Definition item_tuple (i : GossipItem) : N * (N * (string * bytes)) :=
  (gi_author_leaf i, (gi_sequence i, (gi_message_id i, gi_ciphertext_hash i))).

#[export] Instance GossipItem_eq_dec : EqDecision GossipItem.
Proof. solve_decision. Defined.
#[export] Instance GossipItem_countable : Countable GossipItem.
Proof.
  refine (inj_countable' item_tuple (λ t,
    {| gi_author_leaf := t.1; gi_sequence := t.2.1; gi_message_id := t.2.2.1;
       gi_ciphertext_hash := t.2.2.2 |}) _).
  by intros [].
Defined.

(** The derived [Ord]: fields in order. *)
#[export] Instance GossipItem_ord_key : OrdKey GossipItem := cmp_by item_tuple key_cmp.

Definition GossipItem_new `{Sha256} (author_leaf sequence : N) (message_id : string)
    (ciphertext : bytes) : GossipItem :=
  {| gi_author_leaf := author_leaf; gi_sequence := sequence; gi_message_id := message_id;
     gi_ciphertext_hash := sha256 ciphertext |}.

Record GossipNode := { gn_items : gset GossipItem }.

Definition GossipNode_default : GossipNode := {| gn_items := ∅ |}.

Definition node_insert (n : GossipNode) (i : GossipItem) : GossipNode :=
  {| gn_items := {[i]} ∪ gn_items n |}.

(** [merge]: insert in turn, counting the items that were new. *)
Definition node_merge (n : GossipNode) (items : list GossipItem) : GossipNode * nat :=
  foldl (λ acc i,
    if bool_decide (i ∈ gn_items acc.1) then acc else (node_insert acc.1 i, S acc.2))
    (n, 0%nat) items.

Definition node_snapshot (n : GossipNode) : list GossipItem := sorted_elements (gn_items n).

Definition node_len (n : GossipNode) : nat := size (gn_items n).

Record GossipMesh := { gm_nodes : gmap string GossipNode }.

Definition GossipMesh_new (peer_ids : list string) : GossipMesh :=
  {| gm_nodes := list_to_map ((λ p, (p, GossipNode_default)) <$> peer_ids) |}.

Definition mesh_insert (m : GossipMesh) (peer_id : string) (i : GossipItem) : GossipMesh :=
  match gm_nodes m !! peer_id with
  | Some n => {| gm_nodes := <[peer_id := node_insert n i]> (gm_nodes m) |}
  | None => m
  end.

(** Every item known to some peer, in order. *)
Definition mesh_union (m : GossipMesh) : list GossipItem :=
  sorted_elements (list_to_set (values (gm_nodes m) ≫= node_snapshot) : gset GossipItem).

Definition round (m : GossipMesh) : GossipMesh * nat :=
  let union := mesh_union m in
  ({| gm_nodes := (λ n, (node_merge n union).1) <$> gm_nodes m |},
   sum_list ((λ n, (node_merge n union).2) <$> values (gm_nodes m))).

Definition converged (m : GossipMesh) : bool :=
  match node_snapshot <$> values (gm_nodes m) with
  | [] => true
  | first :: rest => forallb (λ s, bool_decide (s = first)) rest
  end.

Definition known_count (m : GossipMesh) (peer_id : string) : option nat :=
  node_len <$> gm_nodes m !! peer_id.

Definition mesh_snapshot (m : GossipMesh) (peer_id : string) : list GossipItem :=
  match gm_nodes m !! peer_id with Some n => node_snapshot n | None => [] end.

(** ** Facts *)

Lemma node_merge_spec n items :
  NoDup items →
  gn_items (node_merge n items).1 = list_to_set items ∪ gn_items n ∧
  (node_merge n items).2 = size (list_to_set items ∖ gn_items n : gset GossipItem).
Proof.
  intros Hnd. unfold node_merge.
  assert (∀ n0 k, NoDup items →
    gn_items (foldl (λ acc i,
      if bool_decide (i ∈ gn_items acc.1) then acc else (node_insert acc.1 i, S acc.2))
      (n0, k) items).1 = list_to_set items ∪ gn_items n0 ∧
    (foldl (λ acc i,
      if bool_decide (i ∈ gn_items acc.1) then acc else (node_insert acc.1 i, S acc.2))
      (n0, k) items).2 = (k + size (list_to_set items ∖ gn_items n0 : gset GossipItem))%nat)
    as H; [|destruct (H n 0%nat Hnd) as [-> ->]; done].
  clear. induction items as [|i items IH]; intros n0 k Hnd; simpl.
  - split; [set_solver|]. replace (∅ ∖ gn_items n0) with (∅ : gset GossipItem) by set_solver.
    rewrite size_empty. lia.
  - apply NoDup_cons in Hnd as [Hi Hnd]. case_bool_decide as Hin.
    + destruct (IH n0 k Hnd) as [-> ->]. split; [set_solver|]. do 2 f_equal. set_solver.
    + destruct (IH (node_insert n0 i) (S k) Hnd) as [-> ->]. simpl. split; [set_solver|].
      replace (({[i]} ∪ list_to_set items) ∖ gn_items n0 : gset GossipItem)
        with ({[i]} ∪ list_to_set items ∖ ({[i]} ∪ gn_items n0) : gset GossipItem).
      * rewrite (size_union {[i]} (list_to_set items ∖ ({[i]} ∪ gn_items n0))), size_singleton
          by set_solver. lia.
      * apply set_eq. intros x. destruct (decide (x = i)) as [->|]; set_solver.
Qed.

(** The items known to some peer. *)
Definition all_items (m : GossipMesh) : gset GossipItem := list_to_set (mesh_union m).

Lemma elem_of_mesh_union m i :
  i ∈ mesh_union m ↔ ∃ p n, gm_nodes m !! p = Some n ∧ i ∈ gn_items n.
Proof.
  unfold mesh_union. rewrite elem_of_sorted_elements, elem_of_list_to_set, list_elem_of_bind.
  split.
  - intros (n & Hi & [p Hp]%elem_of_values). unfold node_snapshot in Hi.
    rewrite elem_of_sorted_elements in Hi. eauto.
  - intros (p & n & Hp & Hi). exists n. unfold node_snapshot.
    rewrite elem_of_sorted_elements. split; [done|]. apply elem_of_values. eauto.
Qed.

Lemma NoDup_mesh_union m : NoDup (mesh_union m).
Proof. apply NoDup_sorted_elements. Qed.

Lemma round_lookup m p :
  gm_nodes (round m).1 !! p = (λ _, {| gn_items := all_items m |}) <$> gm_nodes m !! p.
Proof.
  simpl. rewrite lookup_fmap. destruct (gm_nodes m !! p) as [n|] eqn:Hp; [|done]. simpl. f_equal.
  destruct (node_merge_spec n (mesh_union m) (NoDup_mesh_union m)) as [Hi _].
  destruct (node_merge n (mesh_union m)).1 as [items]. simpl in Hi. rewrite Hi. f_equal.
  unfold all_items. apply set_eq. intros i. rewrite elem_of_union, elem_of_list_to_set.
  rewrite elem_of_mesh_union. naive_solver.
Qed.

Lemma sum_list_zero (l : list nat) : (∀ c, c ∈ l → c = 0%nat) → sum_list l = 0%nat.
Proof.
  induction l as [|c l IH]; intros Hl; simpl; [done|].
  rewrite (Hl c) by (by left). apply IH. intros x Hx. apply Hl. by right.
Qed.

Lemma converged_spec m :
  (∀ p q n n', gm_nodes m !! p = Some n → gm_nodes m !! q = Some n' → gn_items n = gn_items n') →
  converged m = true.
Proof.
  intros Heq. unfold converged. destruct (values (gm_nodes m)) as [|n ns] eqn:Hv; csimpl; [done|].
  apply Is_true_true, forallb_True, Forall_forall. intros s Hs. apply bool_decide_pack.
  apply list_elem_of_fmap in Hs as (n' & -> & Hn').
  assert (n ∈ values (gm_nodes m)) as [p Hp]%elem_of_values by (rewrite Hv; by left).
  assert (n' ∈ values (gm_nodes m)) as [q Hq]%elem_of_values by (rewrite Hv; by right).
  unfold node_snapshot. by rewrite (Heq _ _ _ _ Hp Hq).
Qed.

(** ** Claims *)

(** One gossip round converges: afterwards every peer holds exactly the items some
    peer held before, no peer is added or lost, the mesh reports convergence, and a further
    round delivers nothing and changes nothing. *)
Theorem gossip_round_converges m :
  let '(m', _) := round m in
  converged m' = true ∧
  (∀ p, is_Some (gm_nodes m' !! p) ↔ is_Some (gm_nodes m !! p)) ∧
  (∀ p n i, gm_nodes m' !! p = Some n →
    (i ∈ gn_items n ↔ ∃ q n0, gm_nodes m !! q = Some n0 ∧ i ∈ gn_items n0)) ∧
  round m' = (m', 0%nat).
Proof.
  destruct (round m) as [m' k] eqn:Hr. assert (m' = (round m).1) as -> by by rewrite Hr.
  clear Hr k.
  assert (∀ p n, gm_nodes (round m).1 !! p = Some n → gn_items n = all_items m) as Hall.
  { intros p n. rewrite round_lookup. by intros (? & _ & ->)%fmap_Some. }
  split_and!.
  - apply converged_spec. intros p q n n' Hp Hq. by rewrite (Hall _ _ Hp), (Hall _ _ Hq).
  - intros p. rewrite round_lookup. by rewrite fmap_is_Some.
  - intros p n i Hp. rewrite (Hall _ _ Hp). unfold all_items.
    by rewrite elem_of_list_to_set, elem_of_mesh_union.
  - set (m' := (round m).1) in *.
    assert (∀ p n, gm_nodes m' !! p = Some n →
      list_to_set (mesh_union m') ∪ gn_items n = gn_items n) as Hu.
    { intros p n Hp. apply set_eq. intros i.
      rewrite elem_of_union, elem_of_list_to_set, elem_of_mesh_union, (Hall _ _ Hp).
      split; [|auto]. intros [(q & n0 & Hq & Hi)|?]; [|done]. by rewrite (Hall _ _ Hq) in Hi. }
    unfold round. f_equal.
    + destruct m' as [nodes]. simpl in *. f_equal. apply map_eq. intros p.
      rewrite lookup_fmap. destruct (nodes !! p) as [n|] eqn:Hp; [|done]. simpl. f_equal.
      destruct (node_merge_spec n _ (NoDup_mesh_union {| gm_nodes := nodes |})) as [Hi _].
      destruct (node_merge n _).1 as [items]. simpl in Hi.
      rewrite (Hu p n Hp) in Hi. rewrite Hi. by destruct n.
    + apply sum_list_zero. intros c (n & -> & [p Hp]%elem_of_values)%list_elem_of_fmap.
      destruct (node_merge_spec n _ (NoDup_mesh_union m')) as [_ ->].
      specialize (Hu p n Hp). apply size_empty_iff. set_solver.
Qed.
