(* ===== verification/Capability.v ===== *)
(** * Capability advertisements (crates/relay-overlay/src/capability.rs)

    What a peer advertises about its relay capacity, its validation and scoring, and
    the book of the latest advertisement per peer. [RelayRuntimeObservation] is the
    record of manager.rs an advertisement is turned into. *)

From S2P Require Import Prelude Collections Bytes Crypto.

Inductive BatteryDozePosture :=
| Charging
| BatteryNormal
| BatterySaver
| Dozing
| UnknownPosture.

Definition cost_bps (p : BatteryDozePosture) : N :=
  match p with
  | Charging => 0
  | BatteryNormal => 250
  | UnknownPosture => 1000
  | BatterySaver => 2500
  | Dozing => 7500
  end.

Record RelayCapacityAdvertisement := {
  ca_max_fanout : N;
  ca_egress_bytes_per_second : N;
  ca_accepts_store_forward : bool
}.

Record RelayCapabilityAdvertisement := {
  ad_peer_id : string;
  ad_sequence : N;
  ad_issued_at_ms : N;
  ad_expires_at_ms : N;
  ad_relay_capacity : RelayCapacityAdvertisement;
  ad_battery_doze : BatteryDozePosture;
  ad_observed_rtt_ms : N;
  ad_packet_loss_bps : N;
  ad_contributed_bytes : N;
  ad_consumed_bytes : N
}.

Definition MAX_BPS : N := 10000.

Record RelayRuntimeObservation := {
  ob_peer_id : string;
  ob_latency_ms : N;
  ob_successful_probes : N;
  ob_failed_probes : N;
  ob_battery_cost_bps : N;
  ob_contributed_bytes : N;
  ob_consumed_bytes : N
}.

Inductive CapabilityAdvertisementError :=
| InvalidAdvertisement (why : string)
| ExpiredAdvertisement
| StaleAdvertisement (peer_id : string) (sequence latest : N).

#[export] Instance CapabilityAdvertisementError_eq_dec :
  EqDecision CapabilityAdvertisementError.
Proof. solve_decision. Defined.

Definition validate_at (a : RelayCapabilityAdvertisement) (now_ms : N) :
    result unit CapabilityAdvertisementError :=
  check reject_if (is_blank (ad_peer_id a)) (InvalidAdvertisement "peer id is required") in
  check reject_if (ad_sequence a =? 0) (InvalidAdvertisement "sequence must be non-zero") in
  check reject_if
    ((ad_expires_at_ms a <=? now_ms) || (ad_expires_at_ms a <=? ad_issued_at_ms a))
    ExpiredAdvertisement in
  check reject_if
    ((ca_max_fanout (ad_relay_capacity a) =? 0) ||
     (ca_egress_bytes_per_second (ad_relay_capacity a) =? 0))
    (InvalidAdvertisement "relay capacity must include positive fanout and egress budget") in
  reject_if (MAX_BPS <? ad_packet_loss_bps a)
    (InvalidAdvertisement "packet loss must be basis points").

Definition freeload_score_bps (a : RelayCapabilityAdvertisement) : N :=
  if ad_consumed_bytes a =? 0 then 0
  else if ad_consumed_bytes a <=? ad_contributed_bytes a then 0
  else
    let deficit := ad_consumed_bytes a - ad_contributed_bytes a in
    let consumed := N.max (ad_consumed_bytes a) 1 in
    N.min (sat_mul u128_max deficit MAX_BPS / consumed) MAX_BPS.

Definition advertisement_digest `{Sha256} (a : RelayCapabilityAdvertisement) : bytes :=
  sha256 (as_bytes (ad_peer_id a) ++ be_u64 (ad_sequence a) ++ be_u64 (ad_issued_at_ms a) ++
          be_u64 (ad_expires_at_ms a) ++
          be_u16 (ca_max_fanout (ad_relay_capacity a)) ++
          be_u64 (ca_egress_bytes_per_second (ad_relay_capacity a)) ++
          [if ca_accepts_store_forward (ad_relay_capacity a) then 1 else 0] ++
          be_u16 (cost_bps (ad_battery_doze a)) ++ be_u32 (ad_observed_rtt_ms a) ++
          be_u16 (ad_packet_loss_bps a) ++ be_u16 (freeload_score_bps a)).

Definition to_runtime_observation (a : RelayCapabilityAdvertisement) : RelayRuntimeObservation :=
  {| ob_peer_id := ad_peer_id a;
     ob_latency_ms := N.max (ad_observed_rtt_ms a) 1;
     ob_successful_probes := MAX_BPS - ad_packet_loss_bps a;
     ob_failed_probes := ad_packet_loss_bps a;
     ob_battery_cost_bps := cost_bps (ad_battery_doze a);
     ob_contributed_bytes := ad_contributed_bytes a;
     ob_consumed_bytes := ad_consumed_bytes a |}.

Record CapabilityAdvertisementBook := {
  bk_latest : gmap string RelayCapabilityAdvertisement
}.

Definition CapabilityAdvertisementBook_default : CapabilityAdvertisementBook :=
  {| bk_latest := ∅ |}.

Definition book_accept (b : CapabilityAdvertisementBook) (a : RelayCapabilityAdvertisement)
    (now_ms : N) : CapabilityAdvertisementBook * result unit CapabilityAdvertisementError :=
  match validate_at a now_ms with
  | Err e => (b, Err e)
  | Ok _ =>
      match bk_latest b !! ad_peer_id a with
      | Some latest =>
          if ad_sequence a <=? ad_sequence latest
          then (b, Err (StaleAdvertisement (ad_peer_id a) (ad_sequence a) (ad_sequence latest)))
          else ({| bk_latest := <[ad_peer_id a := a]> (bk_latest b) |}, Ok tt)
      | None => ({| bk_latest := <[ad_peer_id a := a]> (bk_latest b) |}, Ok tt)
      end
  end.

Definition book_get (b : CapabilityAdvertisementBook) (peer_id : string) :
    option RelayCapabilityAdvertisement := bk_latest b !! peer_id.

Definition book_len (b : CapabilityAdvertisementBook) : nat := size (bk_latest b).

Definition book_is_empty (b : CapabilityAdvertisementBook) : bool := bool_decide (bk_latest b = ∅).

(** ** Facts *)

Lemma freeload_score_bound a : freeload_score_bps a ≤ MAX_BPS.
Proof. unfold freeload_score_bps. repeat case_match; unfold MAX_BPS; lia. Qed.

(** The 128-bit product of 64-bit counters never saturates. *)
Lemma freeload_score_exact a :
  ad_consumed_bytes a ≤ u64_max →
  freeload_score_bps a =
    if ad_consumed_bytes a <=? ad_contributed_bytes a then 0
    else (ad_consumed_bytes a - ad_contributed_bytes a) * MAX_BPS / ad_consumed_bytes a.
Proof.
  intros Hu. unfold freeload_score_bps. change MAX_BPS with 10000.
  destruct (N.eqb_spec (ad_consumed_bytes a) 0) as [->|Hz].
  { by rewrite (proj2 (N.leb_le 0 _)) by lia. }
  destruct (N.leb_spec (ad_consumed_bytes a) (ad_contributed_bytes a)); [done|].
  unfold sat_mul. assert (u64_max * 10000 ≤ u128_max) as Hw by (vm_compute; discriminate).
  rewrite (N.min_l _ u128_max) by nia. rewrite (N.max_l _ 1) by lia.
  apply N.min_l. apply N.Div0.div_le_upper_bound. nia.
Qed.

(** The book only moves forward. *)
Definition book_le (b b' : CapabilityAdvertisementBook) : Prop :=
  ∀ p a, bk_latest b !! p = Some a →
    ∃ a', bk_latest b' !! p = Some a' ∧ (a' = a ∨ ad_sequence a < ad_sequence a').

#[export] Instance book_le_preorder : PreOrder book_le.
Proof.
  split.
  - intros b p a Ha. eauto.
  - intros b1 b2 b3 H12 H23 p a Ha. destruct (H12 p a Ha) as (a2 & Ha2 & Ho).
    destruct (H23 p a2 Ha2) as (a3 & Ha3 & Ho'). exists a3. split; [done|].
    destruct Ho as [->|?], Ho' as [->|?]; auto. right. lia.
Qed.

Definition book_wf (b : CapabilityAdvertisementBook) : Prop :=
  ∀ p a, bk_latest b !! p = Some a → ad_peer_id a = p ∧ ∃ now, validate_at a now = Ok tt.

Lemma book_accept_cases b a now :
  let '(b', r) := book_accept b a now in
  (b' = b ∧ ∃ e, r = Err e) ∨
  (r = Ok tt ∧ validate_at a now = Ok tt ∧
   b' = {| bk_latest := <[ad_peer_id a := a]> (bk_latest b) |} ∧
   ∀ old, bk_latest b !! ad_peer_id a = Some old → ad_sequence old < ad_sequence a).
Proof.
  unfold book_accept. destruct (validate_at a now) as [[]|e]; [|eauto].
  destruct (bk_latest b !! ad_peer_id a) as [old|] eqn:Hold.
  - destruct (N.leb_spec (ad_sequence a) (ad_sequence old)); [eauto|]. right.
    split_and!; [done..|]. by intros ? [= <-].
  - right. split_and!; done.
Qed.

Lemma book_accept_le b a now : book_le b (book_accept b a now).1.
Proof.
  pose proof (book_accept_cases b a now) as Hc.
  destruct (book_accept b a now) as [b' r]. simpl.
  destruct Hc as [[-> _]|(_ & _ & -> & Hold)]; [done|].
  intros p x Hx. simpl. destruct (decide (ad_peer_id a = p)) as [<-|].
  - rewrite lookup_insert_eq. exists a. eauto.
  - rewrite lookup_insert_ne by done. eauto.
Qed.

Lemma book_accept_wf b a now : book_wf b → book_wf (book_accept b a now).1.
Proof.
  intros Hw. pose proof (book_accept_cases b a now) as Hc.
  destruct (book_accept b a now) as [b' r]. simpl.
  destruct Hc as [[-> _]|(_ & Hv & -> & _)]; [done|].
  intros p x; simpl; intros [[<- <-]|[_ Hx]]%lookup_insert_Some; [eauto|by apply Hw].
Qed.

Definition book_run (b : CapabilityAdvertisementBook)
    (calls : list (RelayCapabilityAdvertisement * N)) : CapabilityAdvertisementBook :=
  foldl (λ b c, (book_accept b c.1 c.2).1) b calls.

Lemma book_run_le b calls : book_le b (book_run b calls).
Proof.
  revert b. induction calls as [|[a now] calls IH]; intros b; simpl; [done|].
  etrans; [apply book_accept_le|apply IH].
Qed.

Lemma book_run_wf b calls : book_wf b → book_wf (book_run b calls).
Proof.
  revert b. induction calls as [|[a now] calls IH]; intros b Hb; simpl; [done|].
  by apply IH, book_accept_wf.
Qed.

(** ** Claims *)

(** Advertisements cannot be rolled back: after any sequence of accepted and refused
    advertisements, what the book holds for a peer is its own, passed validation, is not
    older than what it held before, and only a strictly greater sequence replaced it; so an
    advertisement with a sequence already reached is refused as stale or invalid from then
    on and leaves the book as it is. *)
Theorem capability_book_is_monotone calls later a old now :
  let b := book_run CapabilityAdvertisementBook_default calls in
  let b' := book_run b later in
  book_wf b ∧ book_le b b' ∧
  (book_get b (ad_peer_id a) = Some old → ad_sequence a ≤ ad_sequence old →
   (book_accept b' a now).1 = b' ∧ is_ok (book_accept b' a now).2 = false).
Proof.
  intros b b'. split_and!.
  - apply book_run_wf. intros p x. simpl. by rewrite lookup_empty.
  - apply book_run_le.
  - intros Hold Hs. destruct (book_run_le b later _ _ Hold) as (new & Hnew & Ho).
    fold b' in Hnew. assert (ad_sequence a ≤ ad_sequence new) by (destruct Ho as [->|]; lia).
    unfold book_accept. destruct (validate_at a now) as [[]|e]; [|done].
    rewrite Hnew. by rewrite (proj2 (N.leb_le _ _)) by done.
Qed.
