(* ===== verification/StoreForward.v ===== *)
(** * Store and forward (crates/relay-overlay/src/store_forward.rs)

    The bounded queue of ciphertext envelopes a volunteer relay holds for offline
    members, its admission policy and its drain. *)

From S2P Require Import Prelude Collections Bytes Integrity Capability.

Inductive StoreForwardError :=
| SfExpired
| SfFanoutExhausted
| VisiblePlaintext
| UnauthorizedRecipient
| RetentionWindowExceeded
| VolunteerRelayDisabled
| QueueFull
| DuplicateMessage.

Record VolunteerRelaySettings := {
  vs_enabled : bool;
  vs_local_peer_id : string;
  vs_max_queue_envelopes : nat;
  vs_max_fanout_per_message : nat;
  vs_max_volunteer_relays : nat
}.

Definition settings_enabled (local_peer_id : string) : VolunteerRelaySettings :=
  {| vs_enabled := true; vs_local_peer_id := local_peer_id; vs_max_queue_envelopes := 256;
     vs_max_fanout_per_message := 4; vs_max_volunteer_relays := 4 |}.

Definition settings_disabled (local_peer_id : string) : VolunteerRelaySettings :=
  {| vs_enabled := false; vs_local_peer_id := local_peer_id; vs_max_queue_envelopes := 1;
     vs_max_fanout_per_message := 1; vs_max_volunteer_relays := 0 |}.

Definition normalized (s : VolunteerRelaySettings) : VolunteerRelaySettings :=
  {| vs_enabled := vs_enabled s; vs_local_peer_id := vs_local_peer_id s;
     vs_max_queue_envelopes := vs_max_queue_envelopes s `max` 1;
     vs_max_fanout_per_message := vs_max_fanout_per_message s `max` 1;
     vs_max_volunteer_relays :=
       if vs_enabled s then vs_max_volunteer_relays s `max` 1 else vs_max_volunteer_relays s |}.

Record StoreForwardPolicy := {
  sp_authorized_recipients : gset string;
  sp_max_ttl_ms : N;
  sp_retention_window_ms : N;
  sp_volunteer : VolunteerRelaySettings
}.

Definition StoreForwardPolicy_new (recipients : list string) (max_ttl_ms retention_window_ms : N)
    (volunteer : VolunteerRelaySettings) : StoreForwardPolicy :=
  {| sp_authorized_recipients := list_to_set recipients;
     sp_max_ttl_ms := N.max max_ttl_ms 1;
     sp_retention_window_ms := N.max retention_window_ms 1;
     sp_volunteer := normalized volunteer |}.

Definition permits_recipient (p : StoreForwardPolicy) (recipient_id : string) : bool :=
  bool_decide (sp_authorized_recipients p = ∅) ||
  bool_decide (recipient_id ∈ sp_authorized_recipients p).

Record StoreForwardEnvelope := {
  sf_message_id : string;
  sf_recipient_id : string;
  sf_payload : RelayProtectedEnvelope;
  sf_created_at_ms : N;
  sf_expires_at_ms : N;
  sf_fanout_remaining : nat
}.

Definition StoreForwardEnvelope_new (message_id recipient_id : string)
    (payload : RelayProtectedEnvelope) (created_at_ms ttl_ms : N) (fanout : nat) :
    result StoreForwardEnvelope StoreForwardError :=
  check reject_if (ttl_ms =? 0) SfExpired in
  check reject_if (fanout =? 0)%nat SfFanoutExhausted in
  Ok {| sf_message_id := message_id; sf_recipient_id := recipient_id; sf_payload := payload;
        sf_created_at_ms := created_at_ms;
        sf_expires_at_ms := sat_add u64_max created_at_ms ttl_ms;
        sf_fanout_remaining := fanout |}.

Definition is_live (e : StoreForwardEnvelope) (now_ms : N) : bool := now_ms <=? sf_expires_at_ms e.

Definition ttl_ms (e : StoreForwardEnvelope) : N := sf_expires_at_ms e - sf_created_at_ms e.

Definition consume_fanout (e : StoreForwardEnvelope) :
    StoreForwardEnvelope * result unit StoreForwardError :=
  match sf_fanout_remaining e with
  | O => (e, Err SfFanoutExhausted)
  | S n =>
      ({| sf_message_id := sf_message_id e; sf_recipient_id := sf_recipient_id e;
          sf_payload := sf_payload e; sf_created_at_ms := sf_created_at_ms e;
          sf_expires_at_ms := sf_expires_at_ms e; sf_fanout_remaining := n |}, Ok tt)
  end.

Record StoreForwardQueue := {
  sq_envelopes : gmap string StoreForwardEnvelope;
  sq_policy : StoreForwardPolicy
}.

Definition with_policy (p : StoreForwardPolicy) : StoreForwardQueue :=
  {| sq_envelopes := ∅; sq_policy := p |}.

Definition validate_envelope (q : StoreForwardQueue) (e : StoreForwardEnvelope) :
    result unit StoreForwardError :=
  let p := sq_policy q in
  check reject_if (negb (vs_enabled (sp_volunteer p))) VolunteerRelayDisabled in
  check reject_if (negb (is_live e (sf_created_at_ms e))) SfExpired in
  check reject_if (negb (permits_recipient p (sf_recipient_id e))) UnauthorizedRecipient in
  check reject_if ((ttl_ms e =? 0) || (sp_max_ttl_ms p <? ttl_ms e)) SfExpired in
  check reject_if (sp_retention_window_ms p <? ttl_ms e) RetentionWindowExceeded in
  reject_if
    ((sf_fanout_remaining e =? 0)%nat ||
     (vs_max_fanout_per_message (sp_volunteer p) <? sf_fanout_remaining e)%nat)
    SfFanoutExhausted.

Definition with_envelopes (q : StoreForwardQueue) (m : gmap string StoreForwardEnvelope) :
    StoreForwardQueue := {| sq_envelopes := m; sq_policy := sq_policy q |}.

Definition enqueue (q : StoreForwardQueue) (e : StoreForwardEnvelope) :
    StoreForwardQueue * result unit StoreForwardError :=
  match
    check validate_envelope q e in
    check reject_if (bool_decide (is_Some (sq_envelopes q !! sf_message_id e))) DuplicateMessage in
    reject_if (vs_max_queue_envelopes (sp_volunteer (sq_policy q)) <=? size (sq_envelopes q))%nat
      QueueFull
  with
  | Err err => (q, Err err)
  | Ok _ => (with_envelopes q (<[sf_message_id e := e]> (sq_envelopes q)), Ok tt)
  end.

Definition enqueue_ciphertext_only (q : StoreForwardQueue) (e : StoreForwardEnvelope)
    (forbidden_plaintext : bytes) : StoreForwardQueue * result unit StoreForwardError :=
  if negb (bool_decide (forbidden_plaintext = [])) &&
     has_window forbidden_plaintext (visible_bytes (sf_payload e))
  then (q, Err VisiblePlaintext)
  else enqueue q e.

(** The sort key [(freeload, loss, rtt, peer_id)]. *)
Definition volunteer_cmp : RelayCapabilityAdvertisement → RelayCapabilityAdvertisement →
    comparison :=
  cmp_by (λ a, (freeload_score_bps a, (ad_packet_loss_bps a,
                 (ad_observed_rtt_ms a, ad_peer_id a)))) key_cmp.

Definition volunteer_targets (q : StoreForwardQueue)
    (candidates : list RelayCapabilityAdvertisement) (now_ms : N) : list string :=
  let v := sp_volunteer (sq_policy q) in
  if negb (vs_enabled v) then []
  else
    let eligible := filter (λ c,
      ad_peer_id c ≠ vs_local_peer_id v ∧ is_ok (validate_at c now_ms) = true ∧
      ca_accepts_store_forward (ad_relay_capacity c) = true) candidates in
    ad_peer_id <$> firstn (vs_max_volunteer_relays v) (sort_by volunteer_cmp eligible).

(** [for id in ids { envelopes.remove(id) }], collecting what was removed. *)
Definition remove_all (m : gmap string StoreForwardEnvelope) (ids : list string) :
    gmap string StoreForwardEnvelope * list StoreForwardEnvelope :=
  foldl (λ acc id,
    match acc.1 !! id with
    | Some e => (delete id acc.1, acc.2 ++ [e])
    | None => acc
    end) (m, []) ids.

Definition drain_for_recipient (q : StoreForwardQueue) (recipient_id : string) (now_ms : N) :
    StoreForwardQueue * list StoreForwardEnvelope :=
  let expired := (filter (λ x, is_live x.2 now_ms = false) (entries (sq_envelopes q))).*1 in
  let deliver := (filter (λ x,
    is_live x.2 now_ms = true ∧ sf_recipient_id x.2 = recipient_id ∧
    permits_recipient (sq_policy q) (sf_recipient_id x.2) = true)
    (entries (sq_envelopes q))).*1 in
  let m := (remove_all (sq_envelopes q) expired).1 in
  let '(m', out) := remove_all m deliver in
  (with_envelopes q m', out).

(** ** Removing *)

Definition keyed (m : gmap string StoreForwardEnvelope) : Prop :=
  ∀ id e, m !! id = Some e → sf_message_id e = id.

Lemma remove_all_spec m ids :
  (∀ k, (remove_all m ids).1 !! k = if decide (k ∈ ids) then None else m !! k) ∧
  (∀ e, e ∈ (remove_all m ids).2 ↔ ∃ id, id ∈ ids ∧ m !! id = Some e) ∧
  (keyed m → NoDup (sf_message_id <$> (remove_all m ids).2)).
Proof.
  induction ids as [|id ids IH] using rev_ind.
  - split_and!; [done| |intros _; constructor]. intros e. split.
    + intros []%not_elem_of_nil.
    + intros (id & []%not_elem_of_nil & _).
  - unfold remove_all in *. rewrite foldl_app. cbn [foldl].
    destruct (foldl _ _ ids) as [m1 out] eqn:E. simpl in IH |- *.
    destruct IH as (Hm & Ho & Hnd).
    assert (m1 !! id = if decide (id ∈ ids) then None else m !! id) as Hid by apply Hm.
    destruct (m1 !! id) as [e|] eqn:Hl; simpl.
    + case_decide as Hin; [done|]. split_and!.
      * intros k. destruct (decide (k = id)) as [->|Hne].
        { rewrite lookup_delete_eq. rewrite decide_True; [done|set_solver]. }
        rewrite lookup_delete_ne by done. rewrite Hm. repeat case_decide; set_solver.
      * intros x. rewrite elem_of_app, list_elem_of_singleton, Ho. split.
        { intros [(k & Hk & Hx)| ->]; [exists k; set_solver|exists id; set_solver]. }
        intros (k & [Hk| ->%list_elem_of_singleton]%elem_of_app & Hx); [eauto|].
        right. congruence.
      * intros Hw. rewrite fmap_app. apply NoDup_app. split_and!; [by apply Hnd| |].
        { intros i (x & -> & Hx)%list_elem_of_fmap Hy. apply Hin.
          apply list_elem_of_singleton in Hy. apply Ho in Hx as (k & Hk & Hx).
          rewrite (Hw k x Hx) in Hy. rewrite (Hw id e (eq_sym Hid)) in Hy. by subst. }
        apply NoDup_singleton.
    + split_and!; [| |done].
      * intros k. rewrite Hm. destruct (decide (k = id)) as [->|Hne].
        { rewrite (decide_True (P := id ∈ ids ++ [id])) by set_solver. by case_decide. }
        repeat case_decide; set_solver.
      * intros x. rewrite Ho. split; [intros (k & ? & ?); exists k; set_solver|].
        intros (k & [Hk| ->%list_elem_of_singleton]%elem_of_app & Hx); [eauto|].
        case_decide; [eauto|congruence].
Qed.

(** ** Well-formed queues *)

Record queue_wf (q : StoreForwardQueue) : Prop := {
  qw_keyed : keyed (sq_envelopes q);
  qw_valid id e : sq_envelopes q !! id = Some e → validate_envelope q e = Ok tt;
  qw_size : (size (sq_envelopes q) ≤ vs_max_queue_envelopes (sp_volunteer (sq_policy q)))%nat
}.

Lemma queue_wf_new p : queue_wf (with_policy p).
Proof.
  split; simpl; [intros id e|intros id e|]; rewrite ?lookup_empty; [done..|].
  rewrite map_size_empty. lia.
Qed.

Lemma enqueue_ok q e q' :
  enqueue q e = (q', Ok tt) →
  validate_envelope q e = Ok tt ∧ sq_envelopes q !! sf_message_id e = None ∧
  (size (sq_envelopes q) < vs_max_queue_envelopes (sp_volunteer (sq_policy q)))%nat ∧
  q' = with_envelopes q (<[sf_message_id e := e]> (sq_envelopes q)).
Proof.
  unfold enqueue. destruct (validate_envelope q e) as [[]|]; simpl; [|done].
  case_bool_decide as Hd; simpl; [done|].
  destruct (Nat.leb_spec (vs_max_queue_envelopes (sp_volunteer (sq_policy q)))
    (size (sq_envelopes q))); simpl; [done|].
  intros [= <-]. split_and!; [done|by apply eq_None_not_Some|lia|done].
Qed.

Lemma enqueue_wf q e : queue_wf q → queue_wf (enqueue q e).1.
Proof.
  intros Hw. destruct (enqueue q e) as [q' [[]|err]] eqn:He; simpl.
  - apply enqueue_ok in He as (Hv & Hn & Hs & ->). split; simpl.
    + intros id x [[<- <-]|[_ Hx]]%lookup_insert_Some; [done|by apply (qw_keyed _ Hw)].
    + intros id x [[<- <-]|[_ Hx]]%lookup_insert_Some; [done|by apply (qw_valid _ Hw id)].
    + rewrite map_size_insert_None by done. lia.
  - unfold enqueue in He. destruct (rbind _ _); by simplify_eq.
Qed.

Lemma validate_permits q e :
  validate_envelope q e = Ok tt → permits_recipient (sq_policy q) (sf_recipient_id e) = true.
Proof.
  unfold validate_envelope, reject_if. destruct (vs_enabled _); simpl; [|done].
  destruct (is_live _ _); simpl; [|done]. by destruct (permits_recipient _ _).
Qed.

(** What a drain keeps and what it hands out. *)
Lemma drain_spec q r now :
  queue_wf q →
  let '(q', out) := drain_for_recipient q r now in
  (∀ id e, sq_envelopes q' !! id = Some e ↔
     sq_envelopes q !! id = Some e ∧ is_live e now = true ∧ sf_recipient_id e ≠ r) ∧
  (∀ e, e ∈ out ↔
     sq_envelopes q !! sf_message_id e = Some e ∧ is_live e now = true ∧
     sf_recipient_id e = r) ∧
  NoDup (sf_message_id <$> out) ∧ sq_policy q' = sq_policy q.
Proof.
  intros Hw. unfold drain_for_recipient.
  set (expired := (filter _ (entries (sq_envelopes q))).*1).
  set (deliver := (filter (λ x, is_live x.2 now = true ∧ _) (entries (sq_envelopes q))).*1).
  assert (∀ id e, sq_envelopes q !! id = Some e → id ∈ expired ↔ is_live e now = false) as Hexp.
  { intros id e He. unfold expired. rewrite list_elem_of_fmap. split.
    - intros ([k x] & -> & [Hx Hk]%list_elem_of_filter). simpl in *.
      apply elem_of_entries in Hk. congruence.
    - intros Hl. exists (id, e). rewrite list_elem_of_filter, elem_of_entries. done. }
  assert (∀ id e, sq_envelopes q !! id = Some e →
    id ∈ deliver ↔ is_live e now = true ∧ sf_recipient_id e = r) as Hdel.
  { intros id e He. unfold deliver. rewrite list_elem_of_fmap. split.
    - intros ([k x] & -> & [Hx Hk]%list_elem_of_filter). simpl in *.
      apply elem_of_entries in Hk. naive_solver.
    - intros [Hl Hr]. exists (id, e). rewrite list_elem_of_filter, elem_of_entries. simpl.
      split_and!; [done..| |done]. eapply validate_permits, (qw_valid _ Hw id e He). }
  assert (∀ id, id ∈ deliver → id ∉ expired) as Hdisj.
  { intros id Hid. unfold deliver in Hid.
    apply list_elem_of_fmap in Hid as ([k x] & -> & [[Hl _] Hk]%list_elem_of_filter).
    apply elem_of_entries in Hk. simpl in *. rewrite (Hexp _ _ Hk). congruence. }
  destruct (remove_all_spec (sq_envelopes q) expired) as (Hm1 & _ & _).
  set (m := (remove_all (sq_envelopes q) expired).1) in *.
  destruct (remove_all_spec m deliver) as (Hm2 & Ho & Hnd).
  destruct (remove_all m deliver) as [m' out]. simpl in *.
  assert (keyed m) as Hkm.
  { intros id e. rewrite Hm1. case_decide; [done|]. apply (qw_keyed _ Hw). }
  split_and!; [| |by apply Hnd|done].
  - intros id e. rewrite Hm2, Hm1. split.
    + repeat case_decide; try done. intros He. split; [done|].
      rewrite (Hexp _ _ He) in *. rewrite (Hdel _ _ He) in *.
      destruct (is_live e now); naive_solver.
    + intros (He & Hl & Hr). rewrite !decide_False; [done|..].
      * rewrite (Hexp _ _ He). congruence.
      * rewrite (Hdel _ _ He). naive_solver.
  - intros e. rewrite Ho. split.
    + intros (id & Hid & He). rewrite Hm1 in He. case_decide; [done|].
      rewrite (qw_keyed _ Hw _ _ He). split; [done|]. by apply (Hdel id e He).
    + intros (He & Hl & Hr). exists (sf_message_id e).
      assert (sf_message_id e ∈ deliver) as Hd by by apply (Hdel _ _ He).
      split; [done|]. rewrite Hm1, decide_False; [done|]. by apply Hdisj.
Qed.

Lemma drain_wf q r now : queue_wf q → queue_wf (drain_for_recipient q r now).1.
Proof.
  intros Hw. pose proof (drain_spec q r now Hw) as Hd.
  destruct (drain_for_recipient q r now) as [q' out]. simpl.
  destruct Hd as (Hm & _ & _ & Hp). split.
  - intros id e He. apply Hm in He as (He & _). by apply (qw_keyed _ Hw).
  - intros id e He. apply Hm in He as (He & _). unfold validate_envelope. rewrite Hp.
    apply (qw_valid _ Hw _ _ He).
  - rewrite Hp. etrans; [|apply (qw_size _ Hw)]. apply map_subseteq_size.
    apply map_subseteq_spec. intros id e He. by apply Hm in He as (? & _).
Qed.

(** ** Runs of the public operations *)

Inductive QueueCall :=
| CallEnqueue (e : StoreForwardEnvelope)
| CallEnqueueCiphertextOnly (e : StoreForwardEnvelope) (forbidden : bytes)
| CallDrain (recipient : string) (now_ms : N).

Definition queue_call (q : StoreForwardQueue) (c : QueueCall) : StoreForwardQueue :=
  match c with
  | CallEnqueue e => (enqueue q e).1
  | CallEnqueueCiphertextOnly e f => (enqueue_ciphertext_only q e f).1
  | CallDrain r now => (drain_for_recipient q r now).1
  end.

Definition queue_run (p : StoreForwardPolicy) (calls : list QueueCall) : StoreForwardQueue :=
  foldl queue_call (with_policy p) calls.

Lemma enqueue_policy q e : sq_policy (enqueue q e).1 = sq_policy q.
Proof. unfold enqueue. by destruct (rbind _ _). Qed.

Lemma queue_call_policy q c : sq_policy (queue_call q c) = sq_policy q.
Proof.
  destruct c; simpl; [apply enqueue_policy| |].
  - unfold enqueue_ciphertext_only. case_match; [done|apply enqueue_policy].
  - unfold drain_for_recipient. by destruct (remove_all _ _).
Qed.

Lemma queue_run_wf p calls : queue_wf (queue_run p calls) ∧ sq_policy (queue_run p calls) = p.
Proof.
  unfold queue_run. induction calls as [|c calls [IH1 IH2]] using rev_ind.
  { split; [apply queue_wf_new|done]. }
  rewrite foldl_app. simpl. split; [|by rewrite queue_call_policy].
  destruct c; simpl; [by apply enqueue_wf| |by apply drain_wf].
  unfold enqueue_ciphertext_only. case_match; [done|by apply enqueue_wf].
Qed.

(** ** Claims *)

(** The relay holds only what its policy admits: after any sequence of enqueues and
    drains, at most the configured number of envelopes is queued, each under its own message
    id, for a permitted recipient, with a time to live within the queue's maximum and the
    retention window, and a fanout within the per-message cap; a disabled relay holds
    nothing. *)
Theorem store_forward_holds_policy p calls id e :
  let q := queue_run p calls in
  (size (sq_envelopes q) ≤ vs_max_queue_envelopes (sp_volunteer p))%nat ∧
  (sq_envelopes q !! id = Some e →
    sf_message_id e = id ∧ vs_enabled (sp_volunteer p) = true ∧
    permits_recipient p (sf_recipient_id e) = true ∧
    0 < ttl_ms e ≤ N.min (sp_max_ttl_ms p) (sp_retention_window_ms p) ∧
    (1 ≤ sf_fanout_remaining e ≤ vs_max_fanout_per_message (sp_volunteer p))%nat).
Proof.
  intros q. destruct (queue_run_wf p calls) as [Hw Hp]. fold q in Hw, Hp. split.
  - pose proof (qw_size _ Hw) as Hs. by rewrite Hp in Hs.
  - intros He. split; [by apply (qw_keyed _ Hw)|].
    pose proof (qw_valid _ Hw _ _ He) as Hv. unfold validate_envelope in Hv. rewrite Hp in Hv.
    unfold reject_if in Hv. destruct (vs_enabled _); simpl in Hv; [|done].
    destruct (is_live _ _); simpl in Hv; [|done].
    destruct (permits_recipient _ _); simpl in Hv; [|done].
    destruct (N.eqb_spec (ttl_ms e) 0); simpl in Hv; [done|].
    destruct (N.ltb_spec (sp_max_ttl_ms p) (ttl_ms e)); simpl in Hv; [done|].
    destruct (N.ltb_spec (sp_retention_window_ms p) (ttl_ms e)); simpl in Hv; [done|].
    destruct (Nat.eqb_spec (sf_fanout_remaining e) 0); simpl in Hv; [done|].
    destruct (Nat.ltb_spec (vs_max_fanout_per_message (sp_volunteer p)) (sf_fanout_remaining e));
      simpl in Hv; [done|]. split_and!; try done; lia.
Qed.

(** A drain delivers each live envelope of the recipient exactly once: it returns
    precisely the recipient's queued envelopes that have not expired, without duplicates;
    it removes those and every expired one, and keeps every other envelope; and a second
    drain for the recipient, at any time, returns nothing. *)
Theorem drain_delivers_exactly_once p calls r now now' :
  let q := queue_run p calls in
  let '(q', out) := drain_for_recipient q r now in
  (∀ e, e ∈ out ↔
     sq_envelopes q !! sf_message_id e = Some e ∧ is_live e now = true ∧
     sf_recipient_id e = r) ∧
  NoDup (sf_message_id <$> out) ∧
  (∀ id e, sq_envelopes q' !! id = Some e ↔
     sq_envelopes q !! id = Some e ∧ is_live e now = true ∧ sf_recipient_id e ≠ r) ∧
  (drain_for_recipient q' r now').2 = [].
Proof.
  intros q. destruct (queue_run_wf p calls) as [Hw _]. fold q in Hw.
  pose proof (drain_spec q r now Hw) as Hd. pose proof (drain_wf q r now Hw) as Hw'.
  destruct (drain_for_recipient q r now) as [q' out]. destruct Hd as (Hm & Ho & Hnd & _).
  split_and!; [done..|]. simpl in Hw'.
  pose proof (drain_spec q' r now' Hw') as Hd'.
  destruct (drain_for_recipient q' r now') as [q'' out']. destruct Hd' as (_ & Ho' & _). simpl.
  destruct out' as [|e out']; [done|]. exfalso.
  destruct (proj1 (Ho' e) (list_elem_of_here _ _)) as (He & _ & Hr).
  by apply Hm in He as (_ & _ & Hn).
Qed.
