(* ===== verification/Manager.v ===== *)
(** * The overlay manager (crates/relay-overlay/src/manager.rs)

    The stateful owner of the topology, the runtime observations, the capability book
    and the set of failed peers. Route searches return [None] only when the search of
    [Topology] runs out of fuel, which it never does on a well-formed topology. *)

From S2P Require Import Prelude Collections Bytes F32 Abuse Ranking Topology Capability.

(** ** Observations *)

Definition to_ranking_metrics_with_contribution (o : RelayRuntimeObservation)
    (c : RelayContribution) : RelayMetrics :=
  let total_probes :=
    N.max (sat_add u32_max (ob_successful_probes o) (ob_failed_probes o)) 1 in
  {| m_peer_id := ob_peer_id o;
     m_latency_ms := N.max (ob_latency_ms o) 1;
     m_stability :=
       f32_clamp (f32_div (f32_of_N (ob_successful_probes o)) (f32_of_N total_probes))
         (f32_of_N 0) (f32_of_N 1);
     m_battery_cost := f32_div (f32_of_N (ob_battery_cost_bps o)) (f32_of_N 10000);
     m_freeload_penalty := f32_min (freeload_penalty c) (f32_of_N 1000) |}.

Definition observed_contribution (o : RelayRuntimeObservation) : RelayContribution :=
  {| relayed_for_others := ob_contributed_bytes o;
     consumed_from_others := ob_consumed_bytes o |}.

Definition to_ranking_metrics (o : RelayRuntimeObservation) : RelayMetrics :=
  to_ranking_metrics_with_contribution o (observed_contribution o).

Record RelayContributionAccountingSnapshot := {
  rcs_peer_id : string;
  rcs_relayed_for_others : N;
  rcs_consumed_from_others : N;
  rcs_freeload_penalty : f32
}.

Definition from_contribution (peer_id : string) (c : RelayContribution) :
    RelayContributionAccountingSnapshot :=
  {| rcs_peer_id := peer_id; rcs_relayed_for_others := relayed_for_others c;
     rcs_consumed_from_others := consumed_from_others c;
     rcs_freeload_penalty := f32_min (freeload_penalty c) (f32_of_N 1000) |}.

(** ** Policies, reports, errors *)

Record OverlayRouteDecision := {
  rdec_route : RelayRoute;
  rdec_ranked_source_neighbors : list string;
  rdec_manager_epoch : N
}.

Record FailoverRecoveryPolicy := {
  fp_max_failover_ms : N;
  fp_max_media_gap_ms : N;
  fp_concealment_frame_ms : N
}.

Definition FailoverRecoveryPolicy_default : FailoverRecoveryPolicy :=
  {| fp_max_failover_ms := 3000; fp_max_media_gap_ms := 200; fp_concealment_frame_ms := 20 |}.

Record MediaConcealmentReport := {
  mc_observed_gap_ms : N;
  mc_target_gap_ms : N;
  mc_concealment_frames : N;
  mc_target_met : bool
}.

Record OverlayFailoverReport := {
  fr_decision : FailoverDecision;
  fr_recovery_policy : FailoverRecoveryPolicy;
  fr_media_concealment : option MediaConcealmentReport;
  fr_manager_epoch : N
}.

Inductive OverlayRouteUse :=
| UseTextControl
| UseVoiceMedia.

Definition min_egress_bytes_per_second (u : OverlayRouteUse) : N :=
  match u with UseTextControl => 1024 | UseVoiceMedia => 32000 end.

(** [{use_case:?}] *)
Definition route_use_debug (u : OverlayRouteUse) : string :=
  match u with UseTextControl => "TextControl" | UseVoiceMedia => "VoiceMedia" end.

Record ConstructedOverlayRoute := {
  cr_use_case : OverlayRouteUse;
  cr_route : RelayRoute;
  cr_hop_count : nat;
  cr_bottleneck_egress : option N;
  cr_manager_epoch : N
}.

Inductive TopologyChangeReason :=
| Bootstrap
| PlannedReparent
| HardFailure.

#[export] Instance TopologyChangeReason_eq_dec : EqDecision TopologyChangeReason.
Proof. solve_decision. Defined.

Record ChurnDampingPolicy := { ch_min_planned_change_interval_ms : N }.

Definition ChurnDampingPolicy_default : ChurnDampingPolicy :=
  {| ch_min_planned_change_interval_ms := 30000 |}.

Record TopologyChangeReport := {
  tc_reason : TopologyChangeReason;
  tc_a : string;
  tc_b : string;
  tc_manager_epoch : N;
  tc_next_planned_change_allowed_at_ms : option N
}.

Inductive OverlayManagerError :=
| InvalidObservation (why : string)
| TopologyFailure (e : TopologyError)
| CapabilityFailure (e : CapabilityAdvertisementError)
| RouteCapacity (why : string)
| ChurnDamped (next_allowed_at_ms : N)
| FailoverSlaExceeded (observed_ms max_failover_ms : N)
| MediaGapExceeded (observed_gap_ms max_gap_ms : N).

(** ** The manager *)

Record OverlayManager := {
  om_topology : RelayTopology;
  om_observations : gmap string RelayRuntimeObservation;
  om_relay_contributions : gmap string RelayContribution;
  om_capabilities : CapabilityAdvertisementBook;
  om_churn_policy : ChurnDampingPolicy;
  om_last_planned_topology_change_ms : option N;
  om_failed_peers : gset string;
  om_epoch : N
}.

Definition OverlayManager_new (t : RelayTopology) : OverlayManager :=
  {| om_topology := t; om_observations := ∅; om_relay_contributions := ∅;
     om_capabilities := CapabilityAdvertisementBook_default;
     om_churn_policy := ChurnDampingPolicy_default;
     om_last_planned_topology_change_ms := None; om_failed_peers := ∅; om_epoch := 0 |}.

Definition OverlayManager_default : OverlayManager := OverlayManager_new RelayTopology_default.

Definition bump (m : OverlayManager) : N := sat_add u64_max (om_epoch m) 1.

Definition validate_observation (o : RelayRuntimeObservation) : result unit OverlayManagerError :=
  check reject_if (is_blank (ob_peer_id o)) (InvalidObservation "peer id is required") in
  reject_if ((ob_successful_probes o =? 0) && (ob_failed_probes o =? 0))
    (InvalidObservation "at least one relay health probe is required").

Definition upsert_observation (m : OverlayManager) (o : RelayRuntimeObservation) :
    OverlayManager * result unit OverlayManagerError :=
  match validate_observation o with
  | Err e => (m, Err e)
  | Ok _ =>
      let contribution :=
        default (observed_contribution o) (om_relay_contributions m !! ob_peer_id o) in
      ({| om_topology :=
            upsert_peer (om_topology m) (to_ranking_metrics_with_contribution o contribution);
          om_observations := <[ob_peer_id o := o]> (om_observations m);
          om_relay_contributions := om_relay_contributions m;
          om_capabilities := om_capabilities m;
          om_churn_policy := om_churn_policy m;
          om_last_planned_topology_change_ms := om_last_planned_topology_change_ms m;
          om_failed_peers := om_failed_peers m ∖ {[ob_peer_id o]};
          om_epoch := bump m |}, Ok tt)
  end.

Definition with_capabilities (m : OverlayManager) (b : CapabilityAdvertisementBook) :
    OverlayManager :=
  {| om_topology := om_topology m; om_observations := om_observations m;
     om_relay_contributions := om_relay_contributions m; om_capabilities := b;
     om_churn_policy := om_churn_policy m;
     om_last_planned_topology_change_ms := om_last_planned_topology_change_ms m;
     om_failed_peers := om_failed_peers m; om_epoch := om_epoch m |}.

Definition upsert_capability_advertisement (m : OverlayManager)
    (a : RelayCapabilityAdvertisement) (now_ms : N) :
    OverlayManager * result unit OverlayManagerError :=
  let observation := to_runtime_observation a in
  let '(book, r) := book_accept (om_capabilities m) a now_ms in
  let m1 := with_capabilities m book in
  match r with
  | Err e => (m1, Err (CapabilityFailure e))
  | Ok _ => upsert_observation m1 observation
  end.

Definition with_counters (o : RelayRuntimeObservation) (relayed consumed : N) :
    RelayRuntimeObservation :=
  {| ob_peer_id := ob_peer_id o; ob_latency_ms := ob_latency_ms o;
     ob_successful_probes := ob_successful_probes o; ob_failed_probes := ob_failed_probes o;
     ob_battery_cost_bps := ob_battery_cost_bps o; ob_contributed_bytes := relayed;
     ob_consumed_bytes := consumed |}.

Definition record_relay_contribution (m : OverlayManager) (peer_id : string)
    (relayed consumed : N) :
    OverlayManager * result RelayContributionAccountingSnapshot OverlayManagerError :=
  if is_blank peer_id then (m, Err (InvalidObservation "peer id is required"))
  else
    let contribution :=
      {| relayed_for_others := relayed; consumed_from_others := consumed |} in
    let contributions := <[peer_id := contribution]> (om_relay_contributions m) in
    let m' :=
      match om_observations m !! peer_id with
      | Some o =>
          let o' := with_counters o relayed consumed in
          {| om_topology :=
               upsert_peer (om_topology m) (to_ranking_metrics_with_contribution o' contribution);
             om_observations := <[peer_id := o']> (om_observations m);
             om_relay_contributions := contributions;
             om_capabilities := om_capabilities m;
             om_churn_policy := om_churn_policy m;
             om_last_planned_topology_change_ms := om_last_planned_topology_change_ms m;
             om_failed_peers := om_failed_peers m;
             om_epoch := bump m |}
      | None =>
          {| om_topology := om_topology m; om_observations := om_observations m;
             om_relay_contributions := contributions;
             om_capabilities := om_capabilities m;
             om_churn_policy := om_churn_policy m;
             om_last_planned_topology_change_ms := om_last_planned_topology_change_ms m;
             om_failed_peers := om_failed_peers m; om_epoch := om_epoch m |}
      end in
    (m', Ok (from_contribution peer_id contribution)).

Definition relay_contribution_snapshots (m : OverlayManager) :
    list RelayContributionAccountingSnapshot :=
  (λ x, from_contribution x.1 x.2) <$> entries (om_relay_contributions m).

(** The topology, the damping clock, the failed peers and the epoch replaced. *)
Definition with_graph (m : OverlayManager) (t : RelayTopology) (last : option N)
    (failed : gset string) (epoch : N) : OverlayManager :=
  {| om_topology := t; om_observations := om_observations m;
     om_relay_contributions := om_relay_contributions m;
     om_capabilities := om_capabilities m; om_churn_policy := om_churn_policy m;
     om_last_planned_topology_change_ms := last; om_failed_peers := failed;
     om_epoch := epoch |}.

Definition connect_peers (m : OverlayManager) (a b : string) :
    OverlayManager * result unit OverlayManagerError :=
  match connect (om_topology m) a b with
  | (t, Err e) =>
      (with_graph m t (om_last_planned_topology_change_ms m) (om_failed_peers m) (om_epoch m),
       Err (TopologyFailure e))
  | (t, Ok _) =>
      (with_graph m t (om_last_planned_topology_change_ms m) (om_failed_peers m) (bump m), Ok tt)
  end.

Definition with_churn_policy (m : OverlayManager) (p : ChurnDampingPolicy) : OverlayManager :=
  {| om_topology := om_topology m; om_observations := om_observations m;
     om_relay_contributions := om_relay_contributions m;
     om_capabilities := om_capabilities m; om_churn_policy := p;
     om_last_planned_topology_change_ms := om_last_planned_topology_change_ms m;
     om_failed_peers := om_failed_peers m; om_epoch := om_epoch m |}.

(** [last.saturating_add(min_planned_change_interval_ms)] *)
Definition next_allowed (m : OverlayManager) (last : N) : N :=
  sat_add u64_max last (ch_min_planned_change_interval_ms (om_churn_policy m)).

(** The damping guard of a planned change: the earliest time it is allowed when it is
    too early. *)
Definition damped (m : OverlayManager) (now_ms : N) (reason : TopologyChangeReason) : option N :=
  if decide (reason = PlannedReparent) then
    match om_last_planned_topology_change_ms m with
    | Some last => if now_ms <? next_allowed m last then Some (next_allowed m last) else None
    | None => None
    end
  else None.

Definition connect_peers_with_churn_damping (m : OverlayManager) (a b : string) (now_ms : N)
    (reason : TopologyChangeReason) :
    OverlayManager * result TopologyChangeReport OverlayManagerError :=
  match damped m now_ms reason with
  | Some at_ms => (m, Err (ChurnDamped at_ms))
  | None =>
      let last := if decide (reason = PlannedReparent) then Some now_ms
                  else om_last_planned_topology_change_ms m in
      match connect (om_topology m) a b with
      | (t, Err e) =>
          (with_graph m t last (om_failed_peers m) (om_epoch m), Err (TopologyFailure e))
      | (t, Ok _) =>
          (with_graph m t last (om_failed_peers m) (bump m),
           Ok {| tc_reason := reason; tc_a := a; tc_b := b; tc_manager_epoch := bump m;
                 tc_next_planned_change_allowed_at_ms := next_allowed m <$> last |})
      end
  end.

Definition manager_ranked_neighbors (m : OverlayManager) (peer_id : string) : list string :=
  m_peer_id <$> ranked_neighbors (om_topology m) peer_id.

Definition manager_route (m : OverlayManager) (source destination : string) :
    option (result OverlayRouteDecision OverlayManagerError) :=
  r ← route_avoiding (om_topology m) source destination (om_failed_peers m);
  Some (map_err TopologyFailure (rmap (λ rt,
    {| rdec_route := rt;
       rdec_ranked_source_neighbors := manager_ranked_neighbors m source;
       rdec_manager_epoch := om_epoch m |}) r)).

(** Every peer of the path but the first and the last. *)
Definition intermediate_relays (r : RelayRoute) : list string :=
  removelast (tail (rt_path r)).

(** One round of the capacity loop. *)
Definition check_relay (m : OverlayManager) (use_case : OverlayRouteUse)
    (bottleneck : option N) (relay_peer : string) :
    result (option N) OverlayManagerError :=
  let* ad := ok_or (book_get (om_capabilities m) relay_peer)
    (RouteCapacity ("missing capability advertisement for relay " +:+ relay_peer)) in
  let degree := default 0%nat (peer_degree (om_topology m) relay_peer) in
  check reject_if (ca_max_fanout (ad_relay_capacity ad) <? N.of_nat degree)
    (RouteCapacity ("relay " +:+ relay_peer +:+ " exceeds advertised fanout")) in
  let egress := ca_egress_bytes_per_second (ad_relay_capacity ad) in
  check reject_if (egress <? min_egress_bytes_per_second use_case)
    (RouteCapacity ("relay " +:+ relay_peer +:+ " lacks egress capacity for " +:+
                    route_use_debug use_case)) in
  Ok (Some match bottleneck with None => egress | Some current => N.min current egress end).

Fixpoint check_relays (m : OverlayManager) (use_case : OverlayRouteUse)
    (bottleneck : option N) (relays : list string) : result (option N) OverlayManagerError :=
  match relays with
  | [] => Ok bottleneck
  | p :: relays' =>
      let* b := check_relay m use_case bottleneck p in check_relays m use_case b relays'
  end.

Definition construct_route (m : OverlayManager) (use_case : OverlayRouteUse)
    (source destination : string) :
    option (result ConstructedOverlayRoute OverlayManagerError) :=
  d ← manager_route m source destination;
  Some (
    let* decision := d in
    check reject_if (negb (within_hop_limit (rdec_route decision)))
      (RouteCapacity "route exceeds three-hop overlay limit") in
    let* bottleneck :=
      check_relays m use_case None (intermediate_relays (rdec_route decision)) in
    Ok {| cr_use_case := use_case; cr_route := rdec_route decision;
          cr_hop_count := hop_count (rdec_route decision);
          cr_bottleneck_egress := bottleneck; cr_manager_epoch := om_epoch m |}).

Definition media_concealment_report (observed_gap_ms : N) (p : FailoverRecoveryPolicy) :
    result MediaConcealmentReport OverlayManagerError :=
  check reject_if (fp_max_media_gap_ms p <? observed_gap_ms)
    (MediaGapExceeded observed_gap_ms (fp_max_media_gap_ms p)) in
  let frame_ms := N.max (fp_concealment_frame_ms p) 1 in
  Ok {| mc_observed_gap_ms := observed_gap_ms; mc_target_gap_ms := fp_max_media_gap_ms p;
        mc_concealment_frames := div_ceil observed_gap_ms frame_ms; mc_target_met := true |}.

(** [Option::map(...).transpose()] *)
Definition transpose_report (gap : option N) (p : FailoverRecoveryPolicy) :
    result (option MediaConcealmentReport) OverlayManagerError :=
  match gap with
  | None => Ok None
  | Some g => rmap Some (media_concealment_report g p)
  end.

Definition mark_failed_and_reroute_with_policy (m : OverlayManager) (previous : RelayRoute)
    (failed_peer : string) (observed_convergence_ms : N) (observed_media_gap_ms : option N)
    (p : FailoverRecoveryPolicy) :
    option (OverlayManager * result OverlayFailoverReport OverlayManagerError) :=
  if fp_max_failover_ms p <? observed_convergence_ms then
    Some (m, Err (FailoverSlaExceeded observed_convergence_ms (fp_max_failover_ms p)))
  else
    match transpose_report observed_media_gap_ms p with
    | Err e => Some (m, Err e)
    | Ok media =>
        let failed := {[failed_peer]} ∪ om_failed_peers m in
        let last := om_last_planned_topology_change_ms m in
        r ← reroute_after_failure (om_topology m) previous failed_peer observed_convergence_ms;
        Some match r with
             | Err e =>
                 (with_graph m (om_topology m) last failed (om_epoch m),
                  Err (TopologyFailure e))
             | Ok decision =>
                 (with_graph m (om_topology m) last failed (bump m),
                  Ok {| fr_decision := decision; fr_recovery_policy := p;
                        fr_media_concealment := media; fr_manager_epoch := bump m |})
             end
    end.

Definition mark_failed_and_reroute (m : OverlayManager) (previous : RelayRoute)
    (failed_peer : string) (observed_convergence_ms : N) :
    option (OverlayManager * result OverlayFailoverReport OverlayManagerError) :=
  mark_failed_and_reroute_with_policy m previous failed_peer observed_convergence_ms None
    FailoverRecoveryPolicy_default.

Definition mark_failed_media_and_reroute (m : OverlayManager) (previous : RelayRoute)
    (failed_peer : string) (observed_convergence_ms observed_media_gap_ms : N) :
    option (OverlayManager * result OverlayFailoverReport OverlayManagerError) :=
  mark_failed_and_reroute_with_policy m previous failed_peer observed_convergence_ms
    (Some observed_media_gap_ms) FailoverRecoveryPolicy_default.

(** ** Managers built by the public operations *)

Inductive ManagerCall :=
| CallObserve (o : RelayRuntimeObservation)
| CallAdvertise (a : RelayCapabilityAdvertisement) (now_ms : N)
| CallContribute (peer : string) (relayed consumed : N)
| CallConnectPeers (a b : string)
| CallConnectDamped (a b : string) (now_ms : N) (reason : TopologyChangeReason)
| CallMarkFailed (previous : RelayRoute) (failed_peer : string) (ms : N) (gap : option N)
    (p : FailoverRecoveryPolicy).

Definition manager_call (m : OverlayManager) (c : ManagerCall) : OverlayManager :=
  match c with
  | CallObserve o => (upsert_observation m o).1
  | CallAdvertise a now => (upsert_capability_advertisement m a now).1
  | CallContribute p r k => (record_relay_contribution m p r k).1
  | CallConnectPeers a b => (connect_peers m a b).1
  | CallConnectDamped a b now reason => (connect_peers_with_churn_damping m a b now reason).1
  | CallMarkFailed prev f ms gap p =>
      match mark_failed_and_reroute_with_policy m prev f ms gap p with
      | Some (m', _) => m'
      | None => m
      end
  end.

Definition manager_run (m : OverlayManager) (calls : list ManagerCall) : OverlayManager :=
  foldl manager_call m calls.

(** The graph a manager owns only ever sees the topology's own operations. *)
Lemma manager_call_topology m c :
  om_topology (manager_call m c) = om_topology m ∨
  (∃ x, om_topology (manager_call m c) = upsert_peer (om_topology m) x) ∨
  (∃ a b, om_topology (manager_call m c) = (connect (om_topology m) a b).1).
Proof.
  destruct c as [o|a now|p r k|a b|a b now reason|prev f ms gap p]; simpl.
  - unfold upsert_observation. destruct (validate_observation o); simpl; eauto.
  - unfold upsert_capability_advertisement.
    destruct (book_accept _ _ _) as [bk [u|e]]; simpl; [|auto].
    unfold upsert_observation. destruct (validate_observation _); simpl; eauto.
  - unfold record_relay_contribution. case_match; simpl; [auto|].
    destruct (om_observations m !! p); simpl; eauto.
  - unfold connect_peers. right; right. exists a, b.
    by destruct (connect _ _ _) as [t [u|e]].
  - unfold connect_peers_with_churn_damping. destruct (damped m now reason); simpl; [auto|].
    right; right. exists a, b. by destruct (connect _ _ _) as [t [u|e]].
  - unfold mark_failed_and_reroute_with_policy. left.
    destruct (fp_max_failover_ms p <? ms); [done|].
    destruct (transpose_report gap p); [|done].
    destruct (reroute_after_failure _ _ _ _) as [[d|e]|]; done.
Qed.

Definition manager_wf (m : OverlayManager) : Prop :=
  topology_wf (om_topology m) ∧ tp_max_hops (om_topology m) = MAX_RELAY_HOPS.

Lemma manager_run_wf calls : manager_wf (manager_run OverlayManager_default calls).
Proof.
  unfold manager_run. induction calls as [|c calls [IH1 IH2]] using rev_ind.
  { split; [apply topology_wf_new|done]. }
  rewrite foldl_app. simpl. unfold manager_wf.
  destruct (manager_call_topology (foldl manager_call OverlayManager_default calls) c)
    as [->|[[x ->]|(a & b & ->)]]; [done|by split; [apply upsert_peer_wf|]|].
  split; [by apply connect_wf|]. rewrite <- IH2. unfold connect. by destruct (rbind _ _).
Qed.

(** ** Capacity *)

Definition relay_ready (m : OverlayManager) (u : OverlayRouteUse) (p : string) (egress : N) :
    Prop :=
  ∃ ad, book_get (om_capabilities m) p = Some ad ∧
    egress = ca_egress_bytes_per_second (ad_relay_capacity ad) ∧
    min_egress_bytes_per_second u ≤ egress ∧
    N.of_nat (size (neighbors (om_topology m) p)) ≤ ca_max_fanout (ad_relay_capacity ad).

Lemma peer_degree_neighbors t p : default 0%nat (peer_degree t p) = size (neighbors t p).
Proof.
  unfold peer_degree, neighbors. destruct (tp_links t !! p) as [ns|]; [done|].
  change (0%nat = size (∅ : gset string)). by rewrite size_empty.
Qed.

Lemma check_relay_ok m u b p b' :
  check_relay m u b p = Ok b' →
  ∃ egress, relay_ready m u p egress ∧
    b' = Some match b with None => egress | Some c => N.min c egress end.
Proof.
  unfold check_relay, relay_ready. rewrite peer_degree_neighbors.
  destruct (book_get (om_capabilities m) p) as [ad|]; simpl; [|done].
  unfold reject_if. destruct (N.ltb_spec (ca_max_fanout (ad_relay_capacity ad))
    (N.of_nat (size (neighbors (om_topology m) p)))); simpl; [done|].
  destruct (N.ltb_spec (ca_egress_bytes_per_second (ad_relay_capacity ad))
    (min_egress_bytes_per_second u)); simpl; [done|].
  intros [= <-]. eauto 10.
Qed.

(** The bottleneck is the least egress on the way. *)
Definition bottleneck_of (m : OverlayManager) (u : OverlayRouteUse) (relays : list string)
    (b : option N) : Prop :=
  match b with
  | None => relays = []
  | Some x =>
      (∀ p, p ∈ relays → ∃ e, relay_ready m u p e ∧ x ≤ e) ∧
      ∃ p, p ∈ relays ∧ relay_ready m u p x
  end.

Lemma check_relays_ok m u seen relays b b' :
  bottleneck_of m u seen b → check_relays m u b relays = Ok b' →
  bottleneck_of m u (seen ++ relays) b'.
Proof.
  revert seen b. induction relays as [|p relays IH]; intros seen b Hb; simpl.
  { intros [= <-]. by rewrite app_nil_r. }
  destruct (check_relay m u b p) as [b1|] eqn:Hc; simpl; [|done].
  apply check_relay_ok in Hc as (e & He & ->). intros Hr.
  rewrite (cons_middle p seen relays), (assoc (++)). eapply IH; [|exact Hr]. simpl.
  destruct b as [x|]; simpl in Hb.
  - destruct Hb as [Hall (q & Hq & Hx)]. split.
    + intros r [Hr'| ->%list_elem_of_singleton]%elem_of_app.
      * destruct (Hall r Hr') as (e' & ? & ?). exists e'. split; [done|lia].
      * exists e. split; [done|lia].
    + destruct (N.min_spec x e) as [[_ ->]|[_ ->]]; [exists q|exists p]; set_solver.
  - subst seen. split; [|exists p; set_solver].
    intros r ->%list_elem_of_singleton. exists e. split; [done|lia].
Qed.

(** ** Damping *)

Definition clock_at_least (m : OverlayManager) (t : N) : Prop :=
  match om_last_planned_topology_change_ms m with Some l => t ≤ l | None => False end.

Lemma damped_none m now l :
  damped m now PlannedReparent = None → om_last_planned_topology_change_ms m = Some l →
  next_allowed m l ≤ now.
Proof.
  unfold damped. rewrite decide_True by done. intros Hd Hl. rewrite Hl in Hd.
  by destruct (N.ltb_spec now (next_allowed m l)).
Qed.

Lemma manager_call_clock m c t :
  t ≤ u64_max → clock_at_least m t →
  clock_at_least (manager_call m c) t ∧
  om_churn_policy (manager_call m c) = om_churn_policy m.
Proof.
  unfold clock_at_least. intros Ht Hc.
  destruct c as [o|a now|p r k|a b|a b now reason|prev f ms gap p]; simpl.
  - unfold upsert_observation. by destruct (validate_observation o).
  - unfold upsert_capability_advertisement. destruct (book_accept _ _ _) as [bk [u|e]]; [|done].
    unfold upsert_observation. by destruct (validate_observation _).
  - unfold record_relay_contribution. destruct (is_blank p); [done|].
    by destruct (om_observations m !! p).
  - unfold connect_peers. by destruct (connect _ _ _) as [g [u|e]].
  - unfold connect_peers_with_churn_damping.
    destruct (damped m now reason) as [at_ms|] eqn:Hd; [done|].
    destruct (om_last_planned_topology_change_ms m) as [l|] eqn:Hl; [|done].
    case_decide as Hr; [subst reason|destruct (connect _ _ _) as [g [u|e]]; done].
    pose proof (damped_none _ _ _ Hd Hl) as Hle. unfold next_allowed, sat_add in Hle.
    destruct (connect _ _ _) as [g [u|e]]; simpl; split; done || lia.
  - unfold mark_failed_and_reroute_with_policy.
    destruct (fp_max_failover_ms p <? ms); [done|].
    destruct (transpose_report gap p); [|done].
    destruct (reroute_after_failure _ _ _ _) as [[d|e]|]; by simpl.
Qed.

Lemma manager_run_clock m calls t :
  t ≤ u64_max → clock_at_least m t →
  clock_at_least (manager_run m calls) t ∧
  om_churn_policy (manager_run m calls) = om_churn_policy m.
Proof.
  intros Ht. unfold manager_run. revert m.
  induction calls as [|c calls IH]; intros m Hc; simpl; [done|].
  destruct (manager_call_clock m c t Ht Hc) as [Hc' Hp]. rewrite <- Hp. by apply IH.
Qed.

(** A planned attempt that passes the guard sets the clock, whether or not the link
    can be made. *)
Lemma planned_attempt_clock m a b t m' r :
  connect_peers_with_churn_damping m a b t PlannedReparent = (m', r) →
  damped m t PlannedReparent = None →
  om_last_planned_topology_change_ms m' = Some t ∧ om_churn_policy m' = om_churn_policy m.
Proof.
  unfold connect_peers_with_churn_damping. intros Hc Hd. rewrite Hd, decide_True in Hc by done.
  destruct (connect _ _ _) as [g [u|e]]; by simplify_eq/=.
Qed.

(** ** Claims *)

(** A constructed route can carry its traffic. On every manager the public operations
    can build, route construction answers, and a route it returns joins the two endpoints
    over links between known peers, stays within three hops and off every failed peer; every
    relay strictly inside it has advertised at least the egress its use case needs and has no
    more neighbours than it advertised; and the reported bottleneck is the least egress on
    the way, absent exactly when there is no relay. *)
Theorem constructed_route_has_capacity calls u s d :
  let m := manager_run OverlayManager_default calls in
  ∃ r, construct_route m u s d = Some r ∧
  match r with
  | Ok c =>
      walk (om_topology m) (om_failed_peers m) s d (rt_path (cr_route c)) ∧
      (cr_hop_count c ≤ 3)%nat ∧ cr_use_case c = u ∧
      (∀ x, x ∈ rt_path (cr_route c) → x ∉ om_failed_peers m) ∧
      bottleneck_of m u (intermediate_relays (cr_route c)) (cr_bottleneck_egress c)
  | Err e => True
  end.
Proof.
  intros m. destruct (manager_run_wf calls) as [Hw Hh]. fold m in Hw, Hh.
  unfold construct_route, manager_route.
  destruct (route_avoiding_answer (om_topology m) (om_failed_peers m) s d Hw) as (r & -> & Hr).
  simpl. eexists. split; [done|]. destruct r as [rt|e]; simpl; [|done].
  destruct Hr as (Hwalk & _ & Hhop & Ha & _).
  destruct (reject_if _ _); simpl; [|done].
  destruct (check_relays m u None (intermediate_relays rt)) as [b|] eqn:Hb; simpl; [|done].
  split_and!; [done| |done..|].
  - by rewrite Hh in Hhop.
  - by apply (check_relays_ok m u [] _ None b).
Qed.

(** Planned topology changes are spaced: once a planned change has been accepted at
    [t1], whatever the manager does in between, the next planned change is accepted only at
    least the damping interval later (or at the end of time, where the sum saturates). *)
Theorem planned_changes_are_spaced m a b t1 m1 report calls c d t2 m2 report2 :
  t1 ≤ u64_max →
  connect_peers_with_churn_damping m a b t1 PlannedReparent = (m1, Ok report) →
  connect_peers_with_churn_damping (manager_run m1 calls) c d t2 PlannedReparent =
    (m2, Ok report2) →
  sat_add u64_max t1 (ch_min_planned_change_interval_ms (om_churn_policy m)) ≤ t2.
Proof.
  intros Ht H1 H2.
  assert (damped m t1 PlannedReparent = None) as Hd.
  { unfold connect_peers_with_churn_damping in H1. by destruct (damped m t1 PlannedReparent). }
  destruct (planned_attempt_clock _ _ _ _ _ _ H1 Hd) as [Hl Hp].
  destruct (manager_run_clock m1 calls t1 Ht) as [Hc Hp'].
  { unfold clock_at_least. rewrite Hl. done. }
  unfold clock_at_least in Hc.
  destruct (om_last_planned_topology_change_ms (manager_run m1 calls)) as [l|] eqn:Hl'; [|done].
  assert (damped (manager_run m1 calls) t2 PlannedReparent = None) as Hd'.
  { unfold connect_peers_with_churn_damping in H2. by destruct (damped _ t2 _). }
  pose proof (damped_none _ _ _ Hd' Hl') as Hle. unfold next_allowed in Hle.
  rewrite Hp', Hp in Hle. unfold sat_add in *. lia.
Qed.

(** A refused link still spends the damping window: when a planned change passes the
    damping guard but the topology refuses the link (an unknown peer, a full fanout), the
    caller gets that error, nothing changed, and yet every planned change before the interval
    has passed is refused as churn. *)
Theorem refused_link_spends_damping m a b t m1 e c d t' :
  damped m t PlannedReparent = None →
  connect_peers_with_churn_damping m a b t PlannedReparent = (m1, Err (TopologyFailure e)) →
  t' < next_allowed m t →
  om_topology m1 = om_topology m ∧
  connect_peers_with_churn_damping m1 c d t' PlannedReparent =
    (m1, Err (ChurnDamped (next_allowed m t))).
Proof.
  intros Hd Hc Ht. destruct (planned_attempt_clock _ _ _ _ _ _ Hc Hd) as [Hl Hp]. split.
  - unfold connect_peers_with_churn_damping in Hc. rewrite Hd in Hc.
    destruct (connect (om_topology m) a b) as [g [u|e']] eqn:Hg; simplify_eq/=.
    apply (f_equal fst) in Hg as Hg1. simpl in Hg1. rewrite <- Hg1.
    apply (connect_err _ _ _ e). by rewrite Hg.
  - unfold connect_peers_with_churn_damping, damped. rewrite Hl, decide_True by done.
    unfold next_allowed in *. rewrite Hp.
    by rewrite (proj2 (N.ltb_lt _ _)) by done.
Qed.

Definition observation (id : string) : RelayRuntimeObservation :=
  {| ob_peer_id := id; ob_latency_ms := 10; ob_successful_probes := 10; ob_failed_probes := 0;
     ob_battery_cost_bps := 0; ob_contributed_bytes := 0; ob_consumed_bytes := 0 |}.

(** Two relays, [b] and [c], between [a] and [d]; [c] has failed. *)
Definition two_relays : list ManagerCall :=
  [CallObserve (observation "a"); CallObserve (observation "b"); CallObserve (observation "c");
   CallObserve (observation "d"); CallConnectPeers "a" "b"; CallConnectPeers "b" "d";
   CallConnectPeers "a" "c"; CallConnectPeers "c" "d";
   CallMarkFailed {| rt_path := ["a"; "c"; "d"] |} "c" 900 None FailoverRecoveryPolicy_default].

(** Failover forgets earlier failures: with relay [c] already marked failed, marking
    [b] failed reports success with a replacement that goes through [c], while the manager's
    own route selection, which avoids every failed peer, finds no route at all. *)
Theorem failover_reuses_failed_peer :
  let m := manager_run OverlayManager_default two_relays in
  "c" ∈ om_failed_peers m ∧
  ∃ m' report,
    mark_failed_and_reroute m {| rt_path := ["a"; "b"; "d"] |} "b" 900 = Some (m', Ok report) ∧
    contains_peer (fd_replacement (fr_decision report)) "c" = true ∧
    "c" ∈ om_failed_peers m' ∧
    manager_route m' "a" "d" = Some (Err (TopologyFailure NoRoute)).
Proof.
  intros m. split; [apply (bool_decide_unpack _); vm_compute; exact I|].
  assert (∃ m' report,
    mark_failed_and_reroute m {| rt_path := ["a"; "b"; "d"] |} "b" 900 = Some (m', Ok report) ∧
    bool_decide ("c" ∈ rt_path (fd_replacement (fr_decision report))) = true ∧
    bool_decide ("c" ∈ om_failed_peers m') = true ∧
    manager_route m' "a" "d" = Some (Err (TopologyFailure NoRoute))) as (m' & r & H1 & H2 & H3 & H4).
  { eexists _, _. split; [vm_compute; reflexivity|]. split; [vm_compute; reflexivity|].
    split; vm_compute; reflexivity. }
  exists m', r. split_and!; [done..| |done]. by apply bool_decide_eq_true in H3.
Qed.

Section witnesses.
Definition three_peers : OverlayManager :=
  manager_run OverlayManager_default
    [CallObserve (observation "a"); CallObserve (observation "b"); CallObserve (observation "c")].

Definition planned (m : OverlayManager) (a b : string) (t : N) :=
  connect_peers_with_churn_damping m a b t PlannedReparent.

Lemma planned_changes_are_spaced_witness : 5 + 30000 ≤ 40000.
Proof.
  assert (is_ok (planned three_peers "a" "b" 5).2 = true) as H1 by (vm_compute; reflexivity).
  assert (is_ok (planned (planned three_peers "a" "b" 5).1 "b" "c" 40000).2 = true) as H2
    by (vm_compute; reflexivity).
  unfold planned in H1, H2.
  destruct (connect_peers_with_churn_damping three_peers "a" "b" 5 PlannedReparent)
    as [m1 [r1|e1]] eqn:E1; [|discriminate H1]. cbn [fst] in H2.
  destruct (connect_peers_with_churn_damping m1 "b" "c" 40000 PlannedReparent)
    as [m2 [r2|e2]] eqn:E2; [|discriminate H2].
  exact (planned_changes_are_spaced three_peers "a" "b" 5 m1 r1 [] "b" "c" 40000 m2 r2
    ltac:(vm_compute; discriminate) E1 E2).
Defined.

Lemma refused_link_spends_damping_witness :
  ∃ m1, (planned m1 "a" "b" 6).2 = Err (ChurnDamped 30005).
Proof.
  destruct (connect_peers_with_churn_damping three_peers "a" "nobody" 5 PlannedReparent)
    as [m1 r1] eqn:E1.
  assert (r1 = Err (TopologyFailure (UnknownPeer "nobody"))) as Hr.
  { transitivity (planned three_peers "a" "nobody" 5).2; [unfold planned; rewrite E1; reflexivity|].
    vm_compute. reflexivity. }
  rewrite Hr in E1. exists m1. unfold planned.
  destruct (refused_link_spends_damping three_peers "a" "nobody" 5 m1 (UnknownPeer "nobody")
    "a" "b" 6) as [_ H]; [vm_compute; reflexivity|exact E1|vm_compute; reflexivity|].
  rewrite H. vm_compute. reflexivity.
Defined.
End witnesses.
