(* ===== verification/Transport.v ===== *)
(** * Transport: endpoints, errors and the fallback planner

    [crates/transport/src/lib.rs] with the state, event and error types of [session.rs]
    its error type embeds. The planner tries direct STUN, then a configured TURN relay;
    [LocalProcessSocketAdapter] checks the plan and the ciphertext-only rule over a loopback
    socket, which is a parameter here: the operating system's TCP is not in the source. *)

From S2P Require Import Prelude Collections Bytes Framing StrOps.

(** ** Types *)

Definition Endpoint := string.

Inductive TransportSessionState :=
| SessIdle | SessSignaling | SessIceGathering | SessChecking | SessDirect | SessTurnRelay
| SessDisconnected | SessReconnecting | SessFailed | SessCancelled.

#[export] Instance TransportSessionState_eq_dec : EqDecision TransportSessionState.
Proof. solve_decision. Defined.

Inductive TransportSessionEvent :=
| StartSignaling | StartIceGathering | StartConnectivityChecks | SelectDirect
| SelectTurnRelay | MarkDisconnected | StartReconnecting | MarkFailed | EvCancel | EvTearDown
| EvReset.

#[export] Instance TransportSessionEvent_eq_dec : EqDecision TransportSessionEvent.
Proof. solve_decision. Defined.

Inductive TransportSessionError :=
| InvalidTransition (from : TransportSessionState) (event : TransportSessionEvent)
| InvalidReconnectPolicy
| ReconnectAttemptsExhausted (attempts : N).

#[export] Instance TransportSessionError_eq_dec : EqDecision TransportSessionError.
Proof. solve_decision. Defined.

Inductive TransportError :=
| Unavailable (detail : string)
| TransportIo (detail : string)
| PlaintextLeak
| NoViablePath
| InvalidIcePolicy (detail : string)
| InvalidConnectivityPolicy (detail : string)
| SignalingAdapterFailed (detail : string)
| InvalidSessionTransition (e : TransportSessionError).

#[export] Instance TransportError_eq_dec : EqDecision TransportError.
Proof. solve_decision. Defined.

(** The [Debug] names and [Display] texts of the transport errors. *)
Definition session_state_debug (s : TransportSessionState) : string :=
  match s with
  | SessIdle => "Idle" | SessSignaling => "Signaling" | SessIceGathering => "IceGathering"
  | SessChecking => "Checking" | SessDirect => "Direct" | SessTurnRelay => "TurnRelay"
  | SessDisconnected => "Disconnected" | SessReconnecting => "Reconnecting"
  | SessFailed => "Failed" | SessCancelled => "Cancelled"
  end.

Definition session_event_debug (e : TransportSessionEvent) : string :=
  match e with
  | StartSignaling => "StartSignaling" | StartIceGathering => "StartIceGathering"
  | StartConnectivityChecks => "StartConnectivityChecks" | SelectDirect => "SelectDirect"
  | SelectTurnRelay => "SelectTurnRelay" | MarkDisconnected => "MarkDisconnected"
  | StartReconnecting => "StartReconnecting" | MarkFailed => "MarkFailed"
  | EvCancel => "Cancel" | EvTearDown => "TearDown" | EvReset => "Reset"
  end.

Definition session_error_text (e : TransportSessionError) : string :=
  match e with
  | InvalidTransition from event =>
      "invalid transport session transition from " +:+ session_state_debug from +:+ " on "
      +:+ session_event_debug event
  | InvalidReconnectPolicy => "invalid reconnect backoff policy"
  | ReconnectAttemptsExhausted attempts =>
      "reconnect attempts exhausted after " +:+ pretty attempts +:+ " attempts"
  end.

Definition transport_error_text (e : TransportError) : string :=
  match e with
  | Unavailable d => "unavailable: " +:+ d
  | TransportIo d => "local socket I/O failed: " +:+ d
  | PlaintextLeak => "relay-visible payload contains forbidden plaintext"
  | NoViablePath => "no viable direct WebRTC or configured TURN path"
  | InvalidIcePolicy d => "invalid ICE endpoint policy: " +:+ d
  | InvalidConnectivityPolicy d => "invalid connectivity policy: " +:+ d
  | SignalingAdapterFailed d => "signaling adapter failed: " +:+ d
  | InvalidSessionTransition s => session_error_text s
  end.

Inductive FallbackLeg := Stun | Turn.

#[export] Instance FallbackLeg_eq_dec : EqDecision FallbackLeg.
Proof. solve_decision. Defined.

Record SimulatedNat := { stun_available : bool; turn_available : bool }.

Definition nat_direct : SimulatedNat := {| stun_available := true; turn_available := true |}.
Definition nat_turn_only : SimulatedNat := {| stun_available := false; turn_available := true |}.

Record EndpointOverrides := { eo_stun : option Endpoint; eo_turn : option Endpoint }.

Record ConnectivityConfig := {
  default_stun : Endpoint;
  default_turn : Endpoint;
  overrides : EndpointOverrides
}.

Definition UNCONFIGURED_TURN_ENDPOINT : string := "turn:unconfigured.discrypt.invalid".

Definition ConnectivityConfig_default : ConnectivityConfig := {|
  default_stun := "stun:stun.l.google.com:19302";
  default_turn := UNCONFIGURED_TURN_ENDPOINT;
  overrides := {| eo_stun := None; eo_turn := None |}
|}.

Definition stun_endpoint (c : ConnectivityConfig) : Endpoint :=
  default (default_stun c) (eo_stun (overrides c)).

Definition turn_endpoint (c : ConnectivityConfig) : Endpoint :=
  default (default_turn c) (eo_turn (overrides c)).

Definition turn_relay_configured (c : ConnectivityConfig) : bool :=
  bool_decide (is_Some (eo_turn (overrides c)))
  || negb (bool_decide (default_turn c = UNCONFIGURED_TURN_ENDPOINT)).

Record ConnectionAttempt := {
  ca_leg : FallbackLeg;
  ca_endpoint : Endpoint;
  carries_content : bool;
  ca_ciphertext_only : bool;
  ca_succeeded : bool
}.

Record ConnectivityPlan := {
  cp_attempts : list ConnectionAttempt;
  cp_selected : FallbackLeg;
  cp_endpoint : Endpoint
}.

(** ** Plans and their reports *)

Definition leg_order : list FallbackLeg := [Stun; Turn].

(** [.iter().enumerate().all(|(index, leg)| order.get(index) == Some(leg))] *)
Definition follows_order (legs : list FallbackLeg) : bool :=
  forallb (λ p : nat * FallbackLeg, bool_decide (leg_order !! p.1 = Some p.2))
    (imap (λ i l, (i, l)) legs).

Definition ordered_direct_turn (p : ConnectivityPlan) : bool :=
  follows_order (ca_leg <$> cp_attempts p).

Definition relay_legs_ciphertext_only (p : ConnectivityPlan) : bool :=
  forallb (λ a,
    match ca_leg a with
    | Stun => negb (carries_content a)
    | Turn => ca_ciphertext_only a && negb (carries_content a)
    end) (cp_attempts p).

Record RouteReport := {
  rr_selected : FallbackLeg;
  rr_endpoint : Endpoint;
  attempted_legs : list FallbackLeg;
  ciphertext_only_relay_legs : bool;
  rr_limitation : string
}.

Definition route_limitation : string :=
  "deterministic local-process conformance only; not a production NAT/pcap proof".

Definition plan_route_report (p : ConnectivityPlan) : RouteReport := {|
  rr_selected := cp_selected p;
  rr_endpoint := cp_endpoint p;
  attempted_legs := ca_leg <$> cp_attempts p;
  ciphertext_only_relay_legs := relay_legs_ciphertext_only p;
  rr_limitation := route_limitation
|}.

Definition honest_and_ordered (r : RouteReport) : bool :=
  negb (bool_decide (attempted_legs r = []))
  && (N.of_nat (length (attempted_legs r)) <=? N.of_nat (length leg_order))
  && bool_decide (last (attempted_legs r) = Some (rr_selected r))
  && follows_order (attempted_legs r)
  && has_window (as_bytes "local-process") (as_bytes (rr_limitation r))
  && ciphertext_only_relay_legs r.

(** ** The planner *)

Definition stun_attempt (c : ConnectivityConfig) (nat : SimulatedNat) : ConnectionAttempt := {|
  ca_leg := Stun;
  ca_endpoint := stun_endpoint c;
  carries_content := false;
  ca_ciphertext_only := false;
  ca_succeeded := stun_available nat
|}.

Definition turn_attempt (c : ConnectivityConfig) (nat : SimulatedNat) : ConnectionAttempt := {|
  ca_leg := Turn;
  ca_endpoint := turn_endpoint c;
  carries_content := false;
  ca_ciphertext_only := true;
  ca_succeeded := turn_available nat && turn_relay_configured c
|}.

Definition plan (c : ConnectivityConfig) (nat : SimulatedNat) :
    result ConnectivityPlan TransportError :=
  let stun := stun_attempt c nat in
  if stun_available nat then
    Ok {| cp_attempts := [stun]; cp_selected := Stun; cp_endpoint := ca_endpoint stun |}
  else
    let turn := turn_attempt c nat in
    if turn_available nat && turn_relay_configured c then
      Ok {| cp_attempts := [stun; turn]; cp_selected := Turn; cp_endpoint := ca_endpoint turn |}
    else Err NoViablePath.

(** ** The loopback adapter *)

Record LocalProcessSocketAdapter := {
  lp_config : ConnectivityConfig;
  lp_nat : SimulatedNat;
  forbidden_plaintext : bytes
}.

Record LocalProcessConformance := {
  lc_endpoint : Endpoint;
  lc_route_report : RouteReport;
  ciphertext_delivered : bool;
  plaintext_rejected : bool;
  delivered_len : N
}.

Definition conformance_ready (r : LocalProcessConformance) : bool :=
  ciphertext_delivered r && plaintext_rejected r && honest_and_ordered (lc_route_report r).

Definition ensure_ciphertext_only (a : LocalProcessSocketAdapter) (payload : bytes) :
    result unit TransportError :=
  reject_if
    (negb (bool_decide (forbidden_plaintext a = []))
     && has_window (forbidden_plaintext a) payload)
    PlaintextLeak.

Definition rejects_plaintext_sample (a : LocalProcessSocketAdapter) :
    result bool TransportError :=
  if bool_decide (forbidden_plaintext a = []) then Ok true
  else match ensure_ciphertext_only a (forbidden_plaintext a) with
       | Err PlaintextLeak => Ok true
       | Err e => Err e
       | Ok _ => Ok false
       end.

(** The listener, the client stream and the receiving thread: [lb_address] is the bound
    address or the I/O error, [lb_carry] what the receiving end can read of the bytes the
    client wrote. *)
Record Loopback := {
  lb_address : result string string;
  lb_carry : bytes → result bytes string
}.

(** The receiving thread: a four-byte length, then [read_exact] of that many bytes. *)
Definition receive_framed (stream : bytes) : result bytes TransportError :=
  let header := take 4 stream in
  let rest := drop 4 stream in
  check reject_if (len header <? 4) (TransportIo "failed to fill whole buffer") in
  check reject_if (len rest <? from_be header) (TransportIo "failed to fill whole buffer") in
  Ok (take (N.to_nat (from_be header)) rest).

Definition run_conformance (sock : Loopback) (a : LocalProcessSocketAdapter)
    (ciphertext : bytes) : result LocalProcessConformance TransportError :=
  check reject_if (bool_decide (ciphertext = [])) (Unavailable "empty ciphertext") in
  let* rejected := rejects_plaintext_sample a in
  check ensure_ciphertext_only a ciphertext in
  let* p := plan (lp_config a) (lp_nat a) in
  let* address := map_err TransportIo (lb_address sock) in
  let* stream :=
    map_err TransportIo
      (lb_carry sock (be_bytes 4 (len ciphertext mod 2 ^ 32) ++ ciphertext)) in
  let* delivered := receive_framed stream in
  Ok {| lc_endpoint := "tcp://" +:+ address;
        lc_route_report := plan_route_report p;
        ciphertext_delivered :=
          bool_decide (delivered = ciphertext) && (len delivered =? len ciphertext);
        plaintext_rejected := rejected;
        delivered_len := len delivered |}.

(** ** Lemmas *)

Lemma plan_ok c nat :
  is_ok (plan c nat) = stun_available nat || turn_available nat && turn_relay_configured c.
Proof.
  unfold plan. destruct (stun_available nat); [done|].
  by destruct (turn_available nat && turn_relay_configured c).
Qed.

Lemma plan_cases c nat p :
  plan c nat = Ok p →
  (stun_available nat = true ∧
   p = {| cp_attempts := [stun_attempt c nat]; cp_selected := Stun;
          cp_endpoint := stun_endpoint c |}) ∨
  (stun_available nat = false ∧ turn_available nat && turn_relay_configured c = true ∧
   p = {| cp_attempts := [stun_attempt c nat; turn_attempt c nat]; cp_selected := Turn;
          cp_endpoint := turn_endpoint c |}).
Proof. unfold plan. intros. case_all; eauto. Qed.

Lemma plan_report_honest c nat p :
  plan c nat = Ok p → honest_and_ordered (plan_route_report p) = true.
Proof. intros [[_ ->]|(_ & _ & ->)]%plan_cases; reflexivity. Qed.

Lemma ensure_ciphertext_only_spec a payload :
  ensure_ciphertext_only a payload = Ok () ↔
  forbidden_plaintext a = [] ∨
  ¬ ∃ before after, payload = before ++ forbidden_plaintext a ++ after.
Proof.
  unfold ensure_ciphertext_only, reject_if. rewrite <- has_window_spec.
  destruct (decide (forbidden_plaintext a = [])) as [E|E]; simpl.
  - rewrite bool_decide_true by done. split; [by left|done].
  - rewrite bool_decide_false by done. simpl.
    destruct (has_window (forbidden_plaintext a) payload); split; try done.
    + intros [?|[]]; done.
    + by right.
Qed.

Lemma rejects_plaintext_sample_true a : rejects_plaintext_sample a = Ok true.
Proof.
  unfold rejects_plaintext_sample. case_bool_decide as E; [done|].
  unfold ensure_ciphertext_only. rewrite bool_decide_false by done.
  replace (has_window _ _) with true; [done|].
  symmetry. apply has_window_spec. exists [], []. by rewrite app_nil_r.
Qed.

Lemma receive_framed_sent m :
  len m < 2 ^ 32 → receive_framed (be_bytes 4 (len m mod 2 ^ 32) ++ m) = Ok m.
Proof.
  intros Hm. unfold receive_framed. rewrite N.mod_small by done.
  rewrite take_app_length', drop_app_length' by (by rewrite length_be_bytes).
  rewrite from_be_bytes by done. unfold len. rewrite length_be_bytes. simpl.
  rewrite (proj2 (N.ltb_ge _ _)) by lia. simpl. by rewrite Nat2N.id, firstn_all.
Qed.

(** ** Properties *)

(** The planner is fail-closed and honest: it finds a plan exactly when direct
    traversal works or a reachable TURN relay was really configured; the plan tries STUN
    before TURN, marks every relay leg ciphertext-only, ends with its only successful
    attempt at the endpoint it selects, and its report passes the honesty check. The
    placeholder TURN endpoint of the default configuration is never selected. *)
Theorem planner_is_fail_closed c nat :
  (is_ok (plan c nat) = true ↔
   stun_available nat = true ∨ (turn_available nat = true ∧ turn_relay_configured c = true)) ∧
  match plan c nat with
  | Err e => e = NoViablePath
  | Ok p =>
      ordered_direct_turn p = true ∧ relay_legs_ciphertext_only p = true ∧
      honest_and_ordered (plan_route_report p) = true ∧
      (∃ failed a, cp_attempts p = failed ++ [a] ∧ ca_succeeded a = true ∧
         ca_leg a = cp_selected p ∧ ca_endpoint a = cp_endpoint p ∧
         Forall (λ b, ca_succeeded b = false) failed) ∧
      (cp_selected p = Turn → eo_turn (overrides c) = None →
       cp_endpoint p ≠ UNCONFIGURED_TURN_ENDPOINT)
  end.
Proof.
  split.
  - rewrite plan_ok, orb_true_iff, andb_true_iff. done.
  - destruct (plan c nat) as [p|e] eqn:E.
    + pose proof (plan_report_honest _ _ _ E).
      apply plan_cases in E as [[Hs ->]|(Hs & Ht & ->)]; (do 3 (split; [done|])).
      * split; [|done]. exists [], (stun_attempt c nat). by repeat split.
      * split.
        { exists [stun_attempt c nat], (turn_attempt c nat). repeat split; try done.
          by constructor. }
        intros _ Hnone. apply andb_true_iff in Ht as [_ Hc]. simpl.
        unfold turn_relay_configured, turn_endpoint in *. rewrite Hnone in *. simpl in *.
        by case_bool_decide.
    + unfold plan in E. case_all.
Qed.

(** Conformance run: over a loopback socket that carries bytes faithfully, a non-empty
    ciphertext below 4 GiB that does not contain the forbidden plaintext is delivered byte
    for byte and the run is ready whenever the planner finds a route; a payload with the
    forbidden plaintext in it never reaches the socket. *)
Theorem conformance_is_ciphertext_only sock a addr ct :
  lb_address sock = Ok addr → (∀ b, lb_carry sock b = Ok b) →
  ct ≠ [] → len ct < 2 ^ 32 → is_ok (plan (lp_config a) (lp_nat a)) = true →
  match run_conformance sock a ct with
  | Ok r =>
      conformance_ready r = true ∧ delivered_len r = len ct ∧
      (forbidden_plaintext a = [] ∨
       ¬ ∃ before after, ct = before ++ forbidden_plaintext a ++ after)
  | Err e => e = PlaintextLeak ∧ ∃ before after, ct = before ++ forbidden_plaintext a ++ after
  end.
Proof.
  intros Haddr Hcarry Hne Hlen Hplan. unfold run_conformance.
  rewrite bool_decide_false, rejects_plaintext_sample_true by done. cbn [reject_if rbind].
  destruct (ensure_ciphertext_only a ct) as [[]|e] eqn:He; cbn [rbind].
  - destruct (plan _ _) as [p|] eqn:Ep; [|done]. cbn [rbind].
    rewrite Haddr. cbn [map_err rbind]. rewrite Hcarry. cbn [map_err rbind].
    rewrite receive_framed_sent by done. cbn [rbind].
    split; [|split; [done|by apply ensure_ciphertext_only_spec]].
    unfold conformance_ready. cbn. rewrite bool_decide_true, N.eqb_refl by done. simpl.
    by eapply plan_report_honest.
  - unfold ensure_ciphertext_only, reject_if in He.
    destruct (has_window _ _) eqn:Hw; [|by rewrite andb_false_r in He].
    case_match; [|done]. simplify_eq. split; [done|]. by apply has_window_spec.
Qed.

Section witnesses.

Definition toy_loopback : Loopback :=
  {| lb_address := Ok "127.0.0.1:4000"; lb_carry := λ b, Ok b |}.

Definition toy_adapter : LocalProcessSocketAdapter := {|
  lp_config := ConnectivityConfig_default;
  lp_nat := nat_direct;
  forbidden_plaintext := as_bytes "hi"
|}.

Lemma conformance_is_ciphertext_only_witness :
  (match run_conformance toy_loopback toy_adapter [7; 104; 9] with
   | Ok r => conformance_ready r = true ∧ delivered_len r = 3 ∧
             (as_bytes "hi" = [] ∨ ¬ ∃ before after, [7; 104; 9] = before ++ as_bytes "hi" ++ after)
   | Err e => e = PlaintextLeak ∧ ∃ before after, [7; 104; 9] = before ++ as_bytes "hi" ++ after
   end)
  ∧ run_conformance toy_loopback toy_adapter (as_bytes "ohi") = Err PlaintextLeak.
Proof.
  split; [|reflexivity].
  apply (conformance_is_ciphertext_only toy_loopback toy_adapter "127.0.0.1:4000");
    done || reflexivity.
Defined.

End witnesses.
