(* ===== verification/Session.v ===== *)
(** * Transport sessions

    [crates/transport/src/session.rs]: the life cycle of one ICE/WebRTC session, its route
    status, its reconnect budget and the backoff schedule. Every method of
    [TransportSession] is a function from the session to the session and its result; the
    theorems are about any sequence of calls. *)

From S2P Require Import Prelude Collections Transport.

(** ** Types *)

Definition all_states : list TransportSessionState :=
  [SessIdle; SessSignaling; SessIceGathering; SessChecking; SessDirect; SessTurnRelay;
   SessDisconnected; SessReconnecting; SessFailed; SessCancelled].

Definition is_connected (s : TransportSessionState) : bool :=
  match s with SessDirect | SessTurnRelay => true | _ => false end.

Inductive TransportRoute := RouteDirect | RouteTurnRelay.

#[export] Instance TransportRoute_eq_dec : EqDecision TransportRoute.
Proof. solve_decision. Defined.

Definition from_fallback_leg (l : FallbackLeg) : TransportRoute :=
  match l with Stun => RouteDirect | Turn => RouteTurnRelay end.

Definition route_state (r : TransportRoute) : TransportSessionState :=
  match r with RouteDirect => SessDirect | RouteTurnRelay => SessTurnRelay end.

Record ReconnectBackoffPolicy := {
  initial_delay_ms : N;
  max_delay_ms : N;
  bp_multiplier : N;
  max_attempts : N
}.

Definition ReconnectBackoffPolicy_default : ReconnectBackoffPolicy := {|
  initial_delay_ms := 250; max_delay_ms := 8000; bp_multiplier := 2; max_attempts := 8
|}.

Definition reconnect_policy_validate (p : ReconnectBackoffPolicy) : result unit TransportSessionError :=
  reject_if
    ((initial_delay_ms p =? 0) || (max_delay_ms p <? initial_delay_ms p)
     || (bp_multiplier p <? 1) || (max_attempts p =? 0))
    InvalidReconnectPolicy.

Definition backoff_new (initial top multiplier attempts : N) :
    result ReconnectBackoffPolicy TransportSessionError :=
  let p := {| initial_delay_ms := initial; max_delay_ms := top;
              bp_multiplier := multiplier; max_attempts := attempts |} in
  check reconnect_policy_validate p in Ok p.

(** [for _ in 0..exponent] with its [break]. *)
Fixpoint backoff_loop (n : nat) (p : ReconnectBackoffPolicy) (delay : N) : N :=
  match n with
  | O => delay
  | S n' =>
      if max_delay_ms p <=? delay then delay
      else backoff_loop n' p
             (N.min (sat_mul u64_max delay (bp_multiplier p)) (max_delay_ms p))
  end.

Definition delay_for_attempt (p : ReconnectBackoffPolicy) (attempt : N) : N :=
  N.min (backoff_loop (N.to_nat (attempt - 1)) p (initial_delay_ms p)) (max_delay_ms p).

Record ReconnectDecision := { rd_attempt : N; rd_delay_ms : N }.

Record TransportRouteStatus := {
  rs_route : TransportRoute;
  rs_endpoint : Endpoint;
  rs_route_report : option RouteReport
}.

Record TransportSessionSnapshot := {
  snap_schema_version : N;
  snap_state : TransportSessionState;
  snap_route : option TransportRouteStatus;
  snap_reconnect_attempts : N;
  snap_last_error : option string
}.

Definition snapshot_connected (s : TransportSessionSnapshot) : bool :=
  is_connected (snap_state s) && bool_decide (is_Some (snap_route s)).

Record TransportSession := {
  ts_state : TransportSessionState;
  ts_route : option TransportRouteStatus;
  ts_reconnect_attempts : N;
  ts_last_error : option string
}.

Definition session_new : TransportSession := {|
  ts_state := SessIdle; ts_route := None; ts_reconnect_attempts := 0; ts_last_error := None
|}.

Definition session_snapshot (s : TransportSession) : TransportSessionSnapshot := {|
  snap_schema_version := 1;
  snap_state := ts_state s;
  snap_route := ts_route s;
  snap_reconnect_attempts := ts_reconnect_attempts s;
  snap_last_error := ts_last_error s
|}.

(** ** Transitions *)

Definition SessionResult : Type := result TransportSessionSnapshot TransportSessionError.

Definition invalid_transition (s : TransportSession) (e : TransportSessionEvent) :
  TransportSessionError := InvalidTransition (ts_state s) e.

Definition require_state (s : TransportSession) (e : TransportSessionEvent)
    (allowed : list TransportSessionState) : result unit TransportSessionError :=
  if bool_decide (ts_state s ∈ allowed) then Ok tt else Err (invalid_transition s e).

(** A method that checks its guard, updates the session and returns its snapshot. *)
Definition guarded (guard : result unit TransportSessionError) (s s' : TransportSession) :
    TransportSession * SessionResult :=
  match guard with
  | Ok _ => (s', Ok (session_snapshot s'))
  | Err e => (s, Err e)
  end.

Definition begin_signaling (s : TransportSession) : TransportSession * SessionResult :=
  guarded (require_state s StartSignaling [SessIdle; SessReconnecting]) s
    {| ts_state := SessSignaling; ts_route := None;
       ts_reconnect_attempts := ts_reconnect_attempts s; ts_last_error := None |}.

Definition with_state (s : TransportSession) (st : TransportSessionState) : TransportSession :=
  {| ts_state := st; ts_route := ts_route s;
     ts_reconnect_attempts := ts_reconnect_attempts s; ts_last_error := ts_last_error s |}.

Definition begin_ice_gathering (s : TransportSession) : TransportSession * SessionResult :=
  guarded (require_state s StartIceGathering [SessSignaling]) s (with_state s SessIceGathering).

Definition begin_checking (s : TransportSession) : TransportSession * SessionResult :=
  guarded (require_state s StartConnectivityChecks [SessIceGathering]) s
    (with_state s SessChecking).

Definition select_route (route : TransportRoute) (endpoint : Endpoint)
    (report : option RouteReport) (s : TransportSession) : TransportSession * SessionResult :=
  guarded
    (require_state s
       (match route with RouteDirect => SelectDirect | RouteTurnRelay => SelectTurnRelay end)
       [SessChecking]) s
    {| ts_state := route_state route;
       ts_route := Some {| rs_route := route; rs_endpoint := endpoint;
                           rs_route_report := report |};
       ts_reconnect_attempts := ts_reconnect_attempts s; ts_last_error := None |}.

Definition select_direct (endpoint : Endpoint) : TransportSession → _ :=
  select_route RouteDirect endpoint None.

Definition select_turn_relay (endpoint : Endpoint) : TransportSession → _ :=
  select_route RouteTurnRelay endpoint None.

Definition select_connectivity_plan (p : ConnectivityPlan) : TransportSession → _ :=
  select_route (from_fallback_leg (cp_selected p)) (cp_endpoint p) (Some (plan_route_report p)).

Definition turn_required_plan (stun turn : Endpoint) : ConnectivityPlan := {|
  cp_attempts :=
    [{| ca_leg := Stun; ca_endpoint := stun; carries_content := false;
        ca_ciphertext_only := false; ca_succeeded := false |};
     {| ca_leg := Turn; ca_endpoint := turn; carries_content := false;
        ca_ciphertext_only := true; ca_succeeded := false |}];
  cp_selected := Turn;
  cp_endpoint := turn
|}.

Definition fail_direct_path_turn_required (stun turn : Endpoint) (s : TransportSession) :
    TransportSession * SessionResult :=
  guarded
    (require_state s MarkFailed
       [SessSignaling; SessIceGathering; SessChecking; SessDisconnected; SessReconnecting]) s
    {| ts_state := SessFailed;
       ts_route := Some {| rs_route := RouteTurnRelay; rs_endpoint := turn;
                           rs_route_report :=
                             Some (plan_route_report (turn_required_plan stun turn)) |};
       ts_reconnect_attempts := ts_reconnect_attempts s;
       ts_last_error := Some "direct WebRTC failed and TURN is required but not configured" |}.

(** The route is dropped and the reason kept. *)
Definition dropped (s : TransportSession) (st : TransportSessionState) (reason : string) :
  TransportSession :=
  {| ts_state := st; ts_route := None;
     ts_reconnect_attempts := ts_reconnect_attempts s; ts_last_error := Some reason |}.

Definition mark_disconnected (reason : string) (s : TransportSession) :
    TransportSession * SessionResult :=
  guarded (require_state s MarkDisconnected [SessDirect; SessTurnRelay]) s
    (dropped s SessDisconnected reason).

Definition reconnecting (s : TransportSession) (attempt : N) : TransportSession :=
  {| ts_state := SessReconnecting; ts_route := ts_route s;
     ts_reconnect_attempts := attempt; ts_last_error := ts_last_error s |}.

Definition begin_reconnecting (s : TransportSession) : TransportSession * SessionResult :=
  guarded (require_state s StartReconnecting [SessDisconnected]) s
    (reconnecting s (sat_add u32_max (ts_reconnect_attempts s) 1)).

Definition schedule_reconnect (p : ReconnectBackoffPolicy) (s : TransportSession) :
    TransportSession * result ReconnectDecision TransportSessionError :=
  match (check reconnect_policy_validate p in require_state s StartReconnecting [SessDisconnected]) with
  | Err e => (s, Err e)
  | Ok _ =>
      let next_attempt := sat_add u32_max (ts_reconnect_attempts s) 1 in
      if max_attempts p <? next_attempt then
        (dropped s SessFailed "reconnect attempts exhausted",
         Err (ReconnectAttemptsExhausted (ts_reconnect_attempts s)))
      else
        (reconnecting s next_attempt,
         Ok {| rd_attempt := next_attempt; rd_delay_ms := delay_for_attempt p next_attempt |})
  end.

Definition cancel (reason : string) (s : TransportSession) : TransportSession * SessionResult :=
  guarded
    (reject_if (bool_decide (ts_state s ∈ [SessFailed; SessCancelled]))
       (invalid_transition s EvCancel)) s
    (dropped s SessCancelled reason).

Definition tear_down (reason : string) (s : TransportSession) :
    TransportSession * SessionResult :=
  guarded (reject_if (bool_decide (ts_state s = SessFailed)) (invalid_transition s EvTearDown)) s
    (dropped s SessCancelled reason).

Definition session_fail (reason : string) (s : TransportSession) :
    TransportSession * SessionResult :=
  guarded (reject_if (bool_decide (ts_state s = SessFailed)) (invalid_transition s MarkFailed)) s
    (dropped s SessFailed reason).

Definition session_reset (s : TransportSession) : TransportSession * SessionResult :=
  guarded (require_state s EvReset [SessDisconnected; SessFailed; SessCancelled]) s session_new.

(** ** Any sequence of calls *)

Inductive SessionCall :=
| CallBeginSignaling
| CallBeginIceGathering
| CallBeginChecking
| CallSelectDirect (e : Endpoint)
| CallSelectTurnRelay (e : Endpoint)
| CallSelectPlan (p : ConnectivityPlan)
| CallFailTurnRequired (stun turn : Endpoint)
| CallMarkDisconnected (reason : string)
| CallBeginReconnecting
| CallScheduleReconnect (p : ReconnectBackoffPolicy)
| CallCancel (reason : string)
| CallTearDown (reason : string)
| CallFail (reason : string)
| CallReset.

Definition session_step (s : TransportSession) (c : SessionCall) :
    TransportSession * result unit TransportSessionError :=
  let unit_of := λ r : TransportSession * SessionResult, (r.1, rmap (λ _, tt) r.2) in
  match c with
  | CallBeginSignaling => unit_of (begin_signaling s)
  | CallBeginIceGathering => unit_of (begin_ice_gathering s)
  | CallBeginChecking => unit_of (begin_checking s)
  | CallSelectDirect e => unit_of (select_direct e s)
  | CallSelectTurnRelay e => unit_of (select_turn_relay e s)
  | CallSelectPlan p => unit_of (select_connectivity_plan p s)
  | CallFailTurnRequired stun turn => unit_of (fail_direct_path_turn_required stun turn s)
  | CallMarkDisconnected reason => unit_of (mark_disconnected reason s)
  | CallBeginReconnecting => unit_of (begin_reconnecting s)
  | CallScheduleReconnect p =>
      let r := schedule_reconnect p s in (r.1, rmap (λ _, tt) r.2)
  | CallCancel reason => unit_of (cancel reason s)
  | CallTearDown reason => unit_of (tear_down reason s)
  | CallFail reason => unit_of (session_fail reason s)
  | CallReset => unit_of (session_reset s)
  end.

(** The session and the outcome of every call, oldest first. *)
Fixpoint session_run (s : TransportSession) (calls : list SessionCall) :
    TransportSession * list (result unit TransportSessionError) :=
  match calls with
  | [] => (s, [])
  | c :: rest =>
      let r := session_step s c in
      let q := session_run r.1 rest in (q.1, r.2 :: q.2)
  end.

(** The arrows of the life cycle that keep the route status: the specification the
    transitions refine. *)
Inductive lifecycle : TransportSessionState → TransportSessionState → Prop :=
| lc_signal st : st = SessIdle ∨ st = SessReconnecting → lifecycle st SessSignaling
| lc_gather : lifecycle SessSignaling SessIceGathering
| lc_check : lifecycle SessIceGathering SessChecking
| lc_direct : lifecycle SessChecking SessDirect
| lc_turn : lifecycle SessChecking SessTurnRelay
| lc_drop st : is_connected st = true → lifecycle st SessDisconnected
| lc_reconnect : lifecycle SessDisconnected SessReconnecting
| lc_fail st : st ≠ SessFailed → lifecycle st SessFailed
| lc_cancel st : st ≠ SessFailed → lifecycle st SessCancelled
| lc_reset st :
    st = SessDisconnected ∨ st = SessFailed ∨ st = SessCancelled → lifecycle st SessIdle.

(** ** The invariant *)

(** A route is stored exactly in the connected states, of the matching kind, and as a
    diagnostic in [Failed]; the attempt counter is a [u32]. *)
Definition session_wf (s : TransportSession) : Prop :=
  (match ts_state s with
   | SessDirect => rs_route <$> ts_route s = Some RouteDirect
   | SessTurnRelay => rs_route <$> ts_route s = Some RouteTurnRelay
   | SessFailed => rs_route <$> ts_route s ≠ Some RouteDirect
   | _ => ts_route s = None
   end) ∧ ts_reconnect_attempts s ≤ u32_max.

Lemma guarded_cases g s s' r q :
  guarded g s s' = (q, r) →
  (g = Ok tt ∧ q = s' ∧ r = Ok (session_snapshot s')) ∨ (∃ e, g = Err e ∧ q = s ∧ r = Err e).
Proof. unfold guarded. destruct g as [[]|e]; intros [= <- <-]; eauto. Qed.

Lemma require_state_ok s e allowed : require_state s e allowed = Ok tt ↔ ts_state s ∈ allowed.
Proof. unfold require_state. case_bool_decide; done. Qed.

(** Every call is a guarded update; the case analysis all the step lemmas share. *)
Ltac session_cases :=
  unfold begin_signaling, begin_ice_gathering, begin_checking, select_direct,
    select_turn_relay, select_connectivity_plan, select_route, fail_direct_path_turn_required,
    mark_disconnected, begin_reconnecting, schedule_reconnect, cancel, tear_down, session_fail,
    session_reset, guarded, require_state, reconnect_policy_validate, reject_if, rbind in *;
  repeat case_match; simplify_eq/=;
  repeat match goal with
    | H : bool_decide _ = true |- _ => apply bool_decide_eq_true in H
    | H : bool_decide _ = false |- _ => apply bool_decide_eq_false in H
    end.

Lemma session_step_wf s c : session_wf s → session_wf (session_step s c).1.
Proof.
  intros [Hr Ha].
  assert (sat_add u32_max (ts_reconnect_attempts s) 1 ≤ u32_max) by (unfold sat_add; lia).
  destruct s as [st rt n err]; simpl in *.
  destruct c; simpl; session_cases; split; simpl; try done; set_unfold; destruct_or?; simplify_eq/=;
    try done; try by destruct (from_fallback_leg _).
Qed.

Lemma session_run_app s k l :
  session_run s (k ++ l) =
  let q := session_run s k in
  ((session_run q.1 l).1, q.2 ++ (session_run q.1 l).2).
Proof.
  revert s. induction k as [|c k IH]; intros s; simpl; [by destruct (session_run s l)|].
  by rewrite IH.
Qed.

Lemma session_run_wf s calls : session_wf s → session_wf (session_run s calls).1.
Proof.
  revert s. induction calls as [|c l IH]; intros s Hs; simpl; [done|].
  by apply IH, session_step_wf.
Qed.

Lemma session_new_wf : session_wf session_new.
Proof. split; [done|]. simpl. unfold u32_max. lia. Qed.

Lemma wf_connected s :
  session_wf s → snapshot_connected (session_snapshot s) = is_connected (ts_state s).
Proof.
  intros [Hr _]. unfold snapshot_connected. simpl. destruct (ts_state s); simpl; try done;
    apply bool_decide_eq_true; by destruct (ts_route s).
Qed.

(** ** The reconnect budget *)

Definition is_reconnect (c : SessionCall) : bool :=
  match c with CallBeginReconnecting | CallScheduleReconnect _ => true | _ => false end.

(** The reconnects a run grants. *)
Definition granted (calls : list SessionCall) (rs : list (result unit TransportSessionError)) : N :=
  N.of_nat (length (filter (λ p : SessionCall * result unit TransportSessionError,
    is_reconnect p.1 && is_ok p.2 = true) (zip calls rs))).

Lemma granted_cons c r calls rs :
  granted (c :: calls) (r :: rs) = (if is_reconnect c && is_ok r then 1 else 0) + granted calls rs.
Proof.
  unfold granted. cbn [zip zip_with]. rewrite filter_cons. simpl.
  destruct (is_reconnect c && is_ok r); simpl; lia.
Qed.

(** A call other than [reset] adds one to the counter when it grants a reconnect. *)
Lemma session_step_attempts s c :
  c ≠ CallReset →
  ts_reconnect_attempts (session_step s c).1 =
  if is_reconnect c && is_ok (session_step s c).2
  then sat_add u32_max (ts_reconnect_attempts s) 1 else ts_reconnect_attempts s.
Proof. intros Hc. destruct c; try done; simpl; session_cases; done. Qed.

(** A budgeted call grants a reconnect only below the budget. *)
Definition budgeted (m : N) (c : SessionCall) : Prop :=
  match c with
  | CallReset | CallBeginReconnecting => False
  | CallScheduleReconnect p => max_attempts p ≤ m
  | _ => True
  end.

Lemma budgeted_not_reset m c : budgeted m c → c ≠ CallReset.
Proof. by destruct c. Qed.

Lemma budgeted_grant m s c :
  budgeted m c → m < u32_max → is_reconnect c && is_ok (session_step s c).2 = true →
  sat_add u32_max (ts_reconnect_attempts s) 1 = ts_reconnect_attempts s + 1 ∧
  ts_reconnect_attempts s + 1 ≤ m.
Proof.
  intros Hb Hm. destruct c; try done; simpl in *; session_cases; try done.
  all: intros _; unfold sat_add in *; revert select (_ <? _ = false); rewrite N.ltb_ge; lia.
Qed.

Lemma budgeted_run m s calls :
  m < u32_max → Forall (budgeted m) calls → ts_reconnect_attempts s ≤ m →
  ts_reconnect_attempts s + granted calls (session_run s calls).2
  = ts_reconnect_attempts (session_run s calls).1 ∧
  ts_reconnect_attempts (session_run s calls).1 ≤ m.
Proof.
  intros Hm Hc. revert s. induction Hc as [|c calls Hc _ IH]; intros s Hs; simpl.
  { unfold granted. simpl. lia. }
  rewrite granted_cons. pose proof (session_step_attempts s c (budgeted_not_reset _ _ Hc)) as Ha.
  destruct (is_reconnect c && is_ok _) eqn:E.
  - apply (budgeted_grant m) in E as [E1 E2]; [|done..]. rewrite E1 in Ha.
    destruct (IH (session_step s c).1) as [IH1 IH2]; [lia|]. split; [|done]. lia.
  - destruct (IH (session_step s c).1) as [IH1 IH2]; [lia|]. split; [|done]. lia.
Qed.

(** ** Backoff *)

Lemma backoff_loop_spec n p d :
  1 ≤ bp_multiplier p → d ≤ max_delay_ms p → max_delay_ms p ≤ u64_max →
  backoff_loop n p d = N.min (d * bp_multiplier p ^ N.of_nat n) (max_delay_ms p).
Proof.
  intros Hm Hd Hu. revert d Hd. induction n as [|n IH]; intros d Hd.
  { simpl. rewrite N.mul_1_r. lia. }
  pose proof (N.pow_le_mono_r (bp_multiplier p) 0 (N.of_nat (S n))) as Hp.
  rewrite N.pow_0_r in Hp. cbn [backoff_loop].
  destruct (N.leb_spec (max_delay_ms p) d) as [Hle|Hlt].
  - assert (d * 1 ≤ d * bp_multiplier p ^ N.of_nat (S n)) by (apply N.mul_le_mono_l, Hp; lia). lia.
  - unfold sat_mul. rewrite IH by lia. rewrite Nat2N.inj_succ, N.pow_succ_r', N.mul_assoc.
    replace (N.min (N.min (d * bp_multiplier p) u64_max) (max_delay_ms p))
      with (N.min (d * bp_multiplier p) (max_delay_ms p)) by lia.
    destruct (N.le_gt_cases (d * bp_multiplier p) (max_delay_ms p)) as [H|H].
    + by rewrite (N.min_l (d * _)) by lia.
    + rewrite (N.min_r (d * bp_multiplier p)) by lia.
      assert (1 ≤ bp_multiplier p ^ N.of_nat n).
      { rewrite <- (N.pow_0_r (bp_multiplier p)). apply N.pow_le_mono_r; lia. }
      rewrite !N.min_r; [done|nia..].
Qed.

Lemma reconnect_policy_validate_ok p :
  reconnect_policy_validate p = Ok tt ↔
  0 < initial_delay_ms p ≤ max_delay_ms p ∧ 1 ≤ bp_multiplier p ∧ 0 < max_attempts p.
Proof.
  unfold reconnect_policy_validate, reject_if.
  destruct (N.eqb_spec (initial_delay_ms p) 0), (N.ltb_spec (max_delay_ms p) (initial_delay_ms p)),
    (N.ltb_spec (bp_multiplier p) 1), (N.eqb_spec (max_attempts p) 0); simpl; split; done || lia.
Qed.

(** ** Recovery *)

Definition negotiate (e : Endpoint) : list SessionCall :=
  [CallBeginSignaling; CallBeginIceGathering; CallBeginChecking; CallSelectDirect e].

(** The calls that bring a session from a state to a direct route. *)
Definition recovery (e : Endpoint) (st : TransportSessionState) : list SessionCall :=
  match st with
  | SessIdle | SessReconnecting => negotiate e
  | SessSignaling => drop 1 (negotiate e)
  | SessIceGathering => drop 2 (negotiate e)
  | SessChecking => drop 3 (negotiate e)
  | SessDirect | SessTurnRelay => []
  | SessDisconnected | SessFailed | SessCancelled => CallReset :: negotiate e
  end.

(** One outage: the route is negotiated again and lost again. *)
Definition outage (p : ReconnectBackoffPolicy) (e : Endpoint) (reason : string) :
    list SessionCall :=
  CallScheduleReconnect p :: negotiate e ++ [CallMarkDisconnected reason].

Fixpoint outages (n : nat) p e reason : list SessionCall :=
  match n with O => [] | S n' => outages n' p e reason ++ outage p e reason end.

Definition disconnected_after (k : N) (reason : string) : TransportSession := {|
  ts_state := SessDisconnected; ts_route := None; ts_reconnect_attempts := k;
  ts_last_error := Some reason
|}.

Lemma outage_run p e reason k :
  reconnect_policy_validate p = Ok tt → k < max_attempts p → max_attempts p < u32_max →
  session_run (disconnected_after k reason) (outage p e reason) =
  (disconnected_after (k + 1) reason, replicate 6 (Ok tt)).
Proof.
  intros Hp Hk Hm. unfold outage. cbn [session_run session_step].
  unfold schedule_reconnect. rewrite Hp. cbn [rbind]. unfold require_state at 1.
  rewrite bool_decide_true by set_solver. simpl ts_reconnect_attempts.
  replace (sat_add u32_max k 1) with (k + 1) by (unfold sat_add; lia).
  rewrite (proj2 (N.ltb_ge _ _)) by lia. reflexivity.
Qed.

Lemma outages_run p e reason n :
  reconnect_policy_validate p = Ok tt → N.of_nat n ≤ max_attempts p → max_attempts p < u32_max →
  session_run (disconnected_after 0 reason) (outages n p e reason) =
  (disconnected_after (N.of_nat n) reason, replicate (6 * n) (Ok tt)).
Proof.
  intros Hp Hn Hm. induction n as [|n IH]; [done|]. cbn [outages].
  rewrite session_run_app, IH by lia. cbn [fst snd]. rewrite outage_run by (done || lia).
  cbn [fst snd]. rewrite <- replicate_add. do 2 f_equal; [f_equal; lia|lia].
Qed.

(** ** Properties *)

(** C36. Route status: after any sequence of calls a session reports itself connected
    exactly in the two connected states, it then holds a route of the matching kind, a
    failed session never shows a direct route, no other state holds a route, and the
    attempt counter stays a 32-bit number. *)
Theorem session_route_is_typed calls :
  let s := (session_run session_new calls).1 in
  session_wf s ∧
  (snapshot_connected (session_snapshot s) = true ↔
   ∃ r, rs_route <$> ts_route s = Some r ∧ ts_state s = route_state r).
Proof.
  intros s. assert (session_wf s) as Hs by apply session_run_wf, session_new_wf.
  split; [done|]. rewrite wf_connected by done. destruct Hs as [Hr _]. split.
  - destruct (ts_state s); try done; eauto.
  - intros ([] & _ & ->); done.
Qed.

(** C35. Refinement of the life cycle: an accepted call moves along an arrow of the life
    cycle, or is the caller giving up; a rejected call leaves the session as it was, except
    that running out of attempts moves a disconnected session to [Failed]. *)
Theorem session_refines_lifecycle s c :
  match (session_step s c).2 with
  | Ok _ => lifecycle (ts_state s) (ts_state (session_step s c).1)
  | Err (ReconnectAttemptsExhausted n) =>
      (session_step s c).1 = dropped s SessFailed "reconnect attempts exhausted" ∧
      ts_state s = SessDisconnected ∧ n = ts_reconnect_attempts s
  | Err _ => (session_step s c).1 = s
  end.
Proof.
  destruct s as [st rt n err]; destruct c; simpl; session_cases; simpl; set_unfold;
    destruct_or?; simplify_eq/=; try done; eauto using lifecycle;
    try (destruct (from_fallback_leg _); eauto using lifecycle).
  all: constructor; naive_solver.
Qed.

(** Reconnect budget: when reconnects are scheduled under policies of at most [m]
    attempts and the session is not reset, any sequence of calls grants at most [m]
    reconnects, and the counter in the snapshot is the number granted. *)
Theorem reconnect_budget_is_respected m calls :
  m < u32_max → Forall (budgeted m) calls →
  let q := session_run session_new calls in
  granted calls q.2 = snap_reconnect_attempts (session_snapshot q.1) ∧ granted calls q.2 ≤ m.
Proof.
  intros Hm Hc q. destruct (budgeted_run m session_new calls) as [H1 H2]; [done..|simpl; lia|].
  simpl in *. fold q in H1, H2. lia.
Qed.

(** Liveness: from every state that calls can reach, at most five calls, all accepted,
    bring the session to a direct route; no state is a trap. *)
Theorem session_can_always_reconnect calls e :
  let s := (session_run session_new calls).1 in
  let q := session_run s (recovery e (ts_state s)) in
  snapshot_connected (session_snapshot q.1) = true ∧
  Forall (λ r, r = Ok tt) q.2 ∧ (length q.2 ≤ 5)%nat.
Proof.
  intros s q. assert (session_wf s) as Hs by apply session_run_wf, session_new_wf.
  subst q. rewrite wf_connected by (apply session_run_wf, Hs).
  destruct s as [[] rt n err]; simpl; (split; [done|]); (split; [|lia]); repeat constructor.
Qed.

(** Exhaustion: a route that is lost again and again is retried exactly [max_attempts]
    times, each attempt delayed by the capped geometric backoff; the next request reports
    the budget exhausted and the session is [Failed], where every call but [reset] is
    rejected and [reset] gives a new session. *)
Theorem persistent_outage_fails p e reason :
  reconnect_policy_validate p = Ok tt → max_attempts p < u32_max → max_delay_ms p ≤ u64_max →
  let q := session_run (disconnected_after 0 reason)
             (outages (N.to_nat (max_attempts p)) p e reason) in
  let r := schedule_reconnect p q.1 in
  Forall (λ x, x = Ok tt) q.2 ∧
  r.2 = Err (ReconnectAttemptsExhausted (max_attempts p)) ∧
  ts_state r.1 = SessFailed ∧
  (∀ c, is_ok (session_step r.1 c).2 = true ↔ c = CallReset) ∧
  (session_step r.1 CallReset).1 = session_new ∧
  (∀ k, k < max_attempts p →
     (schedule_reconnect p (disconnected_after k reason)).2 =
     Ok {| rd_attempt := k + 1;
           rd_delay_ms := N.min (initial_delay_ms p * bp_multiplier p ^ k) (max_delay_ms p) |}).
Proof.
  intros Hp Hm Hu q r.
  pose proof (outages_run p e reason (N.to_nat (max_attempts p)) Hp) as Hq.
  rewrite N2Nat.id in Hq. fold q in Hq. specialize (Hq (N.le_refl _) Hm).
  clearbody q. subst q. cbn [fst snd] in *.
  assert (r = (dropped (disconnected_after (max_attempts p) reason) SessFailed
                 "reconnect attempts exhausted",
               Err (ReconnectAttemptsExhausted (max_attempts p)))) as ->.
  { subst r. unfold schedule_reconnect. rewrite Hp. cbn [rbind]. unfold require_state.
    rewrite bool_decide_true by set_solver. cbn [ts_reconnect_attempts disconnected_after].
    rewrite (proj2 (N.ltb_lt _ _)) by (unfold sat_add; lia). done. }
  split; [by apply Forall_replicate|]. do 2 (split; [done|]). split.
  { intros c. split; [|by intros ->]. destruct c; simpl; session_cases; done. }
  split; [done|]. intros k Hk. unfold schedule_reconnect. rewrite Hp. cbn [rbind].
  unfold require_state. rewrite bool_decide_true by set_solver.
  cbn [ts_reconnect_attempts disconnected_after].
  replace (sat_add u32_max k 1) with (k + 1) by (unfold sat_add; lia).
  rewrite (proj2 (N.ltb_ge _ _)) by lia. cbn [snd]. do 2 f_equal.
  apply reconnect_policy_validate_ok in Hp as (Hi & Hmul & _). unfold delay_for_attempt.
  rewrite backoff_loop_spec, N2Nat.id, N.add_sub by lia. lia.
Qed.

(** ** Witnesses *)

Section witnesses.

Definition toy_backoff : ReconnectBackoffPolicy := {|
  initial_delay_ms := 10; max_delay_ms := 40; bp_multiplier := 3; max_attempts := 2
|}.

Definition toy_calls : list SessionCall :=
  negotiate "stun:a" ++ [CallMarkDisconnected "lost"] ++ outage toy_backoff "stun:a" "lost".

Lemma reconnect_budget_is_respected_witness :
  granted toy_calls (session_run session_new toy_calls).2 = 1 ∧
  let q := session_run session_new toy_calls in
  granted toy_calls q.2 = snap_reconnect_attempts (session_snapshot q.1) ∧
  granted toy_calls q.2 ≤ 2.
Proof.
  split; [reflexivity|]. apply (reconnect_budget_is_respected 2).
  - reflexivity.
  - repeat constructor. vm_compute. discriminate.
Defined.

Lemma persistent_outage_fails_witness :
  let q := session_run (disconnected_after 0 "lost") (outages 2 toy_backoff "stun:a" "lost") in
  let r := schedule_reconnect toy_backoff q.1 in
  Forall (λ x, x = Ok tt) q.2 ∧
  r.2 = Err (ReconnectAttemptsExhausted 2) ∧
  ts_state r.1 = SessFailed ∧
  (∀ c, is_ok (session_step r.1 c).2 = true ↔ c = CallReset) ∧
  (session_step r.1 CallReset).1 = session_new ∧
  (∀ k, k < 2 →
     (schedule_reconnect toy_backoff (disconnected_after k "lost")).2 =
     Ok {| rd_attempt := k + 1; rd_delay_ms := N.min (10 * 3 ^ k) 40 |}).
Proof. apply (persistent_outage_fails toy_backoff "stun:a" "lost"); done. Defined.

End witnesses.
