(* ===== verification/DataFrames.v ===== *)
(** * Frames on a WebRTC data channel

    The chunk codec of [crates/transport/src/webrtc_negotiation.rs]: a frame of at most
    900 bytes travels as it is, a longer one as numbered chunks under a 20-byte header, and the
    receiving side puts the chunks together again. *)

From S2P Require Import Prelude Collections Bytes Framing StrOps Transport.

Definition DATA_CHANNEL_CHUNK_MAGIC : bytes := [68; 67; 82; 49].
Definition DATA_CHANNEL_CHUNK_HEADER_BYTES : N := 20.
Definition DATA_CHANNEL_CHUNK_PAYLOAD_BYTES : N := 900.
Definition DATA_CHANNEL_MAX_LOGICAL_FRAME_BYTES : N := 1024 * 1024.

Record PendingDataChannelFrame := {
  pf_frame_id : N;
  pf_total_len : N;
  pf_chunk_count : N;
  pf_next_chunk_index : N;
  pf_bytes : bytes
}.

Record DataChannelFrameReassembler := { ra_pending : option PendingDataChannelFrame }.

Definition reassembler_default : DataChannelFrameReassembler := {| ra_pending := None |}.

Definition invalid_data_channel_chunk (reason : string) : TransportError :=
  Unavailable ("invalid WebRTC DataChannel chunk: " +:+ reason).

Definition reject_chunk (fails : bool) (reason : string) : result unit TransportError :=
  reject_if fails (invalid_data_channel_chunk reason).

(** ** Chunks *)

Record DataChunk := {
  ck_frame_id : N;
  ck_total_len : N;
  ck_chunk_index : N;
  ck_chunk_count : N;
  ck_payload : bytes
}.

(** [message[i..j]] *)
Definition slice (i j : nat) (m : bytes) : bytes := take (j - i) (drop i m).

(** The conversions of fixed-width slices to arrays cannot fail once the header is there. *)
Definition parse_data_channel_chunk (m : bytes) : result DataChunk TransportError :=
  check reject_chunk (len m <? DATA_CHANNEL_CHUNK_HEADER_BYTES) "header is truncated" in
  let frame_id := from_be (slice 4 12 m) in
  let total_len := from_be (slice 12 16 m) in
  let chunk_index := from_be (slice 16 18 m) in
  let chunk_count := from_be (slice 18 20 m) in
  check reject_chunk
    ((total_len <=? DATA_CHANNEL_CHUNK_PAYLOAD_BYTES)
     || (DATA_CHANNEL_MAX_LOGICAL_FRAME_BYTES <? total_len))
    "declared frame length is outside chunked bounds" in
  let expected_chunk_count := div_ceil total_len DATA_CHANNEL_CHUNK_PAYLOAD_BYTES in
  check reject_chunk ((chunk_count <? 2) || negb (chunk_count =? expected_chunk_count))
    "chunk count is inconsistent" in
  check reject_chunk (chunk_count <=? chunk_index) "chunk index is out of range" in
  let payload := drop 20 m in
  let offset := chunk_index * DATA_CHANNEL_CHUNK_PAYLOAD_BYTES in
  let expected_payload_len := N.min (total_len - offset) DATA_CHANNEL_CHUNK_PAYLOAD_BYTES in
  check reject_chunk (negb (len payload =? expected_payload_len))
    "chunk payload length is inconsistent" in
  Ok {| ck_frame_id := frame_id; ck_total_len := total_len; ck_chunk_index := chunk_index;
        ck_chunk_count := chunk_count; ck_payload := payload |}.

(** ** Reassembly *)

(** A parsed chunk after the first one, met by the pending frame. *)
Definition continue_frame (p : PendingDataChannelFrame) (c : DataChunk) :
    DataChannelFrameReassembler * result (option bytes) TransportError :=
  let failed reason := (reassembler_default, Err (invalid_data_channel_chunk reason)) in
  if negb (pf_frame_id p =? ck_frame_id c) || negb (pf_total_len p =? ck_total_len c)
     || negb (pf_chunk_count p =? ck_chunk_count c)
     || negb (pf_next_chunk_index p =? ck_chunk_index c)
  then failed "chunk sequence does not match the pending frame"
  else
    let p' := {| pf_frame_id := pf_frame_id p; pf_total_len := pf_total_len p;
                 pf_chunk_count := pf_chunk_count p;
                 pf_next_chunk_index := sat_add u16_max (pf_next_chunk_index p) 1;
                 pf_bytes := pf_bytes p ++ ck_payload c |} in
    if pf_total_len p' <? len (pf_bytes p') then failed "reassembled frame exceeds declared length"
    else if sat_add u16_max (ck_chunk_index c) 1 =? ck_chunk_count c then
      if negb (len (pf_bytes p') =? pf_total_len p')
      then failed "final chunk does not match declared length"
      else (reassembler_default, Ok (Some (pf_bytes p')))
    else ({| ra_pending := Some p' |}, Ok None).

Definition first_chunk (c : DataChunk) : PendingDataChannelFrame := {|
  pf_frame_id := ck_frame_id c; pf_total_len := ck_total_len c;
  pf_chunk_count := ck_chunk_count c; pf_next_chunk_index := 1; pf_bytes := ck_payload c
|}.

Definition reassembler_push (r : DataChannelFrameReassembler) (m : bytes) :
    DataChannelFrameReassembler * result (option bytes) TransportError :=
  if negb (bool_decide (DATA_CHANNEL_CHUNK_MAGIC `prefix_of` m)) then
    (reassembler_default,
     if DATA_CHANNEL_MAX_LOGICAL_FRAME_BYTES <? len m
     then Err (invalid_data_channel_chunk "raw frame exceeds size limit") else Ok (Some m))
  else
    match parse_data_channel_chunk m with
    | Err e => (reassembler_default, Err e)
    | Ok c =>
        if ck_chunk_index c =? 0 then ({| ra_pending := Some (first_chunk c) |}, Ok None)
        else
          match ra_pending r with
          | None =>
              (reassembler_default,
               Err (invalid_data_channel_chunk "continuation arrived without a first chunk"))
          | Some p => continue_frame p c
          end
    end.

(** ** Encoding *)

Definition chunk_message (frame_id total_len chunk_index chunk_count : N) (payload : bytes) : bytes :=
  DATA_CHANNEL_CHUNK_MAGIC ++ be_u64 frame_id ++ be_u32 total_len ++ be_u16 chunk_index
  ++ be_u16 chunk_count ++ payload.

(** [u16::try_from] and [u32::try_from] *)
Definition try_from (top x : N) (e : string) : result N TransportError :=
  if x <=? top then Ok x else Err (Unavailable e).

Fixpoint encode_chunks (frame_id total_len chunk_count chunk_index : N) (payloads : list bytes) :
    result (list bytes) TransportError :=
  match payloads with
  | [] => Ok []
  | payload :: rest =>
      let* i := try_from u16_max chunk_index "text/control data frame chunk index is unsupported" in
      let* messages := encode_chunks frame_id total_len chunk_count (chunk_index + 1) rest in
      Ok (chunk_message frame_id total_len i chunk_count payload :: messages)
  end.

Definition encode_data_channel_wire_messages (frame_id : N) (frame : bytes) :
    result (list bytes) TransportError :=
  check reject_if (bool_decide (frame = [])) (Unavailable "text/control data frame is empty") in
  check reject_if (DATA_CHANNEL_MAX_LOGICAL_FRAME_BYTES <? len frame)
    (Unavailable ("text/control data frame exceeds "
                  +:+ pretty DATA_CHANNEL_MAX_LOGICAL_FRAME_BYTES +:+ " byte limit")) in
  if len frame <=? DATA_CHANNEL_CHUNK_PAYLOAD_BYTES then Ok [frame]
  else
    let* chunk_count := try_from u16_max (div_ceil (len frame) DATA_CHANNEL_CHUNK_PAYLOAD_BYTES)
                          "text/control data frame requires too many chunks" in
    let* total_len := try_from u32_max (len frame)
                        "text/control data frame length is unsupported" in
    encode_chunks frame_id total_len chunk_count 0 (chunks 900 frame).

(** The messages of a data channel, one after the other. *)
Fixpoint reassemble (r : DataChannelFrameReassembler) (ms : list bytes) :
    DataChannelFrameReassembler * list (result (option bytes) TransportError) :=
  match ms with
  | [] => (r, [])
  | m :: rest =>
      let '(r1, out) := reassembler_push r m in
      let '(r2, outs) := reassemble r1 rest in (r2, out :: outs)
  end.

(** What the caller sees: frames handed over, in order. *)
Definition handed_over (outs : list (result (option bytes) TransportError)) : list bytes :=
  omap (λ o, match o with Ok (Some f) => Some f | _ => None end) outs.

(** ** Lemmas *)

(** Frames [encode_data_channel_wire_messages] accepts. *)
Definition encodable (frame : bytes) : Prop :=
  frame ≠ [] ∧ len frame ≤ DATA_CHANNEL_MAX_LOGICAL_FRAME_BYTES.

(** A short frame that cannot be taken for a chunk. *)
Definition unambiguous (frame : bytes) : Prop :=
  len frame ≤ DATA_CHANNEL_CHUNK_PAYLOAD_BYTES → ¬ DATA_CHANNEL_CHUNK_MAGIC `prefix_of` frame.

Lemma from_be_app b x : from_be (b ++ [x]) = from_be b * 256 + x.
Proof. unfold from_be. by rewrite foldl_app. Qed.

Lemma be_bytes_from_be b : Forall (λ x, x < 256) b → be_bytes (length b) (from_be b) = b.
Proof.
  induction b as [|x b IH] using rev_ind; [done|].
  rewrite Forall_app, Forall_singleton. intros [Hb Hx].
  rewrite length_app, Nat.add_comm, from_be_app. change (length [x] + length b)%nat with (S (length b)).
  unfold be_bytes; fold be_bytes. f_equal; [|f_equal].
  - rewrite N.div_add_l, (N.div_small x), N.add_0_r by lia. by apply IH.
  - rewrite N.add_comm, N.Div0.mod_add. by apply N.mod_small.
Qed.

Lemma from_be_bound b :
  Forall (λ x, x < 256) b → from_be b < 256 ^ N.of_nat (length b).
Proof.
  induction b as [|x b IH] using rev_ind; [done|].
  rewrite Forall_app, Forall_singleton. intros [Hb%IH Hx].
  rewrite from_be_app, length_app, Nat.add_comm. simpl.
  rewrite Nat2N.inj_succ, N.pow_succ_r'. lia.
Qed.

Lemma div_ceil_900 x : 900 < x → 1 < div_ceil x 900 ∧ (div_ceil x 900 - 1) * 900 < x ≤ div_ceil x 900 * 900.
Proof.
  intros Hx. unfold div_ceil.
  pose proof (N.div_mod (x + 900 - 1) 900 ltac:(lia)).
  pose proof (N.mod_lt (x + 900 - 1) 900 ltac:(lia)).
  generalize dependent ((x + 900 - 1) mod 900). generalize ((x + 900 - 1) / 900).
  intros q r Hq Hr. lia.
Qed.

(** *** Chunks of a list *)

Section chunks_facts.
Context (n : nat) (Hn : (0 < n)%nat).

Lemma chunks_fuel_more f g b :
  (length b ≤ f)%nat → (length b ≤ g)%nat → chunks_fuel f n b = chunks_fuel g n b.
Proof.
  revert g b. induction f as [|f IH]; intros [|g] [|x b]; simpl; try done; [lia..|].
  intros Hf Hg. f_equal. apply IH; rewrite length_drop; simpl; lia.
Qed.

Lemma chunks_cons b : b ≠ [] → chunks n b = take n b :: chunks n (drop n b).
Proof.
  destruct b as [|x b]; [done|]. intros _. unfold chunks at 1. simpl. f_equal.
  apply chunks_fuel_more; rewrite length_drop; simpl; lia.
Qed.

Lemma chunks_app b c : length b = n → chunks n (b ++ c) = b :: chunks n c.
Proof.
  intros Hb. rewrite chunks_cons by (destruct b; simpl in *; [lia|done]).
  by rewrite take_app_length', drop_app_length' by done.
Qed.

Lemma chunks_single b : b ≠ [] → (length b ≤ n)%nat → chunks n b = [b].
Proof.
  intros Hb Hl. by rewrite chunks_cons, take_ge, drop_ge by done.
Qed.
End chunks_facts.

(** *** Single chunks *)

Record chunk_ok (c : DataChunk) : Prop := {
  cok_id : ck_frame_id c < 2 ^ 64;
  cok_total : 900 < ck_total_len c ≤ 1048576;
  cok_count : ck_chunk_count c = div_ceil (ck_total_len c) 900;
  cok_index : ck_chunk_index c < ck_chunk_count c;
  cok_payload : len (ck_payload c) = N.min (ck_total_len c - ck_chunk_index c * 900) 900
}.

Definition message_of (c : DataChunk) : bytes :=
  chunk_message (ck_frame_id c) (ck_total_len c) (ck_chunk_index c) (ck_chunk_count c)
    (ck_payload c).

Lemma chunk_count_small c : chunk_ok c → ck_chunk_count c ≤ 1166 ∧ 1 < ck_chunk_count c.
Proof.
  intros [_ Ht Hc _ _]. rewrite Hc. destruct (div_ceil_900 (ck_total_len c)) as [H1 [H2 _]]; lia.
Qed.

Lemma slice_skip (p m : bytes) i j :
  (length p ≤ i)%nat → slice i j (p ++ m) = slice (i - length p) (j - length p) m.
Proof.
  intros Hp. unfold slice. rewrite drop_app_ge by lia. f_equal. lia.
Qed.

Lemma slice_take (p m : bytes) j : j = length p → slice 0 j (p ++ m) = p.
Proof.
  intros ->. unfold slice. rewrite drop_0, Nat.sub_0_r. by apply take_app_length.
Qed.

Lemma parse_message_of c : chunk_ok c → parse_data_channel_chunk (message_of c) = Ok c.
Proof.
  intros Hok. pose proof (chunk_count_small c Hok) as [Hs1 Hs2].
  destruct Hok as [Hid Ht Hc Hi Hp]. unfold parse_data_channel_chunk, message_of, chunk_message.
  set (a := be_u64 (ck_frame_id c)). set (b := be_u32 (ck_total_len c)).
  set (d := be_u16 (ck_chunk_index c)). set (e := be_u16 (ck_chunk_count c)).
  assert (length a = 8%nat ∧ length b = 4%nat ∧ length d = 2%nat ∧ length e = 2%nat)
    as (La & Lb & Ld & Le) by (unfold a, b, d, e; by rewrite !length_be_bytes).
  set (M := DATA_CHANNEL_CHUNK_MAGIC). assert (length M = 4%nat) as LM by done.
  assert (len (M ++ a ++ b ++ d ++ e ++ ck_payload c) <? DATA_CHANNEL_CHUNK_HEADER_BYTES = false)
    as ->.
  { apply N.ltb_ge. unfold len, DATA_CHANNEL_CHUNK_HEADER_BYTES. rewrite !length_app. lia. }
  rewrite (slice_skip M _ 4 12), (slice_skip M _ 12 16), (slice_skip M _ 16 18),
    (slice_skip M _ 18 20), LM by lia. simpl (_ - _)%nat.
  rewrite (slice_take a) by done.
  rewrite (slice_skip a _ 8 12), (slice_skip a _ 12 14), (slice_skip a _ 14 16), La by lia.
  simpl (_ - _)%nat. rewrite (slice_take b) by done.
  rewrite (slice_skip b _ 4 6), (slice_skip b _ 6 8), Lb by lia. simpl (_ - _)%nat.
  rewrite (slice_take d) by done. rewrite (slice_skip d _ 2 4), Ld by lia.
  simpl (_ - _)%nat. rewrite (slice_take e) by done.
  unfold a, b, d, e. rewrite !from_be_bytes by (simpl; lia).
  assert (drop 20 (M ++ be_u64 (ck_frame_id c) ++ be_u32 (ck_total_len c)
            ++ be_u16 (ck_chunk_index c) ++ be_u16 (ck_chunk_count c) ++ ck_payload c)
          = ck_payload c) as -> by done.
  unfold reject_chunk, reject_if, DATA_CHANNEL_MAX_LOGICAL_FRAME_BYTES,
    DATA_CHANNEL_CHUNK_PAYLOAD_BYTES.
  rewrite (proj2 (N.leb_gt _ _)), (proj2 (N.ltb_ge _ _)) by lia. simpl.
  rewrite (proj2 (N.ltb_ge _ _)) by lia. rewrite <- Hc, N.eqb_refl. simpl.
  rewrite (proj2 (N.leb_gt _ _)) by done. rewrite Hp, N.eqb_refl. simpl. by destruct c.
Qed.

Lemma slice_octets i j m : Forall (λ x, x < 256) m → Forall (λ x, x < 256) (slice i j m).
Proof. intros H. by apply Forall_take, Forall_drop. Qed.

Lemma slice_be i j n m :
  Forall (λ x, x < 256) m → (j ≤ length m)%nat → n = (j - i)%nat → (i ≤ j)%nat →
  be_bytes n (from_be (slice i j m)) = slice i j m.
Proof.
  intros Hm Hj -> Hi. rewrite <- (be_bytes_from_be (slice i j m)) at 2 by by apply slice_octets.
  f_equal. unfold slice. rewrite length_take, length_drop. lia.
Qed.

Lemma slice_cat i j m : (i ≤ j)%nat → slice i j m ++ drop j m = drop i m.
Proof.
  intros H. unfold slice. rewrite <- (take_drop (j - i) (drop i m)) at 2.
  rewrite drop_drop. do 2 f_equal. lia.
Qed.

Lemma parse_chunk_inv m c :
  Forall (λ x, x < 256) m → DATA_CHANNEL_CHUNK_MAGIC `prefix_of` m →
  parse_data_channel_chunk m = Ok c → chunk_ok c ∧ m = message_of c.
Proof.
  intros Hm Hpre. unfold parse_data_channel_chunk, reject_chunk.
  intros H. apply rbind_ok in H as (u1 & H1%reject_if_ok%N.ltb_ge & H). simpl in H.
  apply rbind_ok in H as (u2 & H2%reject_if_ok & H).
  apply orb_false_iff in H2 as [H2a%N.leb_gt H2b%N.ltb_ge].
  apply rbind_ok in H as (u3 & H3%reject_if_ok & H).
  apply orb_false_iff in H3 as [H3a%N.ltb_ge H3b%negb_false_iff%N.eqb_eq].
  apply rbind_ok in H as (u4 & H4%reject_if_ok%N.leb_gt & H).
  apply rbind_ok in H as (u5 & H5%reject_if_ok%negb_false_iff%N.eqb_eq & H).
  injection H as <-. unfold DATA_CHANNEL_CHUNK_HEADER_BYTES, len in H1.
  assert (20 ≤ length m)%nat as Hl by lia. split; [split; simpl|]; try done.
  - eapply N.lt_le_trans; [apply from_be_bound, slice_octets, Hm|].
    unfold slice. rewrite length_take, length_drop.
    replace (_ `min` _)%nat with 8%nat by lia. done.
  - unfold message_of, chunk_message. cbn [ck_frame_id ck_total_len ck_chunk_index ck_chunk_count ck_payload].
    rewrite !slice_be by (done || lia).
    rewrite !slice_cat by lia. destruct Hpre as [k ->]. done.
Qed.

Lemma magic_prefix_message c : DATA_CHANNEL_CHUNK_MAGIC `prefix_of` message_of c.
Proof. by eexists. Qed.

Lemma push_chunk r c :
  chunk_ok c →
  reassembler_push r (message_of c) =
    if ck_chunk_index c =? 0 then ({| ra_pending := Some (first_chunk c) |}, Ok None)
    else match ra_pending r with
         | None => (reassembler_default,
                    Err (invalid_data_channel_chunk "continuation arrived without a first chunk"))
         | Some p => continue_frame p c
         end.
Proof.
  intros Hc. unfold reassembler_push.
  rewrite bool_decide_true by apply magic_prefix_message. cbn [negb].
  by rewrite parse_message_of.
Qed.

(** *** What a well-formed continuation does *)

(** [k] chunks of a frame of [total] bytes have arrived, [done] is their content. *)
Definition pending_at (id total k : N) (done : bytes) : PendingDataChannelFrame := {|
  pf_frame_id := id; pf_total_len := total; pf_chunk_count := div_ceil total 900;
  pf_next_chunk_index := k; pf_bytes := done
|}.

Definition chunk_at (id total k : N) (payload : bytes) : DataChunk := {|
  ck_frame_id := id; ck_total_len := total; ck_chunk_index := k;
  ck_chunk_count := div_ceil total 900; ck_payload := payload
|}.

Lemma continue_frame_at id total k done payload :
  chunk_ok (chunk_at id total k payload) → len done = k * 900 →
  continue_frame (pending_at id total k done) (chunk_at id total k payload) =
    if k + 1 =? div_ceil total 900 then (reassembler_default, Ok (Some (done ++ payload)))
    else ({| ra_pending := Some (pending_at id total (k + 1) (done ++ payload)) |}, Ok None).
Proof.
  intros Hok Hd. pose proof (chunk_count_small _ Hok) as [Hs _].
  destruct Hok as [_ Ht _ Hi Hp]. simpl in *.
  destruct (div_ceil_900 total ltac:(lia)) as (_ & Hlo & Hhi).
  unfold continue_frame. simpl. rewrite !N.eqb_refl. simpl.
  assert (sat_add u16_max k 1 = k + 1) as -> by (unfold sat_add; change u16_max with 65535; lia).
  assert (len (done ++ payload) = k * 900 + len payload) as Hl
    by (unfold len in *; rewrite length_app; lia).
  rewrite Hl, Hp. rewrite (proj2 (N.ltb_ge _ _)) by lia.
  destruct (N.eqb_spec (k + 1) (div_ceil total 900)) as [E|E]; [|done].
  by rewrite (proj2 (N.eqb_eq _ _)) by lia.
Qed.

Lemma chunk_at_ok id total k payload :
  id < 2 ^ 64 → 900 < total ≤ 1048576 → k < div_ceil total 900 →
  len payload = N.min (total - k * 900) 900 → chunk_ok (chunk_at id total k payload).
Proof. done. Qed.

(** The rest of a frame, chunk by chunk. *)
Lemma reassemble_rest n id total k done rest :
  (length rest ≤ n)%nat → id < 2 ^ 64 → 900 < total ≤ 1048576 → 0 < k →
  len done = k * 900 → len done + len rest = total → rest ≠ [] →
  ∃ ms, encode_chunks id total (div_ceil total 900) k (chunks 900 rest) = Ok ms
    ∧ reassemble {| ra_pending := Some (pending_at id total k done) |} ms
      = (reassembler_default, replicate (length ms - 1) (Ok None) ++ [Ok (Some (done ++ rest))])
    ∧ ms ≠ [].
Proof.
  revert k done rest. induction n as [|n IH]; intros k done rest Hn Hid Ht Hk Hd Hl Hr.
  { destruct rest; simpl in *; [done|lia]. }
  destruct (div_ceil_900 total ltac:(lia)) as (_ & Hlo & Hhi).
  assert (0 < len rest) as Hpos by (unfold len; destruct rest; simpl; [done|lia]).
  assert (k < div_ceil total 900) as Hi by lia.
  assert (k ≤ u16_max) as Hw by (change u16_max with 65535; lia).
  rewrite chunks_cons by (done || lia). cbn [encode_chunks]. unfold try_from at 1.
  rewrite (proj2 (N.leb_le _ _)) by done. cbn [rbind].
  set (payload := take 900 rest).
  assert (len payload = N.min (total - k * 900) 900) as Hp
    by (unfold payload, len in *; rewrite length_take; lia).
  pose proof (chunk_at_ok id total k payload Hid Ht Hi Hp) as Hok.
  assert (∀ s, reassembler_push {| ra_pending := Some (pending_at id total k done) |}
            (chunk_message id total k (div_ceil total 900) payload) = s ↔
          continue_frame (pending_at id total k done) (chunk_at id total k payload) = s) as Hpush.
  { intros s. change (chunk_message _ _ _ _ _) with (message_of (chunk_at id total k payload)).
    rewrite push_chunk by done. cbn [ck_chunk_index chunk_at ra_pending]. by rewrite (proj2 (N.eqb_neq _ _)) by lia. }
  pose proof (continue_frame_at id total k done payload Hok Hd) as Hc.
  destruct (decide (drop 900 rest = [])) as [E|E].
  - rewrite E. simpl. eexists. split; [done|]. split; [|done]. cbn [reassemble].
    assert (payload = rest) as Epay.
    { unfold payload. rewrite <- (take_drop 900 rest) at 2. by rewrite E, app_nil_r. }
    assert (length rest ≤ 900)%nat as Hle by (apply (f_equal length) in E; rewrite length_drop in E; simpl in E; lia).
    assert (k + 1 =? div_ceil total 900 = true) as Hlast by (apply N.eqb_eq; unfold len in *; lia).
    rewrite Hlast in Hc. apply Hpush in Hc. rewrite Hc, Epay. done.
  - destruct (IH (k + 1) (done ++ payload) (drop 900 rest)) as (ms & Hms & Hre & Hne).
    + rewrite length_drop. assert (length rest ≠ 0)%nat by by rewrite length_zero_iff_nil. lia.
    + done.
    + done.
    + lia.
    + unfold len in *. rewrite length_app. unfold payload in *. rewrite length_take in *.
      assert (length (drop 900 rest) ≠ 0)%nat by by rewrite length_zero_iff_nil.
      rewrite length_drop in *. lia.
    + unfold len in *. rewrite length_app, length_drop. unfold payload. rewrite length_take. lia.
    + done.
    + rewrite Hms. simpl. eexists. split; [done|]. split; [|done].
      assert (length (drop 900 rest) ≠ 0)%nat by by rewrite length_zero_iff_nil.
      rewrite length_drop in *.
      assert (k + 1 =? div_ceil total 900 = false) as Hlast
        by (apply N.eqb_neq; unfold len in *; lia).
      rewrite Hlast in Hc. apply Hpush in Hc. cbn [reassemble]. rewrite Hc, Hre.
      rewrite <- app_assoc. unfold payload. rewrite take_drop.
      destruct ms as [|m ms]; [done|]. simpl. by rewrite Nat.sub_0_r.
Qed.

Lemma reassemble_app r ms ms' :
  reassemble r (ms ++ ms') =
    let '(r1, outs1) := reassemble r ms in
    let '(r2, outs2) := reassemble r1 ms' in (r2, outs1 ++ outs2).
Proof.
  revert r. induction ms as [|m ms IH]; intros r; simpl; [by destruct (reassemble r ms')|].
  destruct (reassembler_push r m) as [r1 o]. rewrite IH.
  destruct (reassemble r1 ms) as [r2 os]. by destruct (reassemble r2 ms').
Qed.

Lemma encode_accepts frame id :
  encodable frame →
  encode_data_channel_wire_messages id frame =
    if len frame <=? 900 then Ok [frame]
    else encode_chunks id (len frame) (div_ceil (len frame) 900) 0 (chunks 900 frame).
Proof.
  intros [Hne Hmax]. unfold encode_data_channel_wire_messages, reject_if, try_from.
  rewrite bool_decide_false by done. rewrite (proj2 (N.ltb_ge _ _)) by done. cbn [rbind].
  change DATA_CHANNEL_CHUNK_PAYLOAD_BYTES with 900.
  destruct (N.leb_spec (len frame) 900) as [H|H]; [done|].
  destruct (div_ceil_900 (len frame) H) as (_ & Hlo & _).
  change DATA_CHANNEL_MAX_LOGICAL_FRAME_BYTES with 1048576 in Hmax.
  change u16_max with 65535. change u32_max with 4294967295.
  by rewrite !(proj2 (N.leb_le _ _)) by lia.
Qed.

Lemma reassemble_frame r id frame :
  id < 2 ^ 64 → encodable frame → unambiguous frame →
  ∃ ms, encode_data_channel_wire_messages id frame = Ok ms
    ∧ reassemble r ms
      = (reassembler_default, replicate (length ms - 1) (Ok None) ++ [Ok (Some frame)]).
Proof.
  intros Hid Henc Hun. rewrite encode_accepts by done. destruct Henc as [Hne Hmax].
  unfold unambiguous in Hun. change DATA_CHANNEL_CHUNK_PAYLOAD_BYTES with 900 in Hun.
  destruct (N.leb_spec (len frame) 900) as [H|H].
  { exists [frame]. split; [done|]. cbn [reassemble]. unfold reassembler_push.
    rewrite bool_decide_false by by apply Hun. cbn [negb].
    by rewrite (proj2 (N.ltb_ge _ _)) by done. }
  change DATA_CHANNEL_MAX_LOGICAL_FRAME_BYTES with 1048576 in Hmax.
  rewrite chunks_cons by (done || lia). cbn [encode_chunks rbind try_from N.leb N.compare].
  set (payload := take 900 frame).
  assert (len payload = 900) as Hp by (unfold payload, len in *; rewrite length_take; lia).
  destruct (div_ceil_900 (len frame) H) as (H1 & _).
  destruct (reassemble_rest (length (drop 900 frame)) id (len frame) 1 payload (drop 900 frame))
    as (ms & Hms & Hre & Hms0); try done; try lia.
  { unfold payload, len in *. rewrite length_take, length_drop. lia. }
  { intros E%(f_equal length). rewrite length_drop in E. unfold len in H. simpl in E. lia. }
  change (0 + 1) with 1. rewrite Hms. eexists. split; [done|].
  assert (chunk_ok (chunk_at id (len frame) 0 payload)) as Hok by (apply chunk_at_ok; lia).
  pose proof (push_chunk r _ Hok) as Hpush. cbn [ck_chunk_index chunk_at N.eqb] in Hpush.
  unfold message_of in Hpush. cbn [chunk_at ck_frame_id ck_total_len ck_chunk_index ck_chunk_count ck_payload] in Hpush.
  cbn [reassemble]. rewrite Hpush. unfold first_chunk, chunk_at. cbn [ck_frame_id ck_total_len ck_chunk_index ck_chunk_count ck_payload].
  fold (pending_at id (len frame) 1 payload). rewrite Hre. unfold payload. rewrite take_drop.
  destruct ms as [|m ms]; [done|]. simpl. by rewrite Nat.sub_0_r.
Qed.

(** *** Every reassembled frame was encoded *)

(** The pending frame is the front of an encoding whose messages were the last to arrive. *)
Definition tracks (seen : list bytes) (p : PendingDataChannelFrame) : Prop :=
  ∃ pre ps ms,
    seen = pre ++ ms ∧ pf_frame_id p < 2 ^ 64 ∧ 900 < pf_total_len p ≤ 1048576
    ∧ pf_chunk_count p = div_ceil (pf_total_len p) 900
    ∧ encode_chunks (pf_frame_id p) (pf_total_len p) (pf_chunk_count p) 0 ps = Ok ms
    ∧ Forall (λ b, length b = 900%nat) ps ∧ pf_bytes p = concat ps
    ∧ pf_next_chunk_index p = N.of_nat (length ps) ∧ (0 < length ps)%nat
    ∧ N.of_nat (length ps) < pf_chunk_count p.

Definition tracked (seen : list bytes) (r : DataChannelFrameReassembler) : Prop :=
  match ra_pending r with Some p => tracks seen p | None => True end.

Lemma encode_chunks_snoc id total count i ps payload ms :
  encode_chunks id total count i ps = Ok ms → i + N.of_nat (length ps) ≤ u16_max →
  encode_chunks id total count i (ps ++ [payload])
    = Ok (ms ++ [chunk_message id total (i + N.of_nat (length ps)) count payload]).
Proof.
  revert i ms. induction ps as [|p ps IH]; intros i ms; cbn [encode_chunks app].
  - intros [= <-] Hi. simpl in Hi. rewrite N.add_0_r in *. unfold try_from.
    by rewrite (proj2 (N.leb_le _ _)).
  - intros H Hi. cbn [length] in Hi |- *. apply rbind_ok in H as (j & Hj & H).
    apply rbind_ok in H as (ms' & Hms & [= <-]). rewrite Hj. cbn [rbind].
    rewrite (IH _ _ Hms) by lia. cbn [rbind app]. do 3 f_equal. f_equal. f_equal. lia.
Qed.

Lemma chunks_concat ps (payload : bytes) :
  Forall (λ b, length b = 900%nat) ps → payload ≠ [] → (length payload ≤ 900)%nat →
  chunks 900 (concat ps ++ payload) = ps ++ [payload].
Proof.
  intros Hps Hne Hl. induction Hps as [|p ps Hp _ IH]; simpl.
  - apply chunks_single; done || lia.
  - rewrite <- app_assoc, chunks_app, IH; done || lia.
Qed.

Lemma length_concat_chunks ps :
  Forall (λ b : bytes, length b = 900%nat) ps → length (concat ps) = (900 * length ps)%nat.
Proof. induction 1 as [|p ps Hp _ IH]; simpl; [done|]. rewrite length_app, IH, Hp. lia. Qed.

(** [f] came as one raw message, or as the complete encoding of [f] without a gap. *)
Definition from_wire (seen : list bytes) (f : bytes) : Prop :=
  (∃ pre, seen = pre ++ [f] ∧ ¬ DATA_CHANNEL_CHUNK_MAGIC `prefix_of` f)
  ∨ (∃ pre id ms, seen = pre ++ ms ∧ 900 < len f ∧ id < 2 ^ 64
       ∧ encode_data_channel_wire_messages id f = Ok ms).

Lemma first_chunk_tracked seen c :
  chunk_ok c → ck_chunk_index c = 0 → tracks (seen ++ [message_of c]) (first_chunk c).
Proof.
  intros Hok H0. pose proof (chunk_count_small c Hok) as [_ Hs].
  destruct Hok as [Hid Ht Hc Hi Hp]. rewrite H0 in Hp.
  exists seen, [ck_payload c], [message_of c]. unfold message_of. rewrite H0. simpl.
  split_and!; try done; try lia.
  - constructor; [|done]. unfold len in Hp. lia.
  - by rewrite app_nil_r.
Qed.

Lemma continue_frame_mismatch p c :
  ck_frame_id c = pf_frame_id p ∧ ck_total_len c = pf_total_len p
  ∧ ck_chunk_count c = pf_chunk_count p ∧ ck_chunk_index c = pf_next_chunk_index p
  ∨ ∃ e, continue_frame p c = (reassembler_default, Err e).
Proof.
  unfold continue_frame.
  destruct (N.eqb_spec (pf_frame_id p) (ck_frame_id c)); [|right; by eexists].
  destruct (N.eqb_spec (pf_total_len p) (ck_total_len c)); [|right; by eexists].
  destruct (N.eqb_spec (pf_chunk_count p) (ck_chunk_count c)); [|right; by eexists].
  destruct (N.eqb_spec (pf_next_chunk_index p) (ck_chunk_index c)); [|right; by eexists].
  by left.
Qed.

(** A continuation that is accepted extends the encoding by one message. *)
Lemma continue_frame_tracked seen p c r' out :
  chunk_ok c → tracks seen p → continue_frame p c = (r', out) →
  tracked (seen ++ [message_of c]) r'
  ∧ (∀ f, out = Ok (Some f) → from_wire (seen ++ [message_of c]) f).
Proof.
  intros Hok (pre & ps & ms & -> & Hid & Ht & Hc & Henc & Hps & Hb & Hn & Hpos & Hlt) Hpush.
  destruct (continue_frame_mismatch p c) as [(Eid & Et & Ec & Ek)|[e E]];
    [|rewrite E in Hpush; injection Hpush as <- <-; done].
  destruct p as [id total count k bs], c as [id' total' k' count' payload].
  cbn [pf_frame_id pf_total_len pf_chunk_count pf_next_chunk_index pf_bytes
       ck_frame_id ck_total_len ck_chunk_index ck_chunk_count ck_payload] in *. subst.
  set (k := N.of_nat (length ps)) in *.
  change (continue_frame (pending_at id total k (concat ps)) (chunk_at id total k payload)
          = (r', out)) in Hpush.
  pose proof (length_concat_chunks ps Hps) as Hl.
  rewrite continue_frame_at in Hpush by (done || (unfold len, k; lia)).
  pose proof (chunk_count_small _ Hok) as [Hs _]. destruct Hok as [_ _ _ Hi Hp].
  cbn [ck_total_len ck_chunk_index ck_chunk_count ck_payload] in *.
  destruct (div_ceil_900 total ltac:(lia)) as (_ & Hlo & Hhi).
  pose proof (encode_chunks_snoc id total (div_ceil total 900) 0 ps payload ms Henc
                ltac:(change u16_max with 65535; lia)) as Hsnoc.
  rewrite N.add_0_l in Hsnoc. fold k in Hsnoc. rewrite <- app_assoc.
  destruct (N.eqb_spec (k + 1) (div_ceil total 900)) as [E|E]; injection Hpush as <- <-.
  - split; [done|]. intros f [= <-]. right. exists pre, id, (ms ++ [message_of (chunk_at id total k payload)]).
    assert (len (concat ps ++ payload) = total) as Hf
      by (unfold len, k in *; rewrite length_app; lia).
    split_and!; try done; [lia|]. rewrite encode_accepts.
    + rewrite Hf, (proj2 (N.leb_gt _ _)) by lia.
      rewrite chunks_concat; [done..| |unfold len in Hp; lia].
      intros ->. unfold len in Hp. simpl in Hp. lia.
    + split; [|rewrite Hf; change DATA_CHANNEL_MAX_LOGICAL_FRAME_BYTES with 1048576; lia].
      intros E0. rewrite E0 in Hf. unfold len in Hf. simpl in Hf. lia.
  - split; [|done]. exists pre, (ps ++ [payload]), (ms ++ [message_of (chunk_at id total k payload)]).
    rewrite length_app, concat_app. simpl. rewrite app_nil_r.
    split_and!; try done; try (unfold k in *; lia).
    apply Forall_app. split; [done|]. constructor; [|done]. unfold len in Hp. lia.
Qed.

Lemma push_tracked seen r m r' out :
  Forall (λ x, x < 256) m → tracked seen r → reassembler_push r m = (r', out) →
  tracked (seen ++ [m]) r' ∧ (∀ f, out = Ok (Some f) → from_wire (seen ++ [m]) f).
Proof.
  intros Hm Hr. unfold reassembler_push.
  destruct (decide (DATA_CHANNEL_CHUNK_MAGIC `prefix_of` m)) as [Hpre|Hpre].
  2:{ rewrite bool_decide_false by done. cbn [negb]. intros [= <- <-]. split; [done|].
      intros f. case_match; [done|]. intros [= <-]. left. by exists seen. }
  rewrite bool_decide_true by done. cbn [negb].
  destruct (parse_data_channel_chunk m) as [c|e] eqn:Hparse; [|by intros [= <- <-]].
  apply parse_chunk_inv in Hparse as [Hok ->]; [|done..].
  destruct (N.eqb_spec (ck_chunk_index c) 0) as [H0|H0].
  { intros [= <- <-]. split; [by apply first_chunk_tracked|done]. }
  unfold tracked in Hr. destruct (ra_pending r) as [p|]; [|by intros [= <- <-]].
  by apply continue_frame_tracked.
Qed.

Lemma reassemble_tracked ms seen r r' outs :
  Forall (Forall (λ x, x < 256)) ms → tracked seen r → reassemble r ms = (r', outs) →
  tracked (seen ++ ms) r'
  ∧ (∀ i f, outs !! i = Some (Ok (Some f)) → from_wire (seen ++ take (S i) ms) f).
Proof.
  intros Hms. revert seen r outs. induction Hms as [|m ms Hm _ IH]; intros seen r outs Hr; simpl.
  { intros [= <- <-]. rewrite app_nil_r. done. }
  destruct (reassembler_push r m) as [r1 out] eqn:Hpush.
  destruct (reassemble r1 ms) as [r2 outs'] eqn:Hrest. intros [= <- <-].
  destruct (push_tracked _ _ _ _ _ Hm Hr Hpush) as [Hr1 Hout].
  destruct (IH _ _ _ Hr1 Hrest) as [Hr2 Houts]. rewrite <- !app_assoc in *. split; [done|].
  intros [|i] f; simpl; [intros [= ->]; rewrite take_0; by apply Hout|].
  intros H. specialize (Houts i f H). by rewrite <- app_assoc in Houts.
Qed.

Lemma tracks_bounded seen p : tracks seen p → len (pf_bytes p) < 1048576.
Proof.
  intros (pre & ps & ms & _ & _ & Ht & Hc & _ & Hps & -> & _ & _ & Hlt).
  pose proof (length_concat_chunks ps Hps).
  destruct (div_ceil_900 (pf_total_len p) ltac:(lia)) as (_ & Hlo & _). unfold len. lia.
Qed.

Lemma handed_over_app a b : handed_over (a ++ b) = handed_over a ++ handed_over b.
Proof. unfold handed_over. by rewrite omap_app. Qed.

Lemma handed_over_none n : handed_over (replicate n (Ok None)) = [].
Proof. by induction n. Qed.

(** A short frame that starts with the magic never comes out again. *)
Lemma short_magic_frame_lost r frame :
  DATA_CHANNEL_CHUNK_MAGIC `prefix_of` frame → len frame ≤ 900 →
  (reassembler_push r frame).2 ≠ Ok (Some frame).
Proof.
  intros Hpre Hl. unfold reassembler_push. rewrite bool_decide_true by done. cbn [negb].
  destruct (parse_data_channel_chunk frame) as [c|e] eqn:Hparse; [|done].
  assert (900 < ck_total_len c) as Ht.
  { unfold parse_data_channel_chunk, reject_chunk in Hparse.
    apply rbind_ok in Hparse as (u1 & _ & H). apply rbind_ok in H as (u2 & H2%reject_if_ok & H).
    apply orb_false_iff in H2 as [H2%N.leb_gt _]. do 3 (apply rbind_ok in H as (? & _ & H)).
    injection H as <-. exact H2. }
  destruct (ck_chunk_index c =? 0); [done|]. destruct (ra_pending r) as [p|]; [|done].
  destruct (continue_frame_mismatch p c) as [(_ & Et & _ & _)|[e ->]]; [|done].
  unfold continue_frame. case_match; [done|]. case_match; [done|]. case_match; [|done].
  case_match eqn:E; [done|]. cbn [pf_bytes pf_total_len] in *.
  apply negb_false_iff, N.eqb_eq in E. cbn [snd]. intros [= Ef]. rewrite Ef in E. lia.
Qed.

(** A stream of encoded frames, from any state of the reassembler. *)
Lemma stream_reassembled r (stream : list (N * bytes)) wire :
  Forall (λ e, e.1 < 2 ^ 64 ∧ encodable e.2 ∧ unambiguous e.2) stream →
  Forall2 (λ e ms, encode_data_channel_wire_messages e.1 e.2 = Ok ms) stream wire →
  handed_over (reassemble r (concat wire)).2 = stream.*2
  ∧ Forall is_ok (reassemble r (concat wire)).2
  ∧ (stream ≠ [] → (reassemble r (concat wire)).1 = reassembler_default).
Proof.
  intros Hs Hw. revert r. induction Hw as [|[id f] ms stream wire Hms Hw IH]; intros r.
  { simpl. split_and!; [done|constructor|done]. }
  inversion_clear Hs as [|? ? (Hid & Henc & Hun) Hs'].
  destruct (reassemble_frame r id f Hid Henc Hun) as (ms' & Hms' & Hre). cbn [fst snd] in *.
  assert (ms' = ms) as -> by congruence.
  destruct (IH Hs' reassembler_default) as (Hout & Hok & Hfin).
  cbn [concat]. rewrite reassemble_app, Hre.
  destruct (reassemble reassembler_default (concat wire)) as [r2 outs] eqn:E.
  cbn [fst snd] in *. split_and!.
  - rewrite !handed_over_app, handed_over_none. simpl. by rewrite Hout.
  - rewrite !Forall_app. split_and!; [by apply Forall_replicate|by constructor|done].
  - intros _. destruct stream; [|by apply Hfin]. inversion Hw; subst. simpl in E. congruence.
Qed.

Lemma stream_encodes (stream : list (N * bytes)) :
  Forall (λ e, e.1 < 2 ^ 64 ∧ encodable e.2 ∧ unambiguous e.2) stream →
  ∃ wire, Forall2 (λ e ms, encode_data_channel_wire_messages e.1 e.2 = Ok ms) stream wire.
Proof.
  induction 1 as [|[id f] stream (Hid & Henc & Hun) _ [wire IH]]; [by exists []|].
  destruct (reassemble_frame reassembler_default id f Hid Henc Hun) as (ms & Hms & _).
  exists (ms :: wire). by constructor.
Qed.

(** ** Properties *)

(** Data channel round trip: whatever the reassembler holds, the wire messages of a
    sequence of frames (1 byte to 1 MiB, a frame of up to 900 bytes not starting with the chunk
    magic) exist, none of them is rejected, the frames come out complete and in order, and
    nothing is left pending. *)
Theorem data_frames_round_trip r (stream : list (N * bytes)) :
  Forall (λ e, e.1 < 2 ^ 64 ∧ encodable e.2 ∧ unambiguous e.2) stream →
  ∃ wire, Forall2 (λ e ms, encode_data_channel_wire_messages e.1 e.2 = Ok ms) stream wire
    ∧ Forall is_ok (reassemble r (concat wire)).2
    ∧ handed_over (reassemble r (concat wire)).2 = stream.*2
    ∧ (stream ≠ [] → (reassemble r (concat wire)).1 = reassembler_default).
Proof.
  intros Hs. destruct (stream_encodes stream Hs) as [wire Hw].
  destruct (stream_reassembled r stream wire Hs Hw) as (? & ? & ?). by exists wire.
Qed.

(** Reassembly is sound: over any sequence of messages from a peer, a frame that comes out
    is either the raw message just received or the exact encoding of that frame, all of whose
    messages were the last to arrive without any other between them; and the bytes held for an
    incomplete frame stay below 1 MiB. *)
Theorem reassembled_frames_were_encoded ms r outs :
  Forall (Forall (λ x, x < 256)) ms → reassemble reassembler_default ms = (r, outs) →
  (∀ i f, outs !! i = Some (Ok (Some f)) → from_wire (take (S i) ms) f)
  ∧ (∀ p, ra_pending r = Some p → len (pf_bytes p) < DATA_CHANNEL_MAX_LOGICAL_FRAME_BYTES).
Proof.
  intros Hms Hre.
  destruct (reassemble_tracked ms [] reassembler_default r outs Hms I Hre) as [Hr Hout].
  split; [exact Hout|]. intros p Hp. unfold tracked in Hr. rewrite Hp in Hr.
  by apply tracks_bounded in Hr.
Qed.

(** A frame of at most 900 bytes that starts with the bytes [DCR1] is sent as it is, and the
    receiver takes it for a chunk: whatever it holds, it never hands the frame over. *)
Theorem magic_prefixed_frame_is_lost r id frame :
  DATA_CHANNEL_CHUNK_MAGIC `prefix_of` frame → len frame ≤ DATA_CHANNEL_CHUNK_PAYLOAD_BYTES →
  encode_data_channel_wire_messages id frame = Ok [frame]
  ∧ handed_over (reassemble r [frame]).2 ≠ [frame].
Proof.
  intros Hpre Hl. split.
  - rewrite encode_accepts; [by rewrite (proj2 (N.leb_le _ _))|].
    split; [intros ->; by destruct Hpre|].
    change DATA_CHANNEL_MAX_LOGICAL_FRAME_BYTES with 1048576.
    change DATA_CHANNEL_CHUNK_PAYLOAD_BYTES with 900 in Hl. lia.
  - pose proof (short_magic_frame_lost r frame Hpre Hl) as H. cbn [reassemble].
    destruct (reassembler_push r frame) as [r' [[f|]|e]]; simpl in *; congruence.
Qed.

(** ** Witnesses *)

Section witnesses.
Let long_frame : bytes := replicate (Z.to_nat 1900) 7.

Lemma data_frames_round_trip_witness :
  ∃ wire, Forall2 (λ e ms, encode_data_channel_wire_messages e.1 e.2 = Ok ms)
            [(1, [5; 6]); (2, long_frame)] wire
    ∧ handed_over (reassemble reassembler_default (concat wire)).2 = [[5; 6]; long_frame].
Proof.
  assert (Forall (λ e, e.1 < 2 ^ 64 ∧ encodable e.2 ∧ unambiguous e.2)
            [(1, [5; 6]); (2, long_frame)]) as H.
  { assert (len long_frame = 1900) as Hlen by (vm_compute; reflexivity).
    assert (long_frame ≠ []) as Hne by (vm_compute; done).
    constructor; [|constructor; [|done]]; (split; [done|split; [split|]]); cbn [snd]; try done.
    - intros _ [k Hk]. discriminate Hk.
    - intros Hl. by rewrite Hlen in Hl. }
  destruct (data_frames_round_trip reassembler_default _ H) as (wire & Hw & _ & Hout & _).
  by exists wire.
Defined.

Lemma reassembled_frames_were_encoded_witness : from_wire [[1; 2; 3]] [1; 2; 3].
Proof.
  assert (Forall (Forall (λ x, x < 256)) [[1; 2; 3]]) as H by (repeat constructor).
  assert (reassemble reassembler_default [[1; 2; 3]]
          = (reassembler_default, [Ok (Some [1; 2; 3])])) as E by (vm_compute; reflexivity).
  exact (proj1 (reassembled_frames_were_encoded _ _ _ H E) 0%nat _ eq_refl).
Defined.

Lemma magic_prefixed_frame_is_lost_witness :
  handed_over (reassemble reassembler_default [[68; 67; 82; 49; 1]]).2 ≠ [[68; 67; 82; 49; 1]].
Proof.
  refine (proj2 (magic_prefixed_frame_is_lost reassembler_default 1 [68; 67; 82; 49; 1] _ _)).
  - by exists [1].
  - done.
Defined.
End witnesses.
