(* ===== verification/Timeline.v ===== *)
(** * Negotiation data and the diagnostic timeline

    The session descriptions, ICE candidates and the redacted event timeline of
    [crates/transport/src/webrtc_negotiation.rs]. Times are nanoseconds since the epoch. *)

From S2P Require Import Prelude Collections Bytes Framing StrOps Transport.

(** ** Descriptions and candidates *)

Inductive WebRtcSdpType := SdpOffer | SdpAnswer.

#[export] Instance WebRtcSdpType_eq_dec : EqDecision WebRtcSdpType.
Proof. solve_decision. Defined.

Record WebRtcSessionDescription := { sd_sdp_type : WebRtcSdpType; sd_sdp : string }.

Record WebRtcIceCandidate := {
  ic_candidate : string;
  ic_sdp_mid : option string;
  ic_sdp_mline_index : option N;
  ic_username_fragment : option string;
  ic_url : option string
}.

(** [str::split_whitespace]: the maximal runs without white space. [word] is the run under way,
    backwards. *)
Fixpoint split_whitespace_fuel (fuel : nat) (word b : bytes) : list bytes :=
  let emit := match word with [] => [] | _ => [rev word] end in
  match fuel with
  | O => emit
  | S fuel =>
      match strip_space b with
      | Some r => emit ++ split_whitespace_fuel fuel [] r
      | None =>
          match b with
          | [] => emit
          | x :: r => split_whitespace_fuel fuel (x :: word) r
          end
      end
  end.

Definition split_whitespace (s : string) : list string :=
  string_of_bytes <$> split_whitespace_fuel (length (as_bytes s)) [] (as_bytes s).

(** [words.windows(2)] *)
Definition windows2 {A} (l : list A) : list (A * A) := zip l (tail l).

Definition ice_candidate_type (c : WebRtcIceCandidate) : option string :=
  head (omap (λ p, if bool_decide (p.1 = "typ"%string) then Some p.2 else None)
          (windows2 (split_whitespace (ic_candidate c)))).

Definition is_turn_relay_candidate (c : WebRtcIceCandidate) : bool :=
  existsb (λ p, bool_decide (p = ("typ"%string, "relay"%string)))
    (windows2 (split_whitespace (ic_candidate c)))
  || match ic_url c with
     | Some url => starts_with "turn:" url || starts_with "turns:" url
     | None => false
     end.

(** ** Redaction *)

Definition secret_markers : list string :=
  ["v=0"; "candidate:"; "ice-pwd"; "ice-ufrag"; "turn:"; "turns:"].

Definition redacted_failure_reason (reason : string) : string :=
  if existsb (λ m, str_contains m reason) secret_markers
  then "redacted WebRTC failure; inspect structured diagnostic timeline" else reason.

(** ** Events *)

Record WebRtcDiagnosticEvent := {
  ev_sequence : N;
  ev_observed_at : Z;
  ev_kind : string;
  ev_peer_role : option string;
  ev_direction : option string;
  ev_state : option string;
  ev_sdp_type : option WebRtcSdpType;
  ev_candidate_type : option string;
  ev_relay_candidate : option bool;
  ev_count : option N;
  ev_failure_reason : option string
}.

Definition diagnostic_event (now : Z) (kind : string) : WebRtcDiagnosticEvent := {|
  ev_sequence := 0; ev_observed_at := now; ev_kind := kind; ev_peer_role := None;
  ev_direction := None; ev_state := None; ev_sdp_type := None; ev_candidate_type := None;
  ev_relay_candidate := None; ev_count := None; ev_failure_reason := None
|}.

(** The assignments to a fresh event. *)
Definition ev_with (role direction state : option string) (sdp : option WebRtcSdpType)
    (candidate : option (option string * bool)) (count : option N) (reason : option string)
    (e : WebRtcDiagnosticEvent) : WebRtcDiagnosticEvent := {|
  ev_sequence := ev_sequence e; ev_observed_at := ev_observed_at e; ev_kind := ev_kind e;
  ev_peer_role := role; ev_direction := direction; ev_state := state; ev_sdp_type := sdp;
  ev_candidate_type := candidate ≫= fst; ev_relay_candidate := snd <$> candidate;
  ev_count := count; ev_failure_reason := reason
|}.

(** ** The timeline *)

Record DiagnosticTimelineState := {
  tl_next_sequence : N;
  tl_events : list WebRtcDiagnosticEvent;
  tl_offer_count : N;
  tl_answer_count : N;
  tl_local_candidate_count : N;
  tl_remote_candidate_count : N;
  tl_failure_reason : option string
}.

Definition timeline_default : DiagnosticTimelineState := {|
  tl_next_sequence := 1; tl_events := []; tl_offer_count := 0; tl_answer_count := 0;
  tl_local_candidate_count := 0; tl_remote_candidate_count := 0; tl_failure_reason := None
|}.

Record WebRtcDiagnosticTimeline := {
  dt_schema_version : N;
  dt_events : list WebRtcDiagnosticEvent;
  dt_offer_count : N;
  dt_answer_count : N;
  dt_local_candidate_count : N;
  dt_remote_candidate_count : N;
  dt_failure_reason : option string
}.

Definition timeline_snapshot (t : DiagnosticTimelineState) : WebRtcDiagnosticTimeline := {|
  dt_schema_version := 1; dt_events := tl_events t; dt_offer_count := tl_offer_count t;
  dt_answer_count := tl_answer_count t; dt_local_candidate_count := tl_local_candidate_count t;
  dt_remote_candidate_count := tl_remote_candidate_count t;
  dt_failure_reason := tl_failure_reason t
|}.

Definition is_sdp (t : WebRtcSdpType) (e : WebRtcDiagnosticEvent) : bool :=
  bool_decide (ev_kind e = "sdp"%string) && bool_decide (ev_sdp_type e = Some t).

Definition is_candidate (direction : string) (e : WebRtcDiagnosticEvent) : bool :=
  bool_decide (ev_kind e = "ice_candidate"%string) && bool_decide (ev_direction e = Some direction).

Definition bump (b : bool) (n : N) : N := if b then sat_add u64_max n 1 else n.

Definition timeline_push (t : DiagnosticTimelineState) (e : WebRtcDiagnosticEvent) :
    DiagnosticTimelineState :=
  let local := bump (is_candidate "local" e) (tl_local_candidate_count t) in
  let remote := bump (is_candidate "remote" e) (tl_remote_candidate_count t) in
  let e' := {|
    ev_sequence := tl_next_sequence t; ev_observed_at := ev_observed_at e; ev_kind := ev_kind e;
    ev_peer_role := ev_peer_role e; ev_direction := ev_direction e; ev_state := ev_state e;
    ev_sdp_type := ev_sdp_type e; ev_candidate_type := ev_candidate_type e;
    ev_relay_candidate := ev_relay_candidate e;
    ev_count := if is_candidate "local" e then Some local
                else if is_candidate "remote" e then Some remote else ev_count e;
    ev_failure_reason := ev_failure_reason e |} in
  {| tl_next_sequence := sat_add u64_max (tl_next_sequence t) 1;
     tl_events := tl_events t ++ [e'];
     tl_offer_count := bump (is_sdp SdpOffer e) (tl_offer_count t);
     tl_answer_count := bump (is_sdp SdpAnswer e) (tl_answer_count t);
     tl_local_candidate_count := local;
     tl_remote_candidate_count := remote;
     tl_failure_reason := match ev_failure_reason e with
                          | Some reason => Some reason
                          | None => tl_failure_reason t
                          end |}.

Definition timeline_run (t : DiagnosticTimelineState) (es : list WebRtcDiagnosticEvent) :
  DiagnosticTimelineState := foldl timeline_push t es.

(** ** Lemmas *)

(** No marker of raw SDP, ICE or TURN material. *)
Definition free_of_secrets (reason : string) : Prop :=
  Forall (λ m, str_contains m reason = false) secret_markers.

Lemma redacted_free reason : free_of_secrets (redacted_failure_reason reason).
Proof.
  unfold redacted_failure_reason. destruct (existsb _ _) eqn:E.
  - unfold free_of_secrets, secret_markers. repeat constructor; vm_compute; reflexivity.
  - unfold free_of_secrets. apply Forall_forall. intros m Hm.
    apply not_true_is_false. intros Hc. apply not_true_iff_false in E. apply E.
    apply existsb_exists. exists m. split; [by apply list_elem_of_In|done].
Qed.

(** The reasons a timeline shows are free of secrets. *)
Definition timeline_clean (t : DiagnosticTimelineState) : Prop :=
  Forall (λ e, from_option free_of_secrets True (ev_failure_reason e)) (tl_events t)
  ∧ from_option free_of_secrets True (tl_failure_reason t).

Lemma timeline_push_clean t e :
  from_option free_of_secrets True (ev_failure_reason e) → timeline_clean t →
  timeline_clean (timeline_push t e).
Proof.
  intros He [Hes Hr]. split; simpl.
  - apply Forall_app. split; [done|]. by constructor.
  - by destruct (ev_failure_reason e).
Qed.

(** The number of events a predicate holds of. *)
Definition count_events (p : WebRtcDiagnosticEvent → bool) (es : list WebRtcDiagnosticEvent) : N :=
  N.of_nat (length (List.filter p es)).

Lemma count_events_snoc p es e :
  count_events p (es ++ [e]) = count_events p es + (if p e then 1 else 0).
Proof.
  unfold count_events. rewrite List.filter_app, length_app. simpl.
  destruct (p e); simpl; lia.
Qed.

Lemma count_events_le p es : count_events p es ≤ N.of_nat (length es).
Proof.
  unfold count_events. pose proof (List.filter_length_le p es). lia.
Qed.

(** What a timeline shows after events [es]. *)
Record shows (es : list WebRtcDiagnosticEvent) (t : DiagnosticTimelineState) : Prop := {
  sh_next : tl_next_sequence t = N.of_nat (length es) + 1;
  sh_length : length (tl_events t) = length es;
  sh_sequence i e : tl_events t !! i = Some e → ev_sequence e = N.of_nat i + 1;
  sh_offers : tl_offer_count t = count_events (is_sdp SdpOffer) es;
  sh_answers : tl_answer_count t = count_events (is_sdp SdpAnswer) es;
  sh_local : tl_local_candidate_count t = count_events (is_candidate "local") es;
  sh_remote : tl_remote_candidate_count t = count_events (is_candidate "remote") es;
  sh_reason : tl_failure_reason t = last (omap ev_failure_reason es)
}.

Lemma bump_count p es e :
  N.of_nat (length es) < u64_max →
  bump (p e) (count_events p es) = count_events p (es ++ [e]).
Proof.
  intros Hn. rewrite count_events_snoc. pose proof (count_events_le p es).
  unfold bump, sat_add. destruct (p e); lia.
Qed.

Lemma timeline_push_shows es t e :
  N.of_nat (length es) + 1 < u64_max → shows es t → shows (es ++ [e]) (timeline_push t e).
Proof.
  intros Hn [H1 H2 H3 H4 H5 H6 H7 H8].
  split; cbn [tl_next_sequence tl_events tl_offer_count tl_answer_count tl_local_candidate_count
              tl_remote_candidate_count tl_failure_reason timeline_push].
  - rewrite H1, length_app. unfold sat_add. simpl. lia.
  - rewrite !length_app, H2. done.
  - intros i e'. rewrite lookup_app_Some, list_lookup_singleton_Some.
    intros [Hi|(Hi & Hi' & <-)]; [by apply H3|]. simpl. lia.
  - rewrite H4. apply bump_count. lia.
  - rewrite H5. apply bump_count. lia.
  - rewrite H6. apply bump_count. lia.
  - rewrite H7. apply bump_count. lia.
  - rewrite H8, omap_app. simpl. destruct (ev_failure_reason e); simpl.
    + by rewrite last_snoc.
    + by rewrite app_nil_r.
Qed.

Lemma timeline_run_shows es es' t :
  N.of_nat (length (es ++ es')) < u64_max → shows es t →
  shows (es ++ es') (timeline_run t es').
Proof.
  revert es t. induction es' as [|e es' IH]; intros es t Hn Ht; simpl; [by rewrite app_nil_r|].
  rewrite (cons_middle e es es') in *. rewrite app_assoc in *.
  apply IH; [done|]. apply timeline_push_shows; [|done].
  rewrite !length_app in Hn. simpl in Hn. lia.
Qed.

(** ** Properties *)

(** A failure reason that went through the redaction names no SDP body, candidate line,
    ICE credential or TURN address, whatever the WebRTC stack reported. *)
Theorem redaction_removes_markers reason :
  Forall (λ m, str_contains m (redacted_failure_reason reason) = false) secret_markers.
Proof. exact (redacted_free reason). Qed.

(** The timeline counts exactly: after any fewer than [u64::MAX] events, its entries are
    numbered 1, 2, 3, ..., the offer, answer, local and remote candidate counts are the numbers
    of such events, and the failure shown is the last one reported. *)
Theorem timeline_is_exact es :
  N.of_nat (length es) < u64_max →
  let t := timeline_run timeline_default es in
  length (tl_events t) = length es
  ∧ (∀ i e, tl_events t !! i = Some e → ev_sequence e = N.of_nat i + 1)
  ∧ tl_offer_count t = count_events (is_sdp SdpOffer) es
  ∧ tl_answer_count t = count_events (is_sdp SdpAnswer) es
  ∧ tl_local_candidate_count t = count_events (is_candidate "local") es
  ∧ tl_remote_candidate_count t = count_events (is_candidate "remote") es
  ∧ tl_failure_reason t = last (omap ev_failure_reason es).
Proof.
  intros Hn t.
  assert (shows [] timeline_default) as H0 by (by split).
  destruct (timeline_run_shows [] es timeline_default Hn H0). by split_and!.
Qed.

(** ** Witnesses *)

Section witnesses.
Let offer : WebRtcDiagnosticEvent :=
  ev_with (Some "offerer"%string) (Some "local"%string) None (Some SdpOffer) None None None
    (diagnostic_event 0 "sdp").

Lemma timeline_is_exact_witness :
  tl_offer_count (timeline_run timeline_default [offer; offer]) = 2.
Proof.
  assert (N.of_nat (length [offer; offer]) < u64_max) as Hn by done.
  pose proof (timeline_is_exact [offer; offer] Hn) as H.
  destruct H as (_ & _ & H & _). exact H.
Defined.
End witnesses.
