(* ===== verification/DataChannel.v ===== *)
(** * The data channel hub

    [DataChannelHub] of [crates/transport/src/webrtc_negotiation.rs]: the channels attached to
    one peer connection, the flags that say whether frames can be sent, the task that reads each
    channel, and the metrics shown to the application.

    The tasks and handlers of the source share the hub through locks and atomics; here each
    runs to completion before the next one starts, in any order. The inbound queue is the
    bounded [mpsc] channel without its back-pressure: a reader task that waits for room in
    it is not modelled. The data channel itself ([webrtc]'s [DataChannel]) is a parameter. *)

From S2P Require Import Prelude Collections Bytes Framing StrOps Transport DataFrames Timeline.

(** ** State *)

Record DataTransportMetricsState := {
  dm_label : string;
  dm_attached_channels : N;
  dm_open : bool;
  dm_frames_sent : N;
  dm_frames_received : N;
  dm_bytes_sent : N;
  dm_bytes_received : N;
  dm_last_state : string
}.

Definition data_metrics_new (label : string) : DataTransportMetricsState := {|
  dm_label := label; dm_attached_channels := 0; dm_open := false; dm_frames_sent := 0;
  dm_frames_received := 0; dm_bytes_sent := 0; dm_bytes_received := 0; dm_last_state := "new"
|}.

Record WebRtcDataTransportMetrics := {
  wd_schema_version : N;
  wd_state : DataTransportMetricsState
}.

Definition data_metrics_snapshot (m : DataTransportMetricsState) : WebRtcDataTransportMetrics :=
  {| wd_schema_version := 1; wd_state := m |}.

Abbreviation ChannelKey := (string * N)%type.

Record DataChannelHub := {
  dh_label : string;
  dh_channels : list N;
  dh_channel_keys : gset ChannelKey;
  dh_open_channel_keys : gset ChannelKey;
  dh_next_frame_id : N;
  dh_inbound : list bytes;
  dh_metrics : DataTransportMetricsState;
  dh_open : bool;
  dh_connection_ready : bool;
  dh_unavailable : bool;
  dh_terminal : bool;
  dh_timeline : DiagnosticTimelineState;
  (** the reader tasks, each with its reassembler *)
  dh_tasks : gmap ChannelKey DataChannelFrameReassembler
}.

Definition hub_new (label : string) : DataChannelHub := {|
  dh_label := label; dh_channels := []; dh_channel_keys := ∅; dh_open_channel_keys := ∅;
  dh_next_frame_id := 1; dh_inbound := []; dh_metrics := data_metrics_new label;
  dh_open := false; dh_connection_ready := false; dh_unavailable := false;
  dh_terminal := false; dh_timeline := timeline_default; dh_tasks := ∅
|}.

(** *** Field updates *)

Definition set_metrics (m : DataTransportMetricsState) (h : DataChannelHub) : DataChannelHub := {|
  dh_label := dh_label h; dh_channels := dh_channels h; dh_channel_keys := dh_channel_keys h;
  dh_open_channel_keys := dh_open_channel_keys h; dh_next_frame_id := dh_next_frame_id h;
  dh_inbound := dh_inbound h; dh_metrics := m; dh_open := dh_open h;
  dh_connection_ready := dh_connection_ready h; dh_unavailable := dh_unavailable h;
  dh_terminal := dh_terminal h; dh_timeline := dh_timeline h; dh_tasks := dh_tasks h
|}.

Definition record_event (e : WebRtcDiagnosticEvent) (h : DataChannelHub) : DataChannelHub := {|
  dh_label := dh_label h; dh_channels := dh_channels h; dh_channel_keys := dh_channel_keys h;
  dh_open_channel_keys := dh_open_channel_keys h; dh_next_frame_id := dh_next_frame_id h;
  dh_inbound := dh_inbound h; dh_metrics := dh_metrics h; dh_open := dh_open h;
  dh_connection_ready := dh_connection_ready h; dh_unavailable := dh_unavailable h;
  dh_terminal := dh_terminal h; dh_timeline := timeline_push (dh_timeline h) e;
  dh_tasks := dh_tasks h
|}.

Definition set_flags (open ready unavailable terminal : bool) (h : DataChannelHub) :
    DataChannelHub := {|
  dh_label := dh_label h; dh_channels := dh_channels h; dh_channel_keys := dh_channel_keys h;
  dh_open_channel_keys := dh_open_channel_keys h; dh_next_frame_id := dh_next_frame_id h;
  dh_inbound := dh_inbound h; dh_metrics := dh_metrics h; dh_open := open;
  dh_connection_ready := ready; dh_unavailable := unavailable; dh_terminal := terminal;
  dh_timeline := dh_timeline h; dh_tasks := dh_tasks h
|}.

Definition set_channels (channels : list N) (keys open_keys : gset ChannelKey)
    (tasks : gmap ChannelKey DataChannelFrameReassembler) (h : DataChannelHub) :
    DataChannelHub := {|
  dh_label := dh_label h; dh_channels := channels; dh_channel_keys := keys;
  dh_open_channel_keys := open_keys; dh_next_frame_id := dh_next_frame_id h;
  dh_inbound := dh_inbound h; dh_metrics := dh_metrics h; dh_open := dh_open h;
  dh_connection_ready := dh_connection_ready h; dh_unavailable := dh_unavailable h;
  dh_terminal := dh_terminal h; dh_timeline := dh_timeline h; dh_tasks := tasks
|}.

Definition set_tasks (tasks : gmap ChannelKey DataChannelFrameReassembler) (h : DataChannelHub) :
    DataChannelHub :=
  set_channels (dh_channels h) (dh_channel_keys h) (dh_open_channel_keys h) tasks h.

Definition set_queue (next_frame_id : N) (inbound : list bytes) (h : DataChannelHub) :
    DataChannelHub := {|
  dh_label := dh_label h; dh_channels := dh_channels h; dh_channel_keys := dh_channel_keys h;
  dh_open_channel_keys := dh_open_channel_keys h; dh_next_frame_id := next_frame_id;
  dh_inbound := inbound; dh_metrics := dh_metrics h; dh_open := dh_open h;
  dh_connection_ready := dh_connection_ready h; dh_unavailable := dh_unavailable h;
  dh_terminal := dh_terminal h; dh_timeline := dh_timeline h; dh_tasks := dh_tasks h
|}.

(** [metrics.open = open; metrics.last_state = state] on [attached] channels. *)
Definition metrics_update (attached : N) (open : bool) (state : string)
    (m : DataTransportMetricsState) : DataTransportMetricsState := {|
  dm_label := dm_label m; dm_attached_channels := attached; dm_open := open;
  dm_frames_sent := dm_frames_sent m; dm_frames_received := dm_frames_received m;
  dm_bytes_sent := dm_bytes_sent m; dm_bytes_received := dm_bytes_received m;
  dm_last_state := state
|}.

Definition metrics_state (state : string) (m : DataTransportMetricsState) :=
  metrics_update (dm_attached_channels m) (dm_open m) state m.

Definition metrics_open (open : bool) (state : string) (m : DataTransportMetricsState) :=
  metrics_update (dm_attached_channels m) open state m.

Definition metrics_sent (n : N) (m : DataTransportMetricsState) : DataTransportMetricsState := {|
  dm_label := dm_label m; dm_attached_channels := dm_attached_channels m; dm_open := dm_open m;
  dm_frames_sent := sat_add u64_max (dm_frames_sent m) 1;
  dm_frames_received := dm_frames_received m;
  dm_bytes_sent := sat_add u64_max (dm_bytes_sent m) n;
  dm_bytes_received := dm_bytes_received m; dm_last_state := "sent"
|}.

Definition metrics_received (n : N) (m : DataTransportMetricsState) :
    DataTransportMetricsState := {|
  dm_label := dm_label m; dm_attached_channels := dm_attached_channels m; dm_open := dm_open m;
  dm_frames_sent := dm_frames_sent m;
  dm_frames_received := sat_add u64_max (dm_frames_received m) 1;
  dm_bytes_sent := dm_bytes_sent m;
  dm_bytes_received := sat_add u64_max (dm_bytes_received m) n; dm_last_state := "message"
|}.

Definition channel_event (now : Z) (direction : option string) (state : string)
    (count : option N) (reason : option string) : WebRtcDiagnosticEvent :=
  ev_with (Some "local"%string) direction (Some state) None None count reason
    (diagnostic_event now "data_channel").

(** ** Availability *)

Definition is_usable (h : DataChannelHub) : bool :=
  negb (dh_terminal h) && dh_open h && dh_connection_ready h.

Definition unavailable_error : TransportError :=
  Unavailable "WebRTC peer connection or DataChannel is no longer usable".

Definition snapshot_nonblocking (locked : bool) (h : DataChannelHub) : WebRtcDataTransportMetrics :=
  if negb locked then data_metrics_snapshot (dh_metrics h)
  else
    let open := is_usable h in
    {| wd_schema_version := 1;
       wd_state := {| dm_label := dh_label h; dm_attached_channels := if open then 1 else 0;
                      dm_open := open; dm_frames_sent := 0; dm_frames_received := 0;
                      dm_bytes_sent := 0; dm_bytes_received := 0;
                      dm_last_state := if open then "open" else "closed" |} |}.

(** ** Attaching and detaching *)

(** [label] is what [channel.label()] returned, if it succeeded. *)
Definition hub_attach (now : Z) (label : option string) (id : N) (h : DataChannelHub) :
    DataChannelHub :=
  let label := default (dh_label h) label in
  if negb (bool_decide (label = dh_label h)) then h
  else
    let key := (label, id) in
    if bool_decide (key ∈ dh_channel_keys h) then
      record_event (channel_event now (Some "local"%string) "duplicate_attach_ignored" None None)
        (set_metrics (metrics_state "duplicate_attach_ignored" (dh_metrics h)) h)
    else
      let channels := dh_channels h ++ [id] in
      record_event (channel_event now (Some "local"%string) "attached" None None)
        (set_metrics
           (metrics_update (N.of_nat (length channels)) (dm_open (dh_metrics h)) "attached"
              (dh_metrics h))
           (set_channels channels ({[key]} ∪ dh_channel_keys h) (dh_open_channel_keys h)
              (<[key := reassembler_default]> (dh_tasks h)) h)).

Definition detach_data_channel (key : ChannelKey) (last_state : string) (h : DataChannelHub) :
    DataChannelHub :=
  let channels := filter (λ id, id ≠ key.2) (dh_channels h) in
  let open_keys := dh_open_channel_keys h ∖ {[key]} in
  let has_open := negb (bool_decide (open_keys = ∅)) in
  let usable := has_open && dh_connection_ready h && negb (dh_terminal h) in
  set_metrics (metrics_update (N.of_nat (length channels)) usable last_state (dh_metrics h))
    (set_flags has_open (dh_connection_ready h) (negb has_open || dh_terminal h) (dh_terminal h)
       (set_channels channels (dh_channel_keys h ∖ {[key]}) open_keys (dh_tasks h) h)).

Definition mark_data_channel_open (key : ChannelKey) (h : DataChannelHub) :
    DataChannelHub * bool :=
  if negb (bool_decide (key ∈ dh_channel_keys h)) then (h, false)
  else
    (set_flags true (dh_connection_ready h) (dh_unavailable h) (dh_terminal h)
       (set_channels (dh_channels h) (dh_channel_keys h) ({[key]} ∪ dh_open_channel_keys h)
          (dh_tasks h) h), true).

(** ** The reader task of a channel *)

Inductive DataChannelEvent :=
| OnOpen | OnMessage (data : bytes) | OnClose | OnClosing | OnError
| OnBufferedAmountLow | OnBufferedAmountHigh.

(** The task leaves its loop. *)
Definition end_task (key : ChannelKey) (h : DataChannelHub) : DataChannelHub :=
  set_tasks (delete key (dh_tasks h)) h.

Definition on_open (now : Z) (key : ChannelKey) (h : DataChannelHub) : DataChannelHub :=
  match mark_data_channel_open key h with
  | (h, false) => end_task key h
  | (h, true) =>
      let usable := dh_connection_ready h && negb (dh_terminal h) in
      let state := if dh_terminal h then dm_last_state (dh_metrics h)
                   else if usable then "open"%string
                   else "data_channel_open_waiting_for_peer"%string in
      record_event (channel_event now None "open" None None)
        (set_metrics (metrics_open usable state (dh_metrics h))
           (set_flags (dh_open h) (dh_connection_ready h)
              (if usable then false else dh_unavailable h) (dh_terminal h) h))
  end.

Definition on_message (now : Z) (key : ChannelKey) (r : DataChannelFrameReassembler)
    (data : bytes) (h : DataChannelHub) : DataChannelHub :=
  let '(r', out) := reassembler_push r data in
  let h := set_tasks (<[key := r']> (dh_tasks h)) h in
  match out with
  | Ok None => set_metrics (metrics_state "chunk_received" (dh_metrics h)) h
  | Err e =>
      record_event
        (channel_event now (Some "remote"%string) "message_rejected" None
           (Some (transport_error_text e)))
        (set_metrics (metrics_state "message_rejected" (dh_metrics h)) h)
  | Ok (Some frame) =>
      set_queue (dh_next_frame_id h) (dh_inbound h ++ [frame])
        (record_event (channel_event now (Some "remote"%string) "message" (Some (len frame)) None)
           (set_metrics (metrics_received (len frame) (dh_metrics h)) h))
  end.

(** Close, closing and error end the task. *)
Definition on_gone (now : Z) (key : ChannelKey) (state : string) (reason : option string)
    (h : DataChannelHub) : DataChannelHub :=
  end_task key
    (record_event (channel_event now None state None reason) (detach_data_channel key state h)).

Definition task_event (now : Z) (key : ChannelKey) (ev : DataChannelEvent) (h : DataChannelHub) :
    DataChannelHub :=
  match dh_tasks h !! key with
  | None => h
  | Some r =>
      match ev with
      | OnOpen => on_open now key h
      | OnMessage data => on_message now key r data h
      | OnClose => on_gone now key "closed" None h
      | OnClosing => on_gone now key "closing" None h
      | OnError => on_gone now key "error" (Some "DataChannel event error"%string) h
      | OnBufferedAmountLow => set_metrics (metrics_state "buffered_amount_low" (dh_metrics h)) h
      | OnBufferedAmountHigh => set_metrics (metrics_state "buffered_amount_high" (dh_metrics h)) h
      end
  end.

(** ** The peer connection *)

(** The states of [RTCPeerConnectionState] the source names; [Display] is [webrtc]'s. *)
Inductive RTCPeerConnectionState :=
| PcNew | PcConnecting | PcConnected | PcDisconnected | PcFailed | PcClosed | PcOther.

#[export] Instance RTCPeerConnectionState_eq_dec : EqDecision RTCPeerConnectionState.
Proof. solve_decision. Defined.

Definition mark_unavailable (last_state : string) (h : DataChannelHub) : DataChannelHub :=
  set_metrics (metrics_open false last_state (dh_metrics h))
    (set_flags (dh_open h) false true true h).

Definition set_peer_connection_state (display : RTCPeerConnectionState → string)
    (state : RTCPeerConnectionState) (h : DataChannelHub) : DataChannelHub :=
  match state with
  | PcConnected =>
      if dh_terminal h then h
      else
        let h := set_flags (dh_open h) true (if dh_open h then false else dh_unavailable h)
                   (dh_terminal h) h in
        set_metrics
          (metrics_open (is_usable h)
             (if is_usable h then "open" else "peer_connection_" +:+ display state)
             (dh_metrics h)) h
  | PcFailed | PcClosed => mark_unavailable ("peer_connection_" +:+ display state) h
  | _ => h
  end.

(** ** Sending, receiving, closing *)

(** What the attached channels answer: is [ready_state()] [Open], the outcome of the [i]th
    [send] of a frame, and of [close]. *)
Record ChannelEnv := {
  ready_is_open : N → result bool string;
  channel_send : N → nat → bytes → result unit string;
  channel_close : N → result unit string
}.

Definition data_channel_error (e : string) : TransportError :=
  Unavailable ("WebRTC DataChannel failed: " +:+ e).

Definition hub_failure (now : Z) (reason : string) (h : DataChannelHub) : DataChannelHub :=
  record_event
    (ev_with (Some "local"%string) None None None None None (Some reason)
       (diagnostic_event now "failure")) h.

Fixpoint close_channels (env : ChannelEnv) (ids : list N) : result unit TransportError :=
  match ids with
  | [] => Ok tt
  | id :: rest => check map_err data_channel_error (channel_close env id) in close_channels env rest
  end.

Definition close_all (env : ChannelEnv) (now : Z) (h : DataChannelHub) :
    DataChannelHub * result unit TransportError :=
  match close_channels env (dh_channels h) with
  | Err e => (h, Err e)
  | Ok _ =>
      (record_event (channel_event now None "closed" None None)
         (set_metrics (metrics_open false "closed" (dh_metrics h))
            (set_channels (dh_channels h) (dh_channel_keys h) ∅ (dh_tasks h)
               (set_flags false false true true h))), Ok tt)
  end.

(** What other tasks do to the hub. *)
Inductive HubEvent :=
| EvAttach (now : Z) (label : option string) (id : N)
| EvTask (now : Z) (key : ChannelKey) (ev : DataChannelEvent)
| EvTaskEnd (key : ChannelKey)
| EvPeerState (display : RTCPeerConnectionState → string) (state : RTCPeerConnectionState)
| EvUnavailable (last_state : string)
| EvCloseAll (env : ChannelEnv) (now : Z).

(** [EvTaskEnd]: [channel.poll()] returned [None]. *)
Definition hub_event (h : DataChannelHub) (e : HubEvent) : DataChannelHub :=
  match e with
  | EvAttach now label id => hub_attach now label id h
  | EvTask now key ev => task_event now key ev h
  | EvTaskEnd key => end_task key h
  | EvPeerState display state => set_peer_connection_state display state h
  | EvUnavailable last_state => mark_unavailable last_state h
  | EvCloseAll env now => (close_all env now h).1
  end.

(** [wakes]: what happens before each time the waiting task is woken; when they run out the
    deadline has passed. *)
Fixpoint wait_open (now : Z) (wakes : list (list HubEvent)) (h : DataChannelHub) :
    DataChannelHub * result unit TransportError :=
  if is_usable h then (h, Ok tt)
  else if dh_unavailable h then (h, Err unavailable_error)
  else
    match wakes with
    | [] => (hub_failure now "DataChannel did not open" h,
             Err (Unavailable "DataChannel did not open"))
    | es :: wakes => wait_open now wakes (foldl hub_event h es)
    end.

(** The first attached channel that is open here and reports itself open. *)
Fixpoint select_channel (env : ChannelEnv) (h : DataChannelHub) (ids : list N) :
    result (option N) TransportError :=
  match ids with
  | [] => Ok None
  | id :: rest =>
      if negb (bool_decide ((dh_label h, id) ∈ dh_open_channel_keys h)) then select_channel env h rest
      else
        let* open := map_err data_channel_error (ready_is_open env id) in
        if open then Ok (Some id) else select_channel env h rest
  end.

(** The messages handed to the channel, and whether all were accepted. *)
Fixpoint send_messages (env : ChannelEnv) (id : N) (i : nat) (ms : list bytes) :
    list bytes * result unit TransportError :=
  match ms with
  | [] => ([], Ok tt)
  | m :: rest =>
      match channel_send env id i m with
      | Err e => ([], Err (data_channel_error e))
      | Ok _ => let '(sent, res) := send_messages env id (S i) rest in (m :: sent, res)
      end
  end.

(** The hub after a call, the messages handed to a channel, and what the call returned. *)
Definition SendOutcome : Type := DataChannelHub * list bytes * result unit TransportError.

(** Sending on a hub that is open: choose a channel, hand the messages over. *)
Definition send_on (env : ChannelEnv) (now : Z) (frame : bytes) (ms : list bytes)
    (h : DataChannelHub) : SendOutcome :=
  match select_channel env h (dh_channels h) with
  | Err e => (h, [], Err e)
  | Ok None => (h, [], Err (Unavailable "no open DataChannel attached"))
  | Ok (Some id) =>
      let '(sent, res) := send_messages env id 0 ms in
      match res with
      | Err e => (h, sent, Err e)
      | Ok _ =>
          (record_event
             (channel_event now (Some "local"%string) "sent" (Some (len frame)) None)
             (set_metrics (metrics_sent (len frame) (dh_metrics h)) h), sent, Ok tt)
      end
  end.

Definition hub_send (env : ChannelEnv) (now : Z) (wakes : list (list HubEvent)) (frame : bytes)
    (h : DataChannelHub) : SendOutcome :=
  let frame_id := dh_next_frame_id h in
  let h := set_queue ((frame_id + 1) mod 2 ^ 64) (dh_inbound h) h in
  match encode_data_channel_wire_messages frame_id frame with
  | Err e => (h, [], Err e)
  | Ok ms =>
      match wait_open now wakes h with
      | (h, Err e) => (h, [], Err e)
      | (h, Ok _) =>
          if negb (is_usable h) then (h, [], Err unavailable_error)
          else send_on env now frame ms h
      end
  end.

(** [None] while there is nothing to return and the hub is available. *)
Definition hub_recv (h : DataChannelHub) :
    DataChannelHub * option (result bytes TransportError) :=
  if dh_unavailable h then (h, Some (Err unavailable_error))
  else
    match dh_inbound h with
    | [] => (h, None)
    | frame :: rest => (set_queue (dh_next_frame_id h) rest h, Some (Ok frame))
    end.

Inductive HubCall :=
| CallEvent (e : HubEvent)
| CallSend (env : ChannelEnv) (now : Z) (wakes : list (list HubEvent)) (frame : bytes)
| CallWaitOpen (now : Z) (wakes : list (list HubEvent))
| CallRecv.

(** The hub and the messages handed to its channels. *)
Definition hub_call (s : DataChannelHub * list bytes) (c : HubCall) : DataChannelHub * list bytes :=
  let '(h, wire) := s in
  match c with
  | CallEvent e => (hub_event h e, wire)
  | CallSend env now wakes frame =>
      let '(h, sent, _) := hub_send env now wakes frame h in (h, wire ++ sent)
  | CallWaitOpen now wakes => ((wait_open now wakes h).1, wire)
  | CallRecv => ((hub_recv h).1, wire)
  end.

Definition hub_run (calls : list HubCall) (s : DataChannelHub * list bytes) :
  DataChannelHub * list bytes := foldl hub_call s calls.

(** ** Lemmas *)

Record hub_wf (h : DataChannelHub) : Prop := {
  hw_keys key : key ∈ dh_channel_keys h ↔ key.1 = dh_label h ∧ key.2 ∈ dh_channels h;
  hw_nodup : NoDup (dh_channels h);
  hw_open_sub : dh_open_channel_keys h ⊆ dh_channel_keys h;
  hw_open : dh_open h = negb (bool_decide (dh_open_channel_keys h = ∅));
  hw_attached : dm_attached_channels (dh_metrics h) = N.of_nat (length (dh_channels h));
  hw_metrics : dm_open (dh_metrics h) = is_usable h;
  hw_available : is_usable h = true → dh_unavailable h = false;
  hw_terminal : dh_terminal h = true → dh_unavailable h = true;
  hw_tasks : dom (dh_tasks h) ⊆ dh_channel_keys h;
  hw_clean : timeline_clean (dh_timeline h);
  hw_next : dh_next_frame_id h < 2 ^ 64
}.

Lemma hub_new_wf label : hub_wf (hub_new label).
Proof. by split; simpl; try set_solver; try constructor. Qed.

(** *** Updates that leave the structure alone *)

Lemma set_metrics_wf m h :
  hub_wf h → dm_attached_channels m = dm_attached_channels (dh_metrics h) →
  dm_open m = dm_open (dh_metrics h) → hub_wf (set_metrics m h).
Proof.
  intros [] Ha Ho. split; simpl; try done; [congruence|].
  change (is_usable (set_metrics m h)) with (is_usable h). congruence.
Qed.

Lemma metrics_state_wf state h :
  hub_wf h → hub_wf (set_metrics (metrics_state state (dh_metrics h)) h).
Proof. intros Hw. by apply set_metrics_wf. Qed.

Lemma record_event_wf e h :
  from_option free_of_secrets True (ev_failure_reason e) → hub_wf h → hub_wf (record_event e h).
Proof. intros He []. split; simpl; try done. by apply timeline_push_clean. Qed.

Lemma set_queue_wf n q h : n < 2 ^ 64 → hub_wf h → hub_wf (set_queue n q h).
Proof. intros Hn []. by split. Qed.

Lemma set_tasks_wf tasks h :
  dom tasks ⊆ dh_channel_keys h → hub_wf h → hub_wf (set_tasks tasks h).
Proof. intros Ht []. by split. Qed.

Lemma end_task_wf key h : hub_wf h → hub_wf (end_task key h).
Proof. intros Hw. apply set_tasks_wf; [|done]. pose proof (hw_tasks h Hw). set_solver. Qed.

(** Updates of the flags, once the new ones fit the structure. *)
Lemma flags_wf open ready unavailable terminal state h :
  hub_wf h → open = negb (bool_decide (dh_open_channel_keys h = ∅)) →
  let usable := negb terminal && open && ready in
  (usable = true → unavailable = false) → (terminal = true → unavailable = true) →
  hub_wf (set_metrics (metrics_open usable state (dh_metrics h))
            (set_flags open ready unavailable terminal h)).
Proof. intros [] Ho usable Hu Ht. split; simpl; done. Qed.

(** *** The reasons recorded *)

(** The texts a rejected chunk can have. *)
Definition chunk_reasons : list string :=
  ["raw frame exceeds size limit"; "continuation arrived without a first chunk";
   "chunk sequence does not match the pending frame"; "reassembled frame exceeds declared length";
   "final chunk does not match declared length"; "header is truncated";
   "declared frame length is outside chunked bounds"; "chunk count is inconsistent";
   "chunk index is out of range"; "chunk payload length is inconsistent"]%string.

Definition is_chunk_error (e : TransportError) : Prop :=
  ∃ reason, reason ∈ chunk_reasons ∧ e = invalid_data_channel_chunk reason.

Lemma reject_chunk_err b reason e :
  reason ∈ chunk_reasons → reject_chunk b reason = Err e → is_chunk_error e.
Proof. unfold reject_chunk, reject_if. destruct b; [|done]. intros ? [= <-]. by exists reason. Qed.

Lemma parse_chunk_err m e : parse_data_channel_chunk m = Err e → is_chunk_error e.
Proof.
  unfold parse_data_channel_chunk. intros H.
  repeat (match type of H with
          | rbind (reject_chunk ?b ?reason) _ = _ =>
              let E := fresh in
              destruct (reject_chunk b reason) eqn:E; cbn [rbind] in H;
              [clear E | injection H as <-; eapply reject_chunk_err; [|exact E]; set_solver]
          end). done.
Qed.

Lemma push_chunk_err r m r' e : reassembler_push r m = (r', Err e) → is_chunk_error e.
Proof.
  unfold reassembler_push, continue_frame.
  destruct (negb _); [case_match; intros [= <- <-]; eexists; (split; [|done]); set_solver|].
  destruct (parse_data_channel_chunk m) as [c|e'] eqn:E;
    [|intros [= <- <-]; by eapply parse_chunk_err].
  repeat (case_match; try done); intros [= <- <-]; eexists; (split; [|done]); set_solver.
Qed.

Lemma chunk_error_clean e : is_chunk_error e → free_of_secrets (transport_error_text e).
Proof.
  intros (reason & Hr & ->). unfold free_of_secrets, secret_markers, chunk_reasons in *.
  repeat (apply elem_of_cons in Hr as [->|Hr]; [repeat constructor; vm_compute; reflexivity|]).
  by apply elem_of_nil in Hr.
Qed.

(** *** Every operation keeps the hub well formed *)

Lemma hub_attach_wf now label id h : hub_wf h → hub_wf (hub_attach now label id h).
Proof.
  intros Hw. unfold hub_attach. case_bool_decide as Hl; simpl; [|done]. rewrite Hl.
  case_bool_decide as Hk; (apply record_event_wf; [done|]); [by apply metrics_state_wf|].
  destruct Hw.
  assert (id ∉ dh_channels h) as Hid.
  { intros Hin. apply Hk. by apply hw_keys0. }
  split; simpl; try done.
  - intros key. rewrite elem_of_union, elem_of_singleton, hw_keys0, elem_of_app, list_elem_of_singleton.
    destruct key as [l i]. simpl. naive_solver.
  - apply NoDup_app. split_and!; [done| |apply NoDup_singleton].
    intros x Hx ->%list_elem_of_singleton. done.
  - set_solver.
  - set_solver.
Qed.

Lemma detach_wf key state h :
  hub_wf h → key.1 = dh_label h → hub_wf (detach_data_channel key state (end_task key h)).
Proof.
  intros [] Hkey. unfold detach_data_channel.
  set (has_open := negb _).
  split; simpl; try done.
  - intros k. rewrite elem_of_difference, not_elem_of_singleton, hw_keys0, list_elem_of_filter.
    destruct k as [l i], key as [l' i']. simpl in *. naive_solver.
  - by apply NoDup_filter.
  - set_solver.
  - unfold is_usable. simpl. by destruct has_open, (dh_connection_ready h), (dh_terminal h).
  - unfold is_usable. simpl. by destruct has_open, (dh_connection_ready h), (dh_terminal h).
  - intros ->. by destruct has_open.
  - set_solver.
Qed.

Lemma on_gone_eq now key state reason h :
  on_gone now key state reason h =
    record_event (channel_event now None state None reason)
      (detach_data_channel key state (end_task key h)).
Proof. done. Qed.

Lemma mark_open_wf key h h' b :
  hub_wf h → mark_data_channel_open key h = (h', b) →
  (b = false → h' = h)
  ∧ (b = true → ∀ state, hub_wf (set_metrics (metrics_open (is_usable h') state (dh_metrics h'))
                    (set_flags (dh_open h') (dh_connection_ready h')
                       (if is_usable h' then false else dh_unavailable h') (dh_terminal h') h'))
       ∧ is_usable h' = dh_connection_ready h' && negb (dh_terminal h')).
Proof.
  intros Hw. unfold mark_data_channel_open. case_bool_decide as Hk; cbn [negb]; intros [= Eh Eb]; subst b;
    [|split; [done|discriminate]]. rewrite <- Eh. clear Eh.
  destruct Hw. split; [done|]. intros _ state. unfold is_usable. simpl.
  split; [|by destruct (dh_terminal h), (dh_connection_ready h)].
  split; simpl; try done.
  - set_solver.
  - rewrite bool_decide_false by set_solver. done.
  - unfold is_usable. simpl. by intros ->.
  - intros Ht. rewrite Ht. simpl. by apply hw_terminal0.
Qed.

Lemma on_open_wf now key h : hub_wf h → hub_wf (on_open now key h).
Proof.
  intros Hw. unfold on_open. destruct (mark_data_channel_open key h) as [h' b] eqn:E.
  destruct (mark_open_wf _ _ _ _ Hw E) as [H1 H2]. destruct b.
  - specialize (H2 eq_refl). apply record_event_wf; [done|].
    destruct (H2 ""%string) as [_ Hu]. rewrite <- Hu. apply H2.
  - rewrite (H1 eq_refl). by apply end_task_wf.
Qed.

Lemma on_message_wf now key r data h :
  hub_wf h → key ∈ dh_channel_keys h → hub_wf (on_message now key r data h).
Proof.
  intros Hw Hk. unfold on_message. destruct (reassembler_push r data) as [r' out] eqn:E.
  assert (hub_wf (set_tasks (<[key:=r']> (dh_tasks h)) h)) as Hw'.
  { apply set_tasks_wf; [|done]. pose proof (hw_tasks h Hw). set_solver. }
  destruct out as [[frame|]|e].
  - apply set_queue_wf; [apply Hw'|]. apply record_event_wf; [done|]. by apply set_metrics_wf.
  - by apply metrics_state_wf.
  - apply record_event_wf; [|by apply metrics_state_wf]. simpl.
    by eapply chunk_error_clean, push_chunk_err.
Qed.

Lemma task_event_wf now key ev h : hub_wf h → hub_wf (task_event now key ev h).
Proof.
  intros Hw. unfold task_event. destruct (dh_tasks h !! key) as [r|] eqn:Ht; [|done].
  assert (key ∈ dh_channel_keys h) as Hk
    by (apply (hw_tasks h Hw), elem_of_dom; by exists r).
  assert (key.1 = dh_label h) as Hl by (by apply (hw_keys h Hw)).
  destruct ev; try (by auto using on_open_wf, on_message_wf, metrics_state_wf);
    rewrite on_gone_eq; (apply record_event_wf; [|by apply detach_wf]); try done.
  simpl. unfold free_of_secrets, secret_markers. repeat constructor; vm_compute; reflexivity.
Qed.

Lemma mark_unavailable_wf state h : hub_wf h → hub_wf (mark_unavailable state h).
Proof. intros Hw. apply (flags_wf (dh_open h) false true true state h); try done. apply Hw. Qed.

Lemma set_peer_state_wf display state h :
  hub_wf h → hub_wf (set_peer_connection_state display state h).
Proof.
  intros Hw. destruct state; simpl; auto using mark_unavailable_wf.
  destruct (dh_terminal h) eqn:Ht; [done|].
  eapply (flags_wf (dh_open h) true (if dh_open h then false else dh_unavailable h) false);
    simpl; try done; [apply Hw|]. by destruct (dh_open h).
Qed.

Lemma close_all_wf env now h : hub_wf h → hub_wf (close_all env now h).1.
Proof.
  intros Hw. unfold close_all. destruct (close_channels env (dh_channels h)); [|done].
  apply record_event_wf; [done|]. destruct Hw. split; simpl; done || set_solver.
Qed.

Lemma hub_event_wf h e : hub_wf h → hub_wf (hub_event h e).
Proof.
  destruct e; simpl; auto using hub_attach_wf, task_event_wf, end_task_wf, set_peer_state_wf,
    mark_unavailable_wf, close_all_wf.
Qed.

Lemma hub_events_wf es h : hub_wf h → hub_wf (foldl hub_event h es).
Proof. revert h. induction es; simpl; auto using hub_event_wf. Qed.

Lemma wait_open_wf now wakes h : hub_wf h → hub_wf (wait_open now wakes h).1.
Proof.
  revert h. induction wakes as [|es wakes IH]; intros h Hw; simpl; repeat case_match; try done.
  - apply record_event_wf; [|done]. simpl. unfold free_of_secrets, secret_markers.
    repeat constructor; vm_compute; reflexivity.
  - by apply IH, hub_events_wf.
Qed.

Lemma send_on_wf env now frame ms h : hub_wf h → hub_wf (send_on env now frame ms h).1.1.
Proof.
  intros Hw. unfold send_on. destruct (select_channel _ _ _) as [[id|]|e]; [|done..].
  destruct (send_messages env id 0 ms) as [sent [u|e]]; [|done].
  apply record_event_wf; [done|]. by apply set_metrics_wf.
Qed.

Lemma hub_send_wf env now wakes frame h : hub_wf h → hub_wf (hub_send env now wakes frame h).1.1.
Proof.
  intros Hw. unfold hub_send.
  set (h0 := set_queue _ _ h). assert (hub_wf h0) as Hw0 by (apply set_queue_wf; [by apply N.mod_lt|done]).
  destruct (encode_data_channel_wire_messages _ frame); [|done].
  pose proof (wait_open_wf now wakes h0 Hw0) as Hw1.
  destruct (wait_open now wakes h0) as [h1 [u|e]]; [|done].
  destruct (is_usable h1); [|done]. by apply send_on_wf.
Qed.

Lemma hub_recv_wf h : hub_wf h → hub_wf (hub_recv h).1.
Proof. intros Hw. unfold hub_recv. repeat case_match; try done. apply set_queue_wf; [apply Hw|done]. Qed.

Lemma hub_call_wf s c : hub_wf s.1 → hub_wf (hub_call s c).1.
Proof.
  destruct s as [h wire]. intros Hw. destruct c; simpl.
  - by apply hub_event_wf.
  - pose proof (hub_send_wf env now wakes frame h Hw).
    by destruct (hub_send env now wakes frame h) as [[h' sent] res].
  - by apply wait_open_wf.
  - by apply hub_recv_wf.
Qed.

Lemma hub_run_wf calls s : hub_wf s.1 → hub_wf (hub_run calls s).1.
Proof. revert s. induction calls; simpl; auto using hub_call_wf. Qed.

(** *** A hub that has ended *)

Lemma on_open_terminal now key h : dh_terminal (on_open now key h) = dh_terminal h.
Proof. unfold on_open, mark_data_channel_open. by case_bool_decide. Qed.

Lemma on_message_terminal now key r data h :
  dh_terminal (on_message now key r data h) = dh_terminal h.
Proof. unfold on_message. by destruct (reassembler_push r data) as [r' [[f|]|e]]. Qed.

Lemma hub_event_terminal h e : dh_terminal h = true → dh_terminal (hub_event h e) = true.
Proof.
  intros Ht. destruct e as [now label id|now key ev|key|display state|state|env now]; simpl.
  - unfold hub_attach. by repeat case_bool_decide.
  - unfold task_event. destruct (dh_tasks h !! key) as [r|]; [|done].
    destruct ev; try done; by rewrite ?on_open_terminal, ?on_message_terminal.
  - done.
  - by destruct state; simpl; rewrite ?Ht.
  - done.
  - unfold close_all. by destruct (close_channels env (dh_channels h)).
Qed.

Lemma wait_open_terminal now wakes h :
  hub_wf h → dh_terminal h = true → wait_open now wakes h = (h, Err unavailable_error).
Proof.
  intros Hw Ht. pose proof (hw_terminal h Hw Ht) as Hu.
  assert (is_usable h = false) as Hus by (unfold is_usable; by rewrite Ht).
  by destruct wakes; simpl; rewrite Hus, Hu.
Qed.

Lemma hub_call_terminal s c :
  hub_wf s.1 → dh_terminal s.1 = true →
  dh_terminal (hub_call s c).1 = true ∧ (hub_call s c).2 = s.2.
Proof.
  destruct s as [h wire]. intros Hw Ht. simpl in *.
  destruct c as [e|env now wakes frame|now wakes|]; simpl.
  - split; [by apply hub_event_terminal|done].
  - unfold hub_send. destruct (encode_data_channel_wire_messages _ frame);
      [|simpl; by rewrite app_nil_r].
    rewrite wait_open_terminal; [simpl; by rewrite app_nil_r| |done].
    apply set_queue_wf; [by apply N.mod_lt|done].
  - by rewrite wait_open_terminal.
  - unfold hub_recv. by rewrite (hw_terminal h Hw Ht).
Qed.

Lemma hub_run_terminal calls s :
  hub_wf s.1 → dh_terminal s.1 = true →
  dh_terminal (hub_run calls s).1 = true ∧ (hub_run calls s).2 = s.2.
Proof.
  revert s. induction calls as [|c calls IH]; intros s Hw Ht; simpl; [done|].
  destruct (hub_call_terminal s c Hw Ht) as [Ht' <-].
  apply IH; [by apply hub_call_wf|done].
Qed.

(** *** From one hub to the other *)

Lemma send_messages_ok env id i ms sent u :
  send_messages env id i ms = (sent, Ok u) → sent = ms.
Proof.
  revert i sent. induction ms as [|m ms IH]; intros i sent; simpl; [by intros [= <- <-]|].
  destruct (channel_send env id i m); [|done].
  destruct (send_messages env id (S i) ms) as [sent' res] eqn:E. intros [= <- ->].
  f_equal. by eapply IH.
Qed.

Lemma hub_send_ok env now wakes frame h h' sent u :
  hub_send env now wakes frame h = (h', sent, Ok u) →
  encode_data_channel_wire_messages (dh_next_frame_id h) frame = Ok sent.
Proof.
  unfold hub_send. destruct (encode_data_channel_wire_messages _ frame) as [ms|]; [|done].
  destruct (wait_open now wakes _) as [h1 [v|]]; [|done]. destruct (is_usable h1); [|done]. simpl.
  unfold send_on. destruct (select_channel _ _ _) as [[id|]|]; [|done..].
  destruct (send_messages env id 0 ms) as [sent' [w|]] eqn:E; [|done].
  intros [= _ <- _]. by rewrite (send_messages_ok _ _ _ _ _ _ E).
Qed.

(** Frames sent one after the other, with what is handed to the channel. *)
Fixpoint send_all (env : ChannelEnv) (now : Z) (frames : list bytes) (h : DataChannelHub) :
    DataChannelHub * list bytes * list (result unit TransportError) :=
  match frames with
  | [] => (h, [], [])
  | frame :: rest =>
      let '(h1, sent, res) := hub_send env now [] frame h in
      let '(h2, sents, ress) := send_all env now rest h1 in (h2, sent ++ sents, res :: ress)
  end.

(** The channel delivers messages in order to the reader task of the other side. *)
Definition deliver_messages (now : Z) (key : ChannelKey) (ms : list bytes) (h : DataChannelHub) :
  DataChannelHub := foldl (λ h m, task_event now key (OnMessage m) h) h ms.

Lemma on_message_step now key r data h :
  let h' := on_message now key r data h in
  dh_tasks h' !! key = Some (reassembler_push r data).1
  ∧ dh_inbound h' = dh_inbound h ++ handed_over [(reassembler_push r data).2].
Proof.
  unfold on_message. destruct (reassembler_push r data) as [r' [[f|]|e]]; simpl;
    rewrite lookup_insert_eq, ?app_nil_r; done.
Qed.

Lemma deliver_messages_inbound now key ms h r :
  dh_tasks h !! key = Some r →
  let h' := deliver_messages now key ms h in
  dh_tasks h' !! key = Some (reassemble r ms).1
  ∧ dh_inbound h' = dh_inbound h ++ handed_over (reassemble r ms).2.
Proof.
  revert h r. induction ms as [|m ms IH]; intros h r Hr; [simpl; by rewrite app_nil_r|].
  change (deliver_messages now key (m :: ms) h)
    with (deliver_messages now key ms (task_event now key (OnMessage m) h)).
  assert (task_event now key (OnMessage m) h = on_message now key r m h) as ->
    by (unfold task_event; by rewrite Hr).
  cbn [reassemble]. destruct (on_message_step now key r m h) as [Ht Hi].
  destruct (reassembler_push r m) as [r1 out]. cbn [fst snd] in Ht, Hi.
  destruct (IH _ _ Ht) as [Ht' Hi'].
  destruct (reassemble r1 ms) as [r2 outs]. cbn [fst snd] in *. split; [done|].
  rewrite Hi', Hi, <- app_assoc. f_equal. symmetry. exact (handed_over_app [out] outs).
Qed.

Lemma send_all_encoded env now frames h h' wire ress :
  hub_wf h → send_all env now frames h = (h', wire, ress) → Forall is_ok ress →
  ∃ ids wires, length ids = length frames ∧ Forall (λ i, i < 2 ^ 64) ids ∧ wire = concat wires
    ∧ Forall2 (λ e ms, encode_data_channel_wire_messages e.1 e.2 = Ok ms) (zip ids frames) wires.
Proof.
  revert h h' wire ress. induction frames as [|frame frames IH]; intros h h' wire ress Hw; simpl.
  { intros [= <- <- <-] _. exists [], []. split_and!; done || constructor. }
  destruct (hub_send env now [] frame h) as [[h1 sent] res] eqn:Es.
  destruct (send_all env now frames h1) as [[h2 sents] ress'] eqn:Er.
  intros [= <- <- <-]. inversion_clear 1 as [|? ? Hok Hoks].
  destruct res as [u|]; [|done]. pose proof (hub_send_wf env now [] frame h Hw) as Hw1.
  rewrite Es in Hw1. destruct (IH _ _ _ _ Hw1 Er Hoks) as (ids & wires & Hl & Hids & -> & Hf).
  exists (dh_next_frame_id h :: ids), (sent :: wires). simpl. split_and!; try done.
  - by f_equal.
  - constructor; [apply Hw|done].
  - constructor; [|done]. by eapply hub_send_ok.
Qed.

Lemma encode_encodable id frame ms :
  encode_data_channel_wire_messages id frame = Ok ms → encodable frame.
Proof.
  unfold encode_data_channel_wire_messages. intros H.
  apply rbind_ok in H as (u & H1%reject_if_ok%bool_decide_eq_false & H).
  apply rbind_ok in H as (v & H2%reject_if_ok%N.ltb_ge & _). done.
Qed.

(** ** Properties *)


(** The end of a hub is final: once the peer connection failed, closed or was torn down,
    no later sequence of events and calls makes it usable, hands a byte to a channel, or
    returns a frame. *)
Theorem ended_hub_is_silent label calls later :
  let s := hub_run calls (hub_new label, []) in
  dh_terminal s.1 = true →
  let s' := hub_run later s in
  s'.2 = s.2 ∧ is_usable s'.1 = false ∧ hub_recv s'.1 = (s'.1, Some (Err unavailable_error)).
Proof.
  intros s Ht s'.
  pose proof (hub_run_wf calls (hub_new label, []) (hub_new_wf label)) as Hw. fold s in Hw.
  destruct (hub_run_terminal later s Hw Ht) as [Ht' Hs]. fold s' in Ht', Hs.
  pose proof (hub_run_wf later s Hw) as Hw'. fold s' in Hw'. split_and!; [done| |].
  - unfold is_usable. by rewrite Ht'.
  - unfold hub_recv. by rewrite (hw_terminal _ Hw' Ht').
Qed.


(** ** Witnesses *)

Section witnesses.
Let env : ChannelEnv := {|
  ready_is_open := λ _, Ok true; channel_send := λ _ _ _, Ok tt; channel_close := λ _, Ok tt
|}.
Let key : ChannelKey := ("control"%string, 5).
Let connect : list HubCall :=
  [CallEvent (EvAttach 0 None 5); CallEvent (EvTask 1 key OnOpen);
   CallEvent (EvPeerState (λ _, "connected"%string) PcConnected)].
Let hub : DataChannelHub := (hub_run connect (hub_new "control", [])).1.

Lemma ended_hub_is_silent_witness :
  (hub_run [CallSend env 9 [] [1]; CallEvent (EvTask 9 key OnOpen)]
     (hub_run (connect ++ [CallEvent (EvUnavailable "closed")]) (hub_new "control", []))).2 = [].
Proof.
  assert (dh_terminal (hub_run (connect ++ [CallEvent (EvUnavailable "closed")])
                         (hub_new "control", [])).1 = true) as H by (vm_compute; reflexivity).
  exact (proj1 (ended_hub_is_silent "control" _
                  [CallSend env 9 [] [1]; CallEvent (EvTask 9 key OnOpen)] H)).
Defined.

End witnesses.
