(* ===== verification/IcePolicy.v ===== *)
(** * ICE endpoint policies and TURN credentials

    [crates/transport/src/ice.rs]: the STUN and TURN servers an invite or a group allows,
    their validation, the precedence of the group over the invite, the bytes an invite signs,
    and the issuer of short-lived TURN credentials. *)

From S2P Require Import Prelude Collections Bytes Framing StrOps Crypto Transport.

(** ** Types *)

Record TurnServerConfig := {
  tu_endpoint : Endpoint;
  tu_username : option string;
  tu_credential : option string;
  tu_credential_expires_at : option string
}.

Record IceEndpointPolicy := {
  ip_stun_servers : list Endpoint;
  ip_turn_servers : list TurnServerConfig
}.

Record IceServerConfig := {
  is_stun_servers : list Endpoint;
  is_turn_servers : list TurnServerConfig
}.

Inductive TurnCredentialMode :=
| Unauthenticated
| Configured
| Ephemeral (expires_at : string).

Record TurnCredentialIssuerConfig := {
  public_turn_endpoint : Endpoint;
  turn_realm : string;
  static_auth_secret : bytes;
  turn_ttl_seconds : N;
  username_prefix : option string
}.

Inductive EndpointKind := KindStun | KindTurn.

Definition ice_error {A} (detail : string) : result A TransportError :=
  Err (InvalidIcePolicy detail).

(** ** Validation *)

Definition validate_endpoint (value : Endpoint) (kind : EndpointKind) :
    result unit TransportError :=
  check reject_if
    (bool_decide (value = ""%string) || negb (bool_decide (trim value = value))
     || (512 <? str_len value) || contains_space (as_bytes value))
    (InvalidIcePolicy "ICE endpoint must be non-empty, trimmed, and whitespace-free") in
  let valid_scheme :=
    match kind with
    | KindStun => starts_with "stun:" value || starts_with "stuns:" value
    | KindTurn => starts_with "turn:" value || starts_with "turns:" value
    end in
  if valid_scheme then Ok tt
  else ice_error ("unsupported ICE endpoint scheme: " +:+ value).

Definition credentials_declared (t : TurnServerConfig) : bool :=
  bool_decide (is_Some (tu_username t)) || bool_decide (is_Some (tu_credential t))
  || bool_decide (is_Some (tu_credential_expires_at t)).

Definition validate_credential_shape (t : TurnServerConfig) : result unit TransportError :=
  if negb (credentials_declared t) then Ok tt
  else
    let paired := ice_error "TURN username and credential must be provided together" in
    match tu_username t, tu_credential t with
    | Some username, Some credential =>
        if negb (is_blank username) && negb (is_blank credential) then Ok tt else paired
    | _, _ => paired
    end.

Definition turn_server_validate (t : TurnServerConfig) : result unit TransportError :=
  check validate_endpoint (tu_endpoint t) KindTurn in validate_credential_shape t.

(** [for x in &list { f(x)?; }] *)
Fixpoint each {A E} (f : A → result unit E) (l : list A) : result unit E :=
  match l with
  | [] => Ok tt
  | x :: r => check f x in each f r
  end.

Definition ice_validate (p : IceEndpointPolicy) : result unit TransportError :=
  check reject_if
    (bool_decide (ip_stun_servers p = []) && (bool_decide (length (ip_turn_servers p) = 0%nat)))
    (InvalidIcePolicy "at least one STUN server or configured TURN server is required") in
  check each (λ e, validate_endpoint e KindStun) (ip_stun_servers p) in
  each turn_server_validate (ip_turn_servers p).

Definition ice_new (stun : list Endpoint) (turn : list TurnServerConfig) :
    result IceEndpointPolicy TransportError :=
  let p := {| ip_stun_servers := stun; ip_turn_servers := turn |} in
  check ice_validate p in Ok p.

Definition ice_default_production : IceEndpointPolicy :=
  {| ip_stun_servers := ["stun:stun.l.google.com:19302"%string]; ip_turn_servers := [] |}.

Definition ice_server_new (stun : list Endpoint) (turn : list TurnServerConfig) :
    result IceServerConfig TransportError :=
  let* p := ice_new stun turn in
  Ok {| is_stun_servers := ip_stun_servers p; is_turn_servers := ip_turn_servers p |}.

Definition host_only : IceServerConfig := {| is_stun_servers := []; is_turn_servers := [] |}.

(** [group.filter(|p| !field(p).is_empty()).map(field).unwrap_or(fallback)] *)
Definition override {A} (field : IceEndpointPolicy → list A)
    (group : option IceEndpointPolicy) (fallback : list A) : list A :=
  match group with
  | Some g => match field g with [] => fallback | l => l end
  | None => fallback
  end.

Definition ice_resolve (invite_policy group_policy : option IceEndpointPolicy) :
    result IceServerConfig TransportError :=
  let invite := default ice_default_production invite_policy in
  check ice_validate invite in
  check (match group_policy with Some g => ice_validate g | None => Ok tt end) in
  ice_server_new
    (override ip_stun_servers group_policy (ip_stun_servers invite))
    (override ip_turn_servers group_policy (ip_turn_servers invite)).

Definition to_connectivity_config (c : IceServerConfig) : ConnectivityConfig := {|
  default_stun := default_stun ConnectivityConfig_default;
  default_turn := default_turn ConnectivityConfig_default;
  overrides := {| eo_stun := head (is_stun_servers c);
                  eo_turn := tu_endpoint <$> head (is_turn_servers c) |}
|}.

(** ** Signed bytes *)

Definition push_optional_string : option string → bytes := optional framed_str.

Definition turn_server_bytes (t : TurnServerConfig) : bytes :=
  framed_str (tu_endpoint t) ++ push_optional_string (tu_username t)
  ++ push_optional_string (tu_credential t)
  ++ push_optional_string (tu_credential_expires_at t).

Definition ice_signing_bytes (p : IceEndpointPolicy) : bytes :=
  as_bytes "discrypt-ice-endpoint-policy-v1"
  ++ counted_list framed_str (ip_stun_servers p)
  ++ counted_list turn_server_bytes (ip_turn_servers p).

Section credentials.
Context `{HmacSha1, Base64, Rfc3339}.

(** ** Time-limited credentials *)

Definition parsed_credential_expiry (t : TurnServerConfig) :
    result (option datetime) TransportError :=
  match tu_credential_expires_at t with
  | None => Ok None
  | Some value =>
      match dt_parse_rfc3339 value with
      | Some e => Ok (Some e)
      | None => ice_error "TURN credential expiry must be RFC3339"
      end
  end.

Definition credential_mode_at (t : TurnServerConfig) (now : datetime) :
    result TurnCredentialMode TransportError :=
  check turn_server_validate t in
  if negb (credentials_declared t) then Ok Unauthenticated
  else
    let* expiry := parsed_credential_expiry t in
    match expiry with
    | Some expires_at =>
        if dt_le expires_at now then ice_error "TURN credential expired"
        else Ok (Ephemeral (dt_to_rfc3339 expires_at))
    | None => Ok Configured
    end.

Definition turn_validate_credentials_at (now : datetime) (t : TurnServerConfig) :
    result unit TransportError :=
  check credential_mode_at t now in Ok tt.

Definition ice_validate_at (p : IceEndpointPolicy) (now : datetime) :
    result unit TransportError :=
  check ice_validate p in each (turn_validate_credentials_at now) (ip_turn_servers p).

Definition server_validate_credentials_at (c : IceServerConfig) (now : datetime) :
    result unit TransportError := each (turn_validate_credentials_at now) (is_turn_servers c).

Definition ice_resolve_at (invite group : option IceEndpointPolicy) (now : datetime) :
    result IceServerConfig TransportError :=
  let* config := ice_resolve invite group in
  check server_validate_credentials_at config now in Ok config.

Definition to_connectivity_config_at (c : IceServerConfig) (now : datetime) :
    result ConnectivityConfig TransportError :=
  check server_validate_credentials_at c now in Ok (to_connectivity_config c).

(** ** The credential issuer *)

Definition issuer_validate (c : TurnCredentialIssuerConfig) : result unit TransportError :=
  check validate_endpoint (public_turn_endpoint c) KindTurn in
  check reject_if
    (is_blank (turn_realm c) || negb (bool_decide (trim (turn_realm c) = turn_realm c))
     || contains_space (as_bytes (turn_realm c)))
    (InvalidIcePolicy "TURN realm must be non-empty, trimmed, and whitespace-free") in
  check reject_if (len (static_auth_secret c) <? 32)
    (InvalidIcePolicy "TURN static auth secret must be at least 32 bytes") in
  check reject_if (negb ((60 <=? turn_ttl_seconds c) && (turn_ttl_seconds c <=? 86400)))
    (InvalidIcePolicy "TURN credential TTL must be between 60 and 86400 seconds") in
  match username_prefix c with
  | Some prefix =>
      reject_if
        (negb (bool_decide (trim prefix = prefix)) || contains_space (as_bytes prefix))
        (InvalidIcePolicy "TURN username prefix must be trimmed and whitespace-free")
  | None => Ok tt
  end.

Definition issuer_new (c : TurnCredentialIssuerConfig) :
    result TurnCredentialIssuerConfig TransportError :=
  check issuer_validate c in Ok c.

Definition is_token_char (x : N) : bool :=
  is_ascii_alphanumeric x || (x =? 45) || (x =? 95) || (x =? 46).

Definition sanitized_turn_subject (subject : string) : result string TransportError :=
  let trimmed := trim subject in
  check reject_if (bool_decide (trimmed = ""%string))
    (InvalidIcePolicy "TURN credential subject is required") in
  check reject_if (96 <? str_len trimmed)
    (InvalidIcePolicy "TURN credential subject is too long") in
  check reject_if (negb (forallb is_token_char (as_bytes trimmed)))
    (InvalidIcePolicy "TURN credential subject must be opaque ASCII token characters") in
  Ok trimmed.

(** [None] when adding the lifetime overflows the calendar, which panics. *)
Definition issue_for_subject (c : TurnCredentialIssuerConfig) (subject : string)
    (now : datetime) : option (result TurnServerConfig TransportError) :=
  match sanitized_turn_subject subject with
  | Err e => Some (Err e)
  | Ok subject =>
      ttl ← td_seconds (Z.of_N (turn_ttl_seconds c));
      expires_at ← dt_add now ttl;
      let expiry := pretty (dt_timestamp expires_at) in
      let username :=
        match username_prefix c with
        | Some prefix =>
            if bool_decide (prefix = ""%string) then expiry +:+ ":" +:+ subject
            else expiry +:+ ":" +:+ prefix +:+ ":" +:+ subject
        | None => expiry +:+ ":" +:+ subject
        end in
      Some (match hmac_sha1 (static_auth_secret c) (as_bytes username) with
            | None => ice_error "TURN static auth secret invalid"
            | Some tag =>
                Ok {| tu_endpoint := public_turn_endpoint c;
                      tu_username := Some username;
                      tu_credential := Some (b64_encode tag);
                      tu_credential_expires_at := Some (dt_to_rfc3339 expires_at) |}
            end)
  end.

End credentials.

(** ** Lemmas *)

Lemma each_ok {A E} (f : A → result unit E) l : each f l = Ok tt ↔ Forall (λ x, f x = Ok tt) l.
Proof.
  induction l as [|x l IH]; simpl; [done|]. rewrite Forall_cons.
  destruct (f x) as [[]|]; simpl; naive_solver.
Qed.

Lemma ice_validate_ok p :
  ice_validate p = Ok tt ↔
  (ip_stun_servers p ≠ [] ∨ ip_turn_servers p ≠ []) ∧
  Forall (λ e, validate_endpoint e KindStun = Ok tt) (ip_stun_servers p) ∧
  Forall (λ t, turn_server_validate t = Ok tt) (ip_turn_servers p).
Proof.
  unfold ice_validate, reject_if. rewrite <- !each_ok.
  destruct (ip_stun_servers p) as [|e l]; [|set (k := each (λ e, validate_endpoint e KindStun) (e :: l))];
    destruct (ip_turn_servers p) as [|t r]; cbn [length andb bool_decide]; simpl.
  - split; [done|naive_solver].
  - naive_solver.
  - destruct k as [[]|]; simpl; naive_solver.
  - destruct k as [[]|]; simpl; naive_solver.
Qed.

Lemma override_ok {A} (field : IceEndpointPolicy → list A) (P : A → Prop) group fallback :
  (∀ g, group = Some g → Forall P (field g)) → Forall P fallback →
  Forall P (override field group fallback).
Proof.
  intros Hg Hf. destruct group as [g|]; simpl; [|done].
  destruct (field g) eqn:E; [done|]. rewrite <- E. by apply Hg.
Qed.

Lemma override_nonempty {A} (field : IceEndpointPolicy → list A) group fallback :
  fallback ≠ [] → override field group fallback ≠ [].
Proof. intros. destruct group as [g|]; simpl; [|done]. by destruct (field g). Qed.

#[export] Instance sd_turn_server :
  SelfDelim (λ t, str_fits (tu_endpoint t) ∧ opt_fits str_fits (tu_username t) ∧
    opt_fits str_fits (tu_credential t) ∧ opt_fits str_fits (tu_credential_expires_at t))
    turn_server_bytes.
Proof.
  intros [e1 u1 c1 x1] [e2 u2 c2 x2] r s (?&?&?&?) (?&?&?&?) Heq.
  unfold turn_server_bytes, push_optional_string in Heq.
  cbn [tu_endpoint tu_username tu_credential tu_credential_expires_at] in *.
  peel Heq. peel Heq. peel Heq. peel Heq. done.
Qed.

Definition turn_fits (t : TurnServerConfig) : Prop :=
  str_fits (tu_endpoint t) ∧ opt_fits str_fits (tu_username t) ∧
  opt_fits str_fits (tu_credential t) ∧ opt_fits str_fits (tu_credential_expires_at t).

(** Every string and list is shorter than [2^64]. *)
Definition ice_fits (p : IceEndpointPolicy) : Prop :=
  list_fits str_fits (ip_stun_servers p) ∧ list_fits turn_fits (ip_turn_servers p).

#[export] Instance sd_ice : SelfDelim ice_fits ice_signing_bytes.
Proof.
  intros [s1 t1] [s2 t2] r s [? ?] [? ?] Heq. unfold ice_signing_bytes in Heq.
  cbn [ip_stun_servers ip_turn_servers ice_fits] in *.
  peel Heq. peel Heq. peel Heq. done.
Qed.

(** ** Properties *)

(** Precedence: resolution succeeds exactly when the invite policy (the production
    default when there is none) and the group policy are valid on their own, and then each
    kind of server comes from the group where the group names any and from the invite
    otherwise; the resolved configuration is itself a valid policy, so the final check of the
    merged lists never rejects. *)
Theorem ice_resolve_precedence invite group c :
  let i := default ice_default_production invite in
  ice_resolve invite group = Ok c ↔
  ice_validate i = Ok tt ∧ (∀ g, group = Some g → ice_validate g = Ok tt) ∧
  c = {| is_stun_servers := override ip_stun_servers group (ip_stun_servers i);
         is_turn_servers := override ip_turn_servers group (ip_turn_servers i) |}.
Proof.
  intros i. unfold ice_resolve. fold i.
  destruct (ice_validate i) as [[]|e] eqn:Hi; cbn [rbind]; [|naive_solver].
  destruct (match group with Some g => ice_validate g | None => Ok tt end) as [[]|e] eqn:Hg;
    cbn [rbind]; [|split; [done|intros (_ & Hv & _)]].
  2:{ destruct group as [g|]; [|done]. by rewrite (Hv g) in Hg. }
  assert (∀ g, group = Some g → ice_validate g = Ok tt) as Hg' by (by intros g ->).
  assert (ice_validate {| ip_stun_servers := override ip_stun_servers group (ip_stun_servers i);
    ip_turn_servers := override ip_turn_servers group (ip_turn_servers i) |} = Ok tt) as Hm.
  { apply ice_validate_ok. simpl. apply ice_validate_ok in Hi as (Hne & Hs & Ht). split_and!.
    - destruct Hne; [left|right]; by apply override_nonempty.
    - apply override_ok; [|done]. intros g Hgg%Hg'. by apply ice_validate_ok in Hgg as (_ & ? & _).
    - apply override_ok; [|done]. intros g Hgg%Hg'. by apply ice_validate_ok in Hgg as (_ & _ & ?). }
  unfold ice_server_new, ice_new. rewrite Hm. cbn [rbind ip_stun_servers ip_turn_servers].
  naive_solver.
Qed.

Section credential_properties.
Context `{HmacSha1Laws, Base64Laws, ChronoLaws}.
Context {Hrfc : Rfc3339} {Hrfcl : Rfc3339Laws}.

Lemma issuer_validate_endpoint c :
  issuer_validate c = Ok tt → validate_endpoint (public_turn_endpoint c) KindTurn = Ok tt.
Proof. unfold issuer_validate. by destruct (validate_endpoint _ _) as [[]|]. Qed.

Lemma hmac_credential_not_blank key m tag :
  hmac_sha1 key m = Some tag → is_blank (b64_encode tag) = false.
Proof.
  intros Ht. destruct (hmac_sha1_some key m) as (t & Ht' & Hlen). rewrite Ht in Ht'.
  injection Ht' as <-. assert (b64_encode tag ≠ ""%string) as Hne.
  { apply b64_encode_nonempty. by intros ->. }
  destruct (b64_encode tag) as [|a r] eqn:E; [done|].
  apply (not_blank_printable _ (Ascii.N_of_ascii a)); [left|].
  apply (b64_encode_ascii tag). rewrite E. left.
Qed.

Lemma colon_not_blank (a b : string) : is_blank (a +:+ ":" +:+ b) = false.
Proof.
  apply (not_blank_printable _ 58); [|done]. rewrite !as_bytes_app. set_solver.
Qed.

(** Issued TURN credentials: for a validated issuer and a token subject, a credential
    that is issued names the configured server, has username and password filled in, and is
    accepted as ephemeral at every instant before [now + ttl] and rejected as expired from
    that instant on. *)
Theorem issued_credential_lifetime c subject now t :
  issuer_validate c = Ok tt →
  issue_for_subject c subject now = Some (Ok t) →
  (∀ e, dt_nanos e = (dt_nanos now + Z.of_N (turn_ttl_seconds c) * 1000000000)%Z →
        four_digit_year e) →
  tu_endpoint t = public_turn_endpoint c ∧
  ∀ at_,
    if (dt_nanos now + Z.of_N (turn_ttl_seconds c) * 1000000000 <=? dt_nanos at_)%Z
    then credential_mode_at t at_ = Err (InvalidIcePolicy "TURN credential expired")
    else ∃ text, credential_mode_at t at_ = Ok (Ephemeral text).
Proof.
  intros Hc Hi Hyear. apply issuer_validate_endpoint in Hc. unfold issue_for_subject in Hi.
  destruct (sanitized_turn_subject subject) as [sub|]; [|done].
  apply bind_Some in Hi as (ttl & Httl & Hi). apply bind_Some in Hi as (expires & Hexp & Hi).
  apply td_seconds_some in Httl. apply dt_add_nanos in Hexp. rewrite Httl in Hexp.
  set (username := match username_prefix c with Some _ => _ | None => _ end) in Hi.
  assert (is_blank username = false) as Hu.
  { subst username. destruct (username_prefix c) as [p|]; [case_bool_decide|];
      apply colon_not_blank. }
  destruct (hmac_sha1 _ _) as [tag|] eqn:Ht; simplify_eq/=. split; [done|]. intros at_.
  unfold credential_mode_at, turn_server_validate. cbn [tu_endpoint]. rewrite Hc. cbn [rbind].
  unfold validate_credential_shape, parsed_credential_expiry.
  cbn [tu_username tu_credential tu_credential_expires_at credentials_declared].
  rewrite Hu, (hmac_credential_not_blank _ _ _ Ht). cbn.
  destruct (dt_parse_to_rfc3339 expires (Hyear _ Hexp)) as (e & -> & He). cbn.
  unfold dt_le. rewrite He, Hexp. destruct (Z.leb_spec (dt_nanos now + Z.of_N (turn_ttl_seconds c) * 1000000000) (dt_nanos at_)); eauto.
Qed.

End credential_properties.

Section witnesses.
#[local] Existing Instance Toy.toy_hmac.
#[local] Existing Instance Toy.toy_hmac_laws.
#[local] Existing Instance Toy.toy_b64.
#[local] Existing Instance Toy.toy_b64_laws.
#[local] Existing Instance Toy.toy_chrono.
#[local] Existing Instance Toy.toy_chrono_laws.
#[local] Existing Instance Toy.toy_rfc3339.
#[local] Existing Instance Toy.toy_rfc3339_laws.

Definition toy_issuer : TurnCredentialIssuerConfig := {|
  public_turn_endpoint := "turns:turn.example:5349";
  turn_realm := "realm";
  static_auth_secret := replicate 32 7;
  turn_ttl_seconds := 60;
  username_prefix := None
|}.

Definition toy_turn : TurnServerConfig :=
  match issue_for_subject toy_issuer "dev-1" (0%Z : @datetime Toy.toy_chrono) with
  | Some (Ok t) => t
  | _ => {| tu_endpoint := ""; tu_username := None; tu_credential := None;
            tu_credential_expires_at := None |}
  end.

Lemma issued_credential_lifetime_witness :
  tu_endpoint toy_turn = "turns:turn.example:5349"%string ∧
  ∀ at_ : @datetime Toy.toy_chrono,
    if (60000000000 <=? dt_nanos at_)%Z
    then credential_mode_at toy_turn at_ = Err (InvalidIcePolicy "TURN credential expired")
    else ∃ text, credential_mode_at toy_turn at_ = Ok (Ephemeral text).
Proof.
  apply (issued_credential_lifetime toy_issuer "dev-1" (0%Z : @datetime Toy.toy_chrono)).
  - vm_compute. reflexivity.
  - vm_compute. reflexivity.
  - intros e He. unfold four_digit_year. rewrite He. simpl. lia.
Defined.

End witnesses.
