(* ===== verification/ConnPolicy.v ===== *)
(** * Connectivity policies

    [crates/transport/src/policy.rs]: the signaling adapters and ICE profile a scope (app,
    direct message, group, channel, invite) uses, their validation, the precedence between
    scopes, and the rendezvous topics derived for providers. *)

From S2P Require Import Prelude Collections Bytes Framing StrOps Crypto Transport IcePolicy.

(** ** Enumerations *)

Inductive SignalingAdapterKind := KMqtt | KNostr | KIpfsPubsub | KQuicRendezvous.

#[export] Instance SignalingAdapterKind_eq_dec : EqDecision SignalingAdapterKind.
Proof. solve_decision. Defined.

Definition kind_canonical_name (k : SignalingAdapterKind) : string :=
  match k with
  | KMqtt => "mqtt"
  | KNostr => "nostr"
  | KIpfsPubsub => "ipfs_pubsub"
  | KQuicRendezvous => "discrypt_quic_rendezvous"
  end.

Inductive ConnectivityScopeLevel :=
| LevelAppDefault | LevelDm | LevelGroup | LevelChannel | LevelInviteBootstrap.

#[export] Instance ConnectivityScopeLevel_eq_dec : EqDecision ConnectivityScopeLevel.
Proof. solve_decision. Defined.

Definition level_name (l : ConnectivityScopeLevel) : string :=
  match l with
  | LevelAppDefault => "app_default"
  | LevelDm => "dm"
  | LevelGroup => "group"
  | LevelChannel => "channel"
  | LevelInviteBootstrap => "invite_bootstrap"
  end.

Inductive ProviderMetadataPosture := HashedTopic | RandomTopic | EpochRotatingTopic.

Inductive AdapterFallbackBehavior := TryAll | FirstHealthy | ManualOnly.

#[export] Instance AdapterFallbackBehavior_eq_dec : EqDecision AdapterFallbackBehavior.
Proof. solve_decision. Defined.

Inductive SignalingEndpointSecurity := SecProductionTls | SecLocalDevLoopback | SecSelfHosted.

Definition policy_error {A} (detail : string) : result A TransportError :=
  Err (InvalidConnectivityPolicy detail).

Definition reject_policy (fails : bool) (detail : string) : result unit TransportError :=
  reject_if fails (InvalidConnectivityPolicy detail).

(** ** Field validators *)

Definition validate_commitment (value : string) : result unit TransportError :=
  reject_policy
    (negb (str_len value =? 64) || negb (forallb is_ascii_hexdigit (as_bytes value)))
    "scope and endpoint commitments must be 64 hex characters".

Definition validate_profile_id (value : string) : result unit TransportError :=
  reject_policy
    (bool_decide (value = ""%string) || (96 <? str_len value)
     || negb (bool_decide (trim value = value)) || negb (forallb is_token_char (as_bytes value)))
    "profile ids must be trimmed ASCII token strings".

Definition validate_endpoint_text (value : string) : result unit TransportError :=
  reject_policy
    (bool_decide (value = ""%string) || (1024 <? str_len value)
     || negb (bool_decide (trim value = value)) || contains_space (as_bytes value))
    "signaling endpoints must be non-empty, trimmed, and whitespace-free".

Definition is_loopback_cleartext (value : string) : bool :=
  existsb (λ p, starts_with p value)
    ["http://127.0.0.1:"; "ws://127.0.0.1:"; "mqtt://127.0.0.1:"]%string
  || existsb (λ p, starts_with p value) ["http://[::1]:"; "ws://[::1]:"; "mqtt://[::1]:"]%string
  || starts_with "/ip4/127.0.0.1/" value || starts_with "/ip6/::1/" value.

Definition is_ipfs_public_direct_peer_multiaddr (value : string) : bool :=
  let value := default value (strip_prefix "libp2p://" value) in
  (starts_with "/ip4/" value || starts_with "/ip6/" value)
  && str_contains "/tcp/" value && str_contains "/p2p/" value.

(** Non-empty and trimmed. *)
Definition bad_label (value : string) : bool :=
  is_blank value || negb (bool_decide (trim value = value)).

(** ** Scopes *)

Record ConversationScope := {
  cs_level : ConnectivityScopeLevel;
  cs_scope_id_commitment : string;
  cs_parent_scope_commitment : option string
}.

Definition scope_validate (s : ConversationScope) : result unit TransportError :=
  check (match cs_level s with
         | LevelAppDefault =>
             reject_policy (negb (bool_decide (cs_scope_id_commitment s = "app_default"%string)))
               "app default scope must use the app_default commitment label"
         | _ => validate_commitment (cs_scope_id_commitment s)
         end) in
  match cs_parent_scope_commitment s with
  | Some parent => validate_commitment parent
  | None => Ok tt
  end.

Definition conversation_scope_new (level : ConnectivityScopeLevel) (commitment : string) :
    result ConversationScope TransportError :=
  let s := {| cs_level := level; cs_scope_id_commitment := commitment;
              cs_parent_scope_commitment := None |} in
  check scope_validate s in Ok s.

Definition with_parent_scope_commitment (s : ConversationScope) (parent : string) :
    result ConversationScope TransportError :=
  let s' := {| cs_level := cs_level s; cs_scope_id_commitment := cs_scope_id_commitment s;
               cs_parent_scope_commitment := Some parent |} in
  check scope_validate s' in Ok s'.

(** ** Providers and adapters *)

Definition DEFAULT_PROVIDER_MAX_MESSAGE_BYTES : N := 64 * 1024.

Record ProviderRetryBackoffPolicy := {
  pb_initial_ms : N;
  pb_max_ms : N;
  pb_multiplier : N;
  pb_max_attempts : N
}.

Definition ProviderRetryBackoffPolicy_default : ProviderRetryBackoffPolicy := {|
  pb_initial_ms := 250; pb_max_ms := 5000; pb_multiplier := 2; pb_max_attempts := 5
|}.

Definition provider_backoff_validate (p : ProviderRetryBackoffPolicy) :
    result unit TransportError :=
  reject_policy
    ((pb_initial_ms p =? 0) || (pb_max_ms p <? pb_initial_ms p) || (pb_multiplier p <? 1)
     || (pb_max_attempts p =? 0) || (10 <? pb_max_attempts p))
    "provider retry backoff must be bounded and monotonic".

Record AdapterTrustLabel := { tl_label : string; tl_posture : string }.

Definition trust_label_new (label posture : string) : result AdapterTrustLabel TransportError :=
  check reject_policy (bad_label label || bad_label posture)
    "trust labels must be non-empty and trimmed" in
  Ok {| tl_label := label; tl_posture := posture |}.

Record SignalingProviderEndpoint := {
  pe_endpoint : Endpoint;
  pe_security : SignalingEndpointSecurity;
  pe_operator_label : option string;
  pe_max_message_bytes : option N;
  pe_retained_presence : bool;
  pe_trust_fingerprint : option string;
  pe_retry_backoff : ProviderRetryBackoffPolicy
}.

Definition provider_endpoint_new (e : Endpoint) (s : SignalingEndpointSecurity) :
  SignalingProviderEndpoint := {|
  pe_endpoint := e; pe_security := s; pe_operator_label := None; pe_max_message_bytes := None;
  pe_retained_presence := false; pe_trust_fingerprint := None;
  pe_retry_backoff := ProviderRetryBackoffPolicy_default
|}.

Definition production_scheme (k : SignalingAdapterKind) (value : string) : bool :=
  match k with
  | KMqtt => starts_with "mqtts://" value || starts_with "wss://" value
  | KNostr => starts_with "wss://" value
  | KIpfsPubsub => is_ipfs_public_direct_peer_multiaddr value
  | KQuicRendezvous =>
      starts_with "quic://" value || starts_with "https://" value || starts_with "wss://" value
  end.

Definition self_hosted_scheme (value : string) : bool :=
  starts_with "mqtts://" value || starts_with "wss://" value || starts_with "quic://" value
  || starts_with "https://" value || is_ipfs_public_direct_peer_multiaddr value.

Definition validate_for_kind (k : SignalingAdapterKind) (e : SignalingProviderEndpoint) :
    result unit TransportError :=
  let value := pe_endpoint e in
  check validate_endpoint_text value in
  check (match pe_operator_label e with
         | Some label =>
             reject_policy (bad_label label) "operator label must be non-empty and trimmed"
         | None => Ok tt
         end) in
  check (match pe_trust_fingerprint e with
         | Some f => validate_commitment f
         | None => Ok tt
         end) in
  check (match pe_max_message_bytes e with
         | Some n =>
             reject_policy ((n =? 0) || (DEFAULT_PROVIDER_MAX_MESSAGE_BYTES <? n))
               "provider max_message_bytes must be non-zero and no larger than the production cap"
         | None => Ok tt
         end) in
  check provider_backoff_validate (pe_retry_backoff e) in
  match pe_security e with
  | SecProductionTls =>
      reject_policy (negb (production_scheme k value))
        ("production endpoint scheme is invalid for " +:+ kind_canonical_name k)
  | SecLocalDevLoopback =>
      reject_policy (negb (is_loopback_cleartext value))
        "local-dev signaling endpoints must be loopback cleartext only"
  | SecSelfHosted =>
      reject_policy (negb (self_hosted_scheme value))
        "self-hosted signaling endpoint must still use an explicit supported scheme"
  end.

Record SignalingAdapterCapabilities := {
  cap_presence_ttl : bool;
  cap_trickle_ice : bool;
  cap_retained_presence : bool;
  cap_health_telemetry : bool
}.

Definition production_required : SignalingAdapterCapabilities := {|
  cap_presence_ttl := true; cap_trickle_ice := true; cap_retained_presence := false;
  cap_health_telemetry := true
|}.

Definition satisfies_production_contract (c : SignalingAdapterCapabilities) : bool :=
  cap_presence_ttl c && cap_trickle_ice c && cap_health_telemetry c.

Record SignalingAdapterProfile := {
  ap_profile_id : string;
  ap_kind : SignalingAdapterKind;
  ap_endpoints : list SignalingProviderEndpoint;
  ap_metadata_posture : ProviderMetadataPosture;
  ap_capabilities : SignalingAdapterCapabilities;
  ap_trust_label : AdapterTrustLabel
}.

Definition adapter_profile_validate (a : SignalingAdapterProfile) : result unit TransportError :=
  check validate_profile_id (ap_profile_id a) in
  check reject_policy (bool_decide (length (ap_endpoints a) = 0%nat))
    "adapter profile must contain at least one endpoint" in
  check reject_policy (negb (satisfies_production_contract (ap_capabilities a)))
    "adapter profile does not satisfy production signaling capabilities" in
  each (validate_for_kind (ap_kind a)) (ap_endpoints a).

Record IceProfile := {
  ipr_profile_id : string;
  ipr_policy : IceEndpointPolicy;
  ipr_label : string
}.

Definition ice_profile_validate (p : IceProfile) : result unit TransportError :=
  check validate_profile_id (ipr_profile_id p) in
  check reject_policy (bad_label (ipr_label p)) "ICE profile label must be non-empty and trimmed" in
  ice_validate (ipr_policy p).

Definition ice_profile_new (id : string) (policy : IceEndpointPolicy) (label : string) :
    result IceProfile TransportError :=
  let p := {| ipr_profile_id := id; ipr_policy := policy; ipr_label := label |} in
  check ice_profile_validate p in Ok p.

(** ** Policies *)

Record ConnectivityPolicy := {
  po_scope : ConversationScope;
  po_signaling_profile_id : string;
  po_signaling_adapters : list SignalingAdapterProfile;
  po_ice_profile_id : string;
  po_ice_profile : IceProfile;
  po_fallback_behavior : AdapterFallbackBehavior;
  po_trust_label : AdapterTrustLabel
}.

Definition connectivity_validate (p : ConnectivityPolicy) : result unit TransportError :=
  check scope_validate (po_scope p) in
  check validate_profile_id (po_signaling_profile_id p) in
  check validate_profile_id (po_ice_profile_id p) in
  check reject_policy
    (negb (bool_decide (ipr_profile_id (po_ice_profile p) = po_ice_profile_id p)))
    "connectivity policy ice_profile_id must match embedded ICE profile" in
  check reject_policy (bool_decide (length (po_signaling_adapters p) = 0%nat))
    "connectivity policy requires at least one signaling adapter" in
  each adapter_profile_validate (po_signaling_adapters p).

Definition adapter_kinds (p : ConnectivityPolicy) : list SignalingAdapterKind :=
  ap_kind <$> po_signaling_adapters p.

Inductive ConnectivityPolicySource :=
| SrcInviteBootstrap | SrcChannelOverride | SrcGroupDefault | SrcDmOverride | SrcAppDefault.

Record EffectiveConnectivityPolicy := {
  ef_source : ConnectivityPolicySource;
  ef_policy : ConnectivityPolicy
}.

Record ConnectivityPolicyStore := {
  st_app_default : ConnectivityPolicy;
  st_dm_policies : gmap string ConnectivityPolicy;
  st_group_policies : gmap string ConnectivityPolicy;
  st_channel_policies : gmap string ConnectivityPolicy
}.

(** [policy.validate()?; return Ok(..)] *)
Definition selected (source : ConnectivityPolicySource) (p : ConnectivityPolicy) :
    result EffectiveConnectivityPolicy TransportError :=
  check connectivity_validate p in Ok {| ef_source := source; ef_policy := p |}.

Definition store_resolve (s : ConnectivityPolicyStore) (target : ConversationScope)
    (invite : option ConnectivityPolicy) :
    result EffectiveConnectivityPolicy TransportError :=
  let fallback := Ok {| ef_source := SrcAppDefault; ef_policy := st_app_default s |} in
  check connectivity_validate (st_app_default s) in
  check scope_validate target in
  match invite with
  | Some i => selected SrcInviteBootstrap i
  | None =>
      match cs_level target with
      | LevelChannel =>
          match st_channel_policies s !! cs_scope_id_commitment target with
          | Some p => selected SrcChannelOverride p
          | None =>
              match cs_parent_scope_commitment target with
              | Some parent =>
                  match st_group_policies s !! parent with
                  | Some p => selected SrcGroupDefault p
                  | None => fallback
                  end
              | None => fallback
              end
          end
      | LevelGroup =>
          match st_group_policies s !! cs_scope_id_commitment target with
          | Some p => selected SrcGroupDefault p
          | None => fallback
          end
      | LevelDm =>
          match st_dm_policies s !! cs_scope_id_commitment target with
          | Some p => selected SrcDmOverride p
          | None => fallback
          end
      | LevelAppDefault | LevelInviteBootstrap => fallback
      end
  end.

(** ** Derived commitments and topics *)

Definition hex_char (x : N) : N := if x <? 10 then 48 + x else 87 + x.

(** [HEX[(byte >> 4)]], [HEX[byte & 0x0f]] *)
Definition lower_hex (b : bytes) : string :=
  string_of_bytes (b ≫= λ x, [hex_char (N.shiftr x 4); hex_char (N.land x 15)]).

Section derived.
Context `{Sha256}.

Definition derive_scope_commitment (level : ConnectivityScopeLevel) (secret : bytes)
    (domain_separator : string) : string :=
  lower_hex (sha256 (as_bytes "discrypt-connectivity-scope-v1" ++ as_bytes (level_name level)
                     ++ as_bytes domain_separator ++ secret)).

Definition derive_hex (domain : string) (scope : ConversationScope) (k : SignalingAdapterKind)
    (bootstrap_secret random_entropy : bytes) : string :=
  lower_hex (sha256 (as_bytes domain ++ as_bytes (level_name (cs_level scope))
    ++ as_bytes (cs_scope_id_commitment scope)
    ++ from_option as_bytes [] (cs_parent_scope_commitment scope)
    ++ as_bytes (kind_canonical_name k) ++ bootstrap_secret ++ random_entropy)).

Record RendezvousCapability := {
  rc_scope : ConversationScope;
  rc_adapter_kind : SignalingAdapterKind;
  rc_topic : string;
  rc_publish_token_commitment : option string;
  rc_subscribe_token_commitment : option string;
  rc_ttl_seconds : N;
  rc_metadata_posture : ProviderMetadataPosture;
  rc_trust_label : AdapterTrustLabel
}.

Definition capability_derive (scope : ConversationScope) (k : SignalingAdapterKind)
    (bootstrap_secret random_entropy : bytes) (ttl_seconds : N)
    (posture : ProviderMetadataPosture) (trust : AdapterTrustLabel) :
    result RendezvousCapability TransportError :=
  check scope_validate scope in
  check reject_policy ((len bootstrap_secret <? 32) || (len random_entropy <? 16))
    "rendezvous derivation requires a bootstrap secret and random entropy" in
  check reject_policy ((ttl_seconds =? 0) || (86400 <? ttl_seconds))
    "rendezvous TTL must be between 1 and 86400 seconds" in
  let d domain := derive_hex domain scope k bootstrap_secret random_entropy in
  Ok {| rc_scope := scope;
        rc_adapter_kind := k;
        rc_topic := "discrypt-rv1-" +:+ kind_canonical_name k +:+ "-"
                    +:+ d "discrypt-rendezvous-topic-v1"%string;
        rc_publish_token_commitment := Some (d "discrypt-rendezvous-publish-token-v1"%string);
        rc_subscribe_token_commitment := Some (d "discrypt-rendezvous-subscribe-token-v1"%string);
        rc_ttl_seconds := ttl_seconds;
        rc_metadata_posture := posture;
        rc_trust_label := trust |}.

End derived.

(** ** Lemmas *)

Lemma hex_char_spec x : x < 16 → is_ascii_hexdigit (hex_char x) = true ∧ hex_char x < 256.
Proof.
  intros Hx. unfold hex_char, is_ascii_hexdigit, is_ascii_digit.
  destruct (N.ltb_spec x 10); (split; [|lia]).
  - rewrite !(proj2 (N.leb_le _ _)) by lia. done.
  - rewrite (proj2 (N.leb_le 97 _)), (proj2 (N.leb_le _ 102)) by lia. by rewrite !orb_true_r.
Qed.

Lemma lower_hex_digits b :
  Forall (λ x, x < 256) b →
  Forall (λ x, is_ascii_hexdigit x = true ∧ x < 256)
    (b ≫= λ x, [hex_char (N.shiftr x 4); hex_char (N.land x 15)]).
Proof.
  induction 1 as [|x b Hx _ IH]; [constructor|]. rewrite bind_cons. simpl.
  constructor; [|constructor; [|done]]; apply hex_char_spec.
  - rewrite N.shiftr_div_pow2. apply N.Div0.div_lt_upper_bound. lia.
  - change 15 with (N.ones 4). rewrite N.land_ones. apply N.mod_lt. lia.
Qed.

Lemma length_hex_bind b :
  length (b ≫= λ x, [hex_char (N.shiftr x 4); hex_char (N.land x 15)]) = (2 * length b)%nat.
Proof. induction b as [|x b IH]; [done|]. rewrite bind_cons, length_app, IH. simpl. lia. Qed.

(** The hex text of a 32-byte digest is a well-formed commitment. *)
Lemma lower_hex_commitment b :
  Forall (λ x, x < 256) b → length b = 32%nat → validate_commitment (lower_hex b) = Ok tt.
Proof.
  intros Hb Hl. pose proof (lower_hex_digits b Hb) as Hd. unfold validate_commitment, lower_hex.
  rewrite <- len_as_bytes. rewrite as_string_bytes by (eapply Forall_impl; [exact Hd|naive_solver]).
  unfold len. rewrite length_hex_bind, Hl. cbn [N.of_nat].
  replace (forallb _ _) with true; [done|]. symmetry. apply forallb_forall.
  intros x Hx%list_elem_of_In. rewrite Forall_forall in Hd. by apply Hd.
Qed.

(** ** Precedence *)

(** The policies that apply to a scope, the most specific first. *)
Definition candidates (s : ConnectivityPolicyStore) (target : ConversationScope)
    (invite : option ConnectivityPolicy) : list (ConnectivityPolicySource * ConnectivityPolicy) :=
  let tag src (o : option ConnectivityPolicy) := option_list ((src,.) <$> o) in
  tag SrcInviteBootstrap invite
  ++ (match cs_level target with
      | LevelChannel =>
          tag SrcChannelOverride (st_channel_policies s !! cs_scope_id_commitment target)
          ++ tag SrcGroupDefault (cs_parent_scope_commitment target ≫= (st_group_policies s !!.))
      | LevelGroup => tag SrcGroupDefault (st_group_policies s !! cs_scope_id_commitment target)
      | LevelDm => tag SrcDmOverride (st_dm_policies s !! cs_scope_id_commitment target)
      | LevelAppDefault | LevelInviteBootstrap => []
      end)
  ++ [(SrcAppDefault, st_app_default s)].

Definition resolve_first (l : list (ConnectivityPolicySource * ConnectivityPolicy)) :
    result EffectiveConnectivityPolicy TransportError :=
  match l with
  | (src, p) :: _ => selected src p
  | [] => policy_error "no policy"
  end.

Lemma selected_ok src p e :
  selected src p = Ok e ↔
  connectivity_validate p = Ok tt ∧ e = {| ef_source := src; ef_policy := p |}.
Proof. unfold selected. destruct (connectivity_validate p) as [[]|]; simpl; naive_solver. Qed.

(** ** Properties *)

(** Policy precedence: resolution is the reference rule "take the most specific policy
    that exists (invite snapshot, then channel, then the channel's group, or the group or the
    direct message itself, then the app default) and validate it", after the app default and
    the target scope were validated; whatever it returns is a valid policy. *)
Theorem policy_resolution_is_most_specific s target invite :
  store_resolve s target invite =
  (check connectivity_validate (st_app_default s) in
   check scope_validate target in
   resolve_first (candidates s target invite)) ∧
  ∀ e, store_resolve s target invite = Ok e →
       connectivity_validate (ef_policy e) = Ok tt ∧
       (ef_source e, ef_policy e) ∈ candidates s target invite.
Proof.
  assert (store_resolve s target invite =
    (check connectivity_validate (st_app_default s) in
     check scope_validate target in resolve_first (candidates s target invite))) as Heq.
  { unfold store_resolve. destruct (connectivity_validate (st_app_default s)) as [[]|] eqn:Ha; [|done].
    cbn [rbind]. destruct (scope_validate target) as [[]|]; [|done]. cbn [rbind].
    assert (selected SrcAppDefault (st_app_default s)
      = Ok {| ef_source := SrcAppDefault; ef_policy := st_app_default s |}) as Hd
      by (unfold selected; by rewrite Ha).
    unfold candidates. destruct invite as [i|]; [done|]. simpl.
    destruct (cs_level target); simpl; try done.
    - by destruct (st_dm_policies s !! _).
    - by destruct (st_group_policies s !! _).
    - destruct (st_channel_policies s !! _); [done|]. simpl.
      destruct (cs_parent_scope_commitment target); simpl; [|done].
      by destruct (st_group_policies s !! _). }
  split; [done|]. intros e. rewrite Heq.
  destruct (connectivity_validate (st_app_default s)) as [[]|]; [|done]. cbn [rbind].
  destruct (scope_validate target) as [[]|]; [|done]. cbn [rbind].
  destruct (candidates s target invite) as [|[src p] l]; simpl; [done|].
  intros [Hv ->]%selected_ok. split; [done|left].
Qed.

Section derived_lemmas.
Context `{Sha256Laws}.
Context `{!Sha256Octets}.

(** Provider-visible names are commitments: a derived scope id is accepted by every
    level that demands a commitment; and a rendezvous capability is derived exactly for a
    valid scope, a 32-byte secret, 16 bytes of entropy and a lifetime of at most a day, its
    topic being the adapter's name and a 64-digit digest, its tokens 64-digit digests. *)
Theorem derived_names_are_commitments level secret domain scope k bs entropy ttl posture trust :
  (level ≠ LevelAppDefault →
   conversation_scope_new level (derive_scope_commitment level secret domain) =
   Ok {| cs_level := level; cs_scope_id_commitment := derive_scope_commitment level secret domain;
         cs_parent_scope_commitment := None |}) ∧
  (is_ok (capability_derive scope k bs entropy ttl posture trust) = true ↔
   scope_validate scope = Ok tt ∧ 32 ≤ len bs ∧ 16 ≤ len entropy ∧ 1 ≤ ttl ≤ 86400) ∧
  (∀ c, capability_derive scope k bs entropy ttl posture trust = Ok c →
   ∃ topic publish subscribe,
     rc_topic c = "discrypt-rv1-" +:+ kind_canonical_name k +:+ "-" +:+ topic ∧
     rc_publish_token_commitment c = Some publish ∧
     rc_subscribe_token_commitment c = Some subscribe ∧
     Forall (λ d, validate_commitment d = Ok tt) [topic; publish; subscribe]).
Proof.
  assert (∀ b, validate_commitment (lower_hex (sha256 b)) = Ok tt) as Hc.
  { intros b. apply lower_hex_commitment; [apply sha256_u8|apply sha256_length]. }
  split; [|split].
  - intros Hl. unfold conversation_scope_new, scope_validate. cbn [cs_level cs_scope_id_commitment
      cs_parent_scope_commitment]. unfold derive_scope_commitment. by destruct level; rewrite ?Hc.
  - unfold capability_derive, reject_policy, reject_if.
    destruct (scope_validate scope) as [[]|]; cbn [rbind is_ok]; [|naive_solver].
    destruct (N.ltb_spec (len bs) 32), (N.ltb_spec (len entropy) 16), (N.eqb_spec ttl 0),
      (N.ltb_spec 86400 ttl); simpl; split;
      first [done | intros (_ & ? & ? & ?); lia | intros _; split_and!; done || lia].
  - intros c. unfold capability_derive. destruct (scope_validate scope) as [[]|]; [|done].
    cbn [rbind]. destruct (reject_policy ((len _ <? _) || _) _) as [u|]; [|done]. cbn [rbind].
    destruct (reject_policy _ _) as [u'|]; [|done]. cbn [rbind]. intros [= <-].
    eexists _, _, _. split; [done|]. split; [done|]. split; [done|].
    repeat (constructor; [apply Hc|]). constructor.
Qed.

End derived_lemmas.

Definition with_ice (p : ConnectivityPolicy) (ice : IceEndpointPolicy) (label : string) :
  ConnectivityPolicy := {|
  po_scope := po_scope p;
  po_signaling_profile_id := po_signaling_profile_id p;
  po_signaling_adapters := po_signaling_adapters p;
  po_ice_profile_id := po_ice_profile_id p;
  po_ice_profile :=
    {| ipr_profile_id := ipr_profile_id (po_ice_profile p); ipr_policy := ice; ipr_label := label |};
  po_fallback_behavior := po_fallback_behavior p;
  po_trust_label := po_trust_label p
|}.

(** The embedded ICE profile is not validated: validating a connectivity policy gives
    the same answer whatever ICE servers and label its profile holds, although the profile's
    own validator rejects, for instance, a profile without servers. *)
Theorem connectivity_validate_ignores_ice p ice label :
  connectivity_validate (with_ice p ice label) = connectivity_validate p ∧
  is_ok (ice_profile_validate (po_ice_profile
    (with_ice p {| ip_stun_servers := []; ip_turn_servers := [] |} label))) = false.
Proof.
  split; [done|]. unfold ice_profile_validate. simpl.
  destruct (validate_profile_id _) as [[]|]; [|done]. simpl.
  by destruct (reject_policy _ _) as [[]|].
Qed.

Section witnesses.
#[local] Existing Instance Toy.toy_sha.
#[local] Existing Instance Toy.toy_sha_laws.
#[local] Existing Instance Toy.toy_sha_octets.

Definition toy_scope : ConversationScope := {|
  cs_level := LevelGroup;
  cs_scope_id_commitment := derive_scope_commitment LevelGroup [1] "room";
  cs_parent_scope_commitment := None
|}.

Lemma derived_names_are_commitments_witness :
  let trust := {| tl_label := "relay"; tl_posture := "public" |} in
  let derive := capability_derive toy_scope KMqtt (replicate 32 1) (replicate 16 2) 60
                  HashedTopic trust in
  is_ok derive = true ∧
  (LevelGroup ≠ LevelAppDefault →
   conversation_scope_new LevelGroup (derive_scope_commitment LevelGroup [1] "room") =
   Ok {| cs_level := LevelGroup;
         cs_scope_id_commitment := derive_scope_commitment LevelGroup [1] "room";
         cs_parent_scope_commitment := None |}) ∧
  (is_ok derive = true ↔
   scope_validate toy_scope = Ok tt ∧ 32 ≤ len (replicate 32 1) ∧ 16 ≤ len (replicate 16 2) ∧
   1 ≤ 60 ≤ 86400) ∧
  (∀ c, derive = Ok c →
   ∃ topic publish subscribe,
     rc_topic c = "discrypt-rv1-" +:+ kind_canonical_name KMqtt +:+ "-" +:+ topic ∧
     rc_publish_token_commitment c = Some publish ∧
     rc_subscribe_token_commitment c = Some subscribe ∧
     Forall (λ d, validate_commitment d = Ok tt) [topic; publish; subscribe]).
Proof.
  split; [vm_compute; reflexivity|].
  apply (derived_names_are_commitments LevelGroup [1] "room" toy_scope KMqtt (replicate 32 1)
           (replicate 16 2) 60 HashedTopic {| tl_label := "relay"; tl_posture := "public" |}).
Defined.

End witnesses.
