(* ===== verification/NegotiationSeal.v ===== *)
(** * Sealed negotiation payloads

    [WebRtcNegotiationSealer] of [crates/transport/src/webrtc_negotiation.rs]: session
    descriptions and ICE candidates are sealed before they enter signaling, with the payload
    kind, the negotiation id and the expiry as authenticated context. JSON is [serde_json]'s,
    the cipher [aes_gcm]'s; both are parameters. *)

From S2P Require Import Prelude Collections Bytes Framing StrOps Crypto Transport IcePolicy ConnPolicy Timeline.

Inductive WebRtcNegotiationPayloadKind := PkOffer | PkAnswer | PkCandidate.

#[export] Instance WebRtcNegotiationPayloadKind_eq_dec : EqDecision WebRtcNegotiationPayloadKind.
Proof. solve_decision. Defined.

(** A [WebRtcNegotiationId] is its 16 bytes, [expires_at_unix_seconds] an [i64]. *)
Record SealedWebRtcNegotiationPayload := {
  np_version : N;
  np_negotiation_id : option bytes;
  np_expires_at : option Z;
  np_kind : WebRtcNegotiationPayloadKind;
  np_nonce : bytes;
  np_ciphertext : bytes
}.

(** [serde_json] on the three types, with the text of its errors. *)
Class NegotiationJson := {
  description_to_json : WebRtcSessionDescription → result bytes string;
  description_from_json : bytes → result WebRtcSessionDescription string;
  candidate_to_json : WebRtcIceCandidate → result bytes string;
  candidate_from_json : bytes → result WebRtcIceCandidate string;
  sealed_to_json : SealedWebRtcNegotiationPayload → result bytes string;
  sealed_from_json : bytes → result SealedWebRtcNegotiationPayload string
}.

Class NegotiationJsonLaws `{NegotiationJson} : Prop := {
  description_json_round_trip d b :
    description_to_json d = Ok b → description_from_json b = Ok d;
  candidate_json_round_trip c b : candidate_to_json c = Ok b → candidate_from_json b = Ok c;
  sealed_json_round_trip s b : sealed_to_json s = Ok b → sealed_from_json b = Ok s
}.

(** The [Display] texts of [aes_gcm]'s [InvalidLength] and [Error]. *)
Class AeadErrorText := { invalid_length_text : string; aead_error_text : string }.

(** ** Authenticated context *)

Definition aad_for_kind (k : WebRtcNegotiationPayloadKind) : string :=
  match k with
  | PkOffer => "discrypt-webrtc-negotiation-v1:offer"
  | PkAnswer => "discrypt-webrtc-negotiation-v1:answer"
  | PkCandidate => "discrypt-webrtc-negotiation-v1:candidate"
  end.

Definition aad_for_payload (k : WebRtcNegotiationPayloadKind) (id : option bytes)
    (expires_at : option Z) : string :=
  aad_for_kind k
  +:+ (match id with Some id => ":generation:" +:+ lower_hex id | None => "" end)
  +:+ (match expires_at with Some e => ":expires:" +:+ pretty e | None => "" end).

Section sealer.
Context `{Aes256Gcm, NegotiationJson, AeadErrorText}.

Definition to_opaque_bytes (s : SealedWebRtcNegotiationPayload) : result bytes TransportError :=
  map_err (λ e, Unavailable ("encode sealed negotiation payload failed: " +:+ e)) (sealed_to_json s).

Definition from_opaque_bytes (b : bytes) :
    result SealedWebRtcNegotiationPayload TransportError :=
  map_err (λ e, Unavailable ("decode sealed negotiation payload failed: " +:+ e))
    (sealed_from_json b).

(** [nonce] is what [OsRng] filled in. *)
Definition seal_json {T} (to_json : T → result bytes string) (key nonce : bytes)
    (k : WebRtcNegotiationPayloadKind) (id : option bytes) (expires_at : option Z) (value : T) :
    result SealedWebRtcNegotiationPayload TransportError :=
  let* plaintext :=
    map_err (λ e, Unavailable ("encode negotiation payload failed: " +:+ e)) (to_json value) in
  let* cipher :=
    ok_or (gcm_new key)
      (Unavailable ("initialize negotiation sealer failed: " +:+ invalid_length_text)) in
  let* ciphertext :=
    ok_or (gcm_encrypt cipher nonce (as_bytes (aad_for_payload k id expires_at)) plaintext)
      (Unavailable ("seal negotiation payload failed: " +:+ aead_error_text)) in
  Ok {| np_version := 1; np_negotiation_id := id; np_expires_at := expires_at; np_kind := k;
        np_nonce := nonce; np_ciphertext := ciphertext |}.

Definition open_json {T} (from_json : bytes → result T string) (key : bytes)
    (s : SealedWebRtcNegotiationPayload) : result T TransportError :=
  check reject_if (negb (np_version s =? 1))
    (Unavailable "unsupported sealed negotiation payload version") in
  let* cipher :=
    ok_or (gcm_new key)
      (Unavailable ("initialize negotiation opener failed: " +:+ invalid_length_text)) in
  let* plaintext :=
    ok_or (gcm_decrypt cipher (np_nonce s)
             (as_bytes (aad_for_payload (np_kind s) (np_negotiation_id s) (np_expires_at s)))
             (np_ciphertext s))
      (Unavailable ("open negotiation payload failed: " +:+ aead_error_text)) in
  map_err (λ e, Unavailable ("decode negotiation payload failed: " +:+ e)) (from_json plaintext).

Definition seal_description_for_negotiation_until (key nonce : bytes)
    (d : WebRtcSessionDescription) (id : option bytes) (expires_at : option Z) :
    result SealedWebRtcNegotiationPayload TransportError :=
  let k := match sd_sdp_type d with SdpOffer => PkOffer | SdpAnswer => PkAnswer end in
  seal_json description_to_json key nonce k id expires_at d.

Definition seal_description_for_negotiation (key nonce : bytes) (d : WebRtcSessionDescription)
    (id : option bytes) : result SealedWebRtcNegotiationPayload TransportError :=
  seal_description_for_negotiation_until key nonce d id None.

Definition seal_description (key nonce : bytes) (d : WebRtcSessionDescription) :
    result SealedWebRtcNegotiationPayload TransportError :=
  seal_description_for_negotiation key nonce d None.

Definition open_description (key : bytes) (s : SealedWebRtcNegotiationPayload) :
    result WebRtcSessionDescription TransportError :=
  match np_kind s with
  | PkOffer | PkAnswer => open_json description_from_json key s
  | PkCandidate => Err (Unavailable "sealed candidate cannot be opened as SDP")
  end.

Definition seal_candidate_for_negotiation_until (key nonce : bytes) (c : WebRtcIceCandidate)
    (id : option bytes) (expires_at : option Z) :
    result SealedWebRtcNegotiationPayload TransportError :=
  seal_json candidate_to_json key nonce PkCandidate id expires_at c.

Definition seal_candidate_for_negotiation (key nonce : bytes) (c : WebRtcIceCandidate)
    (id : option bytes) : result SealedWebRtcNegotiationPayload TransportError :=
  seal_candidate_for_negotiation_until key nonce c id None.

Definition seal_candidate (key nonce : bytes) (c : WebRtcIceCandidate) :
    result SealedWebRtcNegotiationPayload TransportError :=
  seal_candidate_for_negotiation key nonce c None.

Definition open_candidate (key : bytes) (s : SealedWebRtcNegotiationPayload) :
    result WebRtcIceCandidate TransportError :=
  check reject_if (negb (bool_decide (np_kind s = PkCandidate)))
    (Unavailable "sealed SDP cannot be opened as candidate") in
  open_json candidate_from_json key s.

(** ** Lemmas *)

Context `{!Aes256GcmLaws, !NegotiationJsonLaws}.

Lemma seal_json_ok {T} (to_json : T → result bytes string) key nonce k id expires_at value s :
  seal_json to_json key nonce k id expires_at value = Ok s →
  np_version s = 1 ∧ np_kind s = k ∧ np_negotiation_id s = id ∧ np_expires_at s = expires_at
  ∧ np_ciphertext s ≠ [].
Proof.
  unfold seal_json. intros Hs. apply rbind_ok in Hs as (p & _ & Hs).
  apply rbind_ok in Hs as (c & _ & Hs). apply rbind_ok in Hs as (ct & Hct%ok_or_ok & [= <-]).
  split_and!; try done. by eapply gcm_encrypt_nonempty.
Qed.

Lemma open_seal_json {T} (to_json : T → result bytes string) from_json key nonce k id expires_at
    value s :
  (∀ v b, to_json v = Ok b → from_json b = Ok v) →
  seal_json to_json key nonce k id expires_at value = Ok s →
  open_json from_json key s = Ok value.
Proof.
  intros Hrt. unfold seal_json. intros Hs. apply rbind_ok in Hs as (p & Hp & Hs).
  apply rbind_ok in Hs as (c & Hc & Hs). apply rbind_ok in Hs as (ct & Hct%ok_or_ok & [= <-]).
  apply ok_or_ok in Hc. unfold open_json. simpl. rewrite Hc. simpl.
  rewrite (gcm_decrypt_encrypt _ _ _ _ _ Hct). simpl.
  destruct (to_json value) as [b|] eqn:E; simplify_eq/=. by rewrite (Hrt _ _ E).
Qed.

End sealer.

Lemma hex_char_inj x y : x < 16 → y < 16 → hex_char x = hex_char y → x = y.
Proof.
  intros Hx Hy. unfold hex_char.
  destruct (N.ltb_spec x 10), (N.ltb_spec y 10); lia.
Qed.

Lemma nibbles_inj x y :
  x < 256 → y < 256 → N.shiftr x 4 = N.shiftr y 4 → N.land x 15 = N.land y 15 → x = y.
Proof.
  intros Hx Hy. rewrite !N.shiftr_div_pow2. change 15 with (N.ones 4). rewrite !N.land_ones.
  change (2 ^ 4) with 16. intros H1 H2.
  rewrite (N.div_mod x 16), (N.div_mod y 16) by lia. by rewrite H1, H2.
Qed.

Lemma hex_bind_inj (a b : bytes) :
  Forall (λ x, x < 256) a → Forall (λ x, x < 256) b →
  (a ≫= λ x, [hex_char (N.shiftr x 4); hex_char (N.land x 15)])
  = (b ≫= λ x, [hex_char (N.shiftr x 4); hex_char (N.land x 15)]) → a = b.
Proof.
  intros Ha. revert b. induction Ha as [|x a Hx _ IH]; intros [|y b] Hb; try done.
  apply Forall_cons in Hb as [Hy Hb]. rewrite !bind_cons. simpl. intros [= H1 H2 H3].
  assert (∀ z, z < 256 → N.shiftr z 4 < 16 ∧ N.land z 15 < 16) as Hn.
  { intros z Hz. split.
    - rewrite N.shiftr_div_pow2. apply N.Div0.div_lt_upper_bound. lia.
    - change 15 with (N.ones 4). rewrite N.land_ones. apply N.mod_lt. lia. }
  f_equal; [|by apply IH].
  apply nibbles_inj; try done; apply hex_char_inj; try done; apply Hn; done.
Qed.

Lemma as_bytes_lower_hex b :
  Forall (λ x, x < 256) b →
  as_bytes (lower_hex b) = (b ≫= λ x, [hex_char (N.shiftr x 4); hex_char (N.land x 15)]).
Proof.
  intros Hb. apply as_string_bytes. eapply Forall_impl; [by apply lower_hex_digits|].
  by intros x [_ ?].
Qed.

(** A negotiation id is 16 octets. *)
Definition negotiation_id_ok (id : option bytes) : Prop :=
  from_option (λ b, length b = 16%nat ∧ Forall (λ x, x < 256) b) True id.

Lemma string_app_inj_l (s t u : string) : s +:+ t = s +:+ u → t = u.
Proof.
  intros E. apply (f_equal as_bytes) in E. rewrite !as_bytes_app in E.
  by apply app_inv_head, (inj as_bytes) in E.
Qed.

Lemma expires_suffix_inj e e' :
  (match e with Some e => ":expires:" +:+ pretty e | None => "" end)
  = (match e' with Some e => ":expires:" +:+ pretty e | None => "" end)
  → e = (e' : option Z).
Proof.
  destruct e as [x|], e' as [y|]; try done. intros E%string_app_inj_l. f_equal. by apply (inj pretty).
Qed.

Lemma generation_suffix_inj id id' e e' :
  negotiation_id_ok id → negotiation_id_ok id' →
  (match id with Some id => ":generation:" +:+ lower_hex id | None => "" end)
    +:+ (match e with Some e => ":expires:" +:+ pretty e | None => "" end)
  = (match id' with Some id => ":generation:" +:+ lower_hex id | None => "" end)
    +:+ (match e' with Some e => ":expires:" +:+ pretty e | None => "" end)
  → id = id' ∧ e = (e' : option Z).
Proof.
  intros Hi Hi'. destruct id as [a|], id' as [b|].
  - destruct Hi as [La Ha], Hi' as [Lb Hb]. intros E%(f_equal as_bytes).
    rewrite !as_bytes_app, <- !app_assoc in E. apply app_inv_head in E.
    apply app_inj_1 in E as [E1 E2];
      [|rewrite !as_bytes_lower_hex, !length_hex_bind by done; congruence].
    apply (inj as_bytes), expires_suffix_inj in E2 as ->. split; [|done]. f_equal.
    rewrite !as_bytes_lower_hex in E1 by done. by apply hex_bind_inj.
  - destruct e'; discriminate.
  - destruct e; discriminate.
  - intros E. simpl in E. by apply expires_suffix_inj in E.
Qed.

Lemma aad_inj k k' id id' e e' :
  negotiation_id_ok id → negotiation_id_ok id' →
  aad_for_payload k id e = aad_for_payload k' id' e' → k = k' ∧ id = id' ∧ e = e'.
Proof.
  intros Hi Hi' E. unfold aad_for_payload in E.
  assert (k = k') as ->.
  { destruct k, k'; try done; exfalso; cbn in E; discriminate E. }
  split; [done|]. apply string_app_inj_l in E. by apply generation_suffix_inj.
Qed.

(** ** Properties *)

Section properties.
Context `{Aes256Gcm, NegotiationJson, AeadErrorText, !Aes256GcmLaws, !NegotiationJsonLaws}.

(** Negotiation payloads survive signaling: a description sealed for a negotiation, encoded,
    decoded and opened with the same key is the description that was sealed, keeps its
    negotiation id and expiry, has a non-empty ciphertext, and is refused as a candidate; a
    sealed candidate likewise comes back and is refused as a description. *)
Theorem sealed_negotiation_round_trip key nonce id expires_at :
  (∀ d s b, seal_description_for_negotiation_until key nonce d id expires_at = Ok s →
     to_opaque_bytes s = Ok b →
     ∃ s', from_opaque_bytes b = Ok s' ∧ open_description key s' = Ok d
       ∧ np_negotiation_id s' = id ∧ np_expires_at s' = expires_at ∧ np_ciphertext s' ≠ []
       ∧ is_ok (open_candidate key s') = false)
  ∧ (∀ c s b, seal_candidate_for_negotiation_until key nonce c id expires_at = Ok s →
     to_opaque_bytes s = Ok b →
     ∃ s', from_opaque_bytes b = Ok s' ∧ open_candidate key s' = Ok c
       ∧ np_negotiation_id s' = id ∧ np_expires_at s' = expires_at ∧ np_ciphertext s' ≠ []
       ∧ is_ok (open_description key s') = false).
Proof.
  assert (∀ s b, to_opaque_bytes s = Ok b → from_opaque_bytes b = Ok s) as Hopaque.
  { intros s b. unfold to_opaque_bytes, from_opaque_bytes.
    destruct (sealed_to_json s) as [b'|] eqn:E; [|done]. intros [= <-].
    by rewrite (sealed_json_round_trip _ _ E). }
  split; intros v s b Hs Hb; exists s; (split; [by apply Hopaque|]);
    pose proof Hs as (_ & Hk & Hid & He & Hct)%seal_json_ok.
  - unfold open_description, open_candidate. rewrite Hk.
    destruct (sd_sdp_type v); simpl; split_and!; try done;
      (eapply open_seal_json; [|exact Hs]; apply description_json_round_trip).
  - unfold open_description, open_candidate. rewrite Hk. simpl. split_and!; try done.
    eapply open_seal_json; [|exact Hs]. apply candidate_json_round_trip.
Qed.
End properties.

(** The authenticated context of a sealed payload fixes its kind, its negotiation id and its
    expiry: two payloads with the same context bytes agree on all three, so an offer cannot pass
    as an answer or a candidate, nor move to another negotiation or expiry, under one tag. *)
Theorem negotiation_context_is_bound s s' :
  negotiation_id_ok (np_negotiation_id s) → negotiation_id_ok (np_negotiation_id s') →
  as_bytes (aad_for_payload (np_kind s) (np_negotiation_id s) (np_expires_at s))
  = as_bytes (aad_for_payload (np_kind s') (np_negotiation_id s') (np_expires_at s')) →
  np_kind s = np_kind s' ∧ np_negotiation_id s = np_negotiation_id s'
  ∧ np_expires_at s = np_expires_at s'.
Proof. intros Hi Hi' E%(inj as_bytes). by apply aad_inj. Qed.

(** ** Witnesses *)

Section witnesses.
#[local] Existing Instance Toy.toy_aead.
#[local] Existing Instance Toy.toy_aead_laws.

#[local] Instance toy_error_text : AeadErrorText :=
  {| invalid_length_text := "Invalid Length"; aead_error_text := "aead::Error" |}.

(** Offers with an ASCII body, candidates with only a line; sealed payloads without context. *)
#[local] Instance toy_negotiation_json : NegotiationJson := {|
  description_to_json d :=
    match sd_sdp_type d with SdpOffer => Ok (as_bytes (sd_sdp d)) | SdpAnswer => Err "answer"%string end;
  description_from_json b := Ok {| sd_sdp_type := SdpOffer; sd_sdp := string_of_bytes b |};
  candidate_to_json c := Err "candidate"%string;
  candidate_from_json b := Err "candidate"%string;
  sealed_to_json s :=
    match s with
    | {| np_version := 1; np_negotiation_id := None; np_expires_at := None; np_kind := PkOffer;
         np_nonce := []; np_ciphertext := c |} => Ok c
    | _ => Err "sealed"%string
    end;
  sealed_from_json c := Ok {| np_version := 1; np_negotiation_id := None; np_expires_at := None;
                              np_kind := PkOffer; np_nonce := []; np_ciphertext := c |}
|}.

#[local] Instance toy_negotiation_json_laws : NegotiationJsonLaws.
Proof.
  split; simpl.
  - intros [[] sdp] b; simpl; [|done]. intros [= <-]. by rewrite string_of_as_bytes.
  - done.
  - intros [v i e k n c] b. repeat (case_match; try done). by intros [= <-].
Qed.

Let offer : WebRtcSessionDescription := {| sd_sdp_type := SdpOffer; sd_sdp := "v=0" |}.
Let sealed : SealedWebRtcNegotiationPayload := {|
  np_version := 1; np_negotiation_id := None; np_expires_at := None; np_kind := PkOffer;
  np_nonce := []; np_ciphertext := [1; 118; 61; 48] |}.

Lemma sealed_negotiation_round_trip_witness :
  ∃ s', from_opaque_bytes [1; 118; 61; 48] = Ok s' ∧ open_description (replicate 32 0) s' = Ok offer.
Proof.
  assert (seal_description_for_negotiation_until (replicate 32 0) [] offer None None = Ok sealed)
    as Hs by (vm_compute; reflexivity).
  assert (to_opaque_bytes sealed = Ok [1; 118; 61; 48]) as Hb by (vm_compute; reflexivity).
  pose proof (sealed_negotiation_round_trip (replicate 32 0) [] None None) as [H _].
  destruct (H offer sealed _ Hs Hb) as (s' & H1 & H2 & _). by exists s'.
Defined.

Lemma negotiation_context_is_bound_witness : np_kind sealed = np_kind sealed.
Proof. exact (proj1 (negotiation_context_is_bound sealed sealed I I eq_refl)). Defined.
End witnesses.
