(* ===== verification/Negotiation.v ===== *)
(** * WebRTC negotiation

    [WebRtcNegotiationConfig] and [WebRtcNegotiator] of
    [crates/transport/src/webrtc_negotiation.rs]: offers and answers, the queue of trickled
    candidates, the handlers the WebRTC stack calls, and the selection of a route once the
    stack reports one. The stack ([webrtc]'s [PeerConnection]) is a parameter: a state machine
    of the class [PeerConnection]. The timeline shared by the negotiator and its data channels
    is the hub's. *)

From S2P Require Import Prelude Collections Bytes Framing StrOps Crypto Transport Session IcePolicy DataFrames Timeline DataChannel.

(** ** Configuration *)

Inductive WebRtcIceTransportPolicy := PolicyAll | PolicyRelayOnly.

#[export] Instance WebRtcIceTransportPolicy_eq_dec : EqDecision WebRtcIceTransportPolicy.
Proof. solve_decision. Defined.

Record WebRtcNegotiationConfig := {
  nc_ice_servers : IceServerConfig;
  nc_udp_addrs : list string;
  nc_data_channel_label : string;
  nc_ice_transport_policy : WebRtcIceTransportPolicy
}.

Definition with_ice (c : WebRtcNegotiationConfig) (servers : IceServerConfig)
    (policy : WebRtcIceTransportPolicy) : WebRtcNegotiationConfig :=
  {| nc_ice_servers := servers; nc_udp_addrs := nc_udp_addrs c;
     nc_data_channel_label := nc_data_channel_label c; nc_ice_transport_policy := policy |}.

Definition config_host_only (c : WebRtcNegotiationConfig) : WebRtcNegotiationConfig :=
  with_ice c host_only PolicyAll.

(** [ice_mode] is the environment variable [DISCRYPT_WEBRTC_ICE_MODE], if set. *)
Definition apply_env_ice_mode (ice_mode : option string) (c : WebRtcNegotiationConfig) :
    WebRtcNegotiationConfig :=
  let mode :=
    match (λ v, to_ascii_lowercase (trim v)) <$> ice_mode with
    | Some v => if bool_decide (v = ""%string) then None else Some v
    | None => None
    end in
  match mode with
  | Some v =>
      if bool_decide (v = "host_only"%string) then config_host_only c
      else if bool_decide (v = "stun_only"%string) then
        with_ice c {| is_stun_servers := is_stun_servers (nc_ice_servers c); is_turn_servers := [] |}
          PolicyAll
      else if bool_decide (v = "turn_relay"%string) then
        with_ice c (nc_ice_servers c) PolicyRelayOnly
      else c
  | None => c
  end.

(** [udp_env] is the environment variable [DISCRYPT_WEBRTC_UDP_ADDRS], if set. *)
Definition negotiation_config_new (udp_env ice_mode : option string) (servers : IceServerConfig) :
    WebRtcNegotiationConfig :=
  let addrs :=
    match udp_env with
    | Some v =>
        List.filter (λ a, negb (bool_decide (a = ""%string)))
          ((λ b, trim (string_of_bytes b)) <$> split_bytes 44 (as_bytes v))
    | None => []
    end in
  apply_env_ice_mode ice_mode
    {| nc_ice_servers := servers;
       nc_udp_addrs := match addrs with [] => ["0.0.0.0:0"%string] | _ => addrs end;
       nc_data_channel_label := "discrypt-control";
       nc_ice_transport_policy := PolicyAll |}.

Section config.
Context `{Rfc3339}.

Definition config_validate (c : WebRtcNegotiationConfig) (now : datetime) :
    result unit TransportError :=
  check server_validate_credentials_at (nc_ice_servers c) now in
  check reject_if (bool_decide (nc_udp_addrs c = []))
    (Unavailable "at least one UDP bind address is required for WebRTC negotiation") in
  check reject_if (is_blank (nc_data_channel_label c))
    (Unavailable "data channel label is required for WebRTC negotiation") in
  reject_if (bool_decide (nc_ice_transport_policy c = PolicyRelayOnly)
             && bool_decide (length (is_turn_servers (nc_ice_servers c)) = 0%nat))
    (InvalidIcePolicy "relay-only WebRTC policy requires at least one configured TURN server").

End config.

Record RTCIceServer := { rs_urls : list string; rs_username : string; rs_credential : string }.

Definition to_rtc_ice_servers (c : IceServerConfig) : list RTCIceServer :=
  ((λ e, {| rs_urls := [e]; rs_username := ""; rs_credential := "" |}) <$> is_stun_servers c)
  ++ ((λ t, {| rs_urls := [tu_endpoint t]; rs_username := default ""%string (tu_username t);
               rs_credential := default ""%string (tu_credential t) |}) <$> is_turn_servers c).

(** ** Path metrics *)

(** The states of the ICE agent the source names. *)
Inductive RTCIceConnectionState :=
| IceNew | IceConnected | IceCompleted | IceFailed | IceClosed | IceOther.

Inductive RTCIceGatheringState := GatherNew | GatherComplete | GatherOther.

#[export] Instance RTCIceGatheringState_eq_dec : EqDecision RTCIceGatheringState.
Proof. solve_decision. Defined.

Record DirectPathMetricsState := {
  pm_peer_connection_state : RTCPeerConnectionState;
  pm_ice_connection_state : RTCIceConnectionState;
  pm_ice_gathering_state : RTCIceGatheringState;
  pm_local_candidates_gathered : N;
  pm_remote_candidates_applied : N;
  pm_configured_turn_servers : N;
  pm_local_relay_candidates_gathered : N;
  pm_remote_relay_candidates_applied : N
}.

Definition with_configured_turn_servers (n : N) : DirectPathMetricsState := {|
  pm_peer_connection_state := PcNew; pm_ice_connection_state := IceNew;
  pm_ice_gathering_state := GatherNew; pm_local_candidates_gathered := 0;
  pm_remote_candidates_applied := 0; pm_configured_turn_servers := n;
  pm_local_relay_candidates_gathered := 0; pm_remote_relay_candidates_applied := 0
|}.

Definition path_connected (m : DirectPathMetricsState) : bool :=
  bool_decide (pm_peer_connection_state m = PcConnected)
  || match pm_ice_connection_state m with IceConnected | IceCompleted => true | _ => false end.

Definition direct_path_ready (m : DirectPathMetricsState) : bool := path_connected m.

Definition turn_fallback_ready (m : DirectPathMetricsState) : bool :=
  path_connected m && (0 <? pm_configured_turn_servers m)
  && ((0 <? pm_local_relay_candidates_gathered m) || (0 <? pm_remote_relay_candidates_applied m)).

Definition set_path_states (pc : RTCPeerConnectionState) (ice : RTCIceConnectionState)
    (gathering : RTCIceGatheringState) (m : DirectPathMetricsState) : DirectPathMetricsState := {|
  pm_peer_connection_state := pc; pm_ice_connection_state := ice;
  pm_ice_gathering_state := gathering;
  pm_local_candidates_gathered := pm_local_candidates_gathered m;
  pm_remote_candidates_applied := pm_remote_candidates_applied m;
  pm_configured_turn_servers := pm_configured_turn_servers m;
  pm_local_relay_candidates_gathered := pm_local_relay_candidates_gathered m;
  pm_remote_relay_candidates_applied := pm_remote_relay_candidates_applied m
|}.

Definition count_candidate (local relay : bool) (m : DirectPathMetricsState) :
    DirectPathMetricsState :=
  let one (b : bool) : N := if b then 1 else 0 in {|
  pm_peer_connection_state := pm_peer_connection_state m;
  pm_ice_connection_state := pm_ice_connection_state m;
  pm_ice_gathering_state := pm_ice_gathering_state m;
  pm_local_candidates_gathered := pm_local_candidates_gathered m + one local;
  pm_remote_candidates_applied := pm_remote_candidates_applied m + one (negb local);
  pm_configured_turn_servers := pm_configured_turn_servers m;
  pm_local_relay_candidates_gathered :=
    pm_local_relay_candidates_gathered m + one (local && relay);
  pm_remote_relay_candidates_applied :=
    pm_remote_relay_candidates_applied m + one (negb local && relay)
|}.

(** ** The WebRTC stack *)

Inductive RTCSdpType := RtcOffer | RtcAnswer | RtcOtherType (debug : string).

Record RTCSessionDescription := { rtc_type : RTCSdpType; rtc_sdp : string }.

(** [WebRtcIceCandidate::into_rtc] copies the fields, so a candidate stands for its
    [RTCIceCandidateInit]. A created channel is its label, if it can be read, and its id. *)
Class PeerConnection := {
  pc_state : Type;
  rtc_offer : string → result RTCSessionDescription string;
  rtc_answer : string → result RTCSessionDescription string;
  pc_create_data_channel : string → pc_state → pc_state * result (option string * N) string;
  pc_create_offer : pc_state → pc_state * result RTCSessionDescription string;
  pc_create_answer : pc_state → pc_state * result RTCSessionDescription string;
  pc_set_local : RTCSessionDescription → pc_state → pc_state * result unit string;
  pc_set_remote : RTCSessionDescription → pc_state → pc_state * result unit string;
  pc_local_description : pc_state → option RTCSessionDescription;
  pc_remote_description : pc_state → option RTCSessionDescription;
  pc_add_ice_candidate : WebRtcIceCandidate → pc_state → pc_state * result unit string;
  pc_close : pc_state → pc_state * result unit string;
  pc_display : RTCPeerConnectionState → string;
  ice_display : RTCIceConnectionState → string;
  gathering_display : RTCIceGatheringState → string;
  (** the candidates the connection has taken, in order *)
  pc_taken : pc_state → list WebRtcIceCandidate
}.

(** What the negotiator relies on: a description that was set stays set, and candidates are
    taken by [add_ice_candidate] alone. *)
Class PeerConnectionLaws `{PeerConnection} : Prop := {
  set_remote_ok d s s' u :
    pc_set_remote d s = (s', Ok u) → is_Some (pc_remote_description s') ∧ pc_taken s' = pc_taken s;
  add_candidate_ok c s s' u :
    pc_add_ice_candidate c s = (s', Ok u) →
    pc_taken s' = pc_taken s ++ [c] ∧ pc_remote_description s' = pc_remote_description s;
  add_candidate_err c s s' e :
    pc_add_ice_candidate c s = (s', Err e) →
    pc_taken s' = pc_taken s ∧ pc_remote_description s' = pc_remote_description s;
  create_data_channel_keeps l s :
    let s' := (pc_create_data_channel l s).1 in
    pc_taken s' = pc_taken s ∧ pc_remote_description s' = pc_remote_description s;
  create_offer_keeps s :
    let s' := (pc_create_offer s).1 in
    pc_taken s' = pc_taken s ∧ pc_remote_description s' = pc_remote_description s;
  create_answer_keeps s :
    let s' := (pc_create_answer s).1 in
    pc_taken s' = pc_taken s ∧ pc_remote_description s' = pc_remote_description s;
  set_local_keeps d s :
    let s' := (pc_set_local d s).1 in
    pc_taken s' = pc_taken s ∧ pc_remote_description s' = pc_remote_description s
}.

Section negotiator.
Context `{PeerConnection}.

Definition from_rtc (d : RTCSessionDescription) :
    result WebRtcSessionDescription TransportError :=
  match rtc_type d with
  | RtcOffer => Ok {| sd_sdp_type := SdpOffer; sd_sdp := rtc_sdp d |}
  | RtcAnswer => Ok {| sd_sdp_type := SdpAnswer; sd_sdp := rtc_sdp d |}
  | RtcOtherType debug =>
      Err (Unavailable ("unsupported SDP type for Discrypt negotiation: " +:+ debug))
  end.

Definition into_rtc (d : WebRtcSessionDescription) : result RTCSessionDescription TransportError :=
  map_err (λ e, Unavailable ("parse remote SDP failed: " +:+ e))
    (match sd_sdp_type d with
     | SdpOffer => rtc_offer (sd_sdp d)
     | SdpAnswer => rtc_answer (sd_sdp d)
     end).

(** ** State *)

Record WebRtcNegotiator := {
  ng_peer_connection : pc_state;
  ng_candidates : list WebRtcIceCandidate;
  ng_pending_remote_candidates : list WebRtcIceCandidate;
  ng_metrics : DirectPathMetricsState;
  ng_data_channels : DataChannelHub;
  ng_data_channel_label : string;
  ng_external_candidates_configured : bool;
  ng_turn_endpoints : list Endpoint
}.

Definition ng_with (pc : pc_state) (pending : list WebRtcIceCandidate)
    (m : DirectPathMetricsState) (hub : DataChannelHub) (n : WebRtcNegotiator) :
    WebRtcNegotiator := {|
  ng_peer_connection := pc; ng_candidates := ng_candidates n;
  ng_pending_remote_candidates := pending; ng_metrics := m; ng_data_channels := hub;
  ng_data_channel_label := ng_data_channel_label n;
  ng_external_candidates_configured := ng_external_candidates_configured n;
  ng_turn_endpoints := ng_turn_endpoints n
|}.

Definition set_pc (pc : pc_state) (n : WebRtcNegotiator) : WebRtcNegotiator :=
  ng_with pc (ng_pending_remote_candidates n) (ng_metrics n) (ng_data_channels n) n.
Definition set_pending (p : list WebRtcIceCandidate) (n : WebRtcNegotiator) : WebRtcNegotiator :=
  ng_with (ng_peer_connection n) p (ng_metrics n) (ng_data_channels n) n.
Definition ng_set_metrics (m : DirectPathMetricsState) (n : WebRtcNegotiator) : WebRtcNegotiator :=
  ng_with (ng_peer_connection n) (ng_pending_remote_candidates n) m (ng_data_channels n) n.
Definition set_hub (h : DataChannelHub) (n : WebRtcNegotiator) : WebRtcNegotiator :=
  ng_with (ng_peer_connection n) (ng_pending_remote_candidates n) (ng_metrics n) h n.
Definition ng_record (e : WebRtcDiagnosticEvent) (n : WebRtcNegotiator) : WebRtcNegotiator :=
  set_hub (record_event e (ng_data_channels n)) n.

Definition set_candidates (l : list WebRtcIceCandidate) (n : WebRtcNegotiator) :
    WebRtcNegotiator := {|
  ng_peer_connection := ng_peer_connection n; ng_candidates := l;
  ng_pending_remote_candidates := ng_pending_remote_candidates n; ng_metrics := ng_metrics n;
  ng_data_channels := ng_data_channels n; ng_data_channel_label := ng_data_channel_label n;
  ng_external_candidates_configured := ng_external_candidates_configured n;
  ng_turn_endpoints := ng_turn_endpoints n
|}.

(** [codecs], [interceptors] and [build] are what the stack answers while it is set up. *)
Definition negotiator_new `{Rfc3339} (now : datetime) (codecs interceptors : result unit string)
    (build : list RTCIceServer → WebRtcIceTransportPolicy → list string → result pc_state string)
    (c : WebRtcNegotiationConfig) : result WebRtcNegotiator TransportError :=
  check config_validate c now in
  check map_err (λ e, Unavailable ("register media codecs failed: " +:+ e)) codecs in
  check map_err (λ e, Unavailable ("register WebRTC interceptors failed: " +:+ e)) interceptors in
  let servers := nc_ice_servers c in
  let* pc := map_err (λ e, Unavailable ("build WebRTC peer failed: " +:+ e))
    (build (to_rtc_ice_servers servers) (nc_ice_transport_policy c) (nc_udp_addrs c)) in
  Ok {| ng_peer_connection := pc; ng_candidates := []; ng_pending_remote_candidates := [];
        ng_metrics := with_configured_turn_servers (N.of_nat (length (is_turn_servers servers)));
        ng_data_channels := hub_new (nc_data_channel_label c);
        ng_data_channel_label := nc_data_channel_label c;
        ng_external_candidates_configured :=
          negb (bool_decide (length (is_stun_servers servers) = 0%nat))
          || negb (bool_decide (length (is_turn_servers servers) = 0%nat));
        ng_turn_endpoints := tu_endpoint <$> is_turn_servers servers |}.

(** ** Remote candidates *)

Definition candidate_event (now : Z) (direction : string) (state : option string)
    (c : WebRtcIceCandidate) (reason : option string) : WebRtcDiagnosticEvent :=
  ev_with (Some "local"%string) (Some direction) state None
    (Some (ice_candidate_type c, is_turn_relay_candidate c)) None reason
    (diagnostic_event now "ice_candidate").

Definition apply_remote_candidate (now : Z) (c : WebRtcIceCandidate) (n : WebRtcNegotiator) :
    WebRtcNegotiator * result unit TransportError :=
  match pc_add_ice_candidate c (ng_peer_connection n) with
  | (pc, Err e) =>
      let reason := redacted_failure_reason ("add ICE candidate failed: " +:+ e) in
      (ng_record (candidate_event now "remote" (Some "apply_failed"%string) c (Some reason))
         (set_pc pc n), Err (Unavailable reason))
  | (pc, Ok _) =>
      (ng_record (candidate_event now "remote" (Some "applied"%string) c None)
         (ng_set_metrics (count_candidate false (is_turn_relay_candidate c) (ng_metrics n))
            (set_pc pc n)), Ok tt)
  end.

(** [for candidate in pending { self.apply_remote_candidate(candidate).await?; }] *)
Fixpoint apply_candidates (now : Z) (l : list WebRtcIceCandidate) (n : WebRtcNegotiator) :
    WebRtcNegotiator * result unit TransportError :=
  match l with
  | [] => (n, Ok tt)
  | c :: rest =>
      match apply_remote_candidate now c n with
      | (n, Err e) => (n, Err e)
      | (n, Ok _) => apply_candidates now rest n
      end
  end.

Definition flush_pending_remote_candidates (now : Z) (n : WebRtcNegotiator) :
    WebRtcNegotiator * result unit TransportError :=
  apply_candidates now (ng_pending_remote_candidates n) (set_pending [] n).

Definition add_remote_candidate (now : Z) (c : WebRtcIceCandidate) (n : WebRtcNegotiator) :
    WebRtcNegotiator * result unit TransportError :=
  match pc_remote_description (ng_peer_connection n) with
  | None =>
      (ng_record (candidate_event now "remote" (Some "queued"%string) c None)
         (set_pending (ng_pending_remote_candidates n ++ [c]) n), Ok tt)
  | Some _ => apply_remote_candidate now c n
  end.

(** ** Offers and answers *)

Definition sdp_event (now : Z) (role direction : string) (t : WebRtcSdpType) :
    WebRtcDiagnosticEvent :=
  ev_with (Some role) (Some direction) None (Some t) None None None (diagnostic_event now "sdp").

(** [local_description().await.ok_or_else(..)] and [from_rtc]. *)
Definition recorded_description (missing : string) (n : WebRtcNegotiator) :
    result WebRtcSessionDescription TransportError :=
  let* d := ok_or (pc_local_description (ng_peer_connection n)) (Unavailable missing) in
  from_rtc d.

Definition create_offer (now : Z) (n : WebRtcNegotiator) :
    WebRtcNegotiator * result WebRtcSessionDescription TransportError :=
  match pc_create_data_channel (ng_data_channel_label n) (ng_peer_connection n) with
  | (pc, Err e) => (set_pc pc n, Err (Unavailable ("create data channel failed: " +:+ e)))
  | (pc, Ok (label, id)) =>
      let n := set_hub (hub_attach now label id (ng_data_channels n)) (set_pc pc n) in
      match pc_create_offer (ng_peer_connection n) with
      | (pc, Err e) => (set_pc pc n, Err (Unavailable ("create WebRTC offer failed: " +:+ e)))
      | (pc, Ok offer) =>
          match pc_set_local offer pc with
          | (pc, Err e) => (set_pc pc n, Err (Unavailable ("set local offer failed: " +:+ e)))
          | (pc, Ok _) =>
              let n := ng_record (sdp_event now "offerer" "local" SdpOffer) (set_pc pc n) in
              (n, recorded_description "WebRTC local offer was not recorded" n)
          end
      end
  end.

Definition create_answer (now : Z) (remote_offer : WebRtcSessionDescription)
    (n : WebRtcNegotiator) : WebRtcNegotiator * result WebRtcSessionDescription TransportError :=
  match into_rtc remote_offer with
  | Err e => (n, Err e)
  | Ok remote =>
      match pc_set_remote remote (ng_peer_connection n) with
      | (pc, Err e) => (set_pc pc n, Err (Unavailable ("set remote offer failed: " +:+ e)))
      | (pc, Ok _) =>
          let n := ng_record (sdp_event now "answerer" "remote" SdpOffer) (set_pc pc n) in
          match flush_pending_remote_candidates now n with
          | (n, Err e) => (n, Err e)
          | (n, Ok _) =>
              match pc_create_answer (ng_peer_connection n) with
              | (pc, Err e) =>
                  (set_pc pc n, Err (Unavailable ("create WebRTC answer failed: " +:+ e)))
              | (pc, Ok answer) =>
                  match pc_set_local answer pc with
                  | (pc, Err e) =>
                      (set_pc pc n, Err (Unavailable ("set local answer failed: " +:+ e)))
                  | (pc, Ok _) =>
                      let n := ng_record (sdp_event now "answerer" "local" SdpAnswer)
                                 (set_pc pc n) in
                      (n, recorded_description "WebRTC local answer was not recorded" n)
                  end
              end
          end
      end
  end.

Definition accept_answer (now : Z) (remote_answer : WebRtcSessionDescription)
    (n : WebRtcNegotiator) : WebRtcNegotiator * result unit TransportError :=
  match into_rtc remote_answer with
  | Err e => (n, Err e)
  | Ok remote =>
      match pc_set_remote remote (ng_peer_connection n) with
      | (pc, Err e) => (set_pc pc n, Err (Unavailable ("set remote answer failed: " +:+ e)))
      | (pc, Ok _) =>
          flush_pending_remote_candidates now
            (ng_record (sdp_event now "offerer" "remote" SdpAnswer) (set_pc pc n))
      end
  end.

Definition local_description (n : WebRtcNegotiator) :
    result WebRtcSessionDescription TransportError :=
  recorded_description "WebRTC local description was not recorded" n.

Definition drain_local_candidates (n : WebRtcNegotiator) :
    WebRtcNegotiator * list WebRtcIceCandidate :=
  (set_candidates [] n, ng_candidates n).

(** ** Handlers of the stack *)

Definition state_event (now : Z) (kind state : string) : WebRtcDiagnosticEvent :=
  ev_with (Some "local"%string) None (Some state) None None None None (diagnostic_event now kind).

Definition on_data_channel (now : Z) (label : option string) (id : N) (n : WebRtcNegotiator) :
    WebRtcNegotiator := set_hub (hub_attach now label id (ng_data_channels n)) n.

Definition on_ice_gathering_state_change (now : Z) (s : RTCIceGatheringState)
    (n : WebRtcNegotiator) : WebRtcNegotiator :=
  let m := ng_metrics n in
  ng_record (state_event now "ice_gathering_state" (gathering_display s))
    (ng_set_metrics
       (set_path_states (pm_peer_connection_state m) (pm_ice_connection_state m) s m) n).

Definition on_ice_connection_state_change (now : Z) (s : RTCIceConnectionState)
    (n : WebRtcNegotiator) : WebRtcNegotiator :=
  let m := ng_metrics n in
  let n := ng_set_metrics
             (set_path_states (pm_peer_connection_state m) s (pm_ice_gathering_state m) m) n in
  let n := match s with
           | IceFailed | IceClosed =>
               set_hub (mark_unavailable ("ice_connection_" +:+ ice_display s)
                          (ng_data_channels n)) n
           | _ => n
           end in
  ng_record (state_event now "ice_connection_state" (ice_display s)) n.

Definition dtls_state (s : RTCPeerConnectionState) : string :=
  match s with
  | PcConnected => "connected" | PcConnecting => "connecting"
  | PcDisconnected => "disconnected" | PcFailed => "failed" | PcClosed => "closed"
  | PcNew => "new" | PcOther => "unknown"
  end.

Definition on_connection_state_change (now : Z) (s : RTCPeerConnectionState)
    (n : WebRtcNegotiator) : WebRtcNegotiator :=
  let m := ng_metrics n in
  let n := ng_set_metrics
             (set_path_states s (pm_ice_connection_state m) (pm_ice_gathering_state m) m) n in
  let n := set_hub (set_peer_connection_state pc_display s (ng_data_channels n)) n in
  ng_record (state_event now "dtls_transport_state" (dtls_state s))
    (ng_record (state_event now "peer_connection_state" (pc_display s)) n).

(** [exported] is what [candidate.to_json()] returned. *)
Definition on_ice_candidate (now : Z) (exported : result WebRtcIceCandidate string)
    (n : WebRtcNegotiator) : WebRtcNegotiator :=
  match exported with
  | Ok c =>
      let n := ng_record (candidate_event now "local" None c None) n in
      let n := set_candidates (ng_candidates n ++ [c]) n in
      ng_set_metrics (count_candidate true (is_turn_relay_candidate c) (ng_metrics n)) n
  | Err e =>
      ng_record
        (ev_with (Some "local"%string) None None None None None
           (Some (redacted_failure_reason ("ICE candidate export failed: " +:+ e)))
           (diagnostic_event now "failure")) n
  end.

(** What the stack does to the negotiator while one of its calls waits. *)
Inductive StackEvent :=
| SeDataChannel (now : Z) (label : option string) (id : N)
| SeGathering (now : Z) (s : RTCIceGatheringState)
| SeIce (now : Z) (s : RTCIceConnectionState)
| SePeer (now : Z) (s : RTCPeerConnectionState)
| SeCandidate (now : Z) (exported : result WebRtcIceCandidate string)
| SeTask (now : Z) (key : ChannelKey) (ev : DataChannelEvent).

Definition stack_event (n : WebRtcNegotiator) (e : StackEvent) : WebRtcNegotiator :=
  match e with
  | SeDataChannel now label id => on_data_channel now label id n
  | SeGathering now s => on_ice_gathering_state_change now s n
  | SeIce now s => on_ice_connection_state_change now s n
  | SePeer now s => on_connection_state_change now s n
  | SeCandidate now exported => on_ice_candidate now exported n
  | SeTask now key ev => set_hub (task_event now key ev (ng_data_channels n)) n
  end.

(** ** Waiting for candidates *)

Definition gathering_complete (n : WebRtcNegotiator) : bool :=
  bool_decide (pm_ice_gathering_state (ng_metrics n) = GatherComplete).

(** [events]: what happens before [timeout] fires. Only the change to [Complete] notifies. *)
Fixpoint await_gathering (duration_ms : N) (events : list StackEvent) (n : WebRtcNegotiator) :
    WebRtcNegotiator * result unit TransportError :=
  match events with
  | [] => (n, Err (Unavailable ("ICE gathering did not complete within "
                                +:+ pretty duration_ms +:+ " ms")))
  | e :: rest =>
      let n := stack_event n e in
      match e with
      | SeGathering _ GatherComplete =>
          (n, if gathering_complete n then Ok tt
              else Err (Unavailable
                     "ICE gathering completion notification arrived before metrics updated"))
      | _ => await_gathering duration_ms rest n
      end
  end.

Definition wait_ice_gathering_complete (duration_ms : N) (events : list StackEvent)
    (n : WebRtcNegotiator) : WebRtcNegotiator * result unit TransportError :=
  if gathering_complete n then (n, Ok tt) else await_gathering duration_ms events n.

Definition ICE_CANDIDATE_SETTLE_MS : N := 500.

Definition has_external_candidate (l : list WebRtcIceCandidate) : bool :=
  existsb (λ c, match ice_candidate_type c with
                | Some kind => negb (bool_decide (kind = "host"%string))
                | None => false
                end) l.

(** A round of the loop: what happened since the last one, and the monotonic clock in
    milliseconds. The source sleeps 50 ms between rounds. [None] when the rounds run out before
    the loop returned. *)
Fixpoint snapshot_rounds (deadline duration_ms last_count last_change : N)
    (rounds : list (list StackEvent * N)) (n : WebRtcNegotiator) :
    WebRtcNegotiator * option (result unit TransportError) :=
  match rounds with
  | [] => (n, None)
  | (events, clock) :: rest =>
      let n := foldl stack_event n events in
      let count := N.of_nat (length (ng_candidates n)) in
      let last_change := if negb (count =? last_count) then clock else last_change in
      let preferred :=
        (0 <? count)
        && (negb (ng_external_candidates_configured n) || has_external_candidate (ng_candidates n)) in
      if (0 <? count)
         && (gathering_complete n
             || (preferred && (ICE_CANDIDATE_SETTLE_MS <=? clock - last_change)))
      then (n, Some (Ok tt))
      else if deadline <=? clock then
        (n, Some (if 0 <? count then Ok tt
                  else Err (Unavailable ("ICE produced no local candidates within "
                                         +:+ pretty duration_ms +:+ " ms"))))
      else snapshot_rounds deadline duration_ms count last_change rest n
  end.

Definition wait_ice_candidate_snapshot (start duration_ms : N)
    (rounds : list (list StackEvent * N)) (n : WebRtcNegotiator) :
    WebRtcNegotiator * option (result unit TransportError) :=
  snapshot_rounds (start + duration_ms) duration_ms 0 start rounds n.

(** [let _ = first?; wait?; self.local_description()] *)
Definition complete_description
    (first : WebRtcNegotiator * result WebRtcSessionDescription TransportError)
    (wait : WebRtcNegotiator → WebRtcNegotiator * result unit TransportError) :
    WebRtcNegotiator * result WebRtcSessionDescription TransportError :=
  match first with
  | (n, Err e) => (n, Err e)
  | (n, Ok _) =>
      match wait n with
      | (n, Err e) => (n, Err e)
      | (n, Ok _) => (n, local_description n)
      end
  end.

Definition create_complete_offer (now : Z) (duration_ms : N) (events : list StackEvent)
    (n : WebRtcNegotiator) : WebRtcNegotiator * result WebRtcSessionDescription TransportError :=
  complete_description (create_offer now n) (wait_ice_gathering_complete duration_ms events).

Definition create_complete_answer (now : Z) (remote_offer : WebRtcSessionDescription)
    (duration_ms : N) (events : list StackEvent) (n : WebRtcNegotiator) :
    WebRtcNegotiator * result WebRtcSessionDescription TransportError :=
  complete_description (create_answer now remote_offer n)
    (wait_ice_gathering_complete duration_ms events).

(** The same with the candidate snapshot; [None] while it still waits. *)
Definition bundled_description
    (first : WebRtcNegotiator * result WebRtcSessionDescription TransportError)
    (start duration_ms : N) (rounds : list (list StackEvent * N)) :
    WebRtcNegotiator * option (result WebRtcSessionDescription TransportError) :=
  match first with
  | (n, Err e) => (n, Some (Err e))
  | (n, Ok _) =>
      match wait_ice_candidate_snapshot start duration_ms rounds n with
      | (n, None) => (n, None)
      | (n, Some (Err e)) => (n, Some (Err e))
      | (n, Some (Ok _)) => (n, Some (local_description n))
      end
  end.

Definition create_candidate_bundled_offer (now : Z) (start duration_ms : N)
    (rounds : list (list StackEvent * N)) (n : WebRtcNegotiator) :
    WebRtcNegotiator * option (result WebRtcSessionDescription TransportError) :=
  bundled_description (create_offer now n) start duration_ms rounds.

Definition create_candidate_bundled_answer (now : Z) (remote_offer : WebRtcSessionDescription)
    (start duration_ms : N) (rounds : list (list StackEvent * N)) (n : WebRtcNegotiator) :
    WebRtcNegotiator * option (result WebRtcSessionDescription TransportError) :=
  bundled_description (create_answer now remote_offer n) start duration_ms rounds.

(** ** Routes *)

(** [.map(Some).map_err(Into::into)] *)
Definition selected_route (r : TransportSession * SessionResult) :
    TransportSession * result (option TransportSessionSnapshot) TransportError :=
  (r.1, map_err InvalidSessionTransition (rmap Some r.2)).

Definition select_direct_route_if_ready (n : WebRtcNegotiator) (s : TransportSession)
    (endpoint : Endpoint) :
    TransportSession * result (option TransportSessionSnapshot) TransportError :=
  if negb (direct_path_ready (ng_metrics n)) then (s, Ok None)
  else selected_route (select_direct endpoint s).

Definition select_turn_route_if_ready (n : WebRtcNegotiator) (s : TransportSession) :
    TransportSession * result (option TransportSessionSnapshot) TransportError :=
  if negb (turn_fallback_ready (ng_metrics n)) then (s, Ok None)
  else
    match head (ng_turn_endpoints n) with
    | None => (s, Err (Unavailable "TURN fallback has no endpoint"))
    | Some endpoint => selected_route (select_turn_relay endpoint s)
    end.

(** ** Closing *)

Definition close_event (now : Z) (state : string) (reason : option string) :
    WebRtcDiagnosticEvent :=
  ev_with (Some "local"%string) None (Some state) None None None reason
    (diagnostic_event now "peer_connection").

Definition negotiator_close (now : Z) (n : WebRtcNegotiator) :
    WebRtcNegotiator * result unit TransportError :=
  match pc_close (ng_peer_connection n) with
  | (pc, Ok _) => (ng_record (close_event now "closed" None) (set_pc pc n), Ok tt)
  | (pc, Err e) =>
      let reason := redacted_failure_reason ("close WebRTC peer failed: " +:+ e) in
      let already := str_contains "Disconnected(Close)" reason in
      (ng_record
         (close_event now (if already then "close_already_disconnected" else "close_failed")
            (Some reason)) (set_pc pc n),
       if already then Ok tt else Err (Unavailable reason))
  end.

Definition negotiator_tear_down (env : ChannelEnv) (now : Z) (n : WebRtcNegotiator) :
    WebRtcNegotiator * result unit TransportError :=
  match close_all env now (ng_data_channels n) with
  | (h, Err e) => (set_hub h n, Err e)
  | (h, Ok _) => negotiator_close now (set_hub h n)
  end.

(** ** Calls in any order *)

Inductive NegotiatorCall :=
| NgOffer (now : Z)
| NgAnswer (now : Z) (d : WebRtcSessionDescription)
| NgAccept (now : Z) (d : WebRtcSessionDescription)
| NgCandidate (now : Z) (c : WebRtcIceCandidate)
| NgStack (e : StackEvent)
| NgDrain.

(** The negotiator after a call, and whether the call succeeded. *)
Definition negotiator_call (n : WebRtcNegotiator) (c : NegotiatorCall) : WebRtcNegotiator * bool :=
  match c with
  | NgOffer now => let '(n, r) := create_offer now n in (n, is_ok r)
  | NgAnswer now d => let '(n, r) := create_answer now d n in (n, is_ok r)
  | NgAccept now d => let '(n, r) := accept_answer now d n in (n, is_ok r)
  | NgCandidate now c => let '(n, r) := add_remote_candidate now c n in (n, is_ok r)
  | NgStack e => (stack_event n e, true)
  | NgDrain => ((drain_local_candidates n).1, true)
  end.

Fixpoint negotiate (calls : list NegotiatorCall) (n : WebRtcNegotiator) : WebRtcNegotiator * bool :=
  match calls with
  | [] => (n, true)
  | c :: rest =>
      let '(n, ok) := negotiator_call n c in
      let '(n, oks) := negotiate rest n in (n, ok && oks)
  end.

(** The remote candidates among the calls. *)
Definition candidates_of (calls : list NegotiatorCall) : list WebRtcIceCandidate :=
  omap (λ c, match c with NgCandidate _ c => Some c | _ => None end) calls.

End negotiator.

(** ** Lemmas *)

Section facts.
Context `{PeerConnection}.

(** *** The hub and the TURN endpoints stay in order *)

Record negotiator_wf (n : WebRtcNegotiator) : Prop := {
  nw_hub : hub_wf (ng_data_channels n);
  nw_turn : pm_configured_turn_servers (ng_metrics n) = N.of_nat (length (ng_turn_endpoints n));
  nw_local : pm_local_relay_candidates_gathered (ng_metrics n)
             ≤ pm_local_candidates_gathered (ng_metrics n);
  nw_remote : pm_remote_relay_candidates_applied (ng_metrics n)
              ≤ pm_remote_candidates_applied (ng_metrics n)
}.

Lemma ng_with_wf pc pending m h n :
  negotiator_wf n → hub_wf h →
  pm_configured_turn_servers m = pm_configured_turn_servers (ng_metrics n) →
  pm_local_relay_candidates_gathered m ≤ pm_local_candidates_gathered m →
  pm_remote_relay_candidates_applied m ≤ pm_remote_candidates_applied m →
  negotiator_wf (ng_with pc pending m h n).
Proof. intros [] Hh Hm Hl Hr. split; simpl; try done. congruence. Qed.

Lemma ng_record_wf e n :
  from_option free_of_secrets True (ev_failure_reason e) → negotiator_wf n →
  negotiator_wf (ng_record e n).
Proof.
  intros He Hn. apply ng_with_wf; [done| |done|apply Hn..]. by apply record_event_wf, Hn.
Qed.

Lemma set_pc_wf pc n : negotiator_wf n → negotiator_wf (set_pc pc n).
Proof. intros Hn. apply ng_with_wf; [done|apply Hn|done|apply Hn..]. Qed.

Lemma set_pending_wf p n : negotiator_wf n → negotiator_wf (set_pending p n).
Proof. intros Hn. apply ng_with_wf; [done|apply Hn|done|apply Hn..]. Qed.

Lemma set_hub_wf h n : hub_wf h → negotiator_wf n → negotiator_wf (set_hub h n).
Proof. intros Hh Hn. apply ng_with_wf; [done|done|done|apply Hn..]. Qed.

Lemma set_candidates_wf l n : negotiator_wf n → negotiator_wf (set_candidates l n).
Proof. intros []. by split. Qed.

Lemma count_candidate_wf local relay n :
  negotiator_wf n → negotiator_wf (ng_set_metrics (count_candidate local relay (ng_metrics n)) n).
Proof.
  intros Hn. apply ng_with_wf; [done|apply Hn|done|..]; destruct Hn, local, relay; simpl; lia.
Qed.

Lemma set_path_states_wf pc ice g n :
  negotiator_wf n → negotiator_wf (ng_set_metrics (set_path_states pc ice g (ng_metrics n)) n).
Proof. intros Hn. apply ng_with_wf; [done|apply Hn|done|apply Hn..]. Qed.

Lemma apply_remote_candidate_wf now c n :
  negotiator_wf n → negotiator_wf (apply_remote_candidate now c n).1.
Proof.
  intros Hn. unfold apply_remote_candidate.
  destruct (pc_add_ice_candidate c _) as [pc [u|e]]; cbn [fst].
  - apply ng_record_wf; [done|]. apply (count_candidate_wf false _ (set_pc pc n)). by apply set_pc_wf.
  - apply ng_record_wf; [apply redacted_free|]. by apply set_pc_wf.
Qed.

Lemma apply_candidates_wf now l n :
  negotiator_wf n → negotiator_wf (apply_candidates now l n).1.
Proof.
  revert n. induction l as [|c l IH]; intros n Hn; simpl; [done|].
  pose proof (apply_remote_candidate_wf now c n Hn) as Hc.
  destruct (apply_remote_candidate now c n) as [n' [u|e]]; simpl in *; auto.
Qed.

Lemma flush_wf now n : negotiator_wf n → negotiator_wf (flush_pending_remote_candidates now n).1.
Proof. intros Hn. by apply apply_candidates_wf, set_pending_wf. Qed.

Lemma add_remote_candidate_wf now c n :
  negotiator_wf n → negotiator_wf (add_remote_candidate now c n).1.
Proof.
  intros Hn. unfold add_remote_candidate. destruct (pc_remote_description _).
  - by apply apply_remote_candidate_wf.
  - apply ng_record_wf; [done|]. by apply set_pending_wf.
Qed.

Lemma create_offer_wf now n : negotiator_wf n → negotiator_wf (create_offer now n).1.
Proof.
  intros Hn. unfold create_offer.
  destruct (pc_create_data_channel _ _) as [pc [[label id]|e]]; [|by apply set_pc_wf].
  set (n1 := set_hub _ _).
  assert (negotiator_wf n1) as Hn1.
  { apply set_hub_wf; [apply hub_attach_wf, Hn|by apply set_pc_wf]. }
  destruct (pc_create_offer _) as [pc1 [offer|e]]; [|by apply set_pc_wf].
  destruct (pc_set_local offer pc1) as [pc2 [u|e]]; [|by apply set_pc_wf].
  apply ng_record_wf; [done|]. by apply set_pc_wf.
Qed.

Lemma create_answer_wf now d n : negotiator_wf n → negotiator_wf (create_answer now d n).1.
Proof.
  intros Hn. unfold create_answer. destruct (into_rtc d) as [remote|e]; [|done].
  destruct (pc_set_remote remote _) as [pc [u|e]]; [|by apply set_pc_wf].
  set (n1 := ng_record _ _).
  assert (negotiator_wf n1) as Hn1 by (apply ng_record_wf; [done|]; by apply set_pc_wf).
  pose proof (flush_wf now n1 Hn1) as Hf.
  destruct (flush_pending_remote_candidates now n1) as [n2 [v|e]]; [|done]. simpl in Hf.
  destruct (pc_create_answer _) as [pc1 [answer|e]]; [|by apply set_pc_wf].
  destruct (pc_set_local answer pc1) as [pc2 [w|e]]; [|by apply set_pc_wf].
  apply ng_record_wf; [done|]. by apply set_pc_wf.
Qed.

Lemma accept_answer_wf now d n : negotiator_wf n → negotiator_wf (accept_answer now d n).1.
Proof.
  intros Hn. unfold accept_answer. destruct (into_rtc d) as [remote|e]; [|done].
  destruct (pc_set_remote remote _) as [pc [u|e]]; [|by apply set_pc_wf].
  apply flush_wf, ng_record_wf; [done|]. by apply set_pc_wf.
Qed.

Lemma stack_event_wf n e : negotiator_wf n → negotiator_wf (stack_event n e).
Proof.
  intros Hn. destruct e as [now label id|now s|now s|now s|now [c|err]|now key ev]; simpl.
  - apply set_hub_wf; [|done]. apply hub_attach_wf, Hn.
  - apply ng_record_wf; [done|]. by apply set_path_states_wf.
  - apply ng_record_wf; [done|].
    pose proof (set_path_states_wf (pm_peer_connection_state (ng_metrics n)) s
                  (pm_ice_gathering_state (ng_metrics n)) n Hn) as H1.
    destruct s; try exact H1; (apply set_hub_wf; [|exact H1]); apply mark_unavailable_wf, H1.
  - do 2 (apply ng_record_wf; [done|]). apply set_hub_wf; [apply set_peer_state_wf, Hn|].
    by apply set_path_states_wf.
  - set (n1 := ng_record _ n).
    assert (negotiator_wf n1) as Hn1 by (by apply ng_record_wf).
    apply (count_candidate_wf true _ (set_candidates (ng_candidates n1 ++ [c]) n1)).
    by apply set_candidates_wf.
  - apply ng_record_wf; [apply redacted_free|done].
  - apply set_hub_wf; [|done]. apply task_event_wf, Hn.
Qed.

Lemma stack_events_wf es n : negotiator_wf n → negotiator_wf (foldl stack_event n es).
Proof. revert n. induction es; simpl; auto using stack_event_wf. Qed.

Lemma negotiator_call_wf n c : negotiator_wf n → negotiator_wf (negotiator_call n c).1.
Proof.
  intros Hn. destruct c as [now|now d|now d|now c|e|]; simpl.
  - pose proof (create_offer_wf now n Hn). by destruct (create_offer now n).
  - pose proof (create_answer_wf now d n Hn). by destruct (create_answer now d n).
  - pose proof (accept_answer_wf now d n Hn). by destruct (accept_answer now d n).
  - pose proof (add_remote_candidate_wf now c n Hn). by destruct (add_remote_candidate now c n).
  - by apply stack_event_wf.
  - by apply set_candidates_wf.
Qed.

Lemma negotiate_wf calls n : negotiator_wf n → negotiator_wf (negotiate calls n).1.
Proof.
  revert n. induction calls as [|c calls IH]; intros n Hn; simpl; [done|].
  pose proof (negotiator_call_wf n c Hn) as Hc.
  destruct (negotiator_call n c) as [n1 ok]. specialize (IH n1 Hc).
  by destruct (negotiate calls n1).
Qed.

Lemma negotiator_new_wf `{Rfc3339} now codecs interceptors build c n :
  negotiator_new now codecs interceptors build c = Ok n →
  negotiator_wf n ∧ ng_candidates n = [] ∧ ng_pending_remote_candidates n = []
  ∧ ng_turn_endpoints n = tu_endpoint <$> is_turn_servers (nc_ice_servers c).
Proof.
  unfold negotiator_new. intros Hn.
  do 3 (apply rbind_ok in Hn as (? & _ & Hn)). apply rbind_ok in Hn as (pc & _ & [= <-]).
  split; [|done]. split; simpl; try done; [apply hub_new_wf|]. by rewrite length_fmap.
Qed.

(** *** The queue of remote candidates *)

Context `{!PeerConnectionLaws}.

(** Taken, then pending: the candidates so far in order; none waits once there is a remote
    description. *)
Definition trickled (added : list WebRtcIceCandidate) (n : WebRtcNegotiator) : Prop :=
  pc_taken (ng_peer_connection n) ++ ng_pending_remote_candidates n = added
  ∧ (is_Some (pc_remote_description (ng_peer_connection n)) → ng_pending_remote_candidates n = []).

Lemma apply_remote_candidate_ok now c n n' u :
  apply_remote_candidate now c n = (n', Ok u) →
  pc_taken (ng_peer_connection n') = pc_taken (ng_peer_connection n) ++ [c]
  ∧ pc_remote_description (ng_peer_connection n') = pc_remote_description (ng_peer_connection n)
  ∧ ng_pending_remote_candidates n' = ng_pending_remote_candidates n.
Proof.
  unfold apply_remote_candidate. destruct (pc_add_ice_candidate c _) as [pc [v|e]] eqn:E; [|done].
  apply add_candidate_ok in E as [Ht Hr]. intros [= <- _]. simpl. done.
Qed.

Lemma apply_candidates_ok now l n n' u :
  apply_candidates now l n = (n', Ok u) →
  pc_taken (ng_peer_connection n') = pc_taken (ng_peer_connection n) ++ l
  ∧ pc_remote_description (ng_peer_connection n') = pc_remote_description (ng_peer_connection n)
  ∧ ng_pending_remote_candidates n' = ng_pending_remote_candidates n.
Proof.
  revert n. induction l as [|c l IH]; intros n; simpl.
  { intros [= <- _]. by rewrite app_nil_r. }
  destruct (apply_remote_candidate now c n) as [n1 [v|e]] eqn:E; [|done].
  apply apply_remote_candidate_ok in E as (Ht & Hr & Hp). intros Hl%IH.
  destruct Hl as (-> & -> & ->). rewrite Ht, Hr, Hp, <- app_assoc. done.
Qed.

(** Setting the remote description and flushing. *)
Lemma flush_trickled now e added n pc remote u n' v :
  trickled added n → pc_set_remote remote (ng_peer_connection n) = (pc, Ok u) →
  flush_pending_remote_candidates now (ng_record e (set_pc pc n)) = (n', Ok v) →
  trickled added n'.
Proof.
  intros [Ht _] [Hs Hk]%set_remote_ok. unfold flush_pending_remote_candidates.
  intros (Ht' & Hr & Hp)%apply_candidates_ok. simpl in *.
  split; [|done]. by rewrite Ht', Hp, app_nil_r, Hk.
Qed.

Lemma trickled_eq added n n' :
  trickled added n →
  pc_taken (ng_peer_connection n') = pc_taken (ng_peer_connection n) →
  pc_remote_description (ng_peer_connection n') = pc_remote_description (ng_peer_connection n) →
  ng_pending_remote_candidates n' = ng_pending_remote_candidates n → trickled added n'.
Proof. unfold trickled. by intros Ht -> -> ->. Qed.

Lemma create_offer_trickled added now n n' d :
  trickled added n → create_offer now n = (n', Ok d) → trickled added n'.
Proof.
  intros Ht. unfold create_offer.
  pose proof (create_data_channel_keeps (ng_data_channel_label n) (ng_peer_connection n)) as [A1 A2].
  destruct (pc_create_data_channel _ _) as [pc [[label id]|e]]; [|done]. simpl in A1, A2.
  cbn [ng_peer_connection set_hub set_pc ng_with].
  pose proof (create_offer_keeps pc) as [B1 B2].
  destruct (pc_create_offer pc) as [pc1 [offer|e]]; [|done]. simpl in B1, B2.
  pose proof (set_local_keeps offer pc1) as [C1 C2].
  destruct (pc_set_local offer pc1) as [pc2 [u|e]]; [|done]. simpl in C1, C2.
  intros [= <- _]. eapply trickled_eq; [exact Ht|..]; simpl; congruence.
Qed.

Lemma create_answer_trickled added now d n n' d' :
  trickled added n → create_answer now d n = (n', Ok d') → trickled added n'.
Proof.
  intros Ht. unfold create_answer. destruct (into_rtc d) as [remote|e]; [|done].
  destruct (pc_set_remote remote _) as [pc [u|e]] eqn:Es; [|done].
  destruct (flush_pending_remote_candidates now _) as [n2 [v|e]] eqn:Ef; [|done].
  pose proof (flush_trickled _ _ _ _ _ _ _ _ _ Ht Es Ef) as Ht2.
  pose proof (create_answer_keeps (ng_peer_connection n2)) as [B1 B2].
  destruct (pc_create_answer _) as [pc1 [answer|e]]; [|done]. simpl in B1, B2.
  pose proof (set_local_keeps answer pc1) as [C1 C2].
  destruct (pc_set_local answer pc1) as [pc2 [w|e]]; [|done]. simpl in C1, C2.
  intros [= <- _]. eapply trickled_eq; [exact Ht2|..]; simpl; congruence.
Qed.

Lemma accept_answer_trickled added now d n n' u :
  trickled added n → accept_answer now d n = (n', Ok u) → trickled added n'.
Proof.
  intros Ht. unfold accept_answer. destruct (into_rtc d) as [remote|e]; [|done].
  destruct (pc_set_remote remote _) as [pc [v|e]] eqn:Es; [|done].
  by apply flush_trickled with (remote := remote) (u := v).
Qed.

Lemma add_candidate_trickled added now c n n' u :
  trickled added n → add_remote_candidate now c n = (n', Ok u) → trickled (added ++ [c]) n'.
Proof.
  intros [<- Hp]. unfold add_remote_candidate.
  destruct (pc_remote_description (ng_peer_connection n)) as [d|] eqn:Hd.
  - intros (Ht & Hr & Hp')%apply_remote_candidate_ok. specialize (Hp ltac:(by eexists)).
    split; [|by rewrite Hp', Hp]. by rewrite Ht, Hp', Hp, !app_nil_r.
  - intros [= <- _]. split; simpl; [by rewrite app_assoc|]. rewrite Hd. by intros [? ?].
Qed.

Lemma stack_event_keeps n e :
  ng_peer_connection (stack_event n e) = ng_peer_connection n
  ∧ ng_pending_remote_candidates (stack_event n e) = ng_pending_remote_candidates n.
Proof. by destruct e as [| |? []| |? []|]. Qed.

Lemma negotiate_trickled calls added n n' :
  trickled added n → negotiate calls n = (n', true) → trickled (added ++ candidates_of calls) n'.
Proof.
  revert added n. induction calls as [|c calls IH]; intros added n Ht; simpl.
  { intros [= <-]. by rewrite app_nil_r. }
  destruct (negotiator_call n c) as [n1 ok] eqn:Ec.
  destruct (negotiate calls n1) as [n2 oks] eqn:Er. intros [= <- Hok].
  apply andb_true_iff in Hok as [-> ->].
  assert (∀ m, trickled (added ++ m) n1 → trickled (added ++ m ++ candidates_of calls) n2) as Hgo.
  { intros m Hm. rewrite app_assoc. by apply (IH _ _ Hm). }
  destruct c as [now|now d|now d|now c|e|]; simpl in Ec |- *.
  - destruct (create_offer now n) as [m [d|]] eqn:E; simplify_eq/=.
    apply (Hgo []). rewrite app_nil_r. by eapply create_offer_trickled.
  - destruct (create_answer now d n) as [m [d'|]] eqn:E; simplify_eq/=.
    apply (Hgo []). rewrite app_nil_r. by eapply create_answer_trickled.
  - destruct (accept_answer now d n) as [m [u|]] eqn:E; simplify_eq/=.
    apply (Hgo []). rewrite app_nil_r. by eapply accept_answer_trickled.
  - destruct (add_remote_candidate now c n) as [m [u|]] eqn:E; simplify_eq/=.
    apply (Hgo [c]). by eapply add_candidate_trickled.
  - injection Ec as <-. apply (Hgo []). rewrite app_nil_r.
    destruct (stack_event_keeps n e) as [Hpc Hpd].
    eapply trickled_eq; [exact Ht|..]; rewrite ?Hpc, ?Hpd; done.
  - injection Ec as <-. apply (Hgo []). by rewrite app_nil_r.
Qed.

End facts.

(** *** The wait for candidates *)

Lemma snapshot_rounds_spec `{PeerConnection} deadline duration count change rounds n n' r :
  snapshot_rounds deadline duration count change rounds n = (n', Some r) →
  (r = Ok tt ∧ ng_candidates n' ≠ []) ∨ (is_ok r = false ∧ ng_candidates n' = []).
Proof.
  revert count change n. induction rounds as [|[es clock] rounds IH]; intros count change n; simpl;
    [done|].
  set (m := foldl stack_event n es).
  assert (0 <? N.of_nat (length (ng_candidates m)) = true ↔ ng_candidates m ≠ []) as Hc.
  { rewrite N.ltb_lt. destruct (ng_candidates m); simpl; [split; [lia|done]|split; [done|lia]]. }
  destruct (0 <? N.of_nat (length (ng_candidates m))) eqn:E0; simpl.
  - destruct (gathering_complete m || _); [intros [= <- <-]; left; split; [done|by apply Hc]|].
    destruct (deadline <=? clock); [intros [= <- <-]; left; split; [done|by apply Hc]|]. by apply IH.
  - destruct (deadline <=? clock); [|by apply IH]. intros [= <- <-]. right. split; [done|].
    destruct (ng_candidates m); [done|]. exfalso. by assert (false = true) by by apply Hc.
Qed.

Lemma snapshot_rounds_ends `{PeerConnection} deadline duration count change rounds n :
  Exists (λ r, deadline ≤ r.2) rounds →
  is_Some (snapshot_rounds deadline duration count change rounds n).2.
Proof.
  intros Hex. revert count change n.
  induction Hex as [[es clock] rounds Hr|[es clock] rounds _ IH]; intros count change n; simpl.
  - destruct (_ && _); [by eexists|]. simpl in Hr. rewrite (proj2 (N.leb_le deadline clock)) by done.
    by eexists.
  - destruct (_ && _); [by eexists|]. destruct (deadline <=? clock); [by eexists|]. apply IH.
Qed.

(** ** Properties *)

Section properties.
Context `{PeerConnection}.

(** Trickled candidates reach the WebRTC stack: over any successful sequence of offers,
    answers, remote candidates and stack events, the candidates taken by the stack followed by
    those still queued are the candidates received, in order and each once; and once a remote
    description is set the queue is empty. *)
Theorem remote_candidates_reach_the_stack `{!PeerConnectionLaws} calls n n' :
  pc_taken (ng_peer_connection n) = [] → ng_pending_remote_candidates n = [] →
  negotiate calls n = (n', true) →
  pc_taken (ng_peer_connection n') ++ ng_pending_remote_candidates n' = candidates_of calls
  ∧ (is_Some (pc_remote_description (ng_peer_connection n')) →
     pc_taken (ng_peer_connection n') = candidates_of calls).
Proof.
  intros Ht Hp Hn. assert (trickled [] n) as Hstart by (split; [by rewrite Ht, Hp|done]).
  destruct (negotiate_trickled calls [] n n' Hstart Hn) as [Hall Hnone]. simpl in Hall.
  split; [done|]. intros Hr%Hnone. by rewrite <- Hall, Hr, app_nil_r.
Qed.

(** One refused candidate discards the others: when the first queued candidate is refused
    while an answer is accepted, the call fails, the queue is emptied all the same, and none of
    the candidates behind it has reached the stack. *)
Theorem refused_candidate_discards_the_queue `{!PeerConnectionLaws} now d remote n pc u c rest pc' e :
  ng_pending_remote_candidates n = c :: rest → into_rtc d = Ok remote →
  pc_set_remote remote (ng_peer_connection n) = (pc, Ok u) →
  pc_add_ice_candidate c pc = (pc', Err e) →
  let '(n', r) := accept_answer now d n in
  is_ok r = false ∧ ng_pending_remote_candidates n' = []
  ∧ pc_taken (ng_peer_connection n') = pc_taken (ng_peer_connection n).
Proof.
  intros Hp Hd Hs Ha. unfold accept_answer. rewrite Hd, Hs.
  unfold flush_pending_remote_candidates. cbn [ng_pending_remote_candidates ng_record set_hub set_pc ng_with].
  rewrite Hp. cbn [apply_candidates]. unfold apply_remote_candidate.
  cbn [ng_peer_connection set_pending ng_record set_hub set_pc ng_with]. rewrite Ha. simpl.
  split_and!; [done..|]. apply set_remote_ok in Hs as [_ Hs]. apply add_candidate_err in Ha as [Ha _].
  by rewrite Ha.
Qed.

(** A TURN route rests on evidence: after any sequence of negotiation calls and stack events
    on a fresh negotiator, selecting the TURN route either does nothing, or fails only because
    of the session's state, or selects the first configured TURN endpoint; in the last case
    the path is connected and at least one relay candidate was gathered or applied. The
    missing-endpoint error never occurs. *)
Theorem turn_route_rests_on_evidence `{Rfc3339} now codecs interceptors build c n0 calls s :
  negotiator_new now codecs interceptors build c = Ok n0 →
  let n := (negotiate calls n0).1 in
  let '(s', r) := select_turn_route_if_ready n s in
  match r with
  | Ok None => s' = s
  | Ok (Some _) =>
      ∃ endpoint, head (ng_turn_endpoints n) = Some endpoint
        ∧ ts_route s' = Some {| rs_route := RouteTurnRelay; rs_endpoint := endpoint;
                                rs_route_report := None |}
        ∧ path_connected (ng_metrics n) = true
        ∧ (0 < pm_local_candidates_gathered (ng_metrics n)
           ∨ 0 < pm_remote_candidates_applied (ng_metrics n))
  | Err e => ∃ err, e = InvalidSessionTransition err
  end.
Proof.
  intros (Hn0 & _)%negotiator_new_wf n. pose proof (negotiate_wf calls n0 Hn0) as Hn. fold n in Hn.
  unfold select_turn_route_if_ready. destruct (turn_fallback_ready (ng_metrics n)) eqn:Ht; [|done].
  simpl. unfold turn_fallback_ready in Ht.
  apply andb_true_iff in Ht as [Ht1 Ht2]. apply andb_true_iff in Ht1 as [Hc Ht1%N.ltb_lt].
  destruct Hn as [_ Hturn Hl Hr]. rewrite Hturn in Ht1.
  destruct (ng_turn_endpoints n) as [|endpoint rest] eqn:Ee; [simpl in Ht1; lia|].
  unfold selected_route, select_turn_relay, select_route, guarded. cbn [head].
  destruct (require_state s SelectTurnRelay [SessChecking]); simpl; [|by eexists].
  exists endpoint. split_and!; [done..|].
  apply orb_true_iff in Ht2 as [Ht2%N.ltb_lt|Ht2%N.ltb_lt]; [left|right]; lia.
Qed.

(** Waiting for candidates ends: if one of the rounds is at or past the deadline the wait
    has returned, and whenever it returns it succeeded exactly when some local candidate had
    been gathered by then. *)
Theorem candidate_wait_ends start duration rounds n :
  Exists (λ r, start + duration ≤ r.2) rounds →
  ∃ n' r, wait_ice_candidate_snapshot start duration rounds n = (n', Some r)
    ∧ (is_ok r = true ↔ ng_candidates n' ≠ []).
Proof.
  intros Hex. unfold wait_ice_candidate_snapshot.
  pose proof (snapshot_rounds_ends _ duration 0 start rounds n Hex) as [r Hr].
  destruct (snapshot_rounds (start + duration) duration 0 start rounds n) as [n' o] eqn:E.
  simpl in Hr. subst o. exists n', r. split; [done|].
  destruct (snapshot_rounds_spec _ _ _ _ _ _ _ _ E) as [[-> Hc]|[-> Hc]]; [done|].
  rewrite Hc. done.
Qed.
End properties.

(** ** Witnesses *)

Section witnesses.
#[local] Existing Instance Toy.toy_chrono.
#[local] Existing Instance Toy.toy_rfc3339.

(** A stack that records its remote description and the candidates it took; it refuses
    candidates with an empty line. *)
#[local] Instance toy_pc : PeerConnection := {|
  pc_state := option RTCSessionDescription * list WebRtcIceCandidate;
  rtc_offer sdp := Ok {| rtc_type := RtcOffer; rtc_sdp := sdp |};
  rtc_answer sdp := Ok {| rtc_type := RtcAnswer; rtc_sdp := sdp |};
  pc_create_data_channel _ s := (s, Ok (None, 1));
  pc_create_offer s := (s, Ok {| rtc_type := RtcOffer; rtc_sdp := "v=0" |});
  pc_create_answer s := (s, Ok {| rtc_type := RtcAnswer; rtc_sdp := "v=0" |});
  pc_set_local _ s := (s, Ok tt);
  pc_set_remote d s := ((Some d, s.2), Ok tt);
  pc_local_description _ := Some {| rtc_type := RtcOffer; rtc_sdp := "v=0" |};
  pc_remote_description s := s.1;
  pc_add_ice_candidate c s :=
    if bool_decide (ic_candidate c = ""%string) then (s, Err "empty"%string)
    else ((s.1, s.2 ++ [c]), Ok tt);
  pc_close s := (s, Ok tt);
  pc_display _ := "state";
  ice_display _ := "state";
  gathering_display _ := "state";
  pc_taken s := s.2
|}.

#[local] Instance toy_pc_laws : PeerConnectionLaws.
Proof.
  split; simpl; try done.
  - intros d s s' u E. inversion E; subst. by split; [eexists|].
  - intros c [r t] s' u. case_bool_decide; intros E; [done|]. by inversion E; subst.
  - intros c s s' e. case_bool_decide; intros E; [|done]. by inversion E; subst.
Qed.

Let line (l : string) : WebRtcIceCandidate := {|
  ic_candidate := l; ic_sdp_mid := None; ic_sdp_mline_index := None;
  ic_username_fragment := None; ic_url := None |}.
Let answer : WebRtcSessionDescription := {| sd_sdp_type := SdpAnswer; sd_sdp := "v=0" |}.
Let config : WebRtcNegotiationConfig := {|
  nc_ice_servers := {| is_stun_servers := [];
    is_turn_servers := [{| tu_endpoint := "turn:relay.example:3478"; tu_username := None;
                           tu_credential := None; tu_credential_expires_at := None |}] |};
  nc_udp_addrs := ["0.0.0.0:0"%string]; nc_data_channel_label := "discrypt-control";
  nc_ice_transport_policy := PolicyAll |}.
Let fresh : result WebRtcNegotiator TransportError :=
  negotiator_new (0%Z : @datetime Toy.toy_chrono) (Ok tt) (Ok tt) (λ _ _ _, Ok (None, [])) config.
Let blank : WebRtcNegotiator := {|
  ng_peer_connection := (None, []); ng_candidates := []; ng_pending_remote_candidates := [];
  ng_metrics := with_configured_turn_servers 1; ng_data_channels := hub_new "discrypt-control";
  ng_data_channel_label := "discrypt-control"; ng_external_candidates_configured := true;
  ng_turn_endpoints := ["turn:relay.example:3478"%string] |}.

Lemma remote_candidates_reach_the_stack_witness :
  let calls := [NgOffer 0; NgCandidate 1 (line "a"); NgCandidate 2 (line "b"); NgAccept 3 answer;
                NgCandidate 4 (line "c")] in
  pc_taken (ng_peer_connection (negotiate calls blank).1) = [line "a"; line "b"; line "c"].
Proof.
  intros calls.
  assert (negotiate calls blank = ((negotiate calls blank).1, true)) as Hn.
  { destruct (negotiate calls blank) as [m ok] eqn:E. assert (ok = (negotiate calls blank).2) as ->
      by by rewrite E. vm_compute. reflexivity. }
  assert (is_Some (pc_remote_description (ng_peer_connection (negotiate calls blank).1))) as Hr.
  { eexists. vm_compute. reflexivity. }
  exact (proj2 (remote_candidates_reach_the_stack calls blank _ eq_refl eq_refl Hn) Hr).
Defined.

Lemma refused_candidate_discards_the_queue_witness :
  let n := set_pending [line ""; line "b"] blank in
  ng_pending_remote_candidates (accept_answer 0 answer n).1 = []
  ∧ pc_taken (ng_peer_connection (accept_answer 0 answer n).1) = [].
Proof.
  intros n.
  pose proof (refused_candidate_discards_the_queue 0 answer {| rtc_type := RtcAnswer; rtc_sdp := "v=0" |}
    n (Some {| rtc_type := RtcAnswer; rtc_sdp := "v=0" |}, []) tt (line "") [line "b"]
    (Some {| rtc_type := RtcAnswer; rtc_sdp := "v=0" |}, []) "empty"%string
    eq_refl eq_refl eq_refl eq_refl) as H.
  destruct (accept_answer 0 answer n) as [n' r]. destruct H as (_ & H1 & H2). by split.
Defined.

Lemma turn_route_rests_on_evidence_witness :
  ∃ n0, fresh = Ok n0
    ∧ let '(s', r) := select_turn_route_if_ready
                        (negotiate [NgStack (SeCandidate 0 (Ok (line "x typ relay")));
                                    NgStack (SePeer 1 PcConnected)] n0).1 session_new in
      match r with Err e => ∃ err, e = InvalidSessionTransition err | _ => True end.
Proof.
  destruct fresh as [n0|e] eqn:E; [|exfalso; vm_compute in E; discriminate E].
  exists n0. split; [done|].
  pose proof (turn_route_rests_on_evidence (0%Z : @datetime Toy.toy_chrono) (Ok tt) (Ok tt)
    (λ _ _ _, Ok (None, [])) config n0
    [NgStack (SeCandidate 0 (Ok (line "x typ relay"))); NgStack (SePeer 1 PcConnected)]
    session_new E) as H.
  cbv zeta in H. destruct (select_turn_route_if_ready _ _) as [s' [[snap|]|e]]; done.
Defined.

Lemma candidate_wait_ends_witness :
  ∃ n' r, wait_ice_candidate_snapshot 0 100 [([], 100)] blank = (n', Some r).
Proof.
  assert (Exists (λ r : list StackEvent * N, 0 + 100 ≤ r.2) [([], 100)]) as H
    by (constructor; simpl; lia).
  destruct (candidate_wait_ends 0 100 [([], 100)] blank H) as (n' & r & E & _). by exists n', r.
Defined.
End witnesses.
