(* ===== verification/RouteGraph.v ===== *)
(** * Route graphs

    [crates/transport/src/route_graph.rs] and the peer ids of [signaling.rs]: for one
    group and channel, the intended route from the local peer to every admitted remote. *)

From S2P Require Import Prelude Collections Bytes StrOps Transport Session IcePolicy ConnPolicy.

(** ** Peer ids *)

Abbreviation SignalingPeerId := string.

Definition peer_id_new (value : string) : result SignalingPeerId TransportError :=
  check reject_policy
    (bool_decide (value = ""%string) || (128 <? str_len value)
     || negb (bool_decide (trim value = value)) || negb (forallb is_token_char (as_bytes value)))
    "signaling peer ids must be trimmed ASCII token strings" in
  Ok value.

(** ** Scopes *)

Record RouteGraphScope := { gs_group : ConversationScope; gs_channel : ConversationScope }.

Definition graph_scope_validate (s : RouteGraphScope) : result unit TransportError :=
  check scope_validate (gs_group s) in
  check scope_validate (gs_channel s) in
  check reject_policy (negb (bool_decide (cs_level (gs_group s) = LevelGroup)))
    "route graph group scope must use group level" in
  check reject_policy (negb (bool_decide (cs_level (gs_channel s) = LevelChannel)))
    "route graph channel scope must use channel level" in
  reject_policy
    (negb (bool_decide (cs_parent_scope_commitment (gs_channel s)
                        = Some (cs_scope_id_commitment (gs_group s)))))
    "route graph channel scope must be parented by the graph group".

Definition graph_scope_new (group channel : ConversationScope) :
    result RouteGraphScope TransportError :=
  let s := {| gs_group := group; gs_channel := channel |} in
  check graph_scope_validate s in Ok s.

(** ** Intents *)

Inductive RouteIntent :=
| IntentDirect (report : option RouteReport)
| IntentTurn (turn_endpoint : Endpoint) (report : option RouteReport)
| IntentPending (reason : string)
| IntentUnavailable (reason : string).

Definition validate_reason (reason : string) : result string TransportError :=
  check reject_policy (bad_label reason || (256 <? str_len reason))
    "route graph reason must be non-empty trimmed text up to 256 bytes" in
  Ok reason.

Definition graph_validate_endpoint (e : Endpoint) (label : string) : result unit TransportError :=
  reject_policy (bad_label e) ("route graph " +:+ label +:+ " must be non-empty trimmed text").

Definition validate_route_report (expected : FallbackLeg) (r : RouteReport) :
    result unit TransportError :=
  check reject_policy (negb (bool_decide (rr_selected r = expected)))
    "route graph route report selected leg does not match intent" in
  reject_policy (negb (honest_and_ordered r))
    "route graph route report must preserve direct/TURN ordering and ciphertext-only relay policy".

Definition opt_report (expected : FallbackLeg) (o : option RouteReport) :
    result unit TransportError :=
  match o with Some r => validate_route_report expected r | None => Ok tt end.

Definition intent_pending (reason : string) : result RouteIntent TransportError :=
  let* r := validate_reason reason in Ok (IntentPending r).

Definition intent_unavailable (reason : string) : result RouteIntent TransportError :=
  let* r := validate_reason reason in Ok (IntentUnavailable r).

Definition intent_direct_webrtc (report : option RouteReport) :
    result RouteIntent TransportError :=
  check opt_report Stun report in Ok (IntentDirect report).

Definition intent_configured_turn (turn : Endpoint) (report : option RouteReport) :
    result RouteIntent TransportError :=
  check graph_validate_endpoint turn "configured TURN endpoint" in
  check reject_policy (bool_decide (turn = UNCONFIGURED_TURN_ENDPOINT))
    "configured TURN route intent requires a configured TURN endpoint" in
  check opt_report Turn report in Ok (IntentTurn turn report).

Definition is_connectable (i : RouteIntent) : bool :=
  match i with IntentDirect _ | IntentTurn _ _ => true | _ => false end.

Definition transport_route (i : RouteIntent) : option TransportRoute :=
  match i with
  | IntentDirect _ => Some RouteDirect
  | IntentTurn _ _ => Some RouteTurnRelay
  | IntentPending _ | IntentUnavailable _ => None
  end.

(** ** Edges and graphs *)

Record RouteGraphEdge := {
  ge_local_peer_id : SignalingPeerId;
  ge_remote_peer_id : SignalingPeerId;
  ge_intent : RouteIntent
}.

Definition edge_new (local remote : SignalingPeerId) (i : RouteIntent) :
    result RouteGraphEdge TransportError :=
  check reject_policy (bool_decide (local = remote))
    "route graph edge cannot target the local peer" in
  Ok {| ge_local_peer_id := local; ge_remote_peer_id := remote; ge_intent := i |}.

Record GroupRouteGraph := {
  gg_schema_version : N;
  gg_scope : RouteGraphScope;
  gg_local_peer_id : SignalingPeerId;
  gg_edges : gmap string RouteGraphEdge
}.

(** The loop over the admitted remotes; the keys of [edges] are the ids seen so far. *)
Fixpoint graph_edges (local : SignalingPeerId) (i : RouteIntent) (remotes : list SignalingPeerId)
    (seen : gset string) (edges : gmap string RouteGraphEdge) :
    result (gmap string RouteGraphEdge) TransportError :=
  match remotes with
  | [] => Ok edges
  | r :: rest =>
      check reject_policy (bool_decide (r = local))
        "route graph admitted remotes must not include the local peer" in
      check reject_policy (bool_decide (r ∈ seen))
        "route graph admitted remote peers must be unique" in
      let* e := edge_new local r i in
      graph_edges local i rest ({[r]} ∪ seen) (<[r := e]> edges)
  end.

Definition ROUTE_GRAPH_SCHEMA_VERSION : N := 1.

Definition graph_new (scope : RouteGraphScope) (local : SignalingPeerId)
    (remotes : list SignalingPeerId) (i : RouteIntent) : result GroupRouteGraph TransportError :=
  check graph_scope_validate scope in
  let* edges := graph_edges local i remotes ∅ ∅ in
  check reject_policy (bool_decide (edges = ∅))
    "route graph requires at least one admitted remote peer" in
  Ok {| gg_schema_version := ROUTE_GRAPH_SCHEMA_VERSION; gg_scope := scope;
        gg_local_peer_id := local; gg_edges := edges |}.

Definition edge_count (g : GroupRouteGraph) : nat := size (gg_edges g).

Definition edge_for (g : GroupRouteGraph) (remote : SignalingPeerId) : option RouteGraphEdge :=
  gg_edges g !! remote.

Definition set_intent (g : GroupRouteGraph) (remote : SignalingPeerId) (i : RouteIntent) :
    GroupRouteGraph * result unit TransportError :=
  match gg_edges g !! remote with
  | None => (g, policy_error "route graph remote peer is not an admitted edge")
  | Some e =>
      ({| gg_schema_version := gg_schema_version g; gg_scope := gg_scope g;
          gg_local_peer_id := gg_local_peer_id g;
          gg_edges := <[remote := {| ge_local_peer_id := ge_local_peer_id e;
                                     ge_remote_peer_id := ge_remote_peer_id e;
                                     ge_intent := i |}]> (gg_edges g) |}, Ok tt)
  end.

Definition edge_validate (local : SignalingPeerId) (kv : string * RouteGraphEdge) :
    result unit TransportError :=
  let '(remote, e) := kv in
  check reject_policy (negb (bool_decide (remote = ge_remote_peer_id e)))
    "route graph edge key must match remote peer id" in
  check reject_policy (negb (bool_decide (ge_local_peer_id e = local)))
    "route graph edge local peer must match graph local peer" in
  check edge_new (ge_local_peer_id e) (ge_remote_peer_id e) (ge_intent e) in Ok tt.

Definition graph_validate (g : GroupRouteGraph) : result unit TransportError :=
  check reject_policy (negb (gg_schema_version g =? ROUTE_GRAPH_SCHEMA_VERSION))
    "unsupported route graph schema version" in
  check graph_scope_validate (gg_scope g) in
  check reject_policy (bool_decide (gg_edges g = ∅))
    "route graph requires at least one admitted remote peer" in
  each (edge_validate (gg_local_peer_id g)) (entries (gg_edges g)).

(** ** Lemmas *)

(** The edge map a list of remotes and a final intent per remote describe. *)
Definition edge_of (local : SignalingPeerId) (r : SignalingPeerId) (i : RouteIntent) :
  RouteGraphEdge := {| ge_local_peer_id := local; ge_remote_peer_id := r; ge_intent := i |}.

Lemma graph_edges_ok local i remotes seen edges es :
  graph_edges local i remotes seen edges = Ok es ↔
  NoDup remotes ∧ local ∉ remotes ∧ (∀ r, r ∈ remotes → r ∉ seen) ∧
  es = foldl (λ m r, <[r := edge_of local r i]> m) edges remotes.
Proof.
  revert seen edges. induction remotes as [|r remotes IH]; intros seen edges; simpl.
  { rewrite NoDup_nil. set_solver. }
  unfold edge_new, reject_policy, reject_if.
  case_bool_decide as E1; simpl; [split; [done|set_solver]|].
  case_bool_decide as E2; simpl; [split; [done|set_solver]|].
  rewrite bool_decide_false by congruence. simpl.
  rewrite IH, NoDup_cons, not_elem_of_cons. fold (edge_of local r i). set_solver.
Qed.

Lemma foldl_edges_lookup local i remotes (edges : gmap string RouteGraphEdge) r :
  foldl (λ m x, <[x := edge_of local x i]> m) edges remotes !! r =
  if decide (r ∈ remotes) then Some (edge_of local r i) else edges !! r.
Proof.
  revert edges. induction remotes as [|x remotes IH]; intros edges; simpl; [done|].
  rewrite IH. destruct (decide (r ∈ remotes)), (decide (r ∈ x :: remotes)); try set_solver.
  - assert (r = x) as -> by set_solver. by rewrite lookup_insert_eq.
  - rewrite lookup_insert_ne by set_solver. done.
Qed.

(** The graph holds an edge from the local peer for exactly the remotes. *)
Definition graph_wf (g : GroupRouteGraph) (remotes : list SignalingPeerId) : Prop :=
  gg_schema_version g = 1 ∧ graph_scope_validate (gg_scope g) = Ok tt ∧ remotes ≠ [] ∧
  gg_local_peer_id g ∉ remotes ∧
  ∀ r, match gg_edges g !! r with
       | Some e => r ∈ remotes ∧ e = edge_of (gg_local_peer_id g) r (ge_intent e)
       | None => r ∉ remotes
       end.

Lemma graph_wf_nonempty g remotes : graph_wf g remotes → gg_edges g ≠ ∅.
Proof.
  intros (_ & _ & Hne & _ & He) E. destruct remotes as [|r l]; [done|].
  specialize (He r). rewrite E, lookup_empty in He. set_solver.
Qed.

Lemma graph_wf_validates g remotes : graph_wf g remotes → graph_validate g = Ok tt.
Proof.
  intros Hwf. pose proof (graph_wf_nonempty _ _ Hwf) as Hne.
  destruct Hwf as (Hv & Hs & _ & Hl & He). unfold graph_validate.
  rewrite Hv, Hs, bool_decide_false by done. simpl. apply each_ok, Forall_forall.
  intros [r e] Hin%elem_of_entries. specialize (He r). rewrite Hin in He.
  destruct He as [Hr ->]. unfold edge_validate, edge_new, edge_of. simpl.
  rewrite !bool_decide_true, bool_decide_false by (done || congruence). done.
Qed.

Lemma graph_new_wf scope local remotes i g :
  graph_new scope local remotes i = Ok g ↔
  graph_scope_validate scope = Ok tt ∧ NoDup remotes ∧ local ∉ remotes ∧ remotes ≠ [] ∧
  g = {| gg_schema_version := 1; gg_scope := scope; gg_local_peer_id := local;
         gg_edges := foldl (λ m r, <[r := edge_of local r i]> m) ∅ remotes |}.
Proof.
  unfold graph_new, reject_policy, reject_if.
  destruct (graph_scope_validate scope) as [[]|]; simpl; [|naive_solver].
  set (edges := foldl (λ m r, <[r := edge_of local r i]> m) ∅ remotes).
  assert (edges = ∅ ↔ remotes = []) as Hempty.
  { split; [|by intros ->]. intros E. destruct remotes as [|r l]; [done|].
    pose proof (foldl_edges_lookup local i (r :: l) ∅ r) as Hl. fold edges in Hl.
    rewrite E, decide_True, lookup_empty in Hl by set_solver. done. }
  destruct (graph_edges local i remotes ∅ ∅) as [es|] eqn:E; simpl.
  - apply graph_edges_ok in E as (? & ? & _ & ->). fold edges.
    case_bool_decide as Ee; simpl; naive_solver.
  - split; [done|]. intros (_ & Hn & Hl & _). exfalso.
    assert (graph_edges local i remotes ∅ ∅ = Ok edges) by (apply graph_edges_ok; set_solver).
    congruence.
Qed.

Lemma set_intent_wf g remotes r i :
  graph_wf g remotes → graph_wf (set_intent g r i).1 remotes.
Proof.
  intros (Hv & Hs & Hne & Hl & He). unfold set_intent. destruct (gg_edges g !! r) as [e|] eqn:E; [|done].
  split_and!; try done. intros x. simpl. destruct (decide (x = r)) as [->|Hx].
  - rewrite lookup_insert_eq. specialize (He r). rewrite E in He. destruct He as [Hr ->]. done.
  - rewrite lookup_insert_ne by done. apply He.
Qed.

(** A sequence of intent updates. *)
Definition set_intents (g : GroupRouteGraph) (l : list (SignalingPeerId * RouteIntent)) :
    GroupRouteGraph := foldl (λ g p, (set_intent g p.1 p.2).1) g l.

Lemma set_intents_wf g remotes l : graph_wf g remotes → graph_wf (set_intents g l) remotes.
Proof.
  revert g. induction l as [|p l IH]; intros g Hg; [done|]. by apply IH, set_intent_wf.
Qed.

(** The intent a remote was last given. *)
Definition last_intent (r : SignalingPeerId) (l : list (SignalingPeerId * RouteIntent))
    (i : RouteIntent) : RouteIntent :=
  default i (snd <$> last (filter (λ p, p.1 = r) l)).

Lemma set_intents_lookup g l r :
  ge_intent <$> (edge_for (set_intents g l) r) =
  (λ e, last_intent r l (ge_intent e)) <$> edge_for g r.
Proof.
  unfold edge_for. induction l as [|[x i] l IH] using rev_ind.
  { simpl. by destruct (gg_edges g !! r). }
  unfold set_intents in *. rewrite foldl_app. simpl. set (g' := foldl _ _ l) in *.
  assert (last_intent r (l ++ [(x, i)]) = λ d, if decide (x = r) then i else last_intent r l d) as Hl.
  { unfold last_intent. rewrite filter_app, filter_cons, filter_nil. simpl.
    destruct (decide (x = r)).
    - by rewrite last_snoc.
    - by rewrite app_nil_r. }
  rewrite Hl. unfold set_intent. destruct (decide (x = r)) as [->|Hne].
  - destruct (gg_edges g' !! r) as [e|] eqn:E, (gg_edges g !! r) as [e0|]; simpl in *;
      rewrite ?lookup_insert_eq, ?E; done.
  - destruct (gg_edges g' !! x) as [e|] eqn:E; simpl; [|done]. by rewrite lookup_insert_ne.
Qed.

(** ** Properties *)

(** A route graph covers exactly the admitted remotes: it is built precisely for a
    valid scope and a non-empty list of distinct remotes without the local peer; after any
    intent updates it still passes its own validation, has one edge per admitted remote and
    none for anybody else, an edge carries the last intent set for its remote, and an update
    is accepted exactly for an admitted remote. *)
Theorem route_graph_covers_admitted scope local remotes i :
  (is_ok (graph_new scope local remotes i) = true ↔
   graph_scope_validate scope = Ok tt ∧ NoDup remotes ∧ local ∉ remotes ∧ remotes ≠ []) ∧
  ∀ g updates, graph_new scope local remotes i = Ok g →
    let g' := set_intents g updates in
    graph_validate g' = Ok tt ∧
    (∀ r, edge_for g' r = if decide (r ∈ remotes)
                          then Some (edge_of local r (last_intent r updates i)) else None) ∧
    (∀ r j, is_ok (set_intent g' r j).2 = true ↔ r ∈ remotes).
Proof.
  split.
  { destruct (graph_new scope local remotes i) as [g|] eqn:E; simpl.
    - apply graph_new_wf in E. naive_solver.
    - split; [done|]. intros (? & ? & ? & ?). exfalso.
      assert (∃ g, graph_new scope local remotes i = Ok g) as [g Hg];
        [eexists; by apply graph_new_wf|]. congruence. }
  intros g updates (Hs & Hnd & Hl & Hne & ->)%graph_new_wf g'.
  set (g0 := {| gg_schema_version := 1 |}) in g'.
  assert (∀ r, edge_for g0 r = if decide (r ∈ remotes) then Some (edge_of local r i) else None) as H0.
  { intros r. unfold edge_for. simpl. rewrite foldl_edges_lookup. by rewrite lookup_empty. }
  assert (graph_wf g' remotes) as Hwf.
  { apply set_intents_wf. split_and!; try done. intros r. specialize (H0 r).
    unfold edge_for in H0. rewrite H0. by destruct (decide (r ∈ remotes)). }
  assert (∀ l, gg_local_peer_id (set_intents g0 l) = local) as Hloc.
  { intros l. induction l as [|p l IH] using rev_ind; [done|]. unfold set_intents in *.
    rewrite foldl_app. simpl. unfold set_intent. by destruct (gg_edges _ !! _). }
  split; [by apply graph_wf_validates in Hwf|].
  assert (∀ r, edge_for g' r = if decide (r ∈ remotes)
     then Some (edge_of local r (last_intent r updates i)) else None) as He.
  { intros r. pose proof (set_intents_lookup g0 updates r) as Hi. rewrite H0 in Hi.
    destruct Hwf as (_ & _ & _ & _ & He). specialize (He r). unfold edge_for in *. fold g' in Hi.
    destruct (gg_edges g' !! r) as [e|] eqn:E.
    - destruct He as [Hr He]. rewrite decide_True in Hi |- * by done. simpl in Hi.
      injection Hi as Hi. rewrite He, Hi. unfold g'. by rewrite Hloc.
    - by rewrite decide_False. }
  split; [done|]. intros r j. unfold set_intent. specialize (He r). unfold edge_for in He.
  rewrite He. by destruct (decide (r ∈ remotes)).
Qed.
