(* ===== verification/ControlLane.v ===== *)
(** * Broker control lane

    [crates/transport/src/control_lane.rs]: small coordination frames, sealed with a key
    from invite-shared material, broadcast over a rendezvous room and read back from it. The
    room is a trait object of the caller: what it hands over at each poll is an argument, and
    so is whether it accepts a broadcast. The JSON codec of the envelope is [serde_json]. *)

From S2P Require Import Prelude Collections Bytes Framing StrOps Crypto Transport IcePolicy ConnPolicy RouteGraph.

(** ** Envelopes *)

Definition BROKER_CONTROL_LANE_SCHEMA_VERSION : N := 1.

Record BrokerControlEnvelope := {
  be_schema_version : N;
  be_from_peer : string;
  be_frame_sha256_hex : string;
  be_nonce_b64 : string;
  be_ciphertext_b64 : string
}.

(** [serde_json::to_vec] and [serde_json::from_slice] for the envelope. *)
Class EnvelopeJson := {
  json_encode : BrokerControlEnvelope → result bytes string;
  json_decode : bytes → option BrokerControlEnvelope
}.

Class EnvelopeJsonLaws `{EnvelopeJson} : Prop := {
  json_decode_encode e b : json_encode e = Ok b → json_decode b = Some e;
  json_encode_nonempty e b : json_encode e = Ok b → b ≠ []
}.

Definition lane_error {A} (detail : string) : result A TransportError :=
  Err (SignalingAdapterFailed detail).

(** [OpaqueSignalingPayload::new] *)
Definition opaque_payload_new (b : bytes) : result bytes TransportError :=
  check reject_if (bool_decide (b = []))
    (SignalingAdapterFailed "opaque signaling payload must not be empty") in Ok b.

Record ControlBroadcast := { cb_from_peer : SignalingPeerId; cb_payload : bytes }.

Section lane.
Context `{Sha256, Aes256Gcm, Base64, EnvelopeJson}.

Definition broker_control_lane_key (shared_material : bytes) : result bytes TransportError :=
  check reject_if (len shared_material <? 32)
    (SignalingAdapterFailed "broker control lane key material must be at least 32 bytes") in
  Ok (sha256 (as_bytes "discrypt-broker-control-lane-key-v1" ++ [0] ++ shared_material)).

Definition frame_sha256_hex (frame : bytes) : string := lower_hex (sha256 frame).

Definition associated_data (schema_version : N) (from_peer frame_hash : string) : bytes :=
  [schema_version; 0] ++ as_bytes from_peer ++ [0] ++ as_bytes frame_hash.

(** [nonce] is what [OsRng] filled in; the key is a 32-byte array. *)
Definition seal_broker_control_frame (nonce key : bytes) (from_peer : SignalingPeerId)
    (frame : bytes) : result bytes TransportError :=
  check reject_if (bool_decide (frame = []))
    (SignalingAdapterFailed "broker control lane frame must not be empty") in
  let hash := frame_sha256_hex frame in
  let* ct :=
    ok_or (c ← gcm_new key;
           gcm_encrypt c nonce
             (associated_data BROKER_CONTROL_LANE_SCHEMA_VERSION from_peer hash) frame)
      (SignalingAdapterFailed "broker control lane seal failed") in
  map_err (λ e, SignalingAdapterFailed ("control envelope encode: " +:+ e))
    (json_encode {| be_schema_version := BROKER_CONTROL_LANE_SCHEMA_VERSION;
                    be_from_peer := from_peer;
                    be_frame_sha256_hex := hash;
                    be_nonce_b64 := b64_url_encode nonce;
                    be_ciphertext_b64 := b64_url_encode ct |}).

Definition decode_broker_control_envelope (payload : bytes) :
    result BrokerControlEnvelope TransportError :=
  let* e := ok_or (json_decode payload)
    (SignalingAdapterFailed "broker control lane payload is not a versioned control envelope") in
  check reject_if (negb (be_schema_version e =? BROKER_CONTROL_LANE_SCHEMA_VERSION))
    (SignalingAdapterFailed
       ("broker control lane envelope schema " +:+ pretty (be_schema_version e)
        +:+ " is unsupported")) in
  Ok e.

Definition open_broker_control_frame (key : bytes) (e : BrokerControlEnvelope) :
    result bytes TransportError :=
  let bad_nonce := SignalingAdapterFailed "broker control lane envelope nonce is invalid" in
  let* nonce := map_err (λ _, bad_nonce) (b64_url_decode (be_nonce_b64 e)) in
  check reject_if (negb (len nonce =? 12)) bad_nonce in
  let* ct := map_err
    (λ _, SignalingAdapterFailed "broker control lane envelope ciphertext is invalid")
    (b64_url_decode (be_ciphertext_b64 e)) in
  let* frame :=
    ok_or (c ← gcm_new key;
           gcm_decrypt c nonce
             (associated_data (be_schema_version e) (be_from_peer e) (be_frame_sha256_hex e)) ct)
      (SignalingAdapterFailed "broker control lane envelope failed authentication") in
  check reject_if (negb (bool_decide (frame_sha256_hex frame = be_frame_sha256_hex e)))
    (SignalingAdapterFailed "broker control lane envelope frame digest mismatch") in
  Ok frame.

(** ** The transport *)

Record BrokerControlLane := {
  bl_key : bytes;
  bl_local_peer_id : SignalingPeerId;
  bl_inbound : list bytes;
  bl_frames_sent : N;
  bl_frames_received : N
}.

Definition lane_new (key : bytes) (local : SignalingPeerId) : BrokerControlLane :=
  {| bl_key := key; bl_local_peer_id := local; bl_inbound := []; bl_frames_sent := 0;
     bl_frames_received := 0 |}.

(** Own broadcasts are skipped; the first one that does not open ends the poll. *)
Fixpoint open_broadcasts (key : bytes) (local : SignalingPeerId) (l : list ControlBroadcast) :
    result (list bytes) TransportError :=
  match l with
  | [] => Ok []
  | b :: rest =>
      if bool_decide (cb_from_peer b = local) then open_broadcasts key local rest
      else
        let* e := decode_broker_control_envelope (cb_payload b) in
        let* frame := open_broker_control_frame key e in
        let* frames := open_broadcasts key local rest in
        Ok (frame :: frames)
  end.

(** [polled] is what [take_control_payloads] returned; it is gone from the room. *)
Definition take_remote_frames (l : BrokerControlLane)
    (polled : result (list ControlBroadcast) TransportError) :
    result (list bytes) TransportError :=
  let* broadcasts := polled in open_broadcasts (bl_key l) (bl_local_peer_id l) broadcasts.

(** [broadcast] is the room's answer to the sealed payload. *)
Definition send_text_control_frame (l : BrokerControlLane) (nonce frame : bytes)
    (broadcast : bytes → result unit TransportError) :
    BrokerControlLane * result unit TransportError :=
  match (let* payload := seal_broker_control_frame nonce (bl_key l) (bl_local_peer_id l) frame in
         let* opaque := opaque_payload_new payload in broadcast opaque) with
  | Err e => (l, Err e)
  | Ok _ =>
      ({| bl_key := bl_key l; bl_local_peer_id := bl_local_peer_id l;
          bl_inbound := bl_inbound l; bl_frames_sent := (bl_frames_sent l + 1) mod 2 ^ 64;
          bl_frames_received := bl_frames_received l |}, Ok tt)
  end.

Definition with_inbound (l : BrokerControlLane) (q : list bytes) (received : N) :
  BrokerControlLane :=
  {| bl_key := bl_key l; bl_local_peer_id := bl_local_peer_id l; bl_inbound := q;
     bl_frames_sent := bl_frames_sent l; bl_frames_received := received |}.

(** The receive loop against the polls that will happen: the frame, the lane and the polls
    left over, or [None] while it still waits. *)
Fixpoint recv_text_control_frame (l : BrokerControlLane)
    (polls : list (result (list ControlBroadcast) TransportError)) :
    BrokerControlLane * list (result (list ControlBroadcast) TransportError)
    * option (result bytes TransportError) :=
  match bl_inbound l with
  | frame :: q => (with_inbound l q ((bl_frames_received l + 1) mod 2 ^ 64), polls, Some (Ok frame))
  | [] =>
      match polls with
      | [] => (l, [], None)
      | polled :: rest =>
          match take_remote_frames l polled with
          | Err e => (l, rest, Some (Err e))
          | Ok (frame :: q) =>
              (with_inbound l q ((bl_frames_received l + 1) mod 2 ^ 64), rest, Some (Ok frame))
          | Ok [] => recv_text_control_frame l rest
          end
      end
  end.

End lane.

Section lane_lemmas.
Context `{Sha256, Aes256GcmLaws, Base64Laws, EnvelopeJsonLaws}.
Context `{!Aes256GcmOctets}.

Definition octets (b : bytes) : Prop := Forall (λ x, x < 256) b.

(** A broadcast that carries a frame sealed by its sender. *)
Definition carries (key : bytes) (b : ControlBroadcast) (frame : bytes) : Prop :=
  ∃ nonce, length nonce = 12%nat ∧ octets nonce ∧ octets frame ∧
    seal_broker_control_frame nonce key (cb_from_peer b) frame = Ok (cb_payload b).

Lemma sealed_frame_opens nonce key peer frame payload :
  length nonce = 12%nat → octets nonce → octets frame →
  seal_broker_control_frame nonce key peer frame = Ok payload →
  (let* e := decode_broker_control_envelope payload in open_broker_control_frame key e) = Ok frame.
Proof.
  intros Hn Hno Hfo Hs. unfold seal_broker_control_frame in Hs.
  destruct (reject_if _ _) as [u|]; [|done]. cbn [rbind] in Hs.
  destruct (gcm_new key) as [c|] eqn:Hc; [|done].
  cbn [mbind option_bind] in Hs.
  destruct (gcm_encrypt _ _ _ _) as [ct|] eqn:He; [|done]. cbn [ok_or rbind] in Hs.
  destruct (json_encode _) as [b|] eqn:Hj; [|done]. cbn [map_err] in Hs. injection Hs as ->.
  unfold decode_broker_control_envelope. rewrite (json_decode_encode _ _ Hj).
  cbn [ok_or rbind be_schema_version]. rewrite N.eqb_refl. cbn [negb reject_if rbind].
  unfold open_broker_control_frame. cbn [be_nonce_b64 be_ciphertext_b64 be_schema_version
    be_from_peer be_frame_sha256_hex].
  rewrite b64_url_decode_encode by done. cbn [map_err rbind].
  unfold len. rewrite Hn. change (N.of_nat 12 =? 12) with true. cbn [negb reject_if rbind].
  rewrite b64_url_decode_encode by (by eapply gcm_encrypt_u8). cbn [map_err rbind].
  rewrite Hc. cbn [mbind option_bind]. rewrite (gcm_decrypt_encrypt _ _ _ _ _ He).
  cbn [ok_or rbind]. by rewrite bool_decide_true.
Qed.

(** The remote frames of a batch: what its broadcasts carry, own echoes left out. *)
Inductive remote_frames (key : bytes) (local : SignalingPeerId) :
    list ControlBroadcast → list bytes → Prop :=
| rf_nil : remote_frames key local [] []
| rf_own b l fs :
    cb_from_peer b = local → remote_frames key local l fs → remote_frames key local (b :: l) fs
| rf_remote b l f fs :
    cb_from_peer b ≠ local → carries key b f → remote_frames key local l fs →
    remote_frames key local (b :: l) (f :: fs).

Lemma open_broadcasts_frames key local l fs :
  remote_frames key local l fs → open_broadcasts key local l = Ok fs.
Proof.
  induction 1 as [|b l fs Hb _ IH|b l f fs Hb (nonce & Hn & Hno & Hfo & Hs) _ IH]; simpl; [done|..].
  - by rewrite bool_decide_true.
  - rewrite bool_decide_false by done. pose proof (sealed_frame_opens _ _ _ _ _ Hn Hno Hfo Hs) as Ho.
    destruct (decode_broker_control_envelope (cb_payload b)) as [e|]; [|done]. cbn [rbind] in *.
    rewrite Ho. cbn [rbind]. by rewrite IH.
Qed.

(** Receive [n] times. *)
Fixpoint recv_many (n : nat) (l : BrokerControlLane)
    (polls : list (result (list ControlBroadcast) TransportError)) :
    BrokerControlLane * list (result (list ControlBroadcast) TransportError)
    * list (option (result bytes TransportError)) :=
  match n with
  | O => (l, polls, [])
  | S n' =>
      let '(l1, p1, r) := recv_text_control_frame l polls in
      let '(l2, p2, rs) := recv_many n' l1 p1 in (l2, p2, r :: rs)
  end.

Lemma recv_first l batches frames :
  Forall2 (remote_frames (bl_key l) (bl_local_peer_id l)) batches frames →
  match bl_inbound l ++ concat frames with
  | [] => recv_text_control_frame l (Ok <$> batches) = (l, [], None)
  | f :: rest =>
      ∃ q batches' frames' n,
        recv_text_control_frame l (Ok <$> batches)
        = (with_inbound l q n, Ok <$> batches', Some (Ok f)) ∧
        Forall2 (remote_frames (bl_key l) (bl_local_peer_id l)) batches' frames' ∧
        q ++ concat frames' = rest
  end.
Proof.
  intros Hf. destruct (bl_inbound l) as [|f q] eqn:Hin; simpl.
  - induction Hf as [|b fs batches frames Hb Hf IH]; simpl; rewrite Hin; [done|].
    unfold take_remote_frames. simpl. rewrite (open_broadcasts_frames _ _ _ _ Hb).
    destruct fs as [|f q]; simpl; [done|]. by eexists q, batches, frames, _.
  - eexists q, batches, frames, _. split; [|done]. destruct batches; simpl; by rewrite Hin.
Qed.

(** C39. The control lane delivers in order: when every broadcast of the polls is sealed
    under the lane's key by its sender, successive receives return exactly the frames the
    remote peers sealed, in broadcast order, the lane's own echoes left out, and the receive
    after the last one waits. *)
Theorem control_lane_delivers_in_order l batches frames :
  bl_inbound l = [] →
  Forall2 (remote_frames (bl_key l) (bl_local_peer_id l)) batches frames →
  (recv_many (S (length (concat frames))) l (Ok <$> batches)).2 =
  ((λ f, Some (Ok f)) <$> concat frames) ++ [None].
Proof.
  intros Hin Hf.
  assert (∀ rest l batches frames,
    Forall2 (remote_frames (bl_key l) (bl_local_peer_id l)) batches frames →
    bl_inbound l ++ concat frames = rest →
    (recv_many (S (length rest)) l (Ok <$> batches)).2 = ((λ f, Some (Ok f)) <$> rest) ++ [None])
    as Hgen.
  { clear l batches frames Hin Hf. intros rest. induction rest as [|f rest IH]; intros l batches frames Hf Heq.
    - pose proof (recv_first l batches frames Hf) as Hr. rewrite Heq in Hr.
      cbn [length recv_many]. by rewrite Hr.
    - pose proof (recv_first l batches frames Hf) as Hr. rewrite Heq in Hr.
      destruct Hr as (q & b' & fs' & n & Hr & Hf' & Hq).
      specialize (IH (with_inbound l q n) b' fs' Hf' Hq). cbn [length].
      set (m := S (length rest)) in *. cbn [recv_many]. rewrite Hr.
      destruct (recv_many m _ _) as [[l2 p2] rs]. cbn [snd fmap list_fmap app] in IH |- *.
      by rewrite IH. }
  apply Hgen with (frames := frames); [done|]. by rewrite Hin.
Qed.

(** One bad broadcast drops its batch: a poll that holds a remote broadcast which does
    not decode or open returns an error, and the frames of the other broadcasts of that poll,
    which the room no longer has, are not queued. *)
Theorem bad_broadcast_drops_the_batch l before b after rest :
  bl_inbound l = [] → cb_from_peer b ≠ bl_local_peer_id l →
  is_ok (let* e := decode_broker_control_envelope (cb_payload b) in
         open_broker_control_frame (bl_key l) e) = false →
  ∃ e, recv_text_control_frame l (Ok (before ++ b :: after) :: rest) = (l, rest, Some (Err e)).
Proof.
  intros Hin Hb Hbad. simpl. rewrite Hin. unfold take_remote_frames. simpl.
  assert (∃ e, open_broadcasts (bl_key l) (bl_local_peer_id l) (before ++ b :: after) = Err e)
    as [e ->]; [|eauto].
  induction before as [|x before IH]; simpl.
  - rewrite bool_decide_false by done.
    destruct (decode_broker_control_envelope (cb_payload b)); simpl in *; [|eauto].
    destruct (open_broker_control_frame (bl_key l) _); simpl in *; [done|eauto].
  - case_bool_decide; [done|].
    destruct (decode_broker_control_envelope (cb_payload x)); simpl; [|eauto].
    destruct (open_broker_control_frame (bl_key l) _); simpl; [|eauto].
    destruct IH as [e ->]. simpl. eauto.
Qed.

End lane_lemmas.

(** ** Witnesses *)

Section witnesses.
#[local] Existing Instance Toy.toy_sha.
#[local] Existing Instance Toy.toy_aead.
#[local] Existing Instance Toy.toy_aead_laws.
#[local] Existing Instance Toy.toy_aead_octets.
#[local] Existing Instance Toy.toy_b64.
#[local] Existing Instance Toy.toy_b64_laws.

(** Four lengths, then the fields. *)
#[local] Instance toy_envelope_json : EnvelopeJson := {|
  json_encode e :=
    Ok (be_schema_version e :: str_len (be_from_peer e) :: str_len (be_frame_sha256_hex e)
        :: str_len (be_nonce_b64 e)
        :: as_bytes (be_from_peer e) ++ as_bytes (be_frame_sha256_hex e)
           ++ as_bytes (be_nonce_b64 e) ++ as_bytes (be_ciphertext_b64 e));
  json_decode b :=
    match b with
    | v :: n1 :: n2 :: n3 :: r =>
        let r1 := drop (N.to_nat n1) r in
        let r2 := drop (N.to_nat n2) r1 in
        Some {| be_schema_version := v;
                be_from_peer := string_of_bytes (take (N.to_nat n1) r);
                be_frame_sha256_hex := string_of_bytes (take (N.to_nat n2) r1);
                be_nonce_b64 := string_of_bytes (take (N.to_nat n3) r2);
                be_ciphertext_b64 := string_of_bytes (drop (N.to_nat n3) r2) |}
    | _ => None
    end
|}.

#[local] Instance toy_envelope_json_laws : EnvelopeJsonLaws.
Proof.
  split.
  - intros [v p h n c] b. simpl. intros [= <-].
    assert (∀ s, N.to_nat (str_len s) = length (as_bytes s)) as Hl.
    { intros s. unfold str_len. by rewrite Nat2N.id, length_as_bytes. }
    rewrite !Hl. repeat rewrite ?take_app_length, ?drop_app_length.
    by rewrite !string_of_as_bytes.
  - by intros e b [= <-].
Qed.

Definition toy_key : bytes := replicate 32 5.
Definition toy_nonce : bytes := replicate 12 3.

Definition toy_broadcast (peer : string) (frame : bytes) : ControlBroadcast :=
  {| cb_from_peer := peer;
     cb_payload :=
       match seal_broker_control_frame toy_nonce toy_key peer frame with Ok b => b | Err _ => [] end |}.

Definition toy_batch : list ControlBroadcast :=
  [toy_broadcast "bob" [1]; toy_broadcast "me" [2]; toy_broadcast "carol" [3]].

Lemma control_lane_delivers_in_order_witness :
  (recv_many 3 (lane_new toy_key "me") [Ok toy_batch]).2
  = [Some (Ok [1]); Some (Ok [3]); None].
Proof.
  apply (control_lane_delivers_in_order (lane_new toy_key "me") [toy_batch] [[[1]; [3]]]).
  - reflexivity.
  - constructor; [|constructor].
    apply rf_remote; [discriminate| |apply rf_own; [reflexivity|]; apply rf_remote;
      [discriminate| |constructor]];
      exists toy_nonce; (split; [reflexivity|]); (split; [by repeat constructor|]);
      (split; [by repeat constructor|]); reflexivity.
Defined.

Lemma bad_broadcast_drops_the_batch_witness :
  ∃ e, recv_text_control_frame (lane_new toy_key "me")
         [Ok [toy_broadcast "bob" [1]; {| cb_from_peer := "eve"; cb_payload := [] |}]]
       = (lane_new toy_key "me", [], Some (Err e)).
Proof.
  apply (bad_broadcast_drops_the_batch (lane_new toy_key "me") [toy_broadcast "bob" [1]]
           {| cb_from_peer := "eve"; cb_payload := [] |} []);
    [reflexivity|discriminate|reflexivity].
Defined.

End witnesses.
