(* ===== verification/SignalingBus.v ===== *)
(** * The signaling contract and its in-process bus

    [crates/transport/src/signaling.rs]: the data an adapter exchanges and
    [LocalConformanceSignalingBus], the adapter all rooms of one process share. Clock readings
    are milliseconds of the monotonic clock, one per call; the mutex is held for a whole call
    and never poisoned. *)

From S2P Require Import Prelude Collections Bytes Framing StrOps Crypto Transport IcePolicy ConnPolicy RouteGraph ControlLane Timeline NegotiationSeal.

(** ** Data *)

Record PresenceEvent := {
  pv_peer_id : SignalingPeerId;
  pv_encrypted_presence : bytes;
  pv_ttl_seconds : N
}.

Record PeerSignal := {
  sg_from_peer : SignalingPeerId;
  sg_to_peer : SignalingPeerId;
  sg_payload : SealedWebRtcNegotiationPayload
}.

Inductive SignalingHealthState :=
| ShHealthy | ShProviderRateLimited | ShProviderAuthRequired | ShProviderUnhealthy
| ShProviderMessageTooLarge | ShTrustMismatch.

Record SignalingHealth := {
  she_adapter_kind : SignalingAdapterKind;
  she_state : SignalingHealthState;
  she_latency_bucket : string;
  she_failure_class : option string
}.

Record SignalingObservability := {
  so_adapter_kind : SignalingAdapterKind;
  so_endpoint_label : string;
  so_health : SignalingHealthState;
  so_trust_label : AdapterTrustLabel
}.

(** ** The bus *)

Record LocalConformancePresenceRecord := { pr_event : PresenceEvent; pr_expires_at : N }.

Record LocalConformanceRoomState := {
  rm_presence : list LocalConformancePresenceRecord;
  rm_signals : list PeerSignal;
  rm_controls : list bytes
}.

Definition room_default : LocalConformanceRoomState :=
  {| rm_presence := []; rm_signals := []; rm_controls := [] |}.

Abbreviation LocalConformanceBusState := (gmap string LocalConformanceRoomState).

(** An adapter and its session carry the kind; a joined room its key and the local peer. *)
Record LocalConformanceRendezvousRoom := { rr_key : string; rr_local_peer_id : SignalingPeerId }.

Definition adapter_error {A} (detail : string) : result A TransportError :=
  Err (SignalingAdapterFailed detail).

Definition reject_adapter (fails : bool) (detail : string) : result unit TransportError :=
  reject_if fails (SignalingAdapterFailed detail).

(** The session that comes out is the adapter's kind. *)
Definition bus_connect (kind : SignalingAdapterKind) (profile : SignalingAdapterProfile) :
    result SignalingAdapterKind TransportError :=
  check adapter_profile_validate profile in
  check reject_adapter (negb (bool_decide (ap_kind profile = kind)))
    ("profile kind " +:+ kind_canonical_name (ap_kind profile)
     +:+ " does not match local conformance adapter " +:+ kind_canonical_name kind) in
  Ok kind.

Definition bus_capabilities : SignalingAdapterCapabilities := production_required.

Definition bus_observability (kind : SignalingAdapterKind) : SignalingObservability := {|
  so_adapter_kind := kind;
  so_endpoint_label := "local-conformance#" +:+ kind_canonical_name kind;
  so_health := ShHealthy;
  so_trust_label := {| tl_label := kind_canonical_name kind +:+ " local conformance";
                       tl_posture := "deterministic harness; not a public provider" |}
|}.

Definition bus_health (kind : SignalingAdapterKind) : SignalingHealth := {|
  she_adapter_kind := kind; she_state := ShHealthy; she_latency_bucket := "local";
  she_failure_class := None
|}.

Definition room_key (kind : SignalingAdapterKind) (topic : string) : string :=
  kind_canonical_name kind +:+ ":" +:+ topic.

(** [rooms.entry(key).or_default()] *)
Definition room_of (key : string) (b : LocalConformanceBusState) : LocalConformanceRoomState :=
  default room_default (b !! key).

Definition set_room (key : string) (r : LocalConformanceRoomState) (b : LocalConformanceBusState) :
  LocalConformanceBusState := <[key := r]> b.

#[export] Instance ConversationScope_eq_dec : EqDecision ConversationScope.
Proof. solve_decision. Defined.

Definition bus_join (kind : SignalingAdapterKind) (scope : ConversationScope)
    (rendezvous : RendezvousCapability) (local : SignalingPeerId) (b : LocalConformanceBusState) :
    LocalConformanceBusState * result LocalConformanceRendezvousRoom TransportError :=
  match
    check scope_validate scope in
    check reject_adapter (negb (bool_decide (rc_scope rendezvous = scope)))
      "rendezvous capability scope mismatch" in
    reject_adapter (negb (bool_decide (rc_adapter_kind rendezvous = kind)))
      ("rendezvous capability kind " +:+ kind_canonical_name (rc_adapter_kind rendezvous)
       +:+ " does not match adapter " +:+ kind_canonical_name kind)
  with
  | Err e => (b, Err e)
  | Ok _ =>
      let key := room_key kind (rc_topic rendezvous) in
      (set_room key (room_of key b) b, Ok {| rr_key := key; rr_local_peer_id := local |})
  end.

(** ** Room operations *)

Definition unexpired (now : N) (l : list LocalConformancePresenceRecord) :
  list LocalConformancePresenceRecord := filter (λ r, now < pr_expires_at r) l.

Definition set_presence (l : list LocalConformancePresenceRecord)
    (r : LocalConformanceRoomState) : LocalConformanceRoomState :=
  {| rm_presence := l; rm_signals := rm_signals r; rm_controls := rm_controls r |}.

Definition set_signals (l : list PeerSignal) (r : LocalConformanceRoomState) :
    LocalConformanceRoomState :=
  {| rm_presence := rm_presence r; rm_signals := l; rm_controls := rm_controls r |}.

Definition publish_presence (now : N) (room : LocalConformanceRendezvousRoom) (payload : bytes)
    (ttl_seconds : N) (b : LocalConformanceBusState) :
    LocalConformanceBusState * result unit TransportError :=
  if ttl_seconds =? 0 then (b, adapter_error "presence ttl must be non-zero")
  else
    let r := room_of (rr_key room) b in
    let record := {|
      pr_event := {| pv_peer_id := rr_local_peer_id room; pv_encrypted_presence := payload;
                     pv_ttl_seconds := ttl_seconds |};
      pr_expires_at := now + ttl_seconds * 1000 |} in
    (set_room (rr_key room) (set_presence (unexpired now (rm_presence r) ++ [record]) r) b, Ok tt).

Definition subscribe_presence (now : N) (room : LocalConformanceRendezvousRoom)
    (b : LocalConformanceBusState) :
    LocalConformanceBusState * result (list PresenceEvent) TransportError :=
  let r := room_of (rr_key room) b in
  let live := unexpired now (rm_presence r) in
  (set_room (rr_key room) (set_presence live r) b, Ok (pr_event <$> live)).

Definition bus_send_signal (room : LocalConformanceRendezvousRoom) (to_peer : SignalingPeerId)
    (payload : SealedWebRtcNegotiationPayload) (b : LocalConformanceBusState) :
    LocalConformanceBusState * result unit TransportError :=
  if bool_decide (np_ciphertext payload = [])
  then (b, adapter_error "sealed signaling payload must not be empty")
  else
    let r := room_of (rr_key room) b in
    let s := {| sg_from_peer := rr_local_peer_id room; sg_to_peer := to_peer;
                sg_payload := payload |} in
    (set_room (rr_key room) (set_signals (rm_signals r ++ [s]) r) b, Ok tt).

(** The loop over [drain(..)]: mine, and what remains. *)
Fixpoint split_signals (local : SignalingPeerId) (l : list PeerSignal) :
    list PeerSignal * list PeerSignal :=
  match l with
  | [] => ([], [])
  | s :: rest =>
      let '(mine, remaining) := split_signals local rest in
      if bool_decide (sg_to_peer s = local) then (s :: mine, remaining) else (mine, s :: remaining)
  end.

Definition take_signals (room : LocalConformanceRendezvousRoom) (b : LocalConformanceBusState) :
    LocalConformanceBusState * result (list PeerSignal) TransportError :=
  let r := room_of (rr_key room) b in
  let '(mine, remaining) := split_signals (rr_local_peer_id room) (rm_signals r) in
  (set_room (rr_key room) (set_signals remaining r) b, Ok mine).

Definition broadcast_control (room : LocalConformanceRendezvousRoom) (payload : bytes)
    (b : LocalConformanceBusState) : LocalConformanceBusState * result unit TransportError :=
  let r := room_of (rr_key room) b in
  (set_room (rr_key room)
     {| rm_presence := rm_presence r; rm_signals := rm_signals r;
        rm_controls := rm_controls r ++ [payload] |} b, Ok tt).

(** The trait's default; the bus does not override it. *)
Definition take_control_payloads (room : LocalConformanceRendezvousRoom)
    (b : LocalConformanceBusState) :
    LocalConformanceBusState * result (list ControlBroadcast) TransportError := (b, Ok []).

Definition bus_leave (room : LocalConformanceRendezvousRoom) (b : LocalConformanceBusState) :
    LocalConformanceBusState * result unit TransportError :=
  (match b !! rr_key room with
   | Some r =>
       set_room (rr_key room)
         (set_presence
            (filter (λ p, pv_peer_id (pr_event p) ≠ rr_local_peer_id room) (rm_presence r)) r) b
   | None => b
   end, Ok tt).

(** ** Calls of any peers in any order *)

Inductive BusCall :=
| BPublish (now : N) (room : LocalConformanceRendezvousRoom) (payload : bytes) (ttl : N)
| BSubscribe (now : N) (room : LocalConformanceRendezvousRoom)
| BSend (room : LocalConformanceRendezvousRoom) (to : SignalingPeerId)
    (payload : SealedWebRtcNegotiationPayload)
| BTake (room : LocalConformanceRendezvousRoom)
| BBroadcast (room : LocalConformanceRendezvousRoom) (payload : bytes)
| BTakeControl (room : LocalConformanceRendezvousRoom)
| BLeave (room : LocalConformanceRendezvousRoom)
| BJoin (kind : SignalingAdapterKind) (scope : ConversationScope)
    (rendezvous : RendezvousCapability) (local : SignalingPeerId).

(** The bus after a call and the signals the call returned. *)
Definition bus_call (b : LocalConformanceBusState) (c : BusCall) :
    LocalConformanceBusState * list PeerSignal :=
  match c with
  | BPublish now room payload ttl => ((publish_presence now room payload ttl b).1, [])
  | BSubscribe now room => ((subscribe_presence now room b).1, [])
  | BSend room to payload => ((bus_send_signal room to payload b).1, [])
  | BTake room =>
      let '(b', r) := take_signals room b in (b', match r with Ok l => l | Err _ => [] end)
  | BBroadcast room payload => ((broadcast_control room payload b).1, [])
  | BTakeControl room => ((take_control_payloads room b).1, [])
  | BLeave room => ((bus_leave room b).1, [])
  | BJoin kind scope rendezvous local => ((bus_join kind scope rendezvous local b).1, [])
  end.

(** Each call with the signals it returned. *)
Fixpoint bus_run (calls : list BusCall) (b : LocalConformanceBusState) :
    LocalConformanceBusState * list (BusCall * list PeerSignal) :=
  match calls with
  | [] => (b, [])
  | c :: rest =>
      let '(b1, out) := bus_call b c in
      let '(b2, outs) := bus_run rest b1 in (b2, (c, out) :: outs)
  end.

(** *** What was sent, received and is waiting, for one peer of one room *)

Definition sent_to (key : string) (p : SignalingPeerId) (calls : list BusCall) : list PeerSignal :=
  omap (λ c, match c with
             | BSend room to payload =>
                 if bool_decide (rr_key room = key ∧ to = p ∧ np_ciphertext payload ≠ [])
                 then Some {| sg_from_peer := rr_local_peer_id room; sg_to_peer := to;
                              sg_payload := payload |}
                 else None
             | _ => None
             end) calls.

Definition received_by (key : string) (p : SignalingPeerId)
    (outs : list (BusCall * list PeerSignal)) : list PeerSignal :=
  outs ≫= λ o, match o.1 with
               | BTake room =>
                   if bool_decide (rr_key room = key ∧ rr_local_peer_id room = p) then o.2 else []
               | _ => []
               end.

Definition waiting_for (key : string) (p : SignalingPeerId) (b : LocalConformanceBusState) :
  list PeerSignal := filter (λ s, sg_to_peer s = p) (rm_signals (room_of key b)).

(** *** Presence, without ever purging *)

(** Reference: the records of a room under its calls, nothing expires. *)
Definition presence_step (key : string) (l : list LocalConformancePresenceRecord) (c : BusCall) :
    list LocalConformancePresenceRecord :=
  match c with
  | BPublish now room payload ttl =>
      if bool_decide (rr_key room = key) && negb (ttl =? 0) then
        l ++ [{| pr_event := {| pv_peer_id := rr_local_peer_id room;
                                pv_encrypted_presence := payload; pv_ttl_seconds := ttl |};
                 pr_expires_at := now + ttl * 1000 |}]
      else l
  | BLeave room =>
      if bool_decide (rr_key room = key)
      then filter (λ p, pv_peer_id (pr_event p) ≠ rr_local_peer_id room) l else l
  | _ => l
  end.

Definition presence_history (key : string) (calls : list BusCall) :
  list LocalConformancePresenceRecord := foldl (presence_step key) [] calls.

Definition call_time (c : BusCall) : N :=
  match c with BPublish now _ _ _ | BSubscribe now _ => now | _ => 0 end.

(** ** Lemmas *)

Lemma room_of_set key key' r b :
  room_of key (set_room key' r b) = if bool_decide (key' = key) then r else room_of key b.
Proof.
  unfold room_of, set_room. case_bool_decide as E; [subst; by rewrite lookup_insert_eq|].
  by rewrite lookup_insert_ne.
Qed.

Lemma room_of_empty key : room_of key ∅ = room_default.
Proof. unfold room_of. by rewrite lookup_empty. Qed.

Lemma split_signals_spec local l :
  split_signals local l
  = (filter (λ s, sg_to_peer s = local) l, filter (λ s, sg_to_peer s ≠ local) l).
Proof.
  induction l as [|s l IH]; [done|]. cbn [split_signals]. rewrite IH, !filter_cons.
  destruct (decide (sg_to_peer s = local)) as [E|E].
  - rewrite bool_decide_true, decide_False by (done || by intros ?). done.
  - rewrite bool_decide_false, decide_True by done. done.
Qed.

Lemma set_room_same key b : room_of key (set_room key (room_of key b) b) = room_of key b.
Proof. by rewrite room_of_set, bool_decide_true. Qed.

Lemma bus_join_room kind scope rendezvous local b key :
  room_of key (bus_join kind scope rendezvous local b).1 = room_of key b.
Proof.
  unfold bus_join. destruct (rbind _ _); [|done]. cbn [fst]. rewrite room_of_set.
  case_bool_decide as E; [by rewrite E|done].
Qed.

Lemma bus_leave_room room b key :
  room_of key (bus_leave room b).1 =
    if bool_decide (rr_key room = key)
    then set_presence (filter (λ p, pv_peer_id (pr_event p) ≠ rr_local_peer_id room)
                         (rm_presence (room_of key b))) (room_of key b)
    else room_of key b.
Proof.
  unfold bus_leave, room_of. destruct (b !! rr_key room) as [r|] eqn:E; simpl.
  - unfold set_room. case_bool_decide as Ek.
    + subst. by rewrite lookup_insert_eq, E.
    + by rewrite lookup_insert_ne.
  - case_bool_decide as Ek; [|done]. subst. by rewrite E.
Qed.

#[local] Arguments bus_join _ _ _ _ _ : simpl never.

(** What one call does to the signals of a room. *)
Lemma bus_call_signals b c key p :
  let '(b', out) := bus_call b c in
  received_by key p [(c, out)] ++ waiting_for key p b' = waiting_for key p b ++ sent_to key p [c].
Proof.
  destruct c as [now room payload ttl|now room|room to payload|room|room payload|room|room
                |kind scope rendezvous local]; simpl; rewrite ?app_nil_r; try done.
  - unfold publish_presence, waiting_for. destruct (ttl =? 0); [done|]. simpl.
    rewrite room_of_set. by case_bool_decide as E; [subst|].
  - unfold waiting_for. rewrite room_of_set. by case_bool_decide as E; [subst|].
  - unfold bus_send_signal, waiting_for. case_bool_decide as Ec; simpl.
    { rewrite bool_decide_false by (intros (_ & _ & ?); done). by rewrite app_nil_r. }
    rewrite room_of_set. destruct (decide (rr_key room = key)) as [<-|E].
    + rewrite bool_decide_true by done. cbn [rm_signals set_signals]. rewrite filter_app.
      f_equal. rewrite filter_cons, filter_nil. cbn [sg_to_peer].
      destruct (decide (to = p)) as [->|Ep].
      * by rewrite bool_decide_true.
      * by rewrite bool_decide_false by naive_solver.
    + rewrite !bool_decide_false by naive_solver. by rewrite app_nil_r.
  - unfold take_signals. rewrite split_signals_spec. simpl. rewrite app_nil_r.
    unfold waiting_for. rewrite room_of_set. destruct (decide (rr_key room = key)) as [<-|E].
    + rewrite (bool_decide_true (rr_key room = rr_key room)) by done.
      cbn [rm_signals set_signals]. set (l := rm_signals _).
      case_bool_decide as Ep.
      * destruct Ep as [_ <-]. rewrite list_filter_filter.
        assert (filter (λ s, sg_to_peer s = rr_local_peer_id room
                          ∧ sg_to_peer s ≠ rr_local_peer_id room) l = []) as ->; [|by rewrite app_nil_r].
        clear. induction l as [|s l IH]; [done|].
        rewrite filter_cons_False by naive_solver. done.
      * simpl. rewrite list_filter_filter. apply list_filter_iff. naive_solver.
    + rewrite !bool_decide_false by naive_solver. done.
  - unfold waiting_for. rewrite room_of_set. by case_bool_decide as E; [subst|].
  - change (waiting_for key p (bus_leave room b).1 = waiting_for key p b).
    unfold waiting_for. rewrite bus_leave_room. by case_bool_decide.
  - unfold waiting_for. by rewrite bus_join_room.
Qed.

Lemma bus_run_signals calls b key p :
  let '(b', outs) := bus_run calls b in
  received_by key p outs ++ waiting_for key p b' = waiting_for key p b ++ sent_to key p calls.
Proof.
  revert b. induction calls as [|c calls IH]; intros b; simpl; [by rewrite app_nil_r|].
  pose proof (bus_call_signals b c key p) as Hc. destruct (bus_call b c) as [b1 out].
  specialize (IH b1). destruct (bus_run calls b1) as [b2 outs].
  change ((c, out) :: outs) with ([(c, out)] ++ outs).
  unfold received_by in *. rewrite bind_app, <- app_assoc, IH, app_assoc, Hc, <- app_assoc.
  f_equal. symmetry. exact (omap_app _ [c] calls).
Qed.

(** *** Presence *)

Lemma unexpired_app now l k : unexpired now (l ++ k) = unexpired now l ++ unexpired now k.
Proof. apply filter_app. Qed.

Lemma unexpired_later now now' l : now ≤ now' → unexpired now' (unexpired now l) = unexpired now' l.
Proof.
  intros Hle. unfold unexpired. rewrite list_filter_filter. apply list_filter_iff.
  intros r. split; [by intros [? ?]|]. intros Hr. split; [done|lia].
Qed.

(** One call changes the live records of a room as the reference does. *)
Lemma bus_call_presence b c key now l :
  call_time c ≤ now →
  unexpired now (rm_presence (room_of key b)) = unexpired now l →
  unexpired now (rm_presence (room_of key (bus_call b c).1))
  = unexpired now (presence_step key l c).
Proof.
  intros Ht Hl.
  destruct c as [t room payload ttl|t room|room to payload|room|room payload|room|room
                |kind scope rendezvous local]; cbn [bus_call presence_step call_time] in *; try done.
  - unfold publish_presence. destruct (ttl =? 0); cbn [fst negb].
    { by rewrite andb_false_r. }
    rewrite room_of_set, andb_true_r. case_bool_decide as E; [|done]. subst key.
    cbn [rm_presence set_presence]. rewrite !unexpired_app, unexpired_later by done. by rewrite Hl.
  - cbn [subscribe_presence fst]. rewrite room_of_set. case_bool_decide as E; [|done]. subst key.
    cbn [rm_presence set_presence]. by rewrite unexpired_later.
  - unfold bus_send_signal. destruct (bool_decide _); [done|]. cbn [fst]. rewrite room_of_set.
    case_bool_decide as E; [|done]. by subst key.
  - unfold take_signals. rewrite split_signals_spec. cbn [fst]. rewrite room_of_set.
    case_bool_decide as E; [|done]. by subst key.
  - cbn [broadcast_control fst]. rewrite room_of_set. case_bool_decide as E; [|done]. by subst key.
  - cbn [fst]. rewrite bus_leave_room. case_bool_decide as E; [|done].
    cbn [rm_presence set_presence]. unfold unexpired in *.
    rewrite !list_filter_filter. rewrite (list_filter_iff _ _ _ (λ x, and_comm _ _)),
      <- list_filter_filter, Hl, list_filter_filter. apply list_filter_iff. naive_solver.
  - cbn [fst]. by rewrite bus_join_room.
Qed.

Lemma bus_run_presence calls b key now l :
  Forall (λ c, call_time c ≤ now) calls →
  unexpired now (rm_presence (room_of key b)) = unexpired now l →
  unexpired now (rm_presence (room_of key (bus_run calls b).1))
  = unexpired now (foldl (presence_step key) l calls).
Proof.
  intros Hc. revert b l. induction Hc as [|c calls Hc _ IH]; intros b l Hl; simpl; [done|].
  pose proof (bus_call_presence b c key now l Hc Hl) as Hb.
  destruct (bus_call b c) as [b1 out]. specialize (IH b1 _ Hb).
  by destruct (bus_run calls b1) as [b2 outs].
Qed.

Lemma kind_name_no_colon k : 58 ∉ as_bytes (kind_canonical_name k).
Proof. destruct k; vm_compute; intros Hin; repeat (apply elem_of_cons in Hin as [?|Hin]; [done|]);
  by apply elem_of_nil in Hin. Qed.

Lemma room_key_inj k k' t t' : room_key k t = room_key k' t' → k = k' ∧ t = t'.
Proof.
  unfold room_key. intros E%(f_equal as_bytes). rewrite !as_bytes_app in E.
  change (as_bytes ":") with [58] in E.
  apply sep_app_inj in E as [E1%(inj as_bytes) E2%(inj as_bytes)]; [|apply kind_name_no_colon..].
  split; [|done]. by destruct k, k'.
Qed.

(** The payloads broadcast in a room. *)
Definition broadcasts_in (key : string) (calls : list BusCall) : list bytes :=
  omap (λ c, match c with
             | BBroadcast room payload => if bool_decide (rr_key room = key) then Some payload else None
             | _ => None
             end) calls.

Lemma bus_call_controls b c key :
  rm_controls (room_of key (bus_call b c).1) = rm_controls (room_of key b) ++ broadcasts_in key [c].
Proof.
  destruct c as [t room payload ttl|t room|room to payload|room|room payload|room|room
                |kind scope rendezvous local]; cbn [bus_call broadcasts_in omap list_omap];
    rewrite ?app_nil_r; try done.
  - unfold publish_presence. destruct (ttl =? 0); cbn [fst]; [done|]. rewrite room_of_set.
    case_bool_decide as E; [by subst key|done].
  - cbn [subscribe_presence fst]. rewrite room_of_set. case_bool_decide as E; [by subst key|done].
  - unfold bus_send_signal. destruct (bool_decide _); cbn [fst]; [done|]. rewrite room_of_set.
    case_bool_decide as E; [by subst key|done].
  - unfold take_signals. rewrite split_signals_spec. cbn [fst]. rewrite room_of_set.
    case_bool_decide as E; [by subst key|done].
  - unfold broadcast_control. cbn [fst]. rewrite room_of_set.
    case_bool_decide as E; [by subst key|by rewrite app_nil_r].
  - cbn [fst]. rewrite bus_leave_room. by case_bool_decide.
  - cbn [fst]. by rewrite bus_join_room.
Qed.

Lemma bus_run_controls calls b key :
  rm_controls (room_of key (bus_run calls b).1)
  = rm_controls (room_of key b) ++ broadcasts_in key calls.
Proof.
  revert b. induction calls as [|c calls IH]; intros b; simpl; [by rewrite app_nil_r|].
  pose proof (bus_call_controls b c key) as Hc. destruct (bus_call b c) as [b1 out].
  specialize (IH b1). destruct (bus_run calls b1) as [b2 outs]. cbn [fst] in *.
  rewrite IH, Hc, <- app_assoc. f_equal. symmetry. exact (omap_app _ [c] calls).
Qed.

(** ** Properties *)

(** Signals are delivered once and in order: over any interleaving of calls by any peers on
    an empty bus, what a peer has taken from a room followed by what still waits for it there
    is exactly what was sent to it in that room (non-empty payloads), in sending order. *)
Theorem signals_are_delivered_once key p calls :
  let '(b, outs) := bus_run calls ∅ in
  received_by key p outs ++ waiting_for key p b = sent_to key p calls.
Proof.
  pose proof (bus_run_signals calls ∅ key p) as Hr. destruct (bus_run calls ∅) as [b outs].
  rewrite Hr. unfold waiting_for. by rewrite room_of_empty.
Qed.

(** Presence is what was published and neither expired nor withdrawn: after calls made no
    later than now, a subscription returns exactly the events published in the room whose
    time to live is not over, except those of peers that left after publishing them, in order
    of publication; the records purged along the way make no difference. *)
Theorem presence_is_exact calls room now :
  Forall (λ c, call_time c ≤ now) calls →
  (subscribe_presence now room (bus_run calls ∅).1).2
  = Ok (pr_event <$> unexpired now (presence_history (rr_key room) calls)).
Proof.
  intros Hc. unfold subscribe_presence. cbn [snd]. do 2 f_equal.
  apply bus_run_presence; [done|]. by rewrite room_of_empty.
Qed.

(** Rooms are apart: two sessions that join get rooms of the same key only when they are of
    the same adapter kind and their capabilities name the same topic; and a session joins only
    with a capability of its own kind and scope. *)
Theorem rooms_are_apart kind kind' scope scope' r r' p p' b b' room room' :
  (bus_join kind scope r p b).2 = Ok room → (bus_join kind' scope' r' p' b').2 = Ok room' →
  rc_adapter_kind r = kind ∧ rc_scope r = scope ∧ rr_local_peer_id room = p
  ∧ (rr_key room = rr_key room' ↔ kind = kind' ∧ rc_topic r = rc_topic r').
Proof.
  assert (∀ k sc c q b0 rm, (bus_join k sc c q b0).2 = Ok rm →
            rc_adapter_kind c = k ∧ rc_scope c = sc ∧ rm = {| rr_key := room_key k (rc_topic c);
                                                             rr_local_peer_id := q |}) as Hj.
  { intros k sc c q b0 rm. unfold bus_join. destruct (rbind _ _) eqn:E; [|done].
    intros [= <-]. apply check_ok in E as [_ E]. apply check_ok in E as [E1 E2].
    unfold reject_adapter, reject_if in E1, E2. repeat case_bool_decide; done. }
  intros (Hk & Hs & ->)%Hj (_ & _ & ->)%Hj. split_and!; [done..|]. simpl. split.
  - by intros ?%room_key_inj.
  - by intros [-> ->].
Qed.

(** Broadcasts are never read back: over any calls, the room keeps every payload broadcast
    in it, and reading control payloads returns none of them. *)
Theorem broadcasts_are_never_read calls room :
  rm_controls (room_of (rr_key room) (bus_run calls ∅).1) = broadcasts_in (rr_key room) calls
  ∧ (take_control_payloads room (bus_run calls ∅).1).2 = Ok [].
Proof. split; [|done]. by rewrite bus_run_controls, room_of_empty. Qed.

(** ** Witnesses *)

Section witnesses.
Let room (p : string) : LocalConformanceRendezvousRoom :=
  {| rr_key := "mqtt:t"; rr_local_peer_id := p |}.
Let scope : ConversationScope := {|
  cs_level := LevelAppDefault; cs_scope_id_commitment := "app_default";
  cs_parent_scope_commitment := None |}.
Let capability : RendezvousCapability := {|
  rc_scope := scope; rc_adapter_kind := KMqtt; rc_topic := "t";
  rc_publish_token_commitment := None; rc_subscribe_token_commitment := None;
  rc_ttl_seconds := 60; rc_metadata_posture := HashedTopic;
  rc_trust_label := {| tl_label := "l"; tl_posture := "p" |} |}.

Lemma presence_is_exact_witness :
  (subscribe_presence 5000 (room "b")
     (bus_run [BPublish 0 (room "a") [1] 3; BPublish 1000 (room "b") [2] 60] ∅).1).2
  = Ok [{| pv_peer_id := "b"; pv_encrypted_presence := [2]; pv_ttl_seconds := 60 |}].
Proof.
  assert (Forall (λ c, call_time c ≤ 5000)
            [BPublish 0 (room "a") [1] 3; BPublish 1000 (room "b") [2] 60]) as H
    by (repeat constructor; simpl; lia).
  rewrite (presence_is_exact _ (room "b") 5000 H). vm_compute. reflexivity.
Defined.

Lemma rooms_are_apart_witness :
  rc_adapter_kind capability = KMqtt.
Proof.
  assert ((bus_join KMqtt scope capability "a" ∅).2 = Ok (room "a")) as H
    by (vm_compute; reflexivity).
  exact (proj1 (rooms_are_apart KMqtt KMqtt scope scope capability capability "a" "a" ∅ ∅ _ _ H H)).
Defined.
End witnesses.
