(* ===== verification/ProviderPlan.v ===== *)
(** * Provider adapters: readiness, fallback and reports

    The first part of [crates/transport/src/provider_adapters.rs]: which signaling adapters a
    build has, the plan that picks one, the classification of provider failures, the report
    about a WebRTC setup over a provider, and the guards on signals. The Cargo features of the
    build are a parameter. *)

From S2P Require Import Prelude Collections Bytes Framing StrOps Crypto Transport IcePolicy ConnPolicy RouteGraph ControlLane Timeline NegotiationSeal SignalingBus.

(** ** Readiness *)

Inductive AdapterReadinessState :=
| ArFeatureDisabled | ArImplementationUnavailable | ArAvailable | ArProviderUnhealthy
| ArProviderRateLimited | ArProviderAuthRequired | ArProviderMessageTooLarge | ArTrustMismatch
| ArIceFailedRequiresTurn | ArConnected.

#[export] Instance AdapterReadinessState_eq_dec : EqDecision AdapterReadinessState.
Proof. solve_decision. Defined.

Definition readiness_selectable (r : AdapterReadinessState) : bool :=
  match r with ArAvailable | ArConnected => true | _ => false end.

Definition readiness_failure_class (r : AdapterReadinessState) : string :=
  match r with
  | ArFeatureDisabled => "feature_disabled"
  | ArImplementationUnavailable => "implementation_unavailable"
  | ArAvailable => "available"
  | ArProviderUnhealthy => "provider_unhealthy"
  | ArProviderRateLimited => "provider_rate_limited"
  | ArProviderAuthRequired => "provider_auth_required"
  | ArProviderMessageTooLarge => "provider_message_too_large"
  | ArTrustMismatch => "trust_mismatch"
  | ArIceFailedRequiresTurn => "ice_failed_requires_turn"
  | ArConnected => "connected"
  end.

Definition to_health_state (r : AdapterReadinessState) : SignalingHealthState :=
  match r with
  | ArAvailable | ArConnected => ShHealthy
  | ArProviderRateLimited => ShProviderRateLimited
  | ArProviderAuthRequired => ShProviderAuthRequired
  | ArProviderMessageTooLarge => ShProviderMessageTooLarge
  | ArTrustMismatch => ShTrustMismatch
  | ArFeatureDisabled | ArImplementationUnavailable | ArProviderUnhealthy
  | ArIceFailedRequiresTurn => ShProviderUnhealthy
  end.

Definition contains_any (markers : list string) (s : string) : bool :=
  existsb (λ m, str_contains m s) markers.

Definition classify_provider_failure (message : string) : AdapterReadinessState :=
  let normalized := to_ascii_lowercase message in
  if contains_any ["rate-limit"; "ratelimit"; "too much"; "slow down"] normalized
  then ArProviderRateLimited
  else if contains_any ["auth"; "unauthorized"; "not authorized"; "forbidden"; "blocked"] normalized
  then ArProviderAuthRequired
  else if contains_any ["too large"; "message size"; "payload size"; "max message"] normalized
  then ArProviderMessageTooLarge
  else if contains_any ["trust"; "fingerprint"; "certificate"] normalized then ArTrustMismatch
  else ArProviderUnhealthy.

(** ** Boundaries, registry and factories *)

Inductive ProviderAdapterReadiness :=
| PrFeatureDisabled | PrImplementationUnavailable | PrImplementationAvailable.

#[export] Instance ProviderAdapterReadiness_eq_dec : EqDecision ProviderAdapterReadiness.
Proof. solve_decision. Defined.

Record ProviderAdapterBoundary := {
  bd_kind : SignalingAdapterKind;
  bd_cargo_feature : string;
  bd_readiness : ProviderAdapterReadiness
}.

#[export] Instance ProviderAdapterBoundary_eq_dec : EqDecision ProviderAdapterBoundary.
Proof. solve_decision. Defined.

Definition boundary_readiness_state (b : ProviderAdapterBoundary) : AdapterReadinessState :=
  match bd_readiness b with
  | PrFeatureDisabled => ArFeatureDisabled
  | PrImplementationUnavailable => ArImplementationUnavailable
  | PrImplementationAvailable => ArAvailable
  end.

Definition implementation_available (b : ProviderAdapterBoundary) : bool :=
  bool_decide (bd_readiness b = PrImplementationAvailable).

Definition boundary_failure_class (b : ProviderAdapterBoundary) : string :=
  match bd_readiness b with
  | PrFeatureDisabled => "feature_disabled"
  | PrImplementationUnavailable => "implementation_unavailable"
  | PrImplementationAvailable => "implementation_available"
  end.

Definition boundary_unavailable_error (b : ProviderAdapterBoundary) : TransportError :=
  let name := kind_canonical_name (bd_kind b) in
  SignalingAdapterFailed
    match bd_readiness b with
    | PrFeatureDisabled =>
        name +:+ " adapter is not enabled; compile with Cargo feature " +:+ bd_cargo_feature b
        +:+ " only after an audited provider client is wired"
    | PrImplementationUnavailable =>
        name +:+ " adapter feature " +:+ bd_cargo_feature b
        +:+ " is enabled but no audited production provider client is wired"
    | PrImplementationAvailable =>
        name +:+ " adapter feature " +:+ bd_cargo_feature b
        +:+ " is available; use its concrete production adapter instead of the fail-closed boundary"
    end.

(** [cfg!(feature = ..)] for the feature of each kind. *)
Class CargoFeatures := feature_enabled : SignalingAdapterKind → bool.

(** A factory holds the concrete adapter when the feature is enabled, the fail-closed one
    otherwise. *)
Inductive SignalingAdapterFactory :=
| FactoryMqtt (concrete : bool)
| FactoryNostr (concrete : bool)
| FactoryIpfsPubsub (concrete : bool)
| FactoryQuicRendezvous (concrete : bool).

Record SignalingAdapterRegistryEntry := {
  re_kind : SignalingAdapterKind;
  re_boundary : ProviderAdapterBoundary
}.

Section registry.
Context `{CargoFeatures}.

Definition feature_readiness (kind : SignalingAdapterKind) : ProviderAdapterReadiness :=
  if feature_enabled kind then PrImplementationAvailable else PrFeatureDisabled.

Definition adapter_boundary_for_kind (kind : SignalingAdapterKind) : ProviderAdapterBoundary := {|
  bd_kind := kind;
  bd_cargo_feature := match kind with
                      | KMqtt => "mqtt-adapter"
                      | KNostr => "nostr-adapter"
                      | KIpfsPubsub => "ipfs-pubsub-adapter"
                      | KQuicRendezvous => "discrypt-quic-rendezvous-adapter"
                      end;
  bd_readiness := feature_readiness kind
|}.

Definition required_kinds : list SignalingAdapterKind :=
  [KMqtt; KNostr; KIpfsPubsub; KQuicRendezvous].

Definition required_provider_adapter_boundaries : list ProviderAdapterBoundary :=
  adapter_boundary_for_kind <$> required_kinds.

Definition required_provider_adapter_registry : list SignalingAdapterRegistryEntry :=
  (λ k, {| re_kind := k; re_boundary := adapter_boundary_for_kind k |}) <$> required_kinds.

Definition entry_readiness_state (e : SignalingAdapterRegistryEntry) : AdapterReadinessState :=
  boundary_readiness_state (re_boundary e).

Definition required_provider_adapter_registry_entry (kind : SignalingAdapterKind) :
    option SignalingAdapterRegistryEntry :=
  snd <$> list_find (λ e, re_kind e = kind) required_provider_adapter_registry.

Definition factory_for_kind (kind : SignalingAdapterKind) : SignalingAdapterFactory :=
  match kind with
  | KMqtt => FactoryMqtt (feature_enabled KMqtt)
  | KNostr => FactoryNostr (feature_enabled KNostr)
  | KIpfsPubsub => FactoryIpfsPubsub (feature_enabled KIpfsPubsub)
  | KQuicRendezvous => FactoryQuicRendezvous (feature_enabled KQuicRendezvous)
  end.

(** The fail-closed adapter carries the same boundary. *)
Definition factory_boundary (f : SignalingAdapterFactory) : ProviderAdapterBoundary :=
  match f with
  | FactoryMqtt _ => adapter_boundary_for_kind KMqtt
  | FactoryNostr _ => adapter_boundary_for_kind KNostr
  | FactoryIpfsPubsub _ => adapter_boundary_for_kind KIpfsPubsub
  | FactoryQuicRendezvous _ => adapter_boundary_for_kind KQuicRendezvous
  end.

Definition factory_kind (f : SignalingAdapterFactory) : SignalingAdapterKind :=
  bd_kind (factory_boundary f).

Definition factory_readiness_state (f : SignalingAdapterFactory) : AdapterReadinessState :=
  boundary_readiness_state (factory_boundary f).

Definition factory_selectable (f : SignalingAdapterFactory) : bool :=
  readiness_selectable (factory_readiness_state f).

Definition factory_for_profile (profile : SignalingAdapterProfile) :
    result SignalingAdapterFactory TransportError :=
  check adapter_profile_validate profile in
  let kind := ap_kind profile in
  let* entry := ok_or (required_provider_adapter_registry_entry kind)
    (InvalidConnectivityPolicy ("signaling adapter kind " +:+ kind_canonical_name kind
       +:+ " is not present in the required adapter registry")) in
  check reject_if (negb (bool_decide (adapter_boundary_for_kind kind = re_boundary entry)))
    (InvalidConnectivityPolicy ("signaling adapter registry boundary for "
       +:+ kind_canonical_name kind +:+ " does not match factory boundary")) in
  Ok (factory_for_kind kind).

(** ** Fallback plans *)

Record SignalingAdapterFallbackAttempt := {
  fa_kind : SignalingAdapterKind;
  fa_readiness : AdapterReadinessState;
  fa_attempted : bool;
  fa_selected : bool
}.

Record SignalingAdapterFallbackPlan := {
  fp_behavior : AdapterFallbackBehavior;
  fp_attempts : list SignalingAdapterFallbackAttempt;
  fp_selected : option SignalingAdapterKind
}.

Definition has_selected (p : SignalingAdapterFallbackPlan) : bool :=
  bool_decide (is_Some (fp_selected p)).

Definition all_unavailable (p : SignalingAdapterFallbackPlan) : bool := negb (has_selected p).

(** [requested_unique]: the first occurrence of each kind. *)
Definition push_unique (l : list SignalingAdapterKind) (k : SignalingAdapterKind) :
  list SignalingAdapterKind := if bool_decide (k ∈ l) then l else l ++ [k].

Definition requested_unique (requested : list SignalingAdapterKind) : list SignalingAdapterKind :=
  foldl push_unique [] requested.

Fixpoint attempt_loop (behavior : AdapterFallbackBehavior)
    (selected : option SignalingAdapterKind) (attempts : list SignalingAdapterFallbackAttempt)
    (kinds : list SignalingAdapterKind) :
    list SignalingAdapterFallbackAttempt * option SignalingAdapterKind :=
  match kinds with
  | [] => (attempts, selected)
  | kind :: rest =>
      let readiness := factory_readiness_state (factory_for_kind kind) in
      let none := bool_decide (selected = None) in
      let is_selected := match behavior with
                         | TryAll | FirstHealthy => none && readiness_selectable readiness
                         | ManualOnly => readiness_selectable readiness
                         end in
      let attempted := match behavior with
                       | TryAll | ManualOnly => true
                       | FirstHealthy => none
                       end in
      let attempts := attempts ++ [{| fa_kind := kind; fa_readiness := readiness;
                                      fa_attempted := attempted; fa_selected := is_selected |}] in
      let selected := if is_selected then Some kind else selected in
      if negb (bool_decide (behavior = TryAll)) && is_selected then (attempts, selected)
      else attempt_loop behavior selected attempts rest
  end.

Definition plan_signaling_adapter_fallback (requested : list SignalingAdapterKind)
    (behavior : AdapterFallbackBehavior) (manual : option SignalingAdapterKind) :
    SignalingAdapterFallbackPlan :=
  let ordered := if bool_decide (behavior = ManualOnly) then option_list manual
                 else requested_unique requested in
  let '(attempts, selected) := attempt_loop behavior None [] ordered in
  {| fp_behavior := behavior; fp_attempts := attempts; fp_selected := selected |}.
End registry.

(** ** Guards on negotiation signals *)

Definition PROVIDER_NEGOTIATION_SIGNAL_TTL_SECONDS : Z := 75.
Definition PROVIDER_NEGOTIATION_SIGNAL_CLOCK_SKEW_SECONDS : Z := 300.

(** [i64::saturating_add] *)
Definition i64_sat_add (a b : Z) : Z := Z.max (- 2 ^ 63) (Z.min (2 ^ 63 - 1) (a + b)).

Definition provider_signal_matches_negotiation (p : SealedWebRtcNegotiationPayload)
    (id : option bytes) : bool := bool_decide (np_negotiation_id p = id).

Definition provider_signal_is_current (p : SealedWebRtcNegotiationPayload) (now : Z) : bool :=
  match np_expires_at p with
  | None => false
  | Some expires_at =>
      (now <? i64_sat_add expires_at PROVIDER_NEGOTIATION_SIGNAL_CLOCK_SKEW_SECONDS)%Z
      && (expires_at <=? i64_sat_add (i64_sat_add now PROVIDER_NEGOTIATION_SIGNAL_TTL_SECONDS)
                           PROVIDER_NEGOTIATION_SIGNAL_CLOCK_SKEW_SECONDS)%Z
  end.

Definition provider_answerer_allows_offer_replacement (active incoming : option bytes)
    (seen : gset bytes) : bool :=
  match incoming with
  | None => false
  | Some id => negb (bool_decide (Some id = active)) && negb (bool_decide (id ∈ seen))
  end.

Definition should_try_final_data_channel_grace (negotiation_started data_channel_open : bool) : bool :=
  negotiation_started && negb data_channel_open.

(** ** Redacted labels *)

Section labels.
Context `{Sha256}.

Definition sha256_hex (b : bytes) : string := lower_hex (sha256 b).

Definition redacted_observable_digest (value : string) : string :=
  lower_hex (take 6 (sha256 (as_bytes value))).

Definition redacted_endpoint_label (endpoint : string) : string :=
  let scheme := match split_once ":" endpoint with Some (scheme, _) => scheme | None => "endpoint" end in
  scheme +:+ "#" +:+ redacted_observable_digest endpoint.

Definition redacted_peer_label (peer : SignalingPeerId) : string :=
  "peer#" +:+ redacted_observable_digest peer.

Definition default_receipt_control_frame (frame : bytes) : bytes :=
  as_bytes ("ciphertext:provider-webrtc-receipt:v1:" +:+ sha256_hex frame).
End labels.

(** ** Reports on WebRTC setups *)

Record ProviderWebRtcDataChannelProbe := {
  wp_kind : SignalingAdapterKind;
  wp_profile_id : string;
  wp_endpoint_label : string;
  wp_scope_commitment : string;
  wp_rendezvous_topic : string;
  wp_offerer_direct_path_ready : bool;
  wp_answerer_direct_path_ready : bool;
  wp_offerer_turn_fallback_ready : bool;
  wp_answerer_turn_fallback_ready : bool;
  wp_offerer_configured_turn_servers : N;
  wp_answerer_configured_turn_servers : N;
  wp_offerer_local_relay_candidates_gathered : N;
  wp_answerer_local_relay_candidates_gathered : N;
  wp_offerer_remote_relay_candidates_applied : N;
  wp_answerer_remote_relay_candidates_applied : N;
  wp_offerer_data_channel_open : bool;
  wp_answerer_data_channel_open : bool;
  wp_text_control_frame_roundtrip : bool;
  wp_text_control_frame_sha256 : string;
  wp_receipt_frame_roundtrip : bool;
  wp_receipt_frame_sha256 : string;
  wp_offerer_timeline : option WebRtcDiagnosticTimeline;
  wp_answerer_timeline : option WebRtcDiagnosticTimeline
}.

Inductive IceDtlsProviderFailureKind :=
| FkProviderMissing | FkOfferMissing | FkAnswerMissing | FkCandidateMissing | FkIceFailed
| FkDtlsFailed | FkDataChannelFailed | FkTurnRequired | FkConnected.

Definition failure_code (k : IceDtlsProviderFailureKind) : string :=
  match k with
  | FkProviderMissing => "provider_missing"
  | FkOfferMissing => "offer_missing"
  | FkAnswerMissing => "answer_missing"
  | FkCandidateMissing => "candidate_missing"
  | FkIceFailed => "ice_failed"
  | FkDtlsFailed => "dtls_failed"
  | FkDataChannelFailed => "data_channel_failed"
  | FkTurnRequired => "turn_required"
  | FkConnected => "connected"
  end.

Record IceDtlsProviderReport := {
  ip_schema_version : N;
  ip_failure_kind : IceDtlsProviderFailureKind;
  ip_status : string;
  ip_detail : string;
  ip_provider_selected : bool;
  ip_provider_application_relay_used : bool;
  ip_offer_observed : bool;
  ip_answer_observed : bool;
  ip_candidate_observed : bool;
  ip_ice_state : option string;
  ip_dtls_state : option string;
  ip_data_channel_state : string;
  ip_turn_required : bool
}.

Definition timelines (p : ProviderWebRtcDataChannelProbe) : list WebRtcDiagnosticTimeline :=
  option_list (wp_offerer_timeline p) ++ option_list (wp_answerer_timeline p).

Definition timeline_sdp_observed (t : WebRtcSdpType) (p : ProviderWebRtcDataChannelProbe) : bool :=
  existsb (λ tl, match t with
                 | SdpOffer => 0 <? dt_offer_count tl
                 | SdpAnswer => 0 <? dt_answer_count tl
                 end) (timelines p).

Definition candidate_evidence (direction : string) (e : WebRtcDiagnosticEvent) : bool :=
  bool_decide (ev_kind e = "ice_candidate") && bool_decide (ev_direction e = Some direction)
  && match ev_state e with
     | None => true
     | Some s => bool_decide (s = "applied") || bool_decide (s = "queued")
     end.

Definition timeline_candidate_observed (direction : string) (p : ProviderWebRtcDataChannelProbe) :
    bool := existsb (λ tl, existsb (candidate_evidence direction) (dt_events tl)) (timelines p).

(** [max_by]: the last of the greatest. *)
Definition later (best : option WebRtcDiagnosticEvent) (e : WebRtcDiagnosticEvent) :
    option WebRtcDiagnosticEvent :=
  match best with
  | Some b => if (ev_observed_at b <=? ev_observed_at e)%Z then Some e else best
  | None => Some e
  end.

Definition last_timeline_state (kind : string) (p : ProviderWebRtcDataChannelProbe) :
    option string :=
  e ← foldl later None (filter (λ e, ev_kind e = kind) (timelines p ≫= dt_events)); ev_state e.

Definition state_failed (state : option string) : bool :=
  match state with
  | None => false
  | Some s =>
      let s := to_ascii_lowercase s in
      bool_decide (s ∈ ["failed"; "disconnected"; "closed"; "error"; "not_open"])
  end.

Definition provider_missing (detail : string) : IceDtlsProviderReport := {|
  ip_schema_version := 1; ip_failure_kind := FkProviderMissing;
  ip_status := failure_code FkProviderMissing; ip_detail := detail; ip_provider_selected := false;
  ip_provider_application_relay_used := false; ip_offer_observed := false;
  ip_answer_observed := false; ip_candidate_observed := false; ip_ice_state := None;
  ip_dtls_state := None; ip_data_channel_state := "not_observed"; ip_turn_required := false
|}.

Definition bool_text (b : bool) : string := if b then "true" else "false".

Definition direct_ready (p : ProviderWebRtcDataChannelProbe) : bool :=
  wp_offerer_direct_path_ready p && wp_answerer_direct_path_ready p.

Definition turn_ready (configured_turn_available : bool) (p : ProviderWebRtcDataChannelProbe) : bool :=
  wp_offerer_turn_fallback_ready p && wp_answerer_turn_fallback_ready p
  && (0 <? wp_offerer_configured_turn_servers p) && (0 <? wp_answerer_configured_turn_servers p)
  && configured_turn_available.

Definition data_channel_state (p : ProviderWebRtcDataChannelProbe) : string :=
  default (if wp_offerer_data_channel_open p && wp_answerer_data_channel_open p then "open"
           else "not_open")
    (last_timeline_state "data_channel" p).

Definition data_channel_ready (p : ProviderWebRtcDataChannelProbe) : bool :=
  wp_offerer_data_channel_open p && wp_answerer_data_channel_open p
  && wp_text_control_frame_roundtrip p.

Definition candidate_observed (p : ProviderWebRtcDataChannelProbe) : bool :=
  timeline_candidate_observed "local" p && timeline_candidate_observed "remote" p.

Definition failure_kind (configured_turn_available : bool) (p : ProviderWebRtcDataChannelProbe) :
    IceDtlsProviderFailureKind :=
  if negb (timeline_sdp_observed SdpOffer p) then FkOfferMissing
  else if negb (timeline_sdp_observed SdpAnswer p) then FkAnswerMissing
  else if negb (candidate_observed p) then FkCandidateMissing
  else if state_failed (last_timeline_state "ice_connection_state" p) then FkIceFailed
  else if state_failed (last_timeline_state "dtls_transport_state" p) then FkDtlsFailed
  else if negb (direct_ready p) && negb (turn_ready configured_turn_available p)
  then FkTurnRequired
  else if negb (data_channel_ready p) || state_failed (Some (data_channel_state p))
  then FkDataChannelFailed
  else FkConnected.

Definition report_from_probe `{Sha256} (configured_turn_available : bool)
    (p : ProviderWebRtcDataChannelProbe) : IceDtlsProviderReport :=
  let offer_observed := timeline_sdp_observed SdpOffer p in
  let answer_observed := timeline_sdp_observed SdpAnswer p in
  let ice_state := last_timeline_state "ice_connection_state" p in
  let dtls_state := last_timeline_state "dtls_transport_state" p in
  let turn := turn_ready configured_turn_available p in
  let kind := failure_kind configured_turn_available p in
  {| ip_schema_version := 1; ip_failure_kind := kind; ip_status := failure_code kind;
     ip_detail :=
       "adapter=" +:+ kind_canonical_name (wp_kind p) +:+ " profile=" +:+ wp_profile_id p
       +:+ " endpoint=" +:+ wp_endpoint_label p
       +:+ " topic_digest=" +:+ redacted_observable_digest (wp_rendezvous_topic p)
       +:+ " offer=" +:+ bool_text offer_observed +:+ " answer=" +:+ bool_text answer_observed
       +:+ " candidates=" +:+ bool_text (candidate_observed p)
       +:+ " ice_state=" +:+ default "not_observed" ice_state
       +:+ " dtls_state=" +:+ default "not_observed" dtls_state
       +:+ " data_channel_state=" +:+ data_channel_state p
       +:+ " direct_ready=" +:+ bool_text (direct_ready p) +:+ " turn_ready=" +:+ bool_text turn
       +:+ " provider_application_relay_used=false";
     ip_provider_selected := true; ip_provider_application_relay_used := false;
     ip_offer_observed := offer_observed; ip_answer_observed := answer_observed;
     ip_candidate_observed := candidate_observed p; ip_ice_state := ice_state;
     ip_dtls_state := dtls_state; ip_data_channel_state := data_channel_state p;
     ip_turn_required := negb (direct_ready p) && negb turn |}.

(** ** Lemmas *)

Section plan_lemmas.
Context `{CargoFeatures}.

Lemma for_kind_selectable k : factory_selectable (factory_for_kind k) = feature_enabled k.
Proof.
  unfold factory_selectable, factory_readiness_state, boundary_readiness_state, factory_boundary.
  destruct k; simpl; unfold feature_readiness; by destruct (feature_enabled _).
Qed.

Lemma registry_entry_of k :
  required_provider_adapter_registry_entry k
  = Some {| re_kind := k; re_boundary := adapter_boundary_for_kind k |}.
Proof. by destruct k. Qed.

Lemma push_unique_spec l k :
  NoDup l → NoDup (push_unique l k) ∧ ∀ x, x ∈ push_unique l k ↔ x ∈ l ∨ x = k.
Proof.
  intros Hl. unfold push_unique. case_bool_decide as Hk; [naive_solver|]. split.
  - apply NoDup_app. split_and!; [done| |apply NoDup_singleton].
    intros x Hx ->%list_elem_of_singleton. done.
  - intros x. by rewrite elem_of_app, list_elem_of_singleton.
Qed.

(** Each requested kind once. *)
Lemma requested_unique_spec requested :
  NoDup (requested_unique requested) ∧ ∀ k, k ∈ requested_unique requested ↔ k ∈ requested.
Proof.
  unfold requested_unique. induction requested as [|k l IH] using rev_ind; [split; [constructor|done]|].
  destruct IH as [Hn He]. rewrite foldl_snoc.
  destruct (push_unique_spec (foldl push_unique [] l) k Hn) as [Hn' He']. split; [done|].
  intros x. rewrite He', He, elem_of_app, list_elem_of_singleton. done.
Qed.

(** One attempt as it is recorded when nothing was selected before. *)
Definition attempt_of (selected : bool) (k : SignalingAdapterKind) :
    SignalingAdapterFallbackAttempt :=
  {| fa_kind := k; fa_readiness := if feature_enabled k then ArAvailable else ArFeatureDisabled;
     fa_attempted := true; fa_selected := selected |}.

Lemma factory_readiness k :
  factory_readiness_state (factory_for_kind k)
  = if feature_enabled k then ArAvailable else ArFeatureDisabled.
Proof.
  unfold factory_readiness_state, boundary_readiness_state, factory_boundary.
  destruct k; simpl; unfold feature_readiness; by destruct (feature_enabled _).
Qed.

(** Once a kind is selected, [TryAll] only records the others. *)
Lemma try_all_after k0 attempts kinds :
  attempt_loop TryAll (Some k0) attempts kinds = (attempts ++ (attempt_of false <$> kinds), Some k0).
Proof.
  revert attempts. induction kinds as [|k rest IH]; intros attempts; simpl;
    [by rewrite app_nil_r|].
  rewrite factory_readiness, IH, <- (assoc_L (++)). done.
Qed.

Lemma attempt_loop_spec behavior attempts kinds :
  attempt_loop behavior None attempts kinds =
  match list_find (λ k, feature_enabled k = true) kinds with
  | None => (attempts ++ (attempt_of false <$> kinds), None)
  | Some (i, k) =>
      (attempts ++ (attempt_of false <$> take i kinds) ++ attempt_of true k ::
         (if bool_decide (behavior = TryAll) then attempt_of false <$> drop (S i) kinds else []),
       Some k)
  end.
Proof.
  revert attempts. induction kinds as [|k rest IH]; intros attempts; simpl; [by rewrite app_nil_r|].
  rewrite factory_readiness.
  assert (attempt_of (feature_enabled k) k = {| fa_kind := k;
    fa_readiness := if feature_enabled k then ArAvailable else ArFeatureDisabled;
    fa_attempted := true; fa_selected := feature_enabled k |}) as Ha by done.
  destruct (feature_enabled k) eqn:Hk; destruct behavior; simpl; rewrite <- ?Ha; try done;
    try (rewrite IH; destruct (list_find _ rest) as [[i k']|]; simpl; by rewrite <- (assoc_L (++))).
  by rewrite try_all_after, <- (assoc_L (++)).
Qed.
End plan_lemmas.

(** The profile decides the factory: no check after the profile's own validation can fail. *)
Lemma factory_for_profile_eq `{CargoFeatures} profile :
  factory_for_profile profile =
  (check adapter_profile_validate profile in Ok (factory_for_kind (ap_kind profile))).
Proof.
  unfold factory_for_profile. rewrite registry_entry_of. simpl.
  destruct (adapter_profile_validate profile); simpl; [|done].
  by rewrite bool_decide_eq_true_2.
Qed.

(** The latest event of a list: at least as late as every event, and strictly later than the
    ones after it. *)
Lemma foldl_later_spec l :
  match foldl later None l with
  | None => l = []
  | Some e => ∃ before after, l = before ++ e :: after
      ∧ Forall (λ x, (ev_observed_at x <= ev_observed_at e)%Z) before
      ∧ Forall (λ x, (ev_observed_at x < ev_observed_at e)%Z) after
  end.
Proof.
  induction l as [|x l IH] using rev_ind; [done|]. rewrite foldl_snoc.
  destruct (foldl later None l) as [e|]; simpl.
  - destruct IH as (before & after & -> & Hb & Ha).
    destruct (Z.leb_spec (ev_observed_at e) (ev_observed_at x)).
    + exists (before ++ e :: after), []. rewrite Forall_app, Forall_cons. split_and!; try done.
      * eapply Forall_impl; [exact Hb|]. simpl. lia.
      * eapply Forall_impl; [exact Ha|]. simpl. lia.
    + exists before, (after ++ [x]). rewrite <- (assoc_L (++)). split_and!; try done.
      apply Forall_app. split; [done|]. by apply Forall_singleton.
  - subst l. by exists [], [].
Qed.

(** The reported state is the one of the latest event. *)
Lemma last_timeline_state_eq kind p before e after :
  filter (λ x, ev_kind x = kind) (timelines p ≫= dt_events) = before ++ e :: after →
  Forall (λ x, (ev_observed_at x <= ev_observed_at e)%Z) before →
  Forall (λ x, (ev_observed_at x < ev_observed_at e)%Z) after →
  last_timeline_state kind p = ev_state e.
Proof.
  intros Hs Hb Ha. unfold last_timeline_state. rewrite Hs, foldl_app. simpl.
  assert (later (foldl later None before) e = Some e) as ->.
  { unfold later at 1. destruct (foldl later None before) as [b|] eqn:Hf; [|done].
    pose proof (foldl_later_spec before) as Hl. rewrite Hf in Hl.
    destruct Hl as (l1 & l2 & -> & _ & _). rewrite Forall_app, Forall_cons in Hb.
    destruct Hb as (_ & Hb & _). by rewrite (proj2 (Z.leb_le _ _) Hb). }
  assert (foldl later (Some e) after = Some e) as ->; [|done].
  clear - Ha. induction Ha as [|x l Hx Ha IH]; [done|]. simpl.
  by rewrite (proj2 (Z.leb_gt _ _) Hx).
Qed.

(** ** Properties *)

Section plan_properties.
Context `{CargoFeatures}.

(** The fallback planner picks exactly the first requested adapter that this build has. With
    [TryAll] and [FirstHealthy] the kinds considered are the requested ones with repetitions
    dropped, with [ManualOnly] the manual choice alone; an adapter is selectable exactly when its
    Cargo feature is on. The plan lists the kinds before the selected one as unselected, the
    selected one, and the later ones only under [TryAll]; when no kind is enabled every considered
    kind is listed and none is selected. *)
Theorem fallback_plan_is_exact requested behavior manual :
  let ordered := match behavior with
                 | ManualOnly => option_list manual
                 | _ => requested_unique requested
                 end in
  NoDup ordered
  ∧ (behavior ≠ ManualOnly → ∀ k, k ∈ ordered ↔ k ∈ requested)
  ∧ plan_signaling_adapter_fallback requested behavior manual =
    match list_find (λ k, factory_selectable (factory_for_kind k) = true) ordered with
    | None => {| fp_behavior := behavior; fp_attempts := attempt_of false <$> ordered;
                 fp_selected := None |}
    | Some (i, k) =>
        {| fp_behavior := behavior;
           fp_attempts := (attempt_of false <$> take i ordered) ++ attempt_of true k ::
             (if bool_decide (behavior = TryAll) then attempt_of false <$> drop (S i) ordered
              else []);
           fp_selected := Some k |}
    end.
Proof.
  intros ordered. destruct (requested_unique_spec requested) as [Hn He]. split_and!.
  - subst ordered. destruct behavior; try done.
    destruct manual; simpl; [apply NoDup_singleton|constructor].
  - subst ordered. by destruct behavior.
  - unfold plan_signaling_adapter_fallback.
    assert ((if bool_decide (behavior = ManualOnly) then option_list manual
             else requested_unique requested) = ordered) as -> by (by destruct behavior).
    rewrite attempt_loop_spec.
    rewrite (list_find_ext (λ k, factory_selectable (factory_for_kind k) = true)
               (λ k, feature_enabled k = true)) by (intros; by rewrite for_kind_selectable).
    by destruct (list_find _ ordered) as [[i k]|].
Qed.

(** A validated profile always gets the factory of its own kind: building a factory fails
    exactly when the profile does not validate, with that error, and the factory is selectable
    exactly when the build has the feature of the profile's kind. *)
Theorem factory_follows_the_profile profile :
  match factory_for_profile profile with
  | Ok f => adapter_profile_validate profile = Ok tt ∧ factory_kind f = ap_kind profile
            ∧ factory_selectable f = feature_enabled (ap_kind profile)
  | Err e => adapter_profile_validate profile = Err e
  end.
Proof.
  rewrite factory_for_profile_eq. destruct (adapter_profile_validate profile) as [[]|e]; simpl; [|done].
  split_and!; [done|by destruct (ap_kind profile)|apply for_kind_selectable].
Qed.
End plan_properties.

(** The acceptance window of a negotiation signal: a payload sealed at second [t] with the
    usual expiry [t + 75] is current exactly for clocks from 300 seconds behind the sender up to
    (not including) 375 seconds ahead of it; a payload without an expiry never is. *)
Theorem signal_window_is_exact p t now :
  (0 <= t < 2 ^ 62)%Z → (0 <= now < 2 ^ 62)%Z →
  np_expires_at p = Some (i64_sat_add t PROVIDER_NEGOTIATION_SIGNAL_TTL_SECONDS) →
  provider_signal_is_current p now = true
  ↔ (t - PROVIDER_NEGOTIATION_SIGNAL_CLOCK_SKEW_SECONDS <= now
     < t + PROVIDER_NEGOTIATION_SIGNAL_TTL_SECONDS
         + PROVIDER_NEGOTIATION_SIGNAL_CLOCK_SKEW_SECONDS)%Z.
Proof.
  intros Ht Hn He. unfold provider_signal_is_current. rewrite He.
  unfold i64_sat_add, PROVIDER_NEGOTIATION_SIGNAL_TTL_SECONDS,
    PROVIDER_NEGOTIATION_SIGNAL_CLOCK_SKEW_SECONDS. lia.
Qed.

(** A setup is reported as connected only on evidence of every stage: both descriptions, a
    local and a remote candidate, a path (direct on both sides, or TURN configured and ready on
    both sides), both data channels open with a frame returned, and no stage whose latest event
    says it failed. The latest event is the last one with the greatest time over both timelines. *)
Theorem connected_report_has_evidence `{Sha256} turn p :
  let r := report_from_probe turn p in
  ip_failure_kind r = FkConnected →
  ip_offer_observed r = true ∧ ip_answer_observed r = true ∧ ip_candidate_observed r = true
  ∧ ip_turn_required r = false
  ∧ wp_offerer_data_channel_open p = true ∧ wp_answerer_data_channel_open p = true
  ∧ wp_text_control_frame_roundtrip p = true
  ∧ ∀ kind events before e after,
      kind ∈ ["ice_connection_state"; "dtls_transport_state"; "data_channel"] →
      events = filter (λ x, ev_kind x = kind) (timelines p ≫= dt_events) →
      events = before ++ e :: after →
      Forall (λ x, (ev_observed_at x <= ev_observed_at e)%Z) before →
      Forall (λ x, (ev_observed_at x < ev_observed_at e)%Z) after →
      state_failed (ev_state e) = false.
Proof.
  intros r Hc. unfold r in *. simpl in *.
  unfold failure_kind in Hc.
  destruct (timeline_sdp_observed SdpOffer p) eqn:Ho1; [|done].
  destruct (timeline_sdp_observed SdpAnswer p) eqn:Ho2; [|done].
  destruct (candidate_observed p) eqn:Ho3; [|done]. cbn [negb] in Hc.
  destruct (state_failed (last_timeline_state "ice_connection_state" p)) eqn:Hice; [done|].
  destruct (state_failed (last_timeline_state "dtls_transport_state" p)) eqn:Hdtls; [done|].
  destruct (negb (direct_ready p) && negb (turn_ready turn p)) eqn:Ht; [done|].
  destruct (data_channel_ready p) eqn:Hd; [|done]. cbn [negb orb] in Hc.
  destruct (state_failed (Some (data_channel_state p))) eqn:Hdf; [done|].
  unfold data_channel_ready in Hd. rewrite !andb_true_iff in Hd. destruct Hd as [[Hoo Haa] Hr].
  split_and!; try done.
  intros kind events before e after Hk Hev Hs Hb Ha.
  rewrite <- (last_timeline_state_eq kind p before e after) by congruence.
  rewrite !elem_of_cons in Hk. destruct Hk as [-> | [-> | [-> | Hk]]]; [done|done| |set_solver].
  unfold data_channel_state in Hdf. by destruct (last_timeline_state "data_channel" p).
Qed.

(** ** Witnesses *)

Section witnesses.
#[local] Existing Instance Toy.toy_sha.

Definition toy_signal (t : Z) : SealedWebRtcNegotiationPayload := {|
  np_version := 1; np_negotiation_id := Some [1; 2];
  np_expires_at := Some (i64_sat_add t PROVIDER_NEGOTIATION_SIGNAL_TTL_SECONDS);
  np_kind := PkAnswer; np_nonce := []; np_ciphertext := [] |}.

Lemma signal_window_is_exact_witness :
  provider_signal_is_current (toy_signal 1000) 1374 = true
  ∧ provider_signal_is_current (toy_signal 1000) 700 = true
  ∧ provider_signal_is_current (toy_signal 1000) 1375 = false.
Proof.
  split_and!; [| |reflexivity].
  - by apply (signal_window_is_exact (toy_signal 1000) 1000 1374).
  - by apply (signal_window_is_exact (toy_signal 1000) 1000 700).
Defined.

Definition toy_probe_event (kind : string) (at_time : Z) (dir state : option string) :
    WebRtcDiagnosticEvent := {|
  ev_sequence := 0; ev_observed_at := at_time; ev_kind := kind; ev_peer_role := None;
  ev_direction := dir; ev_state := state; ev_sdp_type := None; ev_candidate_type := None;
  ev_relay_candidate := None; ev_count := None; ev_failure_reason := None |}.

Definition toy_probe : ProviderWebRtcDataChannelProbe := {|
  wp_kind := KMqtt; wp_profile_id := "p"; wp_endpoint_label := "e"; wp_scope_commitment := "s";
  wp_rendezvous_topic := "t"; wp_offerer_direct_path_ready := true;
  wp_answerer_direct_path_ready := true; wp_offerer_turn_fallback_ready := false;
  wp_answerer_turn_fallback_ready := false; wp_offerer_configured_turn_servers := 0;
  wp_answerer_configured_turn_servers := 0; wp_offerer_local_relay_candidates_gathered := 0;
  wp_answerer_local_relay_candidates_gathered := 0;
  wp_offerer_remote_relay_candidates_applied := 0;
  wp_answerer_remote_relay_candidates_applied := 0; wp_offerer_data_channel_open := true;
  wp_answerer_data_channel_open := true; wp_text_control_frame_roundtrip := true;
  wp_text_control_frame_sha256 := "x"; wp_receipt_frame_roundtrip := true;
  wp_receipt_frame_sha256 := "y";
  wp_offerer_timeline := Some {|
    dt_schema_version := 1;
    dt_events := [toy_probe_event "ice_candidate" 1 (Some "local") None;
                  toy_probe_event "ice_candidate" 2 (Some "remote") (Some "applied");
                  toy_probe_event "ice_connection_state" 3 None (Some "failed");
                  toy_probe_event "ice_connection_state" 5 None (Some "connected")];
    dt_offer_count := 1; dt_answer_count := 1; dt_local_candidate_count := 1;
    dt_remote_candidate_count := 1; dt_failure_reason := None |};
  wp_answerer_timeline := None |}.

Lemma connected_report_has_evidence_witness :
  ip_failure_kind (report_from_probe false toy_probe) = FkConnected
  ∧ ip_candidate_observed (report_from_probe false toy_probe) = true
  ∧ wp_text_control_frame_roundtrip toy_probe = true.
Proof.
  assert (ip_failure_kind (report_from_probe false toy_probe) = FkConnected) as Hc
    by (vm_compute; reflexivity).
  destruct (connected_report_has_evidence false toy_probe Hc)
    as (_ & _ & Hcand & _ & _ & _ & Hr & _).
  split_and!; assumption.
Defined.
End witnesses.
