(* ===== verification/ProviderRooms.v ===== *)
(** * Provider rooms: MQTT, Nostr and IPFS PubSub

    The rooms of [crates/transport/src/provider_adapters.rs] that keep an inbox: what they
    publish, what they do with each event the network hands them, and what their takes return.
    The clients ([rumqttc], [nostr-sdk], [libp2p]), [serde_json] on the wire envelopes, the
    unpadded [base64] engine and multiaddrs are parameters. A deadline is the number of events
    that arrive before it. *)

From S2P Require Import Prelude Collections Bytes Framing StrOps Crypto Transport IcePolicy ConnPolicy RouteGraph ControlLane Timeline NegotiationSeal SignalingBus ProviderPlan.

(** ** The plaintext guard *)

Definition forbidden_markers : list string :=
  ["alice display"; "bob display"; "family voice"; "room seed"; "room-secret:"; "group name";
   "channel name"; "plaintext message"; "message plaintext"; "audio plaintext"; "raw audio";
   "raw sdp"; "raw ice"; "v=0"; "a=ice-ufrag"; "a=ice-pwd"; "candidate:"; "turn:"; "turns:";
   "turn credential"; "turn password"; "ice password"; "mls epoch secret"; "mls exporter";
   "sframe key"; "content key"; "production-ready"; "fake production"]%string.

Definition reject_forbidden_plaintext (b : bytes) : result unit TransportError :=
  if valid_utf8 b then
    reject_if (contains_any forbidden_markers (to_ascii_lowercase (string_of_bytes b))) PlaintextLeak
  else Ok tt.

(** ** Wire envelopes *)

Inductive MqttWireEnvelope :=
| WePresence (schema : N) (from_peer : SignalingPeerId) (payload : bytes) (ttl_seconds : N)
| WeSignal (schema : N) (from_peer to_peer : SignalingPeerId)
    (payload : SealedWebRtcNegotiationPayload)
| WeControl (schema : N) (from_peer : SignalingPeerId) (payload : bytes).

(** The same variants and fields, declared once per adapter. *)
Definition NostrWireEnvelope : Type := MqttWireEnvelope.
Definition IpfsPubsubWireEnvelope : Type := MqttWireEnvelope.

(** [serde_json] on an envelope, with the text of its errors. *)
Class WireJson := {
  wire_to_vec : MqttWireEnvelope → result bytes string;
  wire_from_slice : bytes → result MqttWireEnvelope string
}.

Class WireJsonLaws `{WireJson} : Prop :=
  wire_round_trip e b : wire_to_vec e = Ok b → wire_from_slice b = Ok e.

(** ** The inbox *)

Record MqttInbox := {
  mi_presence : list PresenceEvent;
  mi_signals : list PeerSignal;
  mi_controls : list ControlBroadcast
}.

Definition NostrInbox : Type := MqttInbox.

Definition inbox_default : MqttInbox := {| mi_presence := []; mi_signals := []; mi_controls := [] |}.

(** The [match envelope] of the three recorders; the schemas they accept are all 1. *)
Definition file_envelope (local : SignalingPeerId) (e : MqttWireEnvelope) (i : MqttInbox) : MqttInbox :=
  match e with
  | WePresence schema from payload ttl =>
      if (schema =? 1) && negb (bool_decide (from = local)) then
        {| mi_presence := mi_presence i ++ [{| pv_peer_id := from; pv_encrypted_presence := payload;
                                               pv_ttl_seconds := ttl |}];
           mi_signals := mi_signals i; mi_controls := mi_controls i |}
      else i
  | WeSignal schema from to payload =>
      if (schema =? 1) && bool_decide (to = local) then
        {| mi_presence := mi_presence i;
           mi_signals := mi_signals i ++ [{| sg_from_peer := from; sg_to_peer := to;
                                             sg_payload := payload |}];
           mi_controls := mi_controls i |}
      else i
  | WeControl schema from payload =>
      if (schema =? 1) && negb (bool_decide (from = local)) then
        {| mi_presence := mi_presence i; mi_signals := mi_signals i;
           mi_controls := mi_controls i ++ [{| cb_from_peer := from; cb_payload := payload |}] |}
      else i
  end.

(** [std::mem::take] of one of the queues *)
Definition without_presence (i : MqttInbox) : MqttInbox :=
  {| mi_presence := []; mi_signals := mi_signals i; mi_controls := mi_controls i |}.

Definition without_signals (i : MqttInbox) : MqttInbox :=
  {| mi_presence := mi_presence i; mi_signals := []; mi_controls := mi_controls i |}.

(** *** Control broadcasts: the ones of others whose sender and bytes were not handed out yet *)

Abbreviation DeliveredControls := (gset (string * bytes)).

Definition control_id (c : ControlBroadcast) : string * bytes := (cb_from_peer c, cb_payload c).

Fixpoint fresh_controls (delivered : DeliveredControls) (l : list ControlBroadcast) :
    DeliveredControls * list ControlBroadcast :=
  match l with
  | [] => (delivered, [])
  | c :: rest =>
      if bool_decide (control_id c ∈ delivered) then fresh_controls delivered rest
      else let '(d, fresh) := fresh_controls ({[control_id c]} ∪ delivered) rest in (d, c :: fresh)
  end.

Definition controls_for (local : SignalingPeerId) (delivered : DeliveredControls)
    (controls : list ControlBroadcast) : DeliveredControls * list ControlBroadcast :=
  fresh_controls delivered (filter (λ c, cb_from_peer c ≠ local) controls).

(** The presence guard the production rooms start with. *)
Definition presence_guard (payload : bytes) (ttl_seconds : N) : result unit TransportError :=
  check reject_adapter (ttl_seconds =? 0) "presence ttl must be non-zero" in
  reject_forbidden_plaintext payload.

(** ** MQTT *)

Definition mqtt_err (context err : string) : TransportError :=
  SignalingAdapterFailed ("mqtt " +:+ context +:+ " failed: " +:+ err).

Inductive MqttProviderEvent :=
| MePublish (topic : string) (payload : bytes)
| MeSubAck
| MeError.

Record MqttTopics := {
  mt_presence : string;
  mt_control : string;
  mt_signal_for_local_peer : string
}.

Definition mqtt_topics (rendezvous : RendezvousCapability) (local : SignalingPeerId) : MqttTopics :=
  let base := "discrypt/v1/rendezvous/" +:+ rc_topic rendezvous in
  {| mt_presence := base +:+ "/presence"; mt_control := base +:+ "/control";
     mt_signal_for_local_peer := base +:+ "/signal/" +:+ local |}.

Definition mqtt_signal_topic (rendezvous_topic : string) (peer : SignalingPeerId) : string :=
  "discrypt/v1/rendezvous/" +:+ rendezvous_topic +:+ "/signal/" +:+ peer.

(** Milliseconds; [1 << min(errors, 5)]. *)
Definition mqtt_provider_eventloop_backoff (consecutive_errors : N) : N :=
  sat_mul u64_max 100 (2 ^ N.min consecutive_errors 5).

(** [MqttEventLoopDiagnostics] is its counter. *)
Definition timeout_context (consecutive_errors : N) : string :=
  if consecutive_errors =? 0 then ""
  else "; failure_class=mqtt_event_loop_retrying consecutive_errors=" +:+ pretty consecutive_errors.

Definition mqtt_validate_publish_bytes (b : bytes) (max_message_bytes : N) :
    result unit TransportError :=
  reject_adapter (max_message_bytes <? N.of_nat (length b))
    ("mqtt provider message too large: payload_bytes=" +:+ pretty (N.of_nat (length b))
     +:+ " max_message_bytes=" +:+ pretty max_message_bytes
     +:+ " failure_class=" +:+ readiness_failure_class ArProviderMessageTooLarge).

Definition mqtt_endpoint_for_profile (p : SignalingAdapterProfile) :
    result SignalingProviderEndpoint TransportError :=
  ok_or (head (ap_endpoints p))
    (InvalidConnectivityPolicy "mqtt adapter profile must contain at least one endpoint").

(** The address given to [MqttOptions::parse_url] and the transport set afterwards. *)
Definition mqtt_parse_endpoint (endpoint : string) : string * option string :=
  match strip_prefix "mqtts://" endpoint with
  | Some rest => ("mqtt://" +:+ rest, Some "tls"%string)
  | None =>
      match strip_prefix "ssl://" endpoint with
      | Some rest => ("mqtt://" +:+ rest, Some "tls"%string)
      | None =>
          match strip_prefix "wss://" endpoint with
          | Some rest => ("ws://" +:+ rest, Some "wss"%string)
          | None => (endpoint, None)
          end
      end
  end.

Definition mqtt_options_url (endpoint client_id : string) : string :=
  let parse_endpoint := (mqtt_parse_endpoint endpoint).1 in
  parse_endpoint +:+ (if str_contains "?" parse_endpoint then "&" else "?")
  +:+ "client_id=" +:+ client_id.

(** The channel between the event loop and the room. *)
Definition MQTT_CHANNEL_CAPACITY : nat := 128.

Record MqttProviderRoom := {
  mr_local_peer_id : SignalingPeerId;
  mr_rendezvous_topic : string;
  mr_topics : MqttTopics;
  mr_events : list MqttProviderEvent;
  mr_inbox : MqttInbox;
  mr_delivered_controls : DeliveredControls;
  mr_consecutive_errors : N;
  mr_max_message_bytes : N
}.

Definition set_mqtt (events : list MqttProviderEvent) (i : MqttInbox) (d : DeliveredControls)
    (r : MqttProviderRoom) : MqttProviderRoom := {|
  mr_local_peer_id := mr_local_peer_id r; mr_rendezvous_topic := mr_rendezvous_topic r;
  mr_topics := mr_topics r; mr_events := events; mr_inbox := i; mr_delivered_controls := d;
  mr_consecutive_errors := mr_consecutive_errors r; mr_max_message_bytes := mr_max_message_bytes r
|}.

(** What [eventloop.poll] returned. *)
Inductive MqttPoll :=
| PollPublish (topic : string) (payload : bytes)
| PollSubAck
| PollOther
| PollError.

(** One round of the event-loop task; [None] while the channel is full and its send waits. *)
Definition mqtt_eventloop_step (p : MqttPoll) (r : MqttProviderRoom) : option MqttProviderRoom :=
  let sent errors ev :=
    if Nat.ltb (length (mr_events r)) MQTT_CHANNEL_CAPACITY then
      Some {| mr_local_peer_id := mr_local_peer_id r; mr_rendezvous_topic := mr_rendezvous_topic r;
              mr_topics := mr_topics r; mr_events := mr_events r ++ [ev]; mr_inbox := mr_inbox r;
              mr_delivered_controls := mr_delivered_controls r; mr_consecutive_errors := errors;
              mr_max_message_bytes := mr_max_message_bytes r |}
    else None in
  match p with
  | PollPublish topic payload => sent 0 (MePublish topic payload)
  | PollSubAck => sent 0 MeSubAck
  | PollOther =>
      Some {| mr_local_peer_id := mr_local_peer_id r; mr_rendezvous_topic := mr_rendezvous_topic r;
              mr_topics := mr_topics r; mr_events := mr_events r; mr_inbox := mr_inbox r;
              mr_delivered_controls := mr_delivered_controls r; mr_consecutive_errors := 0;
              mr_max_message_bytes := mr_max_message_bytes r |}
  | PollError => sent (sat_add u32_max (mr_consecutive_errors r) 1) MeError
  end.

Section mqtt.
Context `{WireJson}.

Definition record_mqtt_envelope (local : SignalingPeerId) (b : bytes) (i : MqttInbox) :
    MqttInbox * result unit TransportError :=
  match
    check reject_forbidden_plaintext b in
    map_err (mqtt_err "wire envelope decode") (wire_from_slice b)
  with
  | Ok e => (file_envelope local e i, Ok tt)
  | Err e => (i, Err e)
  end.

(** [consume_network_events]: the inbox, the events left in the channel, the outcome. *)
Fixpoint mqtt_consume (local : SignalingPeerId) (i : MqttInbox) (events : list MqttProviderEvent) :
    MqttInbox * list MqttProviderEvent * result unit TransportError :=
  match events with
  | [] => (i, [], Ok tt)
  | MePublish _ payload :: rest =>
      match record_mqtt_envelope local payload i with
      | (i', Ok _) => mqtt_consume local i' rest
      | (i', Err e) => (i', rest, Err e)
      end
  | _ :: rest => mqtt_consume local i rest
  end.

Definition consume_network_events (r : MqttProviderRoom) :
    MqttProviderRoom * result unit TransportError :=
  let '(i, events, out) := mqtt_consume (mr_local_peer_id r) (mr_inbox r) (mr_events r) in
  (set_mqtt events i (mr_delivered_controls r) r, out).

(** [drain_network_for]: [budget] events fit before the deadline, [closed] says that the event
    loop is gone, so that an empty channel is reported. *)
Fixpoint mqtt_drain (local : SignalingPeerId) (closed : bool) (budget : nat) (i : MqttInbox)
    (events : list MqttProviderEvent) :
    MqttInbox * list MqttProviderEvent * result unit TransportError :=
  match budget, events with
  | O, _ => (i, events, Ok tt)
  | S _, [] => (i, [], if closed then adapter_error "mqtt event loop stopped" else Ok tt)
  | S budget', MePublish _ payload :: rest =>
      match record_mqtt_envelope local payload i with
      | (i', Ok _) => mqtt_drain local closed budget' i' rest
      | (i', Err e) => (i', rest, Err e)
      end
  | S budget', _ :: rest => mqtt_drain local closed budget' i rest
  end.

Definition mqtt_drain_network (closed : bool) (budget : nat) (r : MqttProviderRoom) :
    MqttProviderRoom * result unit TransportError :=
  let '(i, events, out) :=
    mqtt_drain (mr_local_peer_id r) closed budget (mr_inbox r) (mr_events r) in
  (set_mqtt events i (mr_delivered_controls r) r, out).

(** [wait_for_subscription_acks]; [context] is the timeout context at the deadline. *)
Fixpoint mqtt_wait_acks (local : SignalingPeerId) (closed : bool) (context : string)
    (expected acked : nat) (budget : nat) (i : MqttInbox) (events : list MqttProviderEvent) :
    MqttInbox * list MqttProviderEvent * result unit TransportError :=
  if Nat.leb expected acked then (i, events, Ok tt)
  else
    let timed_out : result unit TransportError :=
      adapter_error ("mqtt subscribe ack timeout: observed " +:+ pretty (N.of_nat acked) +:+ "/"
                     +:+ pretty (N.of_nat expected) +:+ context) in
    match budget, events with
    | O, _ => (i, events, timed_out)
    | S _, [] => (i, [], if closed then adapter_error "mqtt event loop stopped" else timed_out)
    | S budget', MeSubAck :: rest =>
        mqtt_wait_acks local closed context expected (S acked) budget' i rest
    | S budget', MePublish _ payload :: rest =>
        match record_mqtt_envelope local payload i with
        | (i', Ok _) => mqtt_wait_acks local closed context expected acked budget' i' rest
        | (i', Err e) => (i', rest, Err e)
        end
    | S budget', MeError :: rest =>
        mqtt_wait_acks local closed context expected acked budget' i rest
    end.

(** [connect] and the checks of [join]. *)
Definition provider_connect (kind : SignalingAdapterKind) (adapter : string)
    (profile : SignalingAdapterProfile) : result unit TransportError :=
  check adapter_profile_validate profile in
  reject_policy (negb (bool_decide (ap_kind profile = kind)))
    ("adapter profile kind " +:+ kind_canonical_name (ap_kind profile) +:+ " does not match "
     +:+ adapter +:+ " adapter").

Definition provider_join_checks (kind : SignalingAdapterKind) (adapter : string)
    (scope : ConversationScope) (rendezvous : RendezvousCapability) : result unit TransportError :=
  check scope_validate scope in
  check reject_adapter (negb (bool_decide (rc_scope rendezvous = scope)))
    "rendezvous capability scope mismatch" in
  reject_policy (negb (bool_decide (rc_adapter_kind rendezvous = kind)))
    ("rendezvous capability kind " +:+ kind_canonical_name (rc_adapter_kind rendezvous)
     +:+ " does not match " +:+ adapter +:+ " adapter").

Definition mqtt_connect (profile : SignalingAdapterProfile) : result SignalingAdapterProfile TransportError :=
  check provider_connect KMqtt "mqtt" profile in Ok profile.

(** What the client answered while the room was set up: the address, the three subscriptions, and
    the events of the acknowledgement wait and of the final drain. *)
Record MqttJoinNetwork := {
  mj_options : result unit string;
  mj_subscribe_presence : result unit string;
  mj_subscribe_control : result unit string;
  mj_subscribe_signal : result unit string;
  mj_events : list MqttProviderEvent;
  mj_errors : N;
  mj_closed : bool;
  mj_ack_budget : nat;
  mj_drain_budget : nat
}.

Definition mqtt_join (profile : SignalingAdapterProfile) (scope : ConversationScope)
    (rendezvous : RendezvousCapability) (local : SignalingPeerId) (net : MqttJoinNetwork) :
    result MqttProviderRoom TransportError :=
  check provider_join_checks KMqtt "mqtt" scope rendezvous in
  let* endpoint := mqtt_endpoint_for_profile profile in
  check map_err (mqtt_err "endpoint parse") (mj_options net) in
  check map_err (mqtt_err "subscribe presence") (mj_subscribe_presence net) in
  check map_err (mqtt_err "subscribe control") (mj_subscribe_control net) in
  check map_err (mqtt_err "subscribe peer signal") (mj_subscribe_signal net) in
  let '(i, events, acked) :=
    mqtt_wait_acks local (mj_closed net) (timeout_context (mj_errors net)) 3 0 (mj_ack_budget net)
      inbox_default (mj_events net) in
  check acked in
  let '(i, events, drained) := mqtt_drain local (mj_closed net) (mj_drain_budget net) i events in
  check drained in
  Ok {| mr_local_peer_id := local; mr_rendezvous_topic := rc_topic rendezvous;
        mr_topics := mqtt_topics rendezvous local; mr_events := events; mr_inbox := i;
        mr_delivered_controls := ∅; mr_consecutive_errors := mj_errors net;
        mr_max_message_bytes :=
          default DEFAULT_PROVIDER_MAX_MESSAGE_BYTES (pe_max_message_bytes endpoint) |}.

(** *** Publishing: the message handed to the client comes out beside the outcome *)

(** How the client and the network answer one publication. *)
Record MqttPublishNetwork := {
  mp_published : result unit string;
  mp_closed : bool;
  mp_budget : nat
}.

Definition mqtt_publish_envelope (topic : string) (e : MqttWireEnvelope) (net : MqttPublishNetwork)
    (r : MqttProviderRoom) :
    MqttProviderRoom * option (string * bytes) * result unit TransportError :=
  match
    let* b := map_err (mqtt_err "wire envelope encode") (wire_to_vec e) in
    check reject_forbidden_plaintext b in
    check mqtt_validate_publish_bytes b (mr_max_message_bytes r) in Ok b
  with
  | Err err => (r, None, Err err)
  | Ok b =>
      match mp_published net with
      | Err err => (r, None, Err (mqtt_err "publish" err))
      | Ok _ =>
          let '(r', out) := mqtt_drain_network (mp_closed net) (mp_budget net) r in
          (r', Some (topic, b), out)
      end
  end.

Definition mqtt_publish_presence (payload : bytes) (ttl_seconds : N) (net : MqttPublishNetwork)
    (r : MqttProviderRoom) :=
  match presence_guard payload ttl_seconds with
  | Err e => (r, None, Err e)
  | Ok _ => mqtt_publish_envelope (mt_presence (mr_topics r))
              (WePresence 1 (mr_local_peer_id r) payload ttl_seconds) net r
  end.

Definition mqtt_send_signal (to_peer : SignalingPeerId) (payload : SealedWebRtcNegotiationPayload)
    (net : MqttPublishNetwork) (r : MqttProviderRoom) :=
  match reject_forbidden_plaintext (np_ciphertext payload) with
  | Err e => (r, None, Err e)
  | Ok _ => mqtt_publish_envelope (mqtt_signal_topic (mr_rendezvous_topic r) to_peer)
              (WeSignal 1 (mr_local_peer_id r) to_peer payload) net r
  end.

Definition mqtt_broadcast_control (payload : bytes) (net : MqttPublishNetwork)
    (r : MqttProviderRoom) :=
  match reject_forbidden_plaintext payload with
  | Err e => (r, None, Err e)
  | Ok _ => mqtt_publish_envelope (mt_control (mr_topics r))
              (WeControl 1 (mr_local_peer_id r) payload) net r
  end.

(** *** Takes *)

Definition mqtt_subscribe_presence (r : MqttProviderRoom) :
    MqttProviderRoom * result (list PresenceEvent) TransportError :=
  match consume_network_events r with
  | (r, Err e) => (r, Err e)
  | (r, Ok _) =>
      (set_mqtt (mr_events r) (without_presence (mr_inbox r)) (mr_delivered_controls r) r,
       Ok (mi_presence (mr_inbox r)))
  end.

Definition mqtt_take_signals (r : MqttProviderRoom) :
    MqttProviderRoom * result (list PeerSignal) TransportError :=
  match consume_network_events r with
  | (r, Err e) => (r, Err e)
  | (r, Ok _) =>
      (set_mqtt (mr_events r) (without_signals (mr_inbox r)) (mr_delivered_controls r) r,
       Ok (mi_signals (mr_inbox r)))
  end.

Definition mqtt_take_control_payloads (r : MqttProviderRoom) :
    MqttProviderRoom * result (list ControlBroadcast) TransportError :=
  match consume_network_events r with
  | (r, Err e) => (r, Err e)
  | (r, Ok _) =>
      let '(d, fresh) := controls_for (mr_local_peer_id r) (mr_delivered_controls r)
                           (mi_controls (mr_inbox r)) in
      (set_mqtt (mr_events r) (mr_inbox r) d r, Ok fresh)
  end.
End mqtt.

(** ** Nostr *)

(** [STANDARD_NO_PAD], with the text of its error. *)
Class Base64NoPad := {
  nopad_encode : bytes → string;
  nopad_decode : string → result bytes string
}.

Class Base64NoPadLaws `{Base64NoPad} : Prop :=
  nopad_round_trip b : Forall (λ x, x < 256) b → nopad_decode (nopad_encode b) = Ok b.

Definition NOSTR_DISCRYPT_EVENT_KIND : N := 31733.
Definition NOSTR_EVENT_SCHEMA : N := 1.

Definition nostr_err (context err : string) : TransportError :=
  SignalingAdapterFailed ("nostr " +:+ context +:+ " failed: " +:+ err).

(** The [Debug] name of a health state. *)
Definition health_state_debug (s : SignalingHealthState) : string :=
  match s with
  | ShHealthy => "Healthy"
  | ShProviderRateLimited => "ProviderRateLimited"
  | ShProviderAuthRequired => "ProviderAuthRequired"
  | ShProviderUnhealthy => "ProviderUnhealthy"
  | ShProviderMessageTooLarge => "ProviderMessageTooLarge"
  | ShTrustMismatch => "TrustMismatch"
  end.

Definition failure_fields (r : AdapterReadinessState) : string :=
  "failure_class=" +:+ readiness_failure_class r
  +:+ " health_state=" +:+ health_state_debug (to_health_state r).

(** The parts of an event the room looks at: its kind, the kind and content of each tag. *)
Record NostrEvent := {
  ne_kind : N;
  ne_tags : list (string * option string);
  ne_content : string
}.

Inductive RelayMessage :=
| RmEvent (e : NostrEvent)
| RmNotice (notice : string)
| RmClosed (message : string)
| RmOk (status : bool) (message : string)
| RmOther.

(** What the notification channel hands out; [NrLagged] reports events that were overwritten. *)
Inductive NostrReceived :=
| NrEvent (e : NostrEvent)
| NrMessage (relay_url : string) (m : RelayMessage)
| NrShutdown
| NrLagged.

Definition nostr_endpoints_for_profile (p : SignalingAdapterProfile) :
    result (list string) TransportError :=
  check reject_policy (Nat.eqb (length (ap_endpoints p)) 0)
    "nostr adapter profile must contain at least one relay endpoint" in
  Ok (foldl (λ l e, if bool_decide (pe_endpoint e ∈ l) then l else l ++ [pe_endpoint e]) []
        (ap_endpoints p)).

Definition nostr_max_message_bytes_for_profile (p : SignalingAdapterProfile) : N :=
  match omap pe_max_message_bytes (ap_endpoints p) with
  | [] => DEFAULT_PROVIDER_MAX_MESSAGE_BYTES
  | m :: rest => foldl N.min m rest
  end.

Definition nostr_validate_event_bytes (b : bytes) (max_message_bytes : N) :
    result unit TransportError :=
  reject_adapter (max_message_bytes <? N.of_nat (length b))
    ("nostr provider message too large: envelope_size=" +:+ pretty (N.of_nat (length b))
     +:+ " max_message_bytes=" +:+ pretty max_message_bytes
     +:+ " " +:+ failure_fields ArProviderMessageTooLarge).

Definition nostr_notice_text_is_failure (message : string) : bool :=
  contains_any ["auth"; "blocked"; "closed"; "error"; "failed"; "forbidden"; "limit"; "pow"; "rate";
                "reject"; "restricted"; "too large"; "unauthorized"; "unsupported"]%string
    (to_ascii_lowercase message).

Definition nostr_relay_message_failure (m : RelayMessage) : option AdapterReadinessState :=
  match m with
  | RmNotice notice =>
      if nostr_notice_text_is_failure notice then Some (classify_provider_failure notice) else None
  | RmClosed message => Some (classify_provider_failure message)
  | RmOk false message => Some (classify_provider_failure message)
  | _ => None
  end.

Definition nostr_relay_message_error (relay_url : string) (m : RelayMessage) :
    option TransportError :=
  readiness ← nostr_relay_message_failure m;
  Some (SignalingAdapterFailed ("nostr relay message failed: relay=" +:+ relay_url +:+ " "
                                +:+ failure_fields readiness)).

Record NostrProviderRoom := {
  nr_local_peer_id : SignalingPeerId;
  nr_max_message_bytes : N;
  nr_topic : string;
  nr_notifications : list NostrReceived;
  nr_inbox : NostrInbox;
  nr_delivered_controls : DeliveredControls
}.

Definition set_nostr (notifications : list NostrReceived) (i : NostrInbox) (d : DeliveredControls)
    (r : NostrProviderRoom) : NostrProviderRoom := {|
  nr_local_peer_id := nr_local_peer_id r; nr_max_message_bytes := nr_max_message_bytes r;
  nr_topic := nr_topic r; nr_notifications := notifications; nr_inbox := i;
  nr_delivered_controls := d
|}.

Section nostr.
Context `{Sha256, WireJson, Base64NoPad}.

(** The hex secret the client key is parsed from, and the subscription id. *)
Definition nostr_client_secret_hex (topic : string) (peer : SignalingPeerId) : string :=
  sha256_hex (as_bytes "discrypt-nostr-signaling-v1" ++ as_bytes topic ++ as_bytes peer).

Definition nostr_subscription_id (topic : string) (peer : SignalingPeerId) : string :=
  "dc-" +:+ string_of_bytes (take 24 (as_bytes
    (sha256_hex (as_bytes "discrypt-nostr-subscription-v1" ++ as_bytes topic ++ as_bytes peer)))).

Definition event_has_topic (topic : string) (e : NostrEvent) : bool :=
  existsb (λ t : string * option string,
             bool_decide (t.1 = "d"%string) && bool_decide (t.2 = Some topic)) (ne_tags e).

(** The envelope of an event of this topic; [None] for one the room ignores. *)
Definition open_event (topic : string) (e : NostrEvent) :
    option (result NostrWireEnvelope TransportError) :=
  if negb (ne_kind e =? NOSTR_DISCRYPT_EVENT_KIND) then None
  else if negb (event_has_topic topic e) then None
  else Some (
    check reject_forbidden_plaintext (as_bytes (ne_content e)) in
    let* b := map_err (nostr_err "wire envelope base64 decode") (nopad_decode (ne_content e)) in
    check reject_forbidden_plaintext b in
    map_err (nostr_err "wire envelope decode") (wire_from_slice b)).

Definition record_event (topic : string) (local : SignalingPeerId) (e : NostrEvent)
    (i : NostrInbox) : NostrInbox * result unit TransportError :=
  match open_event topic e with
  | None => (i, Ok tt)
  | Some (Ok env) => (file_envelope local env i, Ok tt)
  | Some (Err err) => (i, Err err)
  end.

(** What both receive loops do with one notification that is not [NrLagged]. *)
Definition nostr_handle (topic : string) (local : SignalingPeerId) (n : NostrReceived)
    (i : NostrInbox) : NostrInbox * result unit TransportError :=
  match n with
  | NrEvent e => record_event topic local e i
  | NrMessage relay_url m =>
      match nostr_relay_message_error relay_url m with
      | Some err => (i, Err err)
      | None => match m with RmEvent e => record_event topic local e i | _ => (i, Ok tt) end
      end
  | NrShutdown => (i, adapter_error "nostr relay pool shut down")
  | NrLagged => (i, Ok tt)
  end.

(** [drain_network_for]; a lock that stays contended is [contended]. *)
Fixpoint nostr_drain (topic : string) (local : SignalingPeerId) (closed contended : bool)
    (budget : nat) (i : NostrInbox) (l : list NostrReceived) :
    NostrInbox * list NostrReceived * result unit TransportError :=
  match budget with
  | O => (i, l, Ok tt)
  | S budget' =>
      if contended then (i, l, adapter_error "nostr drain: notifications mutex contended >3s")
      else match l with
      | [] => (i, [], if closed then adapter_error "nostr notification stream closed" else Ok tt)
      | n :: rest =>
          match nostr_handle topic local n i with
          | (i', Ok _) => nostr_drain topic local closed contended budget' i' rest
          | (i', Err e) => (i', rest, Err e)
          end
      end
  end.

(** The [try_recv] loop of the control take: every error of the channel ends it. *)
Fixpoint nostr_try_recv (topic : string) (local : SignalingPeerId) (i : NostrInbox)
    (l : list NostrReceived) : NostrInbox * list NostrReceived * result unit TransportError :=
  match l with
  | [] => (i, [], Ok tt)
  | NrLagged :: rest => (i, rest, Ok tt)
  | n :: rest =>
      match nostr_handle topic local n i with
      | (i', Ok _) => nostr_try_recv topic local i' rest
      | (i', Err e) => (i', rest, Err e)
      end
  end.

(** How long a drain may run, and the state of the channel during it. *)
Record NostrNetwork := { nn_budget : nat; nn_closed : bool; nn_contended : bool }.

Definition nostr_drain_network (net : NostrNetwork) (r : NostrProviderRoom) :
    NostrProviderRoom * result unit TransportError :=
  let '(i, l, out) := nostr_drain (nr_topic r) (nr_local_peer_id r) (nn_closed net)
    (nn_contended net) (nn_budget net) (nr_inbox r) (nr_notifications r) in
  (set_nostr l i (nr_delivered_controls r) r, out).

(** One [send_event_builder_to]: whether a relay accepted, and the [Debug] text otherwise. *)
Inductive NostrSend := SendOutput (accepted : bool) (failed : string) | SendError (err : string).

(** The attempts of one publication, at most ten. *)
Fixpoint nostr_send_loop (send : nat → NostrSend) (attempt left : nat) (last_failure : string) :
    result unit string :=
  match left with
  | O => Err last_failure
  | S left' =>
      match send attempt with
      | SendOutput true _ => Ok tt
      | SendOutput false failed => nostr_send_loop send (S attempt) left' failed
      | SendError err => nostr_send_loop send (S attempt) left' err
      end
  end.

Definition nostr_event (topic : string) (b : bytes) : NostrEvent := {|
  ne_kind := NOSTR_DISCRYPT_EVENT_KIND; ne_tags := [("d"%string, Some topic)];
  ne_content := nopad_encode b
|}.

(** The event handed to the relays comes out beside the outcome. *)
Definition nostr_publish_envelope (e : NostrWireEnvelope) (tag : result unit string)
    (send : nat → NostrSend) (net : NostrNetwork) (r : NostrProviderRoom) :
    NostrProviderRoom * option NostrEvent * result unit TransportError :=
  match
    let* b := map_err (nostr_err "wire envelope encode") (wire_to_vec e) in
    check reject_forbidden_plaintext b in
    check nostr_validate_event_bytes b (nr_max_message_bytes r) in
    check map_err (nostr_err "topic tag") tag in Ok b
  with
  | Err err => (r, None, Err err)
  | Ok b =>
      match nostr_send_loop send 0 10 "" with
      | Ok _ =>
          let '(r', out) := nostr_drain_network net r in
          (r', Some (nostr_event (nr_topic r) b), out)
      | Err last_failure =>
          (r, None,
           adapter_error ("nostr publish failed on all relays: "
             +:+ failure_fields (classify_provider_failure last_failure)
             +:+ " details=" +:+ last_failure))
      end
  end.

Definition nostr_publish_presence (payload : bytes) (ttl_seconds : N) (tag : result unit string)
    (send : nat → NostrSend) (net : NostrNetwork) (r : NostrProviderRoom) :=
  match presence_guard payload ttl_seconds with
  | Err e => (r, None, Err e)
  | Ok _ => nostr_publish_envelope
              (WePresence NOSTR_EVENT_SCHEMA (nr_local_peer_id r) payload ttl_seconds) tag send net r
  end.

Definition nostr_send_signal (to_peer : SignalingPeerId) (payload : SealedWebRtcNegotiationPayload)
    (tag : result unit string) (send : nat → NostrSend) (net : NostrNetwork)
    (r : NostrProviderRoom) :=
  match reject_forbidden_plaintext (np_ciphertext payload) with
  | Err e => (r, None, Err e)
  | Ok _ => nostr_publish_envelope
              (WeSignal NOSTR_EVENT_SCHEMA (nr_local_peer_id r) to_peer payload) tag send net r
  end.

Definition nostr_broadcast_control (payload : bytes) (tag : result unit string)
    (send : nat → NostrSend) (net : NostrNetwork) (r : NostrProviderRoom) :=
  match reject_forbidden_plaintext payload with
  | Err e => (r, None, Err e)
  | Ok _ => nostr_publish_envelope
              (WeControl NOSTR_EVENT_SCHEMA (nr_local_peer_id r) payload) tag send net r
  end.

Definition nostr_subscribe_presence (net : NostrNetwork) (r : NostrProviderRoom) :
    NostrProviderRoom * result (list PresenceEvent) TransportError :=
  match nostr_drain_network net r with
  | (r, Err e) => (r, Err e)
  | (r, Ok _) =>
      (set_nostr (nr_notifications r) (without_presence (nr_inbox r)) (nr_delivered_controls r) r,
       Ok (mi_presence (nr_inbox r)))
  end.

Definition nostr_take_signals (net : NostrNetwork) (r : NostrProviderRoom) :
    NostrProviderRoom * result (list PeerSignal) TransportError :=
  match nostr_drain_network net r with
  | (r, Err e) => (r, Err e)
  | (r, Ok _) =>
      (set_nostr (nr_notifications r) (without_signals (nr_inbox r)) (nr_delivered_controls r) r,
       Ok (mi_signals (nr_inbox r)))
  end.

Definition nostr_take_control_payloads (r : NostrProviderRoom) :
    NostrProviderRoom * result (list ControlBroadcast) TransportError :=
  let '(i, l, out) := nostr_try_recv (nr_topic r) (nr_local_peer_id r) (nr_inbox r)
    (nr_notifications r) in
  match out with
  | Err e => (set_nostr l i (nr_delivered_controls r) r, Err e)
  | Ok _ =>
      let '(d, fresh) := controls_for (nr_local_peer_id r) (nr_delivered_controls r)
                           (mi_controls i) in
      (set_nostr l i d r, Ok fresh)
  end.

Definition nostr_connect (profile : SignalingAdapterProfile) :
    result SignalingAdapterProfile TransportError :=
  check provider_connect KNostr "nostr" profile in Ok profile.

(** One [subscribe_with_id_to]: whether a relay succeeded, the [Debug] text of the failed ones, if
    any. *)
Record NostrSubscribeOutput := { ns_success : bool; ns_failed : option string }.

(** The first subscription and at most 25 more until a relay succeeds. *)
Fixpoint nostr_subscribe_loop (subscribe : nat → result NostrSubscribeOutput string)
    (attempt left : nat) (output : NostrSubscribeOutput) :
    result NostrSubscribeOutput TransportError :=
  match left with
  | O => Ok output
  | S left' =>
      if ns_success output then Ok output
      else
        let* output := map_err (nostr_err "subscribe") (subscribe attempt) in
        nostr_subscribe_loop subscribe (S attempt) left' output
  end.

(** What the client answered while the room was set up. *)
Record NostrJoinNetwork := {
  nj_keys : result unit string;
  nj_add_relay : string → result unit string;
  nj_subscribe : nat → result NostrSubscribeOutput string;
  nj_notifications : list NostrReceived;
  nj_drain : NostrNetwork
}.

Fixpoint nostr_add_relays (add : string → result unit string) (urls : list string) :
    result unit TransportError :=
  match urls with
  | [] => Ok tt
  | url :: rest => check map_err (nostr_err "add relay") (add url) in nostr_add_relays add rest
  end.

Definition nostr_join (profile : SignalingAdapterProfile) (scope : ConversationScope)
    (rendezvous : RendezvousCapability) (local : SignalingPeerId) (net : NostrJoinNetwork) :
    result NostrProviderRoom TransportError :=
  check provider_join_checks KNostr "nostr" scope rendezvous in
  let* relay_urls := nostr_endpoints_for_profile profile in
  check map_err (nostr_err "client key derivation") (nj_keys net) in
  check nostr_add_relays (nj_add_relay net) relay_urls in
  let* output := map_err (nostr_err "subscribe") (nj_subscribe net 0) in
  let* output := nostr_subscribe_loop (nj_subscribe net) 1 25 output in
  check match ns_success output, ns_failed output with
        | false, Some failed =>
            adapter_error ("nostr subscribe failed on all relays: "
              +:+ failure_fields (classify_provider_failure failed) +:+ " details=" +:+ failed)
        | _, _ => Ok tt
        end in
  let room := {| nr_local_peer_id := local;
                 nr_max_message_bytes := nostr_max_message_bytes_for_profile profile;
                 nr_topic := rc_topic rendezvous; nr_notifications := nj_notifications net;
                 nr_inbox := inbox_default; nr_delivered_controls := ∅ |} in
  let '(room, drained) := nostr_drain_network (nj_drain net) room in
  check drained in Ok room.
End nostr.

(** ** IPFS PubSub *)

Definition IPFS_PUBSUB_EVENT_SCHEMA : N := 1.
Definition IPFS_PUBSUB_MAX_MESSAGE_BYTES : N := 64 * 1024.
Definition IPFS_PUBSUB_MAX_BOOTSTRAP_ENDPOINTS : nat := 16.
Definition IPFS_PUBSUB_DUPLICATE_STORM_THRESHOLD : N := 32.

Definition ipfs_err (context err : string) : TransportError :=
  SignalingAdapterFailed ("ipfs_pubsub " +:+ context +:+ " failed: " +:+ err).

Definition ipfs_typed_error (context : string) (r : AdapterReadinessState) (details : string) :
    TransportError :=
  SignalingAdapterFailed ("ipfs_pubsub " +:+ context +:+ " failed: " +:+ failure_fields r
                          +:+ " details=" +:+ details).

Definition ipfs_topic (rendezvous : RendezvousCapability) : string :=
  "discrypt/v1/rendezvous/" +:+ rc_topic rendezvous.

(** *** Addresses *)

Inductive MultiaddrProtocol :=
| MaDns | MaDns4 | MaDns6 | MaDnsaddr | MaIp4 | MaIp6 | MaP2p (peer_id : string) | MaOther.

(** [libp2p::Multiaddr]: its parser with the text of its error, its text, its components. *)
Class Multiaddrs := {
  multiaddr : Type;
  ma_parse : string → result multiaddr string;
  ma_to_string : multiaddr → string;
  ma_protocols : multiaddr → list MultiaddrProtocol
}.

Section addresses.
Context `{Multiaddrs}.

Definition ipfs_multiaddr_from_endpoint (e : SignalingProviderEndpoint) :
    result multiaddr TransportError :=
  map_err (ipfs_err "multiaddr parse")
    (ma_parse (default (pe_endpoint e) (strip_prefix "libp2p://" (pe_endpoint e)))).

Definition ipfs_should_dial (a : multiaddr) : bool :=
  negb (str_contains "/tcp/0" (ma_to_string a) || str_contains "/udp/0" (ma_to_string a)).

Definition ipfs_contains_dns_component (a : multiaddr) : bool :=
  existsb (λ p, match p with MaDns | MaDns4 | MaDns6 | MaDnsaddr => true | _ => false end)
    (ma_protocols a).

Definition ipfs_has_direct_ip_component (a : multiaddr) : bool :=
  existsb (λ p, match p with MaIp4 | MaIp6 => true | _ => false end) (ma_protocols a).

Definition ipfs_peer_id_from_multiaddr (a : multiaddr) : option string :=
  head (omap (λ p, match p with MaP2p id => Some id | _ => None end) (ma_protocols a)).

Fixpoint ipfs_check_addrs (seen : gset string) (addrs : list multiaddr) : result unit TransportError :=
  match addrs with
  | [] => Ok tt
  | a :: rest =>
      let text := ma_to_string a in
      check reject_policy (bool_decide (text ∈ seen))
        ("ipfs_pubsub duplicate bootstrap endpoint rejected by resource policy: " +:+ text) in
      check reject_policy (ipfs_contains_dns_component a)
        ("ipfs_pubsub DNS bootstrap endpoint rejected while DNS discovery remains audit-blocked: "
         +:+ text) in
      check (if ipfs_should_dial a then
               check reject_policy (negb (ipfs_has_direct_ip_component a))
                 ("ipfs_pubsub dialable bootstrap endpoint must use explicit /ip4 or /ip6 addressing: "
                  +:+ text) in
               reject_policy (bool_decide (ipfs_peer_id_from_multiaddr a = None))
                 ("ipfs_pubsub dialable bootstrap endpoint must include /p2p/<peer-id> for a reachable Discrypt topic peer: "
                  +:+ text)
             else Ok tt) in
      ipfs_check_addrs ({[text]} ∪ seen) rest
  end.

Definition ipfs_validate_bootstrap_policy (addrs : list multiaddr) : result unit TransportError :=
  check reject_policy (Nat.ltb IPFS_PUBSUB_MAX_BOOTSTRAP_ENDPOINTS (length addrs))
    ("ipfs_pubsub bootstrap endpoint count exceeds resource policy limit: max="
     +:+ pretty (N.of_nat IPFS_PUBSUB_MAX_BOOTSTRAP_ENDPOINTS)) in
  ipfs_check_addrs ∅ addrs.

Fixpoint ipfs_bootstrap_addrs (l : list SignalingProviderEndpoint) :
    result (list multiaddr) TransportError :=
  match l with
  | [] => Ok []
  | e :: rest =>
      let* a := ipfs_multiaddr_from_endpoint e in
      let* addrs := ipfs_bootstrap_addrs rest in Ok (a :: addrs)
  end.

Definition ipfs_connect (profile : SignalingAdapterProfile) :
    result SignalingAdapterProfile TransportError :=
  check provider_connect KIpfsPubsub "ipfs_pubsub" profile in
  let* _ := ipfs_bootstrap_addrs (ap_endpoints profile) in Ok profile.

(** The wait for a first connection: each round reads the number of connected peers, of failed
    dials, and whether the deadline passed. *)
Definition ipfs_bootstrap_round (dials : N) (round : N * N * bool) :
    option (result unit TransportError) :=
  let '(connected, failed, late) := round in
  if 0 <? connected then Some (Ok tt)
  else if dials <=? failed then
    Some (Err (ipfs_typed_error "bootstrap_connect" ArProviderUnhealthy
      ("all configured bootstrap dials failed before a libp2p peer connection was established (bootstrap_dials="
       +:+ pretty dials +:+ ")")))
  else if late then
    Some (Err (ipfs_typed_error "bootstrap_connect" ArProviderUnhealthy
      ("timed out waiting for a reachable Discrypt/IPFS pubsub peer (bootstrap_dials="
       +:+ pretty dials +:+ ")")))
  else None.

Definition ipfs_dial_count (addrs : list multiaddr) : N :=
  N.of_nat (length (filter (λ a, ipfs_should_dial a = true) addrs)).
End addresses.

(** *** The room *)

Record IpfsPubsubInbox := {
  ii_inbox : MqttInbox;
  ii_seen_messages : gset string;
  ii_duplicate_counts : gmap string N;
  ii_health_faults : list string
}.

Record IpfsPubsubProviderRoom := {
  ir_local_peer_id : SignalingPeerId;
  ir_inbox : IpfsPubsubInbox;
  ir_listen_addresses : list string
}.

Definition ipfs_inbox_default : IpfsPubsubInbox :=
  {| ii_inbox := inbox_default; ii_seen_messages := ∅; ii_duplicate_counts := ∅;
     ii_health_faults := [] |}.

Definition set_ipfs (i : IpfsPubsubInbox) (r : IpfsPubsubProviderRoom) : IpfsPubsubProviderRoom :=
  {| ir_local_peer_id := ir_local_peer_id r; ir_inbox := i;
     ir_listen_addresses := ir_listen_addresses r |}.

Definition set_filed (f : MqttInbox) (i : IpfsPubsubInbox) : IpfsPubsubInbox :=
  {| ii_inbox := f; ii_seen_messages := ii_seen_messages i;
     ii_duplicate_counts := ii_duplicate_counts i; ii_health_faults := ii_health_faults i |}.

Definition set_faults (l : list string) (i : IpfsPubsubInbox) : IpfsPubsubInbox :=
  {| ii_inbox := ii_inbox i; ii_seen_messages := ii_seen_messages i;
     ii_duplicate_counts := ii_duplicate_counts i; ii_health_faults := l |}.

Section ipfs.
Context `{Sha256, WireJson}.

Definition ipfs_message_fingerprint (b : bytes) : string := sha256_hex b.

Definition ipfs_duplicate_storm_error (fingerprint : string) (count : N) : TransportError :=
  ipfs_typed_error "duplicate_storm" ArProviderUnhealthy
    ("duplicate envelope fingerprint exceeded resource policy threshold: fingerprint="
     +:+ fingerprint +:+ " duplicates=" +:+ pretty count +:+ " threshold="
     +:+ pretty IPFS_PUBSUB_DUPLICATE_STORM_THRESHOLD).

Definition ipfs_swarm_provider_unhealthy_error (context details : string) : TransportError :=
  ipfs_typed_error context ArProviderUnhealthy
    ("libp2p swarm reported provider/runtime failure: " +:+ details).

Definition open_ipfs_message (b : bytes) : result IpfsPubsubWireEnvelope TransportError :=
  check reject_forbidden_plaintext b in
  map_err (ipfs_err "wire envelope decode") (wire_from_slice b).

Definition ipfs_record_message (local : SignalingPeerId) (b : bytes) (i : IpfsPubsubInbox) :
    IpfsPubsubInbox * result unit TransportError :=
  match open_ipfs_message b with
  | Err e => (i, Err e)
  | Ok env =>
      let fingerprint := ipfs_message_fingerprint b in
      if bool_decide (fingerprint ∈ ii_seen_messages i) then
        let count := default 0 (ii_duplicate_counts i !! fingerprint) + 1 in
        let counted faults := {|
          ii_inbox := ii_inbox i; ii_seen_messages := ii_seen_messages i;
          ii_duplicate_counts := <[fingerprint := count]> (ii_duplicate_counts i);
          ii_health_faults := faults |} in
        if count =? IPFS_PUBSUB_DUPLICATE_STORM_THRESHOLD then
          let error := ipfs_duplicate_storm_error fingerprint count in
          (counted (ii_health_faults i ++ [transport_error_text error]), Err error)
        else (counted (ii_health_faults i), Ok tt)
      else
        ({| ii_inbox := file_envelope local env (ii_inbox i);
            ii_seen_messages := {[fingerprint]} ∪ ii_seen_messages i;
            ii_duplicate_counts := ii_duplicate_counts i;
            ii_health_faults := ii_health_faults i |}, Ok tt)
  end.

(** [pop]: the last fault first. *)
Definition take_health_fault (i : IpfsPubsubInbox) : IpfsPubsubInbox * result unit TransportError :=
  match last (ii_health_faults i) with
  | Some message =>
      (set_faults (take (pred (length (ii_health_faults i))) (ii_health_faults i)) i,
       adapter_error message)
  | None => (i, Ok tt)
  end.

Definition record_health_fault (e : TransportError) (i : IpfsPubsubInbox) : IpfsPubsubInbox :=
  set_faults (ii_health_faults i ++ [transport_error_text e]) i.

(** The events of the swarm that reach the room. *)
Inductive IpfsSwarmEvent :=
| SeNewListenAddr (address : string)
| SeListenerError (error : string)
| SeListenerClosed (details : string)
| SeMessage (data : bytes).

Definition ipfs_swarm_event (ev : IpfsSwarmEvent) (r : IpfsPubsubProviderRoom) :
    IpfsPubsubProviderRoom :=
  match ev with
  | SeNewListenAddr address =>
      {| ir_local_peer_id := ir_local_peer_id r; ir_inbox := ir_inbox r;
         ir_listen_addresses := ir_listen_addresses r ++ [address] |}
  | SeListenerError error =>
      set_ipfs (record_health_fault (ipfs_swarm_provider_unhealthy_error "listener_error" error)
                  (ir_inbox r)) r
  | SeListenerClosed details =>
      set_ipfs (record_health_fault (ipfs_swarm_provider_unhealthy_error "listener_closed" details)
                  (ir_inbox r)) r
  | SeMessage data =>
      set_ipfs (ipfs_record_message (ir_local_peer_id r) data (ir_inbox r)).1 r
  end.

(** *** Publishing *)

Definition ipfs_encode_envelope (e : IpfsPubsubWireEnvelope) : result bytes TransportError :=
  let* b := map_err (ipfs_err "wire envelope encode") (wire_to_vec e) in
  check reject_if (IPFS_PUBSUB_MAX_MESSAGE_BYTES <? N.of_nat (length b))
    (ipfs_typed_error "envelope_size" ArProviderMessageTooLarge
       ("envelope exceeds max message size: bytes=" +:+ pretty (N.of_nat (length b)) +:+ " max="
        +:+ pretty IPFS_PUBSUB_MAX_MESSAGE_BYTES)) in
  check reject_forbidden_plaintext b in Ok b.

Inductive PublishError := NoPeersSubscribedToTopic | PublishFailed (text : string).

Definition ipfs_pubsub_no_topic_mesh_error (e : PublishError)
    (connected_peers subscribed_peers mesh_peers : N) : TransportError :=
  match e with
  | NoPeersSubscribedToTopic =>
      ipfs_typed_error "topic_mesh_unavailable" ArProviderUnhealthy
        ("publish has insufficient topic peers (connected_peers=" +:+ pretty connected_peers
         +:+ ", subscribed_topic_peers=" +:+ pretty subscribed_peers
         +:+ ", mesh_peers=" +:+ pretty mesh_peers
         +:+ "); generic libp2p bootstrap peers do not relay arbitrary gossipsub topics. Configure at least one reachable Discrypt/IPFS pubsub peer for this rendezvous topic, or a public DHT/rendezvous path where participants can advertise and discover the same topic provider record before publishing")
  | PublishFailed text => ipfs_err "publish" text
  end.

(** How the swarm task answers a command: it is gone, it drops the reply, or it replies. *)
Inductive IpfsReply := TaskStopped | ReplyDropped | Reply (r : result unit TransportError).

Definition ipfs_command (what : string) (reply : IpfsReply) : result unit TransportError :=
  match reply with
  | TaskStopped => adapter_error "ipfs_pubsub swarm task stopped"
  | ReplyDropped => adapter_error ("ipfs_pubsub " +:+ what +:+ " result dropped")
  | Reply r => r
  end.

(** The payload handed to the swarm comes out beside the outcome. *)
Definition ipfs_publish (e : result bytes TransportError) (reply : IpfsReply) :
    option bytes * result unit TransportError :=
  match e with
  | Err err => (None, Err err)
  | Ok b => (Some b, ipfs_command "publish" reply)
  end.

Definition ipfs_publish_presence (payload : bytes) (ttl_seconds : N) (reply : IpfsReply)
    (r : IpfsPubsubProviderRoom) : option bytes * result unit TransportError :=
  ipfs_publish
    (check presence_guard payload ttl_seconds in
     ipfs_encode_envelope
       (WePresence IPFS_PUBSUB_EVENT_SCHEMA (ir_local_peer_id r) payload ttl_seconds)) reply.

Definition ipfs_send_signal (to_peer : SignalingPeerId) (payload : SealedWebRtcNegotiationPayload)
    (reply : IpfsReply) (r : IpfsPubsubProviderRoom) : option bytes * result unit TransportError :=
  ipfs_publish
    (check reject_forbidden_plaintext (np_ciphertext payload) in
     ipfs_encode_envelope (WeSignal IPFS_PUBSUB_EVENT_SCHEMA (ir_local_peer_id r) to_peer payload))
    reply.

Definition ipfs_broadcast_control (payload : bytes) (reply : IpfsReply)
    (r : IpfsPubsubProviderRoom) : option bytes * result unit TransportError :=
  ipfs_publish
    (check reject_forbidden_plaintext payload in
     ipfs_encode_envelope (WeControl IPFS_PUBSUB_EVENT_SCHEMA (ir_local_peer_id r) payload)) reply.

Definition ipfs_leave (reply : IpfsReply) : result unit TransportError := ipfs_command "leave" reply.

(** *** Takes *)

Definition ipfs_subscribe_presence (r : IpfsPubsubProviderRoom) :
    IpfsPubsubProviderRoom * result (list PresenceEvent) TransportError :=
  match take_health_fault (ir_inbox r) with
  | (i, Err e) => (set_ipfs i r, Err e)
  | (i, Ok _) => (set_ipfs (set_filed (without_presence (ii_inbox i)) i) r,
                  Ok (mi_presence (ii_inbox i)))
  end.

Definition ipfs_take_signals (r : IpfsPubsubProviderRoom) :
    IpfsPubsubProviderRoom * result (list PeerSignal) TransportError :=
  match take_health_fault (ir_inbox r) with
  | (i, Err e) => (set_ipfs i r, Err e)
  | (i, Ok _) => (set_ipfs (set_filed (without_signals (ii_inbox i)) i) r,
                  Ok (mi_signals (ii_inbox i)))
  end.

Definition ipfs_take_control_payloads (r : IpfsPubsubProviderRoom) :
    IpfsPubsubProviderRoom * result (list ControlBroadcast) TransportError :=
  match take_health_fault (ir_inbox r) with
  | (i, Err e) => (set_ipfs i r, Err e)
  | (i, Ok _) =>
      (set_ipfs (set_filed {| mi_presence := mi_presence (ii_inbox i);
                              mi_signals := mi_signals (ii_inbox i); mi_controls := [] |} i) r,
       Ok (mi_controls (ii_inbox i)))
  end.
End ipfs.

(** ** Rooms as queues of signals

    What a room promises about negotiation signals, whatever carries them: each operation hands
    out a list of signals and may bring new ones in, and the two sides always balance. *)

Class SignalRoom (Room Op : Type) := {
  room_peer : Room → SignalingPeerId;
  (** The room after an operation and the signals it returned. *)
  room_op : Op → Room → Room * list PeerSignal;
  (** Arrived and not handed out. *)
  room_waiting : Room → list PeerSignal;
  (** What an operation adds. *)
  room_brings : Op → Room → list PeerSignal
}.

Class SignalRoomLaws (Room Op : Type) `{SignalRoom Room Op} : Prop := {
  room_op_peer op r : room_peer (room_op op r).1 = room_peer r;
  room_op_balance op r :
    (room_op op r).2 ++ room_waiting (room_op op r).1 = room_waiting r ++ room_brings op r;
  room_brings_mine op r : Forall (λ s, sg_to_peer s = room_peer r) (room_brings op r)
}.

(** All signals handed out, and all signals brought in, along a sequence of operations. *)
Fixpoint room_run {Room Op} `{SignalRoom Room Op} (ops : list Op) (r : Room) :
    Room * list PeerSignal * list PeerSignal :=
  match ops with
  | [] => (r, [], [])
  | op :: rest =>
      let '(r', out) := room_op op r in
      let '(r'', outs, brought) := room_run rest r' in
      (r'', out ++ outs, room_brings op r ++ brought)
  end.

Lemma room_run_balance {Room Op} `{SignalRoomLaws Room Op} ops r :
  let '(r', outs, brought) := room_run ops r in
  outs ++ room_waiting r' = room_waiting r ++ brought
  ∧ room_peer r' = room_peer r
  ∧ Forall (λ s, sg_to_peer s = room_peer r) brought.
Proof.
  revert r. induction ops as [|op ops IH]; intros r; simpl; [by rewrite app_nil_r|].
  pose proof (room_op_balance op r) as Hb. pose proof (room_op_peer op r) as Hp.
  pose proof (room_brings_mine op r) as Hm.
  destruct (room_op op r) as [r' out]. simpl in Hb, Hp. specialize (IH r').
  destruct (room_run ops r') as [[r'' outs] brought]. destruct IH as (IH & Hp' & Hm'). split_and!.
  - by rewrite <- app_assoc, IH, app_assoc, Hb, <- app_assoc.
  - congruence.
  - apply Forall_app. split; [done|]. by rewrite Hp in Hm'.
Qed.

(** ** Lemmas *)

Lemma string_append_assoc (s t u : string) : (s +:+ t) +:+ u = s +:+ (t +:+ u).
Proof.
  induction s as [|c s IH]; [done|].
  change (String c ((s +:+ t) +:+ u) = String c (s +:+ (t +:+ u))). by rewrite IH.
Qed.

Lemma file_envelope_signals local e i :
  mi_signals (file_envelope local e i) = mi_signals i ++ mi_signals (file_envelope local e inbox_default).
Proof. destruct e; simpl; case_match; simpl; by rewrite ?app_nil_r. Qed.

Lemma file_envelope_controls local e i :
  mi_controls (file_envelope local e i)
  = mi_controls i ++ mi_controls (file_envelope local e inbox_default).
Proof. destruct e; simpl; case_match; simpl; by rewrite ?app_nil_r. Qed.

Lemma file_envelope_mine local e :
  Forall (λ s, sg_to_peer s = local) (mi_signals (file_envelope local e inbox_default)).
Proof.
  destruct e; simpl; case_match; simpl; try constructor; [|constructor].
  by match goal with E : _ && bool_decide _ = true |- _ =>
    apply andb_true_iff in E as [_ E%bool_decide_eq_true]; simpl end.
Qed.

(** *** MQTT *)

Section mqtt_lemmas.
Context `{WireJson}.

Definition open_mqtt (b : bytes) : result MqttWireEnvelope TransportError :=
  check reject_forbidden_plaintext b in
  map_err (mqtt_err "wire envelope decode") (wire_from_slice b).

Lemma record_mqtt_eq local b i :
  record_mqtt_envelope local b i =
  match open_mqtt b with Ok e => (file_envelope local e i, Ok tt) | Err e => (i, Err e) end.
Proof. done. Qed.

(** What an event adds to the inbox, and whether it makes the call that reads it fail. *)
Definition mqtt_event_filed (local : SignalingPeerId) (ev : MqttProviderEvent) : MqttInbox :=
  match ev with
  | MePublish _ b =>
      match open_mqtt b with Ok e => file_envelope local e inbox_default | Err _ => inbox_default end
  | _ => inbox_default
  end.

Definition mqtt_event_malformed (ev : MqttProviderEvent) : bool :=
  match ev with MePublish _ b => negb (is_ok (open_mqtt b)) | _ => false end.

Definition mqtt_signals_of (local : SignalingPeerId) (events : list MqttProviderEvent) :
  list PeerSignal := events ≫= λ ev, mi_signals (mqtt_event_filed local ev).

Definition mqtt_controls_of (local : SignalingPeerId) (events : list MqttProviderEvent) :
  list ControlBroadcast := events ≫= λ ev, mi_controls (mqtt_event_filed local ev).

Definition mqtt_malformed (events : list MqttProviderEvent) : nat :=
  foldr (λ ev n, if mqtt_event_malformed ev then S n else n) 0%nat events.

Definition mqtt_waiting (r : MqttProviderRoom) : list PeerSignal :=
  mi_signals (mr_inbox r) ++ mqtt_signals_of (mr_local_peer_id r) (mr_events r).

(** What a drain with any budget did. *)
Definition drained_to (local : SignalingPeerId) (i : MqttInbox) (events : list MqttProviderEvent)
    (i' : MqttInbox) (rest : list MqttProviderEvent) : Prop :=
  mi_signals i' ++ mqtt_signals_of local rest = mi_signals i ++ mqtt_signals_of local events
  ∧ mi_controls i' ++ mqtt_controls_of local rest = mi_controls i ++ mqtt_controls_of local events
  ∧ mi_controls i `prefix_of` mi_controls i'.

Lemma drained_refl local i events : drained_to local i events i events.
Proof. by split_and!. Qed.

(** One event, filed or dropped. *)
Lemma drained_step local i ev rest i1 i' rest' :
  mi_signals i1 = mi_signals i ++ mi_signals (mqtt_event_filed local ev) →
  mi_controls i1 = mi_controls i ++ mi_controls (mqtt_event_filed local ev) →
  drained_to local i1 rest i' rest' → drained_to local i (ev :: rest) i' rest'.
Proof.
  intros Hs Hc (H1 & H2 & H3). unfold drained_to, mqtt_signals_of, mqtt_controls_of in *.
  rewrite !bind_cons, !app_assoc, <- Hs, <- Hc. split_and!; [done|done|].
  etrans; [|exact H3]. rewrite Hc. by apply prefix_app_r.
Qed.

Lemma mqtt_filed_ok local topic b i e :
  open_mqtt b = Ok e →
  mi_signals (file_envelope local e i)
    = mi_signals i ++ mi_signals (mqtt_event_filed local (MePublish topic b))
  ∧ mi_controls (file_envelope local e i)
    = mi_controls i ++ mi_controls (mqtt_event_filed local (MePublish topic b)).
Proof.
  intros Ho. unfold mqtt_event_filed. rewrite Ho.
  split; [apply file_envelope_signals|apply file_envelope_controls].
Qed.

Lemma mqtt_filed_err local topic b i err :
  open_mqtt b = Err err →
  mi_signals i = mi_signals i ++ mi_signals (mqtt_event_filed local (MePublish topic b))
  ∧ mi_controls i = mi_controls i ++ mi_controls (mqtt_event_filed local (MePublish topic b)).
Proof. intros Ho. unfold mqtt_event_filed. rewrite Ho. simpl. by rewrite !app_nil_r. Qed.

Lemma mqtt_consume_spec local i events :
  let '(i', rest, out) := mqtt_consume local i events in
  drained_to local i events i' rest
  ∧ match out with
    | Ok _ => rest = [] ∧ mqtt_malformed events = 0%nat
    | Err _ => mqtt_malformed events = S (mqtt_malformed rest)
    end.
Proof.
  revert i. induction events as [|ev events IH]; intros i; simpl.
  { split; [apply drained_refl|done]. }
  destruct ev as [topic b| |].
  - rewrite record_mqtt_eq. cbn [mqtt_event_malformed].
    destruct (open_mqtt b) as [e|err] eqn:Ho; simpl.
    + specialize (IH (file_envelope local e i)).
      destruct (mqtt_consume local _ events) as [[i' rest] out]. destruct IH as [Hd Hm].
      split; [|done]. destruct (mqtt_filed_ok local topic b i e Ho). by eapply drained_step.
    + split; [|done]. destruct (mqtt_filed_err local topic b i err Ho).
      eapply drained_step; [done|done|apply drained_refl].
  - specialize (IH i).
    destruct (mqtt_consume local i events) as [[i' rest] out]. destruct IH as [Hd Hm].
    split; [|done]. eapply drained_step; [..|exact Hd]; by rewrite app_nil_r.
  - specialize (IH i).
    destruct (mqtt_consume local i events) as [[i' rest] out]. destruct IH as [Hd Hm].
    split; [|done]. eapply drained_step; [..|exact Hd]; by rewrite app_nil_r.
Qed.

Lemma mqtt_drain_spec local closed budget i events :
  let '(i', rest, _) := mqtt_drain local closed budget i events in
  drained_to local i events i' rest.
Proof.
  revert i events. induction budget as [|budget IH]; intros i events; simpl; [apply drained_refl|].
  destruct events as [|[topic b| |] events]; [apply drained_refl|..].
  - rewrite record_mqtt_eq. destruct (open_mqtt b) as [e|err] eqn:Ho; simpl.
    + specialize (IH (file_envelope local e i) events).
      destruct (mqtt_drain local closed budget _ events) as [[i' rest] out].
      destruct (mqtt_filed_ok local topic b i e Ho). by eapply drained_step.
    + destruct (mqtt_filed_err local topic b i err Ho).
      eapply drained_step; [done|done|apply drained_refl].
  - specialize (IH i events). destruct (mqtt_drain local closed budget i events) as [[i' rest] out].
    eapply drained_step; [..|exact IH]; by rewrite app_nil_r.
  - specialize (IH i events). destruct (mqtt_drain local closed budget i events) as [[i' rest] out].
    eapply drained_step; [..|exact IH]; by rewrite app_nil_r.
Qed.

(** Moving events from the channel to the inbox: the same signals wait, the same broadcasts are
    known, and no broadcast leaves the inbox. *)
Definition mqtt_kept (r r' : MqttProviderRoom) : Prop :=
  mqtt_waiting r' = mqtt_waiting r
  ∧ mr_local_peer_id r' = mr_local_peer_id r
  ∧ mr_delivered_controls r' = mr_delivered_controls r
  ∧ mi_controls (mr_inbox r') ++ mqtt_controls_of (mr_local_peer_id r) (mr_events r')
    = mi_controls (mr_inbox r) ++ mqtt_controls_of (mr_local_peer_id r) (mr_events r)
  ∧ mi_controls (mr_inbox r) `prefix_of` mi_controls (mr_inbox r').

Lemma mqtt_kept_refl r : mqtt_kept r r.
Proof. by split_and!. Qed.

Lemma consume_network_events_spec r :
  let '(r', out) := consume_network_events r in
  mqtt_kept r r'
  ∧ match out with
    | Ok _ => mr_events r' = [] ∧ mqtt_malformed (mr_events r) = 0%nat
    | Err _ => mqtt_malformed (mr_events r) = S (mqtt_malformed (mr_events r'))
    end.
Proof.
  unfold consume_network_events, mqtt_kept, mqtt_waiting.
  pose proof (mqtt_consume_spec (mr_local_peer_id r) (mr_inbox r) (mr_events r)) as Hs.
  destruct (mqtt_consume _ _ _) as [[i rest] out]. simpl. unfold drained_to in Hs. tauto.
Qed.

Lemma mqtt_drain_network_spec closed budget r :
  let '(r', _) := mqtt_drain_network closed budget r in
  mqtt_kept r r'.
Proof.
  unfold mqtt_drain_network, mqtt_kept, mqtt_waiting.
  pose proof (mqtt_drain_spec (mr_local_peer_id r) closed budget (mr_inbox r) (mr_events r)) as Hs.
  destruct (mqtt_drain _ _ _ _ _) as [[i rest] out]. simpl. unfold drained_to in Hs. tauto.
Qed.

Lemma mqtt_publish_envelope_spec topic e net r :
  let '(r', sent, out) := mqtt_publish_envelope topic e net r in
  (r' = r ∧ sent = None ∧ is_ok out = false
   ∨ (∃ b, r' = (mqtt_drain_network (mp_closed net) (mp_budget net) r).1
        ∧ sent = Some (topic, b) ∧ wire_to_vec e = Ok b
        ∧ reject_forbidden_plaintext b = Ok tt ∧ N.of_nat (length b) ≤ mr_max_message_bytes r)).
Proof.
  unfold mqtt_publish_envelope.
  destruct (wire_to_vec e) as [b|err]; simpl; [|by left].
  destruct (reject_forbidden_plaintext b) as [[]|err] eqn:Hf; simpl; [|by left].
  destruct (mqtt_validate_publish_bytes b (mr_max_message_bytes r)) as [[]|err] eqn:Hv; simpl; [|by left].
  destruct (mp_published net) as [[]|err]; [|by left].
  destruct (mqtt_drain_network _ _ _) as [r' out] eqn:Hd. right. exists b. split_and!; try done.
  apply reject_if_ok in Hv. by apply N.ltb_ge in Hv.
Qed.

(** *** The operations of a room in any order *)

Inductive MqttOp :=
| MqPoll (p : MqttPoll)
| MqPublishPresence (payload : bytes) (ttl_seconds : N) (net : MqttPublishNetwork)
| MqSendSignal (to_peer : SignalingPeerId) (payload : SealedWebRtcNegotiationPayload)
    (net : MqttPublishNetwork)
| MqBroadcast (payload : bytes) (net : MqttPublishNetwork)
| MqSubscribePresence
| MqTakeSignals
| MqTakeControls.

Definition ok_list {A} (out : result (list A) TransportError) : list A :=
  match out with Ok l => l | Err _ => [] end.

(** The room, the signals and the control broadcasts an operation returns. *)
Definition mqtt_op (op : MqttOp) (r : MqttProviderRoom) :
    MqttProviderRoom * list PeerSignal * list ControlBroadcast :=
  match op with
  | MqPoll p => (default r (mqtt_eventloop_step p r), [], [])
  | MqPublishPresence payload ttl net => ((mqtt_publish_presence payload ttl net r).1.1, [], [])
  | MqSendSignal to payload net => ((mqtt_send_signal to payload net r).1.1, [], [])
  | MqBroadcast payload net => ((mqtt_broadcast_control payload net r).1.1, [], [])
  | MqSubscribePresence => ((mqtt_subscribe_presence r).1, [], [])
  | MqTakeSignals => let '(r', out) := mqtt_take_signals r in (r', ok_list out, [])
  | MqTakeControls => let '(r', out) := mqtt_take_control_payloads r in (r', [], ok_list out)
  end.

(** The event a poll puts into the channel. *)
Definition poll_event (p : MqttPoll) : option MqttProviderEvent :=
  match p with
  | PollPublish topic payload => Some (MePublish topic payload)
  | PollSubAck => Some MeSubAck
  | PollOther => None
  | PollError => Some MeError
  end.

Definition mqtt_brings (op : MqttOp) (r : MqttProviderRoom) : list PeerSignal :=
  match op with
  | MqPoll p =>
      if bool_decide (length (mr_events r) < MQTT_CHANNEL_CAPACITY)%nat
      then mqtt_signals_of (mr_local_peer_id r) (option_list (poll_event p)) else []
  | _ => []
  end.

Lemma mqtt_eventloop_step_spec p r :
  match mqtt_eventloop_step p r with
  | Some r' =>
      mr_local_peer_id r' = mr_local_peer_id r ∧ mr_inbox r' = mr_inbox r
      ∧ mr_delivered_controls r' = mr_delivered_controls r
      ∧ mr_events r' = mr_events r ++ option_list (poll_event p)
      ∧ ((length (mr_events r) < MQTT_CHANNEL_CAPACITY)%nat ∨ poll_event p = None)
  | None => (MQTT_CHANNEL_CAPACITY <= length (mr_events r))%nat ∧ is_Some (poll_event p)
  end.
Proof.
  unfold mqtt_eventloop_step.
  destruct p; simpl; try (destruct (Nat.ltb_spec (length (mr_events r)) MQTT_CHANNEL_CAPACITY); simpl;
    split_and!; try done; auto); by rewrite ?app_nil_r.
Qed.

Lemma mqtt_publish_waiting topic e net r :
  mqtt_kept r (mqtt_publish_envelope topic e net r).1.1.
Proof.
  pose proof (mqtt_publish_envelope_spec topic e net r) as Hs.
  destruct (mqtt_publish_envelope topic e net r) as [[r' sent] out]. simpl.
  destruct Hs as [(-> & _)|(b & -> & _)]; [apply mqtt_kept_refl|].
  pose proof (mqtt_drain_network_spec (mp_closed net) (mp_budget net) r) as Hd.
  destruct (mqtt_drain_network _ _ _) as [r' out']. exact Hd.
Qed.

#[export] Instance mqtt_signal_room : SignalRoom MqttProviderRoom MqttOp := {|
  room_peer := mr_local_peer_id;
  room_op op r := (mqtt_op op r).1;
  room_waiting := mqtt_waiting;
  room_brings := mqtt_brings
|}.

Lemma mqtt_op_local op r : mr_local_peer_id (mqtt_op op r).1.1 = mr_local_peer_id r.
Proof.
  destruct op as [p|payload ttl net|to payload net|payload net| | |]; simpl.
  - pose proof (mqtt_eventloop_step_spec p r) as Hs. destruct (mqtt_eventloop_step p r); simpl; [apply Hs|done].
  - unfold mqtt_publish_presence. destruct (presence_guard _ _); [apply mqtt_publish_waiting|done].
  - unfold mqtt_send_signal. destruct (reject_forbidden_plaintext _); [apply mqtt_publish_waiting|done].
  - unfold mqtt_broadcast_control. destruct (reject_forbidden_plaintext _); [apply mqtt_publish_waiting|done].
  - unfold mqtt_subscribe_presence. pose proof (consume_network_events_spec r) as Hs.
    destruct (consume_network_events r) as [r' []]; simpl; apply Hs.
  - unfold mqtt_take_signals. pose proof (consume_network_events_spec r) as Hs.
    destruct (consume_network_events r) as [r' []]; simpl; apply Hs.
  - unfold mqtt_take_control_payloads. pose proof (consume_network_events_spec r) as Hs.
    destruct (consume_network_events r) as [r' []]; simpl; [|apply Hs].
    destruct (controls_for _ _ _); simpl. apply Hs.
Qed.

Lemma mqtt_op_balance op r :
  (mqtt_op op r).1.2 ++ mqtt_waiting (mqtt_op op r).1.1 = mqtt_waiting r ++ mqtt_brings op r.
Proof.
  destruct op as [p|payload ttl net|to payload net|payload net| | |]; simpl; rewrite ?app_nil_r.
  - pose proof (mqtt_eventloop_step_spec p r) as Hs.
    destruct (mqtt_eventloop_step p r) as [r'|]; simpl.
    + destruct Hs as (Hl & Hi & _ & He & Hc). unfold mqtt_waiting, mqtt_signals_of.
      rewrite Hl, Hi, He, bind_app, app_assoc. f_equal.
      case_bool_decide; [done|]. destruct Hc as [Hc| ->]; [lia|done].
    + destruct Hs as [Hs _]. rewrite bool_decide_false by lia. by rewrite app_nil_r.
  - unfold mqtt_publish_presence. destruct (presence_guard _ _); [apply mqtt_publish_waiting|done].
  - unfold mqtt_send_signal. destruct (reject_forbidden_plaintext _); [apply mqtt_publish_waiting|done].
  - unfold mqtt_broadcast_control. destruct (reject_forbidden_plaintext _); [apply mqtt_publish_waiting|done].
  - unfold mqtt_subscribe_presence. pose proof (consume_network_events_spec r) as Hs.
    destruct (consume_network_events r) as [r' []]; simpl; apply Hs.
  - unfold mqtt_take_signals. pose proof (consume_network_events_spec r) as Hs.
    destruct (consume_network_events r) as [r' []]; simpl; [|apply Hs].
    etrans; [|apply Hs]. done.
  - unfold mqtt_take_control_payloads. pose proof (consume_network_events_spec r) as Hs.
    destruct (consume_network_events r) as [r' []]; simpl; [|apply Hs].
    destruct (controls_for _ _ _); simpl. apply Hs.
Qed.

Lemma mqtt_signals_of_mine local events :
  Forall (λ s, sg_to_peer s = local) (mqtt_signals_of local events).
Proof.
  induction events as [|ev events IH]; [constructor|]. unfold mqtt_signals_of. rewrite bind_cons.
  apply Forall_app. split; [|done]. destruct ev as [topic b| |]; simpl; [|constructor..].
  destruct (open_mqtt b); [apply file_envelope_mine|constructor].
Qed.

#[export] Instance mqtt_signal_room_laws : SignalRoomLaws MqttProviderRoom MqttOp.
Proof.
  split.
  - intros op r. apply mqtt_op_local.
  - intros op r. apply mqtt_op_balance.
  - intros op r. destruct op; simpl; try constructor.
    case_bool_decide; [apply mqtt_signals_of_mine|constructor].
Qed.
End mqtt_lemmas.

(** *** Nostr *)

Section nostr_lemmas.
Context `{Sha256, WireJson, Base64NoPad}.

(** The event a notification carries, and what it adds to the inbox. *)
Definition carried_event (n : NostrReceived) : option NostrEvent :=
  match n with NrEvent e | NrMessage _ (RmEvent e) => Some e | _ => None end.

Definition nostr_filed (topic : string) (local : SignalingPeerId) (n : NostrReceived) : NostrInbox :=
  match carried_event n ≫= open_event topic with
  | Some (Ok env) => file_envelope local env inbox_default
  | _ => inbox_default
  end.

Definition nostr_signals_of (topic : string) (local : SignalingPeerId) (l : list NostrReceived) :
  list PeerSignal := l ≫= λ n, mi_signals (nostr_filed topic local n).

Definition nostr_waiting (r : NostrProviderRoom) : list PeerSignal :=
  mi_signals (nr_inbox r) ++ nostr_signals_of (nr_topic r) (nr_local_peer_id r) (nr_notifications r).

Lemma record_event_signals topic local e i :
  mi_signals (record_event topic local e i).1
  = mi_signals i ++ mi_signals (nostr_filed topic local (NrEvent e)).
Proof.
  unfold record_event, nostr_filed. simpl.
  destruct (open_event topic e) as [[env|err]|]; simpl; rewrite ?app_nil_r; try done.
  apply file_envelope_signals.
Qed.

Lemma nostr_handle_signals topic local n i :
  mi_signals (nostr_handle topic local n i).1 = mi_signals i ++ mi_signals (nostr_filed topic local n).
Proof.
  destruct n as [e|url m| |]; simpl; try (by rewrite app_nil_r).
  - apply record_event_signals.
  - unfold nostr_relay_message_error. destruct m as [e|notice|message|[] message|]; simpl;
      rewrite ?app_nil_r; try done.
    + apply record_event_signals.
    + by destruct (nostr_notice_text_is_failure notice).
Qed.

Lemma nostr_drain_signals topic local closed contended budget i l :
  let '(i', rest, _) := nostr_drain topic local closed contended budget i l in
  mi_signals i' ++ nostr_signals_of topic local rest = mi_signals i ++ nostr_signals_of topic local l.
Proof.
  revert i l. induction budget as [|budget IH]; intros i l; simpl; [done|].
  destruct contended; [done|]. destruct l as [|n l]; [done|].
  pose proof (nostr_handle_signals topic local n i) as Hn. unfold nostr_signals_of.
  rewrite bind_cons, app_assoc, <- Hn. destruct (nostr_handle topic local n i) as [i' [u|err]]; [|done].
  specialize (IH i' l). by destruct (nostr_drain _ _ _ _ _ _ _) as [[i'' rest] out].
Qed.

Lemma nostr_try_recv_signals topic local i l :
  let '(i', rest, _) := nostr_try_recv topic local i l in
  mi_signals i' ++ nostr_signals_of topic local rest = mi_signals i ++ nostr_signals_of topic local l.
Proof.
  revert i. induction l as [|n l IH]; intros i; [done|].
  pose proof (nostr_handle_signals topic local n i) as Hn.
  assert (n = NrLagged ∨ nostr_try_recv topic local i (n :: l)
    = match nostr_handle topic local n i with
      | (i', Ok _) => nostr_try_recv topic local i' l
      | (i', Err e) => (i', l, Err e)
      end) as [->| ->] by (destruct n; auto).
  { reflexivity. }
  unfold nostr_signals_of. rewrite bind_cons, app_assoc, <- Hn.
  destruct (nostr_handle topic local n i) as [i' [u|err]]; [|done].
  specialize (IH i'). by destruct (nostr_try_recv _ _ _ _) as [[i'' rest] out].
Qed.

Lemma nostr_drain_network_spec net r :
  let r' := (nostr_drain_network net r).1 in
  nostr_waiting r' = nostr_waiting r ∧ nr_local_peer_id r' = nr_local_peer_id r
  ∧ nr_topic r' = nr_topic r ∧ nr_delivered_controls r' = nr_delivered_controls r.
Proof.
  unfold nostr_drain_network, nostr_waiting.
  pose proof (nostr_drain_signals (nr_topic r) (nr_local_peer_id r) (nn_closed net)
    (nn_contended net) (nn_budget net) (nr_inbox r) (nr_notifications r)) as Hs.
  destruct (nostr_drain _ _ _ _ _ _ _) as [[i rest] out]. by split_and!.
Qed.

#[local] Arguments nostr_send_loop _ _ _ _ : simpl never.

Lemma nostr_publish_envelope_spec e tag send net r :
  let '(r', sent, out) := nostr_publish_envelope e tag send net r in
  (r' = r ∧ sent = None ∧ is_ok out = false
   ∨ (∃ b, r' = (nostr_drain_network net r).1 ∧ sent = Some (nostr_event (nr_topic r) b)
        ∧ wire_to_vec e = Ok b
        ∧ reject_forbidden_plaintext b = Ok tt ∧ N.of_nat (length b) ≤ nr_max_message_bytes r)).
Proof.
  unfold nostr_publish_envelope.
  destruct (wire_to_vec e) as [b|err]; simpl; [|by left].
  destruct (reject_forbidden_plaintext b) as [[]|err] eqn:Hf; simpl; [|by left].
  destruct (nostr_validate_event_bytes b (nr_max_message_bytes r)) as [[]|err] eqn:Hv; simpl; [|by left].
  destruct tag as [[]|err]; simpl; [|by left].
  destruct (nostr_send_loop send 0 10 ""); [|by left].
  destruct (nostr_drain_network _ _) as [r' out] eqn:Hd. right. exists b. split_and!; try done.
  apply reject_if_ok in Hv. by apply N.ltb_ge in Hv.
Qed.

Inductive NostrOp :=
| NoReceive (n : NostrReceived)
| NoPublishPresence (payload : bytes) (ttl_seconds : N) (tag : result unit string)
    (send : nat → NostrSend) (net : NostrNetwork)
| NoSendSignal (to_peer : SignalingPeerId) (payload : SealedWebRtcNegotiationPayload)
    (tag : result unit string) (send : nat → NostrSend) (net : NostrNetwork)
| NoBroadcast (payload : bytes) (tag : result unit string) (send : nat → NostrSend)
    (net : NostrNetwork)
| NoSubscribePresence (net : NostrNetwork)
| NoTakeSignals (net : NostrNetwork)
| NoTakeControls.

Definition nostr_op (op : NostrOp) (r : NostrProviderRoom) : NostrProviderRoom * list PeerSignal :=
  match op with
  | NoReceive n =>
      (set_nostr (nr_notifications r ++ [n]) (nr_inbox r) (nr_delivered_controls r) r, [])
  | NoPublishPresence payload ttl tag send net =>
      ((nostr_publish_presence payload ttl tag send net r).1.1, [])
  | NoSendSignal to payload tag send net => ((nostr_send_signal to payload tag send net r).1.1, [])
  | NoBroadcast payload tag send net => ((nostr_broadcast_control payload tag send net r).1.1, [])
  | NoSubscribePresence net => ((nostr_subscribe_presence net r).1, [])
  | NoTakeSignals net => let '(r', out) := nostr_take_signals net r in (r', ok_list out)
  | NoTakeControls => ((nostr_take_control_payloads r).1, [])
  end.

#[export] Instance nostr_signal_room : SignalRoom NostrProviderRoom NostrOp := {|
  room_peer := nr_local_peer_id;
  room_op := nostr_op;
  room_waiting := nostr_waiting;
  room_brings op r :=
    match op with
    | NoReceive n => nostr_signals_of (nr_topic r) (nr_local_peer_id r) [n]
    | _ => []
    end
|}.

Lemma nostr_publish_waiting e tag send net r :
  nostr_waiting (nostr_publish_envelope e tag send net r).1.1 = nostr_waiting r
  ∧ nr_local_peer_id (nostr_publish_envelope e tag send net r).1.1 = nr_local_peer_id r.
Proof.
  pose proof (nostr_publish_envelope_spec e tag send net r) as Hs.
  destruct (nostr_publish_envelope e tag send net r) as [[r' sent] out]. simpl.
  destruct Hs as [(-> & _)|(b & -> & _)]; [done|]. split; apply nostr_drain_network_spec.
Qed.

Lemma nostr_op_spec op r :
  (nostr_op op r).2 ++ nostr_waiting (nostr_op op r).1 = nostr_waiting r ++ room_brings op r
  ∧ nr_local_peer_id (nostr_op op r).1 = nr_local_peer_id r.
Proof.
  destruct op as [n|payload ttl tag send net|to payload tag send net|payload tag send net|net|net|];
    simpl; rewrite ?app_nil_r.
  - split; [|done]. unfold nostr_waiting, nostr_signals_of. simpl. rewrite bind_app, app_assoc. simpl. by rewrite app_nil_r.
  - unfold nostr_publish_presence. destruct (presence_guard _ _); [apply nostr_publish_waiting|done].
  - unfold nostr_send_signal. destruct (reject_forbidden_plaintext _); [apply nostr_publish_waiting|done].
  - unfold nostr_broadcast_control. destruct (reject_forbidden_plaintext _); [apply nostr_publish_waiting|done].
  - unfold nostr_subscribe_presence. pose proof (nostr_drain_network_spec net r) as Hs.
    destruct (nostr_drain_network net r) as [r' []]; simpl; split; apply Hs.
  - unfold nostr_take_signals. pose proof (nostr_drain_network_spec net r) as Hs.
    destruct (nostr_drain_network net r) as [r' []]; simpl; (split; [|apply Hs]);
      (etrans; [|apply Hs]); done.
  - unfold nostr_take_control_payloads.
    pose proof (nostr_try_recv_signals (nr_topic r) (nr_local_peer_id r) (nr_inbox r)
      (nr_notifications r)) as Hs.
    destruct (nostr_try_recv _ _ _ _) as [[i rest] [u|err]]; simpl; [|done].
    by destruct (controls_for _ _ _).
Qed.

#[export] Instance nostr_signal_room_laws : SignalRoomLaws NostrProviderRoom NostrOp.
Proof.
  split.
  - intros op r. apply nostr_op_spec.
  - intros op r. apply nostr_op_spec.
  - intros op r. destruct op; simpl; try constructor. unfold nostr_signals_of. simpl.
    rewrite app_nil_r. unfold nostr_filed.
    destruct (carried_event n ≫= open_event (nr_topic r)) as [[env|err]|]; try constructor.
    apply file_envelope_mine.
Qed.
End nostr_lemmas.

(** *** IPFS *)

Section ipfs_lemmas.
Context `{Sha256, WireJson}.

Definition ipfs_message_signals (local : SignalingPeerId) (b : bytes) (i : IpfsPubsubInbox) :
    list PeerSignal :=
  match open_ipfs_message b with
  | Ok env =>
      if bool_decide (ipfs_message_fingerprint b ∈ ii_seen_messages i) then []
      else mi_signals (file_envelope local env inbox_default)
  | Err _ => []
  end.

Inductive IpfsOp :=
| IpSwarm (ev : IpfsSwarmEvent)
| IpSubscribePresence
| IpTakeSignals
| IpTakeControls.

Definition ipfs_op (op : IpfsOp) (r : IpfsPubsubProviderRoom) :
    IpfsPubsubProviderRoom * list PeerSignal :=
  match op with
  | IpSwarm ev => (ipfs_swarm_event ev r, [])
  | IpSubscribePresence => ((ipfs_subscribe_presence r).1, [])
  | IpTakeSignals => let '(r', out) := ipfs_take_signals r in (r', ok_list out)
  | IpTakeControls => ((ipfs_take_control_payloads r).1, [])
  end.

#[export] Instance ipfs_signal_room : SignalRoom IpfsPubsubProviderRoom IpfsOp := {|
  room_peer := ir_local_peer_id;
  room_op := ipfs_op;
  room_waiting r := mi_signals (ii_inbox (ir_inbox r));
  room_brings op r :=
    match op with
    | IpSwarm (SeMessage b) => ipfs_message_signals (ir_local_peer_id r) b (ir_inbox r)
    | _ => []
    end
|}.

Lemma take_health_fault_inbox i : ii_inbox (take_health_fault i).1 = ii_inbox i.
Proof. unfold take_health_fault. by destruct (last _). Qed.

Lemma ipfs_record_message_signals local b i :
  mi_signals (ii_inbox (ipfs_record_message local b i).1)
  = mi_signals (ii_inbox i) ++ ipfs_message_signals local b i.
Proof.
  unfold ipfs_record_message, ipfs_message_signals.
  destruct (open_ipfs_message b) as [env|err]; [|by rewrite app_nil_r].
  case_bool_decide; simpl; [|apply file_envelope_signals].
  case_match; simpl; by rewrite app_nil_r.
Qed.

#[export] Instance ipfs_signal_room_laws : SignalRoomLaws IpfsPubsubProviderRoom IpfsOp.
Proof.
  assert (∀ op r, (ipfs_op op r).2 ++ mi_signals (ii_inbox (ir_inbox (ipfs_op op r).1))
                  = mi_signals (ii_inbox (ir_inbox r)) ++ room_brings op r
                  ∧ ir_local_peer_id (ipfs_op op r).1 = ir_local_peer_id r) as Hop.
  { intros op r. destruct op as [[a|e|d|b]| | |]; simpl; rewrite ?app_nil_r; try done.
    - split; [apply ipfs_record_message_signals|done].
    - unfold ipfs_subscribe_presence. pose proof (take_health_fault_inbox (ir_inbox r)) as Hi.
      destruct (take_health_fault (ir_inbox r)) as [i []]; simpl in *; by rewrite Hi.
    - unfold ipfs_take_signals. pose proof (take_health_fault_inbox (ir_inbox r)) as Hi.
      destruct (take_health_fault (ir_inbox r)) as [i []]; simpl in *; by rewrite Hi, ?app_nil_r.
    - unfold ipfs_take_control_payloads. pose proof (take_health_fault_inbox (ir_inbox r)) as Hi.
      destruct (take_health_fault (ir_inbox r)) as [i []]; simpl in *; by rewrite Hi. }
  split.
  - intros op r. apply Hop.
  - intros op r. apply Hop.
  - intros op r. destruct op as [[a|e|d|b]| | |]; simpl; try constructor.
    unfold ipfs_message_signals. destruct (open_ipfs_message b); [|constructor].
    case_bool_decide; [constructor|apply file_envelope_mine].
Qed.

(** The [n]th repetition of a known message, below the threshold and at it. *)
Definition count_of (b : bytes) (i : IpfsPubsubInbox) : N :=
  default 0 (ii_duplicate_counts i !! ipfs_message_fingerprint b).

Lemma ipfs_repeat_step local b i env :
  open_ipfs_message b = Ok env →
  ipfs_message_fingerprint b ∈ ii_seen_messages i →
  let i' := (ipfs_record_message local b i).1 in
  ii_inbox i' = ii_inbox i ∧ ii_seen_messages i' = ii_seen_messages i
  ∧ count_of b i' = count_of b i + 1
  ∧ ii_health_faults i' = ii_health_faults i ++
      (if count_of b i + 1 =? IPFS_PUBSUB_DUPLICATE_STORM_THRESHOLD then
         [transport_error_text (ipfs_duplicate_storm_error (ipfs_message_fingerprint b)
                                  IPFS_PUBSUB_DUPLICATE_STORM_THRESHOLD)] else []).
Proof.
  intros Ho Hs. unfold ipfs_record_message, count_of. rewrite Ho, bool_decide_true by done.
  destruct (N.eqb_spec (default 0 (ii_duplicate_counts i !! ipfs_message_fingerprint b) + 1)
              IPFS_PUBSUB_DUPLICATE_STORM_THRESHOLD) as [E|E]; simpl;
    rewrite lookup_insert_eq; simpl; split_and!; rewrite ?app_nil_r, ?E; done.
Qed.

(** The message arriving [n] times. *)
Definition ipfs_arrive (local : SignalingPeerId) (b : bytes) (n : nat) (i : IpfsPubsubInbox) :
  IpfsPubsubInbox := Nat.iter n (λ i, (ipfs_record_message local b i).1) i.

Lemma ipfs_arrive_repeats local b env n i :
  open_ipfs_message b = Ok env →
  ipfs_message_fingerprint b ∈ ii_seen_messages i →
  let i' := ipfs_arrive local b n i in
  ii_inbox i' = ii_inbox i ∧ ii_seen_messages i' = ii_seen_messages i
  ∧ count_of b i' = count_of b i + N.of_nat n
  ∧ ii_health_faults i' = ii_health_faults i ++
      (if (count_of b i <? IPFS_PUBSUB_DUPLICATE_STORM_THRESHOLD)
          && (IPFS_PUBSUB_DUPLICATE_STORM_THRESHOLD <=? count_of b i + N.of_nat n) then
         [transport_error_text (ipfs_duplicate_storm_error (ipfs_message_fingerprint b)
                                  IPFS_PUBSUB_DUPLICATE_STORM_THRESHOLD)] else []).
Proof.
  intros Ho Hs. induction n as [|n IH]; simpl.
  { split_and!; [done|done|lia|]. rewrite N.add_0_r.
    destruct (N.ltb_spec (count_of b i) IPFS_PUBSUB_DUPLICATE_STORM_THRESHOLD),
      (N.leb_spec IPFS_PUBSUB_DUPLICATE_STORM_THRESHOLD (count_of b i));
      simpl; rewrite ?app_nil_r; done || lia. }
  destruct IH as (I1 & I2 & I3 & I4). fold (ipfs_arrive local b n i).
  rewrite <- I2 in Hs.
  destruct (ipfs_repeat_step local b (ipfs_arrive local b n i) env Ho Hs) as (S1 & S2 & S3 & S4).
  rewrite S1, S2, S3, S4, I1, I2, I3, I4. split_and!; [done|done|lia|].
  rewrite <- app_assoc. f_equal.
  destruct (N.ltb_spec (count_of b i) IPFS_PUBSUB_DUPLICATE_STORM_THRESHOLD),
    (N.leb_spec IPFS_PUBSUB_DUPLICATE_STORM_THRESHOLD (count_of b i + N.of_nat n)),
    (N.leb_spec IPFS_PUBSUB_DUPLICATE_STORM_THRESHOLD (count_of b i + N.of_nat (S n))),
    (N.eqb_spec (count_of b i + N.of_nat n + 1) IPFS_PUBSUB_DUPLICATE_STORM_THRESHOLD);
    simpl; done || lia.
Qed.
End ipfs_lemmas.

(** *** Controls *)

Lemma fresh_controls_spec delivered l :
  let '(d, fresh) := fresh_controls delivered l in
  d = delivered ∪ list_to_set (control_id <$> fresh)
  ∧ NoDup (control_id <$> fresh)
  ∧ (∀ c, c ∈ fresh → c ∈ l ∧ control_id c ∉ delivered)
  ∧ (∀ c, c ∈ l → control_id c ∈ d).
Proof.
  revert delivered. induction l as [|c l IH]; intros delivered; simpl.
  { split_and!; [set_solver|constructor|set_solver|set_solver]. }
  case_bool_decide as Hc.
  - specialize (IH delivered). destruct (fresh_controls delivered l) as [d fresh].
    destruct IH as (-> & Hn & Hf & Ha). split_and!; [done|done|set_solver|].
    intros x [->|Hx]%elem_of_cons; [set_solver|by apply Ha].
  - specialize (IH ({[control_id c]} ∪ delivered)).
    destruct (fresh_controls _ l) as [d fresh]. destruct IH as (-> & Hn & Hf & Ha). simpl.
    split_and!.
    + set_solver.
    + constructor; [|done]. intros (x & Hx & Hin)%list_elem_of_fmap.
      destruct (Hf x Hin) as [_ Hd]. apply Hd. rewrite <- Hx. apply elem_of_union_l, elem_of_singleton. done.
    + intros x [->|Hx]%elem_of_cons; [set_solver|]. destruct (Hf x Hx). set_solver.
    + intros x [->|Hx]%elem_of_cons; [set_solver|by apply Ha].
Qed.

(** ** Properties *)

Section room_properties.
Context `{Sha256, WireJson, Base64NoPad}.

(** C19. Negotiation signals are handed out exactly once, in order of arrival, and only to their
    addressee. For MQTT, Nostr and IPFS rooms alike, along any sequence of operations (network
    events, publications, takes, failing calls included) the signals handed out followed by the
    ones still waiting are the ones waiting at the start followed by the ones that arrived, and
    everything that arrived is addressed to the room's peer. *)
Theorem signals_are_taken_exactly_once :
  (∀ (ops : list MqttOp) (r : MqttProviderRoom),
     let '(r', outs, brought) := room_run ops r in
     outs ++ mqtt_waiting r' = mqtt_waiting r ++ brought
     ∧ Forall (λ s, sg_to_peer s = mr_local_peer_id r) brought)
  ∧ (∀ (ops : list NostrOp) (r : NostrProviderRoom),
     let '(r', outs, brought) := room_run ops r in
     outs ++ nostr_waiting r' = nostr_waiting r ++ brought
     ∧ Forall (λ s, sg_to_peer s = nr_local_peer_id r) brought)
  ∧ (∀ (ops : list IpfsOp) (r : IpfsPubsubProviderRoom),
     let '(r', outs, brought) := room_run ops r in
     outs ++ mi_signals (ii_inbox (ir_inbox r')) = mi_signals (ii_inbox (ir_inbox r)) ++ brought
     ∧ Forall (λ s, sg_to_peer s = ir_local_peer_id r) brought).
Proof.
  split_and!; intros ops r; pose proof (room_run_balance ops r) as Hb;
    destruct (room_run ops r) as [[r' outs] brought]; split; apply Hb.
Qed.

(** Takes one after another, with nothing arriving in between. *)
Fixpoint mqtt_takes (n : nat) (r : MqttProviderRoom) :
    MqttProviderRoom * list (result (list PeerSignal) TransportError) :=
  match n with
  | O => (r, [])
  | S n' =>
      let '(r', out) := mqtt_take_signals r in
      let '(r'', outs) := mqtt_takes n' r' in (r'', out :: outs)
  end.

Lemma mqtt_takes_S n r :
  mqtt_takes (S n) r =
  let '(r', out) := mqtt_take_signals r in
  let '(r'', outs) := mqtt_takes n r' in (r'', out :: outs).
Proof. done. Qed.

(** A malformed message never blocks a room: with [n] malformed events in the channel the
    next [n] takes fail, one per event, and the take after them succeeds and returns every signal
    that was waiting, in order. *)
Theorem malformed_events_cost_one_take_each r :
  let n := mqtt_malformed (mr_events r) in
  ∃ r' errs,
    mqtt_takes (S n) r = (r', errs ++ [Ok (mqtt_waiting r)])
    ∧ length errs = n ∧ Forall (λ o, is_ok o = false) errs
    ∧ mqtt_waiting r' = [] ∧ mr_events r' = [].
Proof.
  intros n. subst n. remember (mqtt_malformed (mr_events r)) as n eqn:Hn. revert r Hn.
  induction n as [|n IH]; intros r Hn; rewrite mqtt_takes_S; unfold mqtt_take_signals;
    pose proof (consume_network_events_spec r) as Hs;
    destruct (consume_network_events r) as [r1 [u|e]]; destruct Hs as ((Hw & _) & Ho); try lia.
  - destruct Ho as [He _].
    assert (mi_signals (mr_inbox r1) = mqtt_waiting r) as Hm.
    { rewrite <- Hw. unfold mqtt_waiting. rewrite He. simpl. by rewrite app_nil_r. }
    eexists _, []. split; [simpl; by rewrite Hm|]. split_and!; try done.
    unfold mqtt_waiting. simpl. by rewrite He.
  - destruct (IH r1) as (r' & errs & Ht & Hl & Hf & Hw' & He); [lia|].
    rewrite Ht, Hw. exists r', (Err e :: errs). split_and!; try done.
    + simpl. by rewrite Hl.
    + by constructor.
Qed.

(** A broker that accepted a publication can still be reported as having failed: any
    malformed message waiting in the channel is read by the drain that follows the publication,
    and its error is the result of the call. *)
Theorem accepted_publication_can_fail topic e net r topic' b rest :
  mp_published net = Ok tt → mp_budget net ≠ 0%nat →
  mr_events r = MePublish topic' b :: rest → is_ok (open_mqtt b) = false →
  ∀ r' sent out, mqtt_publish_envelope topic e net r = (r', Some sent, out) → is_ok out = false.
Proof.
  intros Hp Hb He Ho r' sent out. unfold mqtt_publish_envelope.
  destruct (wire_to_vec e) as [w|]; [|done]. cbn [map_err rbind].
  destruct (reject_forbidden_plaintext w); [|done]. cbn [rbind].
  destruct (mqtt_validate_publish_bytes w _); [|done]. cbn [rbind]. rewrite Hp.
  unfold mqtt_drain_network. rewrite He. destruct (mp_budget net); [done|]. cbn [mqtt_drain].
  rewrite record_mqtt_eq. destruct (open_mqtt b); [done|]. by intros [= <- <- <-].
Qed.

(** *** Control broadcasts *)

(** The room after the operations and the broadcasts they handed out. *)
Fixpoint mqtt_control_run (ops : list MqttOp) (r : MqttProviderRoom) :
    MqttProviderRoom * list ControlBroadcast :=
  match ops with
  | [] => (r, [])
  | op :: rest =>
      let '(r', _, out) := mqtt_op op r in
      let '(r'', outs) := mqtt_control_run rest r' in (r'', out ++ outs)
  end.

(** Every broadcast that arrived, read or not. *)
Definition mqtt_known (r : MqttProviderRoom) : list ControlBroadcast :=
  mi_controls (mr_inbox r) ++ mqtt_controls_of (mr_local_peer_id r) (mr_events r).

(** What one operation does to the broadcasts. *)
Definition control_step (r r' : MqttProviderRoom) (out : list ControlBroadcast) : Prop :=
  mr_delivered_controls r' = mr_delivered_controls r ∪ list_to_set (control_id <$> out)
  ∧ NoDup (control_id <$> out)
  ∧ (∀ c, c ∈ out → c ∈ mqtt_known r' ∧ cb_from_peer c ≠ mr_local_peer_id r
                    ∧ control_id c ∉ mr_delivered_controls r)
  ∧ mqtt_known r `prefix_of` mqtt_known r'
  ∧ mi_controls (mr_inbox r) `prefix_of` mi_controls (mr_inbox r').

Lemma control_step_kept r r' : mqtt_kept r r' → control_step r r' [].
Proof.
  intros (_ & Hl & Hd & Hk & Hp). unfold control_step, mqtt_known. rewrite Hl, Hk. split_and!; try done.
  - set_solver.
  - constructor.
  - set_solver.
Qed.

Lemma mqtt_take_controls_step r :
  let '(r', out) := mqtt_take_control_payloads r in
  control_step r r' (ok_list out)
  ∧ (is_ok out = true → ∀ c, c ∈ mqtt_known r → cb_from_peer c ≠ mr_local_peer_id r →
       control_id c ∈ mr_delivered_controls r').
Proof.
  unfold mqtt_take_control_payloads. pose proof (consume_network_events_spec r) as Hs.
  destruct (consume_network_events r) as [r1 [u|e]]; destruct Hs as [Hk Ho].
  - destruct Hk as (_ & Hl & Hd & Hk & Hp), Ho as [He _].
    unfold controls_for.
    pose proof (fresh_controls_spec (mr_delivered_controls r1)
      (filter (λ c, cb_from_peer c ≠ mr_local_peer_id r1) (mi_controls (mr_inbox r1)))) as Hf.
    destruct (fresh_controls _ _) as [d fresh]. destruct Hf as (Hd' & Hn & Hf & Ha).
    rewrite He in Hk. simpl in Hk. rewrite app_nil_r in Hk.
    assert (mi_controls (mr_inbox r1) = mqtt_known r) as Hkn by done.
    rewrite Hl, Hkn, Hd in *. split.
    + unfold control_step, mqtt_known at 1 3. simpl. rewrite He, Hkn, Hl. simpl. rewrite app_nil_r.
      split_and!; try done. intros c Hc. destruct (Hf c Hc) as [Hin Hnd].
      apply list_elem_of_filter in Hin as [? ?]. done.
    + intros _ c Hc Hne. simpl. apply Ha, list_elem_of_filter. done.
  - split; [by apply control_step_kept|done].
Qed.

Lemma mqtt_op_controls op r :
  control_step r (mqtt_op op r).1.1 (mqtt_op op r).2.
Proof.
  destruct op as [p|payload ttl net|to payload net|payload net| | |]; simpl.
  - pose proof (mqtt_eventloop_step_spec p r) as Hs.
    destruct (mqtt_eventloop_step p r) as [r'|]; simpl; [|apply control_step_kept, mqtt_kept_refl].
    destruct Hs as (Hl & Hi & Hd & He & _). unfold control_step, mqtt_known, mqtt_controls_of.
    rewrite Hl, Hi, Hd, He, bind_app, app_assoc.
    split_and!; [set_solver|constructor|set_solver|by apply prefix_app_r|done].
  - unfold mqtt_publish_presence. destruct (presence_guard _ _);
      apply control_step_kept; [apply mqtt_publish_waiting|apply mqtt_kept_refl].
  - unfold mqtt_send_signal. destruct (reject_forbidden_plaintext _);
      apply control_step_kept; [apply mqtt_publish_waiting|apply mqtt_kept_refl].
  - unfold mqtt_broadcast_control. destruct (reject_forbidden_plaintext _);
      apply control_step_kept; [apply mqtt_publish_waiting|apply mqtt_kept_refl].
  - unfold mqtt_subscribe_presence. pose proof (consume_network_events_spec r) as Hs.
    destruct (consume_network_events r) as [r' []]; simpl; destruct Hs as [Hs _];
      apply control_step_kept; [|exact Hs]. destruct Hs as (? & ? & ? & ? & ?). by split_and!.
  - unfold mqtt_take_signals. pose proof (consume_network_events_spec r) as Hs.
    destruct (consume_network_events r) as [r' []]; simpl; destruct Hs as [Hs _].
    + apply control_step_kept in Hs as (? & ? & ? & ? & ?). by split_and!.
    + by apply control_step_kept.
  - pose proof (mqtt_take_controls_step r) as Hs.
    destruct (mqtt_take_control_payloads r) as [r' out]. apply Hs.
Qed.

Lemma mqtt_control_run_spec ops r :
  let '(r', outs) := mqtt_control_run ops r in
  control_step r r' outs ∧ mr_local_peer_id r' = mr_local_peer_id r.
Proof.
  revert r. induction ops as [|op ops IH]; intros r; simpl.
  { split; [apply control_step_kept, mqtt_kept_refl|done]. }
  pose proof (mqtt_op_controls op r) as Ho. pose proof (mqtt_op_local op r) as Hl.
  destruct (mqtt_op op r) as [[r1 sigs] out]. simpl in Ho, Hl. specialize (IH r1).
  destruct (mqtt_control_run ops r1) as [r' outs].
  destruct IH as [(Hd' & Hn' & Hf' & Hk' & Hi') Hl'], Ho as (Hd & Hn & Hf & Hk & Hi).
  split; [|congruence]. split_and!.
  - rewrite Hd', Hd, fmap_app, list_to_set_app_L. set_solver.
  - rewrite fmap_app. apply NoDup_app. split_and!; [done| |done].
    intros x Hx (c & -> & Hc)%list_elem_of_fmap. destruct (Hf' c Hc) as (_ & _ & Hnd).
    apply Hnd. rewrite Hd. apply elem_of_union_r, elem_of_list_to_set. done.
  - intros c [Hc|Hc]%elem_of_app.
    + destruct (Hf c Hc) as (H1' & H2' & H3'). split_and!; try done.
      destruct Hk' as [k ->]. apply elem_of_app. by left.
    + destruct (Hf' c Hc) as (H1' & H2' & H3'). rewrite Hl, Hd in *. split_and!; try done. set_solver.
  - by etrans.
  - by etrans.
Qed.

(** Control broadcasts are handed out once each. Along any sequence of operations on a new
    MQTT room, no two broadcasts handed out have the same sender and bytes, every one of them
    arrived and comes from another peer, and once a take succeeds every broadcast of another peer
    that arrived before has been handed out, by this take or an earlier one. *)
Theorem controls_are_handed_out_once ops r :
  mr_delivered_controls r = ∅ →
  let '(r', outs) := mqtt_control_run ops r in
  NoDup (control_id <$> outs)
  ∧ (∀ c, c ∈ outs → c ∈ mqtt_known r' ∧ cb_from_peer c ≠ mr_local_peer_id r)
  ∧ ∀ l, (mqtt_take_control_payloads r').2 = Ok l →
      ∀ c, c ∈ mqtt_known r' → cb_from_peer c ≠ mr_local_peer_id r →
        control_id c ∈ control_id <$> (outs ++ l).
Proof.
  intros Hr. pose proof (mqtt_control_run_spec ops r) as Hs.
  destruct (mqtt_control_run ops r) as [r' outs]. destruct Hs as [(Hd & Hn & Hf & _) Hl].
  rewrite Hr in *. split_and!; [done|by intros c (? & ? & _)%Hf|].
  intros l Hok c Hc Hne. pose proof (mqtt_take_controls_step r') as Ht.
  destruct (mqtt_take_control_payloads r') as [r'' out]. simpl in Hok. subst out.
  destruct Ht as [(Hd' & _) Ha]. rewrite <- Hl in Hne. specialize (Ha eq_refl c Hc Hne).
  rewrite Hd', Hd in Ha. simpl in Ha. rewrite fmap_app, elem_of_app.
  apply elem_of_union in Ha as [Ha|Ha]; [|right; by apply elem_of_list_to_set in Ha].
  apply elem_of_union in Ha as [Ha|Ha]; [set_solver|left; by apply elem_of_list_to_set in Ha].
Qed.

(** An MQTT room never forgets a control broadcast: whatever is done with it, the broadcasts
    in its inbox are kept, delivered or not, so the inbox only grows. *)
Theorem control_inbox_never_shrinks ops r :
  mi_controls (mr_inbox r) `prefix_of` mi_controls (mr_inbox (mqtt_control_run ops r).1).
Proof.
  pose proof (mqtt_control_run_spec ops r) as Hs. destruct (mqtt_control_run ops r) as [r' outs].
  apply Hs.
Qed.
End room_properties.

Section arrival.
Context `{Sha256, WireJsonLaws, Base64NoPadLaws}.

Lemma mqtt_signal_arrives to payload net rA rA' topic b out rB rB' rendezvous :
  mqtt_send_signal to payload net rA = (rA', Some (topic, b), out) →
  rc_topic rendezvous = mr_rendezvous_topic rA →
  mr_local_peer_id rB = to →
  mqtt_eventloop_step (PollPublish topic b) rB = Some rB' →
  topic = mt_signal_for_local_peer (mqtt_topics rendezvous to)
  ∧ mqtt_waiting rB' = mqtt_waiting rB ++
      [{| sg_from_peer := mr_local_peer_id rA; sg_to_peer := to; sg_payload := payload |}].
Proof.
  intros Hsend Hrv HB Hstep. unfold mqtt_send_signal in Hsend.
  destruct (reject_forbidden_plaintext (np_ciphertext payload)); [|done].
  match type of Hsend with mqtt_publish_envelope ?t ?e ?n ?r = _ =>
    pose proof (mqtt_publish_envelope_spec t e n r) as Hp end.
  rewrite Hsend in Hp. destruct Hp as [(_ & ? & _)|(b' & _ & Hs & He & Hf & _)]; [done|].
  injection Hs as -> ->. apply wire_round_trip in He.
  pose proof (mqtt_eventloop_step_spec
    (PollPublish (mqtt_signal_topic (mr_rendezvous_topic rA) to) b') rB) as Hst.
  rewrite Hstep in Hst. destruct Hst as (Hl & Hi & _ & Hev & _). split.
  { unfold mqtt_topics, mqtt_signal_topic. cbn [mt_signal_for_local_peer].
    by rewrite Hrv, string_append_assoc. }
  unfold mqtt_waiting, mqtt_signals_of. rewrite Hl, Hi, Hev, bind_app, app_assoc. f_equal. simpl.
  unfold open_mqtt. rewrite Hf, He, HB. simpl. by rewrite bool_decide_true by done.
Qed.

Lemma nostr_signal_arrives to payload tag send net rA rA' e out rB :
  nostr_send_signal to payload tag send net rA = (rA', Some e, out) →
  (∀ b, wire_to_vec (WeSignal NOSTR_EVENT_SCHEMA (nr_local_peer_id rA) to payload) = Ok b →
        Forall (λ x, x < 256) b) →
  reject_forbidden_plaintext (as_bytes (ne_content e)) = Ok tt →
  nr_local_peer_id rB = to → nr_topic rB = nr_topic rA →
  nostr_waiting (nostr_op (NoReceive (NrEvent e)) rB).1 = nostr_waiting rB ++
      [{| sg_from_peer := nr_local_peer_id rA; sg_to_peer := to; sg_payload := payload |}].
Proof.
  intros Hsend Hu8 Hpt HB Ht. unfold nostr_send_signal in Hsend.
  destruct (reject_forbidden_plaintext (np_ciphertext payload)); [|done].
  match type of Hsend with nostr_publish_envelope ?v ?t ?s ?n ?r = _ =>
    pose proof (nostr_publish_envelope_spec v t s n r) as Hp end.
  rewrite Hsend in Hp. destruct Hp as [(_ & ? & _)|(b' & _ & Hs & He & Hf & _)]; [done|].
  injection Hs as ->. pose proof (wire_round_trip _ _ He) as Hdec. apply Hu8 in He.
  assert (open_event (nr_topic rA) (nostr_event (nr_topic rA) b')
          = Some (Ok (WeSignal NOSTR_EVENT_SCHEMA (nr_local_peer_id rA) to payload))) as Ho.
  { unfold open_event, event_has_topic, nostr_event in *. cbn [ne_kind ne_tags ne_content] in *.
    simpl. rewrite (bool_decide_true (Some (nr_topic rA) = Some (nr_topic rA))) by done. simpl.
    rewrite Hpt, nopad_round_trip by done. simpl. by rewrite Hf, Hdec. }
  unfold nostr_waiting, nostr_signals_of. cbn [nostr_op fst nr_inbox nr_topic nr_local_peer_id
    nr_notifications set_nostr]. rewrite bind_app, app_assoc. f_equal. simpl.
  unfold nostr_filed. cbn [carried_event mbind option_bind]. rewrite Ht, Ho, HB. simpl.
  by rewrite bool_decide_true by done.
Qed.

Lemma ipfs_signal_arrives to payload reply rA b out rB :
  ipfs_send_signal to payload reply rA = (Some b, out) →
  ir_local_peer_id rB = to → ipfs_message_fingerprint b ∉ ii_seen_messages (ir_inbox rB) →
  mi_signals (ii_inbox (ir_inbox (ipfs_swarm_event (SeMessage b) rB)))
  = mi_signals (ii_inbox (ir_inbox rB)) ++
      [{| sg_from_peer := ir_local_peer_id rA; sg_to_peer := to; sg_payload := payload |}].
Proof.
  intros Hsend HB Hnew. unfold ipfs_send_signal, ipfs_publish in Hsend.
  destruct (reject_forbidden_plaintext (np_ciphertext payload)); [|done]. cbn [rbind] in Hsend.
  unfold ipfs_encode_envelope in Hsend.
  destruct (wire_to_vec _) as [w|] eqn:He; [|done]. cbn [map_err rbind] in Hsend.
  destruct (reject_if _ _); [|done]. cbn [rbind] in Hsend.
  destruct (reject_forbidden_plaintext w) as [[]|] eqn:Hf; [|done].
  injection Hsend as <- _. apply wire_round_trip in He. simpl.
  rewrite ipfs_record_message_signals. f_equal. unfold ipfs_message_signals, open_ipfs_message.
  rewrite Hf, He. simpl. rewrite bool_decide_false, HB by done. by rewrite bool_decide_true.
Qed.

(** A signal that a room publishes reaches its addressee unchanged, on each of the three
    carriers: when the message one peer's room handed to the network arrives at the room of the
    peer it is addressed to (for IPFS, for the first time; for Nostr, when no marker shows in its
    base64 text), that room gains exactly this signal, with sender, addressee and payload. *)
Theorem sent_signal_reaches_its_addressee to payload :
  (∀ net rA rA' topic b out rB rB' rendezvous,
     mqtt_send_signal to payload net rA = (rA', Some (topic, b), out) →
     rc_topic rendezvous = mr_rendezvous_topic rA →
     mr_local_peer_id rB = to →
     mqtt_eventloop_step (PollPublish topic b) rB = Some rB' →
     topic = mt_signal_for_local_peer (mqtt_topics rendezvous to)
     ∧ mqtt_waiting rB' = mqtt_waiting rB ++
         [{| sg_from_peer := mr_local_peer_id rA; sg_to_peer := to; sg_payload := payload |}])
  ∧ (∀ tag send net rA rA' e out rB,
     nostr_send_signal to payload tag send net rA = (rA', Some e, out) →
     (∀ b, wire_to_vec (WeSignal NOSTR_EVENT_SCHEMA (nr_local_peer_id rA) to payload) = Ok b →
           Forall (λ x, x < 256) b) →
     reject_forbidden_plaintext (as_bytes (ne_content e)) = Ok tt →
     nr_local_peer_id rB = to → nr_topic rB = nr_topic rA →
     nostr_waiting (nostr_op (NoReceive (NrEvent e)) rB).1 = nostr_waiting rB ++
         [{| sg_from_peer := nr_local_peer_id rA; sg_to_peer := to; sg_payload := payload |}])
  ∧ (∀ reply rA b out rB,
     ipfs_send_signal to payload reply rA = (Some b, out) →
     ir_local_peer_id rB = to → ipfs_message_fingerprint b ∉ ii_seen_messages (ir_inbox rB) →
     mi_signals (ii_inbox (ir_inbox (ipfs_swarm_event (SeMessage b) rB)))
     = mi_signals (ii_inbox (ir_inbox rB)) ++
         [{| sg_from_peer := ir_local_peer_id rA; sg_to_peer := to; sg_payload := payload |}]).
Proof.
  split_and!; intros; [by eapply mqtt_signal_arrives|by eapply nostr_signal_arrives|].
  by eapply ipfs_signal_arrives.
Qed.
End arrival.

Section ipfs_properties.
Context `{Sha256, WireJson}.

(** A message that arrives again is filed once and reported once: after a new, well-formed
    message arrived [n + 1] times the inbox holds it a single time, and the room has gained one
    provider fault exactly when there were at least 32 repetitions. A peer that keeps announcing
    the same sealed presence is therefore turned into a provider failure, which the next take
    reports instead of its result. *)
Theorem repeated_message_becomes_one_fault local b env i n :
  open_ipfs_message b = Ok env →
  ipfs_message_fingerprint b ∉ ii_seen_messages i →
  ii_duplicate_counts i !! ipfs_message_fingerprint b = None →
  let i' := ipfs_arrive local b (S n) i in
  ii_inbox i' = file_envelope local env (ii_inbox i)
  ∧ ii_health_faults i' = ii_health_faults i ++
      (if IPFS_PUBSUB_DUPLICATE_STORM_THRESHOLD <=? N.of_nat n then
         [transport_error_text (ipfs_duplicate_storm_error (ipfs_message_fingerprint b)
                                  IPFS_PUBSUB_DUPLICATE_STORM_THRESHOLD)] else [])
  ∧ (IPFS_PUBSUB_DUPLICATE_STORM_THRESHOLD ≤ N.of_nat n → is_ok (take_health_fault i').2 = false).
Proof.
  intros Ho Hn Hc i'.
  assert (ipfs_arrive local b (S n) i
          = ipfs_arrive local b n (ipfs_record_message local b i).1) as Hi.
  { unfold ipfs_arrive. apply (Nat.iter_succ_r n (λ j, (ipfs_record_message local b j).1) i). }
  assert (∃ i1, (ipfs_record_message local b i).1 = i1
    ∧ ii_inbox i1 = file_envelope local env (ii_inbox i)
    ∧ ipfs_message_fingerprint b ∈ ii_seen_messages i1 ∧ count_of b i1 = 0
    ∧ ii_health_faults i1 = ii_health_faults i) as (i1 & E & H1 & H2 & H3 & H4).
  { eexists. split; [done|]. unfold ipfs_record_message, count_of.
    rewrite Ho, bool_decide_false by done. simpl. rewrite Hc. split_and!; try done. set_solver. }
  unfold i'. rewrite Hi, E. destruct (ipfs_arrive_repeats local b env n i1 Ho H2) as (R1 & _ & _ & R4).
  assert (0 <? IPFS_PUBSUB_DUPLICATE_STORM_THRESHOLD = true) as H0' by done.
  rewrite H3, N.add_0_l, H0' in R4. cbn [andb] in R4. rewrite R1, H1, R4, H4. split_and!; [done|done|].
  intros Hle. unfold take_health_fault. rewrite R4.
  rewrite (proj2 (N.leb_le _ _) Hle), last_snoc. done.
Qed.
End ipfs_properties.

(** *** Addresses *)

Section address_properties.
Context `{Multiaddrs}.

(** What the policy asks of one address. *)
Definition addr_allowed (a : multiaddr) : Prop :=
  ipfs_contains_dns_component a = false
  ∧ (ipfs_should_dial a = true →
     ipfs_has_direct_ip_component a = true ∧ is_Some (ipfs_peer_id_from_multiaddr a)).

Lemma ipfs_check_addrs_spec seen addrs :
  is_ok (ipfs_check_addrs seen addrs) = true ↔
  NoDup (ma_to_string <$> addrs) ∧ (∀ a, a ∈ addrs → ma_to_string a ∉ seen)
  ∧ Forall addr_allowed addrs.
Proof.
  revert seen. induction addrs as [|a addrs IH]; intros seen; simpl.
  { split; [|done]. intros _. split_and!; [constructor|set_solver|constructor]. }
  rewrite NoDup_cons, Forall_cons.
  case_bool_decide as Hs; simpl; [split; [done|]; intros (_ & Hn & _); set_solver|].
  destruct (ipfs_contains_dns_component a) eqn:Hd; simpl.
  { split; [done|]. intros (_ & _ & [Hd' _] & _). congruence. }
  assert (is_ok (if ipfs_should_dial a then
      check reject_policy (negb (ipfs_has_direct_ip_component a))
        ("ipfs_pubsub dialable bootstrap endpoint must use explicit /ip4 or /ip6 addressing: "
         +:+ ma_to_string a) in
      reject_policy (bool_decide (ipfs_peer_id_from_multiaddr a = None))
        ("ipfs_pubsub dialable bootstrap endpoint must include /p2p/<peer-id> for a reachable Discrypt topic peer: "
         +:+ ma_to_string a) else Ok tt) = true ↔ addr_allowed a) as Ha.
  { unfold addr_allowed. rewrite Hd. destruct (ipfs_should_dial a); [|naive_solver].
    destruct (ipfs_has_direct_ip_component a); simpl; [|naive_solver].
    case_bool_decide as Hp; simpl; [|by rewrite <- not_eq_None_Some; naive_solver].
    rewrite Hp. split; [done|]. intros [_ Hx]. destruct (Hx eq_refl) as [_ [? ?]]. done. }
  destruct (if ipfs_should_dial a then _ else _) as [[]|e]; simpl.
  - rewrite IH. split.
    + intros (Hn & Hin & Hf). split_and!; try done.
      * intros (x & Hx & Hxin)%list_elem_of_fmap. apply (Hin x Hxin). rewrite <- Hx. set_solver.
      * intros x [->|Hx]%elem_of_cons; [done|]. specialize (Hin x Hx). set_solver.
      * by apply Ha.
    + intros ([Hni Hn] & Hin & _ & Hf). split_and!; try done. intros x Hx.
      rewrite elem_of_union, elem_of_singleton. intros [Heq|Hx']; [|set_solver].
      apply Hni, list_elem_of_fmap. eauto.
  - split; [done|]. intros (_ & _ & Hall & _). apply Ha in Hall. done.
Qed.

(** The bootstrap policy is exactly: at most 16 addresses, no two with the same text, none
    with a DNS component, and every address with a dialable port names an IP address and a peer. *)
Theorem bootstrap_policy_is_exact addrs :
  is_ok (ipfs_validate_bootstrap_policy addrs) = true ↔
  (length addrs <= IPFS_PUBSUB_MAX_BOOTSTRAP_ENDPOINTS)%nat
  ∧ NoDup (ma_to_string <$> addrs) ∧ Forall addr_allowed addrs.
Proof.
  unfold ipfs_validate_bootstrap_policy.
  destruct (Nat.ltb_spec IPFS_PUBSUB_MAX_BOOTSTRAP_ENDPOINTS (length addrs)) as [Hl|Hl]; simpl.
  { split; [done|]. intros [? _]. lia. }
  rewrite ipfs_check_addrs_spec. split; [by intros (? & _ & ?)|]. intros (_ & Hn & Hf). by split_and!.
Qed.
End address_properties.

(** *** The plaintext guard *)

(** A byte that no sequence contains makes the whole text invalid. *)
Lemma valid_utf8_invalid n b : (length b <= n)%nat → valid_utf8 (b ++ [255]) = false.
Proof.
  revert b. induction n as [|n IH]; intros [|b0 r0] Hn; simpl in *; try lia; try done.
  destruct (b0 <? 128); [apply IH; lia|].
  destruct r0 as [|b1 r1]; simpl; [by destruct (_ && _)|].
  simpl in Hn. destruct (_ && _); [rewrite IH by lia; apply andb_false_r|].
  destruct r1 as [|b2 r2]; simpl; [by destruct (_ || _)|].
  simpl in Hn. destruct (_ || _ && _ || _); [rewrite IH by lia; apply andb_false_r|].
  destruct r2 as [|b3 r3]; simpl; [by rewrite ?andb_false_r|].
  simpl in Hn. rewrite IH by lia. apply andb_false_r.
Qed.

(** The plaintext guard looks at well-formed UTF-8 only: any text, followed by one byte that
    is not part of it, passes. *)
Theorem guard_passes_one_invalid_byte b : reject_forbidden_plaintext (b ++ [255]) = Ok tt.
Proof. unfold reject_forbidden_plaintext. by rewrite (valid_utf8_invalid (length b)). Qed.

(** ** Witnesses *)

Section witnesses.
#[local] Existing Instance Toy.toy_sha.

Definition toy_sealed (c : bytes) : SealedWebRtcNegotiationPayload := {|
  np_version := 1; np_negotiation_id := None; np_expires_at := None; np_kind := PkOffer;
  np_nonce := []; np_ciphertext := c |}.

(** A tag byte and the payload, for envelopes from one peer. *)
#[local] Instance toy_wire_json : WireJson := {|
  wire_to_vec e :=
    match e with
    | WeSignal 1 "alice" "bob" {| np_version := 1; np_negotiation_id := None; np_expires_at := None;
                                  np_kind := PkOffer; np_nonce := []; np_ciphertext := c |} => Ok (1 :: c)
    | WeControl 1 "alice" c => Ok (2 :: c)
    | WePresence 1 "alice" c 60 => Ok (3 :: c)
    | _ => Err "envelope"%string
    end;
  wire_from_slice b :=
    match b with
    | 1 :: c => Ok (WeSignal 1 "alice" "bob" (toy_sealed c))
    | 2 :: c => Ok (WeControl 1 "alice" c)
    | 3 :: c => Ok (WePresence 1 "alice" c 60)
    | _ => Err "envelope"%string
    end
|}.

#[local] Instance toy_wire_json_laws : WireJsonLaws.
Proof.
  intros e b. simpl.
  destruct e as [s f p t|s f t [v i x k n c]|s f p]; repeat (case_match; try done); by intros [= <-].
Qed.

#[local] Instance toy_nopad : Base64NoPad := {|
  nopad_encode := @hex_encode Toy.toy_hex;
  nopad_decode := @hex_decode Toy.toy_hex
|}.

#[local] Instance toy_nopad_laws : Base64NoPadLaws.
Proof. intros b Hb. by apply (@hex_decode_encode Toy.toy_hex Toy.toy_hex_laws). Qed.

Definition toy_mqtt_room (local : string) (events : list MqttProviderEvent) : MqttProviderRoom := {|
  mr_local_peer_id := local; mr_rendezvous_topic := "t";
  mr_topics := {| mt_presence := "p"; mt_control := "c"; mt_signal_for_local_peer := "s" |};
  mr_events := events; mr_inbox := inbox_default; mr_delivered_controls := ∅;
  mr_consecutive_errors := 0; mr_max_message_bytes := 100 |}.

Definition toy_publish_net : MqttPublishNetwork :=
  {| mp_published := Ok tt; mp_closed := false; mp_budget := 5 |}.

Lemma accepted_publication_can_fail_witness :
  let '(_, sent, out) := mqtt_publish_envelope "c" (WeControl 1 "alice" [7]) toy_publish_net
    (toy_mqtt_room "alice" [MePublish "c" [9]]) in
  sent = Some ("c"%string, [2; 7]) ∧ is_ok out = false.
Proof.
  destruct (mqtt_publish_envelope "c" (WeControl 1 "alice" [7]) toy_publish_net
    (toy_mqtt_room "alice" [MePublish "c" [9]])) as [[r' sent] out] eqn:Heq.
  assert (sent = Some ("c"%string, [2; 7])) as ->.
  { change sent with (r', sent, out).1.2. rewrite <- Heq. vm_compute. reflexivity. }
  split; [reflexivity|].
  eapply (accepted_publication_can_fail "c" (WeControl 1 "alice" [7]) toy_publish_net
    (toy_mqtt_room "alice" [MePublish "c" [9]]) "c" [9] []);
    [reflexivity|discriminate|reflexivity|vm_compute; reflexivity|exact Heq].
Defined.

Lemma controls_are_handed_out_once_witness :
  NoDup (control_id <$> (mqtt_control_run
    [MqTakeControls; MqPoll (PollPublish "c" [2; 7]); MqTakeControls]
    (toy_mqtt_room "bob" [MePublish "c" [2; 7]])).2).
Proof.
  pose proof (controls_are_handed_out_once
    [MqTakeControls; MqPoll (PollPublish "c" [2; 7]); MqTakeControls]
    (toy_mqtt_room "bob" [MePublish "c" [2; 7]]) eq_refl) as Hc.
  destruct (mqtt_control_run _ _) as [r' outs]. apply Hc.
Defined.

Definition toy_ipfs_room (local : string) : IpfsPubsubProviderRoom :=
  {| ir_local_peer_id := local; ir_inbox := ipfs_inbox_default; ir_listen_addresses := [] |}.

Lemma sent_signal_reaches_its_addressee_witness :
  mi_signals (ii_inbox (ir_inbox (ipfs_swarm_event (SeMessage [1; 7]) (toy_ipfs_room "bob"))))
  = [{| sg_from_peer := "alice"; sg_to_peer := "bob"; sg_payload := toy_sealed [7] |}].
Proof.
  destruct (sent_signal_reaches_its_addressee "bob" (toy_sealed [7])) as (_ & _ & Hi).
  rewrite (Hi (Reply (Ok tt)) (toy_ipfs_room "alice") [1; 7] (Ok tt) (toy_ipfs_room "bob"));
    [reflexivity|vm_compute; reflexivity|reflexivity|set_solver].
Defined.

Lemma repeated_message_becomes_one_fault_witness :
  is_ok (take_health_fault (ipfs_arrive "bob" [3; 7] 33 ipfs_inbox_default)).2 = false.
Proof.
  destruct (repeated_message_becomes_one_fault "bob" [3; 7] (WePresence 1 "alice" [7] 60)
    ipfs_inbox_default 32) as (_ & _ & Hf);
    [vm_compute; reflexivity|set_solver|reflexivity|].
  apply Hf. reflexivity.
Defined.
End witnesses.
