(* ===== verification/PeerOverlay.v ===== *)
(** * Peer overlay: admission, relay authority and frames

    [crates/transport/src/peer_overlay.rs], first part: the refs of admitted peers, the
    relay authority of an epoch, the state after a revocation, the ranking of relay
    candidates and the validation of overlay frames. Route selection, forwarding and
    failover are in [OverlayRouting]. *)

From S2P Require Import Prelude Collections Bytes StrOps Crypto Transport IcePolicy ConnPolicy RouteGraph.

(** ** Field validators *)

Definition overlay_bad_label (value : string) : bool :=
  is_blank value || negb (bool_decide (trim value = value)) || (128 <? str_len value).

Definition validate_label (value label : string) : result unit TransportError :=
  reject_policy (overlay_bad_label value)
    (label +:+ " must be non-empty trimmed text up to 128 bytes").

Definition validate_nonzero_32 (value : bytes) (label : string) : result unit TransportError :=
  reject_policy (bool_decide (value = replicate 32 0)) (label +:+ " must not be all zero").

Definition PEER_OVERLAY_FRAME_SCHEMA_VERSION : N := 1.
Definition PEER_OVERLAY_MAX_RELAY_HOPS : N := 3.

Definition loop_id_validate (id : bytes) : result unit TransportError :=
  reject_policy (bool_decide (id = replicate 16 0)) "peer overlay loop id must not be all zero".

Definition ack_id_validate (id : bytes) : result unit TransportError :=
  reject_policy (bool_decide (id = replicate 16 0)) "peer overlay ack id must not be all zero".

(** ** Peer refs and the admitted set *)

Record PeerOverlayPeerRef := {
  ovp_peer_id : SignalingPeerId;
  ovp_member_id : string;
  ovp_device_id : string;
  ovp_epoch : N
}.

#[export] Instance PeerOverlayPeerRef_eq_dec : EqDecision PeerOverlayPeerRef.
Proof. solve_decision. Defined.

Definition validate_shape (p : PeerOverlayPeerRef) : result unit TransportError :=
  check validate_label (ovp_member_id p) "peer overlay member id" in
  check validate_label (ovp_device_id p) "peer overlay device id" in
  Ok tt.

Record PeerOverlayAdmittedSet := {
  ovs_current_epoch : N;
  ovs_admitted : gmap string PeerOverlayPeerRef;
  ovs_revoked : gset string
}.

(** Both constructors fill a map by peer id: each ref passes [pre], and an id may occur
    once. *)
Fixpoint unique_by_id (pre : PeerOverlayPeerRef → result unit TransportError) (dup : string)
    (l : list PeerOverlayPeerRef) (m : gmap string PeerOverlayPeerRef) :
    result (gmap string PeerOverlayPeerRef) TransportError :=
  match l with
  | [] => Ok m
  | p :: rest =>
      check pre p in
      check reject_policy (bool_decide (is_Some (m !! ovp_peer_id p))) dup in
      unique_by_id pre dup rest (<[ovp_peer_id p := p]> m)
  end.

Definition admit_check (current_epoch : N) (revoked : gset string) (p : PeerOverlayPeerRef) :
    result unit TransportError :=
  check validate_shape p in
  check reject_policy (negb (ovp_epoch p =? current_epoch))
    "peer overlay admitted peer epoch must match current epoch" in
  reject_policy (bool_decide (ovp_peer_id p ∈ revoked))
    "peer overlay admitted set must not include revoked peers".

Definition admitted_set_new (current_epoch : N) (admitted : list PeerOverlayPeerRef)
    (revoked : gset string) : result PeerOverlayAdmittedSet TransportError :=
  let* m := unique_by_id (admit_check current_epoch revoked)
              "peer overlay admitted peers must be unique" admitted ∅ in
  check reject_policy (bool_decide (size m < 2)%nat)
    "peer overlay requires at least two admitted peers" in
  Ok {| ovs_current_epoch := current_epoch; ovs_admitted := m; ovs_revoked := revoked |}.

Definition validate_ref (s : PeerOverlayAdmittedSet) (p : PeerOverlayPeerRef) :
    result unit TransportError :=
  check validate_shape p in
  check reject_policy (negb (ovp_epoch p =? ovs_current_epoch s))
    "peer overlay frame ref uses a stale or future epoch" in
  check reject_policy (bool_decide (ovp_peer_id p ∈ ovs_revoked s))
    "peer overlay frame ref names a revoked peer" in
  match ovs_admitted s !! ovp_peer_id p with
  | Some a =>
      reject_policy (negb (bool_decide (a = p)))
        "peer overlay frame ref does not match admitted member/device binding"
  | None => policy_error "peer overlay frame ref is not admitted in the current epoch"
  end.

(** ** Frame auth and relay authority *)

Record PeerOverlayAuth := {
  ovu_group_id_commitment : bytes;
  ovu_epoch : N;
  ovu_sender_leaf_index : N;
  ovu_confirmation_tag_commitment : bytes;
  ovu_frame_auth_tag : bytes
}.

Definition auth_validate (s : PeerOverlayAdmittedSet) (a : PeerOverlayAuth) :
    result unit TransportError :=
  check reject_policy (negb (ovu_epoch a =? ovs_current_epoch s))
    "peer overlay auth epoch must match current admitted epoch" in
  check validate_nonzero_32 (ovu_group_id_commitment a) "peer overlay group id commitment" in
  check validate_nonzero_32 (ovu_confirmation_tag_commitment a)
    "peer overlay confirmation commitment" in
  reject_policy (len (ovu_frame_auth_tag a) <? 16)
    "peer overlay frame auth tag must be at least 16 bytes".

Inductive PeerOverlayRelayAuthoritySource :=
| OpenMlsCurrentEpoch
| SignedGovernanceGrant (signer_member_id signer_device_id : string).

Definition authority_source_validate (s : PeerOverlayRelayAuthoritySource) :
    result unit TransportError :=
  match s with
  | OpenMlsCurrentEpoch => Ok tt
  | SignedGovernanceGrant member device =>
      check validate_label member "peer overlay relay authority signer member id" in
      validate_label device "peer overlay relay authority signer device id"
  end.

Record PeerOverlayRelayAuthorization := {
  ovz_source : PeerOverlayRelayAuthoritySource;
  ovz_group_id_commitment : bytes;
  ovz_epoch : N;
  ovz_confirmation_tag_commitment : bytes;
  ovz_relay : PeerOverlayPeerRef
}.

Definition authorization_validate_for (z : PeerOverlayRelayAuthorization)
    (relay : PeerOverlayPeerRef) (a : PeerOverlayAuth) : result unit TransportError :=
  check authority_source_validate (ovz_source z) in
  check validate_nonzero_32 (ovz_group_id_commitment z)
    "peer overlay relay authority group id commitment" in
  check validate_nonzero_32 (ovz_confirmation_tag_commitment z)
    "peer overlay relay authority confirmation commitment" in
  check reject_policy (negb (ovz_epoch z =? ovu_epoch a))
    "peer overlay relay authority epoch must match frame auth epoch" in
  check reject_policy
    (negb (bool_decide (ovz_group_id_commitment z = ovu_group_id_commitment a)))
    "peer overlay relay authority group commitment must match frame auth" in
  check reject_policy
    (negb (bool_decide (ovz_confirmation_tag_commitment z = ovu_confirmation_tag_commitment a)))
    "peer overlay relay authority confirmation commitment must match frame auth" in
  reject_policy (negb (bool_decide (ovz_relay z = relay)))
    "peer overlay relay authority does not match route relay ref".

Record PeerOverlayRelayAuthoritySet := {
  ova_source : PeerOverlayRelayAuthoritySource;
  ova_current_epoch : N;
  ova_group_id_commitment : bytes;
  ova_confirmation_tag_commitment : bytes;
  ova_authorized_relays : gmap string PeerOverlayPeerRef
}.

Definition authority_set_new (source : PeerOverlayRelayAuthoritySource)
    (s : PeerOverlayAdmittedSet) (group confirmation : bytes) (relays : list PeerOverlayPeerRef) :
    result PeerOverlayRelayAuthoritySet TransportError :=
  check authority_source_validate source in
  check validate_nonzero_32 group "peer overlay relay authority group id commitment" in
  check validate_nonzero_32 confirmation "peer overlay relay authority confirmation commitment" in
  let* m := unique_by_id (validate_ref s) "peer overlay relay authority peers must be unique"
              relays ∅ in
  check reject_policy (bool_decide (m = ∅))
    "peer overlay relay authority requires at least one relay peer" in
  Ok {| ova_source := source; ova_current_epoch := ovs_current_epoch s;
        ova_group_id_commitment := group; ova_confirmation_tag_commitment := confirmation;
        ova_authorized_relays := m |}.

Definition from_openmls_current_epoch (s : PeerOverlayAdmittedSet) (group confirmation : bytes)
    (relays : list PeerOverlayPeerRef) : result PeerOverlayRelayAuthoritySet TransportError :=
  authority_set_new OpenMlsCurrentEpoch s group confirmation relays.

Definition from_signed_governance_grant (member device : string) (s : PeerOverlayAdmittedSet)
    (group confirmation : bytes) (relays : list PeerOverlayPeerRef) :
    result PeerOverlayRelayAuthoritySet TransportError :=
  authority_set_new (SignedGovernanceGrant member device) s group confirmation relays.

Definition authorize_relay (t : PeerOverlayRelayAuthoritySet) (relay : PeerOverlayPeerRef)
    (a : PeerOverlayAuth) : result PeerOverlayRelayAuthorization TransportError :=
  check reject_policy (negb (ova_current_epoch t =? ovu_epoch a))
    "peer overlay relay authority set epoch must match frame auth epoch" in
  check reject_policy
    (negb (bool_decide (ova_group_id_commitment t = ovu_group_id_commitment a)))
    "peer overlay relay authority set group commitment must match frame auth" in
  check reject_policy
    (negb (bool_decide (ova_confirmation_tag_commitment t = ovu_confirmation_tag_commitment a)))
    "peer overlay relay authority set confirmation commitment must match frame auth" in
  let* authorized := ok_or (ova_authorized_relays t !! ovp_peer_id relay)
    (InvalidConnectivityPolicy
       "peer overlay relay ref lacks explicit current-epoch relay authority") in
  check reject_policy (negb (bool_decide (authorized = relay)))
    "peer overlay relay authority does not match admitted member/device binding" in
  Ok {| ovz_source := ova_source t; ovz_group_id_commitment := ova_group_id_commitment t;
        ovz_epoch := ova_current_epoch t;
        ovz_confirmation_tag_commitment := ova_confirmation_tag_commitment t;
        ovz_relay := authorized |}.

(** ** Routes *)

Record PeerOverlayTtl := {
  ovt_remaining_hops : N;
  ovt_created_at_ms : N;
  ovt_expires_at_ms : N
}.

Definition ttl_validate (t : PeerOverlayTtl) : result unit TransportError :=
  check reject_policy
    ((ovt_remaining_hops t =? 0) || (PEER_OVERLAY_MAX_RELAY_HOPS <? ovt_remaining_hops t))
    "peer overlay remaining hops must be within the relay hop cap" in
  reject_policy (ovt_expires_at_ms t <=? ovt_created_at_ms t)
    "peer overlay expiry must be after creation time".

Record PeerOverlayRoute := {
  ovr_source : PeerOverlayPeerRef;
  ovr_relay_path : list PeerOverlayPeerRef;
  ovr_destination : PeerOverlayPeerRef;
  ovr_ttl : PeerOverlayTtl;
  ovr_loop_id : bytes
}.

(** The loop over the relay path, [seen] being [seen_relays]. *)
Fixpoint relays_validate (s : PeerOverlayAdmittedSet) (source destination : PeerOverlayPeerRef)
    (seen : gset string) (path : list PeerOverlayPeerRef) : result unit TransportError :=
  match path with
  | [] => Ok tt
  | r :: rest =>
      check validate_ref s r in
      check reject_policy (bool_decide (ovp_peer_id r = ovp_peer_id source)
                           || bool_decide (ovp_peer_id r = ovp_peer_id destination))
        "peer overlay relay cannot be source or destination" in
      check reject_policy (bool_decide (ovp_peer_id r ∈ seen))
        "peer overlay relay path must not repeat a peer" in
      relays_validate s source destination ({[ovp_peer_id r]} ∪ seen) rest
  end.

Definition route_validate (s : PeerOverlayAdmittedSet) (r : PeerOverlayRoute) :
    result unit TransportError :=
  check validate_ref s (ovr_source r) in
  check validate_ref s (ovr_destination r) in
  check reject_policy (bool_decide (ovp_peer_id (ovr_source r) = ovp_peer_id (ovr_destination r)))
    "peer overlay source and destination must differ" in
  check ttl_validate (ovr_ttl r) in
  check loop_id_validate (ovr_loop_id r) in
  check reject_policy (bool_decide (ovr_relay_path r = []))
    "peer overlay route requires at least one relay peer" in
  check reject_policy (PEER_OVERLAY_MAX_RELAY_HOPS <? N.of_nat (length (ovr_relay_path r)))
    "peer overlay relay path exceeds hop cap" in
  relays_validate s (ovr_source r) (ovr_destination r) ∅ (ovr_relay_path r).

(** [iter().map(..).collect::<Result<Vec<_>, _>>()] *)
Fixpoint try_map {A B E} (f : A → result B E) (l : list A) : result (list B) E :=
  match l with
  | [] => Ok []
  | x :: rest => let* y := f x in let* ys := try_map f rest in Ok (y :: ys)
  end.

Definition validate_route_authority (t : PeerOverlayRelayAuthoritySet) (r : PeerOverlayRoute)
    (a : PeerOverlayAuth) : result (list PeerOverlayRelayAuthorization) TransportError :=
  try_map (λ relay,
    let* z := authorize_relay t relay a in
    check authorization_validate_for z relay a in Ok z) (ovr_relay_path r).

(** ** Payloads, delivery contracts, carriers *)

Inductive PeerOverlayPayloadKind := PoTextControl | PoMedia | PoStoreForward.

#[export] Instance PeerOverlayPayloadKind_eq_dec : EqDecision PeerOverlayPayloadKind.
Proof. solve_decision. Defined.

Record PeerOverlayOpaquePayload := {
  ovo_kind : PeerOverlayPayloadKind;
  ovo_key_id : bytes;
  ovo_sequence : N;
  ovo_aad_commitment : bytes;
  ovo_opaque_ciphertext : bytes
}.

Definition overlay_payload_validate (p : PeerOverlayOpaquePayload) : result unit TransportError :=
  check reject_policy (bool_decide (ovo_key_id p = [])) "peer overlay key id must not be empty" in
  check reject_policy (bool_decide (ovo_aad_commitment p = replicate 32 0))
    "peer overlay AAD commitment must not be all zero" in
  reject_policy (bool_decide (ovo_opaque_ciphertext p = []))
    "peer overlay ciphertext must not be empty".

Definition payload_kind_label (k : PeerOverlayPayloadKind) : string :=
  match k with
  | PoTextControl => "text_control"
  | PoMedia => "media"
  | PoStoreForward => "store_forward"
  end.

Definition overlay_visible_bytes (p : PeerOverlayOpaquePayload) : bytes :=
  as_bytes (payload_kind_label (ovo_kind p)) ++ be_u64 (len (ovo_key_id p)) ++ ovo_key_id p
  ++ be_u64 (ovo_sequence p) ++ ovo_aad_commitment p ++ ovo_opaque_ciphertext p.

Inductive PeerOverlayAckMode := AckRequired | BestEffort.

#[export] Instance PeerOverlayAckMode_eq_dec : EqDecision PeerOverlayAckMode.
Proof. solve_decision. Defined.

Record PeerOverlayRedelivery := {
  ovd_max_attempts : N;
  ovd_max_relay_fanout : N;
  ovd_deadline_ms : N
}.

Definition overlay_redelivery_validate (ttl : PeerOverlayTtl) (d : PeerOverlayRedelivery) :
    result unit TransportError :=
  check reject_policy (ovd_max_attempts d =? 0)
    "peer overlay redelivery attempts must be non-zero" in
  check reject_policy
    ((ovd_max_relay_fanout d =? 0) || (PEER_OVERLAY_MAX_RELAY_HOPS <? ovd_max_relay_fanout d))
    "peer overlay redelivery fanout must be within the relay hop cap" in
  reject_policy (ovt_expires_at_ms ttl <? ovd_deadline_ms d)
    "peer overlay redelivery deadline must not exceed frame expiry".

Record PeerOverlayDelivery := {
  ovy_ack_id : bytes;
  ovy_ack_mode : PeerOverlayAckMode;
  ovy_redelivery : PeerOverlayRedelivery
}.

Definition overlay_delivery_validate (ttl : PeerOverlayTtl) (d : PeerOverlayDelivery) :
    result unit TransportError :=
  check ack_id_validate (ovy_ack_id d) in overlay_redelivery_validate ttl (ovy_redelivery d).

Inductive PeerOverlayCarrier :=
| DirectWebRtcDataChannel | ConfiguredTurnBackedWebRtc | PeerAssistedOverlay
| ProviderApplicationRelay.

#[export] Instance PeerOverlayCarrier_eq_dec : EqDecision PeerOverlayCarrier.
Proof. solve_decision. Defined.

Definition carrier_validate (c : PeerOverlayCarrier) : result unit TransportError :=
  reject_policy (bool_decide (c = ProviderApplicationRelay))
    "peer overlay frames must not use providers as application relays".

(** ** Frames *)

Record PeerOverlayFrame := {
  ovf_schema_version : N;
  ovf_carrier : PeerOverlayCarrier;
  ovf_route : PeerOverlayRoute;
  ovf_auth : PeerOverlayAuth;
  ovf_delivery : PeerOverlayDelivery;
  ovf_payload : PeerOverlayOpaquePayload
}.

Definition overlay_frame_new (c : PeerOverlayCarrier) (r : PeerOverlayRoute) (a : PeerOverlayAuth)
    (d : PeerOverlayDelivery) (p : PeerOverlayOpaquePayload) : PeerOverlayFrame :=
  {| ovf_schema_version := PEER_OVERLAY_FRAME_SCHEMA_VERSION; ovf_carrier := c; ovf_route := r;
     ovf_auth := a; ovf_delivery := d; ovf_payload := p |}.

Definition frame_validate (s : PeerOverlayAdmittedSet) (f : PeerOverlayFrame) :
    result unit TransportError :=
  check reject_policy (negb (ovf_schema_version f =? PEER_OVERLAY_FRAME_SCHEMA_VERSION))
    "unsupported peer overlay frame schema version" in
  check carrier_validate (ovf_carrier f) in
  check route_validate s (ovf_route f) in
  check auth_validate s (ovf_auth f) in
  check reject_policy
    (negb (ovu_epoch (ovf_auth f) =? ovp_epoch (ovr_source (ovf_route f)))
     || negb (ovu_epoch (ovf_auth f) =? ovp_epoch (ovr_destination (ovf_route f))))
    "peer overlay auth epoch must match route refs" in
  check overlay_delivery_validate (ovr_ttl (ovf_route f)) (ovf_delivery f) in
  overlay_payload_validate (ovf_payload f).

Definition validate_relay_authorized (s : PeerOverlayAdmittedSet)
    (t : PeerOverlayRelayAuthoritySet) (f : PeerOverlayFrame) :
    result (list PeerOverlayRelayAuthorization) TransportError :=
  check frame_validate s f in validate_route_authority t (ovf_route f) (ovf_auth f).

(** ** Revocation *)

Record PeerOverlayRevocationState := {
  ovv_admitted : PeerOverlayAdmittedSet;
  ovv_relay_authority : PeerOverlayRelayAuthoritySet;
  ovv_revoked_peers : list PeerOverlayPeerRef
}.

Definition validate_frame_after_revocation (st : PeerOverlayRevocationState)
    (f : PeerOverlayFrame) : result (list PeerOverlayRelayAuthorization) TransportError :=
  validate_relay_authorized (ovv_admitted st) (ovv_relay_authority st) f.

Record PeerOverlayRevocationInput := {
  ovi_source : PeerOverlayRelayAuthoritySource;
  ovi_current_epoch : N;
  ovi_group_id_commitment : bytes;
  ovi_confirmation_tag_commitment : bytes;
  ovi_remaining_admitted : list PeerOverlayPeerRef;
  ovi_revoked_peers : list PeerOverlayPeerRef;
  ovi_authorized_relays : list PeerOverlayPeerRef
}.

Definition ref_binding (p : PeerOverlayPeerRef) : string * string :=
  (ovp_member_id p, ovp_device_id p).

Definition build_peer_overlay_revocation_state (i : PeerOverlayRevocationInput) :
    result PeerOverlayRevocationState TransportError :=
  check authority_source_validate (ovi_source i) in
  check validate_nonzero_32 (ovi_group_id_commitment i)
    "peer overlay revocation group id commitment" in
  check validate_nonzero_32 (ovi_confirmation_tag_commitment i)
    "peer overlay revocation confirmation commitment" in
  check reject_policy (bool_decide (ovi_revoked_peers i = []))
    "peer overlay revocation requires at least one revoked peer" in
  check each (λ r, check validate_shape r in
                   reject_policy (ovi_current_epoch i <=? ovp_epoch r)
                     "peer overlay revocation epoch must advance beyond revoked refs")
    (ovi_revoked_peers i) in
  let revoked_ids : gset string := list_to_set (ovp_peer_id <$> ovi_revoked_peers i) in
  let revoked_bindings : gset (string * string) := list_to_set (ref_binding <$> ovi_revoked_peers i) in
  check each (λ p, reject_policy (bool_decide (ref_binding p ∈ revoked_bindings))
                     "peer overlay post-revocation admitted set must not include revoked member/device bindings")
    (ovi_remaining_admitted i) in
  check each (λ p, reject_policy (bool_decide (ref_binding p ∈ revoked_bindings))
                     "peer overlay post-revocation relay authority must not include revoked member/device bindings")
    (ovi_authorized_relays i) in
  let* admitted := admitted_set_new (ovi_current_epoch i) (ovi_remaining_admitted i) revoked_ids in
  let* authority := authority_set_new (ovi_source i) admitted (ovi_group_id_commitment i)
                      (ovi_confirmation_tag_commitment i) (ovi_authorized_relays i) in
  Ok {| ovv_admitted := admitted; ovv_relay_authority := authority;
        ovv_revoked_peers := ovi_revoked_peers i |}.

(** ** Relay candidates *)

Record PeerOverlayRelayCandidateDiagnostics := {
  ovg_latency_ms : N;
  ovg_successful_health_probes : N;
  ovg_failed_health_probes : N;
  ovg_egress_capacity : N;
  ovg_current_load : N;
  ovg_energy_cost_bps : N;
  ovg_freeload_penalty_bps : N
}.

Definition stability_bps (g : PeerOverlayRelayCandidateDiagnostics) : N :=
  let total := N.max (sat_add u32_max (ovg_successful_health_probes g)
                        (ovg_failed_health_probes g)) 1 in
  sat_mul u32_max (ovg_successful_health_probes g) 10000 / total.

Definition spare_capacity (g : PeerOverlayRelayCandidateDiagnostics) : N :=
  ovg_egress_capacity g - ovg_current_load g.

Record PeerOverlayRelayCandidatePolicy := {
  ovc_carrier : PeerOverlayCarrier;
  ovc_min_egress_capacity : N;
  ovc_min_stability_bps : N;
  ovc_max_energy_cost_bps : N
}.

Definition candidate_policy_default : PeerOverlayRelayCandidatePolicy :=
  {| ovc_carrier := PeerAssistedOverlay; ovc_min_egress_capacity := 1024;
     ovc_min_stability_bps := 1; ovc_max_energy_cost_bps := 10000 |}.

Definition candidate_policy_validate (p : PeerOverlayRelayCandidatePolicy) :
    result unit TransportError :=
  check carrier_validate (ovc_carrier p) in
  check reject_policy (negb (bool_decide (ovc_carrier p = PeerAssistedOverlay)))
    "peer overlay relay candidate ranking requires peer-assisted overlay carrier" in
  check reject_policy (ovc_min_egress_capacity p =? 0)
    "peer overlay relay candidate policy requires non-zero capacity" in
  check reject_policy (10000 <? ovc_min_stability_bps p)
    "peer overlay relay candidate policy stability must be <= 10000 bps" in
  reject_policy (10000 <? ovc_max_energy_cost_bps p)
    "peer overlay relay candidate policy energy cost must be <= 10000 bps".

Definition diagnostics_validate (p : PeerOverlayRelayCandidatePolicy)
    (g : PeerOverlayRelayCandidateDiagnostics) : result unit TransportError :=
  check reject_policy (ovg_successful_health_probes g =? 0)
    "peer overlay relay candidate requires a successful health probe" in
  check reject_policy
    (sat_add u32_max (ovg_successful_health_probes g) (ovg_failed_health_probes g) =? 0)
    "peer overlay relay candidate requires health probe evidence" in
  check reject_policy (stability_bps g <? ovc_min_stability_bps p)
    "peer overlay relay candidate is below stability policy" in
  check reject_policy (ovc_max_energy_cost_bps p <? ovg_energy_cost_bps g)
    "peer overlay relay candidate exceeds energy policy" in
  check reject_policy (ovg_egress_capacity g <? ovc_min_egress_capacity p)
    "peer overlay relay candidate lacks required egress capacity" in
  reject_policy (ovg_egress_capacity g <=? ovg_current_load g)
    "peer overlay relay candidate has no spare relay capacity".

Record PeerOverlayRelayCandidate := {
  ovk_relay : PeerOverlayPeerRef;
  ovk_diagnostics : PeerOverlayRelayCandidateDiagnostics
}.

Record PeerOverlayRankedRelayCandidate := {
  ovn_relay : PeerOverlayPeerRef;
  ovn_authorization : PeerOverlayRelayAuthorization;
  ovn_score : Z;
  ovn_diagnostics : PeerOverlayRelayCandidateDiagnostics
}.

(** [i64::try_from(v).unwrap_or(i64::MAX)] of a [u64]. *)
Definition i64_from_u64 (v : N) : Z := if (Z.of_N v <=? i64_max)%Z then Z.of_N v else i64_max.

(** Plain [i64] arithmetic; [score_in_range] shows that no step leaves the type. *)
Definition score_relay_candidate (g : PeerOverlayRelayCandidateDiagnostics) : Z :=
  let latency_penalty := (Z.of_N (N.max (ovg_latency_ms g) 1) * 100)%Z in
  let stability_bonus := (Z.of_N (stability_bps g) * 100)%Z in
  let capped_capacity := N.min (spare_capacity g) 10000000 in
  let capacity_bonus := i64_from_u64 (capped_capacity / 1024) in
  let energy_penalty := (Z.of_N (ovg_energy_cost_bps g) * 10)%Z in
  let freeload_penalty := (Z.of_N (ovg_freeload_penalty_bps g) * 10)%Z in
  (stability_bonus + capacity_bonus - latency_penalty - energy_penalty - freeload_penalty)%Z.

Definition compare_ranked_relay_candidates (a b : PeerOverlayRankedRelayCandidate) : comparison :=
  then_with (Z.compare (ovn_score b) (ovn_score a))
    (then_with (String.compare (ovp_peer_id (ovn_relay a)) (ovp_peer_id (ovn_relay b)))
       (then_with (String.compare (ovp_member_id (ovn_relay a)) (ovp_member_id (ovn_relay b)))
          (String.compare (ovp_device_id (ovn_relay a)) (ovp_device_id (ovn_relay b))))).

Fixpoint rank_loop (s : PeerOverlayAdmittedSet) (t : PeerOverlayRelayAuthoritySet)
    (a : PeerOverlayAuth) (p : PeerOverlayRelayCandidatePolicy) (seen : gset string)
    (candidates : list PeerOverlayRelayCandidate) :
    result (list PeerOverlayRankedRelayCandidate) TransportError :=
  match candidates with
  | [] => Ok []
  | c :: rest =>
      check validate_ref s (ovk_relay c) in
      check reject_policy (bool_decide (ovp_peer_id (ovk_relay c) ∈ seen))
        "peer overlay relay candidates must be unique" in
      check diagnostics_validate p (ovk_diagnostics c) in
      let* z := authorize_relay t (ovk_relay c) a in
      let* ranked := rank_loop s t a p ({[ovp_peer_id (ovk_relay c)]} ∪ seen) rest in
      Ok ({| ovn_relay := ovk_relay c; ovn_authorization := z;
             ovn_score := score_relay_candidate (ovk_diagnostics c);
             ovn_diagnostics := ovk_diagnostics c |} :: ranked)
  end.

Definition rank_relay_candidates (s : PeerOverlayAdmittedSet) (t : PeerOverlayRelayAuthoritySet)
    (a : PeerOverlayAuth) (p : PeerOverlayRelayCandidatePolicy)
    (candidates : list PeerOverlayRelayCandidate) :
    result (list PeerOverlayRankedRelayCandidate) TransportError :=
  check candidate_policy_validate p in
  check auth_validate s a in
  check reject_policy (negb (ova_current_epoch t =? ovs_current_epoch s))
    "peer overlay relay candidate authority epoch must match admitted epoch" in
  let* ranked := rank_loop s t a p ∅ candidates in
  check reject_policy (bool_decide (ranked = []))
    "peer overlay relay candidate ranking requires at least one candidate" in
  Ok (sort_by compare_ranked_relay_candidates ranked).

(** ** Lemmas *)

(** Turn a successful check into its condition. *)
Ltac ok_simpl :=
  repeat first
    [ rewrite check_ok | rewrite reject_if_ok | rewrite ok_or_ok | rewrite negb_false_iff
    | rewrite orb_false_iff | rewrite bool_decide_eq_false | rewrite bool_decide_eq_true
    | rewrite N.eqb_eq | rewrite N.eqb_neq | rewrite N.ltb_ge | rewrite N.leb_gt
    | progress unfold reject_policy, policy_error ].

Lemma validate_ref_ok s p :
  validate_ref s p = Ok tt ↔
  validate_shape p = Ok tt ∧ ovp_epoch p = ovs_current_epoch s ∧
  ovp_peer_id p ∉ ovs_revoked s ∧ ovs_admitted s !! ovp_peer_id p = Some p.
Proof.
  unfold validate_ref. ok_simpl. destruct (ovs_admitted s !! ovp_peer_id p) as [a|]; ok_simpl;
    naive_solver.
Qed.

Lemma unique_by_id_ok pre dup l m m' :
  unique_by_id pre dup l m = Ok m' ↔
  Forall (λ p, pre p = Ok tt) l ∧ NoDup (ovp_peer_id <$> l) ∧
  (∀ p, p ∈ l → m !! ovp_peer_id p = None) ∧
  m' = foldl (λ m p, <[ovp_peer_id p := p]> m) m l.
Proof.
  revert m. induction l as [|p l IH]; intros m; simpl.
  { rewrite NoDup_nil. split; [|naive_solver]. intros [= ->]. split_and!; set_solver. }
  ok_simpl. rewrite IH, Forall_cons, NoDup_cons, list_elem_of_fmap, <- eq_None_not_Some.
  setoid_rewrite elem_of_cons. split.
  - intros (Hp & Hm & Hall & Hnd & Hfresh & ->). split_and!; try done.
    + intros (q & Hq & Hin). specialize (Hfresh q Hin). rewrite <- Hq, lookup_insert_eq in Hfresh. done.
    + intros q [->|Hin]; [done|]. specialize (Hfresh q Hin). by apply lookup_insert_None in Hfresh as [? _].
  - intros ([Hp Hall] & (Hnin & Hnd) & Hfresh & ->). split_and!; auto.
    intros q Hin. rewrite lookup_insert_ne; [auto|]. intros E. apply Hnin. by exists q.
Qed.

Lemma foldl_refs_lookup (l : list PeerOverlayPeerRef) (m : gmap string PeerOverlayPeerRef) k p :
  foldl (λ m p, <[ovp_peer_id p := p]> m) m l !! k = Some p →
  m !! k = Some p ∨ (p ∈ l ∧ k = ovp_peer_id p).
Proof.
  revert m. induction l as [|q l IH]; intros m; simpl; [by left|]. intros Hk.
  apply IH in Hk as [Hk|[? ?]]; [|right; split; [by right|done]].
  apply lookup_insert_Some in Hk as [[<- ->]|[_ ?]]; [right; split; [by left|done]|by left].
Qed.

(** What is found in a map built from refs is one of them, and passed the check. *)
Lemma unique_by_id_lookup pre dup l m k p :
  unique_by_id pre dup l ∅ = Ok m → m !! k = Some p →
  p ∈ l ∧ k = ovp_peer_id p ∧ pre p = Ok tt.
Proof.
  intros (Hpre & _ & _ & ->)%unique_by_id_ok Hk.
  apply foldl_refs_lookup in Hk as [Hk|[Hin ->]]; [by rewrite lookup_empty in Hk|].
  rewrite Forall_forall in Hpre. auto.
Qed.

Lemma admitted_set_new_ok epoch l revoked s :
  admitted_set_new epoch l revoked = Ok s →
  ovs_current_epoch s = epoch ∧ ovs_revoked s = revoked ∧
  ∀ k p, ovs_admitted s !! k = Some p → p ∈ l ∧ k = ovp_peer_id p ∧ admit_check epoch revoked p = Ok tt.
Proof.
  unfold admitted_set_new. rewrite rbind_ok. intros (m & Hm & H). revert H. ok_simpl.
  intros [_ [= <-]]. split_and!; [done..|]. intros k p. simpl. by eapply unique_by_id_lookup.
Qed.

Lemma authority_set_new_ok source s group confirmation relays t :
  authority_set_new source s group confirmation relays = Ok t →
  ova_current_epoch t = ovs_current_epoch s ∧
  ∀ k p, ova_authorized_relays t !! k = Some p → p ∈ relays ∧ k = ovp_peer_id p ∧ validate_ref s p = Ok tt.
Proof.
  unfold authority_set_new. ok_simpl. rewrite rbind_ok. intros (_ & _ & _ & m & Hm & H).
  revert H. ok_simpl. intros [_ [= <-]]. split; [done|]. intros k p. simpl.
  by eapply unique_by_id_lookup.
Qed.

(** An authorization restates the set it came from. *)
Lemma authorize_relay_ok t relay a z :
  authorize_relay t relay a = Ok z ↔
  ova_current_epoch t = ovu_epoch a ∧ ova_group_id_commitment t = ovu_group_id_commitment a ∧
  ova_confirmation_tag_commitment t = ovu_confirmation_tag_commitment a ∧
  ova_authorized_relays t !! ovp_peer_id relay = Some relay ∧
  z = {| ovz_source := ova_source t; ovz_group_id_commitment := ova_group_id_commitment t;
         ovz_epoch := ova_current_epoch t;
         ovz_confirmation_tag_commitment := ova_confirmation_tag_commitment t;
         ovz_relay := relay |}.
Proof.
  unfold authorize_relay. ok_simpl. rewrite rbind_ok. setoid_rewrite ok_or_ok. split.
  - intros (? & ? & ? & r & Hr & H). revert H. ok_simpl. intros [-> [= <-]]. done.
  - intros (? & ? & ? & Hr & ->). split_and!; [done..|]. exists relay. ok_simpl. done.
Qed.

Lemma try_map_ok {A B E} (f : A → result B E) l ys :
  try_map f l = Ok ys ↔ Forall2 (λ x y, f x = Ok y) l ys.
Proof.
  revert ys. induction l as [|x l IH]; intros ys; simpl.
  { split; [by intros [= <-]|by intros ->%Forall2_nil_inv_l]. }
  rewrite rbind_ok. setoid_rewrite rbind_ok. setoid_rewrite IH. split.
  - intros (y & Hy & ys' & Hys & [= <-]). by constructor.
  - intros (y & ys' & Hy & Hys & ->)%Forall2_cons_inv_l. eauto.
Qed.

Lemma relays_validate_ok s src dst seen path :
  relays_validate s src dst seen path = Ok tt ↔
  Forall (λ r, validate_ref s r = Ok tt ∧ ovp_peer_id r ≠ ovp_peer_id src ∧
               ovp_peer_id r ≠ ovp_peer_id dst ∧ ovp_peer_id r ∉ seen) path ∧
  NoDup (ovp_peer_id <$> path).
Proof.
  revert seen. induction path as [|r path IH]; intros seen; simpl.
  { rewrite NoDup_nil, Forall_nil. naive_solver. }
  ok_simpl. rewrite IH, Forall_cons, NoDup_cons, list_elem_of_fmap, !Forall_forall. split.
  - intros (? & [? ?] & ? & Hall & ?). split_and!; try done.
    + intros x Hx. specialize (Hall x Hx). set_solver.
    + intros (x & Hx & Hin). specialize (Hall x Hin). set_solver.
  - intros ([(? & ? & ? & ?) Hall] & Hn & ?). split_and!; try done. intros x Hx.
    specialize (Hall x Hx) as (? & ? & ? & ?). split_and!; try done.
    assert (ovp_peer_id x ≠ ovp_peer_id r) by (intros E; apply Hn; by exists x). set_solver.
Qed.

(** The peers of a route, in the order the frame visits them. *)
Definition route_peers (r : PeerOverlayRoute) : list PeerOverlayPeerRef :=
  ovr_source r :: ovr_relay_path r ++ [ovr_destination r].

Lemma route_validate_path s r :
  route_validate s r = Ok tt →
  Forall (λ p, validate_ref s p = Ok tt) (route_peers r) ∧
  NoDup (ovp_peer_id <$> route_peers r) ∧ ttl_validate (ovr_ttl r) = Ok tt ∧
  1 ≤ N.of_nat (length (ovr_relay_path r)) ≤ 3.
Proof.
  unfold route_validate, PEER_OVERLAY_MAX_RELAY_HOPS. ok_simpl. rewrite relays_validate_ok, Forall_forall.
  intros (? & ? & Hne & ? & _ & Hnil & Hlen & Hall & Hnd). unfold route_peers. split_and!; try done.
  - apply Forall_cons; split; [done|]. apply Forall_app; split; [|by apply Forall_singleton].
    rewrite Forall_forall. intros x Hx. by apply Hall.
  - rewrite fmap_cons, fmap_app. simpl. rewrite NoDup_cons, NoDup_app, elem_of_app, list_elem_of_fmap.
    split_and!; [|done| |apply NoDup_singleton].
    + intros [(x & Hx & Hin)|Hd%list_elem_of_singleton]; [|done].
      destruct (Hall x Hin) as (_ & Hs & _). congruence.
    + intros k (x & -> & Hin)%list_elem_of_fmap E%list_elem_of_singleton.
      by destruct (Hall x Hin) as (_ & _ & Hd & _).
  - destruct (ovr_relay_path r); simpl in *; [done|]. lia.
Qed.

Lemma validate_relay_authorized_ok s t f zs :
  validate_relay_authorized s t f = Ok zs →
  frame_validate s f = Ok tt ∧ route_validate s (ovf_route f) = Ok tt ∧
  ovz_relay <$> zs = ovr_relay_path (ovf_route f) ∧
  Forall (λ p, ova_authorized_relays t !! ovp_peer_id p = Some p) (ovr_relay_path (ovf_route f)).
Proof.
  unfold validate_relay_authorized, validate_route_authority. ok_simpl. intros [Hf Hz].
  apply try_map_ok in Hz. split_and!; [done| |..].
  - revert Hf. unfold frame_validate. ok_simpl. naive_solver.
  - induction Hz as [|r z rs zs Hz _ IH]; [done|]. rewrite fmap_cons, IH. f_equal.
    apply rbind_ok in Hz as (z' & Hz & H). apply check_ok in H as [_ [= <-]].
    apply authorize_relay_ok in Hz as (_ & _ & _ & _ & ->). done.
  - induction Hz as [|r z rs zs Hz _ IH]; constructor; [|done].
    apply rbind_ok in Hz as (z' & Hz & _). by apply authorize_relay_ok in Hz as (_ & _ & _ & ? & _).
Qed.

(** *** Ranking *)

(** What a candidate has to pass, and the entry it then gets. *)
Definition candidate_gate (s : PeerOverlayAdmittedSet) (t : PeerOverlayRelayAuthoritySet)
    (a : PeerOverlayAuth) (p : PeerOverlayRelayCandidatePolicy) (c : PeerOverlayRelayCandidate) :
    Prop :=
  validate_ref s (ovk_relay c) = Ok tt ∧ diagnostics_validate p (ovk_diagnostics c) = Ok tt ∧
  ∃ z, authorize_relay t (ovk_relay c) a = Ok z.

Definition ranked_entry (t : PeerOverlayRelayAuthoritySet) (c : PeerOverlayRelayCandidate) :
    PeerOverlayRankedRelayCandidate :=
  {| ovn_relay := ovk_relay c;
     ovn_authorization :=
       {| ovz_source := ova_source t; ovz_group_id_commitment := ova_group_id_commitment t;
          ovz_epoch := ova_current_epoch t;
          ovz_confirmation_tag_commitment := ova_confirmation_tag_commitment t;
          ovz_relay := ovk_relay c |};
     ovn_score := score_relay_candidate (ovk_diagnostics c);
     ovn_diagnostics := ovk_diagnostics c |}.

Lemma rank_loop_ok s t a p seen cs ranked :
  rank_loop s t a p seen cs = Ok ranked ↔
  Forall (candidate_gate s t a p) cs ∧ NoDup ((λ c, ovp_peer_id (ovk_relay c)) <$> cs) ∧
  (∀ c, c ∈ cs → ovp_peer_id (ovk_relay c) ∉ seen) ∧ ranked = ranked_entry t <$> cs.
Proof.
  revert seen ranked. induction cs as [|c cs IH]; intros seen ranked; simpl.
  { rewrite NoDup_nil, Forall_nil. split; [intros [= <-]; set_solver|naive_solver]. }
  ok_simpl. rewrite Forall_cons, NoDup_cons, list_elem_of_fmap. split.
  - intros (? & ? & ? & H). apply rbind_ok in H as (z & Hz & H).
    apply rbind_ok in H as (r & Hr & [= <-]). apply IH in Hr as (Hall & Hnd & Hseen & ->).
    split_and!; try done; [split; [done|split; [done|by exists z]]| | |].
    + intros (x & Hx & Hin). specialize (Hseen x Hin). set_solver.
    + intros x [->|Hin]%elem_of_cons; [done|]. specialize (Hseen x Hin). set_solver.
    + apply authorize_relay_ok in Hz as (_ & _ & _ & _ & ->). done.
  - intros ([(? & ? & z & Hz) Hall] & [Hn Hnd] & Hseen & ->). split_and!; try done.
    { apply Hseen. by left. }
    rewrite Hz. simpl. apply rbind_ok. exists (ranked_entry t <$> cs). split.
    + apply IH. split_and!; [done..| |done]. intros x Hx.
      assert (ovp_peer_id (ovk_relay x) ≠ ovp_peer_id (ovk_relay c)) by (intros E; apply Hn; by exists x).
      specialize (Hseen x). set_solver.
    + apply authorize_relay_ok in Hz as (_ & _ & _ & _ & ->). done.
Qed.

#[export] Instance compare_ranked_laws : CmpLaws compare_ranked_relay_candidates.
Proof.
  apply (cmp_lex_laws (λ a b, Z.compare (ovn_score b) (ovn_score a))); [|apply _]. split.
  - intros x y. apply Z.compare_antisym.
  - intros x y z. rewrite !Z.compare_le_iff. lia.
Qed.

Lemma rank_relay_candidates_ok s t a p cs ranked :
  rank_relay_candidates s t a p cs = Ok ranked ↔
  candidate_policy_validate p = Ok tt ∧ auth_validate s a = Ok tt ∧
  ova_current_epoch t = ovs_current_epoch s ∧ cs ≠ [] ∧
  Forall (candidate_gate s t a p) cs ∧ NoDup ((λ c, ovp_peer_id (ovk_relay c)) <$> cs) ∧
  ranked = sort_by compare_ranked_relay_candidates (ranked_entry t <$> cs).
Proof.
  unfold rank_relay_candidates. ok_simpl. rewrite rbind_ok. setoid_rewrite rank_loop_ok. split.
  - intros (? & ? & ? & r & (? & ? & _ & ->) & Hk). revert Hk. ok_simpl. intros [Hne [= <-]].
    split_and!; try done. by intros ->.
  - intros (? & ? & ? & Hne & ? & ? & ->). split_and!; try done.
    exists (ranked_entry t <$> cs). split; [set_solver|]. ok_simpl. split; [|done]. by destruct cs.
Qed.

(** *** Score bounds *)

Lemma stability_bps_le g : stability_bps g ≤ 10000.
Proof.
  unfold stability_bps, sat_mul, sat_add, u32_max. apply N.Div0.div_le_upper_bound.
  change (2 ^ 32 - 1) with 4294967295. lia.
Qed.

(** Every intermediate value of the score, on arguments of the source's widths. *)
Lemma score_in_range g :
  ovg_latency_ms g ≤ u32_max → ovg_energy_cost_bps g ≤ u16_max →
  ovg_freeload_penalty_bps g ≤ u16_max →
  (- 430000000000 ≤ score_relay_candidate g ≤ 1009765)%Z.
Proof.
  intros Hl He Hf. pose proof (stability_bps_le g) as Hs.
  assert (N.min (spare_capacity g) 10000000 / 1024 < 9766) as Hc
    by (apply N.Div0.div_lt_upper_bound; lia).
  unfold score_relay_candidate, i64_from_u64, i64_max, u32_max, u16_max in *.
  change (2 ^ 32 - 1) with 4294967295 in *. change (2 ^ 16 - 1) with 65535 in *.
  generalize dependent (N.min (spare_capacity g) 10000000 / 1024). intros q Hq.
  change (2 ^ 63 - 1)%Z with 9223372036854775807%Z. destruct (Z.leb_spec (Z.of_N q) 9223372036854775807); lia.
Qed.

(** ** Properties *)

(** C34. After a revocation nobody who was revoked takes part: for the state built from any
    accepted input, a frame that validates visits only refs of the remaining admitted list at
    the new epoch, all distinct; none of them carries a peer id or a member/device binding of
    a revoked ref, and every relay on the path is one the input authorized. *)
Theorem revoked_peers_take_no_part i st f zs :
  build_peer_overlay_revocation_state i = Ok st →
  validate_frame_after_revocation st f = Ok zs →
  NoDup (ovp_peer_id <$> route_peers (ovf_route f)) ∧
  ovz_relay <$> zs = ovr_relay_path (ovf_route f) ∧
  (∀ p, p ∈ route_peers (ovf_route f) →
     p ∈ ovi_remaining_admitted i ∧ ovp_epoch p = ovi_current_epoch i ∧
     ∀ q, q ∈ ovi_revoked_peers i →
       ovp_peer_id p ≠ ovp_peer_id q ∧ ref_binding p ≠ ref_binding q ∧ ovp_epoch q < ovp_epoch p) ∧
  (∀ r, r ∈ ovr_relay_path (ovf_route f) → r ∈ ovi_authorized_relays i).
Proof.
  unfold build_peer_overlay_revocation_state. cbv zeta. ok_simpl. rewrite !each_ok, !Forall_forall.
  rewrite rbind_ok. intros (_ & _ & _ & _ & Hrev & Hrem & _ & s & Hs & H). revert H.
  rewrite rbind_ok. intros (t & Ht & [= <-]). intros (_ & Hr & Hzs & Hauth)%validate_relay_authorized_ok.
  simpl in *. apply route_validate_path in Hr as (Hall & Hnd & _ & _).
  apply admitted_set_new_ok in Hs as (He & Hrv & Hin). apply authority_set_new_ok in Ht as [_ Ha].
  rewrite Forall_forall in Hall, Hauth. split_and!; try done.
  - intros p (_ & Hep & Hnr & Hlk)%Hall%validate_ref_ok. apply Hin in Hlk as (Hp & _ & _).
    split_and!; [done|congruence|]. intros q Hq. specialize (Hrem p Hp). specialize (Hrev q Hq).
    revert Hrem Hrev. ok_simpl. intros Hb [_ Hlt]. rewrite Hrv in Hnr.
    split_and!; [| |lia]; intros E; [apply Hnr|apply Hb]; rewrite E;
      apply elem_of_list_to_set, list_elem_of_fmap; by exists q.
  - intros r Hlk%Hauth. by apply Ha in Hlk as (? & _ & _).
Qed.

(** Relay ranking is canonical: the candidates of an accepted ranking come out sorted by
    score, ties by ids, each with the authorization of its own ref and having passed
    admission, the health policy and relay authority; any other order of the candidates gives
    the same list; and within the source's integer widths every score fits [i64] with room to
    spare. *)
Theorem relay_ranking_is_canonical s t a p cs ranked :
  rank_relay_candidates s t a p cs = Ok ranked →
  (∀ cs', cs ≡ₚ cs' → rank_relay_candidates s t a p cs' = Ok ranked) ∧
  ovn_relay <$> ranked ≡ₚ ovk_relay <$> cs ∧
  StronglySorted (cmp_le compare_ranked_relay_candidates) ranked ∧
  (∀ r, r ∈ ranked →
     validate_ref s (ovn_relay r) = Ok tt ∧ ovz_relay (ovn_authorization r) = ovn_relay r ∧
     authorize_relay t (ovn_relay r) a = Ok (ovn_authorization r) ∧
     diagnostics_validate p (ovn_diagnostics r) = Ok tt ∧
     (ovg_latency_ms (ovn_diagnostics r) ≤ u32_max →
      ovg_energy_cost_bps (ovn_diagnostics r) ≤ u16_max →
      ovg_freeload_penalty_bps (ovn_diagnostics r) ≤ u16_max →
      (- i64_max ≤ ovn_score r ≤ i64_max)%Z)).
Proof.
  intros Hok. pose proof Hok as (Hp & Ha & Ht & Hne & Hall & Hnd & ->)%rank_relay_candidates_ok.
  split_and!.
  - intros cs' Hperm. apply rank_relay_candidates_ok. split_and!; try done.
    + intros ->. by apply Permutation_nil_r in Hperm.
    + by rewrite <- Hperm.
    + by rewrite <- Hperm.
    + apply sort_by_unique; [apply _|by rewrite Hperm|].
      intros x y (c & -> & Hc)%list_elem_of_fmap (d & -> & Hd)%list_elem_of_fmap Heq.
      f_equal. eapply (NoDup_fmap_inj_elem (λ c, ovp_peer_id (ovk_relay c))); [done..|].
      unfold compare_ranked_relay_candidates in Heq.
      destruct (Z.compare _ _) in Heq; simpl in Heq; [|done..].
      destruct (String.compare _ _) eqn:E in Heq; simpl in Heq; [|done..].
      by apply (cmp_eq (cmp := String.compare)) in E.
  - rewrite sort_by_perm, <- list_fmap_compose. done.
  - apply sort_by_sorted, _.
  - intros r (c & -> & Hc)%elem_of_sort_by%list_elem_of_fmap. rewrite Forall_forall in Hall.
    destruct (Hall c Hc) as (? & ? & z & Hz). simpl. split_and!; try done.
    + rewrite Hz. apply authorize_relay_ok in Hz as (_ & _ & _ & _ & ->). done.
    + intros. pose proof (score_in_range (ovk_diagnostics c)) as Hb. unfold i64_max. lia.
Qed.

(** ** Witnesses *)

Section witnesses.
Definition ex_ref (id : string) : PeerOverlayPeerRef :=
  {| ovp_peer_id := id; ovp_member_id := "member-" +:+ id; ovp_device_id := "device";
     ovp_epoch := 5 |}.

Definition ex_revoked : PeerOverlayPeerRef :=
  {| ovp_peer_id := "mallory"; ovp_member_id := "member-mallory"; ovp_device_id := "device";
     ovp_epoch := 4 |}.

Definition ex_revocation : PeerOverlayRevocationInput :=
  {| ovi_source := OpenMlsCurrentEpoch; ovi_current_epoch := 5;
     ovi_group_id_commitment := replicate 32 1; ovi_confirmation_tag_commitment := replicate 32 2;
     ovi_remaining_admitted := [ex_ref "alice"; ex_ref "bob"; ex_ref "carol"; ex_ref "dave"];
     ovi_revoked_peers := [ex_revoked];
     ovi_authorized_relays := [ex_ref "carol"; ex_ref "dave"] |}.

Definition ex_auth : PeerOverlayAuth :=
  {| ovu_group_id_commitment := replicate 32 1; ovu_epoch := 5; ovu_sender_leaf_index := 0;
     ovu_confirmation_tag_commitment := replicate 32 2; ovu_frame_auth_tag := replicate 16 7 |}.

Definition ex_route (path : list PeerOverlayPeerRef) : PeerOverlayRoute :=
  {| ovr_source := ex_ref "alice"; ovr_relay_path := path; ovr_destination := ex_ref "bob";
     ovr_ttl := {| ovt_remaining_hops := 3; ovt_created_at_ms := 10; ovt_expires_at_ms := 9000 |};
     ovr_loop_id := replicate 16 3 |}.

Definition ex_frame (path : list PeerOverlayPeerRef) : PeerOverlayFrame :=
  overlay_frame_new PeerAssistedOverlay (ex_route path) ex_auth
    {| ovy_ack_id := replicate 16 4; ovy_ack_mode := AckRequired;
       ovy_redelivery := {| ovd_max_attempts := 3; ovd_max_relay_fanout := 2;
                            ovd_deadline_ms := 8000 |} |}
    {| ovo_kind := PoTextControl; ovo_key_id := [9]; ovo_sequence := 12;
       ovo_aad_commitment := replicate 32 5; ovo_opaque_ciphertext := [6; 6; 6] |}.

Definition ex_admitted : PeerOverlayAdmittedSet :=
  {| ovs_current_epoch := 5;
     ovs_admitted := list_to_map ((λ p, (ovp_peer_id p, p)) <$>
        [ex_ref "alice"; ex_ref "bob"; ex_ref "carol"; ex_ref "dave"]);
     ovs_revoked := {["mallory"]} |}.

Definition ex_authority : PeerOverlayRelayAuthoritySet :=
  {| ova_source := OpenMlsCurrentEpoch; ova_current_epoch := 5;
     ova_group_id_commitment := replicate 32 1; ova_confirmation_tag_commitment := replicate 32 2;
     ova_authorized_relays := list_to_map ((λ p, (ovp_peer_id p, p)) <$>
        [ex_ref "carol"; ex_ref "dave"]) |}.

Definition ex_state : PeerOverlayRevocationState :=
  {| ovv_admitted := ex_admitted; ovv_relay_authority := ex_authority;
     ovv_revoked_peers := [ex_revoked] |}.

Definition ex_authorization (p : PeerOverlayPeerRef) : PeerOverlayRelayAuthorization :=
  {| ovz_source := OpenMlsCurrentEpoch; ovz_group_id_commitment := replicate 32 1; ovz_epoch := 5;
     ovz_confirmation_tag_commitment := replicate 32 2; ovz_relay := p |}.

Lemma revoked_peers_take_no_part_witness :
  build_peer_overlay_revocation_state ex_revocation = Ok ex_state ∧
  ∀ p, p ∈ route_peers (ex_route [ex_ref "carol"; ex_ref "dave"]) → ref_binding p ≠ ref_binding ex_revoked.
Proof.
  assert (build_peer_overlay_revocation_state ex_revocation = Ok ex_state) as Hb
    by (vm_compute; reflexivity).
  split; [exact Hb|]. intros p Hp.
  destruct (revoked_peers_take_no_part ex_revocation ex_state (ex_frame [ex_ref "carol"; ex_ref "dave"])
    [ex_authorization (ex_ref "carol"); ex_authorization (ex_ref "dave")] Hb) as (_ & _ & H & _).
  { vm_compute. reflexivity. }
  destruct (H p Hp) as (_ & _ & Hq). destruct (Hq ex_revoked) as (_ & Hr & _); [by left|exact Hr].
Defined.

Definition ex_candidate (id : string) (latency : N) : PeerOverlayRelayCandidate :=
  {| ovk_relay := ex_ref id;
     ovk_diagnostics := {| ovg_latency_ms := latency; ovg_successful_health_probes := 9;
       ovg_failed_health_probes := 1; ovg_egress_capacity := 4096; ovg_current_load := 1024;
       ovg_energy_cost_bps := 10; ovg_freeload_penalty_bps := 0 |} |}.

Definition ex_ranked : list PeerOverlayRankedRelayCandidate :=
  ranked_entry ex_authority <$> [ex_candidate "dave" 20; ex_candidate "carol" 40].

Lemma relay_ranking_is_canonical_witness :
  rank_relay_candidates ex_admitted ex_authority ex_auth candidate_policy_default
    [ex_candidate "dave" 20; ex_candidate "carol" 40] = Ok ex_ranked.
Proof.
  apply (relay_ranking_is_canonical ex_admitted ex_authority ex_auth candidate_policy_default
    [ex_candidate "carol" 40; ex_candidate "dave" 20] ex_ranked).
  - vm_compute. reflexivity.
  - apply perm_swap.
Defined.
End witnesses.
