(* ===== verification/OverlayRouting.v ===== *)
(** * Peer overlay: route selection, forwarding and failover

    [crates/transport/src/peer_overlay.rs], second part: direct, configured TURN or
    peer-assisted relay for one pair of peers; the per-hop envelopes of a relayed frame; and
    the replacement route after a relay failed. *)

From S2P Require Import Prelude Collections Bytes StrOps Transport IcePolicy ConnPolicy RouteGraph PeerOverlay.

(** ** Route legs *)

Inductive PeerOverlayConfiguredTurnOrder := BeforePeerRelay | AfterPeerRelay.

Record PeerOverlayRouteLegEvidence := {
  ole_from : PeerOverlayPeerRef;
  ole_to : PeerOverlayPeerRef;
  ole_carrier : PeerOverlayCarrier;
  ole_route_label : string;
  ole_live : bool
}.

Definition validate_pair (s : PeerOverlayAdmittedSet) (from to : PeerOverlayPeerRef)
    (expected : PeerOverlayCarrier) (label : string) (e : PeerOverlayRouteLegEvidence) :
    result unit TransportError :=
  check validate_ref s (ole_from e) in
  check validate_ref s (ole_to e) in
  check carrier_validate (ole_carrier e) in
  check validate_label (ole_route_label e) label in
  check reject_policy
    (negb (bool_decide (ole_from e = from)) || negb (bool_decide (ole_to e = to)))
    (label +:+ " must bind the expected peer pair") in
  check reject_policy (negb (bool_decide (ole_carrier e = expected)))
    (label +:+ " carrier does not match route-selection policy") in
  reject_policy (negb (ole_live e)) (label +:+ " must be backed by a live route").

Definition validate_relay_leg (s : PeerOverlayAdmittedSet) (from to : PeerOverlayPeerRef)
    (label : string) (e : PeerOverlayRouteLegEvidence) : result unit TransportError :=
  check validate_ref s (ole_from e) in
  check validate_ref s (ole_to e) in
  check carrier_validate (ole_carrier e) in
  check validate_label (ole_route_label e) label in
  check reject_policy
    (negb (bool_decide (ole_from e = from)) || negb (bool_decide (ole_to e = to)))
    (label +:+ " must bind the expected peer pair") in
  check reject_policy
    (match ole_carrier e with PeerAssistedOverlay | ProviderApplicationRelay => true | _ => false end)
    (label +:+ " must use a direct or configured TURN WebRTC leg") in
  reject_policy (negb (ole_live e)) (label +:+ " must be backed by a live route").

Record PeerOverlayRelayRouteEvidence := {
  ore_relay : PeerOverlayPeerRef;
  ore_source_to_relay : PeerOverlayRouteLegEvidence;
  ore_relay_to_destination : PeerOverlayRouteLegEvidence
}.

Definition relay_route_validate_for (s : PeerOverlayAdmittedSet)
    (source destination : PeerOverlayPeerRef) (e : PeerOverlayRelayRouteEvidence) :
    result unit TransportError :=
  check validate_ref s (ore_relay e) in
  check reject_policy (bool_decide (ovp_peer_id (ore_relay e) = ovp_peer_id source)
                       || bool_decide (ovp_peer_id (ore_relay e) = ovp_peer_id destination))
    "peer overlay relay route evidence cannot use source or destination as relay" in
  check validate_relay_leg s source (ore_relay e) "peer overlay source-to-relay leg"
    (ore_source_to_relay e) in
  check validate_relay_leg s (ore_relay e) destination "peer overlay relay-to-destination leg"
    (ore_relay_to_destination e) in
  Ok tt.

(** ** Selection *)

Record PeerOverlayRouteSelectionAttempt := { ora_carrier : PeerOverlayCarrier; ora_selected : bool }.

Inductive PeerOverlaySelectedRoute :=
| SelDirectWebRtc (evidence : PeerOverlayRouteLegEvidence)
| SelConfiguredTurn (evidence : PeerOverlayRouteLegEvidence)
| SelPeerAssisted (relay : PeerOverlayPeerRef) (authorization : PeerOverlayRelayAuthorization)
    (score : Z) (evidence : PeerOverlayRelayRouteEvidence).

Record PeerOverlayRouteSelection := {
  ors_attempts : list PeerOverlayRouteSelectionAttempt;
  ors_selected : PeerOverlaySelectedRoute;
  ors_limitation : string
}.

Record PeerOverlayRouteSelectionInput := {
  osi_source : PeerOverlayPeerRef;
  osi_destination : PeerOverlayPeerRef;
  osi_direct_pair : option PeerOverlayRouteLegEvidence;
  osi_configured_turn_pair : option PeerOverlayRouteLegEvidence;
  osi_ranked_relays : list PeerOverlayRankedRelayCandidate;
  osi_relay_routes : list PeerOverlayRelayRouteEvidence
}.

Definition route_selection_result (attempts : list PeerOverlayRouteSelectionAttempt)
    (selected : PeerOverlaySelectedRoute) : PeerOverlayRouteSelection :=
  {| ors_attempts := attempts; ors_selected := selected;
     ors_limitation :=
       "local model route-selection evidence only; not runtime forwarding or production route proof" |}.

(** [attempts.last_mut().ok_or_else(..)?.selected = true] *)
Definition select_last (attempts : list PeerOverlayRouteSelectionAttempt) :
    result (list PeerOverlayRouteSelectionAttempt) TransportError :=
  match attempts with
  | [] => policy_error "peer overlay route selection attempt list is empty"
  | _ => Ok (alter (λ t, {| ora_carrier := ora_carrier t; ora_selected := true |})
               (pred (length attempts)) attempts)
  end.

Definition attempt (c : PeerOverlayCarrier) : PeerOverlayRouteSelectionAttempt :=
  {| ora_carrier := c; ora_selected := false |}.

(** [attempts] is passed by mutable reference: the caller sees the pushed entry. *)
Definition try_configured_turn (s : PeerOverlayAdmittedSet) (i : PeerOverlayRouteSelectionInput)
    (attempts : list PeerOverlayRouteSelectionAttempt)
    (pair : option PeerOverlayRouteLegEvidence) :
    list PeerOverlayRouteSelectionAttempt * result (option PeerOverlayRouteSelection) TransportError :=
  let attempts := attempts ++ [attempt ConfiguredTurnBackedWebRtc] in
  match pair with
  | Some turn =>
      match (check validate_pair s (osi_source i) (osi_destination i) ConfiguredTurnBackedWebRtc
                     "peer overlay configured TURN route evidence" turn in
             select_last attempts) with
      | Ok marked => (marked, Ok (Some (route_selection_result marked (SelConfiguredTurn turn))))
      | Err e => (attempts, Err e)
      end
  | None => (attempts, Ok None)
  end.

Definition try_peer_relay (s : PeerOverlayAdmittedSet) (a : PeerOverlayAuth)
    (i : PeerOverlayRouteSelectionInput) (attempts : list PeerOverlayRouteSelectionAttempt) :
    result PeerOverlayRouteSelection TransportError :=
  let attempts := attempts ++ [attempt PeerAssistedOverlay] in
  let* ranked := ok_or (head (osi_ranked_relays i)) NoViablePath in
  check validate_ref s (ovn_relay ranked) in
  check authorization_validate_for (ovn_authorization ranked) (ovn_relay ranked) a in
  check reject_policy
    (bool_decide (ovp_peer_id (ovn_relay ranked) = ovp_peer_id (osi_source i))
     || bool_decide (ovp_peer_id (ovn_relay ranked) = ovp_peer_id (osi_destination i)))
    "peer overlay selected relay cannot be source or destination" in
  let* evidence := ok_or
    (head (filter (λ r, ovp_peer_id (ore_relay r) = ovp_peer_id (ovn_relay ranked))
             (osi_relay_routes i)))
    (InvalidConnectivityPolicy
       "peer overlay selected relay requires source and destination live route legs") in
  check relay_route_validate_for s (osi_source i) (osi_destination i) evidence in
  let* marked := select_last attempts in
  Ok (route_selection_result marked
        (SelPeerAssisted (ovn_relay ranked) (ovn_authorization ranked) (ovn_score ranked) evidence)).

Definition select_peer_overlay_route (s : PeerOverlayAdmittedSet) (a : PeerOverlayAuth)
    (order : PeerOverlayConfiguredTurnOrder) (i : PeerOverlayRouteSelectionInput) :
    result PeerOverlayRouteSelection TransportError :=
  check auth_validate s a in
  check validate_ref s (osi_source i) in
  check validate_ref s (osi_destination i) in
  check reject_policy (bool_decide (ovp_peer_id (osi_source i) = ovp_peer_id (osi_destination i)))
    "peer overlay route selection source and destination must differ" in
  let attempts := [attempt DirectWebRtcDataChannel] in
  match osi_direct_pair i with
  | Some direct =>
      check validate_pair s (osi_source i) (osi_destination i) DirectWebRtcDataChannel
        "peer overlay direct route evidence" direct in
      Ok (route_selection_result
            [{| ora_carrier := DirectWebRtcDataChannel; ora_selected := true |}]
            (SelDirectWebRtc direct))
  | None =>
      match order with
      | BeforePeerRelay =>
          let '(attempts, r) := try_configured_turn s i attempts (osi_configured_turn_pair i) in
          let* selection := r in
          match selection with
          | Some selection => Ok selection
          | None => try_peer_relay s a i attempts
          end
      | AfterPeerRelay =>
          match try_peer_relay s a i attempts with
          | Ok selection => Ok selection
          | Err NoViablePath =>
              let* selection := (try_configured_turn s i attempts (osi_configured_turn_pair i)).2 in
              ok_or selection NoViablePath
          | Err error => Err error
          end
      end
  end.

(** ** Forwarding *)

Record PeerOverlayForwardingPolicy := {
  ofp_carrier : PeerOverlayCarrier;
  ofp_forbidden_markers : list bytes
}.

Definition forwarding_policy_default : PeerOverlayForwardingPolicy :=
  {| ofp_carrier := PeerAssistedOverlay; ofp_forbidden_markers := [] |}.

Definition forwarding_policy_validate (p : PeerOverlayForwardingPolicy) :
    result unit TransportError :=
  check carrier_validate (ofp_carrier p) in
  check reject_policy (negb (bool_decide (ofp_carrier p = PeerAssistedOverlay)))
    "peer overlay forwarding requires peer-assisted overlay carrier" in
  each (λ m, reject_policy (bool_decide (m = []))
               "peer overlay forbidden plaintext marker must not be empty")
    (ofp_forbidden_markers p).

Definition assert_no_forbidden_markers (p : PeerOverlayForwardingPolicy) (b : bytes) :
    result unit TransportError :=
  each (λ m, reject_if (has_window m b) PlaintextLeak) (ofp_forbidden_markers p).

Record PeerOverlayForwardedHop := {
  ofh_hop_index : N;
  ofh_from : PeerOverlayPeerRef;
  ofh_to : PeerOverlayPeerRef;
  ofh_remaining_relay_hops : N;
  ofh_payload_kind : PeerOverlayPayloadKind;
  ofh_sequence : N;
  ofh_ack_id : bytes;
  ofh_loop_id : bytes;
  ofh_relay_visible_bytes : bytes
}.

Record PeerOverlayForwardingPlan := {
  ofl_schema_version : N;
  ofl_relay_authorizations : list PeerOverlayRelayAuthorization;
  ofl_hops : list PeerOverlayForwardedHop;
  ofl_provider_application_relay_used : bool;
  ofl_decrypt_path_exposed : bool
}.

(** [u8::try_from] *)
Definition u8_try_from (n : nat) (detail : string) : result N TransportError :=
  check reject_policy (u8_max <? N.of_nat n) detail in Ok (N.of_nat n).

(** The loop over [peers.windows(2).enumerate()]; [index] counts the windows. *)
Fixpoint forwarded_hops (f : PeerOverlayFrame) (index : nat) (peers : list PeerOverlayPeerRef) :
    result (list PeerOverlayForwardedHop) TransportError :=
  match peers with
  | from :: ((to :: _) as rest) =>
      let* hop_index := u8_try_from index "peer overlay forwarding hop index overflow" in
      let* entered := u8_try_from (S index `min` length (ovr_relay_path (ovf_route f)))
                        "peer overlay relay hop count overflow" in
      let* hops := forwarded_hops f (S index) rest in
      Ok ({| ofh_hop_index := hop_index; ofh_from := from; ofh_to := to;
             ofh_remaining_relay_hops := ovt_remaining_hops (ovr_ttl (ovf_route f)) - entered;
             ofh_payload_kind := ovo_kind (ovf_payload f);
             ofh_sequence := ovo_sequence (ovf_payload f);
             ofh_ack_id := ovy_ack_id (ovf_delivery f);
             ofh_loop_id := ovr_loop_id (ovf_route f);
             ofh_relay_visible_bytes := overlay_visible_bytes (ovf_payload f) |} :: hops)
  | _ => Ok []
  end.

Definition build_peer_overlay_forwarding_plan (s : PeerOverlayAdmittedSet)
    (t : PeerOverlayRelayAuthoritySet) (p : PeerOverlayForwardingPolicy) (f : PeerOverlayFrame) :
    result PeerOverlayForwardingPlan TransportError :=
  check forwarding_policy_validate p in
  check reject_policy (negb (bool_decide (ovf_carrier f = PeerAssistedOverlay)))
    "peer overlay forwarding only accepts peer-assisted overlay frames" in
  check reject_policy (bool_decide (ovo_kind (ovf_payload f) = PoStoreForward))
    "peer overlay forwarding supports text/control and media frames only" in
  let* zs := validate_relay_authorized s t f in
  let* relay_hop_count := u8_try_from (length (ovr_relay_path (ovf_route f)))
                            "peer overlay relay path exceeds supported hop count" in
  check reject_policy (ovt_remaining_hops (ovr_ttl (ovf_route f)) <? relay_hop_count)
    "peer overlay forwarding TTL is insufficient for relay path" in
  check assert_no_forbidden_markers p (overlay_visible_bytes (ovf_payload f)) in
  let* hops := forwarded_hops f 0
    (ovr_source (ovf_route f) :: ovr_relay_path (ovf_route f) ++ [ovr_destination (ovf_route f)]) in
  Ok {| ofl_schema_version := ovf_schema_version f; ofl_relay_authorizations := zs;
        ofl_hops := hops; ofl_provider_application_relay_used := false;
        ofl_decrypt_path_exposed := false |}.

(** ** Failover *)

Inductive PeerOverlayRedeliveryAttemptStatus := PoInFlight | PoFailed | PoAcked.

#[export] Instance PeerOverlayRedeliveryAttemptStatus_eq_dec :
  EqDecision PeerOverlayRedeliveryAttemptStatus.
Proof. solve_decision. Defined.

Record PeerOverlayRedeliveryAttemptEvidence := {
  oae_ack_id : bytes;
  oae_loop_id : bytes;
  oae_sequence : N;
  oae_attempt_number : N;
  oae_status : PeerOverlayRedeliveryAttemptStatus
}.

Record PeerOverlayRelayFailureEvidence := {
  ofe_relay : PeerOverlayPeerRef;
  ofe_observed_at_ms : N;
  ofe_route_label : string
}.

Record PeerOverlayRedeliveryFailoverInput := {
  ofi_frame : PeerOverlayFrame;
  ofi_failed_relays : list PeerOverlayRelayFailureEvidence;
  ofi_direct_pair : option PeerOverlayRouteLegEvidence;
  ofi_configured_turn_pair : option PeerOverlayRouteLegEvidence;
  ofi_ranked_relays : list PeerOverlayRankedRelayCandidate;
  ofi_relay_routes : list PeerOverlayRelayRouteEvidence;
  ofi_prior_attempts : list PeerOverlayRedeliveryAttemptEvidence;
  ofi_next_attempt_number : N;
  ofi_now_ms : N;
  ofi_target_reroute_ms : N
}.

Record PeerOverlayRedeliveryFailoverPlan := {
  orp_attempt_number : N;
  orp_route_selection : PeerOverlayRouteSelection;
  orp_forwarding_plan : option PeerOverlayForwardingPlan;
  orp_preserved_ack_id : bytes;
  orp_preserved_loop_id : bytes;
  orp_preserved_sequence : N;
  orp_preserved_payload_kind : PeerOverlayPayloadKind;
  orp_protected_frame_retained : bool;
  orp_provider_application_relay_used : bool;
  orp_rerouted_within_target_ms : bool;
  orp_limitation : string
}.

(** Whether a prior attempt is for this frame. *)
Definition same_delivery (f : PeerOverlayFrame) (e : PeerOverlayRedeliveryAttemptEvidence) : bool :=
  bool_decide (oae_ack_id e = ovy_ack_id (ovf_delivery f))
  && bool_decide (oae_loop_id e = ovr_loop_id (ovf_route f))
  && (oae_sequence e =? ovo_sequence (ovf_payload f)).

Definition reject_stale_redelivery_replay (i : PeerOverlayRedeliveryFailoverInput) :
    result unit TransportError :=
  each (λ e,
    check ack_id_validate (oae_ack_id e) in
    check loop_id_validate (oae_loop_id e) in
    if negb (same_delivery (ofi_frame i) e) then Ok tt
    else
      check reject_policy (bool_decide (oae_status e = PoAcked))
        "peer overlay redelivery rejects replay after destination ack" in
      reject_policy (ofi_next_attempt_number i <=? oae_attempt_number e)
        "peer overlay redelivery rejects stale non-increasing attempt replay")
    (ofi_prior_attempts i).

(** The loop over the failures: the ids of the failed relays and whether every failure was
    observed within the target. *)
Fixpoint failed_relays_loop (s : PeerOverlayAdmittedSet) (i : PeerOverlayRedeliveryFailoverInput)
    (l : list PeerOverlayRelayFailureEvidence) (ids : gset string) (within : bool) :
    result (gset string * bool) TransportError :=
  match l with
  | [] => Ok (ids, within)
  | e :: rest =>
      check validate_ref s (ofe_relay e) in
      check validate_label (ofe_route_label e) "peer overlay failed relay route evidence label" in
      check reject_policy
        (ofe_observed_at_ms e <? ovt_created_at_ms (ovr_ttl (ovf_route (ofi_frame i))))
        "peer overlay failed relay evidence predates frame creation" in
      check reject_policy (ofi_now_ms i <? ofe_observed_at_ms e)
        "peer overlay redelivery time predates failure evidence" in
      failed_relays_loop s i rest ({[ovp_peer_id (ofe_relay e)]} ∪ ids)
        (if ofi_target_reroute_ms i <? ofi_now_ms i - ofe_observed_at_ms e then false else within)
  end.

Definition frame_with_relay (f : PeerOverlayFrame) (relay : PeerOverlayPeerRef) : PeerOverlayFrame :=
  {| ovf_schema_version := ovf_schema_version f; ovf_carrier := PeerAssistedOverlay;
     ovf_route := {| ovr_source := ovr_source (ovf_route f); ovr_relay_path := [relay];
                     ovr_destination := ovr_destination (ovf_route f);
                     ovr_ttl := ovr_ttl (ovf_route f); ovr_loop_id := ovr_loop_id (ovf_route f) |};
     ovf_auth := ovf_auth f; ovf_delivery := ovf_delivery f; ovf_payload := ovf_payload f |}.

Definition plan_peer_overlay_redelivery_failover (s : PeerOverlayAdmittedSet)
    (t : PeerOverlayRelayAuthoritySet) (order : PeerOverlayConfiguredTurnOrder)
    (p : PeerOverlayForwardingPolicy) (i : PeerOverlayRedeliveryFailoverInput) :
    result PeerOverlayRedeliveryFailoverPlan TransportError :=
  let f := ofi_frame i in
  check forwarding_policy_validate p in
  let* _z := validate_relay_authorized s t f in
  check reject_policy (negb (bool_decide (ovy_ack_mode (ovf_delivery f) = AckRequired)))
    "peer overlay redelivery failover requires destination ack mode" in
  check reject_policy (ofi_next_attempt_number i =? 0)
    "peer overlay redelivery attempt number must be non-zero" in
  check reject_policy
    (ovd_max_attempts (ovy_redelivery (ovf_delivery f)) <? ofi_next_attempt_number i)
    "peer overlay redelivery attempt exceeds frame retry policy" in
  check reject_policy
    ((ovd_deadline_ms (ovy_redelivery (ovf_delivery f)) <? ofi_now_ms i)
     || (ovt_expires_at_ms (ovr_ttl (ovf_route f)) <? ofi_now_ms i))
    "peer overlay redelivery deadline has expired" in
  check reject_policy (bool_decide (length (ofi_failed_relays i) = 0%nat))
    "peer overlay redelivery failover requires failed relay evidence" in
  check reject_stale_redelivery_replay i in
  let* failed := failed_relays_loop s i (ofi_failed_relays i) ∅ true in
  let '(ids, within) := failed in
  check reject_policy (negb within) "peer overlay redelivery reroute exceeded target window" in
  let* selection := select_peer_overlay_route s (ovf_auth f) order
    {| osi_source := ovr_source (ovf_route f); osi_destination := ovr_destination (ovf_route f);
       osi_direct_pair := ofi_direct_pair i;
       osi_configured_turn_pair := ofi_configured_turn_pair i;
       osi_ranked_relays := filter (λ r, ovp_peer_id (ovn_relay r) ∉ ids) (ofi_ranked_relays i);
       osi_relay_routes := filter (λ r, ovp_peer_id (ore_relay r) ∉ ids) (ofi_relay_routes i) |} in
  let* plan :=
    match ors_selected selection with
    | SelPeerAssisted relay _ _ _ =>
        let* plan := build_peer_overlay_forwarding_plan s t p (frame_with_relay f relay) in
        Ok (Some plan)
    | SelDirectWebRtc e | SelConfiguredTurn e =>
        check carrier_validate (ole_carrier e) in Ok None
    end in
  Ok {| orp_attempt_number := ofi_next_attempt_number i; orp_route_selection := selection;
        orp_forwarding_plan := plan;
        orp_preserved_ack_id := ovy_ack_id (ovf_delivery f);
        orp_preserved_loop_id := ovr_loop_id (ovf_route f);
        orp_preserved_sequence := ovo_sequence (ovf_payload f);
        orp_preserved_payload_kind := ovo_kind (ovf_payload f);
        orp_protected_frame_retained := true; orp_provider_application_relay_used := false;
        orp_rerouted_within_target_ms := within;
        orp_limitation :=
          "local model redelivery/failover evidence only; not runtime delivery or production route proof" |}.

(** ** Lemmas: selection *)

Lemma select_last_snoc l t :
  select_last (l ++ [t]) = Ok (l ++ [{| ora_carrier := ora_carrier t; ora_selected := true |}]).
Proof.
  unfold select_last. destruct (l ++ [t]) as [|x k] eqn:E; [by destruct l|].
  rewrite <- E, length_app. simpl. rewrite Nat.add_1_r. simpl.
  rewrite <- (Nat.add_0_r (length l)), alter_app_r. done.
Qed.

(** The candidate the policy prefers: the first kind there is evidence for. *)
Inductive RouteCandidate :=
| PrefDirect (e : PeerOverlayRouteLegEvidence)
| PrefTurn (e : PeerOverlayRouteLegEvidence)
| PrefRelay (r : PeerOverlayRankedRelayCandidate)
| PrefNone.

Definition preferred (order : PeerOverlayConfiguredTurnOrder) (i : PeerOverlayRouteSelectionInput) :
    RouteCandidate :=
  match osi_direct_pair i, order, osi_configured_turn_pair i, osi_ranked_relays i with
  | Some e, _, _, _ => PrefDirect e
  | None, BeforePeerRelay, Some e, _ => PrefTurn e
  | None, AfterPeerRelay, Some e, [] => PrefTurn e
  | None, _, _, r :: _ => PrefRelay r
  | None, _, None, [] => PrefNone
  end.

(** A candidate is taken exactly when its evidence validates. *)
Definition take_candidate (s : PeerOverlayAdmittedSet) (a : PeerOverlayAuth)
    (i : PeerOverlayRouteSelectionInput) (c : RouteCandidate) :
    result PeerOverlaySelectedRoute TransportError :=
  match c with
  | PrefDirect e =>
      check validate_pair s (osi_source i) (osi_destination i) DirectWebRtcDataChannel
        "peer overlay direct route evidence" e in Ok (SelDirectWebRtc e)
  | PrefTurn e =>
      check validate_pair s (osi_source i) (osi_destination i) ConfiguredTurnBackedWebRtc
        "peer overlay configured TURN route evidence" e in Ok (SelConfiguredTurn e)
  | PrefRelay r =>
      check validate_ref s (ovn_relay r) in
      check authorization_validate_for (ovn_authorization r) (ovn_relay r) a in
      check reject_policy
        (bool_decide (ovp_peer_id (ovn_relay r) = ovp_peer_id (osi_source i))
         || bool_decide (ovp_peer_id (ovn_relay r) = ovp_peer_id (osi_destination i)))
        "peer overlay selected relay cannot be source or destination" in
      let* e := ok_or
        (head (filter (λ x, ovp_peer_id (ore_relay x) = ovp_peer_id (ovn_relay r))
                 (osi_relay_routes i)))
        (InvalidConnectivityPolicy
           "peer overlay selected relay requires source and destination live route legs") in
      check relay_route_validate_for s (osi_source i) (osi_destination i) e in
      Ok (SelPeerAssisted (ovn_relay r) (ovn_authorization r) (ovn_score r) e)
  | PrefNone => Err NoViablePath
  end.

Lemma rmap_rbind {A B C E} (g : B → C) (m : result A E) (f : A → result B E) :
  rmap g (rbind m f) = rbind m (λ a, rmap g (f a)).
Proof. by destruct m. Qed.

Lemma try_peer_relay_some s a i l r rest :
  osi_ranked_relays i = r :: rest →
  rmap ors_selected (try_peer_relay s a i l) = take_candidate s a i (PrefRelay r).
Proof.
  intros Hr. unfold try_peer_relay. rewrite Hr, select_last_snoc. simpl.
  rewrite ?rmap_rbind.
  destruct (validate_ref s (ovn_relay r)); [|done]. simpl. rewrite ?rmap_rbind.
  destruct (authorization_validate_for _ _ _); [|done]. simpl. rewrite ?rmap_rbind.
  destruct (reject_policy _ _); [|done]. simpl. rewrite ?rmap_rbind.
  destruct (ok_or _ _); [|done]. simpl. rewrite ?rmap_rbind. done.
Qed.

(** Every failing check of this module is a policy error; only an empty relay list is
    [NoViablePath]. *)
Definition viable {A} (m : result A TransportError) : Prop := m ≠ Err NoViablePath.

Lemma viable_bind {A B} (m : result A TransportError) (f : A → result B TransportError) :
  viable m → (∀ a, viable (f a)) → viable (rbind m f).
Proof. unfold viable. destruct m; simpl; naive_solver. Qed.

Lemma viable_reject fails detail : viable (reject_policy fails detail).
Proof. by destruct fails. Qed.

Lemma viable_ok {A} (x : A) : viable (Ok x).
Proof. done. Qed.

Lemma viable_policy {A} (o : option A) detail : viable (ok_or o (InvalidConnectivityPolicy detail)).
Proof. by destruct o. Qed.

Create HintDb viable.
#[local] Hint Resolve viable_reject viable_ok viable_policy : viable.

Ltac viable_steps :=
  repeat first [solve [auto with viable] | apply viable_bind; [|intros ?]].

Lemma viable_label value label : viable (validate_label value label).
Proof. apply viable_reject. Qed.

#[local] Hint Resolve viable_label : viable.

Lemma viable_ref s p : viable (validate_ref s p).
Proof. unfold validate_ref, validate_shape. viable_steps. by destruct (_ !! _); auto with viable. Qed.

#[local] Hint Resolve viable_ref : viable.

Lemma viable_leg s from to label e : viable (validate_relay_leg s from to label e).
Proof. unfold validate_relay_leg, carrier_validate. viable_steps. Qed.

#[local] Hint Resolve viable_leg : viable.

Lemma viable_source o : viable (authority_source_validate o).
Proof. destruct o; simpl; viable_steps. Qed.

#[local] Hint Resolve viable_source : viable.

Lemma viable_authorization z p a : viable (authorization_validate_for z p a).
Proof.
  unfold authorization_validate_for, validate_nonzero_32. viable_steps.
Qed.

#[local] Hint Resolve viable_authorization : viable.

Lemma viable_relay s a i r : viable (take_candidate s a i (PrefRelay r)).
Proof.
  simpl. viable_steps.
Qed.

(** ** Lemmas: forwarding *)

Definition hop_of (f : PeerOverlayFrame) (index : nat) (from to : PeerOverlayPeerRef) :
    PeerOverlayForwardedHop :=
  {| ofh_hop_index := N.of_nat index; ofh_from := from; ofh_to := to;
     ofh_remaining_relay_hops :=
       ovt_remaining_hops (ovr_ttl (ovf_route f))
       - N.of_nat (S index `min` length (ovr_relay_path (ovf_route f)));
     ofh_payload_kind := ovo_kind (ovf_payload f); ofh_sequence := ovo_sequence (ovf_payload f);
     ofh_ack_id := ovy_ack_id (ovf_delivery f); ofh_loop_id := ovr_loop_id (ovf_route f);
     ofh_relay_visible_bytes := overlay_visible_bytes (ovf_payload f) |}.

Fixpoint hops_of (f : PeerOverlayFrame) (index : nat) (peers : list PeerOverlayPeerRef) :
    list PeerOverlayForwardedHop :=
  match peers with
  | from :: ((to :: _) as rest) => hop_of f index from to :: hops_of f (S index) rest
  | _ => []
  end.

Lemma u8_try_from_ok n d : (n < 256)%nat → u8_try_from n d = Ok (N.of_nat n).
Proof.
  intros Hn. unfold u8_try_from, u8_max. change (2 ^ 8 - 1) with 255.
  rewrite (proj2 (N.ltb_ge _ _)) by lia. done.
Qed.

Lemma forwarded_hops_total f k peers :
  (k + length peers ≤ 256)%nat → forwarded_hops f k peers = Ok (hops_of f k peers).
Proof.
  revert k. induction peers as [|from [|to rest] IH]; intros k Hk; [done..|].
  specialize (IH (S k)). cbn [forwarded_hops hops_of length] in *.
  rewrite (u8_try_from_ok k), (u8_try_from_ok (S k `min` _)) by lia. cbn [rbind].
  rewrite IH by lia. done.
Qed.

Lemma hops_of_lookup f k peers j :
  hops_of f k peers !! j =
  match peers !! j, peers !! S j with Some x, Some y => Some (hop_of f (k + j) x y) | _, _ => None end.
Proof.
  revert k j. induction peers as [|from [|to rest] IH]; intros k j; [done|by destruct j|].
  destruct j as [|j]; [by rewrite Nat.add_0_r|].
  change (hops_of f k (from :: to :: rest) !! S j) with (hops_of f (S k) (to :: rest) !! j).
  rewrite IH, Nat.add_succ_r. done.
Qed.

Lemma hops_of_froms f k x l y :
  ofh_from <$> hops_of f k (x :: l ++ [y]) = x :: l ∧
  ofh_to <$> hops_of f k (x :: l ++ [y]) = l ++ [y].
Proof.
  revert k x. induction l as [|z l IH]; intros k x; [done|]. destruct (IH (S k) z) as [H1 H2].
  change ((z :: l) ++ [y]) with (z :: l ++ [y]) in *.
  change (hops_of f k (x :: z :: l ++ [y])) with (hop_of f k x z :: hops_of f (S k) (z :: l ++ [y])).
  rewrite !fmap_cons, H1, H2. done.
Qed.

(** The conditions of a forwarding plan. *)
Definition forwardable (s : PeerOverlayAdmittedSet) (t : PeerOverlayRelayAuthoritySet)
    (p : PeerOverlayForwardingPolicy) (f : PeerOverlayFrame)
    (zs : list PeerOverlayRelayAuthorization) : Prop :=
  forwarding_policy_validate p = Ok tt ∧ ovf_carrier f = PeerAssistedOverlay ∧
  ovo_kind (ovf_payload f) ≠ PoStoreForward ∧ validate_relay_authorized s t f = Ok zs ∧
  N.of_nat (length (ovr_relay_path (ovf_route f))) ≤ ovt_remaining_hops (ovr_ttl (ovf_route f)) ∧
  Forall (λ m, has_window m (overlay_visible_bytes (ovf_payload f)) = false) (ofp_forbidden_markers p).

Definition plan_of (f : PeerOverlayFrame) (zs : list PeerOverlayRelayAuthorization) :
    PeerOverlayForwardingPlan :=
  {| ofl_schema_version := ovf_schema_version f; ofl_relay_authorizations := zs;
     ofl_hops := hops_of f 0 (route_peers (ovf_route f));
     ofl_provider_application_relay_used := false; ofl_decrypt_path_exposed := false |}.

Lemma forwarding_plan_ok s t p f plan :
  build_peer_overlay_forwarding_plan s t p f = Ok plan ↔
  ∃ zs, forwardable s t p f zs ∧ plan = plan_of f zs.
Proof.
  unfold build_peer_overlay_forwarding_plan, forwardable. ok_simpl.
  assert (∀ zs, validate_relay_authorized s t f = Ok zs →
     (N.of_nat (length (ovr_relay_path (ovf_route f))) ≤ 3)) as Hlen.
  { intros zs (_ & Hr & _)%validate_relay_authorized_ok.
    apply route_validate_path in Hr as (_ & _ & _ & [_ H]). exact H. }
  destruct (validate_relay_authorized s t f) as [zs|e]; cbn [rbind]; [|naive_solver].
  specialize (Hlen zs eq_refl). fold (route_peers (ovf_route f)).
  rewrite forwarded_hops_total by (unfold route_peers; simpl; rewrite length_app; simpl; lia).
  rewrite u8_try_from_ok by lia. cbn [rbind]. ok_simpl. unfold assert_no_forbidden_markers. rewrite each_ok.
  setoid_rewrite reject_if_ok. fold (plan_of f zs).
  split; [intros (? & ? & ? & ? & ? & [= <-]); exists zs; naive_solver|].
  intros (zs' & (? & ? & ? & [= <-] & ? & ?) & ->). done.
Qed.

(** ** Lemmas: failover *)

Lemma failed_relays_loop_ok s i l ids within ids' within' :
  failed_relays_loop s i l ids within = Ok (ids', within') →
  (∀ e, e ∈ l → ovp_peer_id (ofe_relay e) ∈ ids') ∧ ids ⊆ ids' ∧
  (within' = true →
     within = true ∧
     ∀ e, e ∈ l → ofe_observed_at_ms e ≤ ofi_now_ms i ≤ ofe_observed_at_ms e + ofi_target_reroute_ms i).
Proof.
  revert ids within. induction l as [|e l IH]; intros ids within; simpl.
  { intros [= -> ->]. set_solver. }
  ok_simpl. intros (_ & _ & _ & Hnow & Hl). apply IH in Hl as (Hin & Hsub & Hw).
  split_and!; [set_solver..|]. intros Ht. destruct (Hw Ht) as [Hif Hall].
  destruct (N.ltb_spec (ofi_target_reroute_ms i) (ofi_now_ms i - ofe_observed_at_ms e)); [done|].
  split; [done|]. intros x [->|Hx]%elem_of_cons; [lia|auto].
Qed.

Lemma reject_stale_ok i :
  reject_stale_redelivery_replay i = Ok tt →
  ∀ e, e ∈ ofi_prior_attempts i → same_delivery (ofi_frame i) e = true →
    oae_status e ≠ PoAcked ∧ oae_attempt_number e < ofi_next_attempt_number i.
Proof.
  unfold reject_stale_redelivery_replay. rewrite each_ok, Forall_forall. intros Hall e He Hs.
  specialize (Hall e He). revert Hall. ok_simpl. rewrite Hs. simpl. ok_simpl. naive_solver.
Qed.

Definition selection_input (ids : gset string) (i : PeerOverlayRedeliveryFailoverInput) :
    PeerOverlayRouteSelectionInput :=
  {| osi_source := ovr_source (ovf_route (ofi_frame i));
     osi_destination := ovr_destination (ovf_route (ofi_frame i));
     osi_direct_pair := ofi_direct_pair i;
     osi_configured_turn_pair := ofi_configured_turn_pair i;
     osi_ranked_relays := filter (λ r, ovp_peer_id (ovn_relay r) ∉ ids) (ofi_ranked_relays i);
     osi_relay_routes := filter (λ r, ovp_peer_id (ore_relay r) ∉ ids) (ofi_relay_routes i) |}.

(** What an accepted failover has checked. *)
Lemma failover_ok s t order p i plan :
  plan_peer_overlay_redelivery_failover s t order p i = Ok plan →
  ∃ ids,
    1 ≤ ofi_next_attempt_number i ≤ ovd_max_attempts (ovy_redelivery (ovf_delivery (ofi_frame i))) ∧
    ofi_now_ms i ≤ ovd_deadline_ms (ovy_redelivery (ovf_delivery (ofi_frame i))) ∧
    reject_stale_redelivery_replay i = Ok tt ∧
    failed_relays_loop s i (ofi_failed_relays i) ∅ true = Ok (ids, true) ∧
    select_peer_overlay_route s (ovf_auth (ofi_frame i)) order (selection_input ids i)
      = Ok (orp_route_selection plan) ∧
    match ors_selected (orp_route_selection plan) with
    | SelPeerAssisted r _ _ _ =>
        ∃ fwd, orp_forwarding_plan plan = Some fwd ∧
          build_peer_overlay_forwarding_plan s t p (frame_with_relay (ofi_frame i) r) = Ok fwd
    | _ => orp_forwarding_plan plan = None
    end ∧
    orp_attempt_number plan = ofi_next_attempt_number i ∧
    orp_preserved_ack_id plan = ovy_ack_id (ovf_delivery (ofi_frame i)) ∧
    orp_preserved_loop_id plan = ovr_loop_id (ovf_route (ofi_frame i)) ∧
    orp_preserved_sequence plan = ovo_sequence (ovf_payload (ofi_frame i)).
Proof.
  unfold plan_peer_overlay_redelivery_failover. cbv zeta. ok_simpl. intros [_ H].
  apply rbind_ok in H as (zs & _ & H). revert H. ok_simpl.
  intros (_ & Hn0 & Hmax & [Hdl _] & _ & Hst & H). apply rbind_ok in H as ([ids w] & Hl & H).
  revert H. ok_simpl. intros [Hw H]. subst w. apply rbind_ok in H as (sel & Hsel & H).
  apply rbind_ok in H as (fwd & Hfwd & [= <-]). exists ids. simpl.
  split_and!; try done; [lia|]. destruct (ors_selected sel).
  - apply check_ok in Hfwd as [_ [= <-]]. done.
  - apply check_ok in Hfwd as [_ [= <-]]. done.
  - apply rbind_ok in Hfwd as (x & Hx & [= <-]). by exists x.
Qed.

(** What makes a selected route acceptable for a pair of peers. *)
Definition leg_ok (s : PeerOverlayAdmittedSet) (from to : PeerOverlayPeerRef)
    (e : PeerOverlayRouteLegEvidence) : Prop :=
  ole_from e = from ∧ ole_to e = to ∧ ole_live e = true ∧
  (ole_carrier e = DirectWebRtcDataChannel ∨ ole_carrier e = ConfiguredTurnBackedWebRtc) ∧
  validate_ref s from = Ok tt ∧ validate_ref s to = Ok tt.

Definition route_ok (s : PeerOverlayAdmittedSet) (a : PeerOverlayAuth)
    (source destination : PeerOverlayPeerRef) (r : PeerOverlaySelectedRoute) : Prop :=
  match r with
  | SelDirectWebRtc e =>
      leg_ok s source destination e ∧ ole_carrier e = DirectWebRtcDataChannel
  | SelConfiguredTurn e =>
      leg_ok s source destination e ∧ ole_carrier e = ConfiguredTurnBackedWebRtc
  | SelPeerAssisted relay z _ e =>
      authorization_validate_for z relay a = Ok tt ∧ ore_relay e = relay ∧
      ovp_peer_id relay ≠ ovp_peer_id source ∧ ovp_peer_id relay ≠ ovp_peer_id destination ∧
      leg_ok s source relay (ore_source_to_relay e) ∧
      leg_ok s relay destination (ore_relay_to_destination e)
  end.

Lemma validate_pair_leg s from to c label e :
  (c = DirectWebRtcDataChannel ∨ c = ConfiguredTurnBackedWebRtc) →
  validate_pair s from to c label e = Ok tt → leg_ok s from to e ∧ ole_carrier e = c.
Proof.
  unfold validate_pair, leg_ok. ok_simpl. intros Hc (? & ? & _ & _ & [<- <-] & -> & ?). done.
Qed.

Lemma validate_relay_leg_ok s from to label e :
  validate_relay_leg s from to label e = Ok tt → leg_ok s from to e.
Proof.
  unfold validate_relay_leg, leg_ok. ok_simpl. intros (? & ? & _ & _ & [<- <-] & Hc & ?).
  split_and!; try done. destruct (ole_carrier e); naive_solver.
Qed.

Lemma take_candidate_ok s a i c r :
  take_candidate s a i c = Ok r → route_ok s a (osi_source i) (osi_destination i) r.
Proof.
  destruct c as [e|e|k|]; simpl.
  - ok_simpl. intros [He [= <-]]. simpl. eapply validate_pair_leg; eauto.
  - ok_simpl. intros [He [= <-]]. simpl. eapply validate_pair_leg; eauto.
  - ok_simpl. intros (Hk & Hz & [Hs Hd] & H). apply rbind_ok in H as (e & He & H).
    apply ok_or_ok in He. apply check_ok in H as [Hr [= <-]]. simpl.
    revert Hr. unfold relay_route_validate_for. ok_simpl. intros (Hre & _ & H1 & H2 & _).
    apply head_Some_elem_of, list_elem_of_filter in He as [Hid _].
    assert (ore_relay e = ovn_relay k) as Hrel.
    { apply validate_ref_ok in Hre as (_ & _ & _ & Hre), Hk as (_ & _ & _ & Hk).
      rewrite Hid in Hre. congruence. }
    rewrite Hrel in *. split_and!; try done; by eapply validate_relay_leg_ok.
  - done.
Qed.

Definition selection_gate (s : PeerOverlayAdmittedSet) (a : PeerOverlayAuth)
    (i : PeerOverlayRouteSelectionInput) : result unit TransportError :=
  check auth_validate s a in
  check validate_ref s (osi_source i) in
  check validate_ref s (osi_destination i) in
  reject_policy (bool_decide (ovp_peer_id (osi_source i) = ovp_peer_id (osi_destination i)))
    "peer overlay route selection source and destination must differ".

Lemma select_is_preferred s a order i :
  rmap ors_selected (select_peer_overlay_route s a order i) =
  (check selection_gate s a i in take_candidate s a i (preferred order i)).
Proof.
  unfold select_peer_overlay_route, selection_gate.
  destruct (auth_validate s a); [|done]. destruct (validate_ref s (osi_source i)); [|done].
  destruct (validate_ref s (osi_destination i)); [|done].
  cbn [rbind]. destruct (reject_policy _ _); [|done]. cbn [rbind rmap]. unfold preferred.
  destruct (osi_direct_pair i) as [e|] eqn:Hd; [by rewrite rmap_rbind|].
  assert (∀ l e, rmap (option_map ors_selected) (try_configured_turn s i l (Some e)).2
                 = rmap Some (take_candidate s a i (PrefTurn e))) as Hturn.
  { intros l e. unfold try_configured_turn. rewrite select_last_snoc. simpl.
    by destruct (validate_pair _ _ _ _ _ _). }
  destruct order.
  - destruct (osi_configured_turn_pair i) as [e|].
    + specialize (Hturn [attempt DirectWebRtcDataChannel] e).
      destruct (try_configured_turn _ _ _ _) as [l [[x|]|]]; cbn [rbind rmap snd option_map] in *;
        destruct (take_candidate s a i (PrefTurn e)); naive_solver.
    + cbn [try_configured_turn rbind]. destruct (osi_ranked_relays i) as [|r l] eqn:Hr.
      * unfold try_peer_relay. by rewrite Hr.
      * by apply (try_peer_relay_some _ _ _ _ _ l).
  - destruct (osi_ranked_relays i) as [|r l] eqn:Hr.
    + unfold try_peer_relay. rewrite Hr. cbn [head ok_or rbind].
      destruct (osi_configured_turn_pair i) as [e|]; [|done].
      specialize (Hturn [attempt DirectWebRtcDataChannel] e).
      destruct (try_configured_turn _ _ _ _) as [k [[x|]|]]; cbn [rbind rmap snd option_map ok_or] in *;
        destruct (take_candidate s a i (PrefTurn e)); naive_solver.
    + pose proof (try_peer_relay_some s a i [attempt DirectWebRtcDataChannel] r l Hr) as Hp.
      pose proof (viable_relay s a i r) as Hv. unfold viable in Hv.
      transitivity (take_candidate s a i (PrefRelay r)); [|by destruct (osi_configured_turn_pair i)].
      rewrite <- Hp in *. destruct (try_peer_relay _ _ _ _) as [x|e]; [done|].
      cbn [rmap] in *. by destruct e.
Qed.

Lemma route_selection_taken s a order i sel :
  select_peer_overlay_route s a order i = Ok sel →
  take_candidate s a i (preferred order i) = Ok (ors_selected sel).
Proof.
  intros Hs. pose proof (select_is_preferred s a order i) as Hp. rewrite Hs in Hp.
  symmetry in Hp. by apply check_ok in Hp as [_ Hp].
Qed.

Lemma relay_not_failed s a order i ids r z sc ev :
  take_candidate s a (selection_input ids i) (preferred order (selection_input ids i))
    = Ok (SelPeerAssisted r z sc ev) →
  ovp_peer_id r ∉ ids.
Proof.
  assert (∀ k, k ∈ osi_ranked_relays (selection_input ids i) → ovp_peer_id (ovn_relay k) ∉ ids) as Hk
    by (intros k [? _]%list_elem_of_filter; done).
  assert (∀ k, preferred order (selection_input ids i) = PrefRelay k →
     k ∈ osi_ranked_relays (selection_input ids i)) as Hpref.
  { unfold preferred. intros k. repeat case_match; intros [= <-]; by left. }
  destruct (preferred order (selection_input ids i)) as [e|e|k|]; cbn [take_candidate].
  1,2: intros [_ [=]]%check_ok.
  - specialize (Hpref k eq_refl). intros [_ H]%check_ok. apply check_ok in H as [_ H].
    apply check_ok in H as [_ H]. apply rbind_ok in H as (e & _ & [_ [= <- _ _ _]]%check_ok). auto.
  - done.
Qed.

(** The evidence an accepted attempt leaves for the next ones. *)
Definition attempt_evidence (i : PeerOverlayRedeliveryFailoverInput)
    (st : PeerOverlayRedeliveryAttemptStatus) : PeerOverlayRedeliveryAttemptEvidence :=
  {| oae_ack_id := ovy_ack_id (ovf_delivery (ofi_frame i));
     oae_loop_id := ovr_loop_id (ovf_route (ofi_frame i));
     oae_sequence := ovo_sequence (ovf_payload (ofi_frame i));
     oae_attempt_number := ofi_next_attempt_number i; oae_status := st |}.

Lemma same_delivery_own i st : same_delivery (ofi_frame i) (attempt_evidence i st) = true.
Proof. unfold same_delivery. simpl. by rewrite !bool_decide_true, N.eqb_refl. Qed.

(** A run of failovers of one frame: each is accepted, in whatever admitted set and authority
    hold at the time, and knows the attempts before it. *)
Inductive failover_run (f : PeerOverlayFrame) : list PeerOverlayRedeliveryFailoverInput → Prop :=
| run_nil : failover_run f []
| run_snoc l i s t order p plan :
    failover_run f l → ofi_frame i = f →
    plan_peer_overlay_redelivery_failover s t order p i = Ok plan →
    (∀ j, j ∈ l → ∃ st, attempt_evidence j st ∈ ofi_prior_attempts i) →
    failover_run f (l ++ [i]).

Lemma failover_run_numbers f l :
  failover_run f l →
  Forall (λ i, ofi_frame i = f) l ∧
  N.of_nat (length l) ≤ ovd_max_attempts (ovy_redelivery (ovf_delivery f)) ∧
  ∀ i, last l = Some i →
    N.of_nat (length l) ≤ ofi_next_attempt_number i.
Proof.
  induction 1 as [|l i s t order p plan Hrun (Hf & Hm & Hlast) Hi Hplan Hprior].
  { split_and!; [done|simpl; lia|done]. }
  apply failover_ok in Hplan as (ids & Hn & _ & Hst & _).
  assert (N.of_nat (length (l ++ [i])) ≤ ofi_next_attempt_number i) as Hlen.
  { rewrite length_app. simpl. destruct (last l) as [j|] eqn:Hj.
    - specialize (Hlast j eq_refl). assert (j ∈ l) as Hin by (by apply last_Some_elem_of).
      destruct (Hprior j Hin) as [st He]. rewrite Forall_forall in Hf.
      destruct (reject_stale_ok i Hst _ He) as [_ Hlt].
      { rewrite Hi, <- (Hf j Hin). apply same_delivery_own. }
      simpl in Hlt. lia.
    - apply last_None in Hj as ->. simpl. lia. }
  rewrite Hi in Hn. split_and!.
  - apply Forall_app; split; [done|by apply Forall_singleton].
  - lia.
  - intros k. rewrite last_snoc. intros [= <-]. done.
Qed.

(** ** Properties *)

(** Route selection takes the one route the policy prefers, or fails: direct evidence
    always comes first, then TURN and relay in the configured order, and evidence that is
    present but invalid is an error, never a reason to try the next kind. Whatever is
    selected is live, binds exactly the two peers over admitted refs of the current epoch, and
    runs over direct or TURN legs, never over a provider; a relay is authorized for the frame
    and is neither endpoint. *)
Theorem route_selection_takes_the_preferred s a order i :
  rmap ors_selected (select_peer_overlay_route s a order i) =
    (check selection_gate s a i in take_candidate s a i (preferred order i)) ∧
  ∀ sel, select_peer_overlay_route s a order i = Ok sel →
    route_ok s a (osi_source i) (osi_destination i) (ors_selected sel).
Proof.
  split; [apply select_is_preferred|]. intros sel Hs%route_selection_taken.
  by eapply take_candidate_ok.
Qed.

(** A forwarding plan is a simple path over authorized relays: it is produced exactly
    when policy, carrier, payload kind, frame, relay authority, TTL and audit markers allow
    it; its two to four hops lead from the source over the relay path to the destination
    without visiting a peer twice, hop [j] spends one relay of the TTL until the destination
    leg, and every hop carries the same ciphertext, sequence, ack and loop id of the frame. *)
Theorem forwarding_plan_is_a_simple_path s t p f :
  (is_ok (build_peer_overlay_forwarding_plan s t p f) = true ↔ ∃ zs, forwardable s t p f zs) ∧
  ∀ plan, build_peer_overlay_forwarding_plan s t p f = Ok plan →
    let r := ovf_route f in
    ofh_from <$> ofl_hops plan = ovr_source r :: ovr_relay_path r ∧
    ofh_to <$> ofl_hops plan = ovr_relay_path r ++ [ovr_destination r] ∧
    NoDup (ovp_peer_id <$> route_peers r) ∧ (2 ≤ length (ofl_hops plan) ≤ 4)%nat ∧
    Forall (λ q, validate_ref s q = Ok tt) (route_peers r) ∧
    ovz_relay <$> ofl_relay_authorizations plan = ovr_relay_path r ∧
    Forall (λ q, ova_authorized_relays t !! ovp_peer_id q = Some q) (ovr_relay_path r) ∧
    ∀ j h, ofl_hops plan !! j = Some h →
      ofh_hop_index h = N.of_nat j ∧
      ofh_remaining_relay_hops h + N.of_nat (S j `min` length (ovr_relay_path r))
        = ovt_remaining_hops (ovr_ttl r) ∧
      ofh_relay_visible_bytes h = overlay_visible_bytes (ovf_payload f) ∧
      ofh_sequence h = ovo_sequence (ovf_payload f) ∧
      ofh_ack_id h = ovy_ack_id (ovf_delivery f) ∧ ofh_loop_id h = ovr_loop_id r.
Proof.
  split.
  { destruct (build_peer_overlay_forwarding_plan s t p f) as [plan|e] eqn:E; simpl.
    - apply forwarding_plan_ok in E as (zs & Hz & _). naive_solver.
    - split; [done|]. intros [zs Hz]. exfalso.
      assert (build_peer_overlay_forwarding_plan s t p f = Ok (plan_of f zs)) as E'
        by (apply forwarding_plan_ok; eauto). congruence. }
  intros plan (zs & (_ & _ & _ & Hz & Httl & _) & ->)%forwarding_plan_ok r.
  apply validate_relay_authorized_ok in Hz as (_ & Hr & Hzs & Hauth).
  apply route_validate_path in Hr as (Hall & Hnd & _ & Hlen).
  destruct (hops_of_froms f 0 (ovr_source r) (ovr_relay_path r) (ovr_destination r)) as [Hf Ht].
  change (ofl_hops (plan_of f zs))
    with (hops_of f 0 (ovr_source r :: ovr_relay_path r ++ [ovr_destination r])).
  split_and!; try done.
  - rewrite <- (length_fmap ofh_from), Hf. simpl. unfold r. lia.
  - rewrite <- (length_fmap ofh_from), Hf. simpl. unfold r. lia.
  - intros j h. rewrite hops_of_lookup. simpl Nat.add. repeat case_match; [|done..].
    intros [= <-]. unfold hop_of. split_and!; try done. cbn [ofh_remaining_relay_hops]. unfold r. lia.
Qed.

(** Failover never goes back to a relay that failed and never repeats a delivery: an
    accepted plan keeps the frame's ack id, loop id and sequence, is within the attempt
    limit, the deadline and the reroute window, follows only unacknowledged attempts with
    smaller numbers, and, when it relays, does so over one authorized peer outside the failed
    set, with the frame's own ciphertext on both hops. *)
Theorem failover_avoids_failed_relays s t order p i plan :
  plan_peer_overlay_redelivery_failover s t order p i = Ok plan →
  let f := ofi_frame i in
  orp_preserved_ack_id plan = ovy_ack_id (ovf_delivery f) ∧
  orp_preserved_loop_id plan = ovr_loop_id (ovf_route f) ∧
  orp_preserved_sequence plan = ovo_sequence (ovf_payload f) ∧
  1 ≤ orp_attempt_number plan ≤ ovd_max_attempts (ovy_redelivery (ovf_delivery f)) ∧
  ofi_now_ms i ≤ ovd_deadline_ms (ovy_redelivery (ovf_delivery f)) ∧
  (∀ e, e ∈ ofi_prior_attempts i → same_delivery f e = true →
     oae_status e ≠ PoAcked ∧ oae_attempt_number e < orp_attempt_number plan) ∧
  (∀ e, e ∈ ofi_failed_relays i →
     ofe_observed_at_ms e ≤ ofi_now_ms i ≤ ofe_observed_at_ms e + ofi_target_reroute_ms i) ∧
  route_ok s (ovf_auth f) (ovr_source (ovf_route f)) (ovr_destination (ovf_route f))
    (ors_selected (orp_route_selection plan)) ∧
  match ors_selected (orp_route_selection plan) with
  | SelPeerAssisted r _ _ _ =>
      (∀ e, e ∈ ofi_failed_relays i → ovp_peer_id r ≠ ovp_peer_id (ofe_relay e)) ∧
      ova_authorized_relays t !! ovp_peer_id r = Some r ∧
      ∃ fwd, orp_forwarding_plan plan = Some fwd ∧
        ofh_from <$> ofl_hops fwd = [ovr_source (ovf_route f); r] ∧
        ofh_to <$> ofl_hops fwd = [r; ovr_destination (ovf_route f)] ∧
        Forall (λ h, ofh_relay_visible_bytes h = overlay_visible_bytes (ovf_payload f))
          (ofl_hops fwd)
  | _ => orp_forwarding_plan plan = None
  end.
Proof.
  intros (ids & Hn & Hdl & Hst & Hl & Hsel & Hfwd & -> & -> & -> & ->)%failover_ok f.
  apply failed_relays_loop_ok in Hl as (Hids & _ & Hw). destruct (Hw eq_refl) as [_ Hobs].
  apply route_selection_taken in Hsel as Hp. unfold f in *.
  pose proof (take_candidate_ok _ _ _ _ _ Hp) as Hrok.
  split_and!; try done; [lia..|by apply reject_stale_ok|].
  destruct (ors_selected (orp_route_selection plan)) as [e|e|r z sc ev]; [done..|].
  destruct Hfwd as (fwd & -> & (zs & (_ & _ & _ & Hz & _) & ->)%forwarding_plan_ok).
  apply validate_relay_authorized_ok in Hz as (_ & _ & _ & Hauth).
  simpl in Hauth. rewrite Forall_singleton in Hauth. split_and!; [|done|exists (plan_of (frame_with_relay (ofi_frame i) r) zs)].
  - intros e He Hid. apply (relay_not_failed s (ovf_auth (ofi_frame i)) order i ids r z sc ev Hp).
    rewrite Hid. by apply Hids.
  - split_and!; [done..|]. by repeat constructor.
Qed.

(** Redelivery of a frame ends: however the admitted set, the authority and the policies
    change in between, a run of accepted failovers in which each attempt is on record for the
    later ones has at most [max_attempts] attempts, and none is accepted once the record says
    that the destination acknowledged. *)
Theorem failover_attempts_are_bounded f l :
  failover_run f l →
  N.of_nat (length l) ≤ ovd_max_attempts (ovy_redelivery (ovf_delivery f)) ∧
  ∀ i s t order p, ofi_frame i = f →
    (∃ j, j ∈ l ∧ attempt_evidence j PoAcked ∈ ofi_prior_attempts i) →
    is_ok (plan_peer_overlay_redelivery_failover s t order p i) = false.
Proof.
  intros (Hf & Hm & _)%failover_run_numbers. split; [done|].
  intros i s t order p Hi (j & Hj & Hack).
  destruct (plan_peer_overlay_redelivery_failover s t order p i) as [plan|] eqn:E; [|done].
  apply failover_ok in E as (ids & _ & _ & Hst & _). rewrite Forall_forall in Hf.
  destruct (reject_stale_ok i Hst _ Hack) as [Hne _]; [|done].
  rewrite Hi, <- (Hf j Hj). apply same_delivery_own.
Qed.

(** When relays come first but none is ranked, the attempt list of the TURN route that is
    taken instead does not mention the relay attempt: [try_peer_relay] pushed it on a clone. *)
Theorem relay_first_attempts_omit_the_relay s a i sel :
  osi_direct_pair i = None → osi_ranked_relays i = [] →
  select_peer_overlay_route s a AfterPeerRelay i = Ok sel →
  ora_carrier <$> ors_attempts sel = [DirectWebRtcDataChannel; ConfiguredTurnBackedWebRtc].
Proof.
  intros Hd Hr. unfold select_peer_overlay_route. rewrite Hd. ok_simpl. intros (_ & _ & _ & _ & H).
  revert H. unfold try_peer_relay. rewrite Hr. cbn [head ok_or rbind]. unfold try_configured_turn.
  destruct (osi_configured_turn_pair i) as [e|]; [|done]. rewrite select_last_snoc.
  destruct (validate_pair _ _ _ _ _ _); cbn [rbind snd]; [|done]. by intros [= <-].
Qed.

(** ** Witnesses *)

Section witnesses.
Definition ex_leg (from to : string) (c : PeerOverlayCarrier) : PeerOverlayRouteLegEvidence :=
  {| ole_from := ex_ref from; ole_to := ex_ref to; ole_carrier := c; ole_route_label := "leg";
     ole_live := true |}.

Definition ex_relay_route (relay : string) : PeerOverlayRelayRouteEvidence :=
  {| ore_relay := ex_ref relay;
     ore_source_to_relay := ex_leg "alice" relay DirectWebRtcDataChannel;
     ore_relay_to_destination := ex_leg relay "bob" ConfiguredTurnBackedWebRtc |}.

(** The relay [dave] is gone; [carol] is next in the ranking. *)
Definition ex_failover (prior : list PeerOverlayRedeliveryAttemptEvidence) (n : N) :
    PeerOverlayRedeliveryFailoverInput :=
  {| ofi_frame := ex_frame [ex_ref "dave"];
     ofi_failed_relays := [{| ofe_relay := ex_ref "dave"; ofe_observed_at_ms := 100;
                              ofe_route_label := "leg" |}];
     ofi_direct_pair := None; ofi_configured_turn_pair := None;
     ofi_ranked_relays := ex_ranked;
     ofi_relay_routes := [ex_relay_route "dave"; ex_relay_route "carol"];
     ofi_prior_attempts := prior; ofi_next_attempt_number := n; ofi_now_ms := 200;
     ofi_target_reroute_ms := 500 |}.

Definition ex_first : PeerOverlayRedeliveryFailoverInput := ex_failover [] 1.
Definition ex_second : PeerOverlayRedeliveryFailoverInput :=
  ex_failover [attempt_evidence ex_first PoFailed] 2.

Definition ex_plan (n : N) : PeerOverlayRedeliveryFailoverPlan :=
  {| orp_attempt_number := n;
     orp_route_selection :=
       route_selection_result
         [attempt DirectWebRtcDataChannel; attempt ConfiguredTurnBackedWebRtc;
          {| ora_carrier := PeerAssistedOverlay; ora_selected := true |}]
         (SelPeerAssisted (ex_ref "carol") (ex_authorization (ex_ref "carol")) 895903
            (ex_relay_route "carol"));
     orp_forwarding_plan :=
       Some (plan_of (frame_with_relay (ex_frame [ex_ref "dave"]) (ex_ref "carol"))
               [ex_authorization (ex_ref "carol")]);
     orp_preserved_ack_id := replicate 16 4; orp_preserved_loop_id := replicate 16 3;
     orp_preserved_sequence := 12; orp_preserved_payload_kind := PoTextControl;
     orp_protected_frame_retained := true; orp_provider_application_relay_used := false;
     orp_rerouted_within_target_ms := true;
     orp_limitation :=
       "local model redelivery/failover evidence only; not runtime delivery or production route proof" |}.

Lemma failover_avoids_failed_relays_witness :
  plan_peer_overlay_redelivery_failover ex_admitted ex_authority BeforePeerRelay
    forwarding_policy_default ex_first = Ok (ex_plan 1) ∧
  ∀ e, e ∈ ofi_failed_relays ex_first → "carol"%string ≠ ovp_peer_id (ofe_relay e).
Proof.
  assert (plan_peer_overlay_redelivery_failover ex_admitted ex_authority BeforePeerRelay
    forwarding_policy_default ex_first = Ok (ex_plan 1)) as Hp by (vm_compute; reflexivity).
  split; [exact Hp|].
  destruct (failover_avoids_failed_relays ex_admitted ex_authority BeforePeerRelay
    forwarding_policy_default ex_first (ex_plan 1) Hp) as (_ & _ & _ & _ & _ & _ & _ & _ & Hsel).
  exact (proj1 Hsel).
Defined.

Lemma failover_attempts_are_bounded_witness :
  failover_run (ex_frame [ex_ref "dave"]) [ex_first; ex_second] ∧ 2 ≤ 3.
Proof.
  assert (failover_run (ex_frame [ex_ref "dave"]) [ex_first; ex_second]) as Hrun.
  { apply (run_snoc _ [ex_first] ex_second ex_admitted ex_authority BeforePeerRelay
      forwarding_policy_default (ex_plan 2)).
    - apply (run_snoc _ [] ex_first ex_admitted ex_authority BeforePeerRelay
        forwarding_policy_default (ex_plan 1)); [apply run_nil|reflexivity|vm_compute; reflexivity|].
      intros j []%not_elem_of_nil.
    - reflexivity.
    - vm_compute. reflexivity.
    - intros j ->%list_elem_of_singleton. exists PoFailed. by left. }
  split; [exact Hrun|]. exact (proj1 (failover_attempts_are_bounded _ _ Hrun)).
Defined.

Definition ex_turn_only : PeerOverlayRouteSelectionInput :=
  {| osi_source := ex_ref "alice"; osi_destination := ex_ref "bob"; osi_direct_pair := None;
     osi_configured_turn_pair := Some (ex_leg "alice" "bob" ConfiguredTurnBackedWebRtc);
     osi_ranked_relays := []; osi_relay_routes := [] |}.

Lemma relay_first_attempts_omit_the_relay_witness :
  ∃ sel, select_peer_overlay_route ex_admitted ex_auth AfterPeerRelay ex_turn_only = Ok sel ∧
    ora_carrier <$> ors_attempts sel = [DirectWebRtcDataChannel; ConfiguredTurnBackedWebRtc].
Proof.
  destruct (select_peer_overlay_route ex_admitted ex_auth AfterPeerRelay ex_turn_only) as [sel|] eqn:E.
  - exists sel. split; [reflexivity|].
    exact (relay_first_attempts_omit_the_relay ex_admitted ex_auth ex_turn_only sel eq_refl eq_refl E).
  - exfalso. assert (is_ok (select_peer_overlay_route ex_admitted ex_auth AfterPeerRelay ex_turn_only) = true)
      as H by (vm_compute; reflexivity). rewrite E in H. discriminate H.
Defined.
End witnesses.
