(* ===== verification/Invites.v ===== *)
(** * Invites

    The first part of [crates/admission/src/lib.rs]: the metadata an invite carries, its
    validators, the canonical bytes the issuer signs, and the store that issues, revokes and
    consumes invites. Random invite ids ([OsRng]) are an argument of the issuing operations. *)

From S2P Require Import Prelude Collections Bytes Framing StrOps Crypto Transport IcePolicy.

(** ** Errors and enumerations *)

Inductive InviteError :=
| InviteExpired
| InviteRevoked
| InviteExhausted
| InviteNotFound
| InvalidIssuerSignature
| InvalidSignalingEndpoint
| InvalidTrustMetadata
| InvalidEndpointPolicy
| OfflineVerifierRejected
| PasswordRejected
| HelperMismatch
| HelperProofExpired
| InvalidHelperProofSignature
| WelcomeRequired
| WelcomeExpired
| WelcomeInviteMismatch
| InvalidWelcomeAuthorization.

#[export] Instance InviteError_eq_dec : EqDecision InviteError.
Proof. solve_decision. Defined.

Inductive AdmissionPasswordProtocol := ProtocolOnlineAuthorizedHelper | ProtocolOpaquePakeReserved.

Definition protocol_name (p : AdmissionPasswordProtocol) : string :=
  match p with
  | ProtocolOnlineAuthorizedHelper => "online_authorized_helper"
  | ProtocolOpaquePakeReserved => "opaque_pake_reserved"
  end.

Inductive InviteEndpointPolicy := ProductionTls | LocalDevLoopback.

Definition policy_name (p : InviteEndpointPolicy) : string :=
  match p with
  | ProductionTls => "production_tls"
  | LocalDevLoopback => "local_dev_loopback"
  end.

Definition validates_endpoint (p : InviteEndpointPolicy) (endpoint : string) : bool :=
  match p with
  | ProductionTls =>
      starts_with "https://" endpoint || starts_with "wss://" endpoint
      || starts_with "mqtts://" endpoint || starts_with "quic://" endpoint
  | LocalDevLoopback =>
      starts_with "http://127.0.0.1:" endpoint || starts_with "ws://127.0.0.1:" endpoint
      || starts_with "mqtt://127.0.0.1:" endpoint || starts_with "http://[::1]:" endpoint
      || starts_with "ws://[::1]:" endpoint || starts_with "mqtt://[::1]:" endpoint
  end.

Inductive InviteKind := GroupJoin | DmContact | DevicePairing.

Definition kind_name (k : InviteKind) : string :=
  match k with
  | GroupJoin => "group_join"
  | DmContact => "dm_contact"
  | DevicePairing => "device_pairing"
  end.

Inductive InviteSignalingAdapterKind := InvMqtt | InvNostr | InvIpfsPubsub | InvQuicRendezvous.

Definition adapter_name (k : InviteSignalingAdapterKind) : string :=
  match k with
  | InvMqtt => "mqtt"
  | InvNostr => "nostr"
  | InvIpfsPubsub => "ipfs_pubsub"
  | InvQuicRendezvous => "discrypt_quic_rendezvous"
  end.

Definition INVITE_DESCRIPTOR_SCHEMA_VERSION : N := 1.
Definition INVITE_CONNECTIVITY_SCHEMA_VERSION : N := 1.
Definition INVITE_PROVIDER_POLICY_VERSION : N := 1.

Definition is_hex_fingerprint (value : string) : bool :=
  (str_len value =? 64) && forallb is_ascii_hexdigit (as_bytes value).

Definition invalid_policy_unless (ok : bool) : result unit InviteError :=
  reject_if (negb ok) InvalidEndpointPolicy.

(** [value.trim() == value] *)
Definition trimmed (value : string) : bool := bool_decide (trim value = value).

(** ** Metadata and its validation *)

Record InviteTrustMetadata := { signaling_fingerprint : string; trust_status : string }.

Definition trust_validate (m : InviteTrustMetadata) : result unit InviteError :=
  reject_if (negb (is_hex_fingerprint (signaling_fingerprint m)) || is_blank (trust_status m))
    InvalidTrustMetadata.

Definition trust_new (fingerprint status : string) : result InviteTrustMetadata InviteError :=
  let m := {| signaling_fingerprint := fingerprint; trust_status := status |} in
  check trust_validate m in Ok m.

Record InviteSignalingProfile := {
  profile_id : string;
  adapter_kind : InviteSignalingAdapterKind;
  pr_endpoints : list string;
  room_topic_commitment : string;
  trust_fingerprint : string;
  pr_ttl_seconds : N;
  metadata_posture : string;
  rate_limit_policy : string;
  pr_capabilities : list string;
  provider_policy_version : N;
  endpoint_allowlist_commitments : list string;
  provider_rotation_policy : string
}.

Definition profile_validate (p : InviteSignalingProfile) : result unit InviteError :=
  reject_if
    (is_blank (profile_id p)
     || bool_decide (pr_endpoints p = [])
     || existsb (λ e, negb (trimmed e) || bool_decide (e = ""%string) || (512 <? str_len e))
          (pr_endpoints p)
     || negb (is_hex_fingerprint (room_topic_commitment p))
     || negb (is_hex_fingerprint (trust_fingerprint p))
     || (pr_ttl_seconds p =? 0)
     || is_blank (metadata_posture p)
     || is_blank (rate_limit_policy p)
     || bool_decide (pr_capabilities p = [])
     || negb (provider_policy_version p =? INVITE_PROVIDER_POLICY_VERSION)
     || bool_decide (endpoint_allowlist_commitments p = [])
     || existsb (λ c, negb (is_hex_fingerprint c)) (endpoint_allowlist_commitments p)
     || is_blank (provider_rotation_policy p)
     || negb (trimmed (provider_rotation_policy p)))
    InvalidEndpointPolicy.

Record DmInviteBootstrap := {
  inviter_identity_commitment : string;
  contact_token_commitment : string;
  reply_rendezvous_commitment : string
}.

Definition dm_validate (d : DmInviteBootstrap) : result unit InviteError :=
  invalid_policy_unless
    (is_hex_fingerprint (inviter_identity_commitment d)
     && is_hex_fingerprint (contact_token_commitment d)
     && is_hex_fingerprint (reply_rendezvous_commitment d)).

Record GroupInviteBootstrap := {
  group_identity_commitment : string;
  gb_role_admission_policy_commitment : string;
  channel_policy_commitment : string
}.

Definition group_validate (g : GroupInviteBootstrap) : result unit InviteError :=
  invalid_policy_unless
    (is_hex_fingerprint (group_identity_commitment g)
     && is_hex_fingerprint (gb_role_admission_policy_commitment g)
     && is_hex_fingerprint (channel_policy_commitment g)).

Record InviteAdmissionSnapshot := {
  group_id_commitment : string;
  group_commitment : string;
  admission_mode : string;
  policy_epoch : N;
  sn_role_admission_policy_commitment : string;
  welcome_required : bool
}.

Definition snapshot_validate (s : InviteAdmissionSnapshot) : result unit InviteError :=
  reject_if
    (negb (is_hex_fingerprint (group_id_commitment s))
     || negb (is_hex_fingerprint (group_commitment s))
     || is_blank (admission_mode s)
     || negb (trimmed (admission_mode s))
     || negb (is_hex_fingerprint (sn_role_admission_policy_commitment s))
     || negb (welcome_required s))
    InvalidEndpointPolicy.

Definition snapshot_new (group_id group mode : string) (epoch : N) (role : string) :
    result InviteAdmissionSnapshot InviteError :=
  let s := {| group_id_commitment := group_id; group_commitment := group;
              admission_mode := mode; policy_epoch := epoch;
              sn_role_admission_policy_commitment := role; welcome_required := true |} in
  check snapshot_validate s in Ok s.

Record InviteRevocationPolicy := {
  revocable : bool;
  revocation_authority_commitment : string;
  expiry_enforced : bool;
  max_use_enforced : bool
}.

Definition revocation_validate (p : InviteRevocationPolicy) : result unit InviteError :=
  reject_if
    (negb (revocable p) || negb (is_hex_fingerprint (revocation_authority_commitment p))
     || negb (expiry_enforced p) || negb (max_use_enforced p))
    InvalidEndpointPolicy.

Definition revocation_new (authority : string) : result InviteRevocationPolicy InviteError :=
  let p := {| revocable := true; revocation_authority_commitment := authority;
              expiry_enforced := true; max_use_enforced := true |} in
  check revocation_validate p in Ok p.

Record InvitePasswordPolicy := {
  pw_required : bool;
  pw_protocol : AdmissionPasswordProtocol;
  pw_helper_id : option string;
  rate_limit_policy_commitment : string;
  offline_verifier_allowed : bool
}.

Definition password_policy_validate (p : InvitePasswordPolicy) : result unit InviteError :=
  check reject_if (offline_verifier_allowed p) OfflineVerifierRejected in
  if negb (pw_required p) then Ok tt
  else
    check invalid_policy_unless (is_hex_fingerprint (rate_limit_policy_commitment p)) in
    match pw_protocol p with
    | ProtocolOnlineAuthorizedHelper =>
        reject_if (match pw_helper_id p with None => true | Some h => is_blank h end)
          HelperMismatch
    | ProtocolOpaquePakeReserved => Ok tt
    end.

Definition online_helper (helper_id commitment : string) :
    result InvitePasswordPolicy InviteError :=
  let p := {| pw_required := true; pw_protocol := ProtocolOnlineAuthorizedHelper;
              pw_helper_id := Some helper_id; rate_limit_policy_commitment := commitment;
              offline_verifier_allowed := false |} in
  check password_policy_validate p in Ok p.

Record InviteBootstrapMetadata := {
  connectivity_schema_version : N;
  invite_kind : InviteKind;
  scope_id_commitment : string;
  signaling_profiles : list InviteSignalingProfile;
  privacy_label : string;
  dm_bootstrap : option DmInviteBootstrap;
  group_bootstrap : option GroupInviteBootstrap
}.

Definition bootstrap_validate (m : InviteBootstrapMetadata) : result unit InviteError :=
  check reject_if
    ((connectivity_schema_version m =? 0)
     || negb (is_hex_fingerprint (scope_id_commitment m))
     || bool_decide (length (signaling_profiles m) = 0%nat)
     || is_blank (privacy_label m)) InvalidEndpointPolicy in
  check each profile_validate (signaling_profiles m) in
  match invite_kind m with
  | GroupJoin =>
      check reject_if (bool_decide (is_Some (dm_bootstrap m))) InvalidEndpointPolicy in
      let* g := ok_or (group_bootstrap m) InvalidEndpointPolicy in group_validate g
  | DmContact =>
      check reject_if (bool_decide (is_Some (group_bootstrap m))) InvalidEndpointPolicy in
      let* d := ok_or (dm_bootstrap m) InvalidEndpointPolicy in dm_validate d
  | DevicePairing => Ok tt
  end.

Definition group_join (scope : string) (profiles : list InviteSignalingProfile)
    (g : GroupInviteBootstrap) : result InviteBootstrapMetadata InviteError :=
  let m := {| connectivity_schema_version := INVITE_CONNECTIVITY_SCHEMA_VERSION;
              invite_kind := GroupJoin; scope_id_commitment := scope;
              signaling_profiles := profiles;
              privacy_label := "Provider-visible topics are derived commitments; group names, channel names, and room secrets are not included";
              dm_bootstrap := None; group_bootstrap := Some g |} in
  check bootstrap_validate m in Ok m.

Definition dm_contact (scope : string) (profiles : list InviteSignalingProfile)
    (d : DmInviteBootstrap) : result InviteBootstrapMetadata InviteError :=
  let m := {| connectivity_schema_version := INVITE_CONNECTIVITY_SCHEMA_VERSION;
              invite_kind := DmContact; scope_id_commitment := scope;
              signaling_profiles := profiles;
              privacy_label := "Provider-visible topics are derived commitments; contact aliases, safety numbers, and room secrets are not included";
              dm_bootstrap := Some d; group_bootstrap := None |} in
  check bootstrap_validate m in Ok m.

Record InviteSignalingMetadata := {
  signaling_endpoint : string;
  endpoint_policy : InviteEndpointPolicy;
  sm_trust : InviteTrustMetadata;
  ice_endpoint_policy : IceEndpointPolicy
}.

Definition signaling_validate (m : InviteSignalingMetadata) : result unit InviteError :=
  check reject_if
    (negb (trimmed (signaling_endpoint m)) || bool_decide (signaling_endpoint m = ""%string)
     || (512 <? str_len (signaling_endpoint m))) InvalidSignalingEndpoint in
  check reject_if (negb (validates_endpoint (endpoint_policy m) (signaling_endpoint m)))
    InvalidSignalingEndpoint in
  check trust_validate (sm_trust m) in
  map_err (λ _, InvalidEndpointPolicy) (ice_validate (ice_endpoint_policy m)).

Definition signaling_new (endpoint : string) (policy : InviteEndpointPolicy)
    (trust : InviteTrustMetadata) : result InviteSignalingMetadata InviteError :=
  let m := {| signaling_endpoint := endpoint; endpoint_policy := policy; sm_trust := trust;
              ice_endpoint_policy := ice_default_production |} in
  check signaling_validate m in Ok m.

Definition with_ice_endpoint_policy (m : InviteSignalingMetadata) (p : IceEndpointPolicy) :
    result InviteSignalingMetadata InviteError :=
  check map_err (λ _, InvalidEndpointPolicy) (ice_validate p) in
  let m' := {| signaling_endpoint := signaling_endpoint m; endpoint_policy := endpoint_policy m;
               sm_trust := sm_trust m; ice_endpoint_policy := p |} in
  check signaling_validate m' in Ok m'.

(** ** Signed bytes *)

Definition profile_signing_bytes (p : InviteSignalingProfile) : bytes :=
  framed_str (profile_id p)
  ++ framed_str (adapter_name (adapter_kind p))
  ++ counted_list framed_str (pr_endpoints p)
  ++ framed_str (room_topic_commitment p)
  ++ framed_str (trust_fingerprint p)
  ++ le_bytes 4 (pr_ttl_seconds p)
  ++ framed_str (metadata_posture p)
  ++ framed_str (rate_limit_policy p)
  ++ counted_list framed_str (pr_capabilities p)
  ++ le_bytes 4 (provider_policy_version p)
  ++ counted_list framed_str (endpoint_allowlist_commitments p)
  ++ framed_str (provider_rotation_policy p).

Definition dm_signing_bytes (d : DmInviteBootstrap) : bytes :=
  framed_str (inviter_identity_commitment d) ++ framed_str (contact_token_commitment d)
  ++ framed_str (reply_rendezvous_commitment d).

Definition group_signing_bytes (g : GroupInviteBootstrap) : bytes :=
  framed_str (group_identity_commitment g) ++ framed_str (gb_role_admission_policy_commitment g)
  ++ framed_str (channel_policy_commitment g).

Definition bootstrap_signing_bytes (m : InviteBootstrapMetadata) : bytes :=
  as_bytes "discrypt-invite-bootstrap"
  ++ le_bytes 4 (connectivity_schema_version m)
  ++ framed_str (kind_name (invite_kind m))
  ++ framed_str (scope_id_commitment m)
  ++ framed_str (privacy_label m)
  ++ counted_list profile_signing_bytes (signaling_profiles m)
  ++ optional dm_signing_bytes (dm_bootstrap m)
  ++ optional group_signing_bytes (group_bootstrap m).

Definition snapshot_signing_bytes (s : InviteAdmissionSnapshot) : bytes :=
  framed_str (group_id_commitment s) ++ framed_str (group_commitment s)
  ++ framed_str (admission_mode s) ++ le_bytes 8 (policy_epoch s)
  ++ framed_str (sn_role_admission_policy_commitment s) ++ flag_byte (welcome_required s).

Definition password_policy_signing_bytes (p : InvitePasswordPolicy) : bytes :=
  flag_byte (pw_required p) ++ framed_str (protocol_name (pw_protocol p))
  ++ optional framed_str (pw_helper_id p) ++ framed_str (rate_limit_policy_commitment p)
  ++ flag_byte (offline_verifier_allowed p).

Section invites.
Context `{Sha256, Ed25519, Hex, Rfc3339}.

Record StoredInvite := {
  descriptor_schema_version : N;
  si_invite_id : string;
  si_room_secret_commitment : bytes;
  issuer_public_key : bytes;
  issuer_signature : bytes;
  signaling_metadata : InviteSignalingMetadata;
  bootstrap_metadata : option InviteBootstrapMetadata;
  admission_snapshot : option InviteAdmissionSnapshot;
  revocation_policy : InviteRevocationPolicy;
  password_policy : option InvitePasswordPolicy;
  si_expires_at : datetime;
  si_max_uses : N;
  consumed_uses : N;
  revocation_event_id : option string
}.

(** [canonical_invite_signing_bytes] of the invite's descriptor. *)
Definition invite_signing_bytes (i : StoredInvite) : bytes :=
  as_bytes "discrypt-invite-descriptor"
  ++ le_bytes 4 INVITE_DESCRIPTOR_SCHEMA_VERSION
  ++ framed_str (si_invite_id i)
  ++ si_room_secret_commitment i
  ++ framed_bytes (issuer_public_key i)
  ++ framed_str (signaling_endpoint (signaling_metadata i))
  ++ framed_str (policy_name (endpoint_policy (signaling_metadata i)))
  ++ framed_str (signaling_fingerprint (sm_trust (signaling_metadata i)))
  ++ framed_str (trust_status (sm_trust (signaling_metadata i)))
  ++ framed_bytes (ice_signing_bytes (ice_endpoint_policy (signaling_metadata i)))
  ++ optional (λ b, framed_bytes (bootstrap_signing_bytes b)) (bootstrap_metadata i)
  ++ optional snapshot_signing_bytes (admission_snapshot i)
  ++ flag_byte (revocable (revocation_policy i))
  ++ framed_str (revocation_authority_commitment (revocation_policy i))
  ++ flag_byte (expiry_enforced (revocation_policy i))
  ++ flag_byte (max_use_enforced (revocation_policy i))
  ++ optional password_policy_signing_bytes (password_policy i)
  ++ le_i64 (dt_timestamp_millis (si_expires_at i))
  ++ le_bytes 4 (si_max_uses i).

(** [VerifyingKey::from_bytes(&key.try_into()?)?], [Signature::from_slice(sig)?] and
    [verify]: the checks every signed object of the crate makes. *)
Definition check_signature (public_key : bytes) (sig message : bytes) {E} (e : E) :
    result unit E :=
  check reject_if (negb (len public_key =? 32)) e in
  let* vk := ok_or (vk_from_bytes public_key) e in
  let* s := ok_or (sig_from_slice sig) e in
  reject_if (negb (vk_verify vk message s)) e.

Definition opt_validate {A E} (f : A → result unit E) (o : option A) : result unit E :=
  match o with Some a => f a | None => Ok tt end.

Definition verify_issuer_signature (i : StoredInvite) : result unit InviteError :=
  check signaling_validate (signaling_metadata i) in
  check opt_validate bootstrap_validate (bootstrap_metadata i) in
  check reject_if (negb (descriptor_schema_version i =? INVITE_DESCRIPTOR_SCHEMA_VERSION))
    InvalidEndpointPolicy in
  check opt_validate snapshot_validate (admission_snapshot i) in
  check revocation_validate (revocation_policy i) in
  check opt_validate password_policy_validate (password_policy i) in
  check_signature (issuer_public_key i) (issuer_signature i) (invite_signing_bytes i)
    InvalidIssuerSignature.

Definition ice_server_config (i : StoredInvite) (group : option IceEndpointPolicy) :
    result IceServerConfig InviteError :=
  check verify_issuer_signature i in
  map_err (λ _, InvalidEndpointPolicy)
    (ice_resolve (Some (ice_endpoint_policy (signaling_metadata i))) group).

Definition ice_server_config_at (i : StoredInvite) (group : option IceEndpointPolicy)
    (now : datetime) : result IceServerConfig InviteError :=
  check verify_issuer_signature i in
  map_err (λ _, InvalidEndpointPolicy)
    (ice_resolve_at (Some (ice_endpoint_policy (signaling_metadata i))) group now).

Definition invite_is_revoked (i : StoredInvite) : bool :=
  bool_decide (is_Some (revocation_event_id i)).

Record StoredInviteSignInput := {
  in_invite_id : string;
  in_room_secret_commitment : bytes;
  in_expires_at : datetime;
  in_max_uses : N;
  in_signaling_metadata : InviteSignalingMetadata;
  in_bootstrap_metadata : option InviteBootstrapMetadata;
  in_admission_snapshot : option InviteAdmissionSnapshot;
  in_revocation_policy : InviteRevocationPolicy;
  in_password_policy : option InvitePasswordPolicy
}.

Definition invite_with_signature (i : StoredInvite) (s : bytes) : StoredInvite := {|
  descriptor_schema_version := descriptor_schema_version i;
  si_invite_id := si_invite_id i;
  si_room_secret_commitment := si_room_secret_commitment i;
  issuer_public_key := issuer_public_key i;
  issuer_signature := s;
  signaling_metadata := signaling_metadata i;
  bootstrap_metadata := bootstrap_metadata i;
  admission_snapshot := admission_snapshot i;
  revocation_policy := revocation_policy i;
  password_policy := password_policy i;
  si_expires_at := si_expires_at i;
  si_max_uses := si_max_uses i;
  consumed_uses := consumed_uses i;
  revocation_event_id := revocation_event_id i
|}.

Definition invite_sign (input : StoredInviteSignInput) (issuer : signing_key) : StoredInvite :=
  let i := {|
    descriptor_schema_version := INVITE_DESCRIPTOR_SCHEMA_VERSION;
    si_invite_id := in_invite_id input;
    si_room_secret_commitment := in_room_secret_commitment input;
    issuer_public_key := vk_to_bytes (vk_of issuer);
    issuer_signature := [];
    signaling_metadata := in_signaling_metadata input;
    bootstrap_metadata := in_bootstrap_metadata input;
    admission_snapshot := in_admission_snapshot input;
    revocation_policy := in_revocation_policy input;
    password_policy := in_password_policy input;
    si_expires_at := in_expires_at input;
    si_max_uses := in_max_uses input;
    consumed_uses := 0;
    revocation_event_id := None |} in
  invite_with_signature i (sig_to_bytes (sign issuer (invite_signing_bytes i))).

(** ** Derived values *)

Definition room_secret_commitment (room_secret : bytes) : bytes :=
  sha256 (as_bytes "discrypt-room-secret-commitment-v1" ++ room_secret).

(** [random] is what [OsRng] filled in. *)
Definition opaque_invite_id (random : bytes) : string := hex_encode random.

Definition signaling_fingerprint_for_endpoint (endpoint : string) : string :=
  hex_encode (sha256 (as_bytes "external-signaling-endpoint-fingerprint-v1" ++ as_bytes endpoint)).

Definition revocation_default_open : InviteRevocationPolicy := {|
  revocable := true;
  revocation_authority_commitment :=
    hex_encode (sha256 (as_bytes "discrypt-default-revocation-authority-v1"));
  expiry_enforced := true;
  max_use_enforced := true
|}.

Definition signaling_default_production : InviteSignalingMetadata :=
  let endpoint := "mqtts://broker.emqx.io:8883"%string in {|
  signaling_endpoint := endpoint;
  endpoint_policy := ProductionTls;
  sm_trust := {| signaling_fingerprint := signaling_fingerprint_for_endpoint endpoint;
                 trust_status := "signed endpoint fingerprint; verify before MLS Welcome" |};
  ice_endpoint_policy := ice_default_production
|}.

(** ** The store *)

(** [BTreeMap<String, StoredInvite>] *)
#[local] Notation InviteStore := (gmap string StoredInvite).

(** Sign a descriptor and persist it. *)
Definition store_issue (store : InviteStore) (input : StoredInviteSignInput)
    (issuer : signing_key) : InviteStore * StoredInvite :=
  let i := invite_sign input issuer in (<[si_invite_id i := i]> store, i).

Definition issue_invite (random room_secret : bytes) (expires_at : datetime) (max_uses : N)
    (issuer : signing_key) (store : InviteStore) : InviteStore * StoredInvite :=
  store_issue store
    {| in_invite_id := opaque_invite_id random;
       in_room_secret_commitment := room_secret_commitment room_secret;
       in_expires_at := expires_at;
       in_max_uses := N.max max_uses 1;
       in_signaling_metadata := signaling_default_production;
       in_bootstrap_metadata := None;
       in_admission_snapshot := None;
       in_revocation_policy := revocation_default_open;
       in_password_policy := None |} issuer.

(** The issuing operations that validate first. *)
Definition issue_checked (guard : result unit InviteError) (store : InviteStore)
    (input : StoredInviteSignInput) (issuer : signing_key) :
    InviteStore * result StoredInvite InviteError :=
  match guard with
  | Err e => (store, Err e)
  | Ok _ => let r := store_issue store input issuer in (r.1, Ok r.2)
  end.

Definition issue_invite_with_metadata (random room_secret : bytes) (expires_at : datetime)
    (max_uses : N) (m : InviteSignalingMetadata) (issuer : signing_key) (store : InviteStore) :
    InviteStore * result StoredInvite InviteError :=
  issue_checked (signaling_validate m) store
    {| in_invite_id := opaque_invite_id random;
       in_room_secret_commitment := room_secret_commitment room_secret;
       in_expires_at := expires_at;
       in_max_uses := N.max max_uses 1;
       in_signaling_metadata := m;
       in_bootstrap_metadata := None;
       in_admission_snapshot := None;
       in_revocation_policy := revocation_default_open;
       in_password_policy := None |} issuer.

Definition issue_invite_with_bootstrap_metadata (random room_secret : bytes)
    (expires_at : datetime) (max_uses : N) (m : InviteSignalingMetadata)
    (b : InviteBootstrapMetadata) (issuer : signing_key) (store : InviteStore) :
    InviteStore * result StoredInvite InviteError :=
  issue_checked (check signaling_validate m in bootstrap_validate b) store
    {| in_invite_id := opaque_invite_id random;
       in_room_secret_commitment := room_secret_commitment room_secret;
       in_expires_at := expires_at;
       in_max_uses := N.max max_uses 1;
       in_signaling_metadata := m;
       in_bootstrap_metadata := Some b;
       in_admission_snapshot := None;
       in_revocation_policy := revocation_default_open;
       in_password_policy := None |} issuer.

Record CanonicalGroupInviteV1Input := {
  cg_room_secret : bytes;
  cg_expires_at : datetime;
  cg_max_uses : N;
  cg_signaling_metadata : InviteSignalingMetadata;
  cg_bootstrap_metadata : InviteBootstrapMetadata;
  cg_admission_snapshot : InviteAdmissionSnapshot;
  cg_revocation_policy : InviteRevocationPolicy;
  cg_password_policy : option InvitePasswordPolicy
}.

Definition canonical_guard (input : CanonicalGroupInviteV1Input) : result unit InviteError :=
  check signaling_validate (cg_signaling_metadata input) in
  check bootstrap_validate (cg_bootstrap_metadata input) in
  check snapshot_validate (cg_admission_snapshot input) in
  check revocation_validate (cg_revocation_policy input) in
  opt_validate password_policy_validate (cg_password_policy input).

Definition issue_canonical_group_invite_v1 (random : bytes)
    (input : CanonicalGroupInviteV1Input) (issuer : signing_key) (store : InviteStore) :
    InviteStore * result StoredInvite InviteError :=
  issue_checked (canonical_guard input) store
    {| in_invite_id := opaque_invite_id random;
       in_room_secret_commitment := room_secret_commitment (cg_room_secret input);
       in_expires_at := cg_expires_at input;
       in_max_uses := N.max (cg_max_uses input) 1;
       in_signaling_metadata := cg_signaling_metadata input;
       in_bootstrap_metadata := Some (cg_bootstrap_metadata input);
       in_admission_snapshot := Some (cg_admission_snapshot input);
       in_revocation_policy := cg_revocation_policy input;
       in_password_policy := cg_password_policy input |} issuer.

Definition with_usage (i : StoredInvite) (used : N) (revoked_by : option string) :
  StoredInvite := {|
  descriptor_schema_version := descriptor_schema_version i;
  si_invite_id := si_invite_id i;
  si_room_secret_commitment := si_room_secret_commitment i;
  issuer_public_key := issuer_public_key i;
  issuer_signature := issuer_signature i;
  signaling_metadata := signaling_metadata i;
  bootstrap_metadata := bootstrap_metadata i;
  admission_snapshot := admission_snapshot i;
  revocation_policy := revocation_policy i;
  password_policy := password_policy i;
  si_expires_at := si_expires_at i;
  si_max_uses := si_max_uses i;
  consumed_uses := used;
  revocation_event_id := revoked_by
|}.

Definition store_revoke (invite_id event : string) (store : InviteStore) :
    InviteStore * result unit InviteError :=
  match store !! invite_id with
  | None => (store, Err InviteNotFound)
  | Some i => (<[invite_id := with_usage i (consumed_uses i) (Some event)]> store, Ok tt)
  end.

Definition consume_guard (i : StoredInvite) (now : datetime) : result unit InviteError :=
  check verify_issuer_signature i in
  check reject_if (invite_is_revoked i) InviteRevoked in
  check reject_if (dt_lt (si_expires_at i) now) InviteExpired in
  reject_if (si_max_uses i <=? consumed_uses i) InviteExhausted.

Definition store_consume (invite_id : string) (now : datetime) (store : InviteStore) :
    InviteStore * result unit InviteError :=
  match store !! invite_id with
  | None => (store, Err InviteNotFound)
  | Some i =>
      match consume_guard i now with
      | Err e => (store, Err e)
      | Ok _ =>
          (<[invite_id := with_usage i (sat_add u32_max (consumed_uses i) 1)
                            (revocation_event_id i)]> store, Ok tt)
      end
  end.

(** ** Any sequence of calls *)

Inductive InviteCall :=
| CallIssue (random room_secret : bytes) (expires_at : datetime) (max_uses : N) (k : signing_key)
| CallIssueMetadata (random room_secret : bytes) (expires_at : datetime) (max_uses : N)
    (m : InviteSignalingMetadata) (k : signing_key)
| CallIssueBootstrap (random room_secret : bytes) (expires_at : datetime) (max_uses : N)
    (m : InviteSignalingMetadata) (b : InviteBootstrapMetadata) (k : signing_key)
| CallIssueCanonical (random : bytes) (input : CanonicalGroupInviteV1Input) (k : signing_key)
| CallRevoke (invite_id event : string)
| CallConsume (invite_id : string) (now : datetime).

Definition invite_step (store : InviteStore) (c : InviteCall) :
    InviteStore * result unit InviteError :=
  let unit_of := λ r : InviteStore * result StoredInvite InviteError,
    (r.1, rmap (λ _, tt) r.2) in
  match c with
  | CallIssue rnd secret e n k => ((issue_invite rnd secret e n k store).1, Ok tt)
  | CallIssueMetadata rnd secret e n m k =>
      unit_of (issue_invite_with_metadata rnd secret e n m k store)
  | CallIssueBootstrap rnd secret e n m b k =>
      unit_of (issue_invite_with_bootstrap_metadata rnd secret e n m b k store)
  | CallIssueCanonical rnd input k => unit_of (issue_canonical_group_invite_v1 rnd input k store)
  | CallRevoke id ev => store_revoke id ev store
  | CallConsume id now => store_consume id now store
  end.

Fixpoint invite_run (store : InviteStore) (calls : list InviteCall) :
    InviteStore * list (result unit InviteError) :=
  match calls with
  | [] => (store, [])
  | c :: rest =>
      let r := invite_step store c in
      let q := invite_run r.1 rest in (q.1, r.2 :: q.2)
  end.

End invites.

(** ** The signed bytes determine the descriptor *)

#[export] Instance protocol_name_inj : Inj (=) (=) protocol_name.
Proof. by intros [] []. Qed.
#[export] Instance policy_name_inj : Inj (=) (=) policy_name.
Proof. by intros [] []. Qed.
#[export] Instance kind_name_inj : Inj (=) (=) kind_name.
Proof. by intros [] []. Qed.
#[export] Instance adapter_name_inj : Inj (=) (=) adapter_name.
Proof. by intros [] []. Qed.

Lemma protocol_name_fits p : str_fits (protocol_name p). Proof. by destruct p. Qed.
Lemma policy_name_fits p : str_fits (policy_name p). Proof. by destruct p. Qed.
Lemma kind_name_fits p : str_fits (kind_name p). Proof. by destruct p. Qed.
Lemma adapter_name_fits p : str_fits (adapter_name p). Proof. by destruct p. Qed.

(** Machine-sized fields: lengths and counts below [2^64], [u32]s and [u64]s. *)
Definition profile_fits (p : InviteSignalingProfile) : Prop :=
  str_fits (profile_id p) ∧ list_fits str_fits (pr_endpoints p) ∧
  str_fits (room_topic_commitment p) ∧ str_fits (trust_fingerprint p) ∧
  fits 4 (pr_ttl_seconds p) ∧ str_fits (metadata_posture p) ∧ str_fits (rate_limit_policy p) ∧
  list_fits str_fits (pr_capabilities p) ∧ fits 4 (provider_policy_version p) ∧
  list_fits str_fits (endpoint_allowlist_commitments p) ∧ str_fits (provider_rotation_policy p).

Definition dm_fits (d : DmInviteBootstrap) : Prop :=
  str_fits (inviter_identity_commitment d) ∧ str_fits (contact_token_commitment d) ∧
  str_fits (reply_rendezvous_commitment d).

Definition group_fits (g : GroupInviteBootstrap) : Prop :=
  str_fits (group_identity_commitment g) ∧ str_fits (gb_role_admission_policy_commitment g) ∧
  str_fits (channel_policy_commitment g).

Definition bootstrap_fits (m : InviteBootstrapMetadata) : Prop :=
  fits 4 (connectivity_schema_version m) ∧ str_fits (scope_id_commitment m) ∧
  str_fits (privacy_label m) ∧ list_fits profile_fits (signaling_profiles m) ∧
  opt_fits dm_fits (dm_bootstrap m) ∧ opt_fits group_fits (group_bootstrap m).

Definition admission_fits (s : InviteAdmissionSnapshot) : Prop :=
  str_fits (group_id_commitment s) ∧ str_fits (group_commitment s) ∧
  str_fits (admission_mode s) ∧ fits 8 (policy_epoch s) ∧
  str_fits (sn_role_admission_policy_commitment s).

Definition password_fits (p : InvitePasswordPolicy) : Prop :=
  opt_fits str_fits (pw_helper_id p) ∧ str_fits (rate_limit_policy_commitment p).

Definition signaling_fits (m : InviteSignalingMetadata) : Prop :=
  str_fits (signaling_endpoint m) ∧ str_fits (signaling_fingerprint (sm_trust m)) ∧
  str_fits (trust_status (sm_trust m)) ∧ ice_fits (ice_endpoint_policy m) ∧
  bytes_fit (ice_signing_bytes (ice_endpoint_policy m)).

#[export] Instance sd_profile : SelfDelim profile_fits profile_signing_bytes.
Proof.
  intros [] [] r s (?&?&?&?&?&?&?&?&?&?&?) (?&?&?&?&?&?&?&?&?&?&?) Heq.
  pose proof adapter_name_fits. unfold profile_signing_bytes in Heq.
  cbn [profile_id adapter_kind pr_endpoints room_topic_commitment trust_fingerprint
       pr_ttl_seconds metadata_posture rate_limit_policy pr_capabilities
       provider_policy_version endpoint_allowlist_commitments provider_rotation_policy] in *.
  peel Heq. peel Heq. apply (inj adapter_name) in Hx as ->.
  do 10 (peel Heq). done.
Qed.

#[export] Instance sd_dm : SelfDelim dm_fits dm_signing_bytes.
Proof.
  intros [] [] r s (?&?&?) (?&?&?) Heq. unfold dm_signing_bytes in Heq.
  cbn [inviter_identity_commitment contact_token_commitment reply_rendezvous_commitment] in *.
  do 3 (peel Heq). done.
Qed.

#[export] Instance sd_group : SelfDelim group_fits group_signing_bytes.
Proof.
  intros [] [] r s (?&?&?) (?&?&?) Heq. unfold group_signing_bytes in Heq.
  cbn [group_identity_commitment gb_role_admission_policy_commitment channel_policy_commitment] in *.
  do 3 (peel Heq). done.
Qed.

#[export] Instance sd_bootstrap : SelfDelim bootstrap_fits bootstrap_signing_bytes.
Proof.
  intros [] [] r s (?&?&?&?&?&?) (?&?&?&?&?&?) Heq. pose proof kind_name_fits.
  unfold bootstrap_signing_bytes in Heq.
  cbn [connectivity_schema_version invite_kind scope_id_commitment signaling_profiles
       privacy_label dm_bootstrap group_bootstrap] in *.
  do 3 (peel Heq). apply (inj kind_name) in Hx0 as ->. do 5 (peel Heq). done.
Qed.

#[export] Instance sd_snapshot : SelfDelim admission_fits snapshot_signing_bytes.
Proof.
  intros [] [] r s (?&?&?&?&?) (?&?&?&?&?) Heq. unfold snapshot_signing_bytes in Heq.
  cbn [group_id_commitment group_commitment admission_mode policy_epoch
       sn_role_admission_policy_commitment welcome_required] in *.
  do 6 (peel Heq). done.
Qed.

#[export] Instance sd_password : SelfDelim password_fits password_policy_signing_bytes.
Proof.
  intros [] [] r s (?&?) (?&?) Heq. pose proof protocol_name_fits.
  unfold password_policy_signing_bytes in Heq.
  cbn [pw_required pw_protocol pw_helper_id rate_limit_policy_commitment
       offline_verifier_allowed] in *.
  do 2 (peel Heq). apply (inj protocol_name) in Hx as ->. do 3 (peel Heq). done.
Qed.

Section invite_lemmas.
Context `{Sha256, Ed25519, Hex, Rfc3339}.

Definition invite_fits (i : StoredInvite) : Prop :=
  str_fits (si_invite_id i) ∧ length (si_room_secret_commitment i) = 32%nat ∧
  bytes_fit (issuer_public_key i) ∧ signaling_fits (signaling_metadata i) ∧
  opt_fits (λ b, bootstrap_fits b ∧ bytes_fit (bootstrap_signing_bytes b))
    (bootstrap_metadata i) ∧
  opt_fits admission_fits (admission_snapshot i) ∧
  str_fits (revocation_authority_commitment (revocation_policy i)) ∧
  opt_fits password_fits (password_policy i) ∧
  i64_fits (dt_timestamp_millis (si_expires_at i)) ∧ fits 4 (si_max_uses i).

(** The fields an issuer commits to. *)
Definition same_descriptor (i j : StoredInvite) : Prop :=
  si_invite_id i = si_invite_id j ∧
  si_room_secret_commitment i = si_room_secret_commitment j ∧
  issuer_public_key i = issuer_public_key j ∧
  signaling_metadata i = signaling_metadata j ∧
  bootstrap_metadata i = bootstrap_metadata j ∧
  admission_snapshot i = admission_snapshot j ∧
  revocation_policy i = revocation_policy j ∧
  password_policy i = password_policy j ∧
  dt_timestamp_millis (si_expires_at i) = dt_timestamp_millis (si_expires_at j) ∧
  si_max_uses i = si_max_uses j.

Lemma signing_bytes_descriptor i j :
  invite_fits i → invite_fits j →
  invite_signing_bytes i = invite_signing_bytes j → same_descriptor i j.
Proof.
  destruct i as [? ? ? ? ? [? ? [] ?] ? ? [] ? ? ? ? ?],
    j as [? ? ? ? ? [? ? [] ?] ? ? [] ? ? ? ? ?].
  unfold invite_fits, signaling_fits, invite_signing_bytes, same_descriptor.
  cbn [si_invite_id si_room_secret_commitment issuer_public_key signaling_metadata
       bootstrap_metadata admission_snapshot revocation_policy password_policy si_expires_at
       si_max_uses signaling_endpoint endpoint_policy sm_trust ice_endpoint_policy
       signaling_fingerprint trust_status revocable revocation_authority_commitment
       expiry_enforced max_use_enforced].
  intros (?&?&?&(?&?&?&?&?)&?&?&?&?&?&?) (?&?&?&(?&?&?&?&?)&?&?&?&?&?&?) Heq.
  pose proof policy_name_fits.
  do 7 (peel Heq). apply (inj policy_name) in Hx1 as ->.
  do 3 (peel Heq). apply (sd_inj ice_fits ice_signing_bytes) in Hx1 as ->; [|done..].
  do 8 (peel Heq). apply (sd_inj (fits 4) (le_bytes 4)) in Heq as ->; done.
Qed.

(** ** Use accounting *)

Definition issued_id (c : InviteCall) : option string :=
  match c with
  | CallIssue rnd _ _ _ _ | CallIssueMetadata rnd _ _ _ _ _ | CallIssueBootstrap rnd _ _ _ _ _ _
  | CallIssueCanonical rnd _ _ => Some (opaque_invite_id rnd)
  | CallRevoke _ _ | CallConsume _ _ => None
  end.

Definition is_consume (id : string) (c : InviteCall) : bool :=
  match c with CallConsume id' _ => bool_decide (id' = id) | _ => false end.

(** The consumptions of [id] a run grants. *)
Definition uses_granted (id : string) (calls : list InviteCall)
    (rs : list (result unit InviteError)) : N :=
  N.of_nat (length (filter (λ p : InviteCall * result unit InviteError,
    is_consume id p.1 && is_ok p.2 = true) (zip calls rs))).

Lemma uses_granted_cons id c r calls rs :
  uses_granted id (c :: calls) (r :: rs)
  = (if is_consume id c && is_ok r then 1 else 0) + uses_granted id calls rs.
Proof.
  unfold uses_granted. cbn [zip zip_with]. rewrite filter_cons. simpl.
  destruct (is_consume id c && is_ok r); simpl; lia.
Qed.

Lemma issue_checked_lookup g store input k id :
  in_invite_id input ≠ id → (issue_checked g store input k).1 !! id = store !! id.
Proof.
  intros Hid. unfold issue_checked, store_issue. destruct g; [|done]. cbn [fst].
  by rewrite lookup_insert_ne.
Qed.

Lemma issue_checked_stored g store input k store' i :
  issue_checked g store input k = (store', Ok i) → store' !! si_invite_id i = Some i.
Proof.
  unfold issue_checked, store_issue. destruct g; [|done]. cbn [fst snd]. intros [<- Hi]%pair_eq.
  assert (invite_sign input k = i) as <- by congruence. by rewrite lookup_insert_eq.
Qed.

Lemma issue_canonical_stored rnd input k store store' i :
  issue_canonical_group_invite_v1 rnd input k store = (store', Ok i) →
  store' !! si_invite_id i = Some i.
Proof. apply issue_checked_stored. Qed.

(** An invite is still usable at [now]. *)
Definition usable (i : StoredInvite) (now : datetime) : bool :=
  negb (invite_is_revoked i) && negb (dt_lt (si_expires_at i) now)
  && negb (si_max_uses i <=? consumed_uses i).

Lemma consume_guard_ok i now :
  consume_guard i now = Ok tt ↔ verify_issuer_signature i = Ok tt ∧ usable i now = true.
Proof.
  unfold consume_guard, usable, reject_if.
  destruct (verify_issuer_signature i) as [[]|], (invite_is_revoked i),
    (dt_lt (si_expires_at i) now), (si_max_uses i <=? consumed_uses i); simpl; naive_solver.
Qed.

(** What one call does to an invite it does not replace: only the use counter and the
    revocation change, the counter by the use the call grants, and a revocation stays. *)
Lemma invite_step_usage store c id i :
  store !! id = Some i → issued_id c ≠ Some id →
  consumed_uses i ≤ si_max_uses i → si_max_uses i ≤ u32_max →
  ∃ used rv, (invite_step store c).1 !! id = Some (with_usage i used rv) ∧
    used = consumed_uses i + (if is_consume id c && is_ok (invite_step store c).2 then 1 else 0) ∧
    used ≤ si_max_uses i ∧ (is_Some (revocation_event_id i) → is_Some rv).
Proof.
  intros Hi Hid Hle Hmax.
  assert (with_usage i (consumed_uses i) (revocation_event_id i) = i) as Hsame by (by destruct i).
  destruct c as [| | | |id' ev|id' now]; cbn [invite_step issued_id] in *.
  1-4: exists (consumed_uses i), (revocation_event_id i); cbn [is_consume andb fst]; rewrite Hsame;
    (split; [|split; [lia|done]]).
  - unfold issue_invite, store_issue. cbn [fst]. rewrite lookup_insert_ne; [done|]. simpl. congruence.
  - unfold issue_invite_with_metadata. rewrite issue_checked_lookup; [done|]. simpl. congruence.
  - unfold issue_invite_with_bootstrap_metadata. rewrite issue_checked_lookup; [done|]. simpl. congruence.
  - unfold issue_canonical_group_invite_v1. rewrite issue_checked_lookup; [done|]. simpl. congruence.
  - unfold store_revoke. destruct (decide (id' = id)) as [->|Hne].
    + rewrite Hi. cbn [fst]. rewrite lookup_insert_eq. exists (consumed_uses i), (Some ev).
      cbn [is_consume andb]. split; [done|]. split; [lia|]. done.
    + exists (consumed_uses i), (revocation_event_id i). rewrite Hsame. cbn [is_consume andb].
      split; [|split; [lia|done]].
      destruct (store !! id'); [|done]. cbn [fst]. by rewrite lookup_insert_ne.
  - unfold store_consume. cbn [is_consume]. destruct (decide (id' = id)) as [->|Hne].
    + rewrite Hi, bool_decide_true by done. cbn [andb].
      destruct (consume_guard i now) as [[]|e] eqn:Hg; cbn [fst snd is_ok].
      * apply consume_guard_ok in Hg as [_ Hu]. unfold usable in Hu.
        rewrite !andb_true_iff, !negb_true_iff, N.leb_gt in Hu. rewrite lookup_insert_eq.
        exists (sat_add u32_max (consumed_uses i) 1), (revocation_event_id i). unfold sat_add.
        split; [done|]. split; [lia|]. split; [lia|done].
      * exists (consumed_uses i), (revocation_event_id i). rewrite Hsame. split; [done|].
        split; [lia|done].
    + rewrite bool_decide_false by done. cbn [andb].
      exists (consumed_uses i), (revocation_event_id i). rewrite Hsame. split; [|split; [lia|done]].
      destruct (store !! id'); [|done]. destruct (consume_guard s now); cbn [fst]; [|done].
      by rewrite lookup_insert_ne.
Qed.

Lemma invite_run_usage store calls id i :
  store !! id = Some i → Forall (λ c, issued_id c ≠ Some id) calls →
  consumed_uses i ≤ si_max_uses i → si_max_uses i ≤ u32_max →
  let q := invite_run store calls in
  ∃ used rv, q.1 !! id = Some (with_usage i used rv) ∧
    used = consumed_uses i + uses_granted id calls q.2 ∧ used ≤ si_max_uses i ∧
    (is_Some (revocation_event_id i) → is_Some rv).
Proof.
  intros Hi Hc. revert store i Hi.
  induction Hc as [|c calls Hc _ IH]; intros store i Hi Hle Hmax; cbn [invite_run fst snd].
  - exists (consumed_uses i), (revocation_event_id i). unfold uses_granted. simpl.
    split; [rewrite Hi; by destruct i|]. split; [lia|]. done.
  - destruct (invite_step_usage store c id i) as (u1 & rv1 & Hl & Hu & Hb & Hr); [done..|].
    destruct (IH _ _ Hl) as (u2 & rv2 & Hl2 & Hu2 & Hb2 & Hr2); [done..|].
    exists u2, rv2. split; [done|]. rewrite uses_granted_cons. simpl in Hu2, Hb2, Hr2.
    split; [lia|]. split; [done|]. auto.
Qed.

(** The calls at a moment when the invite cannot be used grant nothing. *)
Lemma unusable_run store calls id i :
  store !! id = Some i → Forall (λ c, issued_id c ≠ Some id) calls →
  consumed_uses i ≤ si_max_uses i → si_max_uses i ≤ u32_max →
  invite_is_revoked i = true ∨
  Forall (λ c, ∀ now, c = CallConsume id now → dt_lt (si_expires_at i) now = true) calls →
  uses_granted id calls (invite_run store calls).2 = 0.
Proof.
  intros Hi Hc. revert store i Hi.
  induction Hc as [|c calls Hc _ IH]; intros store i Hi Hle Hmax Hdead; cbn [invite_run fst snd].
  { done. }
  rewrite uses_granted_cons.
  destruct (invite_step_usage store c id i) as (u1 & rv1 & Hl & Hu & Hb & Hr); [done..|].
  assert (is_consume id c && is_ok (invite_step store c).2 = false) as ->.
  { destruct c as [| | | | |id' now]; try done. cbn [is_consume]. case_bool_decide; [subst id'|done].
    cbn [andb invite_step]. unfold store_consume. rewrite Hi.
    destruct (consume_guard i now) as [[]|] eqn:Hg; [|done].
    apply consume_guard_ok in Hg as [_ Hus]. unfold usable in Hus.
    rewrite !andb_true_iff, !negb_true_iff in Hus. destruct Hdead as [Hd|Hd]; [naive_solver|].
    apply Forall_cons in Hd as [Hd _]. rewrite (Hd now) in Hus by done. naive_solver. }
  rewrite (IH _ _ Hl); [done|done|done|]. cbn [si_expires_at with_usage].
  destruct Hdead as [Hd|Hd]; [left|right; by apply Forall_cons in Hd as [_ Hd]].
  unfold invite_is_revoked in *. apply bool_decide_eq_true in Hd.
  apply bool_decide_eq_true. by apply Hr.
Qed.

Context `{!Ed25519Laws}.

Lemma check_signature_signed k m {E} (e : E) :
  check_signature (vk_to_bytes (vk_of k)) (sig_to_bytes (sign k m)) m e = Ok tt.
Proof.
  unfold check_signature, len. rewrite vk_to_bytes_length. simpl.
  by rewrite vk_from_to_bytes, sig_from_slice_to_bytes; cbn; rewrite vk_verify_sign.
Qed.

Lemma signing_bytes_with_usage i u rv :
  invite_signing_bytes (with_usage i u rv) = invite_signing_bytes i.
Proof. by destruct i. Qed.

Lemma verify_with_usage i u rv :
  verify_issuer_signature (with_usage i u rv) = verify_issuer_signature i.
Proof. unfold verify_issuer_signature. by rewrite signing_bytes_with_usage. Qed.

(** A signed descriptor verifies exactly when its metadata is valid. *)
Lemma signed_invite_verifies input k :
  verify_issuer_signature (invite_sign input k) =
  (check signaling_validate (in_signaling_metadata input) in
   check opt_validate bootstrap_validate (in_bootstrap_metadata input) in
   check opt_validate snapshot_validate (in_admission_snapshot input) in
   check revocation_validate (in_revocation_policy input) in
   opt_validate password_policy_validate (in_password_policy input)).
Proof.
  unfold verify_issuer_signature, invite_sign. cbv zeta.
  cbn [invite_with_signature signaling_metadata bootstrap_metadata descriptor_schema_version
       admission_snapshot revocation_policy password_policy issuer_public_key issuer_signature].
  destruct (signaling_validate _) as [[]|]; [|done]. cbn [rbind].
  destruct (opt_validate bootstrap_validate _) as [[]|]; [|done]. cbn [rbind].
  change (1 =? INVITE_DESCRIPTOR_SCHEMA_VERSION) with true. cbn [negb reject_if rbind].
  destruct (opt_validate snapshot_validate _) as [[]|]; [|done]. cbn [rbind].
  destruct (revocation_validate _) as [[]|]; [|done]. cbn [rbind].
  destruct (opt_validate password_policy_validate _) as [[]|]; [|done]. cbn [rbind].
  apply check_signature_signed.
Qed.

(** Consuming a verified, unrevoked, unexpired invite [n] times. *)
Lemma consume_many store id i now n :
  store !! id = Some i → verify_issuer_signature i = Ok tt →
  invite_is_revoked i = false → dt_lt (si_expires_at i) now = false →
  consumed_uses i ≤ si_max_uses i → si_max_uses i ≤ u32_max →
  let left := N.to_nat (si_max_uses i - consumed_uses i) in
  (invite_run store (replicate n (CallConsume id now))).2 =
  replicate (n `min` left) (Ok tt) ++ replicate (n - left) (Err InviteExhausted).
Proof.
  revert store i. induction n as [|n IH]; intros store i Hi Hv Hr He Hle Hmax left; [done|].
  cbn [replicate invite_run invite_step]. unfold store_consume. rewrite Hi.
  unfold consume_guard. rewrite Hv, Hr, He. cbn [rbind reject_if].
  destruct (N.leb_spec (si_max_uses i) (consumed_uses i)) as [Hx|Hx];
    cbn [reject_if fst snd].
  - rewrite (IH _ i) by done. replace left with 0%nat by lia.
    replace (N.to_nat (si_max_uses i - consumed_uses i)) with 0%nat by lia.
    rewrite !Nat.min_0_r, !Nat.sub_0_r. done.
  - rewrite (IH _ (with_usage i (sat_add u32_max (consumed_uses i) 1) (revocation_event_id i)));
      [|by rewrite lookup_insert_eq|by rewrite verify_with_usage|done|done| |done].
    + cbn [si_max_uses consumed_uses with_usage]. unfold sat_add. subst left.
      replace (N.to_nat (si_max_uses i - N.min (consumed_uses i + 1) u32_max))
        with (N.to_nat (si_max_uses i - consumed_uses i) - 1)%nat by lia.
      assert (1 ≤ N.to_nat (si_max_uses i - consumed_uses i))%nat by lia.
      set (l := N.to_nat (si_max_uses i - consumed_uses i)) in *.
      replace (S n `min` l)%nat with (S (n `min` (l - 1)))%nat by lia.
      replace (S n - l)%nat with (n - (l - 1))%nat by lia. done.
    + cbn [si_max_uses consumed_uses with_usage]. unfold sat_add. lia.
Qed.

End invite_lemmas.

(** ** Properties *)

Section invite_properties.
Context `{Sha256, Ed25519, Hex, Rfc3339}.

(** C27. An invite is never used more often than its issuer allowed: over any sequence of
    store operations that does not issue the same random id again, the invite stays stored
    with its signed fields unchanged, its counter grows by exactly the consumptions that were
    granted and never passes [max_uses]; and once it is revoked, or for callers whose clock
    is past its expiry, no consumption is granted at all. *)
Theorem invite_uses_are_bounded store calls id i :
  store !! id = Some i → Forall (λ c, issued_id c ≠ Some id) calls →
  consumed_uses i ≤ si_max_uses i → si_max_uses i ≤ u32_max →
  let q := invite_run store calls in
  (∃ used rv, q.1 !! id = Some (with_usage i used rv) ∧
     used = consumed_uses i + uses_granted id calls q.2 ∧ used ≤ si_max_uses i) ∧
  (invite_is_revoked i = true → uses_granted id calls q.2 = 0) ∧
  (Forall (λ c, ∀ now, c = CallConsume id now → dt_lt (si_expires_at i) now = true) calls →
   uses_granted id calls q.2 = 0).
Proof.
  intros Hi Hc Hle Hmax q. split_and!.
  - destruct (invite_run_usage store calls id i) as (u & rv & ? & ? & ? & _); eauto.
  - intros Hr. apply (unusable_run _ _ _ i); auto.
  - intros He. apply (unusable_run _ _ _ i); auto.
Qed.

(** A canonical group invite works as issued: when issuing succeeds, the first
    [max(1, max_uses)] consumptions before expiry are accepted and every later one is
    rejected as exhausted. *)
Theorem canonical_invite_admits_max_uses `{!Ed25519Laws} rnd input k store store' i now n :
  issue_canonical_group_invite_v1 rnd input k store = (store', Ok i) →
  cg_max_uses input ≤ u32_max → dt_lt (cg_expires_at input) now = false →
  let m := N.to_nat (N.max (cg_max_uses input) 1) in
  (invite_run store' (replicate n (CallConsume (si_invite_id i) now))).2 =
  replicate (n `min` m) (Ok tt) ++ replicate (n - m) (Err InviteExhausted).
Proof.
  intros Hiss Hmax Hnow m. unfold issue_canonical_group_invite_v1, issue_checked in Hiss.
  destruct (canonical_guard input) as [[]|] eqn:Hg; [|done]. unfold store_issue in Hiss.
  cbn [fst snd] in Hiss. apply pair_eq in Hiss as [<- Hi]. set (inp := Build_StoredInviteSignInput _ _ _ _ _ _ _ _ _) in *.
  assert (invite_sign inp k = i) as <- by congruence. rewrite (consume_many _ _ (invite_sign inp k)).
  - cbn. unfold m. by rewrite N.sub_0_r.
  - by rewrite lookup_insert_eq.
  - rewrite signed_invite_verifies. subst inp. exact Hg.
  - done.
  - done.
  - cbn. lia.
  - cbn. unfold u32_max in *. lia.
Qed.

(** The issuer's signature commits to the whole descriptor: two invites with machine-
    sized fields whose signed bytes agree have the same id, room commitment, issuer key,
    signaling, ICE, bootstrap, admission, revocation and password policies and use limit, and
    expiries in the same millisecond. *)
Theorem invite_signature_binds i j :
  invite_fits i → invite_fits j →
  (same_descriptor i j ↔ invite_signing_bytes i = invite_signing_bytes j).
Proof.
  intros Hi Hj. split; [|by apply signing_bytes_descriptor].
  destruct i, j. unfold same_descriptor, invite_signing_bytes. simpl.
  intros (-> & -> & -> & -> & -> & -> & -> & -> & -> & ->). done.
Qed.

End invite_properties.

(** ** Witnesses *)

Section witnesses.
#[local] Existing Instance Toy.toy_sha.
#[local] Existing Instance Toy.toy_ed.
#[local] Existing Instance Toy.toy_ed_laws.
#[local] Existing Instance Toy.toy_hex.
#[local] Existing Instance Toy.toy_chrono.
#[local] Existing Instance Toy.toy_rfc3339.

Definition toy_hash : string := string_of_bytes (replicate 64 97).
Definition time (z : Z) : @datetime Toy.toy_chrono := z.

Definition toy_profile : InviteSignalingProfile := {|
  profile_id := "p1"; adapter_kind := InvMqtt; pr_endpoints := ["mqtts://b:8883"%string];
  room_topic_commitment := toy_hash; trust_fingerprint := toy_hash; pr_ttl_seconds := 60;
  metadata_posture := "hashed"; rate_limit_policy := "default";
  pr_capabilities := ["presence"%string]; provider_policy_version := 1;
  endpoint_allowlist_commitments := [toy_hash]; provider_rotation_policy := "reissue"
|}.

Definition toy_group_input : CanonicalGroupInviteV1Input := {|
  cg_room_secret := [1; 2; 3];
  cg_expires_at := time 1000;
  cg_max_uses := 2;
  cg_signaling_metadata := signaling_default_production;
  cg_bootstrap_metadata :=
    {| connectivity_schema_version := 1; invite_kind := GroupJoin;
       scope_id_commitment := toy_hash; signaling_profiles := [toy_profile];
       privacy_label := "commitments only"; dm_bootstrap := None;
       group_bootstrap := Some {| group_identity_commitment := toy_hash;
                                  gb_role_admission_policy_commitment := toy_hash;
                                  channel_policy_commitment := toy_hash |} |};
  cg_admission_snapshot :=
    {| group_id_commitment := toy_hash; group_commitment := toy_hash;
       admission_mode := "manual_approval"; policy_epoch := 3;
       sn_role_admission_policy_commitment := toy_hash; welcome_required := true |};
  cg_revocation_policy := revocation_default_open;
  cg_password_policy :=
    Some {| pw_required := true; pw_protocol := ProtocolOnlineAuthorizedHelper;
            pw_helper_id := Some "helper"%string; rate_limit_policy_commitment := toy_hash;
            offline_verifier_allowed := false |}
|}.

Definition toy_issue :=
  issue_canonical_group_invite_v1 [9] toy_group_input Toy.alice (∅ : gmap string StoredInvite).

Definition toy_invite : StoredInvite :=
  match toy_issue.2 with
  | Ok i => i
  | Err _ => invite_sign (Build_StoredInviteSignInput "" [] (time 0) 0
               signaling_default_production None None revocation_default_open None) Toy.bob
  end.

Lemma toy_issue_ok : toy_issue.2 = Ok toy_invite.
Proof.
  assert (is_ok toy_issue.2 = true) as Hok by (vm_compute; reflexivity).
  unfold toy_invite. revert Hok. by generalize toy_issue.2; intros [].
Qed.

Lemma toy_issue_eq :
  issue_canonical_group_invite_v1 [9] toy_group_input Toy.alice ∅ = (toy_issue.1, Ok toy_invite).
Proof. rewrite <- toy_issue_ok. exact (surjective_pairing toy_issue). Qed.

Lemma canonical_invite_admits_max_uses_witness :
  (invite_run toy_issue.1 (replicate 3 (CallConsume (si_invite_id toy_invite) (time 5)))).2 =
  [Ok tt; Ok tt; Err InviteExhausted].
Proof.
  apply (canonical_invite_admits_max_uses [9] toy_group_input Toy.alice ∅ toy_issue.1 toy_invite
           (time 5) 3).
  - exact toy_issue_eq.
  - vm_compute. discriminate.
  - reflexivity.
Defined.

Definition toy_invite_calls : list InviteCall :=
  [CallConsume (si_invite_id toy_invite) (time 5); CallRevoke (si_invite_id toy_invite) "ev";
   CallConsume (si_invite_id toy_invite) (time 6)].

Lemma invite_uses_are_bounded_witness :
  let id := si_invite_id toy_invite in
  let q := invite_run toy_issue.1 toy_invite_calls in
  uses_granted id toy_invite_calls q.2 = 1 ∧
  (∃ used rv, q.1 !! id = Some (with_usage toy_invite used rv) ∧
     used = consumed_uses toy_invite + uses_granted id toy_invite_calls q.2 ∧
     used ≤ si_max_uses toy_invite) ∧
  (invite_is_revoked toy_invite = true → uses_granted id toy_invite_calls q.2 = 0) ∧
  (Forall (λ c, ∀ now, c = CallConsume id now → dt_lt (si_expires_at toy_invite) now = true)
     toy_invite_calls → uses_granted id toy_invite_calls q.2 = 0).
Proof.
  split; [vm_compute; reflexivity|].
  apply (invite_uses_are_bounded toy_issue.1 toy_invite_calls _ toy_invite).
  - exact (issue_canonical_stored _ _ _ _ _ _ toy_issue_eq).
  - repeat constructor; discriminate.
  - vm_compute. discriminate.
  - vm_compute. discriminate.
Defined.

Definition toy_descriptor : StoredInvite := invite_sign {|
  in_invite_id := "aa";
  in_room_secret_commitment := replicate 32 7;
  in_expires_at := time 1000;
  in_max_uses := 2;
  in_signaling_metadata :=
    {| signaling_endpoint := "wss://relay"; endpoint_policy := ProductionTls;
       sm_trust := {| signaling_fingerprint := toy_hash; trust_status := "pinned" |};
       ice_endpoint_policy := ice_default_production |};
  in_bootstrap_metadata := Some (cg_bootstrap_metadata toy_group_input);
  in_admission_snapshot := Some (cg_admission_snapshot toy_group_input);
  in_revocation_policy :=
    {| revocable := true; revocation_authority_commitment := toy_hash;
       expiry_enforced := true; max_use_enforced := true |};
  in_password_policy := cg_password_policy toy_group_input
|} Toy.alice.

Lemma toy_descriptor_fits : invite_fits toy_descriptor.
Proof. repeat (split || constructor). discriminate.
Qed.

Lemma invite_signature_binds_witness :
  let j := with_usage toy_descriptor 1 (Some "ev"%string) in
  same_descriptor toy_descriptor j ↔
  invite_signing_bytes toy_descriptor = invite_signing_bytes j.
Proof. apply invite_signature_binds; exact toy_descriptor_fits. Defined.

End witnesses.
