(* ===== verification/Admission.v ===== *)
(** * Admission

    The second part of [crates/admission/src/lib.rs]: simple invites, signed Welcome
    authorizations, the online helper that rate-limits password attempts and signs proofs, and
    the controller that admits a joiner. Random challenge ids and salts are arguments. *)

From S2P Require Import Prelude Collections Bytes Framing StrOps Crypto Transport IcePolicy Invites.

(** ** The password decision record *)

Record AdmissionPasswordDecision := {
  selected_protocol : AdmissionPasswordProtocol;
  no_offline_verifier : string;
  rate_limit_proof : string;
  final_admission_gate : string;
  ux_error_states : list string
}.

Definition covers_adr_005 (d : AdmissionPasswordDecision) : bool :=
  match selected_protocol d with ProtocolOnlineAuthorizedHelper => true | _ => false end
  && str_contains "OfflineVerifierRejected" (no_offline_verifier d)
  && str_contains "OnlineAdmissionHelper" (rate_limit_proof d)
  && str_contains "Argon2id" (rate_limit_proof d)
  && str_contains "max_attempts" (rate_limit_proof d)
  && str_contains "AuthorizedWelcome" (final_admission_gate d)
  && str_contains "MLS Welcome/add" (final_admission_gate d)
  && bool_decide ("password_rejected"%string ∈ ux_error_states d)
  && bool_decide ("helper_proof_expired"%string ∈ ux_error_states d)
  && bool_decide ("welcome_required"%string ∈ ux_error_states d)
  && bool_decide ("offline_verifier_rejected"%string ∈ ux_error_states d).

Definition admission_password_decision : AdmissionPasswordDecision := {|
  selected_protocol := ProtocolOnlineAuthorizedHelper;
  no_offline_verifier := "PasswordGate::OfflineVerifier is rejected with InviteError::OfflineVerifierRejected; invite descriptors carry no offline-copyable verifier material.";
  rate_limit_proof := "OnlineAdmissionHelper stores a private Argon2id password hash server-side, counts attempts per subject with max_attempts, and returns the same PasswordRejected error for wrong password and over-limit cases.";
  final_admission_gate := "AdmissionController requires a valid AuthorizedHelperProof or PAKE result plus exact AuthorizedWelcome MLS Welcome/add authorization before invite consumption.";
  ux_error_states :=
    ["password_rejected"; "helper_mismatch"; "helper_proof_expired"; "welcome_required";
     "welcome_invalid"; "offline_verifier_rejected"]%string
|}.

(** ** Password gates *)

Inductive PasswordGate :=
| GateNone
| GateOpaquePake (server_id : string)
| GateOnlineHelper (helper_id : string)
| GateOfflineVerifier (verifier_id : string).

Definition supports_real_rate_limit (g : PasswordGate) : bool :=
  match g with GateNone | GateOpaquePake _ | GateOnlineHelper _ => true | _ => false end.

Definition requires_password (g : PasswordGate) : bool :=
  match g with GateNone => false | _ => true end.

Section admission.
Context `{Sha256, Ed25519, UuidText, Chrono, Argon2}.

(** ** Simple invites *)

Record Invite := {
  iv_id : N;
  room_secret_hash : bytes;
  iv_expires_at : datetime;
  iv_max_uses : N;
  iv_uses : N;
  iv_revoked : bool
}.

(** [uuid] is the fresh v4 id. *)
Definition invite_new (uuid : N) (room_secret : bytes) (expires_at : datetime) (max_uses : N) :
  Invite := {|
  iv_id := uuid;
  room_secret_hash := room_secret_commitment room_secret;
  iv_expires_at := expires_at;
  iv_max_uses := max_uses;
  iv_uses := 0;
  iv_revoked := false
|}.

Definition invite_revoke (i : Invite) : Invite := {|
  iv_id := iv_id i; room_secret_hash := room_secret_hash i; iv_expires_at := iv_expires_at i;
  iv_max_uses := iv_max_uses i; iv_uses := iv_uses i; iv_revoked := true
|}.

Definition with_uses (i : Invite) (uses : N) : Invite := {|
  iv_id := iv_id i; room_secret_hash := room_secret_hash i; iv_expires_at := iv_expires_at i;
  iv_max_uses := iv_max_uses i; iv_uses := uses; iv_revoked := iv_revoked i
|}.

Definition invite_consume (i : Invite) (now : datetime) : Invite * result unit InviteError :=
  match (check reject_if (iv_revoked i) InviteRevoked in
         check reject_if (dt_lt (iv_expires_at i) now) InviteExpired in
         reject_if (iv_max_uses i <=? iv_uses i) InviteExhausted) with
  | Err e => (i, Err e)
  | Ok _ => (with_uses i (sat_add u32_max (iv_uses i) 1), Ok tt)
  end.

(** ** Welcome authorizations *)

Record AuthorizedWelcome := {
  aw_invite_id : string;
  aw_group_id : bytes;
  aw_welcome_payload_hash : bytes;
  aw_expires_at : datetime;
  aw_issuer_public_key : bytes;
  aw_issuer_signature : bytes
}.

Definition welcome_payload_hash (payload : bytes) : bytes :=
  sha256 (as_bytes "discrypt-authorized-welcome-payload-v1" ++ payload).

Definition canonical_welcome_authorization_bytes (invite_id : string) (group_id hash : bytes)
    (expires_at : datetime) (issuer_public_key : bytes) : bytes :=
  as_bytes "discrypt-authorized-welcome" ++ [1]
  ++ framed_str invite_id ++ framed_bytes group_id ++ hash
  ++ le_i64 (dt_timestamp_millis expires_at) ++ framed_bytes issuer_public_key.

Definition welcome_signing_bytes (w : AuthorizedWelcome) : bytes :=
  canonical_welcome_authorization_bytes (aw_invite_id w) (aw_group_id w)
    (aw_welcome_payload_hash w) (aw_expires_at w) (aw_issuer_public_key w).

Definition welcome_sign (invite_id : string) (group_id payload : bytes) (expires_at : datetime)
    (issuer : signing_key) : AuthorizedWelcome :=
  let key := vk_to_bytes (vk_of issuer) in
  {| aw_invite_id := invite_id; aw_group_id := group_id;
     aw_welcome_payload_hash := welcome_payload_hash payload;
     aw_expires_at := expires_at; aw_issuer_public_key := key;
     aw_issuer_signature :=
       sig_to_bytes (sign issuer
         (canonical_welcome_authorization_bytes invite_id group_id
            (welcome_payload_hash payload) expires_at key)) |}.

Definition welcome_verify (w : AuthorizedWelcome) (expected_invite_id : string)
    (payload : bytes) (now : datetime) : result unit InviteError :=
  check reject_if (negb (bool_decide (aw_invite_id w = expected_invite_id)))
    WelcomeInviteMismatch in
  check reject_if (dt_lt (aw_expires_at w) now) WelcomeExpired in
  check reject_if
    (negb (bool_decide (aw_welcome_payload_hash w = welcome_payload_hash payload)))
    InvalidWelcomeAuthorization in
  check_signature (aw_issuer_public_key w) (aw_issuer_signature w) (welcome_signing_bytes w)
    InvalidWelcomeAuthorization.

(** ** Helper proofs *)

Record AuthorizedHelperProof := {
  hp_helper_id : string;
  hp_subject : string;
  hp_challenge_id : N;
  hp_expires_at : datetime;
  hp_helper_public_key : bytes;
  hp_signature : bytes
}.

(** [challenge_id.as_bytes()]: the 16 big-endian bytes of the [Uuid]. *)
Definition canonical_helper_proof_bytes (helper_id subject : string) (challenge_id : N)
    (expires_at : datetime) (helper_public_key : bytes) : bytes :=
  as_bytes "discrypt-online-helper-proof" ++ [1]
  ++ framed_str helper_id ++ framed_str subject ++ be_bytes 16 challenge_id
  ++ le_i64 (dt_timestamp_millis expires_at) ++ framed_bytes helper_public_key.

Definition proof_signing_bytes (p : AuthorizedHelperProof) : bytes :=
  canonical_helper_proof_bytes (hp_helper_id p) (hp_subject p) (hp_challenge_id p)
    (hp_expires_at p) (hp_helper_public_key p).

Definition proof_sign (helper_id subject : string) (challenge_id : N) (expires_at : datetime)
    (helper_key : signing_key) : AuthorizedHelperProof :=
  let key := vk_to_bytes (vk_of helper_key) in
  {| hp_helper_id := helper_id; hp_subject := subject; hp_challenge_id := challenge_id;
     hp_expires_at := expires_at; hp_helper_public_key := key;
     hp_signature :=
       sig_to_bytes (sign helper_key
         (canonical_helper_proof_bytes helper_id subject challenge_id expires_at key)) |}.

Definition proof_verify (p : AuthorizedHelperProof) (expected_helper_id expected_subject : string)
    (now : datetime) : result unit InviteError :=
  check reject_if
    (negb (bool_decide (hp_helper_id p = expected_helper_id))
     || negb (bool_decide (hp_subject p = expected_subject))) HelperMismatch in
  check reject_if (dt_lt (hp_expires_at p) now) HelperProofExpired in
  check_signature (hp_helper_public_key p) (hp_signature p) (proof_signing_bytes p)
    InvalidHelperProofSignature.

(** ** The online helper *)

Record OnlineAdmissionHelper := {
  oh_helper_id : string;
  oh_password_hash : string;
  oh_signing_key : signing_key;
  oh_max_attempts : N;
  oh_proof_ttl_seconds : Z;
  oh_attempts_by_subject : gmap string N
}.

(** [salt] is the fresh salt string. *)
Definition helper_new (salt helper_id : string) (password_secret : bytes) (key : signing_key)
    (max_attempts : N) (proof_ttl_seconds : Z) : OnlineAdmissionHelper := {|
  oh_helper_id := helper_id;
  oh_password_hash :=
    default "$argon2id$unavailable$admission-helper-disabled"%string
      (argon2_hash password_secret salt);
  oh_signing_key := key;
  oh_max_attempts := N.max max_attempts 1;
  oh_proof_ttl_seconds := Z.max proof_ttl_seconds 1;
  oh_attempts_by_subject := ∅
|}.

Definition helper_verify_password (h : OnlineAdmissionHelper) (attempt : bytes) : bool :=
  match phc_parse (oh_password_hash h) with
  | None => false
  | Some p => argon2_verify attempt p
  end.

Definition with_attempts (h : OnlineAdmissionHelper) (m : gmap string N) :
  OnlineAdmissionHelper := {|
  oh_helper_id := oh_helper_id h; oh_password_hash := oh_password_hash h;
  oh_signing_key := oh_signing_key h; oh_max_attempts := oh_max_attempts h;
  oh_proof_ttl_seconds := oh_proof_ttl_seconds h; oh_attempts_by_subject := m
|}.

(** [*entry(subject).or_default() = attempts.saturating_add(1)] *)
Definition count_attempt (m : gmap string N) (subject : string) : gmap string N * N :=
  let attempts := sat_add u32_max (default 0 (m !! subject)) 1 in
  (<[subject := attempts]> m, attempts).

(** [None] when the expiry overflows the calendar, which panics. *)
Definition helper_authorize (h : OnlineAdmissionHelper) (uuid : N) (subject : string)
    (attempt : bytes) (now : datetime) :
    option (OnlineAdmissionHelper * result AuthorizedHelperProof InviteError) :=
  let '(m, attempts) := count_attempt (oh_attempts_by_subject h) subject in
  let h' := with_attempts h m in
  if (oh_max_attempts h <? attempts) || negb (helper_verify_password h attempt)
  then Some (h', Err PasswordRejected)
  else
    ttl ← td_seconds (oh_proof_ttl_seconds h);
    expires_at ← dt_add now ttl;
    Some (h', Ok (proof_sign (oh_helper_id h) subject uuid expires_at (oh_signing_key h))).

Definition password_secret_commitment (password_secret : bytes) : bytes :=
  sha256 (as_bytes "discrypt-online-helper-password-v1" ++ password_secret).

(** ** The controller *)

Record AdmissionController := {
  ac_gate : PasswordGate;
  ac_max_attempts : N;
  ac_attempts_by_subject : gmap string N
}.

Definition controller_new (gate : PasswordGate) (max_attempts : N) : AdmissionController :=
  {| ac_gate := gate; ac_max_attempts := N.max max_attempts 1; ac_attempts_by_subject := ∅ |}.

Definition validate_gate (c : AdmissionController) : result unit InviteError :=
  reject_if (negb (supports_real_rate_limit (ac_gate c))) OfflineVerifierRejected.

Definition attempt_password (c : AdmissionController) (subject : string) (proof_ok : bool) :
    AdmissionController * result unit InviteError :=
  match validate_gate c with
  | Err e => (c, Err e)
  | Ok _ =>
      if negb (requires_password (ac_gate c)) then (c, Ok tt)
      else
        let '(m, attempts) := count_attempt (ac_attempts_by_subject c) subject in
        ({| ac_gate := ac_gate c; ac_max_attempts := ac_max_attempts c;
            ac_attempts_by_subject := m |},
         reject_if ((ac_max_attempts c <? attempts) || negb proof_ok) PasswordRejected)
  end.

Definition attempt_online_helper (c : AdmissionController) (subject : string)
    (p : AuthorizedHelperProof) (now : datetime) : result unit InviteError :=
  check validate_gate c in
  match ac_gate c with
  | GateOnlineHelper helper_id => proof_verify p helper_id subject now
  | _ => Err HelperMismatch
  end.

(** The checks both final operations start with. *)
Definition welcome_gate (i : Invite) (now : datetime) (w : option AuthorizedWelcome)
    (payload : bytes) : result unit InviteError :=
  let* w := ok_or w WelcomeRequired in
  welcome_verify w (uuid_to_string (iv_id i)) payload now.

Definition finalize_helper_admission (c : AdmissionController) (i : Invite) (now : datetime)
    (subject : string) (p : AuthorizedHelperProof) (w : option AuthorizedWelcome)
    (payload : bytes) : AdmissionController * Invite * result unit InviteError :=
  match (check welcome_gate i now w payload in attempt_online_helper c subject p now) with
  | Err e => (c, i, Err e)
  | Ok _ => let '(i', r) := invite_consume i now in (c, i', r)
  end.

Definition finalize_admission (c : AdmissionController) (i : Invite) (now : datetime)
    (subject : string) (proof_ok : bool) (w : option AuthorizedWelcome) (payload : bytes) :
    AdmissionController * Invite * result unit InviteError :=
  match welcome_gate i now w payload with
  | Err e => (c, i, Err e)
  | Ok _ =>
      match attempt_password c subject proof_ok with
      | (c', Err e) => (c', i, Err e)
      | (c', Ok _) => let '(i', r) := invite_consume i now in (c', i', r)
      end
  end.

End admission.

#[global] Arguments Invite {_}.
#[global] Arguments AuthorizedWelcome {_}.
#[global] Arguments AuthorizedHelperProof {_}.

(** ** Lemmas *)

Section admission_lemmas.
Context `{Sha256, Ed25519, UuidText, Chrono, Argon2}.

Lemma invite_consume_cases i now :
  invite_consume i now =
  if iv_revoked i then (i, Err InviteRevoked)
  else if dt_lt (iv_expires_at i) now then (i, Err InviteExpired)
  else if iv_max_uses i <=? iv_uses i then (i, Err InviteExhausted)
  else (with_uses i (sat_add u32_max (iv_uses i) 1), Ok tt).
Proof.
  unfold invite_consume, reject_if.
  by destruct (iv_revoked i), (dt_lt (iv_expires_at i) now), (iv_max_uses i <=? iv_uses i).
Qed.

(** What admission demands of an invite. *)
Definition invite_open (i : Invite) (now : datetime) : Prop :=
  iv_revoked i = false ∧ dt_lt (iv_expires_at i) now = false ∧ iv_uses i < iv_max_uses i.

Lemma invite_consume_ok i now i' :
  invite_consume i now = (i', Ok tt) ↔
  invite_open i now ∧ i' = with_uses i (sat_add u32_max (iv_uses i) 1).
Proof.
  rewrite invite_consume_cases. unfold invite_open.
  destruct (iv_revoked i), (dt_lt (iv_expires_at i) now),
    (N.leb_spec (iv_max_uses i) (iv_uses i)); simpl; split; intros; simplify_eq; try done;
    destruct_and?; simplify_eq; try done; lia.
Qed.

Lemma invite_consume_err i now i' e : invite_consume i now = (i', Err e) → i' = i.
Proof. rewrite invite_consume_cases. repeat case_match; congruence. Qed.

Lemma attempt_password_gate c subject ok :
  ac_gate (attempt_password c subject ok).1 = ac_gate c ∧
  ac_max_attempts (attempt_password c subject ok).1 = ac_max_attempts c.
Proof. unfold attempt_password. by destruct (validate_gate c), (requires_password (ac_gate c)). Qed.

(** ** Helper runs *)

Record HelperCall := {
  hc_uuid : N; hc_subject : string; hc_attempt : bytes; hc_now : datetime
}.

Fixpoint helper_run (h : OnlineAdmissionHelper) (calls : list HelperCall) :
    option (OnlineAdmissionHelper * list (result AuthorizedHelperProof InviteError)) :=
  match calls with
  | [] => Some (h, [])
  | c :: rest =>
      '(h', r) ← helper_authorize h (hc_uuid c) (hc_subject c) (hc_attempt c) (hc_now c);
      '(h'', rs) ← helper_run h' rest;
      Some (h'', r :: rs)
  end.

Definition calls_of (subject : string) (calls : list HelperCall) : N :=
  N.of_nat (length (filter (λ c, hc_subject c = subject) calls)).

(** The outcome of a call after [n] earlier calls for its subject: the password is only
    accepted within the budget, and the answer does not say which check failed. *)
Definition expected_outcome (h : OnlineAdmissionHelper) (n : N) (c : HelperCall)
    (r : result AuthorizedHelperProof InviteError) : Prop :=
  if (n <? oh_max_attempts h) && helper_verify_password h (hc_attempt c)
  then ∃ ttl expires_at,
         td_seconds (oh_proof_ttl_seconds h) = Some ttl ∧
         dt_add (hc_now c) ttl = Some expires_at ∧
         r = Ok (proof_sign (oh_helper_id h) (hc_subject c) (hc_uuid c) expires_at
                   (oh_signing_key h))
  else r = Err PasswordRejected.

Lemma helper_authorize_spec h c n h' r :
  default 0 (oh_attempts_by_subject h !! hc_subject c) = N.min n u32_max →
  oh_max_attempts h < u32_max →
  helper_authorize h (hc_uuid c) (hc_subject c) (hc_attempt c) (hc_now c) = Some (h', r) →
  h' = with_attempts h (<[hc_subject c := N.min (n + 1) u32_max]> (oh_attempts_by_subject h)) ∧
  expected_outcome h n c r.
Proof.
  intros Hn Hmax. unfold helper_authorize, count_attempt, expected_outcome. rewrite Hn.
  replace (sat_add u32_max (N.min n u32_max) 1) with (N.min (n + 1) u32_max)
    by (unfold sat_add; lia).
  destruct (N.ltb_spec (oh_max_attempts h) (N.min (n + 1) u32_max)),
    (N.ltb_spec n (oh_max_attempts h)); try lia; simpl.
  - by intros [= <- <-].
  - destruct (helper_verify_password h (hc_attempt c)); simpl; [|by intros [= <- <-]].
    intros (ttl & Ht & Hx)%bind_Some. apply bind_Some in Hx as (e & He & Hx). simplify_eq/=. eauto 10.
Qed.

Lemma helper_run_spec h (past : string → N) calls h' rs :
  (∀ s, default 0 (oh_attempts_by_subject h !! s) = N.min (past s) u32_max) →
  oh_max_attempts h < u32_max →
  helper_run h calls = Some (h', rs) →
  length rs = length calls ∧
  ∀ k c r, calls !! k = Some c → rs !! k = Some r →
    expected_outcome h (past (hc_subject c) + calls_of (hc_subject c) (take k calls)) c r.
Proof.
  revert h past h' rs. induction calls as [|c0 calls IH]; intros h past h' rs Hpast Hmax; simpl.
  { intros [= <- <-]. by split. }
  intros ([h1 r0] & Hstep & Hx)%bind_Some. apply bind_Some in Hx as ([h2 rs'] & Hrun & Hx).
  injection Hx as <- <-.
  apply (helper_authorize_spec h c0 (past (hc_subject c0))) in Hstep as [-> Hout]; [|done..].
  apply (IH _ (λ s, past s + if decide (hc_subject c0 = s) then 1 else 0)) in Hrun as [Hlen Hrun];
    [|intros s; simpl; destruct (decide (hc_subject c0 = s)) as [<-|Hne];
      [by rewrite lookup_insert_eq|by rewrite lookup_insert_ne, N.add_0_r by done]|done].
  split; [simpl; lia|]. intros [|k] c r; simpl.
  - intros [= <-] [= <-]. by rewrite N.add_0_r.
  - intros Hc Hr. specialize (Hrun k c r Hc Hr). unfold calls_of in *. rewrite filter_cons.
    revert Hrun. cbn beta. destruct (decide (hc_subject c0 = hc_subject c)); simpl; intros Hrun;
      [|by rewrite N.add_0_r in Hrun].
    rewrite <- N.add_assoc in Hrun. by rewrite Nat2N.inj_succ, <- N.add_1_l.
Qed.

Context `{!Ed25519Laws}.

Lemma signed_welcome_verifies id group payload expires k now :
  dt_lt expires now = false →
  welcome_verify (welcome_sign id group payload expires k) id payload now = Ok tt.
Proof.
  intros He. unfold welcome_verify. cbn [welcome_sign aw_invite_id aw_expires_at
    aw_welcome_payload_hash aw_issuer_public_key aw_issuer_signature].
  rewrite !bool_decide_true, He by done. cbn [negb reject_if rbind].
  unfold welcome_signing_bytes. cbn. apply check_signature_signed.
Qed.

Lemma signed_proof_verifies id subject uuid expires k now :
  dt_lt expires now = false →
  proof_verify (proof_sign id subject uuid expires k) id subject now = Ok tt.
Proof.
  intros He. unfold proof_verify. cbn [proof_sign hp_helper_id hp_subject hp_expires_at
    hp_helper_public_key hp_signature].
  rewrite !bool_decide_true, He by done. cbn [negb orb reject_if rbind].
  unfold proof_signing_bytes. cbn. apply check_signature_signed.
Qed.

End admission_lemmas.

(** ** Sequences of admissions *)

Section admission_runs.
Context `{Sha256, Ed25519, UuidText, Chrono, Argon2}.

Inductive AdmissionCall :=
| CallFinalizeHelper (now : datetime) (subject : string) (p : AuthorizedHelperProof)
    (w : option AuthorizedWelcome) (payload : bytes)
| CallFinalize (now : datetime) (subject : string) (proof_ok : bool)
    (w : option AuthorizedWelcome) (payload : bytes)
| CallRevokeInvite.

Definition admission_step (ci : AdmissionController * Invite) (call : AdmissionCall) :
    AdmissionController * Invite * result unit InviteError :=
  let '(c, i) := ci in
  match call with
  | CallFinalizeHelper now subject p w payload =>
      finalize_helper_admission c i now subject p w payload
  | CallFinalize now subject ok w payload => finalize_admission c i now subject ok w payload
  | CallRevokeInvite => (c, invite_revoke i, Ok tt)
  end.

Fixpoint admission_run (ci : AdmissionController * Invite) (calls : list AdmissionCall) :
    AdmissionController * Invite * list (result unit InviteError) :=
  match calls with
  | [] => (ci, [])
  | call :: rest =>
      let '(ci', r) := admission_step ci call in
      let '(ci'', rs) := admission_run ci' rest in (ci'', r :: rs)
  end.

Definition is_admission (call : AdmissionCall) : bool :=
  match call with CallRevokeInvite => false | _ => true end.

Definition admitted (calls : list AdmissionCall) (rs : list (result unit InviteError)) : N :=
  N.of_nat (length (filter (λ p : AdmissionCall * result unit InviteError,
    is_admission p.1 && is_ok p.2 = true) (zip calls rs))).

(** Everything an admission was checked against. *)
Definition admission_evidence (c : AdmissionController) (i : Invite) (call : AdmissionCall) :
    Prop :=
  match call with
  | CallFinalizeHelper now subject p w payload =>
      invite_open i now ∧
      (∃ a, w = Some a ∧ welcome_verify a (uuid_to_string (iv_id i)) payload now = Ok tt) ∧
      (∃ h, ac_gate c = GateOnlineHelper h ∧ proof_verify p h subject now = Ok tt)
  | CallFinalize now subject ok w payload =>
      invite_open i now ∧
      (∃ a, w = Some a ∧ welcome_verify a (uuid_to_string (iv_id i)) payload now = Ok tt) ∧
      supports_real_rate_limit (ac_gate c) = true ∧
      (requires_password (ac_gate c) = true →
       ok = true ∧
       sat_add u32_max (default 0 (ac_attempts_by_subject c !! subject)) 1 ≤ ac_max_attempts c)
  | CallRevokeInvite => True
  end.

Lemma welcome_gate_ok i now w payload :
  welcome_gate i now w payload = Ok tt ↔
  ∃ a, w = Some a ∧ welcome_verify a (uuid_to_string (iv_id i)) payload now = Ok tt.
Proof. unfold welcome_gate. destruct w as [a|]; simpl; naive_solver. Qed.

Lemma attempt_online_helper_ok c subject p now :
  attempt_online_helper c subject p now = Ok tt ↔
  ∃ h, ac_gate c = GateOnlineHelper h ∧ proof_verify p h subject now = Ok tt.
Proof.
  unfold attempt_online_helper, validate_gate. destruct (ac_gate c); simpl; naive_solver.
Qed.

Lemma attempt_password_ok c subject ok :
  (attempt_password c subject ok).2 = Ok tt ↔
  supports_real_rate_limit (ac_gate c) = true ∧
  (requires_password (ac_gate c) = true →
   ok = true ∧
   sat_add u32_max (default 0 (ac_attempts_by_subject c !! subject)) 1 ≤ ac_max_attempts c).
Proof.
  unfold attempt_password, validate_gate, count_attempt, reject_if.
  destruct (supports_real_rate_limit (ac_gate c)); simpl; [|naive_solver].
  destruct (requires_password (ac_gate c)); simpl; [|naive_solver].
  destruct (N.ltb_spec (ac_max_attempts c)
    (sat_add u32_max (default 0 (ac_attempts_by_subject c !! subject)) 1)), ok; simpl;
    split; try done; intros; destruct_and?; naive_solver lia.
Qed.

(** An admission is granted exactly on this evidence, and then uses up one use. *)
Lemma admission_step_spec c i call :
  is_admission call = true →
  let q := admission_step (c, i) call in
  (q.2 = Ok tt ↔ admission_evidence c i call) ∧
  q.1.2 = (if is_ok q.2 then with_uses i (sat_add u32_max (iv_uses i) 1) else i).
Proof.
  destruct call as [now subject p w payload|now subject ok w payload|]; [| |done];
    intros _; cbn [admission_step admission_evidence].
  - unfold finalize_helper_admission. rewrite <- welcome_gate_ok, <- attempt_online_helper_ok.
    destruct (welcome_gate i now w payload) as [[]|]; cbn [rbind]; [|simpl; naive_solver].
    destruct (attempt_online_helper c subject p now) as [[]|]; [|simpl; naive_solver].
    destruct (invite_consume i now) as [i' [[]|e]] eqn:Hc; simpl.
    + apply invite_consume_ok in Hc as [Ho ->]. naive_solver.
    + pose proof (invite_consume_err _ _ _ _ Hc) as ->. split; [|done]. split; [done|].
      intros (Ho & _). by rewrite (proj2 (invite_consume_ok i now _) (conj Ho eq_refl)) in Hc.
  - unfold finalize_admission. rewrite <- welcome_gate_ok, <- (attempt_password_ok c subject ok).
    destruct (welcome_gate i now w payload) as [[]|]; [|simpl; naive_solver].
    destruct (attempt_password c subject ok) as [c' [[]|e]]; [|simpl; naive_solver].
    destruct (invite_consume i now) as [i' [[]|e]] eqn:Hc; simpl.
    + apply invite_consume_ok in Hc as [Ho ->]. naive_solver.
    + pose proof (invite_consume_err _ _ _ _ Hc) as ->. split; [|done]. split; [done|].
      intros (Ho & _). by rewrite (proj2 (invite_consume_ok i now _) (conj Ho eq_refl)) in Hc.
Qed.

Lemma admitted_cons call r calls rs :
  admitted (call :: calls) (r :: rs)
  = (if is_admission call && is_ok r then 1 else 0) + admitted calls rs.
Proof.
  unfold admitted. cbn [zip zip_with]. rewrite filter_cons. simpl.
  destruct (is_admission call && is_ok r); simpl; lia.
Qed.

Lemma admission_step_uses c i call :
  iv_uses i ≤ iv_max_uses i → iv_max_uses i ≤ u32_max →
  let q := admission_step (c, i) call in
  iv_uses q.1.2 = iv_uses i + (if is_admission call && is_ok q.2 then 1 else 0) ∧
  iv_uses q.1.2 ≤ iv_max_uses i ∧ iv_max_uses q.1.2 = iv_max_uses i.
Proof.
  intros Hle Hmax. destruct (is_admission call) eqn:Hc.
  - destruct (admission_step_spec c i call Hc) as [He Hi]. cbv zeta. rewrite Hi.
    destruct (admission_step (c, i) call).2 as [[]|e]; cbn [is_ok andb];
      [|split; [lia|done]].
    assert (iv_uses i < iv_max_uses i).
    { destruct He as [He _]. specialize (He eq_refl).
      destruct call; cbn [admission_evidence] in He; [| |done]; by destruct He as [(_ & _ & ?) _]. }
    cbn [iv_uses iv_max_uses with_uses]. unfold sat_add. lia.
  - destruct call; try done. simpl. lia.
Qed.

Lemma admission_run_cons ci call calls :
  admission_run ci (call :: calls) =
  let r := admission_step ci call in
  let q := admission_run r.1 calls in (q.1, r.2 :: q.2).
Proof.
  cbn [admission_run]. destruct (admission_step ci call) as [ci' r]. cbn [fst snd].
  by destruct (admission_run ci' calls).
Qed.


(** Online password guessing is limited: for a new helper, in any sequence of attempts,
    a call gets a proof exactly when fewer than [max_attempts] earlier calls named the same
    subject and the password verifies; every other call gets the same [PasswordRejected], and
    the proof is the helper's signature for that subject with the configured lifetime. *)
Theorem helper_attempts_are_limited salt helper_id password key max_attempts ttl calls h rs :
  N.max max_attempts 1 < u32_max →
  let h0 := helper_new salt helper_id password key max_attempts ttl in
  helper_run h0 calls = Some (h, rs) →
  length rs = length calls ∧
  ∀ k c r, calls !! k = Some c → rs !! k = Some r →
    expected_outcome h0 (calls_of (hc_subject c) (take k calls)) c r.
Proof.
  intros Hmax h0 Hrun. by apply (helper_run_spec h0 (λ _, 0)) in Hrun.
Qed.

Context `{!Ed25519Laws, !Argon2Laws}.

(** A helper proof works: the right password of a subject within its budget yields a
    proof that the gate naming this helper accepts for that subject until it expires. *)
Theorem helper_proof_is_accepted salt helper_id password key max_attempts ttl uuid subject now
    hash h r expires c later :
  argon2_hash password salt = Some hash →
  let h0 := helper_new salt helper_id password key max_attempts ttl in
  helper_authorize h0 uuid subject password now = Some (h, r) →
  td_seconds (Z.max ttl 1) ≫= dt_add now = Some expires →
  ac_gate c = GateOnlineHelper helper_id → dt_lt expires later = false →
  ∃ p, r = Ok p ∧ attempt_online_helper c subject p later = Ok tt.
Proof.
  intros Hh h0 Ha He Hg Hl. apply bind_Some in He as (t & Ht & He).
  assert (helper_verify_password h0 password = true) as Hv.
  { unfold helper_verify_password. subst h0. simpl. rewrite Hh. simpl.
    destruct (argon2_verify_hash _ _ _ Hh) as (p & -> & ->). done. }
  unfold helper_authorize in Ha. rewrite Hv in Ha. subst h0. simpl in Ha.
  unfold count_attempt in Ha. rewrite lookup_empty in Ha. simpl in Ha.
  rewrite (proj2 (N.ltb_ge _ _)) in Ha by (unfold sat_add; lia). simpl in Ha.
  rewrite Ht in Ha. simpl in Ha. rewrite He in Ha. simpl in Ha. simplify_eq.
  eexists. split; [done|]. apply attempt_online_helper_ok. exists helper_id. split; [done|].
  by apply signed_proof_verifies.
Qed.

(** No key is pinned: any Ed25519 key, not only the helper's and the issuer's, signs a
    proof and a Welcome authorization that the online-helper gate accepts, so whoever knows
    an open invite's id admits any subject without the helper or the issuer taking part. *)
Theorem any_key_passes_the_helper_gate k c i now subject payload helper_id uuid group expires :
  ac_gate c = GateOnlineHelper helper_id → invite_open i now → dt_lt expires now = false →
  finalize_helper_admission c i now subject (proof_sign helper_id subject uuid expires k)
    (Some (welcome_sign (uuid_to_string (iv_id i)) group payload expires k)) payload
  = (c, with_uses i (sat_add u32_max (iv_uses i) 1), Ok tt).
Proof.
  intros Hg Ho He. unfold finalize_helper_admission.
  rewrite (proj2 (welcome_gate_ok _ _ _ _)); cbn [rbind].
  - rewrite (proj2 (attempt_online_helper_ok _ _ _ _)).
    + by rewrite (proj2 (invite_consume_ok i now _) (conj Ho eq_refl)).
    + exists helper_id. split; [done|]. by apply signed_proof_verifies.
  - eexists. split; [done|]. by apply signed_welcome_verifies.
Qed.

End admission_runs.

(** ** Witnesses *)

Section witnesses.
#[local] Existing Instance Toy.toy_sha.
#[local] Existing Instance Toy.toy_ed.
#[local] Existing Instance Toy.toy_ed_laws.
#[local] Existing Instance Toy.toy_uuid.
#[local] Existing Instance Toy.toy_chrono.
#[local] Existing Instance Toy.toy_argon2.
#[local] Existing Instance Toy.toy_argon2_laws.

Definition toy_simple_invite : Invite := invite_new 7 [1] (time 100) 1.
Definition toy_controller : AdmissionController := controller_new (GateOnlineHelper "helper") 3.
Definition toy_welcome : AuthorizedWelcome :=
  welcome_sign (uuid_to_string 7) [5] [9] (time 100) Toy.alice.
Definition toy_proof : AuthorizedHelperProof := proof_sign "helper" "bob" 8 (time 100) Toy.alice.
Definition toy_admissions : list AdmissionCall :=
  [CallFinalizeHelper (time 5) "bob" toy_proof (Some toy_welcome) [8];
   CallFinalizeHelper (time 5) "bob" toy_proof (Some toy_welcome) [9];
   CallFinalizeHelper (time 6) "bob" toy_proof (Some toy_welcome) [9]].


Definition toy_helper : OnlineAdmissionHelper := helper_new "salt" "helper" [3; 4] Toy.bob 1 60.
Definition toy_helper_calls : list HelperCall :=
  [{| hc_uuid := 1; hc_subject := "bob"; hc_attempt := [3; 4]; hc_now := time 0 |};
   {| hc_uuid := 2; hc_subject := "bob"; hc_attempt := [3; 4]; hc_now := time 1 |}].

Definition toy_helper_result :=
  default (toy_helper, []) (helper_run toy_helper toy_helper_calls).

Lemma helper_attempts_are_limited_witness :
  (is_ok <$> toy_helper_result.2) = [true; false] ∧
  length toy_helper_result.2 = length toy_helper_calls ∧
  ∀ k c r, toy_helper_calls !! k = Some c → toy_helper_result.2 !! k = Some r →
    expected_outcome toy_helper (calls_of (hc_subject c) (take k toy_helper_calls)) c r.
Proof.
  split; [reflexivity|].
  apply (helper_attempts_are_limited "salt" "helper" [3; 4] Toy.bob 1 60 toy_helper_calls
           toy_helper_result.1); reflexivity.
Defined.

Lemma helper_proof_is_accepted_witness :
  ∃ p, Ok (E := InviteError) (proof_sign "helper" "bob" 1 (time 60000000000) Toy.bob) = Ok p ∧
       attempt_online_helper toy_controller "bob" p (time 5) = Ok tt.
Proof.
  eapply (helper_proof_is_accepted "salt" "helper" [3; 4] Toy.bob 1 60 1 "bob" (time 0) _ _ _
           (time 60000000000)); reflexivity.
Defined.

Lemma any_key_passes_the_helper_gate_witness :
  finalize_helper_admission toy_controller toy_simple_invite (time 5) "mallory"
    (proof_sign "helper" "mallory" 9 (time 100) Toy.bob)
    (Some (welcome_sign (uuid_to_string 7) [] [6] (time 100) Toy.bob)) [6]
  = (toy_controller, with_uses toy_simple_invite 1, Ok tt).
Proof.
  apply (any_key_passes_the_helper_gate Toy.bob toy_controller toy_simple_invite (time 5)
           "mallory" [6] "helper" 9 [] (time 100)).
  - reflexivity.
  - repeat split; reflexivity.
  - reflexivity.
Defined.

End witnesses.
