(* ===== verification/SFrame.v ===== *)
(** * Media frame protection

    [crates/media/src/sframe.rs] and [transform_bridge.rs]: sender bindings and their key
    ids, per-sender media keys derived from the MLS exporter, the counting sender, the
    receiver's key registry and replay window, and the bridge that hands frames to the
    WebRTC transform. *)

From S2P Require Import Prelude Collections Bytes Framing StrOps Crypto MlsGroup ReplayWindow.

(** ** Types *)

Record SenderBinding := {
  sb_kid : bytes;
  sb_group_id : string;
  sb_epoch : N;
  sb_leaf_index : N;
  sb_device_id : string
}.

Inductive MediaError :=
| UnknownSender
| MediaReplay
| AuthenticationFailed
| BindingMismatch
| KidBindingMismatch
| DuplicateKid
| InvalidBinding
| CounterOverflow
| InvalidAudioFrame (detail : string)
| OpusEncodeFailed (detail : string)
| OpusDecodeFailed (detail : string)
| PlaybackFailed (detail : string)
| InvalidPlaybackVolume (millipercent : N)
| MediaMuted
| MediaTransportFailed (detail : string).

Record ProtectedFrame := { pf_kid : bytes; pf_counter : N; pf_ciphertext : bytes }.

Record VerifiedFrame := { vf_binding : SenderBinding; vf_counter : N; vf_plaintext : bytes }.

Record SFrameKey := { sk_bytes : bytes; sk_kid : bytes; sk_binding_hash : bytes }.

Record SFrameSender := { ss_binding : SenderBinding; ss_key : SFrameKey; ss_next_counter : N }.

Record BoundMediaKey := { bk_binding : SenderBinding; bk_key : SFrameKey }.

Abbreviation MediaKeyRegistry := (gmap bytes BoundMediaKey).

Record SFrameReplayWindow := {
  rw_window_size : N;
  rw_seen_by_kid : gmap bytes ReplayState
}.

Record SFrameReceiver := { sr_registry : MediaKeyRegistry; sr_replay : SFrameReplayWindow }.

Definition with_kid (b : SenderBinding) (kid : bytes) : SenderBinding := {|
  sb_kid := kid; sb_group_id := sb_group_id b; sb_epoch := sb_epoch b;
  sb_leaf_index := sb_leaf_index b; sb_device_id := sb_device_id b
|}.

(** ** Replay window *)

Definition replay_window_new (window_size : N) : SFrameReplayWindow :=
  {| rw_window_size := N.max window_size 1; rw_seen_by_kid := ∅ |}.

Definition DEFAULT_REPLAY_WINDOW : N := 64.

Definition set_kid (r : SFrameReplayWindow) (kid : bytes) (st : ReplayState) :
    SFrameReplayWindow :=
  {| rw_window_size := rw_window_size r; rw_seen_by_kid := <[kid := st]> (rw_seen_by_kid r) |}.

Definition window_accept (r : SFrameReplayWindow) (kid : bytes) (counter : N) :
    SFrameReplayWindow * result unit MediaError :=
  let st := default {| rs_max_seen := counter; rs_seen := ∅ |} (rw_seen_by_kid r !! kid) in
  let floor := rs_max_seen st - (rw_window_size r - 1) in
  if (counter <? floor) || bool_decide (counter ∈ rs_seen st)
  then (set_kid r kid st, Err MediaReplay)
  else
    let max_seen := if rs_max_seen st <? counter then counter else rs_max_seen st in
    let new_floor := max_seen - (rw_window_size r - 1) in
    let seen := filter (λ s, new_floor ≤ s) (rs_seen st) in
    (set_kid r kid {| rs_max_seen := max_seen; rs_seen := {[counter]} ∪ seen |}, Ok tt).

Section sframe.
Context `{Sha256, Aes256Gcm}.

(** ** Bindings *)

Definition validate_without_kid (b : SenderBinding) : result unit MediaError :=
  reject_if (is_blank (sb_group_id b) || is_blank (sb_device_id b)) InvalidBinding.

Definition binding_validate (b : SenderBinding) : result unit MediaError :=
  check validate_without_kid b in
  reject_if (bool_decide (sb_kid b = [])) InvalidBinding.

(** What the key id hashes. *)
Definition kid_input (epoch_secret : bytes) (b : SenderBinding) : bytes :=
  as_bytes "discrypt-sframe-kid-v1"
  ++ push_bytes (as_bytes (sb_group_id b))
  ++ be_u64 (sb_epoch b) ++ be_u32 (sb_leaf_index b)
  ++ push_bytes (as_bytes (sb_device_id b))
  ++ epoch_secret.

Definition derived_kid (epoch_secret : bytes) (b : SenderBinding) : bytes :=
  take 16 (sha256 (kid_input epoch_secret b)).

Definition verify_derived_kid (b : SenderBinding) (epoch_secret : bytes) :
    result unit MediaError :=
  check binding_validate b in
  reject_if (negb (bool_decide (sb_kid b = derived_kid epoch_secret b))) KidBindingMismatch.

Definition derive_for_epoch (epoch_secret : bytes) (group_id : string) (epoch leaf_index : N)
    (device_id : string) : result SenderBinding MediaError :=
  let b := {| sb_kid := []; sb_group_id := group_id; sb_epoch := epoch;
              sb_leaf_index := leaf_index; sb_device_id := device_id |} in
  check validate_without_kid b in
  let b' := with_kid b (derived_kid epoch_secret b) in
  check binding_validate b' in Ok b'.

Definition binding_context (b : SenderBinding) : bytes :=
  as_bytes "discrypt-sframe-binding-v1"
  ++ push_bytes (sb_kid b)
  ++ push_bytes (as_bytes (sb_group_id b))
  ++ be_u64 (sb_epoch b) ++ be_u32 (sb_leaf_index b)
  ++ push_bytes (as_bytes (sb_device_id b)).

Definition binding_hash (b : SenderBinding) : bytes := sha256 (binding_context b).

Definition nonce_for (hash : bytes) (counter : N) : bytes :=
  take 12 (sha256 (as_bytes "discrypt-sframe-nonce-v1" ++ hash ++ be_u64 counter)).

Definition frame_aad (b : SenderBinding) (counter : N) : bytes :=
  binding_context b ++ be_u64 counter.

(** ** Keys *)

Definition key_derive (epoch_secret : bytes) (b : SenderBinding) : result SFrameKey MediaError :=
  check verify_derived_kid b epoch_secret in
  Ok {| sk_bytes := derive_epoch_secret epoch_secret ExportMedia (binding_context b);
        sk_kid := sb_kid b;
        sk_binding_hash := binding_hash b |}.

Definition key_fingerprint (k : SFrameKey) : bytes :=
  sha256 (as_bytes "discrypt-sframe-key-fingerprint-v1" ++ sk_binding_hash k ++ sk_bytes k).

Definition verify_binding (k : SFrameKey) (b : SenderBinding) : result unit MediaError :=
  check binding_validate b in
  reject_if
    (negb (bool_decide (sk_kid k = sb_kid b) && bool_decide (sk_binding_hash k = binding_hash b)))
    BindingMismatch.

(** [Aes256Gcm::new] takes the key as a 32-byte array, so it has no error of its own. *)
Definition key_protect (k : SFrameKey) (b : SenderBinding) (counter : N) (plaintext : bytes) :
    result ProtectedFrame MediaError :=
  check verify_binding k b in
  let* ct :=
    ok_or (c ← gcm_new (sk_bytes k);
           gcm_encrypt c (nonce_for (sk_binding_hash k) counter) (frame_aad b counter) plaintext)
      AuthenticationFailed in
  Ok {| pf_kid := sb_kid b; pf_counter := counter; pf_ciphertext := ct |}.

Definition key_open (k : SFrameKey) (b : SenderBinding) (f : ProtectedFrame) :
    result bytes MediaError :=
  check verify_binding k b in
  check reject_if (negb (bool_decide (pf_kid f = sk_kid k))) BindingMismatch in
  ok_or (c ← gcm_new (sk_bytes k);
         gcm_decrypt c (nonce_for (sk_binding_hash k) (pf_counter f))
           (frame_aad b (pf_counter f)) (pf_ciphertext f))
    AuthenticationFailed.

(** ** Senders *)

Definition sender_new (epoch_secret : bytes) (b : SenderBinding) :
    result SFrameSender MediaError :=
  let* k := key_derive epoch_secret b in
  Ok {| ss_binding := b; ss_key := k; ss_next_counter := 0 |}.

Definition sender_new_for_epoch (epoch_secret : bytes) (group_id : string)
    (epoch leaf_index : N) (device_id : string) : result SFrameSender MediaError :=
  let* b := derive_for_epoch epoch_secret group_id epoch leaf_index device_id in
  sender_new epoch_secret b.

Definition rotate_for_epoch (s : SFrameSender) (epoch_secret : bytes) (group_id : string)
    (epoch leaf_index : N) (device_id : string) : SFrameSender * result unit MediaError :=
  match (let* b := derive_for_epoch epoch_secret group_id epoch leaf_index device_id in
         let* k := key_derive epoch_secret b in Ok (b, k)) with
  | Err e => (s, Err e)
  | Ok (b, k) => ({| ss_binding := b; ss_key := k; ss_next_counter := 0 |}, Ok tt)
  end.

(** The frame is dropped when the counter cannot advance. *)
Definition sender_protect (s : SFrameSender) (plaintext : bytes) :
    SFrameSender * result ProtectedFrame MediaError :=
  match key_protect (ss_key s) (ss_binding s) (ss_next_counter s) plaintext with
  | Err e => (s, Err e)
  | Ok f =>
      if u64_max <=? ss_next_counter s then (s, Err CounterOverflow)
      else ({| ss_binding := ss_binding s; ss_key := ss_key s;
               ss_next_counter := ss_next_counter s + 1 |}, Ok f)
  end.

(** ** Registry and receiver *)

Definition register_sender (r : MediaKeyRegistry) (epoch_secret : bytes) (b : SenderBinding) :
    MediaKeyRegistry * result unit MediaError :=
  match r !! sb_kid b with
  | Some _ => (r, Err DuplicateKid)
  | None =>
      match key_derive epoch_secret b with
      | Err e => (r, Err e)
      | Ok k => (<[sb_kid b := {| bk_binding := b; bk_key := k |}]> r, Ok tt)
      end
  end.

Definition binding_for_kid (r : MediaKeyRegistry) (kid : bytes) : option SenderBinding :=
  bk_binding <$> r !! kid.

Definition registry_open (r : MediaKeyRegistry) (f : ProtectedFrame) :
    result VerifiedFrame MediaError :=
  let* bound := ok_or (r !! pf_kid f) UnknownSender in
  let* plaintext := key_open (bk_key bound) (bk_binding bound) f in
  Ok {| vf_binding := bk_binding bound; vf_counter := pf_counter f; vf_plaintext := plaintext |}.

Definition receiver_open (r : SFrameReceiver) (f : ProtectedFrame) :
    SFrameReceiver * result VerifiedFrame MediaError :=
  match registry_open (sr_registry r) f with
  | Err e => (r, Err e)
  | Ok verified =>
      match window_accept (sr_replay r) (pf_kid f) (pf_counter f) with
      | (w, Err e) => ({| sr_registry := sr_registry r; sr_replay := w |}, Err e)
      | (w, Ok _) => ({| sr_registry := sr_registry r; sr_replay := w |}, Ok verified)
      end
  end.

(** ** The transform bridge *)

Record BridgeProtectedFrame := { bp_kid : bytes; bp_counter : N; bp_bytes : bytes }.

Record BridgeVerifiedFrame := { bv_sender : SenderBinding; bv_counter : N; bv_clear : bytes }.

Definition to_bridge (f : ProtectedFrame) : BridgeProtectedFrame :=
  {| bp_kid := pf_kid f; bp_counter := pf_counter f; bp_bytes := pf_ciphertext f |}.

Definition from_bridge (f : BridgeProtectedFrame) : ProtectedFrame :=
  {| pf_kid := bp_kid f; pf_counter := bp_counter f; pf_ciphertext := bp_bytes f |}.

Record RustTransformBridge := { tb_sender : SFrameSender; tb_receiver : SFrameReceiver }.

Definition protect_encoded (t : RustTransformBridge) (clear : bytes) :
    RustTransformBridge * result BridgeProtectedFrame MediaError :=
  let '(s, r) := sender_protect (tb_sender t) clear in
  ({| tb_sender := s; tb_receiver := tb_receiver t |}, rmap to_bridge r).

Definition open_protected_frame (t : RustTransformBridge) (f : BridgeProtectedFrame) :
    RustTransformBridge * result BridgeVerifiedFrame MediaError :=
  let '(rc, r) := receiver_open (tb_receiver t) (from_bridge f) in
  ({| tb_sender := tb_sender t; tb_receiver := rc |},
   rmap (λ v, {| bv_sender := vf_binding v; bv_counter := vf_counter v;
                 bv_clear := vf_plaintext v |}) r).

Definition open_encoded (t : RustTransformBridge) (f : BridgeProtectedFrame) :
    RustTransformBridge * result bytes MediaError :=
  let '(t', r) := open_protected_frame t f in (t', rmap bv_clear r).

(** ** Lemmas *)

(** The receiver's window follows the shared acceptance rule. *)
Lemma window_accept_rule r kid counter :
  window_accept r kid counter =
  let '(m, ok) := replay_accept (rw_window_size r) (rw_seen_by_kid r) kid counter in
  ({| rw_window_size := rw_window_size r; rw_seen_by_kid := m |},
   if ok then Ok tt else Err MediaReplay).
Proof. unfold window_accept, replay_accept, replay_state, window_floor. cbv zeta. by case_match. Qed.

(** Feed frames to the receiver, collecting the ones it opens. *)
Fixpoint open_all (r : SFrameReceiver) (frames : list ProtectedFrame) :
    SFrameReceiver * list (ProtectedFrame * VerifiedFrame) :=
  match frames with
  | [] => (r, [])
  | f :: rest =>
      let '(r1, res) := receiver_open r f in
      let '(r2, acc) := open_all r1 rest in
      (r2, match res with Ok v => (f, v) :: acc | Err _ => acc end)
  end.

Definition frame_ids (opened : list (ProtectedFrame * VerifiedFrame)) : list (bytes * N) :=
  (λ p, (pf_kid p.1, pf_counter p.1)) <$> opened.

Definition receiver_inv (r : SFrameReceiver) (h : list (bytes * N)) : Prop :=
  window_inv (rw_window_size (sr_replay r)) (rw_seen_by_kid (sr_replay r)) h.

Lemma receiver_open_inv r f h :
  receiver_inv r h → 1 ≤ rw_window_size (sr_replay r) →
  let '(r', res) := receiver_open r f in
  sr_registry r' = sr_registry r ∧
  rw_window_size (sr_replay r') = rw_window_size (sr_replay r) ∧
  match res with
  | Ok v => registry_open (sr_registry r) f = Ok v ∧
            receiver_inv r' (h ++ [(pf_kid f, pf_counter f)])
  | Err _ => receiver_inv r' h
  end.
Proof.
  intros HI Hw. unfold receiver_open. destruct (registry_open (sr_registry r) f) as [v|e]; [|done].
  rewrite window_accept_rule.
  pose proof (replay_accept_spec _ _ _ (pf_kid f) (pf_counter f) HI Hw) as Ha.
  destruct (replay_accept _ _ _ _) as [m []]; simpl.
  - split_and!; [done..|]. apply Ha.
  - split_and!; [done..|]. apply Ha.
Qed.

Lemma open_all_inv r h frames :
  receiver_inv r h → 1 ≤ rw_window_size (sr_replay r) →
  let '(r', acc) := open_all r frames in
  sr_registry r' = sr_registry r ∧
  rw_window_size (sr_replay r') = rw_window_size (sr_replay r) ∧
  receiver_inv r' (h ++ frame_ids acc) ∧
  Forall (λ p, registry_open (sr_registry r) p.1 = Ok p.2) acc.
Proof.
  revert r h. induction frames as [|f frames IH]; intros r h HI Hw; simpl.
  { split_and!; [done..| |constructor]. change (frame_ids []) with (@nil (bytes * N)).
    by rewrite app_nil_r. }
  pose proof (receiver_open_inv r f h HI Hw) as Ho.
  destruct (receiver_open r f) as [r1 res]. destruct Ho as (Hr & Hws & Ho).
  destruct res as [v|e].
  - destruct Ho as [Hv Ho]. specialize (IH _ _ Ho). rewrite Hws in IH. specialize (IH Hw).
    destruct (open_all r1 frames) as [r2 acc]. destruct IH as (? & ? & IH & Hacc). simpl.
    rewrite <- (assoc (++)) in IH. rewrite Hr in *. split_and!; try congruence; [done|].
    by constructor.
  - specialize (IH _ _ Ho). rewrite Hws in IH. specialize (IH Hw).
    destruct (open_all r1 frames) as [r2 acc]. rewrite Hr in *. destruct IH as (? & ? & ? & ?).
    split_and!; try congruence; done.
Qed.

(** Protect plaintexts in order, collecting the frames that are emitted. *)
Fixpoint protect_all (s : SFrameSender) (plaintexts : list bytes) :
    SFrameSender * list (bytes * ProtectedFrame) :=
  match plaintexts with
  | [] => (s, [])
  | p :: rest =>
      let '(s1, res) := sender_protect s p in
      let '(s2, out) := protect_all s1 rest in
      (s2, match res with Ok f => (p, f) :: out | Err _ => out end)
  end.

Lemma sender_protect_cases s p :
  match sender_protect s p with
  | (s', Ok f) =>
      key_protect (ss_key s) (ss_binding s) (ss_next_counter s) p = Ok f ∧
      s' = {| ss_binding := ss_binding s; ss_key := ss_key s;
              ss_next_counter := ss_next_counter s + 1 |}
  | (s', Err _) => s' = s
  end.
Proof.
  unfold sender_protect. destruct (key_protect _ _ _ _); [|done].
  by destruct (u64_max <=? ss_next_counter s).
Qed.

Lemma key_protect_frame k b n p f :
  key_protect k b n p = Ok f → pf_kid f = sb_kid b ∧ pf_counter f = n.
Proof.
  unfold key_protect. destruct (verify_binding k b); [|done]. simpl.
  destruct (ok_or _ _); [|done]. simpl. by intros [= <-].
Qed.

Lemma protect_all_spec s ps :
  let '(s', out) := protect_all s ps in
  ss_binding s' = ss_binding s ∧ ss_key s' = ss_key s ∧
  (pf_counter ∘ snd <$> out) = (λ i, ss_next_counter s + N.of_nat i) <$> seq 0 (length out) ∧
  Forall (λ o, key_protect (ss_key s) (ss_binding s) (pf_counter o.2) o.1 = Ok o.2) out.
Proof.
  revert s. induction ps as [|p ps IH]; intros s; simpl; [done|].
  pose proof (sender_protect_cases s p) as Hc. destruct (sender_protect s p) as [s1 [f|e]].
  - destruct Hc as [Hf ->].
    specialize (IH {| ss_binding := ss_binding s; ss_key := ss_key s;
                      ss_next_counter := ss_next_counter s + 1 |}).
    destruct (protect_all _ ps) as [s2 out]. destruct IH as (? & ? & Hn & Hall).
    cbn [ss_binding ss_key ss_next_counter] in *.
    destruct (key_protect_frame _ _ _ _ _ Hf) as [_ Hcn].
    split_and!; [done|done| |constructor; [simpl; by rewrite Hcn|done]].
    cbn [length seq]. rewrite !fmap_cons, Hn. simpl. f_equal; [lia|].
    rewrite <- seq_shift, <- list_fmap_compose. apply list_fmap_ext. intros i x _. simpl. lia.
  - subst s1. specialize (IH s). by destruct (protect_all s ps).
Qed.

Context `{!Aes256GcmLaws}.

(** A frame of the sender opens to its plaintext wherever the sender is registered. *)
Lemma protected_frame_authenticates reg k b n p f :
  reg !! sb_kid b = Some {| bk_binding := b; bk_key := k |} →
  key_protect k b n p = Ok f →
  registry_open reg f = Ok {| vf_binding := b; vf_counter := n; vf_plaintext := p |}.
Proof.
  intros Hreg Hf. destruct (key_protect_frame _ _ _ _ _ Hf) as [Hk Hn].
  unfold registry_open. rewrite Hk, Hreg. simpl. unfold key_open, key_protect in *.
  destruct (verify_binding k b) as [[]|] eqn:Hv; [|done]. cbn [rbind] in *.
  assert (sk_kid k = sb_kid b) as Hkid.
  { unfold verify_binding, reject_if in Hv. destruct (binding_validate b); [|done]. simpl in Hv.
    case_match eqn:E; [done|]. apply negb_false_iff, andb_true_iff in E as [E _].
    by apply bool_decide_eq_true in E. }
  rewrite Hkid, Hk, bool_decide_true by done. cbn [negb reject_if rbind].
  destruct (gcm_new (sk_bytes k)) as [c|]; [|done]. simpl in *. rewrite Hn.
  destruct (gcm_encrypt _ _ _ _) as [ct|] eqn:He; [|done]. simpl in Hf. simplify_eq/=.
  assert (pf_ciphertext f = ct) as -> by (by rewrite <- Hf).
  by erewrite gcm_decrypt_encrypt.
Qed.

(** Frames with increasing counters, each within reach of the last, all open in order. *)
Lemma open_all_in_order reg w h k b out m :
  let r := {| sr_registry := reg; sr_replay := {| rw_window_size := w; rw_seen_by_kid := m |} |} in
  receiver_inv r h → 1 ≤ w →
  reg !! sb_kid b = Some {| bk_binding := b; bk_key := k |} →
  Forall (λ o, key_protect k b (pf_counter o.2) o.1 = Ok o.2) out →
  StronglySorted N.lt (pf_counter ∘ snd <$> out) →
  (∀ n o, n ∈ numbers_of (sb_kid b) h → o ∈ out → n < pf_counter o.2) →
  (open_all r (snd <$> out)).2 =
  (λ o : bytes * ProtectedFrame,
    (o.2, {| vf_binding := b; vf_counter := pf_counter o.2; vf_plaintext := o.1 |})) <$> out.
Proof.
  intros r HI Hw Hreg Hout. revert h m r HI.
  induction Hout as [|[p f] out Hf Hout IH]; intros h m r HI Hsort Hnew; [done|].
  cbn [fmap list_fmap snd open_all] in *.
  pose proof (protected_frame_authenticates reg k b _ _ _ Hreg Hf) as Hauth.
  destruct (key_protect_frame _ _ _ _ _ Hf) as [Hk _]. simpl in Hk.
  unfold receiver_open. simpl in Hauth |- *. rewrite Hauth, window_accept_rule. simpl.
  pose proof (replay_accept_spec w m h (pf_kid f) (pf_counter f) HI Hw) as Hacc.
  assert ((replay_accept w m (pf_kid f) (pf_counter f)).2 = true) as Hok.
  { apply (replay_accept_exact w m h); [done..|]. split.
    - intros Hin%elem_of_numbers_of. rewrite Hk in Hin.
      specialize (Hnew _ (p, f) Hin ltac:(left)). simpl in Hnew. lia.
    - rewrite Hk. destruct (decide (numbers_of (sb_kid b) h = [])) as [|Hne]; [by left|right].
      pose proof (proj2 (greatest_spec (numbers_of (sb_kid b) h)) Hne) as Hg.
      specialize (Hnew _ (p, f) Hg ltac:(left)). simpl in Hnew. lia. }
  destruct (replay_accept w m (pf_kid f) (pf_counter f)) as [m' ok]. simpl in Hok. subst ok.
  destruct Hacc as (_ & HI' & _). apply StronglySorted_inv in Hsort as [Hsort Hlt].
  specialize (IH (h ++ [(pf_kid f, pf_counter f)]) m' HI' Hsort).
  simpl in IH |- *. destruct (open_all _ _) as [r2 acc]. simpl in IH |- *. rewrite IH; [done|].
  intros n o Hn Ho. rewrite numbers_of_snoc in Hn. simpl in Hn. rewrite decide_True in Hn by done.
  apply elem_of_app in Hn as [Hn|Hn%list_elem_of_singleton].
  - apply (Hnew n o); [done|by right].
  - subst n. rewrite Forall_forall in Hlt. apply Hlt, list_elem_of_fmap. eauto.
Qed.

(** A new sender that a receiver registered. *)
Lemma sender_registered secret group epoch leaf device s reg reg' :
  sender_new_for_epoch secret group epoch leaf device = Ok s →
  register_sender reg secret (ss_binding s) = (reg', Ok tt) →
  ss_next_counter s = 0 ∧ binding_validate (ss_binding s) = Ok tt ∧
  reg' !! sb_kid (ss_binding s) = Some {| bk_binding := ss_binding s; bk_key := ss_key s |}.
Proof.
  unfold sender_new_for_epoch, sender_new. intros Hs. apply rbind_ok in Hs as (b & _ & Hs).
  apply rbind_ok in Hs as (k & Hk & [= <-]). simpl. unfold register_sender. rewrite Hk.
  destruct (reg !! sb_kid b); [done|]. intros [= <-]. split_and!; [done| |by rewrite lookup_insert_eq].
  unfold key_derive, verify_derived_kid in Hk. apply check_ok in Hk as [Hk _]. by apply check_ok in Hk as [Hk _].
Qed.

Lemma seq_sorted (c : N) n : StronglySorted N.lt ((λ i, c + N.of_nat i) <$> seq 0 n).
Proof.
  revert c. induction n as [|n IH]; intros c; [constructor|]. cbn [seq]. rewrite fmap_cons.
  rewrite <- seq_shift, <- list_fmap_compose. constructor.
  - replace ((λ i, c + N.of_nat i) ∘ S <$> seq 0 n) with ((λ i, (c + 1) + N.of_nat i) <$> seq 0 n);
      [apply IH|]. apply list_fmap_ext. intros i x _. simpl. lia.
  - apply Forall_fmap, Forall_true. intros i. simpl. lia.
Qed.

(** ** Properties *)

(** C28. Media frames open at most once, and only when authentic: whatever frames arrive in
    whatever order, each pair of key id and counter is opened at most once and only after its
    ciphertext authenticated under the registered binding; the next frame opens precisely
    when it authenticates, is new and is not below the window of its key id; a frame that
    does not authenticate leaves the receiver, its replay state included, untouched. *)
Theorem media_frames_open_at_most_once reg w frames f :
  let '(r, opened) := open_all {| sr_registry := reg; sr_replay := replay_window_new w |} frames in
  let ids := frame_ids opened in
  NoDup ids ∧
  Forall (λ p, registry_open reg p.1 = Ok p.2) opened ∧
  (∀ v, (receiver_open r f).2 = Ok v ↔
     registry_open reg f = Ok v ∧ (pf_kid f, pf_counter f) ∉ ids ∧
     (numbers_of (pf_kid f) ids = [] ∨
      greatest (numbers_of (pf_kid f) ids) - (N.max w 1 - 1) ≤ pf_counter f)) ∧
  (∀ e, registry_open reg f = Err e → receiver_open r f = (r, Err e)).
Proof.
  set (r0 := {| sr_registry := reg; sr_replay := replay_window_new w |}).
  pose proof (open_all_inv r0 [] frames (window_inv_empty _)) as HI.
  destruct (open_all r0 frames) as [r opened]. cbv zeta. simpl in HI.
  destruct HI as (Hreg & Hws & HI & Hauth); [lia|]. simpl in *.
  split; [apply HI|]. split; [done|]. unfold receiver_open. rewrite Hreg. split.
  - intros v. destruct (registry_open reg f) as [v'|e]; [|naive_solver].
    rewrite window_accept_rule. pose proof (replay_accept_exact _ _ _ (pf_kid f) (pf_counter f) HI) as He.
    rewrite Hws in He |- *. specialize (He ltac:(lia)).
    destruct (replay_accept _ _ _ _) as [m' []]; simpl in *; naive_solver.
  - by intros e ->.
Qed.

(** Media round trip: frames a sender protects for an epoch, delivered in order through
    the transform bridge's wire form to a receiver that registered the sender's binding, open
    to exactly the plaintexts, attributed to that sender, with its consecutive counters. *)
Theorem media_round_trip secret group epoch leaf device s reg reg' plaintexts w :
  sender_new_for_epoch secret group epoch leaf device = Ok s →
  register_sender reg secret (ss_binding s) = (reg', Ok tt) →
  let out := (protect_all s plaintexts).2 in
  let wire := (λ o : bytes * ProtectedFrame, from_bridge (to_bridge o.2)) <$> out in
  let opened := (open_all {| sr_registry := reg'; sr_replay := replay_window_new w |} wire).2 in
  (snd <$> opened) =
  imap (λ i (o : bytes * ProtectedFrame),
    {| vf_binding := ss_binding s; vf_counter := N.of_nat i; vf_plaintext := o.1 |}) out.
Proof.
  intros Hs Hreg out wire opened.
  destruct (sender_registered _ _ _ _ _ _ _ _ Hs Hreg) as (Hn & _ & Hin).
  pose proof (protect_all_spec s plaintexts) as Hp.
  assert (wire = snd <$> out) as Hw by (apply list_fmap_ext; by intros i [? []] _).
  subst opened. rewrite Hw. subst out wire. destruct (protect_all s plaintexts) as [s' out].
  simpl. destruct Hp as (_ & _ & Hc & Hall). rewrite Hn in *.
  unfold replay_window_new. rewrite (open_all_in_order _ _ [] (ss_key s) (ss_binding s) out ∅).
  - rewrite <- list_fmap_compose. clear -Hc. simpl in *.
    apply list_eq. intros i. rewrite list_lookup_imap, list_lookup_fmap.
    destruct (out !! i) as [o|] eqn:Ho; [|done]. simpl. do 2 f_equal.
    apply (f_equal (.!! i)) in Hc. rewrite !list_lookup_fmap, Ho in Hc.
    rewrite lookup_seq_lt in Hc by (by eapply lookup_lt_Some). simpl in Hc. by injection Hc as ->.
  - apply window_inv_empty.
  - simpl. lia.
  - done.
  - done.
  - rewrite Hc. apply seq_sorted.
  - by intros n o []%not_elem_of_nil.
Qed.

(** A sender never repeats a counter under its key: the frames it emits, over any
    plaintexts and with any failures in between, carry its key id and consecutive counters
    from its current one. *)
Theorem sender_counters_are_consecutive s plaintexts :
  let out := (protect_all s plaintexts).2 in
  (pf_counter ∘ snd <$> out) = ((λ i, ss_next_counter s + N.of_nat i) <$> seq 0 (length out)) ∧
  Forall (λ o, pf_kid o.2 = sb_kid (ss_binding s)) out ∧
  NoDup ((λ o : bytes * ProtectedFrame, (pf_kid o.2, pf_counter o.2)) <$> out).
Proof.
  pose proof (protect_all_spec s plaintexts) as Hp.
  destruct (protect_all s plaintexts) as [s' out]. destruct Hp as (_ & _ & Hc & Hall). simpl.
  split; [done|]. split.
  - eapply Forall_impl; [exact Hall|]. intros o Ho. exact (proj1 (key_protect_frame _ _ _ _ _ Ho)).
  - assert (NoDup (pf_counter ∘ snd <$> out)) as Hnd.
    { rewrite Hc. apply NoDup_fmap_2_strong; [lia|apply NoDup_seq]. }
    apply (NoDup_fmap_1 snd). by rewrite <- list_fmap_compose.
Qed.

(** Rotating to the current epoch undoes the counter: rotation with the parameters the
    sender was created with gives back the initial sender, whatever was sent in between, so
    the next frames repeat key, nonce and counter of the first ones. *)
Theorem rotation_to_same_epoch_restarts s s1 secret group epoch leaf device :
  sender_new_for_epoch secret group epoch leaf device = Ok s →
  rotate_for_epoch s1 secret group epoch leaf device = (s, Ok tt).
Proof.
  unfold sender_new_for_epoch, sender_new, rotate_for_epoch.
  destruct (derive_for_epoch _ _ _ _ _) as [b|]; [|done]. simpl.
  destruct (key_derive _ _); [|done]. simpl. by intros [= <-].
Qed.

End sframe.

(** ** Witnesses *)

Section witnesses.
#[local] Existing Instance Toy.toy_sha.
#[local] Existing Instance Toy.toy_aead.
#[local] Existing Instance Toy.toy_aead_laws.

Definition toy_media_sender : SFrameSender :=
  match sender_new_for_epoch [7] "room" 3 1 "phone" with
  | Ok s => s
  | Err _ => {| ss_binding := {| sb_kid := []; sb_group_id := ""; sb_epoch := 0;
                                 sb_leaf_index := 0; sb_device_id := "" |};
                ss_key := {| sk_bytes := []; sk_kid := []; sk_binding_hash := [] |};
                ss_next_counter := 0 |}
  end.

Definition toy_registry : MediaKeyRegistry :=
  (register_sender ∅ [7] (ss_binding toy_media_sender)).1.

Lemma media_round_trip_witness :
  let out := (protect_all toy_media_sender [[1]; [2; 3]]).2 in
  length out = 2%nat ∧
  let wire := (λ o : bytes * ProtectedFrame, from_bridge (to_bridge o.2)) <$> out in
  let opened :=
    (open_all {| sr_registry := toy_registry; sr_replay := replay_window_new 4 |} wire).2 in
  (snd <$> opened) =
  imap (λ i (o : bytes * ProtectedFrame),
    {| vf_binding := ss_binding toy_media_sender; vf_counter := N.of_nat i;
       vf_plaintext := o.1 |}) out.
Proof.
  split; [vm_compute; reflexivity|].
  apply (media_round_trip [7] "room" 3 1 "phone" _ ∅).
  - vm_compute. reflexivity.
  - assert ((register_sender ∅ [7] (ss_binding toy_media_sender)).2 = Ok tt) as <-
      by (vm_compute; reflexivity).
    exact (surjective_pairing _).
Defined.

Lemma rotation_to_same_epoch_restarts_witness :
  let s1 := (protect_all toy_media_sender [[1]; [2]]).1 in
  ss_next_counter s1 = 2 ∧ rotate_for_epoch s1 [7] "room" 3 1 "phone" = (toy_media_sender, Ok tt).
Proof.
  split; [vm_compute; reflexivity|].
  apply rotation_to_same_epoch_restarts. vm_compute. reflexivity.
Defined.

End witnesses.
