(* ===== verification/LocalStore.v ===== *)
(** * Local device store

    [crates/storage/src/lib.rs], first part: the append-only author log and its merge, the
    bounded recipient cache, message tombstones (in the store and in the persisted app state)
    and the secure-delete simulator. Zeroizing a key that is dropped in the same statement is
    not observable and has no counterpart here. *)

From S2P Require Import Prelude Collections Bytes StrOps Crypto ContentKeys.

(** ** Author log *)

Inductive AuthorLogError :=
| EmptyDeviceId
| EmptyMessageId
| SequenceFork (author_leaf : N) (device_id : string) (sequence : N)
| MessageIdReused (message_id : string).

#[export] Instance AuthorLogError_eq_dec : EqDecision AuthorLogError.
Proof. solve_decision. Defined.

(** The [Display] text. *)
Definition author_log_error_text (e : AuthorLogError) : string :=
  match e with
  | EmptyDeviceId => "author log device id cannot be empty"
  | EmptyMessageId => "author log message id cannot be empty"
  | SequenceFork leaf device sequence =>
      "author log fork at author " +:+ pretty leaf +:+ " device " +:+ device
      +:+ " sequence " +:+ pretty sequence
  | MessageIdReused id => "author log message id reused at another position: " +:+ id
  end.

Inductive AuthorLogAppendOutcome := LogInserted | LogDuplicate.

Record AuthorLogMergeReport := { alm_inserted : nat; alm_duplicates : nat }.

(** Author leaf, device id and sequence, in the order of the derived [Ord]. *)
Abbreviation AuthorLogKey := (N * string * N)%type.

Record AuthorLogEntry := {
  al_author_leaf : N;
  al_device_id : string;
  al_sequence : N;
  al_epoch : N;
  al_message_id : string;
  al_ciphertext : bytes
}.

#[export] Instance AuthorLogEntry_eq_dec : EqDecision AuthorLogEntry.
Proof. solve_decision. Defined.

Definition log_key (e : AuthorLogEntry) : AuthorLogKey :=
  (al_author_leaf e, al_device_id e, al_sequence e).

Section stable_ids.
Context `{Sha256, Hex}.

Definition message_id_input (author_leaf : N) (device_id : string) (sequence epoch : N)
    (ciphertext : bytes) : bytes :=
  as_bytes "discrypt:v1:author-log-message-id" ++ be_u32 author_leaf
  ++ be_u64 (str_len device_id) ++ as_bytes device_id ++ be_u64 sequence ++ be_u64 epoch
  ++ sha256 ciphertext.

Definition stable_message_id (author_leaf : N) (device_id : string) (sequence epoch : N)
    (ciphertext : bytes) : string :=
  "msg_" +:+ hex_encode (sha256 (message_id_input author_leaf device_id sequence epoch ciphertext)).

Definition entry_new_stable (author_leaf : N) (device_id : string) (sequence epoch : N)
    (ciphertext : bytes) : AuthorLogEntry :=
  {| al_author_leaf := author_leaf; al_device_id := device_id; al_sequence := sequence;
     al_epoch := epoch;
     al_message_id := stable_message_id author_leaf device_id sequence epoch ciphertext;
     al_ciphertext := ciphertext |}.

Definition has_stable_message_id (e : AuthorLogEntry) : bool :=
  bool_decide (al_message_id e
    = stable_message_id (al_author_leaf e) (al_device_id e) (al_sequence e) (al_epoch e)
        (al_ciphertext e)).
End stable_ids.

(** ** Recipient cache *)

Inductive LocalDecryptError :=
| DecryptMissing (id : string)
| DecryptShredded (id : string)
| DecryptLocked (id : string)
| DecryptUnavailable (id : string).

#[export] Instance LocalDecryptError_eq_dec : EqDecision LocalDecryptError.
Proof. solve_decision. Defined.

Record RecipientCacheEntry := {
  rc_message_id : string;
  rc_ciphertext : bytes;
  rc_key_state : KeyState;
  rc_received_at_ms : N
}.

#[export] Instance RecipientCacheEntry_eq_dec : EqDecision RecipientCacheEntry.
Proof. solve_decision. Defined.

Record BoundedRecipientCache := {
  bc_capacity : nat;
  bc_entries : gmap string RecipientCacheEntry
}.

Definition bounded_cache_new (capacity : nat) : BoundedRecipientCache :=
  {| bc_capacity := capacity `max` 1; bc_entries := ∅ |}.

(** [min_by_key(|entry| (entry.received_at_ms, entry.message_id.clone()))] *)
Definition cache_entry_cmp : RecipientCacheEntry → RecipientCacheEntry → comparison :=
  cmp_lex (cmp_by rc_received_at_ms N.compare) (cmp_by rc_message_id String.compare).

(** The [while] loop; a round removes an entry, so the size is enough fuel. *)
Fixpoint cache_evict (fuel capacity : nat) (m : gmap string RecipientCacheEntry) :
    gmap string RecipientCacheEntry :=
  match fuel with
  | O => m
  | S fuel' =>
      if (capacity <? size m)%nat then
        match min_by cache_entry_cmp (values m) with
        | None => m
        | Some oldest => cache_evict fuel' capacity (delete (rc_message_id oldest) m)
        end
      else m
  end.

Definition cache_insert (c : BoundedRecipientCache) (e : RecipientCacheEntry) :
    BoundedRecipientCache :=
  let m := <[rc_message_id e := e]> (bc_entries c) in
  {| bc_capacity := bc_capacity c; bc_entries := cache_evict (size m) (bc_capacity c) m |}.

Definition with_key_state (e : RecipientCacheEntry) (k : KeyState) : RecipientCacheEntry :=
  {| rc_message_id := rc_message_id e; rc_ciphertext := rc_ciphertext e; rc_key_state := k;
     rc_received_at_ms := rc_received_at_ms e |}.

Definition cache_shred (c : BoundedRecipientCache) (id : string) : BoundedRecipientCache * bool :=
  match bc_entries c !! id with
  | None => (c, false)
  | Some e =>
      ({| bc_capacity := bc_capacity c;
          bc_entries := <[id := with_key_state e KeyShredded]> (bc_entries c) |}, true)
  end.

Definition xor_harness_ciphertext (ciphertext key : bytes) : bytes :=
  imap (λ i x, N.lxor x (nth (i `mod` length key)%nat key 0)) ciphertext.

Definition decrypt_for_harness (c : BoundedRecipientCache) (id : string) :
    result bytes LocalDecryptError :=
  let* e := ok_or (bc_entries c !! id) (DecryptMissing id) in
  match rc_key_state e with
  | KeyCached key => Ok (xor_harness_ciphertext (rc_ciphertext e) key)
  | KeyShredded => Err (DecryptShredded id)
  | KeyLocked => Err (DecryptLocked id)
  | KeyDecoy _ | KeyRateLimited | KeyUnavailable => Err (DecryptUnavailable id)
  end.

Definition cache_ids (c : BoundedRecipientCache) : list string := (entries (bc_entries c)).*1.

(** ** The store *)

Record LocalStore := {
  ls_author_log : gmap AuthorLogKey AuthorLogEntry;
  ls_recipient_cache : BoundedRecipientCache;
  ls_message_tombstones : gset string
}.

Definition local_store_new (capacity : nat) : LocalStore :=
  {| ls_author_log := ∅; ls_recipient_cache := bounded_cache_new capacity;
     ls_message_tombstones := ∅ |}.

Definition LocalStore_default : LocalStore := local_store_new 256.

Definition with_log (s : LocalStore) (m : gmap AuthorLogKey AuthorLogEntry) : LocalStore :=
  {| ls_author_log := m; ls_recipient_cache := ls_recipient_cache s;
     ls_message_tombstones := ls_message_tombstones s |}.

(** The checks of an insertion: a duplicate, a fresh entry or an error. *)
Definition log_admit (m : gmap AuthorLogKey AuthorLogEntry) (e : AuthorLogEntry) :
    result AuthorLogAppendOutcome AuthorLogError :=
  check reject_if (is_blank (al_device_id e)) EmptyDeviceId in
  check reject_if (is_blank (al_message_id e)) EmptyMessageId in
  match m !! log_key e with
  | Some existing =>
      if bool_decide (existing = e) then Ok LogDuplicate
      else Err (SequenceFork (al_author_leaf e) (al_device_id e) (al_sequence e))
  | None =>
      check reject_if
        (existsb (λ kv, bool_decide (al_message_id kv.2 = al_message_id e)
                        && negb (bool_decide (kv.1 = log_key e))) (entries m))
        (MessageIdReused (al_message_id e)) in
      Ok LogInserted
  end.

Definition insert_author_log_entry (s : LocalStore) (e : AuthorLogEntry) :
    LocalStore * result AuthorLogAppendOutcome AuthorLogError :=
  match log_admit (ls_author_log s) e with
  | Ok LogInserted => (with_log s (<[log_key e := e]> (ls_author_log s)), Ok LogInserted)
  | r => (s, r)
  end.

Definition append_sent (s : LocalStore) (e : AuthorLogEntry) :
    LocalStore * result AuthorLogAppendOutcome AuthorLogError := insert_author_log_entry s e.

Fixpoint merge_loop (s : LocalStore) (r : AuthorLogMergeReport) (l : list AuthorLogEntry) :
    LocalStore * result AuthorLogMergeReport AuthorLogError :=
  match l with
  | [] => (s, Ok r)
  | e :: rest =>
      match insert_author_log_entry s e with
      | (s', Ok LogInserted) =>
          merge_loop s' {| alm_inserted := S (alm_inserted r); alm_duplicates := alm_duplicates r |} rest
      | (s', Ok LogDuplicate) =>
          merge_loop s' {| alm_inserted := alm_inserted r; alm_duplicates := S (alm_duplicates r) |} rest
      | (s', Err e) => (s', Err e)
      end
  end.

Definition merge_author_logs (s : LocalStore) (l : list AuthorLogEntry) :
    LocalStore * result AuthorLogMergeReport AuthorLogError :=
  merge_loop s {| alm_inserted := 0; alm_duplicates := 0 |} l.

Definition merge_author_logs_atomic (s : LocalStore) (l : list AuthorLogEntry) :
    LocalStore * result AuthorLogMergeReport AuthorLogError :=
  match merge_author_logs s l with
  | (candidate, Ok r) => (candidate, Ok r)
  | (_, Err e) => (s, Err e)
  end.

Definition log_snapshot (s : LocalStore) : list AuthorLogEntry := values (ls_author_log s).

Definition author_log_for (s : LocalStore) (leaf : N) : list AuthorLogEntry :=
  filter (λ e, al_author_leaf e = leaf) (log_snapshot s).

Definition author_message_ids (s : LocalStore) : gset string :=
  list_to_set (al_message_id <$> log_snapshot s).

Definition ordered_author_message_ids (s : LocalStore) : list string :=
  al_message_id <$> log_snapshot s.

Definition next_sequence_for_device (s : LocalStore) (leaf : N) (device : string) : N :=
  let sequences := (λ k : AuthorLogKey, k.2)
    <$> filter (λ k : AuthorLogKey, k.1 = (leaf, device)) (entries (ls_author_log s)).*1 in
  sat_add u64_max (default 0 (max_by N.compare sequences)) 1.

Definition with_recipient_cache (s : LocalStore) (c : BoundedRecipientCache) : LocalStore :=
  {| ls_author_log := ls_author_log s; ls_recipient_cache := c;
     ls_message_tombstones := ls_message_tombstones s |}.

Definition cache_received (s : LocalStore) (e : RecipientCacheEntry) : LocalStore :=
  if bool_decide (rc_message_id e ∈ ls_message_tombstones s)
  then with_recipient_cache s
         (cache_insert (ls_recipient_cache s) (with_key_state e KeyShredded))
  else with_recipient_cache s (cache_insert (ls_recipient_cache s) e).

Definition cooperative_shred_message (s : LocalStore) (id : string) : LocalStore :=
  {| ls_author_log := ls_author_log s;
     ls_recipient_cache := (cache_shred (ls_recipient_cache s) id).1;
     ls_message_tombstones := {[id]} ∪ ls_message_tombstones s |}.

Definition store_merge_tombstones (s : LocalStore) (ids : list string) : LocalStore :=
  foldl cooperative_shred_message s ids.

Definition message_tombstones (s : LocalStore) : list string :=
  sorted_elements (ls_message_tombstones s).

Definition decrypt_cached_message_for_harness (s : LocalStore) (id : string) :
    result bytes LocalDecryptError :=
  check reject_if (bool_decide (id ∈ ls_message_tombstones s)) (DecryptShredded id) in
  decrypt_for_harness (ls_recipient_cache s) id.

(** ** Persisted tombstones *)

Record AppMessageTombstoneState := {
  at_message_id : string;
  at_shredded_at_ms : N;
  at_reason : string
}.

#[export] Instance AppMessageTombstoneState_eq_dec : EqDecision AppMessageTombstoneState.
Proof. solve_decision. Defined.

(** The first tombstone with the id takes the earlier time, and the reason if it has none. *)
Fixpoint update_tombstone (t : AppMessageTombstoneState) (l : list AppMessageTombstoneState) :
    option (list AppMessageTombstoneState) :=
  match l with
  | [] => None
  | x :: rest =>
      if bool_decide (at_message_id x = at_message_id t) then
        Some ({| at_message_id := at_message_id x;
                 at_shredded_at_ms :=
                   if at_shredded_at_ms t <? at_shredded_at_ms x then at_shredded_at_ms t
                   else at_shredded_at_ms x;
                 at_reason := if bool_decide (at_reason x = ""%string) then at_reason t
                              else at_reason x |} :: rest)
      else (cons x) <$> update_tombstone t rest
  end.

(** [AppState] keeps the tombstones as a list field; the other fields take no part. *)
Definition record_message_tombstone (l : list AppMessageTombstoneState)
    (t : AppMessageTombstoneState) : list AppMessageTombstoneState :=
  match update_tombstone t l with
  | Some l' => l'
  | None => sort_by (cmp_by at_message_id String.compare) (l ++ [t])
  end.

Definition merge_message_tombstones (l ts : list AppMessageTombstoneState) :
    list AppMessageTombstoneState := foldl record_message_tombstone l ts.

Definition has_message_tombstone (l : list AppMessageTombstoneState) (id : string) : bool :=
  existsb (λ t, bool_decide (at_message_id t = id)) l.

Definition message_tombstone_ids (l : list AppMessageTombstoneState) : list string :=
  at_message_id <$> l.

(** ** Secure delete *)

Record SecureDeleteSimulator := {
  sd_files : gmap string bytes;
  sd_deleted_paths : gset string
}.

Definition sd_write (s : SecureDeleteSimulator) (path : string) (b : bytes) : SecureDeleteSimulator :=
  {| sd_files := <[path := b]> (sd_files s); sd_deleted_paths := sd_deleted_paths s |}.

Definition sim_snapshot (s : SecureDeleteSimulator) : gmap string bytes := sd_files s.

Definition sd_restore (snapshot : gmap string bytes) : SecureDeleteSimulator :=
  {| sd_files := snapshot; sd_deleted_paths := ∅ |}.

Definition secure_delete (s : SecureDeleteSimulator) (paths : list string) : SecureDeleteSimulator :=
  foldl (λ s p, {| sd_files := delete p (sd_files s);
                   sd_deleted_paths := {[p]} ∪ sd_deleted_paths s |}) s paths.

Definition contains_material (s : SecureDeleteSimulator) (needle : bytes) : bool :=
  negb (bool_decide (needle = [])) && existsb (has_window needle) (values (sd_files s)).

Definition deleted_all (s : SecureDeleteSimulator) (paths : list string) : bool :=
  forallb (λ p, bool_decide (p ∈ sd_deleted_paths s)) paths.

(** ** Lemmas: author log *)

(** Two entries that one log can hold. *)
Definition compatible (a b : AuthorLogEntry) : Prop :=
  a = b ∨ (log_key a ≠ log_key b ∧ al_message_id a ≠ al_message_id b).

Definition entry_valid (e : AuthorLogEntry) : Prop :=
  is_blank (al_device_id e) = false ∧ is_blank (al_message_id e) = false.

(** A log is keyed by its entries, which are valid and pairwise compatible. *)
Record log_wf (m : gmap AuthorLogKey AuthorLogEntry) : Prop := {
  lw_key k e : m !! k = Some e → k = log_key e;
  lw_valid k e : m !! k = Some e → entry_valid e;
  lw_compat k k' e e' : m !! k = Some e → m !! k' = Some e' → compatible e e'
}.

Lemma log_wf_empty : log_wf ∅.
Proof. split; intros *; rewrite ?lookup_empty; done. Qed.

Lemma log_admit_ok m e o :
  log_wf m →
  (log_admit m e = Ok o ↔
   entry_valid e ∧ (∀ k x, m !! k = Some x → compatible e x) ∧
   o = if bool_decide (m !! log_key e = None) then LogInserted else LogDuplicate).
Proof.
  intros Hw. unfold log_admit. rewrite !check_ok, !reject_if_ok. unfold entry_valid.
  destruct (m !! log_key e) as [x|] eqn:E.
  - rewrite (bool_decide_false (Some x = None)) by done. case_bool_decide as Hx.
    + subst x. split; [intros (? & ? & [= <-])|naive_solver].
      split_and!; try done. intros k x Hk. by eapply (lw_compat _ Hw).
    + split; [naive_solver|]. intros (_ & Hc & _). destruct (Hc _ _ E) as [?|[Hk _]]; [done|].
      apply (lw_key _ Hw) in E. done.
  - rewrite (bool_decide_true (None = None)) by done. rewrite check_ok, reject_if_ok.
    set (b := existsb _ _). assert (b = false ↔ ∀ k x, m !! k = Some x → compatible e x) as Hb.
    { unfold b. rewrite <- not_true_iff_false, existsb_exists. split.
      - intros Hn k x Hk. right. pose proof (lw_key _ Hw _ _ Hk) as ->. split.
        + intros Heq. rewrite <- Heq in Hk. congruence.
        + intros Hid. apply Hn. exists (log_key x, x). split.
          * apply list_elem_of_In, elem_of_entries. done.
          * simpl. rewrite bool_decide_true, bool_decide_false by congruence. done.
      - intros Hc ([k x] & Hin%list_elem_of_In%elem_of_entries & Ht). simpl in Ht.
        apply andb_true_iff in Ht as [Hid%bool_decide_eq_true Hk].
        destruct (Hc _ _ Hin) as [->|[_ ?]]; [|done].
        apply (lw_key _ Hw) in Hin. rewrite bool_decide_true in Hk by done. done. }
    rewrite Hb. naive_solver.
Qed.

Lemma log_insert_wf m e :
  log_wf m → entry_valid e → (∀ k x, m !! k = Some x → compatible e x) →
  log_wf (<[log_key e := e]> m).
Proof.
  intros Hw Hv Hc. split.
  - intros k x [[<- <-]|[_ Hx]]%lookup_insert_Some; [done|by apply (lw_key _ Hw)].
  - intros k x [[<- <-]|[_ Hx]]%lookup_insert_Some; [done|by apply (lw_valid _ Hw k)].
  - intros k k' x y [[<- <-]|[_ Hx]]%lookup_insert_Some [[<- <-]|[_ Hy]]%lookup_insert_Some.
    + by left.
    + by eapply Hc.
    + destruct (Hc _ _ Hx) as [->|[? ?]]; [by left|right; split; congruence].
    + by eapply (lw_compat _ Hw).
Qed.

Definition in_log (s : LocalStore) (e : AuthorLogEntry) : Prop :=
  ls_author_log s !! log_key e = Some e.

Definition same_rest (s s' : LocalStore) : Prop :=
  ls_recipient_cache s = ls_recipient_cache s' ∧ ls_message_tombstones s = ls_message_tombstones s'.

Lemma in_snapshot s e : log_wf (ls_author_log s) → e ∈ log_snapshot s ↔ in_log s e.
Proof.
  intros Hw. unfold log_snapshot, in_log. rewrite elem_of_values. split; [|eauto].
  intros [k Hk]. pose proof (lw_key _ Hw _ _ Hk) as ->. done.
Qed.

(** One insertion either adds a compatible entry, or changes nothing. *)
Lemma insert_entry_cases s e s' o :
  log_wf (ls_author_log s) → insert_author_log_entry s e = (s', o) →
  (∃ out, o = Ok out ∧ entry_valid e ∧ (∀ x, in_log s x → compatible e x) ∧
     s' = with_log s (<[log_key e := e]> (ls_author_log s)) ∧
     (out = LogInserted ∧ ls_author_log s !! log_key e = None ∨ out = LogDuplicate ∧ in_log s e)) ∨
  (∃ err, o = Err err ∧ s' = s ∧ ¬ (entry_valid e ∧ ∀ x, in_log s x → compatible e x)).
Proof.
  intros Hw. unfold insert_author_log_entry.
  assert (∀ P : AuthorLogEntry → Prop,
    (∀ k x, ls_author_log s !! k = Some x → P x) ↔ ∀ x, in_log s x → P x) as Hall.
  { intros P. split; intros HP; [intros x Hx; by eapply HP|].
    intros k x Hx. pose proof (lw_key _ Hw _ _ Hx) as ->. by apply HP. }
  destruct (log_admit (ls_author_log s) e) as [o'|err] eqn:E.
  - apply log_admit_ok in E as (Hv & Hc & Ho); [|done]. rewrite Hall in Hc.
    case_bool_decide as Hn; subst o'; intros [= <- <-]; left.
    + exists LogInserted. split_and!; auto.
    + exists LogDuplicate. assert (in_log s e) as Hin.
      { destruct (ls_author_log s !! log_key e) as [x|] eqn:Hx; [|done].
        pose proof (lw_key _ Hw _ _ Hx) as Hk. unfold in_log. rewrite Hx. f_equal.
        destruct (Hc x) as [->|[Hne _]]; [|done|done]. unfold in_log. by rewrite <- Hk. }
      split_and!; auto. unfold with_log. rewrite insert_id by done. by destruct s.
  - intros [= <- <-]. right. exists err. split_and!; [done..|]. intros [Hv Hc].
    assert (∃ o', log_admit (ls_author_log s) e = Ok o') as [o' Ho']; [|congruence].
    eexists. apply log_admit_ok; [done|]. rewrite Hall. done.
Qed.

Lemma in_log_insert s e x :
  log_wf (ls_author_log s) → entry_valid e → (∀ x, in_log s x → compatible e x) →
  in_log (with_log s (<[log_key e := e]> (ls_author_log s))) x ↔ x = e ∨ in_log s x.
Proof.
  intros Hw Hv Hc. unfold in_log. simpl. destruct (decide (log_key x = log_key e)) as [Hk|Hk].
  - rewrite Hk, lookup_insert_eq. split; [intros [= <-]; by left|]. intros [->|Hx]; [done|].
    rewrite <- Hk in Hx. destruct (Hc x Hx) as [->|[? _]]; congruence.
  - rewrite lookup_insert_ne by done. split; [by right|]. intros [->|?]; done.
Qed.

(** The merge loop in terms of sets of entries. *)
Lemma merge_loop_spec s r l s' o :
  log_wf (ls_author_log s) → merge_loop s r l = (s', o) →
  log_wf (ls_author_log s') ∧ same_rest s s' ∧ (∀ x, in_log s x → in_log s' x) ∧
  (∀ x, in_log s' x → in_log s x ∨ x ∈ l) ∧
  match o with
  | Ok r' =>
      (∀ x, x ∈ l → in_log s' x) ∧
      (alm_inserted r' + alm_duplicates r' = alm_inserted r + alm_duplicates r + length l)%nat ∧
      ((∀ x, x ∈ l → in_log s x) → alm_inserted r' = alm_inserted r)
  | Err _ =>
      ¬ ((∀ x, x ∈ l → entry_valid x) ∧ ∀ x y, x ∈ l → in_log s y ∨ y ∈ l → compatible x y)
  end.
Proof.
  revert s r. induction l as [|e l IH]; intros s r Hw; simpl.
  { intros [= <- <-]. split_and!; try done; [by left|set_solver]. }
  destruct (insert_author_log_entry s e) as [s1 o1] eqn:E.
  apply insert_entry_cases in E as [(out & -> & Hv & Hc & -> & Hout)|(err & -> & -> & Hno)]; [| |done].
  2:{ intros [= <- <-]. split_and!; try done; [by left|]. intros [Hval Hcomp]. apply Hno.
      split; [apply Hval; by left|]. intros x Hx. apply Hcomp; [by left|by left]. }
  set (s1 := with_log s _). pose proof (in_log_insert s e) as Hin. fold s1 in Hin.
  assert (log_wf (ls_author_log s1)) as Hw1.
  { apply log_insert_wf; [done..|]. intros k x Hx. pose proof (lw_key _ Hw _ _ Hx) as ->. by apply Hc. }
  intros Hl. assert (∃ r1, merge_loop s1 r1 l = (s', o) ∧
     (alm_inserted r1 + alm_duplicates r1 = S (alm_inserted r + alm_duplicates r))%nat ∧
     (in_log s e → alm_inserted r1 = alm_inserted r)) as (r1 & Hr1 & Hcount & Hins).
  { destruct Hout as [[-> Hnone]|[-> Hdup]]; eexists; (split; [exact Hl|]); simpl; split; try lia.
    intros Hs. unfold in_log in Hs. congruence. }
  apply IH in Hr1 as (Hw' & [Hs1 Hs2] & Hmono & Hsub & Ho); [|done]. split_and!; try done.
  - intros x Hx. apply Hmono, Hin; auto.
  - intros x [[->|Hx]%Hin|Hx]%Hsub; [right; by left|by left|done..|right; by right].
  - destruct o as [r'|err].
    + destruct Ho as (Hall & Hsum & Hdup). split_and!; [|lia|].
      * intros x [->|Hx]%elem_of_cons; [|by apply Hall]. apply Hmono, Hin; auto.
      * intros Hpre. rewrite Hdup; [apply Hins, Hpre; by left|].
        intros x Hx. apply Hin; [done..|]. right. apply Hpre. by right.
    + intros [Hval Hcomp]. apply Ho. split; [intros x Hx; apply Hval; by right|].
      intros x y Hx [[->|Hy]%Hin|Hy]; [|apply Hcomp; [by right|by left]|done..|].
      * apply Hcomp; [by right|right; by left].
      * apply Hcomp; [by right|right; by right].
Qed.

Definition store_merge_ok (s : LocalStore) (l : list AuthorLogEntry) : Prop :=
  (∀ x, x ∈ l → entry_valid x) ∧ ∀ x y, x ∈ l → in_log s y ∨ y ∈ l → compatible x y.

Lemma wf_compatible s x y :
  log_wf (ls_author_log s) → in_log s x → in_log s y → compatible x y.
Proof. intros Hw Hx Hy. by eapply (lw_compat _ Hw). Qed.

(** An atomic merge succeeds exactly when one log can hold everything, and is then the union. *)
Lemma merge_atomic_spec s l s' o :
  log_wf (ls_author_log s) → merge_author_logs_atomic s l = (s', o) →
  log_wf (ls_author_log s') ∧ same_rest s s' ∧
  (is_ok o = true ↔ store_merge_ok s l) ∧
  match o with
  | Ok r => (∀ x, in_log s' x ↔ in_log s x ∨ x ∈ l) ∧
            (alm_inserted r + alm_duplicates r = length l)%nat ∧
            ((∀ x, x ∈ l → in_log s x) → alm_inserted r = 0%nat)
  | Err _ => s' = s
  end.
Proof.
  intros Hw. unfold merge_author_logs_atomic, merge_author_logs.
  destruct (merge_loop s _ l) as [c [r|err]] eqn:E; intros [= <- <-];
    apply merge_loop_spec in E as (Hw' & Hrest & Hmono & Hsub & Ho); try done.
  - destruct Ho as (Hall & Hsum & Hdup). split_and!; try done.
    + split; [intros _|done]. split.
      * intros x Hx. eapply (lw_valid _ Hw'). by apply Hall.
      * intros x y Hx [Hy|Hy]; eapply wf_compatible; eauto.
    + intros x. split; [apply Hsub|]. intros [Hx|Hx]; auto.
Qed.

Lemma compatible_sym x y : compatible x y → compatible y x.
Proof. intros [->|[? ?]]; [by left|right; split; congruence]. Qed.

(** Logs without conflicts merge. *)
Lemma merge_compatible_ok a b :
  log_wf (ls_author_log a) → log_wf (ls_author_log b) →
  (∀ x y, in_log a x → in_log b y → compatible x y) →
  ∃ a' r, merge_author_logs_atomic a (log_snapshot b) = (a', Ok r) ∧ log_wf (ls_author_log a') ∧
    (∀ x, in_log a' x ↔ in_log a x ∨ in_log b x) ∧ same_rest a a' ∧
    ((∀ x, in_log b x → in_log a x) → alm_inserted r = 0%nat).
Proof.
  intros Ha Hb Hc. destruct (merge_author_logs_atomic a (log_snapshot b)) as [a' o] eqn:E.
  apply merge_atomic_spec in E as (Hw & Hr & Hiff & Ho); [|done].
  assert (store_merge_ok a (log_snapshot b)) as Hok.
  { split.
    - intros x Hx%in_snapshot; [|done]. by eapply (lw_valid _ Hb).
    - intros x y. rewrite !in_snapshot by done. intros Hx [Hy|Hy].
      + by apply compatible_sym, Hc.
      + exact (wf_compatible b x y Hb Hx Hy). }
  destruct o as [r|e]; [|apply Hiff in Hok; discriminate Hok].
  destruct Ho as (Hin & _ & H0). exists a', r. split_and!; try done.
  - intros x. by rewrite Hin, in_snapshot.
  - intros Hsub. apply H0. intros x Hx%in_snapshot; auto.
Qed.

Lemma log_ext s s' :
  log_wf (ls_author_log s) → log_wf (ls_author_log s') → (∀ x, in_log s x ↔ in_log s' x) →
  ls_author_log s = ls_author_log s'.
Proof.
  intros Hw Hw' Hx. apply map_eq. intros k. apply option_eq. intros e. split; intros He.
  - pose proof (lw_key _ Hw _ _ He) as ->. by apply Hx.
  - pose proof (lw_key _ Hw' _ _ He) as ->. by apply Hx.
Qed.

(** ** Lemmas: cache and tombstones *)

Definition cache_keyed (m : gmap string RecipientCacheEntry) : Prop :=
  ∀ id e, m !! id = Some e → rc_message_id e = id.

#[export] Instance cache_entry_cmp_laws : CmpLaws cache_entry_cmp.
Proof. unfold cache_entry_cmp. apply _. Qed.

(** Eviction keeps a sub-map of the right size, and what it drops is not newer. *)
Lemma cache_evict_spec fuel capacity m :
  cache_keyed m → (size m - capacity ≤ fuel)%nat →
  cache_evict fuel capacity m ⊆ m ∧ size (cache_evict fuel capacity m) = (size m `min` capacity)%nat ∧
  (∀ id x id' y, m !! id = Some x → cache_evict fuel capacity m !! id = None →
     cache_evict fuel capacity m !! id' = Some y → cache_entry_cmp x y ≠ Gt).
Proof.
  revert m. induction fuel as [|fuel IH]; intros m Hk Hf; simpl.
  { split_and!; [done|lia|]. intros; congruence. }
  destruct (Nat.ltb_spec capacity (size m)) as [Hlt|Hge].
  2:{ split_and!; [done|lia|]. intros; congruence. }
  destruct (min_by cache_entry_cmp (values m)) as [o|] eqn:Ho.
  2:{ destruct (values m) eqn:Hv; [|done]. pose proof (length_values m) as Hl. rewrite Hv in Hl.
      simpl in Hl. lia. }
  apply min_by_spec in Ho as [[id0 H0]%elem_of_values Hmin]; [|apply _]. rewrite (Hk _ _ H0).
  pose proof (map_size_delete_Some id0 m (ex_intro _ o H0)) as Hsz.
  destruct (IH (delete id0 m)) as (Hsub & Hsize & Hold); [|lia|].
  { intros id e [_ He]%lookup_delete_Some. by apply Hk. }
  set (m' := cache_evict fuel capacity (delete id0 m)) in *.
  assert (m' ⊆ m) as Hsub' by (etrans; [exact Hsub|apply delete_subseteq]).
  split_and!; [done|lia|]. intros id x id' y Hx Hn Hy. destruct (decide (id = id0)) as [->|Hne].
  - assert (x = o) as -> by congruence. apply Hmin, elem_of_values. exists id'. by eapply lookup_weaken.
  - eapply Hold; [by rewrite lookup_delete_ne|done..].
Qed.

(** The store's own invariant. *)
Record store_wf (s : LocalStore) : Prop := {
  sw_log : log_wf (ls_author_log s);
  sw_keyed : cache_keyed (bc_entries (ls_recipient_cache s));
  sw_bound : (size (bc_entries (ls_recipient_cache s)) ≤ bc_capacity (ls_recipient_cache s))%nat;
  sw_shredded id e :
    id ∈ ls_message_tombstones s → bc_entries (ls_recipient_cache s) !! id = Some e →
    rc_key_state e = KeyShredded
}.

Lemma local_store_new_wf capacity : store_wf (local_store_new capacity).
Proof.
  split; simpl; [apply log_wf_empty|..].
  - intros id e. rewrite lookup_empty. discriminate.
  - rewrite map_size_empty. lia.
  - set_solver.
Qed.

Lemma cache_insert_wf s e :
  store_wf s → (rc_message_id e ∈ ls_message_tombstones s → rc_key_state e = KeyShredded) →
  store_wf (with_recipient_cache s (cache_insert (ls_recipient_cache s) e)).
Proof.
  intros Hw He. unfold cache_insert. set (m := <[rc_message_id e := e]> _).
  assert (cache_keyed m) as Hk.
  { intros id x [[<- <-]|[_ Hx]]%lookup_insert_Some; [done|by apply (sw_keyed _ Hw)]. }
  destruct (cache_evict_spec (size m) (bc_capacity (ls_recipient_cache s)) m Hk) as (Hsub & Hsz & _);
    [lia|].
  split; simpl; [apply Hw|..].
  - intros id x Hx. apply Hk. by eapply lookup_weaken.
  - lia.
  - intros id x Hid Hx. assert (m !! id = Some x) as Hm by (by eapply lookup_weaken).
    apply lookup_insert_Some in Hm as [[<- <-]|[_ Hm]]; [auto|by eapply (sw_shredded _ Hw)].
Qed.

Lemma cache_received_wf s e : store_wf s → store_wf (cache_received s e).
Proof.
  intros Hw. unfold cache_received. case_bool_decide; by apply cache_insert_wf.
Qed.

Lemma shred_wf s id : store_wf s → store_wf (cooperative_shred_message s id).
Proof.
  intros Hw. unfold cooperative_shred_message, cache_shred.
  destruct (bc_entries (ls_recipient_cache s) !! id) as [e|] eqn:E; split; simpl; try apply Hw.
  - intros x y [[<- <-]|[_ Hy]]%lookup_insert_Some; simpl; by apply (sw_keyed _ Hw).
  - rewrite map_size_insert_Some by eauto. apply Hw.
  - intros x y Hx [[<- <-]|[Hne Hy]]%lookup_insert_Some; [done|].
    apply (sw_shredded _ Hw x); [set_solver|done].
  - intros x y Hx Hy. apply (sw_shredded _ Hw x); [|done]. assert (x ≠ id) by congruence. set_solver.
Qed.

(** *** Any sequence of operations *)

Inductive StoreCall :=
| CallAppend (e : AuthorLogEntry)
| CallMerge (l : list AuthorLogEntry)
| CallMergeAtomic (l : list AuthorLogEntry)
| CallReceive (e : RecipientCacheEntry)
| CallShred (id : string)
| CallMergeTombstones (ids : list string).

Definition store_step (s : LocalStore) (c : StoreCall) : LocalStore :=
  match c with
  | CallAppend e => (append_sent s e).1
  | CallMerge l => (merge_author_logs s l).1
  | CallMergeAtomic l => (merge_author_logs_atomic s l).1
  | CallReceive e => cache_received s e
  | CallShred id => cooperative_shred_message s id
  | CallMergeTombstones ids => store_merge_tombstones s ids
  end.

Definition store_run (s : LocalStore) (l : list StoreCall) : LocalStore := foldl store_step s l.

(** What a step does to the log and to the tombstones: both only grow. *)
Definition store_le (s s' : LocalStore) : Prop :=
  (∀ e, in_log s e → in_log s' e) ∧ ls_message_tombstones s ⊆ ls_message_tombstones s' ∧
  bc_capacity (ls_recipient_cache s) = bc_capacity (ls_recipient_cache s').

#[export] Instance store_le_preorder : PreOrder store_le.
Proof.
  split; [by split|]. intros a b c (Hl & Ht & Hc) (Hl' & Ht' & Hc').
  split_and!; [auto|etrans; eassumption|congruence].
Qed.

Lemma same_rest_wf s s' : store_wf s → log_wf (ls_author_log s') → same_rest s s' → store_wf s'.
Proof. intros Hw Hl [Hc Ht]. split; rewrite <- ?Hc, <- ?Ht; try apply Hw. done. Qed.

Lemma same_rest_le s s' : same_rest s s' → (∀ e, in_log s e → in_log s' e) → store_le s s'.
Proof. intros [Hc Ht] Hl. split_and!; [done|by rewrite Ht|by rewrite Hc]. Qed.

Lemma shred_le s id : store_le s (cooperative_shred_message s id).
Proof.
  split_and!; simpl; [done|set_solver|]. unfold cache_shred. by destruct (_ !! _).
Qed.

Lemma shreds_wf s ids :
  store_wf s → store_wf (store_merge_tombstones s ids) ∧ store_le s (store_merge_tombstones s ids).
Proof.
  unfold store_merge_tombstones. revert s. induction ids as [|id ids IH]; intros s Hw; [by split|].
  simpl. destruct (IH (cooperative_shred_message s id)) as [Hw' Hle]; [by apply shred_wf|].
  split; [done|]. etrans; [apply shred_le|exact Hle].
Qed.

Lemma store_step_wf s c : store_wf s → store_wf (store_step s c) ∧ store_le s (store_step s c).
Proof.
  intros Hw. pose proof (sw_log _ Hw) as Hl. destruct c as [e|l|l|e|id|ids]; simpl.
  - destruct (insert_author_log_entry s e) as [s' o] eqn:E. unfold append_sent. rewrite E. simpl.
    apply insert_entry_cases in E as [(out & _ & Hv & Hc & -> & _)|(err & _ & -> & _)]; [| |done];
      [|by split].
    assert (log_wf (ls_author_log (with_log s (<[log_key e := e]> (ls_author_log s))))) as Hl'.
    { apply log_insert_wf; [done..|]. intros k x Hx. pose proof (lw_key _ Hl _ _ Hx) as ->. by apply Hc. }
    split; [by apply (same_rest_wf s)|]. apply same_rest_le; [done|].
    intros x Hx. apply in_log_insert; auto.
  - destruct (merge_author_logs s l) as [s' o] eqn:E. unfold merge_author_logs in E.
    apply merge_loop_spec in E as (Hl' & Hr & Hm & _); [|done].
    split; [by apply (same_rest_wf s)|by apply same_rest_le].
  - destruct (merge_author_logs_atomic s l) as [s' [r|e]] eqn:E;
      apply merge_atomic_spec in E as (Hl' & Hr & _ & Ho); try done; simpl.
    + split; [by apply (same_rest_wf s)|]. apply same_rest_le; [done|].
      intros x Hx. apply Ho. by left.
    + subst s'. by split.
  - split; [by apply cache_received_wf|]. unfold cache_received. by case_bool_decide.
  - split; [by apply shred_wf|apply shred_le].
  - by apply shreds_wf.
Qed.

Lemma store_run_wf s l : store_wf s → store_wf (store_run s l) ∧ store_le s (store_run s l).
Proof.
  unfold store_run. revert s. induction l as [|c l IH]; intros s Hw; [by split|]. simpl.
  destruct (store_step_wf s c Hw) as [Hw1 Hle1]. destruct (IH _ Hw1) as [Hw2 Hle2].
  split; [done|]. by etrans.
Qed.

(** ** Lemmas: persisted tombstones *)

Definition tombstone_pairs (l : list AppMessageTombstoneState) : list (string * N) :=
  (λ t, (at_message_id t, at_shredded_at_ms t)) <$> l.

(** The abstract state: the earliest time recorded for each message. *)
Definition note_tombstone (m : gmap string N) (t : AppMessageTombstoneState) : gmap string N :=
  <[at_message_id t := match m !! at_message_id t with
                       | Some x => N.min x (at_shredded_at_ms t)
                       | None => at_shredded_at_ms t
                       end]> m.

Definition tombstone_map (ts : list AppMessageTombstoneState) : gmap string N :=
  foldl note_tombstone ∅ ts.

Definition tombstones_sorted (l : list AppMessageTombstoneState) : Prop :=
  StronglySorted (cmp_le String.compare) (message_tombstone_ids l) ∧ NoDup (message_tombstone_ids l).

Lemma StronglySorted_cmp_by {A B} (f : A → B) (c : B → B → comparison) l :
  StronglySorted (cmp_le (cmp_by f c)) l ↔ StronglySorted (cmp_le c) (f <$> l).
Proof.
  induction l as [|x l IH]; [split; constructor|]. rewrite fmap_cons. split.
  - intros [Hl Hx]%StronglySorted_inv. constructor; [by apply IH|]. by rewrite Forall_fmap.
  - intros [Hl Hx]%StronglySorted_inv. constructor; [by apply IH|]. by rewrite Forall_fmap in Hx.
Qed.

Lemma tombstone_pairs_fst l : (tombstone_pairs l).*1 = message_tombstone_ids l.
Proof. unfold tombstone_pairs. by rewrite <- list_fmap_compose. Qed.

(** A sorted list is determined by its map. *)
Lemma pairs_are_entries l :
  tombstones_sorted l → tombstone_pairs l = entries (list_to_map (tombstone_pairs l) : gmap string N).
Proof.
  intros [Hs Hnd]. rewrite <- tombstone_pairs_fst in Hs, Hnd. unfold entries.
  transitivity (sort_by (cmp_by fst key_cmp) (tombstone_pairs l)).
  { symmetry. apply sort_by_id. by apply StronglySorted_cmp_by. }
  symmetry. apply sort_by_unique; [apply _|..].
  - by apply map_to_list_to_map.
  - intros x y Hx Hy E. apply (cmp_eq (cmp := String.compare)) in E.
    rewrite map_to_list_to_map in Hx, Hy by done. by eapply (NoDup_fmap_inj_elem fst).
Qed.

Lemma update_tombstone_some t l l' :
  update_tombstone t l = Some l' →
  message_tombstone_ids l' = message_tombstone_ids l ∧
  (list_to_map (tombstone_pairs l') : gmap string N)
    = note_tombstone (list_to_map (tombstone_pairs l)) t.
Proof.
  revert l'. induction l as [|x l IH]; intros l'; [done|]. simpl. case_bool_decide as E.
  - intros [= <-]. split; [done|]. unfold note_tombstone. simpl. rewrite <- E, lookup_insert_eq.
    rewrite insert_insert_eq. do 2 f_equal.
    destruct (N.ltb_spec (at_shredded_at_ms t) (at_shredded_at_ms x)); lia.
  - intros (l0 & [Hi Hm]%IH & ->)%fmap_Some. simpl. split; [unfold message_tombstone_ids in *; simpl; congruence|].
    rewrite Hm. unfold note_tombstone. rewrite lookup_insert_ne by done.
    by rewrite insert_insert_ne by done.
Qed.

Lemma update_tombstone_none t l :
  update_tombstone t l = None → at_message_id t ∉ message_tombstone_ids l.
Proof.
  induction l as [|x l IH]; [set_solver|]. simpl. case_bool_decide as E; [done|].
  rewrite fmap_None. intros Hn%IH. unfold message_tombstone_ids in *. simpl. set_solver.
Qed.

Lemma record_tombstone_spec l t :
  tombstones_sorted l →
  tombstones_sorted (record_message_tombstone l t) ∧
  (list_to_map (tombstone_pairs (record_message_tombstone l t)) : gmap string N)
    = note_tombstone (list_to_map (tombstone_pairs l)) t.
Proof.
  intros Hs. unfold record_message_tombstone. destruct (update_tombstone t l) as [l'|] eqn:E.
  - apply update_tombstone_some in E as [Hi Hm]. split; [|done]. unfold tombstones_sorted. by rewrite Hi.
  - apply update_tombstone_none in E. destruct Hs as [Hs Hnd].
    set (k := sort_by _ _). assert (k ≡ₚ t :: l) as Hk.
    { unfold k. rewrite sort_by_perm. symmetry. apply Permutation_cons_append. }
    assert (NoDup (message_tombstone_ids k)) as Hndk.
    { unfold message_tombstone_ids. rewrite Hk. simpl. by apply NoDup_cons. }
    split; [split; [|done]|].
    + apply (StronglySorted_cmp_by at_message_id String.compare). unfold k. apply sort_by_sorted, _.
    + rewrite (list_to_map_proper _ (tombstone_pairs (t :: l))).
      * simpl. unfold note_tombstone.
        rewrite (not_elem_of_list_to_map_1 (tombstone_pairs l)); [done|].
        by rewrite tombstone_pairs_fst.
      * by rewrite tombstone_pairs_fst.
      * unfold tombstone_pairs. by rewrite Hk.
Qed.

Lemma merge_tombstones_spec l ts :
  tombstones_sorted l →
  tombstones_sorted (merge_message_tombstones l ts) ∧
  (list_to_map (tombstone_pairs (merge_message_tombstones l ts)) : gmap string N)
    = foldl note_tombstone (list_to_map (tombstone_pairs l)) ts.
Proof.
  unfold merge_message_tombstones. revert l. induction ts as [|t ts IH]; intros l Hs; [done|]. simpl.
  destruct (record_tombstone_spec l t Hs) as [Hs' <-]. by apply IH.
Qed.

Lemma note_tombstone_comm m t u :
  note_tombstone (note_tombstone m t) u = note_tombstone (note_tombstone m u) t.
Proof.
  unfold note_tombstone. destruct (decide (at_message_id t = at_message_id u)) as [E|E].
  - rewrite E, !lookup_insert_eq, !insert_insert_eq. f_equal. destruct (m !! at_message_id u); lia.
  - rewrite !lookup_insert_ne by done. by rewrite insert_insert_ne by done.
Qed.

Lemma tombstone_map_perm ts us : ts ≡ₚ us → tombstone_map ts = tombstone_map us.
Proof.
  unfold tombstone_map. generalize (∅ : gmap string N) as m. intros m Hp. revert m.
  induction Hp as [|t ts us _ IH|t u ts|ts us vs _ IH _ IH']; intros m; simpl; [done|auto| |].
  - by rewrite note_tombstone_comm.
  - by rewrite IH.
Qed.

Lemma tombstone_map_none ts id :
  tombstone_map ts !! id = None → ∀ t, t ∈ ts → at_message_id t ≠ id.
Proof.
  unfold tombstone_map. induction ts as [|u ts IH] using rev_ind; [set_solver|]. rewrite foldl_app. simpl.
  unfold note_tombstone at 1. intros [E Hne]%lookup_insert_None t [Ht|Ht]%elem_of_app; [by apply IH|].
  apply list_elem_of_singleton in Ht as ->. done.
Qed.

Lemma tombstone_map_lookup ts id x :
  tombstone_map ts !! id = Some x ↔
  (∃ t, t ∈ ts ∧ at_message_id t = id ∧ at_shredded_at_ms t = x) ∧
  ∀ t, t ∈ ts → at_message_id t = id → x ≤ at_shredded_at_ms t.
Proof.
  unfold tombstone_map. revert x. induction ts as [|t ts IH] using rev_ind; intros x.
  { simpl. rewrite lookup_empty. set_solver. }
  rewrite foldl_app. simpl. unfold note_tombstone at 1. set (m := foldl _ _ _) in *.
  setoid_rewrite elem_of_app. setoid_rewrite list_elem_of_singleton.
  destruct (decide (at_message_id t = id)) as [E|E].
  - rewrite E, lookup_insert_eq. destruct (m !! id) as [y|] eqn:Hy.
    + destruct (proj1 (IH y) eq_refl) as [(u & Hu & Hid & <-) Hmin]. split.
      * intros [= <-]. split.
        -- destruct (N.le_ge_cases (at_shredded_at_ms u) (at_shredded_at_ms t));
             [exists u|exists t]; split_and!; auto; lia.
        -- intros v [Hv| ->] Hvid; [specialize (Hmin v Hv Hvid)|]; lia.
      * intros [(v & Hv & Hvid & <-) Hall]. f_equal.
        pose proof (Hall u (or_introl Hu) Hid). pose proof (Hall t (or_intror eq_refl) E).
        destruct Hv as [Hv| ->]; [specialize (Hmin v Hv Hvid)|]; lia.
    + pose proof (tombstone_map_none ts id Hy) as Hno.
      split.
      * intros [= <-]. split; [eauto|]. intros v [Hv| ->] Hvid; [by destruct (Hno v)|lia].
      * intros [(v & [Hv| ->] & Hvid & <-) _]; [by destruct (Hno v)|done].
  - rewrite lookup_insert_ne by done. rewrite IH. set_solver.
Qed.

(** ** Properties *)

(** Whatever sequence of appends, merges, received messages and shreds a store goes
    through, an atomic merge of any entries succeeds exactly when one log can hold them all
    together (valid ids, one entry per position, one position per message id); it then is the
    union of both and counts every entry once, and otherwise the store is unchanged. *)
Theorem atomic_merge_is_exact n calls l s' o :
  let s := store_run (local_store_new n) calls in
  merge_author_logs_atomic s l = (s', o) →
  (is_ok o = true ↔ store_merge_ok s l) ∧
  match o with
  | Ok r => (∀ x, x ∈ log_snapshot s' ↔ x ∈ log_snapshot s ∨ x ∈ l) ∧
            (alm_inserted r + alm_duplicates r = length l)%nat ∧ same_rest s s'
  | Err _ => s' = s
  end.
Proof.
  intros s Hm. destruct (store_run_wf _ calls (local_store_new_wf n)) as [Hw _]. fold s in Hw.
  apply merge_atomic_spec in Hm as (Hl & Hr & Hiff & Ho); [|apply Hw]. split; [done|].
  destruct o as [r|e]; [|done]. destruct Ho as (Hin & Hsum & _). split_and!; try done.
  intros x. rewrite !in_snapshot by (done || apply Hw). apply Hin.
Qed.

(** Two devices that exchange their author logs agree: if no entry of one conflicts with
    an entry of the other, both atomic merges succeed, the two logs become equal and hold
    exactly the entries of both, and merging again changes nothing. *)
Theorem author_logs_converge n m ca cb :
  let a := store_run (local_store_new n) ca in
  let b := store_run (local_store_new m) cb in
  (∀ x y, x ∈ log_snapshot a → y ∈ log_snapshot b → compatible x y) →
  ∃ a' b' ra rb,
    merge_author_logs_atomic a (log_snapshot b) = (a', Ok ra) ∧
    merge_author_logs_atomic b (log_snapshot a) = (b', Ok rb) ∧
    ls_author_log a' = ls_author_log b' ∧
    (∀ x, x ∈ log_snapshot a' ↔ x ∈ log_snapshot a ∨ x ∈ log_snapshot b) ∧
    ∃ r, merge_author_logs_atomic a' (log_snapshot b') = (a', Ok r) ∧ alm_inserted r = 0%nat.
Proof.
  intros a b Hc. destruct (store_run_wf _ ca (local_store_new_wf n)) as [[Hla _ _ _] _].
  destruct (store_run_wf _ cb (local_store_new_wf m)) as [[Hlb _ _ _] _]. fold a in Hla. fold b in Hlb.
  setoid_rewrite in_snapshot in Hc; [|done..].
  destruct (merge_compatible_ok a b Hla Hlb Hc) as (a' & ra & Ea & Hwa & Hina & _ & _).
  destruct (merge_compatible_ok b a Hlb Hla) as (b' & rb & Eb & Hwb & Hinb & _ & _).
  { intros x y Hx Hy. by apply compatible_sym, Hc. }
  assert (∀ x, in_log a' x ↔ in_log b' x) as Heq by (intros x; rewrite Hina, Hinb; tauto).
  exists a', b', ra, rb. split_and!; try done; [by apply log_ext| |].
  { intros x. rewrite !in_snapshot by done. apply Hina. }
  destruct (merge_compatible_ok a' b' Hwa Hwb) as (c & r & Ec & Hwc & Hinc & [Hr1 Hr2] & H0).
  { intros x y Hx Hy%Heq. exact (wf_compatible a' x y Hwa Hx Hy). }
  exists r. split; [|by apply H0; intros x; apply Heq]. rewrite Ec. f_equal.
  assert (ls_author_log c = ls_author_log a') as Hl.
  { apply log_ext; [done..|]. intros x. rewrite Hinc, <- Heq. tauto. }
  destruct a', c. simpl in *. congruence.
Qed.

(** C37. A shredded message stays unreadable: after a cooperative shred, whatever is
    received, merged or shredded later, decryption reports it as shredded, no cached copy
    keeps a key, and its tombstone is reported; meanwhile the cache respects its capacity and
    no entry leaves the author log. *)
Theorem shredded_message_stays_unreadable n before id after :
  let s0 := store_run (local_store_new n) before in
  let s := store_run (cooperative_shred_message s0 id) after in
  decrypt_cached_message_for_harness s id = Err (DecryptShredded id) ∧
  (∀ e, bc_entries (ls_recipient_cache s) !! id = Some e → rc_key_state e = KeyShredded) ∧
  id ∈ message_tombstones s ∧
  (size (bc_entries (ls_recipient_cache s)) ≤ n `max` 1)%nat ∧
  (∀ e, e ∈ log_snapshot s0 → e ∈ log_snapshot s).
Proof.
  intros s0 s. destruct (store_run_wf _ before (local_store_new_wf n)) as [Hw0 (_ & _ & Hcap0)].
  fold s0 in Hw0, Hcap0. pose proof (shred_wf s0 id Hw0) as Hw1.
  destruct (store_run_wf _ after Hw1) as [Hw Hle]. fold s in Hw, Hle.
  pose proof (shred_le s0 id) as Hle1. assert (store_le s0 s) as (Hlog & _ & Hcap) by (by etrans).
  destruct Hle as (_ & Ht & _).
  assert (id ∈ ls_message_tombstones s) as Hid by (apply Ht; simpl; set_solver).
  split_and!.
  - unfold decrypt_cached_message_for_harness. by rewrite bool_decide_true.
  - intros e. by apply (sw_shredded _ Hw).
  - by apply elem_of_sorted_elements.
  - pose proof (sw_bound _ Hw) as Hb. rewrite <- Hcap, <- Hcap0 in Hb. done.
  - intros e. rewrite !in_snapshot by apply sw_log, Hw || apply sw_log, Hw0. apply Hlog.
Qed.

(** Persisted tombstones refine a map from message ids to the earliest shred time: the
    list kept by the app state is exactly that map in id order, a message has a tombstone
    exactly when one was recorded, with the least of the recorded times, and therefore the
    order in which devices exchange tombstones does not matter. *)
Theorem tombstones_refine_earliest_times ts :
  let l := merge_message_tombstones [] ts in
  tombstone_pairs l = entries (tombstone_map ts) ∧
  (∀ id, has_message_tombstone l id = true ↔ ∃ t, t ∈ ts ∧ at_message_id t = id) ∧
  (∀ id x, (id, x) ∈ tombstone_pairs l ↔
     (∃ t, t ∈ ts ∧ at_message_id t = id ∧ at_shredded_at_ms t = x) ∧
     ∀ t, t ∈ ts → at_message_id t = id → x ≤ at_shredded_at_ms t) ∧
  (∀ us, ts ≡ₚ us → tombstone_pairs (merge_message_tombstones [] us) = tombstone_pairs l).
Proof.
  intros l. assert (∀ us, tombstone_pairs (merge_message_tombstones [] us) = entries (tombstone_map us)) as He.
  { intros us. destruct (merge_tombstones_spec [] us) as [Hs Hm]; [by split; constructor|].
    rewrite pairs_are_entries, Hm by done. done. }
  assert (∀ id x, (id, x) ∈ tombstone_pairs l ↔ tombstone_map ts !! id = Some x) as Hlk.
  { intros id x. unfold l. rewrite He. apply elem_of_entries. }
  split_and!; [apply He| | |].
  - intros id. unfold has_message_tombstone. rewrite existsb_exists. split.
    + intros (t & Ht%list_elem_of_In & Hid%bool_decide_eq_true).
      assert ((id, at_shredded_at_ms t) ∈ tombstone_pairs l) as Hin.
      { apply list_elem_of_fmap. exists t. by rewrite Hid. }
      apply Hlk, tombstone_map_lookup in Hin as [(u & ? & ? & _) _]. eauto.
    + intros (t & Ht & Hid). destruct (tombstone_map ts !! id) as [x|] eqn:E.
      * apply Hlk, list_elem_of_fmap in E as (u & [= -> _] & Hu). exists u.
        split; [by apply list_elem_of_In|]. by apply bool_decide_eq_true.
      * by destruct (tombstone_map_none _ _ E t Ht).
  - intros id x. by rewrite Hlk, tombstone_map_lookup.
  - intros us Hp. unfold l. rewrite !He. by rewrite (tombstone_map_perm ts us).
Qed.

(** ** Witnesses *)

Section witnesses.
Definition ex_entry (device : string) (sequence : N) (id : string) : AuthorLogEntry :=
  {| al_author_leaf := 1; al_device_id := device; al_sequence := sequence; al_epoch := 1;
     al_message_id := id; al_ciphertext := [1; 2] |}.

Definition ex_phone : list StoreCall := [CallAppend (ex_entry "phone" 1 "m1")].
Definition ex_laptop : list StoreCall := [CallAppend (ex_entry "laptop" 1 "m2")].

Lemma atomic_merge_is_exact_witness :
  let s := store_run (local_store_new 4) ex_phone in
  let l := [ex_entry "laptop" 1 "m2"; ex_entry "phone" 1 "other"] in
  (merge_author_logs_atomic s l).1 = s.
Proof.
  intros s l. destruct (merge_author_logs_atomic s l) as [s' o] eqn:E.
  destruct (atomic_merge_is_exact 4 ex_phone l s' o E) as [_ Ho].
  destruct o as [r|e]; [|exact Ho].
  assert (is_ok (merge_author_logs_atomic s l).2 = false) as H by (vm_compute; reflexivity).
  rewrite E in H. discriminate H.
Defined.

Lemma author_logs_converge_witness :
  let a := store_run (local_store_new 4) ex_phone in
  let b := store_run (local_store_new 4) ex_laptop in
  ∃ a' b' ra rb,
    merge_author_logs_atomic a (log_snapshot b) = (a', Ok ra) ∧
    merge_author_logs_atomic b (log_snapshot a) = (b', Ok rb) ∧
    ls_author_log a' = ls_author_log b'.
Proof.
  intros a b.
  destruct (author_logs_converge 4 4 ex_phone ex_laptop) as (a' & b' & ra & rb & Ha & Hb & Heq & _).
  - intros x y Hx Hy.
    assert (log_snapshot (store_run (local_store_new 4) ex_phone) = [ex_entry "phone" 1 "m1"]) as Ea
      by (vm_compute; reflexivity).
    assert (log_snapshot (store_run (local_store_new 4) ex_laptop) = [ex_entry "laptop" 1 "m2"]) as Eb
      by (vm_compute; reflexivity).
    rewrite Ea in Hx. rewrite Eb in Hy.
    apply list_elem_of_singleton in Hx as ->. apply list_elem_of_singleton in Hy as ->.
    right. split; discriminate.
  - exists a', b', ra, rb. split; [exact Ha|]. split; [exact Hb|exact Heq].
Defined.
End witnesses.
