(* ===== verification/AppDbSchema.v ===== *)
(** * The application database schema

    The schema manifest, the migration plan and the inventory check of
    [crates/storage/src/appdb.rs]. The statements are the source's SQL texts; what a
    [CREATE TABLE] declares is read off its text here, as SQLite would. *)

From S2P Require Import Prelude Collections Bytes StrOps Timeline.

Definition APP_DB_SCHEMA_VERSION : N := 2.

Definition REQUIRED_TABLES : list string :=
  ["profiles"; "devices"; "groups"; "group_role_policy"; "group_members";
   "group_admission_requests"; "group_governance_log"; "group_member_presence"; "channels";
   "invites"; "governance_events"; "message_envelopes"; "retention_state"; "delivery_queue";
   "voice_preferences"; "event_cursors"]%string.

(** ** Statements *)

Definition CREATE_PROFILES : string :=
  "CREATE TABLE IF NOT EXISTS profiles (profile_id TEXT PRIMARY KEY NOT NULL, user_id TEXT NOT NULL UNIQUE, display_name TEXT NOT NULL, friend_code TEXT NOT NULL, safety_number TEXT NOT NULL, safety_verified INTEGER NOT NULL DEFAULT 0, created_at_ms INTEGER NOT NULL, updated_at_ms INTEGER NOT NULL)".

Definition CREATE_DEVICES : string :=
  "CREATE TABLE IF NOT EXISTS devices (device_id TEXT PRIMARY KEY NOT NULL, profile_id TEXT NOT NULL REFERENCES profiles(profile_id) ON DELETE CASCADE, mls_leaf INTEGER NOT NULL, credential_hash BLOB NOT NULL, identity_key_ref TEXT NOT NULL, status TEXT NOT NULL, added_at_ms INTEGER NOT NULL, removed_at_ms INTEGER)".

Definition CREATE_GROUPS : string :=
  "CREATE TABLE IF NOT EXISTS groups (group_id TEXT PRIMARY KEY NOT NULL, profile_id TEXT NOT NULL REFERENCES profiles(profile_id) ON DELETE CASCADE, name TEXT NOT NULL, role TEXT NOT NULL, mls_epoch INTEGER NOT NULL, created_at_ms INTEGER NOT NULL, updated_at_ms INTEGER NOT NULL)".

Definition CREATE_GROUP_ROLE_POLICY : string :=
  "CREATE TABLE IF NOT EXISTS group_role_policy (group_id TEXT PRIMARY KEY NOT NULL REFERENCES groups(group_id) ON DELETE CASCADE, admission_mode TEXT NOT NULL, policy_epoch INTEGER NOT NULL, updated_by TEXT NOT NULL, updated_at_ms INTEGER NOT NULL)".

Definition CREATE_GROUP_MEMBERS : string :=
  "CREATE TABLE IF NOT EXISTS group_members (group_id TEXT NOT NULL REFERENCES groups(group_id) ON DELETE CASCADE, member_id TEXT NOT NULL, display_name TEXT NOT NULL, device_id TEXT, role TEXT NOT NULL, status TEXT NOT NULL, signer_public_key_hex TEXT, joined_at_ms INTEGER NOT NULL, last_seen_at_ms INTEGER, presence_expires_at_ms INTEGER, revoked_at_ms INTEGER, revoked_by TEXT, PRIMARY KEY(group_id, member_id))".

Definition CREATE_GROUP_ADMISSION_REQUESTS : string :=
  "CREATE TABLE IF NOT EXISTS group_admission_requests (request_id TEXT PRIMARY KEY NOT NULL, group_id TEXT NOT NULL REFERENCES groups(group_id) ON DELETE CASCADE, invite_id TEXT, display_name TEXT NOT NULL, device_name TEXT, member_identity TEXT NOT NULL, signer_public_key_hex TEXT NOT NULL, key_package BLOB NOT NULL, status TEXT NOT NULL, requested_at_ms INTEGER NOT NULL, decided_by TEXT, decided_at_ms INTEGER, decision_reason TEXT, policy_epoch_at_request INTEGER NOT NULL, admission_mode_at_request TEXT)".

Definition CREATE_GROUP_GOVERNANCE_LOG : string :=
  "CREATE TABLE IF NOT EXISTS group_governance_log (event_id TEXT PRIMARY KEY NOT NULL, group_id TEXT NOT NULL REFERENCES groups(group_id) ON DELETE CASCADE, sequence INTEGER NOT NULL, event_kind TEXT NOT NULL, actor_member_id TEXT NOT NULL, target_member_id TEXT, request_id TEXT, role_before TEXT, role_after TEXT, policy_epoch INTEGER NOT NULL, created_at_ms INTEGER NOT NULL, summary TEXT NOT NULL, signed_event_id TEXT REFERENCES governance_events(event_id) ON DELETE SET NULL, UNIQUE(group_id, sequence))".

Definition CREATE_GROUP_MEMBER_PRESENCE : string :=
  "CREATE TABLE IF NOT EXISTS group_member_presence (group_id TEXT NOT NULL REFERENCES groups(group_id) ON DELETE CASCADE, member_id TEXT NOT NULL, status TEXT NOT NULL, last_seen_at_ms INTEGER, presence_expires_at_ms INTEGER NOT NULL, heartbeat_observed_at_ms INTEGER NOT NULL, evidence_source TEXT NOT NULL, PRIMARY KEY(group_id, member_id), FOREIGN KEY(group_id, member_id) REFERENCES group_members(group_id, member_id) ON DELETE CASCADE)".

Definition CREATE_CHANNELS : string :=
  "CREATE TABLE IF NOT EXISTS channels (channel_id TEXT PRIMARY KEY NOT NULL, group_id TEXT NOT NULL REFERENCES groups(group_id) ON DELETE CASCADE, name TEXT NOT NULL, kind TEXT NOT NULL, retention_preset TEXT NOT NULL, created_at_ms INTEGER NOT NULL, updated_at_ms INTEGER NOT NULL)".

Definition CREATE_INVITES : string :=
  "CREATE TABLE IF NOT EXISTS invites (invite_id TEXT PRIMARY KEY NOT NULL, group_id TEXT NOT NULL REFERENCES groups(group_id) ON DELETE CASCADE, expires_at_ms INTEGER NOT NULL, max_uses INTEGER NOT NULL, password_gate TEXT NOT NULL, revoked INTEGER NOT NULL DEFAULT 0, created_at_ms INTEGER NOT NULL)".

Definition CREATE_GOVERNANCE_EVENTS : string :=
  "CREATE TABLE IF NOT EXISTS governance_events (event_id TEXT PRIMARY KEY NOT NULL, group_id TEXT NOT NULL REFERENCES groups(group_id) ON DELETE CASCADE, sequence INTEGER NOT NULL, event_type TEXT NOT NULL, signed_payload BLOB NOT NULL, author_device_id TEXT NOT NULL, observed_at_ms INTEGER NOT NULL, UNIQUE(group_id, sequence))".

Definition CREATE_MESSAGE_ENVELOPES : string :=
  "CREATE TABLE IF NOT EXISTS message_envelopes (message_id TEXT PRIMARY KEY NOT NULL, group_id TEXT NOT NULL REFERENCES groups(group_id) ON DELETE CASCADE, channel_id TEXT NOT NULL REFERENCES channels(channel_id) ON DELETE CASCADE, author_device_id TEXT NOT NULL, author_sequence INTEGER NOT NULL, mls_epoch INTEGER NOT NULL, ciphertext BLOB NOT NULL, envelope_hash BLOB NOT NULL, sent_at_ms INTEGER NOT NULL, received_at_ms INTEGER, UNIQUE(group_id, author_device_id, author_sequence))".

Definition CREATE_RETENTION_STATE : string :=
  "CREATE TABLE IF NOT EXISTS retention_state (retention_id TEXT PRIMARY KEY NOT NULL, group_id TEXT NOT NULL REFERENCES groups(group_id) ON DELETE CASCADE, channel_id TEXT REFERENCES channels(channel_id) ON DELETE CASCADE, message_id TEXT REFERENCES message_envelopes(message_id) ON DELETE CASCADE, state TEXT NOT NULL, key_ref TEXT, shred_after_ms INTEGER, updated_at_ms INTEGER NOT NULL)".

Definition CREATE_DELIVERY_QUEUE : string :=
  "CREATE TABLE IF NOT EXISTS delivery_queue (queue_id TEXT PRIMARY KEY NOT NULL, message_id TEXT NOT NULL REFERENCES message_envelopes(message_id) ON DELETE CASCADE, destination TEXT NOT NULL, status TEXT NOT NULL, attempts INTEGER NOT NULL DEFAULT 0, next_attempt_ms INTEGER NOT NULL, last_error TEXT, updated_at_ms INTEGER NOT NULL)".

Definition CREATE_VOICE_PREFERENCES : string :=
  "CREATE TABLE IF NOT EXISTS voice_preferences (profile_id TEXT NOT NULL REFERENCES profiles(profile_id) ON DELETE CASCADE, group_id TEXT NOT NULL REFERENCES groups(group_id) ON DELETE CASCADE, channel_id TEXT NOT NULL REFERENCES channels(channel_id) ON DELETE CASCADE, muted INTEGER NOT NULL DEFAULT 0, speaker_volume INTEGER NOT NULL DEFAULT 100, route TEXT NOT NULL, updated_at_ms INTEGER NOT NULL, PRIMARY KEY(profile_id, group_id, channel_id))".

Definition CREATE_EVENT_CURSORS : string :=
  "CREATE TABLE IF NOT EXISTS event_cursors (cursor_id TEXT PRIMARY KEY NOT NULL, profile_id TEXT NOT NULL REFERENCES profiles(profile_id) ON DELETE CASCADE, source TEXT NOT NULL, position TEXT NOT NULL, updated_at_ms INTEGER NOT NULL, UNIQUE(profile_id, source))".

Definition CREATE_INDEXES : list string :=
  ["CREATE INDEX IF NOT EXISTS idx_devices_profile ON devices(profile_id)";
   "CREATE INDEX IF NOT EXISTS idx_channels_group ON channels(group_id)";
   "CREATE INDEX IF NOT EXISTS idx_messages_channel_time ON message_envelopes(channel_id, sent_at_ms)";
   "CREATE INDEX IF NOT EXISTS idx_delivery_status_attempt ON delivery_queue(status, next_attempt_ms)";
   "CREATE INDEX IF NOT EXISTS idx_retention_message ON retention_state(message_id)";
   "CREATE INDEX IF NOT EXISTS idx_governance_group_sequence ON governance_events(group_id, sequence)";
   "CREATE INDEX IF NOT EXISTS idx_group_members_group_role ON group_members(group_id, role)";
   "CREATE INDEX IF NOT EXISTS idx_group_admission_requests_group_status ON group_admission_requests(group_id, status)";
   "CREATE INDEX IF NOT EXISTS idx_group_presence_expiry ON group_member_presence(group_id, presence_expires_at_ms)"]%string.

Definition CURRENT_SCHEMA_DDL : list string :=
  ["PRAGMA foreign_keys = ON"%string; CREATE_PROFILES; CREATE_DEVICES; CREATE_GROUPS;
   CREATE_GROUP_ROLE_POLICY; CREATE_GROUP_MEMBERS; CREATE_GROUP_ADMISSION_REQUESTS;
   CREATE_GROUP_GOVERNANCE_LOG; CREATE_GROUP_MEMBER_PRESENCE; CREATE_CHANNELS; CREATE_INVITES;
   CREATE_GOVERNANCE_EVENTS; CREATE_MESSAGE_ENVELOPES; CREATE_RETENTION_STATE;
   CREATE_DELIVERY_QUEUE; CREATE_VOICE_PREFERENCES; CREATE_EVENT_CURSORS]
  ++ CREATE_INDEXES ++ ["PRAGMA user_version = 2"%string].

(** ** The manifest *)

Record AppDbColumn := { co_name : string; co_sql_type : string; co_sensitive : bool }.

Record AppDbTable := { ta_name : string; ta_columns : list AppDbColumn }.

Record AppDbSchema := { sc_version : N; sc_tables : list AppDbTable }.

Definition column (name sql_type : string) (sensitive : bool) : AppDbColumn :=
  {| co_name := name; co_sql_type := sql_type; co_sensitive := sensitive |}.

Definition PROFILE_COLUMNS : list AppDbColumn :=
  [column "profile_id" "TEXT" false;
   column "user_id" "TEXT" false;
   column "display_name" "TEXT" false;
   column "friend_code" "TEXT" false;
   column "safety_number" "TEXT" false;
   column "safety_verified" "INTEGER" false;
   column "created_at_ms" "INTEGER" false;
   column "updated_at_ms" "INTEGER" false].

Definition DEVICE_COLUMNS : list AppDbColumn :=
  [column "device_id" "TEXT" false;
   column "profile_id" "TEXT" false;
   column "mls_leaf" "INTEGER" false;
   column "credential_hash" "BLOB" false;
   column "identity_key_ref" "TEXT" true;
   column "status" "TEXT" false;
   column "added_at_ms" "INTEGER" false;
   column "removed_at_ms" "INTEGER" false].

Definition GROUP_COLUMNS : list AppDbColumn :=
  [column "group_id" "TEXT" false;
   column "profile_id" "TEXT" false;
   column "name" "TEXT" false;
   column "role" "TEXT" false;
   column "mls_epoch" "INTEGER" false;
   column "created_at_ms" "INTEGER" false;
   column "updated_at_ms" "INTEGER" false].

Definition GROUP_ROLE_POLICY_COLUMNS : list AppDbColumn :=
  [column "group_id" "TEXT" false;
   column "admission_mode" "TEXT" false;
   column "policy_epoch" "INTEGER" false;
   column "updated_by" "TEXT" false;
   column "updated_at_ms" "INTEGER" false].

Definition GROUP_MEMBER_COLUMNS : list AppDbColumn :=
  [column "group_id" "TEXT" false;
   column "member_id" "TEXT" false;
   column "display_name" "TEXT" false;
   column "device_id" "TEXT" false;
   column "role" "TEXT" false;
   column "status" "TEXT" false;
   column "signer_public_key_hex" "TEXT" false;
   column "joined_at_ms" "INTEGER" false;
   column "last_seen_at_ms" "INTEGER" false;
   column "presence_expires_at_ms" "INTEGER" false;
   column "revoked_at_ms" "INTEGER" false;
   column "revoked_by" "TEXT" false].

Definition GROUP_ADMISSION_REQUEST_COLUMNS : list AppDbColumn :=
  [column "request_id" "TEXT" false;
   column "group_id" "TEXT" false;
   column "invite_id" "TEXT" false;
   column "display_name" "TEXT" false;
   column "device_name" "TEXT" false;
   column "member_identity" "TEXT" false;
   column "signer_public_key_hex" "TEXT" false;
   column "key_package" "BLOB" false;
   column "status" "TEXT" false;
   column "requested_at_ms" "INTEGER" false;
   column "decided_by" "TEXT" false;
   column "decided_at_ms" "INTEGER" false;
   column "decision_reason" "TEXT" false;
   column "policy_epoch_at_request" "INTEGER" false;
   column "admission_mode_at_request" "TEXT" false].

Definition GROUP_GOVERNANCE_LOG_COLUMNS : list AppDbColumn :=
  [column "event_id" "TEXT" false;
   column "group_id" "TEXT" false;
   column "sequence" "INTEGER" false;
   column "event_kind" "TEXT" false;
   column "actor_member_id" "TEXT" false;
   column "target_member_id" "TEXT" false;
   column "request_id" "TEXT" false;
   column "role_before" "TEXT" false;
   column "role_after" "TEXT" false;
   column "policy_epoch" "INTEGER" false;
   column "created_at_ms" "INTEGER" false;
   column "summary" "TEXT" false;
   column "signed_event_id" "TEXT" false].

Definition GROUP_MEMBER_PRESENCE_COLUMNS : list AppDbColumn :=
  [column "group_id" "TEXT" false;
   column "member_id" "TEXT" false;
   column "status" "TEXT" false;
   column "last_seen_at_ms" "INTEGER" false;
   column "presence_expires_at_ms" "INTEGER" false;
   column "heartbeat_observed_at_ms" "INTEGER" false;
   column "evidence_source" "TEXT" false].

Definition CHANNEL_COLUMNS : list AppDbColumn :=
  [column "channel_id" "TEXT" false;
   column "group_id" "TEXT" false;
   column "name" "TEXT" false;
   column "kind" "TEXT" false;
   column "retention_preset" "TEXT" false;
   column "created_at_ms" "INTEGER" false;
   column "updated_at_ms" "INTEGER" false].

Definition INVITE_COLUMNS : list AppDbColumn :=
  [column "invite_id" "TEXT" false;
   column "group_id" "TEXT" false;
   column "expires_at_ms" "INTEGER" false;
   column "max_uses" "INTEGER" false;
   column "password_gate" "TEXT" true;
   column "revoked" "INTEGER" false;
   column "created_at_ms" "INTEGER" false].

Definition GOVERNANCE_COLUMNS : list AppDbColumn :=
  [column "event_id" "TEXT" false;
   column "group_id" "TEXT" false;
   column "sequence" "INTEGER" false;
   column "event_type" "TEXT" false;
   column "signed_payload" "BLOB" false;
   column "author_device_id" "TEXT" false;
   column "observed_at_ms" "INTEGER" false].

Definition MESSAGE_COLUMNS : list AppDbColumn :=
  [column "message_id" "TEXT" false;
   column "group_id" "TEXT" false;
   column "channel_id" "TEXT" false;
   column "author_device_id" "TEXT" false;
   column "author_sequence" "INTEGER" false;
   column "mls_epoch" "INTEGER" false;
   column "ciphertext" "BLOB" true;
   column "envelope_hash" "BLOB" false;
   column "sent_at_ms" "INTEGER" false;
   column "received_at_ms" "INTEGER" false].

Definition RETENTION_COLUMNS : list AppDbColumn :=
  [column "retention_id" "TEXT" false;
   column "group_id" "TEXT" false;
   column "channel_id" "TEXT" false;
   column "message_id" "TEXT" false;
   column "state" "TEXT" false;
   column "key_ref" "TEXT" true;
   column "shred_after_ms" "INTEGER" false;
   column "updated_at_ms" "INTEGER" false].

Definition DELIVERY_COLUMNS : list AppDbColumn :=
  [column "queue_id" "TEXT" false;
   column "message_id" "TEXT" false;
   column "destination" "TEXT" false;
   column "status" "TEXT" false;
   column "attempts" "INTEGER" false;
   column "next_attempt_ms" "INTEGER" false;
   column "last_error" "TEXT" false;
   column "updated_at_ms" "INTEGER" false].

Definition VOICE_COLUMNS : list AppDbColumn :=
  [column "profile_id" "TEXT" false;
   column "group_id" "TEXT" false;
   column "channel_id" "TEXT" false;
   column "muted" "INTEGER" false;
   column "speaker_volume" "INTEGER" false;
   column "route" "TEXT" false;
   column "updated_at_ms" "INTEGER" false].

Definition CURSOR_COLUMNS : list AppDbColumn :=
  [column "cursor_id" "TEXT" false;
   column "profile_id" "TEXT" false;
   column "source" "TEXT" false;
   column "position" "TEXT" false;
   column "updated_at_ms" "INTEGER" false].

Definition APP_DB_TABLES : list AppDbTable :=
  [{| ta_name := "profiles"; ta_columns := PROFILE_COLUMNS |};
   {| ta_name := "devices"; ta_columns := DEVICE_COLUMNS |};
   {| ta_name := "groups"; ta_columns := GROUP_COLUMNS |};
   {| ta_name := "group_role_policy"; ta_columns := GROUP_ROLE_POLICY_COLUMNS |};
   {| ta_name := "group_members"; ta_columns := GROUP_MEMBER_COLUMNS |};
   {| ta_name := "group_admission_requests"; ta_columns := GROUP_ADMISSION_REQUEST_COLUMNS |};
   {| ta_name := "group_governance_log"; ta_columns := GROUP_GOVERNANCE_LOG_COLUMNS |};
   {| ta_name := "group_member_presence"; ta_columns := GROUP_MEMBER_PRESENCE_COLUMNS |};
   {| ta_name := "channels"; ta_columns := CHANNEL_COLUMNS |};
   {| ta_name := "invites"; ta_columns := INVITE_COLUMNS |};
   {| ta_name := "governance_events"; ta_columns := GOVERNANCE_COLUMNS |};
   {| ta_name := "message_envelopes"; ta_columns := MESSAGE_COLUMNS |};
   {| ta_name := "retention_state"; ta_columns := RETENTION_COLUMNS |};
   {| ta_name := "delivery_queue"; ta_columns := DELIVERY_COLUMNS |};
   {| ta_name := "voice_preferences"; ta_columns := VOICE_COLUMNS |};
   {| ta_name := "event_cursors"; ta_columns := CURSOR_COLUMNS |}].
Definition schema_current : AppDbSchema :=
  {| sc_version := APP_DB_SCHEMA_VERSION; sc_tables := APP_DB_TABLES |}.

Definition schema_table (s : AppDbSchema) (name : string) : option AppDbTable :=
  List.find (λ t, bool_decide (ta_name t = name)) (sc_tables s).

Definition sensitive_columns (s : AppDbSchema) : list (string * AppDbColumn) :=
  sc_tables s ≫= λ t, (λ c, (ta_name t, c)) <$> List.filter co_sensitive (ta_columns t).

(** ** Migration plans *)

Inductive MigrationDirection := CreateCurrent | Noop.

Record AppDbMigrationPlan := {
  mp_from_version : N;
  mp_to_version : N;
  mp_direction : MigrationDirection;
  mp_statements : list string
}.

Inductive AppDbError :=
| UnsupportedFutureVersion (version current : N)
| UnsupportedPreCurrentVersion (version current : N)
| MissingRequiredTable (table : string)
| MissingRequiredColumn (table column : string)
| QuarantineIo (detail : string).

Definition validate_target_version (version : N) : result unit AppDbError :=
  reject_if (APP_DB_SCHEMA_VERSION <? version)
    (UnsupportedFutureVersion version APP_DB_SCHEMA_VERSION).

Definition validate_existing_version (version : N) : result unit AppDbError :=
  check reject_if (APP_DB_SCHEMA_VERSION <? version)
    (UnsupportedFutureVersion version APP_DB_SCHEMA_VERSION) in
  reject_if (negb (version =? APP_DB_SCHEMA_VERSION))
    (UnsupportedPreCurrentVersion version APP_DB_SCHEMA_VERSION).

Definition migration_plan (from_version to_version : N) : result AppDbMigrationPlan AppDbError :=
  check validate_target_version to_version in
  if from_version =? to_version then
    check validate_existing_version from_version in
    Ok {| mp_from_version := from_version; mp_to_version := to_version; mp_direction := Noop;
          mp_statements := [] |}
  else if (from_version =? 0) && (to_version =? APP_DB_SCHEMA_VERSION) then
    Ok {| mp_from_version := from_version; mp_to_version := to_version;
          mp_direction := CreateCurrent; mp_statements := CURRENT_SCHEMA_DDL |}
  else
    check validate_existing_version from_version in
    Err (UnsupportedPreCurrentVersion to_version APP_DB_SCHEMA_VERSION).

Definition plan_is_empty (p : AppDbMigrationPlan) : bool := bool_decide (mp_statements p = []).

(** ** The observed inventory *)

Abbreviation Inventory := (list (string * list string)).

Definition observed_columns (observed : Inventory) (name : string) : option (list string) :=
  snd <$> List.find (λ t, bool_decide (t.1 = name)) observed.

Fixpoint missing_column (table : string) (required : list AppDbColumn) (columns : list string) :
    result unit AppDbError :=
  match required with
  | [] => Ok tt
  | c :: rest =>
      if bool_decide (co_name c ∈ columns) then missing_column table rest columns
      else Err (MissingRequiredColumn table (co_name c))
  end.

Fixpoint validate_tables (required : list AppDbTable) (observed : Inventory) :
    result unit AppDbError :=
  match required with
  | [] => Ok tt
  | t :: rest =>
      match observed_columns observed (ta_name t) with
      | None => Err (MissingRequiredTable (ta_name t))
      | Some columns =>
          check missing_column (ta_name t) (ta_columns t) columns in validate_tables rest observed
      end
  end.

Definition validate_observed_schema (observed : Inventory) : result unit AppDbError :=
  validate_tables (sc_tables schema_current) observed.

(** ** Quarantine

    Files by path; [fs::rename] replaces its target and fails when there is no source. *)

Definition sidecar_path (path suffix : string) : string := path +:+ "-" +:+ suffix.

Definition corruption_path (path tag : string) (timestamp : N) : string :=
  path +:+ ".corrupt-" +:+ tag +:+ "-" +:+ pretty timestamp.

Record QuarantinedAppDb := {
  qa_original_path : string;
  qa_quarantine_path : string;
  qa_sidecars : list (string * string)
}.

Abbreviation Files := (gmap string bytes).

Definition fs_rename (source target : string) (files : Files) : result Files AppDbError :=
  match files !! source with
  | None => Err (QuarantineIo "entity not found")
  | Some b => Ok (<[target := b]> (delete source files))
  end.

(** One clock reading per file. *)
Fixpoint quarantine_sidecars (path : string) (suffixes : list (string * N)) (files : Files) :
    Files * result (list (string * string)) AppDbError :=
  match suffixes with
  | [] => (files, Ok [])
  | (suffix, timestamp) :: rest =>
      let sidecar := sidecar_path path suffix in
      if negb (bool_decide (is_Some (files !! sidecar))) then quarantine_sidecars path rest files
      else
        let target := corruption_path sidecar suffix timestamp in
        match fs_rename sidecar target files with
        | Err e => (files, Err e)
        | Ok files =>
            let '(files, r) := quarantine_sidecars path rest files in
            (files, rmap (cons (sidecar, target)) r)
        end
  end.

Definition quarantine_corrupt_store (path : string) (t_db t_wal t_shm t_journal : N)
    (files : Files) : Files * result QuarantinedAppDb AppDbError :=
  let target := corruption_path path "db" t_db in
  match fs_rename path target files with
  | Err e => (files, Err e)
  | Ok files =>
      let '(files, r) :=
        quarantine_sidecars path
          [("wal"%string, t_wal); ("shm"%string, t_shm); ("journal"%string, t_journal)] files in
      (files, rmap (λ sidecars, {| qa_original_path := path; qa_quarantine_path := target;
                                   qa_sidecars := sidecars |}) r)
  end.

(** ** What the statements declare *)

(** Pieces between the commas outside parentheses. *)
Fixpoint split_top (depth : nat) (piece b : bytes) : list bytes :=
  match b with
  | [] => [rev piece]
  | 44 :: r => match depth with
               | O => rev piece :: split_top O [] r
               | _ => split_top depth (44 :: piece) r
               end
  | 40 :: r => split_top (S depth) (40 :: piece) r
  | 41 :: r => split_top (pred depth) (41 :: piece) r
  | x :: r => split_top depth (x :: piece) r
  end.

Definition is_constraint (word : string) : bool :=
  existsb (λ p, starts_with p word) ["PRIMARY"; "UNIQUE"; "FOREIGN"]%string.

(** A column definition starts with its name and its type. *)
Definition column_of (piece : bytes) : option (string * string) :=
  match split_whitespace (string_of_bytes piece) with
  | name :: sql_type :: _ => if is_constraint name then None else Some (name, sql_type)
  | _ => None
  end.

Definition declared_table (sql : string) : option (string * list (string * string)) :=
  rest ← strip_prefix "CREATE TABLE IF NOT EXISTS " sql;
  '(name, body) ← split_once " (" rest;
  body ← strip_suffix ")" body;
  Some (name, omap column_of (split_top 0 [] (as_bytes body))).

Definition declared_index (sql : string) : option (string * list string) :=
  rest ← strip_prefix "CREATE INDEX IF NOT EXISTS " sql;
  '(_, target) ← split_once " ON " rest;
  '(table, columns) ← split_once "(" target;
  columns ← strip_suffix ")" columns;
  Some (table, (λ b, trim (string_of_bytes b)) <$> split_bytes 44 (as_bytes columns)).

(** A store: its tables with the columns and types declared, and the schema version. *)
Record SqlStore := { ss_tables : list (string * list (string * string)); ss_version : N }.

Definition sql_table (s : SqlStore) (name : string) : option (list (string * string)) :=
  snd <$> List.find (λ t, bool_decide (t.1 = name)) (ss_tables s).

(** [None] is an error of the statement. *)
Definition execute_statement (s : SqlStore) (sql : string) : option SqlStore :=
  if bool_decide (sql = "PRAGMA foreign_keys = ON"%string) then Some s
  else if bool_decide (sql = "PRAGMA user_version = 2"%string) then
    Some {| ss_tables := ss_tables s; ss_version := 2 |}
  else
    match declared_table sql with
    | Some (name, columns) =>
        match sql_table s name with
        | Some _ => Some s
        | None => Some {| ss_tables := ss_tables s ++ [(name, columns)];
                          ss_version := ss_version s |}
        end
    | None =>
        match declared_index sql with
        | Some (table, columns) =>
            match sql_table s table with
            | Some declared =>
                if forallb (λ c, bool_decide (c ∈ declared.*1)) columns then Some s else None
            | None => None
            end
        | None => None
        end
    end.

Fixpoint execute (s : SqlStore) (statements : list string) : option SqlStore :=
  match statements with
  | [] => Some s
  | sql :: rest => s' ← execute_statement s sql; execute s' rest
  end.

Definition inventory_of (s : SqlStore) : Inventory :=
  (λ t, (t.1, t.2.*1)) <$> ss_tables s.

(** ** Lemmas *)

Lemma missing_column_ok table required columns :
  missing_column table required columns = Ok tt ↔
    Forall (λ c, co_name c ∈ columns) required.
Proof.
  induction required as [|c required IH]; simpl; [by split|].
  rewrite Forall_cons. case_bool_decide; [by rewrite IH; naive_solver|]. naive_solver.
Qed.

Lemma missing_column_err table required columns e :
  missing_column table required columns = Err e →
  ∃ c, c ∈ required ∧ co_name c ∉ columns ∧ e = MissingRequiredColumn table (co_name c).
Proof.
  induction required as [|c required IH]; simpl; [done|].
  case_bool_decide as Hc; [|intros [= <-]; exists c; split; [set_solver|done]].
  intros (c' & Hin & ?)%IH. exists c'. split; [set_solver|done].
Qed.

Lemma validate_tables_ok required observed :
  validate_tables required observed = Ok tt ↔
    Forall (λ t, ∃ columns, observed_columns observed (ta_name t) = Some columns
                 ∧ Forall (λ c, co_name c ∈ columns) (ta_columns t)) required.
Proof.
  induction required as [|t required IH]; simpl; [by split|]. rewrite Forall_cons.
  destruct (observed_columns observed (ta_name t)) as [columns|] eqn:E; [|naive_solver].
  rewrite check_ok, IH, missing_column_ok. naive_solver.
Qed.

Lemma validate_tables_err required observed e :
  validate_tables required observed = Err e →
  ∃ t, t ∈ required ∧
    ((e = MissingRequiredTable (ta_name t) ∧ observed_columns observed (ta_name t) = None)
     ∨ ∃ columns c, observed_columns observed (ta_name t) = Some columns ∧ c ∈ ta_columns t
         ∧ co_name c ∉ columns ∧ e = MissingRequiredColumn (ta_name t) (co_name c)).
Proof.
  induction required as [|t required IH]; simpl; [done|].
  destruct (observed_columns observed (ta_name t)) as [columns|] eqn:E.
  - destruct (missing_column (ta_name t) (ta_columns t) columns) as [u|e'] eqn:Em; simpl.
    + intros (t' & Hin & ?)%IH. exists t'. split; [set_solver|done].
    + intros [= <-]. apply missing_column_err in Em as (c & Hc & Hn & ->).
      exists t. split; [set_solver|]. right. by exists columns, c.
  - intros [= <-]. exists t. split; [set_solver|]. by left.
Qed.

(** ** Properties *)


(** The inventory check is exact: it passes exactly when every table of the manifest is
    observed with all its columns, and otherwise it names a table or column that is missing. *)
Theorem observed_schema_check_is_exact observed :
  match validate_observed_schema observed with
  | Ok _ => ∀ t, t ∈ APP_DB_TABLES → ∃ columns,
      observed_columns observed (ta_name t) = Some columns
      ∧ ∀ c, c ∈ ta_columns t → co_name c ∈ columns
  | Err e => ∃ t, t ∈ APP_DB_TABLES ∧
      ((e = MissingRequiredTable (ta_name t) ∧ observed_columns observed (ta_name t) = None)
       ∨ ∃ columns c, observed_columns observed (ta_name t) = Some columns ∧ c ∈ ta_columns t
           ∧ co_name c ∉ columns ∧ e = MissingRequiredColumn (ta_name t) (co_name c))
  end.
Proof.
  unfold validate_observed_schema. destruct (validate_tables _ observed) as [[]|e] eqn:E.
  - apply validate_tables_ok in E. rewrite Forall_forall in E. intros t Ht.
    destruct (E t Ht) as (columns & Hc & Hall). exists columns. split; [done|].
    by rewrite Forall_forall in Hall.
  - by apply validate_tables_err in E.
Qed.

(** The only plans: nothing to do for a current store, creation for an empty one; every
    other pair of versions is refused, and a store of a future version always as such. *)
Theorem migration_plans_are_two from to :
  match migration_plan from to with
  | Ok p => to = APP_DB_SCHEMA_VERSION
            ∧ (from = APP_DB_SCHEMA_VERSION ∧ plan_is_empty p = true
               ∨ from = 0 ∧ mp_statements p = CURRENT_SCHEMA_DDL)
  | Err e => ¬ (to = APP_DB_SCHEMA_VERSION ∧ (from = APP_DB_SCHEMA_VERSION ∨ from = 0))
             ∧ (∃ v, e = UnsupportedFutureVersion v 2 ∧ 2 < v ∧ (v = to ∨ v = from)
                ∨ e = UnsupportedPreCurrentVersion v 2 ∧ v < 2 ∧ (v = to ∨ v = from))
  end.
Proof.
  unfold migration_plan, validate_target_version, validate_existing_version, reject_if.
  change APP_DB_SCHEMA_VERSION with 2.
  destruct (N.ltb_spec 2 to) as [H1|H1]; cbn [rbind].
  { split; [lia|]. exists to. left. split_and!; auto. }
  destruct (N.eqb_spec from to) as [<-|H2]; cbn [rbind].
  { destruct (N.ltb_spec 2 from); cbn [rbind]; [lia|].
    destruct (N.eqb_spec from 2) as [->|H3]; cbn [rbind negb].
    - split; [done|]. left. by split.
    - split; [lia|]. exists from. right. split_and!; [done|lia|auto]. }
  destruct (N.eqb_spec from 0) as [->|H3], (N.eqb_spec to 2) as [->|H4]; cbn [andb].
  - split; [done|]. right. by split.
  - cbn. split; [lia|]. exists 0. right. split_and!; [done|lia|auto].
  - destruct (N.ltb_spec 2 from) as [H5|H5]; cbn [rbind].
    + split; [lia|]. exists from. left. split_and!; auto.
    + destruct (N.eqb_spec from 2); [lia|]. cbn [rbind negb]. split; [lia|]. exists from. right.
      split_and!; [done|lia|auto].
  - destruct (N.ltb_spec 2 from) as [H5|H5]; cbn [rbind].
    + split; [lia|]. exists from. left. split_and!; auto.
    + destruct (N.eqb_spec from 2) as [->|H6]; cbn [rbind negb].
      * split; [lia|]. exists to. right. split_and!; [done|lia|auto].
      * split; [lia|]. exists from. right. split_and!; [done|lia|auto].
Qed.

(** *** Quarantine moves the files *)

Lemma path_suffix_inj (p s t : string) : p +:+ s = p +:+ t → s = t.
Proof.
  intros E%(f_equal as_bytes). rewrite !as_bytes_app in E.
  by apply app_inv_head, (inj as_bytes) in E.
Qed.
(** The sidecar paths and where they are moved. *)
Definition sidecars_of (path : string) (ss : list (string * N)) : list string :=
  (λ s, sidecar_path path s.1) <$> ss.
Definition targets_of (path : string) (ss : list (string * N)) : list string :=
  (λ s, corruption_path (sidecar_path path s.1) s.1 s.2) <$> ss.

Lemma quarantine_sidecars_spec path ss files :
  NoDup (sidecars_of path ss ++ targets_of path ss) →
  ∃ files' moved, quarantine_sidecars path ss files = (files', Ok moved)
    ∧ (∀ s t, (s, t) ∈ ss → files' !! sidecar_path path s = None
         ∧ ∀ c, files !! sidecar_path path s = Some c →
             let target := corruption_path (sidecar_path path s) s t in
             (sidecar_path path s, target) ∈ moved ∧ files' !! target = Some c)
    ∧ (∀ x, x ∉ sidecars_of path ss → x ∉ targets_of path ss → files' !! x = files !! x).
Proof.
  revert files. induction ss as [|[s t] ss IH]; intros files Hnd.
  { exists files, []. split_and!; [done|set_solver|done]. }
  cbn [sidecars_of targets_of fmap list_fmap fst snd app] in Hnd.
  set (S := sidecar_path path s) in *. set (T := corruption_path S s t) in *.
  fold (sidecars_of path ss) (targets_of path ss) in Hnd.
  apply NoDup_cons in Hnd as [HS Hnd].
  rewrite (Permutation_app_comm (sidecars_of path ss)) in Hnd. simpl in Hnd.
  apply NoDup_cons in Hnd as [HT Hnd]. rewrite Permutation_app_comm in Hnd.
  assert (S ≠ T) as HST by set_solver.
  assert (S ∉ sidecars_of path ss ∧ S ∉ targets_of path ss) as [HS1 HS2] by set_solver.
  assert (T ∉ sidecars_of path ss ∧ T ∉ targets_of path ss) as [HT1 HT2] by set_solver.
  cbn [quarantine_sidecars]. fold S. fold T.
  destruct (files !! S) as [c|] eqn:Ec.
  - rewrite bool_decide_true by by eexists. cbn [negb]. unfold fs_rename. rewrite Ec.
    destruct (IH (<[T:=c]> (delete S files)) Hnd) as (files' & moved & -> & Hm & Hx).
    exists files', ((S, T) :: moved). split_and!; [done| |].
    + intros s' t' [[= -> ->]|Hin]%elem_of_cons.
      * fold S. rewrite (Hx S) by done. rewrite lookup_insert_ne, lookup_delete_eq by done.
        split; [done|]. intros c' Hc'. assert (c' = c) as -> by congruence.
        split; [set_solver|]. fold T. rewrite (Hx T) by done. by rewrite lookup_insert_eq.
      * destruct (Hm s' t' Hin) as [Hn Hc']. split; [done|]. intros c' Hold.
        assert (sidecar_path path s' ∈ sidecars_of path ss) as Hmem.
        { apply list_elem_of_fmap. by exists (s', t'). }
        destruct (Hc' c') as [Hin' Hl].
        { rewrite lookup_insert_ne, lookup_delete_ne by set_solver. done. }
        split; [set_solver|done].
    + intros x Hx1 Hx2. cbn [sidecars_of targets_of fmap list_fmap fst snd] in Hx1, Hx2.
      rewrite Hx by set_solver. rewrite lookup_insert_ne, lookup_delete_ne by set_solver. done.
  - rewrite bool_decide_false by (by intros [? ?]). cbn [negb].
    destruct (IH files Hnd) as (files' & moved & -> & Hm & Hx).
    exists files', moved. split_and!; [done| |].
    + intros s' t' [[= -> ->]|Hin]%elem_of_cons; [|by apply Hm]. fold S.
      rewrite (Hx S) by done. split; [done|]. by rewrite Ec.
    + intros x Hx1 Hx2. cbn [sidecars_of targets_of fmap list_fmap fst snd] in Hx1, Hx2.
      apply Hx; set_solver.
Qed.

(** The paths a quarantine touches, as suffixes of the database path. *)
Lemma quarantine_paths_distinct path t_db t_wal t_shm t_journal :
  let ss := [("wal"%string, t_wal); ("shm"%string, t_shm); ("journal"%string, t_journal)] in
  NoDup ([path; corruption_path path "db" t_db] ++ sidecars_of path ss ++ targets_of path ss).
Proof.
  intros ss.
  assert ([path; corruption_path path "db" t_db] ++ sidecars_of path ss ++ targets_of path ss
    = (λ s, path +:+ s) <$>
      [""; ".corrupt-db-" +:+ pretty t_db; "-wal"; "-shm"; "-journal";
       "-wal.corrupt-wal-" +:+ pretty t_wal; "-shm.corrupt-shm-" +:+ pretty t_shm;
       "-journal.corrupt-journal-" +:+ pretty t_journal]%string) as ->.
  { unfold ss, corruption_path, sidecars_of, targets_of, sidecar_path, corruption_path. simpl.
    repeat (apply (f_equal2 (@cons string));
            [apply (inj as_bytes); rewrite ?as_bytes_app; simpl; by rewrite <- ?app_assoc, ?app_nil_r|]).
    done. }
  apply NoDup_fmap_2; [intros s t; apply path_suffix_inj|].
  repeat (constructor; [rewrite ?not_elem_of_cons; split_and?; try discriminate; try apply not_elem_of_nil|]).
  constructor.
Qed.

(** Quarantine loses nothing: when the database file exists, it and its WAL, SHM and journal
    files are gone from their paths afterwards, their contents are unchanged at the reported
    quarantine paths, and no other file is touched. *)
Theorem quarantine_loses_nothing path t_db t_wal t_shm t_journal files b :
  files !! path = Some b →
  ∃ files' q, quarantine_corrupt_store path t_db t_wal t_shm t_journal files = (files', Ok q)
    ∧ files' !! path = None ∧ files' !! qa_quarantine_path q = Some b
    ∧ (∀ suffix, suffix ∈ ["wal"; "shm"; "journal"]%string →
         files' !! sidecar_path path suffix = None
         ∧ ∀ c, files !! sidecar_path path suffix = Some c →
             ∃ target, (sidecar_path path suffix, target) ∈ qa_sidecars q
               ∧ files' !! target = Some c)
    ∧ (∀ x, x ≠ path → x ≠ qa_quarantine_path q →
         (∀ suffix t, suffix ∈ ["wal"; "shm"; "journal"]%string →
            x ≠ sidecar_path path suffix
            ∧ x ≠ corruption_path (sidecar_path path suffix) suffix t) →
         files' !! x = files !! x).
Proof.
  intros Hb. pose proof (quarantine_paths_distinct path t_db t_wal t_shm t_journal) as Hnd.
  set (ss := [_; _; _]) in Hnd. cbn zeta in Hnd. set (D := corruption_path path "db" t_db) in *.
  apply NoDup_app in Hnd as (Hpd & Hdis & Hnd).
  assert (path ≠ D) as HpD by (inversion_clear Hpd; set_solver).
  unfold quarantine_corrupt_store, fs_rename. rewrite Hb. fold D. fold ss.
  destruct (quarantine_sidecars_spec path ss (<[D:=b]> (delete path files)) Hnd)
    as (files' & moved & -> & Hm & Hx).
  assert (∀ x, x ∈ [path; D] → files' !! x = <[D:=b]> (delete path files) !! x) as Hkeep.
  { intros x Hin. specialize (Hdis x Hin). apply Hx; set_solver. }
  eexists files', _. split; [done|]. cbn [qa_quarantine_path qa_sidecars].
  split_and!.
  - rewrite Hkeep, lookup_insert_ne, lookup_delete_eq by (done || set_solver). done.
  - rewrite Hkeep, lookup_insert_eq by set_solver. done.
  - intros suffix Hs.
    assert (∃ t, (suffix, t) ∈ ss) as [t Ht].
    { unfold ss. set_unfold in Hs. destruct_or!; subst;
        [exists t_wal|exists t_shm|exists t_journal]; set_solver. }
    destruct (Hm suffix t Ht) as [Hn Hc]. split; [done|]. intros c Hold.
    assert (sidecar_path path suffix ∈ sidecars_of path ss) as Hmem.
    { apply list_elem_of_fmap. by exists (suffix, t). }
    destruct (Hc c) as [Hin Hl]; [|by eexists].
    assert (sidecar_path path suffix ∉ [path; D]) as Hno
      by (intros Hin; apply (Hdis _ Hin), elem_of_app; by left).
    rewrite lookup_insert_ne, lookup_delete_ne by set_solver. done.
  - intros x Hxp HxD Hxs.
    destruct (Hxs "wal"%string t_wal) as [W1 W2]; [set_solver|].
    destruct (Hxs "shm"%string t_shm) as [S1 S2]; [set_solver|].
    destruct (Hxs "journal"%string t_journal) as [J1 J2]; [set_solver|].
    rewrite Hx by set_solver. by rewrite lookup_insert_ne, lookup_delete_ne.
Qed.

(** ** Witnesses *)

Lemma quarantine_loses_nothing_witness :
  ∃ files' q, quarantine_corrupt_store "a.db" 1 2 3 4
                (<["a.db"%string := [1]]> (<["a.db-wal"%string := [2]]> ∅)) = (files', Ok q)
    ∧ files' !! qa_quarantine_path q = Some [1].
Proof.
  assert ((<["a.db"%string := [1]]> (<["a.db-wal"%string := [2]]> ∅) : Files)
          !! "a.db"%string = Some [1]) as H by (vm_compute; reflexivity).
  destruct (quarantine_loses_nothing "a.db" 1 2 3 4 _ _ H) as (files' & q & E & _ & Hq & _).
  by exists files', q.
Defined.
