(* ===== verification/Keychain.v ===== *)
(** * Keychains for the wrapping key

    The [AppDbKeychain] trait of [crates/storage/src/appdb.rs] as an interface with laws, and
    its implementations: the in-memory keychain, the operating system's keyring, the
    passphrase vault, and the production strategy that falls back from one to the other.
    The [keyring] crate, Argon2id, AES-GCM and JSON are parameters, [OsRng] is a stream of
    draws; zeroizing freed memory and file modes are not modelled, nor is a poisoned mutex. *)

From S2P Require Import Prelude Collections Bytes StrOps Crypto.

(** ** Errors *)

Inductive AppStoreError :=
| StoreIo (detail : string)
| StoreLockPoisoned
| StoreSerde (detail : string)
| StoreCrypto (detail : string)
| KeychainMissing (key_id : string)
| KeychainFailed (detail : string).

Definition store_error_text (e : AppStoreError) : string :=
  match e with
  | StoreIo d => "app store I/O error: " +:+ d
  | StoreLockPoisoned => "app store lock poisoned"
  | StoreSerde d => "app store serialization error: " +:+ d
  | StoreCrypto d => "app store crypto error: " +:+ d
  | KeychainMissing d => "app store keychain key missing: " +:+ d
  | KeychainFailed d => "app store keychain error: " +:+ d
  end.

(** ** The interface *)

Class AppDbKeychain (K : Type) := {
  kc_load : string → K → result (option bytes) AppStoreError;
  kc_store : string → bytes → K → K * result unit AppStoreError;
  kc_delete : string → K → K * result unit AppStoreError
}.

(** A 32-byte array of octets. *)
Definition is_key (key : bytes) : Prop := length key = 32%nat ∧ Forall (λ x, x < 256) key.

(** What a store relies on: if the keychain answers after a successful [store] it answers with
    that key, after a successful [delete] it has none, and other ids are left alone. *)
Class KeychainLaws (K : Type) `{AppDbKeychain K} : Prop := {
  kc_load_stored id key k k' r :
    is_key key → kc_store id key k = (k', Ok tt) → kc_load id k' = Ok r → r = Some key;
  kc_load_deleted id k k' r : kc_delete id k = (k', Ok tt) → kc_load id k' = Ok r → r = None;
  kc_store_other id id' key k k' r r' :
    id ≠ id' → kc_store id key k = (k', Ok tt) →
    kc_load id' k = Ok r → kc_load id' k' = Ok r' → r' = r
}.

(** ** Preflight *)

Definition preflight_app_db_keychain {K} `{AppDbKeychain K} (id : string) (test_key : bytes)
    (k : K) : K * result unit AppStoreError :=
  match kc_store id test_key k with
  | (k, Err e) => (k, Err e)
  | (k, Ok _) =>
      match kc_load id k with
      | Err e => ((kc_delete id k).1, Err e)
      | Ok None => ((kc_delete id k).1, Err (KeychainMissing id))
      | Ok (Some loaded) =>
          if negb (bool_decide (loaded = test_key)) then
            ((kc_delete id k).1,
             Err (StoreCrypto "OS keyring preflight returned a different wrapping key"))
          else
            match kc_delete id k with
            | (k, Err e) => (k, Err e)
            | (k, Ok _) =>
                (k, match kc_load id k with
                    | Err e => Err e
                    | Ok None => Ok tt
                    | Ok (Some _) =>
                        Err (StoreCrypto "OS keyring preflight probe key remained after delete")
                    end)
            end
      end
  end.

(** ** The in-memory keychain *)

Record MemoryAppDbKeychain := { mk_keys : gmap string bytes }.

#[export] Instance memory_keychain : AppDbKeychain MemoryAppDbKeychain := {|
  kc_load id k := Ok (mk_keys k !! id);
  kc_store id key k := ({| mk_keys := <[id := key]> (mk_keys k) |}, Ok tt);
  kc_delete id k := ({| mk_keys := delete id (mk_keys k) |}, Ok tt)
|}.

(** ** The operating system's keyring *)

Inductive KeyringError := KrNoEntry | KrOther (text : string).

(** [keyring::Entry]: creating an entry, then reading, writing or deleting its secret. *)
Class Keyring := {
  keyring : Type;
  kr_entry : string → string → result unit KeyringError;
  kr_get : string → string → keyring → result bytes KeyringError;
  kr_set : string → string → bytes → keyring → keyring * result unit KeyringError;
  kr_delete : string → string → keyring → keyring * result unit KeyringError;
  kr_text : KeyringError → string
}.

Class KeyringLaws `{Keyring} : Prop := {
  kr_get_set service id secret k k' u :
    kr_set service id secret k = (k', Ok u) →
    match kr_get service id k' with
    | Ok s => s = secret
    | Err KrNoEntry => False
    | Err _ => True
    end;
  kr_get_deleted service id k k' r s :
    kr_delete service id k = (k', r) → r = Ok tt ∨ r = Err KrNoEntry →
    kr_get service id k' ≠ Ok s;
  kr_set_other service id id' secret k k' u :
    id ≠ id' → kr_set service id secret k = (k', Ok u) →
    (∀ s, kr_get service id' k = Ok s → kr_get service id' k' ≠ Err KrNoEntry
       ∧ ∀ s', kr_get service id' k' = Ok s' → s' = s)
    ∧ (kr_get service id' k = Err KrNoEntry → ∀ s, kr_get service id' k' ≠ Ok s)
}.

Definition keyring_error `{Keyring} (e : KeyringError) : AppStoreError := KeychainFailed (kr_text e).

(** [from_utf8] is subsumed by the decoder, which accepts ASCII digits only. *)
Definition secret_to_wrapping_key `{Hex} (secret : bytes) : result (option bytes) AppStoreError :=
  if len secret =? 32 then Ok (Some secret)
  else if len secret =? 64 then
    match hex_decode (string_of_bytes secret) with
    | Ok key =>
        if len key =? 32 then Ok (Some key)
        else Err (StoreCrypto "invalid OS keychain wrapping key encoding")
    | Err _ => Err (StoreCrypto "invalid OS keychain wrapping key encoding")
    end
  else Err (StoreCrypto "invalid OS keychain wrapping key length").

Record LinuxOsKeychain `{Keyring} := { os_service : string; os_keyring : keyring }.

Section os.
Context `{Keyring, Hex}.

Definition discrypt_app_db (k : keyring) : LinuxOsKeychain :=
  {| os_service := "discrypt.appdb"; os_keyring := k |}.

Definition os_entry (k : LinuxOsKeychain) (id : string) : result unit AppStoreError :=
  map_err keyring_error (kr_entry (os_service k) id).

Definition set_keyring (k : LinuxOsKeychain) (r : keyring) : LinuxOsKeychain :=
  {| os_service := os_service k; os_keyring := r |}.

Definition os_load (id : string) (k : LinuxOsKeychain) : result (option bytes) AppStoreError :=
  check os_entry k id in
  match kr_get (os_service k) id (os_keyring k) with
  | Ok secret => secret_to_wrapping_key secret
  | Err KrNoEntry => Ok None
  | Err e => Err (keyring_error e)
  end.

Definition os_store (id : string) (key : bytes) (k : LinuxOsKeychain) :
    LinuxOsKeychain * result unit AppStoreError :=
  match os_entry k id with
  | Err e => (k, Err e)
  | Ok _ =>
      let '(r, res) := kr_set (os_service k) id (as_bytes (hex_encode key)) (os_keyring k) in
      (set_keyring k r, map_err keyring_error res)
  end.

Definition os_delete (id : string) (k : LinuxOsKeychain) :
    LinuxOsKeychain * result unit AppStoreError :=
  match os_entry k id with
  | Err e => (k, Err e)
  | Ok _ =>
      let '(r, res) := kr_delete (os_service k) id (os_keyring k) in
      (set_keyring k r,
       match res with
       | Ok _ | Err KrNoEntry => Ok tt
       | Err e => Err (keyring_error e)
       end)
  end.

#[export] Instance os_keychain : AppDbKeychain LinuxOsKeychain :=
  {| kc_load := os_load; kc_store := os_store; kc_delete := os_delete |}.
End os.

(** ** Randomness and envelopes *)

(** The [n]th draw from [OsRng] of a given length. *)
Class OsRng := rng_draw : nat → nat → bytes.

Class OsRngLaws `{OsRng} : Prop :=
  rng_draw_spec n l : length (rng_draw n l) = l ∧ Forall (λ x, x < 256) (rng_draw n l).

Definition encrypt_bytes `{Aes256Gcm} (key nonce plaintext : bytes) : result bytes AppStoreError :=
  let* c := ok_or (gcm_new key) (StoreCrypto "invalid encryption key") in
  ok_or (gcm_encrypt c nonce [] plaintext) (StoreCrypto "app db encryption failed").

Definition decrypt_bytes `{Aes256Gcm} (key nonce ciphertext : bytes) : result bytes AppStoreError :=
  let* c := ok_or (gcm_new key) (StoreCrypto "invalid encryption key") in
  ok_or (gcm_decrypt c nonce [] ciphertext) (StoreCrypto "app db decryption failed").

(** [argon2::Argon2::default().hash_password_into] *)
Class Argon2Kdf := argon2_derive : bytes → bytes → option bytes.

Definition VAULT_FORMAT : string := "discrypt.appdb.vault.v1".
Definition VAULT_KDF : string := "argon2id-v0.5-default".

Record PassphraseVaultEnvelope := {
  ve_format : string;
  ve_kdf : string;
  ve_salt : bytes;
  ve_nonce : bytes;
  ve_ciphertext : bytes
}.

Abbreviation VaultEntries := (gmap string bytes).

Class VaultJson := {
  entries_to_json : VaultEntries → result bytes string;
  entries_from_json : bytes → result VaultEntries string;
  vault_to_json : PassphraseVaultEnvelope → result bytes string;
  vault_from_json : bytes → result PassphraseVaultEnvelope string
}.

Class VaultJsonLaws `{VaultJson} : Prop := {
  entries_json_round_trip m b : entries_to_json m = Ok b → entries_from_json b = Ok m;
  vault_json_round_trip e b : vault_to_json e = Ok b → vault_from_json b = Ok e
}.

Definition vault_validate (e : PassphraseVaultEnvelope) : result unit AppStoreError :=
  check reject_if (negb (bool_decide (ve_format e = VAULT_FORMAT)))
    (StoreCrypto "unsupported Discrypt vault format") in
  reject_if (negb (bool_decide (ve_kdf e = VAULT_KDF)))
    (StoreCrypto "unsupported Discrypt vault KDF").

(** ** The passphrase vault

    The vault file and what its I/O answers: [pv_read_fault] for [fs::read],
    [pv_write_fault] for any of creating the directory, writing the temporary file and renaming
    it, before which the file is untouched. *)
Record PassphraseVaultKeychain := {
  pv_passphrase : string;
  pv_file : option bytes;
  pv_read_fault : option string;
  pv_write_fault : option string;
  pv_draws : nat
}.

Section vault.
Context `{Aes256Gcm, Argon2Kdf, VaultJson, Hex, OsRng}.

Definition derive_vault_key (passphrase salt : bytes) : result bytes AppStoreError :=
  ok_or (argon2_derive passphrase salt) (StoreCrypto "Discrypt vault key derivation failed").

Definition load_entries (v : PassphraseVaultKeychain) : result VaultEntries AppStoreError :=
  match pv_read_fault v with
  | Some e => Err (StoreIo e)
  | None =>
      match pv_file v with
      | None => Ok ∅
      | Some b =>
          let* envelope := map_err StoreSerde (vault_from_json b) in
          check vault_validate envelope in
          let* key := derive_vault_key (as_bytes (pv_passphrase v)) (ve_salt envelope) in
          let* plaintext := decrypt_bytes key (ve_nonce envelope) (ve_ciphertext envelope) in
          map_err StoreSerde (entries_from_json plaintext)
      end
  end.

Definition vault_after (v : PassphraseVaultKeychain) (file : option bytes) (draws : nat) :
    PassphraseVaultKeychain := {|
  pv_passphrase := pv_passphrase v; pv_file := file; pv_read_fault := pv_read_fault v;
  pv_write_fault := pv_write_fault v; pv_draws := draws
|}.

Definition seal_entries (v : PassphraseVaultKeychain) (entries : VaultEntries) :
    result bytes AppStoreError :=
  let salt := rng_draw (pv_draws v) 16 in
  let nonce := rng_draw (S (pv_draws v)) 12 in
  let* plaintext := map_err StoreSerde (entries_to_json entries) in
  let* key := derive_vault_key (as_bytes (pv_passphrase v)) salt in
  let* ciphertext := encrypt_bytes key nonce plaintext in
  map_err StoreSerde
    (vault_to_json {| ve_format := VAULT_FORMAT; ve_kdf := VAULT_KDF; ve_salt := salt;
                      ve_nonce := nonce; ve_ciphertext := ciphertext |}).

Definition save_entries (v : PassphraseVaultKeychain) (entries : VaultEntries) :
    PassphraseVaultKeychain * result unit AppStoreError :=
  if str_len (pv_passphrase v) <? 12 then
    (v, Err (KeychainFailed "Discrypt vault passphrase must be at least 12 characters"))
  else
    let drawn := S (S (pv_draws v)) in
    match seal_entries v entries with
    | Err e => (vault_after v (pv_file v) drawn, Err e)
    | Ok serialized =>
        match pv_write_fault v with
        | Some e => (vault_after v (pv_file v) drawn, Err (StoreIo e))
        | None => (vault_after v (Some serialized) drawn, Ok tt)
        end
    end.

Definition vault_load (id : string) (v : PassphraseVaultKeychain) :
    result (option bytes) AppStoreError :=
  let* entries := load_entries v in
  match entries !! id with
  | Some secret => secret_to_wrapping_key secret
  | None => Ok None
  end.

Definition vault_store (id : string) (key : bytes) (v : PassphraseVaultKeychain) :
    PassphraseVaultKeychain * result unit AppStoreError :=
  match load_entries v with
  | Err e => (v, Err e)
  | Ok entries => save_entries v (<[id := key]> entries)
  end.

Definition vault_delete (id : string) (v : PassphraseVaultKeychain) :
    PassphraseVaultKeychain * result unit AppStoreError :=
  match load_entries v with
  | Err e => (v, Err e)
  | Ok entries => save_entries v (delete id entries)
  end.

#[export] Instance vault_keychain : AppDbKeychain PassphraseVaultKeychain :=
  {| kc_load := vault_load; kc_store := vault_store; kc_delete := vault_delete |}.
End vault.

(** ** The production keychain *)

Section production.
Context `{Keyring, Aes256Gcm, Argon2Kdf, VaultJson, Hex, OsRng}.

Record ProductionAppDbKeychain := {
  pk_os : LinuxOsKeychain;
  pk_vault : option PassphraseVaultKeychain;
  pk_use_os : bool
}.

Definition production_new (os : LinuxOsKeychain) (vault : option PassphraseVaultKeychain) :
  ProductionAppDbKeychain := {| pk_os := os; pk_vault := vault; pk_use_os := true |}.

Definition vault_only (k : keyring) (vault : PassphraseVaultKeychain) : ProductionAppDbKeychain :=
  {| pk_os := discrypt_app_db k; pk_vault := Some vault; pk_use_os := false |}.

Definition set_os (p : ProductionAppDbKeychain) (os : LinuxOsKeychain) : ProductionAppDbKeychain :=
  {| pk_os := os; pk_vault := pk_vault p; pk_use_os := pk_use_os p |}.

Definition set_vault (p : ProductionAppDbKeychain) (v : PassphraseVaultKeychain) :
  ProductionAppDbKeychain := {| pk_os := pk_os p; pk_vault := Some v; pk_use_os := pk_use_os p |}.

Definition fallback_error (operation : string) (os_error vault_error : AppStoreError) :
    AppStoreError :=
  KeychainFailed ("OS keychain " +:+ operation +:+ " failed (" +:+ store_error_text os_error
    +:+ "); configured encrypted vault fallback failed (" +:+ store_error_text vault_error +:+ ")").

Definition vault_locked : AppStoreError := KeychainMissing "user password vault is not unlocked".

Definition production_delete_result (os_result vault_result : result unit AppStoreError) :
    result unit AppStoreError :=
  match os_result, vault_result with
  | Ok _, Ok _ => Ok tt
  | Err os_error, Ok _ => Err os_error
  | Ok _, Err vault_error => Err vault_error
  | Err os_error, Err vault_error => Err (fallback_error "delete" os_error vault_error)
  end.

Definition production_load (id : string) (p : ProductionAppDbKeychain) :
    result (option bytes) AppStoreError :=
  if negb (pk_use_os p) then
    match pk_vault p with Some v => vault_load id v | None => Err vault_locked end
  else
    match os_load id (pk_os p), pk_vault p with
    | Ok (Some key), _ => Ok (Some key)
    | Ok None, Some v => vault_load id v
    | Ok None, None => Ok None
    | Err os_error, Some v =>
        match vault_load id v with
        | Ok (Some key) => Ok (Some key)
        | Ok None =>
            Err (fallback_error "load" os_error
                   (KeychainMissing ("configured encrypted vault has no wrapping key for " +:+ id)))
        | Err vault_error => Err (fallback_error "load" os_error vault_error)
        end
    | Err os_error, None => Err os_error
    end.

Definition production_store (id : string) (key : bytes) (p : ProductionAppDbKeychain) :
    ProductionAppDbKeychain * result unit AppStoreError :=
  if negb (pk_use_os p) then
    match pk_vault p with
    | Some v => let '(v, r) := vault_store id key v in (set_vault p v, r)
    | None => (p, Err vault_locked)
    end
  else
    let '(os, r) := os_store id key (pk_os p) in
    let p := set_os p os in
    match r, pk_vault p with
    | Ok _, _ => (p, Ok tt)
    | Err os_error, Some v =>
        let '(v, r) := vault_store id key v in
        (set_vault p v, map_err (fallback_error "store" os_error) r)
    | Err os_error, None => (p, Err os_error)
    end.

Definition production_delete (id : string) (p : ProductionAppDbKeychain) :
    ProductionAppDbKeychain * result unit AppStoreError :=
  if negb (pk_use_os p) then
    match pk_vault p with
    | Some v => let '(v, r) := vault_delete id v in (set_vault p v, r)
    | None => (p, Err vault_locked)
    end
  else
    let '(os, os_result) := os_delete id (pk_os p) in
    let p := set_os p os in
    match pk_vault p with
    | Some v =>
        let '(v, vault_result) := vault_delete id v in
        (set_vault p v, production_delete_result os_result vault_result)
    | None => (p, os_result)
    end.

#[export] Instance production_keychain : AppDbKeychain ProductionAppDbKeychain :=
  {| kc_load := production_load; kc_store := production_store; kc_delete := production_delete |}.
End production.


(** ** Lemmas *)

Section keychain_laws.
Context {K : Type} `{KeychainLaws K}.

(** The stages a successful probe went through. *)
Lemma preflight_ok id key (k k' : K) :
  preflight_app_db_keychain id key k = (k', Ok tt) →
  ∃ k1, kc_store id key k = (k1, Ok tt) ∧ kc_load id k1 = Ok (Some key) ∧
    kc_delete id k1 = (k', Ok tt) ∧ kc_load id k' = Ok None.
Proof.
  unfold preflight_app_db_keychain.
  destruct (kc_store id key k) as [k1 [[]|]] eqn:Hs; [|congruence].
  destruct (kc_load id k1) as [[key'|]|] eqn:Hl; [|congruence..].
  case_bool_decide; simplify_eq/=; [|congruence].
  destruct (kc_delete id k1) as [k2 [[]|]] eqn:Hd; [|congruence].
  intros [= <- Hr]. exists k1. destruct (kc_load id k2) as [[|]|]; naive_solver.
Qed.
End keychain_laws.

#[export] Instance memory_keychain_laws : KeychainLaws MemoryAppDbKeychain.
Proof.
  split; simpl.
  - intros id key k k' r _ [= <-] [= <-]. simpl. by rewrite lookup_insert_eq.
  - intros id k k' r [= <-] [= <-]. simpl. by rewrite lookup_delete_eq.
  - intros id id' key k k' r r' Hne [= <-] [= <-] [= <-]. simpl. by rewrite lookup_insert_ne.
Qed.

Lemma secret_raw `{Hex} key : length key = 32%nat → secret_to_wrapping_key key = Ok (Some key).
Proof. intros Hk. unfold secret_to_wrapping_key, len. by rewrite Hk. Qed.

Lemma secret_hex `{HexLaws} key :
  is_key key → secret_to_wrapping_key (as_bytes (hex_encode key)) = Ok (Some key).
Proof.
  intros [Hk Hu]. unfold secret_to_wrapping_key. rewrite len_as_bytes. unfold str_len.
  rewrite hex_encode_length, Hk. simpl. rewrite string_of_as_bytes, hex_decode_encode by done.
  unfold len. by rewrite Hk.
Qed.

Section os_laws.
Context `{KeyringLaws, HexLaws}.

Lemma os_store_ok id key k k' :
  os_store id key k = (k', Ok tt) →
  ∃ r, kr_set (os_service k) id (as_bytes (hex_encode key)) (os_keyring k) = (r, Ok tt)
    ∧ k' = set_keyring k r.
Proof.
  unfold os_store. destruct (os_entry k id); [|congruence].
  destruct (kr_set _ _ _ _) as [r [[]|]]; simpl; [|congruence]. intros [= <-]. eauto.
Qed.

Lemma os_delete_ok id k k' :
  os_delete id k = (k', Ok tt) →
  ∃ r res, kr_delete (os_service k) id (os_keyring k) = (r, res)
    ∧ (res = Ok tt ∨ res = Err KrNoEntry) ∧ k' = set_keyring k r.
Proof.
  unfold os_delete. destruct (os_entry k id); [|congruence].
  destruct (kr_delete _ _ _) as [r res]. intros [= <- Hr]. exists r, res.
  split_and!; [done| |done]. destruct res as [[]|[]]; naive_solver.
Qed.

#[export] Instance os_keychain_laws : KeychainLaws LinuxOsKeychain.
Proof.
  split; simpl.
  - intros id key k k' r Hk (ring & Hs & ->)%os_store_ok. unfold os_load. simpl.
    intros [_ Hl]%check_ok. apply kr_get_set in Hs.
    destruct (kr_get _ _ _) as [s|[]]; [subst s|done..].
    rewrite secret_hex in Hl by done. congruence.
  - intros id k k' r (ring & res & Hd & Hres & ->)%os_delete_ok. unfold os_load. simpl.
    intros [_ Hl]%check_ok. destruct (kr_get _ _ _) as [s|[]] eqn:Hg; [|congruence..].
    by destruct (kr_get_deleted _ _ _ _ _ s Hd Hres).
  - intros id id' key k k' r r' Hne (ring & Hs & ->)%os_store_ok. unfold os_load. simpl.
    intros [_ Hl]%check_ok [_ Hl']%check_ok.
    destruct (kr_set_other _ _ _ _ _ _ _ Hne Hs) as [Hsome Hnone].
    destruct (kr_get _ _ (os_keyring k)) as [s|[]] eqn:Hg; [| |congruence].
    + destruct (Hsome s eq_refl) as [Hne' Heq].
      destruct (kr_get _ _ ring) as [s'|[]] eqn:Hg'; [|done..].
      rewrite (Heq s' eq_refl) in Hl'. congruence.
    + destruct (kr_get _ _ ring) as [s'|[]] eqn:Hg'; [|congruence..].
      by destruct (Hnone eq_refl s').
Qed.
End os_laws.

Section envelope_laws.
Context `{Aes256GcmLaws}.

Lemma decrypt_encrypt_bytes key nonce m c :
  encrypt_bytes key nonce m = Ok c → decrypt_bytes key nonce c = Ok m.
Proof.
  unfold encrypt_bytes, decrypt_bytes.
  intros (cipher & -> & Hc%ok_or_ok)%rbind_ok. simpl.
  by rewrite (gcm_decrypt_encrypt _ _ _ _ _ Hc).
Qed.
End envelope_laws.

Section vault_laws.
Context `{Aes256GcmLaws, Argon2Kdf, VaultJsonLaws, Hex, OsRng}.

(** What a vault file written by [save_entries] reads back as. *)
Lemma load_sealed v m b file draws :
  seal_entries v m = Ok b → file = Some b → pv_read_fault v = None →
  load_entries (vault_after v file draws) = Ok m.
Proof.
  unfold seal_entries. intros (plain & Hm%map_err_ok & Hs)%rbind_ok -> Hf.
  apply rbind_ok in Hs as (key & Hkey & (c & Hc & Hb%map_err_ok)%rbind_ok).
  unfold load_entries. simpl. rewrite Hf, (vault_json_round_trip _ _ Hb). simpl.
  rewrite Hkey. simpl. rewrite (decrypt_encrypt_bytes _ _ _ _ Hc). simpl.
  by rewrite (entries_json_round_trip _ _ Hm).
Qed.

Lemma load_saved v m v' :
  save_entries v m = (v', Ok tt) → pv_read_fault v = None → load_entries v' = Ok m.
Proof.
  unfold save_entries. destruct (_ <? _); [congruence|].
  destruct (seal_entries v m) as [b|] eqn:Hs; [|congruence].
  destruct (pv_write_fault v); [congruence|]. intros [= <-] Hf. by eapply load_sealed.
Qed.

Lemma load_entries_reads v m : load_entries v = Ok m → pv_read_fault v = None.
Proof. unfold load_entries. by destruct (pv_read_fault v). Qed.

Lemma vault_store_ok id key v v' :
  vault_store id key v = (v', Ok tt) →
  ∃ m, load_entries v = Ok m ∧ load_entries v' = Ok (<[id := key]> m).
Proof.
  unfold vault_store. destruct (load_entries v) as [m|] eqn:Hl; [|congruence].
  intros Hs. exists m. split; [done|]. by eapply load_saved, load_entries_reads.
Qed.

Lemma vault_delete_ok id v v' :
  vault_delete id v = (v', Ok tt) →
  ∃ m, load_entries v = Ok m ∧ load_entries v' = Ok (delete id m).
Proof.
  unfold vault_delete. destruct (load_entries v) as [m|] eqn:Hl; [|congruence].
  intros Hs. exists m. split; [done|]. by eapply load_saved, load_entries_reads.
Qed.

(** Unlike a keyring, the vault always answers after a successful store. *)
Lemma vault_load_stored id key v v' :
  is_key key → vault_store id key v = (v', Ok tt) → vault_load id v' = Ok (Some key).
Proof.
  intros [Hk _] (m & _ & Hl)%vault_store_ok. unfold vault_load. rewrite Hl. simpl.
  rewrite lookup_insert_eq. by apply secret_raw.
Qed.

Lemma vault_load_deleted id v v' :
  vault_delete id v = (v', Ok tt) → vault_load id v' = Ok None.
Proof.
  intros (m & _ & Hl)%vault_delete_ok. unfold vault_load. rewrite Hl. simpl.
  by rewrite lookup_delete_eq.
Qed.

#[export] Instance vault_keychain_laws : KeychainLaws PassphraseVaultKeychain.
Proof.
  split; simpl.
  - intros id key k k' r Hk Hs%vault_load_stored; [|done]. congruence.
  - intros id k k' r Hd%vault_load_deleted. congruence.
  - intros id id' key k k' r r' Hne (m & Hm & Hm')%vault_store_ok. unfold vault_load.
    rewrite Hm, Hm'. simpl. rewrite lookup_insert_ne by done. congruence.
Qed.
End vault_laws.

(** ** The production keychain: lemmas *)

Section production_laws.
Context `{KeyringLaws, Aes256GcmLaws, Argon2Kdf, VaultJsonLaws, HexLaws, OsRng}.

(** No backend in use answers for [id] with a key other than [key]. *)
Definition no_stale_key (id : string) (key : bytes) (p : ProductionAppDbKeychain) : Prop :=
  pk_use_os p = true →
  (∀ other, os_load id (pk_os p) = Ok (Some other) → other = key)
  ∧ ∀ v other, pk_vault p = Some v → vault_load id v = Ok (Some other) → other = key.

(** Which backend a successful store went to. *)
Lemma production_store_ok id key p p' :
  production_store id key p = (p', Ok tt) →
  (∃ v v', pk_vault p = Some v ∧ vault_store id key v = (v', Ok tt) ∧ pk_vault p' = Some v'
     ∧ pk_use_os p' = pk_use_os p)
  ∨ (∃ os, pk_use_os p = true ∧ os_store id key (pk_os p) = (os, Ok tt) ∧ p' = set_os p os).
Proof.
  unfold production_store. destruct (pk_use_os p) eqn:Hos; simpl.
  - destruct (os_store id key (pk_os p)) as [os [[]|]] eqn:Ho.
    { intros [= <-]. right. eauto. }
    destruct (pk_vault p) as [v|] eqn:Hv; [|congruence].
    destruct (vault_store id key v) as [v' [[]|]] eqn:Hs; simpl; [|congruence].
    intros [= <-]. left. exists v, v'. done.
  - destruct (pk_vault p) as [v|] eqn:Hv; [|congruence].
    destruct (vault_store id key v) as [v' r] eqn:Hs. intros [= <- ->]. left. exists v, v'.
    done.
Qed.

Lemma production_load_in_vault id key p v :
  pk_vault p = Some v → vault_load id v = Ok (Some key) → no_stale_key id key p →
  production_load id p = Ok (Some key).
Proof.
  intros Hv Hl Hstale. unfold production_load. rewrite Hv, Hl.
  destruct (pk_use_os p) eqn:Hos; [|done]. destruct (Hstale Hos) as [Hold _]. simpl.
  destruct (os_load id (pk_os p)) as [[other|]|]; [|done..]. by rewrite (Hold other).
Qed.
End production_laws.

(** ** Correctness *)

Section production_theorems.
Context `{KeyringLaws, Aes256GcmLaws, Argon2Kdf, VaultJsonLaws, HexLaws, OsRng}.

(** A key the production keychain reports as stored is the key it answers with: whichever
    backend took it, a load that answers returns that key as long as neither the keyring nor
    the vault still holds another key under the same id. In vault-only mode, and whenever the
    keyring refused the key and the vault took it, the load does answer. *)
Theorem production_store_is_read_back id key (p p' : ProductionAppDbKeychain) :
  is_key key → kc_store id key p = (p', Ok tt) → no_stale_key id key p' →
  (∀ r, kc_load id p' = Ok r → r = Some key)
  ∧ ((pk_use_os p = false ∨ ∃ os e, os_store id key (pk_os p) = (os, Err e)) →
     kc_load id p' = Ok (Some key)).
Proof.
  intros Hk Hs Hstale. simpl in *.
  destruct (production_store_ok _ _ _ _ Hs) as [(v & v' & _ & Hv & Hv' & _)|(os & Huse & Ho & ->)].
  - apply vault_load_stored in Hv; [|done].
    rewrite (production_load_in_vault _ _ _ _ Hv' Hv Hstale). naive_solver.
  - split; [|intros [|(os' & e & ?)]; congruence].
    destruct (Hstale Huse) as [_ Hold]. unfold production_load. simpl. rewrite Huse. simpl.
    pose proof (kc_load_stored id key (pk_os p) os) as Hos. simpl in *.
    intros r Hl. destruct (os_load id os) as [o|e]; [specialize (Hos o Hk Ho eq_refl); subst o; congruence|].
    destruct (pk_vault p) as [v|]; [|congruence].
    destruct (vault_load id v) as [[other|]|] eqn:Hv; [|congruence..].
    rewrite (Hold v other) in Hl by done. congruence.
Qed.

(** Deletion reaches every backend: after a delete that succeeded, no load answers with a
    key, in neither mode and whichever backend held it. *)
Theorem production_delete_is_complete id (p p' : ProductionAppDbKeychain) r :
  kc_delete id p = (p', Ok tt) → kc_load id p' = Ok r → r = None.
Proof.
  simpl. unfold production_delete, production_load.
  destruct (pk_use_os p) eqn:Huse; simpl.
  - destruct (os_delete id (pk_os p)) as [os res] eqn:Ho.
    assert (res = Ok tt → ∀ o, os_load id os = Ok o → o = None) as Hos.
    { intros -> o Hl. exact (kc_load_deleted id (pk_os p) os o Ho Hl). }
    destruct (pk_vault p) as [v|] eqn:Hvault.
    + destruct (vault_delete id v) as [v' vres] eqn:Hv. intros [= <- Hres]. simpl. rewrite Huse.
      destruct res as [[]|], vres as [[]|]; try discriminate Hres.
      rewrite (vault_load_deleted _ _ _ Hv). simpl.
      destruct (os_load id os) as [o|]; [specialize (Hos eq_refl o eq_refl) as ->|]; simpl; congruence.
    + intros [= <- ->]. simpl. rewrite Huse, Hvault. simpl.
      destruct (os_load id os) as [o|]; [specialize (Hos eq_refl o eq_refl) as ->|]; simpl; congruence.
  - destruct (pk_vault p) as [v|]; [|congruence].
    destruct (vault_delete id v) as [v' vres] eqn:Hv. intros [= <- ->]. simpl. rewrite Huse. simpl.
    rewrite (vault_load_deleted _ _ _ Hv). congruence.
Qed.
End production_theorems.

(** The preflight is an exact probe of a keychain that keeps its laws: it succeeds if and
    only if its store, load, delete and second load all answered; a wrong or a lingering probe
    key is then impossible. *)
Theorem preflight_is_exact {K} `{KeychainLaws K} id key (k k' : K) :
  is_key key →
  preflight_app_db_keychain id key k = (k', Ok tt) ↔
  ∃ k1 r r', kc_store id key k = (k1, Ok tt) ∧ kc_load id k1 = Ok r ∧
    kc_delete id k1 = (k', Ok tt) ∧ kc_load id k' = Ok r'.
Proof.
  intros Hk. split.
  - intros (k1 & Hs & Hl & Hd & Hl')%preflight_ok. eauto 8.
  - intros (k1 & r & r' & Hs & Hl & Hd & Hl').
    pose proof (kc_load_stored _ _ _ _ _ Hk Hs Hl) as ->.
    pose proof (kc_load_deleted _ _ _ _ Hd Hl') as ->.
    unfold preflight_app_db_keychain. rewrite Hs, Hl. rewrite bool_decide_eq_true_2 by done.
    simpl. by rewrite Hd, Hl'.
Qed.

Section shadowed_key.
Context `{Keyring, Aes256Gcm, Argon2Kdf, VaultJson, Hex, OsRng}.

(** A key that went to the vault because the keyring refused it can be shadowed: when the
    keyring still holds an older key under the id, the store is reported as successful and the
    next load answers with the older key. *)
Theorem refused_key_is_shadowed id key old p os e v v' :
  pk_use_os p = true → os_store id key (pk_os p) = (os, Err e) →
  os_load id os = Ok (Some old) → pk_vault p = Some v → vault_store id key v = (v', Ok tt) →
  ∃ p' : ProductionAppDbKeychain,
    kc_store id key p = (p', Ok tt) ∧ kc_load id p' = Ok (Some old).
Proof.
  intros Huse Ho Hl Hv Hs. exists (set_vault (set_os p os) v'). simpl.
  unfold production_store, production_load. rewrite Huse. simpl. rewrite Ho, Hv. simpl.
  by rewrite Hs, Huse, Hl.
Qed.
End shadowed_key.

(** ** Witnesses *)

(** A keyring that can be locked against writing. *)
Record ToyRing := { tr_locked : bool; tr_secrets : gmap (string * string) bytes }.

Definition toy_keyring : Keyring := {|
  keyring := ToyRing;
  kr_entry _ _ := Ok tt;
  kr_get service id k := ok_or (tr_secrets k !! (service, id)) KrNoEntry;
  kr_set service id secret k :=
    if tr_locked k then (k, Err (KrOther "locked"))
    else ({| tr_locked := false; tr_secrets := <[(service, id) := secret]> (tr_secrets k) |}, Ok tt);
  kr_delete service id k :=
    if tr_locked k then (k, Err (KrOther "locked"))
    else ({| tr_locked := false; tr_secrets := delete (service, id) (tr_secrets k) |}, Ok tt);
  kr_text e := match e with KrNoEntry => "no entry" | KrOther t => t end
|}.

Lemma toy_keyring_laws : @KeyringLaws toy_keyring.
Proof.
  split; simpl.
  - intros s id b k k' u. destruct (tr_locked k); [done|]. intros [= <- _]. simpl.
    by rewrite lookup_insert_eq.
  - intros s id k k' r b. destruct (tr_locked k); [intros [= _ <-]; naive_solver|].
    intros [= <- _] _. simpl. by rewrite lookup_delete_eq.
  - intros s id id' b k k' u Hne. destruct (tr_locked k); [done|]. intros [= <- _]. simpl.
    rewrite lookup_insert_ne by congruence. destruct (tr_secrets k !! (s, id')); naive_solver.
Qed.

Definition toy_kdf : Argon2Kdf := λ _ _, Some (replicate 32 7).

Definition toy_rng : OsRng := λ n l, replicate l (N.of_nat n mod 256).

Lemma toy_rng_laws : @OsRngLaws toy_rng.
Proof.
  intros n l. unfold rng_draw, toy_rng. split; [apply length_replicate|].
  apply Forall_replicate. by apply N.mod_lt.
Qed.

(** Documents are numbers of an enumeration of the values. *)
Definition toy_document {A} `{Countable A} (x : A) : bytes := [N.pos (encode x)].
Definition toy_read {A} `{Countable A} (b : bytes) : option A :=
  match b with [N.pos p] => decode p | _ => None end.

Lemma toy_read_document {A} `{Countable A} (x : A) : toy_read (toy_document x) = Some x.
Proof. apply decode_encode. Qed.

Definition toy_vault_json : VaultJson := {|
  entries_to_json m := Ok (toy_document m);
  entries_from_json b := ok_or (toy_read b) "malformed";
  vault_to_json e :=
    Ok (toy_document (ve_format e, ve_kdf e, ve_salt e, ve_nonce e, ve_ciphertext e));
  vault_from_json b :=
    ok_or ((λ '(f, k, s, n, c), {| ve_format := f; ve_kdf := k; ve_salt := s; ve_nonce := n;
                                   ve_ciphertext := c |}) <$> toy_read b) "malformed"
|}.

Lemma toy_vault_json_laws : @VaultJsonLaws toy_vault_json.
Proof.
  split.
  - intros m b [= <-]. unfold entries_from_json, toy_vault_json. by rewrite toy_read_document.
  - intros [] b [= <-]. unfold vault_from_json, toy_vault_json. by rewrite toy_read_document.
Qed.

Section witnesses.
#[local] Existing Instance Toy.toy_aead.
#[local] Existing Instance Toy.toy_aead_laws.
#[local] Existing Instance Toy.toy_hex.
#[local] Existing Instance Toy.toy_hex_laws.
#[local] Existing Instance toy_keyring.
#[local] Existing Instance toy_keyring_laws.
#[local] Existing Instance toy_kdf.
#[local] Existing Instance toy_rng.
#[local] Existing Instance toy_vault_json.
#[local] Existing Instance toy_vault_json_laws.

#[local] Definition wk (x : N) : bytes := replicate 32 x.

#[local] Definition ring (locked : bool) : LinuxOsKeychain :=
  discrypt_app_db {| tr_locked := locked;
    tr_secrets := {[ ("discrypt.appdb", "k") := as_bytes (hex_encode (wk 1)) ]} |}.

#[local] Definition empty_vault : PassphraseVaultKeychain :=
  {| pv_passphrase := "correct horse"; pv_file := None; pv_read_fault := None;
     pv_write_fault := None; pv_draws := 0 |}.

#[local] Definition both : ProductionAppDbKeychain := production_new (ring false) (Some empty_vault).

#[local] Lemma wk_key x : x < 256 → is_key (wk x).
Proof. intros Hx. split; [done|]. by apply Forall_replicate. Qed.

Lemma production_store_is_read_back_witness :
  kc_load "k" (kc_store "k" (wk 2) both).1 = Ok (Some (wk 2)).
Proof.
  assert (kc_store "k" (wk 2) both = ((kc_store "k" (wk 2) both).1, Ok tt)) as Hs by reflexivity.
  assert (∃ r, kc_load "k" (kc_store "k" (wk 2) both).1 = Ok r) as [r Hr]
    by (eexists; vm_compute; reflexivity).
  rewrite Hr. f_equal.
  refine (proj1 (production_store_is_read_back "k" (wk 2) both _ (wk_key 2 _) Hs _) r Hr); [done|].
  intros _. split.
  - intros other. vm_compute. congruence.
  - intros v other. intros [= <-]. vm_compute. congruence.
Defined.

Lemma production_delete_is_complete_witness :
  (kc_delete "k" both).2 = Ok tt ∧ kc_load "k" (kc_delete "k" both).1 = Ok None.
Proof.
  assert (kc_delete "k" both = ((kc_delete "k" both).1, Ok tt)) as Hd
    by (apply injective_projections; [reflexivity|vm_compute; reflexivity]).
  assert (∃ r, kc_load "k" (kc_delete "k" both).1 = Ok r) as [r Hr]
    by (eexists; vm_compute; reflexivity).
  rewrite Hr. split; [by rewrite Hd|]. f_equal.
  exact (production_delete_is_complete "k" both _ r Hd Hr).
Defined.

Lemma preflight_is_exact_witness :
  let k := {| mk_keys := {[ "k" := wk 1 ]} |} in
  (preflight_app_db_keychain "probe" (wk 9) k).2 = Ok tt.
Proof.
  intros k.
  assert (preflight_app_db_keychain "probe" (wk 9) k
    = ((preflight_app_db_keychain "probe" (wk 9) k).1, Ok tt)) as Hp.
  { apply preflight_is_exact; [by apply wk_key|].
    exists (kc_store "probe" (wk 9) k).1. do 2 eexists. split_and!; reflexivity. }
  by rewrite Hp.
Defined.

Lemma refused_key_is_shadowed_witness :
  ∃ p' : ProductionAppDbKeychain,
    kc_store "k" (wk 2) (production_new (ring true) (Some empty_vault)) = (p', Ok tt)
    ∧ kc_load "k" p' = Ok (Some (wk 1)).
Proof.
  eapply refused_key_is_shadowed; [reflexivity| | |reflexivity|].
  - reflexivity.
  - vm_compute. reflexivity.
  - apply injective_projections; [reflexivity|]. vm_compute. reflexivity.
Defined.
End witnesses.
