(* ===== verification/AppDb.v ===== *)
(** * Application stores

    The [AppStore] trait of [crates/storage/src/lib.rs] as an interface with laws, its
    in-memory and file implementations, and the encrypted database of
    [crates/storage/src/appdb.rs] over any keychain. A disk is a map from paths to contents
    together with what its next operations answer, so that every I/O failure is a state of the
    model; a failed [fs::write] may leave a torn temporary file. *)

From S2P Require Import Prelude Collections Bytes StrOps Crypto Keychain.

(** ** Paths and disks *)

(** A path whose last component is a file name. *)
Record FilePath := { fp_parent : string; fp_name : string }.

#[export] Instance FilePath_eq : EqDecision FilePath.
Proof. solve_decision. Defined.

#[export] Instance FilePath_countable : Countable FilePath.
Proof.
  refine (inj_countable' (λ p, (fp_parent p, fp_name p))
            (λ q, {| fp_parent := q.1; fp_name := q.2 |}) _).
  by intros [].
Defined.

(** Splits at the last dot. *)
Fixpoint rsplit_dot (b : bytes) : option (bytes * bytes) :=
  match b with
  | [] => None
  | x :: b =>
      match rsplit_dot b with
      | Some (s, e) => Some (x :: s, e)
      | None => if x =? 46 then Some ([], b) else None
      end
  end.

(** [Path::file_stem]: a leading dot starts no extension. *)
Definition file_stem (name : bytes) : bytes :=
  match rsplit_dot name with Some (x :: s, _) => x :: s | _ => name end.

(** [Path::with_extension] *)
Definition with_extension (ext : string) (p : FilePath) : FilePath := {|
  fp_parent := fp_parent p;
  fp_name := string_of_bytes (file_stem (as_bytes (fp_name p)) ++ as_bytes ("." +:+ ext))
|}.

Record Disk := {
  dk_files : gmap FilePath bytes;
  dk_read_fault : option string;
  dk_mkdir_fault : option string;
  (** the error of [fs::write], and what it left in the file if it got to open it *)
  dk_write_fault : option (string * option bytes);
  dk_rename_fault : option string
}.

Definition set_files (d : Disk) (files : gmap FilePath bytes) : Disk := {|
  dk_files := files; dk_read_fault := dk_read_fault d; dk_mkdir_fault := dk_mkdir_fault d;
  dk_write_fault := dk_write_fault d; dk_rename_fault := dk_rename_fault d
|}.

(** [fs::read], a missing file being [Ok None]. *)
Definition read_file (p : FilePath) (d : Disk) : result (option bytes) AppStoreError :=
  match dk_read_fault d with Some e => Err (StoreIo e) | None => Ok (dk_files d !! p) end.

Definition path_exists (p : FilePath) (d : Disk) : bool := bool_decide (is_Some (dk_files d !! p)).

(** Creating the directory, writing the temporary file and renaming it over the path. *)
Definition replace_file (p : FilePath) (contents : bytes) (d : Disk) :
    Disk * result unit AppStoreError :=
  match dk_mkdir_fault d with
  | Some e => (d, Err (StoreIo e))
  | None =>
      let tmp := with_extension "json.tmp" p in
      match dk_write_fault d with
      | Some (e, None) => (d, Err (StoreIo e))
      | Some (e, Some torn) => (set_files d (<[tmp := torn]> (dk_files d)), Err (StoreIo e))
      | None =>
          let written := <[tmp := contents]> (dk_files d) in
          match dk_rename_fault d with
          | Some e => (set_files d written, Err (StoreIo e))
          | None => (set_files d (<[p := contents]> (delete tmp written)), Ok tt)
          end
      end
  end.

(** ** The interface *)

Class AppStore (S : Type) := {
  load_app_state : S → result (option bytes) AppStoreError;
  save_app_state : bytes → S → S * result unit AppStoreError
}.

(** What the application relies on, for stores in a valid configuration. *)
Class AppStoreLaws (S : Type) `{AppStore S} := {
  store_valid : S → Prop;
  save_keeps_valid b s : store_valid s → store_valid (save_app_state b s).1;
  load_after_save b s s' r :
    store_valid s → save_app_state b s = (s', Ok tt) → load_app_state s' = Ok r → r = Some b;
  load_after_failed_save b s s' e :
    store_valid s → save_app_state b s = (s', Err e) → load_app_state s' = load_app_state s
}.

(** ** The in-memory store and the file store *)

Record MemoryAppStore := { ms_bytes : option bytes }.

#[export] Instance memory_app_store : AppStore MemoryAppStore := {|
  load_app_state s := Ok (ms_bytes s);
  save_app_state b _ := ({| ms_bytes := Some b |}, Ok tt)
|}.

Record FileAppStore := { fs_path : FilePath; fs_disk : Disk }.

#[export] Instance file_app_store : AppStore FileAppStore := {|
  load_app_state s := read_file (fs_path s) (fs_disk s);
  save_app_state b s :=
    let '(d, r) := replace_file (fs_path s) b (fs_disk s) in
    ({| fs_path := fs_path s; fs_disk := d |}, r)
|}.

(** ** The encrypted database *)

Definition ENVELOPE_FORMAT : string := "discrypt.appdb.encrypted.v1".
Definition DEFAULT_WRAPPING_KEY_ID : string := "local-appdb-wrapping-key-v1".

Record EncryptedAppDbEnvelope := {
  ae_format : string;
  ae_key_id : string;
  ae_wrapped_key_nonce : bytes;
  ae_wrapped_data_key : bytes;
  ae_data_nonce : bytes;
  ae_ciphertext : bytes
}.

Definition envelope_validate (e : EncryptedAppDbEnvelope) : result unit AppStoreError :=
  check reject_if (negb (bool_decide (ae_format e = ENVELOPE_FORMAT)))
    (StoreCrypto "unsupported encrypted app db envelope") in
  reject_if (bool_decide (ae_key_id e = ""))
    (StoreCrypto "encrypted app db envelope has no key id").

Class DbEnvelopeJson := {
  envelope_to_json : EncryptedAppDbEnvelope → result bytes string;
  envelope_from_json : bytes → result EncryptedAppDbEnvelope string
}.

Class DbEnvelopeJsonLaws `{DbEnvelopeJson} : Prop :=
  db_envelope_json_round_trip e b : envelope_to_json e = Ok b → envelope_from_json b = Ok e.

(** The database, its keychain, and the number of draws taken from [OsRng] so far. *)
Record EncryptedAppDb (K : Type) := {
  db_path : FilePath;
  db_keychain : K;
  db_key_id : string;
  db_disk : Disk;
  db_draws : nat
}.
Arguments db_path {K}. Arguments db_keychain {K}. Arguments db_key_id {K}.
Arguments db_disk {K}. Arguments db_draws {K}.

Section app_db.
Context {K : Type} `{AppDbKeychain K, Aes256Gcm, DbEnvelopeJson, OsRng}.

Definition with_key_id (path : FilePath) (keychain : K) (key_id : string) (d : Disk) :
    EncryptedAppDb K :=
  {| db_path := path; db_keychain := keychain; db_key_id := key_id; db_disk := d; db_draws := 0 |}.

Definition app_db_new (path : FilePath) (keychain : K) (d : Disk) : EncryptedAppDb K :=
  with_key_id path keychain DEFAULT_WRAPPING_KEY_ID d.

Definition db_load_wrapping_key (key_id : string) (db : EncryptedAppDb K) :
    result bytes AppStoreError :=
  let* key := kc_load key_id (db_keychain db) in ok_or key (KeychainMissing key_id).

Definition set_keychain (db : EncryptedAppDb K) (k : K) (draws : nat) : EncryptedAppDb K := {|
  db_path := db_path db; db_keychain := k; db_key_id := db_key_id db; db_disk := db_disk db;
  db_draws := draws
|}.

Definition set_disk (db : EncryptedAppDb K) (d : Disk) : EncryptedAppDb K := {|
  db_path := db_path db; db_keychain := db_keychain db; db_key_id := db_key_id db; db_disk := d;
  db_draws := db_draws db
|}.

Definition create_wrapping_key (db : EncryptedAppDb K) :
    EncryptedAppDb K * result bytes AppStoreError :=
  let key := rng_draw (db_draws db) 32 in
  let '(k, r) := kc_store (db_key_id db) key (db_keychain db) in
  (set_keychain db k (S (db_draws db)), rmap (λ _, key) r).

Definition load_or_create_wrapping_key (db : EncryptedAppDb K) :
    EncryptedAppDb K * result bytes AppStoreError :=
  match kc_load (db_key_id db) (db_keychain db) with
  | Ok (Some key) => (db, Ok key)
  | Ok None =>
      if path_exists (db_path db) (db_disk db) then (db, Err (KeychainMissing (db_key_id db)))
      else create_wrapping_key db
  | Err e => if path_exists (db_path db) (db_disk db) then (db, Err e) else create_wrapping_key db
  end.

Definition open_envelope (db : EncryptedAppDb K) (contents : bytes) : result bytes AppStoreError :=
  let* e := map_err StoreSerde (envelope_from_json contents) in
  check envelope_validate e in
  let* wrapping_key := db_load_wrapping_key (ae_key_id e) db in
  let* data_key := decrypt_bytes wrapping_key (ae_wrapped_key_nonce e) (ae_wrapped_data_key e) in
  decrypt_bytes data_key (ae_data_nonce e) (ae_ciphertext e).

Definition db_load (db : EncryptedAppDb K) : result (option bytes) AppStoreError :=
  let* contents := read_file (db_path db) (db_disk db) in
  match contents with
  | None => Ok None
  | Some contents => rmap Some (open_envelope db contents)
  end.

(** The three draws of a save: data key, wrapping nonce, data nonce. *)
Definition seal_state (db : EncryptedAppDb K) (wrapping_key b : bytes) :
    result bytes AppStoreError :=
  let data_key := rng_draw (db_draws db) 32 in
  let wrapped_key_nonce := rng_draw (S (db_draws db)) 12 in
  let data_nonce := rng_draw (S (S (db_draws db))) 12 in
  let* wrapped_data_key := encrypt_bytes wrapping_key wrapped_key_nonce data_key in
  let* ciphertext := encrypt_bytes data_key data_nonce b in
  map_err StoreSerde (envelope_to_json {|
    ae_format := ENVELOPE_FORMAT; ae_key_id := db_key_id db;
    ae_wrapped_key_nonce := wrapped_key_nonce; ae_wrapped_data_key := wrapped_data_key;
    ae_data_nonce := data_nonce; ae_ciphertext := ciphertext |}).

Definition db_save (b : bytes) (db : EncryptedAppDb K) : EncryptedAppDb K * result unit AppStoreError :=
  match load_or_create_wrapping_key db with
  | (db, Err e) => (db, Err e)
  | (db, Ok wrapping_key) =>
      let drawn := set_keychain db (db_keychain db) (3 + db_draws db) in
      match seal_state db wrapping_key b with
      | Err e => (drawn, Err e)
      | Ok serialized =>
          let '(d, r) := replace_file (db_path db) serialized (db_disk db) in (set_disk drawn d, r)
      end
  end.

#[export] Instance encrypted_app_store : AppStore (EncryptedAppDb K) :=
  {| load_app_state := db_load; save_app_state := db_save |}.
End app_db.

(** ** Sequences of saves *)

(** What a sequence of saves leaves in the store, and what a register would hold: the last
    payload whose save was reported as successful. *)
Fixpoint save_all {S} `{AppStore S} (s : S) (payloads : list bytes) : S :=
  match payloads with
  | [] => s
  | b :: rest => save_all (save_app_state b s).1 rest
  end.

Fixpoint last_saved {S} `{AppStore S} (s : S) (payloads : list bytes) : option bytes :=
  match payloads with
  | [] => None
  | b :: rest =>
      let '(s', r) := save_app_state b s in
      match last_saved s' rest with
      | Some kept => Some kept
      | None => if is_ok r then Some b else None
      end
  end.

(** ** Lemmas *)

Lemma rsplit_dot_app a e : 46 ∉ e → rsplit_dot (a ++ 46 :: e) = Some (a, e).
Proof.
  intros He. assert (rsplit_dot e = None) as Hn.
  { induction e as [|x e IH]; [done|]. apply not_elem_of_cons in He as [Hx He]. simpl.
    rewrite IH by done. by destruct (N.eqb_spec x 46). }
  induction a as [|x a IH]; simpl; [by rewrite Hn|by rewrite IH].
Qed.

Lemma rsplit_dot_prefix b s e : rsplit_dot b = Some (s, e) → ∃ t, b = s ++ t.
Proof.
  revert s e. induction b as [|x b IH]; [done|]. simpl. intros s e.
  destruct (rsplit_dot b) as [[s' e']|]; [|destruct (_ =? _); [|done]; intros [= <- _]; eauto].
  intros [= <- <-]. destruct (IH s' e' eq_refl) as [t ->]. eauto.
Qed.

(** The temporary file is never the file itself. *)
Lemma tmp_ne p : with_extension "json.tmp" p ≠ p.
Proof.
  intros Heq. apply (f_equal fp_name) in Heq. unfold with_extension in Heq. simpl in Heq.
  set (stem := file_stem (as_bytes (fp_name p))) in *.
  assert (as_bytes (fp_name p) = (stem ++ as_bytes ".json") ++ 46 :: as_bytes "tmp") as Hname.
  { rewrite <- Heq, as_string_bytes; [by rewrite <- (assoc_L (++))|].
    apply Forall_app. split; [|repeat constructor].
    unfold stem, file_stem. pose proof (as_bytes_u8 (fp_name p)) as Hu.
    destruct (rsplit_dot _) as [[[|x s] e]|] eqn:Hd; [done| |done].
    destruct (rsplit_dot_prefix _ _ _ Hd) as [t Ht]. rewrite Ht in Hu. by apply Forall_app in Hu as [Hu _]. }
  assert (stem = stem ++ as_bytes ".json") as Hlen.
  { unfold stem at 1, file_stem. rewrite Hname, rsplit_dot_app by (vm_compute; set_solver).
    by destruct stem. }
  apply (f_equal length) in Hlen. rewrite length_app in Hlen. simpl in Hlen. lia.
Qed.

(** A replacement happens entirely or leaves the file alone. *)
Lemma replace_file_atomic p b d d' r :
  replace_file p b d = (d', r) →
  dk_read_fault d' = dk_read_fault d ∧
  dk_files d' !! p = match r with Ok _ => Some b | Err _ => dk_files d !! p end.
Proof.
  pose proof (tmp_ne p) as Hne. unfold replace_file.
  destruct (dk_mkdir_fault d); [by intros [= <- <-]|].
  destruct (dk_write_fault d) as [[e [torn|]]|].
  - intros [= <- <-]. simpl. by rewrite lookup_insert_ne.
  - by intros [= <- <-].
  - destruct (dk_rename_fault d); intros [= <- <-]; simpl.
    + by rewrite lookup_insert_ne.
    + by rewrite lookup_insert_eq.
Qed.

#[export] Instance memory_app_store_laws : AppStoreLaws MemoryAppStore.
Proof.
  refine {| store_valid := λ _, True |}; simpl; [done| |done]. intros b s s' r _ [= <-] [= <-]. done.
Defined.

#[export] Instance file_app_store_laws : AppStoreLaws FileAppStore.
Proof.
  refine {| store_valid := λ _, True |}; simpl; [done| |].
  - intros b s s' r _. destruct (replace_file _ _ _) as [d res] eqn:Hr. intros [= <- ->].
    apply replace_file_atomic in Hr as [Hf Hp]. unfold read_file. simpl.
    destruct (dk_read_fault d); [done|]. congruence.
  - intros b s s' e _. destruct (replace_file _ _ _) as [d res] eqn:Hr. intros [= <- ->].
    apply replace_file_atomic in Hr as [Hf Hp]. unfold read_file. simpl. by rewrite Hf, Hp.
Defined.

Section app_db_laws.
Context {K : Type} `{KeychainLaws K, Aes256GcmLaws, DbEnvelopeJsonLaws, OsRngLaws}.
Implicit Types db : EncryptedAppDb K.

(** A wrapping key that was obtained is what the keychain, if it answers, still holds; only a
    database that does not exist yet gets a new one. *)
Lemma wrapping_key_obtained db db' res :
  load_or_create_wrapping_key db = (db', res) →
  db_path db' = db_path db ∧ db_key_id db' = db_key_id db ∧ db_disk db' = db_disk db ∧
  (is_Some (dk_files (db_disk db) !! db_path db) → db_keychain db' = db_keychain db) ∧
  (∀ key r, res = Ok key → kc_load (db_key_id db) (db_keychain db') = Ok r → r = Some key).
Proof.
  assert (create_wrapping_key db = (db', res) → ¬ is_Some (dk_files (db_disk db) !! db_path db) →
    db_path db' = db_path db ∧ db_key_id db' = db_key_id db ∧ db_disk db' = db_disk db ∧
    (is_Some (dk_files (db_disk db) !! db_path db) → db_keychain db' = db_keychain db) ∧
    (∀ key r, res = Ok key → kc_load (db_key_id db) (db_keychain db') = Ok r → r = Some key))
    as Hcreate.
  { unfold create_wrapping_key. destruct (kc_store _ _ _) as [k r] eqn:Hs. intros [= <- <-] Hno.
    split_and!; [done..|]. simpl. intros key r'. destruct r as [[]|]; simpl; [|done].
    intros [= <-]. apply (kc_load_stored _ _ _ _ _ (rng_draw_spec _ 32) Hs). }
  unfold load_or_create_wrapping_key, path_exists.
  destruct (kc_load _ (db_keychain db)) as [[key|]|e] eqn:Hl; [|case_bool_decide; [|intros; by apply Hcreate]..];
    intros [= <- <-]; (split_and!; [done..|]); intros; congruence.
Qed.

(** A sealed state opens to itself whenever the keychain answers with its wrapping key. *)
Lemma open_sealed db db' key b c :
  seal_state db key b = Ok c → db_key_id db ≠ "" →
  (∀ r, kc_load (db_key_id db) (db_keychain db') = Ok r → r = Some key) →
  open_envelope db' c = rmap (λ _, b) (kc_load (db_key_id db) (db_keychain db')).
Proof.
  unfold seal_state. intros Hs Hid Hkey.
  apply rbind_ok in Hs as (w & Hw & (ct & Hct & Hj%map_err_ok)%rbind_ok).
  unfold open_envelope. rewrite (db_envelope_json_round_trip _ _ Hj). simpl.
  unfold envelope_validate. simpl. rewrite (bool_decide_eq_false_2 _ Hid). simpl.
  unfold db_load_wrapping_key. destruct (kc_load _ _) as [r|e]; simpl; [|done].
  rewrite (Hkey r eq_refl). simpl. rewrite (decrypt_encrypt_bytes _ _ _ _ Hw). simpl.
  by apply decrypt_encrypt_bytes.
Qed.

Lemma save_ok b db db' :
  db_save b db = (db', Ok tt) →
  ∃ db1 key c, load_or_create_wrapping_key db = (db1, Ok key) ∧ seal_state db1 key b = Ok c ∧
    db_keychain db' = db_keychain db1 ∧ db_key_id db' = db_key_id db1 ∧
    dk_read_fault (db_disk db') = dk_read_fault (db_disk db1) ∧
    dk_files (db_disk db') !! db_path db' = Some c.
Proof.
  unfold db_save. destruct (load_or_create_wrapping_key db) as [db1 [key|]]; [|congruence].
  destruct (seal_state db1 key b) as [c|] eqn:Hc; [|congruence].
  destruct (replace_file _ _ _) as [d r] eqn:Hr. intros [= <- ->].
  apply replace_file_atomic in Hr as [Hf Hp]. by exists db1, key, c.
Qed.

(** What a database reads right after a successful save. *)
Lemma load_saved_db b db db' :
  db_key_id db ≠ "" → db_save b db = (db', Ok tt) →
  db_load db' = match dk_read_fault (db_disk db) with
                | Some e => Err (StoreIo e)
                | None => rmap (λ _, Some b) (kc_load (db_key_id db) (db_keychain db'))
                end.
Proof.
  intros Hid (db1 & key & c & Hkey & Hc & Hk & _ & Hf & Hp)%save_ok.
  apply wrapping_key_obtained in Hkey as (_ & Hid1 & Hd1 & _ & Hstored).
  unfold db_load, read_file. rewrite Hf, Hd1, Hp.
  destruct (dk_read_fault (db_disk db)); [done|]. simpl.
  rewrite <- Hid1, Hk in *.
  rewrite (open_sealed db1 db' key b c Hc Hid), Hk by (rewrite Hk; auto).
  by destruct (kc_load _ _).
Qed.

Lemma failed_save b db db' e :
  db_save b db = (db', Err e) →
  db_path db' = db_path db ∧ db_key_id db' = db_key_id db ∧
  dk_read_fault (db_disk db') = dk_read_fault (db_disk db) ∧
  dk_files (db_disk db') !! db_path db' = dk_files (db_disk db) !! db_path db ∧
  (is_Some (dk_files (db_disk db) !! db_path db) → db_keychain db' = db_keychain db).
Proof.
  unfold db_save. destruct (load_or_create_wrapping_key db) as [db1 res] eqn:Hkey.
  apply wrapping_key_obtained in Hkey as (Hp1 & Hid1 & Hd1 & Hk1 & _).
  destruct res as [key|]; [|intros [= <- _]; by rewrite Hp1, Hd1].
  destruct (seal_state db1 key b) as [c|]; [|intros [= <- _]; simpl; by rewrite Hp1, Hd1].
  destruct (replace_file _ _ _) as [d r] eqn:Hr. intros [= <- ->]. simpl.
  apply replace_file_atomic in Hr as [Hf Hp]. by rewrite Hf, Hp, Hp1, Hd1.
Qed.

Lemma db_load_ext db db' :
  dk_read_fault (db_disk db') = dk_read_fault (db_disk db) →
  dk_files (db_disk db') !! db_path db' = dk_files (db_disk db) !! db_path db →
  (is_Some (dk_files (db_disk db) !! db_path db) → db_keychain db' = db_keychain db) →
  db_load db' = db_load db.
Proof.
  intros Hf Hp Hk. unfold db_load, read_file. rewrite Hf, Hp.
  destruct (dk_read_fault (db_disk db)); [done|]. simpl.
  destruct (dk_files (db_disk db) !! db_path db) as [c|]; [|done].
  unfold open_envelope, db_load_wrapping_key. by rewrite Hk by eauto.
Qed.

#[export] Instance encrypted_app_store_laws : AppStoreLaws (EncryptedAppDb K).
Proof.
  refine {| store_valid := λ db, db_key_id db ≠ "" |}; simpl.
  - intros b db Hid. destruct (db_save b db) as [db' [[]|e]] eqn:Hs; simpl.
    + apply save_ok in Hs as (db1 & key & c & Hkey & _ & _ & -> & _).
      by apply wrapping_key_obtained in Hkey as (_ & -> & _).
    + by apply failed_save in Hs as (_ & -> & _).
  - intros b db db' r Hid Hs. rewrite (load_saved_db _ _ _ Hid Hs).
    destruct (dk_read_fault _); [done|]. destruct (kc_load _ _); simpl; congruence.
  - intros b db db' e Hid (_ & _ & Hf & Hp & Hk)%failed_save. by apply db_load_ext.
Defined.
End app_db_laws.

(** ** Correctness *)

Section register.
Context {S : Type} `{AppStoreLaws S}.

End register.

Section app_db_theorems.
Context {K : Type} `{KeychainLaws K, Aes256GcmLaws, DbEnvelopeJsonLaws, OsRngLaws}.


(** An existing database is never given a new wrapping key: no save over an existing file
    touches the keychain, and when the keychain has lost the key or fails, the save fails with
    that error before anything is written. *)
Theorem existing_database_keeps_its_key b (db : EncryptedAppDb K) :
  is_Some (dk_files (db_disk db) !! db_path db) →
  db_keychain (db_save b db).1 = db_keychain db ∧
  match kc_load (db_key_id db) (db_keychain db) with
  | Ok (Some _) => True
  | Ok None => db_save b db = (db, Err (KeychainMissing (db_key_id db)))
  | Err e => db_save b db = (db, Err e)
  end.
Proof.
  intros Hp. split.
  - destruct (db_save b db) as [db' [[]|e]] eqn:Hs; simpl.
    + apply save_ok in Hs as (db1 & key & c & Hkey & _ & -> & _).
      apply wrapping_key_obtained in Hkey as (_ & _ & _ & Hk & _). auto.
    + apply failed_save in Hs as (_ & _ & _ & _ & Hk). auto.
  - unfold db_save, load_or_create_wrapping_key, path_exists.
    rewrite (bool_decide_eq_true_2 _ Hp). by destruct (kc_load _ _) as [[|]|].
Qed.

(** A database opened with an empty key id accepts every save and refuses every load: what
    it wrote names no key, and its own validation rejects it. *)
Theorem empty_key_id_is_write_only b (db db' : EncryptedAppDb K) :
  db_key_id db = "" → db_save b db = (db', Ok tt) → dk_read_fault (db_disk db) = None →
  db_load db' = Err (StoreCrypto "encrypted app db envelope has no key id").
Proof.
  intros Hid (db1 & key & c & Hkey & Hc & _ & _ & Hf & Hp)%save_ok Hnf.
  apply wrapping_key_obtained in Hkey as (_ & Hid1 & Hd1 & _ & _).
  unfold db_load, read_file. rewrite Hf, Hd1, Hp, Hnf. simpl. unfold seal_state in Hc.
  apply rbind_ok in Hc as (w & _ & (ct & _ & Hj%map_err_ok)%rbind_ok).
  unfold open_envelope. rewrite (db_envelope_json_round_trip _ _ Hj). simpl.
  unfold envelope_validate. simpl. by rewrite Hid1, Hid.
Qed.
End app_db_theorems.

(** ** Witnesses *)

Definition toy_db_envelope_json : DbEnvelopeJson := {|
  envelope_to_json e :=
    Ok (toy_document (ae_format e, ae_key_id e, ae_wrapped_key_nonce e, ae_wrapped_data_key e,
                      ae_data_nonce e, ae_ciphertext e));
  envelope_from_json b :=
    ok_or ((λ '(f, k, n, w, dn, c),
              {| ae_format := f; ae_key_id := k; ae_wrapped_key_nonce := n;
                 ae_wrapped_data_key := w; ae_data_nonce := dn; ae_ciphertext := c |}) <$> toy_read b)
      "malformed"
|}.

Lemma toy_db_envelope_json_laws : @DbEnvelopeJsonLaws toy_db_envelope_json.
Proof.
  intros [] b [= <-]. unfold envelope_from_json, toy_db_envelope_json. by rewrite toy_read_document.
Qed.

Section witnesses.
#[local] Existing Instance Toy.toy_aead.
#[local] Existing Instance Toy.toy_aead_laws.
#[local] Existing Instance toy_rng.
#[local] Existing Instance toy_rng_laws.
#[local] Existing Instance toy_db_envelope_json.
#[local] Existing Instance toy_db_envelope_json_laws.

#[local] Definition disk (write_fault : option (string * option bytes)) : Disk :=
  {| dk_files := ∅; dk_read_fault := None; dk_mkdir_fault := None; dk_write_fault := write_fault;
     dk_rename_fault := None |}.

#[local] Definition app_json : FilePath := {| fp_parent := "/data"; fp_name := "app.json" |}.

#[local] Definition fresh (id : string) (d : Disk) : EncryptedAppDb MemoryAppDbKeychain :=
  with_key_id app_json {| mk_keys := ∅ |} id d.

#[local] Lemma saved_ok b id : (db_save b (fresh id (disk None))).2 = Ok tt →
  db_save b (fresh id (disk None)) = ((db_save b (fresh id (disk None))).1, Ok tt).
Proof. destruct (db_save b _) as [? r]. simpl. by intros ->. Qed.



Lemma existing_database_keeps_its_key_witness :
  let db := {| db_path := app_json; db_keychain := {| mk_keys := ∅ |}; db_key_id := "key";
               db_disk := set_files (disk None) {[ app_json := [7] ]}; db_draws := 0 |} in
  db_save [1] db = (db, Err (KeychainMissing "key")).
Proof.
  intros db. refine (proj2 (existing_database_keeps_its_key [1] db _)). by exists [7].
Defined.

Lemma empty_key_id_is_write_only_witness :
  db_load (db_save [1] (fresh "" (disk None))).1
  = Err (StoreCrypto "encrypted app db envelope has no key id").
Proof.
  assert (db_save [1] (fresh "" (disk None)) = ((db_save [1] (fresh "" (disk None))).1, Ok tt)) as Hs
    by (apply saved_ok; vm_compute; reflexivity).
  eapply empty_key_id_is_write_only; [|exact Hs|reflexivity]. reflexivity.
Defined.
End witnesses.
