(* ===== verification/AccountBackup.v ===== *)
(** * Account backup and recovery

    [crates/storage/src/lib.rs], second part: account-continuity backups, the three ways to
    restore one, and recovery codes. [serde_json] on the export is a parameter. *)

From S2P Require Import Prelude Collections Bytes StrOps Crypto.

(** ** Data *)

Inductive RecoveryError :=
| NoTrustMaterial
| EmptyRecoveryCode
| InvalidRecoveryCode
| RecoveryCodeRequired
| MalformedBackup (reason : string)
| UnsupportedBackupVersion (version : N)
| InvalidBackupMetadata (detail : string)
| DeviceRotationRequired (compromised_device_id : string).

#[export] Instance RecoveryError_eq_dec : EqDecision RecoveryError.
Proof. solve_decision. Defined.

Record AccountBackup := {
  ab_identity_key_ciphertext : bytes;
  ab_room_memberships : list string;
  ab_device_count : nat
}.

Inductive AccountBackupRecoveryMethod := MethodExistingDevice | MethodRecoveryCode | MethodSealedBackup.

#[export] Instance AccountBackupRecoveryMethod_eq_dec : EqDecision AccountBackupRecoveryMethod.
Proof. solve_decision. Defined.

Record AccountBackupMetadata := {
  am_version : N;
  am_created_at_ms : N;
  am_exported_by_device_id : string;
  am_recovery_method : AccountBackupRecoveryMethod;
  am_compromised_device_id : option string;
  am_device_rotation_required : bool
}.

Record AccountBackupExport := {
  ax_metadata : AccountBackupMetadata;
  ax_backup : AccountBackup
}.

Record AccountRecovery := {
  ar_account_access_restored : bool;
  ar_room_memberships : list string;
  ar_device_count : nat;
  ar_content_keys_restored : bool
}.

#[export] Instance AccountRecovery_eq_dec : EqDecision AccountRecovery.
Proof. solve_decision. Defined.

Inductive RecoveryMaterial :=
| MaterialExistingDevice (device_id : string)
| MaterialRecoveryCode (code_hash : bytes) (room_memberships : list string) (device_count : nat)
| MaterialSealedBackup (backup : AccountBackup)
| MaterialNone.

(** [RecoveryCodeVerifier { code_hash }] *)
Record RecoveryCodeVerifier := { rv_code_hash : bytes }.

(** [serde_json::from_slice] on an export, with the text of its error. *)
Class ExportJson := export_from_slice : bytes → result AccountBackupExport string.

Definition ACCOUNT_BACKUP_EXPORT_VERSION : N := 1.

(** ** Normalisation *)

Definition normalize_required_id (id : string) : result string RecoveryError :=
  let id := trim id in
  check reject_if (bool_decide (id = ""%string)) (InvalidBackupMetadata "device id is required") in
  Ok id.

(** Through a [BTreeSet]: trimmed, non-empty, sorted, without repetition. *)
Definition normalize_account_continuity (rooms : list string) (device_count : nat) :
    list string * nat :=
  (sorted_elements (list_to_set (filter (λ r, r ≠ ""%string) (trim <$> rooms)) : gset string),
   device_count `max` 1)%nat.

Definition account_continuity_recovery (rooms : list string) (device_count : nat) : AccountRecovery :=
  let '(rooms, device_count) := normalize_account_continuity rooms device_count in
  {| ar_account_access_restored := true; ar_room_memberships := rooms;
     ar_device_count := device_count; ar_content_keys_restored := false |}.

Definition recover_account (m : RecoveryMaterial) : result AccountRecovery RecoveryError :=
  match m with
  | MaterialNone => Err NoTrustMaterial
  | MaterialExistingDevice _ => Ok (account_continuity_recovery [] 1)
  | MaterialRecoveryCode _ rooms n => Ok (account_continuity_recovery rooms n)
  | MaterialSealedBackup b =>
      Ok (account_continuity_recovery (ab_room_memberships b) (ab_device_count b))
  end.

Definition validate_backup_export (x : AccountBackupExport) : result unit RecoveryError :=
  let m := ax_metadata x in
  check reject_if (negb (am_version m =? ACCOUNT_BACKUP_EXPORT_VERSION))
    (UnsupportedBackupVersion (am_version m)) in
  let* _id := normalize_required_id (am_exported_by_device_id m) in
  check reject_if (negb (bool_decide (length (ab_identity_key_ciphertext (ax_backup x)) = 32%nat)))
    (InvalidBackupMetadata "identity backup material must be 32 bytes") in
  reject_if
    (am_device_rotation_required m
     && match am_compromised_device_id m with Some id => is_blank id | None => true end)
    (InvalidBackupMetadata "compromised device id is required when rotation is required").

Section backup.
Context `{Sha256}.

(** ** Recovery codes *)

Definition recovery_code_input (normalized : string) : bytes :=
  as_bytes "discrypt:v1:account-recovery-code" ++ be_u64 (str_len normalized) ++ as_bytes normalized.

Definition hash_recovery_code (code : string) : result bytes RecoveryError :=
  let normalized := trim code in
  check reject_if (bool_decide (normalized = ""%string)) EmptyRecoveryCode in
  Ok (sha256 (recovery_code_input normalized)).

Definition verifier_from_code (code : string) : result RecoveryCodeVerifier RecoveryError :=
  let* h := hash_recovery_code code in Ok {| rv_code_hash := h |}.

Definition verifies (v : RecoveryCodeVerifier) (code : string) : bool :=
  match hash_recovery_code code with
  | Ok candidate => bool_decide (candidate = rv_code_hash v)
  | Err _ => false
  end.

Definition recovery_code_material (code : string) (v : RecoveryCodeVerifier) (rooms : list string)
    (device_count : nat) : result RecoveryMaterial RecoveryError :=
  check reject_if (negb (verifies v code)) InvalidRecoveryCode in
  let '(rooms, device_count) := normalize_account_continuity rooms device_count in
  Ok (MaterialRecoveryCode (rv_code_hash v) rooms device_count).

Definition lost_password_recovery_material (code : option string) (v : option RecoveryCodeVerifier)
    (rooms : list string) (device_count : nat) : result RecoveryMaterial RecoveryError :=
  match code, v with
  | Some code, Some v => recovery_code_material code v rooms device_count
  | _, _ => Err NoTrustMaterial
  end.

(** ** Export *)

Definition seal_account_backup (key : bytes) (rooms : list string) (device_count : nat) :
    AccountBackup :=
  let digest := sha256 (as_bytes "discrypt:v1:sealed-account-backup" ++ key) in
  let '(rooms, device_count) := normalize_account_continuity rooms device_count in
  {| ab_identity_key_ciphertext := digest; ab_room_memberships := rooms;
     ab_device_count := device_count |}.

Definition export_account_backup (key : bytes) (rooms : list string) (device_count : nat)
    (exported_by : string) (method : AccountBackupRecoveryMethod) (created_at_ms : N) :
    result AccountBackupExport RecoveryError :=
  let* exported_by := normalize_required_id exported_by in
  Ok {| ax_metadata := {| am_version := ACCOUNT_BACKUP_EXPORT_VERSION;
                          am_created_at_ms := created_at_ms;
                          am_exported_by_device_id := exported_by;
                          am_recovery_method := method; am_compromised_device_id := None;
                          am_device_rotation_required := false |};
        ax_backup := seal_account_backup key rooms device_count |}.

Definition export_device_compromise_backup (key : bytes) (rooms : list string) (device_count : nat)
    (exported_by compromised : string) (created_at_ms : N) :
    result AccountBackupExport RecoveryError :=
  let* x := export_account_backup key rooms device_count exported_by MethodExistingDevice
              created_at_ms in
  let* compromised := normalize_required_id compromised in
  let m := ax_metadata x in
  Ok {| ax_metadata := {| am_version := am_version m; am_created_at_ms := am_created_at_ms m;
                          am_exported_by_device_id := am_exported_by_device_id m;
                          am_recovery_method := am_recovery_method m;
                          am_compromised_device_id := Some compromised;
                          am_device_rotation_required := true |};
        ax_backup := ax_backup x |}.

(** ** Restore *)

Definition rotation_error (x : AccountBackupExport) : RecoveryError :=
  DeviceRotationRequired (default "unknown"%string (am_compromised_device_id (ax_metadata x))).

Definition restore_account_backup_export (x : AccountBackupExport) :
    result AccountRecovery RecoveryError :=
  check validate_backup_export x in
  check reject_if (am_device_rotation_required (ax_metadata x)) (rotation_error x) in
  check reject_if (bool_decide (am_recovery_method (ax_metadata x) = MethodRecoveryCode))
    RecoveryCodeRequired in
  recover_account (MaterialSealedBackup (ax_backup x)).

Definition restore_recovery_code_backup_export (x : AccountBackupExport) (code : string)
    (v : RecoveryCodeVerifier) : result AccountRecovery RecoveryError :=
  check validate_backup_export x in
  check reject_if (am_device_rotation_required (ax_metadata x)) (rotation_error x) in
  check reject_if (negb (bool_decide (am_recovery_method (ax_metadata x) = MethodRecoveryCode)))
    (InvalidBackupMetadata "backup does not require recovery code") in
  let* m := recovery_code_material code v (ab_room_memberships (ax_backup x))
              (ab_device_count (ax_backup x)) in
  recover_account m.

Definition restore_account_backup_after_device_rotation (x : AccountBackupExport)
    (replacement : string) : result AccountRecovery RecoveryError :=
  check validate_backup_export x in
  check reject_if (negb (am_device_rotation_required (ax_metadata x)))
    (InvalidBackupMetadata "backup does not require device rotation") in
  let* replacement := normalize_required_id replacement in
  check reject_if (bool_decide (am_compromised_device_id (ax_metadata x) = Some replacement))
    (InvalidBackupMetadata "replacement device must differ from compromised device") in
  recover_account (MaterialSealedBackup (ax_backup x)).

Context `{ExportJson}.

Definition parse_export (b : bytes) : result AccountBackupExport RecoveryError :=
  map_err MalformedBackup (export_from_slice b).

Definition restore_account_backup_export_json (b : bytes) : result AccountRecovery RecoveryError :=
  let* x := parse_export b in restore_account_backup_export x.

Definition restore_recovery_code_backup_export_json (b : bytes) (code : string)
    (v : RecoveryCodeVerifier) : result AccountRecovery RecoveryError :=
  let* x := parse_export b in restore_recovery_code_backup_export x code v.
End backup.

(** ** Lemmas *)

Lemma normalize_required_id_ok id id' :
  normalize_required_id id = Ok id' ↔ is_blank id = false ∧ id' = trim id.
Proof.
  unfold normalize_required_id, is_blank. rewrite check_ok, reject_if_ok. naive_solver.
Qed.

Lemma bind_normalized {B} id (k : string → result B RecoveryError) b :
  rbind (normalize_required_id id) k = Ok b ↔ is_blank id = false ∧ k (trim id) = Ok b.
Proof. rewrite rbind_ok. setoid_rewrite normalize_required_id_ok. naive_solver. Qed.

Lemma elem_of_normalized rooms n r :
  r ∈ (normalize_account_continuity rooms n).1 ↔ r ≠ ""%string ∧ ∃ x, x ∈ rooms ∧ trim x = r.
Proof.
  simpl. rewrite elem_of_sorted_elements, elem_of_list_to_set, list_elem_of_filter, list_elem_of_fmap.
  naive_solver.
Qed.

(** Normalising twice is normalising once. *)
Lemma normalize_idemp rooms n :
  let '(rooms', n') := normalize_account_continuity rooms n in
  normalize_account_continuity rooms' n' = (rooms', n').
Proof.
  destruct (normalize_account_continuity rooms n) as [rooms' n'] eqn:E.
  pose proof (elem_of_normalized rooms n) as Hin. rewrite E in Hin. simpl in Hin.
  unfold normalize_account_continuity in *. injection E as <- <-. f_equal; [|lia].
  f_equal. apply set_eq. intros r. rewrite elem_of_list_to_set, list_elem_of_filter, list_elem_of_fmap.
  rewrite <- elem_of_sorted_elements. split.
  - intros (_ & y & -> & Hy). pose proof Hy as (_ & x & _ & Hx)%Hin.
    rewrite <- Hx, trim_idemp, Hx. done.
  - intros Hr. pose proof Hr as (Hne & x & _ & Hx)%Hin. split; [done|]. exists r. split; [|done].
    by rewrite <- Hx, trim_idemp.
Qed.

Lemma continuity_normalized rooms n :
  let '(rooms', n') := normalize_account_continuity rooms n in
  account_continuity_recovery rooms' n' = account_continuity_recovery rooms n.
Proof.
  unfold account_continuity_recovery. pose proof (normalize_idemp rooms n) as Hi.
  destruct (normalize_account_continuity rooms n) as [rooms' n'] eqn:E. by rewrite Hi.
Qed.

Section proofs.
Context `{Sha256}.

(** Which exports pass validation. *)
Definition export_valid (x : AccountBackupExport) : Prop :=
  am_version (ax_metadata x) = 1 ∧ is_blank (am_exported_by_device_id (ax_metadata x)) = false ∧
  length (ab_identity_key_ciphertext (ax_backup x)) = 32%nat ∧
  (am_device_rotation_required (ax_metadata x) = true →
   ∃ id, am_compromised_device_id (ax_metadata x) = Some id ∧ is_blank id = false).

Lemma validate_backup_export_ok x : validate_backup_export x = Ok tt ↔ export_valid x.
Proof.
  unfold validate_backup_export, export_valid, ACCOUNT_BACKUP_EXPORT_VERSION. cbv zeta.
  rewrite check_ok, reject_if_ok, negb_false_iff, N.eqb_eq, bind_normalized, check_ok, !reject_if_ok.
  rewrite negb_false_iff, bool_decide_eq_true, andb_false_iff.
  destruct (am_device_rotation_required _), (am_compromised_device_id _); naive_solver.
Qed.

Definition restored (x : AccountBackupExport) : AccountRecovery :=
  account_continuity_recovery (ab_room_memberships (ax_backup x)) (ab_device_count (ax_backup x)).

Lemma restore_plain_ok x r :
  restore_account_backup_export x = Ok r ↔
  export_valid x ∧ am_device_rotation_required (ax_metadata x) = false ∧
  am_recovery_method (ax_metadata x) ≠ MethodRecoveryCode ∧ r = restored x.
Proof.
  unfold restore_account_backup_export.
  rewrite !check_ok, !reject_if_ok, validate_backup_export_ok, bool_decide_eq_false. simpl.
  unfold restored. naive_solver.
Qed.

Lemma restore_code_ok x code v r :
  restore_recovery_code_backup_export x code v = Ok r ↔
  export_valid x ∧ am_device_rotation_required (ax_metadata x) = false ∧
  am_recovery_method (ax_metadata x) = MethodRecoveryCode ∧ verifies v code = true ∧ r = restored x.
Proof.
  unfold restore_recovery_code_backup_export, recovery_code_material.
  rewrite !check_ok, !reject_if_ok, validate_backup_export_ok, negb_false_iff, bool_decide_eq_true.
  pose proof (continuity_normalized (ab_room_memberships (ax_backup x)) (ab_device_count (ax_backup x))) as Hc.
  destruct (normalize_account_continuity _ _) as [rooms n] eqn:E.
  destruct (verifies v code); simpl; unfold restored; [|naive_solver].
  rewrite Hc. naive_solver.
Qed.

Lemma restore_rotation_ok x replacement r :
  restore_account_backup_after_device_rotation x replacement = Ok r ↔
  export_valid x ∧ am_device_rotation_required (ax_metadata x) = true ∧
  is_blank replacement = false ∧
  am_compromised_device_id (ax_metadata x) ≠ Some (trim replacement) ∧ r = restored x.
Proof.
  unfold restore_account_backup_after_device_rotation.
  rewrite !check_ok, !reject_if_ok, validate_backup_export_ok, negb_false_iff, bind_normalized.
  rewrite check_ok, reject_if_ok, bool_decide_eq_false. simpl. unfold restored. naive_solver.
Qed.

(** ** Properties *)

(** The three ways to restore an export exclude each other and are exactly gated: the
    plain path takes a valid export that asks for neither rotation nor a code, the code path
    one that asks for a code, with a code the verifier accepts, and the rotation path one
    marked as compromised, with a replacement that is not the compromised device; each
    restores the same rooms and device count, and never content keys. *)
Theorem restore_paths_are_gated x code v replacement :
  (∀ r, restore_account_backup_export x = Ok r ↔
     export_valid x ∧ am_device_rotation_required (ax_metadata x) = false ∧
     am_recovery_method (ax_metadata x) ≠ MethodRecoveryCode ∧ r = restored x) ∧
  (∀ r, restore_recovery_code_backup_export x code v = Ok r ↔
     export_valid x ∧ am_device_rotation_required (ax_metadata x) = false ∧
     am_recovery_method (ax_metadata x) = MethodRecoveryCode ∧ verifies v code = true ∧ r = restored x) ∧
  (∀ r, restore_account_backup_after_device_rotation x replacement = Ok r ↔
     export_valid x ∧ am_device_rotation_required (ax_metadata x) = true ∧
     is_blank replacement = false ∧
     am_compromised_device_id (ax_metadata x) ≠ Some (trim replacement) ∧ r = restored x) ∧
  ar_content_keys_restored (restored x) = false ∧ (1 ≤ ar_device_count (restored x))%nat ∧
  ∀ room, room ∈ ar_room_memberships (restored x) ↔
    room ≠ ""%string ∧ ∃ y, y ∈ ab_room_memberships (ax_backup x) ∧ trim y = room.
Proof.
  split_and!; intros.
  - apply restore_plain_ok.
  - apply restore_code_ok.
  - apply restore_rotation_ok.
  - done.
  - simpl. lia.
  - apply (elem_of_normalized _ (ab_device_count (ax_backup x))).
Qed.

(** The restored account does not depend on the sealed key material: any 32 bytes in its
    place restore the same account, so a backup proves nothing about the identity key. *)
Theorem restore_ignores_the_sealed_key x sealed code v replacement :
  length sealed = length (ab_identity_key_ciphertext (ax_backup x)) →
  let forged := {| ax_metadata := ax_metadata x;
                   ax_backup := {| ab_identity_key_ciphertext := sealed;
                                   ab_room_memberships := ab_room_memberships (ax_backup x);
                                   ab_device_count := ab_device_count (ax_backup x) |} |} in
  restore_account_backup_export forged = restore_account_backup_export x ∧
  restore_recovery_code_backup_export forged code v = restore_recovery_code_backup_export x code v ∧
  restore_account_backup_after_device_rotation forged replacement
    = restore_account_backup_after_device_rotation x replacement.
Proof.
  intros Hl forged. assert (validate_backup_export forged = validate_backup_export x) as Hv.
  { unfold validate_backup_export. simpl. by rewrite Hl. }
  unfold restore_account_backup_export, restore_recovery_code_backup_export,
    restore_account_backup_after_device_rotation. by rewrite Hv.
Qed.
End proofs.

Section round_trip.
Context `{Sha256Laws}.

Lemma seal_length key rooms n :
  length (ab_identity_key_ciphertext (seal_account_backup key rooms n)) = 32%nat.
Proof. unfold seal_account_backup. destruct (normalize_account_continuity _ _). apply sha256_length. Qed.

Lemma export_ok key rooms n dev method t x :
  export_account_backup key rooms n dev method t = Ok x ↔
  is_blank dev = false ∧
  x = {| ax_metadata := {| am_version := 1; am_created_at_ms := t;
                           am_exported_by_device_id := trim dev; am_recovery_method := method;
                           am_compromised_device_id := None; am_device_rotation_required := false |};
         ax_backup := seal_account_backup key rooms n |}.
Proof. unfold export_account_backup. rewrite bind_normalized. naive_solver. Qed.

Lemma not_blank_trim s : is_blank s = false → is_blank (trim s) = false.
Proof. unfold is_blank. by rewrite trim_idemp. Qed.

Lemma restored_seal m key rooms n :
  restored {| ax_metadata := m; ax_backup := seal_account_backup key rooms n |}
    = account_continuity_recovery rooms n.
Proof.
  unfold restored, seal_account_backup. pose proof (continuity_normalized rooms n) as Hc.
  by destruct (normalize_account_continuity rooms n).
Qed.

(** Export and restore round trip: a backup exported with a non-blank device id restores,
    by the path its method asks for, exactly the trimmed, deduplicated and sorted rooms and a
    positive device count; a recovery-code backup needs a code that hashes like the one the
    verifier was made from, which the same code up to surrounding space does; and a
    compromise backup is refused until another device replaces the compromised one. *)
Theorem backup_round_trip key rooms n dev method t x :
  export_account_backup key rooms n dev method t = Ok x →
  (method ≠ MethodRecoveryCode →
     restore_account_backup_export x = Ok (account_continuity_recovery rooms n)) ∧
  (method = MethodRecoveryCode →
     restore_account_backup_export x = Err RecoveryCodeRequired ∧
     ∀ code v code', verifier_from_code code = Ok v → trim code' = trim code →
       restore_recovery_code_backup_export x code' v = Ok (account_continuity_recovery rooms n)) ∧
  ∀ compromised y, export_device_compromise_backup key rooms n dev compromised t = Ok y →
    restore_account_backup_export y = Err (DeviceRotationRequired (trim compromised)) ∧
    (∀ r, is_blank r = false →
       restore_account_backup_after_device_rotation y r
         = if bool_decide (trim r = trim compromised)
           then Err (InvalidBackupMetadata "replacement device must differ from compromised device")
           else Ok (account_continuity_recovery rooms n)).
Proof.
  intros [Hdev ->]%export_ok.
  assert (∀ m c b, export_valid {| ax_metadata := {| am_version := 1; am_created_at_ms := t;
    am_exported_by_device_id := trim dev; am_recovery_method := m; am_compromised_device_id := c;
    am_device_rotation_required := b |}; ax_backup := seal_account_backup key rooms n |} ↔
    (b = true → ∃ id, c = Some id ∧ is_blank id = false)) as Hv.
  { intros m c b. unfold export_valid. cbn [ax_backup]. rewrite seal_length. simpl.
    rewrite not_blank_trim by done. tauto. }
  split_and!.
  - intros Hm. apply restore_plain_ok. rewrite restored_seal. split_and!; try done. by apply Hv.
  - intros ->. split.
    + unfold restore_account_backup_export. rewrite (proj2 (validate_backup_export_ok _)); [done|].
      by apply Hv.
    + intros code v code' Hcode Htrim. apply restore_code_ok. rewrite restored_seal.
      split_and!; try done; [by apply Hv|]. revert Hcode.
      unfold verifier_from_code, verifies, hash_recovery_code. rewrite Htrim.
      case_bool_decide; simpl; [done|]. intros [= <-]. simpl. by apply bool_decide_eq_true.
  - intros compromised y Hy. revert Hy. unfold export_device_compromise_backup. rewrite rbind_ok.
    intros (x & [_ ->]%export_ok & Hy). revert Hy. rewrite bind_normalized. intros [Hc [= <-]]. simpl.
    set (y := {| ax_metadata := _ |}). assert (validate_backup_export y = Ok tt) as Hvy.
    { apply validate_backup_export_ok, Hv. intros _. eexists. split; [done|]. by apply not_blank_trim. }
    split; [unfold restore_account_backup_export; by rewrite Hvy|]. intros r Hr.
    unfold restore_account_backup_after_device_rotation. rewrite Hvy. simpl.
    unfold normalize_required_id. unfold is_blank in Hr. rewrite Hr. simpl.
    destruct (decide (trim r = trim compromised)) as [E|E].
    + rewrite !bool_decide_true by congruence. done.
    + rewrite !bool_decide_false by congruence. simpl. f_equal. exact (restored_seal (ax_metadata y) key rooms n).
Qed.
End round_trip.

(** ** Witnesses *)

Section witnesses.
#[local] Existing Instance Toy.toy_sha.
#[local] Existing Instance Toy.toy_sha_laws.

Definition ex_export (m : AccountBackupRecoveryMethod) : AccountBackupExport :=
  {| ax_metadata := {| am_version := 1; am_created_at_ms := 5; am_exported_by_device_id := "phone";
                       am_recovery_method := m; am_compromised_device_id := None;
                       am_device_rotation_required := false |};
     ax_backup := seal_account_backup (replicate 32 9) [" b "; "a"; ""; "a"]%string 0 |}.

Lemma backup_round_trip_witness :
  restore_account_backup_export (ex_export MethodSealedBackup)
    = Ok {| ar_account_access_restored := true; ar_room_memberships := ["a"; "b"]%string;
            ar_device_count := 1; ar_content_keys_restored := false |}.
Proof.
  assert (export_account_backup (replicate 32 9) [" b "; "a"; ""; "a"]%string 0 " phone "
            MethodSealedBackup 5 = Ok (ex_export MethodSealedBackup)) as He
    by (vm_compute; reflexivity).
  rewrite (proj1 (backup_round_trip _ _ _ _ _ _ _ He)); [|discriminate].
  vm_compute. reflexivity.
Defined.

Lemma restore_ignores_the_sealed_key_witness :
  let forged := {| ax_metadata := ax_metadata (ex_export MethodSealedBackup);
                   ax_backup := {| ab_identity_key_ciphertext := replicate 32 0;
                                   ab_room_memberships := ["a"; "b"]%string; ab_device_count := 1 |} |} in
  restore_account_backup_export forged = restore_account_backup_export (ex_export MethodSealedBackup).
Proof.
  apply (restore_ignores_the_sealed_key (ex_export MethodSealedBackup) (replicate 32 0) "" {| rv_code_hash := [] |} "").
  vm_compute. reflexivity.
Defined.
End witnesses.
