(* ===== verification/AppService.v ===== *)
(** * The application service

    [AppService] of [crates/core/src/lib.rs]: the snapshot the user interface shows, the commands
    that edit it, and its persistence through any [AppStore]; together with the free functions
    on identities, direct messages and recovery that the same file composes from the other
    crates. Key pairs and device ids that the source draws are arguments, JSON is a parameter. *)

From S2P Require Import Prelude Collections Bytes StrOps Crypto MlsGroup Identity DeviceSet ContentKeys Keychain AppDb AccountBackup.

(** ** What the user interface shows *)

Record RoomSummary := { rs_room_id : string; rs_epoch : N; rs_members : nat }.

Record FriendView := {
  fv_alias : string;
  fv_friend_code : string;
  fv_safety_number : string;
  fv_verified : bool
}.

Record DeviceView := {
  dw_device_id : string;
  dw_label : string;
  dw_leaf_index : N;
  dw_identity_key : string;
  dw_device_key : string;
  dw_local : bool;
  dw_authorized : bool;
  dw_revoked : bool;
  dw_added_at_epoch : N;
  dw_revoked_at_epoch : option N
}.

Inductive ChannelKind := TextChannel | VoiceChannel.

Record ChannelView := {
  cv_name : string;
  cv_kind : ChannelKind;
  cv_retention_status : string
}.

Record ServerView := {
  sv_name : string;
  sv_channels : list ChannelView;
  sv_role : string
}.

Record InviteFlowView := {
  iv_expires : string;
  iv_max_use : string;
  iv_password_gate : string;
  iv_welcome_required : string
}.

Record RetentionSettingsView := {
  rv_presets : list string;
  rv_selected : string;
  rv_selected_window_seconds : option N;
  rv_policy_source : string;
  rv_unlimited_warning : string;
  rv_transition_copy : string
}.

Record VoiceRoomView := { vr_route : string; vr_relay_copy : string; vr_android_path : string }.

Record VoiceParticipantView := {
  vp_id : string;
  vp_name : string;
  vp_role : string;
  vp_speaking : bool;
  vp_muted : bool;
  vp_volume : N
}.

Record VoiceDeviceView := { vdv_device_id : string; vdv_label : string; vdv_kind : string }.

Record VoiceSessionView := {
  vs_joined : bool;
  vs_permission : string;
  vs_input : option VoiceDeviceView;
  vs_output : option VoiceDeviceView;
  vs_participants : list VoiceParticipantView;
  vs_status_copy : string;
  vs_route_copy : string;
  vs_permission_denied_copy : string
}.

Record PreferencesView := { pf_theme_id : string; pf_template_id : string }.

Record MessageView := {
  mv_id : string;
  mv_channel : string;
  mv_author : string;
  mv_body : string;
  mv_state : string
}.

Record ConnectivityView := {
  cy_fallback_chain : string;
  cy_metadata_copy : string;
  cy_push_copy : string
}.

Record SecurityCopyView := {
  sc_metadata : string;
  sc_deletion : string;
  sc_malicious_member : string;
  sc_sybil_resistance : string
}.

Record AppSnapshot := {
  sn_schema_version : N;
  sn_friend : FriendView;
  sn_devices : list DeviceView;
  sn_servers : list ServerView;
  sn_invite : InviteFlowView;
  sn_retention : RetentionSettingsView;
  sn_voice : VoiceRoomView;
  sn_voice_session : VoiceSessionView;
  sn_preferences : PreferencesView;
  sn_messages : list MessageView;
  sn_activity_feed : list string;
  sn_connectivity : ConnectivityView;
  sn_security_copy : SecurityCopyView
}.

Record AppState := { st_snapshot : AppSnapshot; st_next_message_sequence : N }.

(** Equality is derived throughout. *)
#[export] Instance FriendView_eq_dec : EqDecision FriendView.
Proof. solve_decision. Defined.
#[export] Instance DeviceView_eq_dec : EqDecision DeviceView.
Proof. solve_decision. Defined.
#[export] Instance ChannelKind_eq_dec : EqDecision ChannelKind.
Proof. solve_decision. Defined.
#[export] Instance ChannelView_eq_dec : EqDecision ChannelView.
Proof. solve_decision. Defined.
#[export] Instance ServerView_eq_dec : EqDecision ServerView.
Proof. solve_decision. Defined.
#[export] Instance InviteFlowView_eq_dec : EqDecision InviteFlowView.
Proof. solve_decision. Defined.
#[export] Instance RetentionSettingsView_eq_dec : EqDecision RetentionSettingsView.
Proof. solve_decision. Defined.
#[export] Instance VoiceRoomView_eq_dec : EqDecision VoiceRoomView.
Proof. solve_decision. Defined.
#[export] Instance VoiceParticipantView_eq_dec : EqDecision VoiceParticipantView.
Proof. solve_decision. Defined.
#[export] Instance VoiceDeviceView_eq_dec : EqDecision VoiceDeviceView.
Proof. solve_decision. Defined.
#[export] Instance VoiceSessionView_eq_dec : EqDecision VoiceSessionView.
Proof. solve_decision. Defined.
#[export] Instance PreferencesView_eq_dec : EqDecision PreferencesView.
Proof. solve_decision. Defined.
#[export] Instance MessageView_eq_dec : EqDecision MessageView.
Proof. solve_decision. Defined.
#[export] Instance ConnectivityView_eq_dec : EqDecision ConnectivityView.
Proof. solve_decision. Defined.
#[export] Instance SecurityCopyView_eq_dec : EqDecision SecurityCopyView.
Proof. solve_decision. Defined.
#[export] Instance AppSnapshot_eq_dec : EqDecision AppSnapshot.
Proof. solve_decision. Defined.
#[export] Instance AppState_eq_dec : EqDecision AppState.
Proof. solve_decision. Defined.

(** ** Requests and answers *)

Record SafetyVerificationRequest := { sr_friend_id : string; sr_provided : string }.
Record SafetyVerificationResult := { sx_verified : bool; sx_message : string }.
Record IdentityRecoveryVerification := {
  ir_two_profiles_verify_safety_numbers : bool;
  ir_second_device_paired : bool;
  ir_recovery_without_content_keys : bool;
  ir_compromised_device_revoked : bool
}.
Record CreateGroupRequest := { cg_name : string; cg_retention : string }.
Record JoinGroupRequest := { jg_invite_code : string }.
Record CreateChannelRequest := { cc_server_name : string; cc_name : string; cc_kind : ChannelKind }.
Record SavePreferencesRequest := { pr_theme_id : string; pr_template_id : string }.
Record SpeakerVolumeRequest := { vq_participant_id : string; vq_volume : N }.
Record SelfMuteRequest := { mq_muted : bool }.
Record SendMessageRequest := { sm_channel : string; sm_body : string }.

Inductive AppServiceError :=
| SvcStore (e : AppStoreError)
| SvcSerialization (detail : string)
| SvcInvalidCommand (detail : string).

(** ** Copy and labels *)

Definition VOICE_CHANNEL_MEDIA_E2E_GATED_COPY : string :=
  "Session-state only; media-frame E2E gate required before production voice claims".
Definition VOICE_SESSION_ROUTE_GATED_COPY : string :=
  "Local voice controls only; network media route is not connected in this build".
Definition VOICE_SESSION_NOT_JOINED_COPY : string :=
  "Not joined; command-backed local voice controls are idle".
Definition VOICE_SESSION_JOINED_COPY : string :=
  "Voice session state joined; audio-frame media path is still gated by E2E tests".
Definition VOICE_SESSION_LEFT_COPY : string :=
  "Not joined; transport/media unavailable until real adapter gates pass".

Definition SNAPSHOT_SCHEMA_VERSION : N := 2.
Definition DEFAULT_THEME_ID : string := "graphite-calm".
Definition DEFAULT_TEMPLATE_ID : string := "command-center".

Definition LOCAL_MESSAGE_STATE : string :=
  "local encrypted author log; remote delivery/read receipts not claimed without signed receipt".

Definition normalize_label (input fallback : string) : string :=
  let trimmed := trim input in if bool_decide (trimmed = "") then fallback else trimmed.

Fixpoint trim_start_hashes (b : bytes) : bytes :=
  match b with [] => [] | x :: r => if x =? 35 then trim_start_hashes r else b end.

(** What a character becomes; the continuation bytes of a UTF-8 sequence belong to the character
    before them. *)
Definition channel_char (b : N) : option N :=
  if is_continuation b then None
  else if is_ascii_alphanumeric b || (b =? 45) || (b =? 95) then Some (byte_to_lower b)
  else Some 45.

Definition normalize_channel (input : string) : string :=
  let trimmed := trim_start_hashes (as_bytes (trim input)) in
  normalize_label (string_of_bytes (omap channel_char trimmed)) "secure-room".

Definition app_slugify (label : string) : string :=
  let slug := join_bytes 45 (filter (λ part, part ≠ [])
    (split_bytes 45 (omap slug_char (as_bytes (trim label))))) in
  if bool_decide (slug = []) then "local" else string_of_bytes slug.

Definition retention_status (selected : string) : string :=
  selected +:+ "; older messages lock, not vanish".

Definition retention_policy_from_label (label : string) : RetentionPolicy :=
  policy_user_default (default Days7 (window_from_label label)).

Definition policy_source_debug (s : RetentionPolicySource) : string :=
  match s with
  | SourceUserDefault => "UserDefault"
  | SourceGovernance => "Governance"
  | SourceChannel => "Channel"
  end.

(** The digits of [HEX], indexed by a nibble. *)
Definition HEX : bytes := as_bytes "0123456789abcdef".

Definition app_hex_encode (b : bytes) : string :=
  string_of_bytes (b ≫= λ x,
    [default 0 (HEX !! N.to_nat (N.shiftr x 4)); default 0 (HEX !! N.to_nat (N.land x 15))]).

(** [split("&fp=").nth(1)], up to the next [&]. *)
Definition device_id_from_friend_code (friend_code label : string) : string :=
  let fingerprint := match split_once "&fp=" friend_code with
                     | Some (_, tail) => default [] (head (split_bytes 38 (as_bytes tail)))
                     | None => as_bytes "identity"
                     end in
  "device-" +:+ app_slugify label +:+ "-" +:+ string_of_bytes (take_chars 10 fingerprint).

(** ** Editing the snapshot *)

Definition set_friend (s : AppSnapshot) (x : FriendView) : AppSnapshot := {|
  sn_schema_version := sn_schema_version s; sn_friend := x; sn_devices := sn_devices s;
  sn_servers := sn_servers s; sn_invite := sn_invite s; sn_retention := sn_retention s;
  sn_voice := sn_voice s; sn_voice_session := sn_voice_session s;
  sn_preferences := sn_preferences s; sn_messages := sn_messages s;
  sn_activity_feed := sn_activity_feed s; sn_connectivity := sn_connectivity s;
  sn_security_copy := sn_security_copy s |}.

Definition set_servers (s : AppSnapshot) (x : list ServerView) : AppSnapshot := {|
  sn_schema_version := sn_schema_version s; sn_friend := sn_friend s; sn_devices := sn_devices s;
  sn_servers := x; sn_invite := sn_invite s; sn_retention := sn_retention s;
  sn_voice := sn_voice s; sn_voice_session := sn_voice_session s;
  sn_preferences := sn_preferences s; sn_messages := sn_messages s;
  sn_activity_feed := sn_activity_feed s; sn_connectivity := sn_connectivity s;
  sn_security_copy := sn_security_copy s |}.

Definition set_retention (s : AppSnapshot) (x : RetentionSettingsView) : AppSnapshot := {|
  sn_schema_version := sn_schema_version s; sn_friend := sn_friend s; sn_devices := sn_devices s;
  sn_servers := sn_servers s; sn_invite := sn_invite s; sn_retention := x;
  sn_voice := sn_voice s; sn_voice_session := sn_voice_session s;
  sn_preferences := sn_preferences s; sn_messages := sn_messages s;
  sn_activity_feed := sn_activity_feed s; sn_connectivity := sn_connectivity s;
  sn_security_copy := sn_security_copy s |}.

Definition set_voice_session (s : AppSnapshot) (x : VoiceSessionView) : AppSnapshot := {|
  sn_schema_version := sn_schema_version s; sn_friend := sn_friend s; sn_devices := sn_devices s;
  sn_servers := sn_servers s; sn_invite := sn_invite s; sn_retention := sn_retention s;
  sn_voice := sn_voice s; sn_voice_session := x;
  sn_preferences := sn_preferences s; sn_messages := sn_messages s;
  sn_activity_feed := sn_activity_feed s; sn_connectivity := sn_connectivity s;
  sn_security_copy := sn_security_copy s |}.

Definition set_preferences (s : AppSnapshot) (x : PreferencesView) : AppSnapshot := {|
  sn_schema_version := sn_schema_version s; sn_friend := sn_friend s; sn_devices := sn_devices s;
  sn_servers := sn_servers s; sn_invite := sn_invite s; sn_retention := sn_retention s;
  sn_voice := sn_voice s; sn_voice_session := sn_voice_session s;
  sn_preferences := x; sn_messages := sn_messages s;
  sn_activity_feed := sn_activity_feed s; sn_connectivity := sn_connectivity s;
  sn_security_copy := sn_security_copy s |}.

Definition set_messages (s : AppSnapshot) (x : list MessageView) : AppSnapshot := {|
  sn_schema_version := sn_schema_version s; sn_friend := sn_friend s; sn_devices := sn_devices s;
  sn_servers := sn_servers s; sn_invite := sn_invite s; sn_retention := sn_retention s;
  sn_voice := sn_voice s; sn_voice_session := sn_voice_session s;
  sn_preferences := sn_preferences s; sn_messages := x;
  sn_activity_feed := sn_activity_feed s; sn_connectivity := sn_connectivity s;
  sn_security_copy := sn_security_copy s |}.

Definition set_feed (s : AppSnapshot) (x : list string) : AppSnapshot := {|
  sn_schema_version := sn_schema_version s; sn_friend := sn_friend s; sn_devices := sn_devices s;
  sn_servers := sn_servers s; sn_invite := sn_invite s; sn_retention := sn_retention s;
  sn_voice := sn_voice s; sn_voice_session := sn_voice_session s;
  sn_preferences := sn_preferences s; sn_messages := sn_messages s;
  sn_activity_feed := x; sn_connectivity := sn_connectivity s;
  sn_security_copy := sn_security_copy s |}.

Definition push_activity (item : string) (s : AppSnapshot) : AppSnapshot :=
  set_feed s (take 8 (item :: sn_activity_feed s)).

Definition set_voice_joined (joined : bool) (copy : string) (v : VoiceSessionView) :
    VoiceSessionView := {|
  vs_joined := joined; vs_permission := vs_permission v; vs_input := vs_input v;
  vs_output := vs_output v; vs_participants := vs_participants v; vs_status_copy := copy;
  vs_route_copy := vs_route_copy v; vs_permission_denied_copy := vs_permission_denied_copy v
|}.

Definition map_participants (f : VoiceParticipantView → VoiceParticipantView)
    (v : VoiceSessionView) : VoiceSessionView := {|
  vs_joined := vs_joined v; vs_permission := vs_permission v; vs_input := vs_input v;
  vs_output := vs_output v; vs_participants := f <$> vs_participants v;
  vs_status_copy := vs_status_copy v; vs_route_copy := vs_route_copy v;
  vs_permission_denied_copy := vs_permission_denied_copy v
|}.

Definition with_speaking (speaking muted : bool) (p : VoiceParticipantView) :
    VoiceParticipantView := {|
  vp_id := vp_id p; vp_name := vp_name p; vp_role := vp_role p; vp_speaking := speaking;
  vp_muted := muted; vp_volume := vp_volume p
|}.

Definition with_volume (volume : N) (p : VoiceParticipantView) : VoiceParticipantView := {|
  vp_id := vp_id p; vp_name := vp_name p; vp_role := vp_role p; vp_speaking := vp_speaking p;
  vp_muted := vp_muted p; vp_volume := volume
|}.

Definition set_local_voice_speaking (speaking : bool) : VoiceSessionView → VoiceSessionView :=
  map_participants (λ p,
    if bool_decide (vp_id p = "alice") then with_speaking (speaking && negb (vp_muted p)) (vp_muted p) p
    else p).

Definition mute_local (muted : bool) (v : VoiceSessionView) : VoiceSessionView :=
  map_participants (λ p,
    if bool_decide (vp_id p = "alice") then with_speaking (vs_joined v && negb muted) muted p
    else p) v.

Definition set_volume_of (id : string) (volume : N) : VoiceSessionView → VoiceSessionView :=
  map_participants (λ p, if bool_decide (vp_id p = id) then with_volume volume p else p).

Definition edit_voice (f : VoiceSessionView → VoiceSessionView) (s : AppSnapshot) : AppSnapshot :=
  set_voice_session s (f (sn_voice_session s)).

Definition apply_retention_policy_to_snapshot (policy : RetentionPolicy) (s : AppSnapshot) :
    AppSnapshot :=
  let r := sn_retention s in
  set_retention s {|
    rv_presets := rv_presets r; rv_selected := window_label (rp_window policy);
    rv_selected_window_seconds := window_seconds (rp_window policy);
    rv_policy_source := policy_source_debug (rp_source policy);
    rv_unlimited_warning := rv_unlimited_warning r; rv_transition_copy := rv_transition_copy r |}.

(** A new server goes to the front, unless one has its name. *)
Definition new_server (name role retention : string) : ServerView := {|
  sv_name := name;
  sv_role := role;
  sv_channels :=
    [{| cv_name := "#general"; cv_kind := TextChannel;
        cv_retention_status := retention_status retention |};
     {| cv_name := "Voice Lobby"; cv_kind := VoiceChannel;
        cv_retention_status := VOICE_CHANNEL_MEDIA_E2E_GATED_COPY |}]
|}.

Definition insert_server (server : ServerView) (s : AppSnapshot) : AppSnapshot :=
  if existsb (λ x, bool_decide (sv_name x = sv_name server)) (sn_servers s) then s
  else set_servers s (server :: sn_servers s).

(** [iter().position(..)] *)
Fixpoint position {A} (p : A → bool) (l : list A) : option nat :=
  match l with
  | [] => None
  | x :: r => if p x then Some 0%nat else S <$> position p r
  end.

Definition add_channel (channel : ChannelView) (server : ServerView) : ServerView :=
  if existsb (λ c, bool_decide (cv_name c = cv_name channel)) (sv_channels server) then server
  else {| sv_name := sv_name server; sv_role := sv_role server;
          sv_channels := sv_channels server ++ [channel] |}.

(** ** The service *)

Class AppStateJson := {
  state_to_json : AppState → result bytes string;
  state_from_json : bytes → result AppState string
}.

Class AppStateJsonLaws `{AppStateJson} : Prop :=
  state_json_round_trip st b : state_to_json st = Ok b → state_from_json b = Ok st.

Record AppService (S : Type) := { sv_store : S; sv_state : AppState }.
Arguments sv_store {S}. Arguments sv_state {S}. Arguments Build_AppService {S}.

Section service.
Context {S : Type} `{AppStore S, AppStateJson}.

Definition snapshot (svc : AppService S) : AppSnapshot := st_snapshot (sv_state svc).

Definition edit (f : AppSnapshot → AppSnapshot) (svc : AppService S) : AppService S := {|
  sv_store := sv_store svc;
  sv_state := {| st_snapshot := f (snapshot svc);
                 st_next_message_sequence := st_next_message_sequence (sv_state svc) |}
|}.

Definition persist (svc : AppService S) : AppService S * result unit AppServiceError :=
  match state_to_json (sv_state svc) with
  | Err e => (svc, Err (SvcSerialization e))
  | Ok b =>
      let '(store, r) := save_app_state b (sv_store svc) in
      ({| sv_store := store; sv_state := sv_state svc |}, map_err SvcStore r)
  end.

(** The end of every command: record the activity, persist, answer with the snapshot. *)
Definition finish (item : string) (svc : AppService S) : AppService S * result AppSnapshot AppServiceError :=
  let '(svc, r) := persist (edit (push_activity item) svc) in (svc, rmap (λ _, snapshot svc) r).

(** The store is shared, so it is also returned when loading fails. *)
Definition load_or_seed (seed : AppState) (store : S) : S * result (AppService S) AppServiceError :=
  match load_app_state store with
  | Err e => (store, Err (SvcStore e))
  | Ok contents =>
      match match contents with Some b => state_from_json b | None => Ok seed end with
      | Err e => (store, Err (SvcSerialization e))
      | Ok state =>
          let '(svc, r) := persist {| sv_store := store; sv_state := state |} in
          (sv_store svc, rmap (λ _, svc) r)
      end
  end.

Definition verification_result (verified : bool) : SafetyVerificationResult := {|
  sx_verified := verified;
  sx_message := if verified
    then "Safety number verified; MITM risk accepted by explicit user comparison"
    else "Safety number mismatch; do not trust this device or DM"
|}.

Definition number_matches (req : SafetyVerificationRequest) (s : AppSnapshot) : bool :=
  bool_decide (sr_friend_id req = fv_friend_code (sn_friend s))
  && bool_decide (sr_provided req = fv_safety_number (sn_friend s)).

Definition mark_verified (s : AppSnapshot) : AppSnapshot :=
  let f := sn_friend s in
  set_friend s {| fv_alias := fv_alias f; fv_friend_code := fv_friend_code f;
                  fv_safety_number := fv_safety_number f; fv_verified := true |}.

Definition svc_verify_safety_number (req : SafetyVerificationRequest) (svc : AppService S) :
    AppService S * result SafetyVerificationResult AppServiceError :=
  let verified := number_matches req (snapshot svc) in
  let '(svc, r) :=
    if verified then
      finish "Safety number verified through command-backed comparison" (edit mark_verified svc)
    else finish "Safety number mismatch rejected by backend command" svc in
  (svc, rmap (λ _, verification_result verified) r).

Definition create_group (req : CreateGroupRequest) (svc : AppService S) :
    AppService S * result AppSnapshot AppServiceError :=
  let name := normalize_label (cg_name req) "private lab" in
  let svc := edit (insert_server (new_server name "owner" (cg_retention req))) svc in
  let policy := retention_policy_from_label (cg_retention req) in
  finish ("Created local-first group '" +:+ name +:+ "' through persisted AppService command")
    (edit (apply_retention_policy_to_snapshot policy) svc).

Definition join_group (req : JoinGroupRequest) (svc : AppService S) :
    AppService S * result AppSnapshot AppServiceError :=
  let code := normalize_label (jg_invite_code req) "invite:local-template" in
  let name := if str_contains "enclave" code then "joined enclave" else "joined group" in
  finish "Joined group shell only after invite/Welcome gate copy was surfaced"
    (edit (insert_server (new_server name "member" (rv_selected (sn_retention (snapshot svc))))) svc).

Definition channel_of (req : CreateChannelRequest) (s : AppSnapshot) : ChannelView := {|
  cv_name := match cc_kind req with
             | TextChannel => "#" +:+ normalize_channel (cc_name req)
             | VoiceChannel => normalize_label (cc_name req) "Voice Lobby"
             end;
  cv_kind := cc_kind req;
  cv_retention_status := match cc_kind req with
                         | TextChannel => retention_status (rv_selected (sn_retention s))
                         | VoiceChannel => VOICE_CHANNEL_MEDIA_E2E_GATED_COPY
                         end
|}.

(** The named server, else the first. *)
Definition server_index (req : CreateChannelRequest) (s : AppSnapshot) : option nat :=
  let server_name := normalize_label (cc_server_name req) "discrypt lab" in
  match position (λ x, bool_decide (sv_name x = server_name)) (sn_servers s) with
  | Some i => Some i
  | None => match sn_servers s with [] => None | _ => Some 0%nat end
  end.

Definition create_channel (req : CreateChannelRequest) (svc : AppService S) :
    AppService S * result AppSnapshot AppServiceError :=
  let channel := channel_of req (snapshot svc) in
  match server_index req (snapshot svc) with
  | None => (svc, Err (SvcInvalidCommand "no server available for channel creation"))
  | Some i =>
      finish ("Persisted channel '" +:+ cv_name channel +:+ "' through AppService command")
        (edit (λ s, set_servers s (alter (add_channel channel) i (sn_servers s))) svc)
  end.

Definition save_preferences (req : SavePreferencesRequest) (svc : AppService S) :
    AppService S * result AppSnapshot AppServiceError :=
  finish "Saved theme/template preferences to the app store"
    (edit (λ s, set_preferences s
       {| pf_theme_id := normalize_label (pr_theme_id req) DEFAULT_THEME_ID;
          pf_template_id := normalize_label (pr_template_id req) DEFAULT_TEMPLATE_ID |}) svc).

Definition join_voice (svc : AppService S) : AppService S * result AppSnapshot AppServiceError :=
  finish "Joined command-backed voice session state"
    (edit (edit_voice (λ v, set_local_voice_speaking true
             (set_voice_joined true VOICE_SESSION_JOINED_COPY v))) svc).

Definition leave_voice (svc : AppService S) : AppService S * result AppSnapshot AppServiceError :=
  finish "Left command-backed voice session state"
    (edit (edit_voice (λ v, set_local_voice_speaking false
             (set_voice_joined false VOICE_SESSION_LEFT_COPY v))) svc).

Definition set_self_mute (req : SelfMuteRequest) (svc : AppService S) :
    AppService S * result AppSnapshot AppServiceError :=
  finish (if mq_muted req then "Muted local microphone state through voice command"
          else "Unmuted local microphone state through voice command")
    (edit (edit_voice (mute_local (mq_muted req))) svc).

Definition set_speaker_volume (req : SpeakerVolumeRequest) (svc : AppService S) :
    AppService S * result AppSnapshot AppServiceError :=
  let volume := N.min (vq_volume req) 100 in
  let id := vq_participant_id req in
  let svc' := edit (edit_voice (set_volume_of id volume)) svc in
  if existsb (λ p, bool_decide (vp_id p = id)) (vs_participants (sn_voice_session (snapshot svc)))
  then
    finish ("Persisted speaker volume for '" +:+ id +:+ "' at " +:+ pretty volume +:+ "%") svc'
  else (svc', Err (SvcInvalidCommand ("unknown voice participant '" +:+ id +:+ "'"))).

Definition message_id (sequence : N) : string := "local-msg-" +:+ pretty sequence.

(** [u64] addition wraps in release builds. *)
Definition next_sequence (st : AppState) : N := (st_next_message_sequence st + 1) mod 2 ^ 64.

Definition append_message (channel body : string) (svc : AppService S) : AppService S :=
  let sequence := next_sequence (sv_state svc) in
  let s := snapshot svc in
  {| sv_store := sv_store svc;
     sv_state := {|
       st_snapshot := set_messages s (sn_messages s ++
         [{| mv_id := message_id sequence; mv_channel := channel; mv_author := "Alice";
             mv_body := body; mv_state := LOCAL_MESSAGE_STATE |}]);
       st_next_message_sequence := sequence |} |}.

Definition send_message (req : SendMessageRequest) (svc : AppService S) :
    AppService S * result AppSnapshot AppServiceError :=
  let body := trim (sm_body req) in
  if bool_decide (body = "") then (svc, Err (SvcInvalidCommand "message body must not be empty"))
  else
    let channel := normalize_label (sm_channel req) "#general" in
    finish ("Persisted local-first text message in " +:+ channel) (append_message channel body svc).

(** ** Sequences of commands *)

Inductive AppCall :=
| DoVerify (req : SafetyVerificationRequest)
| DoCreateGroup (req : CreateGroupRequest)
| DoJoinGroup (req : JoinGroupRequest)
| DoCreateChannel (req : CreateChannelRequest)
| DoSavePreferences (req : SavePreferencesRequest)
| DoJoinVoice
| DoLeaveVoice
| DoSetSelfMute (req : SelfMuteRequest)
| DoSetSpeakerVolume (req : SpeakerVolumeRequest)
| DoSendMessage (req : SendMessageRequest).

Definition app_call (svc : AppService S) (c : AppCall) : AppService S * result unit AppServiceError :=
  let quiet {A} (x : AppService S * result A AppServiceError) := (x.1, rmap (λ _, tt) x.2) in
  match c with
  | DoVerify req => quiet (svc_verify_safety_number req svc)
  | DoCreateGroup req => quiet (create_group req svc)
  | DoJoinGroup req => quiet (join_group req svc)
  | DoCreateChannel req => quiet (create_channel req svc)
  | DoSavePreferences req => quiet (save_preferences req svc)
  | DoJoinVoice => quiet (join_voice svc)
  | DoLeaveVoice => quiet (leave_voice svc)
  | DoSetSelfMute req => quiet (set_self_mute req svc)
  | DoSetSpeakerVolume req => quiet (set_speaker_volume req svc)
  | DoSendMessage req => quiet (send_message req svc)
  end.

Definition app_run (svc : AppService S) (cs : list AppCall) : AppService S :=
  foldl (λ svc c, (app_call svc c).1) svc cs.
End service.

(** ** Identities and the seeded profile *)

Section seed.
Context `{Sha256, Ed25519, Hex}.

Definition generate (name : string) (k : signing_key) : Identity :=
  {| id_display_name := name; id_signing_key := k |}.

Definition create_dm (alice bob : Identity) : GroupState * string :=
  (GroupState_new ("dm:" +:+ fc_payload (friend_code alice) +:+ ":" +:+ fc_payload (friend_code bob)),
   sn_text (safety_number alice (identity_verifying_key bob))).

Definition summarize (group : GroupState) : RoomSummary :=
  {| rs_room_id := gr_group_id group; rs_epoch := gr_epoch group;
     rs_members := size (gr_members group) |}.

Definition key_text (v : verifying_key) : string := app_hex_encode (vk_to_bytes v).

Definition generated_device_view (account device : signing_key)
    (account_label device_label : string) (leaf_index : N) (local : bool) (added_at_epoch : N) :
    DeviceView :=
  let account := generate account_label account in
  let device := generate (account_label +:+ " " +:+ device_label +:+ " device") device in
  {| dw_device_id := device_id_from_friend_code (fc_payload (friend_code account)) device_label;
     dw_label := device_label; dw_leaf_index := leaf_index;
     dw_identity_key := key_text (identity_verifying_key account);
     dw_device_key := key_text (identity_verifying_key device);
     dw_local := local; dw_authorized := true; dw_revoked := false;
     dw_added_at_epoch := added_at_epoch; dw_revoked_at_epoch := None |}.

Definition snapshot_safety_number_matches_identity_keys (s : AppSnapshot) : bool :=
  match
    d ← list_find (λ d, dw_local d && negb (dw_revoked d) = true) (sn_devices s);
    verifying_key_from_hex (dw_identity_key d.2)
  with
  | None => false
  | Some local_key =>
      match friend_code_verifying_key {| fc_payload := fv_friend_code (sn_friend s) |} with
      | None => false
      | Some peer_key =>
          bool_decide (sn_text (from_identity_keys local_key peer_key)
                       = fv_safety_number (sn_friend s))
      end
  end.

Definition seed_device (owner : Identity) (slug label : string) (leaf_index : N)
    (device : signing_key) (local : bool) : DeviceView := {|
  dw_device_id := device_id_from_friend_code (fc_payload (friend_code owner)) slug;
  dw_label := label; dw_leaf_index := leaf_index;
  dw_identity_key := key_text (identity_verifying_key owner);
  dw_device_key := key_text (vk_of device);
  dw_local := local; dw_authorized := true; dw_revoked := false;
  dw_added_at_epoch := 1; dw_revoked_at_epoch := None
|}.

(** The four key pairs that [seed_state] generates. *)
Definition seed_state (local peer desktop primary : signing_key) : AppState :=
  let local := generate "Alice" local in
  let peer := generate "New contact" peer in
  let peer_friend_code := friend_code peer in
  let number := default (safety_number local (identity_verifying_key peer))
                  (safety_number_from_friend_code local peer_friend_code) in
  {| st_snapshot := {|
       sn_schema_version := SNAPSHOT_SCHEMA_VERSION;
       sn_friend := {| fv_alias := id_display_name peer; fv_friend_code := fc_payload peer_friend_code;
                       fv_safety_number := sn_text number; fv_verified := false |};
       sn_devices := [seed_device local "desktop" "Desktop" 1 desktop true;
                      seed_device peer "primary" "Primary" 2 primary false];
       sn_servers := [{|
         sv_name := "discrypt lab"; sv_role := "owner";
         sv_channels :=
           [{| cv_name := "#general"; cv_kind := TextChannel;
               cv_retention_status := "7 day default; older messages lock, not vanish" |};
            {| cv_name := "#ops"; cv_kind := TextChannel;
               cv_retention_status := "shorten is retroactive; lengthen is future-only" |};
            {| cv_name := "Voice Lobby"; cv_kind := VoiceChannel;
               cv_retention_status := VOICE_CHANNEL_MEDIA_E2E_GATED_COPY |}] |}];
       sn_invite := {|
         iv_expires := "Invite expires and can be revoked";
         iv_max_use := "Max-use is enforced before MLS admission";
         iv_password_gate := "Password rooms use OPAQUE/PAKE or an online authorized helper; no offline verifier";
         iv_welcome_required := "Final admission still requires an authorized MLS Welcome/add" |};
       sn_retention := {|
         rv_presets := ["1 hour"; "24 hours"; "7 days"; "30 days"; "90 days"; "custom";
                        "warned unlimited / never-lock"];
         rv_selected := "7 days";
         rv_selected_window_seconds := Some 604800;
         rv_policy_source := "UserDefault";
         rv_unlimited_warning := "Unlimited keeps local keys longer and weakens lock behavior; opt in explicitly";
         rv_transition_copy := "Shortening re-locks older messages retroactively; lengthening applies only to future messages" |};
       sn_voice := {|
         vr_route := VOICE_SESSION_ROUTE_GATED_COPY;
         vr_relay_copy := "No relay is active in the desktop harness until real media/socket E2E gates pass";
         vr_android_path := "Android media routing remains release-gated until platform E2E passes" |};
       sn_voice_session := {|
         vs_joined := false; vs_permission := "unknown"; vs_input := None; vs_output := None;
         vs_participants := [{| vp_id := "alice"; vp_name := "Alice"; vp_role := "you";
                                vp_speaking := false; vp_muted := false; vp_volume := 82 |}];
         vs_status_copy := VOICE_SESSION_NOT_JOINED_COPY;
         vs_route_copy := VOICE_SESSION_ROUTE_GATED_COPY;
         vs_permission_denied_copy := "" |};
       sn_preferences := {| pf_theme_id := DEFAULT_THEME_ID; pf_template_id := DEFAULT_TEMPLATE_ID |};
       sn_messages :=
         [{| mv_id := "local-msg-1"; mv_channel := "#general"; mv_author := "Alice";
             mv_body := "Local-first command-backed timeline is persisted by AppStore.";
             mv_state := LOCAL_MESSAGE_STATE |};
          {| mv_id := "locked-msg-1"; mv_channel := "#general"; mv_author := id_display_name peer;
             mv_body := "Locked placeholder — author device must be online for a live-key request.";
             mv_state := "locked" |}];
       sn_activity_feed :=
         ["Invite policy checked: expiry + max-use + revoke controls";
          "Android wake path is content-free";
          "Configured TURN route carries ciphertext only in harness gates";
          "Deletion copy includes offline-device caveat"];
       sn_connectivity := {|
         cy_fallback_chain := "Command-backed policy: direct WebRTC P2P → configured TURN only; signaling providers never relay messages";
         cy_metadata_copy := "Content-private and metadata-minimizing, not metadata-anonymous";
         cy_push_copy := "Android FCM wake is content-free and carries no room, sender, or message body" |};
       sn_security_copy := {|
         sc_metadata := "Passive infrastructure can see IPs and timing; discrypt does not claim anonymity";
         sc_deletion := "Deleted on your online devices now; pending on offline devices until they reconnect";
         sc_malicious_member := "Crypto-shred cannot erase screenshots, exports, modified clients, or plaintext already saved by a recipient. Authorized members can still infer some liveness from archival live-key behavior; this is not metadata anonymity.";
         sc_sybil_resistance := "Abuse controls slow invite creation, invite use, admission-helper attempts, signaling publish/take, text bursts, and relay freeloading. They do not solve Sybil attacks without a central identity or reputation service; one person can still create many accounts or devices." |}
     |};
     st_next_message_sequence := 1 |}.

(** The free function compares with the process-wide seeded snapshot. *)
Definition verify_safety_number (seed : AppState) (req : SafetyVerificationRequest) :
    SafetyVerificationResult := verification_result (number_matches req (st_snapshot seed)).

(** The keys and device ids the smoke test draws. *)
Definition identity_recovery_verification_smoke (alice bob desktop phone : signing_key)
    (desktop_id phone_id : Uuid) : IdentityRecoveryVerification :=
  let alice := generate "Alice" alice in
  let bob := generate "Bob" bob in
  let alice_view := safety_number_from_friend_code alice (friend_code bob) in
  let bob_view := safety_number_from_friend_code bob (friend_code alice) in
  let '(devices, desktop) :=
    add_authorized_device DeviceSet_new desktop_id alice (vk_of desktop) "Desktop" 1 in
  let '(devices, phone) := add_authorized_device devices phone_id alice (vk_of phone) "Phone" 2 in
  let second_device_paired :=
    (length (active_devices devices) =? 2)%nat
    && bool_decide (dl_identity_key desktop = dl_identity_key phone)
    && negb (bool_decide (dl_device_key desktop = dl_device_key phone))
    && bool_decide (dl_label phone = "Phone") && (dl_added_at_epoch phone =? 2) in
  let recovery_without_content_keys :=
    match recover_account (MaterialRecoveryCode (replicate 32 7) ["recovered room"] 2) with
    | Ok recovery => ar_account_access_restored recovery && negb (ar_content_keys_restored recovery)
    | Err _ => false
    end in
  let '(devices, removed) := remove_device devices (dl_device_id phone) 3 in
  {| ir_two_profiles_verify_safety_numbers :=
       bool_decide (is_Some alice_view) && bool_decide (alice_view = bob_view);
     ir_second_device_paired := second_device_paired;
     ir_recovery_without_content_keys := recovery_without_content_keys;
     ir_compromised_device_revoked :=
       removed && (length (active_devices devices) =? 1)%nat
       && match last (dv_transparency devices) with
          | Some event => bool_decide (ev_kind event = "device-removed") && (ev_epoch event =? 3)
          | None => false
          end |}.
End seed.

(** ** The invariant of the state *)

Definition text_channel_name (name : string) : Prop :=
  ∃ rest, name = "#" +:+ rest ∧ rest ≠ "" ∧ Forall slug_byte (as_bytes rest).

Definition channel_ok (c : ChannelView) : Prop :=
  cv_name c ≠ "" ∧ (cv_kind c = TextChannel → text_channel_name (cv_name c)).

Definition server_ok (s : ServerView) : Prop :=
  NoDup (cv_name <$> sv_channels s) ∧ Forall channel_ok (sv_channels s).

(** The local user is shown as speaking exactly while joined and not muted. *)
Definition participant_ok (joined : bool) (p : VoiceParticipantView) : Prop :=
  vp_volume p ≤ 100 ∧ (vp_id p = "alice" → vp_speaking p = joined && negb (vp_muted p)).

Definition issued_id (next : N) (id : string) : Prop :=
  id = "locked-msg-1" ∨ ∃ n, 1 ≤ n ≤ next ∧ id = message_id n.

Record snapshot_wf (next : N) (s : AppSnapshot) : Prop := {
  wf_feed : (length (sn_activity_feed s) ≤ 8)%nat;
  wf_servers : sn_servers s ≠ [];
  wf_server_names : NoDup (sv_name <$> sn_servers s);
  wf_channels : Forall server_ok (sn_servers s);
  wf_participants :
    Forall (participant_ok (vs_joined (sn_voice_session s))) (vs_participants (sn_voice_session s));
  wf_message_ids : NoDup (mv_id <$> sn_messages s);
  wf_issued : Forall (issued_id next) (mv_id <$> sn_messages s)
}.

Definition app_wf (st : AppState) : Prop :=
  snapshot_wf (st_next_message_sequence st) (st_snapshot st).

(** ** Lemmas *)

Lemma normalize_label_nonempty input fallback :
  fallback ≠ "" → normalize_label input fallback ≠ "".
Proof. unfold normalize_label. by case_bool_decide. Qed.

Lemma channel_char_byte b x : channel_char b = Some x → slug_byte x.
Proof.
  unfold channel_char, is_continuation, is_ascii_alphanumeric, is_ascii_digit,
    is_ascii_alphabetic, byte_to_lower, slug_byte.
  destruct (N.leb_spec 128 b), (N.leb_spec b 191), (N.leb_spec 48 b), (N.leb_spec b 57),
    (N.leb_spec 97 b), (N.leb_spec b 122), (N.leb_spec 65 b), (N.leb_spec b 90),
    (N.eqb_spec b 45), (N.eqb_spec b 95); simpl; intros Heq; simplify_eq; lia.
Qed.

Lemma normalize_channel_ok input :
  normalize_channel input ≠ "" ∧ Forall slug_byte (as_bytes (normalize_channel input)).
Proof.
  unfold normalize_channel. set (sanitized := string_of_bytes _).
  assert (Forall slug_byte (as_bytes sanitized)) as Hs.
  { unfold sanitized. set (b := omap _ _).
    assert (Forall slug_byte b) as Hb.
    { apply Forall_forall. intros x (y & _ & Hy)%list_elem_of_omap. by eapply channel_char_byte. }
    rewrite as_string_bytes; [done|]. eapply Forall_impl; [done|]. unfold slug_byte. lia. }
  split; [by apply normalize_label_nonempty|]. unfold normalize_label.
  rewrite trim_printable.
  - case_bool_decide; [|done]. by repeat (constructor; [unfold slug_byte; simpl; lia|]).
  - eapply Forall_impl; [done|]. unfold slug_byte, printable. lia.
Qed.

Lemma channel_of_ok req s : channel_ok (channel_of req s).
Proof.
  unfold channel_ok, channel_of. simpl. destruct (cc_kind req); split; try done.
  - intros _. eexists. split; [done|]. apply normalize_channel_ok.
  - by apply normalize_label_nonempty.
Qed.

Lemma new_server_ok name role retention : server_ok (new_server name role retention).
Proof.
  split; simpl.
  - apply (bool_decide_unpack _). reflexivity.
  - repeat constructor; simpl; try done. intros _. exists "general". split_and!; [done..|].
    by repeat (constructor; [unfold slug_byte; simpl; lia|]).
Qed.

Lemma existsb_name {A} (f : A → string) (name : string) (l : list A) :
  existsb (λ x, bool_decide (f x = name)) l = false → name ∉ f <$> l.
Proof.
  intros Hf (x & -> & Hx)%list_elem_of_fmap.
  assert (existsb (λ y, bool_decide (f y = f x)) l = true) as Ht; [|congruence].
  apply existsb_exists. exists x. split; [by apply list_elem_of_In|]. by apply bool_decide_eq_true.
Qed.

Lemma add_channel_ok c s : channel_ok c → server_ok s → server_ok (add_channel c s).
Proof.
  intros Hc [Hn Hs]. unfold add_channel. destruct (existsb _ _) eqn:He; [done|].
  apply existsb_name in He. split; simpl.
  - rewrite fmap_app. apply NoDup_app. split_and!; [done| |apply NoDup_singleton].
    intros x Hx ->%list_elem_of_singleton. done.
  - apply Forall_app. by split; [|apply Forall_singleton].
Qed.

Lemma alter_names c (i : nat) (servers : list ServerView) :
  sv_name <$> alter (add_channel c) i servers = sv_name <$> servers.
Proof.
  revert i. induction servers as [|s r IH]; [done|]. intros [|i]; simpl.
  - unfold add_channel. by destruct (existsb _ _).
  - f_equal. apply IH.
Qed.

(** Edits of one part of the snapshot. *)
Lemma wf_push_activity next s item : snapshot_wf next s → snapshot_wf next (push_activity item s).
Proof. intros []. split; try done. simpl. rewrite length_take. lia. Qed.

Lemma wf_insert_server next s server :
  server_ok server → snapshot_wf next s → snapshot_wf next (insert_server server s).
Proof.
  intros Hok Hwf. unfold insert_server. destruct (existsb _ _) eqn:He; [done|].
  apply existsb_name in He. destruct Hwf. split; try done; simpl; by constructor.
Qed.

Lemma wf_add_channel next s c i :
  channel_ok c → snapshot_wf next s →
  snapshot_wf next (set_servers s (alter (add_channel c) i (sn_servers s))).
Proof.
  intros Hc []. split; try done; simpl.
  - intros Hnil. apply (f_equal length) in Hnil. rewrite length_alter in Hnil.
    by destruct (sn_servers s).
  - by rewrite alter_names.
  - apply Forall_alter; [done|]. intros. by apply add_channel_ok.
Qed.

Lemma wf_voice next s f :
  (∀ v, Forall (participant_ok (vs_joined v)) (vs_participants v) →
        Forall (participant_ok (vs_joined (f v))) (vs_participants (f v))) →
  snapshot_wf next s → snapshot_wf next (edit_voice f s).
Proof. intros Hf []. split; try done. simpl. by apply Hf. Qed.

Lemma Forall_map_participants (P Q : VoiceParticipantView → Prop) f l :
  (∀ p, P p → Q (f p)) → Forall P l → Forall Q (f <$> l).
Proof. intros Hf Hl. apply Forall_fmap. by eapply Forall_impl. Qed.

Lemma voice_joined_ok joined copy v :
  Forall (participant_ok (vs_joined v)) (vs_participants v) →
  Forall (participant_ok joined)
    (vs_participants (set_local_voice_speaking joined (set_voice_joined joined copy v))).
Proof.
  apply Forall_map_participants. intros p [Hv _]. unfold participant_ok.
  case_bool_decide; simpl; naive_solver.
Qed.

Lemma mute_local_ok muted v :
  Forall (participant_ok (vs_joined v)) (vs_participants v) →
  Forall (participant_ok (vs_joined v)) (vs_participants (mute_local muted v)).
Proof.
  apply Forall_map_participants. intros p [Hv Hs]. unfold participant_ok.
  case_bool_decide; simpl; naive_solver.
Qed.

Lemma set_volume_ok id volume v :
  Forall (participant_ok (vs_joined v)) (vs_participants v) →
  Forall (participant_ok (vs_joined v)) (vs_participants (set_volume_of id (N.min volume 100) v)).
Proof.
  apply Forall_map_participants. intros p [Hv Hs]. unfold participant_ok.
  case_bool_decide; simpl; [|done]. split; [lia|done].
Qed.

Lemma message_id_inj m n : message_id m = message_id n → m = n.
Proof. intros H. apply (inj pretty). unfold message_id in H. by simplify_eq/=. Qed.

Lemma message_id_unlocked n : message_id n ≠ "locked-msg-1".
Proof. discriminate. Qed.

Lemma issued_id_mono n n' id : n ≤ n' → issued_id n id → issued_id n' id.
Proof. intros Hn [->|(k & Hk & ->)]; [by left|right]. exists k. split; [lia|done]. Qed.

Lemma wf_append_message {S} (svc : AppService S) channel body :
  app_wf (sv_state svc) → st_next_message_sequence (sv_state svc) + 1 < 2 ^ 64 →
  app_wf (sv_state (append_message channel body svc)).
Proof.
  intros [] Hnext. unfold app_wf, append_message, next_sequence. simpl.
  rewrite N.mod_small by done. set (next := st_next_message_sequence _) in *.
  split; try done; simpl; rewrite fmap_app; simpl.
  - apply NoDup_app. split_and!; [done| |apply NoDup_singleton].
    intros id Hid ->%list_elem_of_singleton. rewrite Forall_forall in wf_issued0.
    destruct (wf_issued0 _ Hid) as [|(k & Hk & Heq%message_id_inj)]; [done|lia].
  - apply Forall_app. split; [eapply Forall_impl; [done|]; intros; eapply issued_id_mono; [|done]; lia|].
    apply Forall_singleton. right. exists (next + 1). split; [lia|done].
Qed.

Lemma insert_server_friend x s : sn_friend (insert_server x s) = sn_friend s.
Proof. unfold insert_server. by destruct (existsb _ _). Qed.

Lemma insert_server_devices x s : sn_devices (insert_server x s) = sn_devices s.
Proof. unfold insert_server. by destruct (existsb _ _). Qed.

(** What a command does to the state does not depend on the store. *)
Section state_of_commands.
Context {S : Type} `{AppStore S, AppStateJson}.
Implicit Types svc : AppService S.

Lemma persist_state svc : sv_state (persist svc).1 = sv_state svc.
Proof.
  unfold persist. destruct (state_to_json _); [|done]. by destruct (save_app_state _ _).
Qed.

Lemma finish_state item svc :
  sv_state (finish item svc).1 = sv_state (edit (push_activity item) svc).
Proof.
  unfold finish. pose proof (persist_state (edit (push_activity item) svc)) as Hp.
  by destruct (persist _).
Qed.

Lemma wf_finish item svc : app_wf (sv_state svc) → app_wf (sv_state (finish item svc).1).
Proof. intros Hwf. rewrite finish_state. by apply wf_push_activity. Qed.

Lemma app_call_wf svc c :
  app_wf (sv_state svc) → st_next_message_sequence (sv_state svc) + 1 < 2 ^ 64 →
  app_wf (sv_state (app_call svc c).1).
Proof.
  intros Hwf Hnext. destruct c as [req|req|req|req|req| | |req|req|req]; simpl.
  - unfold svc_verify_safety_number. destruct (number_matches _ _).
    + pose proof (wf_finish "Safety number verified through command-backed comparison"
        (edit mark_verified svc)) as Hf. destruct (finish _ _). apply Hf. by destruct Hwf.
    + pose proof (wf_finish "Safety number mismatch rejected by backend command" svc) as Hf.
      destruct (finish _ _). by apply Hf.
  - apply wf_finish. assert (app_wf (sv_state (edit (insert_server (new_server
      (normalize_label (cg_name req) "private lab") "owner" (cg_retention req))) svc))) as Hi
      by (apply wf_insert_server; [apply new_server_ok|done]).
    by destruct Hi.
  - apply wf_finish, wf_insert_server; [apply new_server_ok|done].
  - unfold create_channel. destruct (server_index _ _); [|done].
    apply wf_finish, wf_add_channel; [apply channel_of_ok|done].
  - apply wf_finish. by destruct Hwf.
  - apply wf_finish, wf_voice; [|done]. intros v. apply (voice_joined_ok true).
  - apply wf_finish, wf_voice; [|done]. intros v. apply (voice_joined_ok false).
  - apply wf_finish, wf_voice; [|done]. apply mute_local_ok.
  - unfold set_speaker_volume.
    destruct (existsb _ _); [apply wf_finish|]; (apply wf_voice; [|done]); apply set_volume_ok.
  - unfold send_message. case_bool_decide; [done|]. by apply wf_finish, wf_append_message.
Qed.

(** The sequence moves by at most one, and the peer and the devices are never edited. *)
Definition frame (st st' : AppState) (verified : bool) : Prop :=
  st_next_message_sequence st' ≤ st_next_message_sequence st + 1
  ∧ sn_devices (st_snapshot st') = sn_devices (st_snapshot st)
  ∧ fv_friend_code (sn_friend (st_snapshot st')) = fv_friend_code (sn_friend (st_snapshot st))
  ∧ fv_safety_number (sn_friend (st_snapshot st')) = fv_safety_number (sn_friend (st_snapshot st))
  ∧ fv_verified (sn_friend (st_snapshot st')) = verified.

Lemma frame_finish st item svc verified :
  frame st (sv_state svc) verified → frame st (sv_state (finish item svc).1) verified.
Proof. by rewrite finish_state. Qed.

Lemma app_call_frame svc c :
  frame (sv_state svc) (sv_state (app_call svc c).1)
    (fv_verified (sn_friend (snapshot svc))
     || match c with DoVerify req => number_matches req (snapshot svc) | _ => false end).
Proof.
  assert (frame (sv_state svc) (sv_state svc) (fv_verified (sn_friend (snapshot svc)))) as Hid
    by (split_and!; [lia|done..]).
  destruct c as [req|req|req|req|req| | |req|req|req]; simpl; rewrite ?orb_false_r.
  - unfold svc_verify_safety_number. destruct (number_matches req _) eqn:Hm.
    + pose proof (frame_finish (sv_state svc) "Safety number verified through command-backed comparison"
        (edit mark_verified svc) true) as Hf.
      destruct (finish _ _). rewrite orb_true_r. apply Hf. split_and!; [simpl; lia|done..].
    + pose proof (frame_finish (sv_state svc) "Safety number mismatch rejected by backend command" svc)
        as Hf.
      destruct (finish _ _). rewrite orb_false_r. by apply Hf.
  - apply frame_finish. unfold frame. simpl. unfold snapshot. simpl.
    rewrite insert_server_friend, insert_server_devices. apply Hid.
  - apply frame_finish. unfold frame. simpl. rewrite insert_server_friend, insert_server_devices.
    apply Hid.
  - unfold create_channel. destruct (server_index _ _); [by apply frame_finish|done].
  - by apply frame_finish.
  - by apply frame_finish.
  - by apply frame_finish.
  - by apply frame_finish.
  - unfold set_speaker_volume. destruct (existsb _ _); [by apply frame_finish|done].
  - unfold send_message. case_bool_decide; [done|]. apply frame_finish.
    split_and!; [|done..]. simpl. apply N.Div0.mod_le.
Qed.

Lemma app_run_snoc svc cs c : app_run svc (cs ++ [c]) = (app_call (app_run svc cs) c).1.
Proof. unfold app_run. by rewrite foldl_snoc. Qed.

(** What [DoVerify] compares with never changes. *)
Lemma app_run_frame svc cs :
  let s := snapshot (app_run svc cs) in
  sn_devices s = sn_devices (snapshot svc)
  ∧ fv_friend_code (sn_friend s) = fv_friend_code (sn_friend (snapshot svc))
  ∧ fv_safety_number (sn_friend s) = fv_safety_number (sn_friend (snapshot svc))
  ∧ (fv_verified (sn_friend s) = true ↔
     fv_verified (sn_friend (snapshot svc)) = true
     ∨ ∃ req, DoVerify req ∈ cs ∧ number_matches req (snapshot svc) = true).
Proof.
  induction cs as [|c cs IH] using rev_ind.
  { split_and!; [done..|]. split; [by left|]. intros [|(req & Hin & _)]; [done|].
    by apply elem_of_nil in Hin. }
  rewrite app_run_snoc. destruct (app_call_frame (app_run svc cs) c) as (_ & Hd & Hc & Hn & Hv).
  destruct IH as (Hd' & Hc' & Hn' & Hv'). unfold snapshot in *.
  split_and!; [congruence..|]. rewrite Hv, orb_true_iff, Hv'. setoid_rewrite elem_of_app.
  setoid_rewrite list_elem_of_singleton.
  assert (∀ req, number_matches req (st_snapshot (sv_state (app_run svc cs)))
    = number_matches req (st_snapshot (sv_state svc))) as Hm
    by (intros req; unfold number_matches; by rewrite Hc', Hn').
  split.
  - intros [[|(req & Hin & Hreq)]|Hreq]; [by left|right; by exists req; auto|].
    destruct c as [req| | | | | | | | |]; try done. right. exists req. rewrite <- Hm. auto.
  - intros [|(req & [Hin|<-] & Hreq)]; [by auto|left; right; by exists req|]. right. by rewrite Hm.
Qed.

(** An answered command has stored the state it left in memory. *)
Lemma persist_ok svc svc' :
  persist svc = (svc', Ok tt) →
  ∃ b, state_to_json (sv_state svc') = Ok b ∧ save_app_state b (sv_store svc) = (sv_store svc', Ok tt).
Proof.
  unfold persist. destruct (state_to_json _) as [b|] eqn:Hj; [|congruence].
  destruct (save_app_state b _) as [store [[]|]] eqn:Hs; simpl; [|congruence].
  intros [= <-]. eauto.
Qed.

Lemma finish_ok item svc svc' x :
  finish item svc = (svc', Ok x) → persist (edit (push_activity item) svc) = (svc', Ok tt).
Proof. unfold finish. destruct (persist _) as [s [[]|]]; simpl; congruence. Qed.

(** Every command that answers ended by persisting, from a store it had not touched. *)
Lemma app_call_persists svc svc' c :
  app_call svc c = (svc', Ok tt) →
  ∃ edited, sv_store edited = sv_store svc ∧ persist edited = (svc', Ok tt).
Proof.
  assert (∀ {A} item (mid : AppService S) (f : AppSnapshot → A),
    sv_store mid = sv_store svc →
    ((finish item mid).1, rmap (λ _, tt) (rmap f (finish item mid).2)) = (svc', Ok tt) →
    ∃ edited, sv_store edited = sv_store svc ∧ persist edited = (svc', Ok tt)) as Hfin.
  { intros A item mid f Hst. destruct (finish item mid) as [s [x|]] eqn:Hf; [|done].
    intros [= ->]. apply finish_ok in Hf. by exists (edit (push_activity item) mid). }
  assert (∀ item (mid : AppService S), sv_store mid = sv_store svc →
    ((finish item mid).1, rmap (λ _, tt) (finish item mid).2) = (svc', Ok tt) →
    ∃ edited, sv_store edited = sv_store svc ∧ persist edited = (svc', Ok tt)) as Hfin'.
  { intros item mid Hst Hf. apply (Hfin _ item mid (λ x, x) Hst). by destruct (finish _ _) as [? []]. }
  destruct c as [req|req|req|req|req| | |req|req|req]; simpl; try (by apply Hfin').
  - unfold svc_verify_safety_number. destruct (number_matches _ _).
    + specialize (Hfin _ "Safety number verified through command-backed comparison"
        (edit mark_verified svc) (λ _, verification_result true) eq_refl).
      by destruct (finish _ _).
    + specialize (Hfin _ "Safety number mismatch rejected by backend command" svc
        (λ _, verification_result false) eq_refl).
      by destruct (finish _ _).
  - unfold create_channel. destruct (server_index _ _); [by apply Hfin'|done].
  - unfold set_speaker_volume. destruct (existsb _ _); [by apply Hfin'|done].
  - unfold send_message. case_bool_decide; [done|]. by apply Hfin'.
Qed.
End state_of_commands.

(** ** Correctness *)

Section seeded.
Context {S : Type} `{AppStore S, AppStateJson, Sha256, Ed25519Laws, HexLaws}.
Context (local peer desktop primary : signing_key).
#[local] Definition seed : AppState := seed_state local peer desktop primary.

Lemma seed_wf : app_wf seed.
Proof.
  split; simpl; try (apply (bool_decide_unpack _); reflexivity).
  - constructor; [|done]. split; [apply (bool_decide_unpack _); reflexivity|].
    repeat constructor; simpl; try done; intros _; [exists "general"|exists "ops"];
      (split_and!; [done..|]); by repeat (constructor; [unfold slug_byte; simpl; lia|]).
  - constructor; [|constructor; [by left|done]]. right. exists 1. split; [lia|].
    vm_compute. reflexivity.
Qed.

Lemma seed_run_wf (store : S) cs :
  N.of_nat (length cs) < 2 ^ 64 - 1 →
  let svc := app_run {| sv_store := store; sv_state := seed |} cs in
  app_wf (sv_state svc) ∧ st_next_message_sequence (sv_state svc) ≤ 1 + N.of_nat (length cs).
Proof.
  induction cs as [|c cs IH] using rev_ind; [intros _; split; [apply seed_wf|done]|].
  rewrite length_app, app_run_snoc. simpl. intros Hlen.
  destruct IH as [Hwf Hnext]; [lia|]. split.
  - apply app_call_wf; [done|lia].
  - destruct (app_call_frame (app_run {| sv_store := store; sv_state := seed |} cs) c) as [Hn _]. lia.
Qed.

(** C24. The state of the service stays well formed through any sequence of commands, whatever
    the store refuses: server names are distinct and there is always a server, channel names are
    distinct within a server and text channels are [#] followed by lower-case slug characters,
    message ids are distinct, volumes are percentages, the local user is shown as speaking
    exactly while joined and unmuted, and the activity feed has at most eight entries. *)
Theorem app_state_stays_well_formed (store : S) cs :
  N.of_nat (length cs) < 2 ^ 64 - 1 →
  app_wf (sv_state (app_run {| sv_store := store; sv_state := seed |} cs)).
Proof. intros Hlen. by apply seed_run_wf. Qed.

End seeded.

Section reload.
Context {S : Type} `{AppStoreLaws S, AppStateJsonLaws}.

(** C32. An answered command survives a restart: loading the service again from its store gives
    exactly the state the command left, whenever the store answers, for every command and every
    store that keeps its laws, the encrypted database included. *)
Theorem answered_command_survives_restart (seed : AppState) (svc svc' : AppService S) c :
  store_valid (sv_store svc) → app_call svc c = (svc', Ok tt) →
  ∀ store'' svc'', load_or_seed seed (sv_store svc') = (store'', Ok svc'') →
  sv_state svc'' = sv_state svc'.
Proof.
  intros Hv (edited & Hst & Hp)%app_call_persists store'' svc''.
  apply persist_ok in Hp as (b & Hj & Hs). rewrite Hst in Hs. unfold load_or_seed.
  destruct (load_app_state _) as [contents|] eqn:Hl; [|done].
  rewrite (load_after_save _ _ _ _ Hv Hs Hl), (state_json_round_trip _ _ Hj).
  pose proof (persist_state {| sv_store := sv_store svc'; sv_state := sv_state svc' |}) as Hstate.
  destruct (persist _) as [s r]. destruct r; simpl in *; [|congruence]. congruence.
Qed.

(** A command the store refuses is still applied in memory: when the save fails, sending a
    message answers with the store's error and leaves the store as it was, but the message is in
    the snapshot, so a retry shows it twice. *)
Theorem refused_message_is_kept (svc : AppService S) (req : SendMessageRequest) e :
  store_valid (sv_store svc) → trim (sm_body req) ≠ "" →
  (∀ st, is_ok (state_to_json st) = true) → (∀ b, (save_app_state b (sv_store svc)).2 = Err e) →
  ∃ svc', send_message req svc = (svc', Err (SvcStore e))
    ∧ load_app_state (sv_store svc') = load_app_state (sv_store svc)
    ∧ mv_body <$> sn_messages (snapshot svc')
      = (mv_body <$> sn_messages (snapshot svc)) ++ [trim (sm_body req)].
Proof.
  intros Hv Hbody Hj He. unfold send_message. rewrite bool_decide_eq_false_2 by done.
  unfold finish, persist. set (mid := edit _ _). specialize (Hj (sv_state mid)).
  destruct (state_to_json _) as [b|]; [|done]. change (sv_store mid) with (sv_store svc).
  specialize (He b). destruct (save_app_state b _) as [store r] eqn:Hs. simpl in He. subst r.
  eexists. split; [done|]. simpl. split; [by eapply load_after_failed_save|].
  unfold snapshot. simpl. by rewrite fmap_app.
Qed.

(** A retention label that is not recognised is shown but not applied: the new group's text
    channel displays the label as its retention, while the policy in force is the default of
    seven days. *)
Theorem unknown_retention_label_is_shown (svc : AppService S) (req : CreateGroupRequest) :
  window_from_label (cg_retention req) = None →
  normalize_label (cg_name req) "private lab" ∉ sv_name <$> sn_servers (snapshot svc) →
  let s := snapshot (create_group req svc).1 in
  rv_selected_window_seconds (sn_retention s) = Some 604800
  ∧ (cv_retention_status <$> (x ← head (sn_servers s); head (sv_channels x)))
    = Some (retention_status (cg_retention req)).
Proof.
  intros Hl Hn. unfold create_group. set (name := normalize_label _ _) in *.
  unfold snapshot. rewrite finish_state. simpl. unfold retention_policy_from_label. rewrite Hl.
  split; [done|]. unfold snapshot. simpl. unfold insert_server. simpl.
  destruct (existsb _ _) eqn:He; [|done].
  apply existsb_exists in He as (x & Hx%list_elem_of_In & Heq%bool_decide_eq_true).
  destruct Hn. apply list_elem_of_fmap. by exists x.
Qed.
End reload.

(** The crate prints lower-case digits, as the service's own encoder does. *)
Class HexText `{Hex} : Prop :=
  hex_encode_text b : Forall (λ x, x < 256) b → hex_encode b = app_hex_encode b.

Section identities.
Context {S : Type} `{AppStore S, AppStateJson, Sha256, Ed25519Laws, HexLaws}.
Context `{!HexText} (local peer desktop primary : signing_key).

Lemma key_text_read v : verifying_key_from_hex (key_text v) = Some v.
Proof.
  unfold key_text. rewrite <- hex_encode_text by apply vk_to_bytes_u8.
  apply verifying_key_from_hex_encode.
Qed.

Lemma seed_number :
  fv_safety_number (sn_friend (st_snapshot (seed_state local peer desktop primary)))
  = sn_text (from_identity_keys (vk_of local) (vk_of peer)).
Proof.
  simpl. unfold safety_number_from_friend_code, friend_code. rewrite friend_code_key. done.
Qed.

(** Verification means that the real number was compared: in every state the service
    reaches, the displayed safety number is the pairwise number of the local device's and the
    friend's identity keys, and the friend is marked as verified if and only if some command
    supplied both the friend's code and exactly that number. *)
Theorem verified_means_compared (store : S) cs :
  let s := snapshot (app_run {| sv_store := store;
                                sv_state := seed_state local peer desktop primary |} cs) in
  snapshot_safety_number_matches_identity_keys s = true
  ∧ (fv_verified (sn_friend s) = true ↔
     ∃ req, DoVerify req ∈ cs
       ∧ sr_friend_id req = fc_payload (friend_code (generate "New contact" peer))
       ∧ sr_provided req = sn_text (from_identity_keys (vk_of local) (vk_of peer))).
Proof.
  set (svc := {| sv_store := store; sv_state := _ |}).
  destruct (app_run_frame svc cs) as (Hd & Hc & Hn & Hv). intros s. fold s in Hd, Hc, Hn, Hv.
  pose proof seed_number as Hseed. split.
  - unfold snapshot_safety_number_matches_identity_keys. rewrite Hd, Hc, Hn. unfold snapshot.
    simpl sv_state. rewrite Hseed. simpl. rewrite key_text_read.
    change {| fc_payload := _ |} with (friend_code (generate "New contact" peer)).
    unfold friend_code. rewrite friend_code_key. by apply bool_decide_eq_true.
  - rewrite Hv. unfold number_matches, snapshot. simpl sv_state. rewrite Hseed.
    setoid_rewrite andb_true_iff. setoid_rewrite bool_decide_eq_true. simpl.
    split; [by intros [|]|by right].
Qed.

(** Two devices under different ids, the first active. *)
Lemma two_devices (x y : Uuid) dx dy :
  x ≠ y → is_active dx = true →
  length (filter (λ d, is_active d = true) (values (<[y := dy]> (<[x := dx]> ∅))))
  = if is_active dy then 2%nat else 1%nat.
Proof.
  intros Hne Hx. unfold values. rewrite (entries_perm (<[y := dy]> (<[x := dx]> ∅))).
  rewrite map_to_list_insert by by rewrite lookup_insert_ne, lookup_empty.
  rewrite map_to_list_insert, map_to_list_empty by apply lookup_empty. simpl.
  rewrite !filter_cons, Hx. destruct (is_active dy); done.
Qed.

(** The recovery story holds for all fresh keys: two profiles derive the same safety
    number, a second device is paired under the account's key, recovery restores access without
    content keys, and the removed device leaves exactly one active device and a record of it. *)
Theorem identity_recovery_holds (alice bob : signing_key) (desktop_id phone_id : Uuid) :
  vk_of desktop ≠ vk_of primary → desktop_id ≠ phone_id →
  identity_recovery_verification_smoke alice bob desktop primary desktop_id phone_id
  = {| ir_two_profiles_verify_safety_numbers := true; ir_second_device_paired := true;
       ir_recovery_without_content_keys := true; ir_compromised_device_revoked := true |}.
Proof.
  intros Hkey Hid. unfold identity_recovery_verification_smoke, add_authorized_device,
    insert_authorized_device, remove_device, retire_device, active_devices. simpl.
  rewrite lookup_insert_eq. simpl. unfold push_event. simpl.
  rewrite insert_insert_eq, !two_devices by done. simpl.
  rewrite (bool_decide_eq_false_2 (vk_to_bytes (vk_of desktop) = _)).
  2:{ intros Heq. apply (f_equal vk_from_bytes) in Heq. rewrite !vk_from_to_bytes in Heq.
      congruence. }
  rewrite (bool_decide_eq_true_2 (vk_to_bytes _ = _)) by done.
  unfold safety_number_from_friend_code, friend_code. rewrite !friend_code_key. simpl.
  rewrite bool_decide_eq_true_2; [done|]. f_equal. apply from_identity_keys_sym.
Qed.
End identities.

(** ** Witnesses *)

Section witnesses.
#[local] Existing Instance Toy.toy_sha.
#[local] Existing Instance Toy.toy_ed.
#[local] Existing Instance Toy.toy_ed_laws.
#[local] Existing Instance Toy.toy_hex.
#[local] Existing Instance Toy.toy_hex_laws.

Lemma toy_hex_text : @HexText Toy.toy_hex.
Proof.
  intros b Hb. simpl. unfold app_hex_encode, Toy.hex_bytes. f_equal.
  induction Hb as [|x b Hx _ IH]; [done|]. rewrite !bind_cons, IH. f_equal.
  rewrite N.shiftr_div_pow2. change 15 with (N.ones 4). rewrite N.land_ones.
  change (2 ^ 4) with 16.
  assert (∀ n, n < 16 → default 0 (HEX !! N.to_nat n) = Toy.hex_digit n) as Hdigit.
  { intros n Hn. do 16 (destruct n as [|n] using N.peano_ind; [reflexivity|clear IHn]). lia. }
  assert (x / 16 < 16) by (apply N.Div0.div_lt_upper_bound; lia).
  rewrite !Hdigit, (N.mod_small (x / 16)) by (done || by apply N.mod_lt). done.
Qed.
#[local] Existing Instance toy_hex_text.

#[local] Definition toy_seed : AppState := seed_state Toy.alice Toy.bob Toy.alice Toy.bob.

(** A format that knows one state. *)
#[local] Definition one_state (st : AppState) : AppStateJson := {|
  state_to_json st' := if decide (st' = st) then Ok [1] else Err "unknown";
  state_from_json b := if decide (b = [1]) then Ok st else Err "unknown"
|}.

#[local] Lemma one_state_laws st : @AppStateJsonLaws (one_state st).
Proof.
  intros st' b. unfold state_to_json, state_from_json, one_state.
  destruct (decide (st' = st)) as [->|]; [|done]. by intros [= <-].
Qed.

#[local] Definition opaque_state : AppStateJson :=
  {| state_to_json _ := Ok []; state_from_json _ := Err "opaque" |}.

#[local] Definition hello : SendMessageRequest := {| sm_channel := ""; sm_body := " hi " |}.

#[local] Definition in_memory : AppService MemoryAppStore :=
  {| sv_store := {| ms_bytes := None |}; sv_state := toy_seed |}.

#[local] Definition full_disk : FileAppStore := {|
  fs_path := {| fp_parent := "/data"; fp_name := "app.json" |};
  fs_disk := {| dk_files := ∅; dk_read_fault := None; dk_mkdir_fault := None;
                dk_write_fault := Some ("disk full", Some [1]); dk_rename_fault := None |}
|}.

Lemma app_state_stays_well_formed_witness :
  app_wf (sv_state (@app_run _ memory_app_store opaque_state in_memory
    [DoJoinVoice; DoSetSelfMute {| mq_muted := true |}; DoSendMessage hello])).
Proof. apply (@app_state_stays_well_formed _ _ opaque_state _ _ _ Toy.alice Toy.bob). vm_compute. reflexivity. Defined.

Lemma answered_command_survives_restart_witness :
  let after := sv_state (@app_call _ memory_app_store opaque_state in_memory (DoSendMessage hello)).1 in
  ∃ svc'', (@load_or_seed _ memory_app_store (one_state after) toy_seed {| ms_bytes := Some [1] |}).2
           = Ok svc'' ∧ sv_state svc'' = after.
Proof.
  intros after.
  assert (@app_call _ memory_app_store (one_state after) in_memory (DoSendMessage hello)
    = ({| sv_store := {| ms_bytes := Some [1] |}; sv_state := after |}, Ok tt)) as Hc
    by (vm_compute; reflexivity).
  assert (store_valid (sv_store in_memory)) as Hv by exact I.
  eexists. split; [vm_compute; reflexivity|].
  refine (@answered_command_survives_restart _ _ _ (one_state after) (one_state_laws after)
    toy_seed in_memory _ _ Hv Hc _ _ _).
  vm_compute. reflexivity.
Defined.

Lemma refused_message_is_kept_witness :
  let svc := {| sv_store := full_disk; sv_state := toy_seed |} in
  ∃ svc', @send_message _ _ opaque_state hello svc = (svc', Err (SvcStore (StoreIo "disk full")))
    ∧ load_app_state (sv_store svc') = load_app_state (sv_store svc)
    ∧ mv_body <$> sn_messages (snapshot svc')
      = (mv_body <$> sn_messages (snapshot svc)) ++ [trim " hi "].
Proof.
  intros svc. assert (store_valid (sv_store svc)) as Hv by exact I.
  apply (@refused_message_is_kept _ _ _ opaque_state svc hello); [exact Hv|done|done|done].
Defined.

Lemma unknown_retention_label_is_shown_witness :
  let req := {| cg_name := "lab"; cg_retention := "forever" |} in
  let s := snapshot (@create_group _ _ opaque_state req in_memory).1 in
  rv_selected_window_seconds (sn_retention s) = Some 604800.
Proof.
  intros req s. refine (proj1 (@unknown_retention_label_is_shown _ _ opaque_state in_memory req _ _)).
  - vm_compute. reflexivity.
  - apply (bool_decide_unpack _). vm_compute. reflexivity.
Defined.

Lemma verified_means_compared_witness :
  fv_verified (sn_friend (snapshot (@app_run _ memory_app_store opaque_state in_memory
    [DoVerify {| sr_friend_id := "someone"; sr_provided := "0000" |}]))) ≠ true.
Proof.
  intros Hv. apply (@verified_means_compared _ _ opaque_state _ _ _ _ _ _ Toy.alice Toy.bob) in Hv.
  destruct Hv as (req & Hin%list_elem_of_singleton & Hid & _). injection Hin as ->.
  vm_compute in Hid. discriminate.
Defined.

Lemma identity_recovery_holds_witness :
  ir_compromised_device_revoked
    (identity_recovery_verification_smoke Toy.alice Toy.bob Toy.alice Toy.bob 7 8) = true.
Proof. rewrite identity_recovery_holds; done. Defined.
End witnesses.
