(* ===== verification/HistorySync.v ===== *)
(** * History sync

    [crates/transport/src/history_sync.rs]: ciphertext history for a recipient, gated by the
    current membership and retention policy, carried over a selected overlay route, queued
    while the recipient is offline and merged atomically into its author log. The queue of
    this file composes the route selection of [OverlayRouting] with the store of
    [LocalStore]. *)

From S2P Require Import Prelude Collections Bytes StrOps Transport IcePolicy ConnPolicy RouteGraph PeerOverlay OverlayRouting LocalStore.

(** ** Policy *)

Record HistorySyncPolicy := {
  hp_current_epoch : N;
  hp_authorized_recipients : gset string;
  hp_authorized_author_leaves : gset N;
  hp_retention_window_ms : N;
  hp_now_ms : N
}.

Definition sync_policy_new (epoch : N) (recipients : list string) (authors : list N)
    (retention_window_ms now_ms : N) : HistorySyncPolicy :=
  {| hp_current_epoch := epoch; hp_authorized_recipients := list_to_set recipients;
     hp_authorized_author_leaves := list_to_set authors;
     hp_retention_window_ms := N.max retention_window_ms 1; hp_now_ms := now_ms |}.

Definition validate_recipient (p : HistorySyncPolicy) (member : string) : result unit TransportError :=
  check validate_label member "history sync recipient member id" in
  reject_policy (negb (bool_decide (member ∈ hp_authorized_recipients p)))
    "history sync recipient is not authorized in current membership".

Record HistorySyncItem := { hi_entry : AuthorLogEntry; hi_created_at_ms : N }.

Definition validate_entry (p : HistorySyncPolicy) (i : HistorySyncItem) : result unit TransportError :=
  check reject_policy
    (negb (bool_decide (al_author_leaf (hi_entry i) ∈ hp_authorized_author_leaves p)))
    "history sync author leaf is not authorized for this group" in
  check reject_policy
    ((al_epoch (hi_entry i) =? 0) || (hp_current_epoch p <? al_epoch (hi_entry i)))
    "history sync entry epoch is not covered by current membership policy" in
  check reject_policy (bool_decide (al_ciphertext (hi_entry i) = []))
    "history sync entry ciphertext must not be empty" in
  check reject_policy (hp_now_ms p <? hi_created_at_ms i)
    "history sync entry timestamp is in the future" in
  reject_policy (hp_retention_window_ms p <? hp_now_ms p - hi_created_at_ms i)
    "history sync entry is outside retention policy".

(** ** Plans *)

Inductive HistorySyncRouteKind := SyncDirectWebRtc | SyncConfiguredTurn | SyncPeerAssisted.

Record HistorySyncPlan := {
  hl_recipient_member_id : string;
  hl_route_kind : HistorySyncRouteKind;
  hl_items : list HistorySyncItem;
  hl_provider_application_relay_used : bool;
  hl_ciphertext_only : bool;
  hl_limitation : string
}.

Definition plan_entries (l : HistorySyncPlan) : list AuthorLogEntry := hi_entry <$> hl_items l.

Definition validate_plan_shape (l : HistorySyncPlan) : result unit TransportError :=
  check validate_label (hl_recipient_member_id l) "history sync recipient member id" in
  check reject_policy (hl_provider_application_relay_used l)
    "history sync must not use providers as application relays" in
  check reject_policy (negb (hl_ciphertext_only l))
    "history sync plan must carry ciphertext-only entries" in
  reject_policy (bool_decide (length (hl_items l) = 0%nat))
    "history sync plan requires at least one item".

Definition validate_route_attempts (r : PeerOverlayRouteSelection) : result unit TransportError :=
  each (λ t, check carrier_validate (ora_carrier t) in
             reject_policy (bool_decide (ora_carrier t = ProviderApplicationRelay))
               "history sync route attempts must not include provider application relay")
    (ors_attempts r).

Definition sync_route_kind (r : PeerOverlayRouteSelection) :
    result HistorySyncRouteKind TransportError :=
  match ors_selected r with
  | SelDirectWebRtc e => check carrier_validate (ole_carrier e) in Ok SyncDirectWebRtc
  | SelConfiguredTurn e => check carrier_validate (ole_carrier e) in Ok SyncConfiguredTurn
  | SelPeerAssisted _ _ _ _ => Ok SyncPeerAssisted
  end.

Definition build_history_sync_plan (p : HistorySyncPolicy) (recipient : string)
    (r : PeerOverlayRouteSelection) (items : list HistorySyncItem) :
    result HistorySyncPlan TransportError :=
  check validate_recipient p recipient in
  check validate_route_attempts r in
  let* kind := sync_route_kind r in
  check reject_policy (bool_decide (length items = 0%nat))
    "history sync requires at least one ciphertext entry" in
  check each (validate_entry p) items in
  let l := {| hl_recipient_member_id := recipient; hl_route_kind := kind; hl_items := items;
              hl_provider_application_relay_used := false; hl_ciphertext_only := true;
              hl_limitation :=
                "local model history-sync evidence only; not production split-machine delivery proof" |} in
  check validate_plan_shape l in
  Ok l.

Record HistorySyncApplyReport := {
  hr_plans_applied : nat;
  hr_entries_inserted : nat;
  hr_entries_duplicate : nat
}.

Definition sync_storage_error (e : AuthorLogError) : TransportError :=
  InvalidConnectivityPolicy ("history sync storage merge failed: " +:+ author_log_error_text e).

Definition apply_report (r : AuthorLogMergeReport) : HistorySyncApplyReport :=
  {| hr_plans_applied := 1; hr_entries_inserted := alm_inserted r;
     hr_entries_duplicate := alm_duplicates r |}.

Definition apply_history_sync_plan (p : HistorySyncPolicy) (l : HistorySyncPlan) (s : LocalStore) :
    LocalStore * result HistorySyncApplyReport TransportError :=
  match (check validate_plan_shape l in
         check validate_recipient p (hl_recipient_member_id l) in
         each (validate_entry p) (hl_items l)) with
  | Err e => (s, Err e)
  | Ok _ =>
      let '(s', r) := merge_author_logs_atomic s (plan_entries l) in
      (s', rmap apply_report (map_err sync_storage_error r))
  end.

(** ** The offline queue *)

Record HistorySyncQueue := {
  hq_max_pending_plans : nat;
  hq_pending : gmap string (list HistorySyncPlan)
}.

Definition sync_queue_new (n : nat) : HistorySyncQueue :=
  {| hq_max_pending_plans := n `max` 1; hq_pending := ∅ |}.

Definition queue_len (q : HistorySyncQueue) : nat := sum_list_with length (values (hq_pending q)).

Definition queue_is_empty (q : HistorySyncQueue) : bool := bool_decide (hq_pending q = ∅).

Definition sync_enqueue (q : HistorySyncQueue) (l : HistorySyncPlan) :
    HistorySyncQueue * result unit TransportError :=
  match (check validate_plan_shape l in
         reject_policy (hq_max_pending_plans q <=? queue_len q)%nat "history sync queue is full") with
  | Err e => (q, Err e)
  | Ok _ =>
      let r := hl_recipient_member_id l in
      ({| hq_max_pending_plans := hq_max_pending_plans q;
          hq_pending := <[r := default [] (hq_pending q !! r) ++ [l]]> (hq_pending q) |}, Ok tt)
  end.

Fixpoint drain_loop (p : HistorySyncPolicy) (plans : list HistorySyncPlan)
    (report : HistorySyncApplyReport) (s : LocalStore) :
    LocalStore * result HistorySyncApplyReport TransportError :=
  match plans with
  | [] => (s, Ok report)
  | l :: rest =>
      match apply_history_sync_plan p l s with
      | (s', Ok a) =>
          drain_loop p rest
            {| hr_plans_applied := hr_plans_applied report + hr_plans_applied a;
               hr_entries_inserted := hr_entries_inserted report + hr_entries_inserted a;
               hr_entries_duplicate := hr_entries_duplicate report + hr_entries_duplicate a |} s'
      | (s', Err e) => (s', Err e)
      end
  end.

Definition drain_authorized_for_recipient (q : HistorySyncQueue) (recipient : string)
    (p : HistorySyncPolicy) (s : LocalStore) :
    HistorySyncQueue * LocalStore * result HistorySyncApplyReport TransportError :=
  match validate_recipient p recipient with
  | Err e => (q, s, Err e)
  | Ok _ =>
      let plans := default [] (hq_pending q !! recipient) in
      let q' := {| hq_max_pending_plans := hq_max_pending_plans q;
                   hq_pending := delete recipient (hq_pending q) |} in
      let '(s', r) := drain_loop p plans
        {| hr_plans_applied := 0; hr_entries_inserted := 0; hr_entries_duplicate := 0 |} s in
      (q', s', r)
  end.

(** ** Lemmas *)

(** What the policy lets through. *)
Definition entry_allowed (p : HistorySyncPolicy) (i : HistorySyncItem) : Prop :=
  al_author_leaf (hi_entry i) ∈ hp_authorized_author_leaves p ∧
  1 ≤ al_epoch (hi_entry i) ≤ hp_current_epoch p ∧ al_ciphertext (hi_entry i) ≠ [] ∧
  hi_created_at_ms i ≤ hp_now_ms p ≤ hi_created_at_ms i + hp_retention_window_ms p.

Lemma validate_entry_ok p i : validate_entry p i = Ok tt ↔ entry_allowed p i.
Proof. unfold validate_entry, entry_allowed. ok_simpl. intuition lia. Qed.

Lemma apply_plan_spec p l s s' o :
  log_wf (ls_author_log s) → apply_history_sync_plan p l s = (s', o) →
  log_wf (ls_author_log s') ∧ same_rest s s' ∧
  match o with
  | Ok r =>
      validate_recipient p (hl_recipient_member_id l) = Ok tt ∧
      Forall (entry_allowed p) (hl_items l) ∧
      (∀ x, in_log s' x ↔ in_log s x ∨ x ∈ plan_entries l) ∧ hr_plans_applied r = 1%nat ∧
      (hr_entries_inserted r + hr_entries_duplicate r = length (hl_items l))%nat
  | Err _ => s' = s
  end.
Proof.
  intros Hw. unfold apply_history_sync_plan.
  destruct (check _ in check _ in each _ _) as [u|e] eqn:E; [|by intros [= <- <-]].
  destruct u. revert E. ok_simpl. rewrite each_ok. intros (_ & Hr & Hall).
  destruct (merge_author_logs_atomic s (plan_entries l)) as [c [r|e]] eqn:Em; intros [= <- <-];
    apply merge_atomic_spec in Em as (Hw' & Hrest & _ & Ho); try done; simpl.
  destruct Ho as (Hin & Hsum & _). split_and!; try done.
  - eapply Forall_impl; [done|]. intros i. apply validate_entry_ok.
  - unfold plan_entries in Hsum. by rewrite length_fmap in Hsum.
Qed.

Lemma drain_loop_spec p plans report s s' o :
  log_wf (ls_author_log s) → drain_loop p plans report s = (s', o) →
  log_wf (ls_author_log s') ∧ same_rest s s' ∧ (∀ x, in_log s x → in_log s' x) ∧
  (∀ x, in_log s' x → in_log s x ∨
     ∃ l i, l ∈ plans ∧ i ∈ hl_items l ∧ hi_entry i = x ∧ entry_allowed p i) ∧
  (∀ r, o = Ok r →
     hr_plans_applied r = (hr_plans_applied report + length plans)%nat ∧
     ∀ l i, l ∈ plans → i ∈ hl_items l → in_log s' (hi_entry i)).
Proof.
  revert report s. induction plans as [|l plans IH]; intros report s Hw; simpl.
  { intros [= <- <-]. split_and!; try done; [by left|]. intros r [= <-]. split; [lia|set_solver]. }
  destruct (apply_history_sync_plan p l s) as [s1 [a|e]] eqn:E;
    apply apply_plan_spec in E as (Hw1 & Hr1 & Ho); try done.
  2:{ intros [= <- <-]. subst s1. split_and!; try done. by left. }
  destruct Ho as (_ & Hall & Hin & Hone & _). intros Hd.
  apply IH in Hd as (Hw' & Hr' & Hmono & Hsub & Hok); [|done].
  assert (∀ i, i ∈ hl_items l → in_log s1 (hi_entry i)) as Hnew.
  { intros i Hi. apply Hin. right. unfold plan_entries. apply list_elem_of_fmap. eauto. }
  split_and!; try done.
  - destruct Hr1, Hr'. split; congruence.
  - intros x Hx. apply Hmono, Hin. by left.
  - intros x [Hx|(k & i & Hk & Hi & Hx)]%Hsub.
    + apply Hin in Hx as [Hx|Hx]; [by left|]. right. unfold plan_entries in Hx.
      apply list_elem_of_fmap in Hx as (i & -> & Hi). exists l, i. rewrite Forall_forall in Hall.
      split_and!; auto. by left.
    + right. exists k, i. split; [by right|done].
  - intros r Hr. destruct (Hok r Hr) as [Hn Hl]. split; [simpl in Hn; lia|].
    intros k i [->|Hk]%elem_of_cons Hi; [by apply Hmono, Hnew|eauto].
Qed.

(** *** Queue length *)

Lemma pending_delete (m : gmap string (list HistorySyncPlan)) k :
  sum_list_with length (values m)
    = (length (default [] (m !! k)) + sum_list_with length (values (delete k m)))%nat.
Proof.
  assert (∀ m : gmap string (list HistorySyncPlan),
    sum_list_with length (values m) = sum_list_with length (map_to_list m).*2) as Hv.
  { intros m'. unfold values. by rewrite entries_perm. }
  rewrite !Hv. destruct (m !! k) as [l|] eqn:E; simpl.
  - rewrite <- (insert_delete_id m k l) at 1 by done.
    rewrite map_to_list_insert by apply lookup_delete_eq. done.
  - by rewrite delete_id.
Qed.

Lemma pending_push (m : gmap string (list HistorySyncPlan)) k l :
  sum_list_with length (values (<[k := default [] (m !! k) ++ [l]]> m))
    = S (sum_list_with length (values m)).
Proof.
  rewrite (pending_delete (<[k := _]> m) k), (pending_delete m k), lookup_insert_eq, delete_insert_eq.
  simpl. rewrite length_app. simpl. lia.
Qed.

Inductive QueueCall :=
| CallEnqueue (l : HistorySyncPlan)
| CallDrain (recipient : string) (p : HistorySyncPolicy) (s : LocalStore).

Definition queue_step (q : HistorySyncQueue) (c : QueueCall) : HistorySyncQueue :=
  match c with
  | CallEnqueue l => (sync_enqueue q l).1
  | CallDrain r p s => (drain_authorized_for_recipient q r p s).1.1
  end.

Definition queue_run (q : HistorySyncQueue) (l : list QueueCall) : HistorySyncQueue :=
  foldl queue_step q l.

Record queue_wf (n : nat) (q : HistorySyncQueue) : Prop := {
  qw_max : hq_max_pending_plans q = (n `max` 1)%nat;
  qw_bound : (queue_len q ≤ n `max` 1)%nat;
  qw_filed r ls l :
    hq_pending q !! r = Some ls → l ∈ ls → hl_recipient_member_id l = r ∧ validate_plan_shape l = Ok tt
}.

Lemma sync_enqueue_ok q l :
  is_ok (sync_enqueue q l).2 = true ↔
  validate_plan_shape l = Ok tt ∧ (queue_len q < hq_max_pending_plans q)%nat.
Proof.
  unfold sync_enqueue. destruct (validate_plan_shape l) as [[]|e]; simpl; [|naive_solver].
  unfold reject_policy, reject_if.
  destruct (Nat.leb_spec (hq_max_pending_plans q) (queue_len q)); simpl; split; try done; lia || naive_solver lia.
Qed.

Lemma queue_step_wf n q c : queue_wf n q → queue_wf n (queue_step q c).
Proof.
  intros Hw. destruct c as [l|r p s]; simpl.
  - pose proof (sync_enqueue_ok q l) as Hok. unfold sync_enqueue in *.
    destruct (check _ in _) as [u|e]; [|done]. destruct (proj1 Hok eq_refl) as [Hshape Hlt].
    split; simpl; [apply Hw| |].
    + unfold queue_len. simpl. rewrite pending_push. rewrite (qw_max _ _ Hw) in Hlt. exact Hlt.
    + intros r ls x [[<- <-]|[_ Hr]]%lookup_insert_Some Hx; [|by eapply (qw_filed _ _ Hw)].
      apply elem_of_app in Hx as [Hx|Hx]; [|by apply list_elem_of_singleton in Hx as ->].
      destruct (hq_pending q !! _) eqn:E; [by eapply (qw_filed _ _ Hw)|by apply not_elem_of_nil in Hx].
  - unfold drain_authorized_for_recipient. destruct (validate_recipient p r); [|done].
    destruct (drain_loop _ _ _ _). split; simpl; [apply Hw| |].
    + pose proof (qw_bound _ _ Hw) as Hb. unfold queue_len in *. simpl.
      rewrite (pending_delete _ r) in Hb. lia.
    + intros r' ls x [_ Hr]%lookup_delete_Some. by apply (qw_filed _ _ Hw).
Qed.

Lemma sync_queue_run_wf n l : queue_wf n (queue_run (sync_queue_new n) l).
Proof.
  unfold queue_run. assert (queue_wf n (sync_queue_new n)) as Hw.
  { split; simpl; [done|change (queue_len _) with 0%nat; lia|].
    intros r ls x. by rewrite lookup_empty. }
  revert Hw. generalize (sync_queue_new n) as q. induction l as [|c l IH]; intros q Hw; [done|].
  by apply IH, queue_step_wf.
Qed.

(** *** Selected routes carry a plan *)

Lemma select_attempts_ok s a order i sel :
  select_peer_overlay_route s a order i = Ok sel →
  Forall (λ t, ora_carrier t ≠ ProviderApplicationRelay) (ors_attempts sel).
Proof.
  assert (∀ l l' b, Forall (λ t, ora_carrier t ≠ ProviderApplicationRelay) l →
    select_last (l ++ [attempt b]) = Ok l' → b ≠ ProviderApplicationRelay →
    Forall (λ t, ora_carrier t ≠ ProviderApplicationRelay) l') as Hlast.
  { intros l l' b Hl. rewrite select_last_snoc. intros [= <-] Hb. apply Forall_app; split; [done|].
    by apply Forall_singleton. }
  assert (∀ l, Forall (λ t, ora_carrier t ≠ ProviderApplicationRelay) l →
    try_peer_relay s a i l = Ok sel → Forall (λ t, ora_carrier t ≠ ProviderApplicationRelay) (ors_attempts sel))
    as Hrelay.
  { intros l Hl. unfold try_peer_relay. intros H. apply rbind_ok in H as (k & _ & H). revert H. ok_simpl.
    intros (_ & _ & _ & H). apply rbind_ok in H as (e & _ & H). revert H. ok_simpl. intros [_ H].
    apply rbind_ok in H as (m & Hm & [= <-]). by eapply Hlast. }
  assert (∀ l o, Forall (λ t, ora_carrier t ≠ ProviderApplicationRelay) l →
    (try_configured_turn s i l o).2 = Ok (Some sel) →
    Forall (λ t, ora_carrier t ≠ ProviderApplicationRelay) (ors_attempts sel)) as Hturn.
  { intros l [e|] Hl; unfold try_configured_turn; [|done].
    destruct (check _ in select_last _) as [m|] eqn:E; [|done]. intros [= <-].
    apply check_ok in E as [_ E]. by eapply Hlast. }
  assert (Forall (λ t, ora_carrier t ≠ ProviderApplicationRelay) [attempt DirectWebRtcDataChannel]) as H1
    by (by apply Forall_singleton).
  unfold select_peer_overlay_route. ok_simpl. intros (_ & _ & _ & _ & H). revert H.
  destruct (osi_direct_pair i) as [e|]; [intros [_ [= <-]]%check_ok; by apply Forall_singleton|].
  destruct order.
  - pose proof (Hturn [attempt DirectWebRtcDataChannel] (osi_configured_turn_pair i) H1) as Ht.
    unfold try_configured_turn in *. destruct (osi_configured_turn_pair i) as [e|].
    + destruct (check _ in select_last _); cbn [rbind snd] in *; [intros [= <-]; auto|done].
    + cbn [rbind]. apply Hrelay. repeat constructor; done.
  - destruct (try_peer_relay s a i _) as [x|e] eqn:E; [intros [= <-]; by eapply Hrelay|].
    destruct e; try done. intros H. apply rbind_ok in H as (o & Ho & H). apply ok_or_ok in H as ->.
    by eapply Hturn.
Qed.

Lemma selected_route_carries s a order i sel :
  select_peer_overlay_route s a order i = Ok sel →
  validate_route_attempts sel = Ok tt ∧ ∃ k, sync_route_kind sel = Ok k.
Proof.
  intros Hs. split.
  - apply each_ok. eapply Forall_impl; [by eapply select_attempts_ok|]. intros t Ht. unfold carrier_validate.
    ok_simpl. done.
  - pose proof (select_is_preferred s a order i) as Hp. rewrite Hs in Hp. symmetry in Hp.
    apply check_ok in Hp as [_ Hp]. apply take_candidate_ok in Hp. unfold sync_route_kind.
    destruct (ors_selected sel) as [e|e|r z sc e]; [| |eauto]; destruct Hp as [_ ->]; eauto.
Qed.

(** ** Properties *)

(** Draining the offline queue respects the policy of the moment: a recipient that is no
    longer a member gets nothing and loses nothing; otherwise whatever the drain adds to the
    recipient's log comes from its own pending plans and is allowed by the current policy
    (author, epoch, retention), nothing is removed, and a drain that succeeds has delivered
    every item of every pending plan. *)
Theorem sync_drain_respects_policy n calls q r p q' s' o :
  let s := store_run (local_store_new n) calls in
  drain_authorized_for_recipient q r p s = (q', s', o) →
  (r ∉ hp_authorized_recipients p → q' = q ∧ s' = s ∧ is_ok o = false) ∧
  (∀ x, x ∈ log_snapshot s' →
     x ∈ log_snapshot s ∨
     ∃ l i, l ∈ default [] (hq_pending q !! r) ∧ i ∈ hl_items l ∧ hi_entry i = x ∧ entry_allowed p i) ∧
  (∀ x, x ∈ log_snapshot s → x ∈ log_snapshot s') ∧ same_rest s s' ∧
  (∀ rep, o = Ok rep →
     hq_pending q' = delete r (hq_pending q) ∧
     hr_plans_applied rep = length (default [] (hq_pending q !! r)) ∧
     ∀ l i, l ∈ default [] (hq_pending q !! r) → i ∈ hl_items l → hi_entry i ∈ log_snapshot s').
Proof.
  intros s. destruct (store_run_wf _ calls (local_store_new_wf n)) as [[Hw _ _ _] _]. fold s in Hw.
  unfold drain_authorized_for_recipient. destruct (validate_recipient p r) as [[]|e] eqn:E.
  - revert E. unfold validate_recipient. ok_simpl. intros [_ Hr].
    destruct (drain_loop p _ _ s) as [s1 o1] eqn:Ed. intros [= <- <- <-].
    apply drain_loop_spec in Ed as (Hw' & Hrest & Hmono & Hsub & Hok); [|done].
    setoid_rewrite in_snapshot; [|done..]. split_and!; try done.
    intros rep Hrep. destruct (Hok rep Hrep). done.
  - intros [= <- <- <-]. split_and!; try done. by left.
Qed.

(** The offline queue stays within its limit and files every plan under its recipient:
    after any enqueues and drains it holds at most the configured number of plans, each of
    them well-formed, and it accepts a plan exactly when the plan is well-formed and there is
    room. *)
Theorem sync_queue_is_bounded n calls :
  let q := queue_run (sync_queue_new n) calls in
  (queue_len q ≤ n `max` 1)%nat ∧
  (∀ r ls l, hq_pending q !! r = Some ls → l ∈ ls →
     hl_recipient_member_id l = r ∧ validate_plan_shape l = Ok tt) ∧
  ∀ l, is_ok (sync_enqueue q l).2 = true ↔
    validate_plan_shape l = Ok tt ∧ (queue_len q < n `max` 1)%nat.
Proof.
  intros q. pose proof (sync_queue_run_wf n calls) as [Hmax Hb Hf]. fold q in Hmax, Hb, Hf.
  split_and!; [done..|]. intros l. by rewrite sync_enqueue_ok, Hmax.
Qed.

(** C38. History sync delivers a whole log: when a route was selected, the recipient is a
    member, the policy allows every entry of the sender's log and no entry conflicts with the
    recipient's, then a plan for the log is built, the queue accepts it when it has room, and
    applying it leaves the recipient with exactly the union of both logs. *)
Theorem history_sync_delivers_the_log n m ca cb s0 a0 order i sel p recipient created :
  let a := store_run (local_store_new n) ca in
  let b := store_run (local_store_new m) cb in
  let items := (λ e, {| hi_entry := e; hi_created_at_ms := created e |}) <$> log_snapshot b in
  select_peer_overlay_route s0 a0 order i = Ok sel →
  validate_recipient p recipient = Ok tt → items ≠ [] → Forall (entry_allowed p) items →
  (∀ x y, x ∈ log_snapshot a → y ∈ log_snapshot b → compatible x y) →
  ∃ l, build_history_sync_plan p recipient sel items = Ok l ∧
    (∀ q, (queue_len q < hq_max_pending_plans q)%nat → is_ok (sync_enqueue q l).2 = true) ∧
    ∃ a' rep, apply_history_sync_plan p l a = (a', Ok rep) ∧
      ∀ x, x ∈ log_snapshot a' ↔ x ∈ log_snapshot a ∨ x ∈ log_snapshot b.
Proof.
  intros a b items Hsel Hr Hne Hall Hc.
  destruct (store_run_wf _ ca (local_store_new_wf n)) as [[Hwa _ _ _] _].
  destruct (store_run_wf _ cb (local_store_new_wf m)) as [[Hwb _ _ _] _]. fold a in Hwa. fold b in Hwb.
  apply selected_route_carries in Hsel as (Hatt & k & Hk).
  set (l := {| hl_recipient_member_id := recipient; hl_route_kind := k; hl_items := items;
     hl_provider_application_relay_used := false; hl_ciphertext_only := true;
     hl_limitation := "local model history-sync evidence only; not production split-machine delivery proof" |}).
  assert (each (validate_entry p) items = Ok tt) as Heach.
  { apply each_ok. eapply Forall_impl; [done|]. intros x. apply validate_entry_ok. }
  assert (length items ≠ 0%nat) as Hlen by (by destruct items).
  assert (validate_plan_shape l = Ok tt) as Hshape.
  { unfold validate_plan_shape. simpl. revert Hr. unfold validate_recipient. ok_simpl. intros [-> _].
    done. }
  exists l. split_and!.
  - unfold build_history_sync_plan. rewrite Hr, Hatt, Hk, Heach, bool_decide_false by done.
    cbn [rbind reject_policy reject_if]. fold l. by rewrite Hshape.
  - intros q Hq. by apply sync_enqueue_ok.
  - setoid_rewrite in_snapshot in Hc; [|done..].
    destruct (merge_compatible_ok a b Hwa Hwb Hc) as (a' & rep & Hm & Hwa' & Hin & _).
    assert (plan_entries l = log_snapshot b) as He.
    { unfold plan_entries, l, items. simpl. rewrite <- list_fmap_compose. apply list_fmap_id. }
    exists a', (apply_report rep). split.
    + unfold apply_history_sync_plan. rewrite Hshape. cbn [rbind hl_recipient_member_id l].
      fold l. change (hl_recipient_member_id l) with recipient. change (hl_items l) with items.
      by rewrite Hr, Heach, He, Hm.
    + intros x. rewrite !in_snapshot by done. apply Hin.
Qed.

(** A drain that fails forgets the recipient's plans: they left the queue before the first
    one was applied, so the ones after the failing plan are neither merged nor kept. *)
Theorem failed_drain_forgets_plans q r p s q' s' e :
  validate_recipient p r = Ok tt →
  drain_authorized_for_recipient q r p s = (q', s', Err e) →
  hq_pending q' !! r = None ∧
  ∃ before l after, default [] (hq_pending q !! r) = before ++ l :: after ∧
    ∃ rep, drain_loop p before
      {| hr_plans_applied := 0; hr_entries_inserted := 0; hr_entries_duplicate := 0 |} s = (s', Ok rep) ∧
      is_ok (apply_history_sync_plan p l s').2 = false.
Proof.
  intros Hr. unfold drain_authorized_for_recipient. rewrite Hr.
  destruct (drain_loop p _ _ s) as [s1 o1] eqn:Ed. intros [= <- <- ->]. simpl.
  split; [apply lookup_delete_eq|].
  set (rep0 := {| hr_plans_applied := 0 |}) in *. clearbody rep0.
  revert rep0 s Ed. generalize (default [] (hq_pending q !! r)) as plans.
  induction plans as [|l plans IH]; intros rep0 s; simpl; [done|].
  destruct (apply_history_sync_plan p l s) as [s2 [a|e2]] eqn:Ea.
  - intros (before & l' & after & -> & rep & Hd & Hl)%IH.
    exists (l :: before), l', after. split; [done|]. exists rep. split; [|done]. simpl. by rewrite Ea.
  - intros [= -> ->]. exists [], l, plans. split; [done|]. exists rep0.
    assert (s1 = s) as ->; [|by rewrite Ea].
    unfold apply_history_sync_plan, merge_author_logs_atomic in Ea.
    destruct (check _ in check _ in each _ _); [|by injection Ea].
    destruct (merge_author_logs s _) as [c [x|x]]; by injection Ea.
Qed.

(** ** Witnesses *)

Section witnesses.
Definition ex_policy : HistorySyncPolicy := sync_policy_new 5 ["member-bob"] [1] 1000 500.

Definition ex_sync_plan (e : AuthorLogEntry) : HistorySyncPlan :=
  {| hl_recipient_member_id := "member-bob"; hl_route_kind := SyncConfiguredTurn;
     hl_items := [{| hi_entry := e; hi_created_at_ms := 400 |}];
     hl_provider_application_relay_used := false; hl_ciphertext_only := true;
     hl_limitation := "local model history-sync evidence only; not production split-machine delivery proof" |}.

(** The first plan conflicts with what the recipient has, the second does not. *)
Definition ex_queue : HistorySyncQueue :=
  {| hq_max_pending_plans := 4;
     hq_pending := {["member-bob" := [ex_sync_plan (ex_entry "phone" 1 "other");
                                      ex_sync_plan (ex_entry "laptop" 1 "m2")]]} |}.

Lemma failed_drain_forgets_plans_witness :
  let s := store_run (local_store_new 4) ex_phone in
  let r := drain_authorized_for_recipient ex_queue "member-bob" ex_policy s in
  is_ok r.2 = false ∧ hq_pending r.1.1 !! "member-bob" = None.
Proof.
  intros s r. assert (is_ok r.2 = false) as Hf by (vm_compute; reflexivity).
  split; [exact Hf|].
  destruct (drain_authorized_for_recipient ex_queue "member-bob" ex_policy s) as [[q' s'] [x|e]] eqn:E.
  - discriminate Hf.
  - unfold r. simpl.
    apply (failed_drain_forgets_plans ex_queue "member-bob" ex_policy s q' s' e); [|exact E].
    vm_compute. reflexivity.
Defined.

Definition ex_good_queue : HistorySyncQueue :=
  {| hq_max_pending_plans := 4;
     hq_pending := {["member-bob" := [ex_sync_plan (ex_entry "laptop" 1 "m2")]]} |}.

Lemma sync_drain_respects_policy_witness :
  let s := store_run (local_store_new 4) ex_phone in
  ex_entry "laptop" 1 "m2" ∈
    log_snapshot (drain_authorized_for_recipient ex_good_queue "member-bob" ex_policy s).1.2.
Proof.
  intros s.
  assert (is_ok (drain_authorized_for_recipient ex_good_queue "member-bob" ex_policy s).2 = true) as Hok
    by (vm_compute; reflexivity).
  destruct (drain_authorized_for_recipient ex_good_queue "member-bob" ex_policy s) as [[q' s'] o] eqn:E.
  destruct (sync_drain_respects_policy 4 ex_phone ex_good_queue "member-bob" ex_policy q' s' o E)
    as (_ & _ & _ & _ & Hd).
  destruct o as [rep|e]; [|discriminate Hok].
  destruct (Hd rep eq_refl) as (_ & _ & Hall). simpl.
  apply (Hall (ex_sync_plan (ex_entry "laptop" 1 "m2"))
           {| hi_entry := ex_entry "laptop" 1 "m2"; hi_created_at_ms := 400 |}).
  - assert (hq_pending ex_good_queue !! "member-bob"
      = Some [ex_sync_plan (ex_entry "laptop" 1 "m2")]) as -> by (vm_compute; reflexivity).
    by left.
  - by left.
Defined.

Lemma history_sync_delivers_the_log_witness :
  let a := store_run (local_store_new 4) ex_phone in
  ∃ sel l a' rep,
    select_peer_overlay_route ex_admitted ex_auth AfterPeerRelay ex_turn_only = Ok sel ∧
    apply_history_sync_plan ex_policy l a = (a', Ok rep) ∧
    ex_entry "laptop" 1 "m2" ∈ log_snapshot a'.
Proof.
  intros a.
  destruct (select_peer_overlay_route ex_admitted ex_auth AfterPeerRelay ex_turn_only) as [sel|] eqn:E.
  2:{ exfalso. assert (is_ok (select_peer_overlay_route ex_admitted ex_auth AfterPeerRelay ex_turn_only) = true)
        as H by (vm_compute; reflexivity). rewrite E in H. discriminate H. }
  assert (log_snapshot (store_run (local_store_new 4) ex_phone) = [ex_entry "phone" 1 "m1"]) as Ea
    by (vm_compute; reflexivity).
  assert (log_snapshot (store_run (local_store_new 4) ex_laptop) = [ex_entry "laptop" 1 "m2"]) as Eb
    by (vm_compute; reflexivity).
  destruct (history_sync_delivers_the_log 4 4 ex_phone ex_laptop ex_admitted ex_auth AfterPeerRelay
    ex_turn_only sel ex_policy "member-bob" (λ _, 400) E) as (l & _ & _ & a' & rep & Happ & Hin).
  - vm_compute. reflexivity.
  - rewrite Eb. discriminate.
  - rewrite Eb. apply Forall_singleton. apply validate_entry_ok. vm_compute. reflexivity.
  - intros x y. rewrite Ea, Eb. intros ->%list_elem_of_singleton ->%list_elem_of_singleton.
    right. split; discriminate.
  - exists sel, l, a', rep. split; [reflexivity|]. split; [exact Happ|].
    apply Hin. right. rewrite Eb. by left.
Defined.
End witnesses.
