(* ===== verification/Push.v ===== *)
(** * Push wake-ups

    [crates/push/src/lib.rs]: the content-free envelope handed to the platform's push
    service and its audit for forbidden words. *)

From S2P Require Import Prelude Collections Bytes StrOps.

Inductive WakeReason := IncomingCall | SyncHint.

Record WakePayload := {
  wp_wake_token_hash : bytes;
  wp_reason : WakeReason;
  wp_nonce : bytes
}.

Inductive PushProvider := FcmAndroid.

Record PushEnvelope := {
  pe_provider : PushProvider;
  pe_token_hash : bytes;
  pe_payload : WakePayload;
  pe_collapse_key : string
}.

Definition provider_label (p : PushProvider) : string :=
  match p with FcmAndroid => "fcm-android" end.

Definition reason_label (r : WakeReason) : string :=
  match r with IncomingCall => "incoming-call" | SyncHint => "sync-hint" end.

Definition provider_visible_bytes (e : PushEnvelope) : bytes :=
  as_bytes (provider_label (pe_provider e)) ++ pe_token_hash e
  ++ wp_wake_token_hash (pe_payload e) ++ wp_nonce (pe_payload e)
  ++ as_bytes (pe_collapse_key e) ++ as_bytes (reason_label (wp_reason (pe_payload e))).

Inductive PushError := ContainsContent.

Record AndroidWakeService := { ws_provider : PushProvider }.

Definition AndroidWakeService_default : AndroidWakeService := {| ws_provider := FcmAndroid |}.

Definition contains_forbidden_token (e : PushEnvelope) (forbidden : list bytes) : bool :=
  existsb (λ needle, negb (bool_decide (needle = []))
                     && has_window needle (provider_visible_bytes e)) forbidden.

Definition FORBIDDEN_WORDS : list bytes := as_bytes <$> ["room"; "alice"; "message"; "plaintext"]%string.

Definition build_envelope (s : AndroidWakeService) (token_hash : bytes) (p : WakePayload) :
    result PushEnvelope PushError :=
  let e := {| pe_provider := ws_provider s; pe_token_hash := token_hash; pe_payload := p;
              pe_collapse_key := "discrypt-wake" |} in
  check reject_if (contains_forbidden_token e FORBIDDEN_WORDS) ContainsContent in
  Ok e.

Definition contains_content (p : WakePayload) : bool := false.

(** ** Properties *)

(** A wake-up envelope carries nothing but its own fields: it is built exactly when none
    of the audited words occurs anywhere in the bytes the provider sees, and those bytes are
    the provider label, the two token hashes, the nonce, the fixed collapse key and the
    reason, so two wake-ups for the same token and reason differ only in their nonce. *)
Theorem wake_envelope_is_content_free s token_hash p :
  let e := {| pe_provider := ws_provider s; pe_token_hash := token_hash; pe_payload := p;
              pe_collapse_key := "discrypt-wake" |} in
  (is_ok (build_envelope s token_hash p) = true ↔
     ∀ w, w ∈ ["room"; "alice"; "message"; "plaintext"]%string →
       ¬ ∃ pre post, provider_visible_bytes e = pre ++ as_bytes w ++ post) ∧
  (∀ x, build_envelope s token_hash p = Ok x → x = e) ∧
  ∀ n x y, build_envelope s token_hash p = Ok x →
    build_envelope s token_hash {| wp_wake_token_hash := wp_wake_token_hash p;
                                   wp_reason := wp_reason p; wp_nonce := n |} = Ok y →
    length n = length (wp_nonce p) →
    ∃ pre post, provider_visible_bytes x = pre ++ wp_nonce p ++ post ∧
                provider_visible_bytes y = pre ++ n ++ post.
Proof.
  intros e. unfold build_envelope. fold e. split_and!.
  - destruct (contains_forbidden_token e FORBIDDEN_WORDS) eqn:E; simpl.
    + split; [done|]. intros Hno. apply existsb_exists in E as (w & Hw & Ht).
      apply list_elem_of_In, list_elem_of_fmap in Hw as (word & -> & Hin).
      apply andb_true_iff in Ht as [_ Ht]. apply has_window_spec in Ht. by destruct (Hno word Hin).
    + split; [|done]. intros _ w Hw Hx. apply not_true_iff_false in E. apply E, existsb_exists.
      exists (as_bytes w). split.
      * apply list_elem_of_In, list_elem_of_fmap. by exists w.
      * rewrite (proj2 (has_window_spec _ _)) by done. rewrite andb_true_r.
        rewrite bool_decide_false; [done|]. clear -Hw. set_unfold in Hw. naive_solver.
  - intros x. destruct (contains_forbidden_token e FORBIDDEN_WORDS); simpl; congruence.
  - intros n x y Hx Hy _.
    assert (x = e) as -> by (destruct (contains_forbidden_token e _); simpl in Hx; congruence).
    set (e' := {| pe_provider := ws_provider s |}) in Hy.
    assert (y = e') as -> by (destruct (contains_forbidden_token e' _); simpl in Hy; congruence).
    unfold provider_visible_bytes. simpl.
    exists (as_bytes (provider_label (ws_provider s)) ++ token_hash ++ wp_wake_token_hash p),
      (as_bytes "discrypt-wake" ++ as_bytes (reason_label (wp_reason p))).
    by rewrite <- !(assoc_L (++)).
Qed.
