(* ===== verification/VoiceFanout.v ===== *)
(** * Voice media: path decisions and fan-out of protected frames

    [crates/media/src/transport.rs]: which media path a runtime uses, the microphone gate,
    the Android native contingency, and the delivery of one SFrame-protected frame to every
    destination over routes the peer overlay selected. Relayed deliveries are peer overlay
    frames whose payload is the frame's ciphertext. *)

From S2P Require Import Prelude Collections Bytes StrOps Crypto Transport IcePolicy ConnPolicy RouteGraph PeerOverlay OverlayRouting SFrame.

(** ** Path decisions *)

Inductive MediaTransportPath := WebviewEncodedTransform | NativeContingencyPath.

#[export] Instance MediaTransportPath_eq_dec : EqDecision MediaTransportPath.
Proof. solve_decision. Defined.

Inductive VoiceCaptureBackend := WebviewGetUserMedia | CaptureAndroidNative.
Inductive VoicePlaybackBackend := WebviewAudioOutput | PlaybackAndroidNative.
Inductive VoiceCodecBackend := RustLibopusRs | WebRtcRuntimeOpus.

Record WebRtcMediaPathDecision := {
  wm_platform : string;
  wm_path : MediaTransportPath;
  wm_webview_rtc_peer_connection : bool;
  wm_native_webrtc_rs_contingency : bool;
  wm_encoded_transform_required : bool;
  wm_capture_backend : VoiceCaptureBackend;
  wm_playback_backend : VoicePlaybackBackend;
  wm_codec_backend : VoiceCodecBackend;
  wm_rust_sframe_key_owner : bool;
  wm_js_raw_key_export_allowed : bool
}.

(** [str::eq_ignore_ascii_case] *)
Definition eq_ignore_ascii_case (a b : string) : bool :=
  bool_decide (to_ascii_lowercase a = to_ascii_lowercase b).

Definition for_runtime (platform : string) (encoded_transform_supported : bool) :
    WebRtcMediaPathDecision :=
  if eq_ignore_ascii_case platform "android" && negb encoded_transform_supported then
    {| wm_platform := platform; wm_path := NativeContingencyPath;
       wm_webview_rtc_peer_connection := false; wm_native_webrtc_rs_contingency := true;
       wm_encoded_transform_required := false; wm_capture_backend := CaptureAndroidNative;
       wm_playback_backend := PlaybackAndroidNative; wm_codec_backend := RustLibopusRs;
       wm_rust_sframe_key_owner := true; wm_js_raw_key_export_allowed := false |}
  else
    {| wm_platform := platform; wm_path := WebviewEncodedTransform;
       wm_webview_rtc_peer_connection := true; wm_native_webrtc_rs_contingency := false;
       wm_encoded_transform_required := true; wm_capture_backend := WebviewGetUserMedia;
       wm_playback_backend := WebviewAudioOutput; wm_codec_backend := WebRtcRuntimeOpus;
       wm_rust_sframe_key_owner := true; wm_js_raw_key_export_allowed := false |}.

Definition preserves_rust_sframe_boundary (d : WebRtcMediaPathDecision) : bool :=
  wm_rust_sframe_key_owner d && negb (wm_js_raw_key_export_allowed d).

(** ** Microphone permission and devices *)

Inductive MicrophonePermissionState := MicUnknown | MicPrompt | MicGranted | MicDenied.

Definition allows_capture (p : MicrophonePermissionState) : bool :=
  match p with MicGranted => true | _ => false end.

Inductive VoiceDeviceKind := AudioInput | AudioOutput.

#[export] Instance VoiceDeviceKind_eq_dec : EqDecision VoiceDeviceKind.
Proof. solve_decision. Defined.

Record VoiceDeviceDescriptor := {
  vd_device_id : string;
  vd_label : string;
  vd_kind : VoiceDeviceKind
}.

Definition normalize_device_field (value fallback : string) : string :=
  let trimmed := trim value in
  if bool_decide (trimmed = ""%string) then fallback
  else string_of_bytes (take_chars 160 (as_bytes trimmed)).

Definition device_descriptor_new (device_id label : string) (kind : VoiceDeviceKind) :
    VoiceDeviceDescriptor :=
  {| vd_device_id := normalize_device_field device_id "default";
     vd_label := normalize_device_field label
       match kind with AudioInput => "Default microphone" | AudioOutput => "Default speaker" end;
     vd_kind := kind |}.

Record VoiceDeviceSelection := {
  vs_microphone_permission : MicrophonePermissionState;
  vs_input_device : option VoiceDeviceDescriptor;
  vs_output_device : option VoiceDeviceDescriptor
}.

Definition selection_denied : VoiceDeviceSelection :=
  {| vs_microphone_permission := MicDenied; vs_input_device := None; vs_output_device := None |}.

Definition can_join_voice (v : VoiceDeviceSelection) : bool :=
  allows_capture (vs_microphone_permission v)
  && match vs_input_device v with
     | Some d => bool_decide (vd_kind d = AudioInput)
     | None => false
     end.

Definition voice_status_copy (v : VoiceDeviceSelection) : string :=
  if negb (allows_capture (vs_microphone_permission v)) then
    "Microphone permission denied; voice was not joined and no capture is running"
  else
    match vs_input_device v, vs_output_device v with
    | Some i, Some o =>
        "Microphone capture authorized using " +:+ vd_label i +:+ " and playback routed to "
        +:+ vd_label o
    | Some i, None =>
        "Microphone capture authorized using " +:+ vd_label i
        +:+ "; output device is the system default"
    | None, _ =>
        "Microphone permission granted but no input device was selected; voice was not joined"
    end.

(** ** The Android contingency *)

Record AndroidVoiceContingency := {
  av_platform : string;
  av_encoded_transform_supported : bool
}.

Inductive NativeWebRtcRsContingencyError :=
| UnsupportedRuntime
| CaptureNotAllowed
| MissingIceServer
| InvalidIceServer (server : string).

Record NativeWebRtcRsContingency := {
  nw_path : MediaTransportPath;
  nw_ice_servers : list string;
  nw_voice_selection : VoiceDeviceSelection;
  nw_rust_sframe_required : bool;
  nw_native_capture_required : bool;
  nw_native_playback_required : bool;
  nw_status_copy : string
}.

Definition media_path_decision (c : AndroidVoiceContingency) : WebRtcMediaPathDecision :=
  for_runtime (av_platform c) (av_encoded_transform_supported c).

Definition requires_native_contingency (c : AndroidVoiceContingency) : bool :=
  eq_ignore_ascii_case (av_platform c) "android" && negb (av_encoded_transform_supported c).

Definition selected_path (c : AndroidVoiceContingency) : MediaTransportPath :=
  if requires_native_contingency c then NativeContingencyPath else WebviewEncodedTransform.

(** [Vec::dedup]: drops an element equal to the one kept before it. *)
Fixpoint dedup (l : list string) : list string :=
  match l with
  | x :: (y :: _) as rest => if bool_decide (x = y) then dedup rest else x :: dedup rest
  | _ => l
  end.

Definition ice_scheme_ok (server : string) : bool :=
  starts_with "stun:" server || starts_with "stuns:" server
  || starts_with "turn:" server || starts_with "turns:" server.

Definition sanitize_ice_servers (servers : list string) :
    result (list string) NativeWebRtcRsContingencyError :=
  let sanitized := dedup (sort_by key_cmp (filter (λ s, s ≠ ""%string) (trim <$> servers))) in
  check reject_if (bool_decide (sanitized = [])) MissingIceServer in
  check each (λ s, reject_if (negb (ice_scheme_ok s)) (InvalidIceServer s)) sanitized in
  Ok sanitized.

Definition contingency_android (servers : list string) (v : VoiceDeviceSelection) :
    result NativeWebRtcRsContingency NativeWebRtcRsContingencyError :=
  check reject_if (negb (can_join_voice v)) CaptureNotAllowed in
  let* sanitized := sanitize_ice_servers servers in
  Ok {| nw_path := NativeContingencyPath; nw_ice_servers := sanitized; nw_voice_selection := v;
        nw_rust_sframe_required := true; nw_native_capture_required := true;
        nw_native_playback_required := true;
        nw_status_copy :=
          "Android native WebRTC media path selected because webview encoded transforms are unavailable; Rust Opus/SFrame remains mandatory" |}.

Definition native_plan (c : AndroidVoiceContingency) (servers : list string)
    (v : VoiceDeviceSelection) :
    result (option NativeWebRtcRsContingency) NativeWebRtcRsContingencyError :=
  if negb (requires_native_contingency c) then Ok None
  else rmap Some (contingency_android servers v).

Definition ready_for_protected_media (n : NativeWebRtcRsContingency) : bool :=
  bool_decide (nw_path n = NativeContingencyPath) && nw_rust_sframe_required n
  && nw_native_capture_required n && nw_native_playback_required n
  && negb (bool_decide (nw_ice_servers n = [])) && can_join_voice (nw_voice_selection n).

(** ** Fan-out of one protected frame *)

Inductive VoiceFanoutRouteKind := FanDirect | FanConfiguredTurn | FanPeerAssisted.

#[export] Instance VoiceFanoutRouteKind_eq_dec : EqDecision VoiceFanoutRouteKind.
Proof. solve_decision. Defined.

Record VoiceFanoutDelivery := {
  vy_destination : PeerOverlayPeerRef;
  vy_route_kind : VoiceFanoutRouteKind;
  vy_route_label : string;
  vy_protected_frame : BridgeProtectedFrame;
  vy_overlay_forwarding : option PeerOverlayForwardingPlan;
  vy_provider_application_relay_used : bool;
  vy_decrypt_path_exposed : bool;
  vy_relay_observed_ciphertext_only : bool
}.

Record VoiceOverlayFanoutInput := {
  vi_source : PeerOverlayPeerRef;
  vi_protected_frame : BridgeProtectedFrame;
  vi_route_selections : list PeerOverlayRouteSelection;
  vi_auth : PeerOverlayAuth;
  vi_delivery : PeerOverlayDelivery;
  vi_ttl : PeerOverlayTtl;
  vi_loop_id : bytes;
  vi_forbidden_markers : list bytes
}.

Record VoiceOverlayFanoutPlan := {
  vp_source : PeerOverlayPeerRef;
  vp_deliveries : list VoiceFanoutDelivery;
  vp_direct_or_turn_present : bool;
  vp_peer_relay_present : bool;
  vp_provider_application_relay_used : bool;
  vp_limitation : string
}.

Definition media_transport_error (e : TransportError) : MediaError :=
  MediaTransportFailed (transport_error_text e).

(** [.map_err(media_transport_error)] *)
Abbreviation via_transport := (map_err media_transport_error).

Definition validate_route_leg (s : PeerOverlayAdmittedSet) (e : PeerOverlayRouteLegEvidence)
    (from to : PeerOverlayPeerRef) (expected : PeerOverlayCarrier) (label : string) :
    result unit TransportError :=
  check validate_ref s (ole_from e) in
  check validate_ref s (ole_to e) in
  check carrier_validate (ole_carrier e) in
  check reject_policy
    (bool_decide (trim (ole_route_label e) = ""%string)
     || negb (bool_decide (trim (ole_route_label e) = ole_route_label e)))
    (label +:+ " must have a non-empty trimmed route label") in
  check reject_policy
    (negb (bool_decide (ole_from e = from)) || negb (bool_decide (ole_to e = to)))
    (label +:+ " must bind the expected peer pair") in
  check reject_policy (negb (bool_decide (ole_carrier e = expected)))
    (label +:+ " carrier does not match route selection") in
  reject_policy (negb (ole_live e)) (label +:+ " must be backed by a live route").

Definition voice_relay_leg (s : PeerOverlayAdmittedSet) (e : PeerOverlayRouteLegEvidence)
    (from to : PeerOverlayPeerRef) (label : string) : result unit TransportError :=
  check reject_policy
    (match ole_carrier e with PeerAssistedOverlay | ProviderApplicationRelay => true | _ => false end)
    (label +:+ " must use a direct or configured TURN WebRTC leg") in
  validate_route_leg s e from to (ole_carrier e) label.

Definition validate_relay_route_evidence (s : PeerOverlayAdmittedSet) (source : PeerOverlayPeerRef)
    (e : PeerOverlayRelayRouteEvidence) : result unit TransportError :=
  check validate_ref s (ore_relay e) in
  check reject_policy
    (bool_decide (ovp_peer_id (ore_relay e) = ovp_peer_id source)
     || bool_decide (ovp_peer_id (ore_relay e) = ovp_peer_id (ole_to (ore_relay_to_destination e))))
    "voice overlay relay cannot be source or destination" in
  check voice_relay_leg s (ore_source_to_relay e) source (ore_relay e)
    "voice overlay source-to-relay route evidence" in
  voice_relay_leg s (ore_relay_to_destination e) (ore_relay e) (ole_to (ore_relay_to_destination e))
    "voice overlay relay-to-destination route evidence".

Definition direct_delivery (s : PeerOverlayAdmittedSet) (source : PeerOverlayPeerRef)
    (frame : BridgeProtectedFrame) (e : PeerOverlayRouteLegEvidence) (kind : VoiceFanoutRouteKind)
    (expected : PeerOverlayCarrier) : result VoiceFanoutDelivery MediaError :=
  check via_transport (validate_route_leg s e source (ole_to e) expected
    "voice overlay direct fanout route evidence") in
  Ok {| vy_destination := ole_to e; vy_route_kind := kind; vy_route_label := ole_route_label e;
        vy_protected_frame := frame; vy_overlay_forwarding := None;
        vy_provider_application_relay_used := false; vy_decrypt_path_exposed := false;
        vy_relay_observed_ciphertext_only := true |}.

Section fanout.
Context `{Sha256}.

Definition commitment_input (f : BridgeProtectedFrame) : bytes :=
  as_bytes "discrypt-voice-overlay-fanout-v1" ++ be_u64 (len (bp_kid f)) ++ bp_kid f
  ++ be_u64 (bp_counter f) ++ be_u64 (len (bp_bytes f)) ++ bp_bytes f.

Definition voice_frame_aad_commitment (f : BridgeProtectedFrame) : bytes :=
  sha256 (commitment_input f).

Definition voice_overlay_frame (i : VoiceOverlayFanoutInput) (relay destination : PeerOverlayPeerRef) :
    PeerOverlayFrame :=
  overlay_frame_new PeerAssistedOverlay
    {| ovr_source := vi_source i; ovr_relay_path := [relay]; ovr_destination := destination;
       ovr_ttl := vi_ttl i; ovr_loop_id := vi_loop_id i |}
    (vi_auth i) (vi_delivery i)
    {| ovo_kind := PoMedia; ovo_key_id := bp_kid (vi_protected_frame i);
       ovo_sequence := bp_counter (vi_protected_frame i);
       ovo_aad_commitment := voice_frame_aad_commitment (vi_protected_frame i);
       ovo_opaque_ciphertext := bp_bytes (vi_protected_frame i) |}.

Definition delivery_for_selection (s : PeerOverlayAdmittedSet) (t : PeerOverlayRelayAuthoritySet)
    (p : PeerOverlayForwardingPolicy) (i : VoiceOverlayFanoutInput)
    (sel : PeerOverlayRouteSelection) : result VoiceFanoutDelivery MediaError :=
  match ors_selected sel with
  | SelDirectWebRtc e =>
      direct_delivery s (vi_source i) (vi_protected_frame i) e FanDirect DirectWebRtcDataChannel
  | SelConfiguredTurn e =>
      direct_delivery s (vi_source i) (vi_protected_frame i) e FanConfiguredTurn
        ConfiguredTurnBackedWebRtc
  | SelPeerAssisted relay _ _ e =>
      let* _z := via_transport (authorize_relay t relay (vi_auth i)) in
      check via_transport (validate_relay_route_evidence s (vi_source i) e) in
      check reject_if (negb (bool_decide (ore_relay e = relay)))
        (MediaTransportFailed "voice overlay fanout relay selection and route evidence differ") in
      let destination := ole_to (ore_relay_to_destination e) in
      let* forwarding := via_transport
        (build_peer_overlay_forwarding_plan s t p (voice_overlay_frame i relay destination)) in
      Ok {| vy_destination := destination; vy_route_kind := FanPeerAssisted;
            vy_route_label := ole_route_label (ore_relay_to_destination e);
            vy_protected_frame := vi_protected_frame i;
            vy_overlay_forwarding := Some forwarding;
            vy_provider_application_relay_used := false; vy_decrypt_path_exposed := false;
            vy_relay_observed_ciphertext_only :=
              forallb (λ h,
                negb (ofl_decrypt_path_exposed forwarding)
                && bool_decide (ofh_payload_kind h = PoMedia)
                && has_window (bp_bytes (vi_protected_frame i)) (ofh_relay_visible_bytes h))
                (ofl_hops forwarding) |}
  end.

(** The loop over the selections, [seen] being [seen_destinations]. *)
Fixpoint fanout_loop (s : PeerOverlayAdmittedSet) (t : PeerOverlayRelayAuthoritySet)
    (p : PeerOverlayForwardingPolicy) (i : VoiceOverlayFanoutInput) (seen : gset string)
    (l : list PeerOverlayRouteSelection) : result (list VoiceFanoutDelivery) MediaError :=
  match l with
  | [] => Ok []
  | sel :: rest =>
      let* d := delivery_for_selection s t p i sel in
      check reject_if (bool_decide (ovp_peer_id (vy_destination d) ∈ seen))
        (MediaTransportFailed "voice overlay fanout destination routes must be unique") in
      let* ds := fanout_loop s t p i ({[ovp_peer_id (vy_destination d)]} ∪ seen) rest in
      Ok (d :: ds)
  end.

Definition fanout_gate (s : PeerOverlayAdmittedSet) (i : VoiceOverlayFanoutInput) :
    result unit MediaError :=
  check via_transport (validate_ref s (vi_source i)) in
  check via_transport (auth_validate s (vi_auth i)) in
  check via_transport (overlay_delivery_validate (vi_ttl i) (vi_delivery i)) in
  check reject_if (negb (bool_decide (ovy_ack_mode (vi_delivery i) = AckRequired)))
    (MediaTransportFailed "voice overlay fanout requires destination acknowledgements") in
  reject_if (bool_decide (length (vi_route_selections i) = 0%nat))
    (MediaTransportFailed "voice overlay fanout requires at least one route selection").

Definition fanout_policy (i : VoiceOverlayFanoutInput) : PeerOverlayForwardingPolicy :=
  {| ofp_carrier := PeerAssistedOverlay; ofp_forbidden_markers := vi_forbidden_markers i |}.

Definition is_direct_or_turn (d : VoiceFanoutDelivery) : bool :=
  match vy_route_kind d with FanDirect | FanConfiguredTurn => true | FanPeerAssisted => false end.

Definition build_voice_overlay_fanout (s : PeerOverlayAdmittedSet)
    (t : PeerOverlayRelayAuthoritySet) (i : VoiceOverlayFanoutInput) :
    result VoiceOverlayFanoutPlan MediaError :=
  check fanout_gate s i in
  let* deliveries := fanout_loop s t (fanout_policy i) i ∅ (vi_route_selections i) in
  Ok {| vp_source := vi_source i; vp_deliveries := deliveries;
        vp_direct_or_turn_present := existsb is_direct_or_turn deliveries;
        vp_peer_relay_present :=
          existsb (λ d, bool_decide (vy_route_kind d = FanPeerAssisted)) deliveries;
        vp_provider_application_relay_used := false;
        vp_limitation :=
          "local 3-member media fanout harness/model evidence only; not split-machine production audio" |}.

End fanout.

(** ** Lemmas: sanitized endpoint lists *)

Lemma elem_of_dedup x l : x ∈ dedup l ↔ x ∈ l.
Proof.
  induction l as [|y [|z l] IH]; [done..|].
  change (dedup (y :: z :: l)) with (if bool_decide (y = z) then dedup (z :: l) else y :: dedup (z :: l)).
  case_bool_decide as Hy; [subst|]; rewrite ?elem_of_cons, IH; set_solver.
Qed.

(** Deduplicating a sorted list leaves a strictly increasing one. *)
Lemma dedup_sorted l :
  StronglySorted (cmp_le (key_cmp (K := string))) l →
  StronglySorted (λ x y, key_cmp x y = Lt) (dedup l).
Proof.
  induction 1 as [|y l Hs IH Hy]; [constructor|]. destruct l as [|z l]; [repeat constructor|].
  change (dedup (y :: z :: l)) with (if bool_decide (y = z) then dedup (z :: l) else y :: dedup (z :: l)).
  case_bool_decide as Hyz; [done|]. constructor; [done|]. rewrite Forall_forall in *.
  pose proof Hy as Hyle. intros x Hx. rewrite elem_of_dedup in Hx. specialize (Hy x Hx). unfold cmp_le in Hy.
  destruct (key_cmp y x) eqn:E; [|done..]. apply (cmp_eq (cmp := key_cmp)) in E. subst x.
  apply elem_of_cons in Hx as [->|Hx]; [done|]. exfalso. apply Hyz.
  apply StronglySorted_inv in Hs as [_ Hz]. rewrite Forall_forall in Hz. specialize (Hz y Hx).
  specialize (Hyle z ltac:(by left)). unfold cmp_le in *.
  rewrite (cmp_antisym key_cmp) in Hz. apply (cmp_eq (cmp := key_cmp)).
  by destruct (key_cmp y z).
Qed.

Lemma sanitize_ok l out :
  sanitize_ice_servers l = Ok out →
  StronglySorted (λ x y, key_cmp x y = Lt) out ∧ out ≠ [] ∧
  Forall (λ s, ice_scheme_ok s = true) out ∧
  ∀ s, s ∈ out ↔ s ≠ ""%string ∧ ∃ x, x ∈ l ∧ s = trim x.
Proof.
  unfold sanitize_ice_servers. cbv zeta.
  set (k := sort_by key_cmp (filter (λ s, s ≠ ""%string) (trim <$> l))).
  rewrite check_ok, reject_if_ok, bool_decide_eq_false, check_ok, each_ok.
  intros (Hne & Hall & [= <-]). split_and!.
  - apply dedup_sorted, sort_by_sorted, _.
  - done.
  - eapply Forall_impl; [exact Hall|]. intros s Hs. simpl in Hs.
    apply reject_if_ok in Hs. by destruct (ice_scheme_ok s).
  - intros s. unfold k. rewrite elem_of_dedup, elem_of_sort_by, list_elem_of_filter, list_elem_of_fmap.
    naive_solver.
Qed.

(** ** Lemmas: deliveries *)

Definition label_ok (label : string) : Prop := trim label ≠ ""%string ∧ trim label = label.

Lemma validate_route_leg_ok s e from to c label :
  (c = DirectWebRtcDataChannel ∨ c = ConfiguredTurnBackedWebRtc) →
  validate_route_leg s e from to c label = Ok tt ↔
  leg_ok s from to e ∧ ole_carrier e = c ∧ label_ok (ole_route_label e).
Proof.
  intros Hc. unfold validate_route_leg, leg_ok, label_ok, carrier_validate. ok_simpl. split.
  - intros (? & ? & _ & [? ?] & [<- <-] & -> & ?). done.
  - intros ((<- & <- & ? & ? & ? & ?) & -> & ? & ?). split_and!; try done.
    by destruct Hc as [->| ->].
Qed.

Lemma voice_relay_leg_ok s e from to label :
  voice_relay_leg s e from to label = Ok tt ↔ leg_ok s from to e ∧ label_ok (ole_route_label e).
Proof.
  unfold voice_relay_leg. ok_simpl. split.
  - intros [Hc Hl]. apply validate_route_leg_ok in Hl; [naive_solver|].
    destruct (ole_carrier e); naive_solver.
  - intros [Hl Hlab]. pose proof Hl as (_ & _ & _ & Hc & _). split.
    + by destruct Hc as [-> | ->].
    + by apply validate_route_leg_ok.
Qed.

(** A relay's two legs, over a peer that is neither end. *)
Definition relay_legs_ok (s : PeerOverlayAdmittedSet) (source relay : PeerOverlayPeerRef)
    (e : PeerOverlayRelayRouteEvidence) : Prop :=
  ore_relay e = relay ∧ ovp_peer_id relay ≠ ovp_peer_id source ∧
  ovp_peer_id relay ≠ ovp_peer_id (ole_to (ore_relay_to_destination e)) ∧
  leg_ok s source relay (ore_source_to_relay e) ∧
  leg_ok s relay (ole_to (ore_relay_to_destination e)) (ore_relay_to_destination e) ∧
  label_ok (ole_route_label (ore_source_to_relay e)) ∧
  label_ok (ole_route_label (ore_relay_to_destination e)).

Lemma validate_relay_route_evidence_ok s source e :
  validate_relay_route_evidence s source e = Ok tt ↔ relay_legs_ok s source (ore_relay e) e.
Proof.
  unfold validate_relay_route_evidence, relay_legs_ok. ok_simpl. rewrite !voice_relay_leg_ok.
  split; [naive_solver|]. intros (_ & ? & ? & Hs & ? & ? & ?).
  pose proof Hs as (_ & _ & _ & _ & _ & ?). done.
Qed.

(** The selector's label check is the stricter one. *)
Lemma validate_label_ok value label : validate_label value label = Ok tt → label_ok value.
Proof.
  unfold validate_label, overlay_bad_label, label_ok, is_blank. ok_simpl. naive_solver.
Qed.

Definition legs_of (r : PeerOverlaySelectedRoute) : list PeerOverlayRouteLegEvidence :=
  match r with
  | SelDirectWebRtc e | SelConfiguredTurn e => [e]
  | SelPeerAssisted _ _ _ e => [ore_source_to_relay e; ore_relay_to_destination e]
  end.

Lemma selected_labels_ok s a order i sel :
  select_peer_overlay_route s a order i = Ok sel →
  Forall (λ e, label_ok (ole_route_label e)) (legs_of (ors_selected sel)).
Proof.
  intros Hs%route_selection_taken. revert Hs.
  destruct (preferred order i) as [e|e|k|]; cbn [take_candidate].
  1,2: unfold validate_pair; ok_simpl; intros [(_ & _ & _ & Hl & _) [= <-]];
    apply Forall_singleton; by eapply validate_label_ok.
  - ok_simpl. intros (_ & _ & _ & Hd). apply rbind_ok in Hd as (e & _ & Hd).
    revert Hd. unfold relay_route_validate_for, validate_relay_leg. ok_simpl.
    intros [(_ & _ & (_ & _ & _ & H1 & _) & (_ & _ & _ & H2 & _) & _) [= <-]].
    repeat constructor; simpl; by eapply validate_label_ok.
  - done.
Qed.

Section fanout_lemmas.
Context `{Sha256}.

(** Every hop of a relayed frame shows the relay the protected bytes, as media. *)
Lemma voice_hops_protected i relay destination h :
  h ∈ hops_of (voice_overlay_frame i relay destination) 0
        (route_peers (ovf_route (voice_overlay_frame i relay destination))) →
  ofh_payload_kind h = PoMedia ∧
  has_window (bp_bytes (vi_protected_frame i)) (ofh_relay_visible_bytes h) = true.
Proof.
  intros Hh. set (f := voice_overlay_frame i relay destination) in *.
  assert (∃ j a b, h = hop_of f j a b) as (j & a & b & ->).
  { unfold route_peers in Hh. simpl in Hh. set_unfold in Hh. naive_solver. }
  split; [done|]. apply has_window_spec. cbn [hop_of ofh_relay_visible_bytes].
  unfold overlay_visible_bytes. set (p := ovf_payload f).
  exists (as_bytes (payload_kind_label (ovo_kind p)) ++ be_u64 (len (ovo_key_id p)) ++ ovo_key_id p
          ++ be_u64 (ovo_sequence p) ++ ovo_aad_commitment p), [].
  change (bp_bytes (vi_protected_frame i)) with (ovo_opaque_ciphertext p). clearbody p.
  by rewrite app_nil_r, <- !(assoc_L (++)).
Qed.

(** The delivery a selection gives when it is accepted. *)
Definition relayed_delivery (i : VoiceOverlayFanoutInput) (relay : PeerOverlayPeerRef)
    (e : PeerOverlayRelayRouteEvidence) (zs : list PeerOverlayRelayAuthorization) :
    VoiceFanoutDelivery :=
  let destination := ole_to (ore_relay_to_destination e) in
  {| vy_destination := destination; vy_route_kind := FanPeerAssisted;
     vy_route_label := ole_route_label (ore_relay_to_destination e);
     vy_protected_frame := vi_protected_frame i;
     vy_overlay_forwarding := Some (plan_of (voice_overlay_frame i relay destination) zs);
     vy_provider_application_relay_used := false; vy_decrypt_path_exposed := false;
     vy_relay_observed_ciphertext_only := true |}.

Definition direct_of (i : VoiceOverlayFanoutInput) (e : PeerOverlayRouteLegEvidence)
    (kind : VoiceFanoutRouteKind) : VoiceFanoutDelivery :=
  {| vy_destination := ole_to e; vy_route_kind := kind; vy_route_label := ole_route_label e;
     vy_protected_frame := vi_protected_frame i; vy_overlay_forwarding := None;
     vy_provider_application_relay_used := false; vy_decrypt_path_exposed := false;
     vy_relay_observed_ciphertext_only := true |}.

(** When a selection is delivered, and how. *)
Definition delivered (s : PeerOverlayAdmittedSet) (t : PeerOverlayRelayAuthoritySet)
    (i : VoiceOverlayFanoutInput) (sel : PeerOverlayRouteSelection) (d : VoiceFanoutDelivery) :
    Prop :=
  match ors_selected sel with
  | SelDirectWebRtc e =>
      leg_ok s (vi_source i) (ole_to e) e ∧ ole_carrier e = DirectWebRtcDataChannel ∧
      label_ok (ole_route_label e) ∧ d = direct_of i e FanDirect
  | SelConfiguredTurn e =>
      leg_ok s (vi_source i) (ole_to e) e ∧ ole_carrier e = ConfiguredTurnBackedWebRtc ∧
      label_ok (ole_route_label e) ∧ d = direct_of i e FanConfiguredTurn
  | SelPeerAssisted relay _ _ e =>
      relay_legs_ok s (vi_source i) relay e ∧
      ∃ zs, forwardable s t (fanout_policy i)
              (voice_overlay_frame i relay (ole_to (ore_relay_to_destination e))) zs ∧
            d = relayed_delivery i relay e zs
  end.

Lemma forwardable_authorizes s t p i relay destination zs :
  forwardable s t p (voice_overlay_frame i relay destination) zs →
  ∃ z, authorize_relay t relay (vi_auth i) = Ok z.
Proof.
  intros (_ & _ & _ & Hz & _). revert Hz. unfold validate_relay_authorized, validate_route_authority.
  ok_simpl. intros [_ Hz]. apply try_map_ok in Hz. simpl in Hz.
  apply Forall2_cons_inv_l in Hz as (z & ? & Hz & _). apply rbind_ok in Hz as (z' & Hz & _). eauto.
Qed.

Lemma delivery_for_selection_ok s t i sel d :
  delivery_for_selection s t (fanout_policy i) i sel = Ok d ↔ delivered s t i sel d.
Proof.
  unfold delivery_for_selection, delivered, direct_delivery.
  destruct (ors_selected sel) as [e|e|relay z score e].
  1,2: rewrite check_ok, map_err_ok, validate_route_leg_ok by auto; unfold direct_of; naive_solver.
  cbv zeta. rewrite rbind_ok. setoid_rewrite map_err_ok. split.
  - intros (z' & Hz & Hd). apply check_ok in Hd as [Hev Hd]. apply check_ok in Hd as [Hr Hd].
    apply reject_if_ok, negb_false_iff, bool_decide_eq_true in Hr. subst relay.
    apply map_err_ok, validate_relay_route_evidence_ok in Hev.
    apply rbind_ok in Hd as (fwd & Hf & [= <-]).
    apply map_err_ok, forwarding_plan_ok in Hf as (zs & Hzs & ->).
    split; [done|]. exists zs. split; [done|]. unfold relayed_delivery. f_equal.
    apply forallb_forall. intros h Hh%list_elem_of_In. simpl.
    apply voice_hops_protected in Hh as [-> ->]. done.
  - intros (Hlegs & zs & Hzs & ->).
    destruct (forwardable_authorizes _ _ _ _ _ _ _ Hzs) as [z' Hz']. exists z'. split; [done|].
    pose proof Hlegs as [Hr _]. subst relay. apply check_ok.
    rewrite map_err_ok, validate_relay_route_evidence_ok. split; [exact Hlegs|].
    rewrite bool_decide_true by done. cbn [negb reject_if rbind].
    rewrite (proj2 (forwarding_plan_ok _ _ _ _ _) (ex_intro _ zs (conj Hzs eq_refl))).
    cbn [map_err rbind]. unfold relayed_delivery. do 2 f_equal.
    apply forallb_forall. intros h Hh%list_elem_of_In. simpl.
    apply voice_hops_protected in Hh as [-> ->]. done.
Qed.

Lemma fanout_loop_ok s t i seen l ds :
  fanout_loop s t (fanout_policy i) i seen l = Ok ds ↔
  Forall2 (delivered s t i) l ds ∧ NoDup ((λ d, ovp_peer_id (vy_destination d)) <$> ds) ∧
  Forall (λ d, ovp_peer_id (vy_destination d) ∉ seen) ds.
Proof.
  revert seen ds. induction l as [|sel l IH]; intros seen ds; cbn [fanout_loop].
  { split; [intros [= <-]; split_and!; constructor|by intros [->%Forall2_nil_inv_l _]]. }
  rewrite rbind_ok. setoid_rewrite delivery_for_selection_ok. split.
  - intros (d & Hd & H'). apply check_ok in H' as [Hf H']. apply reject_if_ok, bool_decide_eq_false in Hf.
    apply rbind_ok in H' as (ds' & Hl & [= <-]). apply IH in Hl as (Hall & Hnd & Hseen).
    rewrite Forall_forall in Hseen. split_and!; [by constructor| |].
    + rewrite fmap_cons, NoDup_cons, list_elem_of_fmap. split; [|done].
      intros (x & Hx & Hin). specialize (Hseen x Hin). set_solver.
    + constructor; [done|]. apply Forall_forall. intros x Hx. specialize (Hseen x Hx). set_solver.
  - intros (Hall & Hnd & Hseen). apply Forall2_cons_inv_l in Hall as (d & ds' & Hd & Hall & ->).
    exists d. split; [done|]. apply Forall_cons in Hseen as [Hf Hseen].
    rewrite fmap_cons, NoDup_cons, list_elem_of_fmap in Hnd. destruct Hnd as [Hn Hnd].
    rewrite bool_decide_false by done. cbn [reject_if rbind].
    rewrite (proj2 (IH _ ds')); [done|]. split_and!; [done..|]. rewrite Forall_forall in *.
    intros x Hx. specialize (Hseen x Hx).
    assert (ovp_peer_id (vy_destination x) ≠ ovp_peer_id (vy_destination d)) by (intros E; apply Hn; eauto).
    set_solver.
Qed.
End fanout_lemmas.

(** ** Properties *)

Section properties.
Context `{Sha256}.

Lemma fanout_ok s t i plan :
  build_voice_overlay_fanout s t i = Ok plan →
  vp_source plan = vi_source i ∧ fanout_gate s i = Ok tt ∧
  Forall2 (delivered s t i) (vi_route_selections i) (vp_deliveries plan) ∧
  NoDup ((λ d, ovp_peer_id (vy_destination d)) <$> vp_deliveries plan) ∧
  vp_direct_or_turn_present plan = existsb is_direct_or_turn (vp_deliveries plan) ∧
  vp_peer_relay_present plan =
    existsb (λ d, bool_decide (vy_route_kind d = FanPeerAssisted)) (vp_deliveries plan).
Proof.
  unfold build_voice_overlay_fanout. rewrite check_ok. intros [Hg Hd].
  apply rbind_ok in Hd as (ds & Hl & [= <-]). apply fanout_loop_ok in Hl as (? & ? & _). done.
Qed.

(** What a relay on the way to one destination gets to see. *)
Definition relay_sees (i : VoiceOverlayFanoutInput) (d : VoiceFanoutDelivery)
    (relay : PeerOverlayPeerRef) : Prop :=
  ∃ fwd, vy_overlay_forwarding d = Some fwd ∧
    ofh_from <$> ofl_hops fwd = [vi_source i; relay] ∧
    ofh_to <$> ofl_hops fwd = [relay; vy_destination d] ∧
    Forall (λ h, ofh_payload_kind h = PoMedia ∧
      ofh_relay_visible_bytes h =
        as_bytes "media" ++ push_bytes (bp_kid (vi_protected_frame i))
        ++ be_u64 (bp_counter (vi_protected_frame i))
        ++ voice_frame_aad_commitment (vi_protected_frame i) ++ bp_bytes (vi_protected_frame i) ∧
      Forall (λ m, has_window m (ofh_relay_visible_bytes h) = false) (vi_forbidden_markers i))
      (ofl_hops fwd).

(** A voice fan-out delivers the protected frame and nothing else: an accepted plan has
    one delivery per selected route, to pairwise different admitted peers, each carrying the
    same protected frame over live direct or TURN legs between admitted peers; a relayed one
    goes over an authorized relay that is neither end, whose bytes are the key id, counter,
    commitment and ciphertext of the frame and none of the forbidden markers; its evidence
    flags never claim a provider relay or a decrypt path, and tell rightly which kinds of
    route there are. *)
Theorem voice_fanout_delivers_only_the_frame s t i plan :
  build_voice_overlay_fanout s t i = Ok plan →
  length (vp_deliveries plan) = length (vi_route_selections i) ∧
  NoDup ((λ d, ovp_peer_id (vy_destination d)) <$> vp_deliveries plan) ∧
  (vp_direct_or_turn_present plan = true ↔
     ∃ d, d ∈ vp_deliveries plan ∧ vy_route_kind d ≠ FanPeerAssisted) ∧
  (vp_peer_relay_present plan = true ↔
     ∃ d, d ∈ vp_deliveries plan ∧ vy_route_kind d = FanPeerAssisted) ∧
  Forall2 (λ sel d,
    vy_protected_frame d = vi_protected_frame i ∧ validate_ref s (vy_destination d) = Ok tt ∧
    vy_provider_application_relay_used d = false ∧ vy_decrypt_path_exposed d = false ∧
    vy_relay_observed_ciphertext_only d = true ∧
    match ors_selected sel with
    | SelDirectWebRtc e | SelConfiguredTurn e =>
        leg_ok s (vi_source i) (vy_destination d) e ∧ vy_overlay_forwarding d = None
    | SelPeerAssisted relay _ _ e =>
        ova_authorized_relays t !! ovp_peer_id relay = Some relay ∧
        NoDup (ovp_peer_id <$> [vi_source i; relay; vy_destination d]) ∧
        leg_ok s (vi_source i) relay (ore_source_to_relay e) ∧
        leg_ok s relay (vy_destination d) (ore_relay_to_destination e) ∧ relay_sees i d relay
    end) (vi_route_selections i) (vp_deliveries plan).
Proof.
  intros (_ & _ & Hall & Hnd & -> & ->)%fanout_ok. split_and!.
  - symmetry. by eapply Forall2_length.
  - done.
  - rewrite existsb_exists. setoid_rewrite <- list_elem_of_In. unfold is_direct_or_turn.
    split; intros (d & Hd & Hk); exists d; (split; [done|]); by destruct (vy_route_kind d).
  - rewrite existsb_exists. setoid_rewrite <- list_elem_of_In.
    setoid_rewrite bool_decide_eq_true. done.
  - eapply Forall2_impl; [exact Hall|]. intros sel d. unfold delivered.
    destruct (ors_selected sel) as [e|e|relay z score e].
    1,2: intros (Hl & _ & _ & ->); pose proof Hl as (_ & _ & _ & _ & _ & ?); done.
    intros (Hlegs & zs & Hf & ->). pose proof Hlegs as (_ & _ & _ & ? & Hto & _).
    pose proof Hto as (_ & _ & _ & _ & _ & Hdest).
    destruct Hf as (_ & _ & _ & Hz & _ & Hmarks).
    apply validate_relay_authorized_ok in Hz as (_ & Hr & _ & Hauth).
    apply route_validate_path in Hr as (_ & Hpath & _). simpl in Hauth. rewrite Forall_singleton in Hauth.
    split_and!; try done. eexists. split_and!; [done..|].
    repeat constructor; try done; by rewrite <- !(assoc_L (++)).
Qed.

(** Fan-out accepts what the route selector selects: for a route selected with the same
    admitted set, source and auth binding, a direct or TURN selection is always delivered to
    the selected destination, and a relay selection is delivered precisely when its overlay
    frame can be forwarded, so the two components' checks of the evidence agree. *)
Theorem selected_routes_are_delivered s t i order input sel :
  osi_source input = vi_source i →
  select_peer_overlay_route s (vi_auth i) order input = Ok sel →
  match ors_selected sel with
  | SelPeerAssisted relay _ _ _ =>
      is_ok (delivery_for_selection s t (fanout_policy i) i sel) = true ↔
      ∃ zs, forwardable s t (fanout_policy i)
              (voice_overlay_frame i relay (osi_destination input)) zs
  | _ =>
      ∃ d, delivery_for_selection s t (fanout_policy i) i sel = Ok d ∧
           vy_destination d = osi_destination input
  end.
Proof.
  intros Hsrc Hsel. pose proof (selected_labels_ok _ _ _ _ _ Hsel) as Hlab.
  apply route_selection_taken, take_candidate_ok in Hsel.
  rewrite Hsrc in Hsel. destruct (ors_selected sel) as [e|e|relay z score e] eqn:E; simpl in Hsel, Hlab;
    apply Forall_cons in Hlab as [Hlab Hlab2].
  - destruct Hsel as [Hl Hc]. pose proof Hl as (_ & Hto & _). rewrite <- Hto in *. exists (direct_of i e FanDirect).
    split; [|done]. apply delivery_for_selection_ok. unfold delivered. by rewrite E.
  - destruct Hsel as [Hl Hc]. pose proof Hl as (_ & Hto & _). rewrite <- Hto in *. exists (direct_of i e FanConfiguredTurn).
    split; [|done]. apply delivery_for_selection_ok. unfold delivered. by rewrite E.
  - destruct Hsel as (_ & Hr & Hs & Hd & Hl1 & Hl2). pose proof Hl2 as (_ & Hto & _).
    rewrite <- Hto in *. split.
    + destruct (delivery_for_selection _ _ _ _ _) as [d|] eqn:Ed; [|done]. intros _.
      apply delivery_for_selection_ok in Ed. unfold delivered in Ed. rewrite E in Ed. naive_solver.
    + intros [zs Hz].
      assert (delivery_for_selection s t (fanout_policy i) i sel = Ok (relayed_delivery i relay e zs)) as ->;
        [|done].
      apply delivery_for_selection_ok. unfold delivered, relay_legs_ok. rewrite E.
      rewrite Forall_singleton in Hlab2. naive_solver.
Qed.

(** All relayed deliveries of one fan-out share ack id, loop id and sequence, which is all that
    the redelivery check compares: once one destination acknowledged, a failover for any
    other destination is refused as a replay. *)
Theorem fanout_ack_silences_other_destinations i r1 d1 r2 d2 s t order p j e :
  ofi_frame j = voice_overlay_frame i r2 d2 →
  e ∈ ofi_prior_attempts j → oae_status e = PoAcked →
  same_delivery (voice_overlay_frame i r1 d1) e = true →
  is_ok (plan_peer_overlay_redelivery_failover s t order p j) = false.
Proof.
  intros Hj He Hack Hsame.
  destruct (plan_peer_overlay_redelivery_failover s t order p j) as [plan|] eqn:E; [|done].
  apply failover_ok in E as (ids & _ & _ & Hst & _).
  destruct (reject_stale_ok j Hst e He) as [Hne _]; [|done]. by rewrite Hj.
Qed.
End properties.

Lemma each_err {A E} (f : A → result unit E) l e :
  each f l = Err e → ∃ x, x ∈ l ∧ f x = Err e.
Proof.
  induction l as [|x l IH]; simpl; [done|]. destruct (f x) as [[]|e'] eqn:Ef; simpl.
  - intros (y & Hy & Hf)%IH. exists y. split; [by right|done].
  - intros [= ->]. exists x. split; [by left|done].
Qed.

(** The Android contingency is gated and honest: decision and selected path agree and
    never let raw keys out of Rust; a native plan is made exactly when Android lacks encoded
    transforms, and then only with microphone permission, an input device and endpoints that
    are the trimmed non-empty STUN and TURN urls given, in strictly increasing order; every
    refusal names its own cause. *)
Theorem native_plan_is_gated c servers v :
  wm_path (media_path_decision c) = selected_path c ∧
  preserves_rust_sframe_boundary (media_path_decision c) = true ∧
  match native_plan c servers v with
  | Ok None => selected_path c = WebviewEncodedTransform
  | Ok (Some n) =>
      selected_path c = NativeContingencyPath ∧ can_join_voice v = true ∧
      ready_for_protected_media n = true ∧ nw_voice_selection n = v ∧
      StronglySorted (λ x y, key_cmp x y = Lt) (nw_ice_servers n) ∧
      Forall (λ s, ice_scheme_ok s = true) (nw_ice_servers n) ∧
      ∀ s, s ∈ nw_ice_servers n ↔ s ≠ ""%string ∧ ∃ x, x ∈ servers ∧ s = trim x
  | Err CaptureNotAllowed => can_join_voice v = false
  | Err MissingIceServer => ∀ x, x ∈ servers → trim x = ""%string
  | Err (InvalidIceServer s) => ice_scheme_ok s = false ∧ ∃ x, x ∈ servers ∧ s = trim x
  | Err UnsupportedRuntime => False
  end.
Proof.
  unfold media_path_decision, for_runtime, native_plan, selected_path.
  fold (requires_native_contingency c).
  destruct (requires_native_contingency c); [|done]. split_and!; [done..|]. cbn [negb].
  unfold contingency_android. destruct (can_join_voice v) eqn:Hv; cbn [negb reject_if rbind rmap]; [|done].
  destruct (sanitize_ice_servers servers) as [out|e] eqn:Es; cbn [rbind rmap].
  - apply sanitize_ok in Es as (? & Hne & ? & ?). split_and!; try done.
    unfold ready_for_protected_media. simpl. rewrite Hv, bool_decide_false by done. done.
  - revert Es. unfold sanitize_ice_servers. cbv zeta.
    set (k := sort_by key_cmp (filter (λ s, s ≠ ""%string) (trim <$> servers))).
    assert (∀ s, s ∈ dedup k ↔ s ≠ ""%string ∧ ∃ x, x ∈ servers ∧ s = trim x) as Hk.
    { intros s. unfold k. rewrite elem_of_dedup, elem_of_sort_by, list_elem_of_filter, list_elem_of_fmap.
      naive_solver. }
    destruct (decide (dedup k = [])) as [Hd|Hd].
    + rewrite bool_decide_true by done. cbn [reject_if rbind]. intros [= <-] x Hx.
      destruct (decide (trim x = ""%string)) as [|Hn]; [done|exfalso].
      assert (trim x ∈ dedup k) as Hin by (apply Hk; eauto). rewrite Hd in Hin. set_solver.
    + rewrite bool_decide_false by done. cbn [reject_if rbind].
      destruct (each _ _) as [|e'] eqn:He; cbn [rbind]; [done|]. intros [= <-].
      apply each_err in He as (x & Hx & Hf). apply Hk in Hx as [_ Hx].
      destruct (ice_scheme_ok x) eqn:Hi; simpl in Hf; [done|]. injection Hf as <-. done.
Qed.

(** ** Witnesses *)

Section witnesses.
#[local] Existing Instance Toy.toy_sha.

Definition ex_voice_input (l : list PeerOverlaySelectedRoute) : VoiceOverlayFanoutInput :=
  {| vi_source := ex_ref "alice";
     vi_protected_frame := {| bp_kid := [9]; bp_counter := 4; bp_bytes := [77; 78; 79] |};
     vi_route_selections := route_selection_result [] <$> l;
     vi_auth := ex_auth; vi_delivery := ovf_delivery (ex_frame []);
     vi_ttl := ovr_ttl (ex_route []); vi_loop_id := replicate 16 3;
     vi_forbidden_markers := [[200; 201; 202]] |}.

(** To [carol] directly, to [bob] over [dave]. *)
Definition ex_voice : VoiceOverlayFanoutInput :=
  ex_voice_input
    [SelDirectWebRtc (ex_leg "alice" "carol" DirectWebRtcDataChannel);
     SelPeerAssisted (ex_ref "dave") (ex_authorization (ex_ref "dave")) 7 (ex_relay_route "dave")].

Lemma voice_fanout_delivers_only_the_frame_witness :
  ∃ plan, build_voice_overlay_fanout ex_admitted ex_authority ex_voice = Ok plan ∧
    length (vp_deliveries plan) = 2%nat ∧
    NoDup ((λ d, ovp_peer_id (vy_destination d)) <$> vp_deliveries plan).
Proof.
  destruct (build_voice_overlay_fanout ex_admitted ex_authority ex_voice) as [plan|] eqn:E.
  - exists plan. split; [reflexivity|].
    destruct (voice_fanout_delivers_only_the_frame ex_admitted ex_authority ex_voice plan E)
      as (Hlen & Hnd & _). split; [exact Hlen|exact Hnd].
  - exfalso. assert (is_ok (build_voice_overlay_fanout ex_admitted ex_authority ex_voice) = true) as Hok
      by (vm_compute; reflexivity). rewrite E in Hok. discriminate Hok.
Defined.

Lemma selected_routes_are_delivered_witness :
  ∃ sel, select_peer_overlay_route ex_admitted ex_auth AfterPeerRelay ex_turn_only = Ok sel ∧
    match ors_selected sel with
    | SelPeerAssisted _ _ _ _ => False
    | _ => ∃ d, delivery_for_selection ex_admitted ex_authority (fanout_policy ex_voice) ex_voice sel
                  = Ok d ∧ vy_destination d = ex_ref "bob"
    end.
Proof.
  assert (match select_peer_overlay_route ex_admitted ex_auth AfterPeerRelay ex_turn_only with
          | Ok sel => match ors_selected sel with SelPeerAssisted _ _ _ _ => false | _ => true end
          | Err _ => false end = true) as Hok by (vm_compute; reflexivity).
  destruct (select_peer_overlay_route ex_admitted ex_auth AfterPeerRelay ex_turn_only) as [sel|] eqn:E;
    [|discriminate Hok].
  exists sel. split; [reflexivity|].
  pose proof (selected_routes_are_delivered ex_admitted ex_authority ex_voice AfterPeerRelay ex_turn_only
    sel eq_refl E) as Hd.
  destruct (ors_selected sel); [exact Hd|exact Hd|discriminate Hok].
Defined.

(** [bob]'s acknowledgement of his frame, on record when [carol]'s delivery fails over. *)
Definition ex_bob_acked : PeerOverlayRedeliveryAttemptEvidence :=
  {| oae_ack_id := replicate 16 4; oae_loop_id := replicate 16 3; oae_sequence := 4;
     oae_attempt_number := 1; oae_status := PoAcked |}.

Definition ex_carol_failover (prior : list PeerOverlayRedeliveryAttemptEvidence) :
    PeerOverlayRedeliveryFailoverInput :=
  {| ofi_frame := voice_overlay_frame ex_voice (ex_ref "dave") (ex_ref "carol");
     ofi_failed_relays := [{| ofe_relay := ex_ref "dave"; ofe_observed_at_ms := 100;
                              ofe_route_label := "leg" |}];
     ofi_direct_pair := Some (ex_leg "alice" "carol" DirectWebRtcDataChannel);
     ofi_configured_turn_pair := None; ofi_ranked_relays := []; ofi_relay_routes := [];
     ofi_prior_attempts := prior; ofi_next_attempt_number := 2; ofi_now_ms := 200;
     ofi_target_reroute_ms := 500 |}.

Lemma fanout_ack_silences_other_destinations_witness :
  is_ok (plan_peer_overlay_redelivery_failover ex_admitted ex_authority BeforePeerRelay
    forwarding_policy_default (ex_carol_failover [])) = true ∧
  is_ok (plan_peer_overlay_redelivery_failover ex_admitted ex_authority BeforePeerRelay
    forwarding_policy_default (ex_carol_failover [ex_bob_acked])) = false.
Proof.
  split; [vm_compute; reflexivity|].
  apply (fanout_ack_silences_other_destinations ex_voice (ex_ref "dave") (ex_ref "bob")
    (ex_ref "dave") (ex_ref "carol") _ _ _ _ _ ex_bob_acked).
  - reflexivity.
  - by left.
  - reflexivity.
  - vm_compute. reflexivity.
Defined.
End witnesses.
