(* ===== verification/VoiceAudio.v ===== *)
(** * Voice audio: formats, volumes, levels and voice activity

    The first half of [crates/media/src/capture.rs]: capture formats, local playback volumes
    keyed by the authenticated speaker, gain with saturating 16-bit samples, level metrics in
    [f64], and the voice activity detector. A PCM sample is a [Z] in the range of [i16]. *)

From Stdlib Require Import SpecFloat.
From S2P Require Import Prelude Collections Bytes StrOps SFrame.

(** ** Capture formats *)

Definition WEBRTC_OPUS_SAMPLE_RATE_HZ : N := 48000.
Definition SPEAKER_VOLUME_UNITY_MILLIPERCENT : N := 1000.
Definition SPEAKER_VOLUME_MAX_MILLIPERCENT : N := 2000.
Definition APP_AUDIO_GAIN_UNITY_PERCENT : N := 100.
Definition MIC_GAIN_MAX_PERCENT : N := 200.
Definition APP_OUTPUT_VOLUME_MAX_PERCENT : N := 100.

Record AudioCaptureFormat := {
  ac_sample_rate_hz : N;
  ac_channels : N;
  ac_frame_duration_ms : N
}.

#[export] Instance AudioCaptureFormat_eq_dec : EqDecision AudioCaptureFormat.
Proof. solve_decision. Defined.

Definition mono_20ms_48khz : AudioCaptureFormat := {|
  ac_sample_rate_hz := WEBRTC_OPUS_SAMPLE_RATE_HZ; ac_channels := 1; ac_frame_duration_ms := 20
|}.

Definition samples_per_channel (f : AudioCaptureFormat) : N :=
  ac_sample_rate_hz f * ac_frame_duration_ms f / 1000.

Definition interleaved_samples_per_frame (f : AudioCaptureFormat) : N :=
  samples_per_channel f * ac_channels f.

Definition capture_format_validate (f : AudioCaptureFormat) : result unit MediaError :=
  check reject_if (negb (ac_sample_rate_hz f =? WEBRTC_OPUS_SAMPLE_RATE_HZ))
    (InvalidAudioFrame "voice capture must be normalized to 48 kHz before Opus encode") in
  check reject_if (negb (bool_decide (ac_channels f ∈ [1; 2])))
    (InvalidAudioFrame "voice capture must be mono or stereo") in
  check reject_if (negb (bool_decide (ac_frame_duration_ms f ∈ [10; 20; 40; 60])))
    (InvalidAudioFrame "voice capture frame duration must be 10, 20, 40, or 60 ms") in
  reject_if (interleaved_samples_per_frame f =? 0)
    (InvalidAudioFrame "voice capture frame cannot be empty").

Definition capture_format_new (rate channels duration : N) : result AudioCaptureFormat MediaError :=
  let f := {| ac_sample_rate_hz := rate; ac_channels := channels;
              ac_frame_duration_ms := duration |} in
  check capture_format_validate f in Ok f.

Abbreviation pcm := (list Z).

Record CapturedAudioFrame := {
  ca_pcm_i16 : pcm;
  ca_format : AudioCaptureFormat;
  ca_captured_at_ms : N
}.

(** [Vec::len] *)
Definition samples (p : pcm) : N := N.of_nat (length p).

Definition captured_frame_new (p : pcm) (f : AudioCaptureFormat) (at_ms : N) :
    result CapturedAudioFrame MediaError :=
  check capture_format_validate f in
  check reject_if (negb (samples p =? interleaved_samples_per_frame f))
    (InvalidAudioFrame ("expected " +:+ pretty (interleaved_samples_per_frame f)
                        +:+ " interleaved PCM samples, got " +:+ pretty (samples p))) in
  Ok {| ca_pcm_i16 := p; ca_format := f; ca_captured_at_ms := at_ms |}.

Record DecodedAudioFrame := {
  da_sender : SenderBinding;
  da_counter : N;
  da_format : AudioCaptureFormat;
  da_pcm_i16 : pcm
}.

(** ** Speakers and playback volumes *)

(** Group and device, in the derived order. *)
Abbreviation SpeakerPlaybackKey := (string * string)%type.

Definition speaker_of (b : SenderBinding) : SpeakerPlaybackKey := (sb_group_id b, sb_device_id b).

Definition from_sender (b : SenderBinding) : result SpeakerPlaybackKey MediaError :=
  check binding_validate b in Ok (speaker_of b).

Record PlaybackVolumeMixer := {
  pm_default : N;
  pm_speakers : gmap SpeakerPlaybackKey N
}.

Definition validate_volume_millipercent (v : N) : result unit MediaError :=
  if v <=? SPEAKER_VOLUME_MAX_MILLIPERCENT then Ok tt else Err (InvalidPlaybackVolume v).

Definition mixer_unity : PlaybackVolumeMixer :=
  {| pm_default := SPEAKER_VOLUME_UNITY_MILLIPERCENT; pm_speakers := ∅ |}.

Definition mixer_new (v : N) : result PlaybackVolumeMixer MediaError :=
  check validate_volume_millipercent v in Ok {| pm_default := v; pm_speakers := ∅ |}.

Definition set_default_volume (m : PlaybackVolumeMixer) (v : N) :
    PlaybackVolumeMixer * result unit MediaError :=
  match validate_volume_millipercent v with
  | Err e => (m, Err e)
  | Ok _ => ({| pm_default := v; pm_speakers := pm_speakers m |}, Ok tt)
  end.

Definition set_speaker_volume_by_key (m : PlaybackVolumeMixer) (k : SpeakerPlaybackKey) (v : N) :
    PlaybackVolumeMixer * result unit MediaError :=
  match validate_volume_millipercent v with
  | Err e => (m, Err e)
  | Ok _ =>
      ({| pm_default := pm_default m;
          pm_speakers := if v =? pm_default m then delete k (pm_speakers m)
                         else <[k := v]> (pm_speakers m) |}, Ok tt)
  end.

Definition set_speaker_volume (m : PlaybackVolumeMixer) (b : SenderBinding) (v : N) :
    PlaybackVolumeMixer * result unit MediaError :=
  match from_sender b with
  | Err e => (m, Err e)
  | Ok k => set_speaker_volume_by_key m k v
  end.

Definition volume_for_sender (m : PlaybackVolumeMixer) (b : SenderBinding) : result N MediaError :=
  let* k := from_sender b in Ok (default (pm_default m) (pm_speakers m !! k)).

(** ** Gain *)

Definition i16_min : Z := -32768.
Definition i16_max : Z := 32767.

(** [i32] division truncates; [clamp] then narrows to [i16]. *)
Definition clamp_i16 (x : Z) : Z := Z.max i16_min (Z.min x i16_max).

Definition apply_volume (sample : Z) (v : N) : Z :=
  clamp_i16 (Z.quot (sample * Z.of_N v) (Z.of_N SPEAKER_VOLUME_UNITY_MILLIPERCENT)).

Definition mix_frame (m : PlaybackVolumeMixer) (f : DecodedAudioFrame) :
    result DecodedAudioFrame MediaError :=
  let* v := volume_for_sender m (da_sender f) in
  Ok {| da_sender := da_sender f; da_counter := da_counter f; da_format := da_format f;
        da_pcm_i16 := (λ s, apply_volume s v) <$> da_pcm_i16 f |}.

Definition apply_percent_gain (p : pcm) (percent : N) : pcm :=
  (λ s, clamp_i16 (Z.quot (s * Z.of_N percent) (Z.of_N APP_AUDIO_GAIN_UNITY_PERCENT))) <$> p.

Definition apply_microphone_gain_percent (p : pcm) (percent : N) : pcm * result unit MediaError :=
  if MIC_GAIN_MAX_PERCENT <? percent then (p, Err (InvalidPlaybackVolume percent))
  else (apply_percent_gain p percent, Ok tt).

Definition apply_app_output_volume_percent (p : pcm) (percent : N) : pcm * result unit MediaError :=
  if APP_OUTPUT_VOLUME_MAX_PERCENT <? percent then (p, Err (InvalidPlaybackVolume percent))
  else (apply_percent_gain p percent, Ok tt).

(** ** Levels *)

(** IEEE binary64: conversion of an integer, division, square root, [f64::round] (halves away
    from zero), [f64::min] and the saturating cast to [u16]. *)
Abbreviation f64 := spec_float.
Definition f64_of_N (n : N) : f64 := binary_normalize 53 1024 (Z.of_N n) 0 false.
Definition f64_div : f64 → f64 → f64 := SFdiv 53 1024.
Definition f64_sqrt : f64 → f64 := SFsqrt 53 1024.

Definition f64_round (x : f64) : f64 :=
  match x with
  | S754_finite s m e =>
      if (0 <=? e)%Z then x
      else
        let q := ((Z.pos m + 2 ^ (- e - 1)) / 2 ^ (- e))%Z in
        binary_normalize 53 1024 (if s then - q else q)%Z 0 s
  | _ => x
  end.

Definition f64_min (x y : f64) : f64 :=
  match SFcompare x y with
  | Some Gt => y
  | Some _ => x
  | None => match x with S754_nan => y | _ => x end
  end.

Definition f64_as_u16 (x : f64) : N :=
  match x with
  | S754_infinity false => u16_max
  | S754_finite false m e =>
      let v := if (0 <=? e)%Z then Npos m * 2 ^ Z.to_N e else Npos m / 2 ^ Z.to_N (- e) in
      N.min v u16_max
  | _ => 0
  end.

Definition sample_abs (s : Z) : N := Z.to_N (Z.min (Z.abs s) i16_max).

Definition pcm_level_metrics (p : pcm) : N * N :=
  match p with
  | [] => (0, 0)
  | _ =>
      let sum_squares := foldl (λ acc s, acc + sample_abs s * sample_abs s) 0 p in
      let peak := foldl (λ acc s, N.max acc (sample_abs s)) 0 p in
      let mean_square := f64_div (f64_of_N sum_squares) (f64_of_N (samples p)) in
      (f64_as_u16 (f64_min (f64_round (f64_sqrt mean_square)) (f64_of_N (Z.to_N i16_max))), peak)
  end.

(** ** Voice activity *)

Inductive VoiceActivitySource := LocalCapture | RemotePlayback.

Record VoiceActivityLevel := {
  vl_source : VoiceActivitySource;
  vl_speaker : option SpeakerPlaybackKey;
  vl_counter : option N;
  vl_captured_at_ms : option N;
  vl_rms_i16 : N;
  vl_peak_i16 : N;
  vl_speaking : bool
}.

Record VoiceActivityDetector := {
  vad_threshold : N;
  vad_hangover_frames : N;
  vad_hangover_remaining : N
}.

Definition vad_voice_defaults : VoiceActivityDetector :=
  {| vad_threshold := 512; vad_hangover_frames := 2; vad_hangover_remaining := 0 |}.

Definition vad_new (threshold hangover : N) : result VoiceActivityDetector MediaError :=
  check reject_if (threshold =? 0) (InvalidAudioFrame "VAD threshold must be greater than zero") in
  Ok {| vad_threshold := threshold; vad_hangover_frames := hangover;
        vad_hangover_remaining := 0 |}.

Definition vad_with_remaining (d : VoiceActivityDetector) (r : N) : VoiceActivityDetector :=
  {| vad_threshold := vad_threshold d; vad_hangover_frames := vad_hangover_frames d;
     vad_hangover_remaining := r |}.

Definition update_speaking (d : VoiceActivityDetector) (rms : N) : VoiceActivityDetector * bool :=
  if vad_threshold d <=? rms then (vad_with_remaining d (vad_hangover_frames d), true)
  else if 0 <? vad_hangover_remaining d then
    (vad_with_remaining d (vad_hangover_remaining d - 1), true)
  else (d, false).

Definition validate_pcm_len (f : AudioCaptureFormat) (p : pcm) : result unit MediaError :=
  check capture_format_validate f in
  if samples p =? interleaved_samples_per_frame f then Ok tt
  else Err (InvalidAudioFrame ("expected " +:+ pretty (interleaved_samples_per_frame f)
              +:+ " interleaved PCM samples for audio-level event, got " +:+ pretty (samples p))).

Definition observe_local_capture (d : VoiceActivityDetector) (f : CapturedAudioFrame) :
    VoiceActivityDetector * result VoiceActivityLevel MediaError :=
  match validate_pcm_len (ca_format f) (ca_pcm_i16 f) with
  | Err e => (d, Err e)
  | Ok _ =>
      let '(rms, peak) := pcm_level_metrics (ca_pcm_i16 f) in
      let '(d', speaking) := update_speaking d rms in
      (d', Ok {| vl_source := LocalCapture; vl_speaker := None; vl_counter := None;
                 vl_captured_at_ms := Some (ca_captured_at_ms f); vl_rms_i16 := rms;
                 vl_peak_i16 := peak; vl_speaking := speaking |})
  end.

Definition observe_remote_playback (d : VoiceActivityDetector) (b : SenderBinding) (counter : N)
    (f : AudioCaptureFormat) (p : pcm) : VoiceActivityDetector * result VoiceActivityLevel MediaError :=
  match (check binding_validate b in validate_pcm_len f p) with
  | Err e => (d, Err e)
  | Ok _ =>
      let '(rms, peak) := pcm_level_metrics p in
      let '(d', speaking) := update_speaking d rms in
      (d', let* k := from_sender b in
           Ok {| vl_source := RemotePlayback; vl_speaker := Some k; vl_counter := Some counter;
                 vl_captured_at_ms := None; vl_rms_i16 := rms; vl_peak_i16 := peak;
                 vl_speaking := speaking |})
  end.

(** ** Lemmas *)

(** Observe frame levels in order. *)
Fixpoint vad_run (d : VoiceActivityDetector) (levels : list N) : list bool :=
  match levels with
  | [] => []
  | rms :: rest => let '(d', b) := update_speaking d rms in b :: vad_run d' rest
  end.

Lemma vad_run_lookup d levels i :
  vad_hangover_remaining d ≤ vad_hangover_frames d → (i < length levels)%nat →
  vad_run d levels !! i = Some true ↔
  N.of_nat i < vad_hangover_remaining d ∨
  ∃ j rms, (j ≤ i)%nat ∧ N.of_nat (i - j) ≤ vad_hangover_frames d ∧
    levels !! j = Some rms ∧ vad_threshold d ≤ rms.
Proof.
  revert d i. induction levels as [|rms levels IH]; intros d i Hr Hi; simpl in Hi; [lia|].
  assert (∀ d' b, update_speaking d rms = (d', b) →
    vad_hangover_remaining d' ≤ vad_hangover_frames d' ∧ vad_threshold d' = vad_threshold d ∧
    vad_hangover_frames d' = vad_hangover_frames d ∧
    ((vad_threshold d ≤ rms ∧ b = true ∧ vad_hangover_remaining d' = vad_hangover_frames d) ∨
     (rms < vad_threshold d ∧ b = bool_decide (0 < vad_hangover_remaining d) ∧
      vad_hangover_remaining d' = vad_hangover_remaining d - 1))) as Hstep.
  { unfold update_speaking. intros d' b.
    destruct (N.leb_spec (vad_threshold d) rms); [intros [= <- <-]; simpl; lia|].
    destruct (N.ltb_spec 0 (vad_hangover_remaining d)); intros [= <- <-]; simpl.
    - rewrite bool_decide_true by lia. lia.
    - rewrite bool_decide_false by lia. lia. }
  simpl. destruct (update_speaking d rms) as [d' b]. destruct (Hstep d' b eq_refl) as (Hr' & Ht & Hf & Hb).
  destruct i as [|i]; simpl.
  - destruct Hb as [(Hle & -> & _)|(Hlt & -> & _)].
    + split; [|done]. intros _. right. exists 0%nat, rms. simpl. split_and!; [lia..|done|done].
    + split.
      * intros [= Hb%bool_decide_eq_true]. left. lia.
      * intros [H0|(j & x & Hj & _ & Hx & Hxt)]; [by rewrite bool_decide_true by lia|].
        destruct j; [|lia]. simpl in Hx. simplify_eq. lia.
  - rewrite IH by (done || lia). rewrite Ht, Hf. split.
    + intros [H0|(j & x & ? & ? & ? & ?)].
      * destruct Hb as [(Hle & _ & Hrem)|(_ & _ & Hrem)]; [|left; lia].
        right. exists 0%nat, rms. split_and!; [lia..|done|done].
      * right. exists (S j), x. split_and!; [lia..|done|done].
    + intros [H0|([|j] & x & Hj & Hji & Hx & Hxt)].
      * left. lia.
      * simpl in Hx. simplify_eq. destruct Hb as [(_ & _ & Hrem)|(? & _)]; [left|]; lia.
      * right. exists j, x. split_and!; [lia..|done|done].
Qed.

(** ** Properties *)

(** Voice activity is threshold with hangover, exactly: a detector that starts afresh
    reports speech on a frame if and only if that frame or one of the [hangover_frames]
    frames before it reached the threshold. *)
Theorem vad_speech_is_exact threshold hangover levels i :
  (i < length levels)%nat →
  vad_run {| vad_threshold := threshold; vad_hangover_frames := hangover;
             vad_hangover_remaining := 0 |} levels !! i = Some true ↔
  ∃ j rms, (j ≤ i)%nat ∧ N.of_nat (i - j) ≤ hangover ∧ levels !! j = Some rms ∧ threshold ≤ rms.
Proof.
  intros Hi. rewrite vad_run_lookup by (simpl; lia || done). simpl. split; [|by right].
  intros [?|?]; [lia|done].
Qed.

Definition is_i16 (s : Z) : Prop := (i16_min ≤ s ≤ i16_max)%Z.

Inductive MixerCall :=
| MixDefault (v : N)
| MixSpeaker (b : SenderBinding) (v : N)
| MixSpeakerKey (k : SpeakerPlaybackKey) (v : N).

Definition mixer_call (m : PlaybackVolumeMixer) (c : MixerCall) : PlaybackVolumeMixer :=
  match c with
  | MixDefault v => (set_default_volume m v).1
  | MixSpeaker b v => (set_speaker_volume m b v).1
  | MixSpeakerKey k v => (set_speaker_volume_by_key m k v).1
  end.

Definition mixer_bounded (m : PlaybackVolumeMixer) : Prop :=
  pm_default m ≤ SPEAKER_VOLUME_MAX_MILLIPERCENT ∧
  ∀ k v, pm_speakers m !! k = Some v → v ≤ SPEAKER_VOLUME_MAX_MILLIPERCENT.

Lemma set_by_key_bounded m k v : mixer_bounded m → mixer_bounded (set_speaker_volume_by_key m k v).1.
Proof.
  intros [Hd Hs]. unfold set_speaker_volume_by_key, validate_volume_millipercent.
  destruct (N.leb_spec v SPEAKER_VOLUME_MAX_MILLIPERCENT); [|done]. split; [done|]. simpl.
  intros k' v'. destruct (v =? pm_default m).
  - intros [_ Hk]%lookup_delete_Some. eauto.
  - intros [[_ <-]|[_ Hk]]%lookup_insert_Some; eauto.
Qed.

Lemma mixer_run_bounded m calls : mixer_bounded m → mixer_bounded (foldl mixer_call m calls).
Proof.
  revert m. induction calls as [|c calls IH]; intros m Hm; simpl; [done|]. apply IH.
  destruct c as [v|b v|k v]; simpl; [| |by apply set_by_key_bounded].
  - unfold set_default_volume, validate_volume_millipercent.
    destruct (N.leb_spec v SPEAKER_VOLUME_MAX_MILLIPERCENT); [|done]. split; [done|apply Hm].
  - unfold set_speaker_volume. destruct (from_sender b); [by apply set_by_key_bounded|done].
Qed.

Lemma clamp_i16_spec x :
  is_i16 (clamp_i16 x) ∧ (is_i16 x → clamp_i16 x = x) ∧ (Z.abs (clamp_i16 x) ≤ Z.abs x)%Z.
Proof. unfold is_i16, clamp_i16, i16_min, i16_max. lia. Qed.

(** Scaling down moves a sample toward zero. *)
Lemma quot_scale_down s v d :
  (0 ≤ v ≤ d → 0 < d → Z.min s 0 ≤ Z.quot (s * v) d ≤ Z.max s 0)%Z.
Proof.
  intros Hv Hd. destruct (Z.le_ge_cases 0 s).
  - rewrite Z.quot_div_nonneg by nia. split.
    + rewrite Z.min_r by lia. apply Z.div_pos; nia.
    + rewrite Z.max_l by lia. apply Z.div_le_upper_bound; nia.
  - assert (Z.quot (s * v) d = - Z.quot ((- s) * v) d)%Z as ->.
    { rewrite <- Z.quot_opp_l by lia. f_equal. lia. }
    rewrite Z.quot_div_nonneg by nia. split.
    + rewrite Z.min_l by lia. assert ((- s) * v / d ≤ - s)%Z by (apply Z.div_le_upper_bound; nia). lia.
    + rewrite Z.max_r by lia. pose proof (Z.div_pos ((- s) * v) d ltac:(nia) ltac:(lia)). lia.
Qed.

Lemma apply_volume_spec s v :
  is_i16 s → v ≤ SPEAKER_VOLUME_MAX_MILLIPERCENT →
  is_i16 (apply_volume s v) ∧ (- 2 ^ 31 ≤ s * Z.of_N v < 2 ^ 31)%Z ∧
  (v ≤ SPEAKER_VOLUME_UNITY_MILLIPERCENT →
   (apply_volume s v = Z.quot (s * Z.of_N v) 1000 ∧ Z.min s 0 ≤ apply_volume s v ≤ Z.max s 0)%Z).
Proof.
  unfold SPEAKER_VOLUME_MAX_MILLIPERCENT, SPEAKER_VOLUME_UNITY_MILLIPERCENT. intros Hs Hv.
  unfold apply_volume, SPEAKER_VOLUME_UNITY_MILLIPERCENT. change (Z.of_N 1000) with 1000%Z.
  destruct (clamp_i16_spec (Z.quot (s * Z.of_N v) 1000)) as (Hc & Hid & _).
  split; [done|]. unfold is_i16, i16_min, i16_max in *. split; [nia|]. intros Hu.
  pose proof (quot_scale_down s (Z.of_N v) 1000 ltac:(lia) ltac:(lia)) as Hq.
  rewrite Hid by lia. done.
Qed.

(** Playback volume stays within its bounds: over any sequence of volume settings every
    effective volume is at most 200%, mixing a frame of 16-bit samples gives 16-bit samples
    without overflowing the [i32] product, and at or below unity it is the truncated product,
    never louder and never of the other sign. *)
Theorem playback_volume_is_bounded calls f f' :
  let m := foldl mixer_call mixer_unity calls in
  Forall is_i16 (da_pcm_i16 f) → mix_frame m f = Ok f' →
  ∃ v, volume_for_sender m (da_sender f) = Ok v ∧ v ≤ SPEAKER_VOLUME_MAX_MILLIPERCENT ∧
    da_sender f' = da_sender f ∧ da_counter f' = da_counter f ∧
    Forall2 (λ s s', is_i16 s' ∧ (- 2 ^ 31 ≤ s * Z.of_N v < 2 ^ 31)%Z ∧
      (v ≤ SPEAKER_VOLUME_UNITY_MILLIPERCENT →
       (s' = Z.quot (s * Z.of_N v) 1000 ∧ Z.min s 0 ≤ s' ≤ Z.max s 0)%Z))
      (da_pcm_i16 f) (da_pcm_i16 f').
Proof.
  intros m Hall Hmix. apply rbind_ok in Hmix as (v & Hv & [= <-]). exists v. simpl.
  assert (mixer_bounded m) as [Hd Hs] by (apply mixer_run_bounded; done).
  assert (v ≤ SPEAKER_VOLUME_MAX_MILLIPERCENT) as Hle.
  { apply rbind_ok in Hv as (k & _ & [= <-]). destruct (pm_speakers m !! k) eqn:E; simpl; eauto. }
  split_and!; [done..|]. apply Forall2_fmap_r, Forall_Forall2_diag.
  eapply Forall_impl; [exact Hall|]. intros s Hs16. by apply apply_volume_spec.
Qed.

(** A volume setting follows the authenticated speaker: after a successful setting the
    same group and device plays at that volume, whatever its epoch, leaf and key id, and every
    other speaker as before. *)
Theorem speaker_volume_follows_the_device m m' b v b' :
  set_speaker_volume m b v = (m', Ok tt) → binding_validate b' = Ok tt →
  volume_for_sender m' b' =
    if bool_decide (speaker_of b' = speaker_of b) then Ok v else volume_for_sender m b'.
Proof.
  unfold set_speaker_volume, set_speaker_volume_by_key, volume_for_sender, from_sender.
  destruct (binding_validate b); [|done]. cbn [rbind].
  destruct (validate_volume_millipercent v); [|done]. intros [= <-] ->. cbn [rbind pm_speakers pm_default].
  case_bool_decide as Hk.
  - rewrite Hk. destruct (N.eqb_spec v (pm_default m)) as [->|].
    + by rewrite lookup_delete_eq.
    + by rewrite lookup_insert_eq.
  - destruct (v =? pm_default m).
    + by rewrite lookup_delete_ne.
    + by rewrite lookup_insert_ne.
Qed.

(** A setting equal to the default is not kept: when the default then changes, the speaker's
    volume changes with it. *)
Theorem volume_at_default_is_forgotten m b d :
  binding_validate b = Ok tt → pm_default m ≤ SPEAKER_VOLUME_MAX_MILLIPERCENT →
  d ≤ SPEAKER_VOLUME_MAX_MILLIPERCENT →
  let m1 := (set_speaker_volume m b (pm_default m)).1 in
  volume_for_sender m1 b = Ok (pm_default m) ∧
  volume_for_sender (set_default_volume m1 d).1 b = Ok d.
Proof.
  intros Hb Hm Hd. unfold set_speaker_volume, set_speaker_volume_by_key, set_default_volume,
    volume_for_sender, from_sender, validate_volume_millipercent.
  rewrite Hb. cbn [rbind]. rewrite (proj2 (N.leb_le _ _) Hm), (proj2 (N.leb_le _ _) Hd), N.eqb_refl.
  cbn [fst pm_speakers pm_default]. by rewrite lookup_delete_eq.
Qed.

(** ** Witnesses *)

Section witnesses.
Definition ex_binding : SenderBinding :=
  {| sb_kid := [1]; sb_group_id := "room"; sb_epoch := 3; sb_leaf_index := 1; sb_device_id := "phone" |}.

Definition ex_binding_rotated : SenderBinding :=
  {| sb_kid := [2]; sb_group_id := "room"; sb_epoch := 4; sb_leaf_index := 5; sb_device_id := "phone" |}.

Lemma vad_speech_is_exact_witness :
  vad_run {| vad_threshold := 512; vad_hangover_frames := 2; vad_hangover_remaining := 0 |}
    [600; 0; 0; 0] !! 2%nat = Some true.
Proof.
  apply (vad_speech_is_exact 512 2 [600; 0; 0; 0] 2); [simpl; lia|].
  exists 0%nat, 600. split; [lia|]. split; [vm_compute; discriminate|]. split; [reflexivity|vm_compute; discriminate].
Defined.

Lemma playback_volume_is_bounded_witness :
  ∃ v, volume_for_sender (foldl mixer_call mixer_unity [MixSpeaker ex_binding 500]) ex_binding = Ok v ∧
       v ≤ SPEAKER_VOLUME_MAX_MILLIPERCENT.
Proof.
  destruct (playback_volume_is_bounded [MixSpeaker ex_binding 500]
    {| da_sender := ex_binding; da_counter := 0; da_format := mono_20ms_48khz; da_pcm_i16 := [-100; 7]%Z |}
    {| da_sender := ex_binding; da_counter := 0; da_format := mono_20ms_48khz; da_pcm_i16 := [-50; 3]%Z |})
    as (v & Hv & Hle & _).
  - repeat constructor; vm_compute; discriminate.
  - vm_compute. reflexivity.
  - exists v. split; [exact Hv|exact Hle].
Defined.

Lemma speaker_volume_follows_the_device_witness :
  volume_for_sender (set_speaker_volume mixer_unity ex_binding 250).1 ex_binding_rotated = Ok 250.
Proof.
  rewrite (speaker_volume_follows_the_device mixer_unity
    (set_speaker_volume mixer_unity ex_binding 250).1 ex_binding 250 ex_binding_rotated);
    vm_compute; reflexivity.
Defined.

Lemma volume_at_default_is_forgotten_witness :
  volume_for_sender (set_default_volume (set_speaker_volume mixer_unity ex_binding 1000).1 100).1 ex_binding
  = Ok 100.
Proof.
  apply (volume_at_default_is_forgotten mixer_unity ex_binding 100).
  - vm_compute. reflexivity.
  - vm_compute. discriminate.
  - vm_compute. discriminate.
Defined.
End witnesses.
