(* ===== verification/JitterBuffer.v ===== *)
(** * The jitter buffer

    [VoiceJitterBuffer] of [crates/media/src/capture.rs]: decoded frames wait per speaker until
    more than the target depth is buffered, and leave in runs of consecutive counters. *)

From S2P Require Import Prelude Collections SFrame VoiceAudio.

Record VoiceJitterBuffer := {
  jb_target_depth : N;
  jb_next : gmap SpeakerPlaybackKey N;
  jb_buffered : gmap (SpeakerPlaybackKey * N) DecodedAudioFrame
}.

Definition jitter_new (depth : N) : VoiceJitterBuffer :=
  {| jb_target_depth := depth; jb_next := ∅; jb_buffered := ∅ |}.

Definition with_next (b : VoiceJitterBuffer) (m : gmap SpeakerPlaybackKey N) : VoiceJitterBuffer :=
  {| jb_target_depth := jb_target_depth b; jb_next := m; jb_buffered := jb_buffered b |}.

(** The frames of one speaker. *)
Definition frames_of (k : SpeakerPlaybackKey) (b : VoiceJitterBuffer) :
    gmap (SpeakerPlaybackKey * N) DecodedAudioFrame :=
  filter (λ e, e.1.1 = k) (jb_buffered b).

Definition buffered_len_for_speaker (b : VoiceJitterBuffer) (k : SpeakerPlaybackKey) : N :=
  N.of_nat (size (frames_of k b)).

(** Removing the frame with the expected counter. *)
Definition take_frame (b : VoiceJitterBuffer) (k : SpeakerPlaybackKey) (c : N) : VoiceJitterBuffer :=
  {| jb_target_depth := jb_target_depth b;
     jb_next := if u64_max <=? c then delete k (jb_next b) else <[k := c + 1]> (jb_next b);
     jb_buffered := delete (k, c) (jb_buffered b) |}.

(** The [while] loop; every round removes a buffered frame, so one more round than there are
    frames is enough. *)
Fixpoint pop_loop (fuel : nat) (b : VoiceJitterBuffer) (k : SpeakerPlaybackKey) (drain : bool) :
    VoiceJitterBuffer * list DecodedAudioFrame :=
  match fuel with
  | O => (b, [])
  | S fuel =>
      if drain || (jb_target_depth b <? buffered_len_for_speaker b k) then
        match jb_next b !! k with
        | None => (b, [])
        | Some c =>
            match jb_buffered b !! (k, c) with
            | None => (b, [])
            | Some f => let '(b', ready) := pop_loop fuel (take_frame b k c) k drain in (b', f :: ready)
            end
        end
      else (b, [])
  end.

Definition pop_ready_for_speaker (b : VoiceJitterBuffer) (k : SpeakerPlaybackKey) (drain : bool) :
    VoiceJitterBuffer * list DecodedAudioFrame :=
  let '(b', ready) := pop_loop (S (size (jb_buffered b))) b k drain in
  if bool_decide (frames_of k b' = ∅) && bool_decide (ready = [])
  then (with_next b' (delete k (jb_next b')), ready)
  else (b', ready).

(** The buffer with the pushed frame in it. *)
Definition admit_frame (b : VoiceJitterBuffer) (k : SpeakerPlaybackKey) (f : DecodedAudioFrame) :
    VoiceJitterBuffer :=
  {| jb_target_depth := jb_target_depth b;
     jb_next := <[k := match jb_next b !! k with
                       | Some next => N.min next (da_counter f)
                       | None => da_counter f
                       end]> (jb_next b);
     jb_buffered := <[(k, da_counter f) := f]> (jb_buffered b) |}.

Definition jitter_push (b : VoiceJitterBuffer) (f : DecodedAudioFrame) :
    VoiceJitterBuffer * result (list DecodedAudioFrame) MediaError :=
  match from_sender (da_sender f) with
  | Err e => (b, Err e)
  | Ok k =>
      let '(b', ready) := pop_ready_for_speaker (admit_frame b k f) k false in (b', Ok ready)
  end.

(** [speakers.iter().flat_map(..)] over the keys at the start. *)
Fixpoint drain_speakers (b : VoiceJitterBuffer) (speakers : list SpeakerPlaybackKey) :
    VoiceJitterBuffer * list DecodedAudioFrame :=
  match speakers with
  | [] => (b, [])
  | k :: rest =>
      let '(b1, out1) := pop_ready_for_speaker b k true in
      let '(b2, out2) := drain_speakers b1 rest in (b2, out1 ++ out2)
  end.

Definition drain_contiguous (b : VoiceJitterBuffer) : VoiceJitterBuffer * list DecodedAudioFrame :=
  drain_speakers b (entries (jb_next b)).*1.

(** ** Lemmas *)

(** Entries sit under their own speaker and counter, at or above the expected counter. *)
Record jitter_wf (b : VoiceJitterBuffer) : Prop := {
  wf_entry k c f : jb_buffered b !! (k, c) = Some f →
    speaker_of (da_sender f) = k ∧ da_counter f = c ∧ c ≤ u64_max;
  wf_next k c : is_Some (jb_buffered b !! (k, c)) → ∃ n, jb_next b !! k = Some n ∧ n ≤ c;
  wf_counter k n : jb_next b !! k = Some n → n ≤ u64_max
}.

(** [fs] is the run of frames buffered for [k] from counter [c] on. *)
Inductive run_from (m : gmap (SpeakerPlaybackKey * N) DecodedAudioFrame) (k : SpeakerPlaybackKey) :
    N → list DecodedAudioFrame → Prop :=
| run_stop c : run_from m k c []
| run_step c f fs : m !! (k, c) = Some f → run_from m k (c + 1) fs → run_from m k c (f :: fs).

Lemma run_from_delete m k c0 c fs : c0 < c → run_from (delete (k, c0) m) k c fs → run_from m k c fs.
Proof.
  intros Hc. induction 1 as [|c f fs Hf _ IH]; constructor.
  - by apply lookup_delete_Some in Hf as [_ ?].
  - apply IH. lia.
Qed.

Lemma run_from_lookup m k c fs i f :
  run_from m k c fs → fs !! i = Some f → m !! (k, c + N.of_nat i) = Some f.
Proof.
  intros Hr. revert i. induction Hr as [|c g fs Hg _ IH]; intros i; [done|].
  destruct i as [|i]; simpl.
  - intros [= <-]. by rewrite N.add_0_r.
  - intros Hi%IH. rewrite <- Hi. do 2 f_equal. lia.
Qed.

(** What the loop does: it takes a run off the buffer and stops where the [while] does. *)
Definition popped (b b' : VoiceJitterBuffer) (k : SpeakerPlaybackKey) (c : N)
    (ready : list DecodedAudioFrame) : Prop :=
  jb_target_depth b' = jb_target_depth b ∧ run_from (jb_buffered b) k c ready ∧
  (∀ k' x, jb_buffered b' !! (k', x) =
     if bool_decide (k' = k ∧ c ≤ x < c + N.of_nat (length ready)) then None
     else jb_buffered b !! (k', x)) ∧
  (∀ k', k' ≠ k → jb_next b' !! k' = jb_next b !! k').

(** Where the loop stops. *)
Definition stopped (b : VoiceJitterBuffer) (k : SpeakerPlaybackKey) (drain : bool) : Prop :=
  (drain = false ∧ buffered_len_for_speaker b k ≤ jb_target_depth b) ∨
  jb_next b !! k = None ∨
  ∃ c, jb_next b !! k = Some c ∧ jb_buffered b !! (k, c) = None.

Lemma take_frame_wf b k c f :
  jitter_wf b → jb_next b !! k = Some c → jb_buffered b !! (k, c) = Some f →
  jitter_wf (take_frame b k c).
Proof.
  intros Hwf Hn Hf. split; simpl.
  - intros k' c' g [_ Hg]%lookup_delete_Some. by apply Hwf.
  - intros k' c' [g [Hne Hg]%lookup_delete_Some].
    destruct (wf_next b Hwf k' c') as (n & Hk & Hle); [eauto|].
    destruct (wf_entry b Hwf k' c' g Hg) as (_ & _ & Hmax).
    destruct (decide (k' = k)) as [->|Hkk].
    + assert (c' ≠ c) by congruence. assert (n = c) by congruence. subst n.
      destruct (N.leb_spec u64_max c); [lia|]. exists (c + 1). rewrite lookup_insert_eq. split; [done|lia].
    + exists n. split; [|done].
      destruct (u64_max <=? c); [rewrite lookup_delete_ne by done|rewrite lookup_insert_ne by done]; done.
  - intros k' n. destruct (N.leb_spec u64_max c).
    + intros [_ Hk]%lookup_delete_Some. by eapply wf_counter.
    + intros [[_ <-]|[_ Hk]]%lookup_insert_Some; [lia|by eapply wf_counter].
Qed.

(** One more frame in front of a run. *)
Lemma popped_step b b' k c f ready :
  jb_buffered b !! (k, c) = Some f → popped (take_frame b k c) b' k (c + 1) ready →
  popped b b' k c (f :: ready).
Proof.
  intros Hf (Hd & Hrun & Hbuf & Hnext). unfold popped. simpl in *. split_and!.
  - done.
  - constructor; [done|]. eapply run_from_delete; [|exact Hrun]. lia.
  - intros k' x. rewrite Hbuf. destruct (decide (k' = k)) as [->|Hk].
    + destruct (decide (x = c)) as [->|Hx].
      * rewrite lookup_delete_eq. rewrite (bool_decide_true (k = k ∧ c ≤ _ < _)) by (split; [done|lia]).
        by case_bool_decide.
      * rewrite lookup_delete_ne by congruence.
        repeat case_bool_decide; try done; exfalso; naive_solver lia.
    + rewrite lookup_delete_ne by congruence. rewrite !bool_decide_false by naive_solver. done.
  - intros k' Hk. rewrite Hnext by done.
    destruct (u64_max <=? c); [by rewrite lookup_delete_ne|by rewrite lookup_insert_ne].
Qed.

(** The number of frames of a speaker, and when the loop went on. *)
Definition counted (b b' : VoiceJitterBuffer) (k : SpeakerPlaybackKey) (drain : bool)
    (ready : list DecodedAudioFrame) : Prop :=
  buffered_len_for_speaker b k = buffered_len_for_speaker b' k + N.of_nat (length ready) ∧
  (ready = [] ∨ drain = true ∨ jb_target_depth b ≤ buffered_len_for_speaker b' k).

Lemma buffered_len_take b k c f :
  jb_buffered b !! (k, c) = Some f →
  buffered_len_for_speaker b k = buffered_len_for_speaker (take_frame b k c) k + 1.
Proof.
  intros Hf. unfold buffered_len_for_speaker, frames_of. simpl. rewrite map_filter_delete.
  assert (filter (λ e : SpeakerPlaybackKey * N * DecodedAudioFrame, e.1.1 = k) (jb_buffered b) !! (k, c)
          = Some f) as Hk by (by apply map_lookup_filter_Some).
  rewrite map_size_delete_Some by eauto.
  pose proof (map_size_ne_0_lookup_2 _ _ (mk_is_Some _ _ Hk)). lia.
Qed.

Lemma pop_loop_spec fuel b k drain :
  jitter_wf b → (size (jb_buffered b) < fuel)%nat →
  let '(b', ready) := pop_loop fuel b k drain in
  jitter_wf b' ∧ stopped b' k drain ∧ counted b b' k drain ready ∧
  match jb_next b !! k with
  | None => b' = b ∧ ready = []
  | Some c =>
      popped b b' k c ready ∧
      jb_next b' !! k =
        if u64_max <? c + N.of_nat (length ready) then None else Some (c + N.of_nat (length ready))
  end.
Proof.
  revert b. induction fuel as [|fuel IH]; intros b Hwf Hfuel; [lia|]. cbn [pop_loop].
  assert (∀ c, jb_next b !! k = Some c → popped b b k c [] ∧
    jb_next b !! k = if u64_max <? c + N.of_nat (length (A := DecodedAudioFrame) [])
                     then None else Some (c + N.of_nat (length (A := DecodedAudioFrame) []))) as Hstay.
  { intros c Hc. pose proof (wf_counter b Hwf k c Hc). simpl. rewrite N.add_0_r.
    destruct (N.ltb_spec u64_max c); [lia|]. split; [|done]. unfold popped. split_and!; [done|constructor| |done].
    intros k' x. rewrite bool_decide_false; [done|]. simpl. lia. }
  assert (counted b b k drain []) as Hnone by (unfold counted; simpl; split; [lia|by left]).
  destruct (drain || (jb_target_depth b <? buffered_len_for_speaker b k)) eqn:Hgo.
  2: { apply orb_false_iff in Hgo as [-> Hlt%N.ltb_ge]. split; [done|]. split; [by left|]. split; [done|].
       destruct (jb_next b !! k) as [c|] eqn:Hc; [by apply Hstay|done]. }
  destruct (jb_next b !! k) as [c|] eqn:Hc.
  2: { split; [done|]. split; [by right; left|]. done. }
  destruct (jb_buffered b !! (k, c)) as [f|] eqn:Hf.
  2: { split; [done|]. split; [right; right; eauto|]. split; [done|]. rewrite Hc. by apply Hstay. }
  clear Hstay. pose proof (take_frame_wf b k c f Hwf Hc Hf) as Hwf1.
  specialize (IH (take_frame b k c) Hwf1).
  assert (size (jb_buffered (take_frame b k c)) < fuel)%nat as Hsz
    by (simpl; rewrite map_size_delete_Some by eauto;
        pose proof (map_size_ne_0_lookup_2 (jb_buffered b) (k, c) (mk_is_Some _ _ Hf)); lia).
  specialize (IH Hsz).
  destruct (pop_loop fuel (take_frame b k c) k drain) as [b' ready]. simpl in IH.
  destruct IH as (Hwf' & Hst & (Hlen & Hmore) & IH). split; [done|]. split; [done|]. split.
  { pose proof (buffered_len_take b k c f Hf). unfold counted. cbn [length]. split; [lia|].
    right. destruct drain; [by left|right]. apply N.ltb_lt in Hgo.
    destruct Hmore as [->|[?|?]]; simpl in *; [lia|done|done]. }
  destruct (wf_entry b Hwf k c f Hf) as (_ & _ & Hmax). cbn [length].
  destruct (N.leb_spec u64_max c).
  - rewrite lookup_delete_eq in IH. destruct IH as [-> ->]. cbn [length].
    destruct (N.ltb_spec u64_max (c + N.of_nat 1)); [|lia]. split.
    + apply (popped_step b _ k c f []); [done..|]. unfold popped. split_and!; [done|constructor| |done].
      intros k' x. rewrite bool_decide_false; [done|]. simpl. lia.
    + simpl. destruct (N.leb_spec u64_max c); [by rewrite lookup_delete_eq|lia].
  - rewrite lookup_insert_eq in IH. destruct IH as [Hp Hn]. split.
    + by apply (popped_step b b' k c f ready).
    + rewrite Hn. replace (c + N.of_nat (S (length ready))) with (c + 1 + N.of_nat (length ready)) by lia. done.
Qed.

Lemma pop_ready_eq b k drain b' ready :
  pop_loop (S (size (jb_buffered b))) b k drain = (b', ready) →
  frames_of k b' ≠ ∅ ∨ ready ≠ [] → pop_ready_for_speaker b k drain = (b', ready).
Proof.
  unfold pop_ready_for_speaker. intros -> Hne.
  destruct Hne; [rewrite bool_decide_false by done|rewrite andb_comm, bool_decide_false by done]; done.
Qed.

(** *** Pushing *)

Definition first_counter (b : VoiceJitterBuffer) (k : SpeakerPlaybackKey) (f : DecodedAudioFrame) : N :=
  match jb_next b !! k with Some next => N.min next (da_counter f) | None => da_counter f end.

Definition valid_frame (f : DecodedAudioFrame) : Prop :=
  binding_validate (da_sender f) = Ok tt ∧ da_counter f ≤ u64_max.

Lemma admit_frame_wf b f :
  jitter_wf b → valid_frame f → jitter_wf (admit_frame b (speaker_of (da_sender f)) f).
Proof.
  intros Hwf [_ Hmax]. set (k := speaker_of (da_sender f)).
  assert (∀ n, jb_next b !! k = Some n → n ≤ u64_max) as Hn by apply wf_counter, Hwf.
  split; simpl; fold (first_counter b k f).
  - intros k' c g [[[= <- <-] <-]|[_ Hg]]%lookup_insert_Some; [done|by apply Hwf].
  - intros k' c [g Hg]. apply lookup_insert_Some in Hg as [[[= <- <-] _]|[_ Hg]].
    + eexists. rewrite lookup_insert_eq. split; [done|]. unfold first_counter. case_match; lia.
    + destruct (wf_next b Hwf k' c) as (n & Hk' & Hle); [eauto|].
      destruct (decide (k' = k)) as [->|?].
      * eexists. rewrite lookup_insert_eq. split; [done|]. unfold first_counter. rewrite Hk'. lia.
      * exists n. by rewrite lookup_insert_ne.
  - intros k' n [[<- <-]|[_ Hk]]%lookup_insert_Some; [|by eapply wf_counter].
    unfold first_counter. case_match; [|done]. specialize (Hn _ eq_refl). lia.
Qed.

(** A push releases a run from the smallest expected counter on. *)
Lemma jitter_push_spec b f :
  jitter_wf b → valid_frame f →
  let k := speaker_of (da_sender f) in
  let b0 := admit_frame b k f in
  let c := first_counter b k f in
  ∃ b' ready, jitter_push b f = (b', Ok ready) ∧ jitter_wf b' ∧ stopped b' k false ∧
    counted b0 b' k false ready ∧ popped b0 b' k c ready ∧
    jb_next b' !! k =
      if u64_max <? c + N.of_nat (length ready) then None else Some (c + N.of_nat (length ready)).
Proof.
  intros Hwf Hf k b0 c. pose proof (admit_frame_wf b f Hwf Hf) as Hwf0. fold k b0 in Hwf0.
  pose proof (pop_loop_spec (S (size (jb_buffered b0))) b0 k false Hwf0 (Nat.lt_succ_diag_r _)) as Hp.
  assert (jb_next b0 !! k = Some c) as Hc by (by apply lookup_insert_eq). rewrite Hc in Hp.
  destruct (pop_loop (S (size (jb_buffered b0))) b0 k false) as [b' ready] eqn:E.
  destruct Hp as (? & ? & ? & Hpop & ?). exists b', ready. split_and!; try done.
  unfold jitter_push, from_sender. rewrite (proj1 Hf). cbn [rbind]. fold k b0.
  rewrite (pop_ready_eq _ _ _ _ _ E); [done|]. destruct ready as [|g ready]; [left|by right].
  destruct Hpop as (_ & _ & Hbuf & _).
  assert (jb_buffered b' !! (k, da_counter f) = Some f) as Hin.
  { rewrite Hbuf, bool_decide_false by (simpl; lia). apply lookup_insert_eq. }
  intros Hempty. assert (frames_of k b' !! (k, da_counter f) = Some f) as Hx
    by (by apply map_lookup_filter_Some). rewrite Hempty in Hx. done.
Qed.

(** *** Draining *)

Lemma pop_ready_wf b k drain : jitter_wf b → jitter_wf (pop_ready_for_speaker b k drain).1.
Proof.
  intros Hwf. unfold pop_ready_for_speaker.
  pose proof (pop_loop_spec (S (size (jb_buffered b))) b k drain Hwf (Nat.lt_succ_diag_r _)) as Hp.
  destruct (pop_loop _ b k drain) as [b' ready]. destruct Hp as (Hwf' & _).
  destruct (bool_decide (frames_of k b' = ∅)) eqn:He; simpl; [|done].
  destruct (bool_decide (ready = [])); simpl; [|done]. apply bool_decide_eq_true in He.
  split; simpl; [apply Hwf'| |].
  - intros k' c [f Hf]. destruct (wf_next b' Hwf' k' c) as (n & Hn & Hle); [eauto|].
    exists n. split; [|done]. rewrite lookup_delete_ne; [done|]. intros ->.
    assert (frames_of k' b' !! (k', c) = Some f) as Hx by (by apply map_lookup_filter_Some).
    by rewrite He in Hx.
  - intros k' n [_ Hn]%lookup_delete_Some. by eapply wf_counter.
Qed.

Lemma drain_speakers_wf b ks : jitter_wf b → jitter_wf (drain_speakers b ks).1.
Proof.
  revert b. induction ks as [|k ks IH]; intros b Hwf; simpl; [done|].
  pose proof (pop_ready_wf b k true Hwf) as H1. destruct (pop_ready_for_speaker b k true) as [b1 o1].
  specialize (IH b1 H1). by destruct (drain_speakers b1 ks).
Qed.

(** *** Any use of the buffer *)

Inductive JitterCall := JitterPush (f : DecodedAudioFrame) | JitterDrain.

Definition jitter_call (b : VoiceJitterBuffer) (c : JitterCall) : VoiceJitterBuffer :=
  match c with
  | JitterPush f => (jitter_push b f).1
  | JitterDrain => (drain_contiguous b).1
  end.

(** Counters are [u64]. *)
Definition call_u64 (c : JitterCall) : Prop :=
  match c with JitterPush f => da_counter f ≤ u64_max | JitterDrain => True end.

Lemma jitter_run_wf b calls : jitter_wf b → Forall call_u64 calls → jitter_wf (foldl jitter_call b calls).
Proof.
  revert b. induction calls as [|c calls IH]; intros b Hwf Hall; [done|].
  apply Forall_cons in Hall as [Hc Hall]. simpl. apply IH; [|done].
  destruct c as [f|]; simpl; [|by apply drain_speakers_wf].
  destruct (binding_validate (da_sender f)) as [[]|e] eqn:Hb.
  - by destruct (jitter_push_spec b f Hwf (conj Hb Hc)) as (b' & ready & -> & ? & _).
  - unfold jitter_push, from_sender. by rewrite Hb.
Qed.

Lemma jitter_new_wf d : jitter_wf (jitter_new d).
Proof. split; simpl; intros; [done|by destruct H|done]. Qed.

Lemma run_from_counters m k c fs :
  (∀ x f, m !! (k, x) = Some f → speaker_of (da_sender f) = k ∧ da_counter f = x) →
  run_from m k c fs →
  da_counter <$> fs = (λ i, c + N.of_nat i) <$> seq 0 (length fs) ∧
  Forall (λ f, speaker_of (da_sender f) = k) fs.
Proof.
  intros Hm. induction 1 as [|c f fs Hf _ [IH1 IH2]]; [done|].
  destruct (Hm c f Hf) as [Hk Hc]. split; [|by constructor].
  cbn [length seq]. rewrite !fmap_cons, IH1, Hc. f_equal; [lia|].
  rewrite <- seq_shift, <- list_fmap_compose. apply list_fmap_ext. intros i x _. simpl. lia.
Qed.

(** *** Streams in order *)

(** Push frames in order, collecting what is released. *)
Fixpoint push_all (b : VoiceJitterBuffer) (l : list DecodedAudioFrame) :
    VoiceJitterBuffer * list DecodedAudioFrame :=
  match l with
  | [] => (b, [])
  | f :: rest =>
      let '(b1, r) := jitter_push b f in
      let '(b2, out) := push_all b1 rest in
      (b2, match r with Ok ready => ready ++ out | Err _ => out end)
  end.

(** The buffer holds exactly [fs] for [k], from counter [c] on. *)
Record holding (b : VoiceJitterBuffer) (k : SpeakerPlaybackKey) (c : N)
    (fs : list DecodedAudioFrame) : Prop := {
  hold_wf : jitter_wf b;
  hold_next : jb_next b !! k = Some c ∨ (jb_next b !! k = None ∧ fs = []);
  hold_frames x : jb_buffered b !! (k, x) = if c <=? x then fs !! N.to_nat (x - c) else None;
  hold_len : buffered_len_for_speaker b k = N.of_nat (length fs);
  hold_other k' : k' ≠ k → jb_next b !! k' = None
}.

Lemma buffered_len_admit b k f :
  jb_buffered b !! (k, da_counter f) = None →
  buffered_len_for_speaker (admit_frame b k f) k = buffered_len_for_speaker b k + 1.
Proof.
  intros Hf. unfold buffered_len_for_speaker, frames_of. simpl. rewrite map_filter_insert_True by done.
  rewrite map_size_insert_None; [lia|]. apply map_lookup_filter_None. by left.
Qed.

(** One more frame in order: the oldest leaves once the depth is exceeded. *)
Lemma push_in_order b k c fs f :
  holding b k c fs → valid_frame f → speaker_of (da_sender f) = k →
  da_counter f = c + N.of_nat (length fs) → da_counter f < u64_max →
  (N.of_nat (length fs) ≤ jb_target_depth b) →
  let n := if jb_target_depth b <? N.of_nat (S (length fs)) then 1%nat else 0%nat in
  ∃ b', jitter_push b f = (b', Ok (take n (fs ++ [f]))) ∧
    jb_target_depth b' = jb_target_depth b ∧
    holding b' k (c + N.of_nat n) (drop n (fs ++ [f])).
Proof.
  intros [Hwf Hnext Hfr Hlen Hoth] Hv Hk Hc Hmax Hdepth n. set (g := fs ++ [f]).
  assert (length g = S (length fs)) as Hg by (unfold g; rewrite length_app; simpl; lia).
  destruct (jitter_push_spec b f Hwf Hv) as (b' & ready & Hpush & Hwf' & Hst & [Hcnt Hmore] & Hpop & Hn').
  rewrite Hk in *.
  assert (first_counter b k f = c) as Hfc.
  { unfold first_counter. destruct Hnext as [-> |[-> ->]]; simpl in *; lia. }
  rewrite Hfc in *.
  assert (∀ x, jb_buffered (admit_frame b k f) !! (k, x) = if c <=? x then g !! N.to_nat (x - c) else None) as Hb0.
  { intros x. simpl. destruct (decide (x = da_counter f)) as [->|Hx].
    - rewrite lookup_insert_eq, Hc. destruct (N.leb_spec c (c + N.of_nat (length fs))); [|lia].
      unfold g. rewrite lookup_app_r by lia.
      replace (N.to_nat _ - length fs)%nat with 0%nat by lia. done.
    - rewrite lookup_insert_ne by congruence. rewrite Hfr. destruct (N.leb_spec c x); [|done].
      unfold g. destruct (decide (N.to_nat (x - c) < length fs)%nat); [by rewrite lookup_app_l|].
      rewrite lookup_app_r, (lookup_ge_None_2 fs) by lia. symmetry. apply lookup_ge_None_2. simpl. lia. }
  destruct Hpop as (Hd' & Hrun & Hbuf & Hoth'). change (jb_target_depth b' = jb_target_depth b) in Hd'.
  assert (∀ i x, ready !! i = Some x → g !! i = Some x) as Hpre.
  { intros i x Hi. apply (run_from_lookup _ _ _ _ _ _ Hrun) in Hi. rewrite Hb0 in Hi.
    destruct (N.leb_spec c (c + N.of_nat i)); [|lia].
    by replace (N.to_nat (c + N.of_nat i - c)) with i in Hi by lia. }
  assert (ready = take (length ready) g) as Hready.
  { apply list_eq. intros i. destruct (ready !! i) as [x|] eqn:Hi.
    - rewrite lookup_take_lt by (by eapply lookup_lt_Some). symmetry. by apply Hpre.
    - symmetry. apply lookup_ge_None_2. rewrite length_take. apply lookup_ge_None in Hi. lia. }
  assert (buffered_len_for_speaker (admit_frame b k f) k = N.of_nat (length g)) as Hlen0.
  { rewrite buffered_len_admit, Hlen; [lia|]. rewrite Hfr. destruct (N.leb_spec c (da_counter f)); [|done].
    apply lookup_ge_None_2. lia. }
  assert (length ready ≤ length g)%nat as HL by lia.
  destruct (N.ltb_spec u64_max (c + N.of_nat (length ready))); [lia|].
  assert (buffered_len_for_speaker b' k ≤ jb_target_depth b) as Hle.
  { rewrite <- Hd'. destruct Hst as [[_ ?]|[?|(x & Hx & Hmiss)]]; [done|congruence|].
    rewrite Hn' in Hx. injection Hx as <-. rewrite Hbuf, bool_decide_false, Hb0 in Hmiss by lia.
    destruct (N.leb_spec c (c + N.of_nat (length ready))); [|lia]. apply lookup_ge_None in Hmiss. lia. }
  assert (length ready = n) as HLn.
  { unfold n. simpl in Hmore. destruct (N.ltb_spec (jb_target_depth b) (N.of_nat (S (length fs)))).
    - destruct Hmore as [->|[?|?]]; simpl in *; [lia|done|lia].
    - destruct Hmore as [->|[?|?]]; [done|done|lia]. }
  rewrite HLn in *. exists b'. split; [by rewrite Hpush, <- Hready|]. split; [done|].
  split.
  - done.
  - by left.
  - intros x. rewrite Hbuf, Hb0. rewrite lookup_drop. case_bool_decide as Hx.
    + destruct (N.leb_spec (c + N.of_nat n) x); [lia|done].
    + destruct (N.leb_spec c x), (N.leb_spec (c + N.of_nat n) x); try lia; try done; [|naive_solver lia].
      f_equal. lia.
  - rewrite length_drop. lia.
  - intros k' Hk'. rewrite Hoth' by done. simpl. rewrite lookup_insert_ne by done. auto.
Qed.

(** Taking [m] and then [q] items off a growing list. *)
Lemma window_step {A} (m q : nat) (fs l : list A) f :
  (m ≤ length (fs ++ [f]))%nat →
  take m (fs ++ [f]) ++ take q (drop m (fs ++ [f]) ++ l) = take (m + q) (fs ++ f :: l) ∧
  drop q (drop m (fs ++ [f]) ++ l) = drop (m + q) (fs ++ f :: l).
Proof.
  intros Hm. change (f :: l) with ([f] ++ l). rewrite (assoc_L (++)).
  rewrite <- (drop_app_le (fs ++ [f]) l) by done. rewrite drop_drop. split; [|done].
  rewrite <- (take_app_le (fs ++ [f]) l) by done. apply take_take_drop.
Qed.

Lemma push_all_in_order b k c fs l :
  holding b k c fs → N.of_nat (length fs) ≤ jb_target_depth b →
  Forall (λ f, valid_frame f ∧ speaker_of (da_sender f) = k) l →
  da_counter <$> l = (λ i, c + N.of_nat (length fs + i)) <$> seq 0 (length l) →
  c + N.of_nat (length fs + length l) ≤ u64_max →
  let n := (length fs + length l - N.to_nat (jb_target_depth b))%nat in
  (push_all b l).2 = take n (fs ++ l) ∧
  holding (push_all b l).1 k (c + N.of_nat n) (drop n (fs ++ l)).
Proof.
  revert b c fs. induction l as [|f l IH]; intros b c fs Hh Hd Hall Hcs Hmax n.
  { assert (n = 0%nat) as -> by (unfold n; simpl; lia). rewrite app_nil_r, N.add_0_r. done. }
  apply Forall_cons in Hall as [[Hv Hk] Hall]. cbn [length seq] in Hcs. rewrite !fmap_cons in Hcs.
  injection Hcs as Hc Hcs. rewrite Nat.add_0_r in Hc. simpl in Hmax.
  destruct (push_in_order b k c fs f Hh Hv Hk Hc) as (b1 & Hp & Hd1 & Hh1); [lia|done|].
  set (m := if jb_target_depth b <? _ then 1%nat else 0%nat) in *.
  assert (m = length fs + 1 - N.to_nat (jb_target_depth b))%nat as Hm.
  { unfold m. destruct (N.ltb_spec (jb_target_depth b) (N.of_nat (S (length fs)))); lia. }
  destruct (IH b1 (c + N.of_nat m) (drop m (fs ++ [f])) Hh1) as [Hout Hh2].
  - rewrite length_drop, length_app, Hd1. simpl. lia.
  - done.
  - rewrite Hcs, <- seq_shift, <- list_fmap_compose. apply list_fmap_ext. intros i x _. simpl.
    rewrite length_drop, length_app. simpl. lia.
  - rewrite length_drop, length_app. simpl. lia.
  - rewrite length_drop, length_app, Hd1 in Hout, Hh2. cbn [length] in Hout, Hh2.
    set (q := (_ - N.to_nat (jb_target_depth b))%nat) in Hout, Hh2.
    assert (n = m + q)%nat as -> by (unfold n, q; simpl; lia). cbn [push_all]. rewrite Hp.
    destruct (push_all b1 l) as [b2 out]. simpl in Hout, Hh2 |- *.
    destruct (window_step m q fs l f) as [Htake Hdrop]; [rewrite length_app; simpl; lia|].
    rewrite Hdrop in Hh2. rewrite Hout, Htake. split; [done|].
    by replace (c + N.of_nat (m + q)) with (c + N.of_nat m + N.of_nat q) by lia.
Qed.

Lemma entries_singleton (m : gmap SpeakerPlaybackKey N) k v : m = {[k := v]} → entries m = [(k, v)].
Proof. intros ->. unfold entries. by rewrite map_to_list_singleton. Qed.

Lemma jitter_new_holding d k c : holding (jitter_new d) k c [].
Proof.
  split; simpl.
  - apply jitter_new_wf.
  - by right.
  - intros x. rewrite lookup_empty. by destruct (c <=? x).
  - done.
  - done.
Qed.

(** Draining a speaker whose frames are contiguous empties it. *)
Lemma drain_holding b k c fs :
  holding b k c fs → c + N.of_nat (length fs) ≤ u64_max → jb_next b !! k = Some c →
  (pop_ready_for_speaker b k true).2 = fs.
Proof.
  intros [Hwf _ Hfr Hlen _] Hmax Hc. unfold pop_ready_for_speaker.
  pose proof (pop_loop_spec (S (size (jb_buffered b))) b k true Hwf (Nat.lt_succ_diag_r _)) as Hp.
  destruct (pop_loop _ b k true) as [b' ready]. rewrite Hc in Hp.
  destruct Hp as (_ & Hst & [Hcnt _] & (_ & Hrun & Hbuf & _) & Hn').
  assert (∀ i x, ready !! i = Some x → fs !! i = Some x) as Hpre.
  { intros i x Hi. apply (run_from_lookup _ _ _ _ _ _ Hrun) in Hi. rewrite Hfr in Hi.
    destruct (N.leb_spec c (c + N.of_nat i)); [|lia].
    by replace (N.to_nat (c + N.of_nat i - c)) with i in Hi by lia. }
  assert (length ready ≤ length fs)%nat as Hle by lia.
  assert (length fs ≤ length ready)%nat as Hge.
  { destruct (N.ltb_spec u64_max (c + N.of_nat (length ready))); [lia|].
    destruct Hst as [[? _]|[?|(x & Hx & Hmiss)]]; [done|congruence|].
    rewrite Hn' in Hx. injection Hx as <-. rewrite Hbuf, bool_decide_false, Hfr in Hmiss by lia.
    destruct (N.leb_spec c (c + N.of_nat (length ready))); [|lia]. apply lookup_ge_None in Hmiss. lia. }
  assert (ready = fs) as ->.
  { apply list_eq. intros i. destruct (ready !! i) as [x|] eqn:Hi; [symmetry; by apply Hpre|].
    apply lookup_ge_None in Hi. symmetry. apply lookup_ge_None_2. lia. }
  by destruct (bool_decide _ && bool_decide _).
Qed.

Lemma drain_contiguous_holding b k c fs :
  holding b k c fs → c + N.of_nat (length fs) ≤ u64_max → (drain_contiguous b).2 = fs.
Proof.
  intros Hh Hmax. unfold drain_contiguous. destruct (hold_next _ _ _ _ Hh) as [Hc|[Hc ->]].
  - rewrite (entries_singleton (jb_next b) k c).
    + cbn [fmap list_fmap fst drain_speakers]. pose proof (drain_holding _ _ _ _ Hh Hmax Hc) as Hdr.
      destruct (pop_ready_for_speaker b k true) as [b1 o1]. simpl in *. by rewrite app_nil_r.
    + apply map_eq. intros k'. destruct (decide (k' = k)) as [->|Hk'].
      * by rewrite lookup_singleton_eq.
      * rewrite lookup_singleton_ne by done. by apply (hold_other _ _ _ _ Hh).
  - assert (jb_next b = ∅) as ->; [|done].
    apply map_empty. intros k'. destruct (decide (k' = k)) as [->|Hk']; [done|].
    by apply (hold_other _ _ _ _ Hh).
Qed.

(** ** Properties *)

(** A push releases one run and loses nothing: in every state the buffer can reach, pushing
    a frame of a valid sender hands out frames of that speaker only, with consecutive
    counters from the smallest counter expected; what was buffered, with the new frame, is
    split exactly into what is handed out and what stays; frames leave only while more than
    the target depth is held, and stop leaving only at the depth or at a gap. *)
Theorem jitter_push_releases_a_run depth calls f :
  Forall call_u64 calls → binding_validate (da_sender f) = Ok tt → da_counter f ≤ u64_max →
  let b := foldl jitter_call (jitter_new depth) calls in
  let k := speaker_of (da_sender f) in
  let c := first_counter b k f in
  ∃ b' ready, jitter_push b f = (b', Ok ready) ∧
    da_counter <$> ready = ((λ i, c + N.of_nat i) <$> seq 0 (length ready)) ∧
    Forall (λ g, speaker_of (da_sender g) = k) ready ∧
    (∀ k' x g, <[(k, da_counter f) := f]> (jb_buffered b) !! (k', x) = Some g ↔
       jb_buffered b' !! (k', x) = Some g ∨ (k' = k ∧ da_counter g = x ∧ g ∈ ready)) ∧
    (∀ g, g ∈ ready → jb_buffered b' !! (k, da_counter g) = None) ∧
    (ready ≠ [] → jb_target_depth b' ≤ buffered_len_for_speaker b' k) ∧
    (buffered_len_for_speaker b' k ≤ jb_target_depth b' ∨ jb_next b' !! k = None ∨
     ∃ n, jb_next b' !! k = Some n ∧ jb_buffered b' !! (k, n) = None).
Proof.
  intros Hall Hb Hmax b k c.
  assert (jitter_wf b) as Hwf by (apply jitter_run_wf; [apply jitter_new_wf|done]).
  destruct (jitter_push_spec b f Hwf (conj Hb Hmax)) as
    (b' & ready & Hp & Hwf' & Hst & [_ Hmore] & (Hd & Hrun & Hbuf & _) & _).
  fold k in Hst, Hmore, Hd, Hrun, Hbuf. fold c in Hrun, Hbuf.
  pose proof (admit_frame_wf b f Hwf (conj Hb Hmax)) as Hwf0. fold k in Hwf0.
  destruct (run_from_counters _ _ _ _ (λ x g Hg, let '(conj H1 (conj H2 _)) := wf_entry _ Hwf0 k x g Hg in conj H1 H2) Hrun)
    as [Hcs Hks].
  assert (∀ g, g ∈ ready → jb_buffered (admit_frame b k f) !! (k, da_counter g) = Some g ∧
    c ≤ da_counter g < c + N.of_nat (length ready)) as Hin.
  { intros g [i Hi]%list_elem_of_lookup. pose proof (run_from_lookup _ _ _ _ _ _ Hrun Hi) as Hg.
    destruct (wf_entry _ Hwf0 _ _ _ Hg) as (_ & Hc & _). rewrite Hc. split; [done|].
    apply lookup_lt_Some in Hi. lia. }
  exists b', ready. split_and!; try done.
  - intros k' x g. change (<[(k, da_counter f) := f]> (jb_buffered b)) with (jb_buffered (admit_frame b k f)).
    rewrite Hbuf. case_bool_decide as Hx.
    + destruct Hx as [-> Hx]. split; [|intros [?|(_ & <- & Hg)]; [done|by apply Hin]]. intros Hg. right.
      destruct (lookup_lt_is_Some_2 ready (N.to_nat (x - c))) as [g' Hg']; [lia|].
      pose proof (run_from_lookup _ _ _ _ _ _ Hrun Hg') as Hg2.
      replace (c + N.of_nat (N.to_nat (x - c))) with x in Hg2 by lia. rewrite Hg in Hg2. injection Hg2 as <-.
      split_and!; [done| |by eapply list_elem_of_lookup_2]. by apply (wf_entry _ Hwf0) in Hg as (_ & ? & _).
    + split; [by left|]. intros [?|(-> & <- & Hg)]; [done|]. by apply Hin.
  - intros g Hg. rewrite Hbuf, bool_decide_true; [done|]. split; [done|]. by apply Hin.
  - intros Hne. rewrite Hd. destruct Hmore as [?|[?|?]]; done.
  - destruct Hst as [[_ ?]|?]; auto.
Qed.

(** A stream without loss plays completely and in order: frames of one speaker with
    consecutive counters, pushed into a fresh buffer, come out in order with a delay of the
    target depth, and the frames still held come out, in order, when the buffer is drained. *)
Theorem in_order_stream_plays_completely depth k c l :
  Forall (λ f, binding_validate (da_sender f) = Ok tt ∧ speaker_of (da_sender f) = k) l →
  da_counter <$> l = ((λ i, c + N.of_nat i) <$> seq 0 (length l)) →
  c + N.of_nat (length l) ≤ u64_max →
  let '(b, played) := push_all (jitter_new depth) l in
  let n := (length l - N.to_nat depth)%nat in
  played = take n l ∧ (drain_contiguous b).2 = drop n l.
Proof.
  intros Hall Hcs Hmax.
  destruct (push_all_in_order (jitter_new depth) k c [] l (jitter_new_holding depth k c)) as [Hout Hh];
    [simpl; lia| |done|done|].
  { apply Forall_forall. intros f Hf. rewrite Forall_forall in Hall. destruct (Hall f Hf) as [Hb Hk].
    split; [split; [done|]|done]. apply (list_elem_of_fmap_2 da_counter) in Hf. rewrite Hcs in Hf.
    apply list_elem_of_fmap in Hf as (i & -> & Hi). apply elem_of_seq in Hi. lia. }
  simpl in Hout, Hh. destruct (push_all (jitter_new depth) l) as [b played] eqn:E. simpl in *.
  set (n := (length l - N.to_nat depth)%nat) in *. split; [done|].
  eapply drain_contiguous_holding; [exact Hh|]. rewrite length_drop. unfold n. lia.
Qed.

(** Frames behind a gap are taken in and nothing is handed out. *)
Lemma push_behind_gap b k n f :
  jb_next b !! k = Some n → jb_buffered b !! (k, n) = None →
  binding_validate (da_sender f) = Ok tt → speaker_of (da_sender f) = k → n < da_counter f →
  jitter_push b f = (admit_frame b k f, Ok []) ∧
  jb_next (admit_frame b k f) !! k = Some n ∧ jb_buffered (admit_frame b k f) !! (k, n) = None.
Proof.
  intros Hn Hgap Hb Hk Hc.
  assert (jb_next (admit_frame b k f) !! k = Some n) as Hn'.
  { simpl. rewrite lookup_insert_eq, Hn. f_equal. lia. }
  assert (jb_buffered (admit_frame b k f) !! (k, n) = None) as Hgap'.
  { simpl. rewrite lookup_insert_ne; [done|]. intros [= ?]. lia. }
  split; [|done]. unfold jitter_push, from_sender. rewrite Hb. cbn [rbind]. rewrite Hk.
  rewrite (pop_ready_eq _ _ _ (admit_frame b k f) []); [done| |].
  - cbn [pop_loop]. rewrite Hn', Hgap'. by destruct (false || _).
  - left. intros He. assert (frames_of k (admit_frame b k f) !! (k, da_counter f) = Some f) as Hx.
    { apply map_lookup_filter_Some. split; [|done]. apply lookup_insert_eq. }
    by rewrite He in Hx.
Qed.

Lemma push_all_behind_gap b k n l :
  jb_next b !! k = Some n → jb_buffered b !! (k, n) = None →
  Forall (λ f, binding_validate (da_sender f) = Ok tt ∧ speaker_of (da_sender f) = k ∧
               n < da_counter f) l →
  ∃ b', push_all b l = (b', []) ∧ jb_next b' !! k = Some n ∧ jb_buffered b' !! (k, n) = None ∧
    (∀ x, is_Some (jb_buffered b !! (k, x)) → is_Some (jb_buffered b' !! (k, x))) ∧
    ∀ f, f ∈ l → is_Some (jb_buffered b' !! (k, da_counter f)).
Proof.
  intros Hn Hgap Hall. revert b Hn Hgap. induction Hall as [|f l (Hb & Hk & Hc) _ IH]; intros b Hn Hgap.
  { exists b. split_and!; try done. by intros f []%not_elem_of_nil. }
  destruct (push_behind_gap b k n f Hn Hgap Hb Hk Hc) as (Hp & Hn' & Hgap').
  destruct (IH _ Hn' Hgap') as (b' & Hout & ? & ? & Hkeep & Hin).
  assert (∀ x, is_Some (jb_buffered b !! (k, x)) ∨ x = da_counter f →
               is_Some (jb_buffered (admit_frame b k f) !! (k, x))) as Hadm.
  { intros x Hx. simpl. destruct (decide (x = da_counter f)) as [->|?].
    - rewrite lookup_insert_eq. by eexists.
    - rewrite lookup_insert_ne by congruence. naive_solver. }
  exists b'. cbn [push_all]. rewrite Hp, Hout. split_and!; try done; [auto|].
  intros g [->|Hg]%elem_of_cons; [auto|by apply Hin].
Qed.

(** At depth 0 a frame pushed into an empty buffer leaves at once. *)
Lemma push_into_empty b k f :
  jb_target_depth b = 0 → jb_buffered b = ∅ →
  binding_validate (da_sender f) = Ok tt → speaker_of (da_sender f) = k → da_counter f < u64_max →
  (∀ n, jb_next b !! k = Some n → da_counter f < n) →
  ∃ b', jitter_push b f = (b', Ok [f]) ∧ jb_target_depth b' = 0 ∧ jb_buffered b' = ∅ ∧
        jb_next b' !! k = Some (da_counter f + 1).
Proof.
  intros Hd He Hb Hk Hm Hn. set (b0 := admit_frame b k f).
  assert (jb_next b0 !! k = Some (da_counter f)) as Hn0.
  { unfold b0. simpl. rewrite lookup_insert_eq. destruct (jb_next b !! k) as [n|]; [|done].
    specialize (Hn n eq_refl). f_equal. lia. }
  assert (jb_buffered b0 !! (k, da_counter f) = Some f) as Hbf by apply lookup_insert_eq.
  assert (jb_buffered (take_frame b0 k (da_counter f)) = ∅) as He'.
  { simpl. rewrite He, insert_empty. apply delete_singleton_eq. }
  assert (jb_next (take_frame b0 k (da_counter f)) !! k = Some (da_counter f + 1)) as Hn1.
  { cbn [take_frame jb_next]. destruct (N.leb_spec u64_max (da_counter f)); [lia|].
    by rewrite lookup_insert_eq. }
  assert (size (jb_buffered b0) = 1%nat) as Hsz
    by (unfold b0; simpl; rewrite He, insert_empty; apply map_size_singleton).
  assert (jb_target_depth b0 <? buffered_len_for_speaker b0 k = true) as Hgo.
  { apply N.ltb_lt. unfold b0. rewrite buffered_len_admit by (by rewrite He). simpl. lia. }
  exists (take_frame b0 k (da_counter f)). split_and!; try done.
  unfold jitter_push, from_sender. rewrite Hb. cbn [rbind]. rewrite Hk. fold b0.
  rewrite (pop_ready_eq _ _ _ (take_frame b0 k (da_counter f)) [f]); [done| |by right].
  rewrite Hsz. cbn [pop_loop]. rewrite Hgo. cbn [orb]. rewrite Hn0, Hbf, Hn1, He'.
  rewrite lookup_empty.
  destruct (jb_target_depth (take_frame b0 k (da_counter f)) <? _); reflexivity.
Qed.

(** One reordered frame silences a speaker for good: at depth 0, after frame [n] a late frame
    [m < n] is played out of order and the buffer then waits for frame [m + 1], so that of
    all later frames of the speaker none is played, not even by a drain, and all of them stay
    in memory. With [m + 1 = n] the awaited frame has been played already, and the replay
    window refuses it a second time. *)
Theorem late_frame_silences_the_speaker k f1 f0 l :
  Forall (λ f, binding_validate (da_sender f) = Ok tt ∧ speaker_of (da_sender f) = k) (f1 :: f0 :: l) →
  da_counter f0 < da_counter f1 → da_counter f1 < u64_max →
  Forall (λ f, da_counter f0 + 1 < da_counter f) l →
  ∃ b, push_all (jitter_new 0) (f1 :: f0 :: l) = (b, [f1; f0]) ∧
    (∀ f, f ∈ l → is_Some (jb_buffered b !! (k, da_counter f))) ∧
    (l ≠ [] → (pop_ready_for_speaker b k true).2 = []).
Proof.
  intros Hall Hlt Hmax Hl. apply Forall_cons in Hall as [[Hb1 Hk1] Hall].
  apply Forall_cons in Hall as [[Hb0 Hk0] Hall].
  destruct (push_into_empty (jitter_new 0) k f1) as (b1 & Hp1 & Hd1 & He1 & Hn1); [done..|].
  destruct (push_into_empty b1 k f0) as (b2 & Hp2 & Hd2 & He2 & Hn2); [done..|lia| |].
  { intros n Hn. rewrite Hn1 in Hn. injection Hn as <-. lia. }
  destruct (push_all_behind_gap b2 k (da_counter f0 + 1) l Hn2) as (b3 & Hp3 & Hn3 & Hg3 & _ & Hin).
  { by rewrite He2. }
  { apply Forall_forall. intros f Hf. rewrite !Forall_forall in *.
    destruct (Hall f Hf) as [? ?]. specialize (Hl f Hf). done. }
  exists b3. cbn [push_all]. rewrite Hp1, Hp2, Hp3. split_and!; [done..|].
  intros _. unfold pop_ready_for_speaker. cbn [pop_loop orb]. rewrite Hn3, Hg3.
  by destruct (bool_decide _ && bool_decide _).
Qed.

(** ** Witnesses *)

Section witnesses.
Definition ex_decoded (counter : N) : DecodedAudioFrame :=
  {| da_sender := ex_binding; da_counter := counter; da_format := mono_20ms_48khz; da_pcm_i16 := [] |}.

Lemma ex_binding_valid : binding_validate ex_binding = Ok tt.
Proof. vm_compute. reflexivity. Defined.

Lemma jitter_push_releases_a_run_witness :
  ∃ b' ready,
    jitter_push (foldl jitter_call (jitter_new 1) [JitterPush (ex_decoded 1)]) (ex_decoded 0)
    = (b', Ok ready) ∧
    Forall (λ g, speaker_of (da_sender g) = speaker_of ex_binding) ready.
Proof.
  destruct (jitter_push_releases_a_run 1 [JitterPush (ex_decoded 1)] (ex_decoded 0))
    as (b' & ready & Hp & _ & Hk & _).
  - repeat constructor. vm_compute. discriminate.
  - exact ex_binding_valid.
  - vm_compute. discriminate.
  - exists b', ready. split; [exact Hp|exact Hk].
Defined.

Lemma in_order_stream_plays_completely_witness :
  let '(b, played) := push_all (jitter_new 2) (ex_decoded <$> [7; 8; 9; 10]) in
  played = ex_decoded <$> [7; 8] ∧ (drain_contiguous b).2 = ex_decoded <$> [9; 10].
Proof.
  assert (Forall (λ f, binding_validate (da_sender f) = Ok tt ∧ speaker_of (da_sender f) = speaker_of ex_binding)
    (ex_decoded <$> [7; 8; 9; 10])) as Hall by (repeat constructor; apply ex_binding_valid).
  pose proof (in_order_stream_plays_completely 2 (speaker_of ex_binding) 7 (ex_decoded <$> [7; 8; 9; 10])
    Hall eq_refl ltac:(vm_compute; discriminate)) as Hplay.
  destruct (push_all (jitter_new 2) (ex_decoded <$> [7; 8; 9; 10])) as [b played]. exact Hplay.
Defined.

Lemma late_frame_silences_the_speaker_witness :
  ∃ b, push_all (jitter_new 0) (ex_decoded <$> [1; 0; 2; 3; 4]) = (b, ex_decoded <$> [1; 0]).
Proof.
  destruct (late_frame_silences_the_speaker (speaker_of ex_binding) (ex_decoded 1) (ex_decoded 0)
    (ex_decoded <$> [2; 3; 4])) as (b & Hp & _).
  - repeat constructor; apply ex_binding_valid.
  - vm_compute. reflexivity.
  - vm_compute. reflexivity.
  - repeat constructor.
  - exists b. exact Hp.
Defined.
End witnesses.
