(* ===== verification/VoicePipeline.v ===== *)
(** * Voice pipelines

    The second half of [crates/media/src/capture.rs]: PCM is encoded with Opus, protected by
    the transform bridge and handed to the transport sink, unless muted; protected frames are
    opened, decoded, observed by the speaker's voice activity detector, reordered in the
    jitter buffer, scaled and queued for playback. The Opus library is a parameter, the sinks
    are the two traits of the source. *)

From S2P Require Import Prelude Collections Bytes StrOps Crypto ReplayWindow SFrame VoiceAudio JitterBuffer.

(** ** The Opus library and the sinks *)

(** [libopus_rs]: encoders and decoders are mutable, errors are shown as text. *)
Class OpusCodec := {
  OpusEnc : Type;
  OpusDec : Type;
  opus_encoder_new (rate channels : N) : result OpusEnc string;
  opus_encode_i16 (e : OpusEnc) (p : pcm) (samples_per_channel : N) : OpusEnc * result bytes string;
  opus_decoder_new (rate channels : N) : result OpusDec string;
  opus_decode_i16 (d : OpusDec) (payload : bytes) : OpusDec * result pcm string
}.

(** What Opus documents: an encoder and a decoder keep the stream parameters they were made
    for, and a packet decodes, in any state of a decoder with the same parameters, to as many
    samples per channel as were encoded. *)
Class OpusCodecLaws `{OpusCodec} := {
  enc_stream : OpusEnc → N * N;
  dec_stream : OpusDec → N * N;
  opus_encoder_stream rate channels e :
    opus_encoder_new rate channels = Ok e → enc_stream e = (rate, channels);
  opus_decoder_stream rate channels d :
    opus_decoder_new rate channels = Ok d → dec_stream d = (rate, channels);
  opus_encode_stream e p n : enc_stream (opus_encode_i16 e p n).1 = enc_stream e;
  opus_frame_size e d p n payload :
    (opus_encode_i16 e p n).2 = Ok payload → enc_stream e = dec_stream d →
    ∃ d' out, opus_decode_i16 d payload = (d', Ok out) ∧ dec_stream d' = dec_stream d ∧
      samples out = n * (dec_stream d).2
}.

Class PlaybackAudioSink (S : Type) :=
  queue_playback_frame : S → DecodedAudioFrame → S * result unit MediaError.

Class ProtectedMediaFrameSink (S : Type) :=
  send_protected_media_frame : S → BridgeProtectedFrame → S * result unit MediaError.

Definition MIN_OPUS_PACKET_BYTES : N := 3.
Definition MAX_OPUS_PACKET_BYTES : N := 1275.

Section codec.
Context `{OpusCodec}.

(** ** Encoding *)

Record EncodedOpusFrame := {
  eo_sequence : N;
  eo_format : AudioCaptureFormat;
  eo_captured_at_ms : N;
  eo_opus_payload : bytes
}.

Record OpusAudioEncoder := {
  oe_encoder : OpusEnc;
  oe_format : AudioCaptureFormat;
  oe_next_sequence : N
}.

Definition audio_encoder_new (f : AudioCaptureFormat) : result OpusAudioEncoder MediaError :=
  check capture_format_validate f in
  let* e := map_err OpusEncodeFailed (opus_encoder_new (ac_sample_rate_hz f) (ac_channels f)) in
  Ok {| oe_encoder := e; oe_format := f; oe_next_sequence := 0 |}.

Definition with_encoder (e : OpusAudioEncoder) (x : OpusEnc) (next : N) : OpusAudioEncoder :=
  {| oe_encoder := x; oe_format := oe_format e; oe_next_sequence := next |}.

Definition audio_encode (e : OpusAudioEncoder) (f : CapturedAudioFrame) :
    OpusAudioEncoder * result EncodedOpusFrame MediaError :=
  if negb (bool_decide (ca_format f = oe_format e)) then
    (e, Err (InvalidAudioFrame "captured frame format changed inside one Opus encoder stream"))
  else
    let '(x, r) := opus_encode_i16 (oe_encoder e) (ca_pcm_i16 f) (samples_per_channel (oe_format e)) in
    let e1 := with_encoder e x (oe_next_sequence e) in
    match map_err OpusEncodeFailed r with
    | Err err => (e1, Err err)
    | Ok payload =>
        if (len payload <? MIN_OPUS_PACKET_BYTES) || (MAX_OPUS_PACKET_BYTES <? len payload) then
          (e1, Err (OpusEncodeFailed "Opus encoder produced an empty, oversized, or invalid packet"))
        else if u64_max <=? oe_next_sequence e then (e1, Err CounterOverflow)
        else
          (with_encoder e x (oe_next_sequence e + 1),
           Ok {| eo_sequence := oe_next_sequence e; eo_format := ca_format f;
                 eo_captured_at_ms := ca_captured_at_ms f; eo_opus_payload := payload |})
    end.

(** ** Decoding *)

Record OpusAudioDecoder := { od_decoder : OpusDec; od_format : AudioCaptureFormat }.

Definition audio_decoder_new (f : AudioCaptureFormat) : result OpusAudioDecoder MediaError :=
  check capture_format_validate f in
  let* d := map_err OpusDecodeFailed (opus_decoder_new (ac_sample_rate_hz f) (ac_channels f)) in
  Ok {| od_decoder := d; od_format := f |}.

Definition audio_decode (d : OpusAudioDecoder) (payload : bytes) :
    OpusAudioDecoder * result pcm MediaError :=
  let '(x, r) := opus_decode_i16 (od_decoder d) payload in
  let d1 := {| od_decoder := x; od_format := od_format d |} in
  (d1,
   let* p := map_err OpusDecodeFailed r in
   check reject_if (negb (samples p =? interleaved_samples_per_frame (od_format d)))
     (OpusDecodeFailed ("decoded " +:+ pretty (samples p) +:+ " PCM samples, expected "
        +:+ pretty (interleaved_samples_per_frame (od_format d)))) in
   Ok p).

(** ** The capture pipeline *)

Record VoiceCaptureSendReport := {
  cr_sequence : N;
  cr_captured_at_ms : N;
  cr_opus_payload_len : N;
  cr_protected_payload_len : N;
  cr_kid : bytes;
  cr_counter : N;
  cr_audio_level : VoiceActivityLevel
}.

Inductive VoiceCaptureSendOutcome :=
| Sent (report : VoiceCaptureSendReport)
| Muted (captured_at_ms dropped_pcm_samples : N).

Record VoiceCaptureSFramePipeline (S : Type) := {
  vc_encoder : OpusAudioEncoder;
  vc_bridge : RustTransformBridge;
  vc_sink : S;
  vc_muted : bool;
  vc_vad : VoiceActivityDetector
}.
#[global] Arguments vc_encoder {S}. #[global] Arguments vc_bridge {S}. #[global] Arguments vc_sink {S}.
#[global] Arguments vc_muted {S}. #[global] Arguments vc_vad {S}.
#[global] Arguments Build_VoiceCaptureSFramePipeline {S}.

Definition capture_pipeline_new {S} (e : OpusAudioEncoder) (t : RustTransformBridge) (sink : S) :
    VoiceCaptureSFramePipeline S :=
  {| vc_encoder := e; vc_bridge := t; vc_sink := sink; vc_muted := false;
     vc_vad := vad_voice_defaults |}.

Definition set_muted {S} (p : VoiceCaptureSFramePipeline S) (muted : bool) :
    VoiceCaptureSFramePipeline S :=
  {| vc_encoder := vc_encoder p; vc_bridge := vc_bridge p; vc_sink := vc_sink p; vc_muted := muted;
     vc_vad := vc_vad p |}.

Section capture.
Context `{Sha256, Aes256Gcm} {S : Type} `{ProtectedMediaFrameSink S}.

Definition capture_encode_protect_or_mute (p : VoiceCaptureSFramePipeline S) (f : CapturedAudioFrame) :
    VoiceCaptureSFramePipeline S * result VoiceCaptureSendOutcome MediaError :=
  if vc_muted p then (p, Ok (Muted (ca_captured_at_ms f) (samples (ca_pcm_i16 f))))
  else
    let '(vad, level) := observe_local_capture (vc_vad p) f in
    let state e t s :=
      {| vc_encoder := e; vc_bridge := t; vc_sink := s; vc_muted := vc_muted p; vc_vad := vad |} in
    match level with
    | Err err => (state (vc_encoder p) (vc_bridge p) (vc_sink p), Err err)
    | Ok level =>
        let '(e, encoded) := audio_encode (vc_encoder p) f in
        match encoded with
        | Err err => (state e (vc_bridge p) (vc_sink p), Err err)
        | Ok encoded =>
            let '(t, protected) := protect_encoded (vc_bridge p) (eo_opus_payload encoded) in
            match protected with
            | Err err => (state e t (vc_sink p), Err err)
            | Ok protected =>
                let '(s, sent) := send_protected_media_frame (vc_sink p) protected in
                (state e t s,
                 check sent in
                 Ok (Sent {| cr_sequence := eo_sequence encoded;
                             cr_captured_at_ms := eo_captured_at_ms encoded;
                             cr_opus_payload_len := len (eo_opus_payload encoded);
                             cr_protected_payload_len := len (bp_bytes protected);
                             cr_kid := bp_kid protected; cr_counter := bp_counter protected;
                             cr_audio_level := level |}))
            end
        end
    end.

Definition capture_encode_protect_send (p : VoiceCaptureSFramePipeline S) (f : CapturedAudioFrame) :
    VoiceCaptureSFramePipeline S * result VoiceCaptureSendReport MediaError :=
  let '(p', r) := capture_encode_protect_or_mute p f in
  (p', let* outcome := r in
       match outcome with Sent report => Ok report | Muted _ _ => Err MediaMuted end).
End capture.

(** ** The receive pipeline *)

Record VoiceReceiveSFramePipeline (S : Type) := {
  vr_bridge : RustTransformBridge;
  vr_playback_format : AudioCaptureFormat;
  vr_decoders : gmap SpeakerPlaybackKey OpusAudioDecoder;
  vr_vads : gmap SpeakerPlaybackKey VoiceActivityDetector;
  vr_last_activity : gmap SpeakerPlaybackKey VoiceActivityLevel;
  vr_jitter : VoiceJitterBuffer;
  vr_mixer : PlaybackVolumeMixer;
  vr_sink : S
}.
#[global] Arguments vr_bridge {S}. #[global] Arguments vr_playback_format {S}.
#[global] Arguments vr_decoders {S}. #[global] Arguments vr_vads {S}.
#[global] Arguments vr_last_activity {S}. #[global] Arguments vr_jitter {S}.
#[global] Arguments vr_mixer {S}. #[global] Arguments vr_sink {S}.

Definition receive_with_volume_mixer {S} (t : RustTransformBridge) (d : OpusAudioDecoder)
    (j : VoiceJitterBuffer) (m : PlaybackVolumeMixer) (sink : S) : VoiceReceiveSFramePipeline S :=
  {| vr_bridge := t; vr_playback_format := od_format d; vr_decoders := ∅; vr_vads := ∅;
     vr_last_activity := ∅; vr_jitter := j; vr_mixer := m; vr_sink := sink |}.

Definition receive_pipeline_new {S} (t : RustTransformBridge) (d : OpusAudioDecoder)
    (j : VoiceJitterBuffer) (sink : S) : VoiceReceiveSFramePipeline S :=
  receive_with_volume_mixer t d j mixer_unity sink.

(** The fields a received frame changes. *)
Definition receive_state {S} (p : VoiceReceiveSFramePipeline S) (t : RustTransformBridge)
    (ds : gmap SpeakerPlaybackKey OpusAudioDecoder)
    (vs : gmap SpeakerPlaybackKey VoiceActivityDetector)
    (ls : gmap SpeakerPlaybackKey VoiceActivityLevel) (j : VoiceJitterBuffer) (s : S) :
    VoiceReceiveSFramePipeline S :=
  {| vr_bridge := t; vr_playback_format := vr_playback_format p; vr_decoders := ds; vr_vads := vs;
     vr_last_activity := ls; vr_jitter := j; vr_mixer := vr_mixer p; vr_sink := s |}.

Definition pipeline_set_speaker_volume {S} (p : VoiceReceiveSFramePipeline S) (b : SenderBinding)
    (v : N) : VoiceReceiveSFramePipeline S * result unit MediaError :=
  let '(m, r) := set_speaker_volume (vr_mixer p) b v in
  ({| vr_bridge := vr_bridge p; vr_playback_format := vr_playback_format p;
      vr_decoders := vr_decoders p; vr_vads := vr_vads p; vr_last_activity := vr_last_activity p;
      vr_jitter := vr_jitter p; vr_mixer := m; vr_sink := vr_sink p |}, r).

Definition speaker_volume {S} (p : VoiceReceiveSFramePipeline S) (b : SenderBinding) :
    result N MediaError :=
  volume_for_sender (vr_mixer p) b.

Definition last_voice_activity {S} (p : VoiceReceiveSFramePipeline S) (b : SenderBinding) :
    result (option VoiceActivityLevel) MediaError :=
  let* k := from_sender b in Ok (vr_last_activity p !! k).

Definition speaking_speakers {S} (p : VoiceReceiveSFramePipeline S) : list SpeakerPlaybackKey :=
  (filter (λ e, vl_speaking e.2 = true) (entries (vr_last_activity p))).*1.

Section receive.
Context `{Sha256, Aes256Gcm} {S : Type} `{PlaybackAudioSink S}.

(** [for frame in ready { .. }]: mix and queue until one fails. *)
Fixpoint queue_ready (m : PlaybackVolumeMixer) (s : S) (ready : list DecodedAudioFrame) :
    S * result unit MediaError :=
  match ready with
  | [] => (s, Ok tt)
  | f :: rest =>
      match mix_frame m f with
      | Err e => (s, Err e)
      | Ok mixed =>
          match queue_playback_frame s mixed with
          | (s', Err e) => (s', Err e)
          | (s', Ok _) => queue_ready m s' rest
          end
      end
  end.

Definition receive_protected_frame (p : VoiceReceiveSFramePipeline S) (frame : BridgeProtectedFrame) :
    VoiceReceiveSFramePipeline S * result N MediaError :=
  let '(t, opened) := open_protected_frame (vr_bridge p) frame in
  let upd ds vs ls j s := receive_state p t ds vs ls j s in
  let unchanged := upd (vr_decoders p) (vr_vads p) (vr_last_activity p) (vr_jitter p) (vr_sink p) in
  match opened with
  | Err e => (unchanged, Err e)
  | Ok v =>
      match from_sender (bv_sender v) with
      | Err e => (unchanged, Err e)
      | Ok k =>
          match (match vr_decoders p !! k with
                 | Some d => Ok d
                 | None => audio_decoder_new (vr_playback_format p)
                 end) with
          | Err e => (unchanged, Err e)
          | Ok decoder =>
              let '(d, decoded) := audio_decode decoder (bv_clear v) in
              let ds := <[k := d]> (vr_decoders p) in
              match decoded with
              | Err e => (upd ds (vr_vads p) (vr_last_activity p) (vr_jitter p) (vr_sink p), Err e)
              | Ok samples =>
                  let '(vad, level) :=
                    observe_remote_playback (default vad_voice_defaults (vr_vads p !! k))
                      (bv_sender v) (bv_counter v) (vr_playback_format p) samples in
                  let vs := <[k := vad]> (vr_vads p) in
                  match level with
                  | Err e => (upd ds vs (vr_last_activity p) (vr_jitter p) (vr_sink p), Err e)
                  | Ok level =>
                      let ls := <[k := level]> (vr_last_activity p) in
                      match jitter_push (vr_jitter p)
                              {| da_sender := bv_sender v; da_counter := bv_counter v;
                                 da_format := vr_playback_format p; da_pcm_i16 := samples |} with
                      | (j, Err e) => (upd ds vs ls j (vr_sink p), Err e)
                      | (j, Ok ready) =>
                          let '(s, queued) := queue_ready (vr_mixer p) (vr_sink p) ready in
                          (upd ds vs ls j s, check queued in Ok (N.of_nat (length ready)))
                      end
                  end
              end
          end
      end
  end.

Definition flush_playback (p : VoiceReceiveSFramePipeline S) :
    VoiceReceiveSFramePipeline S * result N MediaError :=
  let '(j, ready) := drain_contiguous (vr_jitter p) in
  let '(s, queued) := queue_ready (vr_mixer p) (vr_sink p) ready in
  (receive_state p (vr_bridge p) (vr_decoders p) (vr_vads p) (vr_last_activity p) j s,
   check queued in Ok (N.of_nat (length ready))).
End receive.
End codec.

(** ** Lemmas: capture *)

(** A sink that records what it is handed before passing it on. *)
#[export] Instance recording_sink {S} `{ProtectedMediaFrameSink S} :
    ProtectedMediaFrameSink (S * list BridgeProtectedFrame) :=
  λ s f, let '(s', r) := send_protected_media_frame s.1 f in ((s', s.2 ++ [f]), r).

Inductive CaptureCall := CallMute (muted : bool) | CallCapture (f : CapturedAudioFrame).

Lemma seq_snoc_counters (c : N) (n : nat) :
  (λ i, c + N.of_nat i) <$> seq 0 (S n) = ((λ i, c + N.of_nat i) <$> seq 0 n) ++ [c + N.of_nat n].
Proof. by rewrite seq_S, fmap_app. Qed.

Section capture_lemmas.
Context `{Hcodec : OpusCodec, Sha256, Aes256Gcm} {S : Type} `{Hsink : ProtectedMediaFrameSink S}.

Abbreviation pipeline := (VoiceCaptureSFramePipeline (S * list BridgeProtectedFrame)).

Definition capture_call (p : pipeline) (c : CaptureCall) : pipeline :=
  match c with
  | CallMute muted => set_muted p muted
  | CallCapture f => (capture_encode_protect_or_mute p f).1
  end.

(** How many frames are captured while not muted. *)
Fixpoint unmuted_captures (muted : bool) (calls : list CaptureCall) : nat :=
  match calls with
  | [] => 0
  | CallMute m :: rest => unmuted_captures m rest
  | CallCapture _ :: rest => (if muted then 0 else 1) + unmuted_captures muted rest
  end.

(** [P] is what is known of the Opus encoder's states. *)
Variable P : OpusEnc → Prop.
Hypothesis P_encode : ∀ e q n, P e → P (opus_encode_i16 e q n).1.

Definition sealed_voice (fmt : AudioCaptureFormat) (s : SFrameSender) (f : BridgeProtectedFrame) :
    Prop :=
  ∃ x q payload, P x ∧ (opus_encode_i16 x q (samples_per_channel fmt)).2 = Ok payload ∧
    MIN_OPUS_PACKET_BYTES ≤ len payload ≤ MAX_OPUS_PACKET_BYTES ∧
    key_protect (ss_key s) (ss_binding s) (bp_counter f) payload = Ok (from_bridge f).

Record capture_inv (fmt : AudioCaptureFormat) (s : SFrameSender) (p : pipeline) : Prop := {
  ci_format : oe_format (vc_encoder p) = fmt;
  ci_enc : P (oe_encoder (vc_encoder p));
  ci_binding : ss_binding (tb_sender (vc_bridge p)) = ss_binding s;
  ci_key : ss_key (tb_sender (vc_bridge p)) = ss_key s;
  ci_next : ss_next_counter (tb_sender (vc_bridge p)) =
            ss_next_counter s + N.of_nat (length (vc_sink p).2);
  ci_counters : bp_counter <$> (vc_sink p).2 =
    (λ i, ss_next_counter s + N.of_nat i) <$> seq 0 (length (vc_sink p).2);
  ci_frames : Forall (sealed_voice fmt s) (vc_sink p).2
}.

(** The encoder's step. *)
Lemma audio_encode_cases e f :
  P (oe_encoder e) →
  oe_format (audio_encode e f).1 = oe_format e ∧ P (oe_encoder (audio_encode e f).1) ∧
  ∀ o, (audio_encode e f).2 = Ok o →
    (∃ x q, P x ∧ (opus_encode_i16 x q (samples_per_channel (oe_format e))).2 = Ok (eo_opus_payload o)) ∧
    MIN_OPUS_PACKET_BYTES ≤ len (eo_opus_payload o) ≤ MAX_OPUS_PACKET_BYTES.
Proof using P_encode.
  intros HP. pose proof (P_encode _ (ca_pcm_i16 f) (samples_per_channel (oe_format e)) HP) as HP'.
  unfold audio_encode. case_bool_decide as Hf; cbn [negb]; [|naive_solver].
  destruct (opus_encode_i16 (oe_encoder e) (ca_pcm_i16 f) (samples_per_channel (oe_format e)))
    as [x [payload|err]] eqn:E; cbn [map_err]; [|simpl; naive_solver]. simpl in HP'.
  destruct (N.ltb_spec (len payload) MIN_OPUS_PACKET_BYTES); [simpl; naive_solver|].
  destruct (N.ltb_spec MAX_OPUS_PACKET_BYTES (len payload)); [simpl; naive_solver|]. cbn [orb].
  destruct (u64_max <=? oe_next_sequence e); [simpl; naive_solver|]. cbn [fst snd with_encoder oe_format oe_encoder].
  split_and!; [done..|]. intros o [= <-]. cbn [eo_opus_payload]. split; [|done].
  exists (oe_encoder e), (ca_pcm_i16 f). by rewrite E.
Qed.

(** One capture hands out at most one frame, which is sealed; none when muted. *)
Lemma capture_step fmt s p f :
  capture_inv fmt s p →
  let p' := (capture_encode_protect_or_mute p f).1 in
  capture_inv fmt s p' ∧ vc_muted p' = vc_muted p ∧
  (length (vc_sink p').2 ≤ length (vc_sink p).2 + if vc_muted p then 0 else 1)%nat.
Proof using P_encode.
  intros Hinv. pose proof Hinv as [Hfmt Henc Hb Hk Hn Hcs Hfs].
  unfold capture_encode_protect_or_mute. destruct (vc_muted p) eqn:Hm; [simpl; split_and!; [done..|lia]|].
  destruct (observe_local_capture (vc_vad p) f) as [vad [level|err]]; cbv zeta; cbn [fst].
  2: { split_and!; [|done|simpl; lia]. by split. }
  destruct (audio_encode_cases (vc_encoder p) f Henc) as (Hfmt' & Henc' & Hpay).
  rewrite Hfmt in Hfmt', Hpay.
  destruct (audio_encode (vc_encoder p) f) as [e [o|err]]; cbn [fst snd] in *.
  2: { split_and!; [|done|simpl; lia]. by split. }
  destruct (Hpay o eq_refl) as [(x & q & Hx & Hq) Hlen]. unfold protect_encoded.
  pose proof (sender_protect_cases (tb_sender (vc_bridge p)) (eo_opus_payload o)) as Hsp.
  destruct (sender_protect (tb_sender (vc_bridge p)) (eo_opus_payload o)) as [s' [g|err]]; cbn [rmap].
  2: { subst s'. split_and!; [|done|simpl; lia]. by split. }
  destruct Hsp as [Hg ->]. unfold send_protected_media_frame, recording_sink, send_protected_media_frame.
  destruct (vc_sink p) as [sink log]. cbn [fst snd] in *.
  destruct (Hsink sink (to_bridge g)) as [sink' sent]. cbn [fst].
  assert (bp_counter (to_bridge g) = ss_next_counter s + N.of_nat (length log)) as Hc.
  { destruct (key_protect_frame _ _ _ _ _ Hg) as [_ Hc]. simpl. rewrite Hc, Hn. done. }
  assert (length (log ++ [to_bridge g]) = Datatypes.S (length log)) as Hl by (rewrite length_app; simpl; lia).
  split_and!; [|done|simpl; rewrite length_app; simpl; lia].
  split; cbn [vc_encoder vc_bridge vc_sink tb_sender ss_binding ss_key ss_next_counter snd].
  1-4: done.
  - rewrite Hl, Hn. lia.
  - rewrite Hl, fmap_app, Hcs, seq_snoc_counters. simpl. by rewrite <- Hc.
  - apply Forall_app; split; [done|]. apply Forall_singleton. exists x, q, (eo_opus_payload o).
    do 3 (split; [done|]). rewrite Hc, <- Hn, <- Hb, <- Hk. destruct g; exact Hg.
Qed.

Lemma capture_run fmt s p calls :
  capture_inv fmt s p →
  let p' := foldl capture_call p calls in
  capture_inv fmt s p' ∧
  (length (vc_sink p').2 ≤ length (vc_sink p).2 + unmuted_captures (vc_muted p) calls)%nat.
Proof using P_encode.
  revert p. induction calls as [|c calls IH]; intros p Hinv; [simpl; split; [done|lia]|].
  destruct c as [muted|f]; cbn [foldl capture_call unmuted_captures].
  - destruct (IH (set_muted p muted)) as [H1 H2]; [by destruct Hinv; split|]. split; [done|exact H2].
  - destruct (capture_step fmt s p f Hinv) as (Hi & Hm & Hl). destruct (IH _ Hi) as [H1 H2].
    split; [done|]. rewrite Hm in H2. lia.
Qed.

Lemma capture_inv_new s e t sink :
  tb_sender t = s → P (oe_encoder e) →
  capture_inv (oe_format e) s (capture_pipeline_new e t (sink, [])).
Proof. intros <- He. split; simpl; try done. lia. Qed.
End capture_lemmas.

(** ** Lemmas: receiving *)

(** Playback that keeps what it is given. *)
#[export] Instance playback_log : PlaybackAudioSink (list DecodedAudioFrame) :=
  λ log f, (log ++ [f], Ok tt).

(** A frame with its samples scaled to a volume. *)
Definition scaled (v : N) (f : DecodedAudioFrame) : DecodedAudioFrame :=
  {| da_sender := da_sender f; da_counter := da_counter f; da_format := da_format f;
     da_pcm_i16 := (λ s, apply_volume s v) <$> da_pcm_i16 f |}.

Lemma queue_ready_log m log b v ready :
  volume_for_sender m b = Ok v → Forall (λ f, da_sender f = b) ready →
  queue_ready m log ready = (log ++ (scaled v <$> ready), Ok tt).
Proof.
  intros Hv Hall. revert log. induction Hall as [|f ready Hf _ IH]; intros log.
  - simpl. by rewrite app_nil_r.
  - cbn [queue_ready]. unfold mix_frame. rewrite Hf, Hv. cbn [rbind].
    unfold queue_playback_frame, playback_log at 1. rewrite IH, fmap_cons, <- (assoc_L (++)). simpl.
    unfold scaled at 2. by rewrite Hf.
Qed.

Lemma choose_list {A B} (R : A → B → Prop) l :
  Forall (λ x, ∃ y, R x y) l → ∃ k : list (A * B), fst <$> k = l ∧ Forall (λ w, R w.1 w.2) k.
Proof.
  induction 1 as [|x l [y Hy] _ (k & <- & Hk)]; [by exists []|]. exists ((x, y) :: k). split; [done|by constructor].
Qed.

Section receive_lemmas.
Context `{Hcodec : OpusCodec, !OpusCodecLaws, Sha256, Aes256Gcm}.

(** The stream of one sender [b] in the format [fmt]. *)
Variables (fmt : AudioCaptureFormat) (b : SenderBinding) (depth v : N).
Hypothesis Hvalid : binding_validate b = Ok tt.
Hypothesis Hfmt : capture_format_validate fmt = Ok tt.

Definition stream : N * N := (ac_sample_rate_hz fmt, ac_channels fmt).

Definition good (f : DecodedAudioFrame) : Prop :=
  da_sender f = b ∧ samples (da_pcm_i16 f) = interleaved_samples_per_frame fmt.

Record receive_inv (c : N) (fs : list DecodedAudioFrame)
    (p : VoiceReceiveSFramePipeline (list DecodedAudioFrame)) : Prop := {
  ri_format : vr_playback_format p = fmt;
  ri_decoders d : vr_decoders p !! speaker_of b = Some d →
    od_format d = fmt ∧ dec_stream (od_decoder d) = stream;
  ri_new : ∃ d, audio_decoder_new fmt = Ok d;
  ri_volume : volume_for_sender (vr_mixer p) b = Ok v;
  ri_depth : jb_target_depth (vr_jitter p) = depth ∧ N.of_nat (length fs) ≤ depth;
  ri_hold : holding (vr_jitter p) (speaker_of b) c fs;
  ri_good : Forall good fs
}.

Lemma audio_decoder_stream d :
  audio_decoder_new fmt = Ok d → od_format d = fmt ∧ dec_stream (od_decoder d) = stream.
Proof.
  unfold audio_decoder_new. intros [_ Hd]%check_ok. apply rbind_ok in Hd as (x & Hx & [= <-]).
  destruct (opus_decoder_new _ _) eqn:E; [|done]. injection Hx as ->. simpl. split; [done|].
  by apply opus_decoder_stream.
Qed.

Lemma audio_decode_stream d x q payload :
  od_format d = fmt → dec_stream (od_decoder d) = stream → enc_stream x = stream →
  (opus_encode_i16 x q (samples_per_channel fmt)).2 = Ok payload →
  ∃ d' out, audio_decode d payload = (d', Ok out) ∧ od_format d' = fmt ∧
    dec_stream (od_decoder d') = stream ∧ samples out = interleaved_samples_per_frame fmt.
Proof.
  intros Hd Hs Hx Hp. destruct (opus_frame_size x (od_decoder d) q _ payload Hp) as (d' & out & Ho & Hs' & Hn);
    [congruence|].
  assert (samples out = interleaved_samples_per_frame fmt) as Hout by (rewrite Hn, Hs; done).
  eexists {| od_decoder := d'; od_format := od_format d |}, out. unfold audio_decode. rewrite Ho. cbn [map_err rbind].
  rewrite Hd, Hout, N.eqb_refl. cbn [negb reject_if rbind od_format od_decoder]. split_and!; try done. congruence.
Qed.

(** A remote frame of the right length always gives a level. *)
Lemma observe_remote_ok vad counter p :
  samples p = interleaved_samples_per_frame fmt →
  ∃ vad' level, observe_remote_playback vad b counter fmt p = (vad', Ok level).
Proof using Hvalid Hfmt.
  intros Hp. unfold observe_remote_playback, validate_pcm_len, from_sender.
  rewrite Hvalid, Hfmt, Hp, N.eqb_refl. cbn [rbind].
  destruct (pcm_level_metrics p) as [rms peak]. destruct (update_speaking vad rms) as [vad' sp]. eauto.
Qed.

Lemma receive_step c fs p f r' x q payload :
  receive_inv c fs p → enc_stream x = stream →
  (opus_encode_i16 x q (samples_per_channel fmt)).2 = Ok payload →
  receiver_open (tb_receiver (vr_bridge p)) (from_bridge f) =
    (r', Ok {| vf_binding := b; vf_counter := c + N.of_nat (length fs); vf_plaintext := payload |}) →
  c + N.of_nat (length fs) < u64_max →
  let n := if depth <? N.of_nat (S (length fs)) then 1%nat else 0%nat in
  ∃ p' g, receive_protected_frame p f = (p', Ok (N.of_nat (length (take n (fs ++ [g]))))) ∧
    good g ∧ da_counter g = c + N.of_nat (length fs) ∧
    tb_receiver (vr_bridge p') = r' ∧
    vr_sink p' = vr_sink p ++ (scaled v <$> take n (fs ++ [g])) ∧
    receive_inv (c + N.of_nat n) (drop n (fs ++ [g])) p'.
Proof using Hvalid Hfmt.
  intros [Hf Hdec Hnew Hvol [Hd Hlen] Hhold Hgood] Hx Hp Hopen Hmax n.
  unfold receive_protected_frame, open_protected_frame. rewrite Hopen. cbv zeta.
  cbn [rmap bv_sender bv_counter bv_clear vf_binding vf_counter vf_plaintext].
  unfold from_sender at 1. rewrite Hvalid. cbn [rbind].
  assert (∃ d, (match vr_decoders p !! speaker_of b with
                | Some d => Ok d | None => audio_decoder_new (vr_playback_format p) end) = Ok d ∧
               od_format d = fmt ∧ dec_stream (od_decoder d) = stream) as (d & -> & Hdf & Hds).
  { destruct (vr_decoders p !! speaker_of b) as [d|]; [eauto|]. rewrite Hf.
    destruct Hnew as [d Hnd]. exists d. split; [done|]. by apply audio_decoder_stream. }
  destruct (audio_decode_stream d x q payload Hdf Hds Hx Hp) as (d' & out & Ho & Hdf' & Hds' & Hout).
  rewrite Ho, Hf.
  destruct (observe_remote_ok (default vad_voice_defaults (vr_vads p !! speaker_of b))
              (c + N.of_nat (length fs)) out Hout) as (vad' & level & ->).
  set (g := {| da_sender := b; da_counter := _; da_format := _; da_pcm_i16 := out |}).
  assert (good g) as Hg by done.
  destruct (push_in_order (vr_jitter p) (speaker_of b) c fs g Hhold) as (j & Hj & Hjd & Hjh);
    [split; [done|simpl; lia]|done|done|done|lia|].
  rewrite Hd in Hj, Hjd, Hjh. fold n in Hj, Hjh. rewrite Hj.
  assert (Forall good (fs ++ [g])) as Hgs by (apply Forall_app; split; [done|by apply Forall_singleton]).
  rewrite (queue_ready_log _ _ b v); [|done|].
  2: { apply Forall_take. eapply Forall_impl; [exact Hgs|]. by intros ? [? _]. }
  cbn [rbind]. eexists _, g. split; [reflexivity|]. split_and!; [done..|].
  split; cbn [receive_state vr_playback_format vr_decoders vr_mixer vr_jitter].
  - done.
  - intros d0. rewrite lookup_insert_eq. by intros [= <-].
  - done.
  - done.
  - split; [done|]. rewrite length_drop, length_app. simpl. unfold n.
    destruct (N.ltb_spec depth (N.of_nat (S (length fs)))); lia.
  - done.
  - by apply Forall_drop.
Qed.

Definition receive_all (p : VoiceReceiveSFramePipeline (list DecodedAudioFrame))
    (frames : list BridgeProtectedFrame) : VoiceReceiveSFramePipeline (list DecodedAudioFrame) :=
  foldl (λ p f, (receive_protected_frame p f).1) p frames.

(** Opus made this payload for the stream. *)
Definition opus_made (payload : bytes) : Prop :=
  ∃ x q, enc_stream x = stream ∧ (opus_encode_i16 x q (samples_per_channel fmt)).2 = Ok payload.

Lemma open_all_length r frames : (length (open_all r frames).2 ≤ length frames)%nat.
Proof.
  revert r. induction frames as [|f frames IH]; intros r; simpl; [lia|].
  destruct (receiver_open r f) as [r1 res]. specialize (IH r1). destruct (open_all r1 frames) as [r2 acc].
  simpl in *. destruct res; simpl; lia.
Qed.

(** A list that opens completely opens frame by frame. *)
Lemma open_all_cons r f frames w acc :
  (open_all r (f :: frames)).2 = (f, w) :: acc → length acc = length frames →
  ∃ r1, receiver_open r f = (r1, Ok w) ∧ (open_all r1 frames).2 = acc.
Proof.
  cbn [open_all]. destruct (receiver_open r f) as [r1 [x|e]].
  - destruct (open_all r1 frames) as [r2 acc'] eqn:E. intros [= -> ->] _. exists r1. by rewrite E.
  - pose proof (open_all_length r1 frames) as Hl. destruct (open_all r1 frames) as [r2 acc'].
    simpl in *. intros -> Hlen. simpl in Hl. lia.
Qed.

Lemma receive_run c fs p (ws : list (BridgeProtectedFrame * bytes)) :
  receive_inv c fs p → Forall (λ w, opus_made w.2) ws →
  (open_all (tb_receiver (vr_bridge p)) (from_bridge ∘ fst <$> ws)).2 =
    imap (λ i w, (from_bridge w.1, {| vf_binding := b; vf_counter := c + N.of_nat (length fs + i);
                                      vf_plaintext := w.2 |})) ws →
  c + N.of_nat (length fs + length ws) ≤ u64_max →
  let n := (length fs + length ws - N.to_nat depth)%nat in
  ∃ gs, let p' := receive_all p (fst <$> ws) in
    Forall good gs ∧ da_counter <$> gs = ((λ i, c + N.of_nat (length fs + i)) <$> seq 0 (length ws)) ∧
    vr_sink p' = vr_sink p ++ (scaled v <$> take n (fs ++ gs)) ∧
    receive_inv (c + N.of_nat n) (drop n (fs ++ gs)) p'.
Proof using Hvalid Hfmt.
  revert c fs p. induction ws as [|[f payload] ws IH]; intros c fs p Hinv Hmade Hopen Hmax n.
  { exists []. assert (n = 0%nat) as ->.
    { unfold n. simpl. destruct (ri_depth _ _ _ Hinv). lia. }
    simpl. rewrite !app_nil_r, N.add_0_r. done. }
  apply Forall_cons in Hmade as [(x & q & Hx & Hq) Hmade]. simpl in Hq, Hmax.
  rewrite fmap_cons, imap_cons in Hopen. apply open_all_cons in Hopen as (r1 & Ho & Hopen);
    [|by rewrite length_imap, length_fmap]. simpl in Ho. rewrite Nat.add_0_r in Ho.
  destruct (receive_step c fs p f r1 x q payload Hinv Hx Hq Ho) as (p1 & g & Hp & Hg & Hgc & Hr & Hsink & Hinv1);
    [lia|]. pose proof (ri_depth _ _ _ Hinv) as [_ Hd].
  set (m := if depth <? _ then 1%nat else 0%nat) in *.
  assert (m = length fs + 1 - N.to_nat depth)%nat as Hm.
  { unfold m. destruct (N.ltb_spec depth (N.of_nat (S (length fs)))); lia. }
  assert (length (drop m (fs ++ [g])) = length fs + 1 - m)%nat as Hl
    by (rewrite length_drop, length_app; simpl; lia).
  destruct (IH (c + N.of_nat m) (drop m (fs ++ [g])) p1 Hinv1 Hmade) as (gs & Hgs & Hcs & Hsink2 & Hinv2).
  - rewrite Hr, Hopen. apply imap_ext. intros i w _. simpl. do 2 f_equal. lia.
  - lia.
  - set (k := (length (drop m _) + length ws - N.to_nat depth)%nat) in *.
    assert (n = m + k)%nat as -> by (unfold n, k; simpl; lia).
    destruct (window_step m k fs gs g) as [Htake Hdrop]; [rewrite length_app; simpl; lia|].
    exists (g :: gs). cbn [receive_all foldl fmap list_fmap fst]. rewrite Hp. cbn [fst].
    fold (receive_all p1 (fst <$> ws)). split_and!.
    + by constructor.
    + cbn [length seq]. rewrite !fmap_cons, Hcs, Hgc, Nat.add_0_r. f_equal.
      rewrite <- seq_shift, <- list_fmap_compose. apply list_fmap_ext. intros i y _. simpl. lia.
    + rewrite Hsink2, Hsink, <- (assoc_L (++)), <- fmap_app, Htake. done.
    + rewrite Hdrop in Hinv2. by replace (c + N.of_nat (m + k)) with (c + N.of_nat m + N.of_nat k) by lia.
Qed.

(** Flushing plays what the buffer still holds. *)
Lemma flush_run c fs p :
  receive_inv c fs p → c + N.of_nat (length fs) ≤ u64_max →
  vr_sink (flush_playback p).1 = vr_sink p ++ (scaled v <$> fs) ∧
  (flush_playback p).2 = Ok (N.of_nat (length fs)).
Proof.
  intros [_ _ _ Hvol _ Hhold Hgood] Hmax. unfold flush_playback.
  pose proof (drain_contiguous_holding _ _ _ _ Hhold Hmax) as Hd.
  destruct (drain_contiguous (vr_jitter p)) as [j ready]. simpl in Hd. subst ready.
  rewrite (queue_ready_log _ _ b v); [done|done|].
  eapply Forall_impl; [exact Hgood|]. by intros ? [? _].
Qed.
End receive_lemmas.

Lemma audio_encoder_stream `{OpusCodec, !OpusCodecLaws} fmt e :
  audio_encoder_new fmt = Ok e →
  oe_format e = fmt ∧ enc_stream (oe_encoder e) = stream fmt ∧ capture_format_validate fmt = Ok tt.
Proof.
  unfold audio_encoder_new. intros [Hf He]%check_ok. apply rbind_ok in He as (x & Hx & [= <-]).
  destruct (opus_encoder_new _ _) eqn:E; [|done]. injection Hx as ->. simpl. split_and!; [done| |done].
  by apply opus_encoder_stream.
Qed.

(** What a capture pipeline sent opens completely where the sender is registered. *)
Lemma sealed_stream_opens `{OpusCodec, !OpusCodecLaws, Sha256, Aes256Gcm, !Aes256GcmLaws} {S}
    `{ProtectedMediaFrameSink S} fmt s p reg w :
  capture_inv (S := S) (λ x, enc_stream x = stream fmt) fmt s p →
  ss_next_counter s = 0 →
  reg !! sb_kid (ss_binding s) = Some {| bk_binding := ss_binding s; bk_key := ss_key s |} →
  ∃ ws, fst <$> ws = (vc_sink p).2 ∧ Forall (λ w, opus_made fmt w.2) ws ∧
    (open_all {| sr_registry := reg; sr_replay := replay_window_new w |} (from_bridge ∘ fst <$> ws)).2 =
      imap (λ i (w : BridgeProtectedFrame * bytes),
        (from_bridge w.1, {| vf_binding := ss_binding s; vf_counter := 0 + N.of_nat (0 + i);
                             vf_plaintext := w.2 |})) ws.
Proof.
  intros [_ _ _ _ _ Hcs Hfs] Hn Hin.
  destruct (choose_list (λ f payload, opus_made fmt payload ∧
     key_protect (ss_key s) (ss_binding s) (bp_counter f) payload = Ok (from_bridge f)) (vc_sink p).2)
    as (ws & Hws & Hps).
  { eapply Forall_impl; [exact Hfs|]. intros f (x & q & payload & Hx & Hq & _ & Hk).
    exists payload. split; [by exists x, q|done]. }
  exists ws. split; [done|]. split.
  { eapply Forall_impl; [exact Hps|]. by intros [f payload] [? _]. }
  rewrite <- Hws, Hn, length_fmap in Hcs.
  set (out := (λ w : BridgeProtectedFrame * bytes, (w.2, from_bridge w.1)) <$> ws).
  replace (from_bridge ∘ fst <$> ws) with (snd <$> out) by (unfold out; by rewrite <- list_fmap_compose).
  assert (pf_counter ∘ snd <$> out = (λ i, 0 + N.of_nat i) <$> seq 0 (length ws)) as Hco
    by (unfold out; rewrite <- list_fmap_compose, <- Hcs, <- list_fmap_compose; done).
  unfold replay_window_new. rewrite (open_all_in_order _ _ [] (ss_key s) (ss_binding s) out ∅).
  - unfold out. rewrite <- list_fmap_compose. apply list_eq. intros i.
    rewrite list_lookup_imap, list_lookup_fmap. destruct (ws !! i) as [o|] eqn:Ho; [|done]. simpl.
    do 3 f_equal. apply (f_equal (.!! i)) in Hcs. rewrite !list_lookup_fmap, Ho in Hcs.
    rewrite lookup_seq_lt in Hcs by (by eapply lookup_lt_Some). simpl in Hcs. by injection Hcs as ->.
  - apply window_inv_empty.
  - simpl. lia.
  - done.
  - apply Forall_fmap. eapply Forall_impl; [exact Hps|]. by intros [f payload] [_ ?].
  - rewrite Hco. apply seq_sorted.
  - by intros n o []%not_elem_of_nil.
Qed.

(** ** Properties *)

Section properties.
Context `{Hcodec : OpusCodec, Sha256, Aes256Gcm}.

(** Voice leaves a device only sealed, and not at all while muted: over any sequence of mute
    switches and captures, whatever the Opus library and the transport sink do, the sink is
    handed frames with the sender's key id and consecutive counters, each the protection of
    one Opus packet of 3 to 1275 bytes, and at most one per frame captured while not muted; a
    capture while muted changes nothing and reports the samples it dropped. *)
Theorem voice_leaves_only_sealed {S} `{ProtectedMediaFrameSink S} e t (sink : S) calls :
  let p := foldl capture_call (capture_pipeline_new e t (sink, [])) calls in
  let log := (vc_sink p).2 in
  let s := tb_sender t in
  bp_counter <$> log = ((λ i, ss_next_counter s + N.of_nat i) <$> seq 0 (length log)) ∧
  Forall (λ f, bp_kid f = sb_kid (ss_binding s) ∧
    ∃ payload, MIN_OPUS_PACKET_BYTES ≤ len payload ≤ MAX_OPUS_PACKET_BYTES ∧
      key_protect (ss_key s) (ss_binding s) (bp_counter f) payload = Ok (from_bridge f)) log ∧
  (length log ≤ unmuted_captures false calls)%nat ∧
  ∀ f, vc_muted p = true →
    capture_encode_protect_or_mute p f = (p, Ok (Muted (ca_captured_at_ms f) (samples (ca_pcm_i16 f)))) ∧
    capture_encode_protect_send p f = (p, Err MediaMuted).
Proof.
  intros p log s. destruct (capture_run (λ _, True) (λ _ _ _ _, I) (oe_format e) s _ calls
    (capture_inv_new (λ _, True) s e t sink eq_refl I)) as [Hinv Hlen].
  fold p in Hinv, Hlen. split_and!.
  - apply (ci_counters _ _ _ _ Hinv).
  - eapply Forall_impl; [exact (ci_frames _ _ _ _ Hinv)|]. intros f (x & q & payload & _ & _ & Hl & Hk).
    split; [exact (proj1 (key_protect_frame _ _ _ _ _ Hk))|eauto].
  - exact Hlen.
  - intros f Hm. assert (capture_encode_protect_or_mute p f =
      (p, Ok (Muted (ca_captured_at_ms f) (samples (ca_pcm_i16 f))))) as Hc
      by (unfold capture_encode_protect_or_mute; by rewrite Hm).
    split; [done|]. unfold capture_encode_protect_send. by rewrite Hc.
Qed.

Context `{!OpusCodecLaws, !Aes256GcmLaws}.

(** C29. Voice sent is voice played: what a capture pipeline hands to the transport, over any
    mute switches and captures, is, delivered in order to a receive pipeline that registered
    the sender, played completely: the frames arrive at playback once each, in order,
    attributed to the authenticated sender, with full frames of samples; the last ones, as
    many as the jitter depth, on the final flush. *)
Theorem captured_voice_is_played {S} `{ProtectedMediaFrameSink S} (sink : S)
    secret group epoch leaf device s reg reg' fmt e d calls t w depth :
  sender_new_for_epoch secret group epoch leaf device = Ok s →
  register_sender reg secret (ss_binding s) = (reg', Ok tt) →
  audio_encoder_new fmt = Ok e → audio_decoder_new fmt = Ok d → tb_sender t = s →
  let sent := (vc_sink (foldl capture_call (capture_pipeline_new e t (sink, [])) calls)).2 in
  N.of_nat (length sent) ≤ u64_max →
  let p := receive_pipeline_new
    {| tb_sender := s; tb_receiver := {| sr_registry := reg'; sr_replay := replay_window_new w |} |}
    d (jitter_new depth) [] in
  let p' := receive_all p sent in
  let played := vr_sink (flush_playback p').1 in
  (λ f, (da_sender f, da_counter f)) <$> played =
    ((λ i, (ss_binding s, N.of_nat i)) <$> seq 0 (length sent)) ∧
  Forall (λ f, samples (da_pcm_i16 f) = interleaved_samples_per_frame fmt) played ∧
  length (vr_sink p') = (length sent - N.to_nat depth)%nat.
Proof.
  intros Hs Hreg He Hd Ht sent Hmax p p' played.
  destruct (sender_registered _ _ _ _ _ _ _ _ Hs Hreg) as (Hn & Hb & Hin).
  assert (oe_format e = fmt ∧ enc_stream (oe_encoder e) = stream fmt ∧ capture_format_validate fmt = Ok tt)
    as (Hef & Hes & Hfmt) by (by apply audio_encoder_stream).
  destruct (capture_run (λ x, enc_stream x = stream fmt) (λ x q n Hx, eq_trans (opus_encode_stream x q n) Hx)
    fmt s (capture_pipeline_new e t (sink, [])) calls) as [Hinv _].
  { pose proof (capture_inv_new (λ x, enc_stream x = stream fmt) s e t sink Ht Hes) as Hnew.
    by rewrite Hef in Hnew. }
  fold sent in Hinv. destruct (sealed_stream_opens fmt s _ reg' w Hinv Hn Hin) as (ws & Hws & Hmade & Hopen).
  fold sent in Hws. assert (length ws = length sent) as Hlen by (by rewrite <- Hws, length_fmap).
  assert (receive_inv fmt (ss_binding s) depth 1000 0 [] p) as Hp.
  { split; simpl; try done.
    - by destruct (audio_decoder_stream fmt d Hd) as [-> _].
    - by exists d.
    - unfold volume_for_sender, from_sender. by rewrite Hb.
    - split; [done|lia].
    - apply jitter_new_holding. }
  destruct (receive_run fmt (ss_binding s) depth 1000 Hb Hfmt 0 [] p ws Hp Hmade Hopen) as (gs & Hgs & Hcs & Hsink & Hinv').
  { simpl. lia. }
  rewrite Hws in Hsink, Hinv'. fold p' in Hsink, Hinv'. simpl in Hcs, Hsink, Hinv'.
  assert (length gs = length sent) as Hgl by (by rewrite <- (length_fmap da_counter), Hcs, length_fmap, length_seq).
  set (n := (length ws - N.to_nat depth)%nat) in *.
  destruct (flush_run fmt (ss_binding s) depth 1000 _ _ _ Hinv') as [Hflush _].
  { rewrite length_drop. unfold n. lia. }
  assert (played = scaled 1000 <$> gs) as Hplayed.
  { unfold played. by rewrite Hflush, Hsink, <- fmap_app, take_drop. }
  split_and!.
  - rewrite Hplayed, <- list_fmap_compose, <- Hlen. apply (f_equal (fmap (λ c, (ss_binding s, c)))) in Hcs.
    rewrite <- !list_fmap_compose in Hcs. transitivity ((λ c, (ss_binding s, c)) ∘ da_counter <$> gs); [|exact Hcs].
    apply list_fmap_ext. intros i g Hg. rewrite Forall_lookup in Hgs. destruct (Hgs i g Hg) as [Hsend _].
    simpl. by rewrite Hsend.
  - rewrite Hplayed. apply Forall_fmap. eapply Forall_impl; [exact Hgs|]. intros g [_ Hg]. simpl.
    unfold samples. by rewrite length_fmap.
  - rewrite Hsink, length_fmap, length_take. unfold n. lia.
Qed.
End properties.

(** ** Witnesses *)

Section witnesses.
#[local] Existing Instance Toy.toy_sha.
#[local] Existing Instance Toy.toy_aead.
#[local] Existing Instance Toy.toy_aead_laws.

(** A codec that keeps only the frame size; a decoder knows its channels. *)
#[local] Instance toy_opus : OpusCodec := {|
  OpusEnc := N * N;
  OpusDec := N * N;
  opus_encoder_new rate channels := Ok (rate, channels);
  opus_encode_i16 e p n := (e, Ok [n; 0; 0]);
  opus_decoder_new rate channels := Ok (rate, channels);
  opus_decode_i16 d payload :=
    (d, match payload with
        | n :: _ => Ok (replicate (N.to_nat (n * d.2)) 0%Z)
        | [] => Err "empty packet"%string
        end)
|}.

#[local] Instance toy_opus_laws : OpusCodecLaws.
Proof.
  refine {| enc_stream := λ e : OpusEnc, e; dec_stream := λ d : OpusDec, d |}; simpl; try congruence.
  intros e d p n payload [= <-] _. exists d, (replicate (N.to_nat (n * d.2)) 0%Z).
  split_and!; [done..|]. unfold samples. rewrite length_replicate. lia.
Defined.

#[local] Instance null_sink : ProtectedMediaFrameSink unit := λ s _, (s, Ok tt).

Definition ex_captured (at_ms : N) : CapturedAudioFrame :=
  {| ca_pcm_i16 := replicate 960 700%Z; ca_format := mono_20ms_48khz; ca_captured_at_ms := at_ms |}.

Definition ex_calls : list CaptureCall :=
  [CallCapture (ex_captured 0); CallMute true; CallCapture (ex_captured 20); CallMute false;
   CallCapture (ex_captured 40); CallCapture (ex_captured 60)].

Definition ex_encoder : OpusAudioEncoder :=
  {| oe_encoder := (48000, 1) : OpusEnc; oe_format := mono_20ms_48khz; oe_next_sequence := 0 |}.

Definition ex_decoder : OpusAudioDecoder :=
  {| od_decoder := (48000, 1) : OpusDec; od_format := mono_20ms_48khz |}.

Definition ex_bridge : RustTransformBridge :=
  {| tb_sender := toy_media_sender;
     tb_receiver := {| sr_registry := ∅; sr_replay := replay_window_new 64 |} |}.

Lemma captured_voice_is_played_witness :
  let sent := (vc_sink (foldl capture_call (capture_pipeline_new ex_encoder ex_bridge (tt, [])) ex_calls)).2 in
  length sent = 3%nat ∧
  let p := receive_pipeline_new
    {| tb_sender := toy_media_sender;
       tb_receiver := {| sr_registry := toy_registry; sr_replay := replay_window_new 64 |} |}
    ex_decoder (jitter_new 2) [] in
  (λ f, (da_sender f, da_counter f)) <$> vr_sink (flush_playback (receive_all p sent)).1 =
    ((λ i, (ss_binding toy_media_sender, N.of_nat i)) <$> seq 0 (length sent)).
Proof.
  assert (length (vc_sink (foldl capture_call (capture_pipeline_new ex_encoder ex_bridge (tt, [])) ex_calls)).2
          = 3%nat) as Hlen by (vm_compute; reflexivity).
  split; [exact Hlen|].
  assert (sender_new_for_epoch [7] "room" 3 1 "phone" = Ok toy_media_sender) as H1 by (vm_compute; reflexivity).
  assert (register_sender ∅ [7] (ss_binding toy_media_sender) = (toy_registry, Ok tt)) as H2.
  { assert ((register_sender ∅ [7] (ss_binding toy_media_sender)).2 = Ok tt) as <-
      by (vm_compute; reflexivity). exact (surjective_pairing _). }
  assert (audio_encoder_new mono_20ms_48khz = Ok ex_encoder) as H3 by (vm_compute; reflexivity).
  assert (audio_decoder_new mono_20ms_48khz = Ok ex_decoder) as H4 by (vm_compute; reflexivity).
  assert (tb_sender ex_bridge = toy_media_sender) as Ht by reflexivity.
  pose proof (captured_voice_is_played tt [7] "room" 3 1 "phone" toy_media_sender ∅ toy_registry
    mono_20ms_48khz ex_encoder ex_decoder ex_calls ex_bridge 64 2 H1 H2 H3 H4 Ht) as H5.
  cbv zeta in H5 |- *. rewrite Hlen in H5. rewrite Hlen. apply H5. vm_compute. discriminate.
Defined.
End witnesses.
