(* ===== verification/DeskState.v ===== *)
(** * Desktop application: persisted state and its primitives
    (apps/desktop/src-tauri/src/lib.rs)

    The persisted rows of the desktop backend (profile, groups with their roster, policy,
    admission requests and governance log, conversations, control frames, outbox, events),
    the redacted event log, the local identity seed, the persisted rate limiter, the identifiers
    derived from labels and hashes, the signature payloads of governance frames, and the queue
    of outbound control frames. [Utc::now()] is an argument wherever it is read.

    [PersistedAppState] holds the fields the modelled operations read or write. Rows are found
    by the first match, as [iter().find] does; [update_first] is [iter_mut().find]. *)

From S2P Require Import Prelude Collections Bytes StrOps Crypto Transport RouteGraph Identity TextEnvelope AppService.

(** ** Vectors: [iter().find], [iter_mut().find] and [retain] *)

Fixpoint find_first {A} (p : A → bool) (l : list A) : option A :=
  match l with [] => None | x :: l => if p x then Some x else find_first p l end.

Fixpoint update_first {A} (p : A → bool) (f : A → A) (l : list A) : list A :=
  match l with [] => [] | x :: l => if p x then f x :: l else x :: update_first p f l end.

Definition retain {A} (keep : A → bool) (l : list A) : list A := filter (λ x, keep x = true) l.

Definition str_eqb (a b : string) : bool := bool_decide (a = b).

Notation "a =s b" := (str_eqb a b) (at level 70, no associativity).

(** ** Rows *)

Record UserProfileView := {
  up_user_id : string;
  up_display_name : string;
  up_device_name : string;
  up_recovery_status : string
}.

Record IceTurnServerView := {
  it_endpoint : string;
  it_credential_declared : bool;
  it_credential_expires_at : option string
}.

Record SignalingProfileView := {
  sp_profile_id : string;
  sp_adapter_kind : string;
  sp_endpoints : list string;
  sp_room_topic_commitment : string;
  sp_trust_fingerprint : string;
  sp_ttl_seconds : N;
  sp_metadata_posture : string;
  sp_rate_limit_policy : string;
  sp_max_message_bytes : option N;
  sp_backoff_initial_ms : N;
  sp_backoff_max_ms : N;
  sp_backoff_multiplier : N;
  sp_backoff_max_attempts : N;
  sp_capabilities : list string;
  sp_provider_policy_version : N;
  sp_endpoint_allowlist_commitments : list string;
  sp_provider_rotation_policy : string
}.

Record DmInviteBootstrapView := {
  db_inviter_identity_commitment : string;
  db_contact_token_commitment : string;
  db_reply_rendezvous_commitment : string
}.

Record GroupInviteBootstrapView := {
  gb_group_identity_commitment : string;
  gb_role_admission_policy_commitment : string;
  gb_channel_policy_commitment : string
}.

Record ConnectivityPolicyView := {
  cp_connectivity_schema_version : N;
  cp_invite_kind : string;
  cp_scope_id_commitment : string;
  cp_signaling_profiles : list SignalingProfileView;
  cp_ice_stun_servers : list string;
  cp_ice_turn_servers : list IceTurnServerView;
  cp_privacy_label : string;
  cp_dm_bootstrap : option DmInviteBootstrapView;
  cp_group_bootstrap : option GroupInviteBootstrapView
}.

Record DmRuntimePeerView := {
  dp_peer_id : string;
  dp_role : string;
  dp_is_local : bool;
  dp_source : string;
  dp_profile_id : string;
  dp_signer_public_key_hex : string;
  dp_device_id : string;
  dp_last_seen_at : string;
  dp_presence_expires_at : string
}.

Record DirectConversationView := {
  dc_dm_id : string;
  dc_participant_id : string;
  dc_display_name : string;
  dc_local_only_copy : string;
  dc_runtime_peers : list DmRuntimePeerView;
  dc_connectivity : option ConnectivityPolicyView
}.

Record ChannelStateView := {
  ch_channel_id : string;
  ch_name : string;
  ch_kind : ChannelKind;
  ch_retention_status : string;
  ch_connectivity : option ConnectivityPolicyView
}.

Record GroupChannelSchemaSnapshotView := {
  csn_schema_epoch : N;
  csn_channels : list ChannelStateView;
  csn_actor_member_id : string;
  csn_actor_signer_public_key_hex : string;
  csn_created_at : string;
  csn_signature_hex : string
}.

Record PeerRouteEvidenceView := {
  pre_route_kind : option string;
  pre_route : option string;
  pre_route_label : option string;
  pre_route_status : option string;
  pre_status : option string;
  pre_evidence_source : option string;
  pre_detail : option string;
  pre_updated_at : option string
}.

Record GroupRuntimePeerView := {
  grp_peer_id : string;
  grp_role : string;
  grp_is_local : bool;
  grp_source : string;
  grp_member_id : option string;
  grp_device_id : option string;
  grp_route_evidence : option PeerRouteEvidenceView
}.

Inductive GroupRoleView := RoleOwner | RoleStaff | RoleMember.

#[export] Instance GroupRoleView_eq_dec : EqDecision GroupRoleView.
Proof. solve_decision. Defined.

Definition role_as_str (r : GroupRoleView) : string :=
  match r with RoleOwner => "owner" | RoleStaff => "staff" | RoleMember => "member" end.

Definition can_manage_members (r : GroupRoleView) : bool :=
  match r with RoleOwner | RoleStaff => true | RoleMember => false end.

Definition group_role_label (r : GroupRoleView) : string :=
  match r with RoleOwner => "owner" | RoleStaff => "staff" | RoleMember => "member" end.

Inductive GroupAdmissionModeView := AutomaticWhenAuthorizedOnline | ManualApproval.

#[export] Instance GroupAdmissionModeView_eq_dec : EqDecision GroupAdmissionModeView.
Proof. solve_decision. Defined.

(** [{:?}] *)
Definition admission_mode_debug (m : GroupAdmissionModeView) : string :=
  match m with
  | AutomaticWhenAuthorizedOnline => "AutomaticWhenAuthorizedOnline"
  | ManualApproval => "ManualApproval"
  end.

Record GroupMemberView := {
  gm_member_id : string;
  gm_display_name : string;
  gm_device_id : option string;
  gm_role : GroupRoleView;
  gm_status : string;
  gm_signer_public_key_hex : option string;
  gm_runtime_peer_id : option string;
  gm_joined_at : string;
  gm_last_seen_at : option string;
  gm_presence_expires_at : option string;
  gm_revoked_at : option string;
  gm_revoked_by : option string;
  gm_route_evidence : option PeerRouteEvidenceView
}.

Record GroupRolePolicyView := {
  rp_admission_mode : GroupAdmissionModeView;
  rp_policy_epoch : N;
  rp_updated_by : string;
  rp_updated_at : string
}.

Record GroupAdmissionRequestView := {
  ar_request_id : string;
  ar_group_id : string;
  ar_invite_id : option string;
  ar_display_name : string;
  ar_device_name : option string;
  ar_member_identity : string;
  ar_signer_public_key_hex : string;
  ar_identity_signer_public_key_hex : string;
  ar_key_package : bytes;
  ar_status : string;
  ar_requested_at : string;
  ar_decided_by : option string;
  ar_decided_at : option string;
  ar_decision_reason : option string;
  ar_policy_epoch_at_request : N;
  ar_admission_mode_at_request : option GroupAdmissionModeView
}.

Record GroupGovernanceLogEntryView := {
  gl_event_id : string;
  gl_group_id : string;
  gl_event_kind : string;
  gl_actor_member_id : string;
  gl_target_member_id : option string;
  gl_request_id : option string;
  gl_role_before : option GroupRoleView;
  gl_role_after : option GroupRoleView;
  gl_created_at : string;
  gl_summary : string
}.

Record GroupView := {
  gv_group_id : string;
  gv_name : string;
  gv_role : string;
  gv_channels : list ChannelStateView;
  gv_channel_schema_epoch : N;
  gv_members : list GroupMemberView;
  gv_role_policy : GroupRolePolicyView;
  gv_admission_requests : list GroupAdmissionRequestView;
  gv_governance_log : list GroupGovernanceLogEntryView;
  gv_runtime_peers : list GroupRuntimePeerView;
  gv_connectivity : option ConnectivityPolicyView
}.

Record ActiveContextView := {
  ac_kind : string;
  ac_group_id : option string;
  ac_channel_id : option string;
  ac_dm_id : option string
}.

Record MessageTargetView := {
  mt_kind : string;
  mt_dm_id : option string;
  mt_group_id : option string;
  mt_channel_id : option string
}.

#[export] Instance MessageTargetView_eq_dec : EqDecision MessageTargetView.
Proof. solve_decision. Defined.

Record TextDeliveryReceiptView := {
  drv_recipient_device_id : string;
  drv_received_at_ms : N;
  drv_envelope_ciphertext_hash : string;
  drv_recipient_key_fingerprint : string
}.

Record MessageView := {
  mv_message_id : string;
  mv_target : MessageTargetView;
  mv_author_id : string;
  mv_author : string;
  mv_body : string;
  mv_status : string;
  mv_state_key : string;
  mv_state_label : string;
  mv_state_detail : string;
  mv_peer_receipt : option TextDeliveryReceiptView;
  mv_sent_at : string
}.

Record VoiceSignalingMessageView := {
  vsm_signal_id : string;
  vsm_session_id : string;
  vsm_group_id : string;
  vsm_channel_id : string;
  vsm_sender_participant_id : string;
  vsm_sender_peer_id : string;
  vsm_recipient_peer_id : string;
  vsm_signal_kind : string;
  vsm_sealed_payload : string;
  vsm_created_at_ms : N
}.

Inductive TextControlFrameView :=
| OpenMlsAdmissionKeyPackage (group_id member_identity signer_public_key_hex
    identity_signer_public_key_hex : string) (key_package : bytes)
| GroupAdmissionDecision (group_id request_id : string) (approved : bool)
    (reason : option string) (decided_by decided_at : string)
| OpenMlsAdmissionWelcome (group_id owner_member_id owner_identity_signer_public_key_hex
    member_signer_public_key_hex : string) (welcome_bytes : bytes) (epoch : N)
    (confirmation_tag_sha256 : string) (channel_schema : GroupChannelSchemaSnapshotView)
| Envelope (target : MessageTargetView) (envelope : TextMessageEnvelope)
    (sender_verifying_key_hex : string) (recipient_leaf : option N)
| GroupMemberRoleChanged (group_id event_id actor_member_id : string)
    (actor_signer_public_key_hex : option string) (target_member_id : string)
    (role_before role_after : GroupRoleView) (created_at : string)
    (signature_hex : option string)
| GroupMemberRevoked (group_id event_id actor_member_id target_member_id : string)
    (reason : option string) (created_at crypto_removal_status : string)
    (openmls_remove_commit : option bytes) (openmls_epoch : option N)
    (openmls_confirmation_tag_sha256 : option string)
| GroupChannelSchemaUpdated (group_id event_id : string)
    (snapshot : GroupChannelSchemaSnapshotView)
| GroupPresenceHeartbeat (group_id event_id member_id : string)
    (display_name device_id : option string) (signer_public_key_hex runtime_peer_id : string)
    (channel_schema_epoch : N) (channel_schema_sha256 last_seen_at presence_expires_at
    signature_hex : string)
| DmPresenceHeartbeat (scope_id_commitment event_id profile_id display_name device_id role
    signer_public_key_hex runtime_peer_id last_seen_at presence_expires_at
    signature_hex : string)
| GroupGovernanceAck (group_id event_id applied_by_member_id status created_at : string)
| VoiceSignal (signal : VoiceSignalingMessageView)
| Receipt (message_id : string) (receipt : TextDeliveryReceipt).

Record TextControlOutboxRecord := {
  ob_message_id : string;
  ob_target : MessageTargetView;
  ob_frame : TextControlFrameView;
  ob_frame_sha256 : string;
  ob_attempts : N;
  ob_last_attempted_at_ms : option N;
  ob_state_key : string;
  ob_last_transport_session_id : option string;
  ob_route_peer_ids : list string;
  ob_expected_route_peer_ids : list string;
  ob_sent_route_peer_ids : list string;
  ob_receipted_route_peer_ids : list string
}.

Record OpenMlsGroupHandleRecord := {
  oh_group_id : string;
  oh_signer_public_key_hex : string;
  oh_epoch : N;
  oh_local_leaf : N;
  oh_confirmation_tag_sha256 : string;
  oh_openmls_store_path : option string;
  oh_status_copy : string
}.

Record TextDeliveryEnvelopeRecord := {
  der_message_id : string;
  der_group_id : string;
  der_sender_verifying_key_hex : string;
  der_envelope : TextMessageEnvelope
}.

Record TextDeliveryReceiptRecord := {
  rcr_message_id : string;
  rcr_recipient_verifying_key_hex : string;
  rcr_receipt : TextDeliveryReceipt
}.

Record AppEventView := { ae_sequence : N; ae_kind : string; ae_summary : string }.

Record CommandErrorView := {
  ce_code : string;
  ce_command : string;
  ce_timestamp : string;
  ce_message : string;
  ce_recovery_hint : string;
  ce_redacted_context : list (string * string)
}.

Record AbuseBucketView `{Chrono} := { ab_key : string; ab_timestamps : list datetime }.

Record PersistedAbuseState `{Chrono} := {
  pa_invite_create : list AbuseBucketView;
  pa_invite_consume : list AbuseBucketView;
  pa_admission_helper : list AbuseBucketView;
  pa_signaling_publish_take : list AbuseBucketView;
  pa_text_send : list AbuseBucketView
}.

Record PersistedAppState `{Chrono} := {
  st_profile : option UserProfileView;
  st_dms : list DirectConversationView;
  st_groups : list GroupView;
  st_openmls_groups : list OpenMlsGroupHandleRecord;
  st_active_context : option ActiveContextView;
  st_messages : list MessageView;
  st_text_delivery_envelopes : list TextDeliveryEnvelopeRecord;
  st_text_delivery_receipts : list TextDeliveryReceiptRecord;
  st_text_control_outbox : list TextControlOutboxRecord;
  st_devices : list DeviceView;
  st_identity_seed_hex : string;
  st_events : list AppEventView;
  st_last_command_error : option CommandErrorView;
  st_abuse : PersistedAbuseState;
  st_next_sequence : N
}.

(** ** Code outside the repository: [SigningKey::from_bytes], [serde_json::to_vec] and the
    [Display] texts of library errors *)

Class SigningSeed `{Ed25519} := sk_from_bytes : bytes → signing_key.

Class FrameJson := {
  frame_to_vec : TextControlFrameView → result bytes string;
  channels_to_vec : list ChannelStateView → result bytes string
}.

Class ErrorTexts := {
  signature_parse_error : bytes → string;
  signature_verify_error : bytes → string;
  rfc3339_parse_error : string → string
}.

(** ** Labels and identifiers *)

Definition normalize_label (value fallback : string) : string :=
  let trimmed := trim value in if trimmed =s "" then fallback else trimmed.

Definition slugify (label : string) : string :=
  let collapsed := join_bytes 45 (filter (λ part, part ≠ [])
    (split_bytes 45 (omap slug_char (as_bytes (trim label))))) in
  if bool_decide (collapsed = []) then "local" else string_of_bytes collapsed.

Definition stable_id (prefix label : string) (sequence : N) : string :=
  prefix +:+ "-" +:+ slugify label +:+ "-" +:+ pretty sequence.

Definition admission_decision_event_id (group_id request_id decided_status decided_by
    decided_at : string) : string :=
  stable_id "governance"
    (group_id +:+ ":" +:+ request_id +:+ ":decision:" +:+ decided_status +:+ ":" +:+ decided_by
     +:+ ":" +:+ decided_at) 0.

Definition admission_decision_superseded_event_id (group_id request_id decided_status decided_by
    decided_at : string) : string :=
  stable_id "governance"
    (group_id +:+ ":" +:+ request_id +:+ ":decision-superseded:" +:+ decided_status +:+ ":"
     +:+ decided_by +:+ ":" +:+ decided_at) 0.

Definition admission_request_id (group_id member_identity signer_public_key_hex : string) :
    string :=
  stable_id "group-admission-request"
    (group_id +:+ ":" +:+ member_identity +:+ ":" +:+ signer_public_key_hex) 0.

Definition governance_event_id (group_id event_kind target_member_id : string) (sequence : N) :
    string :=
  stable_id "governance" (group_id +:+ ":" +:+ event_kind +:+ ":" +:+ target_member_id) sequence.

(** ** Redaction of observable text *)

Definition sensitive_needles : list (string * string) := [
  ("v=0", "raw_sdp");
  ("a=ice-ufrag", "ice_credentials");
  ("a=ice-pwd", "ice_credentials");
  ("candidate:", "ice_candidates");
  ("ice password", "ice_credentials");
  ("ice credential", "ice_credentials");
  ("turn credential", "turn_credentials");
  ("turn password", "turn_credentials");
  ("provider credential", "provider_credentials");
  ("bearer ", "auth_token");
  ("api key", "auth_token");
  ("access token", "auth_token");
  ("refresh token", "auth_token");
  ("vault passphrase", "vault_secret");
  ("vault password", "vault_secret");
  ("profile name", "profile_name");
  ("private key", "private_key");
  ("secret key", "private_key");
  ("room-secret:", "room_seed");
  ("room seed", "room_seed");
  ("discrypt://join", "invite_link");
  ("plaintext message", "plaintext_message");
  ("audio plaintext", "audio_plaintext");
  ("sframe key", "sframe_key");
  ("content key", "content_key");
  ("mls epoch secret", "mls_key");
  ("mls exporter", "mls_key");
  ("welcome payload", "mls_welcome");
  ("welcome bytes", "mls_welcome");
  ("serialized welcome", "mls_welcome");
  ("serialized openmls welcome", "mls_welcome");
  ("openmls welcome bytes", "mls_welcome");
  ("serialized key package", "mls_key_package");
  ("key package bytes", "mls_key_package");
  ("epoch secret", "mls_key");
  ("raw store dump", "raw_store_dump");
  ("store dump", "raw_store_dump");
  ("app-state.discrypt-store", "raw_store_dump");
  ("raw member", "member_identifier");
  ("raw-member", "member_identifier");
  ("production-ready", "fake_production_label");
  ("fake production", "fake_production_label")]%string.

(** The body of the loop over the patterns. *)
Definition add_class (lower : string) (classes : list string) (nc : string * string) :
    list string :=
  let '(needle, class) := nc in
  if str_contains needle lower && negb (existsb (str_eqb class) classes)
  then classes ++ [class] else classes.

Definition sensitive_observable_classes (value : string) : list string :=
  foldl (add_class (to_ascii_lowercase value)) [] sensitive_needles.

Definition redact_sensitive_observable_copy (value : string) : string :=
  let classes := sensitive_observable_classes value in
  if bool_decide (classes = []) then value
  else "redacted sensitive observable copy (classes="
       +:+ string_of_bytes (join_bytes 44 (as_bytes <$> classes)) +:+ ")".

(** ** Hash commitments and redacted references *)

Section hashes.
Context `{Sha256, Hex}.

Definition hash_commitment (domain : string) (parts : list string) : string :=
  hex_encode (sha256 (as_bytes domain ++ mjoin ((λ part, 0 :: as_bytes part) <$> parts))).

(** [&text[..n]] on the ASCII text of a digest *)
Definition text_prefix (n : nat) (text : string) : string :=
  string_of_bytes (take n (as_bytes text)).

Definition redacted_observable_token (kind value : string) : string :=
  text_prefix 16 (hash_commitment "discrypt-observable-redaction-v1" [kind; value]).

Definition redacted_observable_ref (kind value : string) : string :=
  if is_blank value then kind +:+ "_ref=empty"
  else kind +:+ "_ref=" +:+ redacted_observable_token kind value.

Definition redacted_message_ref (message_id : string) : string :=
  redacted_observable_ref "message" message_id.

Definition runtime_peer_id_from_commitment (label commitment : string) : string :=
  "peer-" +:+ text_prefix 16 (hash_commitment "discrypt-runtime-peer-id-v1" [label; commitment]).

Definition key_fingerprint `{Ed25519} (key : verifying_key) : string :=
  hex_encode (take 10 (sha256 (vk_to_bytes key))).

Definition new_identity_seed_hex (display_name device_name : string) (sequence : N) : string :=
  hex_encode (sha256 (as_bytes "discrypt:desktop:identity-seed:v1" ++ as_bytes (trim display_name)
    ++ 0 :: as_bytes (trim device_name) ++ be_u64 sequence)).

Definition hex_32 (value : string) : option bytes :=
  match hex_decode value with
  | Ok decoded => if (length decoded =? 32)%nat then Some decoded else None
  | Err _ => None
  end.

End hashes.

(** ** The event log and command errors *)

Section events.
Context `{Chrono, !Rfc3339}.

Definition push_event (kind summary : string) (s : PersistedAppState) : PersistedAppState :=
  let event := {| ae_sequence := st_next_sequence s; ae_kind := kind;
                  ae_summary := redact_sensitive_observable_copy summary |} in
  let events := st_events s ++ [event] in
  {| s with st_next_sequence := sat_add u64_max (st_next_sequence s) 1;
            st_events := drop (length events - 256) events |}.

Definition redact_command_error_context (context : list (string * string)) :
    list (string * string) :=
  prod_map redact_sensitive_observable_copy redact_sensitive_observable_copy <$> context.

Definition command_error_view (now : datetime) (command code message recovery_hint : string)
    (context : list (string * string)) : CommandErrorView := {|
  ce_code := code;
  ce_command := command;
  ce_timestamp := dt_to_rfc3339 now;
  ce_message := redact_sensitive_observable_copy message;
  ce_recovery_hint := redact_sensitive_observable_copy recovery_hint;
  ce_redacted_context := redact_command_error_context context
|}.

(** The log line written to the standard error stream is left out. *)
Definition push_command_error (now : datetime) (event_kind command code message
    recovery_hint : string) (s : PersistedAppState) : PersistedAppState :=
  let error := command_error_view now command code message recovery_hint
                 [("event_kind", event_kind)%string] in
  push_event event_kind (code +:+ ": " +:+ message)
    {| s with st_last_command_error := Some error |}.

Definition local_user_id (s : PersistedAppState) : string :=
  match st_profile s with
  | Some profile => up_user_id profile
  | None => "local-profile-pending"
  end.

(** ** [TauriAppService::mutate]: update a copy, keep it only when it can be persisted *)

Definition mutate (persist_candidate : PersistedAppState → result unit CommandErrorView)
    (update : PersistedAppState → PersistedAppState) (s : PersistedAppState) : PersistedAppState :=
  let candidate := update {| s with st_last_command_error := None |} in
  match persist_candidate candidate with
  | Ok _ => candidate
  | Err error => {| s with st_last_command_error := Some error |}
  end.

(** ** The persisted rate limiter: [None] is a panic of [DateTime + Duration] *)

Definition ABUSE_WINDOW_SECONDS : Z := 60.
Definition INVITE_CREATE_LIMIT : N := 5.
Definition TEXT_SEND_LIMIT : N := 20.
Definition ADMISSION_HELPER_ATTEMPT_LIMIT : N := 5.
Definition SIGNALING_ACTION_LIMIT : N := 60.

Fixpoint retain_recent (window : timedelta) (now : datetime) (l : list datetime) :
    option (list datetime) :=
  match l with
  | [] => Some []
  | timestamp :: l =>
      expiry ← dt_add timestamp window;
      rest ← retain_recent window now l;
      Some (if dt_le now expiry then timestamp :: rest else rest)
  end.

Definition allow_persisted_action (buckets : list AbuseBucketView) (key : string) (limit : N)
    (now : datetime) : option (list AbuseBucketView * bool) :=
  window ← td_seconds ABUSE_WINDOW_SECONDS;
  recent ← mapM (λ bucket, timestamps ← retain_recent window now (ab_timestamps bucket);
                           Some {| bucket with ab_timestamps := timestamps |}) buckets;
  let kept := retain (λ bucket, negb (bool_decide (length (ab_timestamps bucket) = 0%nat))) recent in
  let kept := if existsb (λ bucket, ab_key bucket =s key) kept then kept
              else kept ++ [{| ab_key := key; ab_timestamps := [] |}] in
  Some match find_first (λ bucket, ab_key bucket =s key) kept with
  | None => (kept, false)
  | Some bucket =>
      if N.max limit 1 <=? N.of_nat (length (ab_timestamps bucket)) mod 2 ^ 32 then (kept, false)
      else (update_first (λ bucket, ab_key bucket =s key)
              (λ bucket, {| bucket with ab_timestamps := ab_timestamps bucket ++ [now] |}) kept, true)
  end.

Definition allow_invite_create (a : PersistedAbuseState) (key : string) (now : datetime) :
    option (PersistedAbuseState * bool) :=
  '(b, ok) ← allow_persisted_action (pa_invite_create a) key INVITE_CREATE_LIMIT now;
  Some ({| a with pa_invite_create := b |}, ok).

Definition allow_invite_consume (a : PersistedAbuseState) (key : string) (now : datetime) :
    option (PersistedAbuseState * bool) :=
  '(b, ok) ← allow_persisted_action (pa_invite_consume a) key INVITE_CREATE_LIMIT now;
  Some ({| a with pa_invite_consume := b |}, ok).

Definition allow_admission_helper (a : PersistedAbuseState) (key : string) (now : datetime) :
    option (PersistedAbuseState * bool) :=
  '(b, ok) ← allow_persisted_action (pa_admission_helper a) key ADMISSION_HELPER_ATTEMPT_LIMIT now;
  Some ({| a with pa_admission_helper := b |}, ok).

Definition allow_signaling_publish_take (a : PersistedAbuseState) (key : string) (now : datetime) :
    option (PersistedAbuseState * bool) :=
  '(b, ok) ← allow_persisted_action (pa_signaling_publish_take a) key SIGNALING_ACTION_LIMIT now;
  Some ({| a with pa_signaling_publish_take := b |}, ok).

Definition allow_text_send (a : PersistedAbuseState) (key : string) (now : datetime) :
    option (PersistedAbuseState * bool) :=
  '(b, ok) ← allow_persisted_action (pa_text_send a) key TEXT_SEND_LIMIT now;
  Some ({| a with pa_text_send := b |}, ok).

Definition text_send_abuse_key (s : PersistedAppState) (target : MessageTargetView) : string :=
  "text:" +:+ local_user_id s +:+ ":" +:+ mt_kind target +:+ ":"
  +:+ default "" (mt_group_id target) +:+ ":" +:+ default "" (mt_dm_id target).

End events.

(** ** The local identity *)

Section identity_seed.
Context `{Sha256, Ed25519, Hex, Chrono, !SigningSeed}.

Definition identity_seed_bytes (s : PersistedAppState) : PersistedAppState * bytes :=
  let valid := (String.length (st_identity_seed_hex s) =? 64)%nat
               && is_ok (hex_decode (st_identity_seed_hex s)) in
  let s := if valid then s else
    {| s with st_identity_seed_hex := new_identity_seed_hex
         (from_option up_display_name "Alice" (st_profile s))
         (from_option up_device_name "Desktop" (st_profile s)) (st_next_sequence s) |} in
  (s, default (sha256 (as_bytes (st_identity_seed_hex s))) (hex_32 (st_identity_seed_hex s))).

(** [SigningKey::from_bytes(&state.identity_seed_bytes())] *)
Definition identity_signing_key (s : PersistedAppState) : PersistedAppState * signing_key :=
  let '(s, seed) := identity_seed_bytes s in (s, sk_from_bytes seed).

(** [hex::encode(signing_key.verifying_key().as_bytes())] *)
Definition public_key_hex (k : signing_key) : string := hex_encode (vk_to_bytes (vk_of k)).

Definition local_device_id (s : PersistedAppState) : string :=
  match find_first dw_local (st_devices s) with
  | Some device => dw_device_id device
  | None => "local-device"
  end.

Definition local_group_runtime_peer_id (s : PersistedAppState) (group_id : string) :
    PersistedAppState * string :=
  let '(s, key) := identity_signing_key s in
  (s, runtime_peer_id_from_commitment "group-provider-advertised-runtime-peer-v1"
        (group_id +:+ ":" +:+ public_key_hex key +:+ ":" +:+ local_device_id s)).

Definition local_dm_runtime_peer (s : PersistedAppState) (scope_id_commitment role : string) :
    PersistedAppState * DmRuntimePeerView :=
  let '(s, key) := identity_signing_key s in
  let signer_public_key_hex := public_key_hex key in
  let device_id := local_device_id s in
  (s, {| dp_peer_id := runtime_peer_id_from_commitment "dm-provider-advertised-runtime-peer-v1"
           (scope_id_commitment +:+ ":" +:+ signer_public_key_hex +:+ ":" +:+ device_id);
         dp_role := role;
         dp_is_local := true;
         dp_source := "local_profile_runtime_peer_v1";
         dp_profile_id := local_user_id s;
         dp_signer_public_key_hex := signer_public_key_hex;
         dp_device_id := device_id;
         dp_last_seen_at := "";
         dp_presence_expires_at := "" |}).

End identity_seed.

(** ** Signed payloads *)

(** [bytes.push(0); bytes.extend_from_slice(component)] for each component *)
Definition nul_separated (components : list bytes) : bytes :=
  mjoin ((λ component, 0 :: component) <$> components).

Record GroupMemberRoleChangeSignaturePayload := {
  rcp_group_id : string;
  rcp_event_id : string;
  rcp_actor_member_id : string;
  rcp_actor_signer_public_key_hex : string;
  rcp_target_member_id : string;
  rcp_role_before : GroupRoleView;
  rcp_role_after : GroupRoleView;
  rcp_created_at : string
}.

Definition group_member_role_change_signature_payload
    (p : GroupMemberRoleChangeSignaturePayload) : bytes :=
  as_bytes "discrypt:group-member-role-change:v1" ++ nul_separated
    [as_bytes (rcp_group_id p); as_bytes (rcp_event_id p); as_bytes (rcp_actor_member_id p);
     as_bytes (rcp_actor_signer_public_key_hex p); as_bytes (rcp_target_member_id p);
     as_bytes (role_as_str (rcp_role_before p)); as_bytes (role_as_str (rcp_role_after p));
     as_bytes (rcp_created_at p)].

Record GroupChannelSchemaSignaturePayload := {
  ssp_group_id : string;
  ssp_schema_epoch : N;
  ssp_channels_sha256 : string;
  ssp_actor_member_id : string;
  ssp_actor_signer_public_key_hex : string;
  ssp_created_at : string
}.

Definition group_channel_schema_signature_payload (p : GroupChannelSchemaSignaturePayload) :
    bytes :=
  as_bytes "discrypt:group-channel-schema-signature:v1" ++ nul_separated
    [as_bytes (ssp_group_id p); be_u64 (ssp_schema_epoch p); as_bytes (ssp_channels_sha256 p);
     as_bytes (ssp_actor_member_id p); as_bytes (ssp_actor_signer_public_key_hex p);
     as_bytes (ssp_created_at p)].

Record GroupPresenceSignaturePayload := {
  gpp_group_id : string;
  gpp_event_id : string;
  gpp_member_id : string;
  gpp_display_name : option string;
  gpp_device_id : option string;
  gpp_signer_public_key_hex : string;
  gpp_runtime_peer_id : string;
  gpp_channel_schema_epoch : N;
  gpp_channel_schema_sha256 : string;
  gpp_last_seen_at : string;
  gpp_presence_expires_at : string
}.

Definition group_presence_signature_payload (p : GroupPresenceSignaturePayload) : bytes :=
  as_bytes "discrypt:group-presence-heartbeat:v1" ++ nul_separated
    [as_bytes (gpp_group_id p); as_bytes (gpp_event_id p); as_bytes (gpp_member_id p);
     as_bytes (default "" (gpp_display_name p)); as_bytes (default "" (gpp_device_id p));
     as_bytes (gpp_signer_public_key_hex p); as_bytes (gpp_runtime_peer_id p);
     be_u64 (gpp_channel_schema_epoch p); as_bytes (gpp_channel_schema_sha256 p);
     as_bytes (gpp_last_seen_at p); as_bytes (gpp_presence_expires_at p)].

Record DmPresenceSignaturePayload := {
  dpp_scope_id_commitment : string;
  dpp_event_id : string;
  dpp_profile_id : string;
  dpp_display_name : string;
  dpp_device_id : string;
  dpp_role : string;
  dpp_signer_public_key_hex : string;
  dpp_runtime_peer_id : string;
  dpp_last_seen_at : string;
  dpp_presence_expires_at : string
}.

Definition dm_presence_signature_payload (p : DmPresenceSignaturePayload) : bytes :=
  as_bytes "discrypt:dm-presence-heartbeat:v1" ++ nul_separated
    (as_bytes <$> [dpp_scope_id_commitment p; dpp_event_id p; dpp_profile_id p;
       dpp_display_name p; dpp_device_id p; dpp_role p; dpp_signer_public_key_hex p;
       dpp_runtime_peer_id p; dpp_last_seen_at p; dpp_presence_expires_at p]).

Section signatures.
Context `{Sha256, Ed25519, Hex, !FrameJson, !ErrorTexts}.

(** [hex::encode(signing_key.sign(payload).to_bytes())] *)
Definition sign_hex (k : signing_key) (payload : bytes) : string :=
  hex_encode (sig_to_bytes (sign k payload)).

(** The shared body of the [verify_*_signature] functions; [subject] starts their errors. *)
Definition verify_hex_signature (subject signer_error verifying_key_hex signature_hex : string)
    (payload : bytes) : result unit string :=
  let* verifying_key := ok_or (verifying_key_from_hex verifying_key_hex) signer_error in
  let* signature_bytes := map_err (λ error, subject +:+ " is invalid hex: " +:+ error)
                            (hex_decode signature_hex) in
  let* signature := ok_or (sig_from_slice signature_bytes)
    (subject +:+ " is malformed: " +:+ signature_parse_error signature_bytes) in
  if vk_verify verifying_key payload signature then Ok tt
  else Err (subject +:+ " verification failed: " +:+ signature_verify_error payload).

Definition sign_group_member_role_change (k : signing_key)
    (p : GroupMemberRoleChangeSignaturePayload) : string :=
  sign_hex k (group_member_role_change_signature_payload p).

Definition verify_group_member_role_change_signature (verifying_key_hex signature_hex : string)
    (p : GroupMemberRoleChangeSignaturePayload) : result unit string :=
  verify_hex_signature "Role-change governance signature"
    "Role-change governance signer key is invalid" verifying_key_hex signature_hex
    (group_member_role_change_signature_payload p).

Definition group_channel_schema_sha256 (channels : list ChannelStateView) : result string string :=
  let* encoded := map_err (λ error, "could not encode group channel schema: " +:+ error)
                    (channels_to_vec channels) in
  Ok (hex_encode (sha256 (as_bytes "discrypt:group-channel-schema:v1" ++ encoded))).

Definition sign_group_channel_schema (k : signing_key) (p : GroupChannelSchemaSignaturePayload) :
    string :=
  sign_hex k (group_channel_schema_signature_payload p).

Definition verify_group_channel_schema_signature (snapshot : GroupChannelSchemaSnapshotView)
    (group_id : string) : result unit string :=
  let* channels_sha256 := group_channel_schema_sha256 (csn_channels snapshot) in
  verify_hex_signature "Channel schema signature" "Channel schema signer key is invalid"
    (csn_actor_signer_public_key_hex snapshot) (csn_signature_hex snapshot)
    (group_channel_schema_signature_payload {|
       ssp_group_id := group_id;
       ssp_schema_epoch := csn_schema_epoch snapshot;
       ssp_channels_sha256 := channels_sha256;
       ssp_actor_member_id := csn_actor_member_id snapshot;
       ssp_actor_signer_public_key_hex := csn_actor_signer_public_key_hex snapshot;
       ssp_created_at := csn_created_at snapshot |}).

Definition sign_group_presence (k : signing_key) (p : GroupPresenceSignaturePayload) : string :=
  sign_hex k (group_presence_signature_payload p).

Definition verify_group_presence_signature (verifying_key_hex signature_hex : string)
    (p : GroupPresenceSignaturePayload) : result unit string :=
  verify_hex_signature "Presence signature" "Presence signer key is invalid"
    verifying_key_hex signature_hex (group_presence_signature_payload p).

Definition sign_dm_presence (k : signing_key) (p : DmPresenceSignaturePayload) : string :=
  sign_hex k (dm_presence_signature_payload p).

Definition verify_dm_presence_signature (verifying_key_hex signature_hex : string)
    (p : DmPresenceSignaturePayload) : result unit string :=
  verify_hex_signature "DM presence signature" "DM presence signer key is invalid"
    verifying_key_hex signature_hex (dm_presence_signature_payload p).

Definition text_control_frame_sha256 (frame : TextControlFrameView) : result string string :=
  let* encoded := map_err (λ error, "could not encode text/control frame: " +:+ error)
                    (frame_to_vec frame) in
  Ok (hex_encode (sha256 encoded)).

End signatures.

Definition text_delivery_group_id (target : MessageTargetView) : result string string :=
  if mt_kind target =s "dm" then
    ok_or ((λ dm_id, "dm:" +:+ dm_id) <$> mt_dm_id target)
      "DM delivery receipt target requires dm_id"
  else if mt_kind target =s "channel" then
    let* group_id := ok_or (mt_group_id target)
      "channel delivery receipt target requires group_id"%string in
    let* channel_id := ok_or (mt_channel_id target)
      "channel delivery receipt target requires channel_id"%string in
    Ok ("group:" +:+ group_id +:+ ":channel:" +:+ channel_id)
  else Err ("unsupported delivery receipt target kind " +:+ mt_kind target).

(** ** Outbound control frames *)

Definition text_control_frame_delivery_priority (frame : TextControlFrameView) : N :=
  match frame with
  | Envelope _ _ _ _ => 0
  | VoiceSignal _ => 1
  | GroupPresenceHeartbeat _ _ _ _ _ _ _ _ _ _ _ _
  | DmPresenceHeartbeat _ _ _ _ _ _ _ _ _ _ _ => 3
  | _ => 2
  end.

Inductive TextControlFramePlane := ProviderControl | DirectPeer.

#[export] Instance TextControlFramePlane_eq_dec : EqDecision TextControlFramePlane.
Proof. solve_decision. Defined.

Definition text_control_frame_plane (frame : TextControlFrameView) : TextControlFramePlane :=
  match frame with Envelope _ _ _ _ | Receipt _ _ => DirectPeer | _ => ProviderControl end.

Section outbox.
Context `{Sha256, Hex, Chrono, !Rfc3339, !FrameJson}.

Definition text_control_frame_is_expired_presence (frame : TextControlFrameView) (now : datetime) :
    bool :=
  match frame with
  | GroupPresenceHeartbeat _ _ _ _ _ _ _ _ _ _ presence_expires_at _
  | DmPresenceHeartbeat _ _ _ _ _ _ _ _ _ presence_expires_at _ =>
      match dt_parse_rfc3339 presence_expires_at with
      | Some expires_at => dt_le expires_at now
      | None => true
      end
  | _ => false
  end.

(** The heartbeats a newly queued heartbeat replaces. *)
Definition replaced_by (frame : TextControlFrameView) (record : TextControlOutboxRecord) : bool :=
  match frame, ob_frame record with
  | GroupPresenceHeartbeat group_id _ member_id _ _ _ _ _ _ _ _ _,
    GroupPresenceHeartbeat existing_group_id _ existing_member_id _ _ _ _ _ _ _ _ _ =>
      (existing_group_id =s group_id) && (existing_member_id =s member_id)
  | DmPresenceHeartbeat scope _ profile_id _ _ _ _ _ _ _ _,
    DmPresenceHeartbeat existing_scope _ existing_profile _ _ _ _ _ _ _ _ =>
      (existing_scope =s scope) && (existing_profile =s profile_id)
  | _, _ => false
  end.

Definition pending_outbox_record (message_id : string) (target : MessageTargetView)
    (frame : TextControlFrameView) (frame_sha256 : string) : TextControlOutboxRecord := {|
  ob_message_id := message_id;
  ob_target := target;
  ob_frame := frame;
  ob_frame_sha256 := frame_sha256;
  ob_attempts := 0;
  ob_last_attempted_at_ms := None;
  ob_state_key := "pending";
  ob_last_transport_session_id := None;
  ob_route_peer_ids := [];
  ob_expected_route_peer_ids := [];
  ob_sent_route_peer_ids := [];
  ob_receipted_route_peer_ids := []
|}.

Definition push_outbox (record : TextControlOutboxRecord) (s : PersistedAppState) :
    PersistedAppState :=
  {| s with st_text_control_outbox := st_text_control_outbox s ++ [record] |}.

Definition queue_provider_control_frame (target : MessageTargetView) (event_id : string)
    (frame : TextControlFrameView) (s : PersistedAppState) :
    PersistedAppState * result unit string :=
  if negb (bool_decide (text_control_frame_plane frame = ProviderControl))
  then (s, Err "Direct peer payload cannot be queued on the provider control plane"%string)
  else match text_control_frame_sha256 frame with
  | Err error => (s, Err error)
  | Ok frame_sha256 =>
      if existsb (λ record, (ob_message_id record =s event_id)
                            || (ob_frame_sha256 record =s frame_sha256))
           (st_text_control_outbox s)
      then (s, Ok tt)
      else
        let outbox := retain (λ record, negb (replaced_by frame record))
                        (st_text_control_outbox s) in
        ({| s with st_text_control_outbox :=
              outbox ++ [pending_outbox_record event_id target frame frame_sha256] |}, Ok tt)
  end.

Definition group_control_target (group_id : string) : MessageTargetView :=
  {| mt_kind := "channel"; mt_dm_id := None; mt_group_id := Some group_id; mt_channel_id := None |}.

Definition queue_group_governance_frame (group_id event_id : string)
    (frame : TextControlFrameView) (s : PersistedAppState) :
    PersistedAppState * result unit string :=
  queue_provider_control_frame (group_control_target group_id) event_id frame s.

Definition queue_dm_control_frame (dm_id event_id : string) (frame : TextControlFrameView)
    (s : PersistedAppState) : PersistedAppState * result unit string :=
  queue_provider_control_frame
    {| mt_kind := "dm"; mt_dm_id := Some dm_id; mt_group_id := None; mt_channel_id := None |}
    event_id frame s.

End outbox.

(** ** Lemmas *)

Lemma str_eqb_true a b : (a =s b) = true ↔ a = b.
Proof. apply bool_decide_eq_true. Qed.

Lemma str_eqb_refl a : (a =s a) = true.
Proof. by apply str_eqb_true. Qed.

Lemma str_eqb_false a b : (a =s b) = false ↔ a ≠ b.
Proof. apply bool_decide_eq_false. Qed.

Section first_match.
Context {A : Type} (p : A → bool).

Lemma find_first_some l x : find_first p l = Some x → x ∈ l ∧ p x = true.
Proof.
  induction l as [|y l IH]; [done|]. simpl. destruct (p y) eqn:E; intros ?; simplify_eq; set_solver.
Qed.

Lemma find_first_none l : find_first p l = None ↔ existsb p l = false.
Proof. induction l as [|y l IH]; [done|]. simpl. by destruct (p y). Qed.

Lemma update_first_none f l : find_first p l = None → update_first p f l = l.
Proof. induction l as [|y l IH]; [done|]. simpl. destruct (p y); [done|]. intros. f_equal; auto. Qed.

Lemma find_update_first f l :
  (∀ x, p x = true → p (f x) = true) →
  find_first p (update_first p f l) = f <$> find_first p l.
Proof.
  intros Hf. induction l as [|y l IH]; [done|]. simpl.
  destruct (p y) eqn:E; simpl; [by rewrite Hf|by rewrite E].
Qed.

Lemma find_update_first_other f (q : A → bool) l :
  (∀ x, p x = true → q x = false) → (∀ x, p x = true → q (f x) = false) →
  find_first q (update_first p f l) = find_first q l.
Proof.
  intros H1 H2. induction l as [|y l IH]; [done|]. simpl.
  destruct (p y) eqn:E; simpl; [by rewrite (H1 y E), (H2 y E)|by rewrite IH].
Qed.

Lemma length_update_first f l : length (update_first p f l) = length l.
Proof. induction l as [|y l IH]; [done|]. simpl. destruct (p y); simpl; by rewrite ?IH. Qed.

Lemma update_first_split f l x :
  find_first p l = Some x →
  ∃ l1 l2, l = l1 ++ x :: l2 ∧ update_first p f l = l1 ++ f x :: l2 ∧ existsb p l1 = false
    ∧ p x = true.
Proof.
  induction l as [|y l IH]; [done|]. simpl. destruct (p y) eqn:E.
  - intros [= ->]. by exists [], l.
  - intros (l1 & l2 & -> & -> & ? & ?)%IH. exists (y :: l1), l2. simpl. by rewrite E.
Qed.

Lemma update_first_fmap {B} f (g : A → B) l :
  (∀ x, find_first p l = Some x → g (f x) = g x) → g <$> update_first p f l = g <$> l.
Proof.
  intros Hg. destruct (find_first p l) as [x|] eqn:E; [|by rewrite update_first_none].
  destruct (update_first_split f l x E) as (l1 & l2 & -> & -> & _).
  rewrite !fmap_app. csimpl. by rewrite Hg.
Qed.

Lemma lookup_update_first f l i y :
  update_first p f l !! i = Some y →
  l !! i = Some y ∨ ∃ x, l !! i = Some x ∧ find_first p l = Some x ∧ p x = true ∧ y = f x.
Proof.
  revert i. induction l as [|z l IH]; intros i; [done|]. simpl. destruct (p z) eqn:E.
  - destruct i as [|i]; simpl; [intros [= <-]; right; eauto|auto].
  - destruct i as [|i]; simpl; [auto|]. intros [?|(x & ? & ? & ? & ?)]%IH; eauto 10.
Qed.

Lemma existsb_find_first l : existsb p l = true ↔ is_Some (find_first p l).
Proof.
  rewrite <- not_eq_None_Some, find_first_none. by destruct (existsb p l).
Qed.

End first_match.

Lemma elem_of_retain {A} (keep : A → bool) l x : x ∈ retain keep l ↔ x ∈ l ∧ keep x = true.
Proof. unfold retain. rewrite list_elem_of_filter. naive_solver. Qed.

Lemma retain_all {A} (keep : A → bool) l : (∀ x, x ∈ l → keep x = true) → retain keep l = l.
Proof.
  unfold retain. induction l as [|x l IH]; intros Hall; [done|]. rewrite filter_cons.
  rewrite decide_True by (apply Hall; set_solver). f_equal. apply IH. set_solver.
Qed.

(** *** Redacted copy *)

Lemma window_split (n x y : bytes) (c : N) :
  n ≠ [] → c ∉ n → has_window n (x ++ c :: y) = true → has_window n x = true ∨ has_window n y = true.
Proof.
  intros Hn Hc (a & b & E)%has_window_spec.
  apply app_eq_inv in E as [(k & -> & E)|(k & -> & E)].
  - symmetry in E. apply app_eq_inv in E as [(k2 & -> & E)|(k2 & -> & E)].
    + left. apply has_window_spec. by exists a, k2.
    + destruct k2 as [|d k2]; simplify_eq/=.
      * left. apply has_window_spec. exists a, []. by rewrite !app_nil_r.
      * set_solver.
  - destruct k as [|d k]; simplify_eq/=.
    + destruct n as [|d n]; simplify_eq/=. set_solver.
    + right. apply has_window_spec. by exists k, b.
Qed.

(** The characters of class names, of their separators and of the text around them. *)
Definition is_class_char (x : N) : bool :=
  ((97 <=? x) && (x <=? 122)) || (x =? 95) || (x =? 44) || (x =? 61) || (x =? 41).

Definition needle_shape (nc : string * string) : bool :=
  forallb is_class_char (as_bytes nc.2) && negb (nc.1 =s "")
  && forallb (λ x, negb (x =? 40)) (as_bytes nc.1) && negb (forallb is_class_char (as_bytes nc.1))
  && negb (has_window (as_bytes nc.1) (as_bytes "redacted sensitive observable copy ")).

Lemma needles_have_shape nc : nc ∈ sensitive_needles → needle_shape nc = true.
Proof.
  assert (forallb needle_shape sensitive_needles = true) as H by (vm_compute; reflexivity).
  rewrite forallb_forall in H. intros Hin. by apply H, list_elem_of_In.
Qed.

Lemma classes_are_known value :
  Forall (λ class, ∃ needle, (needle, class) ∈ sensitive_needles) (sensitive_observable_classes value).
Proof.
  unfold sensitive_observable_classes. generalize (to_ascii_lowercase value) as lower. intros lower.
  assert (∀ (known l : list (string * string)) acc, (∀ nc, nc ∈ l → nc ∈ known) →
    Forall (λ class, ∃ needle, (needle, class) ∈ known) acc →
    Forall (λ class, ∃ needle : string, (needle, class) ∈ known) (foldl (add_class lower) acc l))
    as Hfold; [|by apply Hfold].
  intros known. induction l as [|[n c] l IH]; intros acc Hl Hacc; [done|].
  apply IH; [set_solver|]. unfold add_class. destruct (_ && _); [|done].
  apply Forall_app. split; [done|]. apply Forall_singleton. exists n. apply Hl. set_solver.
Qed.

Lemma needle_found lower needle class acc l :
  (needle, class) ∈ l → str_contains needle lower = true → foldl (add_class lower) acc l ≠ [].
Proof.
  assert (Hstep : ∀ acc nc, acc ≠ [] → add_class lower acc nc ≠ []).
  { intros acc' [n c] Hacc. unfold add_class. destruct (_ && _); [|done]. by destruct acc'. }
  assert (Hgrow : ∀ l acc, acc ≠ [] → foldl (add_class lower) acc l ≠ []).
  { clear - Hstep. induction l as [|nc l IH]; intros acc' Hacc; [done|]. by apply IH, Hstep. }
  revert acc. induction l as [|nc l IH]; intros acc Hin Hc; [set_solver|].
  apply elem_of_cons in Hin as [<-|Hin]; [|by apply IH].
  cbn [foldl]. apply Hgrow. destruct acc as [|a acc]; [|by apply Hstep].
  unfold add_class. by rewrite Hc.
Qed.

Lemma needle_classes value needle class :
  (needle, class) ∈ sensitive_needles → str_contains needle (to_ascii_lowercase value) = true →
  sensitive_observable_classes value ≠ [].
Proof. unfold sensitive_observable_classes. apply needle_found. Qed.

Lemma lower_id b : Forall (λ x, byte_to_lower x = x) b → byte_to_lower <$> b = b.
Proof. induction 1 as [|x b Hx _ IH]; [done|]. csimpl. by rewrite Hx, IH. Qed.

Lemma class_char_lower x : is_class_char x = true → byte_to_lower x = x.
Proof.
  unfold is_class_char, byte_to_lower.
  rewrite !orb_true_iff, andb_true_iff, !N.leb_le, !N.eqb_eq. intros Hx.
  destruct (_ && (x <=? 90)) eqn:E; [|done]. rewrite andb_true_iff, !N.leb_le in E. lia.
Qed.

Lemma joined_classes_chars value :
  Forall (λ x, is_class_char x = true)
    (join_bytes 44 (as_bytes <$> sensitive_observable_classes value)).
Proof.
  apply Forall_forall. intros x [->|(piece & Hp & Hx)]%elem_of_join_bytes; [done|].
  apply list_elem_of_fmap in Hp as (class & -> & Hc).
  pose proof (proj1 (Forall_forall _ _) (classes_are_known value) class Hc) as [needle Hn].
  apply needles_have_shape in Hn. unfold needle_shape in Hn. rewrite !andb_true_iff in Hn.
  destruct Hn as ((((Hall & _) & _) & _) & _).
  rewrite forallb_forall in Hall. apply Hall. by apply list_elem_of_In.
Qed.

Lemma redacted_tail_chars value :
  Forall (λ x, is_class_char x = true) (as_bytes "classes="
    ++ join_bytes 44 (as_bytes <$> sensitive_observable_classes value) ++ as_bytes ")").
Proof.
  apply Forall_app. split; [by repeat constructor|].
  apply Forall_app. split; [apply joined_classes_chars|by repeat constructor].
Qed.

Lemma lower_redacted value :
  as_bytes (to_ascii_lowercase ("redacted sensitive observable copy (classes="
    +:+ string_of_bytes (join_bytes 44 (as_bytes <$> sensitive_observable_classes value)) +:+ ")"))
  = as_bytes "redacted sensitive observable copy " ++ 40 :: as_bytes "classes="
    ++ join_bytes 44 (as_bytes <$> sensitive_observable_classes value) ++ as_bytes ")".
Proof.
  pose proof (joined_classes_chars value) as Hj.
  generalize dependent (join_bytes 44 (as_bytes <$> sensitive_observable_classes value)).
  intros j Hj. unfold to_ascii_lowercase.
  rewrite as_string_bytes; [|apply Forall_fmap; eapply Forall_impl; [apply as_bytes_u8|];
    intros x Hx; cbv beta in *; unfold compose, byte_to_lower; destruct (_ && _) eqn:E;
    rewrite ?andb_true_iff, ?N.leb_le in E; lia].
  rewrite !as_bytes_app, !fmap_app, as_string_bytes.
  - rewrite (lower_id j); [reflexivity|].
    eapply Forall_impl; [exact Hj|]. apply class_char_lower.
  - eapply Forall_impl; [exact Hj|]. unfold is_class_char. intros x.
    rewrite !orb_true_iff, andb_true_iff, !N.leb_le, !N.eqb_eq. simpl. lia.
Qed.

(** Redaction is complete: whatever text is logged, no entry of the list of sensitive
    patterns occurs in the redacted copy, in any case. *)
Theorem redacted_copy_has_no_needle value needle class :
  (needle, class) ∈ sensitive_needles →
  str_contains needle (to_ascii_lowercase (redact_sensitive_observable_copy value)) = false.
Proof.
  intros Hin. unfold redact_sensitive_observable_copy. apply not_true_is_false.
  case_bool_decide as Hc; [intros H; exact (needle_classes _ _ _ Hin H Hc)|].
  apply needles_have_shape in Hin. unfold needle_shape in Hin. simpl fst in Hin.
  rewrite !andb_true_iff, !negb_true_iff in Hin. destruct Hin as ((((_ & Hne) & Hp) & Hf) & Hw).
  rewrite forallb_forall in Hp. rewrite str_eqb_false in Hne.
  unfold str_contains. rewrite lower_redacted. intros [H|H]%window_split.
  - by rewrite H in Hw.
  - apply has_window_spec in H as (a & b & E). apply not_true_iff_false in Hf. apply Hf.
    apply forallb_forall. intros x Hx%list_elem_of_In.
    pose proof (redacted_tail_chars value) as Hall. rewrite E, !Forall_app in Hall.
    destruct Hall as (_ & Hall & _). by eapply Forall_forall in Hall.
  - intros E. apply Hne. by apply (inj as_bytes).
  - intros Hx%list_elem_of_In%Hp. done.
Qed.

(** The theorem at a concrete text. *)
Lemma redacted_copy_has_no_needle_witness :
  str_contains "content key" (to_ascii_lowercase
    (redact_sensitive_observable_copy "stored the Content Key of the room")) = false.
Proof.
  refine (redacted_copy_has_no_needle "stored the Content Key of the room" "content key"
            "content_key" _).
  apply list_elem_of_In. vm_compute. tauto.
Defined.

(** *** The event log *)

Section event_log.
Context `{Chrono}.

(** The event the [i]-th push appends. *)
Definition pushed_event (next : N) (i : nat) (ks : string * string) : AppEventView := {|
  ae_sequence := sat_add u64_max next (N.of_nat i);
  ae_kind := ks.1;
  ae_summary := redact_sensitive_observable_copy ks.2
|}.

Definition push_events (l : list (string * string)) (s : PersistedAppState) : PersistedAppState :=
  foldl (λ s ks, push_event ks.1 ks.2 s) s l.

(** The last [256] elements. *)
Definition last_256 {A} (l : list A) : list A := drop (length l - 256) l.

Lemma last_256_app {A} (l k : list A) : last_256 (last_256 l ++ k) = last_256 (l ++ k).
Proof.
  unfold last_256. rewrite <- (drop_app_le l k) by lia. rewrite drop_drop. f_equal.
  rewrite length_drop, length_app. lia.
Qed.

Lemma push_event_events kind summary s :
  st_events (push_event kind summary s)
  = last_256 (st_events s ++ [{| ae_sequence := st_next_sequence s; ae_kind := kind;
                                 ae_summary := redact_sensitive_observable_copy summary |}]).
Proof. done. Qed.

Lemma push_event_sequence kind summary s :
  st_next_sequence (push_event kind summary s) = sat_add u64_max (st_next_sequence s) 1.
Proof. done. Qed.

(** The event log is a window over all events: after any sequence of pushes it holds exactly
    the last 256 of the old log followed by the new events, which are numbered consecutively from
    the sequence counter. *)
Theorem event_log_is_a_window l s :
  (st_next_sequence s ≤ u64_max) →
  st_events (push_events l s)
    = (if bool_decide (l = []) then st_events s
       else last_256 (st_events s ++ imap (pushed_event (st_next_sequence s)) l))
  ∧ st_next_sequence (push_events l s) = sat_add u64_max (st_next_sequence s) (N.of_nat (length l)).
Proof.
  revert s. induction l as [|ks l IH] using rev_ind; intros s Hs.
  { split; [done|]. unfold sat_add. simpl. lia. }
  unfold push_events. rewrite foldl_app. fold (push_events l s). destruct (IH s Hs) as [He Hn].
  rewrite bool_decide_eq_false_2 by (by destruct l). cbn [foldl].
  rewrite push_event_events, push_event_sequence, Hn, imap_app, length_app, (assoc_L (++)). split.
  - assert (imap (λ n, pushed_event (st_next_sequence s) (length l + n)) [ks]
            = [pushed_event (st_next_sequence s) (length l) ks]) as -> by (cbn; by rewrite Nat.add_0_r).
    rewrite He. case_bool_decide as El; [|apply last_256_app].
    rewrite El. cbn. by rewrite app_nil_r.
  - unfold sat_add. simpl. lia.
Qed.

End event_log.

(** *** The persisted rate limiter *)

Section limiter.
Context `{ChronoLaws}.

(** Within the window of [now]: [timestamp + 60 s >= now]. *)
Definition in_window (now t : datetime) : Prop := (dt_nanos now ≤ dt_nanos t + 60 * 1000000000)%Z.

#[export] Instance in_window_dec now t : Decision (in_window now t).
Proof. unfold in_window. apply _. Defined.

(** The actions remembered for a key. *)
Definition remembered (key : string) (buckets : list AbuseBucketView) : list datetime :=
  from_option ab_timestamps [] (find_first (λ b, ab_key b =s key) buckets).

Definition fresh_bucket (now : datetime) (b : AbuseBucketView) : AbuseBucketView :=
  {| b with ab_timestamps := filter (in_window now) (ab_timestamps b) |}.

Lemma retain_recent_some window now l r :
  td_seconds ABUSE_WINDOW_SECONDS = Some window → retain_recent window now l = Some r →
  r = filter (in_window now) l.
Proof.
  intros Hw%td_seconds_some. revert r. induction l as [|t l IH]; intros r; [by intros [= <-]|].
  cbn [retain_recent]. intros (e & He & (rest & ->%IH & [= <-])%bind_Some)%bind_Some.
  rewrite filter_cons. apply dt_add_nanos in He. unfold dt_le.
  destruct (Z.leb_spec (dt_nanos now) (dt_nanos e)).
  - rewrite decide_True; [done|]. unfold in_window. rewrite He, Hw in *. unfold ABUSE_WINDOW_SECONDS in *. lia.
  - rewrite decide_False; [done|]. unfold in_window. rewrite He, Hw in *. unfold ABUSE_WINDOW_SECONDS in *. lia.
Qed.

Lemma fresh_buckets window now buckets recent :
  td_seconds ABUSE_WINDOW_SECONDS = Some window →
  mapM (λ bucket, timestamps ← retain_recent window now (ab_timestamps bucket);
                  Some {| bucket with ab_timestamps := timestamps |}) buckets = Some recent →
  recent = fresh_bucket now <$> buckets.
Proof.
  intros Hw. revert recent. induction buckets as [|b buckets IH]; intros recent; [by intros [= <-]|].
  cbn [mapM]. intros (b' & Hb' & (rest & Hrest & E)%bind_Some)%bind_Some.
  apply bind_Some in Hb' as (ts & Hts & Hb'). apply IH in Hrest.
  rewrite (retain_recent_some _ _ _ _ Hw Hts) in Hb'. simplify_eq/=. by injection E as <-.
Qed.

Lemma remembered_nil key buckets :
  (∀ b, b ∈ buckets → ab_key b = key → ab_timestamps b = []) → remembered key buckets = [].
Proof.
  intros Hall. unfold remembered. destruct (find_first _ _) as [b|] eqn:E; [|done].
  apply find_first_some in E as [Hb Hk]. cbv beta in Hk. rewrite str_eqb_true in Hk.
  by apply (Hall b).
Qed.

Lemma remembered_fresh now key buckets :
  remembered key (fresh_bucket now <$> buckets) = filter (in_window now) (remembered key buckets).
Proof.
  unfold remembered. induction buckets as [|b buckets IH]; [done|]. csimpl.
  by destruct (ab_key b =s key).
Qed.

Lemma remembered_retained key buckets :
  NoDup (ab_key <$> buckets) →
  remembered key (retain (λ b, negb (bool_decide (length (ab_timestamps b) = 0%nat))) buckets)
  = remembered key buckets.
Proof.
  induction buckets as [|b buckets IH]; [done|]. csimpl. intros [Hb Hnd]%NoDup_cons.
  unfold retain. rewrite filter_cons. destruct (ab_timestamps b) as [|t ts] eqn:Et.
  - rewrite decide_False by (by rewrite bool_decide_eq_true_2).
    fold (retain (λ b, negb (bool_decide (length (ab_timestamps b) = 0%nat))) buckets).
    rewrite IH by done. unfold remembered at 2. cbn [find_first].
    destruct (ab_key b =s key) eqn:Ek; [|done]. rewrite str_eqb_true in Ek. cbn. rewrite Et.
    apply remembered_nil. intros b' Hb' Hk. destruct Hb. apply list_elem_of_fmap.
    exists b'. by rewrite Ek.
  - rewrite decide_True by (by rewrite bool_decide_eq_false_2).
    unfold remembered in *. cbn [find_first]. destruct (ab_key b =s key); [done|]. by apply IH.
Qed.

Lemma remembered_app_new key key' buckets :
  existsb (λ b, ab_key b =s key) buckets = false →
  remembered key' (buckets ++ [{| ab_key := key; ab_timestamps := [] |}]) = remembered key' buckets.
Proof.
  intros _. unfold remembered. induction buckets as [|b buckets IH]; cbn.
  - by destruct (key =s key').
  - by destruct (ab_key b =s key').
Qed.

Lemma remembered_push key key' now buckets :
  existsb (λ b, ab_key b =s key) buckets = true →
  remembered key' (update_first (λ b, ab_key b =s key)
    (λ b, {| b with ab_timestamps := ab_timestamps b ++ [now] |}) buckets)
  = remembered key' buckets ++ (if key =s key' then [now] else []).
Proof.
  unfold remembered. induction buckets as [|b buckets IH]; cbn; [done|].
  destruct (ab_key b =s key) eqn:Ek; cbn.
  - intros _. rewrite str_eqb_true in Ek. rewrite Ek. destruct (key =s key') eqn:Ek'; cbn; [done|].
    by rewrite app_nil_r.
  - intros Hin. destruct (ab_key b =s key') eqn:Ek'; cbn; [|by apply IH].
    rewrite str_eqb_true in Ek'. rewrite <- Ek'. rewrite str_eqb_false in Ek.
    destruct (key =s ab_key b) eqn:E; [by rewrite str_eqb_true in E; subst|]. by rewrite app_nil_r.
Qed.

Lemma NoDup_retain_keys (keep : AbuseBucketView → bool) buckets :
  NoDup (ab_key <$> buckets) → NoDup (ab_key <$> retain keep buckets).
Proof.
  induction buckets as [|b buckets IH]; [done|]. csimpl. intros [Hb Hnd]%NoDup_cons.
  unfold retain. rewrite filter_cons. destruct (decide _); [|by apply IH].
  csimpl. apply NoDup_cons. split; [|by apply IH].
  intros (b' & E & Hb')%list_elem_of_fmap. apply Hb. apply list_elem_of_fmap. exists b'.
  apply list_elem_of_filter in Hb' as [_ Hb']. done.
Qed.

(** The persisted limiter is an exact sliding window: an action is allowed if and only if
    fewer than the limit (at least one) were allowed for its key in the last minute; an allowed
    action is remembered, expired ones are forgotten, other keys are untouched, and no key ever
    holds more than the limit. *)
Theorem limiter_is_a_sliding_window buckets key limit now buckets' ok :
  NoDup (ab_key <$> buckets) → N.max limit 1 < 2 ^ 32 →
  N.of_nat (length (remembered key buckets)) ≤ N.max limit 1 →
  allow_persisted_action buckets key limit now = Some (buckets', ok) →
  let recent := filter (in_window now) (remembered key buckets) in
  ok = bool_decide (N.of_nat (length recent) < N.max limit 1)
  ∧ remembered key buckets' = recent ++ (if ok then [now] else [])
  ∧ (∀ key', key' ≠ key →
       remembered key' buckets' = filter (in_window now) (remembered key' buckets))
  ∧ NoDup (ab_key <$> buckets')
  ∧ N.of_nat (length (remembered key buckets')) ≤ N.max limit 1.
Proof.
  intros Hnd Hlim Hlen Hallow. unfold allow_persisted_action in Hallow.
  apply bind_Some in Hallow as (window & Hw & Hallow).
  apply bind_Some in Hallow as (recent0 & Hrec & Hallow).
  rewrite (fresh_buckets _ _ _ _ Hw Hrec) in Hallow. clear Hrec recent0. cbv zeta in Hallow.
  set (kept := retain _ (fresh_bucket now <$> buckets)) in Hallow.
  assert (Hk : ∀ k, remembered k kept = filter (in_window now) (remembered k buckets)).
  { intros k. unfold kept. rewrite remembered_retained; [apply remembered_fresh|].
    by rewrite <- list_fmap_compose. }
  assert (Hkd : NoDup (ab_key <$> kept)).
  { apply NoDup_retain_keys. by rewrite <- list_fmap_compose. }
  clearbody kept.
  set (kept' := if existsb _ kept then kept else _) in Hallow.
  assert (Hk' : ∀ k, remembered k kept' = filter (in_window now) (remembered k buckets)).
  { intros k. unfold kept'. destruct (existsb _ _) eqn:E; [done|]. by rewrite remembered_app_new. }
  assert (Hin : existsb (λ b, ab_key b =s key) kept' = true).
  { unfold kept'. destruct (existsb _ _) eqn:E; [done|]. rewrite existsb_app. cbn.
    by rewrite str_eqb_refl, E. }
  assert (Hkd' : NoDup (ab_key <$> kept')).
  { unfold kept'. destruct (existsb _ _) eqn:E; [done|]. rewrite fmap_app. apply NoDup_app.
    split_and!; [done| |apply NoDup_singleton]. intros k Hkin ->%list_elem_of_singleton.
    apply list_elem_of_fmap in Hkin as (b & Eb & Hb). apply not_true_iff_false in E. apply E.
    apply existsb_exists. exists b. rewrite <- list_elem_of_In. split; [done|]. by apply str_eqb_true. }
  clearbody kept'. clear Hk Hkd kept. intros recent.
  assert (Hle : (length recent ≤ length (remembered key buckets))%nat) by apply length_filter.
  assert (Erec : filter (in_window now) (remembered key buckets) = recent) by done.
  clearbody recent.
  pose proof (proj1 (existsb_find_first _ _) Hin) as [b Hb].
  assert (Hr : ab_timestamps b = recent).
  { rewrite <- Erec, <- Hk'. unfold remembered. by rewrite Hb. }
  rewrite Hb, Hr, N.mod_small in Hallow by lia.
  destruct (N.leb_spec (N.max limit 1) (N.of_nat (length recent))); injection Hallow as <- <-.
  - rewrite bool_decide_eq_false_2 by lia. rewrite app_nil_r.
    split_and!; [done|by rewrite Hk'|intros; apply Hk'|done|]. rewrite Hk', Erec. lia.
  - rewrite bool_decide_eq_true_2 by lia. rewrite remembered_push, str_eqb_refl, Hk', Erec by done.
    split_and!; [done|done| | |].
    + intros key' Hne. rewrite remembered_push by done.
      rewrite (proj2 (str_eqb_false key key')) by done. by rewrite app_nil_r.
    + by rewrite update_first_fmap.
    + rewrite length_app. cbn. lia.
Qed.

End limiter.

(** *** Signed payloads *)

Definition nul_free (s : string) : Prop := 0 ∉ as_bytes s.

Lemma nul_cut (a b x y : bytes) :
  0 ∉ a → 0 ∉ b → (x = [] ∨ ∃ x', x = 0 :: x') → (y = [] ∨ ∃ y', y = 0 :: y') →
  a ++ x = b ++ y → a = b ∧ x = y.
Proof.
  intros Ha Hb Hx Hy. revert b Hb. induction a as [|c a IH]; intros [|d b] Hb E; cbn in E.
  - done.
  - destruct Hx as [?|[x' ?]]; simplify_eq/=; set_solver.
  - destruct Hy as [?|[y' ?]]; simplify_eq/=; set_solver.
  - injection E as -> E. apply IH in E as [-> ->]; [done|set_solver..].
Qed.

Lemma nul_separated_head l : nul_separated l = [] ∨ ∃ x, nul_separated l = 0 :: x.
Proof. destruct l; [by left|right; by eexists]. Qed.

Lemma nul_separated_inj l k :
  Forall (λ c, 0 ∉ c) l → Forall (λ c, 0 ∉ c) k → nul_separated l = nul_separated k → l = k.
Proof.
  intros Hl. revert k. induction Hl as [|c l Hc Hl IH]; intros [|d k] Hk E; try done.
  apply Forall_cons in Hk as [Hd Hk]. unfold nul_separated in E. simpl in E. injection E as E.
  apply nul_cut in E as [-> E]; [|done|done|apply nul_separated_head..]. f_equal. by apply IH.
Qed.

Lemma role_as_str_nul_free r : 0 ∉ as_bytes (role_as_str r).
Proof. destruct r; vm_compute; set_solver. Qed.

#[export] Instance role_as_str_inj : Inj (=) (=) role_as_str.
Proof. by intros [] []. Qed.

Definition role_payload_nul_free (p : GroupMemberRoleChangeSignaturePayload) : Prop :=
  nul_free (rcp_group_id p) ∧ nul_free (rcp_event_id p) ∧ nul_free (rcp_actor_member_id p)
  ∧ nul_free (rcp_actor_signer_public_key_hex p) ∧ nul_free (rcp_target_member_id p)
  ∧ nul_free (rcp_created_at p).

(** A role-change signature commits to the whole event: two events whose text fields hold
    no NUL character and whose signed payloads agree are the same event, so a signature cannot be
    moved to another group, actor, target or role. *)
Theorem role_change_payload_is_binding p q :
  role_payload_nul_free p → role_payload_nul_free q →
  group_member_role_change_signature_payload p = group_member_role_change_signature_payload q →
  p = q.
Proof.
  intros (Hp1 & Hp2 & Hp3 & Hp4 & Hp5 & Hp6) (Hq1 & Hq2 & Hq3 & Hq4 & Hq5 & Hq6) E.
  apply app_inv_head, nul_separated_inj in E;
    [|repeat (apply Forall_cons; split; [first [done|apply role_as_str_nul_free]|]); constructor..].
  injection E. intros. destruct p, q; simpl in *. f_equal; by apply (inj as_bytes) || by
    (apply (inj role_as_str), (inj as_bytes)).
Qed.

Section signed_text.
Context `{Sha256, Ed25519Laws, HexLaws, !FrameJson, !ErrorTexts}.

Lemma verify_sign_hex subject signer_error k payload :
  verify_hex_signature subject signer_error (hex_encode (vk_to_bytes (vk_of k)))
    (sign_hex k payload) payload = Ok tt.
Proof.
  unfold verify_hex_signature, sign_hex. rewrite verifying_key_from_hex_encode. cbn.
  rewrite hex_decode_encode by apply sig_to_bytes_u8. cbn.
  rewrite sig_from_slice_to_bytes. cbn. by rewrite vk_verify_sign.
Qed.

Lemma verify_hex_signature_ok subject signer_error key_hex signature_hex payload :
  verify_hex_signature subject signer_error key_hex signature_hex payload = Ok tt →
  ∃ v b sig, verifying_key_from_hex key_hex = Some v ∧ hex_decode signature_hex = Ok b
    ∧ sig_from_slice b = Some sig ∧ vk_verify v payload sig = true.
Proof.
  unfold verify_hex_signature. destruct (verifying_key_from_hex key_hex) as [v|] eqn:Ev; [|done].
  cbn. destruct (hex_decode signature_hex) as [b|] eqn:Eb; [|done]. cbn.
  destruct (sig_from_slice b) as [sig|] eqn:Es; [|done]. cbn.
  destruct (vk_verify v payload sig) eqn:E; [|done]. naive_solver.
Qed.

End signed_text.

(** *** The identity seed *)

Section seed.
Context `{Sha256Laws, !Sha256Octets, HexLaws, Ed25519, Chrono, !SigningSeed}.

Definition valid_seed (s : PersistedAppState) : bool :=
  (String.length (st_identity_seed_hex s) =? 64)%nat && is_ok (hex_decode (st_identity_seed_hex s)).

Lemma new_seed_valid display_name device_name n :
  hex_32 (new_identity_seed_hex display_name device_name n)
  = Some (sha256 (as_bytes "discrypt:desktop:identity-seed:v1" ++ as_bytes (trim display_name)
      ++ 0 :: as_bytes (trim device_name) ++ be_u64 n)).
Proof.
  unfold hex_32, new_identity_seed_hex. rewrite hex_decode_encode by apply sha256_u8.
  by rewrite sha256_length.
Qed.

Lemma new_seed_is_valid a b n :
  (String.length (new_identity_seed_hex a b n) =? 64)%nat
  && is_ok (hex_decode (new_identity_seed_hex a b n)) = true.
Proof.
  unfold new_identity_seed_hex. rewrite hex_encode_length, sha256_length.
  by rewrite hex_decode_encode by apply sha256_u8.
Qed.

(** The seed text is usable from then on, and any state with that text has that key. *)
Lemma identity_key_settles s s' k t :
  identity_signing_key s = (s', k) → st_identity_seed_hex t = st_identity_seed_hex s' →
  identity_signing_key t = (t, k).
Proof.
  intros Hs Ht. unfold identity_signing_key, identity_seed_bytes in Hs.
  injection Hs as Hs Hk.
  assert (valid_seed s' = true) as Hv.
  { rewrite <- Hs. destruct (_ && _) eqn:E; [done|]. apply new_seed_is_valid. }
  unfold identity_signing_key, identity_seed_bytes. rewrite Ht. fold (valid_seed s'). rewrite Hv, Ht.
  by rewrite <- Hk, Hs.
Qed.

Lemma identity_key_seed s s' k :
  identity_signing_key s = (s', k) → {| s' with st_identity_seed_hex := st_identity_seed_hex s |} = s.
Proof.
  unfold identity_signing_key, identity_seed_bytes. intros [= <- _]. by destruct (_ && _), s.
Qed.

(** Asking for the identity seed repairs it once: the seed read is 32 bytes long whatever is
    stored, asking again gives the same seed and changes nothing, and only the stored seed text is
    ever written. *)
Theorem identity_seed_is_stable s :
  let '(s', seed) := identity_seed_bytes s in
  length seed = 32%nat ∧ identity_seed_bytes s' = (s', seed)
  ∧ {| s' with st_identity_seed_hex := st_identity_seed_hex s |} = s
  ∧ (valid_seed s = true → s' = s).
Proof.
  unfold identity_seed_bytes. fold (valid_seed s). destruct (valid_seed s) eqn:Hv.
  - fold (valid_seed s). rewrite Hv. split_and!; [|done|by destruct s|done].
    unfold hex_32. destruct (hex_decode _) as [b|] eqn:E; [|apply sha256_length].
    destruct (Nat.eqb_spec (length b) 32); [done|apply sha256_length].
  - cbn -[new_identity_seed_hex Nat.eqb]. rewrite !new_seed_valid.
    assert (∀ a b n, String.length (new_identity_seed_hex a b n) = 64%nat) as Hlen.
    { intros. unfold new_identity_seed_hex. by rewrite hex_encode_length, sha256_length. }
    assert (∀ a b n, is_ok (hex_decode (new_identity_seed_hex a b n)) = true) as Hok.
    { intros. unfold new_identity_seed_hex. by rewrite hex_decode_encode by apply sha256_u8. }
    rewrite Hlen, Hok. cbn -[new_identity_seed_hex]. rewrite !new_seed_valid.
    split_and!; [apply sha256_length|done|by destruct s|done].
Qed.

(** A missing or damaged identity seed is replaced by a hash of public data: the profile and
    device names and the event counter determine the whole signing seed, so two states that
    agree on those three have the same identity key, whatever else they hold. *)
Theorem repaired_seed_is_public s t :
  valid_seed s = false → valid_seed t = false →
  from_option up_display_name "Alice"%string (st_profile s)
    = from_option up_display_name "Alice"%string (st_profile t) →
  from_option up_device_name "Desktop"%string (st_profile s)
    = from_option up_device_name "Desktop"%string (st_profile t) →
  st_next_sequence s = st_next_sequence t →
  (identity_seed_bytes s).2 = (identity_seed_bytes t).2
  ∧ (identity_signing_key s).2 = (identity_signing_key t).2.
Proof.
  intros Hs Ht E1 E2 E3. unfold identity_signing_key, identity_seed_bytes.
  fold (valid_seed s) (valid_seed t). rewrite Hs, Ht. cbn -[new_identity_seed_hex].
  by rewrite E1, E2, E3.
Qed.

End seed.

(** ** Concrete library operations and states *)

Module DeskToy.

Definition toy_seed : @SigningSeed Toy.toy_ed := λ seed,
  match seed with x :: _ => negb (x =? 0) | [] => false end.

(** A short text that tells frames of different kinds and events apart. *)
Definition toy_json : FrameJson := {|
  frame_to_vec frame := Ok match frame with
    | OpenMlsAdmissionKeyPackage group_id member_identity _ _ _ =>
        as_bytes ("kp:" +:+ group_id +:+ member_identity)
    | GroupAdmissionDecision _ request_id _ _ _ _ => as_bytes ("ad:" +:+ request_id)
    | OpenMlsAdmissionWelcome group_id _ _ _ _ _ _ _ => as_bytes ("wl:" +:+ group_id)
    | Envelope _ envelope _ _ => as_bytes ("en:" +:+ te_message_id envelope)
    | GroupMemberRoleChanged _ event_id _ _ _ _ _ _ _ => as_bytes ("rc:" +:+ event_id)
    | GroupMemberRevoked _ event_id _ _ _ _ _ _ _ _ => as_bytes ("rv:" +:+ event_id)
    | GroupChannelSchemaUpdated _ event_id _ => as_bytes ("cs:" +:+ event_id)
    | GroupPresenceHeartbeat _ event_id _ _ _ _ _ _ _ _ _ _ => as_bytes ("gp:" +:+ event_id)
    | DmPresenceHeartbeat _ event_id _ _ _ _ _ _ _ _ _ => as_bytes ("dp:" +:+ event_id)
    | GroupGovernanceAck _ event_id _ _ _ => as_bytes ("ak:" +:+ event_id)
    | VoiceSignal signal => as_bytes ("vs:" +:+ vsm_signal_id signal)
    | Receipt message_id _ => as_bytes ("rt:" +:+ message_id)
    end;
  channels_to_vec channels := Ok (mjoin ((λ c, push_bytes (as_bytes (ch_channel_id c))) <$> channels))
|}.

Definition toy_texts : ErrorTexts := {|
  signature_parse_error _ := "signature error";
  signature_verify_error _ := "signature error";
  rfc3339_parse_error _ := "input contains invalid characters"
|}.

Definition empty_abuse : @PersistedAbuseState Toy.toy_chrono := {|
  pa_invite_create := []; pa_invite_consume := []; pa_admission_helper := [];
  pa_signaling_publish_take := []; pa_text_send := []
|}.

(** A profile whose seed is the signing key [1...1] of the sample crypto. *)
Definition alice_state : @PersistedAppState Toy.toy_chrono := {|
  st_profile := Some {| up_user_id := "user-alice"; up_display_name := "Alice";
                        up_device_name := "Desktop"; up_recovery_status := "" |};
  st_dms := []; st_groups := []; st_openmls_groups := []; st_active_context := None;
  st_messages := []; st_text_delivery_envelopes := []; st_text_delivery_receipts := [];
  st_text_control_outbox := []; st_devices := [];
  st_identity_seed_hex := @hex_encode Toy.toy_hex (Toy.key_bytes true);
  st_events := []; st_last_command_error := None; st_abuse := empty_abuse; st_next_sequence := 7
|}.

End DeskToy.

Section witnesses.
#[local] Existing Instance Toy.toy_sha.
#[local] Existing Instance Toy.toy_sha_laws.
#[local] Existing Instance Toy.toy_sha_octets.
#[local] Existing Instance Toy.toy_ed.
#[local] Existing Instance Toy.toy_ed_laws.
#[local] Existing Instance Toy.toy_hex.
#[local] Existing Instance Toy.toy_hex_laws.
#[local] Existing Instance Toy.toy_chrono.
#[local] Existing Instance Toy.toy_chrono_laws.
#[local] Existing Instance DeskToy.toy_seed.

Lemma event_log_is_a_window_witness :
  ae_sequence <$> st_events (push_events [("a", "x"); ("b", "y")]%string DeskToy.alice_state) = [7; 8].
Proof.
  rewrite (proj1 (event_log_is_a_window [("a", "x"); ("b", "y")]%string DeskToy.alice_state
    ltac:(vm_compute; discriminate))).
  vm_compute. reflexivity.
Defined.

Definition ex_minute : list (@AbuseBucketView Toy.toy_chrono) :=
  [{| ab_key := "k"; ab_timestamps := [10; 20; 30; 40; 50]%Z |}].

Definition ex_instant : @datetime Toy.toy_chrono := 60%Z.

(** The sixth action within a minute is refused. *)
Lemma limiter_is_a_sliding_window_witness :
  allow_persisted_action ex_minute "k" 5 ex_instant = Some (ex_minute, false)
  ∧ false = bool_decide (N.of_nat (length (filter (in_window ex_instant) (remembered "k" ex_minute)))
                         < N.max 5 1).
Proof.
  split; [reflexivity|].
  refine (proj1 (limiter_is_a_sliding_window ex_minute "k" 5 ex_instant ex_minute false _ _ _ _));
    [apply NoDup_singleton|reflexivity|discriminate|reflexivity].
Defined.

Lemma role_change_payload_is_binding_witness :
  let p := {| rcp_group_id := "g"; rcp_event_id := "e"; rcp_actor_member_id := "a";
              rcp_actor_signer_public_key_hex := "k"; rcp_target_member_id := "t";
              rcp_role_before := RoleMember; rcp_role_after := RoleStaff;
              rcp_created_at := "now" |} in
  group_member_role_change_signature_payload p
  ≠ group_member_role_change_signature_payload {| p with rcp_role_after := RoleOwner |}.
Proof.
  intros p E. pose proof (role_change_payload_is_binding p {| p with rcp_role_after := RoleOwner |}) as H.
  assert (p = {| p with rcp_role_after := RoleOwner |}) as Hp; [|discriminate Hp].
  apply H; [repeat split; unfold nul_free; simpl; set_solver..|exact E].
Defined.

Lemma identity_seed_is_stable_witness :
  (identity_seed_bytes {| DeskToy.alice_state with st_identity_seed_hex := "zz" |}).2 ≠ [].
Proof.
  pose proof (identity_seed_is_stable {| DeskToy.alice_state with st_identity_seed_hex := "zz" |}) as H.
  destruct (identity_seed_bytes _) as [s' seed]. destruct H as (Hlen & _). intros E.
  cbn in E. rewrite E in Hlen. discriminate Hlen.
Defined.

Lemma repaired_seed_is_public_witness :
  (identity_signing_key {| DeskToy.alice_state with st_identity_seed_hex := "" |}).2
  = (identity_signing_key {| DeskToy.alice_state with st_identity_seed_hex := "zz" |}).2.
Proof.
  apply (repaired_seed_is_public {| DeskToy.alice_state with st_identity_seed_hex := "" |}
    {| DeskToy.alice_state with st_identity_seed_hex := "zz" |}); vm_compute; reflexivity.
Defined.

End witnesses.
