(* ===== verification/DeskGroups.v ===== *)
(** * Desktop application: group governance
    (apps/desktop/src-tauri/src/lib.rs)

    What a desktop does with the governance it receives and issues: roster rows and runtime
    routes, role changes, revocations, channel schemas, presence leases of groups and
    conversations, and the routes of the text outbox that follow from them. Each [apply_*] is the
    function of the same name; the handlers of control frames and the commands are in
    [DeskAdmission] and [DeskCommands]. *)

From S2P Require Import Prelude Collections Bytes StrOps Crypto Transport RouteGraph Identity TextEnvelope AppService DeskState.

(** A refused event carries a code, a message and a recovery hint; [Panicked] is a panic of
    [DateTime + Duration]. *)
Inductive GovError :=
| Panicked
| Rejected (code message hint : string).

Definition gov_reject {A} (code message hint : string) : result A GovError :=
  Err (Rejected code message hint).

Definition require (holds : bool) (code message hint : string) : result unit GovError :=
  if holds then Ok tt else gov_reject code message hint.

Definition require_some {A} (o : option A) (code message hint : string) : result A GovError :=
  ok_or o (Rejected code message hint).

Lemma require_ok holds code message hint u : require holds code message hint = Ok u ↔ holds = true.
Proof. unfold require. destruct u, holds; split; done. Qed.

Lemma require_some_ok {A} (o : option A) code message hint x :
  require_some o code message hint = Ok x ↔ o = Some x.
Proof. unfold require_some, ok_or. destruct o; split; congruence. Qed.

(** One step of the inversion of a chain of checks. *)
Tactic Notation "gov" hyp(H) "as" simple_intropattern(x) simple_intropattern(Hx) :=
  apply rbind_ok in H as (x & Hx & H);
  first [ apply require_ok in Hx | apply require_some_ok in Hx | apply map_err_ok in Hx | idtac ];
  cbv beta in H.

Definition GROUP_PRESENCE_MAX_TTL_SECONDS : Z := 300.
Definition GROUP_PRESENCE_MAX_FUTURE_SKEW_SECONDS : Z := 30.

Definition opt_str_eqb (a b : option string) : bool := bool_decide (a = b).

Definition is_member (member_id : string) (m : GroupMemberView) : bool := gm_member_id m =s member_id.
Definition is_group (group_id : string) (g : GroupView) : bool := gv_group_id g =s group_id.

Definition has_event (event_id : string) (g : GroupView) : bool :=
  existsb (λ entry, gl_event_id entry =s event_id) (gv_governance_log g).

Definition log_governance (entry : GroupGovernanceLogEntryView) (g : GroupView) : GroupView :=
  {| g with gv_governance_log := gv_governance_log g ++ [entry] |}.

Definition update_member (member_id : string) (f : GroupMemberView → GroupMemberView)
    (g : GroupView) : GroupView :=
  {| g with gv_members := update_first (is_member member_id) f (gv_members g) |}.

Definition governance_log_entry (event_id group_id event_kind actor_member_id : string)
    (target_member_id : option string) (role_before role_after : option GroupRoleView)
    (created_at summary : string) : GroupGovernanceLogEntryView := {|
  gl_event_id := event_id;
  gl_group_id := group_id;
  gl_event_kind := event_kind;
  gl_actor_member_id := actor_member_id;
  gl_target_member_id := target_member_id;
  gl_request_id := None;
  gl_role_before := role_before;
  gl_role_after := role_after;
  gl_created_at := created_at;
  gl_summary := summary
|}.

(** ** Roster rows *)

Definition group_member_is_admitted_for_runtime (m : GroupMemberView) : bool :=
  negb (gm_status m =s "pending") && negb (gm_status m =s "revoked").

Definition local_role_for_group (g : GroupView) (local_member_id : string) :
    option GroupRoleView :=
  gm_role <$> find_first (λ m, is_member local_member_id m && negb (gm_status m =s "revoked")
                               && negb (gm_status m =s "pending")) (gv_members g).

Definition local_member_is_revoked (g : GroupView) (local_member_id : string) : bool :=
  existsb (λ m, is_member local_member_id m && (gm_status m =s "revoked")) (gv_members g).

(** [value.filter(|peer_id| !peer_id.trim().is_empty())] *)
Definition non_blank (value : option string) : option string :=
  v ← value; if is_blank v then None else Some v.

Section groups.
Context `{Sha256, Ed25519, Hex, Chrono, !Rfc3339, !SigningSeed, !FrameJson, !ErrorTexts}.

Definition find_group (group_id : string) (s : PersistedAppState) : option GroupView :=
  find_first (is_group group_id) (st_groups s).

Definition update_group (group_id : string) (f : GroupView → GroupView) (s : PersistedAppState) :
    PersistedAppState :=
  {| s with st_groups := update_first (is_group group_id) f (st_groups s) |}.

Definition group_member_runtime_route_is_current (m : GroupMemberView) (local_member_id : string)
    (now : datetime) : bool :=
  if negb (group_member_is_admitted_for_runtime m)
     || from_option is_blank true (gm_runtime_peer_id m) then false
  else if is_member local_member_id m then true
  else (gm_status m =s "online")
       && from_option (λ expires_at, dt_lt now expires_at) false
            (value ← gm_presence_expires_at m; dt_parse_rfc3339 value).

Definition advertised_group_runtime_peers (now : datetime) (members : list GroupMemberView)
    (local_member_id : string) : list GroupRuntimePeerView :=
  omap (λ m, if group_member_runtime_route_is_current m local_member_id now
             then (λ peer_id, {|
               grp_peer_id := peer_id;
               grp_role := group_role_label (gm_role m);
               grp_is_local := is_member local_member_id m;
               grp_source := "sealed_provider_peer_advertisement_v1";
               grp_member_id := Some (gm_member_id m);
               grp_device_id := gm_device_id m;
               grp_route_evidence := gm_route_evidence m |}) <$> non_blank (gm_runtime_peer_id m)
             else None) members.

(** What the UI shows of a group: expired presence reads as offline. *)
Definition effective_presence (now : datetime) (m : GroupMemberView) : GroupMemberView :=
  if gm_status m =s "online" then
    let expired := from_option (λ expires, dt_le expires now) true
                     (value ← gm_presence_expires_at m; dt_parse_rfc3339 value) in
    if expired then {| m with gm_status := "offline" |} else m
  else m.

Definition group_with_effective_presence (now now' : datetime) (g : GroupView)
    (local_member_id : string) : GroupView :=
  let members := effective_presence now <$> gv_members g in
  {| g with gv_members := members;
            gv_runtime_peers := advertised_group_runtime_peers now' members local_member_id |}.

Definition group_member_runtime_peer_id (group_id : string) (m : GroupMemberView) :
    result string string :=
  if negb (group_member_is_admitted_for_runtime m) then
    Err ("Group member " +:+ redacted_observable_ref "member" (gm_member_id m)
         +:+ " is not admitted for text/control runtime attach")
  else ok_or (non_blank (gm_runtime_peer_id m))
         ("Group member " +:+ redacted_observable_ref "member" (gm_member_id m)
          +:+ " has not advertised a runtime peer id over the provider control plane").

Definition dm_runtime_peer_route_is_current (peer : DmRuntimePeerView) (now : datetime) : bool :=
  if dp_is_local peer then true
  else from_option (λ expires_at, dt_lt now expires_at) false
         (dt_parse_rfc3339 (dp_presence_expires_at peer)).

(** ** Guards of the commands that send *)

Definition ensure_group_sender_not_revoked (s : PersistedAppState) (group_id : string) :
    result unit string :=
  if from_option (λ g, local_member_is_revoked g (local_user_id s)) false (find_group group_id s)
  then Err "Local member is revoked in backend governance state; access is fail-closed and any local OpenMLS handle is unusable"%string
  else Ok tt.

Definition ensure_text_target_not_revoked (s : PersistedAppState) (target : MessageTargetView) :
    result unit string :=
  if mt_kind target =s "channel" then
    match mt_group_id target with
    | Some group_id => ensure_group_sender_not_revoked s group_id
    | None => Ok tt
    end
  else Ok tt.

Definition local_admission_pending (s : PersistedAppState) (group_id : string) : bool :=
  from_option (λ g,
    from_option (λ m, gm_status m =s "pending") false
      (find_first (λ m, is_member (local_user_id s) m && negb (gm_status m =s "revoked"))
         (gv_members g))) false (find_group group_id s).

Definition has_openmls_handle (s : PersistedAppState) (group_id : string) : bool :=
  existsb (λ handle, oh_group_id handle =s group_id) (st_openmls_groups s).

Definition ensure_group_sender_admitted_for_voice (s : PersistedAppState) (group_id : string) :
    result unit GovError :=
  check require (negb (local_admission_pending s group_id)) "admission_pending"
    "This profile is still waiting for owner/staff admission; protected voice is blocked until an OpenMLS Welcome is received"
    "Keep both peers online, wait for approval, then retry after the group shows admitted membership" in
  require (has_openmls_handle s group_id) "openmls_group_state_missing"
    ("OpenMLS group state is missing for " +:+ redacted_observable_ref "group" group_id)
    "Complete invite admission so a persisted OpenMLS group handle exists before joining protected voice".

Definition ensure_channel_target_openmls_ready_for_send (s : PersistedAppState)
    (target : MessageTargetView) : result unit GovError :=
  if negb (mt_kind target =s "channel") then Ok tt
  else
    let* group_id := require_some (mt_group_id target) "openmls_group_target_missing"
      "Channel text requires a persisted group before protected delivery can be created"
      "Open or join a group channel before sending protected text" in
    check require (negb (local_admission_pending s group_id)) "admission_pending"
      "This profile is still waiting for owner/staff admission; protected group text is blocked until an OpenMLS Welcome is received"
      "Keep both peers online, wait for approval, then retry after the group shows admitted membership" in
    require (has_openmls_handle s group_id) "openmls_group_state_missing"
      ("OpenMLS group state is missing for " +:+ redacted_observable_ref "group" group_id)
      "Create the group locally or complete invite admission so a persisted OpenMLS group handle exists before sending protected text".

(** ** Routes of the text outbox *)

(** The loop over remote members: a [BTreeSet] of peer ids, refused on a clash. *)
Fixpoint collect_routes (group_id local_peer_id : string) (remotes : list GroupMemberView)
    (acc : gset string) : result (gset string) string :=
  match remotes with
  | [] => Ok acc
  | remote :: remotes =>
      match non_blank (gm_runtime_peer_id remote) with
      | None => collect_routes group_id local_peer_id remotes acc
      | Some remote_peer_id =>
          if remote_peer_id =s local_peer_id then
            Err ("Group " +:+ group_id +:+ " remote member runtime peer id matches the local peer")
          else if bool_decide (remote_peer_id ∈ acc) then
            Err ("Group " +:+ group_id +:+ " has duplicate admitted runtime peer ids")
          else collect_routes group_id local_peer_id remotes ({[remote_peer_id]} ∪ acc)
      end
  end.

(** Within one search the clock reads one instant. *)
Definition route_peer_ids_for_text_target (now : datetime) (target : MessageTargetView)
    (s : PersistedAppState) : result (list string) string :=
  if mt_kind target =s "dm" then
    let* dm_id := ok_or (mt_dm_id target)
      "DM text target is missing dm_id for route selection"%string in
    let* dm := ok_or (find_first (λ dm, dc_dm_id dm =s dm_id) (st_dms s))
      ("DM text target " +:+ dm_id +:+ " is missing") in
    let remote := find_first (λ peer, negb (dp_is_local peer)
                                      && dm_runtime_peer_route_is_current peer now)
                    (dc_runtime_peers dm) in
    Ok (from_option (λ peer, [dp_peer_id peer]) [] remote)
  else if negb (mt_kind target =s "channel") then
    Err ("unsupported text target kind " +:+ mt_kind target +:+ " for route selection")
  else
    let* group_id := ok_or (mt_group_id target)
      "channel text target is missing group_id for route fanout"%string in
    let* group := ok_or (find_group group_id s)
      ("channel text target group " +:+ group_id +:+ " is missing") in
    let local_member_id := local_user_id s in
    let* local_member := ok_or
      (find_first (λ m, is_member local_member_id m && negb (gm_status m =s "pending")
                        && negb (gm_status m =s "revoked")) (gv_members group))
      ("Group " +:+ group_id +:+ " has no admitted local member for text fanout") in
    let* local_peer_id := group_member_runtime_peer_id group_id local_member in
    let* routes := collect_routes group_id local_peer_id
      (retain (λ m, negb (is_member local_member_id m)
                    && group_member_runtime_route_is_current m local_member_id now)
         (gv_members group)) ∅ in
    Ok (sorted_elements routes).

Definition contains (l : list string) (x : string) : bool := existsb (str_eqb x) l.

(** The route sets of one record, brought up to date with the current routes. *)
Definition refresh_record_routes (route_peer_ids : list string) (r : TextControlOutboxRecord) :
    TextControlOutboxRecord :=
  let expected := if bool_decide (ob_expected_route_peer_ids r = [])
                     && negb (bool_decide (route_peer_ids = []))
                  then route_peer_ids else ob_expected_route_peer_ids r in
  let routes := retain (contains expected) route_peer_ids in
  {| r with ob_expected_route_peer_ids := expected;
            ob_route_peer_ids := routes;
            ob_sent_route_peer_ids := retain (contains routes) (ob_sent_route_peer_ids r);
            ob_receipted_route_peer_ids := retain (contains expected) (ob_receipted_route_peer_ids r) |}.

Definition map_if {A} (p : A → bool) (f : A → A) (l : list A) : list A :=
  (λ x, if p x then f x else x) <$> l.

Definition all_expected_receipted (r : TextControlOutboxRecord) : bool :=
  forallb (contains (ob_receipted_route_peer_ids r)) (ob_expected_route_peer_ids r).

Definition refresh_text_control_outbox_routes_for_group (now : datetime) (group_id : string)
    (s : PersistedAppState) : result PersistedAppState string :=
  let* route_peer_ids := route_peer_ids_for_text_target now (group_control_target group_id) s in
  Ok {| s with st_text_control_outbox :=
    map_if (λ r, bool_decide (text_control_frame_plane (ob_frame r) = DirectPeer)
                 && opt_str_eqb (mt_group_id (ob_target r)) (Some group_id))
      (λ r, let r := refresh_record_routes route_peer_ids r in
            {| r with ob_state_key :=
                 if negb (bool_decide (ob_expected_route_peer_ids r = []))
                    && all_expected_receipted r then "receipted" else "pending" |})
      (st_text_control_outbox s) |}.

Definition is_envelope (frame : TextControlFrameView) : bool :=
  match frame with Envelope _ _ _ _ => true | _ => false end.

Definition refresh_text_control_outbox_routes_for_dm (now : datetime) (dm_id : string)
    (s : PersistedAppState) : result PersistedAppState string :=
  let* route_peer_ids := route_peer_ids_for_text_target now
    {| mt_kind := "dm"; mt_dm_id := Some dm_id; mt_group_id := None; mt_channel_id := None |} s in
  Ok {| s with st_text_control_outbox :=
    map_if (λ r, (ob_state_key r =s "pending") && (mt_kind (ob_target r) =s "dm")
                 && opt_str_eqb (mt_dm_id (ob_target r)) (Some dm_id) && is_envelope (ob_frame r))
      (refresh_record_routes route_peer_ids) (st_text_control_outbox s) |}.

Definition cleanup_record_routes (current : list string) (r : TextControlOutboxRecord) :
    TextControlOutboxRecord :=
  let routes := retain (contains current) (ob_route_peer_ids r) in
  let r := {| r with ob_route_peer_ids := routes;
              ob_sent_route_peer_ids := retain (contains routes) (ob_sent_route_peer_ids r);
              ob_receipted_route_peer_ids :=
                retain (contains (ob_expected_route_peer_ids r)) (ob_receipted_route_peer_ids r) |} in
  {| r with ob_state_key :=
       if bool_decide (routes = []) then "closed_route"
       else if all_expected_receipted r then "receipted" else "pending" |}.

(** Returns the number of routes closed as well. *)
Definition cleanup_text_control_outbox_routes_for_target (target : MessageTargetView)
    (current : list string) (s : PersistedAppState) : PersistedAppState * nat :=
  let concerned r := bool_decide (ob_target r = target)
                     && negb (bool_decide (ob_route_peer_ids r = [])) in
  let outbox := map_if concerned (cleanup_record_routes current) (st_text_control_outbox s) in
  ({| s with st_text_control_outbox := outbox |},
   sum_list ((λ r, if concerned r then
                (length (ob_route_peer_ids r)
                 - length (retain (contains current) (ob_route_peer_ids r)))%nat
              else 0%nat) <$> st_text_control_outbox s)).

(** ** Role changes *)

Record GroupMemberRoleChangedEvent := {
  rce_group_id : string;
  rce_event_id : string;
  rce_actor_member_id : string;
  rce_actor_signer_public_key_hex : option string;
  rce_target_member_id : string;
  rce_role_before : GroupRoleView;
  rce_role_after : GroupRoleView;
  rce_created_at : string;
  rce_signature_hex : option string
}.

(** [matches!((before, after), (Member, Staff) | (Staff, Member))] *)
Definition valid_transition (before after : GroupRoleView) : bool :=
  match before, after with
  | RoleMember, RoleStaff | RoleStaff, RoleMember => true
  | _, _ => false
  end.

Definition role_change_payload (e : GroupMemberRoleChangedEvent) (signer : string) :
    GroupMemberRoleChangeSignaturePayload := {|
  rcp_group_id := rce_group_id e;
  rcp_event_id := rce_event_id e;
  rcp_actor_member_id := rce_actor_member_id e;
  rcp_actor_signer_public_key_hex := signer;
  rcp_target_member_id := rce_target_member_id e;
  rcp_role_before := rce_role_before e;
  rcp_role_after := rce_role_after e;
  rcp_created_at := rce_created_at e
|}.

(** What an accepted event does to its group. *)
Definition role_changed (e : GroupMemberRoleChangedEvent) (local_member_id : string)
    (g : GroupView) : GroupView :=
  let g := update_member (rce_target_member_id e)
             (λ m, {| m with gm_role := rce_role_after e |}) g in
  let g := if rce_target_member_id e =s local_member_id
           then {| g with gv_role := role_as_str (rce_role_after e) |} else g in
  log_governance (governance_log_entry (rce_event_id e) (rce_group_id e) "member.role_changed"
    (rce_actor_member_id e) (Some (rce_target_member_id e)) (Some (rce_role_before e))
    (Some (rce_role_after e)) (rce_created_at e) "Applied replicated group member role change") g.

(** The state is left as it was on an error. *)
Definition apply_group_member_role_changed (e : GroupMemberRoleChangedEvent)
    (s : PersistedAppState) : result PersistedAppState GovError :=
  let local_member_id := local_user_id s in
  let* group := require_some (find_group (rce_group_id e) s) "group_not_found"
    "Role-change governance frame targets an unknown group"
    "Ignore the frame and refresh group membership from an authorized peer" in
  if has_event (rce_event_id e) group then Ok s else
  let* actor := require_some
    (find_first (is_member (rce_actor_member_id e)) (gv_members group)) "actor_not_found"
    "Role-change governance frame actor is missing from this group"
    "Accept staff role changes only from known owner members" in
  check require (bool_decide (gm_role actor = RoleOwner) && negb (gm_status actor =s "revoked")
                 && negb (gm_status actor =s "pending")) "owner_required"
    "Role-change governance frame was not authored by the active group owner"
    "Accept staff role changes only from owner-authored governance events" in
  let* expected_signer := require_some (gm_signer_public_key_hex actor) "actor_signer_missing"
    "Role-change governance frame actor has no persisted signing key"
    "Refresh group membership from an authorized admission source before accepting signed role-change events" in
  let* signer := require_some (rce_actor_signer_public_key_hex e) "frame_signer_missing"
    "Role-change governance frame is missing the actor signing key"
    "Accept only signed role-change governance frames" in
  check require (signer =s expected_signer) "actor_signer_mismatch"
    "Role-change governance frame signer does not match the actor roster key"
    "Refresh group membership before accepting signed role-change events" in
  let* signature_hex := require_some (rce_signature_hex e) "signature_missing"
    "Role-change governance frame is missing its signature"
    "Accept only signed role-change governance frames" in
  check map_err (λ error, Rejected "signature_invalid" error
      "Accept only role-change governance frames signed by the owner roster key")
    (verify_group_member_role_change_signature signer signature_hex (role_change_payload e signer)) in
  check require (valid_transition (rce_role_before e) (rce_role_after e))
    "unsupported_role_transition"
    "Role-change governance frame requested an unsupported role transition"
    "Use the owner promotion or demotion flow for staff/member role changes" in
  let* member := require_some
    (find_first (is_member (rce_target_member_id e)) (gv_members group)) "member_not_found"
    "Role-change governance frame targets a member missing from this group"
    "Refresh group membership before applying the role-change event" in
  check require (negb ((gm_status member =s "revoked") || (gm_status member =s "pending")))
    "member_not_active" "Role-change governance frame targets a member who is not active"
    "Only admitted, non-revoked members can receive staff role changes" in
  check require (bool_decide (gm_role member = rce_role_before e)) "role_before_mismatch"
    "Role-change governance frame does not match the local member role"
    "Refresh group governance state before accepting the role-change event" in
  Ok (update_group (rce_group_id e) (role_changed e local_member_id) s).

(** ** Revocations *)

Definition drop_openmls_handle (group_id : string) (s : PersistedAppState) : PersistedAppState :=
  {| s with st_openmls_groups :=
       retain (λ record, negb (oh_group_id record =s group_id)) (st_openmls_groups s) |}.

Definition revoke_member (created_at actor_member_id : string) (m : GroupMemberView) :
    GroupMemberView :=
  {| m with gm_status := "revoked";
            gm_revoked_at := Some created_at;
            gm_revoked_by := Some actor_member_id;
            gm_last_seen_at := None;
            gm_presence_expires_at := None |}.

(** The first block: the local handle goes when the local member is the target. *)
Definition forget_local_handle (group_id target_member_id : string) (s : PersistedAppState) :
    PersistedAppState :=
  if target_member_id =s local_user_id s then
    push_event "mls.member_removed_local"
      "Removed local OpenMLS group handle after local member revocation"
      (drop_openmls_handle group_id s)
  else s.

(** The second block: what happens to the group. *)
Definition member_revoked (group_id event_id actor_member_id target_member_id created_at
    crypto_removal_status local_member_id : string) (g : GroupView) : GroupView :=
  let target := find_first (is_member target_member_id) (gv_members g) in
  let g := update_member target_member_id (revoke_member created_at actor_member_id) g in
  let g := if bool_decide (is_Some target) && (target_member_id =s local_member_id)
           then {| g with gv_role := "revoked" |} else g in
  log_governance (governance_log_entry event_id group_id "member.revoked" actor_member_id
    (Some target_member_id) (gm_role <$> target) None created_at
    (if crypto_removal_status =s "openmls_remove_member_commit_applied"
     then "Applied replicated member revocation with OpenMLS remove-member commit"
     else "Applied replicated fail-closed member revocation without OpenMLS commit")) g.

Definition apply_group_member_revoked (group_id event_id actor_member_id target_member_id
    created_at crypto_removal_status : string) (s : PersistedAppState) : PersistedAppState :=
  let local_member_id := local_user_id s in
  let s := forget_local_handle group_id target_member_id s in
  match find_group group_id s with
  | None => s
  | Some group =>
      if has_event event_id group then s
      else update_group group_id (member_revoked group_id event_id actor_member_id
             target_member_id created_at crypto_removal_status local_member_id) s
  end.

(** ** Channel schemas *)

Definition kind_key (k : ChannelKind) : string :=
  match k with TextChannel => "text" | VoiceChannel => "voice" end.

Fixpoint validate_channels (ids : gset string) (names : gset (string * string))
    (channels : list ChannelStateView) : result unit string :=
  match channels with
  | [] => Ok tt
  | channel :: channels =>
      if is_blank (ch_channel_id channel) || is_blank (ch_name channel) then
        Err "Channel schema contains an empty id or name"%string
      else if bool_decide (ch_channel_id channel ∈ ids) then
        Err "Channel schema contains a duplicate channel id"%string
      else if bool_decide ((kind_key (ch_kind channel), ch_name channel) ∈ names) then
        Err "Channel schema contains a duplicate channel name and kind"%string
      else validate_channels ({[ch_channel_id channel]} ∪ ids)
             ({[(kind_key (ch_kind channel), ch_name channel)]} ∪ names) channels
  end.

Definition validate_group_channel_schema (channels : list ChannelStateView) : result unit string :=
  validate_channels ∅ ∅ channels.

Definition signed_group_channel_schema_snapshot (group_id created_at : string)
    (s : PersistedAppState) :
    PersistedAppState * result GroupChannelSchemaSnapshotView string :=
  let actor_member_id := local_user_id s in
  let '(s, signing_key) := identity_signing_key s in
  let signer := public_key_hex signing_key in
  (s,
   let* group := ok_or (find_group group_id s) "Channel schema group does not exist"%string in
   let* actor := ok_or
     (find_first (λ m, is_member actor_member_id m && group_member_is_admitted_for_runtime m)
        (gv_members group)) "Channel schema actor is not an admitted group member"%string in
   check reject_if (negb (can_manage_members (gm_role actor)))
     "Only an owner or staff member can publish a channel schema"%string in
   check reject_if (negb (opt_str_eqb (gm_signer_public_key_hex actor) (Some signer)))
     "Channel schema actor roster signer does not match the local profile signing key"%string in
   check validate_group_channel_schema (gv_channels group) in
   let* channels_sha256 := group_channel_schema_sha256 (gv_channels group) in
   Ok {| csn_schema_epoch := gv_channel_schema_epoch group;
         csn_channels := gv_channels group;
         csn_actor_member_id := actor_member_id;
         csn_actor_signer_public_key_hex := signer;
         csn_created_at := created_at;
         csn_signature_hex := sign_group_channel_schema signing_key {|
           ssp_group_id := group_id;
           ssp_schema_epoch := gv_channel_schema_epoch group;
           ssp_channels_sha256 := channels_sha256;
           ssp_actor_member_id := actor_member_id;
           ssp_actor_signer_public_key_hex := signer;
           ssp_created_at := created_at |} |}).

Definition current_group_channel_schema_frame (now : datetime) (group_id : string)
    (s : PersistedAppState) : PersistedAppState * result TextControlFrameView string :=
  let '(s, snapshot) := signed_group_channel_schema_snapshot group_id (dt_to_rfc3339 now) s in
  (s,
   let* snapshot := snapshot in
   let* channels_sha256 := group_channel_schema_sha256 (csn_channels snapshot) in
   Ok (GroupChannelSchemaUpdated group_id
         ("channel-schema-" +:+ pretty (csn_schema_epoch snapshot) +:+ "-"
          +:+ text_prefix 16 channels_sha256) snapshot)).

(** The context to show when the channel being shown is no longer in the group. *)
Definition settle_active_context (group_id : string) (channels : list ChannelStateView)
    (s : PersistedAppState) : PersistedAppState :=
  let missing :=
    match st_active_context s with
    | Some context =>
        opt_str_eqb (ac_group_id context) (Some group_id)
        && from_option (λ channel_id,
             negb (existsb (λ channel, ch_channel_id channel =s channel_id) channels)) false
             (ac_channel_id context)
    | None => false
    end in
  if missing then
    {| s with st_active_context := Some {| ac_kind := "group"; ac_group_id := Some group_id;
                                           ac_channel_id := None; ac_dm_id := None |} |}
  else s.

(** What an accepted snapshot does to its group. *)
Definition schema_applied (gid event_id : string) (snap : GroupChannelSchemaSnapshotView)
    (g : GroupView) : GroupView :=
  let g := {| g with gv_channels := csn_channels snap;
                     gv_channel_schema_epoch := csn_schema_epoch snap |} in
  if has_event event_id g then g
  else log_governance (governance_log_entry event_id gid "channel.schema_updated"
         (csn_actor_member_id snap) None None None (csn_created_at snap)
         "Applied signed owner/staff channel schema snapshot") g.

Definition apply_group_channel_schema_snapshot (group_id event_id : string)
    (snapshot : GroupChannelSchemaSnapshotView) (s : PersistedAppState) :
    result (PersistedAppState * bool) GovError :=
  check map_err (λ error, Rejected "channel_schema_invalid" error
      "Accept only a complete channel schema with unique non-empty channel ids and names")
    (validate_group_channel_schema (csn_channels snapshot)) in
  check map_err (λ error, Rejected "signature_invalid" error
      "Accept only channel schemas signed by an admitted owner or staff roster key")
    (verify_group_channel_schema_signature snapshot group_id) in
  let* group := require_some (find_group group_id s) "group_not_found"
    "Channel schema targets an unknown group"
    "Join the group before applying its channel schema" in
  let* actor := require_some
    (find_first (λ m, is_member (csn_actor_member_id snapshot) m
                      && group_member_is_admitted_for_runtime m) (gv_members group))
    "actor_not_found" "Channel schema actor is not an admitted group member"
    "Refresh group membership before applying the channel schema" in
  check require (can_manage_members (gm_role actor)) "staff_required"
    "Channel schema actor is not an owner or staff member"
    "Accept channel schemas only from admitted owner/staff members" in
  check require (opt_str_eqb (gm_signer_public_key_hex actor)
                   (Some (csn_actor_signer_public_key_hex snapshot))) "actor_signer_mismatch"
    "Channel schema signer does not match the actor roster key"
    "Refresh group membership before applying the channel schema" in
  let* current_sha256 := map_err (λ error, Rejected "channel_schema_hash_failed" error
      "Retry after the current channel schema can be serialized")
    (group_channel_schema_sha256 (gv_channels group)) in
  let* incoming_sha256 := map_err (λ error, Rejected "channel_schema_hash_failed" error
      "Retry after the incoming channel schema can be serialized")
    (group_channel_schema_sha256 (csn_channels snapshot)) in
  if (csn_schema_epoch snapshot <? gv_channel_schema_epoch group)
     || ((csn_schema_epoch snapshot =? gv_channel_schema_epoch group)
         && (incoming_sha256 =s current_sha256))
  then Ok (s, false) else
  check require (negb ((csn_schema_epoch snapshot =? gv_channel_schema_epoch group)
                       && negb (bool_decide (gm_role actor = RoleOwner)))) "channel_schema_conflict"
    "Equal-revision channel schemas diverged and the incoming actor is not the owner"
    "Reconnect to the owner so its signed channel schema can resolve the conflict" in
  let s := update_group group_id (schema_applied group_id event_id snapshot) s in
  Ok (settle_active_context group_id (csn_channels snapshot) s, true).

(** ** Presence leases *)

(** The bounds every lease must meet at [now]; the texts are those of the kind of lease. *)
Definition presence_lease (timestamp_error expiry_error ttl_message ttl_hint future_message
    : string) (now : datetime) (last_seen_at presence_expires_at : string) :
    result (datetime * datetime) GovError :=
  let* last_seen := require_some (dt_parse_rfc3339 last_seen_at) "presence_timestamp_invalid"
    (timestamp_error +:+ rfc3339_parse_error last_seen_at)
    "Accept only RFC3339 presence timestamps" in
  let* expires := require_some (dt_parse_rfc3339 presence_expires_at) "presence_expiry_invalid"
    (expiry_error +:+ rfc3339_parse_error presence_expires_at)
    "Accept only RFC3339 presence expiry timestamps" in
  let* horizon := ok_or (skew ← td_seconds GROUP_PRESENCE_MAX_FUTURE_SKEW_SECONDS; dt_add now skew)
    Panicked in
  check require (negb (dt_lt horizon last_seen)) "presence_timestamp_future" future_message
    "Reject the route and wait for a current signed presence heartbeat" in
  let ttl := dt_since expires last_seen in
  check require (negb ((td_nanos ttl <=? 0)%Z
      || (GROUP_PRESENCE_MAX_TTL_SECONDS * 1000000000 <? td_nanos ttl)%Z
      || dt_le expires now)) "presence_ttl_invalid" ttl_message ttl_hint in
  Ok (last_seen, expires).

Record GroupPresenceHeartbeatEvent := {
  gpe_group_id : string;
  gpe_event_id : string;
  gpe_member_id : string;
  gpe_display_name : option string;
  gpe_device_id : option string;
  gpe_signer_public_key_hex : string;
  gpe_runtime_peer_id : string;
  gpe_channel_schema_epoch : N;
  gpe_channel_schema_sha256 : string;
  gpe_last_seen_at : string;
  gpe_presence_expires_at : string;
  gpe_signature_hex : string
}.

Definition group_presence_payload (e : GroupPresenceHeartbeatEvent) :
    GroupPresenceSignaturePayload := {|
  gpp_group_id := gpe_group_id e;
  gpp_event_id := gpe_event_id e;
  gpp_member_id := gpe_member_id e;
  gpp_display_name := gpe_display_name e;
  gpp_device_id := gpe_device_id e;
  gpp_signer_public_key_hex := gpe_signer_public_key_hex e;
  gpp_runtime_peer_id := gpe_runtime_peer_id e;
  gpp_channel_schema_epoch := gpe_channel_schema_epoch e;
  gpp_channel_schema_sha256 := gpe_channel_schema_sha256 e;
  gpp_last_seen_at := gpe_last_seen_at e;
  gpp_presence_expires_at := gpe_presence_expires_at e
|}.

(** Whether a member other than the one at the first position of [member_id] holds the peer id. *)
Fixpoint peer_id_taken (member_id peer_id : string) (members : list GroupMemberView) : bool :=
  let holds m := opt_str_eqb (gm_runtime_peer_id m) (Some peer_id)
                 && group_member_is_admitted_for_runtime m in
  match members with
  | [] => false
  | m :: members =>
      if is_member member_id m then existsb holds members
      else holds m || peer_id_taken member_id peer_id members
  end.

(** The row the checks settle on with the lease's instants, or [None] when the event is already
    logged or older than the row; nothing is written by the checks. *)
Definition check_group_presence (now : datetime) (e : GroupPresenceHeartbeatEvent)
    (s : PersistedAppState) : result (option (datetime * datetime)) GovError :=
  let* group := require_some (find_group (gpe_group_id e) s) "group_not_found"
    "Presence heartbeat targets an unknown group"
    "Join the group before accepting presence advertisements" in
  if has_event (gpe_event_id e) group then Ok None else
  let* member := require_some (find_first (is_member (gpe_member_id e)) (gv_members group))
    "member_not_admitted" "Presence heartbeat sender is not in the admitted group roster"
    "Accept runtime route advertisements only from admitted roster members" in
  check require (group_member_is_admitted_for_runtime member) "member_not_admitted"
    "Pending or revoked members cannot advertise presence or runtime routes"
    "Complete admission before accepting this presence heartbeat" in
  check require (opt_str_eqb (gm_signer_public_key_hex member) (Some (gpe_signer_public_key_hex e)))
    "member_signer_mismatch" "Presence signer does not match the admitted roster key"
    "Refresh the roster through authorized admission before accepting presence" in
  check map_err (λ error, Rejected "runtime_peer_id_invalid"
      ("Presence runtime peer id is invalid: " +:+ transport_error_text error)
      "Accept only valid provider-advertised runtime peer identifiers")
    (peer_id_new (gpe_runtime_peer_id e)) in
  check require (negb (peer_id_taken (gpe_member_id e) (gpe_runtime_peer_id e) (gv_members group)))
    "runtime_peer_id_collision"
    "Presence runtime peer id is already bound to another admitted member"
    "Reject ambiguous route advertisements and request a fresh heartbeat" in
  let* lease := presence_lease "Presence last-seen timestamp is invalid: "
    "Presence expiry timestamp is invalid: "
    "Presence heartbeat lease is expired or outside the allowed range"
    "Accept only current bounded positive presence leases"
    "Presence last-seen timestamp is too far in the future" now (gpe_last_seen_at e)
    (gpe_presence_expires_at e) in
  check map_err (λ error, Rejected "signature_invalid" error
      "Accept only presence advertisements signed by the admitted roster key")
    (verify_group_presence_signature (gpe_signer_public_key_hex e) (gpe_signature_hex e)
       (group_presence_payload e)) in
  let stale := from_option (λ existing, dt_le lease.1 existing) false
                 (value ← gm_last_seen_at member; dt_parse_rfc3339 value) in
  Ok (if stale then None else Some lease).

Definition present_member (now : datetime) (e : GroupPresenceHeartbeatEvent) (expires : datetime)
    (m : GroupMemberView) : GroupMemberView :=
  {| m with gm_display_name := default (gm_display_name m) (non_blank (gpe_display_name e));
            gm_device_id := match non_blank (gpe_device_id e) with
                            | Some device_id => Some device_id | None => gm_device_id m end;
            gm_status := if dt_lt now expires then "online" else "offline";
            gm_runtime_peer_id := Some (gpe_runtime_peer_id e);
            gm_last_seen_at := Some (gpe_last_seen_at e);
            gm_presence_expires_at := Some (gpe_presence_expires_at e) |}.

(** What an accepted heartbeat does to its group. *)
Definition present_group (now now' : datetime) (local : string) (e : GroupPresenceHeartbeatEvent)
    (expires : datetime) (g : GroupView) : GroupView :=
  let g := update_member (gpe_member_id e) (present_member now e expires) g in
  let g := log_governance (governance_log_entry (gpe_event_id e) (gpe_group_id e)
    "presence.heartbeat" (gpe_member_id e) (Some (gpe_member_id e)) None None
    (gpe_last_seen_at e) "Applied signed provider presence and runtime route advertisement") g in
  {| g with gv_runtime_peers := advertised_group_runtime_peers now' (gv_members g) local |}.

(** [now], [now'] and [now''] are the readings of the check, of the advertised peers and of the
    route refresh. The row is already written when the refresh fails. *)
Definition apply_group_presence_heartbeat (now now' now'' : datetime)
    (e : GroupPresenceHeartbeatEvent) (s : PersistedAppState) :
    PersistedAppState * result bool GovError :=
  match check_group_presence now e s with
  | Err error => (s, Err error)
  | Ok None => (s, Ok false)
  | Ok (Some (_, expires)) =>
      let s := update_group (gpe_group_id e)
                 (present_group now now' (local_user_id s) e expires) s in
      match refresh_text_control_outbox_routes_for_group now'' (gpe_group_id e) s with
      | Ok s => (s, Ok true)
      | Err error => (s, gov_reject "text_route_refresh_failed" error
                           "Retry after the provider-advertised peer roster is available")
      end
  end.

Record DmPresenceHeartbeatEvent := {
  dpe_scope_id_commitment : string;
  dpe_event_id : string;
  dpe_profile_id : string;
  dpe_display_name : string;
  dpe_device_id : string;
  dpe_role : string;
  dpe_signer_public_key_hex : string;
  dpe_runtime_peer_id : string;
  dpe_last_seen_at : string;
  dpe_presence_expires_at : string;
  dpe_signature_hex : string
}.

Definition dm_presence_payload (e : DmPresenceHeartbeatEvent) : DmPresenceSignaturePayload := {|
  dpp_scope_id_commitment := dpe_scope_id_commitment e;
  dpp_event_id := dpe_event_id e;
  dpp_profile_id := dpe_profile_id e;
  dpp_display_name := dpe_display_name e;
  dpp_device_id := dpe_device_id e;
  dpp_role := dpe_role e;
  dpp_signer_public_key_hex := dpe_signer_public_key_hex e;
  dpp_runtime_peer_id := dpe_runtime_peer_id e;
  dpp_last_seen_at := dpe_last_seen_at e;
  dpp_presence_expires_at := dpe_presence_expires_at e
|}.

Definition in_scope (scope : string) (dm : DirectConversationView) : bool :=
  from_option (λ policy, cp_scope_id_commitment policy =s scope) false (dc_connectivity dm).

Definition is_remote (peer : DmRuntimePeerView) : bool := negb (dp_is_local peer).

Definition same_route (e : DmPresenceHeartbeatEvent) (peer : DmRuntimePeerView) : bool :=
  (dp_peer_id peer =s dpe_runtime_peer_id e) && (dp_role peer =s dpe_role e)
  && (dp_profile_id peer =s dpe_profile_id e)
  && (dp_signer_public_key_hex peer =s dpe_signer_public_key_hex e)
  && (dp_device_id peer =s dpe_device_id e) && (dp_last_seen_at peer =s dpe_last_seen_at e)
  && (dp_presence_expires_at peer =s dpe_presence_expires_at e).

(** The conversation the checks settle on, or [None] when there is nothing to write. *)
Definition check_dm_presence (now : datetime) (e : DmPresenceHeartbeatEvent)
    (s : PersistedAppState) : result (option DirectConversationView) GovError :=
  let* dm := require_some (find_first (in_scope (dpe_scope_id_commitment e)) (st_dms s))
    "dm_scope_not_found" "DM presence targets an unknown provider scope"
    "Accept the signed DM invite before accepting runtime route advertisements" in
  if dpe_profile_id e =s local_user_id s then Ok None else
  check require ((dpe_role e =s "inviter") || (dpe_role e =s "reply")) "dm_runtime_role_invalid"
    "DM runtime advertisement has an invalid peer role"
    "Accept only inviter or reply runtime roles" in
  let* local_peer := require_some (find_first dp_is_local (dc_runtime_peers dm))
    "local_runtime_peer_missing" "DM has no local runtime identity for role validation"
    "Recreate the DM contact with the current profile" in
  let expected_remote_role := if dp_role local_peer =s "inviter" then "reply" else "inviter" in
  check require (dpe_role e =s expected_remote_role) "dm_runtime_role_conflict"
    "DM runtime advertisement conflicts with the local peer role"
    "Reject ambiguous runtime roles and request a fresh signed advertisement" in
  check map_err (λ error, Rejected "runtime_peer_id_invalid"
      ("DM runtime peer id is invalid: " +:+ transport_error_text error)
      "Accept only valid provider-advertised runtime peer identifiers")
    (peer_id_new (dpe_runtime_peer_id e)) in
  let expected_runtime_peer_id := runtime_peer_id_from_commitment
    "dm-provider-advertised-runtime-peer-v1"
    (dpe_scope_id_commitment e +:+ ":" +:+ dpe_signer_public_key_hex e +:+ ":"
     +:+ dpe_device_id e) in
  check require (dpe_runtime_peer_id e =s expected_runtime_peer_id)
    "runtime_peer_id_binding_invalid"
    "DM runtime peer id is not bound to the signed profile and device"
    "Reject the route and request a fresh provider advertisement" in
  check require (negb (dp_peer_id local_peer =s dpe_runtime_peer_id e))
    "runtime_peer_id_collision" "Remote DM runtime peer id matches the local peer"
    "Reject ambiguous route advertisements" in
  let existing := find_first is_remote (dc_runtime_peers dm) in
  check require (from_option (λ peer, (dp_profile_id peer =s dpe_profile_id e)
                   && (dp_signer_public_key_hex peer =s dpe_signer_public_key_hex e)) true existing)
    "dm_remote_identity_changed"
    "DM runtime advertisement signer does not match the established remote identity"
    "Verify the contact safety number before replacing the DM identity" in
  let* lease := presence_lease "DM presence timestamp is invalid: "
    "DM presence expiry is invalid: "
    "DM presence lease is expired or outside the allowed TTL"
    "Accept only current bounded runtime-route leases"
    "DM presence timestamp is too far in the future" now (dpe_last_seen_at e)
    (dpe_presence_expires_at e) in
  check map_err (λ error, Rejected "signature_invalid" error
      "Accept only DM route advertisements signed by the advertised identity")
    (verify_dm_presence_signature (dpe_signer_public_key_hex e) (dpe_signature_hex e)
       (dm_presence_payload e)) in
  let stale := from_option (λ peer,
    from_option (λ seen, dt_le lease.1 seen) false (dt_parse_rfc3339 (dp_last_seen_at peer)))
    false existing in
  Ok (if stale || from_option (same_route e) false existing then None else Some dm).

Definition upsert_remote (peer : DmRuntimePeerView) (peers : list DmRuntimePeerView) :
    list DmRuntimePeerView :=
  if existsb is_remote peers then update_first is_remote (λ _, peer) peers else peers ++ [peer].

Definition apply_dm_presence_heartbeat (now now' : datetime) (e : DmPresenceHeartbeatEvent)
    (s : PersistedAppState) : PersistedAppState * result bool GovError :=
  match check_dm_presence now e s with
  | Err error => (s, Err error)
  | Ok None => (s, Ok false)
  | Ok (Some dm) =>
      let peer := {| dp_peer_id := dpe_runtime_peer_id e;
                     dp_role := dpe_role e;
                     dp_is_local := false;
                     dp_source := "sealed_provider_peer_advertisement_v1";
                     dp_profile_id := dpe_profile_id e;
                     dp_signer_public_key_hex := dpe_signer_public_key_hex e;
                     dp_device_id := dpe_device_id e;
                     dp_last_seen_at := dpe_last_seen_at e;
                     dp_presence_expires_at := dpe_presence_expires_at e |} in
      let s := {| s with st_dms := update_first (in_scope (dpe_scope_id_commitment e))
        (λ dm, {| dm with dc_runtime_peers := upsert_remote peer (dc_runtime_peers dm) |})
        (st_dms s) |} in
      match refresh_text_control_outbox_routes_for_dm now' (dc_dm_id dm) s with
      | Ok s => (push_event "dm.presence_received"
                   ("Accepted signed DM route for "
                    +:+ redacted_observable_ref "profile" (dpe_profile_id e)) s, Ok true)
      | Err error => (s, gov_reject "text_route_refresh_failed" error
                           "Retry after the provider-advertised DM route is available")
      end
  end.

(** ** Lemmas *)

Lemma is_member_true member_id m : is_member member_id m = true ↔ gm_member_id m = member_id.
Proof. apply str_eqb_true. Qed.

Lemma find_member_id member_id l m :
  find_first (is_member member_id) l = Some m → m ∈ l ∧ gm_member_id m = member_id.
Proof. intros [? ?%is_member_true]%find_first_some. done. Qed.

Lemma find_update_group group_id f s :
  (∀ g, gv_group_id (f g) = gv_group_id g) →
  find_group group_id (update_group group_id f s) = f <$> find_group group_id s.
Proof.
  intros Hf. apply find_update_first. intros g. unfold is_group. by rewrite Hf.
Qed.

Lemma update_member_id member_id f g : gv_group_id (update_member member_id f g) = gv_group_id g.
Proof. done. Qed.

Lemma has_event_log entry g : has_event (gl_event_id entry) (log_governance entry g) = true.
Proof.
  unfold has_event, log_governance. cbn. rewrite existsb_app. cbn.
  by rewrite str_eqb_refl, orb_true_r.
Qed.

(** *** Role changes *)

Lemma role_changed_id e local g : gv_group_id (role_changed e local g) = gv_group_id g.
Proof. unfold role_changed. by destruct (_ =s _). Qed.

Lemma role_changed_logged e local g : has_event (rce_event_id e) (role_changed e local g) = true.
Proof. apply (has_event_log (governance_log_entry (rce_event_id e) _ _ _ _ _ _ _ _)). Qed.

Lemma role_changed_members e local g :
  gv_members (role_changed e local g)
  = update_first (is_member (rce_target_member_id e))
      (λ m, {| m with gm_role := rce_role_after e |}) (gv_members g).
Proof. unfold role_changed. by destruct (_ =s _). Qed.

(** What an accepted role change was checked against. *)
Record role_change_checked (e : GroupMemberRoleChangedEvent) (g : GroupView) : Prop := {
  rcc_owner : ∃ actor key signature_hex,
    find_first (is_member (rce_actor_member_id e)) (gv_members g) = Some actor
    ∧ gm_role actor = RoleOwner ∧ gm_status actor ≠ "revoked"%string
    ∧ gm_status actor ≠ "pending"%string
    ∧ gm_signer_public_key_hex actor = Some key ∧ rce_signature_hex e = Some signature_hex
    ∧ verify_group_member_role_change_signature key signature_hex (role_change_payload e key) = Ok tt;
  rcc_target : ∃ target,
    find_first (is_member (rce_target_member_id e)) (gv_members g) = Some target
    ∧ gm_status target ≠ "revoked"%string ∧ gm_status target ≠ "pending"%string
    ∧ gm_role target = rce_role_before e;
  rcc_transition : valid_transition (rce_role_before e) (rce_role_after e) = true
}.

Lemma role_change_inv e s s' :
  apply_group_member_role_changed e s = Ok s' →
  ∃ g, find_group (rce_group_id e) s = Some g
    ∧ (has_event (rce_event_id e) g = true ∧ s' = s
       ∨ has_event (rce_event_id e) g = false ∧ role_change_checked e g
         ∧ s' = update_group (rce_group_id e) (role_changed e (local_user_id s)) s).
Proof.
  unfold apply_group_member_role_changed. intros R. gov R as g Hg.
  exists g. split; [done|]. destruct (has_event _ _) eqn:He; [left; by simplify_eq|].
  right. split; [done|]. gov R as actor Ha. gov R as ? Hactive. gov R as key Hk.
  gov R as signer Hs. gov R as ? Hsigner. gov R as sig Hsig. gov R as [] Hverify.
  gov R as ? Htr. gov R as target Ht. gov R as ? Hstatus. gov R as ? Hrole. simplify_eq.
  rewrite !andb_true_iff, !negb_true_iff, !str_eqb_false, bool_decide_eq_true in Hactive.
  rewrite str_eqb_true in Hsigner. subst signer.
  rewrite negb_true_iff, orb_false_iff, !str_eqb_false in Hstatus.
  rewrite bool_decide_eq_true in Hrole. split; [|done]. split; [|by exists target; naive_solver|done].
  exists actor, key, sig. naive_solver.
Qed.

(** Who owns which group. *)
Definition owner_rows (s : PersistedAppState) : list (string * list (string * bool)) :=
  (λ g, (gv_group_id g, (λ m, (gm_member_id m, bool_decide (gm_role m = RoleOwner)))
                          <$> gv_members g)) <$> st_groups s.

Lemma role_change_keeps_owners e s g :
  find_group (rce_group_id e) s = Some g → role_change_checked e g →
  owner_rows (update_group (rce_group_id e) (role_changed e (local_user_id s)) s) = owner_rows s.
Proof.
  intros Hg [_ (target & Ht & _ & _ & Hr) Htr]. apply update_first_fmap. intros g' Hg'.
  unfold find_group in Hg. simplify_eq. rewrite role_changed_id, role_changed_members. f_equal.
  apply update_first_fmap. intros m Hm. simplify_eq. cbn. f_equal. rewrite Hr.
  by destruct (rce_role_before e), (rce_role_after e).
Qed.

(** C15. Only the group owner changes roles: a replicated role change that is not already logged
    is applied only when it names an active owner of the roster, carries that owner's roster key and
    a valid signature under it, moves an active member between member and staff and starts from
    the role the member has; it then changes that role, logs the event, and touches no other
    member and no ownership. *)
Theorem role_changes_need_the_owner e s s' :
  apply_group_member_role_changed e s = Ok s' →
  ∃ g, find_group (rce_group_id e) s = Some g
    ∧ (has_event (rce_event_id e) g = true ∧ s' = s
       ∨ role_change_checked e g ∧ owner_rows s' = owner_rows s
         ∧ ∃ g', find_group (rce_group_id e) s' = Some g' ∧ has_event (rce_event_id e) g' = true
             ∧ gm_role <$> find_first (is_member (rce_target_member_id e)) (gv_members g')
               = Some (rce_role_after e)
             ∧ ∀ other, other ≠ rce_target_member_id e →
                 find_first (is_member other) (gv_members g')
                 = find_first (is_member other) (gv_members g)).
Proof.
  intros (g & Hg & [[He ->]|(He & Hc & ->)])%role_change_inv; exists g; (split; [done|]); [by left|].
  right. split; [done|]. split; [by apply (role_change_keeps_owners e s g)|].
  eexists. rewrite find_update_group by apply role_changed_id. rewrite Hg. split; [done|].
  rewrite role_changed_members. split_and!; [apply role_changed_logged| |].
  - rewrite find_update_first by done. destruct Hc as [_ (t & Ht & _) _]. by rewrite Ht.
  - intros other Hne. apply find_update_first_other; intros m Hm%is_member_true;
      apply str_eqb_false; cbn; congruence.
Qed.

Lemma role_change_logged e s g :
  find_group (rce_group_id e) s = Some g → has_event (rce_event_id e) g = true →
  apply_group_member_role_changed e s = Ok s.
Proof. intros Hg He. unfold apply_group_member_role_changed. rewrite Hg. simpl. by rewrite He. Qed.

(** A role change is applied once: after an event was accepted, no event with its id changes
    the state again, whatever else it says. *)
Theorem role_change_is_applied_once e s s' e' :
  apply_group_member_role_changed e s = Ok s' →
  rce_group_id e' = rce_group_id e → rce_event_id e' = rce_event_id e →
  apply_group_member_role_changed e' s' = Ok s'.
Proof.
  intros (g & Hg & Hcase)%role_change_inv Egroup Eevent.
  destruct Hcase as [[He ->]|(He & Hc & ->)].
  - apply (role_change_logged e' s g); congruence.
  - eapply role_change_logged.
    + rewrite Egroup, find_update_group by apply role_changed_id. by rewrite Hg.
    + rewrite Eevent. apply role_changed_logged.
Qed.

(** *** Revocations *)

Lemma push_event_groups kind summary s : st_groups (push_event kind summary s) = st_groups s.
Proof. done. Qed.

Lemma find_group_push_event group_id kind summary s :
  find_group group_id (push_event kind summary s) = find_group group_id s.
Proof. done. Qed.

Lemma forget_local_handle_groups group_id target s :
  st_groups (forget_local_handle group_id target s) = st_groups s.
Proof. unfold forget_local_handle. by destruct (_ =s _). Qed.

Lemma find_group_forget group_id target gid s :
  find_group group_id (forget_local_handle gid target s) = find_group group_id s.
Proof. unfold find_group. by rewrite forget_local_handle_groups. Qed.

Lemma member_revoked_id group_id event_id actor target created_at status local g :
  gv_group_id (member_revoked group_id event_id actor target created_at status local g)
  = gv_group_id g.
Proof. unfold member_revoked. by destruct (_ && _). Qed.

Lemma member_revoked_members group_id event_id actor target created_at status local g :
  gv_members (member_revoked group_id event_id actor target created_at status local g)
  = update_first (is_member target) (revoke_member created_at actor) (gv_members g).
Proof. unfold member_revoked. by destruct (_ && _). Qed.

Lemma revoked_row group_id event_id actor target created_at status s g :
  find_group group_id s = Some g → has_event event_id g = false →
  ∃ g', find_group group_id
          (apply_group_member_revoked group_id event_id actor target created_at status s) = Some g'
    ∧ find_first (is_member target) (gv_members g')
      = revoke_member created_at actor <$> find_first (is_member target) (gv_members g).
Proof.
  intros Hg He. unfold apply_group_member_revoked. rewrite find_group_forget, Hg, He.
  eexists. rewrite find_update_group by apply member_revoked_id. rewrite find_group_forget, Hg.
  split; [done|]. rewrite member_revoked_members. by apply find_update_first.
Qed.

(** A revoked member is cut off: after a revocation with a fresh event id, the member's
    row is revoked with its presence cleared, it has no current route, every heartbeat of its is
    refused and no role change can name it, until it is admitted again. *)
Theorem revocation_cuts_the_member_off group_id event_id actor target created_at status s g m :
  find_group group_id s = Some g → has_event event_id g = false →
  find_first (is_member target) (gv_members g) = Some m →
  let s' := apply_group_member_revoked group_id event_id actor target created_at status s in
  ∃ g' m', find_group group_id s' = Some g'
    ∧ find_first (is_member target) (gv_members g') = Some m'
    ∧ gm_status m' = "revoked"%string ∧ gm_presence_expires_at m' = None
    ∧ (∀ local now, group_member_runtime_route_is_current m' local now = false)
    ∧ (∀ e now, gpe_group_id e = group_id → gpe_member_id e = target →
         has_event (gpe_event_id e) g' = false →
         ∃ message hint, check_group_presence now e s' = Err (Rejected "member_not_admitted" message hint))
    ∧ (∀ e s'', rce_group_id e = group_id → rce_target_member_id e = target →
         apply_group_member_role_changed e s' = Ok s'' → s'' = s').
Proof.
  intros Hg He Hm s'. destruct (revoked_row group_id event_id actor target created_at status s g Hg He)
    as (g' & Hg' & Hm'). fold s' in Hg'. clearbody s'. rewrite Hm in Hm'.
  exists g', (revoke_member created_at actor m). split_and!; [done..| |].
  - intros e now E1 E2 E3. unfold check_group_presence. rewrite E1, Hg'. simpl. rewrite E3, E2, Hm'.
    simpl. eauto.
  - intros e s'' E1 E2 (h & Hh & [[_ ->]|(_ & [_ (t & Ht & Hst & _) _] & _)])%role_change_inv; [done|].
    rewrite E1, Hg' in Hh. injection Hh as <-. rewrite E2, Hm' in Ht. injection Ht as <-. by destruct Hst.
Qed.

(** *** Presence *)

(** What a lease was checked against at [now]. *)
Record lease_bounded (now last_seen expires : datetime) : Prop := {
  lb_not_future : (dt_nanos last_seen ≤ dt_nanos now + 30 * 1000000000)%Z;
  lb_positive : (dt_nanos last_seen < dt_nanos expires)%Z;
  lb_bounded : (dt_nanos expires ≤ dt_nanos last_seen + 300 * 1000000000)%Z;
  lb_current : (dt_nanos now < dt_nanos expires)%Z
}.

Lemma presence_lease_ok `{!ChronoLaws} t1 t2 t3 t4 t5 now last_seen_at expires_at lease :
  presence_lease t1 t2 t3 t4 t5 now last_seen_at expires_at = Ok lease →
  dt_parse_rfc3339 last_seen_at = Some lease.1 ∧ dt_parse_rfc3339 expires_at = Some lease.2
  ∧ lease_bounded now lease.1 lease.2.
Proof.
  unfold presence_lease. intros R. gov R as last_seen Hl. gov R as expires He. gov R as horizon Hh.
  gov R as ? Hf. gov R as ? Httl. injection R as <-. split; [done|]. split; [done|].
  apply ok_or_ok, bind_Some in Hh as (skew & Hs%td_seconds_some & Hh%dt_add_nanos).
  rewrite negb_true_iff in Hf, Httl. unfold dt_lt, dt_le in *.
  rewrite !orb_false_iff, !Z.leb_gt, Z.ltb_ge, dt_since_nanos in Httl. rewrite Z.ltb_ge in Hf.
  unfold GROUP_PRESENCE_MAX_TTL_SECONDS, GROUP_PRESENCE_MAX_FUTURE_SKEW_SECONDS in *.
  split; simpl; lia.
Qed.

(** The last time a row was seen, when it has one that can be read. *)
Definition row_last_seen (m : GroupMemberView) : option datetime :=
  value ← gm_last_seen_at m; dt_parse_rfc3339 value.

(** What an accepted heartbeat was checked against. *)
Record presence_checked (now : datetime) (e : GroupPresenceHeartbeatEvent) (g : GroupView)
    (m : GroupMemberView) (last_seen expires : datetime) : Prop := {
  pc_member : find_first (is_member (gpe_member_id e)) (gv_members g) = Some m;
  pc_fresh : has_event (gpe_event_id e) g = false;
  pc_admitted : group_member_is_admitted_for_runtime m = true;
  pc_key : gm_signer_public_key_hex m = Some (gpe_signer_public_key_hex e);
  pc_signature : verify_group_presence_signature (gpe_signer_public_key_hex e)
                   (gpe_signature_hex e) (group_presence_payload e) = Ok tt;
  pc_route_free : peer_id_taken (gpe_member_id e) (gpe_runtime_peer_id e) (gv_members g) = false;
  pc_last_seen : dt_parse_rfc3339 (gpe_last_seen_at e) = Some last_seen;
  pc_expires : dt_parse_rfc3339 (gpe_presence_expires_at e) = Some expires;
  pc_lease : lease_bounded now last_seen expires;
  pc_newer : ∀ seen, row_last_seen m = Some seen → (dt_nanos seen < dt_nanos last_seen)%Z
}.

Lemma check_group_presence_some `{!ChronoLaws} now e s lease :
  check_group_presence now e s = Ok (Some lease) →
  ∃ g m, find_group (gpe_group_id e) s = Some g ∧ presence_checked now e g m lease.1 lease.2.
Proof.
  unfold check_group_presence. intros R. gov R as g Hg. destruct (has_event _ _) eqn:He; [done|].
  gov R as m Hm. gov R as ? Hadm. gov R as ? Hk. gov R as ? Hpeer. gov R as ? Hfree.
  gov R as lease' Hlease. gov R as [] Hsig. apply presence_lease_ok in Hlease as (Hl & Hx & Hb).
  destruct (from_option _ _ _) eqn:Hstale; [done|]. injection R as ->. exists g, m. split; [done|].
  apply bool_decide_eq_true in Hk. rewrite negb_true_iff in Hfree. split; try done.
  intros seen Hseen. unfold row_last_seen in Hseen. rewrite Hseen in Hstale. simpl in Hstale.
  unfold dt_le in Hstale. lia.
Qed.

Lemma refresh_group_groups now gid s s' :
  refresh_text_control_outbox_routes_for_group now gid s = Ok s' → st_groups s' = st_groups s.
Proof.
  unfold refresh_text_control_outbox_routes_for_group. intros (r & _ & [= <-])%rbind_ok. done.
Qed.

(** What a heartbeat leaves of the groups: nothing changes unless every check passed. *)
Lemma presence_groups `{!ChronoLaws} now now' now'' e s s' r :
  apply_group_presence_heartbeat now now' now'' e s = (s', r) →
  (st_groups s' = st_groups s ∧ r ≠ Ok true)
  ∨ ∃ g m last_seen expires, find_group (gpe_group_id e) s = Some g
      ∧ presence_checked now e g m last_seen expires
      ∧ st_groups s' = st_groups (update_group (gpe_group_id e)
          (present_group now now' (local_user_id s) e expires) s).
Proof.
  unfold apply_group_presence_heartbeat.
  destruct (check_group_presence now e s) as [[[last_seen expires]|]|error] eqn:Hc;
    [|intros [= <- <-]; by left..].
  apply check_group_presence_some in Hc as (g & m & Hg & Hp).
  destruct (refresh_text_control_outbox_routes_for_group _ _ _) as [s1|] eqn:Hr;
    intros [= <- <-]; right; exists g, m, last_seen, expires; (split; [done|]); (split; [done|]).
  - by rewrite (refresh_group_groups _ _ _ _ Hr).
  - done.
Qed.

(** Presence is authentic and moves forward: a heartbeat changes a group only when it comes
    from an admitted member under its roster key with a valid signature, with a lease of at most
    five minutes that is not expired nor more than half a minute ahead; the row then holds the
    heartbeat's route and instants, strictly newer than those it held. *)
Theorem presence_is_authentic `{!ChronoLaws} now now' now'' e s s' r :
  apply_group_presence_heartbeat now now' now'' e s = (s', r) → st_groups s' ≠ st_groups s →
  ∃ g m last_seen expires g', find_group (gpe_group_id e) s = Some g
    ∧ presence_checked now e g m last_seen expires
    ∧ find_group (gpe_group_id e) s' = Some g'
    ∧ find_first (is_member (gpe_member_id e)) (gv_members g') = Some (present_member now e expires m)
    ∧ gm_status (present_member now e expires m) = "online"%string
    ∧ row_last_seen (present_member now e expires m) = Some last_seen
    ∧ has_event (gpe_event_id e) g' = true.
Proof.
  intros [[Hs _]|(g & m & last_seen & expires & Hg & Hp & Hs)]%presence_groups Hne; [done|].
  exists g, m, last_seen, expires.
  exists (present_group now now' (local_user_id s) e expires g). split; [done|]. split; [done|].
  unfold find_group at 1. rewrite Hs. split_and!.
  - fold (find_group (gpe_group_id e) (update_group (gpe_group_id e)
      (present_group now now' (local_user_id s) e expires) s)).
    rewrite find_update_group by done. by rewrite Hg.
  - unfold present_group. cbn [gv_members log_governance update_member].
    rewrite find_update_first by done. by rewrite (pc_member _ _ _ _ _ _ Hp).
  - cbn. unfold dt_lt. destruct (pc_lease _ _ _ _ _ _ Hp) as [_ _ _ Hcur].
    by rewrite (proj2 (Z.ltb_lt _ _) Hcur).
  - apply (pc_last_seen _ _ _ _ _ _ Hp).
  - apply (has_event_log (governance_log_entry (gpe_event_id e) _ _ _ _ _ _ _ _)).
Qed.

(** *** Unambiguous routes *)

Definition route_of (m : GroupMemberView) : option string :=
  if group_member_is_admitted_for_runtime m then gm_runtime_peer_id m else None.

(** No two admitted members of a group advertise the same runtime peer. *)
Definition unambiguous (s : PersistedAppState) : Prop :=
  Forall (λ g, NoDup (omap route_of (gv_members g))) (st_groups s).

Lemma peer_id_taken_free member_id p l1 m l2 :
  existsb (is_member member_id) l1 = false → is_member member_id m = true →
  peer_id_taken member_id p (l1 ++ m :: l2) = false →
  p ∉ omap route_of l1 ∧ p ∉ omap route_of l2.
Proof.
  assert (Hfree : ∀ l, existsb (λ m, opt_str_eqb (gm_runtime_peer_id m) (Some p)
      && group_member_is_admitted_for_runtime m) l = false → p ∉ omap route_of l).
  { intros l He (n & Hn & Hr)%list_elem_of_omap. unfold route_of in Hr.
    destruct (group_member_is_admitted_for_runtime n) eqn:Ha; [|done].
    apply not_true_iff_false in He. apply He, existsb_exists. exists n.
    rewrite <- list_elem_of_In. split; [done|]. rewrite Ha, andb_true_r. by apply bool_decide_eq_true. }
  intros Hl1 Hm. induction l1 as [|n l1 IH]; simpl in *.
  - rewrite Hm. intros He. split; [set_solver|by apply Hfree].
  - apply orb_false_iff in Hl1 as [Hn Hl1]. rewrite Hn.
    intros [Hh Ht]%orb_false_iff. destruct (IH Hl1 Ht) as [H1' H2']. split; [|done].
    pose proof (Hfree [n]) as Hone. simpl in Hone. rewrite orb_false_r in Hone.
    specialize (Hone Hh). simpl in Hone. destruct (route_of n); set_solver.
Qed.

Lemma presence_row_route now e expires m :
  route_of (present_member now e expires m) = Some (gpe_runtime_peer_id e).
Proof. unfold route_of, group_member_is_admitted_for_runtime. cbn. by destruct (dt_lt _ _). Qed.

Lemma presence_row_unambiguous now e g m last_seen expires :
  presence_checked now e g m last_seen expires → NoDup (omap route_of (gv_members g)) →
  NoDup (omap route_of (update_first (is_member (gpe_member_id e)) (present_member now e expires)
    (gv_members g))).
Proof.
  intros Hp Hnd. pose proof (pc_member _ _ _ _ _ _ Hp) as Hm.
  pose proof (pc_route_free _ _ _ _ _ _ Hp) as Hfree.
  apply (update_first_split _ (present_member now e expires)) in Hm as (l1 & l2 & E & -> & Hl1 & Hpm).
  rewrite E in *. apply peer_id_taken_free in Hfree as [Hf1 Hf2]; [|done..].
  rewrite omap_app in *. simpl in *. rewrite presence_row_route.
  assert (Hnd' : NoDup (omap route_of l1 ++ omap route_of l2)).
  { destruct (route_of m); [|done]. apply NoDup_app in Hnd as (? & Hd & [_ ?]%NoDup_cons).
    apply NoDup_app. split_and!; set_solver. }
  apply NoDup_app in Hnd' as (Hn1 & Hd & Hn2). apply NoDup_app. split_and!; [done|set_solver|].
  by apply NoDup_cons.
Qed.

(** C16. Presence keeps routes unambiguous: whatever heartbeat arrives, if no two admitted
    members of a group advertised the same runtime peer before it, none do after it. *)
Theorem presence_keeps_routes_unambiguous `{!ChronoLaws} now now' now'' e s :
  unambiguous s → unambiguous (apply_group_presence_heartbeat now now' now'' e s).1.
Proof.
  intros Hu. destruct (apply_group_presence_heartbeat now now' now'' e s) as [s' r] eqn:E. simpl.
  apply presence_groups in E as [[E _]|(g & m & l & x & Hg & Hp & E)];
    unfold unambiguous in *; rewrite E; [done|].
  apply (update_first_split _ (present_group now now' (local_user_id s) e x)) in Hg
    as (l1 & l2 & Es & Eu & _ & _).
  unfold update_group. cbn [st_groups]. rewrite Eu. rewrite Es in Hu.
  apply Forall_app in Hu as [Hu1 [Hu2 Hu3]%Forall_cons]. apply Forall_app. split; [done|].
  apply Forall_cons. split; [|done]. by apply (presence_row_unambiguous now e g m l x).
Qed.

Lemma current_route_of m local now :
  group_member_runtime_route_is_current m local now = true →
  ∃ p, gm_runtime_peer_id m = Some p ∧ is_blank p = false ∧ route_of m = Some p
    ∧ non_blank (gm_runtime_peer_id m) = Some p.
Proof.
  unfold group_member_runtime_route_is_current, route_of.
  destruct (group_member_is_admitted_for_runtime m), (gm_runtime_peer_id m) as [p|]; try done.
  cbn [from_option negb orb]. unfold non_blank. cbn [mbind option_bind].
  destruct (is_blank p) eqn:E; [done|]. intros _. by exists p.
Qed.

Lemma collect_routes_ok gid lp l acc :
  Forall (λ m, ∃ p, non_blank (gm_runtime_peer_id m) = Some p ∧ route_of m = Some p) l →
  NoDup (omap route_of l) → (∀ p, p ∈ omap route_of l → p ≠ lp ∧ p ∉ acc) →
  ∃ X, collect_routes gid lp l acc = Ok X
    ∧ ∀ p, p ∈ X ↔ p ∈ acc ∨ p ∈ omap route_of l.
Proof.
  intros Hl. revert acc. induction Hl as [|m l (p & Hb & Hr) Hl IH]; intros acc Hnd Hfree; simpl in *.
  - exists acc. split; [done|]. set_solver.
  - rewrite Hr in *. rewrite Hb. apply NoDup_cons in Hnd as [Hp Hnd].
    destruct (Hfree p) as [Hlp Hacc]; [set_solver|].
    rewrite (proj2 (str_eqb_false p lp)) by done. rewrite bool_decide_eq_false_2 by done.
    destruct (IH ({[p]} ∪ acc)) as (X & HX & Hin); [done|set_solver|]. exists X. split; [done|].
    intros q. rewrite Hin. set_solver.
Qed.

Lemma omap_route_retain (keep : GroupMemberView → bool) l :
  NoDup (omap route_of l) → NoDup (omap route_of (retain keep l)).
Proof.
  induction l as [|m l IH]; [done|]. unfold retain. rewrite filter_cons. simpl.
  fold (retain keep l). destruct (route_of m) as [p|] eqn:Hr.
  - intros [Hp Hnd]%NoDup_cons. destruct (decide _); [|by apply IH]. simpl. rewrite Hr.
    apply NoDup_cons. split; [|by apply IH]. intros (n & Hn & Hrn)%list_elem_of_omap. apply Hp.
    apply list_elem_of_omap. exists n. split; [|done]. by apply elem_of_retain in Hn as [? _].
  - intros Hnd. destruct (decide _); [|by apply IH]. simpl. rewrite Hr. by apply IH.
Qed.

(** Two members of a list without repeated routes that share one are the same row. *)
Lemma unambiguous_rows l m n p :
  NoDup (omap route_of l) → m ∈ l → n ∈ l → route_of m = Some p → route_of n = Some p → m = n.
Proof.
  induction l as [|x l IH]; [set_solver|]. simpl. intros Hnd Hm Hn Hrm Hrn.
  assert (Hmem : ∀ y, y ∈ l → route_of y = Some p → p ∈ omap route_of l)
    by (intros y Hy Hry; apply list_elem_of_omap; by exists y).
  apply elem_of_cons in Hm as [->|Hm], Hn as [->|Hn]; [done|..].
  - rewrite Hrm in Hnd. apply NoDup_cons in Hnd as [Hp _]. destruct Hp. eauto.
  - rewrite Hrn in Hnd. apply NoDup_cons in Hnd as [Hp _]. destruct Hp. eauto.
  - apply IH; try done. destruct (route_of x); [by apply NoDup_cons in Hnd as [_ ?]|done].
Qed.

(** With unambiguous routes, text to a group fans out to exactly the current peers: route
    selection succeeds for an admitted local member that has a route, and returns the runtime peer
    of every remote member whose route is current and of no one else. *)
Theorem text_fans_out_to_current_peers now s target gid g me lp :
  unambiguous s → mt_kind target = "channel"%string → mt_group_id target = Some gid →
  find_group gid s = Some g →
  find_first (λ m, is_member (local_user_id s) m && negb (gm_status m =s "pending")
                   && negb (gm_status m =s "revoked")) (gv_members g) = Some me →
  non_blank (gm_runtime_peer_id me) = Some lp →
  ∃ routes, route_peer_ids_for_text_target now target s = Ok routes ∧ NoDup routes
    ∧ ∀ p, p ∈ routes ↔ ∃ m, m ∈ gv_members g ∧ gm_member_id m ≠ local_user_id s
        ∧ group_member_runtime_route_is_current m (local_user_id s) now = true
        ∧ gm_runtime_peer_id m = Some p.
Proof.
  intros Hu Hk Hgid Hg Hme Hlp. unfold route_peer_ids_for_text_target.
  rewrite Hk, Hgid. simpl. rewrite Hg. simpl. rewrite Hme. simpl.
  pose proof Hme as [Hin Hst]%find_first_some. rewrite !andb_true_iff in Hst.
  destruct Hst as ((Hid & Hp) & Hrv). apply is_member_true in Hid.
  unfold group_member_runtime_peer_id, group_member_is_admitted_for_runtime. rewrite Hp, Hrv. simpl.
  rewrite Hlp. simpl. set (remotes := retain _ (gv_members g)).
  assert (Hgin : g ∈ st_groups s) by (apply find_first_some in Hg; naive_solver).
  pose proof (proj1 (Forall_forall _ _) Hu g Hgin) as Hnd. cbv beta in Hnd.
  assert (Hrem : ∀ m, m ∈ remotes ↔ m ∈ gv_members g ∧ gm_member_id m ≠ local_user_id s
      ∧ group_member_runtime_route_is_current m (local_user_id s) now = true).
  { intros m. unfold remotes. rewrite elem_of_retain, andb_true_iff, negb_true_iff.
    unfold is_member. by rewrite str_eqb_false. }
  assert (Hlr : route_of me = Some lp).
  { unfold route_of, group_member_is_admitted_for_runtime. rewrite Hp, Hrv. simpl.
    unfold non_blank in Hlp. destruct (gm_runtime_peer_id me) as [q|]; [|done]. simpl in Hlp.
    destruct (is_blank q); congruence. }
  destruct (collect_routes_ok gid lp remotes ∅) as (X & -> & HX).
  - apply Forall_forall. intros m (_ & _ & (p & _ & _ & ? & ?)%current_route_of)%Hrem. eauto.
  - by apply omap_route_retain.
  - intros p (m & Hm & Hr)%list_elem_of_omap. split; [|set_solver]. intros ->.
    apply Hrem in Hm as (Hm & Hne & _). apply Hne. rewrite <- Hid. f_equal.
    by apply (unambiguous_rows (gv_members g) m me lp).
  - simpl. eexists. split; [done|]. split; [apply NoDup_sorted_elements|]. intros p.
    rewrite elem_of_sorted_elements, HX, list_elem_of_omap. split.
    + intros [?|(m & Hm%Hrem & Hr)]; [set_solver|]. exists m.
      destruct Hm as (? & ? & Hc). destruct (current_route_of m _ _ Hc) as (q & ? & _ & ? & _).
      split_and!; congruence || done.
    + intros (m & ? & ? & Hc & Hpm). right. exists m. split; [by apply Hrem|].
      destruct (current_route_of m _ _ Hc) as (q & ? & _ & ? & _). congruence.
Qed.

(** *** Channel schemas *)

Lemma validate_channels_ok ids names l :
  validate_channels ids names l = Ok tt ↔
  Forall (λ c, is_blank (ch_channel_id c) = false ∧ is_blank (ch_name c) = false) l
  ∧ NoDup (ch_channel_id <$> l) ∧ NoDup ((λ c, (kind_key (ch_kind c), ch_name c)) <$> l)
  ∧ (∀ c, c ∈ l → ch_channel_id c ∉ ids ∧ (kind_key (ch_kind c), ch_name c) ∉ names).
Proof.
  revert ids names. induction l as [|c l IH]; intros ids names; simpl.
  { split; [|done]. intros _. split_and!; [constructor..|]. by intros c ?%elem_of_nil. }
  rewrite Forall_cons, !NoDup_cons.
  destruct (is_blank (ch_channel_id c)) eqn:E1, (is_blank (ch_name c)) eqn:E2; simpl;
    [split; [done|naive_solver]..|].
  case_bool_decide as E3; [split; [done|]; intros (_ & _ & _ & Hall);
    destruct (Hall c); [apply elem_of_cons; by left|done]|].
  case_bool_decide as E4; [split; [done|]; intros (_ & _ & _ & Hall);
    destruct (Hall c); [apply elem_of_cons; by left|done]|].
  rewrite IH. split.
  - intros (Hb & Hi & Hn & Hall). split_and!; try done.
    + intros (d & Ed & Hd)%list_elem_of_fmap. destruct (Hall d Hd) as [Hdi _]. apply Hdi.
      rewrite <- Ed. by apply elem_of_union_l, elem_of_singleton.
    + intros (d & Ed & Hd)%list_elem_of_fmap. destruct (Hall d Hd) as [_ Hdn]. apply Hdn.
      rewrite <- Ed. by apply elem_of_union_l, elem_of_singleton.
    + intros d [->|Hd]%elem_of_cons; [done|]. destruct (Hall d Hd) as [Hdi Hdn].
      split; intros Hin; [apply Hdi|apply Hdn]; by apply elem_of_union_r.
  - intros ([_ Hb] & [Hi Hi'] & [Hn Hn'] & Hall). split_and!; try done.
    intros d Hd. destruct (Hall d) as [Hdi Hdn]; [apply elem_of_cons; by right|]. split.
    + intros [E%elem_of_singleton|Hin]%elem_of_union; [|exact (Hdi Hin)].
      apply Hi, list_elem_of_fmap. by exists d.
    + intros [E%elem_of_singleton|Hin]%elem_of_union; [|exact (Hdn Hin)].
      apply Hn, list_elem_of_fmap. by exists d.
Qed.

(** A complete schema: non-blank unique ids, and names unique within a kind. *)
Definition schema_wf (l : list ChannelStateView) : Prop :=
  Forall (λ c, is_blank (ch_channel_id c) = false ∧ is_blank (ch_name c) = false) l
  ∧ NoDup (ch_channel_id <$> l) ∧ NoDup ((λ c, (kind_key (ch_kind c), ch_name c)) <$> l).

Lemma schema_wf_validate l : validate_group_channel_schema l = Ok tt ↔ schema_wf l.
Proof.
  unfold validate_group_channel_schema, schema_wf. rewrite validate_channels_ok. split; [tauto|].
  intros (? & ? & ?). by split_and!.
Qed.

(** What an applied schema was checked against. *)
Record schema_checked (gid : string) (snap : GroupChannelSchemaSnapshotView) (g : GroupView) :
    Prop := {
  sc_wf : schema_wf (csn_channels snap);
  sc_signature : verify_group_channel_schema_signature snap gid = Ok tt;
  sc_actor : ∃ actor, actor ∈ gv_members g ∧ gm_member_id actor = csn_actor_member_id snap
    ∧ group_member_is_admitted_for_runtime actor = true
    ∧ gm_signer_public_key_hex actor = Some (csn_actor_signer_public_key_hex snap)
    ∧ can_manage_members (gm_role actor) = true
    ∧ (csn_schema_epoch snap = gv_channel_schema_epoch g → gm_role actor = RoleOwner);
  sc_epoch : gv_channel_schema_epoch g ≤ csn_schema_epoch snap
}.

Lemma schema_applied_id gid event_id snap g :
  gv_group_id (schema_applied gid event_id snap g) = gv_group_id g.
Proof. unfold schema_applied. by destruct (has_event _ _). Qed.

Lemma find_group_settle gid gid' channels s :
  find_group gid (settle_active_context gid' channels s) = find_group gid s.
Proof. unfold settle_active_context. by case_match. Qed.

(** Channel schemas move forward under authority: a snapshot changes a group only when it is
    complete, signed under the roster key of an admitted owner or staff member, not older than
    the schema held, and from the owner when it is as old; the group then has exactly the
    snapshot's channels and revision. Any other outcome leaves the state as it was. *)
Theorem channel_schemas_move_forward gid event_id snap s s' applied :
  apply_group_channel_schema_snapshot gid event_id snap s = Ok (s', applied) →
  if applied then
    ∃ g g', find_group gid s = Some g ∧ schema_checked gid snap g ∧ find_group gid s' = Some g'
      ∧ gv_channels g' = csn_channels snap ∧ gv_channel_schema_epoch g' = csn_schema_epoch snap
      ∧ gv_members g' = gv_members g
  else s' = s.
Proof.
  unfold apply_group_channel_schema_snapshot. intros R. gov R as [] Hwf%map_err_ok.
  gov R as [] Hsig. gov R as g Hg. gov R as actor Ha. gov R as ? Hman. gov R as ? Hk.
  gov R as cur Hcur. gov R as inc Hinc.
  destruct ((_ <? _) || _) eqn:Hold; [by injection R as <- <-|]. gov R as ? Hown.
  injection R as <- <-. apply orb_false_iff in Hold as [Hlt _]. apply N.ltb_ge in Hlt.
  exists g, (schema_applied gid event_id snap g). split; [done|].
  apply find_first_some in Ha as [Hin [Hid%is_member_true Hadm]%andb_true_iff].
  apply bool_decide_eq_true in Hk. split.
  { split; [by apply schema_wf_validate|done| |done]. exists actor. split_and!; try done.
    intros Heq. rewrite negb_true_iff, andb_false_iff in Hown. destruct Hown as [Hne|Hown].
    - apply N.eqb_neq in Hne. done.
    - by apply negb_false_iff, bool_decide_eq_true in Hown. }
  rewrite find_group_settle. split_and!.
  - rewrite find_update_group by apply schema_applied_id. by rewrite Hg.
  - unfold schema_applied. by destruct (has_event _ _).
  - unfold schema_applied. by destruct (has_event _ _).
  - unfold schema_applied. by destruct (has_event _ _).
Qed.

Lemma signed_schema_lands `{!Ed25519Laws, !HexLaws} gid created_at event_id s s1 snap r h actor :
  signed_group_channel_schema_snapshot gid created_at s = (s1, Ok snap) →
  find_group gid r = Some h →
  find_first (λ m, is_member (local_user_id s) m && group_member_is_admitted_for_runtime m)
    (gv_members h) = Some actor →
  can_manage_members (gm_role actor) = true →
  gm_signer_public_key_hex actor = Some (public_key_hex (identity_signing_key s).2) →
  gv_channel_schema_epoch h < csn_schema_epoch snap →
  is_ok (channels_to_vec (gv_channels h)) = true →
  apply_group_channel_schema_snapshot gid event_id snap r
    = Ok (settle_active_context gid (csn_channels snap)
            (update_group gid (schema_applied gid event_id snap) r), true)
  ∧ ∃ g, find_group gid s1 = Some g ∧ csn_channels snap = gv_channels g
      ∧ csn_schema_epoch snap = gv_channel_schema_epoch g.
Proof.
  unfold signed_group_channel_schema_snapshot. destruct (identity_signing_key s) as [s0 k] eqn:Hk.
  intros [= -> R] Hh Ha Hman Hkey Hep Hvec. simpl in Hkey.
  apply rbind_ok in R as (g & Hg%ok_or_ok & R). apply rbind_ok in R as (me & _ & R).
  apply rbind_ok in R as (? & _ & R). apply rbind_ok in R as (? & _ & R).
  apply rbind_ok in R as ([] & Hwf & R). apply rbind_ok in R as (sha & Hsha & [= <-]).
  cbn in Hep. unfold apply_group_channel_schema_snapshot. cbn [csn_channels]. rewrite Hwf. cbn [rbind map_err].
  unfold verify_group_channel_schema_signature. cbn [csn_channels]. rewrite Hsha. cbn [rbind csn_actor_signer_public_key_hex csn_signature_hex csn_schema_epoch csn_actor_member_id csn_created_at].
  unfold sign_group_channel_schema. unfold public_key_hex. rewrite verify_sign_hex.
  cbn [rbind map_err]. rewrite Hh. cbn [require_some ok_or rbind]. rewrite Ha.
  cbn [require_some ok_or rbind]. rewrite Hman. cbn [require rbind]. rewrite Hkey.
  unfold opt_str_eqb. rewrite bool_decide_eq_true_2 by done. cbn [require rbind].
  assert (∃ cur, group_channel_schema_sha256 (gv_channels h) = Ok cur) as [cur ->].
  { unfold group_channel_schema_sha256. destruct (channels_to_vec (gv_channels h)); [|done]. by eexists. }
  cbn [map_err rbind].
  rewrite (proj2 (N.ltb_ge _ _)) by lia. rewrite (proj2 (N.eqb_neq _ _)) by lia.
  cbn [andb orb negb require rbind].
  split; [done|]. by exists g.
Qed.

(** A published schema reaches every peer that knows the publisher: the snapshot an owner or
    staff member signs is accepted by any peer whose roster lists the publisher as admitted
    owner/staff under the same key and whose schema is older, and that peer then shows the
    publisher's channels at the publisher's revision. *)
Theorem signed_schema_is_accepted `{!Ed25519Laws, !HexLaws} gid created_at event_id
    s s1 snap r h actor :
  signed_group_channel_schema_snapshot gid created_at s = (s1, Ok snap) →
  find_group gid r = Some h →
  find_first (λ m, is_member (local_user_id s) m && group_member_is_admitted_for_runtime m)
    (gv_members h) = Some actor →
  can_manage_members (gm_role actor) = true →
  gm_signer_public_key_hex actor = Some (public_key_hex (identity_signing_key s).2) →
  gv_channel_schema_epoch h < csn_schema_epoch snap →
  is_ok (channels_to_vec (gv_channels h)) = true →
  ∃ r' g h', apply_group_channel_schema_snapshot gid event_id snap r = Ok (r', true)
    ∧ find_group gid s1 = Some g ∧ find_group gid r' = Some h'
    ∧ gv_channels h' = gv_channels g ∧ gv_channel_schema_epoch h' = gv_channel_schema_epoch g.
Proof.
  intros Hs Hh Ha Hman Hkey Hep Hvec.
  destruct (signed_schema_lands gid created_at event_id s s1 snap r h actor Hs Hh Ha Hman Hkey Hep Hvec)
    as (-> & g & Hg & Hc & He).
  eexists _, g, (schema_applied gid event_id snap h). split; [done|]. split; [done|].
  rewrite find_group_settle, find_update_group by apply schema_applied_id. rewrite Hh.
  split; [done|]. unfold schema_applied. by destruct (has_event _ _).
Qed.

End groups.

(** ** Concrete groups *)

Module GroupToy.

#[local] Existing Instance Toy.toy_sha.
#[local] Existing Instance Toy.toy_ed.
#[local] Existing Instance Toy.toy_hex.
#[local] Existing Instance Toy.toy_chrono.
#[local] Existing Instance Toy.toy_rfc3339.
#[local] Existing Instance DeskToy.toy_seed.
#[local] Existing Instance DeskToy.toy_json.
#[local] Existing Instance DeskToy.toy_texts.

Definition alice_key : string := public_key_hex Toy.alice.
Definition bob_key : string := public_key_hex Toy.bob.

Definition row (member_id key : string) (role : GroupRoleView) (peer : option string) :
    GroupMemberView := {|
  gm_member_id := member_id; gm_display_name := member_id; gm_device_id := None; gm_role := role;
  gm_status := "unknown"; gm_signer_public_key_hex := Some key; gm_runtime_peer_id := peer;
  gm_joined_at := ""; gm_last_seen_at := None; gm_presence_expires_at := None;
  gm_revoked_at := None; gm_revoked_by := None; gm_route_evidence := None
|}.

Definition lobby : ChannelStateView := {|
  ch_channel_id := "lobby"; ch_name := "#lobby"; ch_kind := TextChannel;
  ch_retention_status := "session"; ch_connectivity := None
|}.

Definition crew (epoch : N) (channels : list ChannelStateView) : GroupView := {|
  gv_group_id := "crew"; gv_name := "Crew"; gv_role := "owner"; gv_channels := channels;
  gv_channel_schema_epoch := epoch;
  gv_members := [row "user-alice" alice_key RoleOwner (Some "peer-a");
                 row "user-bob" bob_key RoleMember (Some "peer-b")];
  gv_role_policy := {| rp_admission_mode := AutomaticWhenAuthorizedOnline; rp_policy_epoch := 1;
                       rp_updated_by := "user-alice"; rp_updated_at := "" |};
  gv_admission_requests := []; gv_governance_log := []; gv_runtime_peers := [];
  gv_connectivity := None
|}.

(** Alice's desktop, and Bob's with an older schema. *)
Definition alice : PersistedAppState :=
  {| DeskToy.alice_state with st_groups := [crew 2 [lobby]] |}.

Definition bob : PersistedAppState :=
  {| DeskToy.alice_state with
     st_profile := Some {| up_user_id := "user-bob"; up_display_name := "Bob";
                           up_device_name := "Desktop"; up_recovery_status := "" |};
     st_identity_seed_hex := hex_encode (Toy.key_bytes false);
     st_groups := [crew 1 []] |}.

Definition promote_bob : GroupMemberRoleChangedEvent := {|
  rce_group_id := "crew"; rce_event_id := "e1"; rce_actor_member_id := "user-alice";
  rce_actor_signer_public_key_hex := Some alice_key; rce_target_member_id := "user-bob";
  rce_role_before := RoleMember; rce_role_after := RoleStaff; rce_created_at := "t";
  rce_signature_hex := Some (sign_group_member_role_change Toy.alice {|
    rcp_group_id := "crew"; rcp_event_id := "e1"; rcp_actor_member_id := "user-alice";
    rcp_actor_signer_public_key_hex := alice_key; rcp_target_member_id := "user-bob";
    rcp_role_before := RoleMember; rcp_role_after := RoleStaff; rcp_created_at := "t" |})
|}.

Definition instant (s : Z) : @datetime Toy.toy_chrono := (s * 1000000000)%Z.
Definition stamp (s : Z) : string := dt_to_rfc3339 (instant s).

Definition bob_beats : GroupPresenceHeartbeatEvent := {|
  gpe_group_id := "crew"; gpe_event_id := "p1"; gpe_member_id := "user-bob";
  gpe_display_name := None; gpe_device_id := None; gpe_signer_public_key_hex := bob_key;
  gpe_runtime_peer_id := "peer-b2"; gpe_channel_schema_epoch := 1; gpe_channel_schema_sha256 := "";
  gpe_last_seen_at := stamp 100; gpe_presence_expires_at := stamp 190;
  gpe_signature_hex := sign_group_presence Toy.bob {|
    gpp_group_id := "crew"; gpp_event_id := "p1"; gpp_member_id := "user-bob";
    gpp_display_name := None; gpp_device_id := None; gpp_signer_public_key_hex := bob_key;
    gpp_runtime_peer_id := "peer-b2"; gpp_channel_schema_epoch := 1; gpp_channel_schema_sha256 := "";
    gpp_last_seen_at := stamp 100; gpp_presence_expires_at := stamp 190 |}
|}.

(** The value of a result known to be one. *)
Definition unwrap {A E} (d : A) (m : result A E) : A := match m with Ok x => x | Err _ => d end.

Lemma unwrap_ok {A E} (d : A) (m : result A E) : is_ok m = true → m = Ok (unwrap d m).
Proof. by destruct m. Qed.

Lemma unwrap_pair {A B E} (d : A * B) (m : result (A * B) E) b :
  is_ok m = true → (unwrap d m).2 = b → m = Ok ((unwrap d m).1, b).
Proof. destruct m as [[x y]|]; [|done]. simpl. by intros _ ->. Qed.

Definition staffed : PersistedAppState :=
  unwrap alice (apply_group_member_role_changed promote_bob alice).

Definition beaten : PersistedAppState * result bool GovError :=
  apply_group_presence_heartbeat (instant 101) (instant 101) (instant 101) bob_beats alice.

Definition signed : PersistedAppState * result GroupChannelSchemaSnapshotView string :=
  signed_group_channel_schema_snapshot "crew" "t" alice.

Definition no_schema : GroupChannelSchemaSnapshotView := {|
  csn_schema_epoch := 0; csn_channels := []; csn_actor_member_id := "";
  csn_actor_signer_public_key_hex := ""; csn_created_at := ""; csn_signature_hex := ""
|}.

Definition schema : GroupChannelSchemaSnapshotView := unwrap no_schema signed.2.

Definition schooled : PersistedAppState :=
  (unwrap (bob, false) (apply_group_channel_schema_snapshot "crew" "c1" schema bob)).1.

End GroupToy.

Section witnesses.
#[local] Existing Instance Toy.toy_sha.
#[local] Existing Instance Toy.toy_ed.
#[local] Existing Instance Toy.toy_ed_laws.
#[local] Existing Instance Toy.toy_hex.
#[local] Existing Instance Toy.toy_hex_laws.
#[local] Existing Instance Toy.toy_chrono.
#[local] Existing Instance Toy.toy_chrono_laws.
#[local] Existing Instance Toy.toy_rfc3339.
#[local] Existing Instance DeskToy.toy_seed.
#[local] Existing Instance DeskToy.toy_json.
#[local] Existing Instance DeskToy.toy_texts.

Lemma role_changes_need_the_owner_witness :
  owner_rows GroupToy.staffed = owner_rows GroupToy.alice.
Proof.
  destruct (role_changes_need_the_owner GroupToy.promote_bob GroupToy.alice GroupToy.staffed
    ltac:(apply GroupToy.unwrap_ok; vm_compute; reflexivity))
    as (g & Hg & [[He _]|(_ & Ho & _)]); [|exact Ho].
  cbn in Hg. injection Hg as <-. discriminate He.
Defined.

Lemma role_change_is_applied_once_witness :
  apply_group_member_role_changed
    {| GroupToy.promote_bob with rce_role_before := RoleStaff; rce_role_after := RoleMember |}
    GroupToy.staffed = Ok GroupToy.staffed.
Proof.
  apply (role_change_is_applied_once GroupToy.promote_bob GroupToy.alice GroupToy.staffed);
    [apply GroupToy.unwrap_ok; vm_compute; reflexivity|reflexivity..].
Defined.

Lemma revocation_cuts_the_member_off_witness :
  ∃ g' m', find_group "crew" (apply_group_member_revoked "crew" "r1" "user-alice" "user-bob" "t" ""
      GroupToy.alice) = Some g'
    ∧ find_first (is_member "user-bob") (gv_members g') = Some m' ∧ gm_status m' = "revoked"%string.
Proof.
  destruct (revocation_cuts_the_member_off "crew" "r1" "user-alice" "user-bob" "t" "" GroupToy.alice
    (GroupToy.crew 2 [GroupToy.lobby])
    (GroupToy.row "user-bob" GroupToy.bob_key RoleMember (Some "peer-b"%string))
    eq_refl eq_refl eq_refl) as (g' & m' & H1 & H2 & H3 & _).
  by exists g', m'.
Defined.

Lemma presence_is_authentic_witness :
  ∃ m last_seen expires, presence_checked (GroupToy.instant 101) GroupToy.bob_beats
    (GroupToy.crew 2 [GroupToy.lobby]) m last_seen expires.
Proof.
  destruct (presence_is_authentic (GroupToy.instant 101) (GroupToy.instant 101)
    (GroupToy.instant 101) GroupToy.bob_beats GroupToy.alice GroupToy.beaten.1 GroupToy.beaten.2
    (surjective_pairing _)) as (g & m & l & x & _ & Hg & Hp & _).
  - intros E. apply (f_equal (λ l, length (from_option gv_governance_log [] (head l)))) in E.
    vm_compute in E. discriminate E.
  - cbn in Hg. injection Hg as <-. eauto.
Defined.

Lemma presence_keeps_routes_unambiguous_witness : unambiguous GroupToy.beaten.1.
Proof.
  apply (presence_keeps_routes_unambiguous (GroupToy.instant 101) (GroupToy.instant 101)
    (GroupToy.instant 101) GroupToy.bob_beats GroupToy.alice).
  repeat constructor; simpl; set_solver.
Defined.

Lemma text_fans_out_to_current_peers_witness :
  ∃ routes, route_peer_ids_for_text_target (GroupToy.instant 101) (group_control_target "crew")
    GroupToy.alice = Ok routes ∧ NoDup routes.
Proof.
  destruct (text_fans_out_to_current_peers (GroupToy.instant 101) GroupToy.alice
    (group_control_target "crew") "crew" (GroupToy.crew 2 [GroupToy.lobby])
    (GroupToy.row "user-alice" GroupToy.alice_key RoleOwner (Some "peer-a"%string)) "peer-a")
    as (routes & H1 & H2 & _);
    [repeat constructor; simpl; set_solver|reflexivity..|]. by exists routes.
Defined.

Lemma channel_schemas_move_forward_witness :
  ∃ g', find_group "crew" GroupToy.schooled = Some g' ∧ gv_channels g' = [GroupToy.lobby].
Proof.
  destruct (channel_schemas_move_forward "crew" "c1" GroupToy.schema GroupToy.bob GroupToy.schooled
    true ltac:(apply GroupToy.unwrap_pair; vm_compute; reflexivity)) as (g & g' & _ & _ & Hg' & Hc & _).
  exists g'. split; [exact Hg'|]. rewrite Hc. vm_compute. reflexivity.
Defined.

Lemma signed_schema_is_accepted_witness :
  ∃ r', apply_group_channel_schema_snapshot "crew" "c1" GroupToy.schema GroupToy.bob = Ok (r', true).
Proof.
  destruct (signed_schema_is_accepted "crew" "t" "c1" GroupToy.alice GroupToy.signed.1 GroupToy.schema
    GroupToy.bob (GroupToy.crew 1 [])
    (GroupToy.row "user-alice" GroupToy.alice_key RoleOwner (Some "peer-a"%string)))
    as (r' & _ & _ & Hr & _);
    [rewrite (surjective_pairing GroupToy.signed) at 1; f_equal; apply GroupToy.unwrap_ok;
       vm_compute; reflexivity|vm_compute; reflexivity..|]. by exists r'.
Defined.

End witnesses.
