(* ===== verification/DeskDelivery.v ===== *)
(** * Desktop application: text delivery
    (apps/desktop/src-tauri/src/lib.rs)

    The outbox of text and control frames (queueing, what is due, marking a frame sent), the
    receipts that settle it, and the receiving side: membership of the sender, the signed
    envelope, rendering through the inbound pipeline of [TextReceive], the signed receipt.
    The OpenMLS engine is a record of operations, taken as it stands at each call. *)

From S2P Require Import Prelude Collections Bytes StrOps Crypto Transport RouteGraph Identity DeliveryError TextEnvelope TextSend TextReceive AppService DeskState DeskGroups.

(** ** The OpenMLS engine at one call: open the store of the handle, load the group, operate.
    Errors are the texts the caller formats. *)
Record MlsEngine := {
  (** [app_openmls_store_path().display().to_string()] *)
  me_store_path : string;
  (** signer key, key package *)
  me_generate_member_package : string → result (bytes * bytes) string;
  (** owner signer, member signer, key package: Welcome, epoch, confirmation tag *)
  me_add_member_package : OpenMlsGroupHandleRecord → bytes → bytes → bytes →
    result (option bytes * N * bytes) string;
  (** commit, epoch, confirmation tag *)
  me_remove_member : OpenMlsGroupHandleRecord → bytes → string → result (bytes * N * bytes) string;
  me_public_commit_confirmation_tag_sha256 : bytes → result (option string) string;
  (** epoch, commit, target: epoch, confirmation tag *)
  me_apply_external_remove_commit : OpenMlsGroupHandleRecord → bytes → N → bytes → string →
    result (N * bytes) string;
  (** group, signer, Welcome: epoch, confirmation tag *)
  me_join_from_welcome : string → bytes → bytes → result (N * bytes) string;
  (** exporter secret for a delivery group, and the epoch *)
  me_export_text_secret : OpenMlsGroupHandleRecord → bytes → string → result (bytes * N) string
}.

(** ** [String::from_utf8_lossy]: every maximal ill-formed part becomes U+FFFD *)

(** Whether a character starts here, and how many bytes it or the ill-formed part takes. *)
Definition utf8_step (b : bytes) : bool * nat :=
  match b with
  | [] => (true, 0%nat)
  | b0 :: r0 =>
      let second lo hi := match r0 with b1 :: _ => (lo <=? b1) && (b1 <=? hi) | [] => false end in
      let third := match r0 with _ :: b2 :: _ => is_continuation b2 | _ => false end in
      let fourth := match r0 with _ :: _ :: b3 :: _ => is_continuation b3 | _ => false end in
      let three lo hi := if second lo hi then if third then (true, 3%nat) else (false, 2%nat)
                         else (false, 1%nat) in
      let four lo hi :=
        if second lo hi then
          if third then if fourth then (true, 4%nat) else (false, 3%nat) else (false, 2%nat)
        else (false, 1%nat) in
      if b0 <? 128 then (true, 1%nat)
      else if (194 <=? b0) && (b0 <=? 223) then
        if second 128 191 then (true, 2%nat) else (false, 1%nat)
      else if b0 =? 224 then three 160 191
      else if b0 =? 237 then three 128 159
      else if (225 <=? b0) && (b0 <=? 239) then three 128 191
      else if b0 =? 240 then four 144 191
      else if b0 =? 244 then four 128 143
      else if (241 <=? b0) && (b0 <=? 243) then four 128 191
      else (false, 1%nat)
  end.

Fixpoint utf8_lossy (fuel : nat) (b : bytes) : bytes :=
  match fuel, b with
  | S fuel, _ :: _ =>
      let '(well_formed, n) := utf8_step b in
      (if well_formed then take n b else [239; 191; 189]) ++ utf8_lossy fuel (drop n b)
  | _, _ => []
  end.

Definition from_utf8_lossy (b : bytes) : string := string_of_bytes (utf8_lossy (length b) b).

Section delivery.
Context `{Sha256, Ed25519, Hex, Aes256Gcm, Chrono, !Rfc3339, !SigningSeed, !FrameJson, !ErrorTexts}.

(** ** Queueing *)

Definition has_message_id (message_id : string) (r : TextControlOutboxRecord) : bool :=
  ob_message_id r =s message_id.

Definition enqueue_text_control_frame (now : datetime) (target : MessageTargetView)
    (message_id : string) (frame : TextControlFrameView) (s : PersistedAppState) :
    result PersistedAppState string :=
  let* frame_sha256 := text_control_frame_sha256 frame in
  let* route_peer_ids := route_peer_ids_for_text_target now target s in
  if existsb (has_message_id message_id) (st_text_control_outbox s) then
    Ok {| s with st_text_control_outbox :=
      update_first (has_message_id message_id) (λ r,
        {| r with ob_target := target;
                  ob_frame := frame;
                  ob_frame_sha256 := frame_sha256;
                  ob_attempts := 0;
                  ob_last_attempted_at_ms := None;
                  ob_state_key := "pending";
                  ob_route_peer_ids := route_peer_ids;
                  ob_expected_route_peer_ids := route_peer_ids;
                  ob_sent_route_peer_ids :=
                    retain (contains route_peer_ids) (ob_sent_route_peer_ids r);
                  ob_receipted_route_peer_ids :=
                    retain (contains route_peer_ids) (ob_receipted_route_peer_ids r) |})
        (st_text_control_outbox s) |}
  else
    Ok (push_event "message.outbox_queued"
          ("Queued signed text/control frame for " +:+ redacted_message_ref message_id)
          (push_outbox {| ob_message_id := message_id;
                          ob_target := target;
                          ob_frame := frame;
                          ob_frame_sha256 := frame_sha256;
                          ob_attempts := 0;
                          ob_last_attempted_at_ms := None;
                          ob_state_key := "pending";
                          ob_last_transport_session_id := None;
                          ob_route_peer_ids := route_peer_ids;
                          ob_expected_route_peer_ids := route_peer_ids;
                          ob_sent_route_peer_ids := [];
                          ob_receipted_route_peer_ids := [] |} s)).

Definition enqueue_text_control_outbox (now : datetime) (target : MessageTargetView)
    (message_id : string) (record : TextDeliveryEnvelopeRecord) (s : PersistedAppState) :
    result PersistedAppState string :=
  enqueue_text_control_frame now target message_id
    (Envelope target (der_envelope record) (der_sender_verifying_key_hex record) None) s.

(** ** What is due *)

Record ListPendingTextControlFramesRequest := {
  lp_target : option MessageTargetView;
  lp_limit : option N;
  lp_operation_timeout_ms : option N
}.

Definition is_pending_record (now : datetime) (r : TextControlOutboxRecord) : bool :=
  if text_control_frame_is_expired_presence (ob_frame r) now then false
  else if bool_decide (ob_route_peer_ids r = []) then ob_state_key r =s "pending"
  else negb (ob_state_key r =s "receipted")
       && existsb (λ peer_id, negb (contains (ob_receipted_route_peer_ids r) peer_id))
            (ob_route_peer_ids r).

(** [records.sort_by_key(|(priority, index, _)| (priority, index))] is a stable sort by
    priority. *)
Definition by_priority : TextControlOutboxRecord → TextControlOutboxRecord → comparison :=
  cmp_by (λ r, text_control_frame_delivery_priority (ob_frame r)) N.compare.

Definition clamp (lo hi x : N) : N := N.min (N.max x lo) hi.

Definition list_pending_text_control_frames (now : datetime)
    (request : ListPendingTextControlFramesRequest) (s : PersistedAppState) :
    list TextControlOutboxRecord :=
  take (N.to_nat (clamp 1 200 (default 50 (lp_limit request))))
    (sort_by by_priority
       (retain (λ r, from_option (λ target, bool_decide (ob_target r = target)) true
                       (lp_target request))
          (retain (is_pending_record now) (st_text_control_outbox s)))).

Definition text_control_transport_operation_timeout_ms
    (request : ListPendingTextControlFramesRequest) : N :=
  clamp 100 60000 (default 5000 (lp_operation_timeout_ms request)).

Definition text_control_outbox_retry_delay_ms (attempts : N) : N :=
  if attempts =? 0 then 0
  else N.min (sat_mul u64_max 2000 (N.shiftl 1 (N.min (attempts - 1) 4))) 30000.

(** The selection of [drive_text_control_transport_once_for_route]: first what was never handed
    over, then retries that waited their delay. *)
Definition due_on_route (now : datetime) (request : ListPendingTextControlFramesRequest)
    (route_peer_id : option string) (plane : TextControlFramePlane) (r : TextControlOutboxRecord) :
    bool :=
  negb (text_control_frame_is_expired_presence (ob_frame r) now)
  && bool_decide (text_control_frame_plane (ob_frame r) = plane)
  && from_option (λ target, bool_decide (ob_target r = target)) true (lp_target request)
  && match route_peer_id with
     | Some peer_id => negb (ob_state_key r =s "receipted")
                       && contains (ob_route_peer_ids r) peer_id
                       && negb (contains (ob_receipted_route_peer_ids r) peer_id)
     | None => bool_decide (ob_route_peer_ids r = []) && (ob_state_key r =s "pending")
     end.

Definition route_was_sent (route_peer_id : option string) (r : TextControlOutboxRecord) : bool :=
  match route_peer_id with
  | Some peer_id => contains (ob_sent_route_peer_ids r) peer_id
  | None => 0 <? ob_attempts r
  end.

Definition retry_is_due (wait_for_response : bool) (now_ms : N) (r : TextControlOutboxRecord) :
    bool :=
  wait_for_response
  || from_option (λ last, text_control_outbox_retry_delay_ms (ob_attempts r) <=? now_ms - last) true
       (ob_last_attempted_at_ms r).

Definition frames_to_send (now : datetime) (now_ms : N)
    (request : ListPendingTextControlFramesRequest) (route_peer_id : option string)
    (plane : TextControlFramePlane) (wait_for_response : bool) (s : PersistedAppState) :
    list TextControlOutboxRecord :=
  let due := retain (due_on_route now request route_peer_id plane) (st_text_control_outbox s) in
  let limit := N.to_nat (clamp 1 200 (default 50 (lp_limit request))) in
  let unsent := sort_by by_priority (retain (λ r, negb (route_was_sent route_peer_id r)) due) in
  let retries := sort_by by_priority
    (retain (λ r, route_was_sent route_peer_id r && retry_is_due wait_for_response now_ms r) due) in
  let retry_limit := if wait_for_response then limit else 2%nat in
  let pending := take limit unsent in
  pending ++ take (Nat.min (limit - length pending) retry_limit) retries.

(** ** Marking a frame sent *)

Record MarkTextControlFrameSentRequest := {
  ms_message_id : string;
  ms_frame_sha256 : string;
  ms_transport_session_id : option string;
  ms_route_peer_id : option string
}.

Definition push_unless_present (x : string) (l : list string) : list string :=
  if contains l x then l else l ++ [x].

(** The handover of one record: the attempt is counted even when the route is refused. *)
Definition hand_over (now_ms : N) (request : MarkTextControlFrameSentRequest)
    (r : TextControlOutboxRecord) : TextControlOutboxRecord * result unit string :=
  let r := {| r with ob_attempts := sat_add u32_max (ob_attempts r) 1;
                     ob_last_attempted_at_ms := Some now_ms |} in
  match ms_route_peer_id request with
  | Some peer_id =>
      if negb (contains (ob_route_peer_ids r) peer_id) then
        (r, Err ("route peer " +:+ peer_id
                 +:+ " is not an expected recipient for this outbox frame"))
      else
        let r := {| r with ob_sent_route_peer_ids :=
                      push_unless_present peer_id (ob_sent_route_peer_ids r) |} in
        let r := if forallb (contains (ob_sent_route_peer_ids r)) (ob_route_peer_ids r)
                    && negb (forallb (contains (ob_receipted_route_peer_ids r)) (ob_route_peer_ids r))
                 then {| r with ob_state_key := "sent" |} else r in
        ({| r with ob_last_transport_session_id := ms_transport_session_id request |}, Ok tt)
  | None =>
      ({| r with ob_state_key := "sent";
                 ob_last_transport_session_id := ms_transport_session_id request |}, Ok tt)
  end.

Definition has_message (message_id : string) (m : MessageView) : bool :=
  mv_message_id m =s message_id.

Definition mark_text_control_frame_sent (now_ms : N) (request : MarkTextControlFrameSentRequest)
    (s : PersistedAppState) : PersistedAppState * result unit string :=
  match find_first (has_message_id (ms_message_id request)) (st_text_control_outbox s) with
  | None => (s, Err "no persisted outbox frame for message id"%string)
  | Some outbox =>
      if negb (ob_frame_sha256 outbox =s ms_frame_sha256 request) then
        (s, Err "outbox frame hash mismatch"%string)
      else
        let s := {| s with st_text_control_outbox :=
          update_first (has_message_id (ms_message_id request))
            (λ r, (hand_over now_ms request r).1) (st_text_control_outbox s) |} in
        match (hand_over now_ms request outbox).2 with
        | Err error => (s, Err error)
        | Ok _ =>
            let s := {| s with st_messages :=
              update_first (has_message (ms_message_id request)) (λ m,
                if mv_state_key m =s "peer_receipt" then m
                else {| m with
                  mv_status := "signed text/control frame handed to transport session; peer delivery still requires signed receipt";
                  mv_state_key := "transport_frame_sent";
                  mv_state_label := "Awaiting peer receipt";
                  mv_state_detail := "frame_sha256=" +:+ ob_frame_sha256 outbox +:+ " session_id="
                    +:+ default "unreported" (ms_transport_session_id request) |})
                (st_messages s) |} in
            (push_event "message.outbox_sent"
               ("Marked text/control frame " +:+ redacted_message_ref (ms_message_id request)
                +:+ " sent to transport") s, Ok tt)
        end
  end.

Definition message_has_peer_receipt (message_id : string) (s : PersistedAppState) : bool :=
  existsb (λ m, has_message message_id m && (mv_state_key m =s "peer_receipt")
                && bool_decide (is_Some (mv_peer_receipt m))) (st_messages s).

(** ** Receipts *)

(** [value.strip_prefix("group:")?.split_once(":channel:")?.0], or the text itself *)
Definition delivery_group (delivery_group_id : string) : string :=
  default delivery_group_id
    (value ← strip_prefix "group:" delivery_group_id; fst <$> split_once ":channel:" value).

Definition receipt_recipient_authority (delivery_group_id recipient_device_id : string)
    (s : PersistedAppState) : result (verifying_key * option string) string :=
  match strip_prefix "dm:" delivery_group_id with
  | Some dm_id =>
      let* dm := ok_or (find_first (λ dm, dc_dm_id dm =s dm_id) (st_dms s))
        ("DM " +:+ dm_id +:+ " is missing for receipt verification") in
      let* remote := ok_or
        (find_first (λ peer, is_remote peer && ((dp_profile_id peer =s recipient_device_id)
                             || (dp_device_id peer =s recipient_device_id))) (dc_runtime_peers dm))
        ("DM " +:+ dm_id +:+ " has no established remote route identity for receipt recipient "
         +:+ recipient_device_id) in
      let* key := ok_or (verifying_key_from_hex (dp_signer_public_key_hex remote))
        "DM remote receipt signer key is invalid"%string in
      Ok (key, Some (dp_peer_id remote))
  | None =>
      let group_id := delivery_group delivery_group_id in
      let* group := ok_or (find_group group_id s)
        ("Group " +:+ group_id +:+ " is missing for receipt verification") in
      let* member := ok_or
        (find_first (λ m, is_member recipient_device_id m
                          || opt_str_eqb (gm_device_id m) (Some recipient_device_id))
           (gv_members group))
        ("Group " +:+ group_id +:+ " has no admitted member " +:+ recipient_device_id
         +:+ " for receipt verification") in
      check reject_if (is_member (local_user_id s) member || (gm_status member =s "pending")
                       || (gm_status member =s "revoked"))
        ("Group " +:+ group_id +:+ " receipt recipient " +:+ recipient_device_id
         +:+ " is not an admitted remote member") in
      let* signer_public_key_hex := ok_or (gm_signer_public_key_hex member)
        ("Group " +:+ group_id +:+ " receipt recipient " +:+ recipient_device_id
         +:+ " has no admitted signer key") in
      let* key := ok_or (verifying_key_from_hex signer_public_key_hex)
        "group member receipt signer key is invalid"%string in
      Ok (key, gm_runtime_peer_id member)
  end.

Definition receipt_view (key : verifying_key) (receipt : TextDeliveryReceipt) :
    TextDeliveryReceiptView := {|
  drv_recipient_device_id := tr_recipient_device_id receipt;
  drv_received_at_ms := tr_received_at_ms receipt;
  drv_envelope_ciphertext_hash := hex_encode (tr_envelope_ciphertext_hash receipt);
  drv_recipient_key_fingerprint := key_fingerprint key
|}.

(** The row after a route's receipt. *)
Definition settle_route (route_peer_id : string) (r : TextControlOutboxRecord) :
    TextControlOutboxRecord :=
  let r := {| r with ob_receipted_route_peer_ids :=
                push_unless_present route_peer_id (ob_receipted_route_peer_ids r) |} in
  {| r with ob_state_key := if all_expected_receipted r then "receipted" else "pending" |}.

(** The guards of a receipt: the key that signed it, and the route it settles. *)
Definition check_receipt (message_id : string) (receipt : TextDeliveryReceipt)
    (observed_route_peer_id : option string) (s : PersistedAppState) :
    result (verifying_key * string * TextControlOutboxRecord) string :=
  let* envelope_record := ok_or
    (find_first (λ r, der_message_id r =s message_id) (st_text_delivery_envelopes s))
    "no persisted text envelope for receipt message id"%string in
  let* authority := receipt_recipient_authority (der_group_id envelope_record)
    (tr_recipient_device_id receipt) s in
  check map_err DeliveryError_to_string
    (receipt_verify receipt (der_group_id envelope_record) (der_envelope envelope_record)
       authority.1) in
  let* outbox := ok_or (find_first (has_message_id message_id) (st_text_control_outbox s))
    "no text control outbox row for receipt message id"%string in
  check reject_if (bool_decide (ob_expected_route_peer_ids outbox = []))
    "receipt cannot be accepted without an immutable expected route set"%string in
  let* route_peer_id := ok_or authority.2
    "receipt recipient is not bound to an advertised runtime route"%string in
  check reject_if (negb (contains (ob_expected_route_peer_ids outbox) route_peer_id))
    ("receipt recipient route " +:+ route_peer_id
     +:+ " was not an expected route for this message") in
  check reject_if (negb (opt_str_eqb observed_route_peer_id (Some route_peer_id)))
    ("receipt recipient route " +:+ route_peer_id
     +:+ " did not match the observed transport route") in
  check reject_if (negb (contains (ob_sent_route_peer_ids outbox) route_peer_id))
    ("receipt recipient route " +:+ route_peer_id
     +:+ " has no recorded transport handoff for this message") in
  Ok (authority.1, route_peer_id, outbox).

(** The message row after a receipt; [all] when every expected route is settled. *)
Definition receipted_message (all : bool) (view : TextDeliveryReceiptView) (m : MessageView) :
    MessageView :=
  {| m with mv_peer_receipt := Some view;
            mv_status := if all
              then "signed peer delivery receipt verified for every expected encrypted route"
              else "signed peer delivery receipt verified for one encrypted route; remaining group routes are still pending";
            mv_state_key := if all then "peer_receipt" else "transport_frame_sent";
            mv_state_label := if all then "Peer receipt" else "Awaiting peer receipt";
            mv_state_detail := "Signed receipt verified from " +:+ drv_recipient_device_id view
              +:+ " at " +:+ pretty (drv_received_at_ms view) +:+ " for envelope_ciphertext_hash="
              +:+ drv_envelope_ciphertext_hash view |}.

Definition apply_text_delivery_receipt_for_route (message_id : string)
    (receipt : TextDeliveryReceipt) (observed_route_peer_id : option string)
    (s : PersistedAppState) : PersistedAppState * result unit string :=
  match check_receipt message_id receipt observed_route_peer_id s with
  | Err error => (s, Err error)
  | Ok (key, route_peer_id, outbox) =>
      let duplicate := existsb (λ r, (rcr_message_id r =s message_id)
          && (tr_recipient_device_id (rcr_receipt r) =s tr_recipient_device_id receipt))
        (st_text_delivery_receipts s) in
      let s := {| s with st_text_control_outbox :=
        update_first (has_message_id message_id) (settle_route route_peer_id)
          (st_text_control_outbox s) |} in
      let settled := settle_route route_peer_id outbox in
      let all := negb (bool_decide (ob_expected_route_peer_ids settled = []))
                 && all_expected_receipted settled in
      if negb (existsb (has_message message_id) (st_messages s)) then
        (s, Err "no message row for receipt message id"%string)
      else
        let s := {| s with st_messages :=
          update_first (has_message message_id) (receipted_message all (receipt_view key receipt))
            (st_messages s) |} in
        let s := if duplicate then s else
          {| s with st_text_delivery_receipts := st_text_delivery_receipts s ++
               [{| rcr_message_id := message_id;
                   rcr_recipient_verifying_key_hex := hex_encode (vk_to_bytes key);
                   rcr_receipt := receipt |}] |} in
        (push_event
           (if duplicate then "message.receipt_duplicate_ignored" else "message.receipt_verified")
           ("Verified signed peer receipt for " +:+ redacted_message_ref message_id) s, Ok tt)
  end.

(** ** Receiving *)

Definition validate_current_remote_group_route_sender (group_id : string) (m : GroupMemberView)
    (s : PersistedAppState) : result unit string :=
  check reject_if (is_member (local_user_id s) m)
    ("Group " +:+ group_id +:+ " route sender " +:+ gm_member_id m
     +:+ " is local, not a remote sender") in
  reject_if ((gm_status m =s "pending") || (gm_status m =s "revoked") || (gm_status m =s "offline"))
    ("Group " +:+ group_id +:+ " route sender " +:+ gm_member_id m
     +:+ " is not currently admitted/online for text route authority (status=" +:+ gm_status m +:+ ")").

Definition validate_group_route_sender (group_id signer_public_key_hex sender_device_id : string)
    (s : PersistedAppState) : result unit string :=
  let* group := ok_or (find_group group_id s)
    ("Group " +:+ group_id +:+ " is missing for route membership check") in
  match find_first (λ m, opt_str_eqb (gm_signer_public_key_hex m) (Some signer_public_key_hex))
          (gv_members group) with
  | Some m => validate_current_remote_group_route_sender group_id m s
  | None =>
      match find_first (is_member sender_device_id) (gv_members group) with
      | Some m => validate_current_remote_group_route_sender group_id m s
      | None => Err ("Group " +:+ group_id +:+ " has no current member " +:+ sender_device_id
                     +:+ " for text/control sender route authority")
      end
  end.

Inductive ReceivedTextRender :=
| Pipeline (state : TextRenderState)
| EnvelopeOnly (reason : string)
| DecryptFailed.

(** Body, status, state key, state label and detail. *)
Definition message_fields (render : ReceivedTextRender) (envelope : TextMessageEnvelope) :
    string * string * string * string * string :=
  let placeholder := "Protected message envelope received (ciphertext_hash="
                     +:+ hex_encode (ciphertext_hash envelope) +:+ ")" in
  match render with
  | Pipeline (Decrypted plaintext) =>
      (from_utf8_lossy plaintext,
       "signed encrypted peer envelope verified and decrypted through TextInboundPipeline using the persisted OpenMLS text exporter",
       "received_plaintext", "Plaintext received",
       "plaintext rendered through TextInboundPipeline")
  | Pipeline (Locked reason) =>
      (placeholder,
       "signed encrypted peer envelope verified, but plaintext is locked: " +:+ reason,
       "received_locked", "Envelope locked",
       "plaintext not rendered because " +:+ reason)
  | EnvelopeOnly reason =>
      (placeholder,
       "signed encrypted peer envelope verified and persisted; plaintext render unavailable: "
         +:+ reason,
       "received_envelope", "Envelope received",
       "plaintext not rendered because " +:+ reason)
  | DecryptFailed =>
      (placeholder,
       "signed encrypted peer envelope verified, but TextInboundPipeline could not decrypt with the persisted OpenMLS exporter; plaintext was not rendered",
       "received_decrypt_failed", "Decrypt failed",
       "plaintext not rendered because exporter-backed decryption failed")
  end%string.

Definition event_label (render : ReceivedTextRender) : string :=
  match render with
  | Pipeline (Decrypted _) => "plaintext_rendered"
  | Pipeline (Locked _) => "plaintext_locked"
  | EnvelopeOnly _ => "envelope_only"
  | DecryptFailed => "decrypt_failed"
  end.

Definition openmls_text_exporter_for_receive (engine : MlsEngine) (target : MessageTargetView)
    (delivery_group_id : string) (s : PersistedAppState) : result (bytes * N) string :=
  check reject_if (negb (mt_kind target =s "channel"))
    "OpenMLS text exporter is only available for persisted group channel membership"%string in
  let* openmls_group_id := ok_or (mt_group_id target)
    "channel target is missing group_id for OpenMLS exporter"%string in
  let* handle := ok_or (find_first (λ r, oh_group_id r =s openmls_group_id) (st_openmls_groups s))
    ("OpenMLS membership/exporter state is unavailable for "
     +:+ redacted_observable_ref "group" openmls_group_id) in
  let* signer_public_key := map_err (λ error, "OpenMLS signer key is not valid hex: " +:+ error)
    (hex_decode (oh_signer_public_key_hex handle)) in
  me_export_text_secret engine handle signer_public_key delivery_group_id.

(** Every envelope of the conversation is replayed into a fresh receive state. *)
Definition text_receive_state_for_delivery_group (delivery_group_id : string)
    (s : PersistedAppState) : TextReceiveState :=
  foldl (λ seen r, (accept seen (der_envelope r)).1) ∅
    (retain (λ r, der_group_id r =s delivery_group_id) (st_text_delivery_envelopes s)).

Record ReceiveTextDeliveryEnvelopeRequest := {
  rr_target : MessageTargetView;
  rr_envelope : TextMessageEnvelope;
  rr_sender_verifying_key_hex : string;
  rr_recipient_leaf : option N
}.

Definition receive_text_plaintext_render (engine : MlsEngine) (clock : datetime)
    (request : ReceiveTextDeliveryEnvelopeRequest) (delivery_group_id : string)
    (sender_key : verifying_key) (s : PersistedAppState) :
    PersistedAppState * result ReceivedTextRender string :=
  match openmls_text_exporter_for_receive engine (rr_target request) delivery_group_id s with
  | Err error => (s, Ok (EnvelopeOnly error))
  | Ok (text_exporter_secret, current_epoch) =>
      let envelope := rr_envelope request in
      let pipeline := {| ip_state := text_receive_state_for_delivery_group delivery_group_id s;
                         ip_store := {| ms_entries := [] |};
                         ip_events := {| mr_events := [] |} |} in
      let outcome := receive clock pipeline
        {| ir_group_id := delivery_group_id;
           ir_channel_id := default (default ""%string (mt_dm_id (rr_target request)))
                              (mt_channel_id (rr_target request));
           ir_current_epoch := current_epoch;
           ir_authorized_sender_leaves := {[te_sender_leaf envelope]};
           ir_envelope := envelope;
           ir_received_at_ms := sat_add u64_max (st_next_sequence s) 1;
           ir_retention_allows_decrypt := true |} text_exporter_secret sender_key in
      match outcome.2 with
      | Ok renderable => (s, Ok (Pipeline (rd_state renderable)))
      | Err TextMessageDecryptionFailed =>
          (push_event "message.envelope_decrypt_failed"
             ("TextInboundPipeline could not decrypt "
              +:+ redacted_message_ref (te_message_id envelope)
              +:+ " with the persisted OpenMLS exporter") s, Ok DecryptFailed)
      | Err error => (s, Err (DeliveryError_to_string error))
      end
  end.

(** The first closure: who sent it, and to which conversation. *)
Definition verify_envelope_sender (request : ReceiveTextDeliveryEnvelopeRequest)
    (s : PersistedAppState) : result (string * verifying_key) string :=
  let* sender_key := ok_or (verifying_key_from_hex (rr_sender_verifying_key_hex request))
    "sender verifying key is invalid"%string in
  let* group_id := text_delivery_group_id (rr_target request) in
  check (if mt_kind (rr_target request) =s "channel" then
      let* openmls_group_id := ok_or (mt_group_id (rr_target request))
        "channel target is missing group_id for route membership check"%string in
      if existsb (is_group openmls_group_id) (st_groups s) then
        validate_group_route_sender openmls_group_id (rr_sender_verifying_key_hex request)
          (te_sender_device_id (rr_envelope request)) s
      else Ok tt
    else Ok tt) in
  check map_err DeliveryError_to_string (envelope_verify (rr_envelope request) group_id sender_key) in
  Ok (group_id, sender_key).

Definition is_receipt_of (message_id recipient_device_id : string)
    (r : TextDeliveryReceiptRecord) : bool :=
  (rcr_message_id r =s message_id)
  && (tr_recipient_device_id (rcr_receipt r) =s recipient_device_id).

(** A message id seen before: the same envelope gets its stored receipt again. *)
Definition reissue_receipt (request : ReceiveTextDeliveryEnvelopeRequest) (group_id : string)
    (existing : TextDeliveryEnvelopeRecord) (s : PersistedAppState) :
    PersistedAppState * result (TextDeliveryReceipt * string) string :=
  let envelope := rr_envelope request in
  if negb (der_group_id existing =s group_id)
     || negb (der_sender_verifying_key_hex existing =s rr_sender_verifying_key_hex request)
     || negb (bool_decide (der_envelope existing = envelope))
  then (s, Err "duplicate text message id did not match the persisted signed envelope"%string)
  else
    let '(s, recipient_signer) := identity_signing_key s in
    let recipient_verifying_key_hex := public_key_hex recipient_signer in
    let checked :=
      let* record := ok_or
        (find_first (is_receipt_of (te_message_id envelope) (local_user_id s))
           (st_text_delivery_receipts s))
        "persisted duplicate text envelope is missing its signed receipt"%string in
      check reject_if (negb (rcr_recipient_verifying_key_hex record =s recipient_verifying_key_hex))
        "persisted duplicate text receipt does not match the local identity"%string in
      check map_err DeliveryError_to_string
        (receipt_verify (rcr_receipt record) group_id envelope (vk_of recipient_signer)) in
      Ok (rcr_receipt record) in
    match checked with
    | Err error => (s, Err error)
    | Ok receipt =>
        (push_event "message.envelope_duplicate_receipt_reissued"
           ("Verified duplicate encrypted peer envelope "
            +:+ redacted_message_ref (te_message_id envelope)
            +:+ " and reissued its persisted signed receipt") s,
         Ok (receipt, recipient_verifying_key_hex))
    end.

(** The row a received envelope is shown as. *)
Definition received_message (request : ReceiveTextDeliveryEnvelopeRequest) (group_id : string)
    (sender_key : verifying_key) (render : ReceivedTextRender) (sequence : N) : MessageView :=
  let envelope := rr_envelope request in
  let '(body, status, state_key, state_label, render_detail) := message_fields render envelope in
  {| mv_message_id := te_message_id envelope;
     mv_target := rr_target request;
     mv_author_id := te_sender_device_id envelope;
     mv_author := "Peer " +:+ key_fingerprint sender_key;
     mv_body := body;
     mv_status := status;
     mv_state_key := state_key;
     mv_state_label := state_label;
     mv_state_detail := "Verified sender=" +:+ key_fingerprint sender_key +:+ " "
       +:+ redacted_message_ref (te_message_id envelope) +:+ " "
       +:+ redacted_observable_ref "group_binding" group_id +:+ "; " +:+ render_detail
       +:+ "; generated signed delivery receipt"
       +:+ (if state_key =s "received_plaintext" then " after OpenMLS exporter decrypt" else "");
     mv_peer_receipt := None;
     mv_sent_at := "remote-" +:+ pretty sequence |}.

(** A new message id: render, sign a receipt, store the envelope, the row and the receipt. *)
Definition store_envelope (engine : MlsEngine) (clock : datetime)
    (request : ReceiveTextDeliveryEnvelopeRequest) (group_id : string)
    (sender_key : verifying_key) (s : PersistedAppState) :
    PersistedAppState * result (TextDeliveryReceipt * string) string :=
  let envelope := rr_envelope request in
  let message_id := te_message_id envelope in
  match receive_text_plaintext_render engine clock request group_id sender_key s with
  | (s, Err error) => (s, Err error)
  | (s, Ok render) =>
      let '(s, recipient_signer) := identity_signing_key s in
      match map_err DeliveryError_to_string
              (receipt_sign group_id
                 {| ri_message_id := message_id;
                    ri_recipient_leaf := default 1 (rr_recipient_leaf request);
                    ri_recipient_device_id := local_user_id s;
                    ri_received_at_ms := sat_add u64_max (st_next_sequence s) 1;
                    ri_envelope_ciphertext_hash := ciphertext_hash envelope |} recipient_signer) with
      | Err error => (s, Err error)
      | Ok receipt =>
          let recipient_verifying_key_hex := public_key_hex recipient_signer in
          let already_seen := existsb (λ r, der_message_id r =s message_id)
                                (st_text_delivery_envelopes s) in
          let s := if already_seen then s else
            {| s with st_text_delivery_envelopes := st_text_delivery_envelopes s ++
                 [{| der_message_id := message_id; der_group_id := group_id;
                     der_sender_verifying_key_hex := rr_sender_verifying_key_hex request;
                     der_envelope := envelope |}] |} in
          let s := if existsb (has_message message_id) (st_messages s) then s else
            {| s with st_next_sequence := sat_add u64_max (st_next_sequence s) 1;
                      st_messages := st_messages s ++
                        [received_message request group_id sender_key render (st_next_sequence s)] |} in
          let s := if existsb (is_receipt_of message_id (tr_recipient_device_id receipt))
                        (st_text_delivery_receipts s) then s else
            {| s with st_text_delivery_receipts := st_text_delivery_receipts s ++
                 [{| rcr_message_id := message_id;
                     rcr_recipient_verifying_key_hex := recipient_verifying_key_hex;
                     rcr_receipt := receipt |}] |} in
          (push_event
             (if already_seen then "message.envelope_duplicate_ignored"
              else "message.envelope_received")
             ("Verified encrypted peer envelope " +:+ redacted_message_ref message_id
              +:+ " and generated signed receipt (" +:+ event_label render +:+ ")") s,
           Ok (receipt, recipient_verifying_key_hex))
      end
  end.

(** [now] is the reading of the error's timestamp. *)
Definition receive_text_delivery_envelope (engine : MlsEngine) (clock now : datetime)
    (request : ReceiveTextDeliveryEnvelopeRequest) (s : PersistedAppState) :
    PersistedAppState * result (TextDeliveryReceipt * string) string :=
  let outcome :=
    match verify_envelope_sender request s with
    | Err error => (s, Err error)
    | Ok (group_id, sender_key) =>
        match find_first (λ r, der_message_id r =s te_message_id (rr_envelope request))
                (st_text_delivery_envelopes s) with
        | Some existing => reissue_receipt request group_id existing s
        | None => store_envelope engine clock request group_id sender_key s
        end
    end in
  match outcome.2 with
  | Err error =>
      (push_command_error now "message.envelope_rejected" "receive_text_delivery_envelope"
         "text_envelope_verification_failed" error
         "Accept peer delivery only from an envelope whose sender signature and group binding verify"
         outcome.1, Err error)
  | Ok _ => outcome
  end.

(** ** Lemmas *)

Lemma contains_true l x : contains l x = true ↔ x ∈ l.
Proof.
  unfold contains. rewrite existsb_exists. split.
  - intros (y & Hy & E). apply str_eqb_true in E. subst. by apply list_elem_of_In.
  - intros Hx. exists x. split; [by apply list_elem_of_In|apply str_eqb_refl].
Qed.

Lemma retain_contains_subset l k : retain (contains k) l ⊆ k.
Proof. intros x [_ Hx%contains_true]%elem_of_retain. done. Qed.

Lemma retain_subset {A} (keep : A → bool) l : retain keep l ⊆ l.
Proof. intros x [Hx _]%elem_of_retain. done. Qed.

Lemma elem_of_push x l y : y ∈ push_unless_present x l ↔ y = x ∨ y ∈ l.
Proof.
  unfold push_unless_present. destruct (contains l x) eqn:E; [|set_solver].
  apply contains_true in E. set_solver.
Qed.

Lemma all_expected_receipted_spec r :
  all_expected_receipted r = true ↔ ob_expected_route_peer_ids r ⊆ ob_receipted_route_peer_ids r.
Proof.
  unfold all_expected_receipted. rewrite forallb_forall. split.
  - intros Hall x Hx. apply contains_true, Hall. by apply list_elem_of_In.
  - intros Hsub x Hx%list_elem_of_In. by apply contains_true, Hsub.
Qed.

#[local] Arguments all_expected_receipted : simpl never.
#[local] Arguments contains : simpl never.
#[local] Arguments push_unless_present : simpl never.

(** ** The outbox invariant *)

(** Frames only go to expected peers, only receipts of expected peers are kept, and a record is
    settled only when every expected peer, of which there is one, has signed for it. *)
Record record_wf (r : TextControlOutboxRecord) : Prop := {
  wf_routes : ob_route_peer_ids r ⊆ ob_expected_route_peer_ids r;
  wf_sent : ob_sent_route_peer_ids r ⊆ ob_route_peer_ids r;
  wf_receipted : ob_receipted_route_peer_ids r ⊆ ob_expected_route_peer_ids r;
  wf_settled : ob_state_key r = "receipted"%string →
    ob_expected_route_peer_ids r ≠ []
    ∧ ob_expected_route_peer_ids r ⊆ ob_receipted_route_peer_ids r
}.

Definition outbox_wf (s : PersistedAppState) : Prop := Forall record_wf (st_text_control_outbox s).

Lemma refresh_record_sets routes r :
  let r' := refresh_record_routes routes r in
  ob_route_peer_ids r' ⊆ ob_expected_route_peer_ids r'
  ∧ ob_sent_route_peer_ids r' ⊆ ob_route_peer_ids r'
  ∧ ob_receipted_route_peer_ids r' ⊆ ob_expected_route_peer_ids r'
  ∧ ob_state_key r' = ob_state_key r.
Proof. cbn. split_and!; [apply retain_contains_subset..|done]. Qed.

Lemma refreshed_group_wf routes r :
  record_wf (let r := refresh_record_routes routes r in
    {| r with ob_state_key := if negb (bool_decide (ob_expected_route_peer_ids r = []))
         && all_expected_receipted r then "receipted" else "pending" |}).
Proof.
  destruct (refresh_record_sets routes r) as (H1' & H2' & H3' & _). cbv zeta.
  generalize dependent (refresh_record_routes routes r). intros r' ? ? ?. split; [done..|]. cbn.
  destruct (negb _ && _) eqn:E; [|done]. intros _. apply andb_true_iff in E as [E1 E2].
  rewrite negb_true_iff, bool_decide_eq_false in E1. by rewrite <- all_expected_receipted_spec.
Qed.

Lemma refreshed_dm_wf routes r :
  ob_state_key r = "pending"%string → record_wf (refresh_record_routes routes r).
Proof.
  intros Hp. destruct (refresh_record_sets routes r) as (? & ? & ? & E). split; [done..|].
  rewrite E, Hp. done.
Qed.

Lemma cleanup_record_wf current r :
  record_wf r → record_wf (cleanup_record_routes current r).
Proof.
  intros [Hr Hs Hc _]. unfold cleanup_record_routes.
  split; cbn; [|apply retain_contains_subset..|].
  - etrans; [apply retain_subset|done].
  - case_bool_decide as Hne; [done|]. destruct (all_expected_receipted _) eqn:E; [|done].
    intros _. apply all_expected_receipted_spec in E. cbn in E. split; [|done].
    intros He. apply Hne. destruct (retain (contains current) (ob_route_peer_ids r)) as [|x l] eqn:El;
      [done|]. assert (x ∈ ob_expected_route_peer_ids r) as Hx; [|rewrite He in Hx; set_solver].
    apply Hr, (retain_subset (contains current)). rewrite El. set_solver.
Qed.

Lemma pending_record_wf message_id target frame sha :
  record_wf (pending_outbox_record message_id target frame sha).
Proof. by split. Qed.

Lemma hand_over_wf now_ms request r : record_wf r → record_wf (hand_over now_ms request r).1.
Proof.
  intros [Hr Hs Hc Hd]. unfold hand_over. destruct (ms_route_peer_id request) as [p|]; cbn; [|by split].
  destruct (contains (ob_route_peer_ids r) p) eqn:Ep; cbn; [|by split].
  apply contains_true in Ep.
  assert (push_unless_present p (ob_sent_route_peer_ids r) ⊆ ob_route_peer_ids r) as Hp.
  { intros x [->|?]%elem_of_push; [done|by apply Hs]. }
  destruct (forallb _ _ && _); split; cbn; done.
Qed.

Lemma settle_route_wf p r :
  record_wf r → p ∈ ob_expected_route_peer_ids r → record_wf (settle_route p r).
Proof.
  intros [Hr Hs Hc Hd] Hp. unfold settle_route. split; cbn; [done..| |].
  - intros x [->|?]%elem_of_push; [done|by apply Hc].
  - destruct (all_expected_receipted _) eqn:E; [|done]. intros _.
    apply all_expected_receipted_spec in E. cbn in E. split; [|done]. intros He. rewrite He in Hp. set_solver.
Qed.

Lemma Forall_map_if {A} (P : A → Prop) (p : A → bool) (f : A → A) l :
  Forall P l → (∀ x, p x = true → P x → P (f x)) → Forall P (map_if p f l).
Proof.
  intros Hl Hf. unfold map_if. apply Forall_fmap, (Forall_impl _ _ _ Hl). intros x Hx. cbn.
  destruct (p x) eqn:E; auto.
Qed.

Lemma Forall_update_first {A} (P : A → Prop) (p : A → bool) (f : A → A) l :
  Forall P l → (∀ x, find_first p l = Some x → P (f x)) → Forall P (update_first p f l).
Proof.
  intros Hl Hf. destruct (find_first p l) as [x|] eqn:E; [|by rewrite update_first_none].
  destruct (update_first_split p f l x E) as (l1 & l2 & -> & -> & _).
  apply Forall_app in Hl as [? [? ?]%Forall_cons]. apply Forall_app. split; [done|].
  apply Forall_cons. auto.
Qed.

Lemma Forall_retain {A} (P : A → Prop) (keep : A → bool) l : Forall P l → Forall P (retain keep l).
Proof.
  rewrite !Forall_forall. intros Hl x [Hx _]%elem_of_retain. by apply Hl.
Qed.

(** Everything that writes the outbox. *)
Inductive outbox_step (s : PersistedAppState) : PersistedAppState → Prop :=
| OutQueue target event_id frame :
    outbox_step s (queue_provider_control_frame target event_id frame s).1
| OutEnqueue now target message_id frame s' :
    enqueue_text_control_frame now target message_id frame s = Ok s' → outbox_step s s'
| OutRefreshGroup now group_id s' :
    refresh_text_control_outbox_routes_for_group now group_id s = Ok s' → outbox_step s s'
| OutRefreshDm now dm_id s' :
    refresh_text_control_outbox_routes_for_dm now dm_id s = Ok s' → outbox_step s s'
| OutCleanup target current :
    outbox_step s (cleanup_text_control_outbox_routes_for_target target current s).1
| OutSent now_ms request : outbox_step s (mark_text_control_frame_sent now_ms request s).1
| OutReceipt message_id receipt observed :
    outbox_step s (apply_text_delivery_receipt_for_route message_id receipt observed s).1.

Lemma check_receipt_ok message_id receipt observed s key p outbox :
  check_receipt message_id receipt observed s = Ok (key, p, outbox) →
  find_first (has_message_id message_id) (st_text_control_outbox s) = Some outbox
  ∧ p ∈ ob_expected_route_peer_ids outbox ∧ p ∈ ob_sent_route_peer_ids outbox
  ∧ observed = Some p
  ∧ ∃ r, find_first (λ r, der_message_id r =s message_id) (st_text_delivery_envelopes s) = Some r
    ∧ receipt_recipient_authority (der_group_id r) (tr_recipient_device_id receipt) s = Ok (key, Some p)
    ∧ receipt_verify receipt (der_group_id r) (der_envelope r) key = Ok tt.
Proof.
  unfold check_receipt. intros R. gov R as r Hr. gov R as auth Ha. gov R as [] Hv.
  gov R as o Ho. gov R as ? He. gov R as q Hq. gov R as ? Hexp. gov R as ? Hobs. gov R as ? Hsent.
  injection R as <- <- <-. apply ok_or_ok in Hr, Ho, Hq.
  apply reject_if_ok, negb_false_iff, contains_true in Hexp.
  apply reject_if_ok, negb_false_iff, contains_true in Hsent.
  apply reject_if_ok, negb_false_iff, bool_decide_eq_true in Hobs.
  split_and!; [done..|]. exists r. destruct auth as [k w]. cbn in *. by subst w.
Qed.

Lemma outbox_step_wf s s' : outbox_wf s → outbox_step s s' → outbox_wf s'.
Proof.
  unfold outbox_wf. intros Hwf [target event_id frame|now target message_id frame s1 R
    |now group_id s1 R|now dm_id s1 R|target current|now_ms request|message_id receipt observed].
  - unfold queue_provider_control_frame. destruct (negb _); [done|].
    destruct (text_control_frame_sha256 frame); [|done]. destruct (existsb _ _); [done|]. cbn.
    apply Forall_app. split; [by apply Forall_retain|]. apply Forall_singleton, pending_record_wf.
  - unfold enqueue_text_control_frame in R. gov R as sha _. gov R as routes _.
    destruct (existsb _ _); injection R as <-; cbn.
    + apply Forall_update_first; [done|]. intros r _. split; cbn;
        [done|apply retain_contains_subset..|done].
    + apply Forall_app. split; [done|]. apply Forall_singleton. split; cbn; [done|set_solver..|done].
  - unfold refresh_text_control_outbox_routes_for_group in R. gov R as routes _. injection R as <-. cbn.
    apply Forall_map_if; [done|]. intros r _ _. apply refreshed_group_wf.
  - unfold refresh_text_control_outbox_routes_for_dm in R. gov R as routes _. injection R as <-. cbn.
    apply Forall_map_if; [done|]. intros r Hr _. rewrite !andb_true_iff, !str_eqb_true in Hr.
    apply refreshed_dm_wf. by destruct Hr as [[[? _] _] _].
  - cbn. apply Forall_map_if; [done|]. intros r _. apply cleanup_record_wf.
  - unfold mark_text_control_frame_sent. destruct (find_first _ _) as [o|]; [|done].
    destruct (negb _); [done|]. destruct (hand_over now_ms request o).2; cbn;
      (apply Forall_update_first; [done|]; intros r [Hr _]%find_first_some;
       apply hand_over_wf; by eapply Forall_forall in Hwf).
  - unfold apply_text_delivery_receipt_for_route.
    destruct (check_receipt _ _ _ _) as [[[key p] o]|] eqn:Hc; [|done].
    apply check_receipt_ok in Hc as (Ho & Hp & _).
    destruct (negb _); [|destruct (existsb (λ r, (rcr_message_id r =s _) && _) _)]; cbn;
      (apply Forall_update_first; [done|]; intros r Hr; simplify_eq;
       apply settle_route_wf; [|done]; apply find_first_some in Ho as [Ho _];
       by eapply Forall_forall in Hwf).
Qed.

(** C14. The outbox stays coherent: after any sequence of queueing, route refreshes, cleanups,
    handovers and receipts, every record is sent only to expected peers, keeps receipts of
    expected peers only, and counts as receipted only when every one of its expected peers,
    of which there is at least one, has signed. *)
Theorem outbox_stays_coherent s s' :
  outbox_wf s → rtc outbox_step s s' → outbox_wf s'.
Proof. intros Hwf Hstep. induction Hstep; eauto using outbox_step_wf. Qed.


(** ** Receiving *)

Lemma verify_envelope_sender_ext request s t :
  st_groups t = st_groups s → local_user_id t = local_user_id s →
  verify_envelope_sender request t = verify_envelope_sender request s.
Proof.
  intros Hg Hl. unfold verify_envelope_sender, validate_group_route_sender,
    validate_current_remote_group_route_sender, find_group. by rewrite Hg, Hl.
Qed.

Lemma find_first_app_new {A} (p : A → bool) l x :
  find_first p l = None → p x = true → find_first p (l ++ [x]) = Some x.
Proof.
  intros Hn Hx. induction l as [|y l IH]; simpl in *; [by rewrite Hx|].
  destruct (p y); [done|auto].
Qed.

(** What rendering leaves alone. *)
Lemma render_frame engine clock request group_id key s s' r :
  receive_text_plaintext_render engine clock request group_id key s = (s', r) →
  s' = {| s with st_events := st_events s'; st_next_sequence := st_next_sequence s' |}.
Proof.
  unfold receive_text_plaintext_render.
  destruct (openmls_text_exporter_for_receive _ _ _ _) as [[secret epoch]|]; [|by intros [= <- _]; destruct s].
  destruct (_.2) as [|[]]; intros [= <- _]; by destruct s.
Qed.

Lemma receipt_sign_device group_id input k r :
  receipt_sign group_id input k = Ok r → tr_recipient_device_id r = ri_recipient_device_id input.
Proof.
  unfold receipt_sign. intros R. apply rbind_ok in R as (c & _ & R).
  apply rbind_ok in R as (? & _ & R). by injection R as <-.
Qed.

Context `{!Sha256Laws, !Sha256Octets, !HexLaws, !Ed25519Laws}.

(** The state after a first arrival. *)
Lemma store_envelope_ok engine clock request group_id key s s1 receipt key_hex :
  store_envelope engine clock request group_id key s = (s1, Ok (receipt, key_hex)) →
  find_first (λ r, der_message_id r =s te_message_id (rr_envelope request))
    (st_text_delivery_envelopes s) = None →
  existsb (is_receipt_of (te_message_id (rr_envelope request)) (local_user_id s))
    (st_text_delivery_receipts s) = false →
  ∃ s0 k input, identity_signing_key s0 = (s0, k) ∧ st_identity_seed_hex s1 = st_identity_seed_hex s0
    ∧ key_hex = public_key_hex k ∧ receipt_sign group_id input k = Ok receipt
    ∧ ri_message_id input = te_message_id (rr_envelope request)
    ∧ ri_envelope_ciphertext_hash input = ciphertext_hash (rr_envelope request)
    ∧ tr_recipient_device_id receipt = local_user_id s
    ∧ st_groups s1 = st_groups s ∧ local_user_id s1 = local_user_id s
    ∧ st_text_delivery_envelopes s1 = st_text_delivery_envelopes s ++
        [{| der_message_id := te_message_id (rr_envelope request); der_group_id := group_id;
            der_sender_verifying_key_hex := rr_sender_verifying_key_hex request;
            der_envelope := rr_envelope request |}]
    ∧ st_text_delivery_receipts s1 = st_text_delivery_receipts s ++
        [{| rcr_message_id := te_message_id (rr_envelope request);
            rcr_recipient_verifying_key_hex := key_hex; rcr_receipt := receipt |}].
Proof.
  unfold store_envelope. intros R Henv Hrec.
  destruct (receive_text_plaintext_render _ _ _ _ _ _) as [sr [render|]] eqn:Hr; [|done].
  apply render_frame in Hr. destruct (identity_signing_key sr) as [s0 k] eqn:Hk.
  destruct (map_err _ _) as [rc|] eqn:Hs in R; [|done]. apply map_err_ok in Hs.
  pose proof (identity_key_seed _ _ _ Hk) as Hsr. rewrite Hr in Hsr.
  assert (st_groups s0 = st_groups s ∧ local_user_id s0 = local_user_id s
    ∧ st_text_delivery_envelopes s0 = st_text_delivery_envelopes s
    ∧ st_text_delivery_receipts s0 = st_text_delivery_receipts s) as (Eg & El & Ee & Ec).
  { split_and!; [apply (f_equal st_groups) in Hsr|apply (f_equal local_user_id) in Hsr
      |apply (f_equal st_text_delivery_envelopes) in Hsr
      |apply (f_equal st_text_delivery_receipts) in Hsr]; exact Hsr. }
  pose proof (receipt_sign_device _ _ _ _ Hs) as Hdev. cbn in Hdev.
  rewrite find_first_none in Henv. rewrite Ee, Henv in R.
  assert (existsb (is_receipt_of (te_message_id (rr_envelope request)) (tr_recipient_device_id rc))
            (st_text_delivery_receipts s0) = false) as Hrec' by (by rewrite Hdev, El, Ec).
  exists s0, k. eexists. split; [by apply (identity_key_settles sr s0 k s0 Hk)|].
  destruct (existsb (has_message _) _) in R; cbn [st_text_delivery_receipts] in R;
    rewrite Hrec' in R; injection R as <- <- <-; cbn -[public_key_hex receipt_sign];
    rewrite ?Ee, ?Ec, ?Eg; (split_and!; [done..|exact Hs|done|done|by rewrite Hdev, El|done|exact El|done|done]).
Qed.

(** A retransmitted message is answered with its first receipt: after a message was
    received for the first time, receiving the same envelope again returns the very receipt it
    was given, and adds no message, envelope or receipt. *)
Theorem retransmission_gets_the_same_receipt engine engine' clock clock' now now' request s s1
    receipt key_hex :
  find_first (λ r, der_message_id r =s te_message_id (rr_envelope request))
    (st_text_delivery_envelopes s) = None →
  existsb (is_receipt_of (te_message_id (rr_envelope request)) (local_user_id s))
    (st_text_delivery_receipts s) = false →
  receive_text_delivery_envelope engine clock now request s = (s1, Ok (receipt, key_hex)) →
  ∃ s2, receive_text_delivery_envelope engine' clock' now' request s1 = (s2, Ok (receipt, key_hex))
    ∧ st_messages s2 = st_messages s1
    ∧ st_text_delivery_envelopes s2 = st_text_delivery_envelopes s1
    ∧ st_text_delivery_receipts s2 = st_text_delivery_receipts s1.
Proof.
  intros Henv Hrec. unfold receive_text_delivery_envelope.
  destruct (verify_envelope_sender request s) as [[group_id key]|] eqn:Hv; [|done].
  rewrite Henv. destruct (store_envelope engine clock request group_id key s) as [s' [[rc kh]|]] eqn:Hs;
    [|done]. intros [= -> -> ->].
  destruct (store_envelope_ok _ _ _ _ _ _ _ _ _ Hs Henv Hrec)
    as (s0 & k & input & Hk & Hseed & -> & Hsign & Hid & Hhash & Hdev & Hg & Hl & He & Hr).
  rewrite (verify_envelope_sender_ext request s s1), Hv by done. rewrite He.
  rewrite find_first_app_new by (try done; cbn; apply str_eqb_refl).
  unfold reissue_receipt. cbn [der_group_id der_sender_verifying_key_hex der_envelope].
  rewrite !str_eqb_refl, bool_decide_eq_true_2 by done. cbn [negb orb].
  rewrite (identity_key_settles s0 s0 k s1 Hk Hseed). rewrite Hr, Hl.
  rewrite find_first_app_new; [|by apply find_first_none|].
  2:{ unfold is_receipt_of. cbn. by rewrite Hdev, !str_eqb_refl. }
  cbn [ok_or rbind rcr_recipient_verifying_key_hex rcr_receipt]. rewrite str_eqb_refl.
  cbn [negb reject_if rbind]. rewrite (receipt_sign_verify _ _ _ _ _ Hsign Hid Hhash). cbn.
  eexists. split; [done|]. cbn. done.
Qed.

(** A key outside the roster passes as a member: the sender check of a group message falls
    back on the sender name inside the envelope, so for every active remote member, any key
    that no row of the roster holds is accepted when the envelope names that member. *)
Theorem unlisted_key_passes_as_a_member gid g m key s :
  find_group gid s = Some g → find_first (is_member (gm_member_id m)) (gv_members g) = Some m →
  gm_member_id m ≠ local_user_id s →
  gm_status m ∉ ["pending"; "revoked"; "offline"]%string →
  (∀ n, n ∈ gv_members g → gm_signer_public_key_hex n ≠ Some key) →
  validate_group_route_sender gid key (gm_member_id m) s = Ok tt.
Proof.
  intros Hg Hm Hl Hst Hkey. unfold validate_group_route_sender. rewrite Hg. cbn.
  destruct (find_first (λ n, opt_str_eqb (gm_signer_public_key_hex n) (Some key)) (gv_members g))
    as [n|] eqn:Hn.
  { apply find_first_some in Hn as [Hn E%bool_decide_eq_true]. by destruct (Hkey n Hn). }
  rewrite Hm. unfold validate_current_remote_group_route_sender, is_member.
  rewrite (proj2 (str_eqb_false _ _) Hl). cbn. unfold reject_if.
  rewrite !(proj2 (str_eqb_false _ _)) by set_solver. done.
Qed.

(** *** Provider frames *)

(** A control frame goes to the provider once: once it was handed over on the provider
    plane, no later selection on that plane offers it again, however long it stays without an
    answer, so its retry delays never apply. *)
Theorem provider_frames_are_offered_once now_ms request s s' now ms lp plane wait :
  NoDup (ob_message_id <$> st_text_control_outbox s) →
  ms_route_peer_id request = None →
  mark_text_control_frame_sent now_ms request s = (s', Ok tt) →
  ∀ r, r ∈ frames_to_send now ms lp None plane wait s' → ob_message_id r ≠ ms_message_id request.
Proof.
  intros Hnd Hroute Hmark r Hr.
  assert (Hin : r ∈ st_text_control_outbox s' ∧ ob_state_key r = "pending"%string).
  { unfold frames_to_send in Hr. apply elem_of_app in Hr as [Hr|Hr];
      apply elem_of_take in Hr as (i & Hr%list_elem_of_lookup_2 & _);
      apply elem_of_sort_by, elem_of_retain in Hr as [[Hr Hd]%elem_of_retain _];
      (split; [done|]); unfold due_on_route in Hd; rewrite !andb_true_iff, !str_eqb_true in Hd;
      naive_solver. }
  destruct Hin as [Hin Hst]. unfold mark_text_control_frame_sent in Hmark.
  destruct (find_first _ _) as [o|] eqn:Ho; [|done]. destruct (negb _); [done|].
  assert ((hand_over now_ms request o).2 = Ok tt) as Hok by (unfold hand_over; by rewrite Hroute).
  rewrite Hok in Hmark. injection Hmark as <-. cbn in Hin.
  intros E. destruct (update_first_split _ (λ r, (hand_over now_ms request r).1) _ _ Ho)
    as (l1 & l2 & El & Eu & Hl1 & Hpo). rewrite Eu in Hin. rewrite El in Hnd.
  apply str_eqb_true in Hpo. rewrite fmap_app in Hnd. csimpl in Hnd.
  apply NoDup_app in Hnd as (_ & Hd & [Hn2 _]%NoDup_cons).
  apply elem_of_app in Hin as [Hin|[->|Hin]%elem_of_cons].
  - apply (Hd (ob_message_id r)); [apply list_elem_of_fmap; by exists r|]. rewrite E, Hpo. set_solver.
  - unfold hand_over in Hst. rewrite Hroute in Hst. done.
  - apply Hn2. rewrite Hpo, <- E. apply list_elem_of_fmap. by exists r.
Qed.

End delivery.

(** ** Concrete deliveries *)

Module DeliveryToy.

#[local] Existing Instance Toy.toy_sha.
#[local] Existing Instance Toy.toy_ed.
#[local] Existing Instance Toy.toy_hex.
#[local] Existing Instance Toy.toy_aead.
#[local] Existing Instance Toy.toy_chrono.
#[local] Existing Instance Toy.toy_rfc3339.
#[local] Existing Instance DeskToy.toy_seed.
#[local] Existing Instance DeskToy.toy_json.
#[local] Existing Instance DeskToy.toy_texts.

(** An engine whose store holds nothing. *)
Definition empty_engine : MlsEngine := {|
  me_store_path := "store";
  me_generate_member_package _ := Err "no provider"%string;
  me_add_member_package _ _ _ _ := Err "no group"%string;
  me_remove_member _ _ _ := Err "no group"%string;
  me_public_commit_confirmation_tag_sha256 _ := Ok None;
  me_apply_external_remove_commit _ _ _ _ _ := Err "no group"%string;
  me_join_from_welcome _ _ _ := Err "no package"%string;
  me_export_text_secret _ _ _ := Err "no group"%string
|}.

Definition lobby_target : MessageTargetView := {|
  mt_kind := "channel"; mt_dm_id := None; mt_group_id := Some "crew"%string;
  mt_channel_id := Some "lobby"%string
|}.

Definition crew_lobby : string := "group:crew:channel:lobby".

(** Alice's signed message to the lobby, and Bob's receipt for it. *)
Definition hello : TextMessageEnvelope := GroupToy.unwrap an_envelope
  (envelope_sign crew_lobby
     {| ti_epoch := 3; ti_sender_leaf := 0; ti_sender_device_id := "user-alice"; ti_sequence := 1;
        ti_message_id := "m1"; ti_retention := a_retention; ti_content_ciphertext := [1; 2] |}
     Toy.alice).

Definition bobs_receipt : TextDeliveryReceipt := GroupToy.unwrap a_receipt
  (receipt_sign crew_lobby
     {| ri_message_id := "m1"; ri_recipient_leaf := 1; ri_recipient_device_id := "user-bob";
        ri_received_at_ms := 8; ri_envelope_ciphertext_hash := ciphertext_hash hello |} Toy.bob).

Definition sent_record : TextControlOutboxRecord := {|
  ob_message_id := "m1"; ob_target := lobby_target;
  ob_frame := Envelope lobby_target hello GroupToy.alice_key None; ob_frame_sha256 := "h";
  ob_attempts := 1; ob_last_attempted_at_ms := Some 1; ob_state_key := "sent";
  ob_last_transport_session_id := None; ob_route_peer_ids := ["peer-b"%string];
  ob_expected_route_peer_ids := ["peer-b"%string]; ob_sent_route_peer_ids := ["peer-b"%string];
  ob_receipted_route_peer_ids := []
|}.

Definition sent_message : MessageView := {|
  mv_message_id := "m1"; mv_target := lobby_target; mv_author_id := "user-alice";
  mv_author := "Alice"; mv_body := "hello"; mv_status := ""; mv_state_key := "transport_frame_sent";
  mv_state_label := ""; mv_state_detail := ""; mv_peer_receipt := None; mv_sent_at := ""
|}.

(** Alice after handing the message over. *)
Definition alice_sent : PersistedAppState :=
  {| GroupToy.alice with
     st_messages := [sent_message];
     st_text_delivery_envelopes := [{| der_message_id := "m1"; der_group_id := crew_lobby;
       der_sender_verifying_key_hex := GroupToy.alice_key; der_envelope := hello |}];
     st_text_control_outbox := [sent_record] |}.

Notation receipted :=
  (apply_text_delivery_receipt_for_route "m1" bobs_receipt (Some "peer-b"%string) alice_sent).

Definition arrival : ReceiveTextDeliveryEnvelopeRequest := {|
  rr_target := lobby_target; rr_envelope := hello;
  rr_sender_verifying_key_hex := GroupToy.alice_key; rr_recipient_leaf := None
|}.

Notation received :=
  (receive_text_delivery_envelope empty_engine (GroupToy.instant 1) (GroupToy.instant 1) arrival
    GroupToy.bob).

Definition queued : PersistedAppState :=
  (queue_group_governance_frame "crew" "e1" (GroupGovernanceAck "crew" "e0" "user-alice" "ok" "t")
     GroupToy.alice).1.

Definition handed : MarkTextControlFrameSentRequest := {|
  ms_message_id := "e1";
  ms_frame_sha256 := from_option ob_frame_sha256 ""%string (head (st_text_control_outbox queued));
  ms_transport_session_id := None; ms_route_peer_id := None
|}.

End DeliveryToy.

Section witnesses.
#[local] Existing Instance Toy.toy_sha.
#[local] Existing Instance Toy.toy_sha_laws.
#[local] Existing Instance Toy.toy_sha_octets.
#[local] Existing Instance Toy.toy_ed.
#[local] Existing Instance Toy.toy_ed_laws.
#[local] Existing Instance Toy.toy_hex.
#[local] Existing Instance Toy.toy_hex_laws.
#[local] Existing Instance Toy.toy_aead.
#[local] Existing Instance Toy.toy_chrono.
#[local] Existing Instance Toy.toy_rfc3339.
#[local] Existing Instance DeskToy.toy_seed.
#[local] Existing Instance DeskToy.toy_json.
#[local] Existing Instance DeskToy.toy_texts.

Lemma outbox_stays_coherent_witness : outbox_wf DeliveryToy.queued.
Proof.
  apply (outbox_stays_coherent GroupToy.alice DeliveryToy.queued); [constructor|].
  apply rtc_once. apply OutQueue.
Defined.


Lemma retransmission_gets_the_same_receipt_witness :
  ∃ s2 receipt key_hex,
    receive_text_delivery_envelope DeliveryToy.empty_engine (GroupToy.instant 2) (GroupToy.instant 2)
      DeliveryToy.arrival DeliveryToy.received.1 = (s2, Ok (receipt, key_hex))
    ∧ st_messages s2 = st_messages DeliveryToy.received.1.
Proof.
  destruct DeliveryToy.received.2 as [[receipt key_hex]|error] eqn:E;
    [|vm_compute in E; discriminate E].
  destruct (retransmission_gets_the_same_receipt DeliveryToy.empty_engine DeliveryToy.empty_engine
    (GroupToy.instant 1) (GroupToy.instant 2) (GroupToy.instant 1) (GroupToy.instant 2)
    DeliveryToy.arrival GroupToy.bob DeliveryToy.received.1 receipt key_hex) as (s2 & H1 & H2 & _).
  - reflexivity.
  - reflexivity.
  - rewrite <- E. apply surjective_pairing.
  - exists s2, receipt, key_hex. split; assumption.
Defined.

Lemma unlisted_key_passes_as_a_member_witness :
  validate_group_route_sender "crew" "not-on-the-roster" "user-bob" GroupToy.alice = Ok tt.
Proof.
  apply (unlisted_key_passes_as_a_member "crew" (GroupToy.crew 2 [GroupToy.lobby])
    (GroupToy.row "user-bob" GroupToy.bob_key RoleMember (Some "peer-b"%string))
    "not-on-the-roster" GroupToy.alice); [reflexivity|reflexivity|discriminate|cbn; set_solver|].
  intros n [->|[->|[]%elem_of_nil]%elem_of_cons]%elem_of_cons E; vm_compute in E; discriminate E.
Defined.

Lemma provider_frames_are_offered_once_witness :
  ∀ r, r ∈ frames_to_send (GroupToy.instant 9) 9 {| lp_target := None; lp_limit := None;
      lp_operation_timeout_ms := None |} None ProviderControl false
      (mark_text_control_frame_sent 5 DeliveryToy.handed DeliveryToy.queued).1 →
    ob_message_id r ≠ "e1"%string.
Proof.
  apply (provider_frames_are_offered_once 5 DeliveryToy.handed DeliveryToy.queued).
  - vm_compute. constructor; [apply not_elem_of_nil|constructor].
  - reflexivity.
  - rewrite (surjective_pairing (mark_text_control_frame_sent _ _ _)) at 1.
    by f_equal.
Defined.

End witnesses.
