(* ===== verification/DeskAdmission.v ===== *)
(** * Desktop application: admission to a group
    (apps/desktop/src-tauri/src/lib.rs)

    Requests and decisions, the Welcome the host builds for an admitted joiner, the join on the
    other side, removal commits, and the branches of [handle_text_control_frame_for_route] that
    serve them. Within one operation every [Utc::now()] reads the instant [now]; commands are
    modelled for states that have a profile ([ensure_ready_profile] leaves those alone). *)

From S2P Require Import Prelude Collections Bytes StrOps Crypto Transport RouteGraph Identity DeliveryError TextEnvelope TextSend TextReceive AppService DeskState DeskGroups DeskDelivery.

Definition is_request (request_id : string) (r : GroupAdmissionRequestView) : bool :=
  ar_request_id r =s request_id.

Definition update_request (request_id : string)
    (f : GroupAdmissionRequestView → GroupAdmissionRequestView) (g : GroupView) : GroupView :=
  {| g with gv_admission_requests :=
       update_first (is_request request_id) f (gv_admission_requests g) |}.

Inductive AdmissionDecisionApplyStatus := Applied | Duplicate | Superseded.

#[export] Instance AdmissionDecisionApplyStatus_eq_dec : EqDecision AdmissionDecisionApplyStatus.
Proof. solve_decision. Defined.

Definition is_pending_or_revoked (m : GroupMemberView) : bool :=
  (gm_status m =s "pending") || (gm_status m =s "revoked").

Definition is_hex_digit (c : N) : bool :=
  ((48 <=? c) && (c <=? 57)) || ((65 <=? c) && (c <=? 70)) || ((97 <=? c) && (c <=? 102)).

(** A new roster row, as an admission writes it. *)
Definition admitted_member `{Sha256, Hex} (member_id : string) (role : GroupRoleView)
    (signer_public_key_hex : string) (runtime_peer_id : option string) (joined_at : string) :
    GroupMemberView := {|
  gm_member_id := member_id;
  gm_display_name := redacted_observable_ref "member" member_id;
  gm_device_id := None;
  gm_role := role;
  gm_status := "unknown";
  gm_signer_public_key_hex := Some signer_public_key_hex;
  gm_runtime_peer_id := runtime_peer_id;
  gm_joined_at := joined_at;
  gm_last_seen_at := None;
  gm_presence_expires_at := None;
  gm_revoked_at := None;
  gm_revoked_by := None;
  gm_route_evidence := None
|}.

Record OpenMlsMemberRemoval := {
  omr_commit_bytes : bytes;
  omr_epoch : N;
  omr_confirmation_tag_sha256 : string;
  omr_status_copy : string
}.

(** [let Ok(x) = … else { continue }] *)
Definition ok_value {A E} (m : result A E) : option A :=
  match m with Ok x => Some x | Err _ => None end.

Section admission.
Context `{Sha256, Ed25519, Hex, Aes256Gcm, Chrono, !Rfc3339, !SigningSeed, !FrameJson, !ErrorTexts}.

(** ** Who may decide *)

Definition local_actor_can_decide_group_admission (group_id : string) (s : PersistedAppState) :
    result unit string :=
  let* group := ok_or (find_group group_id s) "Group does not exist"%string in
  let* member := ok_or (find_first (is_member (local_user_id s)) (gv_members group))
    "Local member is not in this group roster; refusing role fallback"%string in
  check reject_if (is_pending_or_revoked member)
    "Pending or revoked members cannot decide admission requests"%string in
  match gm_role member with
  | RoleOwner | RoleStaff => Ok tt
  | RoleMember => Err "Only owner or staff can decide admission requests"%string
  end.

Definition local_online_admission_authority (now : datetime) (group_id : string)
    (s : PersistedAppState) : result string string :=
  let local_member_id := local_user_id s in
  let* group := ok_or (find_group group_id s) "Group does not exist"%string in
  let* member := ok_or (find_first (is_member local_member_id) (gv_members group))
    "Local member is not in this group roster"%string in
  check reject_if (negb (can_manage_members (gm_role member)))
    "Only owner or staff can auto-approve admission requests"%string in
  check reject_if (is_pending_or_revoked member)
    "Pending or revoked members cannot auto-approve admission requests"%string in
  check reject_if (negb (gm_status member =s "online"))
    "Automatic admission requires an online owner or staff heartbeat"%string in
  let* expires_at := ok_or (value ← gm_presence_expires_at member; dt_parse_rfc3339 value)
    "Automatic admission requires a non-expired owner/staff presence heartbeat"%string in
  check reject_if (dt_le expires_at now)
    "Automatic admission owner/staff presence heartbeat expired"%string in
  Ok local_member_id.

(** ** Requests *)

Definition pending_request (now : datetime) (request_id group_id member_identity
    signer_public_key_hex identity_signer_public_key_hex : string) (key_package : bytes)
    (policy : GroupRolePolicyView) : GroupAdmissionRequestView := {|
  ar_request_id := request_id;
  ar_group_id := group_id;
  ar_invite_id := None;
  ar_display_name := member_identity;
  ar_device_name := None;
  ar_member_identity := member_identity;
  ar_signer_public_key_hex := signer_public_key_hex;
  ar_identity_signer_public_key_hex := identity_signer_public_key_hex;
  ar_key_package := key_package;
  ar_status := "pending";
  ar_requested_at := dt_to_rfc3339 now;
  ar_decided_by := None;
  ar_decided_at := None;
  ar_decision_reason := None;
  ar_policy_epoch_at_request := rp_policy_epoch policy;
  ar_admission_mode_at_request := Some (rp_admission_mode policy)
|}.

Definition upsert_pending_group_admission_request (now : datetime) (group_id member_identity
    signer_public_key_hex identity_signer_public_key_hex : string) (key_package : bytes)
    (s : PersistedAppState) : result (PersistedAppState * string) string :=
  let* group := ok_or (find_group group_id s)
    ("Group " +:+ group_id +:+ " does not exist for admission request") in
  let request_id := admission_request_id group_id member_identity signer_public_key_hex in
  if existsb (is_request request_id) (gv_admission_requests group) then
    Ok (update_group group_id (update_request request_id (λ existing,
          if ar_status existing =s "pending" then
            {| existing with ar_key_package := key_package;
                 ar_identity_signer_public_key_hex := identity_signer_public_key_hex |}
          else existing)) s, request_id)
  else
    let entry := {|
      gl_event_id := stable_id "governance" (group_id +:+ ":" +:+ request_id +:+ ":pending")
                       (st_next_sequence s);
      gl_group_id := group_id;
      gl_event_kind := "admission_request_pending";
      gl_actor_member_id := member_identity;
      gl_target_member_id := None;
      gl_request_id := Some request_id;
      gl_role_before := None;
      gl_role_after := None;
      gl_created_at := dt_to_rfc3339 now;
      gl_summary := "Persisted invite-derived admission request awaiting owner/staff decision" |} in
    let s := update_group group_id (λ g,
      log_governance entry
        {| g with gv_admission_requests := gv_admission_requests g ++
             [pending_request now request_id group_id member_identity signer_public_key_hex
                identity_signer_public_key_hex key_package (gv_role_policy g)] |}) s in
    Ok (push_event "group.admission_request_pending"
          ("Queued pending admission request for " +:+ redacted_observable_ref "group" group_id) s,
        request_id).

(** ** Decisions *)

Definition decided_status (approved : bool) : string := if approved then "approved" else "refused".

Definition decision_entry (event_id group_id event_kind decided_by request_id : string)
    (role_after : option GroupRoleView) (decided_at summary : string) :
    GroupGovernanceLogEntryView := {|
  gl_event_id := event_id;
  gl_group_id := group_id;
  gl_event_kind := event_kind;
  gl_actor_member_id := decided_by;
  gl_target_member_id := None;
  gl_request_id := Some request_id;
  gl_role_before := None;
  gl_role_after := role_after;
  gl_created_at := decided_at;
  gl_summary := summary
|}.

Definition log_once (entry : GroupGovernanceLogEntryView) (g : GroupView) : GroupView :=
  if has_event (gl_event_id entry) g then g else log_governance entry g.

Definition decide_request (approved : bool) (decided_by decided_at : string)
    (reason : option string) (r : GroupAdmissionRequestView) : GroupAdmissionRequestView :=
  {| r with ar_status := decided_status approved;
            ar_decided_by := Some decided_by;
            ar_decided_at := Some decided_at;
            ar_decision_reason := reason |}.

Definition mark_group_admission_decision (group_id request_id : string) (approved : bool)
    (decided_by decided_at : string) (reason : option string) (s : PersistedAppState) :
    result (PersistedAppState * AdmissionDecisionApplyStatus) string :=
  let* group := ok_or (find_group group_id s)
    "Group does not exist for admission decision"%string in
  let* request := ok_or (find_first (is_request request_id) (gv_admission_requests group))
    "Admission request does not exist"%string in
  let status := decided_status approved in
  if negb (ar_status request =s "pending") then
    if (ar_status request =s status)
       && opt_str_eqb (ar_decided_by request) (Some decided_by)
       && opt_str_eqb (ar_decided_at request) (Some decided_at)
       && opt_str_eqb (ar_decision_reason request) reason
    then Ok (s, Duplicate)
    else
      let entry := decision_entry
        (admission_decision_superseded_event_id group_id request_id status decided_by decided_at)
        group_id "admission_request_decision_superseded" decided_by request_id None decided_at
        ("Ignored " +:+ status +:+ " admission decision because request was already "
         +:+ ar_status request) in
      Ok (update_group group_id (log_once entry) s, Superseded)
  else
    let entry := decision_entry
      (admission_decision_event_id group_id request_id status decided_by decided_at)
      group_id (if approved then "admission_request_approved" else "admission_request_refused")
      decided_by request_id (if approved then Some RoleMember else None) decided_at
      (default (if approved then "Approved pending invite admission request"
                else "Refused pending invite admission request")%string reason) in
    Ok (update_group group_id (λ g,
          log_once entry
            (update_request request_id (decide_request approved decided_by decided_at reason) g)) s,
        Applied).

(** ** The roster row of an admitted member *)

Definition readmitted_member (signer_public_key_hex : string) (runtime_peer_id : option string)
    (m : GroupMemberView) : GroupMemberView :=
  {| m with gm_role := RoleMember;
            gm_signer_public_key_hex := Some signer_public_key_hex;
            gm_status := "unknown";
            gm_revoked_at := None;
            gm_revoked_by := None;
            gm_runtime_peer_id := match runtime_peer_id with
                                  | Some peer_id => Some peer_id
                                  | None => gm_runtime_peer_id m end |}.

Definition advertise (now : datetime) (local_member_id : string) (g : GroupView) : GroupView :=
  {| g with gv_runtime_peers := advertised_group_runtime_peers now (gv_members g) local_member_id |}.

(** What an admission does to its group. *)
Definition admit_member (now : datetime) (group_id member_identity signer_public_key_hex
    actor_member_id : string) (local_runtime_peer_id : option string) (sequence : N)
    (g : GroupView) : GroupView :=
  if existsb (is_member member_identity) (gv_members g) then
    let g := update_member member_identity
               (readmitted_member signer_public_key_hex local_runtime_peer_id) g in
    advertise now actor_member_id
      (match local_runtime_peer_id with
       | Some _ => {| g with gv_role := "member" |} | None => g end)
  else
    let created_at := dt_to_rfc3339 now in
    let g := {| g with gv_members := gv_members g ++
      [admitted_member member_identity RoleMember signer_public_key_hex local_runtime_peer_id
         created_at] |} in
    advertise now actor_member_id
      (log_governance (governance_log_entry
         (stable_id "governance" (group_id +:+ ":" +:+ member_identity +:+ ":admitted") sequence)
         group_id "member_admitted" actor_member_id (Some member_identity) None (Some RoleMember)
         created_at "Admitted member by issuing an OpenMLS Welcome") g).

Definition upsert_admitted_group_member_with_governance_signer (now : datetime)
    (group_id member_identity identity_signer_public_key_hex : string) (s : PersistedAppState) :
    PersistedAppState :=
  let actor_member_id := local_user_id s in
  let '(s, local_runtime_peer_id) :=
    if member_identity =s actor_member_id then
      let '(s, peer_id) := local_group_runtime_peer_id s group_id in (s, Some peer_id)
    else (s, None) in
  update_group group_id (admit_member now group_id member_identity identity_signer_public_key_hex
    actor_member_id local_runtime_peer_id (st_next_sequence s)) s.

(** ** OpenMLS handles *)

Definition is_handle (group_id : string) (r : OpenMlsGroupHandleRecord) : bool :=
  oh_group_id r =s group_id.

Definition find_handle (group_id : string) (s : PersistedAppState) :
    option OpenMlsGroupHandleRecord :=
  find_first (is_handle group_id) (st_openmls_groups s).

Definition update_handle (group_id : string)
    (f : OpenMlsGroupHandleRecord → OpenMlsGroupHandleRecord) (s : PersistedAppState) :
    PersistedAppState :=
  {| s with st_openmls_groups := update_first (is_handle group_id) f (st_openmls_groups s) |}.

Definition upsert_openmls_group_handle (record : OpenMlsGroupHandleRecord)
    (s : PersistedAppState) : PersistedAppState :=
  if has_openmls_handle s (oh_group_id record)
  then update_handle (oh_group_id record) (λ _, record) s
  else {| s with st_openmls_groups := st_openmls_groups s ++ [record] |}.

(** The handle follows the engine to a new epoch. *)
Definition advance_handle (epoch : N) (confirmation_tag_sha256 status_copy : string)
    (r : OpenMlsGroupHandleRecord) : OpenMlsGroupHandleRecord :=
  {| r with oh_epoch := epoch;
            oh_confirmation_tag_sha256 := confirmation_tag_sha256;
            oh_status_copy := status_copy |}.

Definition confirmation_sha256 (confirmation_tag : bytes) : string :=
  hex_encode (sha256 confirmation_tag).

(** ** The joiner's request *)

Definition queue_openmls_admission_key_package (engine : MlsEngine) (group_id : string)
    (s : PersistedAppState) : PersistedAppState * result unit string :=
  if has_openmls_handle s group_id then (s, Ok tt)
  else
    let member_identity := local_user_id s in
    match me_generate_member_package engine member_identity with
    | Err error => (s, Err error)
    | Ok (signer_public_key, key_package) =>
        let '(s, identity_key) := identity_signing_key s in
        let frame := OpenMlsAdmissionKeyPackage group_id member_identity
          (hex_encode signer_public_key) (public_key_hex identity_key) key_package in
        match text_control_frame_sha256 frame with
        | Err error => (s, Err error)
        | Ok frame_sha256 =>
            let message_id := stable_id "openmls-admission-request" group_id (st_next_sequence s) in
            let s := if existsb (has_message_id message_id) (st_text_control_outbox s) then s
                     else push_outbox (pending_outbox_record message_id
                            (group_control_target group_id) frame frame_sha256) s in
            (push_event "mls.admission_key_package_queued"
               ("Queued OpenMLS admission key package for "
                +:+ redacted_observable_ref "group" group_id) s, Ok tt)
        end
    end.

(** ** The host's Welcome *)

(** An error after the engine has added the member leaves the roster and the handle changed. *)
Definition openmls_admission_welcome_from_frame (engine : MlsEngine) (now : datetime)
    (group_id member_identity signer_public_key_hex identity_signer_public_key_hex : string)
    (key_package : bytes) (s : PersistedAppState) :
    PersistedAppState * result TextControlFrameView string :=
  let added :=
    let* owner_record := ok_or (find_handle group_id s)
      ("OpenMLS owner group handle for " +:+ group_id +:+ " is not persisted") in
    let* owner_signer_public_key :=
      map_err (λ error, "OpenMLS owner signer handle is not hex: " +:+ error)
        (hex_decode (oh_signer_public_key_hex owner_record)) in
    let* member_signer_public_key :=
      map_err (λ error, "OpenMLS member signer handle is not hex: " +:+ error)
        (hex_decode signer_public_key_hex) in
    let* added := me_add_member_package engine owner_record owner_signer_public_key
                    member_signer_public_key key_package in
    let '(welcome, epoch, confirmation_tag) := added in
    let* welcome_bytes := ok_or welcome
      "OpenMLS add_member_package did not produce a Welcome for the joiner"%string in
    Ok (welcome_bytes, epoch, confirmation_sha256 confirmation_tag) in
  match added with
  | Err error => (s, Err error)
  | Ok (welcome_bytes, epoch, confirmation_tag_sha256) =>
      let s := update_handle group_id (advance_handle epoch confirmation_tag_sha256
        ("OpenMLS owner admitted " +:+ member_identity +:+ " from text/control key package")) s in
      let s := upsert_admitted_group_member_with_governance_signer now group_id member_identity
                 identity_signer_public_key_hex s in
      let s := push_event "mls.admission_welcome_created"
        ("Created OpenMLS Welcome for " +:+ redacted_observable_ref "group" group_id) s in
      let '(s, identity_key) := identity_signing_key s in
      match signed_group_channel_schema_snapshot group_id (dt_to_rfc3339 now) s with
      | (s, Err error) => (s, Err error)
      | (s, Ok channel_schema) =>
          (s, Ok (OpenMlsAdmissionWelcome group_id (local_user_id s) (public_key_hex identity_key)
                    signer_public_key_hex welcome_bytes epoch confirmation_tag_sha256
                    channel_schema))
      end
  end.

(** ** The joiner's side *)

(** The row of a message that can still become plaintext. *)
Definition awaits_plaintext (group_id message_id : string) (m : MessageView) : bool :=
  has_message message_id m && (mt_kind (mv_target m) =s "channel")
  && opt_str_eqb (mt_group_id (mv_target m)) (Some group_id)
  && negb (mv_state_key m =s "received_plaintext").

Definition retried_plaintext (engine : MlsEngine) (clock : datetime) (r : TextDeliveryEnvelopeRecord)
    (target : MessageTargetView) (s : PersistedAppState) : option (verifying_key * bytes) :=
  sender_key ← verifying_key_from_hex (der_sender_verifying_key_hex r);
  _ ← ok_value (envelope_verify (der_envelope r) (der_group_id r) sender_key);
  exporter ← ok_value (openmls_text_exporter_for_receive engine target (der_group_id r) s);
  plaintext ← ok_value (decrypt_text_envelope clock (der_group_id r) exporter.1 (der_envelope r));
  Some (sender_key, plaintext).

Definition rendered_message (r : TextDeliveryEnvelopeRecord) (key : verifying_key)
    (plaintext : bytes) (m : MessageView) : MessageView :=
  {| m with
    mv_body := from_utf8_lossy plaintext;
    mv_status := "signed encrypted peer envelope verified and decrypted after OpenMLS admission completed";
    mv_state_key := "received_plaintext";
    mv_state_label := "Plaintext received";
    mv_state_detail := "Verified sender=" +:+ key_fingerprint key +:+ " "
      +:+ redacted_message_ref (der_message_id r) +:+ " "
      +:+ redacted_observable_ref "group_binding" (der_group_id r)
      +:+ "; plaintext rendered after delayed OpenMLS Welcome admission" |}.

Definition retry_render (engine : MlsEngine) (clock : datetime) (group_id : string)
    (acc : PersistedAppState * N) (r : TextDeliveryEnvelopeRecord) : PersistedAppState * N :=
  let '(s, rendered) := acc in
  match find_first (awaits_plaintext group_id (der_message_id r)) (st_messages s) with
  | None => acc
  | Some m =>
      match retried_plaintext engine clock r (mv_target m) s with
      | None => acc
      | Some (key, plaintext) =>
          ({| s with st_messages := update_first (awaits_plaintext group_id (der_message_id r))
                (rendered_message r key plaintext) (st_messages s) |},
           sat_add u64_max rendered 1)
      end
  end.

Definition retry_openmls_plaintext_render_for_group (engine : MlsEngine) (clock : datetime)
    (group_id : string) (s : PersistedAppState) : PersistedAppState * N :=
  let delivery_prefix := "group:" +:+ group_id +:+ ":channel:" in
  foldl (retry_render engine clock group_id) (s, 0)
    (retain (λ r, starts_with delivery_prefix (der_group_id r))
       (st_text_delivery_envelopes s)).

(** The signer of the first key package in the outbox, whatever its group. *)
Definition own_key_package_signer (r : TextControlOutboxRecord) : option string :=
  match ob_frame r with
  | OpenMlsAdmissionKeyPackage _ _ signer_public_key_hex _ _ => Some signer_public_key_hex
  | _ => None
  end.

(** The member who issued the Welcome becomes the owner in the joiner's roster. *)
Definition install_owner (now : datetime) (owner_member_id owner_identity_signer_public_key_hex
    : string) (g : GroupView) : GroupView :=
  if existsb (is_member owner_member_id) (gv_members g) then
    update_member owner_member_id (λ m,
      {| m with gm_role := RoleOwner;
                gm_status := "unknown";
                gm_signer_public_key_hex := Some owner_identity_signer_public_key_hex;
                gm_revoked_at := None;
                gm_revoked_by := None |}) g
  else {| g with gv_members := gv_members g ++
            [admitted_member owner_member_id RoleOwner owner_identity_signer_public_key_hex None
               (dt_to_rfc3339 now)] |}.

Definition gov_error_text (e : GovError) : string :=
  match e with Rejected _ error _ => error | Panicked => "" end.

(** [joined] is the engine once it has joined. *)
Definition join_openmls_from_admission_welcome_frame (engine joined : MlsEngine)
    (now clock : datetime) (frame : TextControlFrameView) (s : PersistedAppState) :
    PersistedAppState * result unit string :=
  match frame with
  | OpenMlsAdmissionWelcome group_id owner_member_id owner_identity_signer_public_key_hex
      member_signer_public_key_hex welcome_bytes epoch confirmation_tag_sha256 channel_schema =>
      match head (omap own_key_package_signer (st_text_control_outbox s)) with
      | None => (s, Ok tt)
      | Some local_signer_public_key_hex =>
          if negb (member_signer_public_key_hex =s local_signer_public_key_hex)
             || has_openmls_handle s group_id then (s, Ok tt)
          else
            let snapshot :=
              let* signer_public_key :=
                map_err (λ error, "OpenMLS member signer handle is not hex: " +:+ error)
                  (hex_decode member_signer_public_key_hex) in
              let* snapshot := me_join_from_welcome engine group_id signer_public_key
                                 welcome_bytes in
              check reject_if (negb (confirmation_sha256 snapshot.2 =s confirmation_tag_sha256))
                "OpenMLS joined confirmation tag did not match owner Welcome state"%string in
              Ok snapshot in
            match snapshot with
            | Err error => (s, Err error)
            | Ok (snapshot_epoch, confirmation_tag) =>
                let s := upsert_openmls_group_handle {|
                  oh_group_id := group_id;
                  oh_signer_public_key_hex := member_signer_public_key_hex;
                  oh_epoch := N.max snapshot_epoch epoch;
                  oh_local_leaf := 1;
                  oh_confirmation_tag_sha256 := confirmation_sha256 confirmation_tag;
                  oh_openmls_store_path := Some (me_store_path engine);
                  oh_status_copy := "OpenMLS member joined from text/control admission Welcome" |} s in
                let local_member_id := local_user_id s in
                let '(s, identity_key) := identity_signing_key s in
                let s := upsert_admitted_group_member_with_governance_signer now group_id
                           local_member_id (public_key_hex identity_key) s in
                let s := if owner_member_id =s local_member_id then s
                         else update_group group_id (install_owner now owner_member_id
                                owner_identity_signer_public_key_hex) s in
                match apply_group_channel_schema_snapshot group_id
                        ("mls-admission-channel-schema-" +:+ pretty (csn_schema_epoch channel_schema))
                        channel_schema s with
                | Err error => (s, Err (gov_error_text error))
                | Ok (s, _) =>
                    let s := push_event "mls.admission_welcome_joined"
                      ("Joined OpenMLS group from admission Welcome for "
                       +:+ redacted_observable_ref "group" group_id) s in
                    let '(s, retried) :=
                      retry_openmls_plaintext_render_for_group joined clock group_id s in
                    (if 0 <? retried then
                       push_event "message.envelope_plaintext_retried"
                         ("Rendered " +:+ pretty retried
                          +:+ " stored OpenMLS-protected envelope(s) after admission for "
                          +:+ redacted_observable_ref "group" group_id) s
                     else s, Ok tt)
                end
            end
      end
  | _ => (s, Err "OpenMLS admission join requires a Welcome frame"%string)
  end.

(** ** Removals *)

(** The handle and signer an engine call runs with. *)
Definition removal_handle (group_id : string) (s : PersistedAppState) :
    result (OpenMlsGroupHandleRecord * bytes) string :=
  let* handle := ok_or (find_handle group_id s) "openmls_group_handle_missing"%string in
  let* signer_public_key := map_err (λ error, "openmls_signer_handle_invalid_hex:" +:+ error)
    (hex_decode (oh_signer_public_key_hex handle)) in
  Ok (handle, signer_public_key).

Definition remove_openmls_group_member (engine : MlsEngine) (group_id member_id : string)
    (s : PersistedAppState) : PersistedAppState * result OpenMlsMemberRemoval string :=
  let removed :=
    let* handle := removal_handle group_id s in
    me_remove_member engine handle.1 handle.2 member_id in
  match removed with
  | Err error => (s, Err error)
  | Ok (commit, epoch, confirmation_tag) =>
      let confirmation_tag_sha256 := confirmation_sha256 confirmation_tag in
      (update_handle group_id (advance_handle epoch confirmation_tag_sha256
         ("OpenMLS remove-member commit cryptographically removed "
          +:+ redacted_observable_ref "member" member_id +:+ " from the current group epoch")) s,
       Ok {| omr_commit_bytes := commit;
             omr_epoch := epoch;
             omr_confirmation_tag_sha256 := confirmation_tag_sha256;
             omr_status_copy := "openmls_remove_member_commit_applied" |})
  end.

Definition apply_openmls_group_member_removal_commit (engine : MlsEngine)
    (group_id target_member_id : string) (commit_bytes : bytes) (epoch : N)
    (confirmation_tag_sha256 : string) (s : PersistedAppState) :
    PersistedAppState * result unit string :=
  let mismatch := "openmls_remove_member_commit_confirmation_tag_mismatch"%string in
  let applied :=
    let* carried := map_err (λ error, "openmls_remove_member_commit_preflight_failed:" +:+ error)
      (me_public_commit_confirmation_tag_sha256 engine commit_bytes) in
    check reject_if (from_option (λ c, negb (c =s confirmation_tag_sha256)) false carried) mismatch in
    check reject_if (negb (String.length confirmation_tag_sha256 =? 64)%nat
                     || negb (forallb is_hex_digit (as_bytes confirmation_tag_sha256))) mismatch in
    let* handle := removal_handle group_id s in
    me_apply_external_remove_commit engine handle.1 handle.2 epoch commit_bytes target_member_id in
  match applied with
  | Err error => (s, Err error)
  | Ok (snapshot_epoch, confirmation_tag) =>
      if local_user_id s =s target_member_id then
        (push_event "mls.member_removed_local"
           "Removed local OpenMLS group handle after validating replicated revoke commit"
           (drop_openmls_handle group_id s), Ok tt)
      else
        (push_event "mls.member_removal_commit_applied"
           ("Applied OpenMLS removal commit for " +:+ redacted_observable_ref "group" group_id)
           (update_handle group_id
              (advance_handle snapshot_epoch (confirmation_sha256 confirmation_tag)
                 ("OpenMLS remove-member commit was applied for "
                  +:+ redacted_observable_ref "member" target_member_id)) s), Ok tt)
  end.

(** ** Commands *)

Definition set_group_admission_mode (now : datetime) (group_id : string)
    (admission_mode : GroupAdmissionModeView) (s : PersistedAppState) : PersistedAppState :=
  match local_actor_can_decide_group_admission group_id s with
  | Err error =>
      push_command_error now "group.admission_mode_rejected" "set_group_admission_mode"
        "admission_mode_unauthorized" error "Only owner or staff can change invite admission mode" s
  | Ok _ =>
      let local_member_id := local_user_id s in
      let updated_at := dt_to_rfc3339 now in
      let update g :=
        if bool_decide (rp_admission_mode (gv_role_policy g) = admission_mode) then g
        else
          log_governance (governance_log_entry
            (stable_id "governance" (group_id +:+ ":" +:+ local_member_id +:+ ":admission_mode")
               (st_next_sequence s)) group_id "admission_mode_updated" local_member_id None None None
            updated_at ("Admission mode changed to " +:+ admission_mode_debug admission_mode))
            {| g with gv_role_policy := {|
                 rp_admission_mode := admission_mode;
                 rp_policy_epoch := sat_add u64_max (rp_policy_epoch (gv_role_policy g)) 1;
                 rp_updated_by := local_member_id;
                 rp_updated_at := updated_at |} |} in
      push_event "group.admission_mode_updated"
        ("Admission mode for " +:+ redacted_observable_ref "group" group_id +:+ " is now "
         +:+ admission_mode_debug admission_mode) (update_group group_id update s)
  end.

(** One frame of a decision; a frame that cannot be hashed is reported and left out. *)
Definition push_decision_frame (now : datetime) (command hint id_prefix id_value group_id : string)
    (frame : TextControlFrameView) (s : PersistedAppState) : PersistedAppState :=
  match text_control_frame_sha256 frame with
  | Ok frame_sha256 =>
      push_outbox (pending_outbox_record (stable_id id_prefix id_value (st_next_sequence s))
        (group_control_target group_id) frame frame_sha256) s
  | Err error =>
      push_command_error now "group.admission_decision_rejected" command
        "admission_frame_hash_failed" error hint s
  end.

Definition approve_group_admission_request (engine : MlsEngine) (now : datetime)
    (group_id request_id : string) (s : PersistedAppState) : PersistedAppState :=
  let rejected := push_command_error now "group.admission_decision_rejected"
                    "approve_group_admission_request" in
  match local_actor_can_decide_group_admission group_id s with
  | Err error =>
      rejected "admission_decision_unauthorized" error
        "Only owner or staff can approve pending admission requests" s
  | Ok _ =>
      let pending :=
        group ← find_group group_id s;
        find_first (λ r, is_request request_id r && (ar_status r =s "pending"))
          (gv_admission_requests group) in
      match pending with
      | None =>
          rejected "admission_request_not_pending"
            "Admission request is missing or already decided"
            "Refresh pending requests before approving" s
      | Some r =>
          match openmls_admission_welcome_from_frame engine now (ar_group_id r)
                  (ar_member_identity r) (ar_signer_public_key_hex r)
                  (ar_identity_signer_public_key_hex r) (ar_key_package r) s with
          | (s, Err error) =>
              rejected "openmls_admission_welcome_failed" error
                "Only mark admission approved after OpenMLS Welcome generation succeeds" s
          | (s, Ok welcome) =>
              let decided_by := local_user_id s in
              let decided_at := dt_to_rfc3339 now in
              match mark_group_admission_decision group_id request_id true decided_by decided_at
                      None s with
              | Err error =>
                  rejected "admission_request_update_failed" error
                    "Retry approval after refreshing pending requests" s
              | Ok (s, _) =>
                  let push_frame suffix :=
                    push_decision_frame now "approve_group_admission_request"
                      "Retry approval after the decision frame can be serialized"
                      ("group-admission-approval-" +:+ suffix) (group_id +:+ ":" +:+ request_id)
                      group_id in
                  let s := push_frame "decision"%string
                    (GroupAdmissionDecision group_id request_id true None decided_by decided_at) s in
                  let s := push_frame "welcome"%string welcome s in
                  push_event "group.admission_request_approved"
                    ("Approved admission request " +:+ redacted_observable_ref "request" request_id) s
              end
          end
      end
  end.

Definition refuse_group_admission_request (now : datetime) (group_id request_id : string)
    (reason : option string) (s : PersistedAppState) : PersistedAppState :=
  let rejected := push_command_error now "group.admission_decision_rejected"
                    "refuse_group_admission_request" in
  match local_actor_can_decide_group_admission group_id s with
  | Err error =>
      rejected "admission_decision_unauthorized" error
        "Only owner or staff can refuse pending admission requests" s
  | Ok _ =>
      let decided_by := local_user_id s in
      let decided_at := dt_to_rfc3339 now in
      let reason := non_blank reason in
      match mark_group_admission_decision group_id request_id false decided_by decided_at reason s with
      | Err error =>
          rejected "admission_request_update_failed" error
            "Refresh pending requests before refusing" s
      | Ok (s, Applied) =>
          let s := push_decision_frame now "refuse_group_admission_request"
            "Retry refusal after the decision frame can be serialized"
            "group-admission-refusal" (group_id +:+ ":" +:+ request_id) group_id
            (GroupAdmissionDecision group_id request_id false reason decided_by decided_at) s in
          push_event "group.admission_request_refused"
            ("Refused admission request " +:+ redacted_observable_ref "request" request_id) s
      | Ok (s, _) =>
          push_event "group.admission_request_refusal_superseded"
            ("Ignored stale refusal for admission request "
             +:+ redacted_observable_ref "request" request_id) s
      end
  end.

(** ** The branches of [handle_text_control_frame_for_route] *)

Definition group_admission_mode (group_id : string) (s : PersistedAppState) :
    GroupAdmissionModeView :=
  from_option (λ g, rp_admission_mode (gv_role_policy g)) AutomaticWhenAuthorizedOnline
    (find_group group_id s).

(** The roster lists the joiner, neither pending nor with a revocation date. *)
Definition already_admitted (group_id member_identity : string) (s : PersistedAppState) : bool :=
  from_option (λ g, existsb (λ m, is_member member_identity m && negb (gm_status m =s "pending")
                                  && negb (bool_decide (is_Some (gm_revoked_at m)))) (gv_members g))
    false (find_group group_id s).

Definition handle_key_package (engine : MlsEngine) (now : datetime) (group_id member_identity
    signer_public_key_hex identity_signer_public_key_hex : string) (key_package : bytes)
    (s : PersistedAppState) : PersistedAppState * option TextControlFrameView :=
  let upserted := upsert_pending_group_admission_request now group_id member_identity
    signer_public_key_hex identity_signer_public_key_hex key_package s in
  match upserted with
  | Err error =>
      (push_command_error now "group.admission_request_rejected" "handle_text_control_frame"
         "admission_request_persist_failed" error
         "Persist the pending request before any owner/staff approval can issue a Welcome" s, None)
  | Ok (s', request_id) =>
      if bool_decide (group_admission_mode group_id s = ManualApproval) then (s', None)
      else
        match local_online_admission_authority now group_id s' with
        | Err error =>
            (push_event "group.admission_request_pending"
               ("Automatic admission deferred for " +:+ redacted_observable_ref "group" group_id
                +:+ ": " +:+ error) s', None)
        | Ok decided_by =>
            if already_admitted group_id member_identity s' then (s', None)
            else
              match openmls_admission_welcome_from_frame engine now group_id member_identity
                      signer_public_key_hex identity_signer_public_key_hex key_package s' with
              | (s', Err error) =>
                  (push_command_error now "mls.admission_rejected" "handle_text_control_frame"
                     "openmls_admission_welcome_failed" error
                     "Only admit joiners when the owner has persisted OpenMLS group state" s', None)
              | (s', Ok welcome) =>
                  match mark_group_admission_decision group_id request_id true decided_by
                          (dt_to_rfc3339 now)
                          (Some "Automatically approved while an authorized owner/staff member was online"%string)
                          s' with
                  | Err error =>
                      (push_command_error now "group.admission_decision_rejected"
                         "handle_text_control_frame" "admission_request_update_failed" error
                         "Retry automatic admission after refreshing pending requests" s', None)
                  | Ok (s', _) =>
                      (push_event "group.admission_request_auto_approved"
                         ("Automatically approved admission request "
                          +:+ redacted_observable_ref "request" request_id) s', Some welcome)
                  end
              end
        end
  end.

Definition handle_admission_decision (now : datetime) (group_id request_id : string)
    (approved : bool) (reason : option string) (decided_by decided_at : string)
    (s : PersistedAppState) : PersistedAppState :=
  match mark_group_admission_decision group_id request_id approved decided_by decided_at reason s with
  | Ok (s, _) => s
  | Err error =>
      let local_role := gv_role <$> find_group group_id s in
      if approved && (error =s "Admission request does not exist")
         && (opt_str_eqb local_role (Some "pending") || opt_str_eqb local_role (Some "member"))
      then push_event "group.admission_decision_deferred_to_welcome"
             ("Deferred replicated admission decision to OpenMLS Welcome for "
              +:+ redacted_observable_ref "group" group_id) s
      else push_command_error now "group.admission_decision_rejected" "handle_text_control_frame"
             "admission_decision_apply_failed" error
             "Refresh pending admission state before applying duplicate decisions" s
  end.

Definition handle_welcome (engine joined : MlsEngine) (now : datetime)
    (frame : TextControlFrameView) (s : PersistedAppState) : PersistedAppState :=
  match join_openmls_from_admission_welcome_frame engine joined now now frame s with
  | (s, Ok _) => s
  | (s, Err error) =>
      push_command_error now "mls.admission_rejected" "handle_text_control_frame"
        "openmls_admission_welcome_join_failed" error
        "Only install an OpenMLS Welcome whose group id and confirmation tag match" s
  end.

Definition governance_ack (now : datetime) (group_id event_id status : string)
    (s : PersistedAppState) : TextControlFrameView :=
  GroupGovernanceAck group_id event_id (local_user_id s) status (dt_to_rfc3339 now).

(** The routes of the group's text channels lose the peers that are no longer current. *)
Definition cleanup_group_text_routes (now : datetime) (group_id : string)
    (s : PersistedAppState) : PersistedAppState :=
  let targets := from_option (λ g,
    (λ channel, {| mt_kind := "channel"; mt_dm_id := None; mt_group_id := Some group_id;
                   mt_channel_id := Some (ch_channel_id channel) |})
    <$> retain (λ channel, bool_decide (ch_kind channel = TextChannel)) (gv_channels g)) []
    (find_group group_id s) in
  foldl (λ s target,
    match route_peer_ids_for_text_target now target s with
    | Ok current => (cleanup_text_control_outbox_routes_for_target target current s).1
    | Err _ => s
    end) s targets.

Definition handle_member_revoked (engine : MlsEngine) (now : datetime) (group_id event_id
    actor_member_id target_member_id created_at crypto_removal_status : string)
    (openmls_remove_commit : option bytes) (openmls_epoch : option N)
    (openmls_confirmation_tag_sha256 : option string) (s : PersistedAppState) :
    PersistedAppState * option TextControlFrameView :=
  let ack s status := (s, Some (governance_ack now group_id event_id status s)) in
  let rejected := push_command_error now "mls.member_remove_commit_rejected"
                    "handle_text_control_frame" in
  let hint := "Refresh group membership from another authorized owner or staff device"%string in
  let apply s commit_status :=
    ack (cleanup_group_text_routes now group_id
           (apply_group_member_revoked group_id event_id actor_member_id target_member_id created_at
              crypto_removal_status s)) commit_status in
  match openmls_remove_commit, openmls_epoch, openmls_confirmation_tag_sha256 with
  | Some commit, Some epoch, Some confirmation_tag_sha256 =>
      match apply_openmls_group_member_removal_commit engine group_id target_member_id commit epoch
              confirmation_tag_sha256 s with
      | (s, Ok _) => apply s "member_revoked_commit_applied"%string
      | (s, Err error) =>
          ack (rejected "openmls_remove_member_commit_apply_failed" error hint s)
            "member_revoked_commit_failed"%string
      end
  | Some _, _, _ =>
      ack (rejected "openmls_remove_member_commit_metadata_missing"
             "OpenMLS remove-member frame carried commit bytes without epoch or confirmation tag"
             hint s) "member_revoked_commit_failed"%string
  | None, _, _ =>
      if negb (local_user_id s =s target_member_id) then
        ack (push_event "group.member_revoke_notice_ignored"
               "Ignored notice-only revoke frame for another member; waiting for validated OpenMLS remove commit"
               s) "member_revoked_notice_ignored"%string
      else apply s "member_revoked_notice_applied"%string
  end.

(** ** Lemmas *)

Lemma update_request_id rid f g : gv_group_id (update_request rid f g) = gv_group_id g.
Proof. done. Qed.

Lemma log_once_id entry g : gv_group_id (log_once entry g) = gv_group_id g.
Proof. unfold log_once. by destruct (has_event _ _). Qed.

Lemma log_once_requests entry g :
  gv_admission_requests (log_once entry g) = gv_admission_requests g.
Proof. unfold log_once. by destruct (has_event _ _). Qed.

Lemma log_once_members entry g : gv_members (log_once entry g) = gv_members g.
Proof. unfold log_once. by destruct (has_event _ _). Qed.

Lemma log_once_logged entry g : has_event (gl_event_id entry) (log_once entry g) = true.
Proof. unfold log_once. destruct (has_event _ g) eqn:E; [done|apply has_event_log]. Qed.

Lemma admit_member_id now gid mid key actor peer n g :
  gv_group_id (admit_member now gid mid key actor peer n g) = gv_group_id g.
Proof. unfold admit_member. destruct (existsb _ _), peer; done. Qed.

Lemma admit_member_requests now gid mid key actor peer n g :
  gv_admission_requests (admit_member now gid mid key actor peer n g) = gv_admission_requests g.
Proof. unfold admit_member. destruct (existsb _ _), peer; done. Qed.

Lemma admit_member_log now gid mid key actor peer n g :
  gv_governance_log g `prefix_of` gv_governance_log (admit_member now gid mid key actor peer n g).
Proof. unfold admit_member. destruct (existsb _ _), peer; try done; by eexists. Qed.

Lemma admit_member_channels now gid mid key actor peer n g :
  gv_channels (admit_member now gid mid key actor peer n g) = gv_channels g
  ∧ gv_channel_schema_epoch (admit_member now gid mid key actor peer n g)
    = gv_channel_schema_epoch g.
Proof. unfold admit_member. destruct (existsb _ _), peer; done. Qed.

(** The row an admission leaves. *)
Record admitted_row (mid key : string) (m : GroupMemberView) : Prop := {
  aw_id : gm_member_id m = mid;
  aw_role : gm_role m = RoleMember;
  aw_status : gm_status m = "unknown"%string;
  aw_key : gm_signer_public_key_hex m = Some key;
  aw_revoked : gm_revoked_at m = None
}.

Lemma admit_member_row now gid mid key actor peer n g :
  ∃ m, find_first (is_member mid) (gv_members (admit_member now gid mid key actor peer n g)) = Some m
    ∧ admitted_row mid key m.
Proof.
  unfold admit_member. destruct (existsb _ _) eqn:E.
  - apply existsb_find_first in E as [m Hm]. exists (readmitted_member key peer m). split.
    + destruct peer; cbn; rewrite find_update_first by done; by rewrite Hm.
    + apply find_member_id in Hm as [_ ?]. done.
  - apply find_first_none in E. eexists. split; [apply find_first_app_new; [done|apply str_eqb_refl]|done].
Qed.

Lemma find_first_app {A} (p : A → bool) l k :
  find_first p (l ++ k) = match find_first p l with Some x => Some x | None => find_first p k end.
Proof. induction l as [|x l IH]; [done|]. simpl. by destruct (p x). Qed.

Lemma update_first_id {A} (p : A → bool) f l :
  (∀ x, find_first p l = Some x → f x = x) → update_first p f l = l.
Proof.
  induction l as [|x l IH]; intros Hf; [done|]. simpl in *. destruct (p x); [by rewrite Hf|].
  by rewrite IH.
Qed.

Lemma admit_member_other now gid mid key actor peer n g other :
  other ≠ mid →
  find_first (is_member other) (gv_members (admit_member now gid mid key actor peer n g))
  = find_first (is_member other) (gv_members g).
Proof.
  intros Hne. assert (∀ m, is_member mid m = true → is_member other m = false) as Hd.
  { intros m Hm%is_member_true. unfold is_member. rewrite Hm. apply str_eqb_false. congruence. }
  unfold admit_member. destruct (existsb _ _) eqn:E.
  - destruct peer; cbn; by apply find_update_first_other.
  - cbn. rewrite find_first_app. destruct (find_first _ _); [done|]. cbn.
    by rewrite Hd by apply str_eqb_refl.
Qed.

Lemma find_group_ext gid s t : st_groups s = st_groups t → find_group gid s = find_group gid t.
Proof. unfold find_group. by intros ->. Qed.

(** *** Decisions *)

Definition find_request (rid : string) (g : GroupView) : option GroupAdmissionRequestView :=
  find_first (is_request rid) (gv_admission_requests g).

Lemma find_update_request rid f g :
  (∀ r, ar_request_id (f r) = ar_request_id r) →
  find_request rid (update_request rid f g) = f <$> find_request rid g.
Proof. intros Hf. apply find_update_first. intros r. unfold is_request. by rewrite Hf. Qed.

Lemma find_update_request_other rid rid' f g :
  rid' ≠ rid → (∀ r, ar_request_id (f r) = ar_request_id r) →
  find_request rid' (update_request rid f g) = find_request rid' g.
Proof.
  intros Hne Hf. apply find_update_first_other; unfold is_request; intros r Hr%str_eqb_true;
    rewrite ?Hf, Hr; apply str_eqb_false; congruence.
Qed.

(** What one decision does to the request it names. *)
Lemma mark_inv gid rid approved by_ at_ reason s s' status :
  mark_group_admission_decision gid rid approved by_ at_ reason s = Ok (s', status) →
  ∃ g r, find_group gid s = Some g ∧ find_request rid g = Some r
    ∧ match status with
      | Applied => ar_status r = "pending"%string ∧ ∃ entry, s' = update_group gid (λ g,
          log_once entry (update_request rid (decide_request approved by_ at_ reason) g)) s
      | Duplicate => ar_status r ≠ "pending"%string ∧ s' = s ∧ r = decide_request approved by_ at_ reason r
      | Superseded => ar_status r ≠ "pending"%string ∧ ∃ entry, s' = update_group gid (log_once entry) s
          ∧ gl_event_kind entry = "admission_request_decision_superseded"%string
      end.
Proof.
  unfold mark_group_admission_decision. intros R.
  apply rbind_ok in R as (g & Hg%ok_or_ok & R). apply rbind_ok in R as (r & Hr%ok_or_ok & R).
  exists g, r. split; [done|]. split; [done|]. destruct (ar_status r =s "pending") eqn:Ep; cbn [negb] in R.
  - injection R as <- <-. apply str_eqb_true in Ep. eauto.
  - apply str_eqb_false in Ep. case_match eqn:Ed; injection R as <- <-; [|eauto 10].
    split; [done|]. split; [done|]. rewrite !andb_true_iff, str_eqb_true in Ed. unfold opt_str_eqb in Ed.
    rewrite !bool_decide_eq_true in Ed. destruct Ed as [[[E1 E2] E3] E4].
    unfold decide_request. rewrite <- E1, <- E2, <- E3, <- E4. by destruct r.
Qed.

(** A decision leaves every request but its own, and every decided one, as it was. *)
Lemma mark_keeps_decided gid rid approved by_ at_ reason s s' status gid' rid' g r :
  mark_group_admission_decision gid rid approved by_ at_ reason s = Ok (s', status) →
  find_group gid' s = Some g → find_request rid' g = Some r → ar_status r ≠ "pending"%string →
  ∃ g', find_group gid' s' = Some g' ∧ find_request rid' g' = Some r ∧ gv_members g' = gv_members g.
Proof.
  intros (h & q & Hh & Hq & Hst)%mark_inv Hg Hr Hp.
  assert (∀ f, (∀ g, gv_group_id (f g) = gv_group_id g) →
    (∀ g, gv_members (f g) = gv_members g) →
    (gid' = gid → find_request rid' (f h) = Some r) →
    ∃ g', find_group gid' (update_group gid f s) = Some g' ∧ find_request rid' g' = Some r
      ∧ gv_members g' = gv_members g) as Hupd.
  { intros f Hid Hmem Hf. destruct (decide (gid' = gid)) as [->|Hne].
    - rewrite find_update_group, Hg by done. replace h with g in Hf by congruence. exists (f g). eauto.
    - exists g. split_and!; [|done..]. unfold find_group in *. cbn.
      rewrite find_update_first_other; [done|..]; unfold is_group; intros k Hk%str_eqb_true;
        rewrite ?Hid, Hk; apply str_eqb_false; congruence. }
  destruct status.
  - destruct Hst as (Hpend & entry & ->). apply Hupd.
    + intros. by rewrite log_once_id.
    + intros. by rewrite log_once_members.
    + intros ->. unfold find_request. rewrite log_once_requests. simplify_eq.
      destruct (decide (rid' = rid)) as [->|Hne]; [congruence|].
      rewrite <- Hr. by apply find_update_request_other.
  - destruct Hst as (_ & -> & _). eauto.
  - destruct Hst as (_ & entry & -> & _). apply Hupd.
    + apply log_once_id.
    + apply log_once_members.
    + intros ->. unfold find_request. rewrite log_once_requests. by simplify_eq.
Qed.

(** After a decision the request is decided, and the roster is as it was. *)
Lemma mark_decides gid rid approved by_ at_ reason s s' status :
  mark_group_admission_decision gid rid approved by_ at_ reason s = Ok (s', status) →
  ∃ g r g' r', find_group gid s = Some g ∧ find_request rid g = Some r
    ∧ find_group gid s' = Some g' ∧ find_request rid g' = Some r' ∧ gv_members g' = gv_members g
    ∧ ar_status r' ≠ "pending"%string
    ∧ r' = if bool_decide (status = Applied) then decide_request approved by_ at_ reason r else r.
Proof.
  intros (g & r & Hg & Hr & Hst)%mark_inv. exists g, r. destruct status; cbn.
  - destruct Hst as (Hp & entry & ->). eexists _, _.
    rewrite find_update_group, Hg by (intros; by rewrite log_once_id).
    split; [done|]. split; [done|]. split; [done|]. split_and!; [|by rewrite log_once_members| |done].
    + unfold find_request. rewrite log_once_requests.
      etransitivity; [by apply (find_update_request rid (decide_request approved by_ at_ reason))|].
      by rewrite Hr.
    + by destruct approved.
  - destruct Hst as (Hp & -> & _). by exists g, r.
  - destruct Hst as (Hp & entry & -> & _). eexists _, r.
    rewrite find_update_group, Hg by apply log_once_id. unfold find_request.
    by rewrite log_once_requests, log_once_members.
Qed.

(** A decision is applied once and only to a pending request: it then records who decided,
    when, why and how, in that request and in the log, and touches no roster row. A decision that
    comes later is a duplicate, which changes nothing, or is logged as superseded, and the recorded
    decision stands. *)
Theorem decision_is_applied_once gid rid approved by_ at_ reason s s' status :
  mark_group_admission_decision gid rid approved by_ at_ reason s = Ok (s', status) →
  ∃ g r g', find_group gid s = Some g ∧ find_request rid g = Some r ∧ find_group gid s' = Some g'
    ∧ gv_members g' = gv_members g
    ∧ match status with
      | Applied => ar_status r = "pending"%string
          ∧ find_request rid g' = Some (decide_request approved by_ at_ reason r)
      | Duplicate => r = decide_request approved by_ at_ reason r ∧ s' = s
      | Superseded => ar_status r ≠ "pending"%string ∧ find_request rid g' = Some r
      end.
Proof.
  intros R. destruct (mark_inv _ _ _ _ _ _ _ _ _ R) as (g & r & Hg & Hr & Hst).
  destruct (mark_decides _ _ _ _ _ _ _ _ _ R) as (h & q & g' & r' & Hh & Hq & Hg' & Hr' & Hm & _ & ->).
  assert (h = g) as -> by congruence. assert (q = r) as -> by congruence. exists g, r, g'. do 4 (split; [done|]). destruct status; cbn in Hr'; naive_solver.
Qed.

(** *** What a group never loses *)

(** Decided requests stay as they are, and the governance log only grows. *)
Record group_evolves (g g' : GroupView) : Prop := {
  ge_decided : ∀ rid r, find_request rid g = Some r → ar_status r ≠ "pending"%string →
    find_request rid g' = Some r;
  ge_log : gv_governance_log g `prefix_of` gv_governance_log g'
}.

#[export] Instance group_evolves_preorder : PreOrder group_evolves.
Proof.
  split; [by intros g; split|]. intros g1 g2 g3 [D1 L1] [D2 L2].
  split; [by auto|by etransitivity].
Qed.

Definition evolves (s s' : PersistedAppState) : Prop :=
  ∀ gid g, find_group gid s = Some g → ∃ g', find_group gid s' = Some g' ∧ group_evolves g g'.

#[export] Instance evolves_preorder : PreOrder evolves.
Proof.
  split; [intros s gid g Hg; by exists g|]. intros s1 s2 s3 H12 H23 gid g Hg.
  destruct (H12 gid g Hg) as (g' & Hg' & E). destruct (H23 gid g' Hg') as (g'' & Hg'' & E').
  exists g''. split; [done|]. by etransitivity.
Qed.

Lemma evolves_groups s s' : st_groups s' = st_groups s → evolves s s'.
Proof. intros E gid g Hg. exists g. split; [|done]. by rewrite (find_group_ext gid s' s). Qed.

Lemma find_update_group_other gid gid' f s :
  gid' ≠ gid → (∀ g, gv_group_id (f g) = gv_group_id g) →
  find_group gid' (update_group gid f s) = find_group gid' s.
Proof.
  intros Hne Hid. apply find_update_first_other; unfold is_group; intros k Hk%str_eqb_true;
    rewrite ?Hid, Hk; apply str_eqb_false; congruence.
Qed.

Lemma evolves_update gid f s :
  (∀ g, gv_group_id (f g) = gv_group_id g) →
  (∀ g, find_group gid s = Some g → group_evolves g (f g)) →
  evolves s (update_group gid f s).
Proof.
  intros Hid Hf gid' g Hg. destruct (decide (gid' = gid)) as [->|Hne].
  - rewrite find_update_group, Hg by done. exists (f g). auto.
  - rewrite find_update_group_other by done. by exists g.
Qed.

Lemma evolves_requests gid f s :
  (∀ g, gv_group_id (f g) = gv_group_id g) →
  (∀ g, gv_admission_requests (f g) = gv_admission_requests g) →
  (∀ g, gv_governance_log g `prefix_of` gv_governance_log (f g)) →
  evolves s (update_group gid f s).
Proof.
  intros Hid Hf Hl. apply evolves_update; [done|]. intros g _. split; [|done].
  intros rid r. unfold find_request. by rewrite Hf.
Qed.

Lemma log_once_prefix entry g : gv_governance_log g `prefix_of` gv_governance_log (log_once entry g).
Proof. unfold log_once. destruct (has_event _ _); [done|by eexists]. Qed.

Lemma mark_evolves gid rid approved by_ at_ reason s s' status :
  mark_group_admission_decision gid rid approved by_ at_ reason s = Ok (s', status) → evolves s s'.
Proof.
  intros R. destruct (mark_inv _ _ _ _ _ _ _ _ _ R) as (g & r & Hg & Hr & Hst). destruct status.
  - destruct Hst as (Hp & entry & ->). apply evolves_update.
    { intros h. by rewrite log_once_id. }
    intros h Hh. assert (h = g) as -> by congruence. split; [|exact (log_once_prefix entry (update_request rid _ g))].
    intros rid' r' Hr' Hp'. unfold find_request. rewrite log_once_requests. fold (find_request rid' g) in *.
    destruct (decide (rid' = rid)) as [->|Hne]; [congruence|]. rewrite <- Hr'.
    by apply find_update_request_other.
  - by destruct Hst as (_ & -> & _).
  - destruct Hst as (_ & entry & -> & _).
    apply evolves_requests; [apply log_once_id|apply log_once_requests|apply log_once_prefix].
Qed.

Lemma upsert_pending_evolves now gid mid skey ikey kp s s' rid :
  upsert_pending_group_admission_request now gid mid skey ikey kp s = Ok (s', rid) → evolves s s'.
Proof.
  unfold upsert_pending_group_admission_request. intros R.
  apply rbind_ok in R as (g & Hg & R). destruct (existsb _ _) eqn:E; injection R as <- <-.
  - apply evolves_update; [done|]. intros h _. split; [|done]. intros rid r Hr Hp.
    set (rid0 := admission_request_id _ _ _). destruct (decide (rid = rid0)) as [->|Hne].
    + rewrite find_update_request by (intros; by case_match). rewrite Hr. cbn.
      by rewrite (proj2 (str_eqb_false _ _)).
    + by rewrite find_update_request_other by (try done; intros; by case_match).
  - etransitivity; [|by apply evolves_groups].
    apply evolves_update; [done|]. intros h _. split; [|by eexists]. intros rid r Hr Hp.
    unfold find_request in *. cbn. by rewrite find_first_app, Hr.
Qed.

Lemma identity_key_groups s s' k :
  identity_signing_key s = (s', k) →
  st_groups s' = st_groups s ∧ st_profile s' = st_profile s
  ∧ st_openmls_groups s' = st_openmls_groups s
  ∧ st_text_control_outbox s' = st_text_control_outbox s.
Proof. unfold identity_signing_key, identity_seed_bytes. intros [= <- _]. by destruct (_ && _). Qed.

Lemma local_user_id_ext s s' : st_profile s' = st_profile s → local_user_id s' = local_user_id s.
Proof. unfold local_user_id. by intros ->. Qed.

Lemma signed_snapshot_state gid at_ s s' r :
  signed_group_channel_schema_snapshot gid at_ s = (s', r) → s' = (identity_signing_key s).1.
Proof.
  unfold signed_group_channel_schema_snapshot. destruct (identity_signing_key s). by intros [= <- _].
Qed.

(** The roster update of an admission, with the local route when the member is local. *)
Lemma upsert_admitted_inv now gid mid key s :
  ∃ s0 peer n, upsert_admitted_group_member_with_governance_signer now gid mid key s
      = update_group gid (admit_member now gid mid key (local_user_id s) peer n) s0
    ∧ st_groups s0 = st_groups s ∧ st_profile s0 = st_profile s
    ∧ st_openmls_groups s0 = st_openmls_groups s
    ∧ st_text_control_outbox s0 = st_text_control_outbox s
    ∧ (s0 = s ∨ s0 = (identity_signing_key s).1).
Proof.
  unfold upsert_admitted_group_member_with_governance_signer, local_group_runtime_peer_id.
  destruct (identity_signing_key s) as [t k] eqn:Ek.
  destruct (mid =s local_user_id s); [|exists s, None; eauto 10].
  destruct (identity_key_groups _ _ _ Ek) as (? & ? & ? & ?). exists t. eexists (Some _). eauto 10.
Qed.

(** *** Welcomes *)

(** The state in which a Welcome is signed. *)
Record welcomed (now : datetime) (gid mid ikey : string) (epoch : N) (tag : bytes)
    (s t : PersistedAppState) : Prop := {
  wl_groups : ∃ peer n, st_groups t = update_first (is_group gid)
    (admit_member now gid mid ikey (local_user_id s) peer n) (st_groups s);
  wl_profile : st_profile t = st_profile s;
  wl_outbox : st_text_control_outbox t = st_text_control_outbox s;
  wl_handles : ∃ copy, st_openmls_groups t = update_first (is_handle gid)
    (advance_handle epoch (confirmation_sha256 tag) copy) (st_openmls_groups s)
}.

Lemma welcomed_ext now gid mid ikey epoch tag s t t' :
  welcomed now gid mid ikey epoch tag s t →
  st_groups t' = st_groups t → st_profile t' = st_profile t →
  st_openmls_groups t' = st_openmls_groups t →
  st_text_control_outbox t' = st_text_control_outbox t →
  welcomed now gid mid ikey epoch tag s t'.
Proof. intros [] E1 E2 E3 E4. split; by rewrite ?E1, ?E2, ?E3, ?E4. Qed.

Lemma welcome_cases engine now gid mid skey ikey kp s :
  (∃ error, openmls_admission_welcome_from_frame engine now gid mid skey ikey kp s = (s, Err error))
  ∨ ∃ handle own member welcome epoch tag s1 s2 k,
      find_handle gid s = Some handle
      ∧ hex_decode (oh_signer_public_key_hex handle) = Ok own ∧ hex_decode skey = Ok member
      ∧ me_add_member_package engine handle own member kp = Ok (Some welcome, epoch, tag)
      ∧ welcomed now gid mid ikey epoch tag s s1 ∧ identity_signing_key s1 = (s2, k)
      ∧ openmls_admission_welcome_from_frame engine now gid mid skey ikey kp s
        = let '(s', r) := signed_group_channel_schema_snapshot gid (dt_to_rfc3339 now) s2 in
          (s', rmap (OpenMlsAdmissionWelcome gid (local_user_id s) (public_key_hex k) skey welcome
                       epoch (confirmation_sha256 tag)) r).
Proof.
  unfold openmls_admission_welcome_from_frame.
  destruct (find_handle gid s) as [handle|] eqn:Eh; [|left; eexists; reflexivity].
  cbn [ok_or rbind]. destruct (hex_decode (oh_signer_public_key_hex handle)) as [own|] eqn:Eo;
    [|left; eexists; reflexivity].
  cbn [map_err rbind]. destruct (hex_decode skey) as [member|] eqn:Em; [|left; eexists; reflexivity].
  cbn [map_err rbind]. destruct (me_add_member_package _ _ _ _ _) as [[[[welcome|] epoch] tag]|] eqn:Ea;
    [|left; eexists; reflexivity..].
  cbn [ok_or rbind]. right. set (t := update_handle _ _ s).
  destruct (upsert_admitted_inv now gid mid ikey t) as (s0 & peer & n & Eu & G1 & G2 & G3 & G4 & _).
  rewrite Eu. set (s1 := push_event _ _ _).
  destruct (identity_signing_key s1) as [s2 k] eqn:Ek.
  exists handle, own, member, welcome, epoch, tag, s1, s2, k. split_and!; try done.
  - split.
    + exists peer, n. cbn. by rewrite G1.
    + by cbn; rewrite G2.
    + by cbn; rewrite G4.
    + eexists. cbn. rewrite G3. reflexivity.
  - destruct (signed_group_channel_schema_snapshot _ _ _) as [s' r] eqn:Es.
    assert (local_user_id s' = local_user_id s) as El.
    { apply local_user_id_ext. apply signed_snapshot_state in Es as ->.
      destruct (identity_signing_key s2) as [s3 k'] eqn:Ek'.
      destruct (identity_key_groups _ _ _ Ek') as (_ & E3 & _).
      destruct (identity_key_groups _ _ _ Ek) as (_ & E2 & _). cbn. rewrite E3, E2. by cbn; rewrite G2. }
    destruct r; cbn; by rewrite ?El.
Qed.

Lemma snapshot_keeps gid at_ s s' r :
  signed_group_channel_schema_snapshot gid at_ s = (s', r) →
  st_groups s' = st_groups s ∧ st_profile s' = st_profile s
  ∧ st_openmls_groups s' = st_openmls_groups s
  ∧ st_text_control_outbox s' = st_text_control_outbox s.
Proof.
  intros ->%signed_snapshot_state. destruct (identity_signing_key s) eqn:E.
  by apply identity_key_groups in E.
Qed.

(** A Welcome issued, and the state it leaves. *)
Lemma welcome_inv engine now gid mid skey ikey kp s s' w :
  openmls_admission_welcome_from_frame engine now gid mid skey ikey kp s = (s', Ok w) →
  ∃ handle own member welcome epoch tag s2 k snap,
    find_handle gid s = Some handle
    ∧ hex_decode (oh_signer_public_key_hex handle) = Ok own ∧ hex_decode skey = Ok member
    ∧ me_add_member_package engine handle own member kp = Ok (Some welcome, epoch, tag)
    ∧ welcomed now gid mid ikey epoch tag s s' ∧ welcomed now gid mid ikey epoch tag s s2
    ∧ (∃ s1, identity_signing_key s1 = (s2, k))
    ∧ signed_group_channel_schema_snapshot gid (dt_to_rfc3339 now) s2 = (s', Ok snap)
    ∧ w = OpenMlsAdmissionWelcome gid (local_user_id s) (public_key_hex k) skey welcome epoch
            (confirmation_sha256 tag) snap.
Proof.
  destruct (welcome_cases engine now gid mid skey ikey kp s) as [(error & ->)|
    (handle & own & member & welcome & epoch & tag & s1 & s2 & k & ? & ? & ? & ? & Hw & Hk & ->)];
    [done|].
  destruct (signed_group_channel_schema_snapshot _ _ _) as [t r] eqn:Es. intros [= <- R].
  destruct r as [snap|]; [|done]. injection R as <-.
  destruct (identity_key_groups _ _ _ Hk) as (? & ? & ? & ?).
  destruct (snapshot_keeps _ _ _ _ _ Es) as (? & ? & ? & ?).
  assert (welcomed now gid mid ikey epoch tag s s2) by by eapply welcomed_ext.
  exists handle, own, member, welcome, epoch, tag, s2, k, snap. split_and!; try done; [|eauto].
  by eapply welcomed_ext.
Qed.

Lemma welcomed_group now gid mid ikey epoch tag s t :
  welcomed now gid mid ikey epoch tag s t →
  ∃ peer n, find_group gid t
    = admit_member now gid mid ikey (local_user_id s) peer n <$> find_group gid s.
Proof.
  intros [(peer & n & E) _ _ _]. exists peer, n. unfold find_group. rewrite E.
  apply find_update_first. intros g. unfold is_group. by rewrite admit_member_id.
Qed.

Lemma welcomed_evolves now gid mid ikey epoch tag s t :
  welcomed now gid mid ikey epoch tag s t → evolves s t.
Proof.
  intros [(peer & n & E) _ _ _]. transitivity (update_group gid
    (admit_member now gid mid ikey (local_user_id s) peer n) s); [|by apply evolves_groups].
  apply evolves_requests; intros; [apply admit_member_id|apply admit_member_requests|apply admit_member_log].
Qed.

Lemma welcome_evolves engine now gid mid skey ikey kp s :
  evolves s (openmls_admission_welcome_from_frame engine now gid mid skey ikey kp s).1.
Proof.
  destruct (welcome_cases engine now gid mid skey ikey kp s) as [(error & ->)|
    (handle & own & member & welcome & epoch & tag & s1 & s2 & k & _ & _ & _ & _ & Hw & Hk & ->)];
    [reflexivity|].
  destruct (signed_group_channel_schema_snapshot _ _ _) as [t r] eqn:Es.
  apply snapshot_keeps in Es as (Es & _). apply identity_key_groups in Hk as (Hk & _).
  etransitivity; [by eapply welcomed_evolves|]. apply evolves_groups. cbn. by rewrite Es, Hk.
Qed.

Lemma welcomed_admits now gid mid ikey epoch tag s t :
  welcomed now gid mid ikey epoch tag s t → is_Some (find_group gid s) →
  already_admitted gid mid t = true.
Proof.
  intros (peer & n & Hg)%welcomed_group [g Eg]. unfold already_admitted. rewrite Hg, Eg. cbn [from_option fmap option_fmap option_map].
  destruct (admit_member_row now gid mid ikey (local_user_id s) peer n g) as (m & Hm & [? ? Hs _ Hr]).
  apply find_first_some in Hm as [Hin Hm]. apply existsb_exists. exists m.
  split; [by apply list_elem_of_In|]. by rewrite Hm, Hs, Hr.
Qed.

Lemma upsert_pending_inv now gid mid skey ikey kp s s' rid :
  upsert_pending_group_admission_request now gid mid skey ikey kp s = Ok (s', rid) →
  rid = admission_request_id gid mid skey
  ∧ st_profile s' = st_profile s ∧ st_openmls_groups s' = st_openmls_groups s
  ∧ ∃ g g', find_group gid s = Some g ∧ find_group gid s' = Some g'
    ∧ gv_members g' = gv_members g ∧ gv_role_policy g' = gv_role_policy g
    ∧ gv_channels g' = gv_channels g ∧ is_Some (find_request rid g').
Proof.
  unfold upsert_pending_group_admission_request. intros R.
  apply rbind_ok in R as (g & Hg%ok_or_ok & R).
  set (rid0 := admission_request_id gid mid skey) in *.
  destruct (existsb _ _) eqn:E; injection R as <- <-; do 3 (split; [done|]).
  - apply existsb_find_first in E as [r Hr]. exists g. eexists. rewrite find_update_group, Hg by done.
    split_and!; try done. rewrite find_update_request by (intros; by case_match).
    unfold find_request. rewrite Hr. cbn. eauto.
  - exists g. eexists. rewrite find_group_push_event, find_update_group, Hg by done.
    split_and!; try done. unfold find_request. cbn. apply find_first_none in E.
    rewrite find_first_app, E. cbn. unfold is_request. cbn. rewrite str_eqb_refl. eauto.
Qed.

(** What an automatic admission was checked against. *)
Record online_authority (now : datetime) (g : GroupView) (local : string) : Prop := {
  oa_member : ∃ m expires_at value, find_first (is_member local) (gv_members g) = Some m
    ∧ can_manage_members (gm_role m) = true ∧ gm_status m = "online"%string
    ∧ gm_presence_expires_at m = Some value ∧ dt_parse_rfc3339 value = Some expires_at
    ∧ dt_le expires_at now = false
}.

Lemma authority_inv now gid s local :
  local_online_admission_authority now gid s = Ok local →
  local = local_user_id s ∧ ∃ g, find_group gid s = Some g ∧ online_authority now g local.
Proof.
  unfold local_online_admission_authority. intros R.
  apply rbind_ok in R as (g & Hg%ok_or_ok & R). apply rbind_ok in R as (m & Hm%ok_or_ok & R).
  apply rbind_ok in R as (? & Hman%reject_if_ok & R). apply rbind_ok in R as (? & _ & R).
  apply rbind_ok in R as (? & Hon%reject_if_ok & R). apply rbind_ok in R as (e & He%ok_or_ok & R).
  apply rbind_ok in R as (? & Hexp%reject_if_ok & R). injection R as <-. split; [done|].
  exists g. split; [done|]. split. apply bind_Some in He as (value & Hv & He).
  apply negb_false_iff in Hman. apply negb_false_iff, str_eqb_true in Hon. eauto 10.
Qed.

Lemma already_admitted_ext gid mid s s' :
  gv_members <$> find_group gid s' = gv_members <$> find_group gid s →
  already_admitted gid mid s' = already_admitted gid mid s.
Proof.
  unfold already_admitted. destruct (find_group gid s), (find_group gid s'); try done.
  cbn. by intros [= ->].
Qed.

(** The whole path of an automatic admission. *)
Lemma key_package_inv engine now gid mid skey ikey kp s s' w :
  handle_key_package engine now gid mid skey ikey kp s = (s', Some w) →
  ∃ s1 s2 s3 rid status, 
    upsert_pending_group_admission_request now gid mid skey ikey kp s = Ok (s1, rid)
    ∧ group_admission_mode gid s = AutomaticWhenAuthorizedOnline
    ∧ local_online_admission_authority now gid s1 = Ok (local_user_id s)
    ∧ already_admitted gid mid s1 = false
    ∧ openmls_admission_welcome_from_frame engine now gid mid skey ikey kp s1 = (s2, Ok w)
    ∧ mark_group_admission_decision gid rid true (local_user_id s) (dt_to_rfc3339 now)
        (Some "Automatically approved while an authorized owner/staff member was online"%string) s2
      = Ok (s3, status)
    ∧ st_groups s' = st_groups s3.
Proof.
  unfold handle_key_package.
  destruct (upsert_pending_group_admission_request _ _ _ _ _ _ _) as [[s1 rid]|] eqn:Eu; [|done].
  case_bool_decide as Hm; [done|].
  destruct (local_online_admission_authority _ _ _) as [by_|] eqn:Ea; [|done].
  assert (by_ = local_user_id s) as ->.
  { apply authority_inv in Ea as [-> _]. apply upsert_pending_inv in Eu as (_ & ? & _).
    by apply local_user_id_ext. }
  destruct (already_admitted gid mid s1) eqn:Ead; [done|].
  destruct (openmls_admission_welcome_from_frame _ _ _ _ _ _ _ _) as [s2 [welcome|]] eqn:Ew; [|done].
  destruct (mark_group_admission_decision _ _ _ _ _ _ _) as [[s3 status]|] eqn:Emk; [|done].
  intros [= <- <-]. exists s1, s2, s3, rid, status. split_and!; try done.
  by destruct (group_admission_mode gid s).
Qed.

(** C10. Nobody is admitted automatically without an online authority: a key package is answered
    with a Welcome only in a group in automatic mode, by a host that is an owner or staff member of
    it with a running presence lease, and for a joiner the roster does not already list; the Welcome
    then names that host, that group and that joiner's key, the joiner is on the roster, and the
    request is decided. *)
Theorem automatic_admission_is_authorized engine now gid mid skey ikey kp s s' w :
  handle_key_package engine now gid mid skey ikey kp s = (s', Some w) →
  ∃ g g' r welcome epoch tag snap host_key,
    find_group gid s = Some g ∧ find_group gid s' = Some g'
    ∧ rp_admission_mode (gv_role_policy g) = AutomaticWhenAuthorizedOnline
    ∧ online_authority now g (local_user_id s)
    ∧ already_admitted gid mid s = false ∧ already_admitted gid mid s' = true
    ∧ w = OpenMlsAdmissionWelcome gid (local_user_id s) host_key skey welcome epoch tag snap
    ∧ find_request (admission_request_id gid mid skey) g' = Some r
    ∧ ar_status r ≠ "pending"%string.
Proof.
  intros (s1 & s2 & s3 & rid & status & Hu & Hmode & Ha & Had & Hw & Hmk & Hs)%key_package_inv.
  destruct (upsert_pending_inv _ _ _ _ _ _ _ _ _ Hu) as (-> & Hp & _ & g & g1 & Hg & Hg1 & Hm1 & _).
  destruct (authority_inv _ _ _ _ Ha) as (_ & g1' & E & Hauth). simplify_eq.
  destruct (welcome_inv _ _ _ _ _ _ _ _ _ _ Hw) as
    (handle & own & member & welcome & epoch & tag & t & k & snap & _ & _ & _ & _ & Hwl & _ & _ & _ & ->).
  assert (local_user_id s1 = local_user_id s) as El by by apply local_user_id_ext.
  rewrite El.
  destruct (mark_decides _ _ _ _ _ _ _ _ _ Hmk) as (g2 & _ & g' & r & Hg2 & _ & Hg' & Hr & Hmem & Hrp & _).
  exists g, g', r, welcome, epoch, (confirmation_sha256 tag), snap, (public_key_hex k).
  split_and!; try done.
  - by rewrite (find_group_ext gid s' s3).
  - unfold group_admission_mode in Hmode. by rewrite Hg in Hmode.
  - destruct Hauth as [(m & e & v & Hm & Hrest)]. split. exists m, e, v. by rewrite <- Hm1.
  - rewrite <- Had. symmetry. apply already_admitted_ext. by rewrite Hg1, Hg; cbn; rewrite Hm1.
  - rewrite <- (welcomed_admits _ _ _ _ _ _ _ _ Hwl) by eauto. apply already_admitted_ext.
    rewrite (find_group_ext gid s' s3), Hg', Hg2 by done. cbn. by rewrite Hmem.
Qed.

(** A joiner is welcomed once: after a Welcome, no key package of that joiner for that group,
    under any key and at any time, is answered with another one. *)
Theorem welcome_is_issued_once engine engine' now now' gid mid skey ikey kp skey' ikey' kp' s s' w :
  handle_key_package engine now gid mid skey ikey kp s = (s', Some w) →
  (handle_key_package engine' now' gid mid skey' ikey' kp' s').2 = None.
Proof.
  intros (s1 & s2 & s3 & rid & status & Hu & _ & _ & _ & Hw & Hmk & Hs)%key_package_inv.
  destruct (upsert_pending_inv _ _ _ _ _ _ _ _ _ Hu) as (_ & _ & _ & _ & g1 & _ & Hg1 & _).
  destruct (welcome_inv _ _ _ _ _ _ _ _ _ _ Hw) as
    (? & ? & ? & ? & ? & ? & ? & ? & ? & _ & _ & _ & _ & Hwl & _).
  apply welcomed_admits in Hwl; [|eauto].
  destruct (mark_decides _ _ _ _ _ _ _ _ _ Hmk) as (g2 & _ & g' & _ & Hg2 & _ & Hg' & _ & Hmem & _).
  destruct (handle_key_package engine' _ _ _ _ _ _ _) as [t [w'|]] eqn:E; [|done]. exfalso.
  apply key_package_inv in E as (t1 & _ & _ & rid' & _ & Ht & _ & _ & Hno & _).
  destruct (upsert_pending_inv _ _ _ _ _ _ _ _ _ Ht) as (_ & _ & _ & h & h' & Hh & Hh' & Hm & _).
  rewrite (find_group_ext gid s' s3), Hg' in Hh by done. injection Hh as <-.
  rewrite (already_admitted_ext gid mid s2) in Hno; [congruence|].
  by rewrite Hh', Hg2; cbn; rewrite Hm, Hmem.
Qed.

(** A refusal does not bind automatic admission: when the joiner of a refused request sends
    its key package again while the group is in automatic mode and an authority is online, it is
    welcomed and put on the roster, and the request still reads refused. *)
Theorem refusal_does_not_stop_automatic_admission engine now gid mid skey ikey kp s g r s2 w :
  find_group gid s = Some g →
  find_request (admission_request_id gid mid skey) g = Some r → ar_status r = "refused"%string →
  rp_admission_mode (gv_role_policy g) = AutomaticWhenAuthorizedOnline →
  local_online_admission_authority now gid s = Ok (local_user_id s) →
  already_admitted gid mid s = false →
  openmls_admission_welcome_from_frame engine now gid mid skey ikey kp s = (s2, Ok w) →
  ∃ s' g', handle_key_package engine now gid mid skey ikey kp s = (s', Some w)
    ∧ already_admitted gid mid s' = true ∧ find_group gid s' = Some g'
    ∧ find_request (admission_request_id gid mid skey) g' = Some r.
Proof.
  intros Hg Hr Hst Hmode Ha Had Hw. unfold handle_key_package.
  set (rid := admission_request_id gid mid skey) in *.
  assert (upsert_pending_group_admission_request now gid mid skey ikey kp s = Ok (s, rid)) as ->.
  { unfold upsert_pending_group_admission_request. rewrite Hg. cbn [ok_or rbind]. fold rid.
    rewrite (proj2 (existsb_find_first _ _)) by eauto. do 2 f_equal.
    assert (∀ f, (f g = g) → update_group gid f s = s) as Hid.
    { intros f Hf. unfold update_group. rewrite update_first_id; [by destruct s|]. intros h Hh.
      unfold find_group in Hg. congruence. }
    apply Hid. unfold update_request. rewrite update_first_id; [by destruct g|]. intros q Hq.
    unfold find_request in Hr. assert (q = r) as -> by congruence. by rewrite Hst. }
  unfold group_admission_mode. rewrite Hg. cbn [from_option]. rewrite Hmode, bool_decide_eq_false_2 by done.
  rewrite Ha, Had, Hw.
  destruct (welcome_inv _ _ _ _ _ _ _ _ _ _ Hw) as
    (? & ? & ? & ? & epoch & tag & ? & ? & ? & _ & _ & _ & _ & Hwl & _).
  destruct (welcomed_evolves _ _ _ _ _ _ _ _ Hwl gid g Hg) as (g2 & Hg2 & [Hdec _]).
  assert (find_request rid g2 = Some r) as Hr2 by (apply Hdec; [done|by rewrite Hst]).
  apply welcomed_admits in Hwl; [|eauto].
  destruct (mark_group_admission_decision _ _ _ _ _ _ _) as [[s3 status]|error] eqn:Emk.
  - destruct (mark_keeps_decided _ _ _ _ _ _ _ _ _ gid rid g2 r Emk Hg2 Hr2) as (g3 & Hg3 & Hr3 & Hm3);
      [by rewrite Hst|].
    eexists _, g3. split; [done|]. rewrite find_group_push_event. split; [|done].
    rewrite <- Hwl. apply already_admitted_ext. rewrite find_group_push_event, Hg3, Hg2. cbn. by rewrite Hm3.
  - exfalso. unfold mark_group_admission_decision in Emk. rewrite Hg2 in Emk. cbn [ok_or rbind] in Emk.
    unfold find_request in Hr2. rewrite Hr2 in Emk. cbn [ok_or rbind] in Emk. by repeat case_match.
Qed.

(** *** Joining *)

Lemma retry_frame engine clock gid s s' n :
  retry_openmls_plaintext_render_for_group engine clock gid s = (s', n) →
  s' = {| s with st_messages := st_messages s' |}.
Proof.
  unfold retry_openmls_plaintext_render_for_group. set (l := retain _ _). clearbody l.
  generalize 0 as n0. revert s. induction l as [|r l IH]; intros s n0.
  - intros [= <- _]. by destruct s.
  - cbn [foldl]. destruct (retry_render _ _ _ _ _) as [s1 n1] eqn:E. intros Hs.
    apply IH in Hs. rewrite Hs. unfold retry_render in E.
    destruct (find_first _ _) as [m|]; [|injection E as <- _; by destruct s].
    destruct (retried_plaintext _ _ _ _ _) as [[key plaintext]|]; injection E as <- _; by destruct s.
Qed.

Lemma schema_cases gid event_id snap s s' b :
  apply_group_channel_schema_snapshot gid event_id snap s = Ok (s', b) →
  s' = s ∨ s' = settle_active_context gid (csn_channels snap)
             (update_group gid (schema_applied gid event_id snap) s).
Proof.
  unfold apply_group_channel_schema_snapshot. intros R. gov R as [] _. gov R as [] _. gov R as g _.
  gov R as actor _. gov R as ? _. gov R as ? _. gov R as cur _. gov R as inc _.
  destruct ((_ <? _) || _); [injection R as <- _; eauto|]. gov R as ? _. injection R as <- _. eauto.
Qed.

Lemma settle_groups gid channels s : st_groups (settle_active_context gid channels s) = st_groups s.
Proof. unfold settle_active_context. by case_match. Qed.

Lemma settle_handles gid channels s :
  st_openmls_groups (settle_active_context gid channels s) = st_openmls_groups s.
Proof. unfold settle_active_context. by case_match. Qed.

Lemma schema_evolves gid event_id snap s s' b :
  apply_group_channel_schema_snapshot gid event_id snap s = Ok (s', b) → evolves s s'.
Proof.
  intros [->| ->]%schema_cases; [reflexivity|].
  etransitivity; [|apply evolves_groups, settle_groups].
  apply evolves_requests; intros g; unfold schema_applied; destruct (has_event _ _); try done; by eexists.
Qed.

Lemma upsert_handle_groups record s :
  st_groups (upsert_openmls_group_handle record s) = st_groups s
  ∧ st_profile (upsert_openmls_group_handle record s) = st_profile s
  ∧ st_text_control_outbox (upsert_openmls_group_handle record s) = st_text_control_outbox s.
Proof. unfold upsert_openmls_group_handle. by destruct (has_openmls_handle _ _). Qed.

Lemma install_owner_id now owner key g : gv_group_id (install_owner now owner key g) = gv_group_id g.
Proof. unfold install_owner. by destruct (existsb _ _). Qed.

Lemma install_owner_requests now owner key g :
  gv_admission_requests (install_owner now owner key g) = gv_admission_requests g.
Proof. unfold install_owner. by destruct (existsb _ _). Qed.

Lemma install_owner_log now owner key g :
  gv_governance_log g `prefix_of` gv_governance_log (install_owner now owner key g).
Proof. unfold install_owner. by destruct (existsb _ _). Qed.

Lemma upsert_admitted_evolves now gid mid key s :
  evolves s (upsert_admitted_group_member_with_governance_signer now gid mid key s).
Proof.
  destruct (upsert_admitted_inv now gid mid key s) as (s0 & peer & n & -> & Hs & _).
  transitivity s0; [by apply evolves_groups|].
  apply evolves_requests; intros; [apply admit_member_id|apply admit_member_requests|apply admit_member_log].
Qed.

(** The state in which the joiner applies the schema. *)
Definition joining (now : datetime) (gid owner owner_key : string)
    (record : OpenMlsGroupHandleRecord) (s : PersistedAppState) : PersistedAppState :=
  let s := upsert_openmls_group_handle record s in
  let local := local_user_id s in
  let '(s, k) := identity_signing_key s in
  let s := upsert_admitted_group_member_with_governance_signer now gid local (public_key_hex k) s in
  if owner =s local then s else update_group gid (install_owner now owner owner_key) s.

Lemma joining_evolves now gid owner owner_key record s :
  evolves s (joining now gid owner owner_key record s).
Proof.
  unfold joining. set (t := upsert_openmls_group_handle record s).
  destruct (identity_signing_key t) as [s1 k] eqn:Ek.
  transitivity s1.
  { apply evolves_groups. destruct (identity_key_groups _ _ _ Ek) as (-> & _).
    apply upsert_handle_groups. }
  etransitivity; [apply upsert_admitted_evolves|]. destruct (_ =s _); [reflexivity|].
  apply evolves_requests; intros; [apply install_owner_id|apply install_owner_requests|apply install_owner_log].
Qed.

(** The handle a join installs. *)
Definition joined_handle (engine : MlsEngine) (gid skey : string) (epoch : N) (tag : bytes) :
    OpenMlsGroupHandleRecord := {|
  oh_group_id := gid;
  oh_signer_public_key_hex := skey;
  oh_epoch := epoch;
  oh_local_leaf := 1;
  oh_confirmation_tag_sha256 := confirmation_sha256 tag;
  oh_openmls_store_path := Some (me_store_path engine);
  oh_status_copy := "OpenMLS member joined from text/control admission Welcome"
|}.

(** A join stops before it changes anything, or goes through [joining]. *)
Lemma join_cases engine joined now clock gid owner owner_key skey welcome epoch tag snap s :
  let frame := OpenMlsAdmissionWelcome gid owner owner_key skey welcome epoch tag snap in
  (join_openmls_from_admission_welcome_frame engine joined now clock frame s).1 = s
  ∨ ∃ e t, let s1 := joining now gid owner owner_key (joined_handle engine gid skey e t) s in
      match apply_group_channel_schema_snapshot gid
              ("mls-admission-channel-schema-" +:+ pretty (csn_schema_epoch snap)) snap s1 with
      | Err error => join_openmls_from_admission_welcome_frame engine joined now clock frame s
                     = (s1, Err (gov_error_text error))
      | Ok (s2, _) => ∃ s3 events n,
          join_openmls_from_admission_welcome_frame engine joined now clock frame s
          = ({| s3 with st_events := events; st_next_sequence := n |}, Ok tt)
          ∧ st_groups s3 = st_groups s2 ∧ st_openmls_groups s3 = st_openmls_groups s2
          ∧ st_profile s3 = st_profile s2 ∧ st_text_control_outbox s3 = st_text_control_outbox s2
      end.
Proof.
  cbn zeta. unfold join_openmls_from_admission_welcome_frame.
  destruct (head _) as [key|]; [|by left]. destruct (_ || _); [by left|].
  destruct (rbind _ _) as [[se st]|]; [|by left]. right.
  exists (N.max se epoch), st. unfold joining. fold (joined_handle engine gid skey (N.max se epoch) st).
  set (t := upsert_openmls_group_handle _ s). destruct (identity_signing_key t) as [s1 k].
  destruct (apply_group_channel_schema_snapshot _ _ _ _) as [[s2 b]|error]; [|done].
  destruct (retry_openmls_plaintext_render_for_group _ _ _ _) as [s3 n] eqn:Er.
  apply retry_frame in Er. exists s3. destruct (0 <? n).
  - eexists _, _. split; [reflexivity|]. by rewrite Er.
  - exists (st_events s3), (st_next_sequence s3). split; [by destruct s3|by rewrite Er].
Qed.

Lemma key_package_evolves engine now gid mid skey ikey kp s :
  evolves s (handle_key_package engine now gid mid skey ikey kp s).1.
Proof.
  unfold handle_key_package.
  destruct (upsert_pending_group_admission_request _ _ _ _ _ _ _) as [[s1 rid]|] eqn:Eu;
    [|by apply evolves_groups].
  transitivity s1; [by eapply upsert_pending_evolves|]. case_bool_decide; [reflexivity|].
  destruct (local_online_admission_authority _ _ _) as [by_|]; [|by apply evolves_groups].
  destruct (already_admitted _ _ _); [reflexivity|].
  pose proof (welcome_evolves engine now gid mid skey ikey kp s1) as Hw.
  destruct (openmls_admission_welcome_from_frame _ _ _ _ _ _ _ _) as [s2 [w|]];
    [|by etransitivity; [exact Hw|apply evolves_groups]].
  destruct (mark_group_admission_decision _ _ _ _ _ _ _) as [[s3 status]|] eqn:Em;
    [|by etransitivity; [exact Hw|apply evolves_groups]].
  apply mark_evolves in Em. transitivity s2; [exact Hw|]. transitivity s3; [done|].
  by apply evolves_groups.
Qed.

Lemma admission_decision_evolves now gid rid approved reason by_ at_ s :
  evolves s (handle_admission_decision now gid rid approved reason by_ at_ s).
Proof.
  unfold handle_admission_decision.
  destruct (mark_group_admission_decision _ _ _ _ _ _ _) as [[s3 status]|] eqn:Em;
    [by eapply mark_evolves|]. case_match; by apply evolves_groups.
Qed.

Lemma welcome_frame_evolves engine joined now frame s :
  evolves s (handle_welcome engine joined now frame s).
Proof.
  assert (evolves s (join_openmls_from_admission_welcome_frame engine joined now now frame s).1)
    as Hj.
  { destruct frame; try reflexivity.
    destruct (join_cases engine joined now now group_id owner_member_id
      owner_identity_signer_public_key_hex member_signer_public_key_hex welcome_bytes epoch
      confirmation_tag_sha256 channel_schema s) as [->|(e & t & Hj)]; [reflexivity|]. cbv zeta in Hj.
    destruct (apply_group_channel_schema_snapshot _ _ _ _) as [[s2 b]|error] eqn:Ea.
    - destruct Hj as (s3 & events & n & -> & Hg & _). apply schema_evolves in Ea.
      etransitivity; [apply joining_evolves|]. etransitivity; [exact Ea|]. by apply evolves_groups.
    - rewrite Hj. apply joining_evolves. }
  unfold handle_welcome. destruct (join_openmls_from_admission_welcome_frame _ _ _ _ _ _) as [s1 [?|?]];
    [exact Hj|]. etransitivity; [exact Hj|]. by apply evolves_groups.
Qed.

(** *** Revocation frames *)

Lemma cleanup_routes_frame now gid s :
  let s' := cleanup_group_text_routes now gid s in
  st_groups s' = st_groups s ∧ st_openmls_groups s' = st_openmls_groups s
  ∧ st_profile s' = st_profile s.
Proof.
  cbn zeta. unfold cleanup_group_text_routes. set (targets := from_option _ _ _). clearbody targets.
  revert s. induction targets as [|t l IH]; intros s; [done|]. cbn [foldl].
  destruct (route_peer_ids_for_text_target now t s) as [current|]; [|apply IH].
  destruct (IH (cleanup_text_control_outbox_routes_for_target t current s).1) as (-> & -> & ->). done.
Qed.

Lemma apply_revoked_handles gid event_id actor target at_ status s :
  st_openmls_groups (apply_group_member_revoked gid event_id actor target at_ status s)
  = st_openmls_groups (forget_local_handle gid target s).
Proof. unfold apply_group_member_revoked. repeat case_match; done. Qed.

Lemma dropped_handle gid s : has_openmls_handle (drop_openmls_handle gid s) gid = false.
Proof.
  unfold has_openmls_handle, drop_openmls_handle. cbn. apply not_true_is_false.
  intros (r & Hin%list_elem_of_In & Hr)%existsb_exists. apply elem_of_retain in Hin as [_ Hk].
  by rewrite Hr in Hk.
Qed.

(** A bare revocation notice is believed: a frame without a removal commit that names the
    receiver, from any claimed actor (on the roster or not) and with no signature to check, makes the
    receiver mark itself revoked and discard its OpenMLS handle of the group. *)
Theorem bare_notice_revokes_the_receiver engine now gid event_id actor at_ status epoch tag s g m :
  find_group gid s = Some g → has_event event_id g = false →
  find_first (is_member (local_user_id s)) (gv_members g) = Some m →
  ∃ s' frame g' m', handle_member_revoked engine now gid event_id actor (local_user_id s) at_ status
      None epoch tag s = (s', Some frame)
    ∧ has_openmls_handle s' gid = false ∧ find_group gid s' = Some g'
    ∧ find_first (is_member (local_user_id s)) (gv_members g') = Some m'
    ∧ gm_status m' = "revoked"%string ∧ gm_revoked_by m' = Some actor.
Proof.
  intros Hg He Hm. unfold handle_member_revoked. rewrite str_eqb_refl. cbn [negb].
  destruct (revoked_row gid event_id actor (local_user_id s) at_ status s g Hg He) as (g' & Hg' & Hm').
  rewrite Hm in Hm'. eexists _, _, g', _. split; [reflexivity|].
  destruct (cleanup_routes_frame now gid
    (apply_group_member_revoked gid event_id actor (local_user_id s) at_ status s)) as (Eg & Eh & _).
  split_and!; [|by rewrite (find_group_ext gid _ _ Eg)|exact Hm'|done|done].
  unfold has_openmls_handle. rewrite Eh, apply_revoked_handles. unfold forget_local_handle.
  rewrite str_eqb_refl. apply dropped_handle.
Qed.

Lemma apply_revoked_evolves gid event_id actor target at_ status s :
  evolves s (apply_group_member_revoked gid event_id actor target at_ status s).
Proof.
  unfold apply_group_member_revoked. transitivity (forget_local_handle gid target s);
    [apply evolves_groups, forget_local_handle_groups|].
  case_match; [|reflexivity]. case_match; [reflexivity|].
  apply evolves_requests; intros; [apply member_revoked_id|..]; unfold member_revoked;
    destruct (_ && _); try done; by eexists.
Qed.

Lemma removal_commit_groups engine gid target commit epoch tag s :
  st_groups (apply_openmls_group_member_removal_commit engine gid target commit epoch tag s).1
  = st_groups s.
Proof.
  unfold apply_openmls_group_member_removal_commit. cbv zeta. destruct (rbind _ _) as [[e t]|]; [|done].
  by case_match.
Qed.

Lemma member_revoked_evolves engine now gid event_id actor target at_ status commit epoch tag s :
  evolves s (handle_member_revoked engine now gid event_id actor target at_ status commit
                     epoch tag s).1.
Proof.
  assert (∀ t, evolves t (cleanup_group_text_routes now gid
    (apply_group_member_revoked gid event_id actor target at_ status t))) as Happly.
  { intros t. etransitivity; [apply apply_revoked_evolves|].
    apply evolves_groups, cleanup_routes_frame. }
  unfold handle_member_revoked. destruct commit as [commit|].
  - destruct epoch as [epoch|], tag as [tag|]; try by apply evolves_groups.
    pose proof (removal_commit_groups engine gid target commit epoch tag s) as Hc.
    destruct (apply_openmls_group_member_removal_commit _ _ _ _ _ _ _) as [s1 [?|?]]; cbn in Hc.
    + transitivity s1; [by apply evolves_groups|apply Happly].
    + by apply evolves_groups.
  - destruct (negb _); [by apply evolves_groups|apply Happly].
Qed.

(** *** Two requests *)

Lemma queue_key_package_outbox engine gid s s' u :
  queue_openmls_admission_key_package engine gid s = (s', u) →
  ∃ l, st_text_control_outbox s' = st_text_control_outbox s ++ l.
Proof.
  unfold queue_openmls_admission_key_package.
  destruct (has_openmls_handle s gid); [intros [= <- _]; exists []; by rewrite app_nil_r|].
  destruct (me_generate_member_package _ _) as [[signer package]|];
    [|intros [= <- _]; exists []; by rewrite app_nil_r].
  destruct (identity_signing_key s) as [s1 k] eqn:Ek.
  destruct (identity_key_groups _ _ _ Ek) as (_ & _ & _ & Eo).
  destruct (text_control_frame_sha256 _) as [sha|];
    [|intros [= <- _]; exists []; by rewrite app_nil_r].
  destruct (existsb _ _); intros [= <- _]; cbn; rewrite Eo; eauto. exists []. by rewrite app_nil_r.
Qed.

(** A joiner waiting for one group cannot join another: while the outbox holds the key package
    of an earlier request (nothing takes it out), a later request for a second group is queued, but a
    Welcome for that second group, addressed to the later request's key, changes nothing and is not
    reported. *)
Theorem second_request_cannot_join engine engine' joined now clock gid s s' k1 k2 owner owner_key
    welcome epoch tag snap :
  head (omap own_key_package_signer (st_text_control_outbox s)) = Some k1 → k2 ≠ k1 →
  queue_openmls_admission_key_package engine gid s = (s', Ok tt) →
  join_openmls_from_admission_welcome_frame engine' joined now clock
    (OpenMlsAdmissionWelcome gid owner owner_key k2 welcome epoch tag snap) s' = (s', Ok tt).
Proof.
  intros Hk Hne (l & Hl)%queue_key_package_outbox.
  unfold join_openmls_from_admission_welcome_frame. rewrite Hl, omap_app.
  destruct (omap _ (st_text_control_outbox s)) as [|k rest]; [done|]. cbn in *. injection Hk as ->.
  by rewrite (proj2 (str_eqb_false _ _)).
Qed.

(** *** The handshake *)

Context `{!Sha256Laws, !Sha256Octets, !HexLaws, !Ed25519Laws}.

Lemma find_first_and {A} (p q : A → bool) l x :
  find_first p l = Some x → q x = true → find_first (λ y, p y && q y) l = Some x.
Proof.
  intros Hp Hq. induction l as [|y l IH]; [done|]. simpl in *.
  destruct (p y); simpl; [simplify_eq; by rewrite Hq|auto].
Qed.

(** The owner's row after a join. *)
Lemma install_owner_row now owner key g :
  ∃ o, find_first (is_member owner) (gv_members (install_owner now owner key g)) = Some o
    ∧ gm_role o = RoleOwner ∧ gm_status o = "unknown"%string
    ∧ gm_signer_public_key_hex o = Some key.
Proof.
  unfold install_owner. destruct (existsb _ _) eqn:E.
  - apply existsb_find_first in E as [m Hm]. eexists. cbn. rewrite find_update_first, Hm by done. done.
  - apply find_first_none in E. eexists.
    split; [apply find_first_app_new; [done|apply str_eqb_refl]|done].
Qed.

Lemma install_owner_other now owner key g other :
  other ≠ owner →
  find_first (is_member other) (gv_members (install_owner now owner key g))
  = find_first (is_member other) (gv_members g).
Proof.
  intros Hne. assert (∀ m, is_member owner m = true → is_member other m = false) as Hd.
  { intros m Hm%is_member_true. unfold is_member. rewrite Hm. apply str_eqb_false. congruence. }
  unfold install_owner. destruct (existsb _ _) eqn:E; [by apply find_update_first_other|].
  cbn. rewrite find_first_app. destruct (find_first _ _); [done|]. cbn.
  by rewrite Hd by apply str_eqb_refl.
Qed.

Lemma install_owner_channels now owner key g :
  gv_channels (install_owner now owner key g) = gv_channels g
  ∧ gv_channel_schema_epoch (install_owner now owner key g) = gv_channel_schema_epoch g.
Proof. unfold install_owner. by destruct (existsb _ _). Qed.

Lemma identity_key_ext s t :
  st_identity_seed_hex s = st_identity_seed_hex t → st_profile s = st_profile t →
  st_next_sequence s = st_next_sequence t → (identity_signing_key s).2 = (identity_signing_key t).2.
Proof.
  intros E1 E2 E3. unfold identity_signing_key, identity_seed_bytes. rewrite E1, E2, E3.
  destruct (_ && _); cbn; by rewrite ?E1, ?E2, ?E3.
Qed.

(** The joiner's group when the schema arrives. *)
Lemma joining_group now gid owner owner_key record j h :
  find_group gid j = Some h → owner ≠ local_user_id j →
  ∃ h1 m o, find_group gid (joining now gid owner owner_key record j) = Some h1
    ∧ gv_channels h1 = gv_channels h ∧ gv_channel_schema_epoch h1 = gv_channel_schema_epoch h
    ∧ find_first (is_member (local_user_id j)) (gv_members h1) = Some m
    ∧ admitted_row (local_user_id j) (public_key_hex (identity_signing_key j).2) m
    ∧ find_first (is_member owner) (gv_members h1) = Some o
    ∧ gm_role o = RoleOwner ∧ gm_status o = "unknown"%string
    ∧ gm_signer_public_key_hex o = Some owner_key.
Proof.
  intros Hh Hne. unfold joining. set (t := upsert_openmls_group_handle record j).
  destruct (upsert_handle_groups record j) as (Tg & Tp & _). fold t in Tg, Tp.
  rewrite (local_user_id_ext _ _ Tp).
  assert ((identity_signing_key t).2 = (identity_signing_key j).2) as Ekey.
  { apply identity_key_ext; unfold t, upsert_openmls_group_handle; by case_match. }
  destruct (identity_signing_key t) as [s1 k] eqn:Ek. cbn [snd] in Ekey. rewrite <- Ekey.
  destruct (identity_key_groups _ _ _ Ek) as (G1 & P1 & _).
  rewrite (proj2 (str_eqb_false _ _)) by done.
  destruct (upsert_admitted_inv now gid (local_user_id j) (public_key_hex k) s1)
    as (s0 & peer & n & -> & G0 & _).
  rewrite find_update_group by apply install_owner_id.
  rewrite find_update_group by apply admit_member_id.
  rewrite (find_group_ext gid s0 j), Hh by (by rewrite G0, G1). cbn [fmap option_fmap option_map].
  set (h0 := admit_member _ _ _ _ _ _ _ h).
  destruct (admit_member_row now gid (local_user_id j) (public_key_hex k) (local_user_id s1) peer n h)
    as (m & Hm & Hrow).
  destruct (install_owner_row now owner owner_key h0) as (o & Ho & Hor & Hos & Hok).
  destruct (install_owner_channels now owner owner_key h0) as [C1 C2].
  destruct (admit_member_channels now gid (local_user_id j) (public_key_hex k) (local_user_id s1) peer n h)
    as [C3 C4].
  eexists _, m, o. split; [reflexivity|]. rewrite C1, C2. unfold h0. rewrite C3, C4.
  split_and!; try done. by rewrite install_owner_other by done.
Qed.

(** The joiner's handle once installed. *)
Lemma joining_handles now gid owner owner_key record j :
  st_openmls_groups (joining now gid owner owner_key record j)
  = st_openmls_groups (upsert_openmls_group_handle record j).
Proof.
  unfold joining. set (t := upsert_openmls_group_handle record j).
  destruct (identity_signing_key t) as [s1 k] eqn:Ek.
  destruct (identity_key_groups _ _ _ Ek) as (_ & _ & <- & _).
  destruct (upsert_admitted_inv now gid (local_user_id t) (public_key_hex k) s1)
    as (s0 & peer & n & -> & _ & _ & <- & _). by destruct (_ =s _).
Qed.

Lemma installed_handle record j :
  has_openmls_handle j (oh_group_id record) = false →
  find_handle (oh_group_id record) (upsert_openmls_group_handle record j) = Some record.
Proof.
  intros Hno. unfold upsert_openmls_group_handle. rewrite Hno. unfold find_handle. cbn.
  apply find_first_app_new; [by apply find_first_none|apply str_eqb_refl].
Qed.

Lemma schema_applied_members gid event_id snap g :
  gv_members (schema_applied gid event_id snap g) = gv_members g
  ∧ gv_channels (schema_applied gid event_id snap g) = csn_channels snap
  ∧ gv_channel_schema_epoch (schema_applied gid event_id snap g) = csn_schema_epoch snap.
Proof. unfold schema_applied. by destruct (has_event _ _). Qed.

(** What a joiner that has asked for [gid] with the key [skey] still lacks. *)
Record awaiting (gid skey : string) (s j : PersistedAppState) (h : GroupView) : Prop := {
  aj_group : find_group gid j = Some h;
  aj_request : head (omap own_key_package_signer (st_text_control_outbox j)) = Some skey;
  aj_handle : has_openmls_handle j gid = false;
  aj_host : local_user_id s ≠ local_user_id j;
  aj_channels : is_ok (channels_to_vec (gv_channels h)) = true;
  aj_older : ∀ g, find_group gid s = Some g →
    gv_channel_schema_epoch h < gv_channel_schema_epoch g
}.

Lemma snapshot_epoch gid at_ s s' snap :
  signed_group_channel_schema_snapshot gid at_ s = (s', Ok snap) →
  ∃ g, find_group gid s' = Some g ∧ csn_channels snap = gv_channels g
    ∧ csn_schema_epoch snap = gv_channel_schema_epoch g.
Proof.
  unfold signed_group_channel_schema_snapshot. destruct (identity_signing_key s) as [s0 k].
  intros [= -> R]. apply rbind_ok in R as (g & Hg%ok_or_ok & R).
  apply rbind_ok in R as (? & _ & R). apply rbind_ok in R as (? & _ & R).
  apply rbind_ok in R as (? & _ & R). apply rbind_ok in R as (? & _ & R).
  apply rbind_ok in R as (? & _ & R). injection R as <-. by exists g.
Qed.

(** The computation of a join once the engine has accepted the Welcome and the schema applies. *)
Lemma join_runs engine joined now clock gid owner owner_key skey welcome member epoch tag snap j
    s2 b :
  head (omap own_key_package_signer (st_text_control_outbox j)) = Some skey →
  has_openmls_handle j gid = false → hex_decode skey = Ok member →
  me_join_from_welcome engine gid member welcome = Ok (epoch, tag) →
  apply_group_channel_schema_snapshot gid
    ("mls-admission-channel-schema-" +:+ pretty (csn_schema_epoch snap)) snap
    (joining now gid owner owner_key (joined_handle engine gid skey epoch tag) j) = Ok (s2, b) →
  ∃ j', join_openmls_from_admission_welcome_frame engine joined now clock
      (OpenMlsAdmissionWelcome gid owner owner_key skey welcome epoch (confirmation_sha256 tag) snap) j
      = (j', Ok tt)
    ∧ st_groups j' = st_groups s2 ∧ st_openmls_groups j' = st_openmls_groups s2.
Proof.
  intros Hreq Hno Hhex Hjoin Happ. unfold join_openmls_from_admission_welcome_frame.
  rewrite Hreq, str_eqb_refl, Hno, Hhex. cbn [negb orb map_err rbind]. rewrite Hjoin.
  cbn [rbind snd]. rewrite str_eqb_refl. cbn [negb reject_if rbind]. rewrite N.max_id.
  fold (joined_handle engine gid skey epoch tag). unfold joining in Happ.
  set (t := upsert_openmls_group_handle _ j) in *.
  destruct (identity_signing_key t) as [s1 k]. rewrite Happ.
  destruct (retry_openmls_plaintext_render_for_group _ _ _ _) as [s3 n] eqn:Er.
  apply retry_frame in Er. eexists. split; [reflexivity|]. rewrite Er. by destruct (0 <? n).
Qed.


End admission.

(** ** A concrete admission *)

Module AdmissionToy.

#[local] Existing Instance Toy.toy_sha.
#[local] Existing Instance Toy.toy_ed.
#[local] Existing Instance Toy.toy_hex.
#[local] Existing Instance Toy.toy_aead.
#[local] Existing Instance Toy.toy_chrono.
#[local] Existing Instance Toy.toy_rfc3339.
#[local] Existing Instance DeskToy.toy_seed.
#[local] Existing Instance DeskToy.toy_json.
#[local] Existing Instance DeskToy.toy_texts.

(** An engine that adds and joins one member at epoch 3. *)
Definition engine : MlsEngine :=
  {| DeliveryToy.empty_engine with
     me_generate_member_package := λ _, Ok ([9], [7]);
     me_add_member_package := λ _ _ _ _, Ok (Some [5], 3, [4]);
     me_join_from_welcome := λ _ _ _, Ok (3, [4]) |}.

Definition host_row : GroupMemberView :=
  {| (GroupToy.row "user-alice" GroupToy.alice_key RoleOwner (Some "peer-a"%string)) with
     gm_status := "online"; gm_presence_expires_at := Some (GroupToy.stamp 190) |}.

Definition host_group (requests : list GroupAdmissionRequestView) : GroupView :=
  {| (GroupToy.crew 2 [GroupToy.lobby]) with
     gv_members := [host_row]; gv_admission_requests := requests |}.

Definition handle : OpenMlsGroupHandleRecord := {|
  oh_group_id := "crew"; oh_signer_public_key_hex := hex_encode [1]; oh_epoch := 2; oh_local_leaf := 0;
  oh_confirmation_tag_sha256 := ""; oh_openmls_store_path := None; oh_status_copy := ""
|}.

Definition host (requests : list GroupAdmissionRequestView) : PersistedAppState :=
  {| GroupToy.alice with st_groups := [host_group requests]; st_openmls_groups := [handle] |}.

Definition bobs_signer : string := hex_encode [9].

Definition refused : GroupAdmissionRequestView :=
  decide_request false "user-alice" "t" None
    (pending_request (GroupToy.instant 1) (admission_request_id "crew" "user-bob" bobs_signer) "crew"
       "user-bob" bobs_signer GroupToy.bob_key [7] (gv_role_policy (host_group []))).

Definition asking : GroupAdmissionRequestView :=
  pending_request (GroupToy.instant 1) (admission_request_id "crew" "user-bob" bobs_signer) "crew"
    "user-bob" bobs_signer GroupToy.bob_key [7] (gv_role_policy (host_group [])).

Definition joiner_group : GroupView :=
  {| (GroupToy.crew 1 []) with gv_members := []; gv_role := "pending" |}.

Definition waiting : PersistedAppState :=
  (queue_openmls_admission_key_package engine "crew" {| GroupToy.bob with st_groups := [joiner_group] |}).1.

Notation answered requests :=
  (handle_key_package engine (GroupToy.instant 100) "crew" "user-bob" bobs_signer GroupToy.bob_key [7]
     (host requests)).

Notation welcomed_bob requests :=
  (openmls_admission_welcome_from_frame engine (GroupToy.instant 100) "crew" "user-bob" bobs_signer
     GroupToy.bob_key [7] (host requests)).

Notation approved :=
  (mark_group_admission_decision "crew" (admission_request_id "crew" "user-bob" bobs_signer) true
     "user-alice" "t" None (host [asking])).

End AdmissionToy.

Section witnesses.
#[local] Existing Instance Toy.toy_sha.
#[local] Existing Instance Toy.toy_sha_laws.
#[local] Existing Instance Toy.toy_sha_octets.
#[local] Existing Instance Toy.toy_ed.
#[local] Existing Instance Toy.toy_ed_laws.
#[local] Existing Instance Toy.toy_hex.
#[local] Existing Instance Toy.toy_hex_laws.
#[local] Existing Instance Toy.toy_aead.
#[local] Existing Instance Toy.toy_chrono.
#[local] Existing Instance Toy.toy_rfc3339.
#[local] Existing Instance DeskToy.toy_seed.
#[local] Existing Instance DeskToy.toy_json.
#[local] Existing Instance DeskToy.toy_texts.

Lemma decision_is_applied_once_witness :
  ∃ r, find_request (admission_request_id "crew" "user-bob" AdmissionToy.bobs_signer)
         (AdmissionToy.host_group [AdmissionToy.asking]) = Some r ∧ ar_status r = "pending"%string.
Proof.
  destruct (decision_is_applied_once "crew" (admission_request_id "crew" "user-bob" AdmissionToy.bobs_signer)
    true "user-alice" "t" None (AdmissionToy.host [AdmissionToy.asking])
    (GroupToy.unwrap (GroupToy.alice, Duplicate) AdmissionToy.approved).1 Applied)
    as (g & r & g' & Hg & Hr & _ & _ & Hp & _).
  - apply GroupToy.unwrap_pair; vm_compute; reflexivity.
  - assert (g = AdmissionToy.host_group [AdmissionToy.asking]) as ->.
    { symmetry. injection Hg as Hg. exact Hg. }
    exists r. split; [exact Hr|exact Hp].
Defined.

Lemma automatic_admission_is_authorized_witness :
  ∃ w, (AdmissionToy.answered []).2 = Some w ∧ already_admitted "crew" "user-bob" (AdmissionToy.host []) = false.
Proof.
  destruct ((AdmissionToy.answered []).2) as [w|] eqn:E; [|vm_compute in E; discriminate E].
  destruct (automatic_admission_is_authorized AdmissionToy.engine (GroupToy.instant 100) "crew" "user-bob"
    AdmissionToy.bobs_signer GroupToy.bob_key [7] (AdmissionToy.host []) (AdmissionToy.answered []).1 w)
    as (g & g' & r & welcome & epoch & tag & snap & key & _ & _ & _ & _ & Hno & _).
  - rewrite <- E. apply surjective_pairing.
  - exists w. split; [reflexivity|exact Hno].
Defined.

Lemma welcome_is_issued_once_witness :
  (handle_key_package AdmissionToy.engine (GroupToy.instant 120) "crew" "user-bob" "other" "key" [8]
     (AdmissionToy.answered []).1).2 = None.
Proof.
  destruct ((AdmissionToy.answered []).2) as [w|] eqn:E; [|vm_compute in E; discriminate E].
  apply (welcome_is_issued_once AdmissionToy.engine AdmissionToy.engine (GroupToy.instant 100)
    (GroupToy.instant 120) "crew" "user-bob" AdmissionToy.bobs_signer GroupToy.bob_key [7] "other" "key" [8]
    (AdmissionToy.host []) (AdmissionToy.answered []).1 w).
  rewrite <- E. apply surjective_pairing.
Defined.

Lemma refusal_does_not_stop_automatic_admission_witness :
  ∃ s' w, AdmissionToy.answered [AdmissionToy.refused] = (s', Some w)
    ∧ already_admitted "crew" "user-bob" s' = true.
Proof.
  destruct ((AdmissionToy.welcomed_bob [AdmissionToy.refused]).2) as [w|] eqn:E;
    [|vm_compute in E; discriminate E].
  destruct (refusal_does_not_stop_automatic_admission AdmissionToy.engine (GroupToy.instant 100) "crew"
    "user-bob" AdmissionToy.bobs_signer GroupToy.bob_key [7] (AdmissionToy.host [AdmissionToy.refused])
    (AdmissionToy.host_group [AdmissionToy.refused]) AdmissionToy.refused
    (AdmissionToy.welcomed_bob [AdmissionToy.refused]).1 w) as (s' & g' & H1 & H2 & _);
    [reflexivity|vm_compute; reflexivity|reflexivity|reflexivity|vm_compute; reflexivity
    |vm_compute; reflexivity| |].
  - rewrite <- E. apply surjective_pairing.
  - exists s', w. split; assumption.
Defined.

Lemma bare_notice_revokes_the_receiver_witness :
  ∃ s' frame, handle_member_revoked DeliveryToy.empty_engine (GroupToy.instant 1) "crew" "e1" "nobody"
      "user-alice" "t" "notice" None None None (AdmissionToy.host []) = (s', Some frame)
    ∧ has_openmls_handle s' "crew" = false.
Proof.
  destruct (bare_notice_revokes_the_receiver DeliveryToy.empty_engine (GroupToy.instant 1) "crew" "e1"
    "nobody" "t" "notice" None None (AdmissionToy.host []) (AdmissionToy.host_group [])
    AdmissionToy.host_row) as (s' & frame & g' & m' & H1 & H2 & _); [reflexivity..|].
  exists s', frame. split; assumption.
Defined.

Lemma second_request_cannot_join_witness :
  let s' := (queue_openmls_admission_key_package AdmissionToy.engine "band" AdmissionToy.waiting).1 in
  join_openmls_from_admission_welcome_frame AdmissionToy.engine AdmissionToy.engine (GroupToy.instant 1)
    (GroupToy.instant 1) (OpenMlsAdmissionWelcome "band" "user-alice" GroupToy.alice_key "other" [5] 3 ""
      GroupToy.no_schema) s' = (s', Ok tt).
Proof.
  cbv zeta.
  assert (E : (queue_openmls_admission_key_package AdmissionToy.engine "band" AdmissionToy.waiting).2 = Ok tt)
    by (vm_compute; reflexivity).
  apply (second_request_cannot_join AdmissionToy.engine AdmissionToy.engine AdmissionToy.engine
    (GroupToy.instant 1) (GroupToy.instant 1) "band" AdmissionToy.waiting _ AdmissionToy.bobs_signer "other").
  - vm_compute. reflexivity.
  - vm_compute. discriminate.
  - rewrite <- E. apply surjective_pairing.
Defined.


End witnesses.
