(* ===== verification/DeskVoice.v ===== *)
(** * Desktop application: runtime peers and voice signalling
    (apps/desktop/src-tauri/src/lib.rs)

    Which peer offers and which answers on an edge, the peers a text/control or voice runtime
    attaches to, and the sealed offers, answers and candidates of a voice session: queueing them,
    checking the inbound ones, handing them to the browser. Of a voice session the fields these
    operations read or write are kept; the media runtime, devices and participants are left out. *)

From S2P Require Import Prelude Collections Bytes StrOps Crypto Transport RouteGraph Identity DeliveryError TextEnvelope AppService DeskState DeskGroups DeskDelivery.

Inductive ProviderTextControlRuntimePeerRole := Offerer | Answerer.

#[export] Instance ProviderTextControlRuntimePeerRole_eq_dec :
  EqDecision ProviderTextControlRuntimePeerRole.
Proof. solve_decision. Defined.

Record TextControlRuntimePeerAttachment := {
  tpa_role : ProviderTextControlRuntimePeerRole;
  tpa_local_peer_id : string;
  tpa_remote_peer_id : string
}.

Record VoiceSignalingStateView := {
  vs_session_id : string;
  vs_local_peer_id : string;
  vs_remote_peer_id : string;
  vs_role : string;
  vs_pending_local_signals : N;
  vs_received_remote_signals : N;
  vs_last_signal_kind : option string;
  vs_status_copy : string
}.

Definition VoiceSignalingStateView_default : VoiceSignalingStateView := {|
  vs_session_id := "";
  vs_local_peer_id := "";
  vs_remote_peer_id := "";
  vs_role := "not-started";
  vs_pending_local_signals := 0;
  vs_received_remote_signals := 0;
  vs_last_signal_kind := None;
  vs_status_copy := "Voice signaling has not started; no SDP or ICE has crossed backend state"
|}.

Record VoiceSessionView := {
  vv_session_id : string;
  vv_group_id : string;
  vv_channel_id : string;
  vv_joined : bool;
  vv_signaling : VoiceSignalingStateView
}.

(** The application state with its voice session and the signals waiting for the browser. *)
Record VoiceAppState `{Chrono} := {
  va_app : PersistedAppState;
  va_session : option VoiceSessionView;
  va_inbox : list VoiceSignalingMessageView
}.

Record PublishVoiceSignalingMessageRequest := {
  pv_session_id : string;
  pv_recipient_peer_id : string;
  pv_signal_kind : string;
  pv_sealed_payload : string;
  pv_signal_id : option string;
  pv_created_at_ms : N
}.

Record TakePendingVoiceSignalingMessagesRequest := {
  tv_session_id : option string;
  tv_recipient_peer_id : string;
  tv_sender_peer_id : string;
  tv_limit : option N
}.

(** ** Roles *)

Definition runtime_role_label (role : option ProviderTextControlRuntimePeerRole) : string :=
  match role with
  | Some Offerer => "offerer"
  | Some Answerer => "answerer"
  | None => "test-harness"
  end.

Definition dm_text_control_runtime_role (local_role : string) :
    ProviderTextControlRuntimePeerRole :=
  if local_role =s "reply" then Answerer else Offerer.

Definition group_text_control_runtime_role_for_edge (local_role : GroupRoleView)
    (local_peer_id : string) (remote_role : GroupRoleView) (remote_peer_id : string) :
    result ProviderTextControlRuntimePeerRole string :=
  if local_peer_id =s remote_peer_id then
    Err "Text/control runtime role is ambiguous because local and remote peer ids match"%string
  else if can_manage_members local_role && negb (can_manage_members remote_role) then Ok Offerer
  else if negb (can_manage_members local_role) && can_manage_members remote_role then Ok Answerer
  else if String.ltb local_peer_id remote_peer_id then Ok Offerer else Ok Answerer.

(** ** Signals *)

Definition normalize_voice_signal_kind (kind : string) : result string string :=
  let other := to_ascii_lowercase (trim kind) in
  if existsb (str_eqb other) ["offer"; "answer"; "candidate"]%string then Ok other
  else Err ("unsupported voice signal kind " +:+ other).

Definition voice_markers : list string :=
  ["v=0"; "a=ice-ufrag"; "a=ice-pwd"; "candidate:"; "turn credential"; "turn password";
   "ice password"; "plaintext"; "sframe key"; "content key"; "mls epoch secret"].

Definition validate_voice_signal_payload (signal_kind sealed_payload : string) :
    result unit string :=
  if negb (existsb (str_eqb signal_kind) ["offer"; "answer"; "candidate"]%string) then
    Err "unsupported voice signal kind"%string
  else
    let payload := trim sealed_payload in
    if negb (starts_with "voice-signal-sealed:v1:" payload
             || starts_with "voice-signal-sealed:v2:" payload)
       || (String.length payload <? 48)%nat then
      Err "voice signaling requires a WebView-sealed payload envelope"%string
    else if existsb (λ marker, str_contains marker (to_ascii_lowercase payload)) voice_markers then
      Err "voice signaling payload must be sealed before IPC/persistence"%string
    else Ok tt.

Definition stable_voice_session_id (group_id channel_id : string) : string :=
  stable_id "voice" (group_id +:+ ":" +:+ channel_id) 0.

Section voice.
Context `{Sha256, Ed25519, Hex, Chrono, !Rfc3339, !SigningSeed, !FrameJson, !ErrorTexts}.

(** ** Peers to attach to *)

(** The loop over the current remote members; [clash] and [duplicate] are the caller's texts. *)
Fixpoint attach_members (group_id local_peer_id clash duplicate : string) (local : GroupMemberView)
    (seen : gset string) (remotes : list GroupMemberView) :
    result (list TextControlRuntimePeerAttachment) string :=
  match remotes with
  | [] => Ok []
  | remote :: remotes =>
      let* remote_peer_id := group_member_runtime_peer_id group_id remote in
      check reject_if (remote_peer_id =s local_peer_id) clash in
      check reject_if (bool_decide (remote_peer_id ∈ seen)) duplicate in
      let* role := group_text_control_runtime_role_for_edge (gm_role local) local_peer_id
                     (gm_role remote) remote_peer_id in
      let* remote_peer := map_err transport_error_text (peer_id_new remote_peer_id) in
      let* attachments := attach_members group_id local_peer_id clash duplicate local
                            ({[remote_peer_id]} ∪ seen) remotes in
      Ok ({| tpa_role := role; tpa_local_peer_id := local_peer_id;
             tpa_remote_peer_id := remote_peer |} :: attachments)
  end.

Definition current_local_member (now : datetime) (group : GroupView) (local_member_id : string) :
    option GroupMemberView :=
  find_first (λ m, is_member local_member_id m
                   && group_member_runtime_route_is_current m local_member_id now)
    (gv_members group).

Definition current_remote_members (now : datetime) (group : GroupView) (local_member_id : string) :
    list GroupMemberView :=
  retain (λ m, negb (is_member local_member_id m)
               && group_member_runtime_route_is_current m local_member_id now) (gv_members group).

Definition group_attachments (now : datetime) (group_id : string) (s : PersistedAppState) :
    result (list TextControlRuntimePeerAttachment) string :=
  let active := "Active group " +:+ group_id in
  let* group := ok_or (find_group group_id s)
    (active +:+ " is missing for text/control runtime peer attachment") in
  let* local := ok_or (current_local_member now group (local_user_id s))
    (active +:+ " has no admitted local member for per-peer text/control runtime attach") in
  let* local_peer_id := group_member_runtime_peer_id group_id local in
  let* local_peer_id := map_err transport_error_text (peer_id_new local_peer_id) in
  let* attachments := attach_members group_id local_peer_id
    (active +:+ " remote member runtime peer id matches the local peer")
    (active +:+ " has duplicate admitted runtime peer ids") local ∅
    (current_remote_members now group (local_user_id s)) in
  check reject_if (bool_decide (attachments = []))
    (active +:+ " has no current provider-advertised remote peers for per-peer text/control runtime attach") in
  Ok attachments.

Definition dm_attachment (now : datetime) (dm_id : string) (s : PersistedAppState) :
    result TextControlRuntimePeerAttachment string :=
  let active := "Active DM " +:+ dm_id in
  let* dm := ok_or (find_first (λ dm, dc_dm_id dm =s dm_id) (st_dms s))
    (active +:+ " is missing for text/control runtime peer attachment") in
  let* local := ok_or (find_first dp_is_local (dc_runtime_peers dm))
    (active +:+ " has no local profile runtime peer") in
  let* remote := ok_or (find_first (λ peer, negb (dp_is_local peer)
                                            && dm_runtime_peer_route_is_current peer now)
                          (dc_runtime_peers dm))
    (active +:+ " is waiting for a current provider-advertised remote runtime peer") in
  let* local_peer_id := map_err transport_error_text (peer_id_new (dp_peer_id local)) in
  let* remote_peer_id := map_err transport_error_text (peer_id_new (dp_peer_id remote)) in
  Ok {| tpa_role := dm_text_control_runtime_role (dp_role local);
        tpa_local_peer_id := local_peer_id; tpa_remote_peer_id := remote_peer_id |}.

Definition no_context : string :=
  "No active DM/group context is available for text/control runtime peer attachment".
Definition other_context : string :=
  "Active context is not a DM or group for text/control runtime peer attachment".

Definition active_runtime_peer_attachments_for_text_control (now : datetime)
    (s : PersistedAppState) : result (list TextControlRuntimePeerAttachment) string :=
  let* context := ok_or (st_active_context s) no_context in
  match ac_dm_id context, ac_group_id context with
  | Some dm_id, _ => let* attachment := dm_attachment now dm_id s in Ok [attachment]
  | None, Some group_id => group_attachments now group_id s
  | None, None => Err other_context
  end.

Definition active_runtime_peer_attachment_for_text_control (now : datetime)
    (s : PersistedAppState) : result TextControlRuntimePeerAttachment string :=
  let* context := ok_or (st_active_context s) no_context in
  match ac_dm_id context, ac_group_id context with
  | Some dm_id, _ => dm_attachment now dm_id s
  | None, Some group_id =>
      let* attachments := group_attachments now group_id s in
      match attachments with
      | [attachment] => Ok attachment
      | _ => Err ("Active group " +:+ group_id
                  +:+ " requires exactly one provider-advertised remote peer for a single runtime attachment")
      end
  | None, None => Err other_context
  end.

Definition native_voice_runtime_peer_attachments (now : datetime) (session : VoiceSessionView)
    (s : PersistedAppState) : result (list TextControlRuntimePeerAttachment) string :=
  let* group := ok_or (find_group (vv_group_id session) s)
    "Active voice session group is missing for native Rust media runtime peers"%string in
  check reject_if (negb (existsb (λ channel, (ch_channel_id channel =s vv_channel_id session)
                                             && bool_decide (ch_kind channel = VoiceChannel))
                           (gv_channels group)))
    "Active voice session channel is missing for native Rust media runtime peers"%string in
  let* local := ok_or (current_local_member now group (local_user_id s))
    "Active voice session has no admitted local group member for native Rust media"%string in
  let* local_peer_id := group_member_runtime_peer_id (vv_group_id session) local in
  let* local_peer_id := map_err transport_error_text (peer_id_new local_peer_id) in
  let* attachments := attach_members (vv_group_id session) local_peer_id
    "Active voice session remote runtime peer id matches the local peer"
    "Active voice session has duplicate admitted runtime peer ids" local ∅
    (current_remote_members now group (local_user_id s)) in
  check reject_if (bool_decide (attachments = []))
    ("Active group " +:+ vv_group_id session
     +:+ " has no admitted remote member with a provider-advertised runtime peer id") in
  Ok attachments.

(** ** Queueing a signal *)

(** The outbox row of a signal: an existing row is rewritten, its routes kept. *)
Definition upsert_signal_row (target : MessageTargetView) (signal_id : string)
    (frame : TextControlFrameView) (frame_sha256 : string) (s : PersistedAppState) :
    PersistedAppState :=
  if existsb (has_message_id signal_id) (st_text_control_outbox s) then
    {| s with st_text_control_outbox := update_first (has_message_id signal_id) (λ r,
         {| r with ob_target := target;
                   ob_frame := frame;
                   ob_frame_sha256 := frame_sha256;
                   ob_attempts := 0;
                   ob_last_attempted_at_ms := None;
                   ob_state_key := "pending" |}) (st_text_control_outbox s) |}
  else push_outbox (pending_outbox_record signal_id target frame frame_sha256) s.

Definition enqueue_voice_signaling_outbox (now : datetime)
    (request : PublishVoiceSignalingMessageRequest) (v : VoiceAppState) :
    result VoiceAppState string :=
  let s := va_app v in
  let* session := ok_or (va_session v) "No active voice session for voice signaling"%string in
  check reject_if (negb (vv_session_id session =s pv_session_id request))
    "Voice signaling request did not match the active voice session"%string in
  check reject_if (negb (vv_joined session))
    "Voice signaling requires a joined voice session"%string in
  let* signal_kind := normalize_voice_signal_kind (pv_signal_kind request) in
  check validate_voice_signal_payload signal_kind (pv_sealed_payload request) in
  let* attachments := native_voice_runtime_peer_attachments now session s in
  let* attachment := ok_or
    (find_first (λ a, tpa_remote_peer_id a =s pv_recipient_peer_id request) attachments)
    "Voice signaling recipient peer id does not match a current provider-advertised runtime peer"%string in
  let signal_id := default (stable_id "voice-signal" (pv_session_id request) (st_next_sequence s))
                     (pv_signal_id request) in
  let target := {| mt_kind := "channel"; mt_dm_id := None;
                   mt_group_id := Some (vv_group_id session);
                   mt_channel_id := Some (vv_channel_id session) |} in
  let frame := VoiceSignal {|
    vsm_signal_id := signal_id;
    vsm_session_id := vv_session_id session;
    vsm_group_id := vv_group_id session;
    vsm_channel_id := vv_channel_id session;
    vsm_sender_participant_id := local_user_id s;
    vsm_sender_peer_id := tpa_local_peer_id attachment;
    vsm_recipient_peer_id := pv_recipient_peer_id request;
    vsm_signal_kind := signal_kind;
    vsm_sealed_payload := pv_sealed_payload request;
    vsm_created_at_ms := pv_created_at_ms request |} in
  let* frame_sha256 := text_control_frame_sha256 frame in
  let s := upsert_signal_row target signal_id frame frame_sha256 s in
  let session := {| session with vv_signaling := {|
    vs_session_id := vv_session_id session;
    vs_local_peer_id := tpa_local_peer_id attachment;
    vs_remote_peer_id := tpa_remote_peer_id attachment;
    vs_role := runtime_role_label (Some (tpa_role attachment));
    vs_pending_local_signals :=
      sat_add u32_max (vs_pending_local_signals (vv_signaling session)) 1;
    vs_received_remote_signals := vs_received_remote_signals (vv_signaling session);
    vs_last_signal_kind := Some signal_kind;
    vs_status_copy := "Queued voice " +:+ signal_kind
      +:+ " through provider-advertised text/control signaling; browser RTCPeerConnection may send it only via the attached backend transport" |} |} in
  Ok {| va_app := push_event "voice.signal_queued"
          ("Queued voice " +:+ signal_kind +:+ " for provider-signaled transport") s;
        va_session := Some session;
        va_inbox := va_inbox v |}.

(** ** Inbound signals *)

Definition validate_voice_signal_group_route (now : datetime)
    (signal : VoiceSignalingMessageView) (error_prefix : string) (s : PersistedAppState) :
    result unit string :=
  let* group := ok_or (find_group (vsm_group_id signal) s)
    (error_prefix +:+ " group is not installed") in
  let* channel := ok_or (find_first (λ c, ch_channel_id c =s vsm_channel_id signal)
                           (gv_channels group))
    (error_prefix +:+ " channel is not installed") in
  check reject_if (negb (bool_decide (ch_kind channel = VoiceChannel)))
    (error_prefix +:+ " channel is not a voice channel") in
  let local_member_id := local_user_id s in
  let current member_id :=
    find_first (λ m, is_member member_id m
                     && group_member_runtime_route_is_current m local_member_id now)
      (gv_members group) in
  let* local_member := ok_or (current local_member_id)
    (error_prefix +:+ " has no admitted local group member for runtime peers") in
  let* remote_member := ok_or (current (vsm_sender_participant_id signal))
    (error_prefix +:+ " sender is not an admitted group member") in
  let* local_peer_id := group_member_runtime_peer_id (vsm_group_id signal) local_member in
  let* remote_peer_id := group_member_runtime_peer_id (vsm_group_id signal) remote_member in
  reject_if (negb (vsm_recipient_peer_id signal =s local_peer_id)
             || negb (vsm_sender_peer_id signal =s remote_peer_id))
    (error_prefix +:+ " peer ids did not match provider-advertised group member runtime peers").

Definition validate_inbound_voice_signal (now : datetime) (signal : VoiceSignalingMessageView)
    (v : VoiceAppState) : result unit string :=
  check normalize_voice_signal_kind (vsm_signal_kind signal) in
  check validate_voice_signal_payload (vsm_signal_kind signal) (vsm_sealed_payload signal) in
  let* session := ok_or (va_session v)
    "No active voice session for inbound voice signaling"%string in
  check reject_if (negb (vv_joined session))
    "Inbound voice signaling requires a joined voice session"%string in
  check reject_if (negb (vv_session_id session =s vsm_session_id signal)
                   || negb (vv_group_id session =s vsm_group_id signal)
                   || negb (vv_channel_id session =s vsm_channel_id signal))
    "Inbound voice signal did not match the active voice session scope"%string in
  check reject_if ((vsm_sender_participant_id signal =s local_user_id (va_app v))
                   || (vsm_sender_peer_id signal =s ""))
    "Inbound voice signal must come from a non-local provider peer"%string in
  validate_voice_signal_group_route now signal "Inbound voice signal" (va_app v).

Definition validate_prejoin_inbound_voice_signal (now : datetime)
    (signal : VoiceSignalingMessageView) (s : PersistedAppState) : result unit string :=
  check normalize_voice_signal_kind (vsm_signal_kind signal) in
  check validate_voice_signal_payload (vsm_signal_kind signal) (vsm_sealed_payload signal) in
  check reject_if (negb (vsm_session_id signal
                         =s stable_voice_session_id (vsm_group_id signal) (vsm_channel_id signal)))
    "Pre-join voice signal did not use the stable group/channel session id"%string in
  check reject_if ((vsm_sender_participant_id signal =s local_user_id s)
                   || (vsm_sender_peer_id signal =s ""))
    "Pre-join voice signal must come from a non-local provider peer"%string in
  validate_voice_signal_group_route now signal "Pre-join voice signal" s.

Definition push_signal (signal : VoiceSignalingMessageView)
    (inbox : list VoiceSignalingMessageView) : list VoiceSignalingMessageView :=
  if existsb (λ r, vsm_signal_id r =s vsm_signal_id signal) inbox then inbox else inbox ++ [signal].

(** What an accepted signal does to the session. *)
Definition signal_received (signal : VoiceSignalingMessageView) (session : VoiceSessionView) :
    VoiceSessionView :=
  let x := vv_signaling session in
  {| session with vv_signaling :=
     {| x with
        vs_received_remote_signals := sat_add u32_max (vs_received_remote_signals x) 1;
        vs_last_signal_kind := Some (vsm_signal_kind signal);
        vs_remote_peer_id := if vs_remote_peer_id x =s "" then vsm_sender_peer_id signal
                             else vs_remote_peer_id x;
        vs_local_peer_id := if vs_local_peer_id x =s "" then vsm_recipient_peer_id signal
                            else vs_local_peer_id x;
        vs_status_copy := "Received provider-signaled voice " +:+ vsm_signal_kind signal
          +:+ " for browser RTCPeerConnection; pending inbound SDP/ICE must be applied before claiming remote audio" |} |}.

Definition handle_voice_signal_frame (now : datetime) (signal : VoiceSignalingMessageView)
    (v : VoiceAppState) : VoiceAppState :=
  match validate_inbound_voice_signal now signal v with
  | Err error =>
      if is_ok (validate_prejoin_inbound_voice_signal now signal (va_app v)) then
        {| v with
           va_inbox := push_signal signal (va_inbox v);
           va_app := push_event "voice.signal_prejoin_queued"
             ("Queued pre-join voice " +:+ vsm_signal_kind signal +:+ " for stable session "
              +:+ redacted_observable_ref "voice_session" (vsm_session_id signal)) (va_app v) |}
      else
        {| v with va_app := push_command_error now "voice.signal_rejected"
             "handle_text_control_frame" "voice_signal_invalid" error
             "Accept only provider-signaled voice SDP/ICE for the active joined voice session and remote peer"
             (va_app v) |}
  | Ok _ =>
      {| va_inbox := push_signal signal (va_inbox v);
         va_session := signal_received signal <$> va_session v;
         va_app := push_event "voice.signal_received"
           ("Received voice " +:+ vsm_signal_kind signal +:+ " over text/control transport")
           (va_app v) |}
  end.

(** ** Handing signals to the browser *)

(** The loop over the inbox, which stops taking at the limit. *)
Fixpoint drain_signals (matches : VoiceSignalingMessageView → bool) (room : nat)
    (inbox : list VoiceSignalingMessageView) :
    list VoiceSignalingMessageView * list VoiceSignalingMessageView :=
  match inbox with
  | [] => ([], [])
  | signal :: inbox =>
      match room with
      | S room' =>
          if matches signal then
            let '(taken, retained) := drain_signals matches room' inbox in
            (signal :: taken, retained)
          else
            let '(taken, retained) := drain_signals matches room inbox in
            (taken, signal :: retained)
      | O => ([], signal :: inbox)
      end
  end.

Definition take_pending_voice_signaling_messages
    (request : TakePendingVoiceSignalingMessagesRequest) (v : VoiceAppState) :
    VoiceAppState * list VoiceSignalingMessageView :=
  let session_id := match tv_session_id request with
                    | Some session_id => Some session_id
                    | None => vv_session_id <$> va_session v end in
  let limit := N.to_nat (clamp 1 200 (default 50 (tv_limit request))) in
  let matches signal :=
    from_option (λ expected, vsm_session_id signal =s expected) true session_id
    && (vsm_recipient_peer_id signal =s tv_recipient_peer_id request)
    && (vsm_sender_peer_id signal =s tv_sender_peer_id request) in
  let '(taken, retained) := drain_signals matches limit (va_inbox v) in
  ({| v with
      va_inbox := retained;
      va_app := if bool_decide (taken = []) then va_app v
                else push_event "voice.signal_delivered"
                       ("Delivered " +:+ pretty (length taken)
                        +:+ " pending voice signaling message(s) to browser runtime") (va_app v) |},
   taken).

(** The media runtime, participants and copies [leave_voice] resets are left out. *)
Definition leave_voice (now : datetime) (session_id : string) (v : VoiceAppState) : VoiceAppState :=
  let ignored message hint := {| v with va_app := push_command_error now "voice.leave_ignored"
    "leave_voice" "voice_session_not_found" message hint (va_app v) |} in
  match va_session v with
  | None => ignored "No active voice session to leave"%string
              "Join a voice channel before trying to leave"%string
  | Some session =>
      if vv_session_id session =s session_id then
        let of_session signal := vsm_session_id signal =s vv_session_id session in
        let s := va_app v in
        {| va_session := Some {| session with
             vv_joined := false;
             vv_signaling := {| VoiceSignalingStateView_default with
               vs_session_id := vv_session_id session;
               vs_role := "stopped";
               vs_status_copy := "Voice signaling stopped by leave; pending inbound SDP/ICE was cleared" |} |};
           va_inbox := retain (λ signal, negb (of_session signal)) (va_inbox v);
           va_app := push_event "voice.left"
             "Left command-backed local voice session and cleared remote media attachments"
             {| s with st_text_control_outbox :=
                  retain (λ r, match ob_frame r with
                               | VoiceSignal signal => negb (of_session signal)
                               | _ => true end) (st_text_control_outbox s) |} |}
      else ignored "Leave request did not match active session"%string
             "Use the currently joined voice session before leaving"%string
  end.

(** ** Lemmas *)

Definition opposite (r : ProviderTextControlRuntimePeerRole) : ProviderTextControlRuntimePeerRole :=
  match r with Offerer => Answerer | Answerer => Offerer end.

Lemma ltb_flip a b : a ≠ b → String.ltb b a = negb (String.ltb a b).
Proof.
  intros Hne. unfold String.ltb. rewrite (String.compare_antisym a b).
  destruct (String.compare b a) eqn:E; [|done..]. apply String.compare_eq_iff in E. congruence.
Qed.

Lemma edge_role_flip lr lp rr rp r :
  group_text_control_runtime_role_for_edge lr lp rr rp = Ok r →
  group_text_control_runtime_role_for_edge rr rp lr lp = Ok (opposite r).
Proof.
  unfold group_text_control_runtime_role_for_edge. destruct (lp =s rp) eqn:E; [done|].
  apply str_eqb_false in E. rewrite (proj2 (str_eqb_false rp lp)) by congruence.
  rewrite (ltb_flip lp rp) by done.
  destruct (can_manage_members lr), (can_manage_members rr); cbn [andb negb]; try (by intros [= <-]);
    destruct (String.ltb lp rp); by intros [= <-].
Qed.

(** The two ends of an edge never both offer: when the peers agree on each other's roles and
    peer ids, the edge has a role on one side exactly when it has one on the other, and the roles are
    opposite; it has none exactly when the ids coincide. *)
Theorem edge_roles_are_opposite lr lp rr rp :
  match group_text_control_runtime_role_for_edge lr lp rr rp with
  | Ok r => lp ≠ rp ∧ group_text_control_runtime_role_for_edge rr rp lr lp = Ok (opposite r)
  | Err _ => lp = rp
  end.
Proof.
  destruct (group_text_control_runtime_role_for_edge lr lp rr rp) as [r|error] eqn:E.
  - split; [|by apply edge_role_flip]. intros ->. unfold group_text_control_runtime_role_for_edge in E.
    by rewrite str_eqb_refl in E.
  - unfold group_text_control_runtime_role_for_edge in E. destruct (lp =s rp) eqn:Eq;
      [by apply str_eqb_true in Eq|]. by repeat case_match.
Qed.

(** *** Attachments *)

Lemma peer_id_new_ok v p : peer_id_new v = Ok p → p = v.
Proof. unfold peer_id_new. intros R. apply rbind_ok in R as (? & _ & R). by injection R as <-. Qed.

Definition advertised_id (m : GroupMemberView) : string := default ""%string (gm_runtime_peer_id m).

Lemma member_peer_id_ok gid m p :
  group_member_runtime_peer_id gid m = Ok p →
  gm_runtime_peer_id m = Some p ∧ is_blank p = false ∧ group_member_is_admitted_for_runtime m = true.
Proof.
  unfold group_member_runtime_peer_id, non_blank.
  destruct (group_member_is_admitted_for_runtime m); [|done]. cbn.
  destruct (gm_runtime_peer_id m) as [v|]; [|done]. cbn. destruct (is_blank v) eqn:E; [done|].
  cbn. by intros [= ->].
Qed.

(** What the loop over the remote members returns. *)
Lemma attach_members_ok gid lp clash duplicate local seen l as_ :
  attach_members gid lp clash duplicate local seen l = Ok as_ →
  Forall2 (λ m a, gm_runtime_peer_id m = Some (tpa_remote_peer_id a)
      ∧ tpa_remote_peer_id a ≠ lp ∧ tpa_remote_peer_id a ∉ seen ∧ tpa_local_peer_id a = lp
      ∧ group_text_control_runtime_role_for_edge (gm_role local) lp (gm_role m) (tpa_remote_peer_id a)
        = Ok (tpa_role a)) l as_
  ∧ NoDup (tpa_remote_peer_id <$> as_).
Proof.
  revert seen as_. induction l as [|m l IH]; intros seen as_ R.
  { injection R as <-. split; constructor. }
  cbn [attach_members] in R. apply rbind_ok in R as (p & Hp & R).
  apply member_peer_id_ok in Hp as (Hp & _ & _).
  apply rbind_ok in R as (? & Hne%reject_if_ok%str_eqb_false & R).
  apply rbind_ok in R as (? & Hseen%reject_if_ok%bool_decide_eq_false & R).
  apply rbind_ok in R as (role & Hrole & R). apply rbind_ok in R as (q & Hq & R).
  apply map_err_ok, peer_id_new_ok in Hq as ->.
  apply rbind_ok in R as (rest & Hrest & R). injection R as <-.
  apply IH in Hrest as [Hall Hnd]. split.
  - constructor; [done|]. eapply Forall2_impl; [exact Hall|]. cbn.
    intros n a (? & ? & ? & ? & ?). split_and!; try done. set_solver.
  - csimpl. constructor; [|done]. intros (a & -> & Ha)%list_elem_of_fmap.
    apply list_elem_of_lookup in Ha as [i Ha].
    destruct (Forall2_lookup_r _ _ _ _ _ Hall Ha) as (n & _ & _ & _ & Hns & _). set_solver.
Qed.

Lemma group_attachments_ok now gid s as_ :
  group_attachments now gid s = Ok as_ →
  ∃ g local lp, find_group gid s = Some g
    ∧ current_local_member now g (local_user_id s) = Some local
    ∧ gm_runtime_peer_id local = Some lp ∧ as_ ≠ []
    ∧ Forall2 (λ m a, gm_runtime_peer_id m = Some (tpa_remote_peer_id a)
        ∧ tpa_remote_peer_id a ≠ lp ∧ tpa_local_peer_id a = lp
        ∧ group_text_control_runtime_role_for_edge (gm_role local) lp (gm_role m)
            (tpa_remote_peer_id a) = Ok (tpa_role a))
        (current_remote_members now g (local_user_id s)) as_
    ∧ NoDup (tpa_remote_peer_id <$> as_).
Proof.
  unfold group_attachments. intros R. apply rbind_ok in R as (g & Hg%ok_or_ok & R).
  apply rbind_ok in R as (local & Hl%ok_or_ok & R). apply rbind_ok in R as (lp & Hlp & R).
  apply member_peer_id_ok in Hlp as (Hlp & _). apply rbind_ok in R as (q & Hq & R).
  apply map_err_ok, peer_id_new_ok in Hq as ->. apply rbind_ok in R as (l & Hat & R).
  apply rbind_ok in R as (? & Hne%reject_if_ok%bool_decide_eq_false & R). injection R as <-.
  apply attach_members_ok in Hat as [Hall Hnd]. exists g, local, lp. split_and!; try done.
  eapply Forall2_impl; [exact Hall|]. cbn. naive_solver.
Qed.

(** A runtime attaches to exactly the current remote members: one attachment each, in roster
    order, under the peer id the member advertised, from the local member's own peer id; no two
    attachments share a remote id and none is the local one. *)
Theorem attachments_cover_the_current_members now gid s as_ :
  group_attachments now gid s = Ok as_ →
  ∃ g local lp, find_group gid s = Some g
    ∧ current_local_member now g (local_user_id s) = Some local
    ∧ gm_runtime_peer_id local = Some lp
    ∧ (Some ∘ tpa_remote_peer_id) <$> as_
      = gm_runtime_peer_id <$> current_remote_members now g (local_user_id s)
    ∧ as_ ≠ [] ∧ NoDup (tpa_remote_peer_id <$> as_) ∧ lp ∉ tpa_remote_peer_id <$> as_
    ∧ Forall (λ a, tpa_local_peer_id a = lp) as_.
Proof.
  intros (g & local & lp & Hg & Hl & Hlp & Hne & Hall & Hnd)%group_attachments_ok.
  exists g, local, lp. split_and!; try done.
  - clear Hnd Hne. induction Hall as [|m a l k (E & _) _ IH]; [done|]. csimpl. by rewrite E, IH.
  - intros (a & -> & Ha)%list_elem_of_fmap. apply list_elem_of_lookup in Ha as [i Ha].
    destruct (Forall2_lookup_r _ _ _ _ _ Hall Ha) as (n & _ & _ & Hns & _). done.
  - apply Forall_forall. intros a Ha. apply list_elem_of_lookup in Ha as [i Ha].
    by destruct (Forall2_lookup_r _ _ _ _ _ Hall Ha) as (n & _ & _ & _ & ? & _).
Qed.


(** *** Signals *)

Lemma normalize_kind_ok kind k :
  normalize_voice_signal_kind kind = Ok k → normalize_voice_signal_kind k = Ok k.
Proof.
  unfold normalize_voice_signal_kind. destruct (existsb _ _) eqn:E; [|done]. intros [= <-].
  apply existsb_exists in E as (x & Hx & Ex%str_eqb_true). rewrite Ex.
  destruct Hx as [<-|[<-|[<-|[]]]]; reflexivity.
Qed.

(** A member that may receive what [v] publishes: joined to the same session, with the channel and
    both rows installed, its own under the recipient's peer id and the sender's current. *)
Record listening (now : datetime) (recipient : string) (session : VoiceSessionView)
    (sender_id sender_peer : string) (w : VoiceAppState) : Prop := {
  ln_session : ∃ session', va_session w = Some session' ∧ vv_joined session' = true
    ∧ vv_session_id session' = vv_session_id session ∧ vv_group_id session' = vv_group_id session
    ∧ vv_channel_id session' = vv_channel_id session;
  ln_group : ∃ h channel me sender, find_group (vv_group_id session) (va_app w) = Some h
    ∧ find_first (λ c, ch_channel_id c =s vv_channel_id session) (gv_channels h) = Some channel
    ∧ ch_kind channel = VoiceChannel
    ∧ current_local_member now h (local_user_id (va_app w)) = Some me
    ∧ gm_runtime_peer_id me = Some recipient ∧ is_blank recipient = false
    ∧ find_first (λ m, is_member sender_id m && group_member_runtime_route_is_current m
        (local_user_id (va_app w)) now) (gv_members h) = Some sender
    ∧ gm_runtime_peer_id sender = Some sender_peer ∧ is_blank sender_peer = false;
  ln_other : sender_id ≠ local_user_id (va_app w)
}.

Lemma current_peer_id gid m local now p :
  group_member_runtime_route_is_current m local now = true → gm_runtime_peer_id m = Some p →
  is_blank p = false → group_member_runtime_peer_id gid m = Ok p.
Proof.
  unfold group_member_runtime_route_is_current, group_member_runtime_peer_id.
  destruct (group_member_is_admitted_for_runtime m); [|done]. cbn. intros _ -> Hb. cbn.
  by rewrite Hb.
Qed.

Lemma listening_accepts now session sender_id sender_peer signal w :
  listening now (vsm_recipient_peer_id signal) session sender_id sender_peer w →
  normalize_voice_signal_kind (vsm_signal_kind signal) = Ok (vsm_signal_kind signal) →
  validate_voice_signal_payload (vsm_signal_kind signal) (vsm_sealed_payload signal) = Ok tt →
  vsm_session_id signal = vv_session_id session → vsm_group_id signal = vv_group_id session →
  vsm_channel_id signal = vv_channel_id session → vsm_sender_participant_id signal = sender_id →
  vsm_sender_peer_id signal = sender_peer →
  validate_inbound_voice_signal now signal w = Ok tt.
Proof.
  intros [(x & Hx & Hj & X1 & X2 & X3) (h & channel & me & sender & Hh & Hc & Hk & Hme & Pme & Bme & Hs & Ps & Bs) Hne]
    Hkind Hpay E1 E2 E3 E4 E5.
  unfold validate_inbound_voice_signal. rewrite Hkind. cbn [rbind]. rewrite Hpay. cbn [rbind].
  rewrite Hx. cbn [ok_or rbind]. rewrite Hj, X1, X2, X3, E1, E2, E3, !str_eqb_refl. cbn [negb orb reject_if rbind].
  rewrite E4, E5. rewrite (proj2 (str_eqb_false _ _)) by done.
  assert ((sender_peer =s "") = false) as ->.
  { apply str_eqb_false. intros ->. done. }
  cbn [orb reject_if rbind]. unfold validate_voice_signal_group_route. rewrite E2, Hh. cbn [ok_or rbind].
  rewrite E3, Hc. cbn [ok_or rbind]. rewrite Hk. cbn [bool_decide negb reject_if rbind].
  unfold current_local_member in Hme. rewrite Hme. cbn [ok_or rbind]. rewrite E4, Hs. cbn [ok_or rbind].
  apply find_first_some in Hme as [_ [_ Hme]%andb_true_iff].
  apply find_first_some in Hs as [_ [_ Hs]%andb_true_iff].
  rewrite (current_peer_id _ _ _ _ _ Hme Pme Bme). cbn [rbind].
  rewrite (current_peer_id _ _ _ _ _ Hs Ps Bs). cbn [rbind]. by rewrite E5, !str_eqb_refl.
Qed.

Lemma signal_row_in target id frame sha s :
  ∃ r, r ∈ st_text_control_outbox (upsert_signal_row target id frame sha s)
    ∧ ob_message_id r = id ∧ ob_frame r = frame ∧ ob_target r = target ∧ ob_state_key r = "pending"%string.
Proof.
  unfold upsert_signal_row. destruct (existsb _ _) eqn:E.
  - apply existsb_find_first in E as [r Hr]. cbn.
    destruct (update_first_split (has_message_id id) (λ r, {| r with ob_target := target; ob_frame := frame;
      ob_frame_sha256 := sha; ob_attempts := 0; ob_last_attempted_at_ms := None;
      ob_state_key := "pending" |}) _ _ Hr) as (l1 & l2 & _ & -> & _ & Hid%str_eqb_true).
    eexists. split; [apply elem_of_app; right; left|]. done.
  - eexists. cbn. split; [apply elem_of_app; right; left|]. done.
Qed.

(** A published signal reaches the session it was published for: publishing queues one sealed
    signal, under the local member's advertised peer id and for a peer that is attached, and every
    member listening at that id (joined to the same session, with both rows current) puts it in its
    inbox, once. *)
Theorem published_signal_is_received now request v v' :
  enqueue_voice_signaling_outbox now request v = Ok v' →
  ∃ session signal r, va_session v = Some session ∧ vv_joined session = true
    ∧ r ∈ st_text_control_outbox (va_app v') ∧ ob_frame r = VoiceSignal signal
    ∧ ob_message_id r = vsm_signal_id signal
    ∧ vsm_sealed_payload signal = pv_sealed_payload request
    ∧ vsm_recipient_peer_id signal = pv_recipient_peer_id request
    ∧ ∀ now' w,
        listening now' (pv_recipient_peer_id request) session (local_user_id (va_app v))
          (vsm_sender_peer_id signal) w →
        vsm_signal_id signal ∉ vsm_signal_id <$> va_inbox w →
        let w' := handle_voice_signal_frame now' signal w in
        va_inbox w' = va_inbox w ++ [signal]
        ∧ va_inbox (handle_voice_signal_frame now' signal w') = va_inbox w'.
Proof.
  unfold enqueue_voice_signaling_outbox. intros R.
  apply rbind_ok in R as (session & Hs%ok_or_ok & R).
  apply rbind_ok in R as (? & Hid%reject_if_ok & R). apply rbind_ok in R as (? & Hj%reject_if_ok & R).
  apply rbind_ok in R as (kind & Hkind%normalize_kind_ok & R).
  apply rbind_ok in R as ([] & Hpay & R). apply rbind_ok in R as (as_ & _ & R).
  apply rbind_ok in R as (a & _ & R). apply rbind_ok in R as (sha & _ & R).
  set (frame := VoiceSignal _) in R. match eval unfold frame in frame with VoiceSignal ?x => set (signal := x) in frame end.
  injection R as <-. exists session, signal. cbn [va_app].
  destruct (signal_row_in {| mt_kind := "channel"; mt_dm_id := None;
    mt_group_id := Some (vv_group_id session); mt_channel_id := Some (vv_channel_id session) |}
    (vsm_signal_id signal) frame sha (va_app v)) as (r & Hr & Er & Ef & _).
  exists r. apply negb_false_iff in Hj. split_and!; try done.
  intros now' w Hl Hnew. cbv zeta.
  assert (validate_inbound_voice_signal now' signal w = Ok tt) as Hok by by eapply listening_accepts.
  assert (va_inbox (handle_voice_signal_frame now' signal w) = va_inbox w ++ [signal]) as Hin.
  { unfold handle_voice_signal_frame. rewrite Hok. cbn [va_inbox]. unfold push_signal.
    destruct (existsb _ _) eqn:E; [|done]. destruct Hnew.
    apply existsb_exists in E as (y & Hy%list_elem_of_In & Ey%str_eqb_true). rewrite <- Ey. by apply list_elem_of_fmap_2. }
  split; [done|]. set (w' := handle_voice_signal_frame now' signal w) in *.
  unfold handle_voice_signal_frame. assert (push_signal signal (va_inbox w') = va_inbox w') as Hdup.
  { unfold push_signal. rewrite (proj2 (existsb_exists _ _)); [done|]. exists signal.
    split; [rewrite Hin; apply in_app_iff; right; by left|apply str_eqb_refl]. }
  destruct (validate_inbound_voice_signal now' signal w'); [exact Hdup|].
  destruct (is_ok _); [exact Hdup|done].
Qed.

Lemma drain_signals_spec matches n l taken retained :
  drain_signals matches n l = (taken, retained) →
  taken = take n (retain matches l) ∧ l ≡ₚ taken ++ retained ∧ sublist retained l
  ∧ ((length taken < n)%nat → ∀ x, x ∈ retained → matches x = false).
Proof.
  revert n taken retained. induction l as [|x l IH]; intros n taken retained.
  { intros [= <- <-]. split_and!; [by destruct n|done|constructor|]. set_solver. }
  destruct n as [|n]; [intros [= <- <-]; split_and!; [done..|lia]|]. cbn [drain_signals].
  unfold retain. rewrite filter_cons. destruct (matches x) eqn:E.
  - destruct (drain_signals matches n l) as [t r] eqn:Ed. intros [= <- <-].
    apply IH in Ed as (-> & Hp & Hs & Hall). rewrite decide_True by done. cbn [take].
    split_and!; [done|by rewrite <- app_comm_cons, <- Hp|by constructor|].
    cbn [length]. intros Hlen. apply Hall. lia.
  - destruct (drain_signals matches (S n) l) as [t r] eqn:Ed. intros [= <- <-].
    apply IH in Ed as (-> & Hp & Hs & Hall). rewrite decide_False by congruence.
    split_and!; [done|by rewrite <- Permutation_middle, <- Hp|by constructor|].
    intros Hlen y [->|Hy]%elem_of_cons; [done|]. by apply Hall.
Qed.

(** The browser gets each waiting signal at most once and in order: a drain returns the first
    matching signals up to the limit, in arrival order, keeps every other one in order, and with
    distinct signal ids in the inbox no returned id is left behind. An arriving signal never brings an
    id a second time. *)
Theorem signals_are_drained_once request v v' taken :
  take_pending_voice_signaling_messages request v = (v', taken) →
  NoDup (vsm_signal_id <$> va_inbox v) →
  va_inbox v ≡ₚ taken ++ va_inbox v' ∧ sublist (va_inbox v') (va_inbox v)
  ∧ (length taken ≤ 200)%nat ∧ sublist taken (va_inbox v)
  ∧ NoDup (vsm_signal_id <$> va_inbox v')
  ∧ (∀ x, x ∈ taken → vsm_signal_id x ∉ vsm_signal_id <$> va_inbox v')
  ∧ (∀ now signal, NoDup (vsm_signal_id <$> va_inbox (handle_voice_signal_frame now signal v))).
Proof.
  unfold take_pending_voice_signaling_messages. intros R Hnd. set (limit := N.to_nat _) in R.
  assert (limit ≤ 200)%nat as Hlim by (unfold limit, clamp; lia). clearbody limit.
  destruct (drain_signals _ limit _) as [t r] eqn:Ed. injection R as <- <-.
  apply drain_signals_spec in Ed as (Ht & Hp & Hs & _). cbn [va_inbox].
  assert (NoDup (vsm_signal_id <$> (t ++ r))) as Hnd' by by rewrite <- Hp.
  rewrite fmap_app in Hnd'. apply NoDup_app in Hnd' as (_ & Hdis & Hr).
  split_and!; try done.
  - rewrite Ht, length_take. lia.
  - rewrite Ht. etransitivity; [apply sublist_take|]. apply sublist_filter.
  - intros x Hx. apply Hdis. by apply list_elem_of_fmap_2.
  - intros now signal. assert (NoDup (vsm_signal_id <$> push_signal signal (va_inbox v))) as Hpush.
    { unfold push_signal. destruct (existsb _ _) eqn:E; [done|]. rewrite fmap_app. apply NoDup_app.
      split_and!; [done| |repeat constructor; set_solver].
      intros y (x & -> & Hx)%list_elem_of_fmap Hy%list_elem_of_singleton.
      apply not_true_iff_false in E. apply E. apply existsb_exists. exists x.
      split; [by apply list_elem_of_In|by apply str_eqb_true]. }
    unfold handle_voice_signal_frame. repeat case_match; done.
Qed.

End voice.

(** ** A concrete call *)

Module VoiceToy.

#[local] Existing Instance Toy.toy_sha.
#[local] Existing Instance Toy.toy_ed.
#[local] Existing Instance Toy.toy_hex.
#[local] Existing Instance Toy.toy_chrono.
#[local] Existing Instance Toy.toy_rfc3339.
#[local] Existing Instance DeskToy.toy_seed.
#[local] Existing Instance DeskToy.toy_json.
#[local] Existing Instance DeskToy.toy_texts.

Definition hall : ChannelStateView :=
  {| GroupToy.lobby with ch_channel_id := "hall"; ch_name := "hall"; ch_kind := VoiceChannel |}.

Definition online (m : GroupMemberView) : GroupMemberView :=
  {| m with gm_status := "online"; gm_presence_expires_at := Some (GroupToy.stamp 190) |}.

Definition alice_row : GroupMemberView :=
  online (GroupToy.row "user-alice" GroupToy.alice_key RoleOwner (Some "peer-a"%string)).
Definition bob_row : GroupMemberView :=
  online (GroupToy.row "user-bob" GroupToy.bob_key RoleMember (Some "peer-b"%string)).

Definition crew : GroupView :=
  {| (GroupToy.crew 2 [hall]) with gv_members := [alice_row; bob_row] |}.

Definition call : VoiceSessionView := {|
  vv_session_id := stable_voice_session_id "crew" "hall"; vv_group_id := "crew";
  vv_channel_id := "hall"; vv_joined := true; vv_signaling := VoiceSignalingStateView_default
|}.

Definition alice : PersistedAppState := {| GroupToy.alice with st_groups := [crew] |}.
Definition bob : PersistedAppState := {| GroupToy.bob with st_groups := [crew] |}.

Definition caller : VoiceAppState := {| va_app := alice; va_session := Some call; va_inbox := [] |}.
Definition callee : VoiceAppState := {| va_app := bob; va_session := Some call; va_inbox := [] |}.

Definition offer : PublishVoiceSignalingMessageRequest := {|
  pv_session_id := vv_session_id call; pv_recipient_peer_id := "peer-b"; pv_signal_kind := "Offer";
  pv_sealed_payload := "voice-signal-sealed:v1:0123456789012345678901234567890123456789";
  pv_signal_id := Some "s1"%string; pv_created_at_ms := 5
|}.

Notation published := (enqueue_voice_signaling_outbox (GroupToy.instant 100) offer caller).

Definition ring : VoiceSignalingMessageView := {|
  vsm_signal_id := "s1"; vsm_session_id := vv_session_id call; vsm_group_id := "crew";
  vsm_channel_id := "hall"; vsm_sender_participant_id := "user-alice"; vsm_sender_peer_id := "peer-a";
  vsm_recipient_peer_id := "peer-b"; vsm_signal_kind := "offer";
  vsm_sealed_payload := "voice-signal-sealed:v1:0123456789012345678901234567890123456789";
  vsm_created_at_ms := 5
|}.

Definition rung : VoiceAppState := {| callee with va_inbox := [ring] |}.

Definition drain : TakePendingVoiceSignalingMessagesRequest := {|
  tv_session_id := None; tv_recipient_peer_id := "peer-b"; tv_sender_peer_id := "peer-a";
  tv_limit := None
|}.

Definition edge (role : ProviderTextControlRuntimePeerRole) (local remote : string) :
    TextControlRuntimePeerAttachment :=
  {| tpa_role := role; tpa_local_peer_id := local; tpa_remote_peer_id := remote |}.

End VoiceToy.

Section witnesses.
#[local] Existing Instance Toy.toy_sha.
#[local] Existing Instance Toy.toy_ed.
#[local] Existing Instance Toy.toy_hex.
#[local] Existing Instance Toy.toy_chrono.
#[local] Existing Instance Toy.toy_rfc3339.
#[local] Existing Instance DeskToy.toy_seed.
#[local] Existing Instance DeskToy.toy_json.
#[local] Existing Instance DeskToy.toy_texts.

Lemma attachments_cover_the_current_members_witness :
  NoDup (tpa_remote_peer_id <$> [VoiceToy.edge Offerer "peer-a" "peer-b"]).
Proof.
  destruct (attachments_cover_the_current_members (GroupToy.instant 100) "crew" VoiceToy.alice
    [VoiceToy.edge Offerer "peer-a" "peer-b"]) as (g & local & lp & _ & _ & _ & _ & _ & H & _);
    [vm_compute; reflexivity|exact H].
Defined.


Lemma published_signal_is_received_witness :
  ∃ v' signal, VoiceToy.published = Ok v'
    ∧ va_inbox (handle_voice_signal_frame (GroupToy.instant 101) signal VoiceToy.callee) = [signal].
Proof.
  assert (is_ok VoiceToy.published = true) as Eok by (vm_compute; reflexivity).
  destruct (published_signal_is_received (GroupToy.instant 100) VoiceToy.offer VoiceToy.caller
    (GroupToy.unwrap VoiceToy.caller VoiceToy.published))
    as (session & signal & r & Hs & _ & Hr & Ef & _ & _ & _ & H); [by apply GroupToy.unwrap_ok|].
  exists (GroupToy.unwrap VoiceToy.caller VoiceToy.published), signal.
  split; [by apply GroupToy.unwrap_ok|].
  assert (signal = VoiceToy.ring) as ->.
  { assert (st_text_control_outbox (va_app (GroupToy.unwrap VoiceToy.caller VoiceToy.published)) = [r]) as E.
    { vm_compute in Hr. vm_compute. apply list_elem_of_singleton in Hr. by rewrite Hr. }
    vm_compute in E. injection E as <-. cbn in Ef. by injection Ef as <-. }
  injection Hs as <-. destruct (H (GroupToy.instant 101) VoiceToy.callee) as [H1 _]; [|apply not_elem_of_nil|exact H1].
  split.
  - exists VoiceToy.call. repeat split.
  - exists VoiceToy.crew, VoiceToy.hall, VoiceToy.bob_row, VoiceToy.alice_row.
    repeat split; vm_compute; reflexivity.
  - vm_compute. discriminate.
Defined.

Lemma signals_are_drained_once_witness :
  va_inbox VoiceToy.rung
  ≡ₚ (take_pending_voice_signaling_messages VoiceToy.drain VoiceToy.rung).2
     ++ va_inbox (take_pending_voice_signaling_messages VoiceToy.drain VoiceToy.rung).1.
Proof.
  destruct (signals_are_drained_once VoiceToy.drain VoiceToy.rung
    (take_pending_voice_signaling_messages VoiceToy.drain VoiceToy.rung).1
    (take_pending_voice_signaling_messages VoiceToy.drain VoiceToy.rung).2) as [H _].
  - apply surjective_pairing.
  - repeat constructor. apply not_elem_of_nil.
  - exact H.
Defined.

End witnesses.
