(* ===== verification/DeskCommands.v ===== *)
(** * Desktop application: governance and presence commands
    (apps/desktop/src-tauri/src/lib.rs)

    Promoting and demoting, revoking access, publishing presence: the state each command leaves and
    the signed frame it queues for the other members. Commands are modelled for states that have a
    profile ([ensure_ready_profile] leaves those alone) and, for presence, once the transport session
    has been found attached. Within one command the clock reads the instant [now]. *)

From S2P Require Import Prelude Collections Bytes StrOps Crypto Transport RouteGraph Identity DeliveryError TextEnvelope TextSend AppService DeskState DeskGroups DeskDelivery DeskAdmission.

Definition GROUP_PRESENCE_DEFAULT_TTL_SECONDS : Z := 90.

Section commands.
Context `{Sha256, Ed25519, Hex, Aes256Gcm, Chrono, !Rfc3339, !SigningSeed, !FrameJson, !ErrorTexts}.

(** ** Roles *)

(** The group and the owner a role command acts as: the checks both commands share. *)
Definition role_command_owner (group_id signer_public_key_hex owner_message owner_hint : string)
    (s : PersistedAppState) : result GroupView GovError :=
  let* group := require_some (find_group group_id s) "group_not_found"
    "Requested group does not exist" "Select an existing group before changing member roles" in
  let* actor := require_some
    (find_first (λ m, is_member (local_user_id s) m && negb (gm_status m =s "revoked"))
       (gv_members group)) "owner_required" owner_message owner_hint in
  check require (bool_decide (gm_role actor = RoleOwner)) "owner_required" owner_message owner_hint in
  let* persisted := require_some (gm_signer_public_key_hex actor) "actor_signer_missing"
    "Owner roster signer is missing for this group"
    "Refresh or recreate the authorized group membership before changing member roles" in
  check require (persisted =s signer_public_key_hex) "actor_signer_mismatch"
    "Owner roster signer does not match the local profile signing key"
    "Use the owner profile that created or admitted this group before changing member roles" in
  Ok group.

Definition role_change_target (group : GroupView) (member_id : string) :
    result GroupMemberView GovError :=
  require_some (find_first (is_member member_id) (gv_members group)) "member_not_found"
    "Requested member is not in this group" "Refresh the member list before changing roles".

Definition role_change_event (k : signing_key) (now : datetime) (event_id group_id actor target
    : string) (before after : GroupRoleView) : GroupMemberRoleChangedEvent := {|
  rce_group_id := group_id;
  rce_event_id := event_id;
  rce_actor_member_id := actor;
  rce_actor_signer_public_key_hex := Some (public_key_hex k);
  rce_target_member_id := target;
  rce_role_before := before;
  rce_role_after := after;
  rce_created_at := dt_to_rfc3339 now;
  rce_signature_hex := Some (sign_group_member_role_change k {|
    rcp_group_id := group_id;
    rcp_event_id := event_id;
    rcp_actor_member_id := actor;
    rcp_actor_signer_public_key_hex := public_key_hex k;
    rcp_target_member_id := target;
    rcp_role_before := before;
    rcp_role_after := after;
    rcp_created_at := dt_to_rfc3339 now |})
|}.

(** [TextControlFrameView::GroupMemberRoleChanged], and the event its receiver reads from it *)
Definition role_change_frame (e : GroupMemberRoleChangedEvent) : TextControlFrameView :=
  GroupMemberRoleChanged (rce_group_id e) (rce_event_id e) (rce_actor_member_id e)
    (rce_actor_signer_public_key_hex e) (rce_target_member_id e) (rce_role_before e)
    (rce_role_after e) (rce_created_at e) (rce_signature_hex e).

(** Queue the frame, change the role, log it: the tail both commands share. *)
Definition change_role (k : signing_key) (now : datetime) (rejected : string → string → string →
    PersistedAppState → PersistedAppState) (kind summary event_kind event_text group_id : string)
    (member : GroupMemberView) (after : GroupRoleView) (s : PersistedAppState) :
    PersistedAppState :=
  let actor := local_user_id s in
  let member_id := gm_member_id member in
  let event_id := governance_event_id group_id kind member_id (st_next_sequence s) in
  let frame := role_change_frame
    (role_change_event k now event_id group_id actor member_id (gm_role member) after) in
  match queue_group_governance_frame group_id event_id frame s with
  | (s, Err error) => rejected "governance_frame_queue_failed"%string error
      "Retry after text/control governance serialization is available"%string s
  | (s, Ok _) =>
      let s := update_group group_id (λ g,
        log_governance (governance_log_entry event_id group_id kind actor (Some member_id)
          (Some (gm_role member)) (Some after) (dt_to_rfc3339 now) summary)
          (update_member member_id (λ m, {| m with gm_role := after |}) g)) s in
      push_event event_kind event_text s
  end.

Definition promote_group_member_to_staff (now : datetime) (group_id member_id : string)
    (s : PersistedAppState) : PersistedAppState :=
  let rejected := push_command_error now "group.member_promote_rejected"
                    "promote_group_member_to_staff" in
  let '(s, k) := identity_signing_key s in
  let checked :=
    let* group := role_command_owner group_id (public_key_hex k)
      "Only the group owner can promote staff" "Ask the owner to promote this member" s in
    let* member := role_change_target group member_id in
    check require (negb (gm_status member =s "revoked")) "member_revoked"
      "Revoked members cannot be promoted" "Re-add the member through the admission flow first" in
    check require (negb (bool_decide (gm_role member = RoleOwner))) "owner_immutable"
      "The group owner role cannot be promoted" "Owner transfer is a future governance flow" in
    Ok member in
  match checked with
  | Err (Rejected code message hint) => rejected code message hint s
  | Err Panicked => s
  | Ok member =>
      if bool_decide (gm_role member = RoleStaff) then
        push_event "group.member_promote_noop"
          (redacted_observable_ref "member" member_id +:+ " is already staff") s
      else
        change_role k now rejected "member.promoted" "Promoted member to staff"
          "group.member_promoted"
          ("Promoted " +:+ redacted_observable_ref "member" member_id +:+ " to staff")
          group_id member RoleStaff s
  end.

Definition demote_group_staff_to_member (now : datetime) (group_id member_id : string)
    (s : PersistedAppState) : PersistedAppState :=
  let rejected := push_command_error now "group.member_demote_rejected"
                    "demote_group_staff_to_member" in
  let '(s, k) := identity_signing_key s in
  let checked :=
    let* group := role_command_owner group_id (public_key_hex k)
      "Only the group owner can demote staff" "Ask the owner to demote this staff member" s in
    role_change_target group member_id in
  match checked with
  | Err (Rejected code message hint) => rejected code message hint s
  | Err Panicked => s
  | Ok member =>
      if bool_decide (gm_role member = RoleStaff) then
        change_role k now rejected "member.demoted" "Demoted staff to member"
          "group.member_demoted"
          ("Demoted " +:+ redacted_observable_ref "member" member_id +:+ " to member")
          group_id member RoleMember s
      else s
  end.

(** ** Revoking access *)

Definition may_revoke (actor : string) (actor_role : option GroupRoleView)
    (target : GroupMemberView) : bool :=
  match actor_role with
  | Some RoleOwner => negb (bool_decide (gm_role target = RoleOwner)) && negb (is_member actor target)
  | Some RoleStaff => bool_decide (gm_role target = RoleMember) && negb (is_member actor target)
  | _ => false
  end.

Definition fallback_removal_status (error : string) : string :=
  if str_contains "member not found" error || str_contains "not found in group" error
  then "fail_closed_app_state_only_openmls_member_leaf_missing"
  else if str_contains "openmls_group_handle_missing" error
  then "fail_closed_app_state_only_openmls_group_handle_missing"
  else "fail_closed_app_state_only_openmls_remove_member_failed".

(** The actor's role, the target and how many remote members remain. *)
Definition revoke_target (group_id member_id : string) (s : PersistedAppState) :
    result (GroupMemberView * nat) GovError :=
  let actor := local_user_id s in
  let* group := require_some (find_group group_id s) "group_not_found"
    "Requested group does not exist" "Select an existing group before revoking access" in
  let actor_role := gm_role <$>
    find_first (λ m, is_member actor m && negb (gm_status m =s "revoked")) (gv_members group) in
  let* target := require_some (find_first (is_member member_id) (gv_members group))
    "member_not_found" "Requested member is not in this group"
    "Refresh the member list before revoking access" in
  check require (may_revoke actor actor_role target) "unauthorized_revoke"
    "This role cannot revoke the selected member"
    "Owners can revoke staff or members; staff can revoke members only" in
  Ok (target, length (retain (λ m, negb (is_member actor m) && negb (is_member member_id m)
                                   && negb (gm_status m =s "revoked")) (gv_members group))).

(** What a removal, done or refused, means for the frame and the log. *)
Record removal_outcome := {
  ro_status : string;
  ro_commit : option bytes;
  ro_epoch : option N;
  ro_tag : option string;
  ro_governance_summary : string;
  ro_event_summary : string
}.

Definition outcome_of (removal : result OpenMlsMemberRemoval string) : removal_outcome :=
  match removal with
  | Ok removal => {|
      ro_status := omr_status_copy removal;
      ro_commit := Some (omr_commit_bytes removal);
      ro_epoch := Some (omr_epoch removal);
      ro_tag := Some (omr_confirmation_tag_sha256 removal);
      ro_governance_summary := "Revoked member access and committed an OpenMLS remove-member epoch";
      ro_event_summary := "Revoked member access with OpenMLS remove-member commit" |}
  | Err error => {|
      ro_status := fallback_removal_status error;
      ro_commit := None;
      ro_epoch := None;
      ro_tag := None;
      ro_governance_summary :=
        "Revoked member access fail-closed at app state; OpenMLS removal could not be committed ("
        +:+ redacted_observable_ref "error" error +:+ ")";
      ro_event_summary := "Revoked member access fail-closed; OpenMLS removal was unavailable" |}
  end.

(** The frames of a revocation: a bare notice for the member itself, then the removal for the others,
    unless a commit has nobody left to reach. *)
Definition queue_revocation (now : datetime) (group_id id actor member_id : string)
    (reason : option string) (remaining : nat) (o : removal_outcome) (s : PersistedAppState) :
    PersistedAppState :=
  let rejected code error := push_command_error now "group.member_revoke_rejected"
    "revoke_group_member_access" code error
    "Retry after text/control governance serialization is available" in
  let frame event_id :=
    GroupMemberRevoked group_id event_id actor member_id reason (dt_to_rfc3339 now) in
  let notice_id := id +:+ "-notice" in
  match queue_group_governance_frame group_id notice_id
          (frame notice_id "fail_closed_app_state_revoke_notice"%string None None None) s with
  | (s, Err error) => rejected "governance_notice_frame_queue_failed"%string error s
  | (s, Ok _) =>
      if bool_decide (ro_commit o = None) || (0 <? remaining)%nat then
        match queue_group_governance_frame group_id id
                (frame id (ro_status o) (ro_commit o) (ro_epoch o) (ro_tag o)) s with
        | (s, Err error) => rejected "governance_frame_queue_failed"%string error s
        | (s, Ok _) => push_event "group.member_revoked" (ro_event_summary o) s
        end
      else
        push_event "group.member_revoked" (ro_event_summary o)
          (push_event "group.member_revoke_commit_not_queued"
             "OpenMLS remove-member commit stayed local because no remaining remote group members need the rekey"
             s)
  end.

Definition revoke_group_member_access (engine : MlsEngine) (now : datetime)
    (group_id member_id : string) (reason : option string) (s : PersistedAppState) :
    PersistedAppState :=
  let actor := local_user_id s in
  let now_text := dt_to_rfc3339 now in
  match revoke_target group_id member_id s with
  | Err (Rejected code message hint) =>
      push_command_error now "group.member_revoke_rejected" "revoke_group_member_access" code message
        hint s
  | Err Panicked => s
  | Ok (target, remaining) =>
      let '(s, removal) := remove_openmls_group_member engine group_id member_id s in
      let o := outcome_of removal in
      let id := governance_event_id group_id "member.revoked" member_id (st_next_sequence s) in
      let s := update_group group_id (λ g,
        log_governance (governance_log_entry id group_id "member.revoked" actor (Some member_id)
          (Some (gm_role target)) None now_text (ro_governance_summary o))
          (update_member member_id (revoke_member now_text actor) g)) s in
      queue_revocation now group_id id actor member_id reason remaining o s
  end.

(** ** Presence *)

(** [ttl.clamp(30, 300)], and [now + Duration::seconds(ttl)]: [None] is a panic *)
Definition presence_expiry (now : datetime) (ttl_seconds : option Z) : option datetime :=
  let ttl := Z.min (Z.max (default GROUP_PRESENCE_DEFAULT_TTL_SECONDS ttl_seconds) 30)
               GROUP_PRESENCE_MAX_TTL_SECONDS in
  d ← td_seconds ttl; dt_add now d.

(** [TextControlFrameView::GroupPresenceHeartbeat], and the event its receiver reads from it *)
Definition group_presence_frame (e : GroupPresenceHeartbeatEvent) : TextControlFrameView :=
  GroupPresenceHeartbeat (gpe_group_id e) (gpe_event_id e) (gpe_member_id e) (gpe_display_name e)
    (gpe_device_id e) (gpe_signer_public_key_hex e) (gpe_runtime_peer_id e)
    (gpe_channel_schema_epoch e) (gpe_channel_schema_sha256 e) (gpe_last_seen_at e)
    (gpe_presence_expires_at e) (gpe_signature_hex e).

Definition signed_group_presence (k : signing_key) (e : GroupPresenceHeartbeatEvent) :
    GroupPresenceHeartbeatEvent :=
  {| e with gpe_signature_hex := sign_group_presence k (group_presence_payload e) |}.

(** What publishing writes into the member's own row. *)
Definition present_self (now_text expires_text : string) (m : GroupMemberView) : GroupMemberView :=
  {| m with gm_status := "online";
            gm_last_seen_at := Some now_text;
            gm_presence_expires_at := Some expires_text |}.

(** The first part of the update: the row is written before the schema is hashed. A pending row
    defers ([Ok None]). *)
Definition presence_fields (k : signing_key) (now_text expires_text group_id member_id : string)
    (s : PersistedAppState) :
    PersistedAppState * result (option (GroupView * GroupMemberView * string * string)) GovError :=
  let checked :=
    let* group := require_some (find_group group_id s) "group_not_found"
      "Requested group does not exist" "Select an existing group before publishing presence" in
    let* member := require_some (find_first (is_member member_id) (gv_members group))
      "member_not_found" "Presence member is not in this group"
      "Refresh group membership before publishing presence" in
    if gm_status member =s "pending" then Ok None else
    check require (negb (gm_status member =s "revoked")) "member_revoked"
      "Revoked members cannot publish presence"
      "Ask an owner/staff member to re-admit this profile" in
    check require (opt_str_eqb (gm_signer_public_key_hex member) (Some (public_key_hex k)))
      "member_signer_mismatch" "Local profile key does not match the admitted member roster key"
      "Rejoin the group with the current profile before publishing presence" in
    let* runtime_peer_id := require_some (non_blank (gm_runtime_peer_id member))
      "runtime_peer_id_missing" "Local member has no runtime route identifier to advertise"
      "Restart the profile and rejoin the group" in
    Ok (Some (group, member, runtime_peer_id)) in
  match checked with
  | Err error => (s, Err error)
  | Ok None => (s, Ok None)
  | Ok (Some (group, member, runtime_peer_id)) =>
      let s := update_group group_id (update_member member_id (present_self now_text expires_text)) s in
      (s,
       let* sha256 := map_err (λ error, Rejected "channel_schema_hash_failed" error
           "Retry after the current channel schema can be serialized")
         (group_channel_schema_sha256 (gv_channels group)) in
       Ok (Some (group, member, runtime_peer_id, sha256)))
  end.

(** The signed heartbeat of a row. *)
Definition heartbeat (k : signing_key) (now_text expires_text event_id group_id member_id : string)
    (group : GroupView) (member : GroupMemberView) (runtime_peer_id channel_schema_sha256 : string) :
    GroupPresenceHeartbeatEvent :=
  signed_group_presence k {|
    gpe_group_id := group_id;
    gpe_event_id := event_id;
    gpe_member_id := member_id;
    gpe_display_name := Some (gm_display_name member);
    gpe_device_id := gm_device_id member;
    gpe_signer_public_key_hex := public_key_hex k;
    gpe_runtime_peer_id := runtime_peer_id;
    gpe_channel_schema_epoch := gv_channel_schema_epoch group;
    gpe_channel_schema_sha256 := channel_schema_sha256;
    gpe_last_seen_at := now_text;
    gpe_presence_expires_at := expires_text;
    gpe_signature_hex := "" |}.

(** The update of [publish_group_presence]; [None] is a panic of [DateTime + Duration]. *)
Definition publish_group_presence (now : datetime) (group_id : string) (member_id : option string)
    (ttl_seconds : option Z) (s : PersistedAppState) : option PersistedAppState :=
  let rejected := push_command_error now "group.presence_rejected" "publish_group_presence" in
  let local_member_id := local_user_id s in
  let member_id := default local_member_id member_id in
  if negb (member_id =s local_member_id) then
    Some (rejected "member_identity_mismatch"
      "A profile can publish presence only for its own admitted member identity"
      "Publish presence without overriding member_id" s)
  else
    let '(s, k) := identity_signing_key s in
    expires ← presence_expiry now ttl_seconds;
    let now_text := dt_to_rfc3339 now in
    let event_id := governance_event_id group_id "presence.heartbeat" member_id
                      (st_next_sequence s) in
    Some match presence_fields k now_text (dt_to_rfc3339 expires) group_id member_id s with
    | (s, Err (Rejected code message hint)) => rejected code message hint s
    | (s, Err Panicked) => s
    | (s, Ok None) =>
        push_event "group.presence_deferred"
          "Deferred presence while local member is waiting for admission approval" s
    | (s, Ok (Some (group, member, runtime_peer_id, channel_schema_sha256))) =>
        let e := heartbeat k now_text (dt_to_rfc3339 expires) event_id group_id member_id group member
                   runtime_peer_id channel_schema_sha256 in
        match queue_group_governance_frame group_id event_id (group_presence_frame e) s with
        | (s, Err error) => rejected "governance_frame_queue_failed" error
            "Retry after text/control governance serialization is available" s
        | (s, Ok _) =>
            let s := update_group group_id (λ g,
              advertise now local_member_id
                (log_governance (governance_log_entry event_id group_id "presence.heartbeat" member_id
                   (Some member_id) None None now_text
                   "Published signed TTL-backed group presence and runtime route advertisement") g)) s in
            push_event "group.presence"
              ("Published presence for " +:+ redacted_observable_ref "member" member_id) s
        end
    end.

Definition dm_presence_frame (e : DmPresenceHeartbeatEvent) : TextControlFrameView :=
  DmPresenceHeartbeat (dpe_scope_id_commitment e) (dpe_event_id e) (dpe_profile_id e)
    (dpe_display_name e) (dpe_device_id e) (dpe_role e) (dpe_signer_public_key_hex e)
    (dpe_runtime_peer_id e) (dpe_last_seen_at e) (dpe_presence_expires_at e) (dpe_signature_hex e).

Definition signed_dm_presence (k : signing_key) (e : DmPresenceHeartbeatEvent) :
    DmPresenceHeartbeatEvent :=
  {| e with dpe_signature_hex := sign_dm_presence k (dm_presence_payload e) |}.

(** The conversation's scope and the local peer whose route is published. *)
Definition dm_presence_local (k : signing_key) (dm_id user_id : string) (s : PersistedAppState) :
    result (string * DmRuntimePeerView) GovError :=
  let* dm := require_some (find_first (λ dm, dc_dm_id dm =s dm_id) (st_dms s)) "dm_not_found"
    "Requested DM does not exist" "Select an existing DM before publishing its runtime route" in
  let* connectivity := require_some (dc_connectivity dm) "dm_connectivity_missing"
    "Requested DM has no provider connectivity policy"
    "Recreate the DM contact and attach its provider control lane" in
  let* local_peer := require_some (find_first dp_is_local (dc_runtime_peers dm))
    "local_runtime_peer_missing" "Requested DM has no local runtime route identity"
    "Recreate the DM contact with the current profile" in
  check require ((dp_signer_public_key_hex local_peer =s public_key_hex k)
                 && (dp_profile_id local_peer =s user_id)) "local_runtime_signer_mismatch"
    "The local DM route identity does not match this profile"
    "Recreate the DM contact with the current profile" in
  check require ((dp_role local_peer =s "inviter") || (dp_role local_peer =s "reply"))
    "local_runtime_role_invalid" "The local DM route role is invalid"
    "Recreate the DM contact from a signed invite" in
  Ok (cp_scope_id_commitment connectivity, local_peer).

(** The update of [publish_dm_presence]; [None] is a panic of [DateTime + Duration]. *)
Definition publish_dm_presence (now : datetime) (dm_id : string) (ttl_seconds : option Z)
    (s : PersistedAppState) : option PersistedAppState :=
  let rejected := push_command_error now "dm.presence_rejected" "publish_dm_presence" in
  let '(s, k) := identity_signing_key s in
  match st_profile s with
  | None =>
      Some (rejected "profile_missing" "No local profile is available to sign the DM runtime route"
              "Complete profile setup before opening the DM" s)
  | Some profile =>
      expires ← presence_expiry now ttl_seconds;
      let last_seen_at := dt_to_rfc3339 now in
      let presence_expires_at := dt_to_rfc3339 expires in
      Some match dm_presence_local k dm_id (up_user_id profile) s with
      | Err (Rejected code message hint) => rejected code message hint s
      | Err Panicked => s
      | Ok (scope_id_commitment, local_peer) =>
          let s := {| s with st_dms := update_first (λ dm, dc_dm_id dm =s dm_id) (λ dm,
            {| dm with dc_runtime_peers := update_first dp_is_local (λ peer,
                 {| peer with dp_source := "sealed_provider_peer_advertisement_v1";
                              dp_last_seen_at := last_seen_at;
                              dp_presence_expires_at := presence_expires_at |})
                 (dc_runtime_peers dm) |}) (st_dms s) |} in
          let event_id := stable_id "dm-presence"
            (scope_id_commitment +:+ ":" +:+ up_user_id profile) (st_next_sequence s) in
          let e := signed_dm_presence k {|
            dpe_scope_id_commitment := scope_id_commitment;
            dpe_event_id := event_id;
            dpe_profile_id := up_user_id profile;
            dpe_display_name := up_display_name profile;
            dpe_device_id := dp_device_id local_peer;
            dpe_role := dp_role local_peer;
            dpe_signer_public_key_hex := public_key_hex k;
            dpe_runtime_peer_id := dp_peer_id local_peer;
            dpe_last_seen_at := last_seen_at;
            dpe_presence_expires_at := presence_expires_at;
            dpe_signature_hex := "" |} in
          match queue_dm_control_frame dm_id event_id (dm_presence_frame e) s with
          | (s, Err error) => rejected "provider_control_frame_queue_failed" error
              "Retry after the provider control lane is attached" s
          | (s, Ok _) => push_event "dm.presence"
              ("Published DM route for " +:+ redacted_observable_ref "dm" dm_id) s
          end
      end
  end.

(** ** Lemmas *)

(** *** Roles *)

Lemma owner_inv gid key message hint s g :
  role_command_owner gid key message hint s = Ok g →
  find_group gid s = Some g
  ∧ ∃ actor, find_first (λ m, is_member (local_user_id s) m && negb (gm_status m =s "revoked"))
      (gv_members g) = Some actor
    ∧ gm_role actor = RoleOwner ∧ gm_signer_public_key_hex actor = Some key.
Proof.
  unfold role_command_owner. intros R. gov R as g' Hg. gov R as actor Ha. gov R as ? Hr. gov R as p Hp.
  gov R as ? Hk. injection R as <-. apply bool_decide_eq_true in Hr. apply str_eqb_true in Hk as ->.
  eauto.
Qed.

(** The row [change_role] leaves and the frame it queues. *)
Lemma change_role_ok k now rejected kind summary ek et gid m after s s1 :
  queue_group_governance_frame gid
    (governance_event_id gid kind (gm_member_id m) (st_next_sequence s))
    (role_change_frame (role_change_event k now
       (governance_event_id gid kind (gm_member_id m) (st_next_sequence s)) gid (local_user_id s)
       (gm_member_id m) (gm_role m) after)) s = (s1, Ok tt) →
  ∃ entry, change_role k now rejected kind summary ek et gid m after s
    = push_event ek et (update_group gid (λ g, log_governance entry
        (update_member (gm_member_id m) (λ m, {| m with gm_role := after |}) g)) s1)
    ∧ gl_event_id entry = governance_event_id gid kind (gm_member_id m) (st_next_sequence s).
Proof. intros Hq. unfold change_role. rewrite Hq. eexists. split; [reflexivity|done]. Qed.

Lemma queue_groups target id frame s :
  st_groups (queue_provider_control_frame target id frame s).1 = st_groups s.
Proof. unfold queue_provider_control_frame. repeat case_match; done. Qed.

(** Who is in which group, with which row. *)
Definition rosters (s : PersistedAppState) : list (string * list GroupMemberView) :=
  (λ g, (gv_group_id g, gv_members g)) <$> st_groups s.

(** The local member owns the group under its own key. *)
Definition acts_as_owner (gid : string) (s : PersistedAppState) (g : GroupView) : Prop :=
  find_group gid s = Some g
  ∧ ∃ actor, find_first (λ m, is_member (local_user_id s) m && negb (gm_status m =s "revoked"))
      (gv_members g) = Some actor
    ∧ gm_role actor = RoleOwner
    ∧ gm_signer_public_key_hex actor = Some (public_key_hex (identity_signing_key s).2).

(** One row of one group changes its role. *)
Definition role_moved (gid mid : string) (before after : GroupRoleView) (s s' : PersistedAppState) :
    Prop :=
  ∃ g m g', acts_as_owner gid s g ∧ find_first (is_member mid) (gv_members g) = Some m
    ∧ gm_role m = before ∧ find_group gid s' = Some g'
    ∧ gv_members g' = update_first (is_member mid) (λ m, {| m with gm_role := after |}) (gv_members g).

Lemma change_role_moves k now rejected kind summary ek et gid mid m before after s s0 g :
  (∀ code message hint s, st_groups (rejected code message hint s) = st_groups s) →
  identity_signing_key s0 = (s, k) → acts_as_owner gid s0 g → find_group gid s = Some g →
  find_first (is_member mid) (gv_members g) = Some m → gm_role m = before →
  let s' := change_role k now rejected kind summary ek et gid m after s in
  rosters s' = rosters s0 ∨ role_moved gid mid before after s0 s'.
Proof.
  intros Hrej Hk Hown Hg Hm Hrole. cbv zeta. destruct (identity_key_groups _ _ _ Hk) as (Gs & _).
  assert (gm_member_id m = mid) as Hmid by by apply find_member_id in Hm as [_ ?].
  unfold change_role. rewrite Hmid.
  set (id := governance_event_id gid kind mid (st_next_sequence s)). set (frame := role_change_frame _).
  pose proof (queue_groups (group_control_target gid) id frame s) as Gq.
  unfold queue_group_governance_frame in *.
  destruct (queue_provider_control_frame _ _ _ _) as [s1 [u|error]]; cbn [fst] in Gq.
  - right. exists g, m. eexists. do 3 (split; [done|]). split.
    + rewrite find_group_push_event, find_update_group by done.
      rewrite (find_group_ext gid s1 s), Hg by done. reflexivity.
    + reflexivity.
  - left. unfold rosters. by rewrite Hrej, Gq, Gs.
Qed.

(** Roles are changed locally only by the owner, one row at a time: promoting or demoting
    leaves every roster as it was, or the local member owns the group under its own identity key and the
    target's row, and no other, goes from member to staff (from staff to member). *)
Theorem roles_change_only_by_the_owner now gid mid s :
  (let s' := promote_group_member_to_staff now gid mid s in
   rosters s' = rosters s ∨ role_moved gid mid RoleMember RoleStaff s s')
  ∧ (let s' := demote_group_staff_to_member now gid mid s in
     rosters s' = rosters s ∨ role_moved gid mid RoleStaff RoleMember s s').
Proof.
  unfold promote_group_member_to_staff, demote_group_staff_to_member.
  destruct (identity_signing_key s) as [t k] eqn:Ek.
  destruct (identity_key_groups _ _ _ Ek) as (Gt & Pt & _).
  assert (∀ message hint g, role_command_owner gid (public_key_hex k) message hint t = Ok g →
    acts_as_owner gid s g ∧ find_group gid t = Some g) as Hown.
  { intros message hint g (Hg & actor & Ha & Hr & Hs)%owner_inv. split; [|done].
    split; [by rewrite (find_group_ext gid s t)|]. exists actor.
    rewrite <- (local_user_id_ext s t Pt), Ek. done. }
  assert (∀ u, st_groups u = st_groups t → rosters u = rosters s) as Hkeep.
  { intros u Hu. unfold rosters. by rewrite Hu, Gt. }
  split; cbv zeta.
  - destruct (rbind _ _) as [m|[|code message hint]] eqn:R; [|left; by apply Hkeep..].
    apply rbind_ok in R as (g & Hg & R). apply Hown in Hg as [Ha Hg]. gov R as m' Hm.
    gov R as ? Hrev. gov R as ? Hno. injection R as <-.
    apply negb_true_iff, bool_decide_eq_false in Hno. case_bool_decide as Hstaff; [left; by apply Hkeep|].
    eapply change_role_moves; [done|exact Ek|exact Ha|exact Hg|exact Hm|]. by destruct (gm_role m').
  - destruct (rbind _ _) as [m|[|code message hint]] eqn:R; [|left; by apply Hkeep..].
    apply rbind_ok in R as (g & Hg & R). apply Hown in Hg as [Ha Hg]. apply require_some_ok in R.
    case_bool_decide as Hstaff; [|left; by apply Hkeep].
    eapply change_role_moves; [done|exact Ek|exact Ha|exact Hg|exact R|done].
Qed.

(** The frame is queued as a new record: none has its id or its hash yet. *)
Definition queues_new (id : string) (frame : TextControlFrameView) (s : PersistedAppState) : Prop :=
  ∃ sha, text_control_frame_sha256 frame = Ok sha
    ∧ ∀ r, r ∈ st_text_control_outbox s → ob_message_id r ≠ id ∧ ob_frame_sha256 r ≠ sha.

Lemma queued_frame target id frame s :
  text_control_frame_plane frame = ProviderControl → queues_new id frame s →
  ∃ s' r, queue_provider_control_frame target id frame s = (s', Ok tt)
    ∧ r ∈ st_text_control_outbox s' ∧ ob_frame r = frame ∧ ob_message_id r = id
    ∧ ob_state_key r = "pending"%string ∧ st_groups s' = st_groups s ∧ st_profile s' = st_profile s.
Proof.
  intros Hp (sha & Hsha & Hnew). unfold queue_provider_control_frame. rewrite Hp, Hsha. cbn [bool_decide negb].
  rewrite bool_decide_eq_true_2 by done. cbn [negb].
  destruct (existsb _ _) eqn:E.
  { apply existsb_exists in E as (r & Hr%list_elem_of_In & Hor). apply Hnew in Hr as [? ?].
    apply orb_true_iff in Hor as [?%str_eqb_true|?%str_eqb_true]; done. }
  eexists _, _. split; [reflexivity|]. cbn. split; [apply elem_of_app; right; left|]. done.
Qed.

(** A peer's roster knows the owner by key and holds the target's row as it was. *)
Record follows (e : GroupMemberRoleChangedEvent) (key : string) (r : PersistedAppState)
    (h : GroupView) : Prop := {
  fo_group : find_group (rce_group_id e) r = Some h;
  fo_fresh : has_event (rce_event_id e) h = false;
  fo_owner : ∃ actor, find_first (is_member (rce_actor_member_id e)) (gv_members h) = Some actor
    ∧ gm_role actor = RoleOwner ∧ gm_status actor ≠ "revoked"%string
    ∧ gm_status actor ≠ "pending"%string ∧ gm_signer_public_key_hex actor = Some key;
  fo_target : ∃ m, find_first (is_member (rce_target_member_id e)) (gv_members h) = Some m
    ∧ gm_status m ≠ "revoked"%string ∧ gm_status m ≠ "pending"%string
    ∧ gm_role m = rce_role_before e
}.

Lemma signed_role_change_applies `{!Ed25519Laws, !HexLaws} k now id gid actor target before after r h :
  valid_transition before after = true →
  let e := role_change_event k now id gid actor target before after in
  follows e (public_key_hex k) r h →
  apply_group_member_role_changed e r = Ok (update_group gid (role_changed e (local_user_id r)) r).
Proof.
  intros Htr e [Hg Hf (a & Ha & Ro & S1 & S2 & Hk) (m & Hm & T1 & T2 & Hb)].
  unfold apply_group_member_role_changed. rewrite Hg. cbn [require_some ok_or rbind]. rewrite Hf.
  rewrite Ha. cbn [require_some ok_or rbind]. rewrite Ro.
  rewrite (proj2 (str_eqb_false _ _) S1), (proj2 (str_eqb_false _ _) S2). cbn [bool_decide andb negb].
  rewrite bool_decide_eq_true_2 by done. cbn [andb require rbind]. rewrite Hk. cbn [require_some ok_or rbind].
  cbn [e role_change_event rce_actor_signer_public_key_hex rce_signature_hex require_some ok_or rbind].
  rewrite str_eqb_refl. cbn [require rbind].
  unfold verify_group_member_role_change_signature, sign_group_member_role_change.
  unfold public_key_hex at 1. rewrite verify_sign_hex. cbn [map_err rbind].
  change (valid_transition (rce_role_before e) (rce_role_after e)) with (valid_transition before after).
  rewrite Htr. cbn [require rbind]. rewrite Hm. cbn [require_some ok_or rbind].
  rewrite (proj2 (str_eqb_false _ _) T1), (proj2 (str_eqb_false _ _) T2). cbn [orb negb require rbind].
  by rewrite Hb, bool_decide_eq_true_2.
Qed.

(** A promotion that passes its checks. *)
Lemma promote_runs now gid mid s t k g m :
  identity_signing_key s = (t, k) → acts_as_owner gid s g →
  find_first (is_member mid) (gv_members g) = Some m → gm_role m = RoleMember →
  gm_status m ≠ "revoked"%string →
  promote_group_member_to_staff now gid mid s
  = change_role k now (push_command_error now "group.member_promote_rejected"
      "promote_group_member_to_staff") "member.promoted" "Promoted member to staff"
      "group.member_promoted" ("Promoted " +:+ redacted_observable_ref "member" mid +:+ " to staff")
      gid m RoleStaff t.
Proof.
  intros Ek (Hg & actor & Ha & Hro & Hkey) Hm Hrole Hrev.
  destruct (identity_key_groups _ _ _ Ek) as (Gt & Pt & _).
  unfold promote_group_member_to_staff. rewrite Ek. unfold role_command_owner.
  rewrite (find_group_ext gid t s), Hg by done. cbn [require_some ok_or rbind].
  rewrite (local_user_id_ext s t Pt), Ha.
  cbn [require_some ok_or rbind]. rewrite Hro, bool_decide_eq_true_2 by done. cbn [require rbind].
  rewrite Hkey, Ek. cbn [snd require_some ok_or rbind]. rewrite str_eqb_refl. cbn [require rbind].
  unfold role_change_target. rewrite Hm. cbn [require_some ok_or rbind].
  rewrite (proj2 (str_eqb_false _ _) Hrev). cbn [negb require rbind].
  rewrite Hrole, bool_decide_eq_false_2 by done. cbn [negb require rbind].
  by rewrite Hrole, bool_decide_eq_false_2 by done.
Qed.

(** C11. A promotion reaches the other members: the owner's promotion of a member makes it staff in
    the owner's roster and queues one signed frame, and every peer whose roster knows the owner under
    its key and holds the target as an active plain member applies that frame, to the same effect. *)
Theorem promotion_replicates `{!Ed25519Laws, !HexLaws} now gid mid s g m :
  acts_as_owner gid s g → find_first (is_member mid) (gv_members g) = Some m →
  gm_role m = RoleMember → gm_status m ≠ "revoked"%string →
  let '(s0, k) := identity_signing_key s in
  let id := governance_event_id gid "member.promoted" mid (st_next_sequence s0) in
  let e := role_change_event k now id gid (local_user_id s) mid RoleMember RoleStaff in
  let s' := promote_group_member_to_staff now gid mid s in
  queues_new id (role_change_frame e) s0 →
  role_moved gid mid RoleMember RoleStaff s s'
  ∧ (∃ r, r ∈ st_text_control_outbox s' ∧ ob_frame r = role_change_frame e)
  ∧ ∀ r h, follows e (public_key_hex k) r h →
      ∃ r' h' n, apply_group_member_role_changed e r = Ok r' ∧ find_group gid r' = Some h'
        ∧ find_first (is_member mid) (gv_members h') = Some n ∧ gm_role n = RoleStaff.
Proof.
  intros Hown Hm Hrole Hrev. destruct (identity_signing_key s) as [t k] eqn:Ek. cbv zeta.
  set (id := governance_event_id _ _ _ _). set (e := role_change_event _ _ _ _ _ _ _ _). intros Hq.
  destruct (identity_key_groups _ _ _ Ek) as (Gt & Pt & _).
  assert (gm_member_id m = mid) as Hmid by by apply find_member_id in Hm as [_ ?].
  assert (local_user_id t = local_user_id s) as El by by apply local_user_id_ext.
  destruct (queued_frame (group_control_target gid) id (role_change_frame e) t) as
    (s1 & r & Hs1 & Hr & Hf & _ & _ & G1 & _); [done..|].
  destruct (change_role_ok k now (push_command_error now "group.member_promote_rejected"
    "promote_group_member_to_staff") "member.promoted" "Promoted member to staff"
    "group.member_promoted" ("Promoted " +:+ redacted_observable_ref "member" mid +:+ " to staff")
    gid m RoleStaff t s1) as (entry & Hch & _).
  { rewrite Hmid, El, Hrole. exact Hs1. }
  rewrite (promote_runs now gid mid s t k g m) by done. rewrite Hch, Hmid. split_and!.
  - exists g, m, (log_governance entry (update_member mid (λ m, {| m with gm_role := RoleStaff |}) g)).
    split_and!; try done. rewrite find_group_push_event, find_update_group by done.
    by rewrite (find_group_ext gid s1 s), (proj1 Hown) by (by rewrite G1).
  - exists r. done.
  - intros p h Hfol. eexists. destruct (fo_target _ _ _ _ Hfol) as (n & Hn & _).
    eexists _, {| n with gm_role := RoleStaff |}.
    split; [by eapply signed_role_change_applies|].
    rewrite find_update_group by apply role_changed_id. split.
    { pose proof (fo_group _ _ _ _ Hfol) as Hh. cbn in Hh. rewrite Hh. reflexivity. }
    split; [|done]. rewrite role_changed_members. cbn in Hn |- *. rewrite find_update_first by done.
    by rewrite Hn.
Qed.

(** *** Revocations *)

Lemma revoke_target_inv gid mid s m n :
  revoke_target gid mid s = Ok (m, n) →
  ∃ g actor, find_group gid s = Some g
    ∧ find_first (λ m, is_member (local_user_id s) m && negb (gm_status m =s "revoked"))
        (gv_members g) = Some actor
    ∧ find_first (is_member mid) (gv_members g) = Some m ∧ mid ≠ local_user_id s
    ∧ (gm_role actor = RoleOwner ∧ gm_role m ≠ RoleOwner
       ∨ gm_role actor = RoleStaff ∧ gm_role m = RoleMember).
Proof.
  unfold revoke_target. intros R. gov R as g Hg. gov R as target Ht. gov R as ? Hmay.
  injection R as <- _. exists g.
  destruct (find_first (λ m, _ && _) _) as [actor|]; [|done]. exists actor.
  destruct (find_member_id _ _ _ Ht) as [_ Hid]. cbn [fmap option_fmap option_map] in Hmay.
  unfold may_revoke in Hmay. destruct (gm_role actor); [| |done];
    apply andb_true_iff in Hmay as [M1 M2%negb_true_iff%str_eqb_false]; rewrite Hid in M2;
    split_and!; try done.
  - left. by apply negb_true_iff, bool_decide_eq_false in M1.
  - right. by apply bool_decide_eq_true in M1.
Qed.

Lemma remove_member_groups engine gid mid s :
  st_groups (remove_openmls_group_member engine gid mid s).1 = st_groups s.
Proof.
  unfold remove_openmls_group_member. cbv zeta. by destruct (rbind _ _) as [[[c e] t]|].
Qed.

Lemma queue_revocation_groups now gid id actor mid reason n o s :
  st_groups (queue_revocation now gid id actor mid reason n o s) = st_groups s.
Proof.
  unfold queue_revocation, queue_group_governance_frame. set (notice := GroupMemberRevoked _ _ _ _ _ _ _ None _ _).
  pose proof (queue_groups (group_control_target gid) (id +:+ "-notice") notice s) as G1.
  destruct (queue_provider_control_frame _ _ notice s) as [s1 [?|?]]; cbn in G1; [|exact G1].
  destruct (_ || _); [|exact G1]. set (frame := GroupMemberRevoked _ _ _ _ _ _ _ _ _ _).
  pose proof (queue_groups (group_control_target gid) id frame s1) as G2.
  destruct (queue_provider_control_frame _ _ frame s1) as [s2 [?|?]]; cbn in *; by rewrite G2.
Qed.

(** Access is revoked only downwards: the command leaves every roster as it was, or the local
    member is an owner revoking staff or a member, or staff revoking a member, never itself, and exactly
    the target's row is marked revoked, whether or not the engine could commit the removal. *)
Theorem access_is_revoked_downwards engine now gid mid reason s :
  let s' := revoke_group_member_access engine now gid mid reason s in
  rosters s' = rosters s
  ∨ ∃ g actor target g', find_group gid s = Some g
      ∧ find_first (λ m, is_member (local_user_id s) m && negb (gm_status m =s "revoked"))
          (gv_members g) = Some actor
      ∧ find_first (is_member mid) (gv_members g) = Some target ∧ mid ≠ local_user_id s
      ∧ (gm_role actor = RoleOwner ∧ gm_role target ≠ RoleOwner
         ∨ gm_role actor = RoleStaff ∧ gm_role target = RoleMember)
      ∧ find_group gid s' = Some g'
      ∧ gv_members g' = update_first (is_member mid)
          (revoke_member (dt_to_rfc3339 now) (local_user_id s)) (gv_members g).
Proof.
  cbv zeta. unfold revoke_group_member_access.
  destruct (revoke_target gid mid s) as [[m n]|[|code message hint]] eqn:Ht; [|by left..]. right.
  destruct (revoke_target_inv _ _ _ _ _ Ht) as (g & actor & Hg & Ha & Hm & Hne & Hr).
  pose proof (remove_member_groups engine gid mid s) as Gr.
  destruct (remove_openmls_group_member engine gid mid s) as [s1 removal]. cbn in Gr.
  exists g, actor, m. eexists. do 5 (split; [done|]). split.
  - rewrite (find_group_ext gid _ _ (queue_revocation_groups _ _ _ _ _ _ _ _ _)).
    rewrite find_update_group by done. rewrite (find_group_ext gid s1 s), Hg by done. reflexivity.
  - reflexivity.
Qed.

(** *** Removal commits *)

Lemma is_hex_digit_encoded `{!HexLaws} b : forallb is_hex_digit (as_bytes (hex_encode b)) = true.
Proof.
  apply forallb_forall. intros x Hx%list_elem_of_In%hex_encode_digits. unfold is_hex_digit.
  rewrite !orb_true_iff, !andb_true_iff, !N.leb_le. lia.
Qed.

Lemma removal_commit_ok `{!Sha256Laws, !HexLaws} engine gid target commit epoch tag handle s :
  find_handle gid s = Some handle →
  is_ok (hex_decode (oh_signer_public_key_hex handle)) = true → local_user_id s ≠ target →
  (me_public_commit_confirmation_tag_sha256 engine commit = Ok None
   ∨ me_public_commit_confirmation_tag_sha256 engine commit = Ok (Some (confirmation_sha256 tag))) →
  (∀ signer, me_apply_external_remove_commit engine handle signer epoch commit target = Ok (epoch, tag)) →
  ∃ copy event text, apply_openmls_group_member_removal_commit engine gid target commit epoch
      (confirmation_sha256 tag) s
    = (push_event event text
         (update_handle gid (advance_handle epoch (confirmation_sha256 tag) copy) s), Ok tt).
Proof.
  intros Hh Hs Hne Hpre Happ. unfold apply_openmls_group_member_removal_commit. cbv zeta.
  assert (∀ c, c = None ∨ c = Some (confirmation_sha256 tag) →
    from_option (λ c, negb (c =s confirmation_sha256 tag)) false c = false) as Hc.
  { intros c [->| ->]; [done|]. cbn. by rewrite str_eqb_refl. }
  unfold removal_handle. rewrite Hh. cbn [ok_or rbind].
  destruct (hex_decode _) as [signer|]; [|done]. cbn [map_err rbind fst snd].
  rewrite Happ. assert (String.length (confirmation_sha256 tag) = 64%nat) as Hlen.
  { unfold confirmation_sha256. by rewrite hex_encode_length, sha256_length. }
  assert (forallb is_hex_digit (as_bytes (confirmation_sha256 tag)) = true) as -> by apply is_hex_digit_encoded.
  rewrite Hlen. cbn [Nat.eqb negb orb].
  destruct Hpre as [->| ->]; cbn [map_err rbind]; rewrite Hc by eauto; cbn [reject_if rbind];
    rewrite (proj2 (str_eqb_false _ _) Hne); eauto.
Qed.

Lemma apply_revoked_profile gid id actor target at_ status s :
  st_profile (apply_group_member_revoked gid id actor target at_ status s) = st_profile s.
Proof. unfold apply_group_member_revoked, forget_local_handle. repeat case_match; done. Qed.

(** A committed removal brings the other members along: when the engine of the member that revokes
    commits a removal and a peer's engine accepts that commit, the peer that handles the frame ends at the
    same epoch and confirmation tag, marks the target revoked, and acknowledges the commit as applied. *)
Theorem removal_commit_replicates `{!Sha256Laws, !HexLaws} engine engine' now gid mid event_id actor at_
    s s1 removal r h m handle :
  remove_openmls_group_member engine gid mid s = (s1, Ok removal) →
  find_group gid r = Some h → has_event event_id h = false →
  find_first (is_member mid) (gv_members h) = Some m → local_user_id r ≠ mid →
  find_handle gid r = Some handle →
  is_ok (hex_decode (oh_signer_public_key_hex handle)) = true →
  (∀ hd signer commit epoch tag, me_remove_member engine hd signer mid = Ok (commit, epoch, tag) →
     (me_public_commit_confirmation_tag_sha256 engine' commit = Ok None
      ∨ me_public_commit_confirmation_tag_sha256 engine' commit = Ok (Some (confirmation_sha256 tag)))
     ∧ ∀ signer', me_apply_external_remove_commit engine' handle signer' epoch commit mid = Ok (epoch, tag)) →
  ∃ r' h' m' hd hd', handle_member_revoked engine' now gid event_id actor mid at_
        (omr_status_copy removal) (Some (omr_commit_bytes removal)) (Some (omr_epoch removal))
        (Some (omr_confirmation_tag_sha256 removal)) r
      = (r', Some (GroupGovernanceAck gid event_id (local_user_id r) "member_revoked_commit_applied"
                     (dt_to_rfc3339 now)))
    ∧ find_group gid r' = Some h' ∧ find_first (is_member mid) (gv_members h') = Some m'
    ∧ gm_status m' = "revoked"%string
    ∧ find_handle gid s1 = Some hd ∧ find_handle gid r' = Some hd'
    ∧ oh_epoch hd' = oh_epoch hd ∧ oh_confirmation_tag_sha256 hd' = oh_confirmation_tag_sha256 hd.
Proof.
  intros Hrem Hh He Hm Hne Hhd Hsig Heng. unfold remove_openmls_group_member in Hrem. cbv zeta in Hrem.
  destruct (rbind _ _) as [[[commit epoch] tag]|] eqn:R; [|done]. injection Hrem as <- <-.
  apply rbind_ok in R as ([hd signer] & Hrh & R). apply rbind_ok in Hrh as (hd0 & Hfind%ok_or_ok & Hrh).
  apply rbind_ok in Hrh as (sg & _ & Hrh). injection Hrh as -> ->. cbn [fst snd] in R.
  apply Heng in R as [Hpre Happ].
  destruct (removal_commit_ok engine' gid mid commit epoch tag handle r Hhd Hsig Hne Hpre Happ)
    as (copy & ev & text & Hcommit).
  cbn [omr_status_copy omr_commit_bytes omr_epoch omr_confirmation_tag_sha256].
  unfold handle_member_revoked. rewrite Hcommit. set (r1 := push_event _ _ _).
  destruct (revoked_row gid event_id actor mid at_ "openmls_remove_member_commit_applied" r1 h) as
    (h' & Hh' & Hm'); [done..|]. rewrite Hm in Hm'.
  set (r2 := apply_group_member_revoked _ _ _ _ _ _ r1) in *.
  destruct (cleanup_routes_frame now gid r2) as (Gc & Oc & Pc).
  assert (local_user_id (cleanup_group_text_routes now gid r2) = local_user_id r) as El.
  { apply local_user_id_ext. rewrite Pc. unfold r2. by rewrite apply_revoked_profile. }
  eexists _, h', (revoke_member at_ actor m), (advance_handle epoch (confirmation_sha256 tag) _ hd),
    (advance_handle epoch (confirmation_sha256 tag) copy handle).
  split; [unfold governance_ack; by rewrite El|]. split_and!; try done.
  - by rewrite (find_group_ext gid _ _ Gc).
  - unfold find_handle in *. cbn. rewrite find_update_first, Hfind by done. reflexivity.
  - unfold find_handle in *. rewrite Oc. unfold r2. rewrite apply_revoked_handles. unfold forget_local_handle.
    change (local_user_id r1) with (local_user_id r). rewrite (proj2 (str_eqb_false mid (local_user_id r))) by congruence.
    unfold r1. cbn. rewrite find_update_first, Hhd by done. reflexivity.
Qed.

(** *** Presence *)

Lemma presence_expiry_bounds `{!ChronoLaws} now ttl expires :
  presence_expiry now ttl = Some expires →
  (dt_nanos now + 30 * 1000000000 ≤ dt_nanos expires ≤ dt_nanos now + 300 * 1000000000)%Z.
Proof.
  unfold presence_expiry. intros (d & Hd%td_seconds_some & He%dt_add_nanos)%bind_Some.
  unfold GROUP_PRESENCE_MAX_TTL_SECONDS in *. lia.
Qed.

(** A peer that can check the heartbeat [e], sent at [now] and good until [expires], at [now']. *)
Record recognises (e : GroupPresenceHeartbeatEvent) (now now' expires : datetime)
    (r : PersistedAppState) (h : GroupView) (n : GroupMemberView) : Prop := {
  rg_group : find_group (gpe_group_id e) r = Some h;
  rg_fresh : has_event (gpe_event_id e) h = false;
  rg_row : find_first (is_member (gpe_member_id e)) (gv_members h) = Some n;
  rg_admitted : group_member_is_admitted_for_runtime n = true;
  rg_key : gm_signer_public_key_hex n = Some (gpe_signer_public_key_hex e);
  rg_peer : is_ok (peer_id_new (gpe_runtime_peer_id e)) = true;
  rg_free : peer_id_taken (gpe_member_id e) (gpe_runtime_peer_id e) (gv_members h) = false;
  rg_newer : ∀ value seen, gm_last_seen_at n = Some value → dt_parse_rfc3339 value = Some seen →
    (dt_nanos seen < dt_nanos now)%Z;
  rg_horizon : is_Some (skew ← td_seconds GROUP_PRESENCE_MAX_FUTURE_SKEW_SECONDS; dt_add now' skew);
  rg_clock : (dt_nanos now ≤ dt_nanos now' + 30 * 1000000000)%Z;
  rg_running : (dt_nanos now' < dt_nanos expires)%Z
}.

Lemma presence_lease_runs `{!ChronoLaws, !Rfc3339Laws} t1 t2 t3 t4 t5 now now' expires :
  four_digit_year now → four_digit_year expires →
  (dt_nanos now + 30 * 1000000000 ≤ dt_nanos expires ≤ dt_nanos now + 300 * 1000000000)%Z →
  is_Some (skew ← td_seconds GROUP_PRESENCE_MAX_FUTURE_SKEW_SECONDS; dt_add now' skew) →
  (dt_nanos now ≤ dt_nanos now' + 30 * 1000000000)%Z → (dt_nanos now' < dt_nanos expires)%Z →
  ∃ a b, presence_lease t1 t2 t3 t4 t5 now' (dt_to_rfc3339 now) (dt_to_rfc3339 expires) = Ok (a, b)
    ∧ dt_nanos a = dt_nanos now ∧ dt_nanos b = dt_nanos expires.
Proof.
  intros Y1 Y2 Httl [horizon Hh] Hclock Hrun. unfold presence_lease.
  destruct (dt_parse_to_rfc3339 now Y1) as (a & -> & Ea). destruct (dt_parse_to_rfc3339 expires Y2) as (b & -> & Eb).
  cbn [require_some ok_or rbind]. rewrite Hh. cbn [ok_or rbind].
  apply bind_Some in Hh as (skew & Hs%td_seconds_some & Hadd%dt_add_nanos).
  unfold GROUP_PRESENCE_MAX_FUTURE_SKEW_SECONDS, GROUP_PRESENCE_MAX_TTL_SECONDS in *.
  assert (dt_lt horizon a = false) as ->. { apply Z.ltb_ge. lia. }
  cbn [negb require rbind]. rewrite dt_since_nanos.
  assert (dt_le b now' = false) as ->. { apply Z.leb_gt. lia. }
  rewrite (proj2 (Z.leb_gt _ _)) by lia. rewrite (proj2 (Z.ltb_ge _ _)) by lia.
  cbn [orb negb require rbind]. by exists a, b.
Qed.

Lemma recognised_presence `{!Ed25519Laws, !HexLaws, !ChronoLaws, !Rfc3339Laws} k e now now' expires r h n :
  gpe_signer_public_key_hex e = public_key_hex k →
  gpe_last_seen_at e = dt_to_rfc3339 now → gpe_presence_expires_at e = dt_to_rfc3339 expires →
  four_digit_year now → four_digit_year expires →
  (dt_nanos now + 30 * 1000000000 ≤ dt_nanos expires ≤ dt_nanos now + 300 * 1000000000)%Z →
  recognises (signed_group_presence k e) now now' expires r h n →
  ∃ a b, check_group_presence now' (signed_group_presence k e) r = Ok (Some (a, b))
    ∧ dt_nanos b = dt_nanos expires.
Proof.
  intros Ek El Ex Y1 Y2 Httl [Hg Hf Hn Had Hkey Hp Hfree Hnew Hhor Hclk Hrun].
  cbn [signed_group_presence gpe_group_id gpe_event_id gpe_member_id gpe_signer_public_key_hex
    gpe_runtime_peer_id] in *.
  unfold check_group_presence. cbn [signed_group_presence gpe_group_id gpe_event_id gpe_member_id
    gpe_signer_public_key_hex gpe_runtime_peer_id gpe_last_seen_at gpe_presence_expires_at gpe_signature_hex].
  rewrite Hg. cbn [require_some ok_or rbind]. rewrite Hf, Hn. cbn [require_some ok_or rbind].
  rewrite Had. cbn [require rbind]. unfold opt_str_eqb. rewrite Hkey, bool_decide_eq_true_2 by done.
  cbn [require rbind]. destruct (peer_id_new _) as [pid|pe]; [|done]. cbn [map_err rbind]. rewrite Hfree.
  cbn [negb require rbind]. rewrite El, Ex.
  destruct (presence_lease_runs "Presence last-seen timestamp is invalid: "
    "Presence expiry timestamp is invalid: "
    "Presence heartbeat lease is expired or outside the allowed range"
    "Accept only current bounded positive presence leases"
    "Presence last-seen timestamp is too far in the future" now now' expires) as (a & b & -> & Ea & Eb);
    [done..|]. cbn [rbind fst].
  unfold verify_group_presence_signature, sign_group_presence. rewrite Ek. unfold public_key_hex at 1.
  change (group_presence_payload (signed_group_presence k e)) with (group_presence_payload e).
  rewrite verify_sign_hex. cbn [map_err rbind].
  exists a, b. split; [|done]. destruct (gm_last_seen_at n) as [value|] eqn:Hl; [|done]. cbn.
  destruct (dt_parse_rfc3339 value) as [seen|] eqn:Hps; [|done]. cbn.
  specialize (Hnew value seen eq_refl Hps).
  assert (dt_le a seen = false) as ->; [|done]. apply Z.leb_gt. lia.
Qed.

(** C12. Presence reaches the other members: a member that publishes presence queues one signed
    heartbeat, and every peer that knows its key, holds no newer heartbeat of it, has the route free and a
    clock within the lease, marks it online at the route it advertised. *)
Theorem published_presence_is_accepted `{!Ed25519Laws, !HexLaws, !ChronoLaws, !Rfc3339Laws}
    now now1 now2 gid ttl s s0 k s1 expires g m peer sha :
  identity_signing_key s = (s0, k) → presence_expiry now ttl = Some expires →
  four_digit_year now → four_digit_year expires →
  presence_fields k (dt_to_rfc3339 now) (dt_to_rfc3339 expires) gid (local_user_id s) s0
    = (s1, Ok (Some (g, m, peer, sha))) →
  let id := governance_event_id gid "presence.heartbeat" (local_user_id s) (st_next_sequence s0) in
  let e := heartbeat k (dt_to_rfc3339 now) (dt_to_rfc3339 expires) id gid (local_user_id s) g m peer sha in
  queues_new id (group_presence_frame e) s1 →
  ∃ s' q, publish_group_presence now gid None ttl s = Some s'
    ∧ q ∈ st_text_control_outbox s' ∧ ob_frame q = group_presence_frame e
    ∧ ∀ now' r h n, recognises e now now' expires r h n →
        ∃ h' n', find_group gid (apply_group_presence_heartbeat now' now1 now2 e r).1 = Some h'
          ∧ find_first (is_member (local_user_id s)) (gv_members h') = Some n'
          ∧ gm_status n' = "online"%string ∧ gm_runtime_peer_id n' = Some peer.
Proof.
  intros Hk Hx Y1 Y2 Hf id e Hq. pose proof (presence_expiry_bounds _ _ _ Hx) as Httl.
  destruct (queued_frame (group_control_target gid) id (group_presence_frame e) s1)
    as (s2 & q & Hqueue & Hin & Hframe & _); [done..|].
  unfold publish_group_presence. cbn [default from_option]. rewrite str_eqb_refl. cbn [negb].
  rewrite Hk, Hx. cbn [mbind option_bind]. rewrite Hf. fold id. fold e.
  unfold queue_group_governance_frame. rewrite Hqueue. eexists _, q.
  split; [reflexivity|]. split; [exact Hin|]. split; [exact Hframe|].
  intros now' r h n Hrec.
  assert (∃ a b, check_group_presence now' e r = Ok (Some (a, b)) ∧ dt_nanos b = dt_nanos expires)
    as (a & b & Hc & Eb).
  { unfold e, heartbeat in Hrec |- *. eapply recognised_presence; [..|exact Hrec]; done. }
  unfold apply_group_presence_heartbeat. rewrite Hc. set (t := update_group _ _ r).
  assert (find_group gid t = Some (present_group now' now1 (local_user_id r) e b h)) as Ht.
  { unfold t. change (gpe_group_id e) with gid. rewrite find_update_group by done.
    pose proof (rg_group _ _ _ _ _ _ _ Hrec) as Hg. change (gpe_group_id e) with gid in Hg. by rewrite Hg. }
  exists (present_group now' now1 (local_user_id r) e b h), (present_member now' e b n). split_and!.
  - destruct (refresh_text_control_outbox_routes_for_group _ _ _) as [u|] eqn:Hr; [|exact Ht].
    cbn [fst]. by rewrite (find_group_ext gid u t (refresh_group_groups _ _ _ _ Hr)).
  - cbn. pose proof (rg_row _ _ _ _ _ _ _ Hrec) as Hn. cbn in Hn.
    rewrite find_update_first by done. by rewrite Hn.
  - pose proof (rg_running _ _ _ _ _ _ _ Hrec) as Hrun. cbn.
    assert (dt_lt now' b = true) as -> by (apply Z.ltb_lt; lia). done.
  - done.
Qed.

End commands.

(** ** Concrete commands *)

Module CommandToy.

#[local] Existing Instance Toy.toy_sha.
#[local] Existing Instance Toy.toy_ed.
#[local] Existing Instance Toy.toy_hex.
#[local] Existing Instance Toy.toy_aead.
#[local] Existing Instance Toy.toy_chrono.
#[local] Existing Instance Toy.toy_rfc3339.
#[local] Existing Instance DeskToy.toy_seed.
#[local] Existing Instance DeskToy.toy_json.
#[local] Existing Instance DeskToy.toy_texts.

Definition bob_row : GroupMemberView :=
  GroupToy.row "user-bob" GroupToy.bob_key RoleMember (Some "peer-b"%string).

Definition crew : GroupView := GroupToy.crew 2 [GroupToy.lobby].

(** An engine that removes one member at epoch 4. *)
Definition engine : MlsEngine :=
  {| DeliveryToy.empty_engine with
     me_remove_member := λ _ _ _, Ok ([6], 4, [8]);
     me_apply_external_remove_commit := λ _ _ _ _ _, Ok (4, [8]) |}.

Definition host : PersistedAppState := {| GroupToy.alice with st_openmls_groups := [AdmissionToy.handle] |}.
Definition peer : PersistedAppState := {| GroupToy.bob with st_openmls_groups := [AdmissionToy.handle] |}.

Notation removed := (remove_openmls_group_member engine "crew" "user-carol" host).

Definition carol_row : GroupMemberView := GroupToy.row "user-carol" "k" RoleMember None.
Definition peer_with_carol : PersistedAppState :=
  {| peer with st_groups := [{| crew with gv_members := gv_members crew ++ [carol_row] |}] |}.

Notation fields := (presence_fields (identity_signing_key GroupToy.alice).2
  (GroupToy.stamp 100) (dt_to_rfc3339 (GroupToy.instant 190)) "crew" "user-alice"
  (identity_signing_key GroupToy.alice).1).

Definition alice_row : GroupMemberView :=
  GroupToy.row "user-alice" GroupToy.alice_key RoleOwner (Some "peer-a"%string).

End CommandToy.

Section witnesses.
#[local] Existing Instance Toy.toy_sha.
#[local] Existing Instance Toy.toy_sha_laws.
#[local] Existing Instance Toy.toy_ed.
#[local] Existing Instance Toy.toy_ed_laws.
#[local] Existing Instance Toy.toy_hex.
#[local] Existing Instance Toy.toy_hex_laws.
#[local] Existing Instance Toy.toy_aead.
#[local] Existing Instance Toy.toy_chrono.
#[local] Existing Instance Toy.toy_chrono_laws.
#[local] Existing Instance Toy.toy_rfc3339.
#[local] Existing Instance Toy.toy_rfc3339_laws.
#[local] Existing Instance DeskToy.toy_seed.
#[local] Existing Instance DeskToy.toy_json.
#[local] Existing Instance DeskToy.toy_texts.

Lemma promotion_replicates_witness :
  role_moved "crew" "user-bob" RoleMember RoleStaff GroupToy.alice
    (promote_group_member_to_staff (GroupToy.instant 1) "crew" "user-bob" GroupToy.alice).
Proof.
  destruct (promotion_replicates (GroupToy.instant 1) "crew" "user-bob" GroupToy.alice CommandToy.crew
    CommandToy.bob_row) as [H _].
  - split; [reflexivity|]. exists CommandToy.alice_row. repeat split.
  - reflexivity.
  - reflexivity.
  - vm_compute. discriminate.
  - eexists. split; [reflexivity|]. intros r Hr. exfalso. exact (not_elem_of_nil r Hr).
  - exact H.
Defined.

Lemma removal_commit_replicates_witness :
  ∃ r' frame, handle_member_revoked CommandToy.engine (GroupToy.instant 2) "crew" "e9" "user-alice"
    "user-carol" "t" "openmls_remove_member_commit_applied" (Some [6]) (Some 4)
    (Some (confirmation_sha256 [8])) CommandToy.peer_with_carol = (r', Some frame).
Proof.
  destruct (removal_commit_replicates CommandToy.engine CommandToy.engine (GroupToy.instant 2) "crew"
    "user-carol" "e9" "user-alice" "t" CommandToy.host CommandToy.removed.1
    {| omr_commit_bytes := [6]; omr_epoch := 4;
       omr_confirmation_tag_sha256 := confirmation_sha256 [8];
       omr_status_copy := "openmls_remove_member_commit_applied" |}
    CommandToy.peer_with_carol {| CommandToy.crew with gv_members := gv_members CommandToy.crew ++ [CommandToy.carol_row] |}
    CommandToy.carol_row AdmissionToy.handle) as (r' & h' & m' & hd & hd' & Hr & _).
  - reflexivity.
  - reflexivity.
  - reflexivity.
  - reflexivity.
  - vm_compute. discriminate.
  - reflexivity.
  - vm_compute. reflexivity.
  - intros hd signer commit epoch tag Ha. cbn in Ha. injection Ha as <- <- <-. split; [by left|done].
  - eexists r', _. exact Hr.
Defined.

Lemma published_presence_is_accepted_witness :
  ∃ s', publish_group_presence (GroupToy.instant 100) "crew" None None GroupToy.alice = Some s'.
Proof.
  assert (E : from_option (λ p : GroupView * GroupMemberView * string * string, true) false
      (GroupToy.unwrap None CommandToy.fields.2) = true) by (vm_compute; reflexivity).
  destruct CommandToy.fields as [s1 [[[[[g m] p] sha]|]|]] eqn:F; cbn in E; try discriminate E.
  destruct (published_presence_is_accepted (GroupToy.instant 100) (GroupToy.instant 1)
    (GroupToy.instant 1) "crew" None GroupToy.alice (identity_signing_key GroupToy.alice).1
    (identity_signing_key GroupToy.alice).2 s1 (GroupToy.instant 190) g m p sha) as (s' & q & Hs & _).
  - apply surjective_pairing.
  - vm_compute. reflexivity.
  - vm_compute. split; congruence.
  - vm_compute. split; congruence.
  - exact F.
  - eexists. split; [reflexivity|]. intros r Hr. exfalso.
    assert (st_text_control_outbox s1 = []) as En.
    { change s1 with (s1, Ok (Some (g, m, p, sha)) : result (option (GroupView * GroupMemberView * string * string)) GovError).1. rewrite <- F. vm_compute. reflexivity. }
    rewrite En in Hr. exact (not_elem_of_nil r Hr).
  - exists s'. exact Hs.
Defined.

End witnesses.
