(* ===== verification/DeskFrames.v ===== *)
(** * Desktop application: text/control frames
    (apps/desktop/src-tauri/src/lib.rs)

    [handle_text_control_frame_for_route]: every kind of frame that arrives, with the handler it
    goes to and the frame it is answered with, and what no frame can do. *)

From S2P Require Import Prelude Collections Bytes StrOps Crypto Transport RouteGraph Identity DeliveryError TextEnvelope TextSend AppService DeskState DeskGroups DeskDelivery DeskAdmission DeskVoice DeskCommands.

Section frames.
Context `{Sha256, Ed25519, Hex, Aes256Gcm, Chrono, !Rfc3339, !SigningSeed, !FrameJson, !ErrorTexts}.

(** A frame that updates the application state and may be answered; [None] is a panic. *)
Definition app_reply (outcome : PersistedAppState * option TextControlFrameView)
    (v : VoiceAppState) : option (VoiceAppState * option TextControlFrameView) :=
  Some ({| v with va_app := outcome.1 |}, outcome.2).

(** [if let Err((code, message, hint)) = …] *)
Definition on_rejection {A} (now : datetime) (event_kind : string) (r : result A GovError)
    (s : PersistedAppState) : option PersistedAppState :=
  match r with
  | Ok _ => Some s
  | Err (Rejected code message hint) =>
      Some (push_command_error now event_kind "handle_text_control_frame" code message hint s)
  | Err Panicked => None
  end.

Definition handle_role_changed (now : datetime) (e : GroupMemberRoleChangedEvent)
    (s : PersistedAppState) : option (PersistedAppState * option TextControlFrameView) :=
  let applied := apply_group_member_role_changed e s in
  let status := if is_ok applied then "role_changed_applied"%string
                else "role_changed_rejected"%string in
  s ← on_rejection now "group.member_role_change_rejected" applied
        (match applied with Ok s' => s' | Err _ => s end);
  Some (s, Some (governance_ack now (rce_group_id e) (rce_event_id e) status s)).

Definition handle_schema_updated (now : datetime) (group_id event_id : string)
    (snapshot : GroupChannelSchemaSnapshotView) (s : PersistedAppState) :
    option (PersistedAppState * option TextControlFrameView) :=
  let applied := apply_group_channel_schema_snapshot group_id event_id snapshot s in
  let status := match applied with
                | Ok (_, true) => "channel_schema_applied"%string
                | Ok (_, false) => "channel_schema_current"%string
                | Err _ => "channel_schema_rejected"%string
                end in
  s ← on_rejection now "channel.schema_rejected" applied
        (match applied with Ok (s', _) => s' | Err _ => s end);
  Some (s, Some (governance_ack now group_id event_id status s)).

(** A sender whose schema differs is sent the local one, when the local member may sign it. *)
Definition handle_group_presence (now : datetime) (e : GroupPresenceHeartbeatEvent)
    (s : PersistedAppState) : option (PersistedAppState * option TextControlFrameView) :=
  let '(s, applied) := apply_group_presence_heartbeat now now now e s in
  match applied with
  | Err _ => s ← on_rejection now "group.presence_rejected" applied s; Some (s, None)
  | Ok _ =>
      let local_schema :=
        group ← find_group (gpe_group_id e) s;
        match group_channel_schema_sha256 (gv_channels group) with
        | Ok sha256 => Some (gv_channel_schema_epoch group, sha256)
        | Err _ => None
        end in
      let divergent := from_option (λ local : N * string,
        negb (gpe_channel_schema_epoch e =? local.1)
        || negb (gpe_channel_schema_sha256 e =s local.2)) false local_schema in
      if negb (gpe_member_id e =s local_user_id s) && divergent then
        match current_group_channel_schema_frame now (gpe_group_id e) s with
        | (s, Ok frame) => Some (s, Some frame)
        | (s, Err _) => Some (s, None)
        end
      else Some (s, None)
  end.

Definition handle_receipt (now : datetime) (message_id : string) (receipt : TextDeliveryReceipt)
    (observed_route_peer_id : option string) (s : PersistedAppState) : PersistedAppState :=
  match apply_text_delivery_receipt_for_route message_id receipt observed_route_peer_id s with
  | (s, Ok _) => s
  | (s, Err error) =>
      push_command_error now "message.receipt_frame_rejected" "handle_text_control_frame"
        "receipt_frame_verification_failed" error
        "Accept peer delivery only from a receipt frame whose signature, message id, group binding, and ciphertext hash verify"
        s
  end.

Definition handle_envelope (engine : MlsEngine) (now : datetime) (target : MessageTargetView)
    (envelope : TextMessageEnvelope) (sender_verifying_key_hex : string)
    (recipient_leaf : option N) (s : PersistedAppState) :
    PersistedAppState * option TextControlFrameView :=
  match receive_text_delivery_envelope engine now now
          {| rr_target := target; rr_envelope := envelope;
             rr_sender_verifying_key_hex := sender_verifying_key_hex;
             rr_recipient_leaf := recipient_leaf |} s with
  | (s, Ok (receipt, _)) => (s, Some (Receipt (te_message_id envelope) receipt))
  | (s, Err _) => (s, None)
  end.

(** [engine] is the OpenMLS engine as it stands, [joined] as it stands after a join. *)
Definition handle_text_control_frame_for_route (engine joined : MlsEngine) (now : datetime)
    (frame : TextControlFrameView) (observed_route_peer_id : option string) (v : VoiceAppState) :
    option (VoiceAppState * option TextControlFrameView) :=
  let s := va_app v in
  match frame with
  | OpenMlsAdmissionKeyPackage group_id member_identity signer_public_key_hex
      identity_signer_public_key_hex key_package =>
      app_reply (handle_key_package engine now group_id member_identity signer_public_key_hex
                   identity_signer_public_key_hex key_package s) v
  | GroupAdmissionDecision group_id request_id approved reason decided_by decided_at =>
      app_reply (handle_admission_decision now group_id request_id approved reason decided_by
                   decided_at s, None) v
  | OpenMlsAdmissionWelcome _ _ _ _ _ _ _ _ =>
      app_reply (handle_welcome engine joined now frame s, None) v
  | Envelope target envelope sender_verifying_key_hex recipient_leaf =>
      app_reply (handle_envelope engine now target envelope sender_verifying_key_hex
                   recipient_leaf s) v
  | GroupMemberRoleChanged group_id event_id actor_member_id actor_signer_public_key_hex
      target_member_id role_before role_after created_at signature_hex =>
      outcome ← handle_role_changed now {|
        rce_group_id := group_id; rce_event_id := event_id;
        rce_actor_member_id := actor_member_id;
        rce_actor_signer_public_key_hex := actor_signer_public_key_hex;
        rce_target_member_id := target_member_id; rce_role_before := role_before;
        rce_role_after := role_after; rce_created_at := created_at;
        rce_signature_hex := signature_hex |} s;
      app_reply outcome v
  | GroupMemberRevoked group_id event_id actor_member_id target_member_id _ created_at
      crypto_removal_status openmls_remove_commit openmls_epoch openmls_confirmation_tag_sha256 =>
      app_reply (handle_member_revoked engine now group_id event_id actor_member_id
                   target_member_id created_at crypto_removal_status openmls_remove_commit
                   openmls_epoch openmls_confirmation_tag_sha256 s) v
  | GroupChannelSchemaUpdated group_id event_id snapshot =>
      outcome ← handle_schema_updated now group_id event_id snapshot s; app_reply outcome v
  | GroupGovernanceAck _ event_id applied_by_member_id status created_at =>
      app_reply (push_event "group.governance_ack_received"
        ("Governance ack " +:+ redacted_observable_ref "status" status +:+ " for "
         +:+ redacted_observable_ref "event" event_id +:+ " from "
         +:+ redacted_observable_ref "member" applied_by_member_id +:+ " at "
         +:+ redacted_observable_ref "time" created_at) s, None) v
  | DmPresenceHeartbeat scope_id_commitment event_id profile_id display_name device_id role
      signer_public_key_hex runtime_peer_id last_seen_at presence_expires_at signature_hex =>
      let '(s, applied) := apply_dm_presence_heartbeat now now {|
        dpe_scope_id_commitment := scope_id_commitment; dpe_event_id := event_id;
        dpe_profile_id := profile_id; dpe_display_name := display_name;
        dpe_device_id := device_id; dpe_role := role;
        dpe_signer_public_key_hex := signer_public_key_hex;
        dpe_runtime_peer_id := runtime_peer_id; dpe_last_seen_at := last_seen_at;
        dpe_presence_expires_at := presence_expires_at; dpe_signature_hex := signature_hex |} s in
      s ← on_rejection now "dm.presence_rejected" applied s; app_reply (s, None) v
  | GroupPresenceHeartbeat group_id event_id member_id display_name device_id
      signer_public_key_hex runtime_peer_id channel_schema_epoch channel_schema_sha256 last_seen_at
      presence_expires_at signature_hex =>
      outcome ← handle_group_presence now {|
        gpe_group_id := group_id; gpe_event_id := event_id; gpe_member_id := member_id;
        gpe_display_name := display_name; gpe_device_id := device_id;
        gpe_signer_public_key_hex := signer_public_key_hex;
        gpe_runtime_peer_id := runtime_peer_id; gpe_channel_schema_epoch := channel_schema_epoch;
        gpe_channel_schema_sha256 := channel_schema_sha256; gpe_last_seen_at := last_seen_at;
        gpe_presence_expires_at := presence_expires_at; gpe_signature_hex := signature_hex |} s;
      app_reply outcome v
  | VoiceSignal signal => Some (handle_voice_signal_frame now signal v, None)
  | Receipt message_id receipt =>
      app_reply (handle_receipt now message_id receipt observed_route_peer_id s, None) v
  end.

(** ** What no frame does *)

(** The profile stays, and a coherent outbox stays coherent. *)
Record settled (s s' : PersistedAppState) : Prop := {
  se_profile : st_profile s' = st_profile s;
  se_outbox : outbox_wf s → outbox_wf s'
}.

#[export] Instance settled_preorder : PreOrder settled.
Proof.
  split; [done|]. intros s1 s2 s3 [P1 O1] [P2 O2]. split; [by rewrite P2, P1|auto].
Qed.

Lemma settled_same s s' :
  st_profile s' = st_profile s → st_text_control_outbox s' = st_text_control_outbox s → settled s s'.
Proof. intros P O. split; [done|]. unfold outbox_wf. by rewrite O. Qed.

Lemma settled_step s s' : outbox_step s s' → st_profile s' = st_profile s → settled s s'.
Proof. intros Hs P. split; [done|]. intros Hwf. by eapply outbox_step_wf. Qed.

Lemma upsert_pending_settled now gid mid skey ikey kp s s' rid :
  upsert_pending_group_admission_request now gid mid skey ikey kp s = Ok (s', rid) → settled s s'.
Proof.
  unfold upsert_pending_group_admission_request. intros R. apply rbind_ok in R as (g & _ & R).
  destruct (existsb _ _); injection R as <- _; by apply settled_same.
Qed.

Lemma mark_settled gid rid approved by_ at_ reason s s' status :
  mark_group_admission_decision gid rid approved by_ at_ reason s = Ok (s', status) → settled s s'.
Proof.
  intros (g & r & _ & _ & Hst)%mark_inv. destruct status; destruct Hst as (_ & Hst).
  - destruct Hst as (entry & ->). by apply settled_same.
  - destruct Hst as (-> & _). reflexivity.
  - destruct Hst as (entry & -> & _). by apply settled_same.
Qed.

Lemma welcome_settled engine now gid mid skey ikey kp s :
  settled s (openmls_admission_welcome_from_frame engine now gid mid skey ikey kp s).1.
Proof.
  destruct (welcome_cases engine now gid mid skey ikey kp s) as [(error & ->)|
    (handle & own & member & welcome & epoch & tag & s1 & s2 & k & _ & _ & _ & _ & [_ P O _] & Hk & ->)];
    [reflexivity|].
  destruct (signed_group_channel_schema_snapshot _ _ _) as [t r] eqn:Es.
  apply snapshot_keeps in Es as (_ & P2 & _ & O2). apply identity_key_groups in Hk as (_ & P1 & _ & O1).
  apply settled_same; cbn; [by rewrite P2, P1, P|by rewrite O2, O1, O].
Qed.

Lemma key_package_settled engine now gid mid skey ikey kp s :
  settled s (handle_key_package engine now gid mid skey ikey kp s).1.
Proof.
  unfold handle_key_package.
  destruct (upsert_pending_group_admission_request _ _ _ _ _ _ _) as [[s1 rid]|] eqn:Eu;
    [|by apply settled_same].
  transitivity s1; [by eapply upsert_pending_settled|]. case_bool_decide; [reflexivity|].
  destruct (local_online_admission_authority _ _ _) as [by_|]; [|by apply settled_same].
  destruct (already_admitted _ _ _); [reflexivity|].
  pose proof (welcome_settled engine now gid mid skey ikey kp s1) as Hw.
  destruct (openmls_admission_welcome_from_frame _ _ _ _ _ _ _ _) as [s2 [w|]];
    [|by etransitivity; [exact Hw|apply settled_same]].
  destruct (mark_group_admission_decision _ _ _ _ _ _ _) as [[s3 status]|] eqn:Em;
    [|by etransitivity; [exact Hw|apply settled_same]].
  apply mark_settled in Em. transitivity s2; [exact Hw|]. transitivity s3; [done|].
  by apply settled_same.
Qed.

Lemma admission_decision_settled now gid rid approved reason by_ at_ s :
  settled s (handle_admission_decision now gid rid approved reason by_ at_ s).
Proof.
  unfold handle_admission_decision.
  destruct (mark_group_admission_decision _ _ _ _ _ _ _) as [[s3 status]|] eqn:Em;
    [by eapply mark_settled|]. case_match; by apply settled_same.
Qed.

Lemma schema_settled gid event_id snap s s' b :
  apply_group_channel_schema_snapshot gid event_id snap s = Ok (s', b) → settled s s'.
Proof.
  intros [->| ->]%schema_cases; [reflexivity|]. unfold settle_active_context.
  case_match; by apply settled_same.
Qed.

Lemma joining_settled now gid owner owner_key record s :
  settled s (joining now gid owner owner_key record s).
Proof.
  unfold joining. set (t := upsert_openmls_group_handle record s).
  destruct (upsert_handle_groups record s) as (_ & Pt & Ot). fold t in Pt, Ot.
  destruct (identity_signing_key t) as [s1 k] eqn:Ek.
  destruct (identity_key_groups _ _ _ Ek) as (_ & P1 & _ & O1).
  destruct (upsert_admitted_inv now gid (local_user_id t) (public_key_hex k) s1)
    as (s0 & peer & n & -> & _ & P0 & _ & O0 & _).
  apply settled_same; destruct (_ =s _); cbn; rewrite ?P0, ?P1, ?O0, ?O1; done.
Qed.

Lemma welcome_frame_settled engine joined now frame s :
  settled s (handle_welcome engine joined now frame s).
Proof.
  assert (settled s (join_openmls_from_admission_welcome_frame engine joined now now frame s).1) as Hj.
  { destruct frame; try reflexivity.
    destruct (join_cases engine joined now now group_id owner_member_id
      owner_identity_signer_public_key_hex member_signer_public_key_hex welcome_bytes epoch
      confirmation_tag_sha256 channel_schema s) as [->|(e & t & Hj)]; [reflexivity|]. cbv zeta in Hj.
    destruct (apply_group_channel_schema_snapshot _ _ _ _) as [[s2 b]|error] eqn:Ea.
    - destruct Hj as (s3 & events & n & -> & _ & _ & P & O). apply schema_settled in Ea.
      etransitivity; [apply joining_settled|]. etransitivity; [exact Ea|]. by apply settled_same.
    - rewrite Hj. apply joining_settled. }
  unfold handle_welcome. destruct (join_openmls_from_admission_welcome_frame _ _ _ _ _ _) as [s1 [?|?]];
    [exact Hj|]. etransitivity; [exact Hj|]. by apply settled_same.
Qed.

Lemma cleanup_settled now gid s : settled s (cleanup_group_text_routes now gid s).
Proof.
  unfold cleanup_group_text_routes. set (targets := from_option _ _ _). clearbody targets.
  revert s. induction targets as [|t l IH]; intros s; [reflexivity|]. cbn [foldl].
  destruct (route_peer_ids_for_text_target now t s) as [current|]; [|apply IH].
  etransitivity; [|apply IH]. apply settled_step; [apply OutCleanup|done].
Qed.

Lemma apply_revoked_settled gid event_id actor target at_ status s :
  settled s (apply_group_member_revoked gid event_id actor target at_ status s).
Proof.
  apply settled_same; unfold apply_group_member_revoked, forget_local_handle; repeat case_match; done.
Qed.

Lemma member_revoked_settled engine now gid event_id actor target at_ status commit epoch tag s :
  settled s (handle_member_revoked engine now gid event_id actor target at_ status commit epoch tag s).1.
Proof.
  assert (∀ t, settled t (cleanup_group_text_routes now gid
    (apply_group_member_revoked gid event_id actor target at_ status t))) as Happly.
  { intros t. etransitivity; [apply apply_revoked_settled|apply cleanup_settled]. }
  unfold handle_member_revoked. destruct commit as [commit|].
  - destruct epoch as [epoch|], tag as [tag|]; try by apply settled_same.
    assert (settled s (apply_openmls_group_member_removal_commit engine gid target commit epoch tag s).1)
      as Hc.
    { unfold apply_openmls_group_member_removal_commit. cbv zeta.
      destruct (rbind _ _) as [[e t]|]; [|done]. case_match; by apply settled_same. }
    destruct (apply_openmls_group_member_removal_commit _ _ _ _ _ _ _) as [s1 [?|?]]; cbn in Hc.
    + transitivity s1; [done|apply Happly].
    + transitivity s1; [done|by apply settled_same].
  - destruct (negb _); [by apply settled_same|apply Happly].
Qed.

Lemma receipt_settled now message_id receipt observed s :
  settled s (handle_receipt now message_id receipt observed s)
  ∧ st_groups (handle_receipt now message_id receipt observed s) = st_groups s.
Proof.
  assert (settled s (apply_text_delivery_receipt_for_route message_id receipt observed s).1
    ∧ st_groups (apply_text_delivery_receipt_for_route message_id receipt observed s).1 = st_groups s)
    as [Hr Hg].
  { split; [apply settled_step; [apply OutReceipt|]|]; unfold apply_text_delivery_receipt_for_route;
      destruct (check_receipt _ _ _ _) as [[[key p] o]|]; try done;
      destruct (negb _); try done; destruct (existsb _ _); done. }
  unfold handle_receipt. destruct (apply_text_delivery_receipt_for_route _ _ _ _) as [s1 [?|?]];
    [done|]. split; [|done]. etransitivity; [exact Hr|by apply settled_same].
Qed.

Lemma identity_key_settled s : settled s (identity_signing_key s).1.
Proof.
  destruct (identity_signing_key s) as [t k] eqn:E. apply identity_key_groups in E as (_ & P & _ & O).
  by apply settled_same.
Qed.

Lemma identity_key_same_groups s : st_groups (identity_signing_key s).1 = st_groups s.
Proof.
  destruct (identity_signing_key s) as [t k] eqn:E. by apply identity_key_groups in E as (? & _).
Qed.

(** Groups, profile and outbox as they were. *)
Record untouched (s s' : PersistedAppState) : Prop := {
  un_groups : st_groups s' = st_groups s;
  un_profile : st_profile s' = st_profile s;
  un_outbox : st_text_control_outbox s' = st_text_control_outbox s
}.

#[export] Instance untouched_preorder : PreOrder untouched.
Proof.
  split; [done|]. intros s1 s2 s3 [G1 P1 O1] [G2 P2 O2]. split; [by rewrite G2|by rewrite P2|by rewrite O2].
Qed.

Lemma untouched_key s : untouched s (identity_signing_key s).1.
Proof.
  destruct (identity_signing_key s) as [t k] eqn:E. by apply identity_key_groups in E as (? & ? & _ & ?).
Qed.

Lemma envelope_untouched engine now target envelope key leaf s :
  untouched s (handle_envelope engine now target envelope key leaf s).1.
Proof.
  set (request := {| rr_target := target; rr_envelope := envelope; rr_sender_verifying_key_hex := key;
                     rr_recipient_leaf := leaf |}).
  assert (∀ gid existing, untouched s (reissue_receipt request gid existing s).1) as Hre.
  { intros gid existing. unfold reissue_receipt. destruct (_ || _); [done|].
    pose proof (untouched_key s) as Hk. destruct (identity_signing_key s) as [s1 k]. cbn in Hk.
    cbv zeta. destruct (rbind _ _); [|exact Hk]. by transitivity s1. }
  assert (∀ gid k, untouched s (store_envelope engine now request gid k s).1) as Hst.
  { intros gid k. unfold store_envelope.
    destruct (receive_text_plaintext_render _ _ _ _ _ _) as [s1 r] eqn:Er.
    apply render_frame in Er. assert (untouched s s1) as Hs1 by (by rewrite Er).
    destruct r as [render|]; [|done]. pose proof (untouched_key s1) as Hk.
    destruct (identity_signing_key s1) as [s2 signer]. cbn in Hk.
    destruct (map_err _ _); [|by transitivity s1]. transitivity s1; [done|]. transitivity s2; [done|].
    destruct (existsb _ _), (existsb _ _), (existsb _ _); done. }
  unfold handle_envelope. fold request. unfold receive_text_delivery_envelope. cbv zeta.
  destruct (verify_envelope_sender request s) as [[gid k]|]; [|done].
  set (outcome := match find_first _ _ with Some _ => _ | None => _ end).
  assert (untouched s outcome.1) as Ho by (unfold outcome; destruct (find_first _ _); auto).
  clearbody outcome. destruct outcome as [s1 [[receipt k']|]]; [done|]. cbn. by transitivity s1.
Qed.

(** What a frame leaves of the application. *)
Record frame_effect (s s' : PersistedAppState) : Prop := {
  fe_evolves : evolves s s';
  fe_settled : settled s s'
}.

Lemma effect_untouched s s' : untouched s s' → frame_effect s s'.
Proof. intros [G P O]. split; [by apply evolves_groups|by apply settled_same]. Qed.

#[export] Instance frame_effect_preorder : PreOrder frame_effect.
Proof. split; [by split|]. intros s1 s2 s3 [] []. split; by etransitivity. Qed.

Lemma rejection_effect {A} now kind (r : result A GovError) s s' :
  on_rejection now kind r s = Some s' → frame_effect s s'.
Proof.
  unfold on_rejection. destruct r as [|[|]]; [|done|]; intros [= <-]; by apply effect_untouched.
Qed.

Lemma role_changed_effect now e s s' reply :
  handle_role_changed now e s = Some (s', reply) → frame_effect s s'.
Proof.
  unfold handle_role_changed. cbv zeta. intros (t & Ht%rejection_effect & [= <- _])%bind_Some.
  etransitivity; [|exact Ht]. destruct (apply_group_member_role_changed e s) as [s1|] eqn:E; [|done].
  apply role_change_inv in E as (g & _ & [[_ ->]|(_ & _ & ->)]); [done|].
  split; [|by apply settled_same]. apply evolves_requests.
  - apply role_changed_id.
  - intros h. unfold role_changed. by destruct (_ =s _).
  - intros h. unfold role_changed. destruct (_ =s _); by eexists.
Qed.

Lemma schema_updated_effect now gid event_id snap s s' reply :
  handle_schema_updated now gid event_id snap s = Some (s', reply) → frame_effect s s'.
Proof.
  unfold handle_schema_updated. cbv zeta. intros (t & Ht%rejection_effect & [= <- _])%bind_Some.
  etransitivity; [|exact Ht].
  destruct (apply_group_channel_schema_snapshot gid event_id snap s) as [[s1 b]|] eqn:E; [|done].
  split; [by eapply schema_evolves|by eapply schema_settled].
Qed.

Lemma presence_effect now now' now'' e s :
  frame_effect s (apply_group_presence_heartbeat now now' now'' e s).1.
Proof.
  unfold apply_group_presence_heartbeat.
  destruct (check_group_presence now e s) as [[[a b]|]|]; try done.
  set (t := update_group _ _ s). assert (frame_effect s t) as Ht.
  { split; [|by apply settled_same]. apply evolves_requests; intros g; try done. by eexists. }
  destruct (refresh_text_control_outbox_routes_for_group _ _ _) as [u|] eqn:Hr; [|done].
  etransitivity; [exact Ht|]. split.
  - apply evolves_groups. by eapply refresh_group_groups.
  - apply settled_step; [by eapply OutRefreshGroup|].
    unfold refresh_text_control_outbox_routes_for_group in Hr. by apply rbind_ok in Hr as (? & _ & [= <-]).
Qed.

Lemma dm_presence_effect now now' e s :
  frame_effect s (apply_dm_presence_heartbeat now now' e s).1.
Proof.
  unfold apply_dm_presence_heartbeat. destruct (check_dm_presence now e s) as [[dm|]|]; try done.
  set (t := {| s with st_dms := _ |}). assert (frame_effect s t) as Ht by by apply effect_untouched.
  destruct (refresh_text_control_outbox_routes_for_dm _ _ _) as [u|] eqn:Hr; [|done].
  etransitivity; [exact Ht|]. transitivity u; [|by apply effect_untouched].
  pose proof (OutRefreshDm t now' (dc_dm_id dm) u Hr) as Hstep.
  unfold refresh_text_control_outbox_routes_for_dm in Hr. apply rbind_ok in Hr as (? & _ & [= <-]).
  split; [by apply evolves_groups|by apply settled_step].
Qed.

Lemma group_presence_effect now e s s' reply :
  handle_group_presence now e s = Some (s', reply) → frame_effect s s'.
Proof.
  unfold handle_group_presence. pose proof (presence_effect now now now e s) as Hp.
  destruct (apply_group_presence_heartbeat now now now e s) as [s1 [?|?]]; cbn in Hp.
  - cbv zeta. destruct (_ && _); [|by intros [= <- _]].
    unfold current_group_channel_schema_frame.
    destruct (signed_group_channel_schema_snapshot _ _ _) as [s2 r] eqn:Es.
    apply snapshot_keeps in Es as (G & P & _ & O).
    assert (frame_effect s1 s2) by by apply effect_untouched.
    destruct (rbind _ _); intros [= <- _]; by transitivity s1.
  - intros (t & Ht%rejection_effect & [= <- _])%bind_Some. by transitivity s1.
Qed.

Lemma voice_effect now signal v :
  frame_effect (va_app v) (va_app (handle_voice_signal_frame now signal v)).
Proof. apply effect_untouched. unfold handle_voice_signal_frame. repeat case_match; done. Qed.

Lemma frame_has_effect engine joined now frame observed v v' reply :
  handle_text_control_frame_for_route engine joined now frame observed v = Some (v', reply) →
  frame_effect (va_app v) (va_app v').
Proof.
  destruct frame; unfold handle_text_control_frame_for_route, app_reply; cbv zeta.
  - intros [= <- _]. split; [apply key_package_evolves|apply key_package_settled].
  - intros [= <- _]. split; [apply admission_decision_evolves|apply admission_decision_settled].
  - intros [= <- _]. split; [apply welcome_frame_evolves|apply welcome_frame_settled].
  - intros [= <- _]. apply effect_untouched, envelope_untouched.
  - intros ([s1 r] & Hr & [= <- _])%bind_Some. by eapply role_changed_effect.
  - intros [= <- _]. split; [apply member_revoked_evolves|apply member_revoked_settled].
  - intros ([s1 r] & Hr & [= <- _])%bind_Some. by eapply schema_updated_effect.
  - intros ([s1 r] & Hr & [= <- _])%bind_Some. by eapply group_presence_effect.
  - set (e := Build_DmPresenceHeartbeatEvent _ _ _ _ _ _ _ _ _ _ _).
    pose proof (dm_presence_effect now now e (va_app v)) as Hd.
    destruct (apply_dm_presence_heartbeat now now e (va_app v)) as [s1 r]. cbn in Hd.
    intros (t & Ht%rejection_effect & [= <- _])%bind_Some. by transitivity s1.
  - intros [= <- _]. by apply effect_untouched.
  - intros [= <- _]. apply voice_effect.
  - intros [= <- _]. destruct (receipt_settled now message_id receipt observed (va_app v)) as [Hs Hg].
    split; [by apply evolves_groups|done].
Qed.

(** One arrival: the engine before and after, the clock, the frame and the route it came by. *)
Record arrival := {
  an_engine : MlsEngine;
  an_joined : MlsEngine;
  an_now : datetime;
  an_frame : TextControlFrameView;
  an_route : option string
}.

(** Any number of arrivals, in order. *)
Fixpoint run_frames (l : list arrival) (v : VoiceAppState) : option VoiceAppState :=
  match l with
  | [] => Some v
  | a :: l =>
      outcome ← handle_text_control_frame_for_route (an_engine a) (an_joined a) (an_now a) (an_frame a)
                  (an_route a) v;
      run_frames l outcome.1
  end.

(** C6. Peers only add to the record: whatever frames arrive, in whatever order, no group is lost,
    each governance log is a prefix of what it becomes, every decided admission request stays exactly
    as it was decided, the local profile stays, and a coherent outbox stays coherent. *)
Theorem frames_only_extend_the_record l v v' :
  run_frames l v = Some v' →
  (∀ gid g, find_group gid (va_app v) = Some g →
     ∃ g', find_group gid (va_app v') = Some g'
       ∧ gv_governance_log g `prefix_of` gv_governance_log g'
       ∧ ∀ rid r, find_request rid g = Some r → ar_status r ≠ "pending"%string →
           find_request rid g' = Some r)
  ∧ st_profile (va_app v') = st_profile (va_app v)
  ∧ (outbox_wf (va_app v) → outbox_wf (va_app v')).
Proof.
  intros Hrun. assert (frame_effect (va_app v) (va_app v')) as [Hev [Hp Ho]].
  { revert v Hrun. induction l as [|a l IH]; intros v; [by intros [= ->]|]. cbn.
    intros ([v1 reply] & Hf%frame_has_effect & Hr)%bind_Some. etransitivity; [exact Hf|]. by apply IH. }
  split; [|done]. intros gid g Hg. destruct (Hev gid g Hg) as (g' & Hg' & [Hd Hl]). by exists g'.
Qed.

(** *** Answers *)

Definition acknowledges (gid event_id : string) (v : VoiceAppState)
    (reply : option TextControlFrameView) : Prop :=
  ∃ status created_at,
    reply = Some (GroupGovernanceAck gid event_id (local_user_id (va_app v)) status created_at).

Lemma ack_is now gid event_id status (v v' : VoiceAppState) :
  st_profile (va_app v') = st_profile (va_app v) →
  acknowledges gid event_id v (Some (governance_ack now gid event_id status (va_app v'))).
Proof.
  intros P. unfold acknowledges, governance_ack. rewrite (local_user_id_ext _ _ P). eauto.
Qed.

(** The group and event a governance frame is about. *)
Definition governance_event (frame : TextControlFrameView) : option (string * string) :=
  match frame with
  | GroupMemberRoleChanged gid event_id _ _ _ _ _ _ _
  | GroupMemberRevoked gid event_id _ _ _ _ _ _ _ _
  | GroupChannelSchemaUpdated gid event_id _ => Some (gid, event_id)
  | _ => None
  end.

Lemma revoked_reply engine now gid event_id actor target at_ status commit epoch tag s :
  ∃ text, (handle_member_revoked engine now gid event_id actor target at_ status commit epoch tag s).2
    = Some (governance_ack now gid event_id text
        (handle_member_revoked engine now gid event_id actor target at_ status commit epoch tag s).1).
Proof.
  unfold handle_member_revoked. destruct commit as [commit|].
  - destruct epoch as [epoch|], tag as [tag|]; try (by eexists).
    destruct (apply_openmls_group_member_removal_commit _ _ _ _ _ _ _) as [s1 [?|?]]; by eexists.
  - destruct (negb _); by eexists.
Qed.

(** Every governance frame is acknowledged: a role change, a revocation or a channel schema, whether
    it is applied, already known or refused, is answered with an acknowledgement that names its group,
    its event and the local member. *)
Theorem governance_frames_are_acknowledged engine joined now frame observed v v' reply gid event_id :
  governance_event frame = Some (gid, event_id) →
  handle_text_control_frame_for_route engine joined now frame observed v = Some (v', reply) →
  acknowledges gid event_id v reply.
Proof.
  intros Hgov Hf. destruct (frame_has_effect _ _ _ _ _ _ _ _ Hf) as [_ [P _]].
  destruct frame; try done; injection Hgov as -> ->;
    unfold handle_text_control_frame_for_route, app_reply in Hf; cbv zeta in Hf.
  - apply bind_Some in Hf as ([s1 r] & Hr & [= <- <-]). unfold handle_role_changed in Hr. cbv zeta in Hr.
    apply bind_Some in Hr as (t & _ & [= <- <-]). by apply (ack_is now gid event_id _ v {| v with va_app := t |}).
  - injection Hf as <- <-.
    destruct (revoked_reply engine now gid event_id actor_member_id target_member_id created_at
      crypto_removal_status openmls_remove_commit openmls_epoch openmls_confirmation_tag_sha256 (va_app v))
      as (text & ->).
    by apply (ack_is now gid event_id _ v {| v with va_app := _ |}).
  - apply bind_Some in Hf as ([s1 r] & Hr & [= <- <-]). unfold handle_schema_updated in Hr. cbv zeta in Hr.
    apply bind_Some in Hr as (t & _ & [= <- <-]). by apply (ack_is now gid event_id _ v {| v with va_app := t |}).
Qed.

(** *** Totality *)

Definition calm {A} (m : result A GovError) : Prop := m ≠ Err Panicked.

Lemma calm_ok {A} (x : A) : calm (Ok x).
Proof. done. Qed.

Lemma calm_bind {A B} (m : result A GovError) (k : A → result B GovError) :
  calm m → (∀ x, calm (k x)) → calm (rbind m k).
Proof. unfold calm. destruct m; cbn; auto. congruence. Qed.

Lemma calm_require holds code message hint : calm (require holds code message hint).
Proof. unfold require. by destruct holds. Qed.

Lemma calm_require_some {A} (o : option A) code message hint : calm (require_some o code message hint).
Proof. by destruct o. Qed.

Lemma calm_map_err {A E} (f : E → GovError) (m : result A E) :
  (∀ e, f e ≠ Panicked) → calm (map_err f m).
Proof. destruct m as [|e]; [done|]. cbn. intros Hf [= E1]. by apply (Hf e). Qed.

Lemma calm_if {A} (b : bool) (x y : result A GovError) : calm x → calm y → calm (if b then x else y).
Proof. by destruct b. Qed.

Create HintDb calm.
#[local] Hint Resolve calm_ok calm_require calm_require_some : calm.
#[local] Hint Extern 1 (calm (map_err _ _)) => apply calm_map_err; done : calm.
#[local] Hint Extern 2 (calm (rbind _ _)) => apply calm_bind; [|intros ?] : calm.
#[local] Hint Extern 2 (calm (if _ then _ else _)) => apply calm_if : calm.
#[local] Hint Extern 2 (calm (match ?x with _ => _ end)) => destruct x : calm.

Lemma role_changed_calm e s : calm (apply_group_member_role_changed e s).
Proof. unfold apply_group_member_role_changed. auto 40 with calm. Qed.

Lemma schema_calm gid event_id snap s : calm (apply_group_channel_schema_snapshot gid event_id snap s).
Proof. unfold apply_group_channel_schema_snapshot. auto 40 with calm. Qed.

(** The clock can be moved forward by the skew a lease is allowed. *)
Definition clock_in_range (now : datetime) : Prop :=
  is_Some (skew ← td_seconds GROUP_PRESENCE_MAX_FUTURE_SKEW_SECONDS; dt_add now skew).

Lemma lease_calm t1 t2 t3 t4 t5 now a b :
  clock_in_range now → calm (presence_lease t1 t2 t3 t4 t5 now a b).
Proof.
  intros [h Hh]. unfold presence_lease. apply calm_bind; [auto with calm|intros last].
  apply calm_bind; [auto with calm|intros expires]. rewrite Hh. cbn [ok_or rbind]. auto 20 with calm.
Qed.

Lemma presence_calm now now' now'' e s :
  clock_in_range now → calm (apply_group_presence_heartbeat now now' now'' e s).2.
Proof.
  intros Hc. assert (calm (check_group_presence now e s)) as Hk.
  { unfold check_group_presence. pose proof lease_calm as Hl.
    repeat (apply calm_bind; [by auto with calm|intros ?] || apply calm_if || by auto with calm). }
  unfold apply_group_presence_heartbeat. destruct (check_group_presence now e s) as [[[a b]|]|error];
    [|done|intros [= ->]; by apply Hk].
  by destruct (refresh_text_control_outbox_routes_for_group _ _ _).
Qed.

Lemma dm_presence_calm now now' e s :
  clock_in_range now → calm (apply_dm_presence_heartbeat now now' e s).2.
Proof.
  intros Hc. assert (calm (check_dm_presence now e s)) as Hk.
  { unfold check_dm_presence. pose proof lease_calm as Hl. cbv zeta.
    repeat (apply calm_bind; [by auto with calm|intros ?] || apply calm_if || by auto with calm). }
  unfold apply_dm_presence_heartbeat. destruct (check_dm_presence now e s) as [[dm|]|error];
    [|done|intros [= ->]; by apply Hk].
  by destruct (refresh_text_control_outbox_routes_for_dm _ _ _).
Qed.

Lemma rejection_total {A} now kind (r : result A GovError) s :
  calm r → is_Some (on_rejection now kind r s).
Proof. unfold calm, on_rejection. destruct r as [|[|]]; [by eexists|done|by eexists]. Qed.

(** C7. No frame brings the handler down: as long as the clock is half a minute short of the last
    representable instant, every frame of every kind, however malformed, is handled to the end, from any
    state. *)
Theorem no_frame_panics engine joined now frame observed v :
  clock_in_range now →
  is_Some (handle_text_control_frame_for_route engine joined now frame observed v).
Proof.
  intros Hc. destruct frame; unfold handle_text_control_frame_for_route, app_reply; cbv zeta;
    try (by eexists).
  - unfold handle_role_changed. cbv zeta. set (e := Build_GroupMemberRoleChangedEvent _ _ _ _ _ _ _ _ _).
    destruct (rejection_total now "group.member_role_change_rejected" _
      (match apply_group_member_role_changed e (va_app v) with Ok s' => s' | Err _ => va_app v end)
      (role_changed_calm e (va_app v))) as [t ->]. by eexists.
  - unfold handle_schema_updated. cbv zeta.
    destruct (rejection_total now "channel.schema_rejected" _
      (match apply_group_channel_schema_snapshot group_id event_id snapshot (va_app v) with
       | Ok (s', _) => s' | Err _ => va_app v end)
      (schema_calm group_id event_id snapshot (va_app v))) as [t ->]. by eexists.
  - set (e := Build_GroupPresenceHeartbeatEvent _ _ _ _ _ _ _ _ _ _ _ _). unfold handle_group_presence.
    pose proof (presence_calm now now now e (va_app v) Hc) as Hp.
    destruct (apply_group_presence_heartbeat now now now e (va_app v)) as [s1 [b|error]]; cbn in Hp; cbv zeta.
    + destruct (_ && _); [|by eexists]. destruct (current_group_channel_schema_frame _ _ _) as [s2 [?|?]]; by eexists.
    + destruct (rejection_total now "group.presence_rejected" _ s1 Hp) as [t ->]. by eexists.
  - set (e := Build_DmPresenceHeartbeatEvent _ _ _ _ _ _ _ _ _ _ _).
    pose proof (dm_presence_calm now now e (va_app v) Hc) as Hp.
    destruct (apply_dm_presence_heartbeat now now e (va_app v)) as [s1 r]. cbn in Hp.
    destruct (rejection_total now "dm.presence_rejected" _ s1 Hp) as [t ->]. by eexists.
Qed.

End frames.

(** ** Concrete arrivals *)

Module FrameToy.

#[local] Existing Instance Toy.toy_sha.
#[local] Existing Instance Toy.toy_ed.
#[local] Existing Instance Toy.toy_hex.
#[local] Existing Instance Toy.toy_aead.
#[local] Existing Instance Toy.toy_chrono.
#[local] Existing Instance Toy.toy_rfc3339.
#[local] Existing Instance DeskToy.toy_seed.
#[local] Existing Instance DeskToy.toy_json.
#[local] Existing Instance DeskToy.toy_texts.

Definition desk : VoiceAppState :=
  {| va_app := AdmissionToy.host [AdmissionToy.refused]; va_session := None; va_inbox := [] |}.

Definition arrives (frame : TextControlFrameView) : arrival := {|
  an_engine := AdmissionToy.engine; an_joined := AdmissionToy.engine; an_now := GroupToy.instant 100;
  an_frame := frame; an_route := None
|}.

Definition promotion : TextControlFrameView := role_change_frame GroupToy.promote_bob.

Notation answered := (handle_text_control_frame_for_route AdmissionToy.engine AdmissionToy.engine
  (GroupToy.instant 100) promotion None desk).

(** A late approval of the refused request, then a promotion. *)
Notation ran := (run_frames [arrives (GroupAdmissionDecision "crew"
  (admission_request_id "crew" "user-bob" AdmissionToy.bobs_signer) true None "user-eve" "t2");
  arrives promotion] desk).

End FrameToy.

Section witnesses.
#[local] Existing Instance Toy.toy_sha.
#[local] Existing Instance Toy.toy_ed.
#[local] Existing Instance Toy.toy_hex.
#[local] Existing Instance Toy.toy_aead.
#[local] Existing Instance Toy.toy_chrono.
#[local] Existing Instance Toy.toy_rfc3339.
#[local] Existing Instance DeskToy.toy_seed.
#[local] Existing Instance DeskToy.toy_json.
#[local] Existing Instance DeskToy.toy_texts.

Lemma frames_only_extend_the_record_witness :
  ∃ v' g', FrameToy.ran = Some v' ∧ find_group "crew" (va_app v') = Some g'
    ∧ find_request (admission_request_id "crew" "user-bob" AdmissionToy.bobs_signer) g'
      = Some AdmissionToy.refused.
Proof.
  assert (Ev : bool_decide (is_Some FrameToy.ran) = true) by (vm_compute; reflexivity).
  destruct FrameToy.ran as [v'|] eqn:Er; [|discriminate Ev]. clear Ev.
  destruct (frames_only_extend_the_record _ _ _ Er) as (H1 & _).
  destruct (H1 "crew"%string (AdmissionToy.host_group [AdmissionToy.refused])) as (g' & Hg' & _ & Hreq);
    [reflexivity|]. exists v', g'. split; [reflexivity|]. split; [exact Hg'|].
  apply Hreq; [vm_compute; reflexivity|vm_compute; discriminate].
Defined.

Lemma governance_frames_are_acknowledged_witness :
  ∃ v' reply, FrameToy.answered = Some (v', reply) ∧ acknowledges "crew" "e1" FrameToy.desk reply.
Proof.
  assert (Ev : bool_decide (is_Some FrameToy.answered) = true) by (vm_compute; reflexivity).
  destruct FrameToy.answered as [[v' reply]|] eqn:Er; [|discriminate Ev]. clear Ev.
  exists v', reply. split; [reflexivity|].
  apply (governance_frames_are_acknowledged AdmissionToy.engine AdmissionToy.engine (GroupToy.instant 100)
    FrameToy.promotion None FrameToy.desk v' reply); [reflexivity|exact Er].
Defined.

Lemma no_frame_panics_witness : is_Some FrameToy.answered.
Proof. apply no_frame_panics. vm_compute. eexists. reflexivity. Defined.

End witnesses.
