(* ===== verification/LaneManager.v ===== *)
(** * Desktop application: control lane managers
    (apps/desktop/src-tauri/src/connection.rs)

    One supervisor thread per text session pumps and drains the broker control lane. The threads,
    the flags and counters each one shares with the registry, and the commands that start, stop and
    inspect a manager. A thread stops between two of its steps: at the head of its loop, while it
    drives, while it sleeps; any other thread or command may run there. What one drive does to the
    application is left open. Commands run under the application lock and are one step each. *)

From S2P Require Import Prelude Collections Bytes StrOps Crypto Transport RouteGraph Identity DeliveryError TextEnvelope TextSend Abuse AppService DeskState DeskGroups DeskDelivery.

Definition DEFAULT_PUMP_INTERVAL_MS : N := 1000.
Definition DEFAULT_MANAGER_DRAIN_MS : N := 300.
Definition DEFAULT_BACKOFF_INITIAL_MS : N := 250.
Definition DEFAULT_BACKOFF_MAX_MS : N := 5000.
Definition DEFAULT_BACKOFF_MULTIPLIER : N := 2.
Definition DEFAULT_BACKOFF_MAX_ATTEMPTS : N := 5.

(** The request to start a manager has the same fields. *)
Record ControlLaneManagerConfig := {
  cm_pump_interval_ms : option N;
  cm_drain_ms : option N;
  cm_backoff_initial_ms : option N;
  cm_backoff_max_ms : option N;
  cm_backoff_max_attempts : option N
}.

(** What a thread shares with the registry: four atomics. *)
Record ControlLaneManagerEntry := {
  en_stop : bool;
  en_iterations : N;
  en_consecutive_failures : N;
  en_stopped : bool
}.

Record ControlLaneSessionManagerStatusView := {
  sv_session_id : string;
  sv_running : bool;
  sv_iterations : N;
  sv_consecutive_failures : N;
  sv_stopped : bool
}.

(** What a thread keeps from its configuration. *)
Record lane_plan := {
  ln_pump_interval_ms : N;
  ln_drain_window_ms : N;
  ln_backoff : AbuseBackoffPolicy
}.

Definition AbuseError_to_string (e : AbuseError) : string :=
  match e with
  | InvalidBackoffPolicy => "invalid abuse backoff policy"
  | InvalidSoakClock => "invalid abuse soak clock"
  | ReportSerialization => "abuse soak report serialization failed"
  end.

Definition plan_of_config (config : ControlLaneManagerConfig) : result lane_plan string :=
  let* backoff := map_err AbuseError_to_string
    (AbuseBackoffPolicy_new
       (clamp 10 60000 (default DEFAULT_BACKOFF_INITIAL_MS (cm_backoff_initial_ms config)))
       (clamp 10 60000 (default DEFAULT_BACKOFF_MAX_MS (cm_backoff_max_ms config)))
       DEFAULT_BACKOFF_MULTIPLIER
       (N.max (default DEFAULT_BACKOFF_MAX_ATTEMPTS (cm_backoff_max_attempts config)) 1)) in
  Ok {| ln_pump_interval_ms :=
          clamp 50 60000 (default DEFAULT_PUMP_INTERVAL_MS (cm_pump_interval_ms config));
        ln_drain_window_ms :=
          clamp 100 5000 (default DEFAULT_MANAGER_DRAIN_MS (cm_drain_ms config));
        ln_backoff := backoff |}.

Inductive lane_pc :=
| AtHead
| Driving
| Sleeping (budget_ms : N)
| Ended.

Record lane := {
  la_session_id : string;
  la_plan : lane_plan;
  la_attempt : N;
  la_pc : lane_pc;
  la_entry : ControlLaneManagerEntry
}.

Definition fresh_entry : ControlLaneManagerEntry :=
  {| en_stop := false; en_iterations := 0; en_consecutive_failures := 0; en_stopped := false |}.

(** After the loop: [stopped.store(true)]. *)
Definition end_lane (l : lane) : lane :=
  {| l with la_pc := Ended; la_entry := {| (la_entry l) with en_stopped := true |} |}.

(** [while !stop.load() { iterations.fetch_add(1); … }] *)
Definition enter_cycle (l : lane) : lane :=
  if en_stop (la_entry l) then end_lane l
  else {| l with la_pc := Driving;
                 la_entry := {| (la_entry l) with en_iterations :=
                                  (en_iterations (la_entry l) + 1) mod 2 ^ 64 |} |}.

(** The rest of the cycle, from the driver's report; the flag says the manager gave up. *)
Definition finish_cycle (failures : list string) (l : lane) : lane * bool :=
  match failures with
  | [] =>
      ({| l with la_attempt := 0;
                 la_pc := Sleeping (ln_pump_interval_ms (la_plan l));
                 la_entry := {| (la_entry l) with en_consecutive_failures := 0 |} |}, false)
  | _ =>
      let attempt := sat_add u32_max (la_attempt l) 1 in
      let l := {| l with la_attempt := attempt;
                         la_entry := {| (la_entry l) with en_consecutive_failures := attempt |} |} in
      match decision_for_attempt (ln_backoff (la_plan l)) attempt with
      | Ok (Backoff _ delay_ms) | Ok (RateLimited delay_ms) =>
          ({| l with la_pc := Sleeping delay_ms |}, false)
      | _ => (end_lane l, true)
      end
  end.

(** [sleep_interruptible] returns early or late, at the head of the loop. *)
Definition wake (l : lane) : lane := {| l with la_pc := AtHead |}.

Section managers.
Context `{Sha256, Hex, Chrono, !Rfc3339}.

(** The application, the registry (session to manager) and every manager ever spawned. *)
Record lane_system := {
  ly_app : PersistedAppState;
  ly_managers : gmap string nat;
  ly_lanes : gmap nat lane
}.

Definition update_lane (id : nat) (f : lane → lane) (y : lane_system) : lane_system :=
  {| y with ly_lanes := alter f id (ly_lanes y) |}.

Definition on_manager_stopped (reason : string) (s : PersistedAppState) : PersistedAppState :=
  push_event "transport.control_session_fail_closed"
    ("Broker control lane session manager stopped fail-closed: " +:+ reason) s.

(** [entry.stop.store(true)] on the entry taken out of the registry *)
Definition halt_control_lane_session_manager (session_id : string) (y : lane_system) :
    lane_system * bool :=
  match ly_managers y !! session_id with
  | None => (y, false)
  | Some id =>
      (update_lane id (λ l, {| l with la_entry := {| (la_entry l) with en_stop := true |} |})
         {| y with ly_managers := delete session_id (ly_managers y) |}, true)
  end.

(** [spawned] is what the operating system answers to the thread's creation. *)
Definition spawn_control_lane_session_manager (spawned : result unit string) (session_id : string)
    (config : ControlLaneManagerConfig) (y : lane_system) : lane_system * result unit string :=
  let y := (halt_control_lane_session_manager session_id y).1 in
  match plan_of_config config with
  | Err error => (y, Err error)
  | Ok plan =>
      match spawned with
      | Err error => (y, Err ("could not spawn control lane session manager: " +:+ error))
      | Ok _ =>
          let id := fresh (dom (ly_lanes y)) in
          ({| y with ly_managers := <[session_id := id]> (ly_managers y);
                     ly_lanes := <[id := {| la_session_id := session_id;
                                            la_plan := plan;
                                            la_attempt := 0;
                                            la_pc := AtHead;
                                            la_entry := fresh_entry |}]> (ly_lanes y) |}, Ok tt)
      end
  end.

Definition control_lane_session_manager_snapshot (session_id : string) (y : lane_system) :
    option ControlLaneSessionManagerStatusView :=
  id ← ly_managers y !! session_id;
  l ← ly_lanes y !! id;
  Some {| sv_session_id := session_id;
          sv_running := negb (en_stopped (la_entry l)) && negb (en_stop (la_entry l));
          sv_iterations := en_iterations (la_entry l);
          sv_consecutive_failures := en_consecutive_failures (la_entry l);
          sv_stopped := en_stopped (la_entry l) |}.

Definition on_state (f : PersistedAppState → PersistedAppState) (y : lane_system) : lane_system :=
  {| y with ly_app := f (ly_app y) |}.

(** [text_session] is the id of the text transport session, when there is one. *)
Definition start_control_lane_session_manager (now : datetime) (text_session : option string)
    (spawned : result unit string) (request : ControlLaneManagerConfig) (y : lane_system) :
    lane_system :=
  let rejected := push_command_error now "transport.control_session_start_rejected"
    "start_control_lane_session_manager" in
  match text_session with
  | None => on_state (rejected "text_session_missing" "text transport session is not active"
      "Call start_text_session and attach the broker control lane before starting the session manager") y
  | Some session_id =>
      match spawn_control_lane_session_manager spawned session_id request y with
      | (y, Ok _) => on_state (push_event "transport.control_session_started"
          ("Broker control lane session manager started for "
           +:+ redacted_observable_ref "session" session_id)) y
      | (y, Err error) => on_state (rejected "control_session_start_failed" error
          "Retry after the backend runtime can spawn the control lane session manager") y
      end
  end.

(** [request.session_id.or_else(…)] *)
Definition chosen_session (requested text_session : option string) : option string :=
  match requested with Some session_id => Some session_id | None => text_session end.

Definition stop_control_lane_session_manager (requested text_session : option string)
    (y : lane_system) : lane_system :=
  match chosen_session requested text_session with
  | None => on_state (push_event "transport.control_session_stop_noop"
      "No active text transport session; no control lane session manager to stop") y
  | Some session_id =>
      match halt_control_lane_session_manager session_id y with
      | (y, true) => on_state (push_event "transport.control_session_stopped"
          ("Broker control lane session manager stopped for "
           +:+ redacted_observable_ref "session" session_id)) y
      | (y, false) => on_state (push_event "transport.control_session_stop_noop"
          ("No control lane session manager registered for "
           +:+ redacted_observable_ref "session" session_id)) y
      end
  end.

Definition control_lane_session_manager_status (requested text_session : option string)
    (y : lane_system) : option ControlLaneSessionManagerStatusView :=
  session_id ← chosen_session requested text_session;
  control_lane_session_manager_snapshot session_id y.

(** ** Interleavings *)

Inductive lane_step : lane_system → lane_system → Prop :=
| step_enter id l y :
    ly_lanes y !! id = Some l → la_pc l = AtHead →
    lane_step y (update_lane id enter_cycle y)
| step_drive id l failures app y :
    ly_lanes y !! id = Some l → la_pc l = Driving →
    lane_step y
      (update_lane id (λ l, (finish_cycle failures l).1)
         {| y with ly_app := if (finish_cycle failures l).2
                             then on_manager_stopped "backoff_exhausted" app else app |})
| step_wake id l ms y :
    ly_lanes y !! id = Some l → la_pc l = Sleeping ms →
    lane_step y (update_lane id wake y)
| step_start now text_session spawned request y :
    lane_step y (start_control_lane_session_manager now text_session spawned request y)
| step_stop requested text_session y :
    lane_step y (stop_control_lane_session_manager requested text_session y)
| step_app app y :
    lane_step y {| y with ly_app := app |}.

Definition no_managers (app : PersistedAppState) : lane_system :=
  {| ly_app := app; ly_managers := ∅; ly_lanes := ∅ |}.

(** ** What every interleaving keeps *)

Record plan_ok (p : lane_plan) : Prop := {
  po_pump : 50 ≤ ln_pump_interval_ms p ≤ 60000;
  po_drain : 100 ≤ ln_drain_window_ms p ≤ 5000;
  po_backoff : backoff_validate (ln_backoff p) = Ok tt;
  po_initial : 10 ≤ bp_initial_ms (ln_backoff p);
  po_max : bp_max_ms (ln_backoff p) ≤ 60000
}.

Record lane_ok (l : lane) : Prop := {
  lo_plan : plan_ok (la_plan l);
  lo_failures : en_consecutive_failures (la_entry l) = la_attempt l;
  lo_ended : la_pc l = Ended ↔ en_stopped (la_entry l) = true;
  lo_sleep : ∀ ms, la_pc l = Sleeping ms → 10 ≤ ms ≤ 60000;
  lo_attempt : la_pc l ≠ Ended → la_attempt l ≤ bp_max_attempts (ln_backoff (la_plan l))
}.

Lemma clamp_bounds lo hi x : lo ≤ hi → lo ≤ clamp lo hi x ≤ hi.
Proof. unfold clamp. lia. Qed.

Lemma config_plan_ok config p : plan_of_config config = Ok p → plan_ok p.
Proof.
  unfold plan_of_config, AbuseBackoffPolicy_new.
  intros (b & (u & Hv & Hb)%map_err_ok%rbind_ok & R)%rbind_ok. destruct u. injection R as <-.
  injection Hb as <-. split; cbn; try (apply clamp_bounds; lia); done.
Qed.

(** A retry of a manager that goes on waits a bounded time. *)
Lemma retry_delay p attempt : plan_ok p →
  match decision_for_attempt (ln_backoff p) attempt with
  | Ok (Backoff _ ms) | Ok (RateLimited ms) =>
      10 ≤ ms ≤ 60000 ∧ 1 ≤ attempt ≤ bp_max_attempts (ln_backoff p)
  | _ => attempt = 0 ∨ bp_max_attempts (ln_backoff p) < attempt
  end.
Proof.
  intros [_ _ Hb Hi Hm]. assert (bp_max_ms (ln_backoff p) ≤ u64_max) as Hu by (unfold u64_max; lia).
  pose proof (backoff_is_capped_geometric (ln_backoff p) attempt Hu) as B. rewrite Hb in B.
  destruct (N.leb_spec 1 attempt), (N.leb_spec attempt (bp_max_attempts (ln_backoff p)));
    cbn [andb] in B; [destruct B as (-> & ? & _)|rewrite B..]; lia.
Qed.

Lemma end_lane_ok l : lane_ok l → lane_ok (end_lane l).
Proof. intros [?????]. split; cbn; try done. Qed.

Lemma enter_cycle_ok l : lane_ok l → la_pc l = AtHead → lane_ok (enter_cycle l).
Proof.
  intros Hl Hp. unfold enter_cycle. destruct (en_stop _); [by apply end_lane_ok|].
  destruct Hl as [? ? [_ He] ? Ha]. rewrite Hp in *. split; cbn; try done.
  - split; [done|]. intros E. by apply He in E.
  - intros _. by apply Ha.
Qed.

Lemma finish_cycle_ok failures l :
  lane_ok l → la_pc l = Driving → lane_ok (finish_cycle failures l).1.
Proof.
  intros [Hp Hf [_ He] Hs Ha] Hd. rewrite Hd in *. unfold finish_cycle.
  assert (en_stopped (la_entry l) ≠ true) as Hn by (intros E; by apply He in E).
  destruct failures as [|f failures].
  - split; cbn; try done.
    + intros ms [= <-]. pose proof (po_pump _ Hp). lia.
    + intros _. lia.
  - cbn [la_plan]. pose proof (retry_delay (la_plan l) (sat_add u32_max (la_attempt l) 1) Hp) as B.
    destruct (decision_for_attempt _ _) as [[]|]; cbn [fst];
      try (split; cbn; try done; intros ? [= <-]; lia).
    all: try (destruct B as [Hms Hat]; split; cbn; try done; [intros ? [= <-]; lia|intros _; lia]).
    all: split; cbn; done.
Qed.

Lemma wake_ok l ms : lane_ok l → la_pc l = Sleeping ms → lane_ok (wake l).
Proof.
  intros [? ? [_ He] ? Ha] Hs. rewrite Hs in *. split; cbn; try done.
  - split; [done|]. intros E. by apply He in E.
  - intros _. by apply Ha.
Qed.

Record managed (y : lane_system) : Prop := {
  mg_lane : ∀ id l, ly_lanes y !! id = Some l → lane_ok l;
  mg_live : ∀ id l, ly_lanes y !! id = Some l → en_stop (la_entry l) = false →
    ly_managers y !! la_session_id l = Some id;
  mg_registered : ∀ sid id, ly_managers y !! sid = Some id →
    ∃ l, ly_lanes y !! id = Some l ∧ la_session_id l = sid ∧ en_stop (la_entry l) = false
}.

(** A thread's own step leaves its session and its stop flag alone. *)
Lemma managed_update id l f y :
  managed y → ly_lanes y !! id = Some l → lane_ok (f l) →
  la_session_id (f l) = la_session_id l → en_stop (la_entry (f l)) = en_stop (la_entry l) →
  managed (update_lane id f y).
Proof.
  intros [Hk Hl Hr] E Hf Hs Hst. split; cbn [update_lane ly_lanes ly_managers].
  - intros i m Hm. destruct (decide (i = id)) as [->|Hi].
    + rewrite lookup_alter_eq, E in Hm. by injection Hm as <-.
    + rewrite lookup_alter_ne in Hm by done. eauto.
  - intros i m Hm Hz. destruct (decide (i = id)) as [->|Hi].
    + rewrite lookup_alter_eq, E in Hm. injection Hm as <-. rewrite Hs. apply Hl; congruence.
    + rewrite lookup_alter_ne in Hm by done. eauto.
  - intros sid i Hm. destruct (Hr sid i Hm) as (m & Em & Hsm & Hz).
    destruct (decide (i = id)) as [->|Hi].
    + rewrite E in Em. injection Em as <-. exists (f l). rewrite lookup_alter_eq, E. eauto with congruence.
    + exists m. by rewrite lookup_alter_ne.
Qed.

Lemma managed_app y app : managed y → managed {| y with ly_app := app |}.
Proof. by intros [???]. Qed.

Lemma halt_managed sid y : managed y → managed (halt_control_lane_session_manager sid y).1.
Proof.
  intros Hy. unfold halt_control_lane_session_manager.
  destruct (ly_managers y !! sid) as [id|] eqn:E; [|done]. destruct Hy as [Hk Hl Hr].
  destruct (Hr sid id E) as (l & El & Hs & _). split; cbn [fst update_lane ly_lanes ly_managers].
  - intros i m Hm. destruct (decide (i = id)) as [->|Hi].
    + rewrite lookup_alter_eq, El in Hm. injection Hm as <-. by destruct (Hk _ _ El).
    + rewrite lookup_alter_ne in Hm by done. eauto.
  - intros i m Hm Hz. destruct (decide (i = id)) as [->|Hi].
    + rewrite lookup_alter_eq, El in Hm. by injection Hm as <-.
    + rewrite lookup_alter_ne in Hm by done. rewrite lookup_delete_ne; [by apply Hl|].
      intros Es. pose proof (Hl _ _ Hm Hz). congruence.
  - intros sid' i Hm. apply lookup_delete_Some in Hm as [Hne Hm].
    destruct (Hr sid' i Hm) as (m & Em & Hsm & Hz). exists m. split; [|done].
    rewrite lookup_alter_ne; [done|]. intros Ei. congruence.
Qed.

Lemma halted sid y : ly_managers (halt_control_lane_session_manager sid y).1 !! sid = None.
Proof.
  unfold halt_control_lane_session_manager. destruct (ly_managers y !! sid) eqn:E; [|done].
  apply lookup_delete_eq.
Qed.

Lemma spawn_managed spawned sid config y :
  managed y → managed (spawn_control_lane_session_manager spawned sid config y).1.
Proof.
  intros Hy. unfold spawn_control_lane_session_manager.
  pose proof (halt_managed sid y Hy) as Hh. pose proof (halted sid y) as Hn.
  set (z := (halt_control_lane_session_manager sid y).1) in *.
  destruct (plan_of_config config) as [p|] eqn:Hp; [|done]. destruct spawned; [|done].
  destruct Hh as [Hk Hl Hr]. pose proof (is_fresh (dom (ly_lanes z))) as Hf.
  set (id := fresh (dom (ly_lanes z))) in *. split; cbn [fst ly_lanes ly_managers].
  - intros i m [[<- <-]|[Hi Hm]]%lookup_insert_Some; [|eauto].
    split; cbn; try done; [by apply (config_plan_ok config)|intros _; lia].
  - intros i m [[<- <-]|[Hi Hm]]%lookup_insert_Some Hz; cbn; [by rewrite lookup_insert_eq|].
    rewrite lookup_insert_ne; [by apply Hl|]. intros Es. pose proof (Hl _ _ Hm Hz). congruence.
  - intros s i [[<- <-]|[Hs Hm]]%lookup_insert_Some.
    + eexists. rewrite lookup_insert_eq. done.
    + destruct (Hr s i Hm) as (m & Em & ?). exists m. rewrite lookup_insert_ne; [done|].
      intros Ei. apply Hf, elem_of_dom. by rewrite Ei, Em.
Qed.

Lemma enter_cycle_keeps l : la_session_id (enter_cycle l) = la_session_id l
  ∧ en_stop (la_entry (enter_cycle l)) = en_stop (la_entry l).
Proof. unfold enter_cycle. by destruct (en_stop (la_entry l)) eqn:E; cbn. Qed.

Lemma finish_cycle_keeps failures l : la_session_id (finish_cycle failures l).1 = la_session_id l
  ∧ en_stop (la_entry (finish_cycle failures l).1) = en_stop (la_entry l).
Proof.
  unfold finish_cycle. destruct failures; [done|].
  by destruct (decision_for_attempt _ _) as [[]|].
Qed.

Lemma step_managed y y' : lane_step y y' → managed y → managed y'.
Proof.
  intros [id l z E Hp|id l failures app z E Hp|id l ms z E Hp|now ts spawned req z|req ts z|app z] Hy.
  - eapply managed_update; [done|done| |apply enter_cycle_keeps|apply enter_cycle_keeps].
    apply enter_cycle_ok; [by eapply mg_lane|done].
  - eapply managed_update; [by apply managed_app|done| |apply finish_cycle_keeps|apply finish_cycle_keeps].
    apply finish_cycle_ok; [by eapply mg_lane|done].
  - eapply managed_update; [done|done| |done|done]. eapply wake_ok; [by eapply mg_lane|done].
  - unfold start_control_lane_session_manager. destruct ts as [sid|]; [|by apply managed_app].
    pose proof (spawn_managed spawned sid req z Hy) as Hs.
    destruct (spawn_control_lane_session_manager _ _ _ _) as [? []]; by apply managed_app.
  - unfold stop_control_lane_session_manager. destruct (chosen_session _ _) as [sid|]; [|by apply managed_app].
    pose proof (halt_managed sid z Hy) as Hs.
    destruct (halt_control_lane_session_manager _ _) as [? []]; by apply managed_app.
  - by apply managed_app.
Qed.

Lemma reachable_managed app y : rtc lane_step (no_managers app) y → managed y.
Proof.
  intros R. assert (managed (no_managers app)) as Hi by (split; cbn; intros *; by rewrite lookup_empty).
  induction R as [|x z w Hs _ IH]; [done|]. apply IH. eauto using step_managed.
Qed.

(** ** Claims *)


(** Managers are paced: in any interleaving a sleeping manager sleeps between ten milliseconds
    and a minute, the failures a manager reports are the failed cycles since its last success, and a
    manager that has not ended has failed at most as often in a row as its policy allows. *)
Theorem managers_are_paced app y id l :
  rtc lane_step (no_managers app) y → ly_lanes y !! id = Some l →
  (∀ ms, la_pc l = Sleeping ms → 10 ≤ ms ≤ 60000)
  ∧ en_consecutive_failures (la_entry l) = la_attempt l
  ∧ (la_pc l = Ended ↔ en_stopped (la_entry l) = true)
  ∧ (la_pc l ≠ Ended → la_attempt l ≤ bp_max_attempts (ln_backoff (la_plan l))).
Proof. intros R%reachable_managed E. by destruct (mg_lane _ R _ _ E). Qed.

(** A refused start loses the manager that was running: starting a session's manager with a
    first delay above the last one is refused, but the session's manager is gone, it ends at the head
    of its loop, and nothing reports on it any more. *)
Theorem refused_start_loses_the_manager now sid spawned config y id l error :
  ly_managers y !! sid = Some id → ly_lanes y !! id = Some l → plan_of_config config = Err error →
  let y' := start_control_lane_session_manager now (Some sid) spawned config y in
  control_lane_session_manager_snapshot sid y' = None
  ∧ ∃ l', ly_lanes y' !! id = Some l' ∧ la_pc (enter_cycle l') = Ended.
Proof.
  intros Em El Hp. cbv zeta. unfold start_control_lane_session_manager, spawn_control_lane_session_manager.
  rewrite Hp. unfold halt_control_lane_session_manager. rewrite Em. cbn [fst].
  unfold control_lane_session_manager_snapshot. cbn [on_state ly_managers ly_lanes update_lane].
  rewrite lookup_delete_eq, lookup_alter_eq, El. split; [done|]. eexists. split; [reflexivity|done].
Qed.

(** A stopped manager is never reported as stopped: in any interleaving the status of a
    session reads as running exactly when it does not read as stopped, and after an explicit stop there
    is no status at all. *)
Theorem explicit_stop_is_never_reported app y sid :
  rtc lane_step (no_managers app) y →
  (∀ v, control_lane_session_manager_snapshot sid y = Some v → sv_running v = negb (sv_stopped v))
  ∧ control_lane_session_manager_status (Some sid) None
      (stop_control_lane_session_manager (Some sid) None y) = None.
Proof.
  intros R%reachable_managed. split.
  - unfold control_lane_session_manager_snapshot. intros v S.
    destruct (ly_managers y !! sid) as [id|] eqn:E; [|done]. cbn in S.
    destruct (mg_registered _ R _ _ E) as (l & El & _ & Hz). rewrite El in S. cbn in S.
    injection S as <-. cbn. by rewrite Hz, andb_true_r.
  - unfold control_lane_session_manager_status, stop_control_lane_session_manager. cbn [chosen_session].
    pose proof (halted sid y) as Hn.
    destruct (halt_control_lane_session_manager sid y) as [z []]; cbn in *;
      unfold control_lane_session_manager_snapshot; cbn; by rewrite Hn.
Qed.

(** ** Giving up *)

(** One undisturbed cycle: the step at the head, the report, and the sleep. *)
Definition cycle (l : lane) (failures : list string) : lane :=
  match la_pc l with
  | AtHead =>
      let l := enter_cycle l in
      match la_pc l with
      | Driving =>
          let l := (finish_cycle failures l).1 in
          match la_pc l with Sleeping _ => wake l | _ => l end
      | _ => l
      end
  | _ => l
  end.

Definition set_lane (id : nat) (l : lane) (y : lane_system) : lane_system :=
  {| y with ly_lanes := <[id := l]> (ly_lanes y) |}.

Lemma update_is_set id l f y :
  ly_lanes y !! id = Some l → update_lane id f y = set_lane id (f l) y.
Proof.
  intros E. unfold update_lane, set_lane. destruct y as [a m ls]; cbn in *. f_equal.
  apply map_eq. intros i. destruct (decide (i = id)) as [->|Hi].
  - by rewrite lookup_alter_eq, lookup_insert_eq, E.
  - by rewrite lookup_alter_ne, lookup_insert_ne.
Qed.

(** The steps of a thread, from the lane before to the lane after. *)
Lemma thread_step id l l' app y :
  (la_pc l = AtHead ∧ l' = enter_cycle l
   ∨ (∃ failures, la_pc l = Driving ∧ l' = (finish_cycle failures l).1)
   ∨ (∃ ms, la_pc l = Sleeping ms ∧ l' = wake l)) →
  ∃ app', lane_step (set_lane id l {| y with ly_app := app |})
                    (set_lane id l' {| y with ly_app := app' |}).
Proof.
  intros Hl. set (z := set_lane id l {| y with ly_app := app |}).
  assert (ly_lanes z !! id = Some l) as Ez by apply lookup_insert_eq.
  assert (∀ f a, update_lane id f {| z with ly_app := a |} = set_lane id (f l) {| y with ly_app := a |})
    as Hu.
  { intros f a. rewrite (update_is_set _ l) by exact Ez. unfold z, set_lane. cbn.
    by rewrite insert_insert_eq. }
  destruct Hl as [[Hp ->]|[(failures & Hp & ->)|(ms & Hp & ->)]].
  - exists app. rewrite <- (Hu enter_cycle). by eapply step_enter.
  - eexists. rewrite <- (Hu (λ l, (finish_cycle failures l).1)). eapply (step_drive _ _ _ app); done.
  - exists app. rewrite <- (Hu wake). by eapply step_wake.
Qed.

(** A cycle is made of steps of the system. *)
Lemma cycle_steps id l failures app y :
  ∃ app', rtc lane_step (set_lane id l {| y with ly_app := app |})
            (set_lane id (cycle l failures) {| y with ly_app := app' |}).
Proof.
  unfold cycle. destruct (la_pc l) eqn:Hp; [|by exists app..].
  destruct (thread_step id l (enter_cycle l) app y ltac:(auto)) as [a Ha].
  destruct (la_pc (enter_cycle l)) eqn:Hq; [by exists a; apply rtc_once| |by exists a; apply rtc_once..].
  destruct (thread_step id (enter_cycle l) (finish_cycle failures (enter_cycle l)).1 a y) as [b Hb];
    [eauto|].
  destruct (la_pc (finish_cycle failures (enter_cycle l)).1) eqn:Hr;
    [exists b; by eapply rtc_l, rtc_once..| |exists b; by eapply rtc_l, rtc_once].
  destruct (thread_step id (finish_cycle failures (enter_cycle l)).1
              (wake (finish_cycle failures (enter_cycle l)).1) b y) as [c Hc]; [eauto|].
  exists c. by eapply rtc_l, rtc_l, rtc_once.
Qed.
End managers.

Lemma cycle_success l : la_pc l = AtHead → en_stop (la_entry l) = false →
  ∃ l', cycle l [] = l' ∧ la_pc l' = AtHead ∧ en_stop (la_entry l') = false ∧ la_attempt l' = 0
    ∧ la_plan l' = la_plan l.
Proof. intros Hp Hs. unfold cycle, enter_cycle. rewrite Hp, Hs. by eexists. Qed.

Lemma cycle_failure l f fs : plan_ok (la_plan l) → la_pc l = AtHead → en_stop (la_entry l) = false →
  la_attempt l < u32_max →
  let l' := cycle l (f :: fs) in
  la_plan l' = la_plan l ∧
  if la_attempt l <? bp_max_attempts (ln_backoff (la_plan l))
  then la_pc l' = AtHead ∧ en_stop (la_entry l') = false ∧ la_attempt l' = la_attempt l + 1
  else la_pc l' = Ended.
Proof.
  intros Hk Hp Hs Ha. cbv zeta. unfold cycle, enter_cycle. rewrite Hp, Hs. cbn [la_pc finish_cycle].
  cbn [la_plan la_attempt].
  assert (sat_add u32_max (la_attempt l) 1 = la_attempt l + 1) as -> by (unfold sat_add; lia).
  pose proof (retry_delay (la_plan l) (la_attempt l + 1) Hk) as B.
  destruct (decision_for_attempt _ _) as [[]|], (N.ltb_spec (la_attempt l)
    (bp_max_attempts (ln_backoff (la_plan l)))); cbn; (done || lia).
Qed.

Definition all_fail (reports : list (list string)) : Prop := Forall (λ r, r ≠ []) reports.

Definition fails_at_once (n : nat) (reports : list (list string)) : Prop :=
  ∃ failing after, reports = failing ++ after ∧ length failing = n ∧ all_fail failing.

Definition fails_in_a_row (n : nat) (reports : list (list string)) : Prop :=
  ∃ before rest, reports = before ++ rest ∧ fails_at_once n rest.

Lemma row_cons n r reports :
  fails_in_a_row n (r :: reports) ↔ fails_at_once n (r :: reports) ∨ fails_in_a_row n reports.
Proof.
  split.
  - intros ([|b before] & rest & E & F).
    + left. by rewrite E.
    + injection E as -> ->. right. by exists before, rest.
  - intros [F|(before & rest & -> & F)]; [by exists [], (r :: reports)|by exists (r :: before), rest].
Qed.

Lemma at_once_cons n r reports :
  fails_at_once (S n) (r :: reports) ↔ r ≠ [] ∧ fails_at_once n reports.
Proof.
  split.
  - intros ([|f failing] & after & E & L & F); [done|]. injection E as -> ->. inversion F; subst.
    split; [done|]. exists failing, after. by injection L.
  - intros [Hr (failing & after & -> & <- & F)]. exists (r :: failing), after. by repeat constructor.
Qed.

Lemma at_once_le n m reports : (n ≤ m)%nat → fails_at_once m reports → fails_at_once n reports.
Proof.
  intros Hn (failing & after & -> & <- & F). exists (take n failing), (drop n failing ++ after).
  rewrite app_assoc, take_drop, length_take. split_and!; [done|lia|by apply Forall_take].
Qed.

Lemma ended_stays reports l : la_pc l = Ended → foldl cycle l reports = l.
Proof. intros E. induction reports as [|r rs IH]; [done|]. cbn. unfold cycle at 2. by rewrite E. Qed.

Lemma gives_up reports l (max := N.to_nat (bp_max_attempts (ln_backoff (la_plan l)))) :
  plan_ok (la_plan l) → bp_max_attempts (ln_backoff (la_plan l)) < u32_max →
  la_pc l = AtHead → en_stop (la_entry l) = false →
  la_attempt l ≤ bp_max_attempts (ln_backoff (la_plan l)) →
  la_pc (foldl cycle l reports) = Ended ↔
  fails_at_once (S max - N.to_nat (la_attempt l)) reports ∨ fails_in_a_row (S max) reports.
Proof.
  subst max. revert l. induction reports as [|r reports IH]; intros l Hk Hm Hp Hs Ha; cbn [foldl].
  - rewrite Hp. split; [done|]. intros [(f & a & E & L & _)|(b & q & E & (f & a & -> & L & _))].
    + symmetry in E. apply app_eq_nil in E as [-> _]. cbn in L. lia.
    + symmetry in E. apply app_eq_nil in E as [_ E]. apply app_eq_nil in E as [-> _]. cbn in L. lia.
  - rewrite row_cons. destruct r as [|f fs].
    + destruct (cycle_success l Hp Hs) as (l' & -> & Hp' & Hs' & Ha' & Hpl).
      rewrite <- Hpl in *. rewrite IH by (done || lia). rewrite Ha', Nat.sub_0_r.
      assert (∀ n, ¬ fails_at_once (S n) ([] :: reports)) as Hno by (intros n [? _]%at_once_cons; done).
      replace (S _ - _)%nat with (S (N.to_nat (bp_max_attempts (ln_backoff (la_plan l')))
        - N.to_nat (la_attempt l))) by lia.
      split; [intros [F|R]; right; right|intros [?%Hno|[?%Hno|R]]]; [by exists [], reports|done..|by right].
    + pose proof (cycle_failure l f fs Hk Hp Hs ltac:(lia)) as [Hpl C]. cbv zeta in *.
      destruct (N.ltb_spec (la_attempt l) (bp_max_attempts (ln_backoff (la_plan l)))) as [Hlt|Hge].
      * destruct C as (Hp' & Hs' & Ha'). set (l' := cycle l (f :: fs)) in *. rewrite <- Hpl in *.
        rewrite IH by (done || lia). rewrite Ha'.
        replace (S _ - N.to_nat (la_attempt l))%nat with
          (S (S (N.to_nat (bp_max_attempts (ln_backoff (la_plan l')))) - N.to_nat (la_attempt l + 1)))
          by lia.
        rewrite !at_once_cons. split; [naive_solver|]. intros [[_ F]|[[_ F]|R]]; [by left| |by right].
        left. eapply at_once_le; [|exact F]. lia.
      * rewrite ended_stays by done. split; [|done]. intros _. left.
        replace (S _ - _)%nat with 1%nat by lia. apply at_once_cons. split; [done|].
        exists [], reports. split_and!; [done..|constructor].
Qed.

(** A manager gives up exactly on a run of failures: left undisturbed, a manager that was just
    started ends if and only if some run of one more failed cycle than its policy allows occurs among
    its cycles; any success before that starts the count again. *)
Theorem manager_gives_up_exactly_on_a_run_of_failures config plan session_id reports :
  plan_of_config config = Ok plan → bp_max_attempts (ln_backoff plan) < u32_max →
  la_pc (foldl cycle {| la_session_id := session_id; la_plan := plan; la_attempt := 0;
                        la_pc := AtHead; la_entry := fresh_entry |} reports) = Ended ↔
  ∃ before failing after, reports = before ++ failing ++ after
    ∧ N.of_nat (length failing) = bp_max_attempts (ln_backoff plan) + 1
    ∧ all_fail failing.
Proof.
  intros Hp Hm. rewrite gives_up by (eauto using config_plan_ok || done || (cbn; lia)). cbn [la_plan la_attempt].
  rewrite Nat.sub_0_r. unfold fails_in_a_row, fails_at_once. split.
  - intros [(f & a & -> & L & F)|(b & q & -> & (f & a & -> & L & F))];
      [exists [], f, a|exists b, f, a]; split_and!; (done || lia).
  - intros (b & f & a & -> & L & F). right. exists b, (f ++ a). split; [done|]. exists f, a.
    split_and!; (done || lia).
Qed.

(** ** A concrete manager *)

Section witnesses.
#[local] Existing Instance Toy.toy_sha.
#[local] Existing Instance Toy.toy_hex.
#[local] Existing Instance Toy.toy_chrono.
#[local] Existing Instance Toy.toy_rfc3339.

#[local] Existing Instance DeskToy.toy_seed.
#[local] Existing Instance DeskToy.toy_json.
#[local] Existing Instance DeskToy.toy_texts.

(** One retry allowed; everything else at its default. *)
Definition one_retry : ControlLaneManagerConfig :=
  {| cm_pump_interval_ms := None; cm_drain_ms := None; cm_backoff_initial_ms := None;
     cm_backoff_max_ms := None; cm_backoff_max_attempts := Some 1 |}.

Definition inverted : ControlLaneManagerConfig :=
  {| cm_pump_interval_ms := None; cm_drain_ms := None; cm_backoff_initial_ms := Some 60000;
     cm_backoff_max_ms := Some 10; cm_backoff_max_attempts := None |}.

Lemma manager_gives_up_exactly_on_a_run_of_failures_witness :
  ∃ plan, plan_of_config one_retry = Ok plan
    ∧ la_pc (foldl cycle {| la_session_id := "s"; la_plan := plan; la_attempt := 0; la_pc := AtHead;
                            la_entry := fresh_entry |} [["lost"]; []; ["lost"]; ["lost"]]%string) = Ended.
Proof.
  eexists. split; [reflexivity|].
  apply (manager_gives_up_exactly_on_a_run_of_failures one_retry _ "s"); [reflexivity..|].
  exists [["lost"]; []]%string, [["lost"]; ["lost"]]%string, []. split_and!; [reflexivity..|].
  repeat constructor; discriminate.
Defined.

Definition first_lane : lane := {|
  la_session_id := "s";
  la_plan := {| ln_pump_interval_ms := 1000; ln_drain_window_ms := 300;
                ln_backoff := {| bp_initial_ms := 250; bp_max_ms := 5000; bp_multiplier := 2;
                                 bp_max_attempts := 1 |} |};
  la_attempt := 0; la_pc := AtHead; la_entry := fresh_entry |}.

Notation first_id := (fresh (dom (∅ : gmap nat lane))).
Notation started := (start_control_lane_session_manager (GroupToy.instant 1) (Some "s"%string) (Ok tt)
                       one_retry (no_managers GroupToy.alice)).

Lemma started_reachable : rtc lane_step (no_managers GroupToy.alice) started.
Proof. apply rtc_once, step_start. Qed.

Lemma started_lane : ly_lanes started !! first_id = Some first_lane.
Proof. apply lookup_insert_eq. Qed.

Lemma started_manager : ly_managers started !! "s"%string = Some first_id.
Proof. apply lookup_insert_eq. Qed.


Lemma managers_are_paced_witness : la_attempt first_lane ≤ 1.
Proof.
  apply (managers_are_paced _ _ _ _ started_reachable started_lane). discriminate.
Defined.

Lemma refused_start_loses_the_manager_witness :
  control_lane_session_manager_snapshot "s"
    (start_control_lane_session_manager (GroupToy.instant 2) (Some "s"%string) (Ok tt) inverted started)
  = None.
Proof.
  apply (refused_start_loses_the_manager _ _ _ _ _ _ _ "invalid abuse backoff policy"
           started_manager started_lane). reflexivity.
Defined.

Lemma explicit_stop_is_never_reported_witness :
  control_lane_session_manager_status (Some "s"%string) None
    (stop_control_lane_session_manager (Some "s"%string) None started) = None.
Proof. apply (explicit_stop_is_never_reported _ _ _ started_reachable). Defined.
End witnesses.
