(* ===== verification/DeskInvites.v ===== *)
(** * Desktop application: invite links
    (apps/desktop/src-tauri/src/lib.rs)

    What an invite link carries and how it is read: percent encoding, query values, labels for
    expiry and number of uses, the connectivity policy as it travels inside a signed descriptor of
    [Invites], and the checks before an invite is used. *)

From S2P Require Import Prelude Collections Bytes Framing StrOps Crypto Transport IcePolicy Invites RouteGraph Identity DeliveryError TextEnvelope TextSend AppService DeskState DeskGroups DeskDelivery DeskAdmission.

(** [error.to_string()] *)
Definition InviteError_to_string (e : InviteError) : string :=
  match e with
  | InviteExpired => "invite expired"
  | InviteRevoked => "invite revoked"
  | InviteExhausted => "invite exhausted"
  | InviteNotFound => "invite not found"
  | InvalidIssuerSignature => "invite issuer signature invalid"
  | InvalidSignalingEndpoint => "invite signaling endpoint invalid"
  | InvalidTrustMetadata => "invite signaling trust metadata invalid"
  | InvalidEndpointPolicy => "invite signaling endpoint policy invalid"
  | OfflineVerifierRejected => "offline verifier cannot enforce rate limits"
  | PasswordRejected => "password gate rejected"
  | HelperMismatch => "helper proof does not match admission gate"
  | HelperProofExpired => "helper proof expired"
  | InvalidHelperProofSignature => "helper proof signature invalid"
  | Invites.WelcomeRequired => "authorized MLS welcome required"
  | Invites.WelcomeExpired => "authorized MLS welcome expired"
  | WelcomeInviteMismatch => "authorized MLS welcome invite mismatch"
  | InvalidWelcomeAuthorization => "authorized MLS welcome invalid"
  end.

(** ** Percent encoding *)

(** [format!("{:X}")] of a digit *)
Definition upper_hex_digit (n : N) : N := if n <? 10 then 48 + n else 55 + n.

Definition is_unreserved (b : N) : bool :=
  is_ascii_alphanumeric b || (b =? 45) || (b =? 95) || (b =? 46) || (b =? 126).

Definition url_byte (b : N) : bytes :=
  if is_unreserved b then [b] else [37; upper_hex_digit (b / 16); upper_hex_digit (b mod 16)].

Definition url_component (value : string) : string :=
  string_of_bytes (mjoin (url_byte <$> as_bytes value)).

Definition hex_digit_value (b : N) : option N :=
  if is_ascii_digit b then Some (b - 48)
  else if (65 <=? b) && (b <=? 70) then Some (b - 55)
  else if (97 <=? b) && (b <=? 102) then Some (b - 87)
  else None.

(** [u8::from_str_radix(fragment, 16)] of two characters; a leading plus sign is allowed *)
Definition hex_pair (high low : N) : option N :=
  if high =? 43 then hex_digit_value low
  else h ← hex_digit_value high; l ← hex_digit_value low; Some (16 * h + l).

Fixpoint percent_bytes (b : bytes) : option bytes :=
  match b with
  | [] => Some []
  | x :: rest =>
      if x =? 37 then
        match rest with
        | high :: low :: rest =>
            byte ← hex_pair high low; decoded ← percent_bytes rest; Some (byte :: decoded)
        | _ => None
        end
      else
        decoded ← percent_bytes rest; Some ((if x =? 43 then 32 else x) :: decoded)
  end.

Definition percent_decode (value : string) : option string :=
  decoded ← percent_bytes (as_bytes value);
  if valid_utf8 decoded then Some (string_of_bytes decoded) else None.

(** The first pair of the query with this key. *)
Definition query_value (query key : string) : option string :=
  head (omap (λ pair, '(candidate, value) ← split_once_bytes [61] pair;
                      if bool_decide (candidate = as_bytes key) then Some (string_of_bytes value)
                      else None)
          (split_bytes 38 (as_bytes query))).

(** ** Labels *)

Definition HOUR_SECONDS : Z := 3600.
Definition DAY_SECONDS : Z := 86400.

(** [chrono::Duration] in seconds *)
Definition invite_expiration_seconds (label : string) : Z :=
  let lower := to_ascii_lowercase label in
  if str_contains "hour" lower || str_contains "1 h" lower then HOUR_SECONDS
  else if str_contains "day" lower || str_contains "24" lower || str_contains "1 d" lower then DAY_SECONDS
  else if str_contains "30" lower then 30 * DAY_SECONDS
  else if str_contains "90" lower then 90 * DAY_SECONDS
  else 7 * DAY_SECONDS.

(** The pieces between the bytes that are not digits. *)
Fixpoint digit_pieces (b : bytes) : list bytes :=
  match b with
  | [] => [[]]
  | x :: rest =>
      if is_ascii_digit x then
        match digit_pieces rest with
        | piece :: pieces => (x :: piece) :: pieces
        | [] => [[x]]
        end
      else [] :: digit_pieces rest
  end.

(** The first piece that is a [u32]. *)
Definition parse_max_uses (label : string) : N :=
  match head (omap (λ piece, parse_unsigned u32_max (string_of_bytes piece))
                (digit_pieces (as_bytes label))) with
  | Some value => if 0 <? value then value else 5
  | None => 5
  end.

(** ** Names *)

Definition replace_byte (from to : N) (s : string) : string :=
  string_of_bytes ((λ b, if b =? from then to else b) <$> as_bytes s).

(** The last separator: [s.rsplit_once(c)] *)
Definition rsplit_once_bytes (c : N) (b : bytes) : option (bytes * bytes) :=
  '(tail, head) ← split_once_bytes [c] (reverse b); Some (reverse head, reverse tail).

Definition group_name_from_group_id (group_id : string) : option string :=
  let raw := default group_id (strip_prefix "group-" group_id) in
  let without_sequence :=
    match rsplit_once_bytes 45 (as_bytes raw) with
    | Some (head, tail) => if forallb is_ascii_digit tail then string_of_bytes head else raw
    | None => raw
    end in
  let normalized := normalize_label (replace_byte 45 32 without_sequence) "joined group" in
  if negb (is_blank normalized) && negb (normalized =s "joined group") then Some normalized else None.

Definition parse_invite_group_name (invite_code : string) : string :=
  let path := default [] (head (split_bytes 63 (as_bytes invite_code))) in
  let tail := default [] (last (split_bytes 47 path)) in
  if (32 <=? length tail)%nat && forallb (λ b, is_ascii_hexdigit b || (b =? 45)) tail
  then "joined group"
  else match split_once_bytes [45] tail with
       | Some (_, slug) =>
           let name := normalize_label (replace_byte 45 32 (string_of_bytes slug)) "joined group" in
           if is_blank name then "joined group" else name
       | None => "joined group"
       end.

(** ** Invites as the application keeps them *)

Record InviteView := {
  iv_invite_id : string;
  iv_invite_key : string;
  iv_descriptor_schema_version : option N;
  iv_group_id : string;
  iv_dm_id : option string;
  iv_connectivity_schema_version : N;
  iv_invite_kind : string;
  iv_scope_id_commitment : string;
  iv_signaling_profiles : list SignalingProfileView;
  iv_privacy_label : string;
  iv_dm_bootstrap : option DmInviteBootstrapView;
  iv_group_bootstrap : option GroupInviteBootstrapView;
  iv_admission_snapshot : option InviteAdmissionSnapshot;
  iv_revocation_policy : option InviteRevocationPolicy;
  iv_password_policy : option InvitePasswordPolicy;
  iv_code : string;
  iv_room_secret_hash : string;
  iv_signaling_endpoint : string;
  iv_signaling_trust_fingerprint : string;
  iv_signaling_trust_status : string;
  iv_endpoint_policy : string;
  iv_ice_stun_servers : list string;
  iv_ice_turn_servers : list IceTurnServerView;
  iv_expires : string;
  iv_expires_at : string;
  iv_max_use : string;
  iv_uses : N;
  iv_revoked : bool;
  iv_admission_copy : string
}.

Record ParsedInviteMetadata := {
  pi_invite_key : string;
  pi_descriptor_schema_version : option N;
  pi_group_id : option string;
  pi_group_name : option string;
  pi_room_secret_hash : string;
  pi_signaling_endpoint : string;
  pi_signaling_trust_fingerprint : string;
  pi_signaling_trust_status : string;
  pi_endpoint_policy : string;
  pi_ice_stun_servers : list string;
  pi_ice_turn_servers : list IceTurnServerView;
  pi_connectivity : ConnectivityPolicyView;
  pi_admission_snapshot : option InviteAdmissionSnapshot;
  pi_revocation_policy : option InviteRevocationPolicy;
  pi_password_policy : option InvitePasswordPolicy;
  pi_expires_at : string;
  pi_max_uses : N;
  pi_consumed_uses : N;
  pi_revoked : bool
}.

(** [request_name.map(..).filter(..).or_else(..).or_else(..).unwrap_or_else(..)] *)
Definition invite_group_name_from_metadata (invite_code : string) (request_name : option string)
    (parsed : option ParsedInviteMetadata) : string :=
  let requested := name ← request_name;
                   let value := normalize_label name "joined group" in
                   if is_blank value then None else Some value in
  let named := p ← parsed; name ← pi_group_name p; Some (normalize_label name "joined group") in
  let derived := p ← parsed; group_id ← pi_group_id p; group_name_from_group_id group_id in
  default (default (default (parse_invite_group_name invite_code) derived) named) requested.

(** ** Outside the program: the environment, the bundled configuration, and [serde_json] *)

Class AppEnvironment := {
  (** [EXTERNAL_SIGNALING_PUBLIC_ENDPOINT] *)
  env_signaling_endpoint : option string;
  (** [DISCRYPT_PUBLIC_TURN_ENDPOINT] and its username, credential and expiry *)
  env_turn_endpoint : option string;
  env_turn_username : option string;
  env_turn_credential : option string;
  env_turn_credential_expires_at : option string;
  (** the endpoints of the verified configuration, by adapter name *)
  env_adapter_endpoints : string → list string
}.

Class InviteJson `{Chrono} := {
  invite_to_vec : StoredInvite → result bytes string;
  invite_from_slice : bytes → option StoredInvite
}.

Class InviteJsonLaws `{InviteJson} : Prop := {
  invite_round_trip d b : invite_to_vec d = Ok b → invite_from_slice b = Some d;
  invite_octets d b : invite_to_vec d = Ok b → Forall (λ x, x < 256) b
}.

(** The alphabet of unpadded URL-safe base 64: letters, digits, minus and underscore. *)
Class UrlSafeLaws `{Base64} : Prop :=
  b64_url_alphabet b x : x ∈ as_bytes (b64_url_encode b) →
    is_ascii_alphanumeric x = true ∨ x = 45 ∨ x = 95.

Definition DEFAULT_PROVIDER_BACKOFF_INITIAL_MS : N := 250.
Definition DEFAULT_PROVIDER_BACKOFF_MAX_MS : N := 5000.
Definition DEFAULT_PROVIDER_BACKOFF_MULTIPLIER : N := 2.
Definition DEFAULT_PROVIDER_BACKOFF_MAX_ATTEMPTS : N := 5.

(** ** Connectivity policies and what a descriptor carries of them *)

Definition profile_kind_from_name (value : string) : InviteSignalingAdapterKind :=
  if value =s "nostr" then InvNostr
  else if value =s "ipfs_pubsub" then InvIpfsPubsub
  else if value =s "discrypt_quic_rendezvous" then InvQuicRendezvous
  else InvMqtt.

Definition profile_to_admission (p : SignalingProfileView) : InviteSignalingProfile := {|
  profile_id := sp_profile_id p;
  adapter_kind := profile_kind_from_name (sp_adapter_kind p);
  pr_endpoints := sp_endpoints p;
  room_topic_commitment := sp_room_topic_commitment p;
  trust_fingerprint := sp_trust_fingerprint p;
  pr_ttl_seconds := sp_ttl_seconds p;
  metadata_posture := sp_metadata_posture p;
  rate_limit_policy := sp_rate_limit_policy p;
  pr_capabilities := sp_capabilities p;
  provider_policy_version := sp_provider_policy_version p;
  endpoint_allowlist_commitments := sp_endpoint_allowlist_commitments p;
  provider_rotation_policy := sp_provider_rotation_policy p
|}.

Definition profile_from_admission (p : InviteSignalingProfile) : SignalingProfileView := {|
  sp_profile_id := profile_id p;
  sp_adapter_kind := adapter_name (adapter_kind p);
  sp_endpoints := pr_endpoints p;
  sp_room_topic_commitment := room_topic_commitment p;
  sp_trust_fingerprint := trust_fingerprint p;
  sp_ttl_seconds := pr_ttl_seconds p;
  sp_metadata_posture := metadata_posture p;
  sp_rate_limit_policy := rate_limit_policy p;
  sp_max_message_bytes := Some (64 * 1024);
  sp_backoff_initial_ms := DEFAULT_PROVIDER_BACKOFF_INITIAL_MS;
  sp_backoff_max_ms := DEFAULT_PROVIDER_BACKOFF_MAX_MS;
  sp_backoff_multiplier := DEFAULT_PROVIDER_BACKOFF_MULTIPLIER;
  sp_backoff_max_attempts := DEFAULT_PROVIDER_BACKOFF_MAX_ATTEMPTS;
  sp_capabilities := pr_capabilities p;
  sp_provider_policy_version := provider_policy_version p;
  sp_endpoint_allowlist_commitments := endpoint_allowlist_commitments p;
  sp_provider_rotation_policy := provider_rotation_policy p
|}.

Definition bootstrap_metadata_from_connectivity (c : ConnectivityPolicyView) :
    result InviteBootstrapMetadata string :=
  let profiles := profile_to_admission <$> cp_signaling_profiles c in
  if cp_invite_kind c =s "dm_contact" then
    let* d := ok_or (cp_dm_bootstrap c) "DM invite bootstrap metadata is missing"%string in
    map_err InviteError_to_string
      (dm_contact (cp_scope_id_commitment c) profiles
         {| inviter_identity_commitment := db_inviter_identity_commitment d;
            contact_token_commitment := db_contact_token_commitment d;
            reply_rendezvous_commitment := db_reply_rendezvous_commitment d |})
  else
    let* g := ok_or (cp_group_bootstrap c) "Group invite bootstrap metadata is missing"%string in
    map_err InviteError_to_string
      (group_join (cp_scope_id_commitment c) profiles
         {| group_identity_commitment := gb_group_identity_commitment g;
            Invites.gb_role_admission_policy_commitment :=
              DeskState.gb_role_admission_policy_commitment g;
            channel_policy_commitment := gb_channel_policy_commitment g |}).

Definition connectivity_from_bootstrap (m : InviteBootstrapMetadata)
    (ice_stun_servers : list string) (ice_turn_servers : list IceTurnServerView) :
    ConnectivityPolicyView := {|
  cp_connectivity_schema_version := connectivity_schema_version m;
  cp_invite_kind := kind_name (invite_kind m);
  cp_scope_id_commitment := scope_id_commitment m;
  cp_signaling_profiles := profile_from_admission <$> signaling_profiles m;
  cp_ice_stun_servers := ice_stun_servers;
  cp_ice_turn_servers := ice_turn_servers;
  cp_privacy_label := privacy_label m;
  cp_dm_bootstrap := (λ d, {|
    db_inviter_identity_commitment := inviter_identity_commitment d;
    db_contact_token_commitment := contact_token_commitment d;
    db_reply_rendezvous_commitment := reply_rendezvous_commitment d |}) <$> dm_bootstrap m;
  cp_group_bootstrap := (λ g, {|
    gb_group_identity_commitment := group_identity_commitment g;
    DeskState.gb_role_admission_policy_commitment := Invites.gb_role_admission_policy_commitment g;
    gb_channel_policy_commitment := channel_policy_commitment g |}) <$> group_bootstrap m
|}.

Definition ice_stun_server_views (config : IceServerConfig) : list string := is_stun_servers config.

Definition ice_turn_server_views (config : IceServerConfig) : list IceTurnServerView :=
  (λ server, {|
    it_endpoint := tu_endpoint server;
    it_credential_declared := bool_decide (is_Some (tu_username server))
                              || bool_decide (is_Some (tu_credential server))
                              || bool_decide (is_Some (tu_credential_expires_at server));
    it_credential_expires_at := tu_credential_expires_at server |}) <$> is_turn_servers config.

(** Servers with credentials stay out of the link. *)
Definition signed_ice_endpoint_policy_from_connectivity (c : ConnectivityPolicyView) :
    option IceEndpointPolicy :=
  ok_value (ice_new (cp_ice_stun_servers c)
    ((λ server, {| tu_endpoint := it_endpoint server; tu_username := None; tu_credential := None;
                   tu_credential_expires_at := None |}) <$>
       retain (λ server, negb (it_credential_declared server)
                         && negb (bool_decide (is_Some (it_credential_expires_at server))))
         (cp_ice_turn_servers c))).

Definition ice_endpoint_policy_from_connectivity `{AppEnvironment} (c : ConnectivityPolicyView) :
    result IceEndpointPolicy TransportError :=
  let declared := (λ server,
    if it_credential_declared server then
      {| tu_endpoint := it_endpoint server;
         tu_username := Some "redacted-turn-username"%string;
         tu_credential := Some "redacted-turn-credential"%string;
         tu_credential_expires_at := it_credential_expires_at server |}
    else {| tu_endpoint := it_endpoint server; tu_username := None; tu_credential := None;
            tu_credential_expires_at := None |}) <$> cp_ice_turn_servers c in
  let public := match env_turn_endpoint with
    | Some endpoint =>
        if is_blank endpoint then []
        else [{| tu_endpoint := trim endpoint; tu_username := env_turn_username;
                 tu_credential := env_turn_credential;
                 tu_credential_expires_at := env_turn_credential_expires_at |}]
    | None => []
    end in
  ice_new (cp_ice_stun_servers c) (declared ++ public).

(** [endpoint_security_for_probe] and the policy it gives *)
Definition invite_endpoint_policy_for_endpoint (endpoint : string) : InviteEndpointPolicy :=
  if existsb (λ p, starts_with p endpoint)
       ["mqtt://127.0.0.1"; "ws://127.0.0.1"; "http://127.0.0.1"; "quic://127.0.0.1";
        "/ip4/127.0.0.1/"; "/ip6/::1/"]%string
  then LocalDevLoopback else ProductionTls.

Section invites.
Context `{Sha256, Ed25519, Hex, HmacSha1, Base64, Chrono, !Rfc3339, !AppEnvironment, !InviteJson}.

Definition default_adapter_endpoint (kind : InviteSignalingAdapterKind) : option string :=
  head (env_adapter_endpoints (adapter_name kind)).

Definition default_signaling_endpoint : string :=
  let configured :=
    endpoint ← env_signaling_endpoint;
    _ ← ok_value (signaling_new endpoint ProductionTls
          {| signaling_fingerprint := signaling_fingerprint_for_endpoint endpoint;
             trust_status := "signed endpoint fingerprint; verify before MLS Welcome" |});
    Some endpoint in
  default (default (default "wss://relay.damus.io" (default_adapter_endpoint InvMqtt))
             (default_adapter_endpoint InvNostr)) configured.

Definition endpoint_allowlist_commitment (adapter_kind endpoint : string) : string :=
  hash_commitment "discrypt-provider-endpoint-allowlist-v1" [adapter_kind; endpoint].

Definition default_provider_rotation_policy : string :=
  "rotate by issuing a fresh signed invite/connectivity policy when endpoint trust, rate limits, or availability changes".

Definition signaling_profile_for_endpoints (scope_commitment : string)
    (kind : InviteSignalingAdapterKind) (endpoints : list string) (profile_suffix : string) :
    SignalingProfileView :=
  let adapter_kind := adapter_name kind in {|
  sp_profile_id := adapter_kind +:+ "-" +:+ profile_suffix;
  sp_adapter_kind := adapter_kind;
  sp_endpoints := endpoints;
  sp_room_topic_commitment :=
    hash_commitment "discrypt-rendezvous-topic-commitment-v1" [scope_commitment; adapter_kind];
  sp_trust_fingerprint := signaling_fingerprint_for_endpoint (default ""%string (head endpoints));
  sp_ttl_seconds := 300;
  sp_metadata_posture := "hashed_topic";
  sp_rate_limit_policy := "bounded publish/take with provider backoff";
  sp_max_message_bytes := Some (64 * 1024);
  sp_backoff_initial_ms := DEFAULT_PROVIDER_BACKOFF_INITIAL_MS;
  sp_backoff_max_ms := DEFAULT_PROVIDER_BACKOFF_MAX_MS;
  sp_backoff_multiplier := DEFAULT_PROVIDER_BACKOFF_MULTIPLIER;
  sp_backoff_max_attempts := DEFAULT_PROVIDER_BACKOFF_MAX_ATTEMPTS;
  sp_capabilities := ["presence_ttl"; "trickle_ice"; "health_telemetry"]%string;
  sp_provider_policy_version := INVITE_PROVIDER_POLICY_VERSION;
  sp_endpoint_allowlist_commitments := endpoint_allowlist_commitment adapter_kind <$> endpoints;
  sp_provider_rotation_policy := default_provider_rotation_policy
|}.

Definition default_signaling_profiles (scope_commitment : string) : list SignalingProfileView :=
  omap (λ kind, match env_adapter_endpoints (adapter_name kind) with
                | [] => None
                | endpoints =>
                    Some (signaling_profile_for_endpoints scope_commitment kind endpoints "default")
                end) [InvNostr; InvMqtt; InvIpfsPubsub; InvQuicRendezvous].

Definition default_ice_stun_servers : list string := ["stun:stun.l.google.com:19302"%string].

Record CreateGroupRequest := {
  cg_name : string;
  cg_retention : string;
  cg_admission_mode : option GroupAdmissionModeView;
  cg_adapter_kind : option string;
  cg_signaling_endpoint : option string;
  cg_ice_stun_servers : option (list string);
  cg_ice_turn_servers : option (list IceTurnServerView)
}.

Definition group_connectivity_policy_from_request (group_id : string)
    (request : CreateGroupRequest) : ConnectivityPolicyView :=
  let scope := hash_commitment "discrypt-group-scope-commitment-v1" [group_id] in
  let custom :=
    kind ← cg_adapter_kind request;
    endpoint ← cg_signaling_endpoint request;
    if is_blank endpoint then None
    else Some [signaling_profile_for_endpoints scope (profile_kind_from_name kind) [trim endpoint]
                 "custom"] in
  let stun := match cg_ice_stun_servers request with
    | Some servers =>
        match retain (λ server, negb (server =s "")) (trim <$> servers) with
        | [] => default_ice_stun_servers
        | servers => servers
        end
    | None => default_ice_stun_servers
    end in
  {| cp_connectivity_schema_version := INVITE_CONNECTIVITY_SCHEMA_VERSION;
     cp_invite_kind := kind_name GroupJoin;
     cp_scope_id_commitment := scope;
     cp_signaling_profiles := default (default_signaling_profiles scope) custom;
     cp_ice_stun_servers := stun;
     cp_ice_turn_servers :=
       match cg_ice_turn_servers request with
       | Some servers => retain (λ server, negb (is_blank (it_endpoint server))) servers
       | None => []
       end;
     cp_privacy_label := "Group invite topics are derived commitments; group names, channel names, and room secrets are not exposed";
     cp_dm_bootstrap := None;
     cp_group_bootstrap := Some {|
       gb_group_identity_commitment := scope;
       DeskState.gb_role_admission_policy_commitment :=
         hash_commitment "discrypt-group-admission-policy-commitment-v1" [group_id];
       gb_channel_policy_commitment :=
         hash_commitment "discrypt-channel-policy-commitment-v1" [group_id] |} |}.

Definition group_connectivity_policy (group_id : string) : ConnectivityPolicyView :=
  group_connectivity_policy_from_request group_id
    {| cg_name := ""; cg_retention := ""; cg_admission_mode := None; cg_adapter_kind := None;
       cg_signaling_endpoint := None; cg_ice_stun_servers := None; cg_ice_turn_servers := None |}.

Definition dm_connectivity_policy (dm_id participant_id : string) : ConnectivityPolicyView :=
  let scope := hash_commitment "discrypt-dm-scope-commitment-v1" [dm_id] in
  {| cp_connectivity_schema_version := INVITE_CONNECTIVITY_SCHEMA_VERSION;
     cp_invite_kind := kind_name DmContact;
     cp_scope_id_commitment := scope;
     cp_signaling_profiles := default_signaling_profiles scope;
     cp_ice_stun_servers := default_ice_stun_servers;
     cp_ice_turn_servers := [];
     cp_privacy_label := "DM contact invite topics are derived commitments; aliases, safety numbers, and room secrets are not exposed";
     cp_dm_bootstrap := Some {|
       db_inviter_identity_commitment :=
         hash_commitment "discrypt-dm-inviter-identity-commitment-v1" [participant_id];
       db_contact_token_commitment :=
         hash_commitment "discrypt-dm-contact-token-commitment-v1" [dm_id; participant_id];
       db_reply_rendezvous_commitment :=
         hash_commitment "discrypt-dm-reply-rendezvous-commitment-v1" [dm_id] |};
     cp_group_bootstrap := None |}.

(** The first endpoint that can be signed into a descriptor; the last error otherwise. *)
Fixpoint first_signable (c : ConnectivityPolicyView) (status : string)
    (candidates : list (string * string)) (last_error : option string) :
    result InviteSignalingMetadata string :=
  match candidates with
  | [] => Err (default "No configured signaling profile endpoint can be signed into an invite descriptor"%string
                 last_error)
  | (endpoint, fingerprint) :: candidates =>
      let metadata :=
        let* trust := trust_new fingerprint status in
        let* m := signaling_new endpoint (invite_endpoint_policy_for_endpoint endpoint) trust in
        match signed_ice_endpoint_policy_from_connectivity c with
        | Some policy => with_ice_endpoint_policy m policy
        | None => Ok m
        end in
      match metadata with
      | Ok m => Ok m
      | Err error => first_signable c status candidates (Some (InviteError_to_string error))
      end
  end.

Definition invite_signaling_metadata_from_connectivity (c : ConnectivityPolicyView)
    (status : string) : result InviteSignalingMetadata string :=
  let candidates := profile ← cp_signaling_profiles c;
    (λ endpoint, (endpoint, if is_blank (sp_trust_fingerprint profile)
                            then signaling_fingerprint_for_endpoint endpoint
                            else sp_trust_fingerprint profile)) <$> sp_endpoints profile in
  let candidates := match candidates with
    | [] => [(default_signaling_endpoint, signaling_fingerprint_for_endpoint default_signaling_endpoint)]
    | _ => candidates
    end in
  first_signable c status candidates None.

(** ** Links *)

Definition production_invite_link (d : StoredInvite) (expires_at : string) (max_uses : N)
    (group_id : option string) : result string string :=
  let* descriptor_bytes :=
    map_err (λ error, "Could not encode signed invite descriptor: " +:+ error) (invite_to_vec d) in
  Ok ("discrypt://join/v1/" +:+ si_invite_id d +:+ "?d=" +:+ b64_url_encode descriptor_bytes
      +:+ "&exp=" +:+ url_component expires_at +:+ "&max=" +:+ pretty max_uses
      +:+ from_option (λ group_id, "&gid=" +:+ url_component group_id) ""%string group_id).

(** The group identifier is read from the query, not from the signed descriptor. *)
Definition parse_invite_metadata (now : datetime) (invite_code : string) :
    option ParsedInviteMetadata :=
  '(_, query) ← split_once "?" (trim invite_code);
  descriptor_payload ← query_value query "d";
  descriptor_bytes ← ok_value (b64_url_decode descriptor_payload);
  d ← invite_from_slice descriptor_bytes;
  _ ← ok_value (verify_issuer_signature d);
  ice_config ← ok_value (ice_server_config_at d None now);
  bootstrap ← bootstrap_metadata d;
  let stun := ice_stun_server_views ice_config in
  let turn := ice_turn_server_views ice_config in
  let m := signaling_metadata d in
  Some {| pi_invite_key := si_invite_id d;
          pi_descriptor_schema_version := Some (descriptor_schema_version d);
          pi_group_id := value ← query_value query "gid"; percent_decode value;
          pi_group_name := None;
          pi_room_secret_hash := hex_encode (si_room_secret_commitment d);
          pi_signaling_endpoint := signaling_endpoint m;
          pi_signaling_trust_fingerprint := signaling_fingerprint (sm_trust m);
          pi_signaling_trust_status := trust_status (sm_trust m);
          pi_endpoint_policy := policy_name (endpoint_policy m);
          pi_ice_stun_servers := stun;
          pi_ice_turn_servers := turn;
          pi_connectivity := connectivity_from_bootstrap bootstrap stun turn;
          pi_admission_snapshot := admission_snapshot d;
          pi_revocation_policy := Some (revocation_policy d);
          pi_password_policy := password_policy d;
          pi_expires_at := dt_to_rfc3339 (si_expires_at d);
          pi_max_uses := si_max_uses d;
          pi_consumed_uses := consumed_uses d;
          pi_revoked := invite_is_revoked d |}.

(** ** May the invite be used *)

Definition invite_revoked_failure : GovError := Rejected "invite_revoked"
  "Invite was revoked before admission could proceed"
  "Request a fresh invite from an owner or staff member".
Definition invite_expired_failure : GovError := Rejected "invite_expired"
  "Invite expired before admission could proceed"
  "Request a fresh invite from an owner or staff member".
Definition invite_exhausted_failure : GovError := Rejected "invite_max_uses_exhausted"
  "Invite maximum use count has already been reached"
  "Request a fresh invite with available uses".

Definition validate_local_invite_usable (invite : InviteView) (now : datetime) :
    result unit GovError :=
  check reject_if (iv_revoked invite) invite_revoked_failure in
  check reject_if (from_option (λ expires_at, dt_lt expires_at now) false
                     (dt_parse_rfc3339 (iv_expires_at invite))) invite_expired_failure in
  reject_if (parse_max_uses (iv_max_use invite) <=? iv_uses invite) invite_exhausted_failure.

Definition validate_parsed_invite_usable (invite : ParsedInviteMetadata) (now : datetime) :
    result unit GovError :=
  check reject_if (pi_revoked invite) invite_revoked_failure in
  let* expires_at := require_some (dt_parse_rfc3339 (pi_expires_at invite)) "invite_expiry_invalid"
    "Invite expiry metadata is missing or invalid"
    "Request a fresh invite with a valid signed expiry" in
  check reject_if (dt_lt expires_at now) invite_expired_failure in
  reject_if (pi_max_uses invite <=? pi_consumed_uses invite) invite_exhausted_failure.
End invites.

(** ** Splitting at a separator *)

Lemma split_bytes_absent c a : c ∉ a → split_bytes c a = [a].
Proof.
  induction a as [|x a IH]; intros Ha; [done|]. apply not_elem_of_cons in Ha as [Hx Ha].
  simpl. destruct (N.eqb_spec x c); [done|]. by rewrite IH.
Qed.

Lemma split_bytes_first c a b : c ∉ a → split_bytes c (a ++ c :: b) = a :: split_bytes c b.
Proof.
  induction a as [|x a IH]; intros Ha; simpl; [by rewrite N.eqb_refl|].
  apply not_elem_of_cons in Ha as [Hx Ha]. destruct (N.eqb_spec x c); [done|]. by rewrite IH.
Qed.

(** ** Percent encoding is undone *)

Lemma hex_digit_upper n : n < 16 → hex_digit_value (upper_hex_digit n) = Some n.
Proof.
  intros Hn. unfold upper_hex_digit, hex_digit_value, is_ascii_digit.
  destruct (N.ltb_spec n 10).
  - rewrite (proj2 (N.leb_le _ _)), (proj2 (N.leb_le _ _)) by lia. f_equal/=. lia.
  - rewrite (proj2 (N.leb_gt (55 + n) 57)) by lia.
    rewrite andb_false_r, (proj2 (N.leb_le 65 _)), (proj2 (N.leb_le _ 70)) by lia. f_equal/=. lia.
Qed.

Lemma upper_hex_digit_range n : n < 16 → 48 ≤ upper_hex_digit n ≤ 57 ∨ 65 ≤ upper_hex_digit n ≤ 70.
Proof. intros Hn. unfold upper_hex_digit. destruct (N.ltb_spec n 10); lia. Qed.

Lemma hex_pair_byte b :
  b < 256 → hex_pair (upper_hex_digit (b / 16)) (upper_hex_digit (b mod 16)) = Some b.
Proof.
  intros Hb. assert (b / 16 < 16) as Hh by (apply N.Div0.div_lt_upper_bound; lia).
  assert (b mod 16 < 16) as Hl by (apply N.mod_lt; lia). unfold hex_pair.
  destruct (N.eqb_spec (upper_hex_digit (b / 16)) 43);
    [destruct (upper_hex_digit_range _ Hh); lia|].
  rewrite !hex_digit_upper by done. simpl. f_equal. pose proof (N.div_mod b 16). lia.
Qed.

(** What an encoded component is made of. *)
Definition url_safe (x : N) : bool := is_unreserved x || (x =? 37).

Lemma unreserved_cases x :
  is_unreserved x = true ↔
  48 ≤ x ≤ 57 ∨ 65 ≤ x ≤ 90 ∨ 97 ≤ x ≤ 122 ∨ x = 45 ∨ x = 95 ∨ x = 46 ∨ x = 126.
Proof.
  unfold is_unreserved, is_ascii_alphanumeric, is_ascii_digit, is_ascii_alphabetic.
  rewrite !orb_true_iff, !andb_true_iff, !N.leb_le, !N.eqb_eq. lia.
Qed.

Lemma url_safe_cases x : url_safe x = true ↔ is_unreserved x = true ∨ x = 37.
Proof. unfold url_safe. by rewrite orb_true_iff, N.eqb_eq. Qed.

Lemma url_byte_safe b x : b < 256 → x ∈ url_byte b → url_safe x = true.
Proof.
  intros Hb. assert (b / 16 < 16) as Hh by (apply N.Div0.div_lt_upper_bound; lia).
  assert (b mod 16 < 16) as Hl by (apply N.mod_lt; lia). rewrite url_safe_cases. unfold url_byte.
  destruct (is_unreserved b) eqn:E; [intros ->%list_elem_of_singleton; by left|].
  apply upper_hex_digit_range in Hh, Hl. rewrite !elem_of_cons, elem_of_nil, unreserved_cases.
  intros [->|[->|[->|[]]]]; [by right|left; lia..].
Qed.

Lemma percent_bytes_byte b r :
  b < 256 → percent_bytes (url_byte b ++ r) = cons b <$> percent_bytes r.
Proof.
  intros Hb. unfold url_byte. destruct (is_unreserved b) eqn:E.
  - apply unreserved_cases in E. cbn [app percent_bytes].
    destruct (N.eqb_spec b 37), (N.eqb_spec b 43); [lia..|]. by destruct (percent_bytes r).
  - cbn [app percent_bytes]. change (37 =? 37) with true. cbv iota. rewrite hex_pair_byte by done.
    by destruct (percent_bytes r).
Qed.

Lemma percent_bytes_component l :
  Forall (λ x, x < 256) l → percent_bytes (mjoin (url_byte <$> l)) = Some l.
Proof.
  induction 1 as [|x l Hx Hl IH]; [done|].
  change (mjoin (url_byte <$> x :: l)) with (url_byte x ++ mjoin (url_byte <$> l)).
  by rewrite percent_bytes_byte, IH.
Qed.

Lemma component_safe l :
  Forall (λ x, x < 256) l → ∀ x, x ∈ mjoin (url_byte <$> l) → url_safe x = true.
Proof.
  intros Hl x (bs & Hx & Hbs)%list_elem_of_join.
  apply list_elem_of_fmap in Hbs as (b & -> & Hb). rewrite Forall_forall in Hl.
  eapply url_byte_safe; eauto.
Qed.

Lemma url_safe_octet x : url_safe x = true → x < 256.
Proof. intros [Hx%unreserved_cases| ->]%url_safe_cases; lia. Qed.

Lemma url_component_bytes s : as_bytes (url_component s) = mjoin (url_byte <$> as_bytes s).
Proof.
  unfold url_component. apply as_string_bytes. apply Forall_forall. intros x Hx.
  apply url_safe_octet. eapply component_safe; [apply as_bytes_u8|done].
Qed.

Lemma url_component_safe s x : x ∈ as_bytes (url_component s) → url_safe x = true.
Proof. rewrite url_component_bytes. apply component_safe, as_bytes_u8. Qed.

Lemma percent_decode_component s :
  valid_utf8 (as_bytes s) = true → percent_decode (url_component s) = Some s.
Proof.
  intros Hs. unfold percent_decode.
  rewrite url_component_bytes, percent_bytes_component by apply as_bytes_u8.
  simpl. by rewrite Hs, string_of_as_bytes.
Qed.

(** ** Queries *)

Lemma split_join c pieces :
  pieces ≠ [] → Forall (λ p, c ∉ p) pieces → split_bytes c (join_bytes c pieces) = pieces.
Proof.
  intros Hne Hp. induction Hp as [|p pieces Hp Hrest IH]; [done|].
  destruct pieces as [|q pieces]; [by apply split_bytes_absent|].
  change (join_bytes c (p :: q :: pieces)) with (p ++ c :: join_bytes c (q :: pieces)).
  by rewrite split_bytes_first, IH.
Qed.

(** A query as a list of pairs. *)
Definition query_piece (pair : string * bytes) : bytes := as_bytes pair.1 ++ 61 :: pair.2.

Definition clean_pair (pair : string * bytes) : Prop :=
  61 ∉ as_bytes pair.1 ∧ 38 ∉ as_bytes pair.1 ∧ Forall (λ x, url_safe x = true) pair.2.

Lemma url_safe_not_separator x : url_safe x = true → x ≠ 38 ∧ x ≠ 61 ∧ x ≠ 63 ∧ printable x.
Proof. unfold printable. intros [Hx%unreserved_cases| ->]%url_safe_cases; lia. Qed.

Lemma query_piece_clean pair : clean_pair pair → 38 ∉ query_piece pair.
Proof.
  intros (_ & Hk & Hv). unfold query_piece. rewrite elem_of_app, elem_of_cons.
  intros [?|[?|Hin]]; [done|done|]. rewrite Forall_forall in Hv.
  by destruct (url_safe_not_separator 38 (Hv _ Hin)).
Qed.

Lemma as_bytes_inj s t : as_bytes s = as_bytes t → s = t.
Proof. intros Heq. by rewrite <- (string_of_as_bytes s), Heq, string_of_as_bytes. Qed.

Lemma query_value_pairs pairs key query :
  pairs ≠ [] → Forall clean_pair pairs → as_bytes query = join_bytes 38 (query_piece <$> pairs) →
  query_value query key =
  head (omap (λ pair, if bool_decide (pair.1 = key) then Some (string_of_bytes pair.2) else None) pairs).
Proof.
  intros Hne Hclean Hq. unfold query_value. rewrite Hq, split_join.
  - clear Hne Hq. induction Hclean as [|[k v] pairs (Hk & _ & _) Hrest IH]; [done|].
    cbn [fmap list_fmap omap list_omap query_piece fst snd] in *.
    unfold query_piece at 1. cbn [fst snd].
    change (as_bytes k ++ 61 :: v) with (as_bytes k ++ [61] ++ v).
    rewrite (split_once_bytes_app [61] (as_bytes k) v); [|done|set_solver].
    simpl. destruct (decide (k = key)) as [->|Hkey].
    + by rewrite !bool_decide_eq_true_2.
    + rewrite !bool_decide_eq_false_2; [done..|]. intros Heq%as_bytes_inj. done.
  - by destruct pairs.
  - apply Forall_fmap. eapply Forall_impl; [done|]. apply query_piece_clean.
Qed.

(** ** Links are read back *)

Section links.
Context `{Sha256, Ed25519, Hex, HmacSha1, Base64, Chrono, !Rfc3339, !AppEnvironment, !InviteJson}.
Context `{!Base64Laws, !UrlSafeLaws, !InviteJsonLaws}.

Definition link_pairs (payload : bytes) (expires_at : string) (max_uses : N)
    (group_id : option string) : list (string * bytes) :=
  [("d", as_bytes (b64_url_encode payload)); ("exp", as_bytes (url_component expires_at));
   ("max", as_bytes (pretty max_uses))]%string
  ++ from_option (λ group_id, [("gid"%string, as_bytes (url_component group_id))]) [] group_id.

Lemma url_safe_component s : Forall (λ x, url_safe x = true) (as_bytes (url_component s)).
Proof. apply Forall_forall, url_component_safe. Qed.

Lemma url_safe_base64 b : Forall (λ x, url_safe x = true) (as_bytes (b64_url_encode b)).
Proof.
  apply Forall_forall. intros x Hx%b64_url_alphabet. apply url_safe_cases. left.
  unfold is_unreserved. destruct Hx as [-> |[-> | ->]]; done.
Qed.

Lemma url_safe_number (n : N) : Forall (λ x, url_safe x = true) (as_bytes (pretty n)).
Proof.
  eapply Forall_impl; [apply pretty_digits|]. intros x Hx%digit_value_bounds.
  apply url_safe_cases. left. apply unreserved_cases. lia.
Qed.

Lemma link_pairs_clean payload expires_at max_uses group_id :
  Forall clean_pair (link_pairs payload expires_at max_uses group_id).
Proof.
  unfold link_pairs. apply Forall_app. split; [|destruct group_id]; repeat constructor;
    try apply url_safe_component; try apply url_safe_base64; try apply url_safe_number;
    cbn; set_solver by lia.
Qed.

Definition link_query (payload : bytes) (expires_at : string) (max_uses : N)
    (group_id : option string) : string :=
  "d=" +:+ b64_url_encode payload +:+ "&exp=" +:+ url_component expires_at
  +:+ "&max=" +:+ pretty max_uses
  +:+ from_option (λ group_id, "&gid=" +:+ url_component group_id) ""%string group_id.

Lemma link_query_bytes payload expires_at max_uses group_id :
  as_bytes (link_query payload expires_at max_uses group_id) =
  join_bytes 38 (query_piece <$> link_pairs payload expires_at max_uses group_id).
Proof.
  unfold link_query, link_pairs, query_piece.
  destruct group_id; cbn [from_option app fmap list_fmap join_bytes fst snd];
    rewrite !as_bytes_app; cbn [as_bytes app]; by rewrite <- ?app_assoc, ?app_nil_r.
Qed.

Lemma safe_printable b : Forall (λ x, url_safe x = true) b → Forall printable b.
Proof. intros Hb. eapply Forall_impl; [done|]. intros x Hx. by destruct (url_safe_not_separator x Hx) as (_ & _ & _ & ?). Qed.

Lemma link_query_printable payload expires_at max_uses group_id :
  Forall printable (as_bytes (link_query payload expires_at max_uses group_id)).
Proof.
  unfold link_query. destruct group_id; cbn [from_option];
    rewrite !as_bytes_app, !Forall_app; split_and!;
    try (apply safe_printable; first [apply url_safe_component|apply url_safe_base64|apply url_safe_number]);
    repeat constructor; discriminate.
Qed.

(** The identifier of an invite is hexadecimal. *)
Definition plain_id (d : StoredInvite) : Prop :=
  Forall (λ x, is_ascii_hexdigit x = true) (as_bytes (si_invite_id d)).

Lemma hexdigit_plain x : is_ascii_hexdigit x = true → printable x ∧ x ≠ 63.
Proof.
  unfold is_ascii_hexdigit, is_ascii_digit, printable.
  rewrite !orb_true_iff, !andb_true_iff, !N.leb_le. lia.
Qed.

Definition link_prefix (d : StoredInvite) : string := "discrypt://join/v1/" +:+ si_invite_id d.

Lemma link_prefix_plain d : plain_id d → Forall (λ x, printable x ∧ x ≠ 63) (as_bytes (link_prefix d)).
Proof.
  intros Hd. unfold link_prefix. rewrite as_bytes_app. apply Forall_app. split.
  - repeat constructor; discriminate.
  - eapply Forall_impl; [exact Hd|]. apply hexdigit_plain.
Qed.

Lemma string_app_assoc (s t u : string) : (s +:+ t) +:+ u = s +:+ t +:+ u.
Proof. apply as_bytes_inj. by rewrite !as_bytes_app, app_assoc. Qed.

Lemma link_splits d payload expires_at max_uses group_id :
  plain_id d →
  let query := link_query payload expires_at max_uses group_id in
  split_once "?" (trim (link_prefix d +:+ "?" +:+ query)) = Some (link_prefix d, query).
Proof.
  intros Hd query. pose proof (link_prefix_plain d Hd) as Hp. rewrite trim_printable.
  - unfold split_once. rewrite !as_bytes_app, split_once_bytes_app; [|done|].
    + simpl. by rewrite !string_of_as_bytes.
    + intros x Hx. rewrite Forall_forall in Hp. destruct (Hp x Hx) as [_ Hne].
      cbn. intros [= <-]. done.
  - rewrite !as_bytes_app, !Forall_app. split_and!.
    + eapply Forall_impl; [exact Hp|]. by intros x [].
    + repeat constructor; discriminate.
    + apply link_query_printable.
Qed.

Lemma link_shape d expires_at max_uses group_id link :
  production_invite_link d expires_at max_uses group_id = Ok link →
  ∃ payload, invite_to_vec d = Ok payload ∧
    link = link_prefix d +:+ "?" +:+ link_query payload expires_at max_uses group_id.
Proof.
  unfold production_invite_link. destruct (invite_to_vec d) as [payload|]; [|done].
  cbn [map_err]. intros [= <-]. exists payload. split; [done|].
  unfold link_prefix, link_query. by rewrite !string_app_assoc.
Qed.

(** A link made for a signed descriptor is read back as that descriptor: the invite key, the
    signalling scope and profiles, expiry and number of uses come from the signed bytes, whatever
    the readable part of the link says, and the group identifier from the query. *)
Theorem invite_link_round_trip d expires_at max_uses group_id link now config m :
  production_invite_link d expires_at max_uses group_id = Ok link →
  plain_id d → from_option (λ g, valid_utf8 (as_bytes g) = true) True group_id →
  ice_server_config_at d None now = Ok config → bootstrap_metadata d = Some m →
  ∃ p, parse_invite_metadata now link = Some p ∧
    pi_invite_key p = si_invite_id d ∧
    pi_group_id p = group_id ∧
    pi_connectivity p =
      connectivity_from_bootstrap m (ice_stun_server_views config) (ice_turn_server_views config) ∧
    pi_expires_at p = dt_to_rfc3339 (si_expires_at d) ∧
    pi_max_uses p = si_max_uses d ∧ pi_consumed_uses p = consumed_uses d ∧
    pi_revoked p = invite_is_revoked d.
Proof.
  intros (payload & Hjson & ->)%link_shape Hid Hgid Hice Hm.
  assert (verify_issuer_signature d = Ok tt) as Hsig.
  { revert Hice. unfold ice_server_config_at. by destruct (verify_issuer_signature d) as [[]|]. }
  assert (link_pairs payload expires_at max_uses group_id ≠ []) as Hne by done.
  pose proof (λ key, query_value_pairs _ key _ Hne (link_pairs_clean payload expires_at max_uses group_id)
    (link_query_bytes payload expires_at max_uses group_id)) as Hq.
  assert ((value ← query_value (link_query payload expires_at max_uses group_id) "gid";
           percent_decode value) = group_id) as Hread.
  { rewrite Hq. destruct group_id as [g|]; [|done].
    change (percent_decode (string_of_bytes (as_bytes (url_component g))) = Some g).
    rewrite string_of_as_bytes. by apply percent_decode_component. }
  unfold parse_invite_metadata. rewrite link_splits by done. cbn [mbind option_bind].
  rewrite Hread, Hq. cbn [link_pairs app omap list_omap fst snd].
  rewrite (bool_decide_eq_true_2 ("d" = "d")%string) by done. cbn [head mbind option_bind].
  rewrite string_of_as_bytes, b64_url_decode_encode by (by eapply invite_octets).
  cbn [ok_value mbind option_bind]. rewrite (invite_round_trip _ _ Hjson). cbn [mbind option_bind].
  rewrite Hsig, Hice. cbn [ok_value mbind option_bind]. rewrite Hm. cbn [mbind option_bind].
  eexists. split; [reflexivity|]. by split_and!.
Qed.
End links.

(** ** A policy survives the invite *)

Section policies.
Context `{Sha256, Ed25519, Hex, HmacSha1, Base64, Chrono, !Rfc3339, !AppEnvironment, !InviteJson}.

(** The settings a descriptor does not carry have their default. *)
Definition wire_profile (p : SignalingProfileView) : Prop :=
  (∃ kind, sp_adapter_kind p = adapter_name kind) ∧
  sp_max_message_bytes p = Some (64 * 1024) ∧
  sp_backoff_initial_ms p = DEFAULT_PROVIDER_BACKOFF_INITIAL_MS ∧
  sp_backoff_max_ms p = DEFAULT_PROVIDER_BACKOFF_MAX_MS ∧
  sp_backoff_multiplier p = DEFAULT_PROVIDER_BACKOFF_MULTIPLIER ∧
  sp_backoff_max_attempts p = DEFAULT_PROVIDER_BACKOFF_MAX_ATTEMPTS.

Definition wire_policy (c : ConnectivityPolicyView) : Prop :=
  Forall wire_profile (cp_signaling_profiles c) ∧
  cp_connectivity_schema_version c = INVITE_CONNECTIVITY_SCHEMA_VERSION ∧
  (cp_invite_kind c = kind_name DmContact ∧ cp_group_bootstrap c = None
   ∨ cp_invite_kind c = kind_name GroupJoin ∧ cp_dm_bootstrap c = None).

Lemma profile_kind_name kind : profile_kind_from_name (adapter_name kind) = kind.
Proof. by destruct kind. Qed.

Lemma profile_round_trip p : wire_profile p → profile_from_admission (profile_to_admission p) = p.
Proof.
  intros ([kind Hkind] & ? & ? & ? & ? & ?). destruct p. simpl in *. subst.
  unfold profile_from_admission, profile_to_admission. simpl. by rewrite profile_kind_name.
Qed.

Lemma endpoint_profile_wire scope kind endpoints suffix :
  wire_profile (signaling_profile_for_endpoints scope kind endpoints suffix).
Proof. unfold wire_profile. split_and!; try done. by exists kind. Qed.

Lemma default_profiles_wire scope : Forall wire_profile (default_signaling_profiles scope).
Proof.
  apply Forall_forall. intros p (kind & _ & Hp)%list_elem_of_omap.
  destruct (env_adapter_endpoints (adapter_name kind)); [done|]. injection Hp as <-.
  apply endpoint_profile_wire.
Qed.

Lemma group_policy_wire group_id request :
  wire_policy (group_connectivity_policy_from_request group_id request).
Proof.
  split_and!; [|done|by right]. cbn [cp_signaling_profiles group_connectivity_policy_from_request].
  destruct (cg_adapter_kind request); [|apply default_profiles_wire].
  cbn [mbind option_bind]. destruct (cg_signaling_endpoint request); [|apply default_profiles_wire].
  cbn [mbind option_bind]. case_match; [apply default_profiles_wire|].
  repeat constructor; try done. eexists; reflexivity.
Qed.

Lemma dm_policy_wire dm_id participant_id : wire_policy (dm_connectivity_policy dm_id participant_id).
Proof. split_and!; [apply default_profiles_wire|done|by left]. Qed.

Lemma profiles_round_trip l :
  Forall wire_profile l → profile_from_admission <$> (profile_to_admission <$> l) = l.
Proof.
  induction 1 as [|p l Hp Hl IH]; [done|]. rewrite !fmap_cons, IH. by rewrite profile_round_trip.
Qed.

(** What a descriptor carries of a connectivity policy is the policy: the invitee's policy
    differs from the inviter's at most in its ICE servers and its label. The policies of new groups
    ([group_policy_wire]) and direct messages ([dm_policy_wire]) are of this form. *)
Theorem policy_survives_the_invite c m stun turn :
  wire_policy c → bootstrap_metadata_from_connectivity c = Ok m →
  connectivity_from_bootstrap m stun turn =
  {| c with cp_ice_stun_servers := stun; cp_ice_turn_servers := turn;
            cp_privacy_label := privacy_label m |}.
Proof.
  intros (Hprofiles & Hversion & Hkind). unfold bootstrap_metadata_from_connectivity, dm_contact, group_join.
  destruct c as [version kind scope profiles stun0 turn0 label dm group]. simpl in *. subst version.
  destruct Hkind as [[-> ->]|[-> ->]]; simpl.
  - destruct dm as [[]|]; [|done]. simpl. destruct (bootstrap_validate _) as [[]|]; [|done].
    intros [= <-]. unfold connectivity_from_bootstrap. simpl. by rewrite profiles_round_trip.
  - destruct group as [[]|]; [|done]. simpl. destruct (bootstrap_validate _) as [[]|]; [|done].
    intros [= <-]. unfold connectivity_from_bootstrap. simpl. by rewrite profiles_round_trip.
Qed.
End policies.

(** ** Labels *)

(** Labels are read by fragments: any number of days means one day and any number of hours
    one hour, so "30 days" and "24 hours" do not mean what they say. *)
Theorem expiry_labels_read_the_unit (label : string) :
  let lower := to_ascii_lowercase label in
  (str_contains "hour" lower = true → invite_expiration_seconds label = HOUR_SECONDS) ∧
  (str_contains "hour" lower = false → str_contains "1 h" lower = false →
   str_contains "day" lower = true → invite_expiration_seconds label = DAY_SECONDS).
Proof.
  cbv zeta. unfold invite_expiration_seconds. split.
  - by intros ->.
  - by intros -> -> ->.
Qed.

(** ** Sample links *)

Module InviteToy.

#[local] Existing Instance Toy.toy_sha.
#[local] Existing Instance Toy.toy_ed.
#[local] Existing Instance Toy.toy_hex.
#[local] Existing Instance Toy.toy_hmac.
#[local] Existing Instance Toy.toy_b64.
#[local] Existing Instance Toy.toy_chrono.
#[local] Existing Instance Toy.toy_rfc3339.

#[export] Instance turn_eq_dec : EqDecision TurnServerConfig.
Proof. solve_decision. Defined.
#[export] Instance ice_policy_eq_dec : EqDecision IceEndpointPolicy.
Proof. solve_decision. Defined.
#[export] Instance endpoint_policy_eq_dec : EqDecision InviteEndpointPolicy.
Proof. solve_decision. Defined.
#[export] Instance trust_eq_dec : EqDecision InviteTrustMetadata.
Proof. solve_decision. Defined.
#[export] Instance signaling_eq_dec : EqDecision InviteSignalingMetadata.
Proof. solve_decision. Defined.
#[export] Instance adapter_eq_dec : EqDecision InviteSignalingAdapterKind.
Proof. solve_decision. Defined.
#[export] Instance profile_eq_dec : EqDecision InviteSignalingProfile.
Proof. solve_decision. Defined.
#[export] Instance kind_eq_dec : EqDecision InviteKind.
Proof. solve_decision. Defined.
#[export] Instance dm_eq_dec : EqDecision DmInviteBootstrap.
Proof. solve_decision. Defined.
#[export] Instance group_eq_dec : EqDecision GroupInviteBootstrap.
Proof. solve_decision. Defined.
#[export] Instance bootstrap_eq_dec : EqDecision InviteBootstrapMetadata.
Proof. solve_decision. Defined.
#[export] Instance snapshot_eq_dec : EqDecision InviteAdmissionSnapshot.
Proof. solve_decision. Defined.
#[export] Instance revocation_eq_dec : EqDecision InviteRevocationPolicy.
Proof. solve_decision. Defined.
#[export] Instance protocol_eq_dec : EqDecision AdmissionPasswordProtocol.
Proof. solve_decision. Defined.
#[export] Instance password_eq_dec : EqDecision InvitePasswordPolicy.
Proof. solve_decision. Defined.
#[export] Instance time_eq_dec : EqDecision (@datetime Toy.toy_chrono) := Z.eq_dec.
#[export] Instance invite_eq_dec : EqDecision StoredInvite.
Proof. solve_decision. Defined.

(** Descriptors are numbered: the text of the [n]-th is [n]. *)
Definition numbered (ds : list StoredInvite) : InviteJson := {|
  invite_to_vec d :=
    match list_find (eq d) ds with
    | Some (n, _) => if (n <? 256)%nat then Ok [N.of_nat n] else Err "out of numbers"%string
    | None => Err "unknown descriptor"%string
    end;
  invite_from_slice b := match b with [n] => ds !! N.to_nat n | _ => None end
|}.

Lemma numbered_laws ds : @InviteJsonLaws _ (numbered ds).
Proof.
  split; intros d b; simpl; destruct (list_find (eq d) ds) as [[n e]|] eqn:E; try done;
    apply list_find_Some in E as (Hn & <- & _);
    destruct (Nat.ltb_spec n 256); try done; intros [= <-].
  - by rewrite Nat2N.id.
  - repeat constructor. lia.
Qed.

Lemma url_safe_laws : UrlSafeLaws.
Proof.
  intros b x Hx%(@hex_encode_digits Toy.toy_hex Toy.toy_hex_laws). left.
  unfold is_ascii_alphanumeric, is_ascii_digit, is_ascii_alphabetic.
  rewrite !orb_true_iff, !andb_true_iff, !N.leb_le. lia.
Qed.

(** One broker is configured. *)
Definition environment : AppEnvironment := {|
  env_signaling_endpoint := None; env_turn_endpoint := None; env_turn_username := None;
  env_turn_credential := None; env_turn_credential_expires_at := None;
  env_adapter_endpoints kind := if kind =s "mqtt" then ["mqtts://broker:8883"%string] else []
|}.
End InviteToy.

Section witnesses.
#[local] Existing Instance Toy.toy_sha.
#[local] Existing Instance Toy.toy_ed.
#[local] Existing Instance Toy.toy_ed_laws.
#[local] Existing Instance Toy.toy_hex.
#[local] Existing Instance Toy.toy_hmac.
#[local] Existing Instance Toy.toy_b64.
#[local] Existing Instance Toy.toy_b64_laws.
#[local] Existing Instance Toy.toy_chrono.
#[local] Existing Instance Toy.toy_rfc3339.
#[local] Existing Instance InviteToy.environment.
#[local] Existing Instance InviteToy.url_safe_laws.

#[local] Instance sample_json : InviteJson := InviteToy.numbered [toy_descriptor].
#[local] Instance sample_json_laws : InviteJsonLaws := InviteToy.numbered_laws _.

Definition toy_link : string :=
  GroupToy.unwrap ""%string
    (production_invite_link toy_descriptor "2026-01-01T00:00:00+00:00" 2 (Some "group-lab & co"%string)).

Lemma invite_link_round_trip_witness :
  ∃ p, parse_invite_metadata (time 5) toy_link = Some p ∧
    pi_invite_key p = "aa"%string ∧ pi_group_id p = Some "group-lab & co"%string ∧
    pi_max_uses p = 2.
Proof.
  destruct (invite_link_round_trip toy_descriptor "2026-01-01T00:00:00+00:00" 2 (Some "group-lab & co"%string) toy_link (time 5)
    {| is_stun_servers := ip_stun_servers ice_default_production; is_turn_servers := [] |}
    (cg_bootstrap_metadata toy_group_input))
    as (p & Hp & Hkey & Hgid & _ & _ & Hmax & _).
  - apply GroupToy.unwrap_ok. vm_compute. reflexivity.
  - repeat constructor.
  - reflexivity.
  - vm_compute. reflexivity.
  - reflexivity.
  - exists p. by split_and!.
Defined.

Definition lab_policy : ConnectivityPolicyView := group_connectivity_policy "group-lab-1".

Lemma policy_survives_the_invite_witness :
  ∃ m, bootstrap_metadata_from_connectivity lab_policy = Ok m ∧
    connectivity_from_bootstrap m [] [] =
    {| lab_policy with cp_ice_stun_servers := []; cp_ice_turn_servers := [];
                       cp_privacy_label := privacy_label m |}.
Proof.
  destruct (bootstrap_metadata_from_connectivity lab_policy) as [m|] eqn:E.
  - exists m. split; [exact eq_refl|]. apply policy_survives_the_invite; [apply group_policy_wire|exact E].
  - exfalso. revert E. vm_compute. discriminate.
Defined.

Lemma expiry_labels_read_the_unit_witness :
  invite_expiration_seconds "30 days" = DAY_SECONDS ∧
  invite_expiration_seconds "24 hours" = HOUR_SECONDS.
Proof.
  split; [apply (expiry_labels_read_the_unit "30 days")|
          apply (expiry_labels_read_the_unit "24 hours")]; vm_compute; reflexivity.
Defined.
End witnesses.
