(* ===== verification/DeskJoin.v ===== *)
(** * Desktop application: opening conversations
    (apps/desktop/src-tauri/src/lib.rs)

    The commands that bring a conversation into being: creating a group, a channel or a direct
    message, issuing an invite for it and using an invite somewhere else. An invite is a link of
    [DeskInvites] around a signed descriptor of [Invites]; a joiner's request for admission is the
    key package [DeskAdmission] answers. Commands run for a profile that exists; a command reads
    the clock once. *)

From S2P Require Import Prelude Collections Bytes StrOps Crypto Transport IcePolicy Invites RouteGraph DeliveryError TextEnvelope TextSend AppService DeskState DeskGroups DeskDelivery DeskAdmission DeskVoice DeskCommands DeskInvites.

(** ** State *)

(** The application state with its invites and the connectivity new conversations start from. *)
Record DeskApp `{Chrono} := {
  da_app : PersistedAppState;
  da_invites : list InviteView;
  da_connectivity_defaults : ConnectivityPolicyView
}.

Definition map_app `{Chrono} (f : PersistedAppState → PersistedAppState) (d : DeskApp) : DeskApp :=
  {| d with da_app := f (da_app d) |}.

(** What the operating system's generator gives one invite: the issuer's key, the identifier that
    goes into the room secret, and the opaque identifier. *)
Record InviteRandom `{Ed25519} := {
  ir_issuer : signing_key;
  ir_invite_key : string;
  ir_opaque : bytes
}.

(** [OpenMlsGroupEngine::create_group]: signer key, epoch and confirmation tag. *)
Class GroupFounder := mls_create_group : string → bytes → result (bytes * N * bytes) string.

Record JoinGroupRequest := { jg_invite_code : string; jg_group_name : option string }.

Record CreateInviteRequest := {
  ci_group_id : option string;
  ci_expires : string;
  ci_max_use : string;
  ci_password_gate : option string
}.

Record CreateDmInviteRequest := {
  cdi_dm_id : option string;
  cdi_expires : string;
  cdi_max_use : string
}.

Record AcceptDmInviteRequest := { adi_invite_code : string; adi_display_name : option string }.

Record CreateChannelRequest := {
  cc_group_id : string;
  cc_name : string;
  cc_kind : ChannelKind;
  cc_retention_status : string
}.

(** ** New groups *)

Definition DEFAULT_GROUP_TEXT_CHANNEL_ID : string := "channel-general".
Definition DEFAULT_GROUP_VOICE_CHANNEL_ID : string := "channel-voice-lobby".

Definition default_group_channels : list ChannelStateView := [
  {| ch_channel_id := DEFAULT_GROUP_TEXT_CHANNEL_ID; ch_name := "#general"; ch_kind := TextChannel;
     ch_retention_status := "7 days"; ch_connectivity := None |};
  {| ch_channel_id := DEFAULT_GROUP_VOICE_CHANNEL_ID; ch_name := "Voice Lobby";
     ch_kind := VoiceChannel; ch_retention_status := "session"; ch_connectivity := None |}].

Definition initial_group_role_policy (admission_mode : GroupAdmissionModeView)
    (actor_member_id created_at : string) : GroupRolePolicyView := {|
  rp_admission_mode := admission_mode;
  rp_policy_epoch := 1;
  rp_updated_by := actor_member_id;
  rp_updated_at := created_at
|}.

Definition initial_group_member (member_id display_name : string) (device_id : option string)
    (role : GroupRoleView) (joined_at : string) : GroupMemberView := {|
  gm_member_id := member_id;
  gm_display_name := display_name;
  gm_device_id := device_id;
  gm_role := role;
  gm_status := "unknown";
  gm_signer_public_key_hex := None;
  gm_runtime_peer_id := None;
  gm_joined_at := joined_at;
  gm_last_seen_at := None;
  gm_presence_expires_at := None;
  gm_revoked_at := None;
  gm_revoked_by := None;
  gm_route_evidence := None
|}.

Definition initial_group_governance_log (group_id actor_member_id : string)
    (role_after : GroupRoleView) (created_at : string) (sequence : N) :
    list GroupGovernanceLogEntryView := [{|
  gl_event_id := stable_id "governance" (group_id +:+ ":" +:+ actor_member_id +:+ ":created") sequence;
  gl_group_id := group_id;
  gl_event_kind := "group_created";
  gl_actor_member_id := actor_member_id;
  gl_target_member_id := Some actor_member_id;
  gl_request_id := None;
  gl_role_before := None;
  gl_role_after := Some role_after;
  gl_created_at := created_at;
  gl_summary := "Initialized group owner/staff/member governance roster"
|}].

Definition request_has_connectivity_overrides (r : CreateGroupRequest) : bool :=
  from_option (λ v, negb (is_blank v)) false (cg_adapter_kind r)
  || from_option (λ v, negb (is_blank v)) false (cg_signaling_endpoint r)
  || from_option (existsb (λ v, negb (is_blank v))) false (cg_ice_stun_servers r)
  || from_option (existsb (λ v, negb (is_blank (it_endpoint v)))) false (cg_ice_turn_servers r).

Definition group_context (group_id : string) : ActiveContextView :=
  {| ac_kind := "group"; ac_group_id := Some group_id; ac_channel_id := None; ac_dm_id := None |}.

Definition channel_context (kind : ChannelKind) (group_id channel_id : string) :
    ActiveContextView :=
  {| ac_kind := match kind with TextChannel => "text_channel" | VoiceChannel => "voice_channel" end;
     ac_group_id := Some group_id; ac_channel_id := Some channel_id; ac_dm_id := None |}.

Definition dm_context (dm_id : string) : ActiveContextView :=
  {| ac_kind := "dm"; ac_group_id := None; ac_channel_id := None; ac_dm_id := Some dm_id |}.

Definition focus `{Chrono} (context : ActiveContextView) (s : PersistedAppState) :
    PersistedAppState := {| s with st_active_context := Some context |}.

Section opening.
Context `{Sha256, Ed25519, Hex, HmacSha1, Base64, Aes256Gcm, Chrono, !Rfc3339, !SigningSeed,
  !FrameJson, !ErrorTexts, !AppEnvironment, !InviteJson, !GroupFounder}.

(** The first endpoint of each default profile, under the topic of another scope. *)
Definition retarget_signaling_profiles (scope_commitment : string)
    (profiles : list SignalingProfileView) : list SignalingProfileView :=
  match omap (λ profile,
          endpoint ← find_first (λ endpoint, negb (is_blank endpoint)) (sp_endpoints profile);
          Some (signaling_profile_for_endpoints scope_commitment
                  (profile_kind_from_name (sp_adapter_kind profile)) [trim endpoint] "default"))
        profiles with
  | [] => default_signaling_profiles scope_commitment
  | retargeted => retargeted
  end.

Definition apply_app_connectivity_defaults (policy defaults : ConnectivityPolicyView) :
    ConnectivityPolicyView :=
  {| policy with
     cp_signaling_profiles := retarget_signaling_profiles (cp_scope_id_commitment policy)
                                (cp_signaling_profiles defaults);
     cp_ice_stun_servers := cp_ice_stun_servers defaults;
     cp_ice_turn_servers := cp_ice_turn_servers defaults |}.

Definition app_connectivity_defaults : ConnectivityPolicyView :=
  let scope := hash_commitment "discrypt-app-connectivity-defaults-v1" ["local-profile"%string] in {|
  cp_connectivity_schema_version := INVITE_CONNECTIVITY_SCHEMA_VERSION;
  cp_invite_kind := "app_default";
  cp_scope_id_commitment := scope;
  cp_signaling_profiles := default_signaling_profiles scope;
  cp_ice_stun_servers := default_ice_stun_servers;
  cp_ice_turn_servers := [];
  cp_privacy_label := "App defaults are copied into new DM/group/channel policies; invites retarget provider topics to the signed scope commitment";
  cp_dm_bootstrap := None;
  cp_group_bootstrap := None
|}.

Definition ensure_openmls_group (store_path group_id : string) (s : PersistedAppState) :
    result PersistedAppState string :=
  if has_openmls_handle s group_id then Ok s
  else
    let* created := mls_create_group group_id (as_bytes (local_user_id s)) in
    let '(signer_public_key, epoch, confirmation_tag) := created in
    Ok (push_event "mls.group_created"
          ("Created OpenMLS state for " +:+ redacted_observable_ref "group" group_id)
          {| s with st_openmls_groups := st_openmls_groups s ++ [{|
               oh_group_id := group_id;
               oh_signer_public_key_hex := hex_encode signer_public_key;
               oh_epoch := epoch;
               oh_local_leaf := 0;
               oh_confirmation_tag_sha256 := confirmation_sha256 confirmation_tag;
               oh_openmls_store_path := Some store_path;
               oh_status_copy := "OpenMLS group state was created in the Rust service boundary and can export Rust-only text secrets for admitted members" |}] |}).

(** The group [create_group] adds, with the creator as owner. *)
Definition founded_group (now : datetime) (request : CreateGroupRequest)
    (defaults : ConnectivityPolicyView) (group_id name : string) (s : PersistedAppState) :
    PersistedAppState * GroupView :=
  let connectivity := group_connectivity_policy_from_request group_id request in
  let connectivity := if request_has_connectivity_overrides request then connectivity
                      else apply_app_connectivity_defaults connectivity defaults in
  let created_at := dt_to_rfc3339 now in
  let member_id := local_user_id s in
  let display_name := from_option up_display_name "Owner" (st_profile s) in
  let '(s, key) := identity_signing_key s in
  let device_id := dw_device_id <$> find_first dw_local (st_devices s) in
  let '(s, peer_id) := local_group_runtime_peer_id s group_id in
  let owner := {| (initial_group_member member_id display_name device_id RoleOwner created_at)
                  with gm_signer_public_key_hex := Some (public_key_hex key);
                       gm_runtime_peer_id := Some peer_id |} in
  (s, {| gv_group_id := group_id;
         gv_name := name;
         gv_role := "owner";
         gv_channels := default_group_channels;
         gv_channel_schema_epoch := 1;
         gv_members := [owner];
         gv_role_policy := initial_group_role_policy
           (default AutomaticWhenAuthorizedOnline (cg_admission_mode request)) member_id created_at;
         gv_admission_requests := [];
         gv_governance_log := initial_group_governance_log group_id member_id RoleOwner created_at
                                (st_next_sequence s);
         gv_runtime_peers := advertised_group_runtime_peers now [owner] member_id;
         gv_connectivity := Some connectivity |}).

(** A group of that name is opened again, whoever made it. *)
Definition create_group (now : datetime) (store_path : string) (request : CreateGroupRequest)
    (d : DeskApp) : DeskApp :=
  let s := da_app d in
  let name := normalize_label (cg_name request) "private lab" in
  let group_id := stable_id "group" name (st_next_sequence s) in
  let s := if existsb (λ g, gv_name g =s name) (st_groups s) then s
           else let '(s, g) := founded_group now request (da_connectivity_defaults d) group_id name s in
                {| s with st_groups := st_groups s ++ [g] |} in
  let active := from_option gv_group_id group_id (find_first (λ g, gv_name g =s name) (st_groups s)) in
  {| d with da_app := match ensure_openmls_group store_path active s with
     | Err error => push_command_error now "mls.group_create_failed" "create_group"
         "openmls_group_create_failed" error
         "Do not claim production text/voice encryption for this group until OpenMLS group state is created and persisted" s
     | Ok s =>
         push_event "retention.selected"
           ("Default retention: " +:+ normalize_label (cg_retention request) "7 days")
           (push_event "group.created" ("Created group " +:+ redacted_observable_ref "group" name)
              (focus (group_context active) s))
     end |}.

(** ** Focus *)

Definition set_active_group (now : datetime) (group_id : string) (s : PersistedAppState) :
    PersistedAppState :=
  match find_group group_id s with
  | Some group =>
      push_event "group.focused" ("Focused group " +:+ redacted_observable_ref "group" (gv_name group))
        (focus (group_context (gv_group_id group)) s)
  | None => push_command_error now "group.focus_missing" "set_active_group" "group_not_found"
      "Requested group does not exist" "Pick a group from the server rail before focusing it" s
  end.

Definition set_active_channel (now : datetime) (group_id channel_id : string)
    (s : PersistedAppState) : PersistedAppState :=
  match group ← find_group group_id s;
        find_first (λ c, ch_channel_id c =s channel_id) (gv_channels group) with
  | Some channel =>
      push_event "channel.focused"
        ("Focused channel " +:+ redacted_observable_ref "channel" (ch_name channel))
        (focus (channel_context (ch_kind channel) group_id channel_id) s)
  | None => push_command_error now "channel.focus_missing" "set_active_channel" "channel_not_found"
      "Requested channel does not exist in the group"
      "Select a channel that belongs to the active group" s
  end.

Definition set_active_dm (now : datetime) (dm_id : string) (s : PersistedAppState) :
    PersistedAppState :=
  if existsb (λ dm, dc_dm_id dm =s dm_id) (st_dms s) then
    push_event "dm.focused" ("Focused DM " +:+ redacted_observable_ref "dm" dm_id)
      (focus (dm_context dm_id) s)
  else push_command_error now "dm.focus_missing" "set_active_dm" "dm_not_found"
         "Requested DM does not exist" "Select a DM that already exists" s.

(** ** Invites *)

Definition admission_mode_name (mode : GroupAdmissionModeView) : string :=
  match mode with
  | AutomaticWhenAuthorizedOnline => "automatic_when_authorized_online"
  | ManualApproval => "manual_approval"
  end.

Definition invite_code_fingerprint (invite_code : string) : string :=
  hex_encode (sha256 (as_bytes "discrypt-desktop-invite-code-fingerprint-v1" ++ as_bytes invite_code)).

(** What the issuer keeps of an invite. *)
Definition issued_invite_view (c : ConnectivityPolicyView) (m : InviteSignalingMetadata)
    (i : StoredInvite) (group_id : string) (dm_id : option string) (code expires expires_at max_use
    admission_copy : string) : InviteView := {|
  iv_invite_id := "invite-" +:+ si_invite_id i;
  iv_invite_key := si_invite_id i;
  iv_descriptor_schema_version := Some (descriptor_schema_version i);
  iv_group_id := group_id;
  iv_dm_id := dm_id;
  iv_connectivity_schema_version := cp_connectivity_schema_version c;
  iv_invite_kind := cp_invite_kind c;
  iv_scope_id_commitment := cp_scope_id_commitment c;
  iv_signaling_profiles := cp_signaling_profiles c;
  iv_privacy_label := cp_privacy_label c;
  iv_dm_bootstrap := cp_dm_bootstrap c;
  iv_group_bootstrap := cp_group_bootstrap c;
  iv_admission_snapshot := admission_snapshot i;
  iv_revocation_policy := Some (revocation_policy i);
  iv_password_policy := password_policy i;
  iv_code := code;
  iv_room_secret_hash := hex_encode (si_room_secret_commitment i);
  iv_signaling_endpoint := signaling_endpoint m;
  iv_signaling_trust_fingerprint := signaling_fingerprint (sm_trust m);
  iv_signaling_trust_status := trust_status (sm_trust m);
  iv_endpoint_policy := policy_name (endpoint_policy m);
  iv_ice_stun_servers := cp_ice_stun_servers c;
  iv_ice_turn_servers := cp_ice_turn_servers c;
  iv_expires := expires;
  iv_expires_at := expires_at;
  iv_max_use := max_use;
  iv_uses := 0;
  iv_revoked := false;
  iv_admission_copy := admission_copy
|}.

(** What the invitee keeps of a link. *)
Definition used_invite_view (p : ParsedInviteMetadata) (code group_id : string)
    (dm_id : option string) (admission_copy : string) : InviteView :=
  let c := pi_connectivity p in {|
  iv_invite_id := "invite-" +:+ pi_invite_key p;
  iv_invite_key := pi_invite_key p;
  iv_descriptor_schema_version := pi_descriptor_schema_version p;
  iv_group_id := group_id;
  iv_dm_id := dm_id;
  iv_connectivity_schema_version := cp_connectivity_schema_version c;
  iv_invite_kind := cp_invite_kind c;
  iv_scope_id_commitment := cp_scope_id_commitment c;
  iv_signaling_profiles := cp_signaling_profiles c;
  iv_privacy_label := cp_privacy_label c;
  iv_dm_bootstrap := cp_dm_bootstrap c;
  iv_group_bootstrap := cp_group_bootstrap c;
  iv_admission_snapshot := pi_admission_snapshot p;
  iv_revocation_policy := pi_revocation_policy p;
  iv_password_policy := pi_password_policy p;
  iv_code := code;
  iv_room_secret_hash := pi_room_secret_hash p;
  iv_signaling_endpoint := pi_signaling_endpoint p;
  iv_signaling_trust_fingerprint := pi_signaling_trust_fingerprint p;
  iv_signaling_trust_status := pi_signaling_trust_status p;
  iv_endpoint_policy := pi_endpoint_policy p;
  iv_ice_stun_servers := pi_ice_stun_servers p;
  iv_ice_turn_servers := pi_ice_turn_servers p;
  iv_expires := "Invite expiry from signed descriptor";
  iv_expires_at := pi_expires_at p;
  iv_max_use := pretty (pi_max_uses p);
  iv_uses := 1;
  iv_revoked := false;
  iv_admission_copy := admission_copy
|}.

(** [Utc::now() + invite_expiration_duration(label)]; an instant out of range panics. *)
Definition invite_expiry (now : datetime) (label : string) : result datetime GovError :=
  ok_or (duration ← td_seconds (invite_expiration_seconds label); dt_add now duration) Panicked.

Definition reject_with {A E} (text : E → string) (m : result A E) (code hint : string) :
    result A GovError :=
  map_err (λ error, Rejected code (text error) hint) m.

(** The descriptor of a group's invite, and the row the issuer keeps. *)
Definition group_invite (now : datetime) (random : InviteRandom) (request : CreateInviteRequest)
    (group_id : string) (s : PersistedAppState) : result (StoredInvite * InviteView) GovError :=
  let group := find_group group_id s in
  let c := default (group_connectivity_policy group_id) (g ← group; gv_connectivity g) in
  let* bootstrap := reject_with id (bootstrap_metadata_from_connectivity c)
    "invite_bootstrap_invalid" "Recreate the group connectivity policy before issuing an invite" in
  let* _ := reject_with transport_error_text (ice_endpoint_policy_from_connectivity c)
    "invite_ice_policy_invalid" "Recreate the group connectivity policy before issuing an invite" in
  let expires := normalize_label (ci_expires request) "Invite expires and can be revoked" in
  let max_use := normalize_label (ci_max_use request) "Max-use is enforced before MLS admission" in
  let password_gate := from_option (λ v, negb (is_blank v)) false (ci_password_gate request) in
  let* expires_at := invite_expiry now expires in
  let max_uses := parse_max_uses max_use in
  let room_secret := "room-secret:" +:+ group_id +:+ ":" +:+ ir_invite_key random +:+ ":"
                     +:+ pretty (st_next_sequence s) in
  let* signaling := reject_with id
    (invite_signaling_metadata_from_connectivity c "signed endpoint fingerprint; verify before MLS Welcome")
    "invite_signaling_metadata_invalid" "Save a valid group signaling profile before issuing an invite" in
  let issuer_user_id := local_user_id s in
  let* snapshot := reject_with InviteError_to_string
    (snapshot_new (hash_commitment "discrypt-signed-invite-group-id-v1" [group_id])
       (hash_commitment "discrypt-signed-invite-openmls-group-v1" [group_id])
       (from_option (λ g, admission_mode_name (rp_admission_mode (gv_role_policy g)))
          "manual_approval" group)
       (from_option (λ g, rp_policy_epoch (gv_role_policy g)) 1 group)
       (from_option DeskState.gb_role_admission_policy_commitment
          (hash_commitment "discrypt-group-admission-policy-commitment-v1" [group_id])
          (cp_group_bootstrap c)))
    "invite_admission_snapshot_invalid" "Refresh group admission policy before issuing another invite" in
  let* revocation := reject_with InviteError_to_string
    (revocation_new (hash_commitment "discrypt-invite-revocation-authority-v1" [group_id; issuer_user_id]))
    "invite_revocation_policy_invalid" "Refresh group governance policy before issuing another invite" in
  let* password :=
    if password_gate then
      reject_with InviteError_to_string
        (let* p := online_helper ("admission-helper-" +:+ group_id)
           (hash_commitment "discrypt-invite-password-rate-limit-policy-v1" [group_id; issuer_user_id]) in
         Ok (Some p))
        "invite_password_policy_invalid"
        "Use online-helper or PAKE password admission; offline verifiers are not allowed"
    else Ok None in
  let* descriptor := reject_with InviteError_to_string
    (issue_canonical_group_invite_v1 (ir_opaque random)
       {| cg_room_secret := as_bytes room_secret; cg_expires_at := expires_at;
          cg_max_uses := max_uses; cg_signaling_metadata := signaling;
          cg_bootstrap_metadata := bootstrap; cg_admission_snapshot := snapshot;
          cg_revocation_policy := revocation; cg_password_policy := password |}
       (ir_issuer random) ∅).2
    "invite_descriptor_invalid"
    "Regenerate the invite after refreshing signed group admission and connectivity policy" in
  let* code := reject_with id
    (production_invite_link descriptor (dt_to_rfc3339 expires_at) max_uses (Some group_id))
    "invite_link_invalid" "Regenerate the invite after validating signaling and ICE metadata" in
  Ok (descriptor,
      issued_invite_view c signaling descriptor group_id None code expires (dt_to_rfc3339 expires_at)
        max_use
        (if password_gate
         then "Password-gated admission requested; final admission still requires an authorized MLS Welcome/add and no password verifier is embedded in the invite"
         else "Final admission still requires an authorized MLS Welcome/add; the room-secret link alone is insufficient")).

(** [None] is a panic of the clock arithmetic. *)
Definition create_invite (now : datetime) (random : InviteRandom) (request : CreateInviteRequest)
    (d : DeskApp) : option DeskApp :=
  let s := da_app d in
  let rejected kind code message hint s :=
    Some {| d with da_app := push_command_error now kind "create_invite" code message hint s |} in
  let chosen := match ci_group_id request with
    | Some group_id => Some group_id
    | None => match context ← st_active_context s; ac_group_id context with
              | Some group_id => Some group_id
              | None => gv_group_id <$> head (st_groups s)
              end
    end in
  match chosen with
  | None => rejected "invite.rejected" "group_not_found" "No group exists for invite creation"
              "Create or select a group before creating an invite" s
  | Some group_id =>
      '(abuse, allowed) ← allow_invite_create (st_abuse s)
        ("invite:" +:+ local_user_id s +:+ ":" +:+ group_id) now;
      let s := {| s with st_abuse := abuse |} in
      if negb allowed then
        rejected "invite.rate_limited" "invite_create_rate_limited"
          "Invite creation is rate-limited for this group and issuer"
          "Wait for the abuse-control window before issuing another invite" s
      else match group_invite now random request group_id s with
      | Err Panicked => None
      | Err (Rejected code message hint) => rejected "invite.rejected" code message hint s
      | Ok (descriptor, invite) =>
          '(abuse, allowed) ← allow_signaling_publish_take (st_abuse s)
            ("signaling:" +:+ local_user_id s +:+ ":" +:+ si_invite_id descriptor) now;
          let s := {| s with st_abuse := abuse |} in
          if negb allowed then
            rejected "signaling.rate_limited" "signaling_publish_rate_limited"
              "Signaling rendezvous publish/take is rate-limited for this invite"
              "Retry after the signaling abuse-control window" s
          else
            let group_name := from_option gv_name "group" (find_group group_id s) in
            Some {| d with
              da_invites := da_invites d ++ [invite];
              da_app := push_event "invite.created"
                ("Invite created for " +:+ redacted_observable_ref "group" group_name) s |}
      end
  end.

(** ** Joining *)

(** The group [join_group] adds: the joiner waits in a roster of its own. *)
Definition pending_group (now : datetime) (group_id name : string)
    (connectivity : ConnectivityPolicyView) (s : PersistedAppState) : GroupView :=
  let created_at := dt_to_rfc3339 now in
  let member_id := local_user_id s in
  let me := {| (initial_group_member member_id
                  (from_option up_display_name "Joining member" (st_profile s))
                  (dw_device_id <$> find_first dw_local (st_devices s)) RoleMember created_at)
               with gm_status := "pending"; gm_runtime_peer_id := None |} in
  {| gv_group_id := group_id;
     gv_name := name;
     gv_role := "pending";
     gv_channels := [];
     gv_channel_schema_epoch := 0;
     gv_members := [me];
     gv_role_policy := initial_group_role_policy AutomaticWhenAuthorizedOnline member_id created_at;
     gv_admission_requests := [];
     gv_governance_log := initial_group_governance_log group_id member_id RoleMember created_at
                            (st_next_sequence s);
     gv_runtime_peers := advertised_group_runtime_peers now [me] member_id;
     gv_connectivity := Some connectivity |}.

(** What a link does to a group that is already there. *)
Definition rewired_group (now : datetime) (member_id : string) (has_handle : bool)
    (connectivity : ConnectivityPolicyView) (g : GroupView) : GroupView :=
  {| g with gv_role := if has_handle then "member" else "pending";
            gv_runtime_peers := advertised_group_runtime_peers now (gv_members g) member_id;
            gv_connectivity := Some connectivity |}.

Definition install_group (now : datetime) (group_id name : string)
    (connectivity : ConnectivityPolicyView) (s : PersistedAppState) : PersistedAppState :=
  match find_group group_id s with
  | None => {| s with st_groups := st_groups s ++ [pending_group now group_id name connectivity s] |}
  | Some _ => update_group group_id
      (rewired_group now (local_user_id s) (has_openmls_handle s group_id) connectivity) s
  end.

(** A link of one's own invites opens its group; any other is read and used. *)
Definition use_group_link (engine : MlsEngine) (now : datetime) (request : JoinGroupRequest)
    (invite_code : string) (d : DeskApp) : DeskApp :=
  let s := da_app d in
  let rejected kind code message hint s :=
    {| d with da_app := push_command_error now kind "join_group" code message hint s |} in
  match find_first (λ invite, iv_code invite =s invite_code) (da_invites d) with
  | Some invite =>
      match validate_local_invite_usable invite now with
      | Err (Rejected code message hint) => rejected "invite.rejected" code message hint s
      | Err Panicked => d
      | Ok _ =>
          let group_name := from_option gv_name "group" (find_group (iv_group_id invite) s) in
          {| d with da_app := push_event "group.opened_from_invite"
               ("Opened " +:+ redacted_observable_ref "group" group_name +:+ " from local invite")
               (focus (group_context (iv_group_id invite)) s) |}
      end
  | None =>
      let usable :=
        let* parsed := require_some (parse_invite_metadata now invite_code) "invite_unparsable"
          "Invite code is not a valid signed Discrypt invite descriptor"
          "Request a fresh invite link from the group owner or staff" in
        check validate_parsed_invite_usable parsed now in
        let* group_id := require_some (pi_group_id parsed) "group_id_missing"
          "Signed group invite link is missing its group identifier"
          "Request a fresh invite link from the group owner or staff" in
        Ok (parsed, group_id) in
      match usable with
      | Err (Rejected code message hint) => rejected "invite.rejected" code message hint s
      | Err Panicked => d
      | Ok (parsed, group_id) =>
          let name := invite_group_name_from_metadata invite_code (jg_group_name request) (Some parsed) in
          let s := focus (group_context group_id)
                     (install_group now group_id name (pi_connectivity parsed) s) in
          match queue_openmls_admission_key_package engine group_id s with
          | (s, Err error) => rejected "mls.admission_request_failed"
              "openmls_admission_key_package_failed" error
              "Retry joining when the OpenMLS provider can create a member key package" s
          | (s, Ok _) =>
              {| d with
                 da_invites := da_invites d ++ [used_invite_view parsed invite_code group_id None
                   "Parsed production invite metadata; final admission still requires authorized MLS Welcome/add"];
                 da_app := push_event "group.admission_requested"
                   ("Requested admission to " +:+ redacted_observable_ref "group" name +:+ " via "
                    +:+ redacted_observable_ref "invite" invite_code) s |}
          end
      end
  end.

Definition join_group (engine : MlsEngine) (now : datetime) (request : JoinGroupRequest)
    (d : DeskApp) : option DeskApp :=
  let s := da_app d in
  let invite_code := normalize_label (jg_invite_code request) "manual invite" in
  let abuse_key := "consume:" +:+ local_user_id s +:+ ":" +:+ invite_code_fingerprint invite_code in
  let rejected kind code message hint s :=
    Some {| d with da_app := push_command_error now kind "join_group" code message hint s |} in
  '(abuse, allowed) ← allow_invite_consume (st_abuse s) abuse_key now;
  let s := {| s with st_abuse := abuse |} in
  if negb allowed then
    rejected "invite.rate_limited" "invite_consume_rate_limited"
      "Invite consumption is rate-limited for this profile and invite descriptor"
      "Wait for the abuse-control window before retrying this invite" s
  else
    '(s, allowed) ← (match parse_invite_metadata now invite_code with
      | Some _ => '(abuse, allowed) ← allow_admission_helper (st_abuse s) abuse_key now;
                  Some ({| s with st_abuse := abuse |}, allowed)
      | None => Some (s, true)
      end);
    if negb allowed then
      rejected "admission.rate_limited" "admission_helper_rate_limited"
        "Admission helper attempts are rate-limited before invite consumption"
        "Retry after the helper rate-limit window with a fresh authorized proof" s
    else Some (use_group_link engine now request invite_code {| d with da_app := s |}).

(** ** Direct messages *)

Definition dm_invite (now : datetime) (random : InviteRandom) (request : CreateDmInviteRequest)
    (dm : DirectConversationView) (s : PersistedAppState) : result InviteView GovError :=
  let c := default (dm_connectivity_policy (dc_dm_id dm) (dc_participant_id dm)) (dc_connectivity dm) in
  let* bootstrap := reject_with id (bootstrap_metadata_from_connectivity c)
    "invite_bootstrap_invalid" "Recreate the DM connectivity policy before issuing an invite" in
  let* _ := reject_with transport_error_text (ice_endpoint_policy_from_connectivity c)
    "invite_ice_policy_invalid" "Recreate the DM connectivity policy before issuing an invite" in
  let expires := normalize_label (cdi_expires request) "Invite expires and can be revoked" in
  let max_use := normalize_label (cdi_max_use request) "Max-use is enforced before DM acceptance" in
  let* expires_at := invite_expiry now expires in
  let max_uses := parse_max_uses max_use in
  let room_secret := as_bytes ("dm-contact-secret:" +:+ dc_dm_id dm +:+ ":" +:+ ir_invite_key random
                               +:+ ":" +:+ pretty (st_next_sequence s)) in
  let* signaling := reject_with id
    (invite_signaling_metadata_from_connectivity c "signed endpoint fingerprint; verify before DM accept")
    "invite_signaling_metadata_invalid" "Save a valid DM signaling profile before issuing an invite" in
  let descriptor :=
    match (issue_invite_with_bootstrap_metadata (ir_opaque random) room_secret expires_at max_uses
             signaling bootstrap (ir_issuer random) ∅).2 with
    | Ok descriptor => descriptor
    | Err _ => (issue_invite (ir_opaque random) room_secret expires_at max_uses (ir_issuer random) ∅).2
    end in
  let* code := reject_with id
    (production_invite_link descriptor (dt_to_rfc3339 expires_at) max_uses None)
    "invite_link_invalid" "Regenerate the DM invite after validating signaling and ICE metadata" in
  Ok (issued_invite_view c signaling descriptor "" (Some (dc_dm_id dm)) code expires
        (dt_to_rfc3339 expires_at) max_use
        "Final DM acceptance still requires a sealed reply rendezvous and verified contact identity; the link alone is insufficient").

Definition create_dm_invite (now : datetime) (random : InviteRandom)
    (request : CreateDmInviteRequest) (d : DeskApp) : option DeskApp :=
  let s := da_app d in
  let rejected kind code message hint s :=
    Some {| d with da_app := push_command_error now kind "create_dm_invite" code message hint s |} in
  let chosen := match cdi_dm_id request with
    | Some dm_id => Some dm_id
    | None => match context ← st_active_context s; ac_dm_id context with
              | Some dm_id => Some dm_id
              | None => dc_dm_id <$> head (st_dms s)
              end
    end in
  match chosen with
  | None => rejected "invite.rejected" "dm_not_found" "No DM contact exists for invite creation"
              "Start or select a DM before creating a contact invite" s
  | Some dm_id =>
      match find_first (λ dm, dc_dm_id dm =s dm_id) (st_dms s) with
      | None => rejected "invite.rejected" "dm_not_found" "Requested DM contact does not exist"
                  "Pick a contact from the DM list before creating an invite" s
      | Some dm =>
          '(abuse, allowed) ← allow_invite_create (st_abuse s)
            ("invite-dm:" +:+ local_user_id s +:+ ":" +:+ dc_dm_id dm) now;
          let s := {| s with st_abuse := abuse |} in
          if negb allowed then
            rejected "invite.rate_limited" "invite_create_rate_limited"
              "DM contact invite creation is rate-limited for this contact and issuer"
              "Wait for the abuse-control window before issuing another DM invite" s
          else match dm_invite now random request dm s with
          | Err Panicked => None
          | Err (Rejected code message hint) => rejected "invite.rejected" code message hint s
          | Ok invite =>
              Some {| d with
                da_invites := da_invites d ++ [invite];
                da_app := push_event "invite.dm_created"
                  ("DM contact invite created for "
                   +:+ redacted_observable_ref "dm_contact" (dc_display_name dm)) s |}
          end
      end
  end.

(** [core_app_snapshot().friend.alias] is the alias of a contact without a name. *)
Definition start_dm (friend_alias display_name : string) (d : DeskApp) : DeskApp :=
  let s := da_app d in
  let display_name := normalize_label display_name friend_alias in
  let dm_id := stable_id "dm" display_name (st_next_sequence s) in
  let s :=
    if existsb (λ dm, dc_display_name dm =s display_name) (st_dms s) then s
    else
      let participant_id := stable_id "participant" display_name (st_next_sequence s) in
      let c := apply_app_connectivity_defaults (dm_connectivity_policy dm_id participant_id)
                 (da_connectivity_defaults d) in
      let '(s, peer) := local_dm_runtime_peer s (cp_scope_id_commitment c) "inviter" in
      {| s with st_dms := st_dms s ++ [{|
           dc_dm_id := dm_id;
           dc_participant_id := participant_id;
           dc_display_name := display_name;
           dc_local_only_copy := "Local DM; remote delivery is not claimed until backend proof is available";
           dc_runtime_peers := [peer];
           dc_connectivity := Some c |}] |} in
  let active := from_option dc_dm_id dm_id
                  (find_first (λ dm, dc_display_name dm =s display_name) (st_dms s)) in
  {| d with da_app :=
       push_event "dm.started"
         ("Opened local DM " +:+ redacted_observable_ref "dm_contact" display_name)
         (focus (dm_context active) s) |}.

Definition accept_dm_invite (now : datetime) (request : AcceptDmInviteRequest) (d : DeskApp) :
    DeskApp :=
  let s := da_app d in
  let invite_code := normalize_label (adi_invite_code request) "manual DM invite" in
  let usable :=
    let* parsed := require_some (parse_invite_metadata now invite_code) "invite_parse_failed"
      "DM contact invite metadata could not be parsed"
      "Paste a signed DM contact invite descriptor before accepting" in
    check match find_first (λ invite, iv_code invite =s invite_code) (da_invites d) with
          | Some invite => validate_local_invite_usable invite now
          | None => validate_parsed_invite_usable parsed now
          end in
    check require (cp_invite_kind (pi_connectivity parsed) =s kind_name DmContact)
      "invite_kind_mismatch" "Invite is not a DM contact invite"
      "Use group join for group invites or request a DM contact invite" in
    Ok parsed in
  match usable with
  | Err (Rejected code message hint) =>
      {| d with da_app := push_command_error now "invite.rejected" "accept_dm_invite" code message hint s |}
  | Err Panicked => d
  | Ok parsed =>
      let c := pi_connectivity parsed in
      let scope := cp_scope_id_commitment c in
      let display_name := from_option (λ value, normalize_label value "DM contact") "DM contact"
                            (adi_display_name request) in
      let dm_id := stable_id "dm" (pi_invite_key parsed) (st_next_sequence s) in
      let s :=
        if existsb (in_scope scope) (st_dms s) then s
        else
          let '(s, peer) := local_dm_runtime_peer s scope "reply" in
          {| s with st_dms := st_dms s ++ [{|
               dc_dm_id := dm_id;
               dc_participant_id := hash_commitment "discrypt-accepted-dm-participant-id-v1" [scope];
               dc_display_name := display_name;
               dc_local_only_copy := "DM contact opened from signed invite metadata; remote delivery is not claimed until backend receipt proof";
               dc_runtime_peers := [peer];
               dc_connectivity := Some c |}] |} in
      let active := from_option dc_dm_id dm_id (find_first (in_scope scope) (st_dms s)) in
      {| d with
         da_invites := da_invites d ++ [used_invite_view parsed invite_code "" (Some active)
           "Parsed DM contact invite metadata; final acceptance still requires sealed reply rendezvous/contact verification"];
         da_app := push_event "dm.invite_accepted"
           ("Opened DM contact " +:+ redacted_observable_ref "dm_contact" display_name)
           (focus (dm_context active) s) |}
  end.

(** ** Channels *)

Definition normalize_channel_name (value : string) (kind : ChannelKind) : string :=
  let trimmed := normalize_label (string_of_bytes (trim_start_hashes (as_bytes value))) "secure-room" in
  match kind with TextChannel => "#" +:+ trimmed | VoiceChannel => trimmed end.

(** The group, once the local member may change its channels. *)
Definition channel_command_group (group_id signer : string) (s : PersistedAppState) :
    result GroupView GovError :=
  let* group := require_some (find_group group_id s) "group_not_found"
    "No matching group for channel creation"
    "Select an existing group before adding a text or voice channel" in
  check require (from_option can_manage_members false (local_role_for_group group (local_user_id s)))
    "staff_required" "Only owner or staff can create group channels"
    "Ask an owner/staff member to create the channel" in
  check require (opt_str_eqb (m ← find_first (is_member (local_user_id s)) (gv_members group);
                              gm_signer_public_key_hex m) (Some signer))
    "actor_signer_mismatch" "Owner/staff roster signer does not match this local profile"
    "Refresh group admission state before changing the channel schema" in
  Ok group.

Definition push_channel (channel : ChannelStateView) (g : GroupView) : GroupView :=
  {| g with gv_channels := gv_channels g ++ [channel];
            gv_channel_schema_epoch := N.max (sat_add u64_max (gv_channel_schema_epoch g) 1) 2 |}.

Definition restore_channels (before g : GroupView) : GroupView :=
  {| g with gv_channels := gv_channels before;
            gv_channel_schema_epoch := gv_channel_schema_epoch before |}.

Definition new_channel (now : datetime) (request : CreateChannelRequest) (name : string)
    (s : PersistedAppState) : ChannelStateView := {|
  ch_channel_id := "channel-" +:+ text_prefix 24 (hash_commitment "discrypt-group-channel-id-v1"
    [cc_group_id request; local_user_id s; name; dt_to_rfc3339 now; pretty (st_next_sequence s)]);
  ch_name := name;
  ch_kind := cc_kind request;
  ch_retention_status := normalize_label (cc_retention_status request) "7 days";
  ch_connectivity := None
|}.

Definition schema_event_id (group_id : string) (channel : ChannelStateView)
    (s : PersistedAppState) : string :=
  governance_event_id group_id "channel.schema_updated" (ch_channel_id channel) (st_next_sequence s).

(** Add the channel, sign and queue the schema; take the channel back when either fails. *)
Definition publish_channel (now : datetime) (group_id : string) (group : GroupView)
    (channel : ChannelStateView) (s : PersistedAppState) : PersistedAppState :=
  let rejected code message hint s :=
    push_command_error now "channel.rejected" "create_channel" code message hint
      (update_group group_id (restore_channels group) s) in
  let created_at := dt_to_rfc3339 now in
  let event_id := schema_event_id group_id channel s in
  match signed_group_channel_schema_snapshot group_id created_at
          (update_group group_id (push_channel channel) s) with
  | (s, Err error) => rejected "channel_schema_sign_failed" error
      "Retry with an admitted owner/staff profile whose roster signer is current" s
  | (s, Ok snapshot) =>
      match queue_group_governance_frame group_id event_id
              (GroupChannelSchemaUpdated group_id event_id snapshot) s with
      | (s, Err error) => rejected "governance_frame_queue_failed" error
          "Retry after text/control channel schema serialization is available" s
      | (s, Ok _) =>
          push_event "channel.created"
            ("Created channel " +:+ redacted_observable_ref "channel" (ch_name channel)
             +:+ " and queued authority replication")
            (focus (channel_context (ch_kind channel) group_id (ch_channel_id channel))
              (update_group group_id (log_governance (governance_log_entry event_id group_id
                 "channel.schema_updated" (local_user_id s) None None None created_at
                 "Created a channel and published the signed channel schema")) s))
      end
  end.

Definition create_channel (now : datetime) (request : CreateChannelRequest)
    (s : PersistedAppState) : PersistedAppState :=
  let group_id := cc_group_id request in
  let '(s, key) := match find_group group_id s with
                   | Some _ => prod_map id public_key_hex (identity_signing_key s)
                   | None => (s, ""%string)
                   end in
  match channel_command_group group_id key s with
  | Err (Rejected code message hint) =>
      push_command_error now "channel.rejected" "create_channel" code message hint s
  | Err Panicked => s
  | Ok group =>
      let name := normalize_channel_name (cc_name request) (cc_kind request) in
      match find_first (λ c, bool_decide (ch_kind c = cc_kind request) && (ch_name c =s name))
              (gv_channels group) with
      | Some channel => focus (channel_context (ch_kind channel) group_id (ch_channel_id channel)) s
      | None => publish_channel now group_id group (new_channel now request name s) s
      end
  end.
End opening.

(** ** What an issued descriptor contains *)

Section issued.
Context `{Sha256, Ed25519, Hex, HmacSha1, Base64, Aes256Gcm, Chrono, !Rfc3339, !SigningSeed,
  !FrameJson, !ErrorTexts, !AppEnvironment, !InviteJson, !GroupFounder}.

Definition open_servers (p : IceEndpointPolicy) : Prop :=
  Forall (λ t, credentials_declared t = false) (ip_turn_servers p).

Definition config_of (p : IceEndpointPolicy) : IceServerConfig :=
  {| is_stun_servers := ip_stun_servers p; is_turn_servers := ip_turn_servers p |}.

(** Servers without credentials never expire. *)
Lemma resolve_open_servers p now :
  ice_validate p = Ok tt → open_servers p → ice_resolve_at (Some p) None now = Ok (config_of p).
Proof.
  intros Hp Hopen. unfold ice_resolve_at, ice_resolve, ice_server_new, ice_new, override.
  cbn [default from_option]. destruct p as [stun turn]. cbn [ip_stun_servers ip_turn_servers id].
  rewrite Hp. cbn [rbind]. unfold server_validate_credentials_at. cbn [is_turn_servers].
  rewrite (proj2 (each_ok _ _)); [done|].
  unfold ice_validate in Hp. apply check_ok in Hp as [_ Hp]. apply check_ok in Hp as [_ Hp].
  apply each_ok in Hp. unfold open_servers in Hopen. rewrite Forall_forall in *. intros t Ht.
  unfold turn_validate_credentials_at, credential_mode_at. rewrite (Hp t Ht), (Hopen t Ht). done.
Qed.

Lemma signed_ice_open c p :
  signed_ice_endpoint_policy_from_connectivity c = Some p → open_servers p.
Proof.
  unfold signed_ice_endpoint_policy_from_connectivity, ice_new. intros Hp.
  destruct (ice_validate _) as [[]|]; [|done]. injection Hp as <-. unfold open_servers.
  cbn [ip_turn_servers]. apply Forall_fmap, Forall_forall. done.
Qed.

(** The signalling part of an invite is valid, and its servers have no credentials. *)
Definition signable (m : InviteSignalingMetadata) : Prop :=
  signaling_validate m = Ok tt ∧ open_servers (ice_endpoint_policy m).

Lemma first_signable_ok c status candidates last_error m :
  first_signable c status candidates last_error = Ok m → signable m.
Proof.
  revert last_error. induction candidates as [|[endpoint fingerprint] rest IH]; intros last_error;
    [done|]. cbn [first_signable]. destruct (rbind _ _) as [m'|e] eqn:E; [|apply IH].
  intros [= ->]. apply rbind_ok in E as (trust & _ & E). apply rbind_ok in E as (m0 & Hm0 & E).
  unfold signaling_new in Hm0. apply check_ok in Hm0 as [Hv [= <-]].
  destruct (signed_ice_endpoint_policy_from_connectivity c) as [p|] eqn:Hp.
  - unfold with_ice_endpoint_policy in E. apply check_ok in E as [_ E]. apply check_ok in E as [Hv' [= <-]].
    split; [exact Hv'|]. by eapply signed_ice_open.
  - injection E as <-. split; [exact Hv|constructor].
Qed.

Lemma signaling_metadata_signable c status m :
  invite_signaling_metadata_from_connectivity c status = Ok m → signable m.
Proof. apply first_signable_ok. Qed.

Lemma signable_ice_valid m : signable m → ice_validate (ice_endpoint_policy m) = Ok tt.
Proof.
  intros [Hv _]. unfold signaling_validate in Hv. apply check_ok in Hv as [_ Hv].
  apply check_ok in Hv as [_ Hv]. apply check_ok in Hv as [_ Hv]. by apply map_err_ok in Hv.
Qed.

Lemma bootstrap_valid c m : bootstrap_metadata_from_connectivity c = Ok m → bootstrap_validate m = Ok tt.
Proof.
  unfold bootstrap_metadata_from_connectivity, dm_contact, group_join. case_match; intros Hm;
    apply rbind_ok in Hm as (b & _ & Hm); apply map_err_ok, check_ok in Hm as [Hv [= <-]]; exact Hv.
Qed.

(** A descriptor signed over valid parts can be read at any time. *)
Lemma signed_config `{!Ed25519Laws} input k now :
  signable (in_signaling_metadata input) →
  opt_validate bootstrap_validate (in_bootstrap_metadata input) = Ok tt →
  opt_validate snapshot_validate (in_admission_snapshot input) = Ok tt →
  revocation_validate (in_revocation_policy input) = Ok tt →
  opt_validate password_policy_validate (in_password_policy input) = Ok tt →
  ice_server_config_at (invite_sign input k) None now =
  Ok (config_of (ice_endpoint_policy (in_signaling_metadata input))).
Proof.
  intros Hsig Hb Hs Hr Hp. unfold ice_server_config_at. rewrite signed_invite_verifies.
  destruct (Hsig) as [-> Hopen]. cbn [rbind]. rewrite Hb, Hs, Hr, Hp. cbn [rbind].
  change (signaling_metadata (invite_sign input k)) with (in_signaling_metadata input).
  rewrite resolve_open_servers; [done|by apply signable_ice_valid|done].
Qed.

(** A descriptor that was just issued for this scope. *)
Record fresh_descriptor (i : StoredInvite) (m : InviteBootstrapMetadata) (expires_at : datetime) :
    Prop := {
  fd_bootstrap : bootstrap_metadata i = Some m;
  fd_plain : plain_id i;
  fd_expires : si_expires_at i = expires_at;
  fd_uses : 1 ≤ si_max_uses i;
  fd_unused : consumed_uses i = 0;
  fd_live : invite_is_revoked i = false;
  fd_config now : ∃ config, ice_server_config_at i None now = Ok config
}.

Lemma opaque_id_plain `{!HexLaws} random :
  Forall (λ x, is_ascii_hexdigit x = true) (as_bytes (opaque_invite_id random)).
Proof.
  apply Forall_forall. intros x Hx%hex_encode_digits.
  unfold is_ascii_hexdigit, is_ascii_digit. rewrite !orb_true_iff, !andb_true_iff, !N.leb_le. lia.
Qed.

Lemma signed_descriptor_fresh `{!Ed25519Laws, !HexLaws} input k random m :
  in_invite_id input = opaque_invite_id random → in_bootstrap_metadata input = Some m →
  1 ≤ in_max_uses input →
  signable (in_signaling_metadata input) → bootstrap_validate m = Ok tt →
  opt_validate snapshot_validate (in_admission_snapshot input) = Ok tt →
  revocation_validate (in_revocation_policy input) = Ok tt →
  opt_validate password_policy_validate (in_password_policy input) = Ok tt →
  fresh_descriptor (invite_sign input k) m (in_expires_at input).
Proof.
  intros Hid Hm Hmax Hsig Hb Hs Hr Hp. split; try done.
  - unfold plain_id. change (si_invite_id (invite_sign input k)) with (in_invite_id input).
    rewrite Hid. apply opaque_id_plain.
  - intros now. eexists. apply signed_config; try done. by rewrite Hm.
Qed.

(** What a row kept by the issuer promises about its link. *)
Record issued_row (i : InviteView) (c : ConnectivityPolicyView) (group_id : option string)
    (expires_at : datetime) : Prop := {
  is_row : ∃ descriptor m text max_uses,
    fresh_descriptor descriptor m expires_at ∧ bootstrap_metadata_from_connectivity c = Ok m ∧
    production_invite_link descriptor text max_uses group_id = Ok (iv_code i);
  is_unused : iv_uses i = 0;
  is_live : iv_revoked i = false
}.

Lemma reject_with_ok {A E} (text : E → string) (m : result A E) code hint x :
  reject_with text m code hint = Ok x ↔ m = Ok x.
Proof. apply map_err_ok. Qed.

Lemma group_invite_row `{!Ed25519Laws, !HexLaws} now random request group_id s descriptor i :
  group_invite now random request group_id s = Ok (descriptor, i) →
  ∃ expires_at,
    invite_expiry now (normalize_label (ci_expires request) "Invite expires and can be revoked")
      = Ok expires_at ∧
    iv_group_id i = group_id ∧
    issued_row i (default (group_connectivity_policy group_id)
                    (g ← find_group group_id s; gv_connectivity g)) (Some group_id) expires_at.
Proof.
  unfold group_invite. intros R.
  apply rbind_ok in R as (m & Hm%reject_with_ok & R). apply rbind_ok in R as (? & _ & R).
  apply rbind_ok in R as (expires_at & Hexp & R).
  apply rbind_ok in R as (signaling & Hsig%reject_with_ok & R).
  apply rbind_ok in R as (snapshot & Hsnap%reject_with_ok & R).
  apply rbind_ok in R as (revocation & Hrev%reject_with_ok & R).
  apply rbind_ok in R as (password & Hpw & R).
  apply rbind_ok in R as (i0 & Hi%reject_with_ok & R).
  apply rbind_ok in R as (code & Hcode%reject_with_ok & [= -> <-]).
  exists expires_at. split; [done|]. split; [done|].
  assert (opt_validate password_policy_validate password = Ok tt) as Hpv.
  { destruct (from_option _ _ (ci_password_gate request)); [|by injection Hpw as <-].
    apply reject_with_ok, rbind_ok in Hpw as (p & Hp & [= <-]).
    unfold online_helper in Hp. by apply check_ok in Hp as [Hv [= <-]]. }
  unfold snapshot_new in Hsnap. apply check_ok in Hsnap as [Hsv [= <-]].
  unfold revocation_new in Hrev. apply check_ok in Hrev as [Hrv [= <-]].
  split; [|done..]. exists descriptor, m. do 2 eexists. split; [|split; [exact Hm|exact Hcode]].
  unfold issue_canonical_group_invite_v1, issue_checked in Hi.
  destruct (canonical_guard _) as [[]|]; [|done]. injection Hi as <-.
  eapply signed_descriptor_fresh; try done.
  - cbn. lia.
  - by eapply signaling_metadata_signable.
  - by eapply bootstrap_valid.
Qed.
End issued.

(** ** A link reaches its conversation *)

Section reaching.
Context `{Sha256, Ed25519, Hex, HmacSha1, Base64, Aes256Gcm, Chrono, !Rfc3339, !SigningSeed,
  !FrameJson, !ErrorTexts, !AppEnvironment, !InviteJson, !GroupFounder}.
Context `{!Ed25519Laws, !HexLaws, !Base64Laws, !UrlSafeLaws, !Rfc3339Laws, !InviteJsonLaws}.

(** The same policy, up to ICE servers and label. *)
Definition same_rendezvous (c c' : ConnectivityPolicyView) : Prop :=
  ∃ stun turn label, c' = {| c with cp_ice_stun_servers := stun; cp_ice_turn_servers := turn;
                                    cp_privacy_label := label |}.

Lemma link_trimmed descriptor text max_uses group_id link fallback :
  production_invite_link descriptor text max_uses group_id = Ok link → plain_id descriptor →
  normalize_label link fallback = link.
Proof.
  intros (payload & _ & ->)%link_shape Hid. unfold normalize_label. rewrite trim_printable.
  - unfold link_prefix. done.
  - rewrite !as_bytes_app, !Forall_app. split_and!.
    + eapply Forall_impl; [by apply link_prefix_plain|]. by intros x [].
    + repeat constructor; discriminate.
    + apply link_query_printable.
Qed.

Lemma row_normal i c group_id expires_at fallback :
  issued_row i c group_id expires_at → normalize_label (iv_code i) fallback = iv_code i.
Proof. intros [(descriptor & m & text & max_uses & Hf & _ & Hlink) _ _]. eapply link_trimmed; [done|apply Hf]. Qed.

(** A link that was issued is read as the issuer meant it, until it expires. *)
Lemma row_parses i c group_id expires_at now :
  issued_row i c group_id expires_at → wire_policy c →
  from_option (λ g, valid_utf8 (as_bytes g) = true) True group_id →
  four_digit_year expires_at → dt_lt expires_at now = false →
  ∃ p, parse_invite_metadata now (iv_code i) = Some p ∧ pi_group_id p = group_id ∧
       same_rendezvous c (pi_connectivity p) ∧ validate_parsed_invite_usable p now = Ok tt.
Proof.
  intros [(descriptor & m & text & max_uses & Hf & Hm & Hlink) _ _] Hwire Hgid Hyear Hlive.
  destruct (fd_config _ _ _ Hf now) as [config Hconfig].
  destruct (invite_link_round_trip _ _ _ _ _ now config m Hlink) as
    (p & Hp & _ & Hid & Hc & Hexp & Hmax & Hused & Hrev); try done; [apply Hf..|].
  exists p. split; [done|]. split; [done|]. split.
  - rewrite Hc. rewrite (policy_survives_the_invite c m) by done. by eexists _, _, _.
  - unfold validate_parsed_invite_usable. rewrite Hrev, (fd_live _ _ _ Hf). cbn [reject_if rbind].
    rewrite Hexp, (fd_expires _ _ _ Hf). destruct (dt_parse_to_rfc3339 _ Hyear) as (b & -> & Hb).
    cbn [require_some ok_or rbind]. unfold dt_lt in *. rewrite Hb, Hlive. cbn [reject_if rbind].
    rewrite Hmax, Hused, (fd_unused _ _ _ Hf). pose proof (fd_uses _ _ _ Hf).
    by rewrite (proj2 (N.leb_gt _ _)) by lia.
Qed.

(** Reading the signing key changes nothing but a broken seed. *)
Lemma identity_key_frame s :
  ∃ seed, (identity_signing_key s).1 = {| s with st_identity_seed_hex := seed |}.
Proof.
  unfold identity_signing_key, identity_seed_bytes. cbv zeta. cbn [fst]. case_match.
  - exists (st_identity_seed_hex s). by destruct s.
  - by eexists.
Qed.

(** The request for admission waits in the outbox. *)
Definition requests_admission (engine : MlsEngine) (group_id : string) (signer key_package : bytes)
    (s : PersistedAppState) : Prop :=
  ∃ record identity_key, record ∈ st_text_control_outbox s ∧
    ob_frame record = OpenMlsAdmissionKeyPackage group_id (local_user_id s) (hex_encode signer)
                        identity_key key_package.

Lemma key_package_queued engine group_id signer key_package s :
  has_openmls_handle s group_id = false →
  me_generate_member_package engine (local_user_id s) = Ok (signer, key_package) →
  (∀ frame, is_ok (text_control_frame_sha256 frame) = true) →
  existsb (has_message_id (stable_id "openmls-admission-request" group_id (st_next_sequence s)))
    (st_text_control_outbox s) = false →
  ∃ s', queue_openmls_admission_key_package engine group_id s = (s', Ok tt) ∧
    st_groups s' = st_groups s ∧ requests_admission engine group_id signer key_package s'.
Proof.
  intros Hh Hkp Hjson Hnew. unfold queue_openmls_admission_key_package. rewrite Hh, Hkp.
  destruct (identity_key_frame s) as [seed Hs]. destruct (identity_signing_key s) as [s0 k].
  cbn [fst] in Hs. subst s0.
  set (frame := OpenMlsAdmissionKeyPackage _ _ _ _ _).
  pose proof (Hjson frame) as Hf. destruct (text_control_frame_sha256 frame) as [sha|]; [|done].
  cbn [st_next_sequence st_text_control_outbox]. rewrite Hnew.
  eexists. split; [done|]. split; [done|].
  eexists (pending_outbox_record _ _ frame sha), _. split; [|reflexivity].
  cbn. apply elem_of_app. right. by left.
Qed.

Lemma create_invite_row now random request d d' i :
  create_invite now random request d = Some d' → da_invites d' = da_invites d ++ [i] →
  ∃ expires_at,
    invite_expiry now (normalize_label (ci_expires request) "Invite expires and can be revoked")
      = Ok expires_at ∧
    issued_row i (default (group_connectivity_policy (iv_group_id i))
                    (g ← find_group (iv_group_id i) (da_app d); gv_connectivity g))
      (Some (iv_group_id i)) expires_at.
Proof.
  unfold create_invite. intros R Hi.
  assert (da_invites d ≠ da_invites d ++ [i]) as Hne.
  { intros Heq%(f_equal length). rewrite length_app in Heq. simpl in Heq. lia. }
  case_match eqn:Hchosen; [|injection R as <-; done].
  apply bind_Some in R as ([abuse allowed] & Hallow & R).
  destruct allowed; cbn [negb] in R; [|injection R as <-; done].
  destruct (group_invite _ _ _ _ _) as [[descriptor i']|[|code message hint]] eqn:Hg;
    [|done|injection R as <-; done].
  apply bind_Some in R as ([abuse' allowed'] & Hallow' & R).
  destruct allowed'; cbn [negb] in R; injection R as <-; [|done].
  cbn [da_invites] in Hi. apply app_inv_head in Hi as [= ->].
  apply group_invite_row in Hg as (expires_at & Hexp & Hid & Hrow). subst.
  exists expires_at. split; [done|]. exact Hrow.
Qed.

(** C8. Joining by invite works end to end: when a member issues an invite for a group, whoever
    uses the link before it expires and is not stopped by the local limits has the group with the
    issuer's rendezvous (scope, signalling profiles and bootstrap commitments), marked pending, and
    a request for admission to it waiting in the outbox. *)
Theorem invited_member_reaches_the_group now random request d d' i g c expires_at
    engine now' name e abuse1 abuse2 signer key_package :
  let gid := iv_group_id i in
  let key := "consume:" +:+ local_user_id (da_app e) +:+ ":" +:+ invite_code_fingerprint (iv_code i) in
  create_invite now random request d = Some d' → da_invites d' = da_invites d ++ [i] →
  find_group gid (da_app d) = Some g → gv_connectivity g = Some c → wire_policy c →
  valid_utf8 (as_bytes gid) = true →
  invite_expiry now (normalize_label (ci_expires request) "Invite expires and can be revoked")
    = Ok expires_at →
  four_digit_year expires_at → dt_lt expires_at now' = false →
  find_first (λ j, iv_code j =s iv_code i) (da_invites e) = None →
  find_group gid (da_app e) = None → has_openmls_handle (da_app e) gid = false →
  allow_invite_consume (st_abuse (da_app e)) key now' = Some (abuse1, true) →
  allow_admission_helper abuse1 key now' = Some (abuse2, true) →
  me_generate_member_package engine (local_user_id (da_app e)) = Ok (signer, key_package) →
  (∀ frame, is_ok (text_control_frame_sha256 frame) = true) →
  existsb (has_message_id (stable_id "openmls-admission-request" gid (st_next_sequence (da_app e))))
    (st_text_control_outbox (da_app e)) = false →
  ∃ e' h c',
    join_group engine now' {| jg_invite_code := iv_code i; jg_group_name := name |} e = Some e' ∧
    find_group gid (da_app e') = Some h ∧ gv_role h = "pending"%string ∧
    gv_connectivity h = Some c' ∧ same_rendezvous c c' ∧
    requests_admission engine gid signer key_package (da_app e').
Proof.
  intros gid key Hissue Hi Hg Hc Hwire Hutf Hexp Hyear Hlive Hcode Hnone Hh Ha1 Ha2 Hkp Hjson Hnew.
  destruct (create_invite_row _ _ _ _ _ _ Hissue Hi) as (expires' & Hexp' & Hrow).
  assert (expires' = expires_at) as -> by congruence. fold gid in Hrow. rewrite Hg in Hrow.
  cbn [mbind option_bind] in Hrow. rewrite Hc in Hrow. cbn [default from_option] in Hrow.
  destruct (row_parses _ _ _ _ now' Hrow Hwire Hutf Hyear Hlive) as (p & Hp & Hgid & Hsame & Husable).
  unfold join_group. cbn [jg_invite_code]. rewrite (row_normal _ _ _ _ _ Hrow).
  fold key. rewrite Ha1. cbn [mbind option_bind negb st_abuse]. rewrite Hp.
  cbn [mbind option_bind st_abuse]. rewrite Ha2. cbn [mbind option_bind negb].
  unfold use_group_link. cbn [da_invites da_app]. rewrite Hcode, Hp.
  cbn [require_some ok_or rbind]. rewrite Husable. cbn [rbind]. rewrite Hgid.
  cbn [require_some ok_or rbind]. unfold install_group.
  match goal with |- context [find_group gid ?s] =>
    change (find_group gid s) with (find_group gid (da_app e)) end. rewrite Hnone.
  set (s1 := focus _ _).
  destruct (key_package_queued engine gid signer key_package s1) as (s2 & -> & Hgroups & Hreq);
    [done..|].
  eexists _, _, _. split; [done|]. cbn [da_app]. rewrite find_group_push_event. split.
  { unfold find_group. rewrite Hgroups. apply find_first_app_new; [exact Hnone|].
    unfold is_group. cbn. apply str_eqb_refl. }
  split; [done|]. split; [done|]. split; [done|]. exact Hreq.
Qed.

(** A link is not tied to the group it names: any descriptor, whoever signed it, with the
    identifier of an installed group in its query replaces that group's rendezvous by its own, and
    an owner's own role in the group by that of a member. *)
Theorem any_link_rewires_the_group i c gid expires_at engine now request d g :
  issued_row i c (Some gid) expires_at → wire_policy c → valid_utf8 (as_bytes gid) = true →
  four_digit_year expires_at → dt_lt expires_at now = false →
  find_first (λ j, iv_code j =s iv_code i) (da_invites d) = None →
  find_group gid (da_app d) = Some g → has_openmls_handle (da_app d) gid = true →
  ∃ h c', find_group gid (da_app (use_group_link engine now request (iv_code i) d)) = Some h ∧
    gv_members h = gv_members g ∧ gv_role h = "member"%string ∧
    gv_connectivity h = Some c' ∧ same_rendezvous c c'.
Proof.
  intros Hrow Hwire Hutf Hyear Hlive Hcode Hg Hh.
  destruct (row_parses _ _ _ _ now Hrow Hwire Hutf Hyear Hlive) as (p & Hp & Hgid & Hsame & Husable).
  unfold use_group_link. rewrite Hcode, Hp. cbn [require_some ok_or rbind]. rewrite Husable.
  cbn [rbind]. rewrite Hgid. cbn [require_some ok_or rbind]. unfold install_group. rewrite Hg.
  set (s1 := focus _ _). unfold queue_openmls_admission_key_package.
  change (has_openmls_handle s1 gid) with (has_openmls_handle (da_app d) gid). rewrite Hh.
  cbn [da_app]. rewrite find_group_push_event. subst s1.
  exists (rewired_group now (local_user_id (da_app d)) true (pi_connectivity p) g), (pi_connectivity p).
  split; [|done]. change (find_group gid (focus ?x ?y)) with (find_group gid y).
  rewrite find_update_group by done. by rewrite Hg, Hh.
Qed.

(** ** Direct messages *)

Lemma hash_is_fingerprint `{!Sha256Laws} b : is_hex_fingerprint (hex_encode (sha256 b)) = true.
Proof.
  unfold is_hex_fingerprint, str_len. rewrite hex_encode_length, sha256_length. apply andb_true_iff.
  split; [done|]. apply forallb_forall. intros x Hx%list_elem_of_In%hex_encode_digits.
  unfold is_ascii_hexdigit, is_ascii_digit. rewrite !orb_true_iff, !andb_true_iff, !N.leb_le. lia.
Qed.

Lemma default_revocation_valid `{!Sha256Laws} : revocation_validate revocation_default_open = Ok tt.
Proof.
  unfold revocation_validate, revocation_default_open. cbn [revocable revocation_authority_commitment expiry_enforced max_use_enforced].
  by rewrite hash_is_fingerprint.
Qed.

(** The descriptor of a contact invite always carries its bootstrap data: the plain descriptor the
    code falls back to is never needed. *)
Lemma dm_invite_row `{!Sha256Laws} now random request dm s i :
  dm_invite now random request dm s = Ok i →
  ∃ expires_at,
    invite_expiry now (normalize_label (cdi_expires request) "Invite expires and can be revoked")
      = Ok expires_at ∧
    iv_dm_id i = Some (dc_dm_id dm) ∧
    issued_row i (default (dm_connectivity_policy (dc_dm_id dm) (dc_participant_id dm))
                    (dc_connectivity dm)) None expires_at.
Proof.
  unfold dm_invite. intros R.
  apply rbind_ok in R as (m & Hm%reject_with_ok & R). apply rbind_ok in R as (? & _ & R).
  apply rbind_ok in R as (expires_at & Hexp & R).
  apply rbind_ok in R as (signaling & Hsig%reject_with_ok & R).
  apply rbind_ok in R as (code & Hcode%reject_with_ok & [= <-]).
  exists expires_at. split; [done|]. split; [done|]. split; [|done..].
  unfold issue_invite_with_bootstrap_metadata, issue_checked in Hcode.
  pose proof (signaling_metadata_signable _ _ _ Hsig) as Hs. pose proof (bootstrap_valid _ _ Hm) as Hb.
  rewrite (proj1 Hs) in Hcode. cbn [rbind] in Hcode. rewrite Hb in Hcode.
  do 4 eexists. split; [|split; [exact Hm|exact Hcode]].
  eapply signed_descriptor_fresh; try done; [cbn; lia|apply default_revocation_valid].
Qed.

Lemma create_dm_invite_row `{!Sha256Laws} now random request d d' i :
  create_dm_invite now random request d = Some d' → da_invites d' = da_invites d ++ [i] →
  ∃ dm expires_at, dm ∈ st_dms (da_app d) ∧ iv_dm_id i = Some (dc_dm_id dm) ∧
    find_first (λ x, dc_dm_id x =s dc_dm_id dm) (st_dms (da_app d)) = Some dm ∧
    invite_expiry now (normalize_label (cdi_expires request) "Invite expires and can be revoked")
      = Ok expires_at ∧
    issued_row i (default (dm_connectivity_policy (dc_dm_id dm) (dc_participant_id dm))
                    (dc_connectivity dm)) None expires_at.
Proof.
  unfold create_dm_invite. intros R Hi.
  assert (da_invites d ≠ da_invites d ++ [i]) as Hne.
  { intros Heq%(f_equal length). rewrite length_app in Heq. simpl in Heq. lia. }
  case_match eqn:Hchosen; [|injection R as <-; done].
  destruct (find_first _ (st_dms (da_app d))) as [dm|] eqn:Hdm; [|injection R as <-; done].
  apply bind_Some in R as ([abuse allowed] & Hallow & R).
  destruct allowed; cbn [negb] in R; [|injection R as <-; done].
  destruct (dm_invite _ _ _ _ _) as [i'|[|code message hint]] eqn:Hd;
    [|done|injection R as <-; done].
  injection R as <-. cbn [da_invites] in Hi. apply app_inv_head in Hi as [= ->].
  apply dm_invite_row in Hd as (expires_at & Hexp & Hid & Hrow).
  destruct (find_first_some _ _ _ Hdm) as [Hin Heq%str_eqb_true]. subst.
  exists dm, expires_at. split_and!; try done.
Qed.

(** A contact invite opens the same conversation at both ends: when the invite was issued for
    a direct message, whoever accepts the link before it expires, and has no conversation in that
    scope, gets one with the issuer's scope, signalling profiles and bootstrap commitments, in which
    the acceptor replies; the conversation is shown and the invite kept. *)
Theorem contact_invite_opens_the_scope `{!Sha256Laws} now random request d d' i dm_id dm c expires_at now' name e :
  create_dm_invite now random request d = Some d' → da_invites d' = da_invites d ++ [i] →
  iv_dm_id i = Some dm_id → find_first (λ x, dc_dm_id x =s dm_id) (st_dms (da_app d)) = Some dm →
  dc_connectivity dm = Some c → wire_policy c → cp_invite_kind c = kind_name DmContact →
  invite_expiry now (normalize_label (cdi_expires request) "Invite expires and can be revoked")
    = Ok expires_at →
  four_digit_year expires_at → dt_lt expires_at now' = false →
  find_first (λ j, iv_code j =s iv_code i) (da_invites e) = None →
  existsb (in_scope (cp_scope_id_commitment c)) (st_dms (da_app e)) = false →
  let e' := accept_dm_invite now' {| adi_invite_code := iv_code i; adi_display_name := name |} e in
  ∃ dm' c' peer, st_dms (da_app e') = st_dms (da_app e) ++ [dm'] ∧
    dc_connectivity dm' = Some c' ∧ same_rendezvous c c' ∧
    dc_runtime_peers dm' = [peer] ∧ dp_role peer = "reply"%string ∧ dp_is_local peer = true ∧
    st_active_context (da_app e') = Some (dm_context (dc_dm_id dm')) ∧
    iv_code <$> last (da_invites e') = Some (iv_code i).
Proof.
  intros Hissue Hi Hid Hdm Hc Hwire Hkind Hexp Hyear Hlive Hcode Hnone.
  destruct (create_dm_invite_row _ _ _ _ _ _ Hissue Hi) as (dm0 & expires' & _ & Hid' & Hdm' & Hexp' & Hrow).
  assert (dm_id = dc_dm_id dm0) as -> by congruence. assert (dm0 = dm) as -> by congruence.
  assert (expires' = expires_at) as -> by congruence. rewrite Hc in Hrow. cbn [default from_option id] in Hrow.
  destruct (row_parses _ _ _ _ now' Hrow Hwire I Hyear Hlive) as (p & Hp & _ & Hsame & Husable).
  assert (cp_scope_id_commitment (pi_connectivity p) = cp_scope_id_commitment c
          ∧ cp_invite_kind (pi_connectivity p) = cp_invite_kind c) as [Hscope Hk].
  { by destruct Hsame as (stun & turn & label & ->). }
  cbv zeta. unfold accept_dm_invite. cbn [adi_invite_code adi_display_name].
  rewrite (row_normal _ _ _ _ _ Hrow), Hp. cbn [require_some ok_or rbind].
  rewrite Hcode, Husable. cbn [rbind]. rewrite Hk, Hkind, str_eqb_refl. cbn [require rbind].
  rewrite Hscope, Hnone. unfold local_dm_runtime_peer.
  destruct (identity_key_frame (da_app e)) as [seed Hs]. destruct (identity_signing_key (da_app e)) as [s0 k].
  cbn [fst] in Hs. subst s0. cbn [st_dms].
  apply find_first_none in Hnone.
  rewrite (find_first_app_new (in_scope (cp_scope_id_commitment c)));
    [|exact Hnone|unfold in_scope; cbn; rewrite Hscope; apply str_eqb_refl].
  eexists _, _, _. split; [reflexivity|]. split_and!; try done. cbn [da_invites].
  by rewrite last_snoc.
Qed.
End reaching.

(** ** Groups and channels *)

Section founding.
Context `{Sha256, Ed25519, Hex, HmacSha1, Base64, Aes256Gcm, Chrono, !Rfc3339, !SigningSeed,
  !FrameJson, !ErrorTexts, !AppEnvironment, !InviteJson, !GroupFounder}.

Lemma retargeted_wire scope profiles : Forall wire_profile (retarget_signaling_profiles scope profiles).
Proof.
  unfold retarget_signaling_profiles.
  destruct (omap _ profiles) as [|p rest] eqn:E; [apply default_profiles_wire|]. rewrite <- E.
  apply Forall_forall. intros q (profile & _ & Hq)%list_elem_of_omap.
  destruct (find_first _ _); [|done]. injection Hq as <-. apply endpoint_profile_wire.
Qed.

Lemma defaults_wire policy defaults :
  wire_policy policy → wire_policy (apply_app_connectivity_defaults policy defaults).
Proof. intros (_ & Hv & Hk). split; [apply retargeted_wire|done]. Qed.

Lemma handle_added s handle gid :
  oh_group_id handle = gid →
  has_openmls_handle {| s with st_openmls_groups := st_openmls_groups s ++ [handle] |} gid = true.
Proof.
  intros <-. unfold has_openmls_handle. cbn [st_openmls_groups]. rewrite existsb_app. cbn.
  by rewrite str_eqb_refl, orb_true_r.
Qed.

Lemma ensure_group_ok store_path gid s created :
  has_openmls_handle s gid = false → mls_create_group gid (as_bytes (local_user_id s)) = Ok created →
  ∃ s', ensure_openmls_group store_path gid s = Ok s' ∧ st_groups s' = st_groups s ∧
    has_openmls_handle s' gid = true.
Proof.
  intros Hh Hc. unfold ensure_openmls_group. rewrite Hh, Hc. destruct created as [[signer epoch] tag].
  eexists. split; [reflexivity|]. split; [done|].
  match goal with |- has_openmls_handle (push_event _ _ ?s) _ = _ =>
    change (has_openmls_handle s gid = true) end.
  by apply handle_added.
Qed.

(** The creator is the only member, as owner under the profile's key. *)
Definition solely_owned (g : GroupView) (member_id key : string) : Prop :=
  ∃ owner, gv_members g = [owner] ∧ gm_member_id owner = member_id ∧ gm_role owner = RoleOwner ∧
    gm_signer_public_key_hex owner = Some key ∧ gv_role g = "owner"%string.

(** Creating a group of a new name adds that group, owned by its creator alone under the key of
    the profile, with a policy that can travel in an invite, founds its MLS group and shows it; the
    groups that were there stay as they were. *)
Theorem created_group_is_owned now store_path request d created :
  let s := da_app d in
  let name := normalize_label (cg_name request) "private lab" in
  let gid := stable_id "group" name (st_next_sequence s) in
  let d' := create_group now store_path request d in
  existsb (λ g, gv_name g =s name) (st_groups s) = false →
  has_openmls_handle s gid = false →
  mls_create_group gid (as_bytes (local_user_id s)) = Ok created →
  ∃ g c, st_groups (da_app d') = st_groups s ++ [g] ∧
    gv_group_id g = gid ∧ gv_name g = name ∧
    solely_owned g (local_user_id s) (public_key_hex (identity_signing_key s).2) ∧
    gv_connectivity g = Some c ∧ wire_policy c ∧
    has_openmls_handle (da_app d') gid = true ∧
    st_active_context (da_app d') = Some (group_context gid).
Proof.
  intros s name gid d' Hname Hh Hmls. subst d'. unfold create_group. fold s name gid. rewrite Hname.
  unfold founded_group, local_group_runtime_peer_id.
  destruct (identity_key_frame s) as [seed Hs].
  destruct (identity_signing_key s) as [s0 k]. cbn [fst snd] in *. subst s0.
  destruct (identity_key_frame {| s with st_identity_seed_hex := seed |}) as [seed' Hs'].
  destruct (identity_signing_key {| s with st_identity_seed_hex := seed |}) as [s1 k']. cbn [fst] in Hs'.
  subst s1. cbv zeta. cbn [st_groups].
  match goal with |- context [st_groups s ++ [?x]] => set (g := x) end.
  assert (find_first (λ g, gv_name g =s name) (st_groups s ++ [g]) = Some g) as ->.
  { apply find_first_app_new; [by apply find_first_none|apply str_eqb_refl]. }
  cbn [from_option]. change (gv_group_id g) with gid.
  match goal with |- context [ensure_openmls_group store_path gid ?s] =>
    destruct (ensure_group_ok store_path gid s created) as (s2 & -> & Hg2 & Hh2); [done..|] end.
  eexists g, _. split; [exact Hg2|]. split; [done|]. split; [done|]. split; [by eexists|].
  split; [reflexivity|]. split; [|split; [exact Hh2|done]].
  case_match; [apply group_policy_wire|apply defaults_wire, group_policy_wire].
Qed.

(** Creating a group takes a group by its name, whoever it belongs to: for a group the user has
    asked to join under that name, the command founds an MLS group of its own under the foreign
    identifier, and the request for admission can no longer be queued. *)
Theorem name_collision_blocks_admission now store_path request d created g engine :
  let s := da_app d in
  let name := normalize_label (cg_name request) "private lab" in
  let d' := create_group now store_path request d in
  find_first (λ g, gv_name g =s name) (st_groups s) = Some g →
  has_openmls_handle s (gv_group_id g) = false →
  mls_create_group (gv_group_id g) (as_bytes (local_user_id s)) = Ok created →
  st_groups (da_app d') = st_groups s ∧
  has_openmls_handle (da_app d') (gv_group_id g) = true ∧
  queue_openmls_admission_key_package engine (gv_group_id g) (da_app d') = (da_app d', Ok tt).
Proof.
  intros s name d' Hname Hh Hmls. subst d'. unfold create_group. fold s name.
  assert (existsb (λ g, gv_name g =s name) (st_groups s) = true) as ->.
  { destruct (find_first_some _ _ _ Hname) as [Hin Hp]. apply existsb_exists. exists g.
    split; [by apply list_elem_of_In|done]. }
  cbv zeta. rewrite Hname. cbn [from_option].
  destruct (ensure_group_ok store_path _ s created Hh Hmls) as (s2 & -> & Hg2 & Hh2). cbn [da_app].
  match goal with |- context [has_openmls_handle ?x _] => assert (has_openmls_handle x (gv_group_id g) = true) as Hh' by exact Hh2 end.
  split; [exact Hg2|]. split; [exact Hh'|]. unfold queue_openmls_admission_key_package. by rewrite Hh'.
Qed.

(** ** Channels replicate *)

Lemma push_channel_id channel g : gv_group_id (push_channel channel g) = gv_group_id g.
Proof. done. Qed.

(** A new channel reaches the other members: the command adds it for the actor and queues one
    signed schema, and every peer whose roster knows the actor as admitted staff under its key, with
    an older schema, ends with the same channels. *)
Theorem created_channel_replicates `{!Ed25519Laws, !HexLaws} now request s group snap :
  let gid := cc_group_id request in
  let '(s0, k) := identity_signing_key s in
  let name := normalize_channel_name (cc_name request) (cc_kind request) in
  let channel := new_channel now request name s0 in
  let id := schema_event_id gid channel s0 in
  let frame := GroupChannelSchemaUpdated gid id snap in
  let grown := update_group gid (push_channel channel) s0 in
  let s' := create_channel now request s in
  channel_command_group gid (public_key_hex k) s0 = Ok group →
  find_first (λ c, bool_decide (ch_kind c = cc_kind request) && (ch_name c =s name))
    (gv_channels group) = None →
  (signed_group_channel_schema_snapshot gid (dt_to_rfc3339 now) grown).2 = Ok snap →
  queues_new id frame (identity_signing_key grown).1 →
  (∃ g', find_group gid s' = Some g' ∧ gv_channels g' = gv_channels group ++ [channel]) ∧
  (∃ record, record ∈ st_text_control_outbox s' ∧ ob_frame record = frame) ∧
  ∀ r h actor,
    find_group gid r = Some h →
    find_first (λ m, is_member (local_user_id s) m && group_member_is_admitted_for_runtime m)
      (gv_members h) = Some actor →
    can_manage_members (gm_role actor) = true →
    gm_signer_public_key_hex actor = Some (public_key_hex (identity_signing_key grown).2) →
    gv_channel_schema_epoch h < csn_schema_epoch snap →
    is_ok (channels_to_vec (gv_channels h)) = true →
    ∃ r' h', apply_group_channel_schema_snapshot gid id snap r = Ok (r', true) ∧
      find_group gid r' = Some h' ∧ gv_channels h' = gv_channels group ++ [channel].
Proof.
  intros gid. destruct (identity_key_frame s) as [seed Hs].
  destruct (identity_signing_key s) as [s0 k] eqn:Ek. cbn [fst] in Hs.
  intros name channel id frame grown s' Hgroup Hfresh Hsnap Hq.
  assert (find_group gid s0 = Some group) as Hg.
  { unfold channel_command_group in Hgroup. apply rbind_ok in Hgroup as (g & Hg%require_some_ok & R).
    apply rbind_ok in R as (? & _ & R). apply rbind_ok in R as (? & _ & [= <-]). exact Hg. }
  assert (find_group gid s = Some group) as Hgs by (rewrite <- Hg, Hs; done).
  assert (find_group gid grown = Some (push_channel channel group)) as Hgrown.
  { subst grown. rewrite find_update_group by done. by rewrite Hg. }
  destruct (signed_group_channel_schema_snapshot gid (dt_to_rfc3339 now) grown) as [s1 r1] eqn:Hsig.
  cbn [snd] in Hsnap. subst r1. pose proof (signed_snapshot_state _ _ _ _ _ Hsig) as Hs1.
  destruct (queued_frame (group_control_target gid) id frame s1) as
    (s2 & record & Hs2 & Hin & Hframe & _ & _ & Hg2 & _); [done|by rewrite Hs1|].
  assert (find_group gid s1 = Some (push_channel channel group)) as Hg1.
  { rewrite <- Hgrown, Hs1. destruct (identity_key_frame grown) as [seed' ->]. done. }
  assert (s' = publish_channel now gid group channel s0) as Hs'.
  { subst s'. unfold create_channel. fold gid. rewrite Hgs, Ek. cbn [prod_map fst snd].
    change (Datatypes.id s0) with s0. rewrite Hgroup. fold name. by rewrite Hfresh. }
  assert (∃ entry context, s' = push_event "channel.created"
    ("Created channel " +:+ redacted_observable_ref "channel" (ch_name channel)
     +:+ " and queued authority replication")
    (focus context (update_group gid (log_governance entry) s2))) as (entry & context & Hend).
  { rewrite Hs'. unfold publish_channel. fold grown. rewrite Hsig. fold id.
    unfold queue_group_governance_frame. fold frame. rewrite Hs2. by eexists _, _. }
  clear Hs'. rewrite Hend. split_and!.
  - exists (log_governance entry (push_channel channel group)). split; [|done].
    rewrite find_group_push_event.
    change (find_group gid (focus context ?x)) with (find_group gid x).
    rewrite find_update_group by done. rewrite (find_group_ext gid s2 s1) by done. by rewrite Hg1.
  - exists record. split; [exact Hin|done].
  - intros r h actor Hh Ha Hman Hkey Hepoch Hvec.
    assert (local_user_id grown = local_user_id s) as Hlocal by (subst grown; rewrite Hs; done).
    destruct (signed_schema_lands gid _ id grown s1 snap r h actor Hsig Hh) as (Hap & g & Hg' & Hc & _);
      [by rewrite Hlocal|done..|].
    eexists _, (schema_applied gid id snap h). split; [exact Hap|].
    rewrite find_group_settle, find_update_group by apply schema_applied_id. rewrite Hh.
    split; [done|]. rewrite Hg1 in Hg'. injection Hg' as <-.
    change (gv_channels group ++ [channel]) with (gv_channels (push_channel channel group)).
    rewrite <- Hc.
    unfold schema_applied. by destruct (has_event _ _).
Qed.

(** A channel that cannot be signed for is taken back. *)
Lemma unsigned_channel_is_taken_back now gid group channel s error :
  find_group gid s = Some group →
  (signed_group_channel_schema_snapshot gid (dt_to_rfc3339 now)
     (update_group gid (push_channel channel) s)).2 = Err error →
  find_group gid (publish_channel now gid group channel s) = Some group.
Proof.
  intros Hg. unfold publish_channel.
  destruct (signed_group_channel_schema_snapshot _ _ _) as [s1 r] eqn:Hsig. cbn [snd]. intros ->.
  pose proof (signed_snapshot_state _ _ _ _ _ Hsig) as ->.
  destruct (identity_key_frame (update_group gid (push_channel channel) s)) as [seed ->].
  change (find_group gid (push_command_error ?a ?b ?c ?d ?e ?f ?x)) with (find_group gid x).
  rewrite find_update_group by done.
  change (find_group gid {| ?x with st_identity_seed_hex := seed |}) with (find_group gid x).
  rewrite find_update_group by done. rewrite Hg. by destruct group.
Qed.
End founding.

(** ** Invites are never used up *)

Section uses.
Context `{Sha256, Ed25519, Hex, HmacSha1, Base64, Aes256Gcm, Chrono, !Rfc3339, !SigningSeed,
  !FrameJson, !ErrorTexts, !AppEnvironment, !InviteJson, !GroupFounder}.

(** The commands of this file that can touch invites, and the others. *)
Inductive OpeningCall :=
| CallCreateGroup (now : datetime) (store_path : string) (request : CreateGroupRequest)
| CallCreateInvite (now : datetime) (random : InviteRandom) (request : CreateInviteRequest)
| CallJoinGroup (engine : MlsEngine) (now : datetime) (request : JoinGroupRequest)
| CallStartDm (friend_alias display_name : string)
| CallCreateDmInvite (now : datetime) (random : InviteRandom) (request : CreateDmInviteRequest)
| CallAcceptDmInvite (now : datetime) (request : AcceptDmInviteRequest)
| CallCreateChannel (now : datetime) (request : CreateChannelRequest)
| CallOther (f : PersistedAppState → PersistedAppState).

Definition opening_step (call : OpeningCall) (d : DeskApp) : option DeskApp :=
  match call with
  | CallCreateGroup now store_path request => Some (create_group now store_path request d)
  | CallCreateInvite now random request => create_invite now random request d
  | CallJoinGroup engine now request => join_group engine now request d
  | CallStartDm friend_alias display_name => Some (start_dm friend_alias display_name d)
  | CallCreateDmInvite now random request => create_dm_invite now random request d
  | CallAcceptDmInvite now request => Some (accept_dm_invite now request d)
  | CallCreateChannel now request => Some (map_app (create_channel now request) d)
  | CallOther f => Some (map_app f d)
  end.

Fixpoint opening_run (calls : list OpeningCall) (d : DeskApp) : option DeskApp :=
  match calls with
  | [] => Some d
  | call :: calls => d ← opening_step call d; opening_run calls d
  end.

Lemma run_one call d d' : opening_step call d = Some d' → opening_run [call] d = Some d'.
Proof. intros Hs. cbn [opening_run]. by rewrite Hs. Qed.

(** A row as it is made: not revoked, and counted once at most. *)
Definition new_row (i : InviteView) : Prop := iv_revoked i = false ∧ iv_uses i ≤ 1.

Definition invites_grow (d d' : DeskApp) : Prop :=
  ∃ rows, da_invites d' = da_invites d ++ rows ∧ Forall new_row rows.

#[local] Instance invites_grow_preorder : PreOrder invites_grow.
Proof.
  split.
  - intros d. exists []. by rewrite app_nil_r.
  - intros d1 d2 d3 (l & El & Hl) (k & Ek & Hk). exists (l ++ k).
    by rewrite Ek, El, app_assoc, Forall_app.
Qed.

Lemma grow_same d d' : da_invites d' = da_invites d → invites_grow d d'.
Proof. intros Heq. exists []. by rewrite Heq, app_nil_r. Qed.

Lemma grow_by d d' i : da_invites d' = da_invites d ++ [i] → new_row i → invites_grow d d'.
Proof. intros Heq Hi. exists [i]. rewrite Heq. by repeat constructor; apply Hi. Qed.

Lemma group_invite_new now random request gid s descriptor i :
  group_invite now random request gid s = Ok (descriptor, i) → new_row i.
Proof.
  unfold group_invite. intros R. do 7 apply rbind_ok in R as (? & _ & R).
  apply rbind_ok in R as (? & _ & R). apply rbind_ok in R as (? & _ & [= _ <-]). by split.
Qed.

Lemma dm_invite_new now random request dm s i : dm_invite now random request dm s = Ok i → new_row i.
Proof.
  unfold dm_invite. intros R. do 4 apply rbind_ok in R as (? & _ & R).
  apply rbind_ok in R as (? & _ & [= <-]). by split.
Qed.

Lemma use_link_grows engine now request code d : invites_grow d (use_group_link engine now request code d).
Proof.
  unfold use_group_link. case_match; [repeat case_match; by apply grow_same|].
  repeat case_match; try by apply grow_same. all: by eapply grow_by.
Qed.

Lemma opening_step_grows call d d' : opening_step call d = Some d' → invites_grow d d'.
Proof.
  destruct call; cbn [opening_step]; intros R; try (injection R as <-; by apply grow_same).
  - unfold create_invite in R. case_match; [|injection R as <-; by apply grow_same].
    apply bind_Some in R as ([abuse allowed] & _ & R).
    destruct allowed; cbn [negb] in R; [|injection R as <-; by apply grow_same].
    destruct (group_invite _ _ _ _ _) as [[descriptor i]|[|]] eqn:Hg; [|done|injection R as <-; by apply grow_same].
    apply bind_Some in R as ([abuse' allowed'] & _ & R).
    destruct allowed'; cbn [negb] in R; injection R as <-; [|by apply grow_same].
    eapply grow_by; [done|by eapply group_invite_new].
  - unfold join_group in R. apply bind_Some in R as ([abuse allowed] & _ & R).
    destruct allowed; cbn [negb] in R; [|injection R as <-; by apply grow_same].
    apply bind_Some in R as ([s allowed'] & _ & R).
    destruct allowed'; cbn [negb] in R; injection R as <-; [|by apply grow_same].
    etrans; [|apply use_link_grows]. by apply grow_same.
  - unfold create_dm_invite in R. case_match; [|injection R as <-; by apply grow_same].
    case_match; [|injection R as <-; by apply grow_same].
    apply bind_Some in R as ([abuse allowed] & _ & R).
    destruct allowed; cbn [negb] in R; [|injection R as <-; by apply grow_same].
    destruct (dm_invite _ _ _ _ _) as [i|[|]] eqn:Hd; [|done|injection R as <-; by apply grow_same].
    injection R as <-. eapply grow_by; [done|by eapply dm_invite_new].
  - injection R as <-. unfold accept_dm_invite. repeat case_match; try by apply grow_same.
    all: by eapply grow_by.
Qed.

Lemma max_uses_positive label : 0 < parse_max_uses label.
Proof. unfold parse_max_uses. repeat case_match; try lia. by apply N.ltb_lt. Qed.

(** The application never counts a use against an invite it issued and never revokes one: over
    any run of commands the invites that were there stay as they are, new ones are appended
    unrevoked, and one whose count is zero, as every issued invite's, is never refused as used up.
    The limit on uses is only ever checked, not enforced. *)
Theorem issued_invites_are_never_used_up calls d d' :
  opening_run calls d = Some d' →
  ∃ rows, da_invites d' = da_invites d ++ rows ∧ Forall new_row rows ∧
    ∀ i now, i ∈ da_invites d' → iv_uses i = 0 →
      validate_local_invite_usable i now ≠ Err invite_exhausted_failure.
Proof.
  intros R. assert (invites_grow d d') as (rows & Heq & Hrows).
  { revert d R. induction calls as [|call calls IH]; intros d; cbn [opening_run].
    - intros [= <-]. done.
    - intros (d1 & H1' & R)%bind_Some. etrans; [by eapply opening_step_grows|auto]. }
  exists rows. split; [done|]. split; [done|]. intros i now _ Hu.
  unfold validate_local_invite_usable. destruct (iv_revoked i); [done|]. cbn [reject_if rbind].
  destruct (from_option _ _ _); [done|]. cbn [reject_if rbind]. rewrite Hu.
  by rewrite (proj2 (N.leb_gt _ _)) by apply max_uses_positive.
Qed.
End uses.

(** ** Concrete conversations *)

Module JoinToy.

#[local] Existing Instance Toy.toy_sha.
#[local] Existing Instance Toy.toy_ed.
#[local] Existing Instance Toy.toy_hex.
#[local] Existing Instance Toy.toy_hmac.
#[local] Existing Instance Toy.toy_b64.
#[local] Existing Instance Toy.toy_aead.
#[local] Existing Instance Toy.toy_chrono.
#[local] Existing Instance Toy.toy_rfc3339.
#[local] Existing Instance DeskToy.toy_seed.
#[local] Existing Instance DeskToy.toy_json.
#[local] Existing Instance DeskToy.toy_texts.
#[local] Existing Instance InviteToy.environment.

Definition founder : GroupFounder := λ _ _, Ok ([1], 0, [2]).

Definition policy : ConnectivityPolicyView := group_connectivity_policy "crew".

Definition crew : GroupView := {| (GroupToy.crew 2 [GroupToy.lobby]) with gv_connectivity := Some policy |}.

Definition desk (s : PersistedAppState) : DeskApp :=
  {| da_app := s; da_invites := []; da_connectivity_defaults := app_connectivity_defaults |}.

Definition host : DeskApp := desk {| GroupToy.alice with st_groups := [crew] |}.
Definition guest : DeskApp := desk {| GroupToy.bob with st_groups := [] |}.

Definition random : InviteRandom := {| ir_issuer := Toy.bob; ir_invite_key := "u"; ir_opaque := [9; 9] |}.

Definition invite_request : CreateInviteRequest :=
  {| ci_group_id := Some "crew"%string; ci_expires := "1 day"; ci_max_use := "3 uses"; ci_password_gate := None |}.

(** Descriptors do not depend on how they are written out. *)
Definition mute_json : InviteJson := {| invite_to_vec _ := Ok []; invite_from_slice _ := None |}.

Definition no_invite : InviteView :=
  issued_invite_view policy signaling_default_production toy_descriptor "" None "" "" "" "" "".

Section drafts.
#[local] Existing Instance mute_json.

Definition crew_draft : result (StoredInvite * InviteView) GovError :=
  group_invite (GroupToy.instant 1) random invite_request "crew" (da_app host).

Definition crew_descriptor : StoredInvite :=
  (GroupToy.unwrap (toy_descriptor, no_invite) crew_draft).1.

Definition friend : DirectConversationView := {|
  dc_dm_id := "dm-bob-1"; dc_participant_id := "participant-bob-1"; dc_display_name := "Bob";
  dc_local_only_copy := ""; dc_runtime_peers := [];
  dc_connectivity := Some (dm_connectivity_policy "dm-bob-1" "participant-bob-1")
|}.

Definition caller : DeskApp := desk {| GroupToy.alice with st_dms := [friend] |}.

Definition dm_request : CreateDmInviteRequest :=
  {| cdi_dm_id := None; cdi_expires := "1 day"; cdi_max_use := "1" |}.

(** What [dm_invite] signs. *)
Definition dm_descriptor : StoredInvite :=
  match bootstrap_metadata_from_connectivity (dm_connectivity_policy "dm-bob-1" "participant-bob-1"),
        invite_signaling_metadata_from_connectivity (dm_connectivity_policy "dm-bob-1" "participant-bob-1")
          "signed endpoint fingerprint; verify before DM accept",
        invite_expiry (GroupToy.instant 1) "1 day" with
  | Ok bootstrap, Ok signaling, Ok expires_at =>
      match (issue_invite_with_bootstrap_metadata [9; 9] (as_bytes "dm-contact-secret:dm-bob-1:u:7")
               expires_at 1 signaling bootstrap Toy.bob ∅).2 with
      | Ok i => i
      | Err _ => toy_descriptor
      end
  | _, _, _ => toy_descriptor
  end.
End drafts.

End JoinToy.

Section witnesses.
#[local] Existing Instance Toy.toy_sha.
#[local] Existing Instance Toy.toy_sha_laws.
#[local] Existing Instance Toy.toy_ed.
#[local] Existing Instance Toy.toy_ed_laws.
#[local] Existing Instance Toy.toy_hex.
#[local] Existing Instance Toy.toy_hex_laws.
#[local] Existing Instance Toy.toy_hmac.
#[local] Existing Instance Toy.toy_b64.
#[local] Existing Instance Toy.toy_b64_laws.
#[local] Existing Instance Toy.toy_aead.
#[local] Existing Instance Toy.toy_chrono.
#[local] Existing Instance Toy.toy_rfc3339.
#[local] Existing Instance Toy.toy_rfc3339_laws.
#[local] Existing Instance DeskToy.toy_seed.
#[local] Existing Instance DeskToy.toy_json.
#[local] Existing Instance DeskToy.toy_texts.
#[local] Existing Instance InviteToy.environment.
#[local] Existing Instance InviteToy.url_safe_laws.
#[local] Existing Instance JoinToy.founder.

#[local] Instance joined_json : InviteJson :=
  InviteToy.numbered [JoinToy.crew_descriptor; JoinToy.dm_descriptor].
#[local] Instance joined_json_laws : InviteJsonLaws := InviteToy.numbered_laws _.

Notation issued := (create_invite (GroupToy.instant 1) JoinToy.random JoinToy.invite_request JoinToy.host).

Definition row : InviteView :=
  Eval vm_compute in default JoinToy.no_invite (head (da_invites (default JoinToy.host issued))).

Lemma issued_invites : da_invites <$> issued = Some [row].
Proof. vm_compute. reflexivity. Qed.

Lemma issued_one : ∃ d', issued = Some d' ∧ da_invites d' = da_invites JoinToy.host ++ [row].
Proof.
  pose proof issued_invites as Heq. destruct issued as [d'|]; [|done]. exists d'. split; [done|].
  injection Heq as Heq. exact Heq.
Qed.

Lemma toy_frames_written (frame : TextControlFrameView) : is_ok (text_control_frame_sha256 frame) = true.
Proof. by destruct frame. Qed.

Lemma toy_year (z : Z) : (0 ≤ z < 1000000)%Z → four_digit_year (GroupToy.instant z).
Proof. unfold four_digit_year, GroupToy.instant. simpl. lia. Qed.

Lemma crew_policy_wire : wire_policy JoinToy.policy.
Proof. apply group_policy_wire. Qed.

Notation consume_key := ("consume:" +:+ local_user_id (da_app JoinToy.guest) +:+ ":"
                         +:+ invite_code_fingerprint (iv_code row)).
Notation limit1 := (allow_invite_consume (st_abuse (da_app JoinToy.guest)) consume_key (GroupToy.instant 2)).
Notation abuse1 := (default (DeskToy.empty_abuse, false) limit1).1.
Notation limit2 := (allow_admission_helper abuse1 consume_key (GroupToy.instant 2)).
Notation abuse2 := (default (DeskToy.empty_abuse, false) limit2).1.

Lemma allowed_default {A} (x : A * bool) (o : option (A * bool)) :
  from_option snd false o = true → o = Some ((default x o).1, true).
Proof. destruct o as [[a b]|]; [|done]. simpl. by intros ->. Qed.

Lemma invited_member_reaches_the_group_witness :
  ∃ e' h, join_group AdmissionToy.engine (GroupToy.instant 2)
            {| jg_invite_code := iv_code row; jg_group_name := None |} JoinToy.guest = Some e' ∧
    find_group "crew" (da_app e') = Some h ∧ gv_role h = "pending"%string.
Proof.
  destruct issued_one as (d' & Hissued & Hone).
  destruct (invited_member_reaches_the_group (GroupToy.instant 1) JoinToy.random JoinToy.invite_request
    JoinToy.host d' row JoinToy.crew JoinToy.policy (GroupToy.instant 86401) AdmissionToy.engine
    (GroupToy.instant 2) None JoinToy.guest abuse1 abuse2 [9] [7])
    as (e' & h & c' & Hjoin & Hh & Hrole & _).
  - exact Hissued.
  - exact Hone.
  - reflexivity.
  - reflexivity.
  - exact crew_policy_wire.
  - reflexivity.
  - vm_compute. reflexivity.
  - apply toy_year. lia.
  - reflexivity.
  - reflexivity.
  - reflexivity.
  - reflexivity.
  - apply allowed_default. vm_compute. reflexivity.
  - apply allowed_default. vm_compute. reflexivity.
  - reflexivity.
  - exact toy_frames_written.
  - reflexivity.
  - exists e', h. by split_and!.
Defined.

Lemma row_issued : issued_row row JoinToy.policy (Some "crew"%string) (GroupToy.instant 86401).
Proof.
  destruct issued_one as (d' & Hissued & Hone).
  destruct (create_invite_row _ _ _ _ _ row Hissued Hone) as (expires_at & Hexp & Hrow).
  assert (expires_at = GroupToy.instant 86401) as ->; [|exact Hrow].
  revert Hexp. vm_compute. congruence.
Qed.

(** Alice, who owns the crew, uses a link Bob's key signed. *)
Lemma any_link_rewires_the_group_witness :
  let d := JoinToy.desk {| GroupToy.alice with st_openmls_groups := [AdmissionToy.handle] |} in
  ∃ h, find_group "crew" (da_app (use_group_link AdmissionToy.engine (GroupToy.instant 2)
         {| jg_invite_code := iv_code row; jg_group_name := None |} (iv_code row) d)) = Some h ∧
    gv_role h = "member"%string.
Proof.
  intros d.
  destruct (any_link_rewires_the_group row JoinToy.policy "crew" (GroupToy.instant 86401)
    AdmissionToy.engine (GroupToy.instant 2) {| jg_invite_code := iv_code row; jg_group_name := None |}
    d (GroupToy.crew 2 [GroupToy.lobby])) as (h & c' & Hh & _ & Hrole & _).
  - exact row_issued.
  - exact crew_policy_wire.
  - reflexivity.
  - apply toy_year. lia.
  - reflexivity.
  - reflexivity.
  - reflexivity.
  - reflexivity.
  - exists h. by split.
Defined.

Notation dm_issued := (create_dm_invite (GroupToy.instant 1) JoinToy.random JoinToy.dm_request JoinToy.caller).

Definition dm_row : InviteView :=
  Eval vm_compute in default JoinToy.no_invite (head (da_invites (default JoinToy.caller dm_issued))).

Lemma dm_issued_invites : da_invites <$> dm_issued = Some [dm_row].
Proof. vm_compute. reflexivity. Qed.

Lemma dm_issued_one :
  ∃ d', dm_issued = Some d' ∧ da_invites d' = da_invites JoinToy.caller ++ [dm_row].
Proof.
  pose proof dm_issued_invites as Heq. destruct dm_issued as [d'|]; [|done]. exists d'.
  split; [done|]. injection Heq as Heq. exact Heq.
Qed.

Lemma contact_invite_opens_the_scope_witness :
  let e' := accept_dm_invite (GroupToy.instant 2)
              {| adi_invite_code := iv_code dm_row; adi_display_name := None |} JoinToy.guest in
  ∃ dm peer, st_dms (da_app e') = [dm] ∧ dc_runtime_peers dm = [peer] ∧ dp_role peer = "reply"%string.
Proof.
  intros e'. destruct dm_issued_one as (d' & Hissued & Hone).
  destruct (contact_invite_opens_the_scope (GroupToy.instant 1) JoinToy.random JoinToy.dm_request
    JoinToy.caller d' dm_row "dm-bob-1" JoinToy.friend
    (dm_connectivity_policy "dm-bob-1" "participant-bob-1") (GroupToy.instant 86401)
    (GroupToy.instant 2) None JoinToy.guest) as (dm & c' & peer & Hdm & _ & _ & Hpeer & Hrole & _).
  - exact Hissued.
  - exact Hone.
  - reflexivity.
  - reflexivity.
  - reflexivity.
  - apply dm_policy_wire.
  - reflexivity.
  - vm_compute. reflexivity.
  - apply toy_year. lia.
  - reflexivity.
  - reflexivity.
  - reflexivity.
  - exists dm, peer. by split_and!.
Defined.

Definition lab_request : CreateGroupRequest := {|
  cg_name := "Lab"; cg_retention := "7 days"; cg_admission_mode := None; cg_adapter_kind := None;
  cg_signaling_endpoint := None; cg_ice_stun_servers := None; cg_ice_turn_servers := None
|}.

Lemma created_group_is_owned_witness :
  ∃ g, st_groups (da_app (create_group (GroupToy.instant 1) "store" lab_request JoinToy.host)) =
       [JoinToy.crew; g] ∧ gv_name g = "Lab"%string.
Proof.
  destruct (created_group_is_owned (GroupToy.instant 1) "store" lab_request JoinToy.host ([1], 0, [2]))
    as (g & c & Hg & _ & Hname & _).
  - reflexivity.
  - reflexivity.
  - reflexivity.
  - exists g. by split.
Defined.

Lemma name_collision_blocks_admission_witness :
  let d := JoinToy.desk {| GroupToy.bob with st_groups := [AdmissionToy.joiner_group] |} in
  has_openmls_handle (da_app (create_group (GroupToy.instant 1) "store"
    {| lab_request with cg_name := "Crew" |} d)) "crew" = true.
Proof.
  intros d.
  destruct (name_collision_blocks_admission (GroupToy.instant 1) "store"
    {| lab_request with cg_name := "Crew" |} d ([1], 0, [2]) AdmissionToy.joiner_group
    AdmissionToy.engine) as (_ & Hh & _); [reflexivity..|]. exact Hh.
Defined.

Lemma issued_invites_are_never_used_up_witness :
  ∃ d', issued = Some d' ∧ ∃ rows, da_invites d' = rows ∧ Forall new_row rows.
Proof.
  destruct issued_one as (d' & Hissued & _). exists d'. split; [exact Hissued|].
  destruct (issued_invites_are_never_used_up
    [CallCreateInvite (GroupToy.instant 1) JoinToy.random JoinToy.invite_request]
    JoinToy.host d') as (rows & Hrows & Hnew & _).
  - apply run_one. exact Hissued.
  - exists rows. by split.
Defined.

Definition ops_request : CreateChannelRequest := {|
  cc_group_id := "crew"; cc_name := "##ops"; cc_kind := TextChannel; cc_retention_status := "" |}.

Definition ops : ChannelStateView := new_channel (GroupToy.instant 1) ops_request "#ops" GroupToy.alice.

Notation ops_schema := (GroupToy.unwrap GroupToy.no_schema
  (signed_group_channel_schema_snapshot "crew" (dt_to_rfc3339 (GroupToy.instant 1))
     (update_group "crew" (push_channel ops) GroupToy.alice)).2).

Lemma created_channel_replicates_witness :
  ∃ g, find_group "crew" (create_channel (GroupToy.instant 1) ops_request GroupToy.alice) = Some g ∧
    gv_channels g = [GroupToy.lobby; ops].
Proof.
  destruct (created_channel_replicates (GroupToy.instant 1) ops_request GroupToy.alice
    (GroupToy.crew 2 [GroupToy.lobby]) ops_schema) as [H _].
  - reflexivity.
  - reflexivity.
  - apply GroupToy.unwrap_ok. vm_compute. reflexivity.
  - eexists. split; [reflexivity|]. intros r []%not_elem_of_nil.
  - exact H.
Defined.
End witnesses.
